(* ===== verification/_CoqProject ===== *)
-Q . S2P
Prelude.v
Bits.v
Events.v
Reader.v
Memory.v
LibC.v
Printf.v
SnappyBits.v
SnappyCompress.v
SnappyCopy.v
SnappyDecompress.v
Stat.v
State.v
HeapSort.v
IOQueue.v
TLBuffer.v
Context.v
Handlers.v
System.v
Runtime.v
Session.v
BitVector.v
BasicBitVector.v
TwoLevelBitVector.v
BitVectorSpec.v
BVGraph.v
DeadlockTLS.v
DeadlockDetector.v
DDetector.v
DenseAlloc.v
SyncClock.v
ClockTable.v
ThreadClock.v
ClockLoops.v
ClockStore.v
ClockSem.v
ClockOps.v
ClockLife.v
ClockSpec.v
Reach.v
SyncLoader.v
Windows.v
Allocator.v
Smt.v
Index.v
Solver.v
Predict.v
