(* ===== verification/Prelude.v ===== *)
(** * UFO: from the traced program to the predicted error

    UFO finds concurrency errors in C and C++ programs in two steps.  A runtime
    linked into the program ([src/ufo-rt/lib/tsan/rtl/ufo], inside LLVM's
    ThreadSanitizer runtime) records what every thread does in a binary trace,
    one file per thread; a predictor ([src/ufo-predict], Java) loads the traces
    and searches other schedules.  This development models the runtime, from the
    calls the sanitizer makes to the bytes of the files; the predictor, from
    those bytes to the schedule it reports; and of the sanitizer below the
    runtime the deadlock detector and the vector clocks.

    ** How the parts interact

    The sanitizer calls the interface ([ufo_interface.cc]), which dispatches
    through a table of function pointers to the handlers ([rtl_impl.h],
    [impl_mem_acc.h]) or to handlers that do nothing ([dummy_rtl.h]).  A handler
    appends a packed event ([ufo_interface.h]) to the buffer of its thread
    ([tlbuffer.h], [tlbuffer.cc]) and counts it ([ufo_stat.h]).  A full buffer is
    written to the thread's file, directly or through a queue that a worker
    thread empties ([io_queue.h], [io_queue.cc]), compressed with Snappy if the
    configuration says so.  The context ([ufo.h], [ufo.cc]) reads the
    configuration from the environment, names and makes the trace directory,
    owns all of this from [init_ufo] to [finish_ufo], and writes the table of
    modules, sorted with the sanitizer's heap sort ([sanitizer_common.h]), and
    the statistics.  Strings, memory blocks and formatted output are those of
    the sanitizer ([sanitizer_libc.cc], [sanitizer_printf.cc]).

    The predictor ([Session2.java]) goes over the files twice.  The first pass
    ([NewLoadingTask.java]) collects the synchronisation of all threads, from
    which [NewReachEngine.java] makes vector clocks that answer which node
    happens before which.  The second reads window after window
    ([EventLoader.java], [LoadingTask2.java]) and indexes each ([Indexer.java]):
    allocations are paired with frees ([Allocator.java]), accesses with the frees
    they may follow, and the nodes of shared addresses are kept.  For every
    such candidate [SimpleSolver.java] writes constraints on the order of the
    nodes, the external solver z3 is asked, and [Z3ModelReader.java] and
    [Z3Run.java] turn its answer into a schedule.

    Below the tracing runtime, the sanitizer keeps what it knows of threads and
    locks.  The deadlock detector ([sanitizer_deadlock_detector.h], behind the
    interface of [sanitizer_deadlock_detector1.cc]) keeps a graph of lock orders
    ([sanitizer_bvgraph.h]) whose rows are bit vectors
    ([sanitizer_bitvector.h]).  The vector clocks of threads and synchronisation
    objects ([tsan_clock.h], [tsan_clock.cc]) live in blocks of a slab allocator
    ([tsan_dense_alloc.h]).

    ** The files

    - [Prelude]: machine integers at their widths, bytes, the error monad
      [res], lists indexed by [Z], shared tactics and hints.
    - [Bits]: bit scans, powers of two and rounding ([sanitizer_common.h]).
    - [Events]: the packed structs and their byte layout ([ufo_interface.h]).
    - [Reader]: the predictor's loader ([LoadingTask2.java], [Bytes.java]).
    - [Memory]: blocks of byte cells, some not initialised.
    - [LibC], [Printf]: [sanitizer_libc.cc], [sanitizer_printf.cc].
    - [SnappyBits], [SnappyCompress], [SnappyCopy], [SnappyDecompress]: the
      Snappy library in [ufo/snappy].
    - [Stat]: counters and their output ([ufo_stat.h], [ufo_stat.cc]).
    - [State]: the structs of the runtime as records, and the operating system
      as a class of operations ([OSOps]) with its laws ([OSLaws]) and a small
      file system [sim] that satisfies them.  A write may take fewer bytes than
      it is given, or fail; besides the contents of a file ([os_bytes]) the laws
      have two history variables, all that was handed to [write] for it
      ([os_sent]) and whether some write was short ([os_short]).
    - [HeapSort]: [InternalSort] and [InternalLowerBound] ([sanitizer_common.h]).
    - [IOQueue]: the output queue; [Module Threads] has its interleavings.
    - [TLBuffer]: the trace buffers.
    - [Context]: configuration, directory, module table, statistics files
      ([ufo.cc], [defs.h]).
    - [Handlers]: the event handlers.
    - [System]: the invariant of the running system and the refinement of the
      handlers.
    - [Runtime]: the table of handlers, the life cycle ([ufo.cc]), the interface
      ([ufo_interface.cc]) and the empty handlers ([dummy_rtl.h]).
    - [Session]: a whole session, joined with the loader.
    - [BitVector]: the interface of bit vectors as a class [BVOps] with its laws
      [BVLaws]; [BasicBitVector] and [TwoLevelBitVector] implement it;
      [BitVectorSpec]: programs of calls against finite sets, with copies of a
      vector to itself ([BVSelf]).
    - [BVGraph]: graphs over any [BVLaws].
    - [DeadlockTLS], [DeadlockDetector], [DDetector]: the locks of a thread, the
      detector, and the interface the sanitizer calls, with threads, mutexes
      and reports.
    - [DenseAlloc]: the slab allocator, and its promise as the classes [SlabOps]
      and [SlabLaws], against which the clocks are proved.
    - [SyncClock], [ThreadClock]: the clocks of objects and of threads.
    - [ClockTable], [ClockLoops]: one table of clock elements in its blocks, and
      the loops over it; [ClockStore]: all tables, who shares them and their
      reference counts; [ClockSem]: the vectors the clocks stand for and why
      work may be skipped; [ClockOps], [ClockLife]: every operation.
    - [ClockSpec]: the system of threads and objects and the simple model.
    - [Reach]: the happens-before engine ([NewReachEngine.java],
      [VectorClock.java]); [SyncLoader]: the first pass that fills it.
    - [Windows]: the windows of the second pass ([EventLoader.java],
      [FileInfo.java]).
    - [Allocator]: pairs of allocations and frees ([Allocator.java]); the class
      [Engine] states what it and the index ask of the happens-before engine.
    - [Index]: the index of a window ([Indexer.java]).
    - [Smt]: the part of the solver's language that is used: its tokens, its
      expressions and what a script means.
    - [Solver]: the queries, the answer and the schedule ([SimpleSolver.java],
      [Z3ModelReader.java], [Z3Run.java], [Z3FastRun.java]); the classes
      [GetModel] and [Truthful] state what is asked of z3.
    - [Predict]: the engine of [SyncLoader] put behind the index of the window
      that [Windows] loads.

    A C++ method is a function of the object and the shared state ([core], with
    memory, operating system, context and queue; [run] adds the arrays
    [tlbufs] and [stat]; [world] adds the table of handlers, [g_started] and
    [uctx]).  It returns [res]: [Ok] with the result and the new state, or the
    error that ends it: [EDie] for a deliberate end of the process,
    [EOutOfBounds], [ENull] and [EUndef] for undefined behaviour, [EHang] for a
    wait that nothing ends.  So a theorem that an operation returns [Ok] is
    also one of memory safety.

    ** What is shown

    - From end to end: [Session.session_read_back], [System.trace_read_back],
      [Reader.load_trace]: the predictor loads exactly the nodes of the events
      the threads logged, up to its limit on events, if values are recorded and
      no write was short.
    - The system: [System.traces] abstracts the runtime to one byte sequence
      per open thread.  [init_ufo] establishes it ([Runtime.init_opens_main]),
      creating a thread extends it ([System.thread_created_opens]), every
      other handler refines the appending of one entry
      ([System.handlers_log]), and [finish_ufo] hands all of it to [write], so
      that the files equal it unless a write was short
      ([Runtime.run_completes]).
      [Runtime.dispatch_table] says which handler a call reaches.
    - Buffers and queue: [put_event] appends to the stream of its buffer, the
      worker keeps streams, [finish] completes them; a short write loses the
      rest of a buffer unnoticed ([TLBuffer.short_write_loses]); the queue is a
      FIFO in the sequential model and safe in every interleaving.
    - Snappy: decompression inverts compression; the decompressor agrees with a
      reference decoder on every input; the optimised copy agrees with the
      byte-by-byte one.
    - Configuration, module table, sorting, strings and formatted output: the
      functional behaviour on every branch, errors included.
    - Lock orders: bit vectors implement sets
      ([BitVectorSpec.two_level_refines_sets]), the graph search finds shortest
      paths ([BVGraph.shortest_path_found]), the detector never fails a check
      ([DDetector.detector_never_fails]), reports exactly the locks that close a
      cycle ([DDetector.deadlock_reported]) and keeps the graph free of cycles
      otherwise ([DDetector.unreported_lock_keeps_order]).
    - Clocks: every sequence of operations gives the vectors of the simple model
      ([ClockSpec.clocks_refine_vectors]), keeps every field in its range
      ([ClockSpec.clocks_well_typed]) and loses no block
      ([ClockSpec.clocks_free_blocks]).
    - The first pass: the engine has every synchronisation node and answers
      every question by the edges between them
      ([SyncLoader.first_pass_answers]); what it says is so in the recorded
      execution ([SyncLoader.first_pass_sound]), though it does not see order
      through two edges ([SyncLoader.Chain.order_lost]).
    - Windows: loading ends and has every event once, in order
      ([Windows.windows_cover]); both passes see the same nodes
      ([Windows.passes_agree]) but may number them differently
      ([Windows.Small.numbers_disagree]).
    - The index: no free is lost ([Allocator.frees_accounted]); shared addresses
      and candidates are exactly those of the definition
      ([Index.shared_exact]), the kept nodes are in order
      ([Index.window_indexed]), and so on for call stacks, dependent reads and
      lock pairs.  With the engine of the first pass, an access of a run that one
      window holds is dismissed only if it happens before the free
      ([Predict.dismissed_ordered]).
    - The solver: the text of a query means the order constraints it stands for
      ([Solver.query_means]), a report has an order that satisfies them, and its
      schedule, if one is asked for, follows it ([Solver.reported_schedule]),
      the text for a read whose value comes from another thread keeps it ([Solver.reads_consistent]), and the query for several frees asks
      for a harmless order ([Solver.must_reports_inside]).
    - Where the code does not do what it should: lost or hanging queue states,
      colliding file names, values stored behind a buffer or without their
      event, entries cut by the peephole tests, a loader that loses step
      on traces without values, results of [write] that nothing looks at, an
      index check of the bit vectors that lets the size through, and in the predictor lost order, lost lock pairs and
      constraints that are missing ([Solver.Start], [Solver.OwnWrite]).

    ** Bounds and fuel

    Integers wrap at the widths of the source.  Buffer sizes are those
    [read_config] accepts: at least one and less than 4096 megabytes
    ([cap_ok]).  The loops that are not structural take fuel, and none of the
    theorems is conditional on it: [LibC] and [Printf] recurse on the cells up
    to the end of the block; the compressor takes a unit per input byte
    ([compress_loop_ok]), the decompressor one per input byte, each tag consuming
    at least one; the loader one per byte of the file, each event being at least
    one byte long; the heap sorts one per element, the index moving by at least
    one; [push] and [stop] one per waiting request, which the worker's
    iteration removes.  In [Module Threads] nothing is bounded: any number of
    producers, steps and requests.  Loops over the members of a bit vector take
    a unit per possible member, the graph search a unit per node, which it
    visits once; the iterator of a clock a unit per element; [Resize] and
    [Unshare], which call each other, two units, since an empty clock is not
    shared.  The clocks' theorems are for at most [kMaxTid] threads, times of 42
    bits and a number of clocks for which the allocator has blocks
    ([ClockSpec.fits]); the detector's for fewer than 64 locks per thread, the
    size of its arrays.  In the predictor the loops over a file take a unit per
    byte, like the loader's; the discovery of new threads one per file, the
    loop over windows one per byte that is left and one per file
    ([Windows.enough]); the
    binary search for reads one per read, its range getting smaller with every
    step.

    What is not under [src] is a parameter: the order in which hash sets and
    hash maps are listed ([list_frees], [list_pairs], [list_model],
    [listing], [toShortArray]), the solver ([z3], a function from script to
    output) and the S-expression package ([parse]).  The theorems ask that a
    listing is a permutation; that after [sat] the values z3 lists, as the
    package reads them, are those of a model of the script ([Solver.GetModel]);
    and that what z3 decides about a script that declares its constants is true
    ([Solver.Truthful]).  The witnesses have concrete functions that do.

    ** What is not modelled

    The interaction of threads is modelled at the queue's mutex ([Threads]); the
    handlers themselves run without a lock on data of their own thread and are
    modelled one call at a time, in any order.  The operations of the detector
    and of a clock run under the lock of their owner and are modelled one at a
    time; the atomic reference counts of clock tables are single steps.  The end-to-end theorems are for
    uncompressed traces: the worker with compression depends on an
    uninitialised variable ([TLBuffer.queue_compression_dies]), and the loader
    leaves decompression to a separate tool ([TracePreprocessor.java]).  Debug output ([DPrintf]) expands to nothing.  Not
    modelled at all: the shadow memory and race detection of the host sanitizer
    and its interceptors, symbolised reports, the unused writers of Snappy, and of
    the predictor its options, its log and its reports, the parallel running of
    its tasks, and the engines, indexers and constraints that no session uses. *)
From stdpp Require Import base numbers list gmap.
From Stdlib Require Import ZArith Lia.

Local Open Scope Z_scope.

(** ** Machine integers

    A value of a w-bit unsigned C type is a [Z] kept in [0, 2^w) by [wrap w];
    a signed one is kept in [-2^(w-1), 2^(w-1)) by [swrap w]. *)

Definition wrap (w z : Z) : Z := z mod 2 ^ w.
Definition swrap (w z : Z) : Z := (z + 2 ^ (w - 1)) mod 2 ^ w - 2 ^ (w - 1).

Definition u8 (z : Z) : Z := wrap 8 z.
Definition u16 (z : Z) : Z := wrap 16 z.
Definition u32 (z : Z) : Z := wrap 32 z.
Definition u48 (z : Z) : Z := wrap 48 z.
Definition u64 (z : Z) : Z := wrap 64 z.
Definition s16 (z : Z) : Z := swrap 16 z.
Definition s32 (z : Z) : Z := swrap 32 z.
Definition s64 (z : Z) : Z := swrap 64 z.

Create HintDb width discriminated.

Lemma wrap_range w z : 0 <= w -> 0 <= wrap w z < 2 ^ w.
Proof. intros Hw. apply Z.mod_pos_bound, Z.pow_pos_nonneg; lia. Qed.

Lemma wrap_small w z : 0 <= z < 2 ^ w -> wrap w z = z.
Proof. intros Hz. by apply Z.mod_small. Qed.

Lemma wrap_wrap w z : 0 <= w -> wrap w (wrap w z) = wrap w z.
Proof. intros Hw. apply wrap_small, wrap_range, Hw. Qed.

Lemma swrap_small w z :
  1 <= w -> - 2 ^ (w - 1) <= z < 2 ^ (w - 1) -> swrap w z = z.
Proof.
  intros Hw Hz. unfold swrap.
  assert (2 ^ w = 2 * 2 ^ (w - 1)) as E.
  { replace w with (1 + (w - 1)) at 1 by lia. rewrite Z.pow_add_r by lia. lia. }
  rewrite Z.mod_small by lia. lia.
Qed.

Lemma swrap_range w z : 1 <= w -> - 2 ^ (w - 1) <= swrap w z < 2 ^ (w - 1).
Proof.
  intros Hw. unfold swrap.
  assert (2 ^ w = 2 * 2 ^ (w - 1)) as E.
  { replace w with (1 + (w - 1)) at 1 by lia. rewrite Z.pow_add_r by lia. lia. }
  pose proof (Z.mod_pos_bound (z + 2 ^ (w - 1)) (2 ^ w)) as B.
  assert (0 < 2 ^ (w - 1)) by (apply Z.pow_pos_nonneg; lia). lia.
Qed.

#[export] Hint Resolve wrap_range swrap_range : width.

(** Bits that do not overlap add up. *)
Lemma lor_low a b n :
  0 <= n -> 0 <= b < 2 ^ n -> Z.lor (a * 2 ^ n) b = a * 2 ^ n + b.
Proof.
  intros Hn Hb. rewrite <- (Z.shiftl_mul_pow2 a n) by lia.
  assert (Z.land (Z.shiftl a n) b = 0) as E.
  { apply Z.bits_inj'. intros i Hi. rewrite Z.land_spec, Z.bits_0.
    destruct (Z.lt_ge_cases i n) as [L|L].
    - by rewrite Z.shiftl_spec_low by lia.
    - replace b with (b mod 2 ^ n) by (apply Z.mod_small; lia).
      rewrite Z.mod_pow2_bits_high by lia. apply andb_false_r. }
  rewrite <- Z.lxor_lor by done. by rewrite <- Z.add_nocarry_lxor.
Qed.

(** ** Bytes in little-endian order *)

(** A byte of memory or of a file: a [Z] in [0, 256). *)
Definition byte_ok (b : Z) : Prop := 0 <= b < 256.

(** The [n] low bytes of [z], least significant first: how the x86 store of
    an [n]-byte integer lays it out. *)
Fixpoint le_bytes (n : nat) (z : Z) : list Z :=
  match n with
  | O => []
  | S m => z mod 256 :: le_bytes m (z / 256)
  end.

(** The unsigned integer stored in a list of bytes. *)
Fixpoint le_val (bs : list Z) : Z :=
  match bs with
  | [] => 0
  | b :: rest => b + 256 * le_val rest
  end.

Lemma length_le_bytes n z : length (le_bytes n z) = n.
Proof. revert z; induction n as [|n IH]; intros z; simpl; [done|]. by rewrite IH. Qed.

Lemma le_bytes_ok n z : Forall byte_ok (le_bytes n z).
Proof.
  revert z; induction n as [|n IH]; intros z; simpl; constructor; [|apply IH].
  apply Z.mod_pos_bound. lia.
Qed.

Lemma le_val_le_bytes n z : le_val (le_bytes n z) = z mod 2 ^ (8 * Z.of_nat n).
Proof.
  revert z; induction n as [|n IH]; intros z.
  - simpl. by rewrite Z.mod_1_r.
  - simpl le_val. rewrite IH.
    replace (8 * Z.of_nat (S n)) with (8 + 8 * Z.of_nat n) by lia.
    rewrite Z.pow_add_r by lia. change (2 ^ 8) with 256.
    rewrite Z.rem_mul_r; [done|lia|]. apply Z.pow_pos_nonneg; lia.
Qed.

Lemma le_val_range bs :
  Forall byte_ok bs -> 0 <= le_val bs < 2 ^ (8 * Z.of_nat (length bs)).
Proof.
  induction 1 as [|b bs Hb _ IH]; simpl le_val; simpl length; [lia|].
  replace (8 * Z.of_nat (S (length bs))) with (8 + 8 * Z.of_nat (length bs)) by lia.
  rewrite Z.pow_add_r by lia. change (2 ^ 8) with 256. unfold byte_ok in Hb. lia.
Qed.

Lemma le_bytes_le_val bs :
  Forall byte_ok bs -> le_bytes (length bs) (le_val bs) = bs.
Proof.
  induction 1 as [|b bs Hb _ IH]; simpl; [done|]. unfold byte_ok in Hb.
  rewrite (Z.mul_comm 256), Z.mod_add, Z.mod_small by lia.
  rewrite Z.div_add, Z.div_small, Z.add_0_l by lia. by rewrite IH.
Qed.

(** [k] little-endian integers, as the packed structs store them. *)
Definition pack (fields : list (nat * Z)) : list Z :=
  concat ((fun f => le_bytes f.1 f.2) <$> fields).

Lemma length_pack fields : length (pack fields) = sum_list (fst <$> fields).
Proof.
  unfold pack. induction fields as [|[n z] l IH]; [done|].
  rewrite !fmap_cons. cbn [concat sum_list fst snd].
  rewrite length_app, length_le_bytes, IH. done.
Qed.

Lemma pack_ok fields : Forall byte_ok (pack fields).
Proof.
  unfold pack. induction fields as [|[n z] l IH]; [constructor|].
  rewrite fmap_cons. cbn [concat]. apply Forall_app. split; [apply le_bytes_ok|done].
Qed.

(** ** Computations with failures

    C code that can abort the process, touch memory it does not own or wait
    for ever is modelled in an error-state monad: a computation over a state
    [S] returns a value and the next state, or one of the failures [err]. *)

Inductive err : Type :=
| EDie            (** [__sanitizer::Die()], or a failed CHECK *)
| EOutOfBounds    (** a load or store outside its allocation *)
| ENull           (** a null or freed pointer is used *)
| EUndef          (** an uninitialised value is used, or a va_arg of the wrong type *)
| EHang.          (** the thread waits and nobody can wake it *)

Inductive res (A : Type) : Type :=
| Ok (a : A)
| Err (e : err).
Arguments Ok {A} a.
Arguments Err {A} e.

#[export] Instance err_eq_dec : EqDecision err.
Proof. solve_decision. Defined.

Definition res_bind {A B} (f : A -> res B) (m : res A) : res B :=
  match m with Ok a => f a | Err e => Err e end.

#[export] Instance res_mret : MRet res := fun A a => Ok a.
#[export] Instance res_mbind : MBind res := fun A B f m => res_bind f m.

Definition res_of_option {A} (e : err) (o : option A) : res A :=
  match o with Some a => Ok a | None => Err e end.

Definition is_ok {A} (r : res A) : bool :=
  match r with Ok _ => true | Err _ => false end.

Lemma bind_ok {A B} (f : A -> res B) (a : A) : (Ok a ≫= f) = f a.
Proof. done. Qed.

Lemma bind_err {A B} (f : A -> res B) e : (Err e ≫= f) = Err e.
Proof. done. Qed.

Lemma bind_ok_inv {A B} (m : res A) (f : A -> res B) b :
  (m ≫= f) = Ok b -> exists a, m = Ok a /\ f a = Ok b.
Proof. destruct m as [a|e]; simpl; [eauto|discriminate]. Qed.

Create Rewrite HintDb monad.
#[export] Hint Rewrite @bind_ok @bind_err : monad.

(** Takes apart a hypothesis that a chain of binds returned a value. *)
Ltac inv_ok :=
  repeat match goal with
  | H : (_ ≫= _) = Ok _ |- _ =>
      let a := fresh "r" in let E := fresh "Hr" in
      apply bind_ok_inv in H as (a & E & H)
  | H : Ok _ = Ok _ |- _ => injection H as H
  | H : Err _ = Ok _ |- _ => discriminate H
  | H : mret _ = Ok _ |- _ => injection H as H
  end.

(** Splits the boolean tests of the code into arithmetic facts. *)
Ltac case_bool :=
  repeat match goal with
  | H : context [if ?b then _ else _] |- _ => destruct b eqn:?
  | |- context [if ?b then _ else _] => destruct b eqn:?
  end.

Ltac to_Prop :=
  repeat match goal with
  | H : (_ && _)%bool = true |- _ => apply andb_true_iff in H as [? ?]
  | H : (_ || _)%bool = false |- _ => apply orb_false_iff in H as [? ?]
  | H : (_ <? _) = true |- _ => apply Z.ltb_lt in H
  | H : (_ <? _) = false |- _ => apply Z.ltb_ge in H
  | H : (_ <=? _) = true |- _ => apply Z.leb_le in H
  | H : (_ <=? _) = false |- _ => apply Z.leb_gt in H
  | H : (_ =? _) = true |- _ => apply Z.eqb_eq in H
  | H : (_ =? _) = false |- _ => apply Z.eqb_neq in H
  end.

(** ** Lists indexed by [Z] *)

Definition zlen {A} (l : list A) : Z := Z.of_nat (length l).
Definition ztake {A} (n : Z) (l : list A) : list A := take (Z.to_nat n) l.
Definition zdrop {A} (n : Z) (l : list A) : list A := drop (Z.to_nat n) l.

Lemma zlen_nonneg {A} (l : list A) : 0 <= zlen l.
Proof. unfold zlen. lia. Qed.

Lemma zlen_app {A} (l k : list A) : zlen (l ++ k) = zlen l + zlen k.
Proof. unfold zlen. rewrite length_app. lia. Qed.

Lemma zlen_replicate {A} n (x : A) : zlen (replicate n x) = Z.of_nat n.
Proof. unfold zlen. by rewrite length_replicate. Qed.

Lemma zlen_fmap {A B} (f : A -> B) l : zlen (f <$> l) = zlen l.
Proof. unfold zlen. by rewrite length_fmap. Qed.

Lemma zlen_ztake {A} n (l : list A) : 0 <= n <= zlen l -> zlen (ztake n l) = n.
Proof. unfold zlen, ztake. intros. rewrite length_take. lia. Qed.

Lemma zlen_zdrop {A} n (l : list A) : 0 <= n <= zlen l -> zlen (zdrop n l) = zlen l - n.
Proof. unfold zlen, zdrop. intros. rewrite length_drop. lia. Qed.

Lemma ztake_app_le {A} n (l k : list A) : 0 <= n <= zlen l -> ztake n (l ++ k) = ztake n l.
Proof. unfold zlen, ztake. intros. rewrite take_app_le; [done|lia]. Qed.

Lemma ztake_zlen {A} (l : list A) : ztake (zlen l) l = l.
Proof. unfold zlen, ztake. rewrite Nat2Z.id. apply firstn_all. Qed.

Lemma ztake_zdrop {A} n (l : list A) : ztake n l ++ zdrop n l = l.
Proof. apply take_drop. Qed.

(** ** Arrays

    A C array of known length is a list; an access outside it is undefined. *)

Definition aget {A} (l : list A) (i : Z) : res A :=
  if i <? 0 then Err EOutOfBounds else res_of_option EOutOfBounds (l !! Z.to_nat i).

Definition aset {A} (l : list A) (i : Z) (x : A) : res (list A) :=
  if (0 <=? i) && (i <? zlen l) then Ok (<[Z.to_nat i := x]> l) else Err EOutOfBounds.

Lemma aget_lookup {A} (l : list A) i x : 0 <= i -> l !! Z.to_nat i = Some x -> aget l i = Ok x.
Proof. intros Hi E. unfold aget. rewrite (proj2 (Z.ltb_ge _ _)) by done. by rewrite E. Qed.

Lemma aget_inv {A} (l : list A) i x : aget l i = Ok x -> 0 <= i < zlen l /\ l !! Z.to_nat i = Some x.
Proof.
  unfold aget, zlen. destruct (Z.ltb_spec i 0); [done|]. destruct (l !! Z.to_nat i) eqn:E; [|done].
  intros [= <-]. apply lookup_lt_Some in E as ?. split; [lia|done].
Qed.

Lemma aget_total {A} `{Inhabited A} (l : list A) i : 0 <= i < zlen l -> aget l i = Ok (l !!! Z.to_nat i).
Proof. unfold zlen. intros Hi. apply aget_lookup; [lia|]. apply list_lookup_lookup_total_lt. lia. Qed.

Lemma aset_ok {A} (l : list A) i x : 0 <= i < zlen l -> aset l i x = Ok (<[Z.to_nat i := x]> l).
Proof. intros Hi. unfold aset. rewrite (proj2 (Z.leb_le _ _)), (proj2 (Z.ltb_lt _ _)) by lia. done. Qed.

Lemma zlen_insert {A} (l : list A) n x : zlen (<[n := x]> l) = zlen l.
Proof. unfold zlen. by rewrite length_insert. Qed.

Lemma insert_total {A} `{Inhabited A} (l : list A) i j x :
  0 <= i < zlen l -> 0 <= j -> <[Z.to_nat i := x]> l !!! Z.to_nat j = if i =? j then x else l !!! Z.to_nat j.
Proof.
  unfold zlen. intros Hi Hj. destruct (Z.eqb_spec i j) as [<-|Hne].
  - apply list_lookup_total_insert_eq. lia.
  - apply list_lookup_total_insert_ne. lia.
Qed.

(** Runs [f] over a list, threading a state. *)
Fixpoint foldM {A S} (f : A -> S -> res S) (l : list A) (s : S) : res S :=
  match l with
  | [] => Ok s
  | x :: l => s ← f x s; foldM f l s
  end.

Lemma foldM_app {A S} (f : A -> S -> res S) l k s : foldM f (l ++ k) s = (s ← foldM f l s; foldM f k s).
Proof. revert s. induction l as [|x l IH]; intros s; cbn; [done|]. destruct (f x s); cbn; [apply IH|done]. Qed.

(** An invariant of the fold that speaks of the elements seen so far. *)
Lemma foldM_inv {A S} (P : list A -> S -> Prop) (f : A -> S -> res S) l s :
  P [] s ->
  (forall done x rest s, l = done ++ x :: rest -> P done s -> exists s', f x s = Ok s' /\ P (done ++ [x]) s') ->
  exists s', foldM f l s = Ok s' /\ P l s'.
Proof.
  intros H0 Hstep. cut (forall rest pre s, l = pre ++ rest -> P pre s -> exists s', foldM f rest s = Ok s' /\ P l s').
  { intros H. by apply (H l []). }
  induction rest as [|x rest IH]; intros pre s' El HP; cbn.
  - rewrite app_nil_r in El. subst. eauto.
  - destruct (Hstep pre x rest s' El HP) as (s2 & E & HP'). rewrite E, bind_ok. apply (IH (pre ++ [x])); [|done].
    by rewrite <- app_assoc.
Qed.

(** The set bits of a predicate in ascending order. *)
Definition ones (p : Z -> bool) (n : Z) : list Z := filter (fun i => p i = true) (seqZ 0 n).

Lemma elem_of_ones p n i : i ∈ ones p n <-> 0 <= i < n /\ p i = true.
Proof. unfold ones. rewrite list_elem_of_filter, elem_of_seqZ, Z.add_0_l. tauto. Qed.

Lemma NoDup_ones p n : NoDup (ones p n).
Proof. apply NoDup_filter, NoDup_seqZ. Qed.

Lemma ones_ext p q n : (forall i, 0 <= i < n -> p i = q i) -> ones p n = ones q n.
Proof.
  intros H. assert (Hl : Forall (fun i => p i = q i) (seqZ 0 n)) by (apply Forall_forall; intros i Hi%elem_of_seqZ; apply H; lia).
  unfold ones. induction Hl as [|i l E _ IH]; [done|]. rewrite !filter_cons, E, IH. done.
Qed.

Lemma ones_nil p n : ones p n = [] <-> forall i, 0 <= i < n -> p i = false.
Proof.
  split.
  - intros E i Hi. destruct (p i) eqn:Ep; [|done]. assert (i ∈ ones p n) as Hin by by apply elem_of_ones.
    rewrite E in Hin. by apply elem_of_nil in Hin.
  - intros H. destruct (ones p n) as [|i l] eqn:E; [done|]. assert (i ∈ ones p n) as Hin by (rewrite E; left).
    apply elem_of_ones in Hin as [Hi Hp]. rewrite H in Hp by done. done.
Qed.

Lemma ones_split p a b : 0 <= a -> 0 <= b -> ones p (a + b) = ones p a ++ ((fun i => a + i) <$> ones (fun i => p (a + i)) b).
Proof.
  intros Ha Hb. unfold ones. rewrite seqZ_app, filter_app by done. f_equal. rewrite Z.add_0_l.
  replace (seqZ a b) with ((fun i => a + i) <$> seqZ 0 b) by (rewrite fmap_add_seqZ; f_equal; lia).
  induction (seqZ 0 b) as [|i l IH]; [done|]. rewrite fmap_cons, !filter_cons, IH. by destruct (decide (p (a + i) = true)).
Qed.

(** The first set bit, and the list without it. *)
Lemma ones_first p n c :
  0 <= c < n -> p c = true -> (forall i, 0 <= i < c -> p i = false) ->
  ones p n = c :: ones (fun i => p i && negb (i =? c)) n.
Proof.
  intros Hc Hp Hlow. assert (Hone : forall q, ones q 1 = if q 0 then [0] else []) by (intros q; unfold ones; change (seqZ 0 1) with [0]; rewrite filter_cons, filter_nil; by destruct (q 0)).
  replace n with (c + (1 + (n - c - 1))) by lia. rewrite !(ones_split _ c), !(ones_split _ 1), !Hone by lia.
  rewrite !(proj2 (ones_nil _ c)) by (intros i Hi; rewrite Hlow by lia; done).
  rewrite !Z.add_0_r, Hp, Z.eqb_refl. cbn. rewrite Z.add_0_r. f_equal. f_equal. f_equal. apply ones_ext.
  intros i Hi. rewrite (proj2 (Z.eqb_neq _ _)) by lia. by rewrite andb_true_r.
Qed.

(** A block of [a] rows of [b] bits. *)
Lemma ones_rows p (a : nat) b :
  0 <= b -> ones p (Z.of_nat a * b) = concat ((fun r => (fun i => r * b + i) <$> ones (fun i => p (r * b + i)) b) <$> seqZ 0 (Z.of_nat a)).
Proof.
  intros Hb. induction a as [|a IH]; [done|]. rewrite Nat2Z.inj_succ. replace (Z.succ (Z.of_nat a) * b) with (Z.of_nat a * b + b) by lia.
  rewrite ones_split, IH by lia. unfold Z.succ. rewrite seqZ_app, fmap_app, concat_app by lia. f_equal.
  rewrite seqZ_cons, Z.add_0_l by lia. change (Z.pred 1) with 0. rewrite fmap_cons. cbn [concat fmap list_fmap seqZ seq Z.to_nat]. by rewrite app_nil_r.
Qed.

(** ** Sums over maps *)

Section MapSum.
Context {A : Type} (w : A -> Z).
Implicit Types (m : gmap Z A).

Definition map_sum m : Z := map_fold (fun _ x s => w x + s) 0 m.

Lemma map_sum_delete m i : map_sum m = match m !! i with Some x => w x | None => 0 end + map_sum (delete i m).
Proof.
  unfold map_sum. destruct (m !! i) as [x|] eqn:E; [rewrite (map_fold_delete_L _ _ i x); [done|intros; lia|done]|]. by rewrite delete_id.
Qed.

Lemma map_sum_insert m i x : map_sum (<[i := x]> m) = w x + map_sum (delete i m).
Proof. by rewrite (map_sum_delete _ i), lookup_insert_eq, delete_insert_eq. Qed.

Hypothesis Hw : forall x, 0 <= w x.

Lemma map_sum_nonneg m : 0 <= map_sum m.
Proof. unfold map_sum. apply (map_fold_weak_ind (fun s _ => 0 <= s)); [done|]. intros i x m' s _ Hs. pose proof (Hw x). lia. Qed.

(** A map with fewer entries, none of them heavier. *)
Definition lighter m' m : Prop := forall i x', m' !! i = Some x' -> exists x, m !! i = Some x /\ w x' <= w x.

Lemma lighter_delete m' m i : lighter m' m -> lighter (delete i m') (delete i m).
Proof. intros H j x' [Hij Hj]%lookup_delete_Some. destruct (H j x' Hj) as (x & Hx & ?). exists x. by rewrite lookup_delete_ne. Qed.

Lemma map_sum_le m' : forall m, lighter m' m -> map_sum m' <= map_sum m.
Proof.
  induction m' as [|i x' m' Hi IH] using map_ind; intros m H; [unfold map_sum at 1; rewrite map_fold_empty; apply map_sum_nonneg|].
  destruct (H i x') as (x & Hx & Hle); [by rewrite lookup_insert_eq|]. rewrite map_sum_insert, (map_sum_delete m i), Hx, delete_id by done. pose proof (lighter_delete _ _ i H) as Hd. rewrite delete_insert_id in Hd by done.
  pose proof (IH _ Hd). lia.
Qed.

Lemma map_sum_lt m' m i x : lighter m' m -> m !! i = Some x -> 0 < w x -> (forall x', m' !! i = Some x' -> w x' < w x) -> map_sum m' < map_sum m.
Proof.
  intros H Hx Hpos Hlt. rewrite (map_sum_delete m' i), (map_sum_delete m i), Hx. pose proof (map_sum_le _ _ (lighter_delete _ _ i H)). destruct (m' !! i) as [x'|]; [pose proof (Hlt x' eq_refl)|]; lia.
Qed.
End MapSum.

(** ** Reachability in a step relation *)

Section Star.
Context {S : Type} (R : S -> S -> Prop).

Inductive star : S -> S -> Prop :=
| star_refl s : star s s
| star_step s1 s2 s3 : R s1 s2 -> star s2 s3 -> star s1 s3.

Lemma star_trans s1 s2 s3 : star s1 s2 -> star s2 s3 -> star s1 s3.
Proof. induction 1; eauto using star. Qed.

Lemma star_one s1 s2 : R s1 s2 -> star s1 s2.
Proof. eauto using star. Qed.

Lemma star_invariant (I : S -> Prop) :
  (forall s s', I s -> R s s' -> I s') ->
  forall s s', star s s' -> I s -> I s'.
Proof. intros HI s s'. induction 1; eauto. Qed.
End Star.

#[export] Hint Constructors star : core.
