(* ===== verification/Bits.v ===== *)
(** * Bits of machine words

    The compiler's bit scans and the helpers on powers of two of
    [src/ufo-rt/lib/sanitizer_common/sanitizer_common.h], on 64-bit words.
    Shifting a word by its width is undefined.

    Shown: the scans find the lowest and the highest set bit; rounding up to a
    power of two or to a multiple of one gives the least such number, wherever
    that fits into a word, and is undefined or wraps where it does not. *)
From stdpp Require Import base numbers list.
From Stdlib Require Import ZArith Lia.
From S2P Require Import Prelude.

Local Open Scope Z_scope.

(** [__builtin_ctz]: the number of trailing zeros. *)
Fixpoint pos_ctz (p : positive) : Z :=
  match p with
  | xO q => 1 + pos_ctz q
  | _ => 0
  end.

Definition ctz (n : Z) : Z := match n with Zpos p => pos_ctz p | _ => 0 end.

(** [~x] on a word. *)
Definition not64 (x : Z) : Z := u64 (Z.lnot x).

(** [1ULL << n] *)
Definition shl64 (n : Z) : res Z := if n <? 64 then Ok (Z.shiftl 1 n) else Err EUndef.

Definition MostSignificantSetBitIndex (x : Z) : res Z := if x =? 0 then Err EDie else Ok (Z.log2 x).

Definition LeastSignificantSetBitIndex (x : Z) : res Z := if x =? 0 then Err EDie else Ok (ctz x).

Definition IsPowerOfTwo (x : Z) : bool := Z.land x (u64 (x - 1)) =? 0.

Definition RoundUpToPowerOfTwo (size : Z) : res Z :=
  if size =? 0 then Err EDie
  else if IsPowerOfTwo size then Ok size
  else
    up ← MostSignificantSetBitIndex size;
    above ← shl64 (up + 1);
    if negb (size <? above) then Err EDie
    else
      below ← shl64 up;
      if negb (below <? size) then Err EDie else shl64 (up + 1).

Definition RoundUpTo (size boundary : Z) : res Z :=
  if negb (IsPowerOfTwo boundary) then Err EDie
  else Ok (Z.land (u64 (size + boundary - 1)) (not64 (u64 (boundary - 1)))).

Definition RoundDownTo (x boundary : Z) : Z := Z.land x (not64 (u64 (boundary - 1))).

Definition IsAligned (a alignment : Z) : bool := Z.land a (u64 (alignment - 1)) =? 0.

Definition Log2 (x : Z) : res Z := if negb (IsPowerOfTwo x) then Err EDie else LeastSignificantSetBitIndex x.

(** ** Trailing zeros *)

Lemma pos_ctz_odd p : exists k, Zpos p = 2 ^ pos_ctz p * (2 * k + 1) /\ 0 <= k /\ 0 <= pos_ctz p.
Proof.
  induction p as [p _|p (k & E & Hk & Hc)|]; cbn [pos_ctz].
  - exists (Zpos p). lia.
  - exists k. rewrite Z.pow_add_r by lia. rewrite Pos2Z.inj_xO, E. lia.
  - exists 0. lia.
Qed.

Lemma ctz_odd n : 0 < n -> exists k, n = 2 ^ ctz n * (2 * k + 1) /\ 0 <= k /\ 0 <= ctz n.
Proof. destruct n; cbn [ctz]; try lia. intros _. apply pos_ctz_odd. Qed.

Lemma pow2_pos x : 0 <= x -> 0 < 2 ^ x.
Proof. intros. apply Z.pow_pos_nonneg; lia. Qed.

Lemma pow2_odd_unique a b j k :
  0 <= a -> 0 <= b -> 2 ^ a * (2 * j + 1) = 2 ^ b * (2 * k + 1) -> a = b.
Proof.
  intros Ha Hb E.
  assert (forall x y i l, 0 <= x -> x < y -> 2 ^ x * (2 * i + 1) <> 2 ^ y * (2 * l + 1)) as Hlt.
  { intros x y i l Hx Hxy. replace y with (x + (1 + (y - x - 1))) by lia.
    pose proof (pow2_pos x Hx). rewrite Z.pow_add_r, (Z.pow_add_r _ 1), Z.pow_1_r by lia.
    intros E'. rewrite <- Z.mul_assoc in E'. apply Z.mul_cancel_l in E'; [|lia].
    generalize dependent (2 ^ (y - x - 1)). intros z E'. lia. }
  destruct (Z.lt_trichotomy a b) as [H|[H|H]]; [|done|].
  - by apply Hlt in E.
  - symmetry in E. by apply Hlt in E.
Qed.

Lemma ctz_unique c k : 0 <= c -> 0 <= k -> ctz (2 ^ c * (2 * k + 1)) = c.
Proof.
  intros Hc Hk. destruct (ctz_odd (2 ^ c * (2 * k + 1))) as (j & E & Hj & Hz);
    [pose proof (pow2_pos c Hc); lia|].
  symmetry. by apply (pow2_odd_unique _ _ k j).
Qed.

Lemma ctz_lt n w : 0 < n < 2 ^ w -> ctz n < w.
Proof.
  intros H. destruct (ctz_odd n) as (k & E & Hk & Hc); [lia|].
  destruct (Z.lt_ge_cases (ctz n) w) as [|Hge]; [done|].
  destruct (Z.lt_ge_cases w 0); [rewrite Z.pow_neg_r in H by done; lia|].
  assert (2 ^ w <= 2 ^ ctz n) by (apply Z.pow_le_mono_r; lia). pose proof (pow2_pos w). nia.
Qed.

Lemma ctz_bits n : 0 < n -> 0 <= ctz n /\ Z.testbit n (ctz n) = true /\ forall i, i < ctz n -> Z.testbit n i = false.
Proof.
  intros Hn. destruct (ctz_odd n Hn) as (k & E & Hk & Hc). split; [done|]. rewrite Z.mul_comm in E.
  split; [|intros i Hi]; rewrite E at 1.
  - rewrite <- Z.shiftl_mul_pow2 by lia. rewrite Z.shiftl_spec by lia.
    rewrite Z.sub_diag, Z.bit0_odd. rewrite Z.add_comm. apply Z.odd_add_mul_2.
  - rewrite <- Z.shiftl_mul_pow2 by lia. by apply Z.shiftl_spec_low.
Qed.

(** ** Powers of two *)

Lemma power_of_two_log2 x : 0 < x < 2 ^ 64 -> IsPowerOfTwo x = (x =? 2 ^ Z.log2 x).
Proof.
  intros Hx. unfold IsPowerOfTwo, u64. rewrite wrap_small by lia.
  pose proof (Z.log2_spec x ltac:(lia)) as [Hlo Hhi]. pose proof (Z.log2_nonneg x) as Hn. set (h := Z.log2 x) in *.
  destruct (Z.eqb_spec x (2 ^ h)) as [E|Hne]; apply Z.eqb_eq || apply Z.eqb_neq.
  - rewrite E. replace (2 ^ h - 1) with (Z.ones h) by (rewrite Z.ones_equiv; lia). rewrite Z.land_ones by done.
    apply Z.mod_same. pose proof (pow2_pos h Hn). lia.
  - intros H0. assert (Hb : Z.testbit (Z.land x (x - 1)) h = true); [|by rewrite H0, Z.bits_0 in Hb].
    rewrite Z.land_spec. assert (Hl : Z.log2 (x - 1) = h) by (apply Z.log2_unique; lia).
    rewrite <- Hl at 2. unfold h. rewrite !Z.bit_log2 by lia. done.
Qed.

Lemma power_of_two k : 0 <= k < 64 -> IsPowerOfTwo (2 ^ k) = true.
Proof.
  intros Hk. assert (2 ^ k < 2 ^ 64) by (apply Z.pow_lt_mono_r; lia). pose proof (pow2_pos k ltac:(lia)).
  rewrite power_of_two_log2, Z.log2_pow2 by lia. apply Z.eqb_refl.
Qed.

(** Clearing the low bits of a word. *)
Lemma land_not64 x m : 0 <= x < 2 ^ 64 -> Z.land x (not64 m) = Z.ldiff x m.
Proof.
  intros Hx. apply Z.bits_inj'. intros i Hi. rewrite Z.land_spec, Z.ldiff_spec. unfold not64, u64, wrap.
  destruct (Z.lt_ge_cases i 64) as [L|L].
  - by rewrite Z.mod_pow2_bits_low, Z.lnot_spec by lia.
  - rewrite Z.mod_pow2_bits_high by lia. rewrite <- (Z.mod_small x (2 ^ 64)) by lia. by rewrite Z.mod_pow2_bits_high by lia.
Qed.

Lemma clear_low x k : 0 <= x < 2 ^ 64 -> 0 <= k < 64 -> Z.land x (not64 (u64 (2 ^ k - 1))) = x / 2 ^ k * 2 ^ k.
Proof.
  intros Hx Hk. assert (2 ^ k < 2 ^ 64) by (apply Z.pow_lt_mono_r; lia). pose proof (pow2_pos k ltac:(lia)).
  rewrite land_not64 by done. unfold u64. rewrite wrap_small by lia.
  replace (2 ^ k - 1) with (Z.ones k) by (rewrite Z.ones_equiv; lia).
  rewrite Z.ldiff_ones_r, Z.shiftl_mul_pow2, Z.shiftr_div_pow2 by lia. done.
Qed.

Lemma RoundUpTo_ok size k :
  0 <= k < 64 -> 0 <= size -> size + 2 ^ k - 1 < 2 ^ 64 ->
  RoundUpTo size (2 ^ k) = Ok ((size + 2 ^ k - 1) / 2 ^ k * 2 ^ k).
Proof.
  intros Hk Hs Hm. unfold RoundUpTo. rewrite power_of_two by done. cbn [negb]. pose proof (pow2_pos k ltac:(lia)).
  unfold u64 at 1. rewrite wrap_small by lia. rewrite clear_low by lia. done.
Qed.

(** [RoundUpTo] gives the least multiple of the boundary that is not below the
    size, if the sum with the boundary fits into a word. *)
Lemma RoundUpTo_least size k :
  0 <= k < 64 -> 0 <= size -> size + 2 ^ k - 1 < 2 ^ 64 ->
  exists q, RoundUpTo size (2 ^ k) = Ok (q * 2 ^ k) /\ size <= q * 2 ^ k /\ forall q', size <= q' * 2 ^ k -> q <= q'.
Proof.
  intros Hk Hs Hm. exists ((size + 2 ^ k - 1) / 2 ^ k). split; [by apply RoundUpTo_ok|]. pose proof (pow2_pos k ltac:(lia)) as Hp.
  set (b := 2 ^ k) in *. pose proof (Z.div_mod (size + b - 1) b ltac:(lia)). pose proof (Z.mod_pos_bound (size + b - 1) b Hp).
  split; [lia|]. intros q' Hq'. assert (Hlt : (size + b - 1) / b < q' + 1); [|lia]. apply Z.div_lt_upper_bound; lia.
Qed.

Lemma RoundDownTo_ok x k : 0 <= x < 2 ^ 64 -> 0 <= k < 64 -> RoundDownTo x (2 ^ k) = x / 2 ^ k * 2 ^ k.
Proof. intros. by apply clear_low. Qed.

Lemma IsAligned_ok a k : 0 <= k < 64 -> IsAligned a (2 ^ k) = (a mod 2 ^ k =? 0).
Proof.
  intros Hk. assert (2 ^ k < 2 ^ 64) by (apply Z.pow_lt_mono_r; lia). pose proof (pow2_pos k ltac:(lia)).
  unfold IsAligned, u64. rewrite wrap_small by lia. replace (2 ^ k - 1) with (Z.ones k) by (rewrite Z.ones_equiv; lia).
  by rewrite Z.land_ones by lia.
Qed.

Lemma Log2_ok k : 0 <= k < 64 -> Log2 (2 ^ k) = Ok k.
Proof.
  intros Hk. unfold Log2, LeastSignificantSetBitIndex. rewrite power_of_two by done. cbn [negb]. pose proof (pow2_pos k ltac:(lia)).
  rewrite (proj2 (Z.eqb_neq _ _)) by lia. rewrite <- (Z.mul_1_r (2 ^ k)). change 1 with (2 * 0 + 1). by rewrite ctz_unique by lia.
Qed.

Lemma shl64_ok n : 0 <= n < 64 -> shl64 n = Ok (2 ^ n).
Proof. intros Hn. unfold shl64. rewrite (proj2 (Z.ltb_lt _ _)) by lia. by rewrite Z.shiftl_mul_pow2, Z.mul_1_l by lia. Qed.

(** C39: rounding up to a power of two.  For every size from 1 to [2^63] the result
    is the least power of two that is not below the size, and none of the
    checks fails; above [2^63], where there is no such word, the code shifts a
    word by its width. *)
Theorem round_up_power size :
  0 < size < 2 ^ 64 ->
  if size <=? 2 ^ 63
  then exists k, 0 <= k < 64 /\ RoundUpToPowerOfTwo size = Ok (2 ^ k) /\ size <= 2 ^ k /\ forall j, size <= 2 ^ j -> k <= j
  else RoundUpToPowerOfTwo size = Err EUndef.
Proof.
  intros Hs. unfold RoundUpToPowerOfTwo, MostSignificantSetBitIndex. rewrite (proj2 (Z.eqb_neq _ _)), power_of_two_log2 by lia.
  pose proof (Z.log2_spec size ltac:(lia)) as [Hlo Hhi]. pose proof (Z.log2_nonneg size) as Hn. set (h := Z.log2 size) in *.
  assert (Hmono : forall a b, 2 ^ a < 2 ^ b -> a < b).
  { intros a b Hab. destruct (Z.lt_ge_cases b 0); [rewrite (Z.pow_neg_r 2 b) in Hab by done; assert (0 <= 2 ^ a) by (apply Z.pow_nonneg; lia); lia|].
    apply (Z.pow_lt_mono_r_iff 2); lia. }
  assert (h < 64) by (apply Hmono; lia). rewrite Z.pow_succ_r in Hhi by done.
  destruct (Z.leb_spec size (2 ^ 63)) as [Hle|Hgt]; destruct (Z.eqb_spec size (2 ^ h)) as [E|Hne].
  - exists h. split; [lia|]. split; [by rewrite E|]. split; [lia|]. intros j Hj.
    destruct (Z.lt_ge_cases j h) as [Hjh|]; [|done]. assert (2 ^ j < 2 ^ h) by (apply Z.pow_lt_mono_r; lia). lia.
  - rewrite bind_ok. assert (h + 1 < 64) by (cut (h < 63); [lia|]; apply Hmono; lia).
    rewrite (shl64_ok (h + 1)), bind_ok by lia. rewrite (proj2 (Z.ltb_lt size _)) by (rewrite Z.pow_add_r by lia; lia). cbn [negb].
    rewrite (shl64_ok h), bind_ok by lia. rewrite (proj2 (Z.ltb_lt (2 ^ h) size)) by lia. cbn [negb].
    exists (h + 1). split; [lia|]. split; [done|]. split; [rewrite Z.pow_add_r by lia; lia|]. intros j Hj.
    cut (h < j); [lia|]. apply Hmono. lia.
  - assert (h < 63 + 1) by lia. assert (2 ^ h <= 2 ^ 63) by (apply Z.pow_le_mono_r; lia). lia.
  - rewrite bind_ok. assert (h = 63); [|by replace h with 63]. cut (62 < h); [lia|]. apply Hmono. lia.
Qed.

Lemma round_up_power_witness :
  (exists k, 0 <= k < 64 /\ RoundUpToPowerOfTwo 4097 = Ok (2 ^ k) /\ 4097 <= 2 ^ k /\ forall j, 4097 <= 2 ^ j -> k <= j) /\
  RoundUpToPowerOfTwo (2 ^ 63 + 1) = Err EUndef.
Proof. split; [apply (round_up_power 4097); lia|apply (round_up_power (2 ^ 63 + 1)); lia]. Defined.
