(* ===== verification/Events.v ===== *)
(** * The trace events of UFO

    Models [src/ufo-rt/lib/tsan/rtl/ufo/ufo_interface.h]: the tags of
    [enum EventType] and the packed structs the runtime copies byte by byte
    into a thread's trace buffer.  Every struct is a [Record] with the
    source's fields (the type tag is a constant of the struct except in the
    two memory-access events), [new_X] is its C++ constructor, which narrows
    its arguments to the field widths, and its [Packed] instance gives the
    layout fixed by [#pragma pack(push, 1)] and the 48-bit bit-fields: the
    list of little-endian fields in declaration order.  [encode] is the
    object representation of a struct, [sizeof] the size the [static_assert]
    after it demands. *)
From stdpp Require Import base numbers list.
From Stdlib Require Import ZArith Lia.
From S2P Require Import Prelude.

Local Open Scope Z_scope.

(** The tags of [enum EventType]; enumerators without an initialiser continue
    from the one before. *)
Inductive EventType : Type :=
| ThreadBegin | ThreadEnd | ThreadCreate | ThreadJoin | ThreadAcqLock
| ThreadRelLock | MemAlloc | MemDealloc | MemRead | MemWrite | MemRangeRead
| MemRangeWrite | PtrAssignment | TLHeader | InfoPacket | EnterFunc | ExitFunc
| ThrCondWait | ThrCondSignal | ThrCondBC | PtrDeRef.

Definition type_val (t : EventType) : Z :=
  match t with
  | ThreadBegin => 0 | ThreadEnd => 1 | ThreadCreate => 2 | ThreadJoin => 3
  | ThreadAcqLock => 4 | ThreadRelLock => 5 | MemAlloc => 6 | MemDealloc => 7
  | MemRead => 8 | MemWrite => 9 | MemRangeRead => 10 | MemRangeWrite => 11
  | PtrAssignment => 12 | TLHeader => 13 | InfoPacket => 14 | EnterFunc => 15
  | ExitFunc => 16 | ThrCondWait => 17 | ThrCondSignal => 18 | ThrCondBC => 19
  | PtrDeRef => 20
  end.

Definition UFO_VERSION : Z := 20161001.

(** ** Packed structs *)

(** What [put_event<E, SZ = sizeof(E)>] uses of an event type: its size and
    the object representation, as a list of little-endian fields. *)
Class Packed (E : Type) := {
  sizeof : nat;
  fields : E -> list (nat * Z);
  sizeof_fields : forall e, sum_list (fst <$> fields e) = sizeof
}.
Arguments sizeof E {_}.

Definition encode {E} `{Packed E} (e : E) : list Z := pack (fields e).

Lemma length_encode {E} `{Packed E} (e : E) : length (encode e) = sizeof E.
Proof. unfold encode. by rewrite length_pack, sizeof_fields. Qed.

Lemma encode_ok {E} `{Packed E} (e : E) : Forall byte_ok (encode e).
Proof. apply pack_ok. Qed.

(** An allocation: base address, code address and byte count. *)
Record AllocEvent := mkAllocEvent {
  ae_addr : Z;
  ae_pc : Z;
  ae_size : Z }.

Definition new_AllocEvent (ad p d : Z) : AllocEvent :=
  mkAllocEvent (u48 ad) (u48 p) (u32 d).

#[export] Instance packed_AllocEvent : Packed AllocEvent := {|
  sizeof := 17;
  fields e := [(1%nat, type_val MemAlloc); (6%nat, e.(ae_addr)); (6%nat, e.(ae_pc)); (4%nat, e.(ae_size))];
  sizeof_fields e := eq_refl |}.

(** A deallocation of the block at [addr]. *)
Record DeallocEvent := mkDeallocEvent {
  de_addr : Z;
  de_pc : Z;
  de_size : Z }.

Definition new_DeallocEvent (h ip d : Z) : DeallocEvent :=
  mkDeallocEvent (u48 h) (u48 ip) (u32 d).

#[export] Instance packed_DeallocEvent : Packed DeallocEvent := {|
  sizeof := 17;
  fields e := [(1%nat, type_val MemDealloc); (6%nat, e.(de_addr)); (6%nat, e.(de_pc)); (4%nat, e.(de_size))];
  sizeof_fields e := eq_refl |}.

(** A mutex was acquired. *)
Record LockEvent := mkLockEvent {
  le_mutexId : Z;
  le_pc : Z }.

Definition new_LockEvent (h p : Z) : LockEvent :=
  mkLockEvent (u48 h) (u48 p).

#[export] Instance packed_LockEvent : Packed LockEvent := {|
  sizeof := 13;
  fields e := [(1%nat, type_val ThreadAcqLock); (6%nat, e.(le_mutexId)); (6%nat, e.(le_pc))];
  sizeof_fields e := eq_refl |}.

(** A mutex was released. *)
Record UnlockEvent := mkUnlockEvent {
  ue_mutexId : Z;
  ue_pc : Z }.

Definition new_UnlockEvent (h ip : Z) : UnlockEvent :=
  mkUnlockEvent (u48 h) (u48 ip).

#[export] Instance packed_UnlockEvent : Packed UnlockEvent := {|
  sizeof := 13;
  fields e := [(1%nat, type_val ThreadRelLock); (6%nat, e.(ue_mutexId)); (6%nat, e.(ue_pc))];
  sizeof_fields e := eq_refl |}.

(** A wait on a condition variable. *)
Record ThrCondWaitEvent := mkThrCondWaitEvent {
  cw_idx : Z;
  cw_cond : Z;
  cw_mtx : Z;
  cw_pc : Z }.

Definition new_ThrCondWaitEvent (i c m p : Z) : ThrCondWaitEvent :=
  mkThrCondWaitEvent (u48 i) (u48 c) (u48 m) (u48 p).

#[export] Instance packed_ThrCondWaitEvent : Packed ThrCondWaitEvent := {|
  sizeof := 25;
  fields e := [(1%nat, type_val ThrCondWait); (6%nat, e.(cw_idx)); (6%nat, e.(cw_cond)); (6%nat, e.(cw_mtx)); (6%nat, e.(cw_pc))];
  sizeof_fields e := eq_refl |}.

(** A signal on a condition variable. *)
Record ThrCondSignalEvent := mkThrCondSignalEvent {
  cs_idx : Z;
  cs_cond : Z;
  cs_pc : Z }.

Definition new_ThrCondSignalEvent (i c p : Z) : ThrCondSignalEvent :=
  mkThrCondSignalEvent (u48 i) (u48 c) (u48 p).

#[export] Instance packed_ThrCondSignalEvent : Packed ThrCondSignalEvent := {|
  sizeof := 19;
  fields e := [(1%nat, type_val ThrCondSignal); (6%nat, e.(cs_idx)); (6%nat, e.(cs_cond)); (6%nat, e.(cs_pc))];
  sizeof_fields e := eq_refl |}.

(** A broadcast on a condition variable; its [TYPE_INDEX] is that of a signal (line 150). *)
Record ThrCondBCEvent := mkThrCondBCEvent {
  cb_idx : Z;
  cb_cond : Z;
  cb_pc : Z }.

Definition new_ThrCondBCEvent (i c p : Z) : ThrCondBCEvent :=
  mkThrCondBCEvent (u48 i) (u48 c) (u48 p).

#[export] Instance packed_ThrCondBCEvent : Packed ThrCondBCEvent := {|
  sizeof := 19;
  fields e := [(1%nat, type_val ThrCondSignal); (6%nat, e.(cb_idx)); (6%nat, e.(cb_cond)); (6%nat, e.(cb_pc))];
  sizeof_fields e := eq_refl |}.

(** A thread was created by this one. *)
Record CreateThreadEvent := mkCreateThreadEvent {
  ct_idx : Z;
  ct_tid_kid : Z;
  ct_e_time : Z;
  ct_pc : Z }.

Definition new_CreateThreadEvent (i tk t ip : Z) : CreateThreadEvent :=
  mkCreateThreadEvent (u48 i) (u16 tk) (u32 t) (u48 ip).

#[export] Instance packed_CreateThreadEvent : Packed CreateThreadEvent := {|
  sizeof := 19;
  fields e := [(1%nat, type_val ThreadCreate); (6%nat, e.(ct_idx)); (2%nat, e.(ct_tid_kid)); (4%nat, e.(ct_e_time)); (6%nat, e.(ct_pc))];
  sizeof_fields e := eq_refl |}.

(** A thread was joined by this one. *)
Record JoinThreadEvent := mkJoinThreadEvent {
  jt_idx : Z;
  jt_tid_joiner : Z;
  jt_e_time : Z;
  jt_pc : Z }.

Definition new_JoinThreadEvent (i tk time ip : Z) : JoinThreadEvent :=
  mkJoinThreadEvent (u48 i) (u16 tk) (u32 time) (u48 ip).

#[export] Instance packed_JoinThreadEvent : Packed JoinThreadEvent := {|
  sizeof := 19;
  fields e := [(1%nat, type_val ThreadJoin); (6%nat, e.(jt_idx)); (2%nat, e.(jt_tid_joiner)); (4%nat, e.(jt_e_time)); (6%nat, e.(jt_pc))];
  sizeof_fields e := eq_refl |}.

(** This thread ended. *)
Record ThreadEndEvent := mkThreadEndEvent {
  te_tid_parent : Z;
  te_e_time : Z }.

Definition new_ThreadEndEvent (tp t : Z) : ThreadEndEvent :=
  mkThreadEndEvent (u16 tp) (u32 t).

#[export] Instance packed_ThreadEndEvent : Packed ThreadEndEvent := {|
  sizeof := 7;
  fields e := [(1%nat, type_val ThreadEnd); (2%nat, e.(te_tid_parent)); (4%nat, e.(te_e_time))];
  sizeof_fields e := eq_refl |}.

(** A pointer was copied. *)
Record PtrAssignEvent := mkPtrAssignEvent {
  pa_ptr_l : Z;
  pa_ptr_r : Z }.

Definition new_PtrAssignEvent (pl pr : Z) : PtrAssignEvent :=
  mkPtrAssignEvent (u48 pl) (u48 pr).

#[export] Instance packed_PtrAssignEvent : Packed PtrAssignEvent := {|
  sizeof := 13;
  fields e := [(1%nat, type_val PtrAssignment); (6%nat, e.(pa_ptr_l)); (6%nat, e.(pa_ptr_r))];
  sizeof_fields e := eq_refl |}.

(** A pointer was dereferenced. *)
Record PtrDeRefEvent := mkPtrDeRefEvent {
  pd_ptr_addr : Z }.

Definition new_PtrDeRefEvent (pa : Z) : PtrDeRefEvent :=
  mkPtrDeRefEvent (u48 pa).

#[export] Instance packed_PtrDeRefEvent : Packed PtrDeRefEvent := {|
  sizeof := 7;
  fields e := [(1%nat, type_val PtrDeRef); (6%nat, e.(pd_ptr_addr))];
  sizeof_fields e := eq_refl |}.

(** A function was entered. *)
Record FuncEntryEvent := mkFuncEntryEvent {
  fe_caller_pc : Z }.

Definition new_FuncEntryEvent (pc : Z) : FuncEntryEvent :=
  mkFuncEntryEvent (u48 pc).

#[export] Instance packed_FuncEntryEvent : Packed FuncEntryEvent := {|
  sizeof := 7;
  fields e := [(1%nat, type_val EnterFunc); (6%nat, e.(fe_caller_pc))];
  sizeof_fields e := eq_refl |}.

(** An information packet. *)
Record UFOPkt := mkUFOPkt {
  pk_timestamp : Z;
  pk_length : Z }.

Definition new_UFOPkt (time len : Z) : UFOPkt :=
  mkUFOPkt (u64 time) (u64 len).

#[export] Instance packed_UFOPkt : Packed UFOPkt := {|
  sizeof := 17;
  fields e := [(1%nat, type_val InfoPacket); (8%nat, e.(pk_timestamp)); (8%nat, e.(pk_length))];
  sizeof_fields e := eq_refl |}.
(** A bulk access; the tag tells a read from a write. *)
Record MemRangeAccEvent := mkMemRangeAccEvent {
  mr_type_index : Z;
  mr_addr : Z;
  mr_pc : Z;
  mr_size : Z }.

Definition new_MemRangeAccEvent (ty_idx adr ip sz : Z) : MemRangeAccEvent :=
  mkMemRangeAccEvent (u8 ty_idx) (u48 adr) (u48 ip) (u32 sz).

#[export] Instance packed_MemRangeAccEvent : Packed MemRangeAccEvent := {|
  sizeof := 17;
  fields e := [(1%nat, e.(mr_type_index)); (6%nat, e.(mr_addr)); (6%nat, e.(mr_pc)); (4%nat, e.(mr_size))];
  sizeof_fields e := eq_refl |}.

(** A single access; its tag also carries the logarithm of the access size,
    and the accessed bytes follow it in the trace. *)
Record MemAccEvent := mkMemAccEvent {
  ma_type_index : Z;
  ma_addr : Z;
  ma_pc : Z }.

Definition new_MemAccEvent (ty_idx h ip : Z) : MemAccEvent :=
  mkMemAccEvent (u8 ty_idx) (u48 h) (u48 ip).

#[export] Instance packed_MemAccEvent : Packed MemAccEvent := {|
  sizeof := 13;
  fields e := [(1%nat, e.(ma_type_index)); (6%nat, e.(ma_addr)); (6%nat, e.(ma_pc))];
  sizeof_fields e := eq_refl |}.

(** The first event of a thread; stack and TLS ranges are filled in when the
    thread starts. *)
Record ThreadBeginEvent := mkThreadBeginEvent {
  tb_tid_parent : Z;
  tb_pc : Z;
  tb_e_time : Z;
  tb_stk_addr : Z;
  tb_stk_size : Z;
  tb_tls_addr : Z;
  tb_tls_size : Z }.

Definition new_ThreadBeginEvent (tp p t : Z) : ThreadBeginEvent :=
  mkThreadBeginEvent (u16 tp) (u48 p) (u32 t) 0 0 0 0.

#[export] Instance packed_ThreadBeginEvent : Packed ThreadBeginEvent := {|
  sizeof := 33;
  fields e := [(1%nat, type_val ThreadBegin); (2%nat, e.(tb_tid_parent)); (6%nat, e.(tb_pc));
               (4%nat, e.(tb_e_time)); (6%nat, e.(tb_stk_addr)); (4%nat, e.(tb_stk_size));
               (6%nat, e.(tb_tls_addr)); (4%nat, e.(tb_tls_size))];
  sizeof_fields e := eq_refl |}.

(** The header of a trace file. *)
Record UFOHeader := mkUFOHeader {
  hd_version : Z;
  hd_tid : Z;
  hd_timestamp : Z;
  hd_length : Z }.

Definition new_UFOHeader (curT time len : Z) : UFOHeader :=
  mkUFOHeader UFO_VERSION (u16 curT) (u64 time) (u32 len).

#[export] Instance packed_UFOHeader : Packed UFOHeader := {|
  sizeof := 23;
  fields e := [(1%nat, type_val TLHeader); (8%nat, e.(hd_version)); (2%nat, e.(hd_tid));
               (8%nat, e.(hd_timestamp)); (4%nat, e.(hd_length))];
  sizeof_fields e := eq_refl |}.

(** A function was left: only the tag. *)
Record FuncExitEvent := mkFuncExitEvent {}.

#[export] Instance packed_FuncExitEvent : Packed FuncExitEvent := {|
  sizeof := 1;
  fields e := [(1%nat, type_val ExitFunc)];
  sizeof_fields e := eq_refl |}.
