(* ===== verification/Reader.v ===== *)
(** * The trace reader of the predictor

    Models [src/ufo-predict/src/main/java/aser/ufo/trace/LoadingTask2.java]
    (with the integer assembly of [Bytes.java]): how the Java side of UFO
    turns the bytes of one thread's trace file back into nodes.  The reader's
    input is the list of bytes not yet read; [read] returns [-1] at the end
    of the file, as [InputStream.read] does, and the code narrows it to a
    byte without a test.  The statistics counters of [TLStat] are left out.

    The theorems relate the reader to the writer: what it decodes is what
    [Events.encode] wrote, for every event kind the runtime emits with a
    tag of its own, and for a whole trace file. *)
From stdpp Require Import base numbers list.
From Stdlib Require Import ZArith Lia.
From S2P Require Import Prelude Events.

Local Open Scope Z_scope.

(** ** Reading integers *)

(** [BufferedByteReader.read] *)
Definition read (bs : list Z) : Z * list Z :=
  match bs with
  | [] => (-1, [])
  | b :: rest => (b, rest)
  end.

(** the Java cast [(byte) v] *)
Definition jbyte (v : Z) : Z := swrap 8 v.

Definition read_byte (bs : list Z) : Z * list Z :=
  let '(r, bs') := read bs in (jbyte r, bs').

(** [Bytes.shorts.add] *)
Definition shorts_add (a b : Z) : Z := s16 (Z.lor (Z.shiftl a 8) (Z.land b 255)).

(** [Bytes.ints._Ladd] *)
Definition ints_Ladd (b3 b2 b1 b0 : Z) : Z :=
  Z.lor (Z.lor (Z.lor (s32 (Z.shiftl b3 24)) (Z.shiftl (Z.land b2 255) 16))
           (Z.shiftl (Z.land b1 255) 8))
    (Z.land b0 255).

(** [Bytes.longs._Ladd] *)
Definition longs_Ladd (b7 b6 b5 b4 b3 b2 b1 b0 : Z) : Z :=
  Z.lor (Z.lor (Z.lor (Z.lor (Z.lor (Z.lor (Z.lor
    (s64 (Z.shiftl b7 56)) (Z.shiftl (Z.land b6 255) 48))
    (Z.shiftl (Z.land b5 255) 40)) (Z.shiftl (Z.land b4 255) 32))
    (Z.shiftl (Z.land b3 255) 24)) (Z.shiftl (Z.land b2 255) 16))
    (Z.shiftl (Z.land b1 255) 8)) (Z.land b0 255).

Definition getShort (bs : list Z) : Z * list Z :=
  let '(b1, bs) := read_byte bs in
  let '(b2, bs) := read_byte bs in
  (shorts_add b2 b1, bs).

Definition getInt (bs : list Z) : Z * list Z :=
  let '(b1, bs) := read_byte bs in
  let '(b2, bs) := read_byte bs in
  let '(b3, bs) := read_byte bs in
  let '(b4, bs) := read_byte bs in
  (ints_Ladd b4 b3 b2 b1, bs).

Definition getLong48b (bs : list Z) : Z * list Z :=
  let '(b0, bs) := read_byte bs in
  let '(b1, bs) := read_byte bs in
  let '(b2, bs) := read_byte bs in
  let '(b3, bs) := read_byte bs in
  let '(b4, bs) := read_byte bs in
  let '(b5, bs) := read_byte bs in
  (longs_Ladd 0 0 b5 b4 b3 b2 b1 b0, bs).

Definition getLong64b (bs : list Z) : Z * list Z :=
  let '(b0, bs) := read_byte bs in
  let '(b1, bs) := read_byte bs in
  let '(b2, bs) := read_byte bs in
  let '(b3, bs) := read_byte bs in
  let '(b4, bs) := read_byte bs in
  let '(b5, bs) := read_byte bs in
  let '(b6, bs) := read_byte bs in
  let '(b7, bs) := read_byte bs in
  (longs_Ladd b7 b6 b5 b4 b3 b2 b1 b0, bs).

(** ** Nodes *)

Inductive node : Type :=
| TBeginNode (tid tidParent eTime : Z)
| TEndNode (tid tidParent eTime : Z)
| TStartNode (index tid tidKid eTime pc : Z)
| TJoinNode (index tid tidKid eTime pc : Z)
| LockNode (tid addr pc : Z)
| UnlockNode (tid addr pc : Z)
| AllocNode (tid pc addr size : Z)
| DeallocNode (tid pc addr size : Z)
| RangeReadNode (tid pc addr size ptr : Z)
| RangeWriteNode (tid pc addr size ptr : Z)
| ReadNode (tid pc addr size value ptr : Z)
| WriteNode (tid pc addr size value ptr : Z)
| PtrPropNode (tid src dest idx : Z)
| FuncEntryNode (tid pc : Z)
| FuncExitNode (tid : Z)
| WaitNode (index tid cond mutex pc : Z)
| NotifyNode (index tid cond pc : Z)
| NotifyAllNode (index tid cond pc : Z).

(** What [getNode] hands to the loading loop: a node, [null], or [null] after
    the side effect of a pointer dereference on [lastMemAcc]. *)
Inductive got : Type :=
| GNode (n : node)
| GNull
| GDeRef (ptrAddr : Z).

Record TLHeaderNode := mkTLHeaderNode {
  th_tid : Z; th_version : Z; th_time : Z; th_data : Z }.

(** The value bytes of an access, and the value [ByteBuffer] makes of them:
    a signed little-endian integer of that size. *)
Fixpoint read_value (n : nat) (bs : list Z) : list Z * list Z :=
  match n with
  | O => ([], bs)
  | S m =>
      let '(v, bs) := read_byte bs in
      let '(vs, bs) := read_value m bs in (v :: vs, bs)
  end.

Definition buf_value (vs : list Z) : Z :=
  swrap (8 * zlen vs) (le_val (wrap 8 <$> vs)).

Definition getRWNode (size : Z) (isW : bool) (curTid : Z) (bs : list Z) : node * list Z :=
  let '(addr, bs) := getLong48b bs in
  let '(pc, bs) := getLong48b bs in
  let '(vs, bs) := read_value (Z.to_nat size) bs in
  ((if isW then WriteNode else ReadNode) curTid pc addr size (buf_value vs) 0, bs).

Definition getHeader (typeIdx : Z) (bs : list Z) : option (TLHeaderNode * list Z) :=
  if negb (typeIdx =? 13) then None
  else
    let '(version, bs) := getLong64b bs in
    let '(tidParent, bs) := getShort bs in
    let '(time, bs) := getLong64b bs in
    let '(len, bs) := getInt bs in
    Some (mkTLHeaderNode tidParent version time len, bs).

(** The [default] branch of [getNode]'s switch: memory accesses, whose tag
    carries the logarithm of the size in its two high bits. *)
Definition getNode_default (curTid typeIdx : Z) (bs : list Z) : got * list Z :=
  let type_idx := Z.land typeIdx 0xffffff3f in
  if type_idx <=? 13 then
    let size := Z.shiftl 1 (Z.shiftr typeIdx 6) in
    if type_idx =? 8 then
      let '(n, bs) := getRWNode size false curTid bs in (GNode n, bs)
    else if type_idx =? 9 then
      let '(n, bs) := getRWNode size true curTid bs in (GNode n, bs)
    else (GNull, bs)
  else (GNull, bs).

Definition getNode (curTid typeIdx : Z) (bs : list Z) : got * list Z :=
  match typeIdx with
  | 0 =>
      let '(tidParent, bs) := getShort bs in
      let '(pc, bs) := getLong48b bs in
      let '(eTime, bs) := getInt bs in
      let '(_, bs) := getLong48b bs in
      let '(_, bs) := getInt bs in
      let '(_, bs) := getLong48b bs in
      let '(_, bs) := getInt bs in
      (GNode (TBeginNode curTid tidParent eTime), bs)
  | 1 =>
      let '(tidParent, bs) := getShort bs in
      let '(eTime, bs) := getInt bs in
      (GNode (TEndNode curTid tidParent eTime), bs)
  | 2 =>
      let '(index, bs) := getLong48b bs in
      let '(tidKid, bs) := getShort bs in
      let '(eTime, bs) := getInt bs in
      let '(pc, bs) := getLong48b bs in
      (GNode (TStartNode index curTid tidKid eTime pc), bs)
  | 3 =>
      let '(index, bs) := getLong48b bs in
      let '(tidKid, bs) := getShort bs in
      let '(eTime, bs) := getInt bs in
      let '(pc, bs) := getLong48b bs in
      (GNode (TJoinNode index curTid tidKid eTime pc), bs)
  | 4 =>
      let '(addr, bs) := getLong48b bs in
      let '(pc, bs) := getLong48b bs in
      (GNode (LockNode curTid addr pc), bs)
  | 5 =>
      let '(addr, bs) := getLong48b bs in
      let '(pc, bs) := getLong48b bs in
      (GNode (UnlockNode curTid addr pc), bs)
  | 6 =>
      let '(addr, bs) := getLong48b bs in
      let '(pc, bs) := getLong48b bs in
      let '(size, bs) := getInt bs in
      (GNode (AllocNode curTid pc addr size), bs)
  | 7 =>
      let '(addr, bs) := getLong48b bs in
      let '(pc, bs) := getLong48b bs in
      let '(size, bs) := getInt bs in
      (GNode (DeallocNode curTid pc addr size), bs)
  | 10 =>
      let '(addr, bs) := getLong48b bs in
      let '(pc, bs) := getLong48b bs in
      let '(size, bs) := getInt bs in
      (GNode (RangeReadNode curTid pc addr size 0), bs)
  | 11 =>
      let '(addr, bs) := getLong48b bs in
      let '(pc, bs) := getLong48b bs in
      let '(size, bs) := getInt bs in
      (GNode (RangeWriteNode curTid pc addr size 0), bs)
  | 12 =>
      let '(src, bs) := getLong48b bs in
      let '(dest, bs) := getLong48b bs in
      (GNode (PtrPropNode curTid src dest 0), bs)
  | 14 =>
      let '(_, bs) := getLong64b bs in
      let '(_, bs) := getLong64b bs in
      (GNull, bs)
  | 15 =>
      let '(pc, bs) := getLong48b bs in
      (GNode (FuncEntryNode curTid pc), bs)
  | 16 => (GNode (FuncExitNode curTid), bs)
  | 17 =>
      let '(index, bs) := getLong48b bs in
      let '(cond, bs) := getLong48b bs in
      let '(mutex, bs) := getLong48b bs in
      let '(pc, bs) := getLong48b bs in
      (GNode (WaitNode index curTid cond mutex pc), bs)
  | 18 =>
      let '(index, bs) := getLong48b bs in
      let '(cond, bs) := getLong48b bs in
      let '(pc, bs) := getLong48b bs in
      (GNode (NotifyNode index curTid cond pc), bs)
  | 19 =>
      let '(index, bs) := getLong48b bs in
      let '(cond, bs) := getLong48b bs in
      let '(pc, bs) := getLong48b bs in
      (GNode (NotifyAllNode index curTid cond pc), bs)
  | 20 =>
      let '(ptrAddr, bs) := getLong48b bs in
      (GDeRef ptrAddr, bs)
  | _ => getNode_default curTid typeIdx bs
  end.

(** ** The loading loop *)

Definition isISync (n : node) : bool :=
  match n with
  | TBeginNode _ _ _ | TEndNode _ _ _ | TStartNode _ _ _ _ _ | TJoinNode _ _ _ _ _
  | LockNode _ _ _ | UnlockNode _ _ _
  | WaitNode _ _ _ _ _ | NotifyNode _ _ _ _ | NotifyAllNode _ _ _ _ => true
  | _ => false
  end.

Definition isMemAcc (n : node) : bool :=
  match n with
  | RangeReadNode _ _ _ _ _ | RangeWriteNode _ _ _ _ _
  | ReadNode _ _ _ _ _ _ | WriteNode _ _ _ _ _ _ => true
  | _ => false
  end.

(** the assignment [lastMemAcc.ptr = ptrAddr] *)
Definition set_ptr (p : Z) (n : node) : node :=
  match n with
  | RangeReadNode t pc a s _ => RangeReadNode t pc a s p
  | RangeWriteNode t pc a s _ => RangeWriteNode t pc a s p
  | ReadNode t pc a s v _ => ReadNode t pc a s v p
  | WriteNode t pc a s v _ => WriteNode t pc a s v p
  | _ => n
  end.

(** [TLEventSeq] with the loop's own variables: the events with their global
    ids, the tids of started threads, and the index in [events] of the node
    [lastMemAcc] points to. *)
Record TLEventSeq := mkTLEventSeq {
  seq_header : option TLHeaderNode;
  seq_events : list (Z * node);
  seq_newTids : list Z;
  seq_numOfEvents : Z;
  seq_eCount : Z;
  seq_lastMemAcc : option nat }.

(** [Bytes.longs.add] *)
Definition longs_add (a b : Z) : Z := Z.lor (s64 (Z.shiftl a 32)) (Z.land b 0xFFFFFFFF).

(** The body of the loop after [getNode] returned. *)
Definition load_got (tid : Z) (g : got) (seq : TLEventSeq) : TLEventSeq :=
  match g with
  | GNull => seq
  | GDeRef p =>
      mkTLEventSeq seq.(seq_header)
        (match seq.(seq_lastMemAcc) with
         | Some i => alter (fun gn => (gn.1, set_ptr p gn.2)) i seq.(seq_events)
         | None => seq.(seq_events)
         end) seq.(seq_newTids) seq.(seq_numOfEvents) seq.(seq_eCount) None
  | GNode n =>
      let num := s32 (seq.(seq_numOfEvents) + 1) in
      let newTids := match n with
                     | TStartNode _ _ kid _ _ => seq.(seq_newTids) ++ [kid]
                     | _ => seq.(seq_newTids)
                     end in
      if isISync n then
        mkTLEventSeq seq.(seq_header) seq.(seq_events) newTids num
          seq.(seq_eCount) seq.(seq_lastMemAcc)
      else
        mkTLEventSeq seq.(seq_header) (seq.(seq_events) ++ [(longs_add tid num, n)])
          newTids num (seq.(seq_eCount) + 1)
          (if isMemAcc n then Some (length seq.(seq_events)) else seq.(seq_lastMemAcc))
  end.

(** The [while] loop; [bnext] is the tag already read.  Every turn reads at
    least one byte, so one unit of fuel for each byte and one for the end of
    file is enough ([load_loop_fuel]); [None] is running out of fuel. *)
Fixpoint load_loop (fuel : nat) (tid eLimit bnext : Z) (bs : list Z) (seq : TLEventSeq)
  : option TLEventSeq :=
  if negb (bnext =? -1) && (seq.(seq_eCount) <? eLimit) then
    match fuel with
    | O => None
    | S fuel' =>
        let '(g, bs) := getNode tid bnext bs in
        let seq := load_got tid g seq in
        let '(bnext, bs) := read bs in
        load_loop fuel' tid eLimit bnext bs seq
    end
  else Some seq.

(** [load] of a file not read before ([fileOffset = 0]).  [None] is the
    exception of [getHeader]. *)
Definition load (tid eLimit : Z) (file : list Z) : option TLEventSeq :=
  let seq0 := mkTLEventSeq None [] [] 0 0 None in
  let '(bnext, bs) := read file in
  if bnext =? -1 then Some seq0
  else
    match getHeader bnext bs with
    | None => None
    | Some (h, bs) =>
        let seq := mkTLEventSeq (Some h) [] [] 0 0 None in
        let '(bnext, bs) := read bs in
        load_loop (S (length bs)) tid eLimit bnext bs seq
    end.

(** ** Assembling integers from bytes *)

Lemma jbyte_land v : Z.land (jbyte v) 255 = wrap 8 v.
Proof.
  change 255 with (Z.ones 8). rewrite Z.land_ones by lia.
  unfold jbyte, swrap, wrap. rewrite Zminus_mod_idemp_l. f_equal. lia.
Qed.

Lemma jbyte_mul v k w :
  8 <= w -> k = w - 8 -> swrap w (jbyte v * 2 ^ k) = jbyte v * 2 ^ k.
Proof.
  intros Hw ->. apply swrap_small; [lia|].
  assert (- 2 ^ 7 <= jbyte v < 2 ^ 7) as Hv by (apply (swrap_range 8); lia).
  replace (w - 1) with (7 + (w - 8)) by lia. rewrite Z.pow_add_r by lia.
  assert (0 < 2 ^ (w - 8)) by (apply Z.pow_pos_nonneg; lia). nia.
Qed.

(** Two reads, two lemmas: the top byte is signed, the rest are not. *)
Lemma swrap_top v k w :
  0 <= k -> w = 8 + k -> forall l, 0 <= l < 2 ^ k ->
  swrap w (v * 2 ^ k + l) = jbyte v * 2 ^ k + l.
Proof.
  intros Hk -> l Hl. unfold jbyte, swrap.
  replace (8 + k - 1) with (7 + k) by lia.
  rewrite !(Z.pow_add_r 2 _ k) by lia. change (2 ^ (8 - 1)) with 128.
  change (2 ^ 7) with 128. change (2 ^ 8) with 256.
  assert (0 < 2 ^ k) by (apply Z.pow_pos_nonneg; lia).
  replace (v * 2 ^ k + l + 128 * 2 ^ k) with (l + (v + 128) * 2 ^ k) by ring.
  rewrite (Z.mul_comm 256), Z.rem_mul_r by lia.
  rewrite Z.mod_add, Z.div_add, (Z.mod_small l), (Z.div_small l), Z.add_0_l by lia. ring.
Qed.

Ltac bytes_of_le :=
  repeat match goal with
  | H : Forall byte_ok (_ :: _) |- _ =>
      let Hb := fresh "Hb" in
      apply Forall_cons in H as [Hb H]; unfold byte_ok in Hb
  end.

Ltac solve_bytes :=
  bytes_of_le;
  repeat (apply Forall_cons_2; [unfold byte_ok; lia|]); apply Forall_nil_2.

Lemma wrap8_small b : byte_ok b -> wrap 8 b = b.
Proof. intros H. apply wrap_small. exact H. Qed.

Lemma shorts_add_le b1 b0 :
  byte_ok b0 -> shorts_add (jbyte b1) (jbyte b0) = s16 (le_val [b0; b1]).
Proof.
  intros H. unfold shorts_add.
  rewrite jbyte_land, wrap8_small, Z.shiftl_mul_pow2 by done || lia.
  rewrite lor_low by (unfold byte_ok in H; lia). simpl le_val. unfold s16.
  rewrite (swrap_small 16 (jbyte b1 * 2 ^ 8 + b0)).
  - rewrite <- (swrap_top b1 8 16) by (unfold byte_ok in H; lia). f_equal. lia.
  - lia.
  - assert (- 2 ^ 7 <= jbyte b1 < 2 ^ 7) by (apply (swrap_range 8); lia).
    unfold byte_ok in H. lia.
Qed.

Lemma ints_Ladd_le b0 b1 b2 b3 :
  Forall byte_ok [b0; b1; b2] ->
  ints_Ladd (jbyte b3) (jbyte b2) (jbyte b1) (jbyte b0) = s32 (le_val [b0; b1; b2; b3]).
Proof.
  intros H. bytes_of_le. unfold ints_Ladd, s32.
  rewrite !jbyte_land, !wrap8_small, !Z.shiftl_mul_pow2 by (unfold byte_ok; lia).
  rewrite jbyte_mul by lia.
  rewrite (lor_low (jbyte b3) (b2 * 2 ^ 16) 24) by lia.
  replace (jbyte b3 * 2 ^ 24 + b2 * 2 ^ 16) with ((jbyte b3 * 2 ^ 8 + b2) * 2 ^ 16) by lia.
  rewrite lor_low by lia.
  replace ((jbyte b3 * 2 ^ 8 + b2) * 2 ^ 16 + b1 * 2 ^ 8)
    with ((jbyte b3 * 2 ^ 16 + b2 * 2 ^ 8 + b1) * 2 ^ 8) by lia.
  rewrite lor_low by lia. simpl le_val.
  replace (b0 + 256 * (b1 + 256 * (b2 + 256 * (b3 + 256 * 0))))
    with (b3 * 2 ^ 24 + (b2 * 2 ^ 16 + b1 * 2 ^ 8 + b0)) by lia.
  rewrite (swrap_top b3 24) by lia. lia.
Qed.

Lemma longs_Ladd_le b0 b1 b2 b3 b4 b5 b6 b7 :
  Forall byte_ok [b0; b1; b2; b3; b4; b5; b6] ->
  longs_Ladd (jbyte b7) (jbyte b6) (jbyte b5) (jbyte b4)
    (jbyte b3) (jbyte b2) (jbyte b1) (jbyte b0)
  = s64 (le_val [b0; b1; b2; b3; b4; b5; b6; b7]).
Proof.
  intros H. bytes_of_le. unfold longs_Ladd, s64.
  rewrite !jbyte_land, !wrap8_small, !Z.shiftl_mul_pow2 by (unfold byte_ok; lia).
  rewrite jbyte_mul by lia. rewrite (lor_low (jbyte b7) (b6 * 2 ^ 48) 56) by lia.
  replace (jbyte b7 * 2 ^ 56 + b6 * 2 ^ 48) with ((jbyte b7 * 2 ^ 8 + b6) * 2 ^ 48) by lia.
  set (x6 := jbyte b7 * 2 ^ 8 + b6). rewrite lor_low by lia.
  replace (x6 * 2 ^ 48 + b5 * 2 ^ 40) with ((x6 * 2 ^ 8 + b5) * 2 ^ 40) by lia.
  set (x5 := x6 * 2 ^ 8 + b5). rewrite lor_low by lia.
  replace (x5 * 2 ^ 40 + b4 * 2 ^ 32) with ((x5 * 2 ^ 8 + b4) * 2 ^ 32) by lia.
  set (x4 := x5 * 2 ^ 8 + b4). rewrite lor_low by lia.
  replace (x4 * 2 ^ 32 + b3 * 2 ^ 24) with ((x4 * 2 ^ 8 + b3) * 2 ^ 24) by lia.
  set (x3 := x4 * 2 ^ 8 + b3). rewrite lor_low by lia.
  replace (x3 * 2 ^ 24 + b2 * 2 ^ 16) with ((x3 * 2 ^ 8 + b2) * 2 ^ 16) by lia.
  set (x2 := x3 * 2 ^ 8 + b2). rewrite lor_low by lia.
  replace (x2 * 2 ^ 16 + b1 * 2 ^ 8) with ((x2 * 2 ^ 8 + b1) * 2 ^ 8) by lia.
  rewrite lor_low by lia. simpl le_val.
  replace (b0 + _) with (b7 * 2 ^ 56 + (b6 * 2 ^ 48 + b5 * 2 ^ 40 + b4 * 2 ^ 32 +
    b3 * 2 ^ 24 + b2 * 2 ^ 16 + b1 * 2 ^ 8 + b0)) at 1 by lia.
  rewrite (swrap_top b7 56) by lia. unfold x2, x3, x4, x5, x6. lia.
Qed.

Lemma swrap_wrap w z : 1 <= w -> swrap w (wrap w z) = swrap w z.
Proof.
  intros Hw. unfold swrap, wrap. by rewrite Zplus_mod_idemp_l.
Qed.

Lemma getShort_le v rest : getShort (le_bytes 2 v ++ rest) = (s16 v, rest).
Proof.
  pose proof (le_bytes_ok 2 v) as Hok. pose proof (le_val_le_bytes 2 v) as Hv.
  destruct (le_bytes 2 v) as [|b0 [|b1 [|]]] eqn:E;
    try (apply (f_equal length) in E; rewrite length_le_bytes in E; discriminate).
  unfold getShort, read_byte, read. cbn [app]. rewrite shorts_add_le by (bytes_of_le; done).
  rewrite Hv. unfold s16. change (8 * Z.of_nat 2) with 16.
  change (v mod 2 ^ 16) with (wrap 16 v). by rewrite swrap_wrap.
Qed.

Lemma getInt_le v rest : getInt (le_bytes 4 v ++ rest) = (s32 v, rest).
Proof.
  pose proof (le_bytes_ok 4 v) as Hok. pose proof (le_val_le_bytes 4 v) as Hv.
  destruct (le_bytes 4 v) as [|b0 [|b1 [|b2 [|b3 [|]]]]] eqn:E;
    try (apply (f_equal length) in E; rewrite length_le_bytes in E; discriminate).
  unfold getInt, read_byte, read. cbn [app].
  rewrite ints_Ladd_le by solve_bytes.
  rewrite Hv. unfold s32. change (8 * Z.of_nat 4) with 32.
  change (v mod 2 ^ 32) with (wrap 32 v). by rewrite swrap_wrap.
Qed.

Lemma getLong64b_le v rest : getLong64b (le_bytes 8 v ++ rest) = (s64 v, rest).
Proof.
  pose proof (le_bytes_ok 8 v) as Hok. pose proof (le_val_le_bytes 8 v) as Hv.
  destruct (le_bytes 8 v) as [|b0 [|b1 [|b2 [|b3 [|b4 [|b5 [|b6 [|b7 [|]]]]]]]]] eqn:E;
    try (apply (f_equal length) in E; rewrite length_le_bytes in E; discriminate).
  unfold getLong64b, read_byte, read. cbn [app].
  rewrite longs_Ladd_le by solve_bytes.
  rewrite Hv. unfold s64. change (8 * Z.of_nat 8) with 64.
  change (v mod 2 ^ 64) with (wrap 64 v). by rewrite swrap_wrap.
Qed.

Lemma getLong48b_le v rest : getLong48b (le_bytes 6 v ++ rest) = (u48 v, rest).
Proof.
  pose proof (le_bytes_ok 6 v) as Hok. pose proof (le_val_le_bytes 6 v) as Hv.
  destruct (le_bytes 6 v) as [|b0 [|b1 [|b2 [|b3 [|b4 [|b5 [|]]]]]]] eqn:E;
    try (apply (f_equal length) in E; rewrite length_le_bytes in E; discriminate).
  unfold getLong48b, read_byte, read. cbn [app].
  change (longs_Ladd 0 0) with (longs_Ladd (jbyte 0) (jbyte 0)).
  rewrite longs_Ladd_le by solve_bytes.
  change (le_val [b0; b1; b2; b3; b4; b5; 0; 0])
    with (b0 + 256 * (b1 + 256 * (b2 + 256 * (b3 + 256 * (b4 + 256 * (b5 + 256 * 0)))))).
  change (b0 + _) with (le_val [b0; b1; b2; b3; b4; b5]). rewrite Hv.
  f_equal. apply swrap_small; [lia|]. change (8 * Z.of_nat 6) with 48.
  pose proof (Z.mod_pos_bound v (2 ^ 48) eq_refl). unfold u48, wrap. lia.
Qed.

Lemma read_value_le vs rest :
  read_value (length vs) (vs ++ rest) = (jbyte <$> vs, rest).
Proof. induction vs as [|v vs IH]; simpl; [done|]. by rewrite IH. Qed.

#[export] Hint Rewrite getShort_le getInt_le getLong64b_le getLong48b_le : monad.

(** ** What the runtime writes after the header *)

(** One entry of a trace: a struct, and for a memory access the accessed
    bytes that follow it. *)
Inductive item : Type :=
| ItBegin (e : ThreadBeginEvent)
| ItEnd (e : ThreadEndEvent)
| ItCreate (e : CreateThreadEvent)
| ItJoin (e : JoinThreadEvent)
| ItLock (e : LockEvent)
| ItUnlock (e : UnlockEvent)
| ItAlloc (e : AllocEvent)
| ItDealloc (e : DeallocEvent)
| ItRange (e : MemRangeAccEvent)
| ItMem (e : MemAccEvent) (value : list Z)
| ItPtrAssign (e : PtrAssignEvent)
| ItPtrDeRef (e : PtrDeRefEvent)
| ItPkt (e : UFOPkt)
| ItEnter (e : FuncEntryEvent)
| ItExit (e : FuncExitEvent)
| ItWait (e : ThrCondWaitEvent)
| ItSignal (e : ThrCondSignalEvent)
| ItBC (e : ThrCondBCEvent).

Definition item_bytes (it : item) : list Z :=
  match it with
  | ItBegin e => encode e | ItEnd e => encode e | ItCreate e => encode e
  | ItJoin e => encode e | ItLock e => encode e | ItUnlock e => encode e
  | ItAlloc e => encode e | ItDealloc e => encode e | ItRange e => encode e
  | ItMem e value => encode e ++ value
  | ItPtrAssign e => encode e | ItPtrDeRef e => encode e | ItPkt e => encode e
  | ItEnter e => encode e | ItExit e => encode e | ItWait e => encode e
  | ItSignal e => encode e | ItBC e => encode e
  end.

(** The tag of a memory access of [2^sz] bytes: [type_idx |= sz << 6]. *)
Definition mem_tag (is_write : bool) (sz : Z) : Z :=
  u8 (Z.lor (type_val (if is_write then MemWrite else MemRead)) (Z.shiftl sz 6)).

(** The entries the runtime can write: range tags are the two range
    enumerators, and an access is followed by as many bytes as its tag says. *)
Definition item_wf (it : item) : Prop :=
  match it with
  | ItRange e =>
      e.(mr_type_index) = type_val MemRangeRead \/ e.(mr_type_index) = type_val MemRangeWrite
  | ItMem e value =>
      Forall byte_ok value /\
      exists is_write sz, 0 <= sz <= 3 /\ e.(ma_type_index) = mem_tag is_write sz /\
        zlen value = 2 ^ sz
  | _ => True
  end.

(** The node an entry should become. *)
Definition item_got (tid : Z) (it : item) : got :=
  match it with
  | ItBegin e => GNode (TBeginNode tid (s16 e.(tb_tid_parent)) (s32 e.(tb_e_time)))
  | ItEnd e => GNode (TEndNode tid (s16 e.(te_tid_parent)) (s32 e.(te_e_time)))
  | ItCreate e => GNode (TStartNode (u48 e.(ct_idx)) tid (s16 e.(ct_tid_kid)) (s32 e.(ct_e_time)) (u48 e.(ct_pc)))
  | ItJoin e => GNode (TJoinNode (u48 e.(jt_idx)) tid (s16 e.(jt_tid_joiner)) (s32 e.(jt_e_time)) (u48 e.(jt_pc)))
  | ItLock e => GNode (LockNode tid (u48 e.(le_mutexId)) (u48 e.(le_pc)))
  | ItUnlock e => GNode (UnlockNode tid (u48 e.(ue_mutexId)) (u48 e.(ue_pc)))
  | ItAlloc e => GNode (AllocNode tid (u48 e.(ae_pc)) (u48 e.(ae_addr)) (s32 e.(ae_size)))
  | ItDealloc e => GNode (DeallocNode tid (u48 e.(de_pc)) (u48 e.(de_addr)) (s32 e.(de_size)))
  | ItRange e =>
      GNode ((if e.(mr_type_index) =? type_val MemRangeWrite then RangeWriteNode else RangeReadNode)
               tid (u48 e.(mr_pc)) (u48 e.(mr_addr)) (s32 e.(mr_size)) 0)
  | ItMem e value =>
      GNode ((if Z.testbit e.(ma_type_index) 0 then WriteNode else ReadNode)
               tid (u48 e.(ma_pc)) (u48 e.(ma_addr)) (zlen value)
               (swrap (8 * zlen value) (le_val value)) 0)
  | ItPtrAssign e => GNode (PtrPropNode tid (u48 e.(pa_ptr_l)) (u48 e.(pa_ptr_r)) 0)
  | ItPtrDeRef e => GDeRef (u48 e.(pd_ptr_addr))
  | ItPkt e => GNull
  | ItEnter e => GNode (FuncEntryNode tid (u48 e.(fe_caller_pc)))
  | ItExit e => GNode (FuncExitNode tid)
  | ItWait e => GNode (WaitNode (u48 e.(cw_idx)) tid (u48 e.(cw_cond)) (u48 e.(cw_mtx)) (u48 e.(cw_pc)))
  | ItSignal e => GNode (NotifyNode (u48 e.(cs_idx)) tid (u48 e.(cs_cond)) (u48 e.(cs_pc)))
  | ItBC e => GNode (NotifyAllNode (u48 e.(cb_idx)) tid (u48 e.(cb_cond)) (u48 e.(cb_pc)))
  end.

Definition is_BC (it : item) : bool := match it with ItBC _ => true | _ => false end.

(** *** Decoding one entry *)

Lemma encode_tag {E} `{Packed E} (e : E) t fs :
  fields e = (1%nat, t) :: fs -> byte_ok t -> encode e = t :: pack fs.
Proof.
  intros Hf Ht. unfold encode. rewrite Hf. unfold pack. cbn. f_equal.
  apply Z.mod_small. exact Ht.
Qed.

Lemma pack_cons n z fs : pack ((n, z) :: fs) = le_bytes n z ++ pack fs.
Proof. done. Qed.

Lemma pack_nil : pack [] = [].
Proof. done. Qed.

(** The first byte of [bs] is the tag, the others are left to [getNode]. *)
Definition decode1 (tid : Z) (bs : list Z) : got * list Z :=
  let '(b, rest) := read bs in getNode tid b rest.

Ltac decode_fields :=
  unfold decode1, item_bytes;
  match goal with |- context [encode ?e] => erewrite (encode_tag e) by (reflexivity || (cbn; unfold byte_ok; lia)) end;
  cbn [app read type_val getNode];
  rewrite ?pack_cons, ?pack_nil, ?app_nil_r, <- ?app_assoc;
  repeat first [rewrite getShort_le | rewrite getInt_le | rewrite getLong48b_le | rewrite getLong64b_le].

Lemma decode1_range tid e rest :
  item_wf (ItRange e) -> decode1 tid (item_bytes (ItRange e) ++ rest) = (item_got tid (ItRange e), rest).
Proof.
  unfold decode1, item_bytes, item_got.
  intros [E|E];
    (erewrite (encode_tag e); [|reflexivity|rewrite E; easy]);
    rewrite E; cbn [app read type_val getNode];
    rewrite !pack_cons, pack_nil, app_nil_r, <- !app_assoc, !getLong48b_le, getInt_le; done.
Qed.

Lemma getNode_mem_tag tid is_write sz bs :
  0 <= sz <= 3 ->
  getNode tid (mem_tag is_write sz) bs =
  (let '(n, rest) := getRWNode (2 ^ sz) is_write tid bs in (GNode n, rest)).
Proof.
  intros H.
  assert (sz = 0 \/ sz = 1 \/ sz = 2 \/ sz = 3) as [->|[->|[->| ->]]] by lia;
    destruct is_write; reflexivity.
Qed.

Lemma mem_tag_write is_write sz :
  0 <= sz <= 3 -> Z.testbit (mem_tag is_write sz) 0 = is_write.
Proof.
  intros H.
  assert (sz = 0 \/ sz = 1 \/ sz = 2 \/ sz = 3) as [->|[->|[->| ->]]] by lia;
    destruct is_write; reflexivity.
Qed.

Lemma mem_tag_byte is_write sz : byte_ok (mem_tag is_write sz).
Proof. apply (wrap_range 8). lia. Qed.

Lemma wrap_jbyte v : byte_ok v -> wrap 8 (jbyte v) = v.
Proof.
  intros H. unfold wrap, jbyte, swrap. rewrite Zminus_mod_idemp_l.
  replace (v + 2 ^ (8 - 1) - 2 ^ (8 - 1)) with v by lia. by apply Z.mod_small.
Qed.

Lemma buf_value_le vs :
  Forall byte_ok vs -> buf_value (jbyte <$> vs) = swrap (8 * zlen vs) (le_val vs).
Proof.
  intros H. unfold buf_value, zlen. rewrite length_fmap, <- list_fmap_compose.
  f_equal. f_equal. induction H as [|v vs Hv _ IH]; [done|].
  rewrite fmap_cons, IH. cbn. by rewrite wrap_jbyte.
Qed.

Lemma getRWNode_le (w : bool) tid addr pc value rest :
  Forall byte_ok value ->
  getRWNode (zlen value) w tid (le_bytes 6 addr ++ le_bytes 6 pc ++ value ++ rest) =
  ((if w then WriteNode else ReadNode) tid (u48 pc) (u48 addr) (zlen value)
     (swrap (8 * zlen value) (le_val value)) 0, rest).
Proof.
  intros Hok. unfold getRWNode.
  rewrite !getLong48b_le. unfold zlen at 1. rewrite Nat2Z.id, read_value_le.
  by rewrite buf_value_le.
Qed.

Lemma decode1_mem tid e value rest :
  item_wf (ItMem e value) ->
  decode1 tid (item_bytes (ItMem e value) ++ rest) = (item_got tid (ItMem e value), rest).
Proof.
  intros (Hok & w & sz & Hsz & Hty & Hlen).
  unfold decode1, item_bytes, item_got.
  rewrite (encode_tag e (mem_tag w sz) [(6%nat, ma_addr e); (6%nat, ma_pc e)]);
    [|by rewrite <- Hty|apply mem_tag_byte].
  rewrite Hty, mem_tag_write by lia. cbn [app read].
  rewrite getNode_mem_tag, <- Hlen by lia.
  rewrite !pack_cons, pack_nil, app_nil_r, <- !app_assoc.
  by rewrite getRWNode_le by done.
Qed.

Lemma decode1_item tid it rest :
  item_wf it -> is_BC it = false ->
  decode1 tid (item_bytes it ++ rest) = (item_got tid it, rest).
Proof.
  intros Hwf Hbc. destruct it; cbn in Hbc; try discriminate;
    try (apply decode1_range, Hwf); try (apply decode1_mem, Hwf);
    decode_fields; done.
Qed.

Lemma decode1_BC tid e rest :
  decode1 tid (encode e ++ rest) =
  (GNode (NotifyNode (u48 e.(cb_idx)) tid (u48 e.(cb_cond)) (u48 e.(cb_pc))), rest).
Proof. decode_fields. done. Qed.

(** What the readers make of an entry: a broadcast has the tag of a signal. *)
Definition read_got (t : Z) (it : item) : got :=
  match it with ItBC c => GNode (NotifyNode (u48 c.(cb_idx)) t (u48 c.(cb_cond)) (u48 c.(cb_pc))) | _ => item_got t it end.

Lemma decode1_read t it rest : item_wf it -> decode1 t (item_bytes it ++ rest) = (read_got t it, rest).
Proof. intros Hwf. destruct (is_BC it) eqn:E; [|rewrite decode1_item by done; by destruct it]. destruct it; try done. apply decode1_BC. Qed.

(** The loader drops either. *)
Lemma load_got_read t it seq : load_got t (read_got t it) seq = load_got t (item_got t it) seq.
Proof. by destruct it. Qed.

(** *** Decoding a whole file *)

Lemma read_shorter bs : (length (read bs).2 <= length bs)%nat.
Proof. destruct bs; cbn; lia. Qed.

Definition shorter {A} (f : list Z -> A * list Z) : Prop :=
  forall bs, (length (f bs).2 <= length bs)%nat.

Lemma shorter_bind {A B} (f : list Z -> A * list Z) (k : A -> list Z -> B * list Z) :
  shorter f -> (forall a, shorter (k a)) -> shorter (fun bs => let '(a, bs') := f bs in k a bs').
Proof.
  intros Hf Hk bs. specialize (Hf bs). destruct (f bs) as [a bs']. cbn in Hf.
  specialize (Hk a bs'). lia.
Qed.

Lemma shorter_ret {A} (a : A) : shorter (fun bs => (a, bs)).
Proof. intros bs. cbn. lia. Qed.

Lemma shorter_read_byte : shorter read_byte.
Proof. intros [|b bs]; cbn; lia. Qed.

Create HintDb shorter.
#[local] Hint Resolve shorter_ret shorter_read_byte : shorter.

Ltac shorter_tac :=
  repeat first [ solve [eauto with shorter nocore] | apply shorter_bind; [|intros ?] ].

Lemma shorter_getShort : shorter getShort.
Proof. unfold getShort. shorter_tac. Qed.
Lemma shorter_getInt : shorter getInt.
Proof. unfold getInt. shorter_tac. Qed.
Lemma shorter_getLong48b : shorter getLong48b.
Proof. unfold getLong48b. shorter_tac. Qed.
Lemma shorter_getLong64b : shorter getLong64b.
Proof. unfold getLong64b. shorter_tac. Qed.
#[local] Hint Resolve shorter_getShort shorter_getInt shorter_getLong48b shorter_getLong64b : shorter.

Lemma shorter_read_value n : shorter (read_value n).
Proof. induction n as [|n IH]; cbn [read_value]; shorter_tac. Qed.
#[local] Hint Resolve shorter_read_value : shorter.

Lemma shorter_getRWNode size w tid : shorter (getRWNode size w tid).
Proof. unfold getRWNode. shorter_tac. Qed.
#[local] Hint Resolve shorter_getRWNode : shorter.

Lemma shorter_getNode_default tid t : shorter (getNode_default tid t).
Proof. unfold getNode_default. repeat case_match; shorter_tac. Qed.
#[local] Hint Resolve shorter_getNode_default : shorter.

Lemma shorter_getNode tid t : shorter (getNode tid t).
Proof. unfold getNode. repeat case_match; shorter_tac. Qed.

(** Every turn of the loop consumes its tag, so the fuel [load] gives is
    enough whatever the file holds. *)
Lemma load_loop_fuel fuel tid eLimit bnext bs seq :
  (length bs < fuel)%nat -> is_Some (load_loop fuel tid eLimit bnext bs seq).
Proof.
  revert bnext bs seq. induction fuel as [|fuel IH]; intros bnext bs seq Hlen; [lia|].
  cbn [load_loop]. case_match; [|done].
  pose proof (shorter_getNode tid bnext bs) as Hs.
  destruct (getNode tid bnext bs) as [g bs']. cbn in Hs.
  destruct bs' as [|b bs']; cbn [read].
  - destruct fuel; cbn; eauto.
  - apply IH. cbn in Hs. lia.
Qed.

(** The loop entered with its tag not yet read. *)
Definition load_from (fuel : nat) (tid eLimit : Z) (bs : list Z) (seq : TLEventSeq) :=
  let '(bnext, bs) := read bs in load_loop fuel tid eLimit bnext bs seq.

Lemma item_bytes_head it : exists b r, item_bytes it = b :: r /\ b <> -1.
Proof.
  destruct it; cbn [item_bytes];
    match goal with |- context [encode ?e] =>
      pose proof (encode_ok e) as Hok; pose proof (length_encode e) as Hl;
      destruct (encode e) as [|b r]; [cbn in Hl; lia|] end;
    apply Forall_cons in Hok as [[Hb _] _]; eexists b, _; (split; [reflexivity|lia]).
Qed.

Lemma load_from_item fuel tid eLimit it rest seq :
  item_wf it -> seq.(seq_eCount) < eLimit ->
  load_from (S fuel) tid eLimit (item_bytes it ++ rest) seq =
  load_from fuel tid eLimit rest (load_got tid (item_got tid it) seq).
Proof.
  intros Hwf Hlim. pose proof (decode1_read tid it rest Hwf) as Hd.
  destruct (item_bytes_head it) as (b & r & E & Hb). rewrite E in *.
  unfold decode1 in Hd. unfold load_from at 1. cbn [app read] in *.
  cbn [load_loop]. rewrite Hd, load_got_read.
  rewrite (proj2 (Z.eqb_neq b (-1))) by done.
  by rewrite (proj2 (Z.ltb_lt _ _)).
Qed.

(** The nodes that end up in [events], with [ptr] not yet linked. *)
Definition kept_node (tid : Z) (it : item) : option node :=
  match item_got tid it with
  | GNode n => if isISync n then None else Some n
  | _ => None
  end.

Definition counted (tid : Z) (it : item) : Z := match kept_node tid it with Some _ => 1 | None => 0 end.

Lemma load_got_eCount tid it seq : (load_got tid (item_got tid it) seq).(seq_eCount) = seq.(seq_eCount) + counted tid it.
Proof. unfold counted, kept_node. destruct (item_got tid it) as [n| |]; cbn; try lia. destruct (isISync n); cbn; lia. Qed.

Definition load_items (tid : Z) (items : list item) (seq : TLEventSeq) : TLEventSeq :=
  foldl (fun s it => load_got tid (item_got tid it) s) seq items.

(** The entries read until [n] of them have been counted. *)
Fixpoint loaded_items (tid n : Z) (items : list item) : list item :=
  match items with
  | [] => []
  | it :: items => if 0 <? n then it :: loaded_items tid (n - counted tid it) items else []
  end.

Lemma loaded_items_all tid items : forall n, zlen items <= n -> loaded_items tid n items = items.
Proof.
  induction items as [|it items IH]; intros n Hn; [done|]. unfold zlen in *. cbn [length loaded_items] in *.
  rewrite (proj2 (Z.ltb_lt _ _)) by lia. rewrite IH; [done|]. unfold counted. case_match; lia.
Qed.

Lemma load_from_items fuel tid eLimit items seq :
  Forall item_wf items -> (length items <= fuel)%nat ->
  load_from fuel tid eLimit (concat (item_bytes <$> items)) seq = Some (load_items tid (loaded_items tid (eLimit - seq.(seq_eCount)) items) seq).
Proof.
  intros Hwf. revert fuel seq. induction Hwf as [|it items Hit _ IH]; intros fuel seq Hfuel; [by destruct fuel|].
  cbn [length loaded_items] in *. destruct fuel as [|fuel]; [lia|]. rewrite fmap_cons. cbn [concat].
  destruct (Z.ltb_spec 0 (eLimit - seq_eCount seq)) as [Hlt|Hge].
  - rewrite load_from_item by (done || lia). rewrite IH by lia. cbn [load_items foldl]. rewrite load_got_eCount.
    by replace (eLimit - (seq_eCount seq + counted tid it)) with (eLimit - seq_eCount seq - counted tid it) by lia.
  - destruct (item_bytes_head it) as (b & r & -> & Hb). unfold load_from. cbn [app read load_loop].
    rewrite (proj2 (Z.eqb_neq b (-1))), (proj2 (Z.ltb_ge _ _)) by (done || lia). done.
Qed.

Lemma concat_items_length items : (length items <= length (concat (item_bytes <$> items)))%nat.
Proof.
  induction items as [|it items IH]; [done|].
  destruct (item_bytes_head it) as (b & r & E & _).
  rewrite fmap_cons. cbn [concat]. rewrite E, length_app. cbn [length]. lia.
Qed.


Definition header_node (h : UFOHeader) : TLHeaderNode :=
  mkTLHeaderNode (s16 h.(hd_tid)) (s64 h.(hd_version)) (s64 h.(hd_timestamp)) (s32 h.(hd_length)).

Lemma load_header tid eLimit h rest :
  load tid eLimit (encode h ++ rest) =
  load_from (S (length (read rest).2)) tid eLimit rest (mkTLEventSeq (Some (header_node h)) [] [] 0 0 None).
Proof.
  unfold load.
  erewrite (encode_tag h) by (reflexivity || (cbn; unfold byte_ok; lia)).
  cbn [app read type_val]. cbn [Z.eqb Pos.eqb]. unfold getHeader. cbn [negb Z.eqb Pos.eqb].
  rewrite !pack_cons, pack_nil, app_nil_r, <- !app_assoc.
  rewrite getLong64b_le, getShort_le, getLong64b_le, getInt_le.
  unfold load_from, header_node. by destruct (read rest).
Qed.

(** *** What the loaded sequence holds *)

Definition started_tid (it : item) : option Z :=
  match it with ItCreate e => Some (s16 e.(ct_tid_kid)) | _ => None end.

Lemma set_ptr_item tid it n : item_got tid it = GNode n -> set_ptr 0 n = n.
Proof. destruct it; cbn; intros [= <-]; try done; by case_match. Qed.

Lemma set_ptr_set p n : set_ptr 0 (set_ptr p n) = set_ptr 0 n.
Proof. by destruct n. Qed.

Lemma deref_keeps p i (l : list (Z * node)) :
  set_ptr 0 <$> (alter (fun gn => (gn.1, set_ptr p gn.2)) i l).*2 = set_ptr 0 <$> l.*2.
Proof.
  revert i. induction l as [|[g n] l IH]; intros [|i]; cbn; [done..| |].
  - by rewrite set_ptr_set.
  - f_equal. apply IH.
Qed.

Definition unlinked (seq : TLEventSeq) : list node := set_ptr 0 <$> seq.(seq_events).*2.

Lemma load_got_unlinked tid it seq :
  unlinked (load_got tid (item_got tid it) seq) =
  unlinked seq ++ option_list (kept_node tid it).
Proof.
  unfold kept_node, unlinked. destruct (item_got tid it) as [n| |p] eqn:E; cbn [load_got].
  - destruct (isISync n); cbn [seq_events option_list]; [by rewrite app_nil_r|].
    rewrite !fmap_app. cbn. by rewrite (set_ptr_item _ _ _ E).
  - by rewrite app_nil_r.
  - cbn [seq_events option_list]. rewrite app_nil_r. case_match; [apply deref_keeps|done].
Qed.

Lemma load_got_newTids tid it seq :
  (load_got tid (item_got tid it) seq).(seq_newTids) =
  seq.(seq_newTids) ++ option_list (started_tid it).
Proof.
  destruct it; cbn; rewrite ?app_nil_r; try done; repeat case_match; try done; cbn in *; simplify_eq.
Qed.

Lemma omap_cons_list {A B} (f : A -> option B) x l :
  omap f (x :: l) = option_list (f x) ++ omap f l.
Proof. cbn. by destruct (f x). Qed.

Lemma load_items_unlinked tid items seq :
  unlinked (load_items tid items seq) = unlinked seq ++ omap (kept_node tid) items.
Proof.
  revert seq. induction items as [|it items IH]; intros seq; cbn [load_items foldl].
  - cbn. by rewrite app_nil_r.
  - unfold load_items in IH. rewrite IH, load_got_unlinked, omap_cons_list. by rewrite app_assoc.
Qed.

Lemma load_items_newTids tid items seq :
  (load_items tid items seq).(seq_newTids) = seq.(seq_newTids) ++ omap started_tid items.
Proof.
  revert seq. induction items as [|it items IH]; intros seq; cbn [load_items foldl].
  - cbn. by rewrite app_nil_r.
  - unfold load_items in IH. rewrite IH, load_got_newTids, omap_cons_list. by rewrite app_assoc.
Qed.

Lemma load_items_header tid items seq :
  (load_items tid items seq).(seq_header) = seq.(seq_header).
Proof.
  revert seq. induction items as [|it items IH]; intros seq; [done|].
  cbn [load_items foldl]. unfold load_items in IH. rewrite IH.
  destruct (item_got tid it); cbn; try done. by case_match.
Qed.

(** *** Pointers *)

(** The address of the first dereference after an access, if no other access
    comes before it. *)
Fixpoint link (tid : Z) (n : node) (items : list item) : node :=
  match items with
  | [] => n
  | it :: items =>
      match item_got tid it with
      | GDeRef p => set_ptr p n
      | GNode n' => if isMemAcc n' then n else link tid n items
      | GNull => link tid n items
      end
  end.

(** The nodes of a list of entries. *)
Fixpoint nodes_of (tid : Z) (items : list item) : list node :=
  match items with
  | [] => []
  | it :: items =>
      match kept_node tid it with
      | Some n => (if isMemAcc n then link tid n items else n) :: nodes_of tid items
      | None => nodes_of tid items
      end
  end.

Lemma deref_nodes p i (l : list (Z * node)) : (alter (fun gn => (gn.1, set_ptr p gn.2)) i l).*2 = alter (set_ptr p) i l.*2.
Proof. revert i. induction l as [|[g n] l IH]; intros [|i]; cbn; try done. f_equal. apply IH. Qed.

(** The last access is among the events. *)
Definition last_ok (seq : TLEventSeq) : Prop := forall i, seq.(seq_lastMemAcc) = Some i -> (i < length seq.(seq_events))%nat.

Lemma load_got_last tid g seq : last_ok seq -> last_ok (load_got tid g seq).
Proof.
  intros Hok i. destruct g as [n| |p]; cbn [load_got]; [|apply Hok|done]. destruct (isISync n); cbn [seq_lastMemAcc seq_events]; [apply Hok|].
  rewrite length_app. cbn. destruct (isMemAcc n); [intros [= <-]; lia|]. intros Hi. apply Hok in Hi. lia.
Qed.

Lemma load_items_nodes tid items : forall seq, last_ok seq -> (load_items tid items seq).(seq_events).*2 =
  (match seq.(seq_lastMemAcc) with Some i => alter (fun n => link tid n items) i seq.(seq_events).*2 | None => seq.(seq_events).*2 end) ++ nodes_of tid items.
Proof.
  induction items as [|it items IH]; intros seq Hok; [cbn; rewrite app_nil_r; destruct (seq_lastMemAcc seq); [by rewrite list_alter_id|done]|].
  cbn [load_items foldl]. fold (load_items tid items (load_got tid (item_got tid it) seq)). rewrite IH by (by apply load_got_last). clear IH. cbn [nodes_of link]. unfold kept_node.
  destruct (item_got tid it) as [n| |p] eqn:E; cbn [load_got]; [|done|].
  - destruct (isISync n) eqn:Es; cbn [seq_lastMemAcc seq_events].
    + assert (isMemAcc n = false) as -> by (by destruct n). done.
    + rewrite fmap_app. destruct (isMemAcc n) eqn:Em; cbn [fmap list_fmap snd].
      * replace (length (seq_events seq)) with (length (seq_events seq).*2 + 0)%nat by (rewrite length_fmap; lia).
        rewrite alter_app_r, <- app_assoc. destruct (seq_lastMemAcc seq); [rewrite (list_alter_id (fun n0 => n0)) by done|]; reflexivity.
      * destruct (seq_lastMemAcc seq) as [i|] eqn:El; [|by rewrite <- app_assoc]. pose proof (Hok i El) as Hi.
        rewrite alter_app_l by (by rewrite length_fmap). by rewrite <- app_assoc.
  - cbn [seq_lastMemAcc seq_events]. destruct (seq_lastMemAcc seq); [by rewrite deref_nodes|done].
Qed.

Lemma load_file tid eLimit h items : Forall item_wf items ->
  load tid eLimit (encode h ++ concat (item_bytes <$> items)) =
  Some (load_items tid (loaded_items tid eLimit items) (mkTLEventSeq (Some (header_node h)) [] [] 0 0 None)).
Proof.
  intros Hwf. rewrite load_header, load_from_items; [cbn; by rewrite Z.sub_0_r|done|].
  pose proof (concat_items_length items) as Hl. destruct (concat (item_bytes <$> items)); cbn in *; lia.
Qed.

Lemma load_items_parts tid h items :
  let seq := load_items tid items (mkTLEventSeq (Some h) [] [] 0 0 None) in
  seq.(seq_header) = Some h /\ seq.(seq_events).*2 = nodes_of tid items /\ seq.(seq_newTids) = omap started_tid items.
Proof. cbn zeta. rewrite load_items_header, load_items_newTids. rewrite load_items_nodes by (by intros i). done. Qed.

(** ** Theorems *)

(** C3: whole-file round trip.  For a trace file that is a header followed by
    entries the runtime writes when it records values ([item_wf]: an access has
    as many bytes behind it as its tag says), and whatever the limit on the
    number of events, the reader returns the header's fields and exactly the
    nodes of the entries up to the one that reaches the limit: those that are
    no synchronisation, in order, with the written field values, an access with
    the address of the dereference that follows it; and the ids of the threads
    that these entries create. *)
Theorem load_trace (tid eLimit : Z) (h : UFOHeader) (items : list item) :
  Forall item_wf items ->
  exists seq,
    load tid eLimit (encode h ++ concat (item_bytes <$> items)) = Some seq /\
    seq.(seq_header) = Some (header_node h) /\
    seq.(seq_events).*2 = nodes_of tid (loaded_items tid eLimit items) /\
    seq.(seq_newTids) = omap started_tid (loaded_items tid eLimit items).
Proof. intros Hwf. eexists. split; [by apply load_file|apply load_items_parts]. Qed.

Lemma load_trace_witness :
  exists seq,
    load 1 10 (encode (new_UFOHeader 1 7 0) ++
      concat (item_bytes <$> [ItCreate (new_CreateThreadEvent 1 2 3 4);
                              ItMem (new_MemAccEvent (mem_tag true 1) 4096 77) [5; 6]; ItPtrDeRef (new_PtrDeRefEvent 64)])) = Some seq /\
    seq.(seq_header) = Some (header_node (new_UFOHeader 1 7 0)) /\
    seq.(seq_events).*2 = [WriteNode 1 77 4096 2 1541 64] /\ seq.(seq_newTids) = [2].
Proof.
  destruct (load_trace 1 10 (new_UFOHeader 1 7 0)
    [ItCreate (new_CreateThreadEvent 1 2 3 4);
     ItMem (new_MemAccEvent (mem_tag true 1) 4096 77) [5; 6]; ItPtrDeRef (new_PtrDeRefEvent 64)]) as (seq & H1 & H2 & H3 & H4).
  - apply Forall_cons_2; [exact I|]. apply Forall_cons_2; [|apply Forall_cons_2; [exact I|apply Forall_nil_2]].
    split; [repeat apply Forall_cons_2; try apply Forall_nil_2; unfold byte_ok; lia|].
    exists true, 1. repeat split; try lia; reflexivity.
  - exists seq. split; [exact H1|]. split; [exact H2|]. split; [exact H3|exact H4].
Defined.

(** The reader is total.  For every byte sequence [load] returns a
    sequence, unless the first byte is not the header's tag, which is the
    exception [getHeader] throws. *)
Theorem load_total (tid eLimit : Z) (file : list Z) :
  Forall byte_ok file ->
  (load tid eLimit file = None <-> exists b rest, file = b :: rest /\ b <> type_val TLHeader).
Proof.
  intros Hok. unfold load. destruct file as [|b rest]; cbn [read].
  - split; [done|]. intros (b & r & [=] & _).
  - apply Forall_cons in Hok as [[Hb _] _].
    rewrite (proj2 (Z.eqb_neq b (-1))) by lia. unfold getHeader.
    destruct (Z.eqb_spec b 13) as [->|Hne]; cbn [negb].
    + split; [|intros (b' & r & [= <- <-] & Hb'); by destruct Hb'].
      repeat case_match; intros Hn; simplify_eq.
      all: match type of Hn with load_loop (S (length ?bs)) ?a ?b ?c ?d ?e = None =>
        destruct (load_loop_fuel (S (length bs)) a b c d e) as [? Hx]; [lia|congruence] end.
    + split; [intros _; by exists b, rest|done].
Qed.

Lemma load_total_witness :
  load 1 10 [4; 0; 0] = None /\ exists b rest, [4; 0; 0] = b :: rest /\ b <> type_val TLHeader.
Proof.
  split; [reflexivity|]. apply (load_total 1 10 [4; 0; 0]).
  - repeat apply Forall_cons_2; try apply Forall_nil_2; unfold byte_ok; lia.
  - reflexivity.
Defined.

(** A broadcast is read back as a signal.  [ThrCondBCEvent] is written with
    the tag of [ThrCondSignal], so the reader's node is a [NotifyNode], and no
    broadcast of a trace ever becomes a [NotifyAllNode]. *)
Theorem broadcast_read_as_signal (tid : Z) (e : ThrCondBCEvent) (rest : list Z) :
  decode1 tid (item_bytes (ItBC e) ++ rest) =
    (GNode (NotifyNode (u48 e.(cb_idx)) tid (u48 e.(cb_cond)) (u48 e.(cb_pc))), rest) /\
  (decode1 tid (item_bytes (ItBC e) ++ rest)).1 <> item_got tid (ItBC e).
Proof.
  cbn [item_bytes]. rewrite decode1_BC. split; [done|]. cbn. discriminate.
Qed.

(** A header written a second time in the middle of a trace is not
    skipped.  The reader consumes its tag only, so the next byte it takes as a
    tag is the first byte of the version field, inside the header. *)
Theorem header_desync (tid : Z) (h : UFOHeader) (rest : list Z) :
  decode1 tid (encode h ++ rest) = (GNull, drop 1 (encode h) ++ rest).
Proof.
  unfold decode1.
  erewrite (encode_tag h) by (reflexivity || (cbn; unfold byte_ok; lia)).
  reflexivity.
Qed.

(** A trace recorded with [UFO_NO_VALUE] is not readable.  The accesses of
    such a trace carry the same tags but no value bytes; the reader still
    takes [2^sz] bytes, and so swallows the first bytes of the entries that
    follow and takes them for the value. *)
Theorem no_value_desync (tid sz : Z) (is_write : bool) (addr pc : Z) (rest : list Z) :
  0 <= sz <= 3 -> Forall byte_ok rest -> 2 ^ sz <= zlen rest ->
  decode1 tid (encode (new_MemAccEvent (mem_tag is_write sz) addr pc) ++ rest) =
  (GNode ((if is_write then WriteNode else ReadNode) tid (u48 pc) (u48 addr) (2 ^ sz)
            (swrap (8 * 2 ^ sz) (le_val (ztake (2 ^ sz) rest))) 0),
   zdrop (2 ^ sz) rest).
Proof.
  intros Hsz Hok Hlen. set (e := new_MemAccEvent _ _ _).
  assert (Hv : zlen (ztake (2 ^ sz) rest) = 2 ^ sz).
  { unfold zlen, ztake in *. rewrite length_take. lia. }
  assert (Hty : e.(ma_type_index) = mem_tag is_write sz).
  { apply wrap_small. apply mem_tag_byte. }
  pose proof (decode1_mem tid e (ztake (2 ^ sz) rest) (zdrop (2 ^ sz) rest)) as Hd.
  unfold item_bytes in Hd. rewrite <- app_assoc in Hd.
  unfold ztake, zdrop in *. rewrite take_drop in Hd. rewrite Hd.
  - unfold item_got. rewrite Hty, mem_tag_write, Hv by lia. cbn. unfold u48.
    by rewrite !wrap_wrap by lia.
  - split; [by apply Forall_take|]. by exists is_write, sz.
Qed.

Lemma no_value_desync_witness :
  decode1 1 (encode (new_MemAccEvent (mem_tag false 0) 4096 7) ++ encode mkFuncExitEvent ++ [4]) =
  (GNode (ReadNode 1 7 4096 1 16 0), [4]).
Proof.
  rewrite (no_value_desync 1 0 false 4096 7 (encode mkFuncExitEvent ++ [4]));
    [vm_compute; reflexivity|lia| |vm_compute; discriminate].
  repeat apply Forall_cons_2; try apply Forall_nil_2; split; vm_compute; (discriminate || reflexivity).
Defined.
