(* ===== verification/Memory.v ===== *)
(** * The memory of the runtime

    Blocks of byte cells with block-relative pointers.  A cell holds a byte
    or is not initialised ([None]); loads and stores outside a block, through
    a pointer whose block does not exist, or of an uninitialised cell are
    errors, so a theorem that an operation returns [Ok] is also a memory
    safety theorem.  [InternalAlloc] hands out fresh, uninitialised blocks. *)
From stdpp Require Import base numbers list gmap.
From Stdlib Require Import ZArith Lia.
From S2P Require Import Prelude.

Local Open Scope Z_scope.

Abbreviation cell := (option Z).

Record ptr := Ptr { blk : Z; ofs : Z }.

#[export] Instance ptr_eq_dec : EqDecision ptr.
Proof. solve_decision. Defined.

Definition padd (p : ptr) (n : Z) : ptr := Ptr p.(blk) (p.(ofs) + n).

Record mem := Mem { m_next : Z; m_blocks : gmap Z (list cell) }.

Definition block_of (m : mem) (p : ptr) : res (list cell) :=
  res_of_option ENull (m.(m_blocks) !! p.(blk)).

Definition cell_at (b : list cell) (i : Z) : res cell :=
  if i <? 0 then Err EOutOfBounds else res_of_option EOutOfBounds (b !! Z.to_nat i).

Definition load_cell (m : mem) (p : ptr) : res cell :=
  b ← block_of m p; cell_at b p.(ofs).

Definition load (m : mem) (p : ptr) : res Z :=
  c ← load_cell m p; res_of_option EUndef c.

(** Replaces the contents of a block. *)
Definition upd (m : mem) (b : Z) (l : list cell) : mem :=
  Mem m.(m_next) (<[b := l]> m.(m_blocks)).

Definition store_cell (m : mem) (p : ptr) (c : cell) : res mem :=
  b ← block_of m p;
  if (0 <=? p.(ofs)) && (p.(ofs) <? zlen b)
  then Ok (upd m p.(blk) (<[Z.to_nat p.(ofs) := c]> b))
  else Err EOutOfBounds.

Definition store (m : mem) (p : ptr) (v : Z) : res mem := store_cell m p (Some (u8 v)).

Fixpoint load_bytes (m : mem) (p : ptr) (n : nat) : res (list Z) :=
  match n with
  | O => Ok []
  | S n' => v ← load m p; vs ← load_bytes m (padd p 1) n'; Ok (v :: vs)
  end.

Fixpoint store_bytes (m : mem) (p : ptr) (bs : list Z) : res mem :=
  match bs with
  | [] => Ok m
  | v :: bs' => m ← store m p v; store_bytes m (padd p 1) bs'
  end.

(** [InternalAlloc]: the allocation itself never fails (it aborts). *)
Definition alloc (m : mem) (n : Z) : ptr * mem :=
  (Ptr m.(m_next) 0,
   Mem (m.(m_next) + 1) (<[m.(m_next) := replicate (Z.to_nat n) None]> m.(m_blocks))).

(** [InternalFree] *)
Definition free (m : mem) (p : ptr) : res mem :=
  b ← block_of m p; Ok (Mem m.(m_next) (delete p.(blk) m.(m_blocks))).

(** The cells from a pointer to the end of its block: what a loop that walks
    a [const char *] forward sees. *)
Definition cells (m : mem) (p : ptr) : list cell :=
  match m.(m_blocks) !! p.(blk) with
  | Some b => if p.(ofs) <? 0 then [] else zdrop p.(ofs) b
  | None => []
  end.

(** Every block ever allocated has an id below [m_next]. *)
Definition mem_wf (m : mem) : Prop :=
  forall b l, m.(m_blocks) !! b = Some l -> b < m.(m_next).

Definition mem_empty : mem := Mem 0 ∅.

(** ** Replacing a slice of a list *)

Definition splice {A} (l : list A) (o : Z) (x : list A) : list A :=
  ztake o l ++ x ++ zdrop (o + zlen x) l.

Definition slice {A} (l : list A) (o n : Z) : list A := ztake n (zdrop o l).

Lemma zlen_splice {A} (l x : list A) o :
  0 <= o -> o + zlen x <= zlen l -> zlen (splice l o x) = zlen l.
Proof.
  intros. unfold splice. rewrite !zlen_app, zlen_ztake, zlen_zdrop; pose proof (zlen_nonneg x); lia.
Qed.

Lemma splice_nil {A} (l : list A) o : 0 <= o -> splice l o [] = l.
Proof.
  intros. unfold splice, ztake, zdrop. cbn [app]. unfold zlen. cbn. rewrite Z.add_0_r. apply take_drop.
Qed.

Lemma splice_lookup {A} (l x : list A) o (i : nat) :
  0 <= o -> o + zlen x <= zlen l ->
  splice l o x !! i =
  if (Z.of_nat i <? o) then l !! i
  else if (Z.of_nat i <? o + zlen x) then x !! (i - Z.to_nat o)%nat
  else l !! i.
Proof.
  intros Ho Hl. unfold splice, ztake, zdrop, zlen in *.
  destruct (Z.ltb_spec (Z.of_nat i) o).
  - rewrite lookup_app_l by (rewrite length_take; lia). apply lookup_take_lt. lia.
  - rewrite lookup_app_r by (rewrite length_take; lia).
    rewrite length_take, Nat.min_l by lia.
    destruct (Z.ltb_spec (Z.of_nat i) (o + Z.of_nat (length x))).
    + rewrite lookup_app_l by lia. done.
    + rewrite lookup_app_r by lia. rewrite lookup_drop. f_equal. lia.
Qed.

Lemma splice_app {A} (l x y : list A) o :
  0 <= o -> o + zlen x + zlen y <= zlen l ->
  splice (splice l o x) (o + zlen x) y = splice l o (x ++ y).
Proof.
  intros Ho Hl. pose proof (zlen_nonneg x). pose proof (zlen_nonneg y).
  apply list_eq. intros i.
  rewrite !splice_lookup by (rewrite ?zlen_splice, ?zlen_app; lia).
  rewrite zlen_app. unfold zlen in *.
  repeat match goal with |- context [?a <? ?b] => destruct (Z.ltb_spec a b) end; try lia; try done.
  - by rewrite lookup_app_l by lia.
  - rewrite lookup_app_r by lia. f_equal. lia.
Qed.

Lemma splice_cons {A} (l x : list A) a o :
  0 <= o -> o + 1 + zlen x <= zlen l ->
  splice (<[Z.to_nat o := a]> l) (o + 1) x = splice l o (a :: x).
Proof.
  intros Ho Hl. pose proof (zlen_nonneg x).
  change (a :: x) with ([a] ++ x). rewrite <- splice_app by (unfold zlen in *; cbn; lia).
  f_equal. apply list_eq. intros i. rewrite splice_lookup by (unfold zlen in *; cbn; lia).
  change (zlen [a]) with 1. unfold zlen in *.
  repeat match goal with |- context [?a <? ?b] => destruct (Z.ltb_spec a b) end.
  - rewrite list_lookup_insert_ne by lia. done.
  - replace i with (Z.to_nat o) by lia. rewrite list_lookup_insert_eq by lia.
    by rewrite Nat.sub_diag.
  - rewrite list_lookup_insert_ne by lia. done.
Qed.

Lemma ztake_splice {A} (l x : list A) o :
  0 <= o -> o + zlen x <= zlen l -> ztake (o + zlen x) (splice l o x) = ztake o l ++ x.
Proof.
  intros Ho Hl. unfold splice. rewrite app_assoc.
  assert (zlen (ztake o l ++ x) = o + zlen x) as E.
  { rewrite zlen_app, zlen_ztake; pose proof (zlen_nonneg x); lia. }
  rewrite <- E. rewrite ztake_app_le; [apply ztake_zlen|].
  pose proof (zlen_nonneg (ztake o l ++ x)). lia.
Qed.

Lemma slice_cons {A} (l : list A) o n a :
  0 <= o -> 0 <= n -> l !! Z.to_nat o = Some a -> slice l o (n + 1) = a :: slice l (o + 1) n.
Proof.
  intros Ho Hn Hl. unfold slice, ztake, zdrop.
  replace (Z.to_nat (o + 1)) with (S (Z.to_nat o)) by lia.
  replace (Z.to_nat (n + 1)) with (S (Z.to_nat n)) by lia.
  by rewrite (drop_S _ _ _ Hl).
Qed.

Lemma slice_lookup {A} (l : list A) o n (i : nat) :
  0 <= o -> Z.of_nat i < n -> slice l o n !! i = l !! (Z.to_nat o + i)%nat.
Proof.
  intros. unfold slice, ztake, zdrop. rewrite lookup_take_lt by lia. by rewrite lookup_drop.
Qed.

Lemma slice_0 {A} (l : list A) o : slice l o 0 = [].
Proof. done. Qed.

Lemma zlen_slice {A} (l : list A) o n : 0 <= o -> 0 <= n -> o + n <= zlen l -> zlen (slice l o n) = n.
Proof. intros. unfold slice. rewrite zlen_ztake; [done|]. rewrite zlen_zdrop; lia. Qed.

Lemma slice_insert_out {A} (l : list A) o n i a :
  0 <= o -> i < o \/ o + n <= i -> 0 <= i -> slice (<[Z.to_nat i := a]> l) o n = slice l o n.
Proof.
  intros Ho Hi Hi0. apply list_eq. intros j.
  destruct (decide (Z.of_nat j < n)) as [Hj|Hj].
  - rewrite !slice_lookup by lia. rewrite list_lookup_insert_ne by lia. done.
  - rewrite !lookup_ge_None_2; [done| |]; unfold slice, ztake; rewrite length_take; lia.
Qed.

Lemma slice_snoc {A} (l : list A) o n a :
  0 <= o -> 0 <= n -> l !! Z.to_nat (o + n) = Some a -> slice l o (n + 1) = slice l o n ++ [a].
Proof.
  intros Ho Hn Ha. unfold slice, ztake, zdrop.
  replace (Z.to_nat (n + 1)) with (S (Z.to_nat n)) by lia.
  apply take_S_r. rewrite lookup_drop. rewrite <- Ha. f_equal. lia.
Qed.

Lemma splice_snoc {A} (l x : list A) o a :
  0 <= o -> o + zlen x < zlen l ->
  splice (<[Z.to_nat (o + zlen x) := a]> l) o x = splice l o (x ++ [a]).
Proof.
  intros Ho Hl. pose proof (zlen_nonneg x). apply list_eq. intros i.
  assert (zlen [a] = 1) by done.
  rewrite !splice_lookup by (rewrite ?zlen_app; unfold zlen in *; rewrite ?length_insert; lia).
  rewrite zlen_app. unfold zlen in *.
  repeat match goal with |- context [?a <? ?b] => destruct (Z.ltb_spec a b) end; try lia.
  - rewrite list_lookup_insert_ne by lia. done.
  - rewrite lookup_app_l by lia. done.
  - replace i with (Z.to_nat (o + Z.of_nat (length x))) by lia.
    rewrite list_lookup_insert_eq by lia. rewrite lookup_app_r by lia.
    replace (Z.to_nat (o + Z.of_nat (length x)) - Z.to_nat o - length x)%nat with 0%nat by lia. done.
  - rewrite list_lookup_insert_ne by lia. done.
Qed.

Lemma splice_slice_same {A} (l : list A) o n :
  0 <= o -> 0 <= n -> o + n <= zlen l -> splice l o (slice l o n) = l.
Proof.
  intros Ho Hn Hl. unfold splice. rewrite zlen_slice by lia. unfold slice.
  assert (zdrop (o + n) l = zdrop n (zdrop o l)) as ->.
  { unfold zdrop. rewrite drop_drop. f_equal. lia. }
  by rewrite !ztake_zdrop.
Qed.

Lemma slice_head {A} (l : list A) o : 0 <= o < zlen l -> exists a, l !! Z.to_nat o = Some a.
Proof. intros. apply lookup_lt_is_Some_2. unfold zlen in *. lia. Qed.

Lemma slice_split {A} (l : list A) o n k :
  0 <= o -> 0 <= k <= n -> slice l o n = slice l o k ++ slice l (o + k) (n - k).
Proof.
  intros Ho Hk. unfold slice, ztake, zdrop.
  replace (drop (Z.to_nat (o + k)) l) with (drop (Z.to_nat k) (drop (Z.to_nat o) l))
    by (rewrite drop_drop; f_equal; lia).
  rewrite <- (take_drop (Z.to_nat k) (take (Z.to_nat n) (drop (Z.to_nat o) l))).
  rewrite take_take, Nat.min_l, skipn_firstn_comm by lia. do 2 f_equal. lia.
Qed.

Lemma zdrop_split {A} (l : list A) o k : 0 <= o -> 0 <= k -> zdrop o l = slice l o k ++ zdrop (o + k) l.
Proof.
  intros Ho Hk. unfold slice. replace (zdrop (o + k) l) with (zdrop k (zdrop o l))
    by (unfold zdrop; rewrite drop_drop; f_equal; lia).
  by rewrite ztake_zdrop.
Qed.

Lemma ztake_all {A} k (t : list A) : zlen t <= k -> ztake k t = t.
Proof. intros. unfold ztake, zlen in *. apply take_ge. lia. Qed.

(** ** Blocks *)

Lemma upd_upd m b l l' : upd (upd m b l) b l' = upd m b l'.
Proof. unfold upd. cbn. by rewrite insert_insert_eq. Qed.

Lemma upd_lookup m b l : (upd m b l).(m_blocks) !! b = Some l.
Proof. cbn. apply lookup_insert_eq. Qed.

Lemma upd_lookup_ne m b b' l : b <> b' -> (upd m b l).(m_blocks) !! b' = m.(m_blocks) !! b'.
Proof. intros. cbn. by apply lookup_insert_ne. Qed.

Lemma upd_id m b l : m.(m_blocks) !! b = Some l -> upd m b l = m.
Proof. intros H. unfold upd. rewrite insert_id by done. by destruct m. Qed.

Lemma alloc_wf m n : mem_wf m -> mem_wf (alloc m n).2.
Proof.
  intros H b l. cbn. destruct (decide (b = m_next m)) as [->|Hne].
  - intros. lia.
  - rewrite lookup_insert_ne by done. intros Hl. specialize (H _ _ Hl). lia.
Qed.

Lemma mem_wf_fresh m : mem_wf m -> m.(m_blocks) !! m.(m_next) = None.
Proof.
  intros H. destruct (m_blocks m !! m_next m) eqn:E; [|done]. apply H in E. lia.
Qed.

Lemma upd_wf m b l l' : mem_wf m -> m.(m_blocks) !! b = Some l -> mem_wf (upd m b l').
Proof.
  intros H Hb b' k. destruct (decide (b = b')) as [->|Hne].
  - rewrite upd_lookup. intros _. cbn. eauto.
  - rewrite upd_lookup_ne by done. cbn. eauto.
Qed.

Lemma free_wf m p m' : mem_wf m -> free m p = Ok m' -> mem_wf m'.
Proof.
  unfold free. intros H Hf. inv_ok. subst m'. intros b l. cbn.
  intros [_ Hl]%lookup_delete_Some. eauto.
Qed.

Lemma block_of_ok m p l : m.(m_blocks) !! p.(blk) = Some l -> block_of m p = Ok l.
Proof. unfold block_of. by intros ->. Qed.

(** ** Loads and stores of several bytes *)

Lemma cell_at_ok b i c : 0 <= i -> b !! Z.to_nat i = Some c -> cell_at b i = Ok c.
Proof. intros Hi Hb. unfold cell_at. rewrite (proj2 (Z.ltb_ge _ _)) by lia. by rewrite Hb. Qed.

Lemma load_ok m p l v :
  m.(m_blocks) !! p.(blk) = Some l -> 0 <= p.(ofs) -> l !! Z.to_nat p.(ofs) = Some (Some v) ->
  load m p = Ok v.
Proof.
  intros Hb Ho Hv. unfold load, load_cell.
  by rewrite (block_of_ok _ _ _ Hb), bind_ok, (cell_at_ok _ _ _ Ho Hv), bind_ok.
Qed.

Lemma store_ok m b o l v :
  m.(m_blocks) !! b = Some l -> 0 <= o < zlen l -> byte_ok v ->
  store m (Ptr b o) v = Ok (upd m b (<[Z.to_nat o := Some v]> l)).
Proof.
  intros Hb Ho Hv. unfold store, store_cell.
  rewrite (block_of_ok _ (Ptr b o) _ Hb), bind_ok. cbn [ofs blk].
  rewrite (proj2 (Z.leb_le _ _)), (proj2 (Z.ltb_lt _ _)) by lia. cbn.
  unfold u8. by rewrite wrap_small.
Qed.

Lemma store_bytes_ok m b o l bs :
  m.(m_blocks) !! b = Some l -> 0 <= o -> o + zlen bs <= zlen l -> Forall byte_ok bs ->
  store_bytes m (Ptr b o) bs = Ok (upd m b (splice l o (Some <$> bs))).
Proof.
  intros Hb Ho Hl Hok. revert m o l Hb Ho Hl.
  induction Hok as [|v bs Hv _ IH]; intros m o l Hb Ho Hl; cbn [store_bytes].
  - cbn [fmap list_fmap]. rewrite splice_nil by done. by rewrite upd_id.
  - unfold zlen in *. cbn [length] in *.
    rewrite (store_ok _ _ _ l) by (done || unfold zlen; lia). rewrite bind_ok. unfold padd. cbn [blk ofs].
    erewrite IH; [|apply upd_lookup|lia|rewrite length_insert; lia].
    rewrite upd_upd, splice_cons by (unfold zlen; rewrite ?length_fmap; lia). done.
Qed.

Lemma load_bytes_ok m b o l bs :
  m.(m_blocks) !! b = Some l -> 0 <= o -> slice l o (zlen bs) = Some <$> bs ->
  load_bytes m (Ptr b o) (length bs) = Ok bs.
Proof.
  intros Hb. revert o. induction bs as [|v bs IH]; intros o Ho Hs; [done|].
  assert (Hv : l !! Z.to_nat o = Some (Some v)).
  { unfold slice, ztake, zdrop in Hs. apply (f_equal (.!! 0%nat)) in Hs.
    rewrite lookup_take_lt, lookup_drop in Hs by (unfold zlen; cbn; lia).
    rewrite Nat.add_0_r in Hs. done. }
  cbn [load_bytes length]. rewrite (load_ok _ (Ptr b o) l v) by done. rewrite bind_ok.
  unfold padd. cbn [blk ofs]. rewrite IH; [done|lia|].
  replace (zlen (v :: bs)) with (zlen bs + 1) in Hs by (unfold zlen; cbn; lia).
  rewrite (slice_cons _ _ _ (Some v)) in Hs by (done || apply zlen_nonneg). by injection Hs.
Qed.

Lemma cells_block m b o l :
  m.(m_blocks) !! b = Some l -> 0 <= o -> cells m (Ptr b o) = zdrop o l.
Proof. intros Hb Ho. unfold cells. cbn. rewrite Hb. by rewrite (proj2 (Z.ltb_ge _ _)) by lia. Qed.
