(* ===== verification/LibC.v ===== *)
(** * The runtime's C library

    Models [src/ufo-rt/lib/sanitizer_common/sanitizer_libc.cc] and the
    character tests of [sanitizer_common.h]: the string and memory functions
    the tracing runtime is built on, over the memory of [Memory].  A loop that
    walks a pointer forward recurses on the cells from that pointer to the end
    of its block, and reading past the end is an error.  [char] is signed, as
    on the targets of the runtime: [schar] is its promotion to [int].

    Shown: every function is memory safe on well-formed arguments and does
    what its C namesake does, overlapping moves included; [strlcpy] and
    [strlcat] keep their destination terminated and report truncation;
    [internal_simple_strtoll] saturates at the bounds of [s64]. *)
From Stdlib Require Import Ascii String ZArith Lia.
From stdpp Require Import base numbers list gmap strings.
From S2P Require Import Prelude Bits Memory.

Local Open Scope Z_scope.

(** ** Characters *)

Definition chr (a : ascii) : Z := Z.of_N (N_of_ascii a).

Fixpoint str (s : string) : list Z :=
  match s with
  | EmptyString => []
  | String a s' => chr a :: str s'
  end.

Definition schar (b : Z) : Z := swrap 8 b.

Definition IsSpace (c : Z) : bool :=
  (c =? 32) || (c =? 10) || (c =? 9) || (c =? 12) || (c =? 13) || (c =? 11).

Definition IsDigit (c : Z) : bool := (48 <=? c) && (c <=? 57).

Definition ToLower (c : Z) : Z := if (65 <=? c) && (c <=? 90) then c + 97 - 65 else c.

(** The cells [s] start with the C string [t] (no NUL inside) and its NUL. *)
Definition is_cstr (t : list Z) (s : list cell) : Prop :=
  Forall (fun c => byte_ok c /\ c <> 0) t /\ exists rest, s = (Some <$> t) ++ Some 0 :: rest.

(** ** Reading functions

    Results that are pointers into the argument are offsets from it. *)

Fixpoint memchr_loop (s : list cell) (c : Z) (n : nat) (i : Z) {struct n} : res (option Z) :=
  match n with
  | O => Ok None
  | S n' =>
      match s with
      | [] => Err EOutOfBounds
      | None :: _ => Err EUndef
      | Some t :: s' => if schar t =? c then Ok (Some i) else memchr_loop s' c n' (i + 1)
      end
  end.

Definition internal_memchr (m : mem) (s : ptr) (c n : Z) : res (option Z) :=
  memchr_loop (cells m s) c (Z.to_nat n) 0.

Fixpoint memrchr_loop (s : list cell) (c : Z) (n : nat) (i : Z) (r : option Z) {struct n} : res (option Z) :=
  match n with
  | O => Ok r
  | S n' =>
      match s with
      | [] => Err EOutOfBounds
      | None :: _ => Err EUndef
      | Some t :: s' => memrchr_loop s' c n' (i + 1) (if schar t =? c then Some i else r)
      end
  end.

Definition internal_memrchr (m : mem) (s : ptr) (c n : Z) : res (option Z) :=
  memrchr_loop (cells m s) c (Z.to_nat n) 0 None.

Fixpoint memcmp_loop (s1 s2 : list cell) (n : nat) {struct n} : res Z :=
  match n with
  | O => Ok 0
  | S n' =>
      match s1, s2 with
      | Some t1 :: s1', Some t2 :: s2' =>
          if negb (schar t1 =? schar t2) then Ok (if schar t1 <? schar t2 then -1 else 1)
          else memcmp_loop s1' s2' n'
      | None :: _, _ :: _ | _ :: _, None :: _ => Err EUndef
      | _, _ => Err EOutOfBounds
      end
  end.

Definition internal_memcmp (m : mem) (s1 s2 : ptr) (n : Z) : res Z :=
  memcmp_loop (cells m s1) (cells m s2) (Z.to_nat n).

Fixpoint strlen_loop (s : list cell) (i : Z) : res Z :=
  match s with
  | [] => Err EOutOfBounds
  | None :: _ => Err EUndef
  | Some c :: s' => if c =? 0 then Ok i else strlen_loop s' (i + 1)
  end.

Definition internal_strlen (m : mem) (s : ptr) : res Z := strlen_loop (cells m s) 0.

Fixpoint strnlen_loop (s : list cell) (maxlen : nat) (i : Z) {struct maxlen} : res Z :=
  match maxlen with
  | O => Ok i
  | S n' =>
      match s with
      | [] => Err EOutOfBounds
      | None :: _ => Err EUndef
      | Some c :: s' => if c =? 0 then Ok i else strnlen_loop s' n' (i + 1)
      end
  end.

Definition internal_strnlen (m : mem) (s : ptr) (maxlen : Z) : res Z :=
  strnlen_loop (cells m s) (Z.to_nat maxlen) 0.

Fixpoint strchr_loop (s : list cell) (c : Z) (i : Z) : res (option Z) :=
  match s with
  | [] => Err EOutOfBounds
  | None :: _ => Err EUndef
  | Some t :: s' =>
      if schar t =? schar c then Ok (Some i)
      else if t =? 0 then Ok None
      else strchr_loop s' c (i + 1)
  end.

Definition internal_strchr (m : mem) (s : ptr) (c : Z) : res (option Z) :=
  strchr_loop (cells m s) c 0.

Definition internal_strchrnul (m : mem) (s : ptr) (c : Z) : res Z :=
  r ← internal_strchr m s c;
  match r with
  | Some i => Ok i
  | None => internal_strlen m s
  end.

Fixpoint strrchr_loop (s : list cell) (c : Z) (i : Z) (r : option Z) : res (option Z) :=
  match s with
  | [] => Err EOutOfBounds
  | None :: _ => Err EUndef
  | Some t :: s' =>
      if t =? 0 then Ok r
      else strrchr_loop s' c (i + 1) (if schar t =? c then Some i else r)
  end.

Definition internal_strrchr (m : mem) (s : ptr) (c : Z) : res (option Z) :=
  strrchr_loop (cells m s) c 0 None.

Fixpoint strcspn_loop (m : mem) (s : list cell) (reject : ptr) (i : Z) : res Z :=
  match s with
  | [] => Err EOutOfBounds
  | None :: _ => Err EUndef
  | Some t :: s' =>
      if t =? 0 then Ok i
      else r ← internal_strchr m reject (schar t);
           match r with
           | Some _ => Ok i
           | None => strcspn_loop m s' reject (i + 1)
           end
  end.

Definition internal_strcspn (m : mem) (s reject : ptr) : res Z :=
  strcspn_loop m (cells m s) reject 0.

(** [unsigned c1 = *s1]: the signed [char] converted to 32 bits. *)
Fixpoint strcmp_loop (s1 s2 : list cell) : res Z :=
  match s1, s2 with
  | Some t1 :: s1', Some t2 :: s2' =>
      let c1 := u32 (schar t1) in
      let c2 := u32 (schar t2) in
      if negb (c1 =? c2) then Ok (if c1 <? c2 then -1 else 1)
      else if c1 =? 0 then Ok 0
      else strcmp_loop s1' s2'
  | None :: _, _ :: _ | _ :: _, None :: _ => Err EUndef
  | _, _ => Err EOutOfBounds
  end.

Definition internal_strcmp (m : mem) (s1 s2 : ptr) : res Z :=
  strcmp_loop (cells m s1) (cells m s2).

Fixpoint strncmp_loop (s1 s2 : list cell) (n : nat) {struct n} : res Z :=
  match n with
  | O => Ok 0
  | S n' =>
      match s1, s2 with
      | Some t1 :: s1', Some t2 :: s2' =>
          let c1 := u32 (schar t1) in
          let c2 := u32 (schar t2) in
          if negb (c1 =? c2) then Ok (if c1 <? c2 then -1 else 1)
          else if c1 =? 0 then Ok 0
          else strncmp_loop s1' s2' n'
      | None :: _, _ :: _ | _ :: _, None :: _ => Err EUndef
      | _, _ => Err EOutOfBounds
      end
  end.

Definition internal_strncmp (m : mem) (s1 s2 : ptr) (n : Z) : res Z :=
  strncmp_loop (cells m s1) (cells m s2) (Z.to_nat n).

(** The [for] loop of [internal_strstr] over the [k] positions from [pos] on. *)
Fixpoint strstr_loop (m : mem) (haystack needle : ptr) (len2 pos : Z) (k : nat) : res (option Z) :=
  match k with
  | O => Ok None
  | S k' =>
      r ← internal_memcmp m (padd haystack pos) needle len2;
      if r =? 0 then Ok (Some pos)
      else strstr_loop m haystack needle len2 (pos + 1) k'
  end.

Definition internal_strstr (m : mem) (haystack needle : ptr) : res (option Z) :=
  len1 ← internal_strlen m haystack;
  len2 ← internal_strlen m needle;
  if len1 <? len2 then Ok None
  else strstr_loop m haystack needle len2 0 (Z.to_nat (len1 - len2 + 1)).

(** ** Writing functions *)

(** [d[i] = s[i]] for the [n] indices from [i] up. *)
Fixpoint copy_up (m : mem) (d s : ptr) (i : Z) (n : nat) : res mem :=
  match n with
  | O => Ok m
  | S n' =>
      c ← load_cell m (padd s i);
      m ← store_cell m (padd d i) c;
      copy_up m d s (i + 1) n'
  end.

(** [d[i] = s[i]] for [i] from [n - 1] down to [0]. *)
Fixpoint copy_down (m : mem) (d s : ptr) (n : nat) : res mem :=
  match n with
  | O => Ok m
  | S n' =>
      c ← load_cell m (padd s (Z.of_nat n'));
      m ← store_cell m (padd d (Z.of_nat n')) c;
      copy_down m d s n'
  end.

Definition internal_memcpy (m : mem) (dest src : ptr) (n : Z) : res mem :=
  copy_up m dest src 0 (Z.to_nat n).

(** [d < s] as addresses; between different blocks their order is that of
    the block ids, and the result does not depend on it. *)
Definition ptr_lt (d s : ptr) : bool :=
  if d.(blk) =? s.(blk) then d.(ofs) <? s.(ofs) else d.(blk) <? s.(blk).

Definition internal_memmove (m : mem) (dest src : ptr) (n : Z) : res mem :=
  let signed_n := s64 n in
  if negb (0 <=? signed_n) then Err EDie
  else if ptr_lt dest src then copy_up m dest src 0 (Z.to_nat signed_n)
  else if ptr_lt src dest && (0 <? signed_n) then copy_down m dest src (Z.to_nat signed_n)
  else Ok m.

Fixpoint internal_memset_loop (m : mem) (t : ptr) (c : Z) (n : nat) : res mem :=
  match n with
  | O => Ok m
  | S n' => m ← store m t c; internal_memset_loop m (padd t 1) c n'
  end.

Definition internal_memset (m : mem) (s : ptr) (c n : Z) : res mem :=
  internal_memset_loop m s c (Z.to_nat n).

Definition internal_strdup (m : mem) (s : ptr) : res (ptr * mem) :=
  len ← internal_strlen m s;
  let '(s2, m) := alloc m (len + 1) in
  m ← internal_memcpy m s2 s len;
  m ← store m (padd s2 len) 0;
  Ok (s2, m).

Definition internal_strlcat (m : mem) (dst src : ptr) (maxlen : Z) : res (Z * mem) :=
  srclen ← internal_strlen m src;
  dstlen ← internal_strnlen m dst maxlen;
  if dstlen =? maxlen then Ok (u64 (maxlen + srclen), m)
  else
    m ← (if srclen <? maxlen - dstlen
         then internal_memmove m (padd dst dstlen) src (srclen + 1)
         else m ← internal_memmove m (padd dst dstlen) src (maxlen - dstlen - 1);
              store m (padd dst (maxlen - 1)) 0);
    Ok (u64 (dstlen + srclen), m).

Definition internal_strlcpy (m : mem) (dst src : ptr) (maxlen : Z) : res (Z * mem) :=
  srclen ← internal_strlen m src;
  m ← (if srclen <? maxlen then internal_memmove m dst src (srclen + 1)
       else if negb (maxlen =? 0) then
         m ← internal_memmove m dst src (maxlen - 1);
         store m (padd dst (maxlen - 1)) 0
       else Ok m);
  Ok (srclen, m).

(** [for (i = 0; i < n && src[i]; i++) dst[i] = src[i];] returning [i]. *)
Fixpoint strncpy_loop (m : mem) (dst src : ptr) (i : Z) (n : nat) : res (Z * mem) :=
  match n with
  | O => Ok (i, m)
  | S n' =>
      c ← load m (padd src i);
      if c =? 0 then Ok (i, m)
      else m ← store m (padd dst i) c; strncpy_loop m dst src (i + 1) n'
  end.

Definition internal_strncat (m : mem) (dst src : ptr) (n : Z) : res mem :=
  len ← internal_strlen m dst;
  '(i, m) ← strncpy_loop m (padd dst len) src 0 (Z.to_nat n);
  store m (padd dst (len + i)) 0.

Definition internal_strncpy (m : mem) (dst src : ptr) (n : Z) : res mem :=
  '(i, m) ← strncpy_loop m dst src 0 (Z.to_nat n);
  internal_memset m (padd dst i) 0 (n - i).

(** ** Numbers *)

Definition UINT64_MAX : Z := 2 ^ 64 - 1.
Definition INT64_MAX : Z := 2 ^ 63 - 1.
Definition INT64_MIN : Z := - 2 ^ 63.

Fixpoint skip_space (s : list cell) (i : Z) : res (list cell * Z) :=
  match s with
  | [] => Err EOutOfBounds
  | None :: _ => Err EUndef
  | Some c :: s' => if IsSpace (schar c) then skip_space s' (i + 1) else Ok (s, i)
  end.

(** one digit: [res * 10 + digit], saturating *)
Definition strtoll_digit (r c : Z) : Z :=
  let r := if r <=? UINT64_MAX / 10 then r * 10 else UINT64_MAX in
  let digit := schar c - 48 in
  if r <=? UINT64_MAX - digit then r + digit else UINT64_MAX.

Fixpoint strtoll_digits (s : list cell) (r : Z) (have_digits : bool) (i : Z) : res (Z * bool * Z) :=
  match s with
  | [] => Err EOutOfBounds
  | None :: _ => Err EUndef
  | Some c :: s' =>
      if IsDigit (schar c) then strtoll_digits s' (strtoll_digit r c) true (i + 1)
      else Ok (r, have_digits, i)
  end.

(** The value and the offset [*endptr] gets. *)
Definition internal_simple_strtoll (m : mem) (nptr : ptr) (base : Z) : res (Z * Z) :=
  if negb (base =? 10) then Err EDie
  else
    '(s, old) ← skip_space (cells m nptr) 0;
    match s with
    | [] => Err EOutOfBounds
    | None :: _ => Err EUndef
    | Some c :: s' =>
        let '(sgn, s, i) :=
          if c =? 43 then (1, s', old + 1)
          else if c =? 45 then (-1, s', old + 1)
          else (1, s, old) in
        '(r, have_digits, i) ← strtoll_digits s 0 false i;
        let endp := if (have_digits : bool) then i else old in
        Ok (if 0 <? sgn then s64 (Z.min INT64_MAX r)
            else if INT64_MAX <? r then INT64_MIN else s64 r * -1, endp)
    end.

Definition internal_atoll (m : mem) (nptr : ptr) : res Z :=
  '(v, _) ← internal_simple_strtoll m nptr 10; Ok v.

(** [all |= *mem] for the bytes of a range, sign extended to [uptr] *)
Fixpoint or_bytes (m : mem) (p : ptr) (n : nat) (all : Z) : res Z :=
  match n with
  | O => Ok all
  | S n' => v ← load m p; or_bytes m (padd p 1) n' (Z.lor all (u64 (schar v)))
  end.

(** [all |= *aligned_beg] for [n] words *)
Fixpoint or_words (m : mem) (p : ptr) (n : nat) (all : Z) : res Z :=
  match n with
  | O => Ok all
  | S n' => vs ← load_bytes m p 8; or_words m (padd p 8) n' (Z.lor all (le_val vs))
  end.

(** Blocks are 8-byte aligned, so alignment is that of the offset. *)
Definition mem_is_zero (m : mem) (beg : ptr) (size : Z) : res bool :=
  if negb (size <=? 2 ^ 40) then Err EDie
  else
    let b := beg.(ofs) in
    let e := b + size in
    aligned_beg ← RoundUpTo b 8;
    let aligned_end := RoundDownTo e 8 in
    all ← or_bytes m beg (Z.to_nat (Z.min aligned_beg e - b)) 0;
    all ← or_words m (Ptr beg.(blk) aligned_beg) (Z.to_nat ((aligned_end - aligned_beg) / 8)) all;
    all ← (if b <=? aligned_end
           then or_bytes m (Ptr beg.(blk) aligned_end) (Z.to_nat (e - aligned_end)) all
           else Ok all);
    Ok (all =? 0).

(** ** Copies *)

(** One iteration of a copying loop. *)
Lemma copy_step m d s ld ls c :
  m.(m_blocks) !! d.(blk) = Some ld -> m.(m_blocks) !! s.(blk) = Some ls ->
  0 <= d.(ofs) < zlen ld -> 0 <= s.(ofs) -> ls !! Z.to_nat s.(ofs) = Some c ->
  (c' ← load_cell m s; store_cell m d c') = Ok (upd m d.(blk) (<[Z.to_nat d.(ofs) := c]> ld)).
Proof.
  intros Hd Hs Hdo Hso Hc. unfold load_cell, store_cell.
  rewrite (block_of_ok _ _ _ Hs), bind_ok, (cell_at_ok _ _ _ Hso Hc), bind_ok.
  rewrite (block_of_ok _ _ _ Hd), bind_ok.
  by rewrite (proj2 (Z.leb_le _ _)), (proj2 (Z.ltb_lt _ _)) by lia.
Qed.

(** The source block after a cell of the destination block was overwritten. *)
Lemma src_after m bd bs ld ls i c :
  m.(m_blocks) !! bd = Some ld -> m.(m_blocks) !! bs = Some ls ->
  (upd m bd (<[i := c]> ld)).(m_blocks) !! bs =
  Some (if decide (bd = bs) then <[i := c]> ls else ls).
Proof.
  intros Hd Hs. case_decide as E.
  - subst. rewrite Hd in Hs. injection Hs as ->. apply upd_lookup.
  - by rewrite upd_lookup_ne.
Qed.

Lemma copy_up_ok (n : nat) m bd od bs os ld ls i :
  m.(m_blocks) !! bd = Some ld -> m.(m_blocks) !! bs = Some ls ->
  0 <= od + i -> 0 <= os + i -> od + i + Z.of_nat n <= zlen ld -> os + i + Z.of_nat n <= zlen ls ->
  (bd = bs -> od <= os) ->
  copy_up m (Ptr bd od) (Ptr bs os) i n =
  Ok (upd m bd (splice ld (od + i) (slice ls (os + i) (Z.of_nat n)))).
Proof.
  revert m ld ls i. induction n as [|n IH]; intros m ld ls i Hd Hs Hdo Hso Hdl Hsl Hle.
  - cbn [copy_up]. change (Z.of_nat 0) with 0. rewrite slice_0, splice_nil by lia. by rewrite upd_id.
  - cbn [copy_up].
    destruct (slice_head ls (os + i)) as [c Hc]; [lia|].
    pose proof (copy_step m (Ptr bd (od + i)) (Ptr bs (os + i)) ld ls c) as Hst.
    cbn [blk ofs] in Hst. unfold padd. cbn [blk ofs].
    destruct (load_cell m (Ptr bs (os + i))) as [c'|e]; [|discriminate Hst; (done || lia)].
    rewrite bind_ok in Hst |- *. rewrite Hst by (done || lia). rewrite bind_ok.
    erewrite IH; [|apply upd_lookup|apply src_after; done|lia|lia| | |done].
    2: { unfold zlen in *. rewrite length_insert. lia. }
    2: { case_decide; unfold zlen in *; rewrite ?length_insert; lia. }
    rewrite upd_upd. do 2 f_equal.
    replace (slice (if decide (bd = bs) then _ else ls) (os + (i + 1)) (Z.of_nat n))
      with (slice ls (os + i + 1) (Z.of_nat n))
      by (case_decide; rewrite ?slice_insert_out by lia; f_equal; lia).
    replace (od + (i + 1)) with (od + i + 1) by lia.
    rewrite splice_cons by (rewrite ?zlen_slice; lia).
    rewrite Nat2Z.inj_succ, <- Z.add_1_r.
    by rewrite (slice_cons ls (os + i) (Z.of_nat n) c) by (done || lia).
Qed.

Lemma copy_down_ok (n : nat) m bd od bs os ld ls :
  m.(m_blocks) !! bd = Some ld -> m.(m_blocks) !! bs = Some ls ->
  0 <= od -> 0 <= os -> od + Z.of_nat n <= zlen ld -> os + Z.of_nat n <= zlen ls ->
  (bd = bs -> os <= od) ->
  copy_down m (Ptr bd od) (Ptr bs os) n =
  Ok (upd m bd (splice ld od (slice ls os (Z.of_nat n)))).
Proof.
  revert m ld ls. induction n as [|n IH]; intros m ld ls Hd Hs Hdo Hso Hdl Hsl Hle.
  - cbn [copy_down]. change (Z.of_nat 0) with 0. rewrite slice_0, splice_nil by lia. by rewrite upd_id.
  - cbn [copy_down].
    destruct (slice_head ls (os + Z.of_nat n)) as [c Hc]; [lia|].
    pose proof (copy_step m (Ptr bd (od + Z.of_nat n)) (Ptr bs (os + Z.of_nat n)) ld ls c) as Hst.
    cbn [blk ofs] in Hst. unfold padd. cbn [blk ofs].
    destruct (load_cell m (Ptr bs (os + Z.of_nat n))) as [c'|e]; [|discriminate Hst; (done || lia)].
    rewrite bind_ok in Hst |- *. rewrite Hst by (done || lia). rewrite bind_ok.
    erewrite IH; [|apply upd_lookup|apply src_after; done|lia|lia| | |done].
    2: { unfold zlen in *. rewrite length_insert. lia. }
    2: { case_decide; unfold zlen in *; rewrite ?length_insert; lia. }
    rewrite upd_upd. do 2 f_equal.
    replace (slice (if decide (bd = bs) then _ else ls) os (Z.of_nat n))
      with (slice ls os (Z.of_nat n))
      by (case_decide; rewrite ?slice_insert_out by lia; done).
    assert (Hz : zlen (slice ls os (Z.of_nat n)) = Z.of_nat n) by (apply zlen_slice; lia).
    rewrite Nat2Z.inj_succ, <- Z.add_1_r, (slice_snoc ls os (Z.of_nat n) c) by (done || lia).
    rewrite <- splice_snoc by (rewrite ?Hz; lia). by rewrite Hz.
Qed.

Lemma memmove_ok m bd od bs os ld ls n :
  m.(m_blocks) !! bd = Some ld -> m.(m_blocks) !! bs = Some ls ->
  0 <= od -> 0 <= os -> 0 <= n < 2 ^ 63 -> od + n <= zlen ld -> os + n <= zlen ls ->
  internal_memmove m (Ptr bd od) (Ptr bs os) n = Ok (upd m bd (splice ld od (slice ls os n))).
Proof.
  intros Hd Hs Hdo Hso Hn Hdl Hsl. unfold internal_memmove, s64.
  rewrite swrap_small by (cbn; lia). rewrite (proj2 (Z.leb_le _ _)) by lia. cbn [negb].
  unfold ptr_lt. cbn [blk ofs]. rewrite (Z.eqb_sym bs bd).
  pose proof (copy_up_ok (Z.to_nat n) m bd od bs os ld ls 0 Hd Hs) as Hup.
  pose proof (copy_down_ok (Z.to_nat n) m bd od bs os ld ls Hd Hs) as Hdown.
  rewrite Z2Nat.id in * by lia. rewrite !Z.add_0_r in Hup.
  assert (Hzero : n = 0 -> Ok m = Ok (upd m bd (splice ld od (slice ls os n)))).
  { intros ->. rewrite slice_0, splice_nil by lia. by rewrite upd_id. }
  destruct (Z.eqb_spec bd bs) as [E|E].
  - destruct (Z.ltb_spec od os); [apply Hup; lia|].
    destruct (Z.ltb_spec os od), (Z.ltb_spec 0 n); cbn [andb];
      [apply Hdown; lia|apply Hzero; lia| |apply Hzero; lia].
    subst bs. rewrite Hd in Hs. injection Hs as ->.
    replace os with od by lia. rewrite splice_slice_same by lia. by rewrite upd_id.
  - destruct (Z.ltb_spec bd bs); [apply Hup; lia|].
    destruct (Z.ltb_spec bs bd), (Z.ltb_spec 0 n); cbn [andb];
      [apply Hdown; lia|apply Hzero; lia|lia|apply Hzero; lia].
Qed.

(** ** C strings *)

Lemma is_cstr_nonzero t s : is_cstr t s -> Forall (fun c => c <> 0) t.
Proof. intros [H _]. eapply Forall_impl; [exact H|]. by intros c [_ ?]. Qed.

Lemma is_cstr_ok t s : is_cstr t s -> Forall byte_ok t.
Proof. intros [H _]. eapply Forall_impl; [exact H|]. by intros c [? _]. Qed.

Lemma strlen_loop_ok t rest i :
  Forall (fun c => c <> 0) t ->
  strlen_loop ((Some <$> t) ++ Some 0 :: rest) i = Ok (i + zlen t).
Proof.
  intros H. revert i. induction H as [|c t Hc _ IH]; intros i; unfold zlen in *; cbn.
  - f_equal. lia.
  - rewrite (proj2 (Z.eqb_neq _ _)) by done. rewrite IH. f_equal. lia.
Qed.

Lemma strlen_ok m s t : is_cstr t (cells m s) -> internal_strlen m s = Ok (zlen t).
Proof.
  intros H. pose proof (is_cstr_nonzero _ _ H). destruct H as [_ [rest E]].
  unfold internal_strlen. rewrite E, strlen_loop_ok by done. f_equal.
Qed.

Lemma strnlen_loop_ok t rest n i :
  Forall (fun c => c <> 0) t ->
  strnlen_loop ((Some <$> t) ++ Some 0 :: rest) n i = Ok (i + Z.min (Z.of_nat n) (zlen t)).
Proof.
  intros H. revert i n. induction H as [|c t Hc _ IH]; intros i [|n]; unfold zlen in *; cbn -[Z.of_nat];
    try (f_equal; lia).
  rewrite (proj2 (Z.eqb_neq _ _)) by done. rewrite IH. f_equal. lia.
Qed.

Lemma strnlen_ok m s t n :
  0 <= n -> is_cstr t (cells m s) -> internal_strnlen m s n = Ok (Z.min n (zlen t)).
Proof.
  intros Hn H. pose proof (is_cstr_nonzero _ _ H). destruct H as [_ [rest E]].
  unfold internal_strnlen. rewrite E, strnlen_loop_ok by done. f_equal. lia.
Qed.

(** A string in its block. *)
Lemma cstr_block m b o t :
  is_cstr t (cells m (Ptr b o)) ->
  exists l, m.(m_blocks) !! b = Some l /\ 0 <= o /\ o + zlen t + 1 <= zlen l /\
    forall k, 0 <= k <= zlen t + 1 -> slice l o k = Some <$> ztake k (t ++ [0]).
Proof.
  intros [_ [rest E]]. unfold cells in E. cbn [blk ofs] in E.
  destruct (m_blocks m !! b) as [l|]; [|by apply app_cons_not_nil in E].
  destruct (Z.ltb_spec o 0) as [_|Ho]; [by apply app_cons_not_nil in E|].
  exists l. assert (zlen (zdrop o l) = zlen t + 1 + zlen rest) as Hl.
  { rewrite E. unfold zlen. rewrite length_app, length_fmap. cbn. lia. }
  pose proof (zlen_nonneg t). pose proof (zlen_nonneg rest).
  split; [done|]. split; [done|]. split.
  { unfold zlen, zdrop in *. rewrite length_drop in Hl. lia. }
  intros k Hk. unfold slice. rewrite E.
  replace ((Some <$> t) ++ Some 0 :: rest) with ((Some <$> (t ++ [0])) ++ rest)
    by (rewrite fmap_app, <- app_assoc; done).
  rewrite ztake_app_le by (unfold zlen in *; rewrite length_fmap, length_app; cbn; lia).
  unfold ztake. by rewrite fmap_take.
Qed.

Lemma ztake_snoc_short {A} k (t : list A) a : 0 <= k <= zlen t -> ztake k (t ++ [a]) = ztake k t.
Proof. intros. by apply ztake_app_le. Qed.

(** Moving the first bytes of a string and terminating them: the bodies of
    [strlcpy] and [strlcat].  [room] is what the destination can take. *)
Lemma move_terminated m bd od bs os ld t room :
  m.(m_blocks) !! bd = Some ld -> is_cstr t (cells m (Ptr bs os)) -> zlen t < 2 ^ 62 ->
  bd <> bs -> 0 <= od -> 0 < room < 2 ^ 62 -> od + room <= zlen ld ->
  (if zlen t <? room then internal_memmove m (Ptr bd od) (Ptr bs os) (zlen t + 1)
   else m' ← internal_memmove m (Ptr bd od) (Ptr bs os) (room - 1); store m' (Ptr bd (od + room - 1)) 0)
  = Ok (upd m bd (splice ld od (Some <$> (ztake (room - 1) t ++ [0])))).
Proof.
  intros Hd Hs Ht Hne Hod Hroom Hdl. pose proof (zlen_nonneg t).
  destruct (cstr_block _ _ _ _ Hs) as (ls & Hls & Hos & Hsl & Hslice).
  destruct (Z.ltb_spec (zlen t) room).
  - rewrite (memmove_ok _ _ _ _ _ ld ls) by (done || lia).
    rewrite Hslice, (ztake_all (room - 1)) by lia. do 4 f_equal. rewrite ztake_all; [done|].
    rewrite zlen_app. change (zlen [0]) with 1. lia.
  - rewrite (memmove_ok _ _ _ _ _ ld ls) by (done || lia). rewrite bind_ok.
    rewrite Hslice, ztake_snoc_short by lia.
    assert (Hz : zlen (Some <$> ztake (room - 1) t) = room - 1).
    { unfold zlen. rewrite length_fmap. fold (zlen (ztake (room - 1) t)). apply zlen_ztake. lia. }
    rewrite (store_ok _ _ _ (splice ld od (Some <$> ztake (room - 1) t)));
      [|apply upd_lookup|rewrite zlen_splice; lia|easy].
    rewrite upd_upd. do 2 f_equal.
    rewrite fmap_app. cbn [fmap list_fmap].
    rewrite <- splice_app by (rewrite ?Hz; try change (zlen [Some 0]) with 1; lia).
    rewrite Hz. replace (od + room - 1) with (od + (room - 1)) by lia.
    rewrite <- (splice_cons _ []); [|lia|rewrite zlen_splice; unfold zlen in *; cbn; lia].
    by rewrite splice_nil by lia.
Qed.

(** ** Comparison and search *)

Lemma schar_cases c : byte_ok c -> schar c = if c <? 128 then c else c - 256.
Proof.
  intros [H0 H1]. unfold schar, swrap. change (2 ^ (8 - 1)) with 128. change (2 ^ 8) with 256.
  destruct (Z.ltb_spec c 128).
  - rewrite Z.mod_small; lia.
  - replace (c + 128) with (c - 128 + 1 * 256) by lia. rewrite Z.mod_add, Z.mod_small; lia.
Qed.

Lemma schar_inj a b : byte_ok a -> byte_ok b -> schar a = schar b -> a = b.
Proof.
  intros Ha Hb. rewrite !schar_cases by done. unfold byte_ok in *.
  destruct (Z.ltb_spec a 128), (Z.ltb_spec b 128); lia.
Qed.

(** [unsigned c = *s] is monotone in the byte, though it goes through the
    signed [char]. *)
Lemma u32_schar c : byte_ok c -> u32 (schar c) = if c <? 128 then c else c + (2 ^ 32 - 256).
Proof.
  intros Hc. rewrite schar_cases by done. unfold byte_ok, u32, wrap in *.
  destruct (Z.ltb_spec c 128); [apply Z.mod_small; lia|].
  rewrite <- (Z.mod_add _ 1) by lia. rewrite Z.mod_small; lia.
Qed.

Lemma memcmp_loop_zero x y r1 r2 :
  length x = length y -> Forall byte_ok x -> Forall byte_ok y ->
  exists v, memcmp_loop ((Some <$> x) ++ r1) ((Some <$> y) ++ r2) (length x) = Ok v /\ (v = 0 <-> x = y).
Proof.
  intros Hl Hx. revert y Hl. induction Hx as [|a x Ha _ IH]; intros [|b y] Hl Hy; try discriminate Hl.
  - exists 0. split; [done|]. split; done.
  - apply Forall_cons in Hy as [Hb Hy]. injection Hl as Hl. cbn.
    destruct (Z.eqb_spec (schar a) (schar b)) as [E|E]; cbn.
    + apply schar_inj in E as ->; [|done..].
      destruct (IH y Hl Hy) as (v & Hv & Hiff). exists v. split; [done|].
      rewrite Hiff. split; [by intros ->|by intros [= ->]].
    + eexists. split; [done|]. split; [by case_match|]. by intros [= -> _].
Qed.

(** Lexicographic order of unsigned bytes, as [strcmp] of the C standard. *)
Fixpoint lex (s t : list Z) : Z :=
  match s, t with
  | [], [] => 0
  | [], _ :: _ => -1
  | _ :: _, [] => 1
  | a :: s', b :: t' => if a <? b then -1 else if b <? a then 1 else lex s' t'
  end.

Lemma strcmp_loop_lex s t r1 r2 :
  Forall (fun c => byte_ok c /\ c <> 0) s -> Forall (fun c => byte_ok c /\ c <> 0) t ->
  strcmp_loop ((Some <$> s) ++ Some 0 :: r1) ((Some <$> t) ++ Some 0 :: r2) = Ok (lex s t).
Proof.
  intros Hs. revert t. induction Hs as [|a s [Ha Ha0] _ IH]; intros [|b t] Ht;
    try (apply Forall_cons in Ht as [[Hb Hb0] Ht]); cbn -[u32 schar];
    change (u32 (schar 0)) with 0; rewrite ?u32_schar by done; unfold byte_ok in *.
  - done.
  - destruct (Z.ltb_spec b 128), (Z.eqb_spec 0 b), (Z.eqb_spec 0 (b + (2 ^ 32 - 256))); cbn [negb]; try lia;
      rewrite (proj2 (Z.ltb_lt _ _)); (done || lia).
  - destruct (Z.ltb_spec a 128); rewrite (proj2 (Z.eqb_neq _ 0)) by lia; cbn [negb];
      rewrite (proj2 (Z.ltb_ge _ 0)); (done || lia).
  - rewrite IH by done.
    destruct (Z.ltb_spec a 128), (Z.ltb_spec b 128), (Z.ltb_spec a b), (Z.ltb_spec b a); try lia;
      repeat match goal with |- context [?x =? ?y] => destruct (Z.eqb_spec x y) end; cbn [negb]; try lia;
      try (rewrite (proj2 (Z.ltb_lt _ _)) by lia; done);
      try (rewrite (proj2 (Z.ltb_ge _ _)) by lia; done); done.
Qed.

Lemma cells_padd m b o k : 0 <= o -> 0 <= k -> cells m (padd (Ptr b o) k) = zdrop k (cells m (Ptr b o)).
Proof.
  intros Ho Hk. unfold cells, padd. cbn [blk ofs]. destruct (m_blocks m !! b) as [l|].
  - rewrite !(proj2 (Z.ltb_ge _ _)) by lia. unfold zdrop. rewrite drop_drop. f_equal. lia.
  - unfold zdrop. by rewrite drop_nil.
Qed.

Lemma memcmp_at m hb ho nb no t1 t2 pos :
  0 <= ho -> is_cstr t1 (cells m (Ptr hb ho)) -> is_cstr t2 (cells m (Ptr nb no)) ->
  0 <= pos -> pos + zlen t2 <= zlen t1 ->
  exists v, internal_memcmp m (padd (Ptr hb ho) pos) (Ptr nb no) (zlen t2) = Ok v /\
    (v = 0 <-> slice t1 pos (zlen t2) = t2).
Proof.
  intros Hho H1 H2 Hpos Hlen. pose proof (zlen_nonneg t2).
  pose proof (is_cstr_ok _ _ H1) as Hok1. pose proof (is_cstr_ok _ _ H2) as Hok2.
  destruct H1 as [_ [r1 E1]], H2 as [_ [r2 E2]].
  unfold internal_memcmp. rewrite cells_padd, E1, E2 by done.
  assert (Hz : zlen (slice t1 pos (zlen t2)) = zlen t2) by (apply zlen_slice; lia).
  destruct (memcmp_loop_zero (slice t1 pos (zlen t2)) t2
             ((Some <$> zdrop (pos + zlen t2) t1) ++ Some 0 :: r1) (Some 0 :: r2)) as (v & Hv & Hiff).
  - unfold zlen in Hz at 1 3. lia.
  - unfold slice, ztake, zdrop. by apply Forall_take, Forall_drop.
  - done.
  - exists v. split; [|done]. rewrite <- Hv. f_equal; [|unfold zlen in Hz at 1; lia].
    rewrite app_assoc, <- fmap_app.
    assert (slice t1 pos (zlen t2) ++ zdrop (pos + zlen t2) t1 = zdrop pos t1) as ->.
    { unfold slice. assert (zdrop (pos + zlen t2) t1 = zdrop (zlen t2) (zdrop pos t1)) as ->.
      { unfold zdrop. rewrite drop_drop. f_equal. lia. }
      apply ztake_zdrop. }
    unfold zdrop, zlen in *. rewrite drop_app_le by (rewrite length_fmap; lia). by rewrite fmap_drop.
Qed.

(** The first position of [t2] in [t1] from [pos] on, if any. *)
Definition first_at (t1 t2 : list Z) (pos : Z) (r : option Z) : Prop :=
  match r with
  | Some p => pos <= p <= zlen t1 - zlen t2 /\ slice t1 p (zlen t2) = t2 /\
      forall q, pos <= q < p -> slice t1 q (zlen t2) <> t2
  | None => forall q, pos <= q <= zlen t1 - zlen t2 -> slice t1 q (zlen t2) <> t2
  end.

Lemma strstr_loop_ok m hb ho nb no t1 t2 (k : nat) pos :
  0 <= ho -> is_cstr t1 (cells m (Ptr hb ho)) -> is_cstr t2 (cells m (Ptr nb no)) ->
  0 <= pos -> pos + Z.of_nat k = zlen t1 - zlen t2 + 1 ->
  exists r, strstr_loop m (Ptr hb ho) (Ptr nb no) (zlen t2) pos k = Ok r /\ first_at t1 t2 pos r.
Proof.
  intros Hho H1 H2. revert pos. induction k as [|k IH]; intros pos Hpos Hk; cbn [strstr_loop].
  - exists None. split; [done|]. intros q Hq. lia.
  - destruct (memcmp_at m hb ho nb no t1 t2 pos) as (v & -> & Hiff); [done..|lia|].
    rewrite bind_ok. destruct (Z.eqb_spec v 0) as [E|E].
    + exists (Some pos). split; [done|]. repeat split; [lia|lia|by apply Hiff|lia].
    + destruct (IH (pos + 1)) as (r & Hr & Hf); [lia|lia|]. exists r. split; [done|].
      assert (Hpos' : slice t1 pos (zlen t2) <> t2) by (intros ?; by apply E, Hiff).
      destruct r as [p|]; cbn in Hf |- *.
      * destruct Hf as (Hp & Hs & Hq). split; [lia|]. split; [done|]. intros q ?.
        destruct (decide (q = pos)) as [->|]; [done|apply Hq; lia].
      * intros q ?. destruct (decide (q = pos)) as [->|]; [done|apply Hf; lia].
Qed.

(** ** Decimal numbers *)

(** The number a list of digit characters denotes. *)
Definition dec_from (r : Z) (ds : list Z) : Z := foldl (fun a c => a * 10 + (c - 48)) r ds.
Definition dec (ds : list Z) : Z := dec_from 0 ds.

Lemma IsDigit_iff c : IsDigit c = true <-> 48 <= c <= 57.
Proof. unfold IsDigit. rewrite andb_true_iff, !Z.leb_le. done. Qed.

Lemma schar_low c : 0 <= c < 128 -> schar c = c.
Proof. intros. apply swrap_small; cbn; lia. Qed.

Lemma schar_digit c : byte_ok c -> IsDigit (schar c) = IsDigit c.
Proof.
  intros Hc. rewrite schar_cases by done. unfold byte_ok, IsDigit in *.
  destruct (Z.ltb_spec c 128); [done|].
  rewrite (proj2 (Z.leb_gt 48 (c - 256))), (proj2 (Z.leb_gt c 57)) by lia. by rewrite andb_false_r.
Qed.

Lemma strtoll_digit_sat v c :
  0 <= v -> 48 <= c <= 57 ->
  strtoll_digit (Z.min UINT64_MAX v) c = Z.min UINT64_MAX (v * 10 + (c - 48)).
Proof.
  intros Hv Hc. unfold strtoll_digit. rewrite schar_low by lia.
  change (UINT64_MAX / 10) with 1844674407370955161.
  change UINT64_MAX with 18446744073709551615.
  destruct (Z.leb_spec (Z.min 18446744073709551615 v) 1844674407370955161);
    match goal with |- (if ?b then _ else _) = _ => destruct b eqn:E end; to_Prop; lia.
Qed.

Lemma strtoll_digits_ok ds c rest v b i :
  0 <= v -> Forall (fun c => IsDigit c = true) ds -> byte_ok c -> IsDigit c = false ->
  strtoll_digits ((Some <$> ds) ++ Some c :: rest) (Z.min UINT64_MAX v) b i =
  Ok (Z.min UINT64_MAX (dec_from v ds), b || negb (bool_decide (ds = [])), i + zlen ds).
Proof.
  intros Hv Hds Hc Hnd. revert v b i Hv. induction Hds as [|d ds Hd _ IH]; intros v b i Hv.
  - cbn -[Z.min]. rewrite schar_digit, Hnd by done. rewrite orb_false_r. unfold zlen. cbn -[Z.min].
    by rewrite Z.add_0_r.
  - pose proof (proj1 (IsDigit_iff d) Hd) as Hr. cbn [fmap list_fmap app strtoll_digits].
    rewrite schar_digit, Hd by (unfold byte_ok; lia).
    rewrite strtoll_digit_sat by lia. rewrite IH by lia.
    rewrite (bool_decide_false (d :: ds = [])) by done. cbn [negb orb]. rewrite orb_true_r. f_equal.
    unfold zlen. cbn [length]. f_equal. lia.
Qed.

Lemma dec_from_nonneg v ds : 0 <= v -> Forall (fun c => IsDigit c = true) ds -> 0 <= dec_from v ds.
Proof.
  intros Hv H. revert v Hv. induction H as [|d ds Hd _ IH]; intros v Hv; [done|].
  apply IsDigit_iff in Hd. apply IH. lia.
Qed.

Lemma skip_space_ok sp c rest i :
  Forall (fun c => IsSpace c = true) sp -> IsSpace (schar c) = false ->
  skip_space ((Some <$> sp) ++ Some c :: rest) i = Ok (Some c :: rest, i + zlen sp).
Proof.
  intros Hsp Hc. revert i. induction Hsp as [|d sp Hd _ IH]; intros i.
  - cbn. rewrite Hc. unfold zlen. cbn. by rewrite Z.add_0_r.
  - cbn [fmap list_fmap app skip_space].
    assert (0 <= d < 128) as Hr.
    { unfold IsSpace in Hd. repeat (apply orb_true_iff in Hd as [Hd|Hd]); apply Z.eqb_eq in Hd; lia. }
    rewrite schar_low, Hd by done. rewrite IH. unfold zlen. cbn [length]. do 2 f_equal. lia.
Qed.

(** The text of a number: sign characters by sign. *)
Inductive sign_text : Z -> list Z -> Prop :=
| sign_none : sign_text 1 []
| sign_plus : sign_text 1 [43]
| sign_minus : sign_text (-1) [45].

Definition clamp (lo hi v : Z) : Z := Z.max lo (Z.min hi v).

Lemma strtoll_sign sgn r :
  sgn = 1 \/ sgn = -1 -> 0 <= r ->
  (if 0 <? sgn then s64 (Z.min INT64_MAX (Z.min UINT64_MAX r))
   else if INT64_MAX <? Z.min UINT64_MAX r then INT64_MIN else s64 (Z.min UINT64_MAX r) * -1) =
  clamp INT64_MIN INT64_MAX (sgn * r).
Proof.
  intros Hs Hr. unfold clamp, s64.
  change UINT64_MAX with 18446744073709551615.
  change INT64_MAX with 9223372036854775807. change INT64_MIN with (-9223372036854775808).
  destruct Hs as [-> | ->].
  - change (0 <? 1) with true. cbv iota. rewrite swrap_small; cbn -[Z.min Z.max]; lia.
  - change (0 <? -1) with false. cbv iota.
    destruct (Z.ltb_spec 9223372036854775807 (Z.min 18446744073709551615 r)); [lia|].
    rewrite swrap_small; cbn -[Z.min Z.max]; lia.
Qed.

Lemma IsDigit_not_space c : 48 <= c <= 57 -> IsSpace c = false.
Proof.
  intros. unfold IsSpace. repeat (apply orb_false_iff; split); apply Z.eqb_neq; lia.
Qed.

(** The part of [internal_simple_strtoll] after the sign. *)
Lemma strtoll_tail (sgn old i : Z) ds c rest :
  sgn = 1 \/ sgn = -1 -> ds <> [] -> Forall (fun c => IsDigit c = true) ds ->
  byte_ok c -> IsDigit c = false ->
  ('(r, have_digits, i) ← strtoll_digits ((Some <$> ds) ++ Some c :: rest) 0 false i;
   Ok (if 0 <? sgn then s64 (Z.min INT64_MAX r)
       else if INT64_MAX <? r then INT64_MIN else s64 r * -1,
       if (have_digits : bool) then i else old)) =
  Ok (clamp INT64_MIN INT64_MAX (sgn * dec ds), i + zlen ds).
Proof.
  intros Hsgn Hne Hds Hc Hnd.
  pose proof (strtoll_digits_ok ds c rest 0 false i) as Hdig.
  change (Z.min UINT64_MAX 0) with 0 in Hdig.
  rewrite Hdig, bind_ok, (bool_decide_false (ds = [])) by (done || lia). cbn [orb negb].
  rewrite strtoll_sign; [done..|]. apply dec_from_nonneg; [lia|done].
Qed.

Lemma strtoll_ok m p sp sgn sg ds c rest :
  cells m p = (Some <$> sp) ++ (Some <$> sg) ++ (Some <$> ds) ++ Some c :: rest ->
  Forall (fun c => IsSpace c = true) sp -> sign_text sgn sg ->
  ds <> [] -> Forall (fun c => IsDigit c = true) ds ->
  byte_ok c -> IsDigit c = false ->
  internal_simple_strtoll m p 10 =
  Ok (clamp INT64_MIN INT64_MAX (sgn * dec ds), zlen (sp ++ sg ++ ds)).
Proof.
  intros Hcells Hsp Hsg Hne Hds Hc Hnd. unfold internal_simple_strtoll. cbn [Z.eqb Pos.eqb negb].
  rewrite Hcells, !zlen_app. clear Hcells.
  destruct Hsg; cbn [fmap list_fmap app].
  - pose proof (strtoll_tail 1 (0 + zlen sp) (0 + zlen sp) ds c rest) as Ht.
    destruct ds as [|d ds']; [done|].
    assert (Hd : 48 <= d <= 57) by (apply IsDigit_iff; by inversion Hds).
    cbn [fmap list_fmap app] in Ht |- *.
    rewrite skip_space_ok; [|done|rewrite schar_low by lia; by apply IsDigit_not_space].
    rewrite bind_ok. cbv beta iota. rewrite !(proj2 (Z.eqb_neq d _)) by lia. cbv beta iota.
    rewrite Ht by auto. done.
  - rewrite skip_space_ok by done. rewrite bind_ok. cbn [Z.eqb Pos.eqb].
    rewrite (strtoll_tail 1) by auto. unfold zlen. cbn [length]. do 2 f_equal. lia.
  - rewrite skip_space_ok by done. rewrite bind_ok. cbn [Z.eqb Pos.eqb].
    rewrite (strtoll_tail (-1)) by auto. unfold zlen. cbn [length]. do 2 f_equal. lia.
Qed.

(** ** Zero tests *)

(** All bytes of [l] from [i] to before [j] are initialised bytes. *)
Definition bytes_in (l : list cell) (i j : Z) : Prop :=
  forall k, i <= k < j -> exists v, l !! Z.to_nat k = Some (Some v) /\ byte_ok v.

Definition zero_in (l : list cell) (i j : Z) : Prop :=
  forall k, i <= k < j -> l !! Z.to_nat k = Some (Some 0).

Lemma zero_in_split l i j k : i <= j <= k -> (zero_in l i k <-> zero_in l i j /\ zero_in l j k).
Proof.
  intros H. unfold zero_in. split.
  - intros Hz. split; intros x Hx; apply Hz; lia.
  - intros [Ha Hb] x Hx. destruct (Z.lt_ge_cases x j); [apply Ha|apply Hb]; lia.
Qed.

Lemma zero_in_cons l i j v :
  0 <= i < j -> l !! Z.to_nat i = Some (Some v) -> (zero_in l i j <-> v = 0 /\ zero_in l (i + 1) j).
Proof.
  intros Hij Hv. rewrite (zero_in_split l i (i + 1) j) by lia. apply and_iff_compat_r.
  unfold zero_in. split.
  - intros H. specialize (H i ltac:(lia)). rewrite Hv in H. by injection H.
  - intros -> k Hk. replace k with i by lia. done.
Qed.

Lemma lor_zero a b : Z.lor a b = 0 <-> a = 0 /\ b = 0.
Proof. apply Z.lor_eq_0_iff. Qed.

Lemma u64_schar_zero v : byte_ok v -> (u64 (schar v) = 0 <-> v = 0).
Proof.
  intros Hv. rewrite schar_cases by done. unfold byte_ok, u64, wrap in *.
  destruct (Z.ltb_spec v 128).
  - rewrite Z.mod_small; lia.
  - rewrite <- (Z.mod_add _ 1) by lia. rewrite Z.mod_small; lia.
Qed.

Lemma or_bytes_ok m b l (n : nat) o all :
  m.(m_blocks) !! b = Some l -> 0 <= o -> bytes_in l o (o + Z.of_nat n) ->
  exists r, or_bytes m (Ptr b o) n all = Ok r /\ (r = 0 <-> all = 0 /\ zero_in l o (o + Z.of_nat n)).
Proof.
  intros Hb. revert o all. induction n as [|n IH]; intros o all Ho Hin.
  - exists all. split; [done|]. split; [|by intros [? _]].
    intros ->. split; [done|]. intros k Hk. lia.
  - destruct (Hin o) as (v & Hv & Hok); [lia|]. cbn [or_bytes].
    rewrite (load_ok _ (Ptr b o) l v) by done. rewrite bind_ok. unfold padd. cbn [blk ofs].
    destruct (IH (o + 1) (Z.lor all (u64 (schar v)))) as (r & Hr & Hiff); [lia| |].
    { intros k Hk. apply Hin. lia. }
    exists r. split; [done|]. rewrite Hiff, lor_zero, u64_schar_zero by done.
    rewrite (zero_in_cons l o (o + Z.of_nat (S n)) v) by (done || lia).
    replace (o + 1 + Z.of_nat n) with (o + Z.of_nat (S n)) by lia. tauto.
Qed.

Lemma le_val_zero vs : Forall byte_ok vs -> (le_val vs = 0 <-> Forall (fun v => v = 0) vs).
Proof.
  induction 1 as [|v vs Hv Hvs IH]; [done|].
  pose proof (le_val_range vs Hvs) as [Hr _]. cbn [le_val]. rewrite Forall_cons, <- IH.
  unfold byte_ok in *. lia.
Qed.

Lemma bytes_in_slice l (n : nat) o :
  0 <= o -> bytes_in l o (o + Z.of_nat n) ->
  exists vs, length vs = n /\ slice l o (Z.of_nat n) = Some <$> vs /\ Forall byte_ok vs /\
    (Forall (fun v => v = 0) vs <-> zero_in l o (o + Z.of_nat n)).
Proof.
  revert o. induction n as [|n IH]; intros o Ho Hin.
  - exists []. repeat split; [done|intros _ k Hk; lia|intros _; constructor].
  - destruct (Hin o) as (v & Hv & Hok); [lia|].
    destruct (IH (o + 1)) as (vs & Hlen & Hs & Hvs & Hz); [lia| |].
    { intros k Hk. apply Hin. lia. }
    exists (v :: vs). split; [cbn; lia|]. split; [|split].
    + rewrite Nat2Z.inj_succ, <- Z.add_1_r, (slice_cons _ _ _ (Some v)) by (done || lia). by rewrite Hs.
    + by apply Forall_cons_2.
    + rewrite Forall_cons, Hz, (zero_in_cons l o (o + Z.of_nat (S n)) v) by (done || lia).
      replace (o + 1 + Z.of_nat n) with (o + Z.of_nat (S n)) by lia. done.
Qed.

Lemma or_words_ok m b l (n : nat) o all :
  m.(m_blocks) !! b = Some l -> 0 <= o -> bytes_in l o (o + 8 * Z.of_nat n) ->
  exists r, or_words m (Ptr b o) n all = Ok r /\ (r = 0 <-> all = 0 /\ zero_in l o (o + 8 * Z.of_nat n)).
Proof.
  intros Hb. revert o all. induction n as [|n IH]; intros o all Ho Hin.
  - exists all. split; [done|]. split; [|by intros [? _]].
    intros ->. split; [done|]. intros k Hk. lia.
  - destruct (bytes_in_slice l 8 o) as (vs & Hlen & Hs & Hvs & Hz); [done| |].
    { intros k Hk. apply Hin. lia. }
    cbn [or_words]. pose proof (load_bytes_ok m b o l vs Hb Ho) as Hl.
    rewrite Hlen in Hl. unfold zlen in Hl. rewrite Hlen in Hl. rewrite Hl, bind_ok by done.
    unfold padd. cbn [blk ofs].
    destruct (IH (o + 8) (Z.lor all (le_val vs))) as (r & Hr & Hiff); [lia| |].
    { intros k Hk. apply Hin. lia. }
    exists r. split; [done|]. rewrite Hiff, lor_zero, le_val_zero, Hz by done.
    rewrite (zero_in_split l o (o + 8) (o + 8 * Z.of_nat (S n))) by lia.
    change (Z.of_nat 8) with 8.
    replace (o + 8 + 8 * Z.of_nat n) with (o + 8 * Z.of_nat (S n)) by lia. tauto.
Qed.

Lemma mem_is_zero_ok m b l o size :
  m.(m_blocks) !! b = Some l -> 0 <= o -> 0 <= size <= 2 ^ 40 -> o + size < 2 ^ 63 -> bytes_in l o (o + size) ->
  exists r, mem_is_zero m (Ptr b o) size = Ok r /\ (r = true <-> zero_in l o (o + size)).
Proof.
  intros Hb Ho Hsz Hmax Hin. unfold mem_is_zero. cbn [blk ofs].
  rewrite (proj2 (Z.leb_le _ _)) by lia. cbn [negb].
  pose proof (RoundUpTo_ok o 3 ltac:(lia) ltac:(lia) ltac:(lia)) as Eup. pose proof (RoundDownTo_ok (o + size) 3 ltac:(lia) ltac:(lia)) as Edown.
  change (2 ^ 3) with 8 in Eup, Edown. rewrite Eup, bind_ok, Edown. replace (o + 8 - 1) with (o + 7) by lia. rewrite !(Z.mul_comm _ 8).
  pose proof (Z.div_mod (o + 7) 8 ltac:(lia)). pose proof (Z.mod_pos_bound (o + 7) 8 ltac:(lia)).
  pose proof (Z.div_mod (o + size) 8 ltac:(lia)).
  pose proof (Z.mod_pos_bound (o + size) 8 ltac:(lia)).
  set (ab := 8 * ((o + 7) / 8)) in *. set (ae := 8 * ((o + size) / 8)) in *.
  assert (Hw : (ae - ab) / 8 = (o + size) / 8 - (o + 7) / 8).
  { unfold ab, ae. rewrite <- Z.mul_sub_distr_l, Z.mul_comm, Z.div_mul; lia. }
  destruct (or_bytes_ok m b l (Z.to_nat (Z.min ab (o + size) - o)) o 0) as (r1 & -> & Hr1);
    [done|done|intros k Hk; apply Hin; lia|]. rewrite bind_ok.
  destruct (or_words_ok m b l (Z.to_nat ((ae - ab) / 8)) ab r1) as (r2 & -> & Hr2);
    [done|lia|intros k Hk; apply Hin; lia|]. rewrite bind_ok.
  assert (exists r3, (if o <=? ae then or_bytes m (Ptr b ae) (Z.to_nat (o + size - ae)) r2 else Ok r2) = Ok r3
    /\ (r3 = 0 <-> r2 = 0 /\ (o <= ae -> zero_in l ae (o + size)))) as (r3 & -> & Hr3).
  { destruct (Z.leb_spec o ae) as [Hle|Hgt].
    - destruct (or_bytes_ok m b l (Z.to_nat (o + size - ae)) ae r2) as (r & -> & Hr);
        [done|lia|intros k Hk; apply Hin; lia|].
      exists r. split; [done|]. rewrite Hr.
      replace (ae + Z.of_nat (Z.to_nat (o + size - ae))) with (o + size) by lia. tauto.
    - exists r2. split; [done|]. split; [|by intros [? _]]. intros ->. split; [done|lia]. }
  rewrite bind_ok. eexists. split; [done|]. rewrite Z.eqb_eq, Hr3, Hr2, Hr1. unfold zero_in. split.
  - intros [[[_ Ha] Hb'] Hc] k Hk.
    destruct (Z.lt_ge_cases k (Z.min ab (o + size))); [apply Ha; lia|].
    destruct (Z.lt_ge_cases k ae); [apply Hb'; lia|apply Hc; lia].
  - intros Hz. repeat split; intros; apply Hz; lia.
Qed.

(** ** Padded and bounded copies *)

Lemma memset_loop_ok (n : nat) m b o l c :
  m.(m_blocks) !! b = Some l -> 0 <= o -> o + Z.of_nat n <= zlen l -> byte_ok c ->
  internal_memset_loop m (Ptr b o) c n = Ok (upd m b (splice l o (replicate n (Some c)))).
Proof.
  revert m o l. induction n as [|n IH]; intros m o l Hb Ho Hl Hc; cbn [internal_memset_loop replicate].
  - rewrite splice_nil by lia. by rewrite upd_id.
  - rewrite (store_ok _ _ _ l) by (done || lia). rewrite bind_ok. unfold padd. cbn [blk ofs].
    erewrite IH; [|apply upd_lookup|lia|unfold zlen in *; rewrite length_insert; lia|done].
    rewrite upd_upd, splice_cons; [done|lia|]. unfold zlen in *. rewrite length_replicate. lia.
Qed.

Lemma strncpy_loop_ok (n : nat) m bd od bs os ld t rest i :
  m.(m_blocks) !! bd = Some ld -> bd <> bs -> 0 <= od + i -> od + i + Z.of_nat n <= zlen ld ->
  0 <= os + i -> cells m (Ptr bs (os + i)) = (Some <$> t) ++ Some 0 :: rest ->
  Forall (fun c => byte_ok c /\ c <> 0) t ->
  strncpy_loop m (Ptr bd od) (Ptr bs os) i n =
  Ok (i + Z.min (Z.of_nat n) (zlen t), upd m bd (splice ld (od + i) (Some <$> take n t))).
Proof.
  revert m ld t i. induction n as [|n IH]; intros m ld t i Hd Hne Hdo Hdl Hso Hc Ht; cbn [strncpy_loop].
  - rewrite ?take_0, ?take_nil; cbn [fmap list_fmap]. rewrite splice_nil, upd_id by (done || lia). unfold zlen.
    do 2 f_equal. lia.
  - unfold padd. cbn [blk ofs].
    unfold cells in Hc. cbn [blk ofs] in Hc.
    destruct (m_blocks m !! bs) as [ls|] eqn:Hs; [|by apply app_cons_not_nil in Hc].
    rewrite (proj2 (Z.ltb_ge _ _)) in Hc by lia. unfold zdrop in Hc.
    destruct Ht as [|c t [Hcok Hc0] Ht].
    + rewrite (load_ok _ (Ptr bs (os + i)) ls 0) by
        (done || (cbn [ofs]; apply (f_equal (.!! 0%nat)) in Hc; rewrite lookup_drop, Nat.add_0_r in Hc; done)).
      rewrite bind_ok. change (0 =? 0) with true. cbv iota. rewrite ?take_0, ?take_nil; cbn [fmap list_fmap].
      rewrite splice_nil, upd_id by (done || lia). unfold zlen. cbn [length]. do 2 f_equal. lia.
    + rewrite (load_ok _ (Ptr bs (os + i)) ls c) by
        (done || (cbn [ofs]; apply (f_equal (.!! 0%nat)) in Hc; rewrite lookup_drop, Nat.add_0_r in Hc; done)).
      rewrite bind_ok, (proj2 (Z.eqb_neq _ _)) by done.
      rewrite (store_ok _ _ _ ld) by (done || lia). rewrite bind_ok.
      erewrite (IH _ _ t); [|apply upd_lookup|done|lia|unfold zlen in *; rewrite length_insert; lia|lia| |done].
      * rewrite upd_upd. unfold zlen. cbn [length]. rewrite firstn_cons, fmap_cons.
        replace (od + (i + 1)) with (od + i + 1) by lia.
        rewrite splice_cons; [do 2 f_equal; lia|lia|].
        unfold zlen in *. rewrite length_fmap, length_take. lia.
      * unfold cells. cbn [blk ofs]. rewrite upd_lookup_ne, Hs by done.
        rewrite (proj2 (Z.ltb_ge _ _)) by lia. unfold zdrop.
        replace (Z.to_nat (os + (i + 1))) with (Z.to_nat (os + i) + 1)%nat by lia.
        rewrite <- drop_drop, Hc. done.
Qed.

(** [strncpy] fills its [n] bytes: the first bytes of the string, then NULs;
    a string of [n] characters or more is left unterminated. *)
Lemma strncpy_ok m bd od bs os ld t n :
  m.(m_blocks) !! bd = Some ld -> is_cstr t (cells m (Ptr bs os)) -> bd <> bs ->
  0 <= od -> 0 <= n -> od + n <= zlen ld ->
  internal_strncpy m (Ptr bd od) (Ptr bs os) n =
  Ok (upd m bd (splice ld od (Some <$> (ztake n t ++ replicate (Z.to_nat (n - zlen t)) 0)))).
Proof.
  intros Hd Hs Hne Hod Hn Hdl.
  destruct (cstr_block _ _ _ _ Hs) as (ls & _ & Hos & _ & _).
  destruct Hs as [Ht [rest Hc]]. unfold internal_strncpy.
  rewrite (strncpy_loop_ok _ _ _ _ _ _ ld t rest) by (rewrite ?Z.add_0_r; done || lia).
  rewrite bind_ok, Z2Nat.id, Z.add_0_l, Z.add_0_r by lia. unfold internal_memset, padd. cbn [blk ofs].
  set (x := Some <$> take (Z.to_nat n) t).
  assert (Hx : zlen x = Z.min n (zlen t)) by (unfold x, zlen; rewrite length_fmap, length_take; lia).
  pose proof (zlen_nonneg t).
  rewrite (memset_loop_ok _ _ _ _ (splice ld od x)); [|apply upd_lookup|lia|rewrite zlen_splice; lia|easy].
  rewrite upd_upd, <- Hx, splice_app, fmap_app, fmap_replicate; [|lia|].
  - do 5 f_equal. lia.
  - unfold zlen at 2. rewrite length_replicate. lia.
Qed.

Lemma strncat_ok m bd od bs os ld t0 t n :
  m.(m_blocks) !! bd = Some ld -> is_cstr t0 (cells m (Ptr bd od)) -> is_cstr t (cells m (Ptr bs os)) -> bd <> bs ->
  0 <= n -> od + zlen t0 + n <= zlen ld -> od + zlen t0 + Z.min n (zlen t) < zlen ld ->
  internal_strncat m (Ptr bd od) (Ptr bs os) n =
  Ok (upd m bd (splice ld (od + zlen t0) (Some <$> (ztake n t ++ [0])))).
Proof.
  intros Hd Hd0 Hs Hne Hn Hdl Hroom.
  destruct (cstr_block _ _ _ _ Hd0) as (ld' & _ & Hod & _). destruct (cstr_block _ _ _ _ Hs) as (ls & _ & Hos & _).
  unfold internal_strncat. rewrite (strlen_ok _ _ t0), bind_ok by done. destruct Hs as [Ht [rest Hc]].
  unfold padd. cbn [blk ofs]. pose proof (zlen_nonneg t0). pose proof (zlen_nonneg t).
  rewrite (strncpy_loop_ok _ _ _ _ _ _ ld t rest) by (rewrite ?Z.add_0_r; done || lia).
  rewrite bind_ok, Z2Nat.id, Z.add_0_l, Z.add_0_r by lia. fold (ztake n t).
  assert (Hx : zlen (Some <$> ztake n t) = Z.min n (zlen t)).
  { unfold ztake, zlen. rewrite length_fmap, length_take. lia. }
  rewrite (store_ok _ _ _ (splice ld (od + zlen t0) (Some <$> ztake n t))); 
    [|apply upd_lookup|rewrite zlen_splice; lia|easy].
  rewrite upd_upd, fmap_app. do 2 f_equal. rewrite Z.add_assoc, <- Hx, <- splice_app by (change (zlen (Some <$> [0])) with 1; lia).
  rewrite <- (splice_nil (<[_ := _]> _) (od + zlen t0 + zlen (Some <$> ztake n t) + 1)) by lia.
  apply splice_cons; [lia|change (zlen []) with 0; rewrite zlen_splice; lia].
Qed.

(** Numbers are read from every C string. *)
Lemma strtoll_digits_total t rest r h i :
  Forall (fun c => byte_ok c /\ c <> 0) t -> 0 <= r <= UINT64_MAX ->
  exists r' h' i', strtoll_digits ((Some <$> t) ++ Some 0 :: rest) r h i = Ok (r', h', i') /\ 0 <= r' <= UINT64_MAX.
Proof.
  intros Ht. revert r h i. induction Ht as [|c t Hc Ht IH]; intros r h i Hr; cbn [fmap list_fmap app strtoll_digits].
  { change (IsDigit (schar 0)) with false. eauto. }
  destruct (IsDigit (schar c)) eqn:E; [|eauto]. apply IH. apply IsDigit_iff in E.
  unfold strtoll_digit. change (UINT64_MAX / 10) with 1844674407370955161.
  change UINT64_MAX with 18446744073709551615 in *. cbv zeta.
  destruct (Z.leb_spec r 1844674407370955161); 
    match goal with |- context [?a <=? ?b] => destruct (Z.leb_spec a b) end; lia.
Qed.

Lemma skip_space_total t rest i :
  exists t' i', skip_space ((Some <$> t) ++ Some 0 :: rest) i = Ok ((Some <$> t') ++ Some 0 :: rest, i') /\ t' `suffix_of` t.
Proof.
  revert i. induction t as [|c t IH]; intros i; cbn [fmap list_fmap app skip_space].
  - exists [], i. done.
  - destruct (IsSpace (schar c)).
    + destruct (IH (i + 1)) as (t' & i' & E & Hs). exists t', i'. split; [done|]. by apply suffix_cons_r.
    + by exists (c :: t), i.
Qed.

Lemma strtoll_total m p t :
  is_cstr t (cells m p) ->
  exists v e, internal_simple_strtoll m p 10 = Ok (v, e) /\ INT64_MIN <= v <= INT64_MAX.
Proof.
  intros [Ht [rest E]]. unfold internal_simple_strtoll. rewrite E. change (negb (10 =? 10)) with false. cbv iota.
  destruct (skip_space_total t rest 0) as (t' & old & -> & [k ->]). rewrite bind_ok. apply Forall_app in Ht as [_ Ht].
  assert (Hend : forall sgn s i, Forall (fun c => byte_ok c /\ c <> 0) s -> exists v e,
    ('(r, have_digits, i) ← strtoll_digits ((Some <$> s) ++ Some 0 :: rest) 0 false i;
     Ok (if 0 <? sgn then s64 (Z.min INT64_MAX r) else if INT64_MAX <? r then INT64_MIN else s64 r * -1,
         if (have_digits : bool) then i else old)) = Ok (v, e) /\ INT64_MIN <= v <= INT64_MAX).
  { intros sgn s i Hs. destruct (strtoll_digits_total s rest 0 false i Hs) as (r & h & i' & -> & Hr); [easy|].
    rewrite bind_ok. do 2 eexists. split; [done|]. unfold INT64_MIN, INT64_MAX, UINT64_MAX, s64 in *.
    destruct (0 <? sgn); [|destruct (Z.ltb_spec (2 ^ 63 - 1) r); [lia|]]; rewrite swrap_small by (change (64 - 1) with 63; lia); lia. }
  destruct t' as [|c t']; cbn [fmap list_fmap app].
  - apply (Hend 1 [] old). constructor.
  - pose proof Ht as Ht0. apply Forall_cons in Ht as [_ Ht].
    destruct (c =? 43); [by apply (Hend 1 t' (old + 1))|]. destruct (c =? 45); [by apply (Hend (-1) t' (old + 1))|].
    by apply (Hend 1 (c :: t') old).
Qed.

(** ** Theorems *)

(** [internal_memmove] is safe on overlapping ranges.  Whatever the
    relative position of the two ranges, in one block or two, it returns and
    the destination range holds what the source range held before. *)
Theorem memmove_overlap (m : mem) (bd od bs os n : Z) (ld ls : list cell) :
  m.(m_blocks) !! bd = Some ld -> m.(m_blocks) !! bs = Some ls ->
  0 <= od -> 0 <= os -> 0 <= n < 2 ^ 63 -> od + n <= zlen ld -> os + n <= zlen ls ->
  internal_memmove m (Ptr bd od) (Ptr bs os) n = Ok (upd m bd (splice ld od (slice ls os n))).
Proof. apply memmove_ok. Qed.

Lemma memmove_overlap_witness :
  internal_memmove (upd mem_empty 0 (Some <$> [1; 2; 3; 4; 5])) (Ptr 0 1) (Ptr 0 0) 4 =
  Ok (upd mem_empty 0 (Some <$> [1; 1; 2; 3; 4])).
Proof.
  rewrite (memmove_overlap _ 0 1 0 0 4 (Some <$> [1; 2; 3; 4; 5]) (Some <$> [1; 2; 3; 4; 5]));
    [reflexivity|reflexivity|reflexivity|lia|lia|lia|vm_compute; discriminate|vm_compute; discriminate].
Defined.

(** [internal_strlcat] appends within its bound.  With a destination of
    [maxlen] bytes that holds a string shorter than that, the destination ends
    up holding the longest prefix of the concatenation that fits, NUL
    terminated, nothing past [maxlen] is touched, and the length of the whole
    concatenation is returned, so the caller can see the truncation. *)
Theorem strlcat_bounded (m : mem) (bd od bs os maxlen : Z) (ld : list cell) (t0 t : list Z) :
  m.(m_blocks) !! bd = Some ld -> is_cstr t0 (cells m (Ptr bd od)) ->
  is_cstr t (cells m (Ptr bs os)) -> bd <> bs ->
  zlen t0 < maxlen < 2 ^ 62 -> zlen t < 2 ^ 62 -> od + maxlen <= zlen ld ->
  internal_strlcat m (Ptr bd od) (Ptr bs os) maxlen =
  Ok (zlen t0 + zlen t, upd m bd (splice ld od (Some <$> (ztake (maxlen - 1) (t0 ++ t) ++ [0])))).
Proof.
  intros Hd H0 Ht Hne Hmax Hlt Hdl. pose proof (zlen_nonneg t0). pose proof (zlen_nonneg t).
  destruct (cstr_block _ _ _ _ H0) as (l' & Hl' & Hod & _ & Hsl). rewrite Hd in Hl'. injection Hl' as <-.
  unfold internal_strlcat.
  rewrite (strlen_ok _ _ t), bind_ok, (strnlen_ok _ _ t0), bind_ok by (done || lia).
  rewrite Z.min_r, (proj2 (Z.eqb_neq _ _)) by lia. unfold padd. cbn [blk ofs].
  replace (od + (maxlen - 1)) with (od + zlen t0 + (maxlen - zlen t0) - 1) by lia.
  rewrite (move_terminated _ _ _ _ _ ld) by (done || lia). rewrite bind_ok.
  unfold u64. rewrite wrap_small by lia. do 3 f_equal.
  assert (Hx : slice ld od (zlen t0) = Some <$> t0).
  { rewrite Hsl, ztake_snoc_short, ztake_all by lia. done. }
  rewrite <- (splice_slice_same ld od (zlen t0)) at 1 by lia. rewrite Hx.
  assert (Hz : zlen (Some <$> t0) = zlen t0) by (unfold zlen; by rewrite length_fmap).
  rewrite <- Hz at 1. rewrite splice_app, <- fmap_app, app_assoc; [|lia|].
  - do 3 f_equal. unfold ztake, zlen in *. rewrite take_app_ge by lia. do 3 f_equal. lia.
  - unfold ztake, zlen in *. rewrite !length_fmap, length_app, length_take. cbn [length]. lia.
Qed.

Lemma strlcat_bounded_witness :
  let ld := Some <$> (str "ab" ++ [0; 7; 9]) in
  let m := upd (upd mem_empty 0 ld) 1 (Some <$> (str "cdef" ++ [0])) in
  internal_strlcat m (Ptr 0 0) (Ptr 1 0) 4 = Ok (6, upd m 0 (Some <$> (str "abc" ++ [0; 9]))).
Proof.
  intros ld m.
  rewrite (strlcat_bounded m 0 0 1 0 4 ld (str "ab") (str "cdef")); try reflexivity; try lia.
  - split; [repeat apply Forall_cons_2; try apply Forall_nil_2; vm_compute; intuition discriminate|].
    exists [Some 7; Some 9]. reflexivity.
  - split; [repeat apply Forall_cons_2; try apply Forall_nil_2; vm_compute; intuition discriminate|].
    exists []. reflexivity.
  - split; vm_compute; reflexivity.
  - vm_compute. discriminate.
Defined.

(** [internal_strlcpy]: the same contract for a plain copy. *)
Lemma strlcpy_ok m bd od bs os ld t maxlen :
  m.(m_blocks) !! bd = Some ld -> is_cstr t (cells m (Ptr bs os)) -> bd <> bs ->
  0 < maxlen < 2 ^ 62 -> zlen t < 2 ^ 62 -> 0 <= od -> od + maxlen <= zlen ld ->
  internal_strlcpy m (Ptr bd od) (Ptr bs os) maxlen =
  Ok (zlen t, upd m bd (splice ld od (Some <$> (ztake (maxlen - 1) t ++ [0])))).
Proof.
  intros Hd Ht Hne Hmax Hlt Hod Hdl. unfold internal_strlcpy.
  rewrite (strlen_ok _ _ t), bind_ok by done. rewrite (proj2 (Z.eqb_neq maxlen 0)) by lia. cbn [negb].
  unfold padd. cbn [blk ofs]. replace (od + (maxlen - 1)) with (od + maxlen - 1) by lia.
  by rewrite (move_terminated _ _ _ _ _ ld) by (done || lia).
Qed.

(** [internal_simple_strtoll] saturates.  On leading spaces, an optional
    sign and decimal digits followed by a non-digit, the result is the number
    clamped to the range of [s64], and [*endptr] is the first character after
    the digits; no intermediate computation wraps around. *)
Theorem strtoll_saturates (m : mem) (p : ptr) (sp sg ds : list Z) (sgn c : Z) (rest : list cell) :
  cells m p = (Some <$> sp) ++ (Some <$> sg) ++ (Some <$> ds) ++ Some c :: rest ->
  Forall (fun c => IsSpace c = true) sp -> sign_text sgn sg ->
  ds <> [] -> Forall (fun c => IsDigit c = true) ds -> byte_ok c -> IsDigit c = false ->
  internal_simple_strtoll m p 10 =
  Ok (clamp INT64_MIN INT64_MAX (sgn * dec ds), zlen (sp ++ sg ++ ds)).
Proof. apply strtoll_ok. Qed.

Lemma strtoll_saturates_witness :
  internal_simple_strtoll
    (upd mem_empty 0 (Some <$> (str " -99999999999999999999" ++ [0]))) (Ptr 0 0) 10 =
  Ok (- 2 ^ 63, 22).
Proof.
  rewrite (strtoll_saturates _ _ [32] [45] (str "99999999999999999999") (-1) 0 []);
    [vm_compute; reflexivity|reflexivity| |apply sign_minus|discriminate| | |reflexivity].
  - apply Forall_cons_2; [reflexivity|apply Forall_nil_2].
  - cbn [str]. repeat apply Forall_cons_2; try apply Forall_nil_2; reflexivity.
  - unfold byte_ok. lia.
Defined.

(** [internal_strstr] returns the first occurrence of the needle, or null
    when there is none, and reads only inside the two strings. *)
Theorem strstr_first (m : mem) (hb ho nb no : Z) (t1 t2 : list Z) :
  is_cstr t1 (cells m (Ptr hb ho)) -> is_cstr t2 (cells m (Ptr nb no)) ->
  exists r, internal_strstr m (Ptr hb ho) (Ptr nb no) = Ok r /\ first_at t1 t2 0 r.
Proof.
  intros H1 H2. destruct (cstr_block _ _ _ _ H1) as (_ & _ & Hho & _ & _).
  unfold internal_strstr. rewrite (strlen_ok m (Ptr hb ho) t1), bind_ok, (strlen_ok _ _ t2), bind_ok by done.
  destruct (Z.ltb_spec (zlen t1) (zlen t2)) as [Hlt|Hge].
  - exists None. split; [done|]. intros q Hq. lia.
  - apply strstr_loop_ok; (done || lia).
Qed.

Lemma strstr_first_witness :
  let m := upd (upd mem_empty 0 (Some <$> (str "abcabd" ++ [0]))) 1 (Some <$> (str "abd" ++ [0])) in
  exists r, internal_strstr m (Ptr 0 0) (Ptr 1 0) = Ok r /\
    first_at (str "abcabd") (str "abd") 0 r /\ r = Some 3.
Proof.
  intros m.
  destruct (strstr_first m 0 0 1 0 (str "abcabd") (str "abd")) as (r & Hr & Hf).
  - split; [repeat apply Forall_cons_2; try apply Forall_nil_2; vm_compute; intuition discriminate|].
    exists []. reflexivity.
  - split; [repeat apply Forall_cons_2; try apply Forall_nil_2; vm_compute; intuition discriminate|].
    exists []. reflexivity.
  - exists r. split; [exact Hr|]. split; [exact Hf|]. vm_compute in Hr. congruence.
Defined.

(** [mem_is_zero] reads the range byte by byte up to alignment, then word
    by word, then byte by byte; it reads only inside the range and answers
    true exactly when every byte of the range is zero. *)
Theorem mem_is_zero_correct (m : mem) (b o size : Z) (l : list cell) :
  m.(m_blocks) !! b = Some l -> 0 <= o -> 0 <= size <= 2 ^ 40 -> o + size < 2 ^ 63 -> bytes_in l o (o + size) ->
  exists r, mem_is_zero m (Ptr b o) size = Ok r /\ (r = true <-> zero_in l o (o + size)).
Proof. apply mem_is_zero_ok. Qed.

Lemma mem_is_zero_correct_witness :
  let l := Some <$> (1 :: replicate 20 0) in
  exists r, mem_is_zero (upd mem_empty 0 l) (Ptr 0 1) 20 = Ok r /\ (r = true <-> zero_in l 1 (1 + 20)).
Proof.
  intros l. apply (mem_is_zero_correct (upd mem_empty 0 l) 0 1 20 l); [reflexivity|lia|lia|lia|].
  intros k Hk. exists 0. split; [|unfold byte_ok; lia].
  unfold l. rewrite list_lookup_fmap.
  rewrite lookup_cons_ne_0, lookup_replicate_2 by lia. reflexivity.
Defined.

(** [internal_strcmp] is the order of unsigned bytes although it goes through
    signed characters. *)
Lemma strcmp_ok m p q s t :
  is_cstr s (cells m p) -> is_cstr t (cells m q) -> internal_strcmp m p q = Ok (lex s t).
Proof.
  intros [Hs [r1 E1]] [Ht [r2 E2]]. unfold internal_strcmp. rewrite E1, E2. by apply strcmp_loop_lex.
Qed.
