(* ===== verification/Printf.v ===== *)
(** * The runtime's printf

    Models [src/ufo-rt/lib/sanitizer_common/sanitizer_printf.cc] up to
    [internal_snprintf] and [InternalScopedString::append]: the formatted
    output with which the runtime makes its file names and reports.  The
    output position is a pointer that stops at [buff_end]; a failed
    [RAW_CHECK] or [CHECK] aborts ([EDie]).

    Shown: the buffer always receives the prefix of the complete output that
    fits and a NUL, nothing outside [buff_length] bytes is written, and the
    length of the complete output is returned ([vsnprintf_truncates]); decimal
    output parses back to the number ([decimal_roundtrip]).

    A variadic argument is a 64-bit slot or a string pointer; fetching one of
    the other kind, or one that is not there, is undefined.  [int] lengths are
    not wrapped: outputs are far shorter than 2^31. *)
From Stdlib Require Import Ascii String ZArith Lia.
From stdpp Require Import base numbers list gmap strings.
From S2P Require Import Prelude Memory LibC.

Local Open Scope Z_scope.

Record pstate := PState { ps_mem : mem; ps_buff : ptr }.

Definition AppendChar (st : pstate) (buff_end : ptr) (c : Z) : res (Z * pstate) :=
  if st.(ps_buff).(ofs) <? buff_end.(ofs) then
    m ← store st.(ps_mem) st.(ps_buff) c;
    Ok (1, PState m (padd st.(ps_buff) 1))
  else Ok (1, st).

Definition kMaxLen : Z := 30.

(** The digits of [absolute_value], lowest first; [room] is
    [kMaxLen - pos], so running out of it is the failed check. *)
Fixpoint number_digits (room : nat) (absolute_value base : Z) : res (list Z) :=
  match room with
  | O => Err EDie
  | S room' =>
      let d := absolute_value mod base in
      let rest := absolute_value / base in
      if 0 <? rest then ds ← number_digits room' rest base; Ok (d :: ds)
      else Ok [d]
  end.

(** The first output loop, over [num_buffer[pos], .., num_buffer[0]]; returns
    the digits left from the first non-zero one on. *)
Fixpoint append_leading (st : pstate) (buff_end : ptr) (pad_with_zero : bool)
    (ds : list Z) (result : Z) : res (Z * list Z * pstate) :=
  match ds with
  | [] => Ok (result, [], st)
  | d :: ds' =>
      if d =? 0 then
        let c := if pad_with_zero || (match ds' with [] => true | _ => false end) then 48 else 32 in
        '(n, st) ← AppendChar st buff_end c;
        append_leading st buff_end pad_with_zero ds' (result + n)
      else Ok (result, ds, st)
  end.

Definition digit_char (uppercase : bool) (digit : Z) : Z :=
  if digit <? 10 then 48 + digit else (if uppercase then 65 else 97) + digit - 10.

Fixpoint append_digits (st : pstate) (buff_end : ptr) (uppercase : bool)
    (ds : list Z) (result : Z) : res (Z * pstate) :=
  match ds with
  | [] => Ok (result, st)
  | d :: ds' =>
      '(n, st) ← AppendChar st buff_end (digit_char uppercase d);
      append_digits st buff_end uppercase ds' (result + n)
  end.

Definition RAW_CHECK (b : bool) : res unit := if b then Ok tt else Err EDie.

Definition AppendNumber (st : pstate) (buff_end : ptr) (absolute_value base minimal_num_length : Z)
    (pad_with_zero negative uppercase : bool) : res (Z * pstate) :=
  _ ← RAW_CHECK ((base =? 10) || (base =? 16));
  _ ← RAW_CHECK ((base =? 10) || negb negative);
  _ ← RAW_CHECK (negb (absolute_value =? 0) || negb negative);
  _ ← RAW_CHECK (minimal_num_length <? kMaxLen);
  let minimal_num_length :=
    if negative && negb (minimal_num_length =? 0) then minimal_num_length - 1 else minimal_num_length in
  '(result, st) ← (if negative && pad_with_zero then AppendChar st buff_end 45 else Ok (0, st));
  num_buffer ← number_digits (Z.to_nat kMaxLen) absolute_value base;
  let num_buffer :=
    if zlen num_buffer <? minimal_num_length
    then num_buffer ++ replicate (Z.to_nat (minimal_num_length - zlen num_buffer)) 0
    else num_buffer in
  '(result, ds, st) ← append_leading st buff_end pad_with_zero (rev num_buffer) result;
  '(result, st) ← (if negative && negb pad_with_zero
                   then '(n, st) ← AppendChar st buff_end 45; Ok (result + n, st)
                   else Ok (result, st));
  append_digits st buff_end uppercase ds result.

Definition AppendUnsigned (st : pstate) (buff_end : ptr) (num base minimal_num_length : Z)
    (pad_with_zero uppercase : bool) : res (Z * pstate) :=
  AppendNumber st buff_end num base minimal_num_length pad_with_zero false uppercase.

(** [-num] overflows for [INT64_MIN]. *)
Definition AppendSignedDecimal (st : pstate) (buff_end : ptr) (num minimal_num_length : Z)
    (pad_with_zero : bool) : res (Z * pstate) :=
  let negative := num <? 0 in
  if num =? INT64_MIN then Err EUndef
  else AppendNumber st buff_end (u64 (if negative then - num else num)) 10
         minimal_num_length pad_with_zero negative false.

(** [for (; *s; s++)] with the bound on characters; [fuel] is one more than
    what is left of the string's block. *)
Fixpoint append_chars (fuel : nat) (st : pstate) (buff_end : ptr) (max_chars : Z)
    (s : ptr) (result : Z) : res (Z * pstate) :=
  match fuel with
  | O => Err EOutOfBounds
  | S fuel' =>
      c ← load st.(ps_mem) s;
      if c =? 0 then Ok (result, st)
      else if (0 <=? max_chars) && (max_chars <=? result) then Ok (result, st)
      else
        '(n, st) ← AppendChar st buff_end c;
        append_chars fuel' st buff_end max_chars (padd s 1) (result + n)
  end.

(** the same loop on a string literal *)
Fixpoint append_literal (st : pstate) (buff_end : ptr) (max_chars : Z)
    (s : list Z) (result : Z) : res (Z * pstate) :=
  match s with
  | [] => Ok (result, st)
  | c :: s' =>
      if (0 <=? max_chars) && (max_chars <=? result) then Ok (result, st)
      else
        '(n, st) ← AppendChar st buff_end c;
        append_literal st buff_end max_chars s' (result + n)
  end.

(** [while (width < -result)] *)
Fixpoint append_spaces (n : nat) (st : pstate) (buff_end : ptr) (result : Z) : res (Z * pstate) :=
  match n with
  | O => Ok (result, st)
  | S n' => '(k, st) ← AppendChar st buff_end 32; append_spaces n' st buff_end (result + k)
  end.

Definition AppendString (st : pstate) (buff_end : ptr) (width max_chars : Z)
    (s : option ptr) : res (Z * pstate) :=
  '(result, st) ←
    (match s with
     | Some p => append_chars (S (length (cells st.(ps_mem) p))) st buff_end max_chars p 0
     | None => append_literal st buff_end max_chars (str "<null>") 0
     end);
  append_spaces (Z.to_nat (- width - result)) st buff_end result.

Definition SANITIZER_POINTER_FORMAT_LENGTH : Z := 12.

Definition AppendPointer (st : pstate) (buff_end : ptr) (ptr_value : Z) : res (Z * pstate) :=
  '(r1, st) ← ('(result, st) ← append_literal st buff_end (-1) (str "0x") 0;
               append_spaces 0 st buff_end result);
  '(r2, st) ← AppendUnsigned st buff_end ptr_value 16 SANITIZER_POINTER_FORMAT_LENGTH true false;
  Ok (r1 + r2, st).

(** ** Formats *)

Inductive va : Type :=
| VInt (z : Z)
| VStr (s : option ptr).

Definition va_int (args : list va) : res (Z * list va) :=
  match args with
  | VInt z :: args' => Ok (z, args')
  | _ => Err EUndef
  end.

Definition va_str (args : list va) : res (option ptr * list va) :=
  match args with
  | VStr s :: args' => Ok (s, args')
  | _ => Err EUndef
  end.

(** [*cur] *)
Definition peek (cur : list cell) : res Z :=
  match cur with
  | [] => Err EOutOfBounds
  | None :: _ => Err EUndef
  | Some c :: _ => Ok (schar c)
  end.

Definition adv (n : nat) (cur : list cell) : list cell := drop n cur.

Fixpoint parse_width (cur : list cell) (width : Z) : res (Z * list cell) :=
  match cur with
  | [] => Err EOutOfBounds
  | None :: _ => Err EUndef
  | Some c :: cur' =>
      if IsDigit (schar c) then
        let width := width * 10 + schar c - 48 in
        if width <? 2 ^ 31 then parse_width cur' width else Err EUndef
      else Ok (width, cur)
  end.

(** [cur[0] == a && cur[1] == b] *)
Definition two_chars (cur : list cell) (a b : Z) : res bool :=
  c ← peek cur;
  if c =? a then d ← peek (adv 1 cur); Ok (d =? b) else Ok false.

(** One conversion after its [%], with the arguments it fetched: the cases of
    the [switch]. *)
Inductive directive : Type :=
| DSigned (dval width : Z) (pad_with_zero : bool)
| DUnsigned (uval base width : Z) (pad_with_zero uppercase : bool)
| DPointer (v : Z)
| DString (width precision : Z) (s : option ptr)
| DChar (c : Z)
| DPercent.

Definition parse_directive (cur : list cell) (args : list va) : res (directive * list cell * list va) :=
  c ← peek cur;
  let left_justified := c =? 45 in
  let cur := if left_justified then adv 1 cur else cur in
  c ← peek cur;
  let have_width := IsDigit c in
  let pad_with_zero := c =? 48 in
  '(width, cur) ← (if have_width then parse_width cur 0 else Ok (0, cur));
  have_precision ← two_chars cur 46 42;
  '(precision, cur, args) ←
    (if (have_precision : bool) then '(p, args) ← va_int args; Ok (s32 p, adv 2 cur, args)
     else Ok (-1, cur, args));
  c ← peek cur;
  let have_z := c =? 122 in
  let cur := if have_z then adv 1 cur else cur in
  have_ll ← (if have_z then Ok false else two_chars cur 108 108);
  let cur := if (have_ll : bool) then adv 2 cur else cur in
  let have_length := have_z || have_ll in
  let have_flags := have_width || have_length in
  c ← peek cur;
  if ((0 <=? precision) || left_justified) && negb (c =? 115) then Err EDie
  else if c =? 100 then
    '(v, args) ← va_int args;
    Ok (DSigned (if have_length then s64 v else s32 v) width pad_with_zero, adv 1 cur, args)
  else if (c =? 117) || (c =? 120) || (c =? 88) then
    '(v, args) ← va_int args;
    Ok (DUnsigned (if have_length then u64 v else u32 v) (if c =? 117 then 10 else 16)
          width pad_with_zero (c =? 88), adv 1 cur, args)
  else if c =? 112 then
    if have_flags then Err EDie
    else '(v, args) ← va_int args; Ok (DPointer (u64 v), adv 1 cur, args)
  else if c =? 115 then
    if have_length then Err EDie
    else if have_width && negb left_justified then Err EDie
    else '(s, args) ← va_str args;
         Ok (DString (if left_justified then - width else width) precision s, adv 1 cur, args)
  else if c =? 99 then
    if have_flags then Err EDie
    else '(v, args) ← va_int args; Ok (DChar (s32 v), adv 1 cur, args)
  else if c =? 37 then
    if have_flags then Err EDie else Ok (DPercent, adv 1 cur, args)
  else Err EDie.

Definition do_directive (st : pstate) (buff_end : ptr) (d : directive) : res (Z * pstate) :=
  match d with
  | DSigned dval width pad => AppendSignedDecimal st buff_end dval (u8 width) pad
  | DUnsigned uval base width pad upper => AppendUnsigned st buff_end uval base (u8 width) pad upper
  | DPointer v => AppendPointer st buff_end v
  | DString width precision s => AppendString st buff_end width precision s
  | DChar c => AppendChar st buff_end c
  | DPercent => AppendChar st buff_end 37
  end.

(** The [for] loop; every turn consumes a character of the format. *)
Fixpoint format_loop (fuel : nat) (st : pstate) (buff_end : ptr) (cur : list cell)
    (args : list va) (result : Z) : res (Z * pstate) :=
  match fuel with
  | O => Err EOutOfBounds
  | S fuel' =>
      c ← peek cur;
      if c =? 0 then Ok (result, st)
      else if negb (c =? 37) then
        '(n, st) ← AppendChar st buff_end c;
        format_loop fuel' st buff_end (adv 1 cur) args (result + n)
      else
        '(d, cur, args) ← parse_directive (adv 1 cur) args;
        '(n, st) ← do_directive st buff_end d;
        format_loop fuel' st buff_end cur args (result + n)
  end.

(** The format is a literal of the caller: a block of its own. *)
Definition VSNPrintf (m : mem) (buff : ptr) (buff_length : Z) (format : list cell)
    (args : list va) : res (Z * mem) :=
  _ ← RAW_CHECK (0 <? buff_length);
  let buff_end := padd buff (buff_length - 1) in
  '(result, st) ← format_loop (S (length format)) (PState m buff) buff_end format args 0;
  _ ← RAW_CHECK (st.(ps_buff).(ofs) <=? buff_end.(ofs));
  '(_, st) ← AppendChar st (padd buff_end 1) 0;
  Ok (result, st.(ps_mem)).

Definition internal_snprintf (m : mem) (buffer : ptr) (length : Z) (format : list cell)
    (args : list va) : res (Z * mem) :=
  VSNPrintf m buffer (s32 length) format args.

(** [InternalScopedString::append]: [size] is the buffer's size, [length_]
    the length of the text in it. *)
Definition scoped_append (m : mem) (data : ptr) (size length_ : Z) (format : list cell)
    (args : list va) : res (Z * mem) :=
  _ ← RAW_CHECK (length_ <? size);
  '(_, m) ← VSNPrintf m (padd data length_) (s32 (size - length_)) format args;
  n ← internal_strlen m (padd data length_);
  let length_ := length_ + n in
  _ ← RAW_CHECK (length_ <? size);
  Ok (length_, m).

(** a string literal as the cells of a format *)
Definition lit (s : string) : list cell := Some <$> (str s ++ [0]).

(** ** The complete output

    What a format produces when there is always room: the text, without the
    buffer. *)

Fixpoint leading_text (pad_with_zero : bool) (ds : list Z) : list Z * list Z :=
  match ds with
  | [] => ([], [])
  | d :: ds' =>
      if d =? 0 then
        let '(t, r) := leading_text pad_with_zero ds' in
        ((if pad_with_zero || (match ds' with [] => true | _ => false end) then 48 else 32) :: t, r)
      else ([], ds)
  end.

Definition number_text (absolute_value base minimal_num_length : Z)
    (pad_with_zero negative uppercase : bool) : res (list Z) :=
  _ ← RAW_CHECK ((base =? 10) || (base =? 16));
  _ ← RAW_CHECK ((base =? 10) || negb negative);
  _ ← RAW_CHECK (negb (absolute_value =? 0) || negb negative);
  _ ← RAW_CHECK (minimal_num_length <? kMaxLen);
  let w := if negative && negb (minimal_num_length =? 0) then minimal_num_length - 1 else minimal_num_length in
  ds ← number_digits (Z.to_nat kMaxLen) absolute_value base;
  let '(t, r) := leading_text pad_with_zero (rev (ds ++ replicate (Z.to_nat (w - zlen ds)) 0)) in
  let sign := if (negative : bool) then [45] else [] in
  Ok ((if pad_with_zero then sign ++ t else t ++ sign) ++ (digit_char uppercase <$> r)).

Fixpoint chars_text (fuel : nat) (m : mem) (max_chars : Z) (s : ptr) (result : Z) : res (list Z) :=
  match fuel with
  | O => Err EOutOfBounds
  | S fuel' =>
      c ← load m s;
      if c =? 0 then Ok []
      else if (0 <=? max_chars) && (max_chars <=? result) then Ok []
      else t ← chars_text fuel' m max_chars (padd s 1) (result + 1); Ok (u8 c :: t)
  end.

Definition string_text (m : mem) (width max_chars : Z) (s : option ptr) : res (list Z) :=
  t ← (match s with
       | Some p => chars_text (S (length (cells m p))) m max_chars p 0
       | None => Ok (if 0 <=? max_chars then ztake max_chars (str "<null>") else str "<null>")
       end);
  Ok (t ++ replicate (Z.to_nat (- width - zlen t)) 32).

Definition directive_text (m : mem) (d : directive) : res (list Z) :=
  match d with
  | DSigned dval width pad =>
      if dval =? INT64_MIN then Err EUndef
      else number_text (u64 (Z.abs dval)) 10 (u8 width) pad (dval <? 0) false
  | DUnsigned uval base width pad upper => number_text uval base (u8 width) pad false upper
  | DPointer v => t ← number_text v 16 SANITIZER_POINTER_FORMAT_LENGTH true false false; Ok (str "0x" ++ t)
  | DString width precision s => string_text m width precision s
  | DChar c => Ok [u8 c]
  | DPercent => Ok [37]
  end.

Fixpoint render (fuel : nat) (m : mem) (cur : list cell) (args : list va) : res (list Z) :=
  match fuel with
  | O => Err EOutOfBounds
  | S fuel' =>
      c ← peek cur;
      if c =? 0 then Ok []
      else if negb (c =? 37) then t ← render fuel' m (adv 1 cur) args; Ok (u8 c :: t)
      else
        '(d, cur, args) ← parse_directive (adv 1 cur) args;
        t1 ← directive_text m d;
        t2 ← render fuel' m cur args;
        Ok (t1 ++ t2)
  end.

Definition printf_text (m : mem) (format : list cell) (args : list va) : res (list Z) :=
  render (S (length format)) m format args.

Lemma number_digits_range room v base ds :
  number_digits room v base = Ok ds -> 1 < base <= 16 -> Forall (fun d => 0 <= d < 16) ds.
Proof.
  revert v ds. induction room as [|room IH]; intros v ds H Hb; cbn [number_digits] in H; [discriminate|].
  pose proof (Z.mod_pos_bound v base ltac:(lia)).
  destruct (0 <? v / base); inv_ok; subst; apply Forall_cons_2; try lia; [by eapply IH|apply Forall_nil_2].
Qed.

Lemma leading_rest_range pad ds :
  Forall (fun d => 0 <= d < 16) ds -> Forall (fun d => 0 <= d < 16) (leading_text pad ds).2.
Proof.
  induction 1 as [|d ds Hd Hds IH]; cbn [leading_text]; [apply Forall_nil_2|].
  destruct (d =? 0); [|by apply Forall_cons_2]. by destruct (leading_text pad ds).
Qed.

(** ** The buffer holds the part of the output that fits *)

Section Output.
Context (m : mem) (b o e : Z) (l : list cell).
Context (Hb : m.(m_blocks) !! b = Some l) (Ho : 0 <= o <= e) (He : e < zlen l).

(** The state after [cs] was output to the buffer from [o] to before [e]. *)
Definition after (cs : list Z) : pstate :=
  PState (upd m b (splice l o (Some <$> ztake (e - o) cs))) (Ptr b (o + Z.min (e - o) (zlen cs))).

Lemma after_nil : after [] = PState m (Ptr b o).
Proof.
  unfold after, ztake. rewrite take_nil. cbn [fmap list_fmap]. unfold zlen. cbn [length].
  rewrite splice_nil, upd_id by (done || lia). do 2 f_equal. lia.
Qed.

Lemma AppendChar_after cs c : AppendChar (after cs) (Ptr b e) c = Ok (1, after (cs ++ [u8 c])).
Proof.
  unfold AppendChar, after. cbn [ps_buff ps_mem ofs]. pose proof (zlen_nonneg cs).
  rewrite zlen_app. change (zlen [u8 c]) with 1.
  destruct (Z.ltb_spec (o + Z.min (e - o) (zlen cs)) e) as [Hlt|Hge].
  - rewrite Z.min_r, (ztake_all _ cs), ztake_all by (rewrite ?zlen_app; change (zlen [u8 c]) with 1; lia).
    assert (Hz : zlen (Some <$> cs) = zlen cs) by (unfold zlen; by rewrite length_fmap).
    unfold store, store_cell. rewrite (block_of_ok _ (Ptr b (o + zlen cs)) _ (upd_lookup _ _ _)), bind_ok.
    cbn [ofs blk]. rewrite zlen_splice by lia.
    rewrite (proj2 (Z.leb_le _ _)), (proj2 (Z.ltb_lt _ _)) by lia. cbn [andb]. rewrite bind_ok, upd_upd.
    unfold padd. cbn [blk ofs]. do 4 f_equal; [|lia]. rewrite fmap_app. cbn [fmap list_fmap].
    rewrite <- splice_app, Hz by (rewrite ?Hz; change (zlen [Some (u8 c)]) with 1; lia).
    rewrite <- (splice_cons _ []), splice_nil; [done|lia|lia|].
    rewrite zlen_splice by lia. change (zlen []) with 0. lia.
  - rewrite Z.min_l by lia. rewrite (Z.min_l _ (zlen cs + 1)) by lia.
    by rewrite (ztake_app_le (e - o)) by lia.
Qed.

Ltac out := rewrite AppendChar_after, bind_ok; cbv beta iota.

Lemma append_digits_after upper ds cs r :
  Forall (fun d => 0 <= d < 16) ds ->
  append_digits (after cs) (Ptr b e) upper ds r =
  Ok (r + zlen ds, after (cs ++ (digit_char upper <$> ds))).
Proof.
  intros H. revert cs r. induction H as [|d ds Hd _ IH]; intros cs r; cbn [append_digits fmap list_fmap].
  - rewrite app_nil_r. unfold zlen. cbn. do 2 f_equal. lia.
  - out. rewrite IH, <- app_assoc. cbn [app]. unfold zlen. cbn [length].
    assert (u8 (digit_char upper d) = digit_char upper d) as ->.
    { apply wrap_small. unfold digit_char. destruct (Z.ltb_spec d 10), upper; lia. }
    do 2 f_equal. lia.
Qed.

Lemma append_leading_after pad ds cs r :
  append_leading (after cs) (Ptr b e) pad ds r =
  (let '(t, rest) := leading_text pad ds in Ok (r + zlen t, rest, after (cs ++ t))).
Proof.
  revert cs r. induction ds as [|d ds IH]; intros cs r; cbn [append_leading leading_text].
  - rewrite app_nil_r. unfold zlen. cbn. do 3 f_equal. lia.
  - destruct (d =? 0).
    + out. rewrite IH. destruct (leading_text pad ds) as [t rest]. rewrite <- app_assoc.
      unfold zlen. cbn [app length]. do 3 f_equal; [lia|].
      f_equal. f_equal. f_equal. by case_match.
    + rewrite app_nil_r. unfold zlen. cbn. do 3 f_equal. lia.
Qed.

Lemma append_spaces_after n cs r :
  append_spaces n (after cs) (Ptr b e) r = Ok (r + Z.of_nat n, after (cs ++ replicate n 32)).
Proof.
  revert cs r. induction n as [|n IH]; intros cs r; cbn [append_spaces replicate].
  - rewrite app_nil_r. do 2 f_equal. lia.
  - out. rewrite IH, <- app_assoc. change (u8 32) with 32. cbn [app]. do 2 f_equal. lia.
Qed.

(** [f] outputs the text [t], whatever was output before. *)
Definition outputs (f : pstate -> res (Z * pstate)) (t : res (list Z)) : Prop :=
  forall cs, f (after cs) = (t' ← t; Ok (zlen t', after (cs ++ t'))).

Lemma RAW_CHECK_bind {A} c (k : unit -> res A) : (u ← RAW_CHECK c; k u) = if c then k tt else Err EDie.
Proof. by destruct c. Qed.

Lemma AppendNumber_outputs v base minlen pad neg upper :
  outputs (fun st => AppendNumber st (Ptr b e) v base minlen pad neg upper)
          (number_text v base minlen pad neg upper).
Proof.
  intros cs. unfold AppendNumber, number_text. rewrite !RAW_CHECK_bind.
  destruct ((base =? 10) || (base =? 16)) eqn:Hbase; [|done].
  destruct ((base =? 10) || negb neg); [|done].
  destruct (negb (v =? 0) || negb neg); [|done].
  destruct (minlen <? kMaxLen); [|done].
  set (w := if neg && negb (minlen =? 0) then minlen - 1 else minlen).
  assert (Hbase' : 1 < base <= 16).
  { apply orb_true_iff in Hbase as [->%Z.eqb_eq| ->%Z.eqb_eq]; lia. }
  destruct (number_digits (Z.to_nat kMaxLen) v base) as [ds|er] eqn:Hds.
  2: { destruct neg, pad; cbn [andb]; rewrite ?AppendChar_after; done. }
  rewrite bind_ok.
  assert (Hpad : (if zlen ds <? w then ds ++ replicate (Z.to_nat (w - zlen ds)) 0 else ds) =
                 ds ++ replicate (Z.to_nat (w - zlen ds)) 0).
  { destruct (Z.ltb_spec (zlen ds) w); [done|].
    rewrite (Z2Nat.nonpos (w - zlen ds)) by lia. cbn. by rewrite app_nil_r. }
  set (all := rev (ds ++ replicate (Z.to_nat (w - zlen ds)) 0)) in *.
  assert (Hall : Forall (fun d => 0 <= d < 16) all).
  { unfold all. apply Forall_rev. apply Forall_app. split; [by eapply number_digits_range|].
    apply Forall_replicate. lia. }
  pose proof (leading_rest_range pad all Hall) as Hr.
  assert (H1 : (if neg && pad then AppendChar (after cs) (Ptr b e) 45 else Ok (0, after cs)) =
    Ok (zlen (if neg && pad then [45] else []), after (cs ++ (if neg && pad then [45] else [])))).
  { destruct (neg && pad); [apply AppendChar_after|by rewrite app_nil_r]. }
  rewrite H1, bind_ok. cbv beta iota. rewrite bind_ok, Hpad, append_leading_after. fold all.
  destruct (leading_text pad all) as [t r]. cbn [snd] in Hr. rewrite bind_ok. cbv beta iota.
  assert (H2 : forall cs' n, (if neg && negb pad then '(k, st) ← AppendChar (after cs') (Ptr b e) 45; Ok (n + k, st)
      else Ok (n, after cs')) =
    Ok (n + zlen (if neg && negb pad then [45] else []), after (cs' ++ (if neg && negb pad then [45] else [])))).
  { intros cs' n. destruct (neg && negb pad); [by rewrite AppendChar_after|].
    rewrite app_nil_r. unfold zlen. cbn. do 2 f_equal. lia. }
  rewrite H2, bind_ok. cbv beta iota. rewrite append_digits_after by done.
  rewrite bind_ok, !zlen_app. unfold zlen. rewrite length_fmap.
  destruct neg, pad; cbn [andb negb length app]; rewrite ?length_app, <- ?app_assoc, ?app_nil_r; cbn [length app];
    do 2 f_equal; lia.
Qed.

Lemma load_after cs p : p.(blk) <> b -> load (after cs).(ps_mem) p = load m p.
Proof.
  intros Hp. unfold load, load_cell, block_of, after. cbn [ps_mem].
  by rewrite upd_lookup_ne by done.
Qed.

Lemma cells_after cs p : p.(blk) <> b -> cells (after cs).(ps_mem) p = cells m p.
Proof. intros Hp. unfold cells, after. cbn [ps_mem]. by rewrite upd_lookup_ne by done. Qed.

Lemma append_chars_after fuel mx p r cs :
  p.(blk) <> b ->
  append_chars fuel (after cs) (Ptr b e) mx p r =
  (t ← chars_text fuel m mx p r; Ok (r + zlen t, after (cs ++ t))).
Proof.
  revert p r cs. induction fuel as [|fuel IH]; intros p r cs Hp; cbn [append_chars chars_text]; [done|].
  rewrite load_after by done. destruct (load m p) as [c|er]; [|done]. rewrite !bind_ok.
  assert (Hnil : Ok (r, after cs) = (t ← Ok []; Ok (r + zlen t, after (cs ++ t)))).
  { rewrite bind_ok, app_nil_r. unfold zlen. cbn. do 2 f_equal. lia. }
  destruct (c =? 0); [done|]. destruct ((0 <=? mx) && (mx <=? r)); [done|].
  out. rewrite IH by done. destruct (chars_text fuel m mx (padd p 1) (r + 1)) as [t|er]; [|done].
  rewrite !bind_ok, <- app_assoc. unfold zlen. cbn [app length]. do 2 f_equal. lia.
Qed.

Lemma append_literal_after mx s r cs :
  Forall byte_ok s ->
  append_literal (after cs) (Ptr b e) mx s r =
  (let t := if 0 <=? mx then ztake (mx - r) s else s in Ok (r + zlen t, after (cs ++ t))).
Proof.
  intros H. revert r cs. induction H as [|c s Hc _ IH]; intros r cs; cbn [append_literal].
  - assert ((if 0 <=? mx then ztake (mx - r) [] else []) = @nil Z) as ->.
    { case_match; [|done]. unfold ztake. apply take_nil. }
    cbv zeta. rewrite app_nil_r. unfold zlen. cbn. do 2 f_equal. lia.
  - destruct (Z.leb_spec 0 mx), (Z.leb_spec mx r); cbn [andb]; cbv zeta.
    + unfold ztake. rewrite (Z2Nat.nonpos (mx - r)), take_0, app_nil_r by lia.
      unfold zlen. cbn. do 2 f_equal. lia.
    + out. rewrite IH. cbv zeta. unfold ztake, zlen, u8. rewrite wrap_small, <- app_assoc by done.
      replace (Z.to_nat (mx - r)) with (S (Z.to_nat (mx - (r + 1)))) by lia.
      rewrite firstn_cons. cbn [app length]. do 2 f_equal. lia.
    + out. rewrite IH. cbv zeta. unfold zlen, u8. rewrite wrap_small, <- app_assoc by done.
      cbn [app length]. do 2 f_equal. lia.
    + out. rewrite IH. cbv zeta. unfold zlen, u8. rewrite wrap_small, <- app_assoc by done.
      cbn [app length]. do 2 f_equal. lia.
Qed.

Definition va_out (a : va) : Prop := match a with VStr (Some p) => p.(blk) <> b | _ => True end.

Lemma AppendString_outputs width mx s :
  va_out (VStr s) ->
  outputs (fun st => AppendString st (Ptr b e) width mx s) (string_text m width mx s).
Proof.
  intros Hs cs. unfold AppendString, string_text. destruct s as [p|]; cbn in Hs.
  - rewrite cells_after, append_chars_after by done.
    destruct (chars_text _ m mx p 0) as [t|er]; [|done]. rewrite !bind_ok. cbv beta iota.
    rewrite append_spaces_after, <- app_assoc, zlen_app, Z.add_0_l.
    by rewrite zlen_replicate.
  - rewrite append_literal_after by (cbn [str]; repeat apply Forall_cons_2; try apply Forall_nil_2; done).
    cbv zeta. rewrite Z.sub_0_r, !bind_ok. cbv beta iota.
    rewrite append_spaces_after, <- app_assoc, zlen_app, Z.add_0_l.
    by rewrite zlen_replicate.
Qed.

Lemma AppendPointer_outputs v :
  outputs (fun st => AppendPointer st (Ptr b e) v)
    (t ← number_text v 16 SANITIZER_POINTER_FORMAT_LENGTH true false false; Ok (str "0x" ++ t)).
Proof.
  intros cs. unfold AppendPointer, AppendUnsigned.
  rewrite append_literal_after by (cbn [str]; repeat apply Forall_cons_2; try apply Forall_nil_2; done).
  change (0 <=? -1) with false. cbv zeta iota. rewrite bind_ok. cbv beta iota.
  cbn [append_spaces]. rewrite bind_ok. cbv beta iota. rewrite AppendNumber_outputs.
  destruct (number_text _ _ _ _ _ _) as [t|er]; [|done]. rewrite !bind_ok, <- app_assoc, zlen_app.
  do 2 f_equal.
Qed.

Definition directive_out (d : directive) : Prop :=
  match d with DString _ _ s => va_out (VStr s) | _ => True end.

Lemma do_directive_outputs d :
  directive_out d -> outputs (fun st => do_directive st (Ptr b e) d) (directive_text m d).
Proof.
  destruct d; intros Hd cs; cbn [do_directive directive_text].
  - unfold AppendSignedDecimal. destruct (dval =? INT64_MIN); [done|].
    rewrite AppendNumber_outputs.
    replace (if dval <? 0 then - dval else dval) with (Z.abs dval); [done|].
    destruct (Z.ltb_spec dval 0); lia.
  - apply AppendNumber_outputs.
  - apply AppendPointer_outputs.
  - by apply AppendString_outputs.
  - apply AppendChar_after.
  - apply AppendChar_after.
Qed.

Lemma va_str_out args s args' :
  Forall va_out args -> va_str args = Ok (s, args') -> va_out (VStr s) /\ Forall va_out args'.
Proof. intros H E. destruct H as [|[z|s'] args0 Hs H]; cbn in E; simplify_eq. done. Qed.

Lemma va_int_out args z args' :
  Forall va_out args -> va_int args = Ok (z, args') -> Forall va_out args'.
Proof. intros H E. destruct H as [|[z'|s'] args0 Hs H]; cbn in E; simplify_eq. done. Qed.

(** Takes one bind of [parse_directive] apart. *)
Ltac parse_step :=
  match goal with
  | H : (_ ≫= _) = Ok _ |- _ => apply bind_ok_inv in H as (? & ? & H)
  | H : (let '(_, _) := ?p in _) = Ok _ |- _ => destruct p
  | H : (if ?c then _ else _) = Ok _ |- _ => destruct c
  | H : Ok _ = Ok _ |- _ => injection H as H
  | H : Err _ = Ok _ |- _ => discriminate H
  end; subst.

Lemma parse_directive_out cur args d cur' args' :
  Forall va_out args -> parse_directive cur args = Ok (d, cur', args') ->
  directive_out d /\ Forall va_out args'.
Proof.
  intros Ha H. unfold parse_directive in H. cbv zeta in H.
  do 2 apply bind_ok_inv in H as (? & _ & H).
  apply bind_ok_inv in H as ([width cur0] & _ & H).
  apply bind_ok_inv in H as (hp & _ & H).
  apply bind_ok_inv in H as ([[prec cur1] args1] & Hp & H).
  assert (Ha1 : Forall va_out args1).
  { destruct hp; [|by simplify_eq]. apply bind_ok_inv in Hp as ([v a1] & Hv & Hp). simplify_eq.
    eauto using va_int_out. }
  clear Hp Ha. do 3 apply bind_ok_inv in H as (? & _ & H).
  repeat parse_step; cbn [directive_out]; eauto using va_str_out, va_int_out.
Qed.

Lemma format_loop_after fuel cur args cs r :
  Forall va_out args ->
  format_loop fuel (after cs) (Ptr b e) cur args r =
  (t ← render fuel m cur args; Ok (r + zlen t, after (cs ++ t))).
Proof.
  revert cur args cs r. induction fuel as [|fuel IH]; intros cur args cs r Ha; cbn [format_loop render]; [done|].
  destruct (peek cur) as [c|er]; [|done]. rewrite !bind_ok. destruct (c =? 0).
  - rewrite bind_ok, app_nil_r. unfold zlen. cbn. do 2 f_equal. lia.
  - destruct (negb (c =? 37)).
    + out. rewrite IH by done. destruct (render fuel m (adv 1 cur) args) as [t|er]; [|done].
      rewrite !bind_ok, <- app_assoc. unfold zlen. cbn [app length]. do 2 f_equal. lia.
    + destruct (parse_directive (adv 1 cur) args) as [[[d cur'] args']|er] eqn:Hp; [|done].
      rewrite !bind_ok. cbv beta iota.
      destruct (parse_directive_out _ _ _ _ _ Ha Hp) as [Hd Ha'].
      rewrite (do_directive_outputs d Hd cs). destruct (directive_text m d) as [t1|er]; [|done].
      rewrite !bind_ok. cbv beta iota. rewrite IH by done.
      destruct (render fuel m cur' args') as [t2|er]; [|done].
      rewrite !bind_ok, <- app_assoc, zlen_app. do 2 f_equal. lia.
Qed.
End Output.

Lemma VSNPrintf_ok m b o l n format args :
  m.(m_blocks) !! b = Some l -> 0 <= o -> 0 < n -> o + n <= zlen l -> Forall (va_out b) args ->
  VSNPrintf m (Ptr b o) n format args =
  (t ← printf_text m format args;
   Ok (zlen t, upd m b (splice l o (Some <$> (ztake (n - 1) t ++ [0]))))).
Proof.
  intros Hb Ho Hn Hl Ha. unfold VSNPrintf, printf_text. rewrite RAW_CHECK_bind.
  rewrite (proj2 (Z.ltb_lt _ _)) by done. unfold padd. cbn [blk ofs].
  rewrite <- (after_nil m b o (o + (n - 1)) l Hb) by lia.
  rewrite format_loop_after by (done || lia).
  destruct (render _ m format args) as [t|er]; [|done]. rewrite !bind_ok. cbv beta iota.
  rewrite RAW_CHECK_bind. cbn [app]. pose proof (zlen_nonneg t).
  rewrite (proj2 (Z.leb_le _ _)) by (cbn [ps_buff after ofs]; lia).
  unfold AppendChar, after. cbn [ps_buff ps_mem ofs].
  replace (o + (n - 1) - o) with (n - 1) by lia.
  rewrite (proj2 (Z.ltb_lt _ _)) by lia.
  set (x := Some <$> ztake (n - 1) t).
  assert (Hx : zlen x = Z.min (n - 1) (zlen t)).
  { unfold x. rewrite zlen_fmap. unfold zlen, ztake in *. rewrite length_take. lia. }
  rewrite (store_ok _ _ _ (splice l o x)); [|apply upd_lookup|rewrite zlen_splice; lia|easy].
  rewrite !bind_ok, upd_upd. cbv beta iota. cbn [ps_mem]. rewrite Z.add_0_l. do 3 f_equal.
  rewrite fmap_app. fold x. cbn [fmap list_fmap].
  rewrite <- splice_app by (rewrite ?Hx; change (zlen [Some 0]) with 1; lia).
  rewrite Hx, <- (splice_cons _ []), splice_nil; [done|lia|lia|].
  rewrite zlen_splice by lia. change (zlen []) with 0. lia.
Qed.

(** ** Decimal output *)

(** The number denoted by digits, lowest first. *)
Definition le_num (base : Z) (ds : list Z) : Z := foldr (fun d a => d + base * a) 0 ds.

Lemma le_num_snoc base ds d : le_num base (ds ++ [d]) = le_num base ds + base ^ zlen ds * d.
Proof.
  induction ds as [|x ds IH]; cbn [app le_num foldr].
  - change (zlen []) with 0. rewrite Z.pow_0_r. lia.
  - fold (le_num base (ds ++ [d])). fold (le_num base ds). rewrite IH. unfold zlen. cbn [length].
    rewrite Nat2Z.inj_succ, Z.pow_succ_r by lia. ring.
Qed.

Lemma le_num_nonneg base ds : 0 < base -> Forall (fun d => 0 <= d < base) ds -> 0 <= le_num base ds.
Proof.
  intros Hb. induction 1 as [|d ds Hd _ IH]; cbn [le_num foldr]; [lia|].
  fold (le_num base ds). pose proof (Z.mul_nonneg_nonneg base (le_num base ds)). lia.
Qed.

(** What [number_digits] returns: the digits of the number, without a leading
    zero. *)
Record digits_of (base v : Z) (ds : list Z) : Prop := {
  do_num : le_num base ds = v;
  do_range : Forall (fun d => 0 <= d < base) ds;
  do_top : exists ds' d, ds = ds' ++ [d] /\ (d = 0 -> v = 0 /\ ds' = [])
}.

Lemma number_digits_ok room v base :
  1 < base -> 0 <= v < base ^ Z.of_nat room -> (0 < room)%nat ->
  exists ds, number_digits room v base = Ok ds /\ digits_of base v ds.
Proof.
  intros Hb. revert v. induction room as [|room IH]; intros v Hv Hr; [lia|].
  pose proof (Z.div_mod v base ltac:(lia)) as Hdm. pose proof (Z.mod_pos_bound v base ltac:(lia)) as Hm.
  assert (Hq : 0 <= v / base) by (apply Z.div_pos; lia).
  cbn [number_digits]. destruct (Z.ltb_spec 0 (v / base)) as [Hpos|Hz].
  - rewrite Nat2Z.inj_succ, Z.pow_succ_r in Hv by lia.
    destruct room as [|room]; [rewrite Z.pow_0_r in Hv; nia|].
    destruct (IH (v / base)) as (ds & -> & [Hn Hrg (ds' & d & -> & Htop)]);
      [split; [lia|]; apply Z.div_lt_upper_bound; lia|lia|].
    rewrite bind_ok. eexists. split; [done|]. constructor.
    + cbn [le_num foldr]. fold (le_num base (ds' ++ [d])). rewrite Hn. lia.
    + by apply Forall_cons_2.
    + exists (v mod base :: ds'), d. split; [done|]. intros Hd. apply Htop in Hd as [Hd _]. lia.
  - assert (v / base = 0) as Hq0 by lia. rewrite Hq0, Z.mul_0_r in Hdm.
    eexists. split; [done|]. constructor.
    + cbn [le_num foldr]. lia.
    + apply Forall_cons_2; [lia|apply Forall_nil_2].
    + exists [], (v mod base). split; [done|]. intros Hd. split; [lia|done].
Qed.

(** 64 bits have at most 20 decimal digits: the check on [kMaxLen] holds. *)
Lemma number_digits_64 v :
  0 <= v < 2 ^ 64 -> exists ds, number_digits (Z.to_nat kMaxLen) v 10 = Ok ds /\ digits_of 10 v ds.
Proof.
  intros Hv. apply number_digits_ok; [lia| |unfold kMaxLen; lia].
  replace (Z.of_nat (Z.to_nat kMaxLen)) with 30 by (unfold kMaxLen; lia).
  split; [lia|]. apply (Z.lt_trans _ (2 ^ 64)); [lia|]. reflexivity.
Qed.

Lemma digits_length base v ds k :
  1 < base -> digits_of base v ds -> 0 < k -> v < base ^ k -> zlen ds <= k.
Proof.
  intros Hb [Hn Hr (ds' & d & -> & Htop)] Hk Hv. rewrite zlen_app. change (zlen [d]) with 1.
  apply Forall_app in Hr as [Hr1 Hr2]. apply Forall_cons in Hr2 as [Hd _].
  destruct (decide (d = 0)) as [Hd0|Hd0].
  - destruct (Htop Hd0) as [_ ->]. unfold zlen. cbn. lia.
  - rewrite le_num_snoc in Hn. pose proof (le_num_nonneg base ds' ltac:(lia) Hr1).
    assert (base ^ zlen ds' <= v) by nia.
    assert (Hlt : base ^ zlen ds' < base ^ k) by lia.
    apply Z.pow_lt_mono_r_iff in Hlt; lia.
Qed.

Lemma dec_from_app r a c : dec_from r (a ++ c) = dec_from (dec_from r a) c.
Proof. apply foldl_app. Qed.

Lemma dec_rev ds : Forall (fun d => 0 <= d < 10) ds -> dec (digit_char false <$> rev ds) = le_num 10 ds.
Proof.
  induction 1 as [|d ds Hd _ IH]; [done|]. cbn [rev]. rewrite fmap_app. unfold dec in *.
  rewrite dec_from_app, IH. cbn [fmap list_fmap dec_from foldl le_num foldr].
  unfold digit_char. rewrite (proj2 (Z.ltb_lt _ _)) by lia. fold (le_num 10 ds). lia.
Qed.

Definition sign_chars (v : Z) : list Z := if v <? 0 then [45] else [].

(** [%d] with no width: a minus sign for a negative number, then decimal
    digits whose value is the absolute value, as few as possible. *)
Lemma decimal_text v :
  - 2 ^ 63 < v < 2 ^ 63 ->
  exists t, number_text (u64 (Z.abs v)) 10 0 false (v <? 0) false = Ok (sign_chars v ++ t) /\
    t <> [] /\ Forall (fun c => IsDigit c = true) t /\ dec t = Z.abs v /\
    forall k, 0 < k -> Z.abs v < 10 ^ k -> zlen t <= k.
Proof.
  intros Hv. unfold u64. rewrite wrap_small by lia.
  destruct (number_digits_64 (Z.abs v)) as (ds & Hds & Hdo); [lia|].
  pose proof Hdo as [Hn Hr (ds' & d & Eds & Htop)]. exists (digit_char false <$> rev ds).
  assert (Hbody : number_text (Z.abs v) 10 0 false (v <? 0) false = Ok (sign_chars v ++ (digit_char false <$> rev ds))).
  { unfold number_text. rewrite !RAW_CHECK_bind. cbn [Z.eqb Pos.eqb orb].
    assert (negb (Z.abs v =? 0) || negb (v <? 0) = true) as ->.
    { destruct (Z.ltb_spec v 0); [|by rewrite orb_true_r]. rewrite (proj2 (Z.eqb_neq _ _)) by lia. done. }
    change (0 <? kMaxLen) with true. cbv iota. rewrite Hds, bind_ok. rewrite andb_false_r.
    assert (Z.to_nat (0 - zlen ds) = 0%nat) as -> by (pose proof (zlen_nonneg ds); lia).
    cbn [replicate]. rewrite app_nil_r, Eds, rev_app_distr. cbn [rev app leading_text].
    unfold sign_chars. destruct (Z.eqb_spec d 0) as [Hd0|Hd0]; [|done].
    destruct (Htop Hd0) as [Hv0 ->]. subst d. cbn [rev leading_text orb].
    replace v with 0 by lia. done. }
  split; [done|]. split; [rewrite Eds, rev_app_distr; done|].
  split; [|split].
  - apply Forall_fmap, Forall_rev. eapply Forall_impl; [exact Hr|]. intros x Hx. cbv beta in Hx.
    change (IsDigit (digit_char false x) = true).
    unfold digit_char. rewrite (proj2 (Z.ltb_lt x 10)) by lia. apply IsDigit_iff. lia.
  - by rewrite dec_rev.
  - intros k Hk Hvk. rewrite zlen_fmap. unfold zlen. rewrite length_rev. by apply (digits_length 10 (Z.abs v)).
Qed.

Lemma directive_decimal m v :
  - 2 ^ 63 < v < 2 ^ 63 ->
  directive_text m (DSigned v 0 false) = number_text (u64 (Z.abs v)) 10 0 false (v <? 0) false.
Proof.
  intros Hv. cbn [directive_text]. rewrite (proj2 (Z.eqb_neq v INT64_MIN)) by (unfold INT64_MIN; lia). done.
Qed.

(** The two formats of file and directory names, [dir] being a string. *)
Lemma chars_text_cstr t rest m p r fuel :
  cells m p = (Some <$> t) ++ Some 0 :: rest -> 0 <= p.(ofs) ->
  Forall (fun c => byte_ok c /\ c <> 0) t -> (length t < fuel)%nat ->
  chars_text fuel m (-1) p r = Ok t.
Proof.
  intros Hc Ho Ht. revert p r fuel Hc Ho. induction Ht as [|c t [Hok Hne] _ IH]; intros p r fuel Hc Ho Hf;
    (destruct fuel as [|fuel]; [cbn in Hf; lia|]); cbn [chars_text];
    unfold cells in Hc; destruct p as [b o]; cbn [blk ofs] in *;
    (destruct (m_blocks m !! b) as [l|] eqn:Hb; [|by apply app_cons_not_nil in Hc || discriminate Hc]);
    rewrite (proj2 (Z.ltb_ge _ _)) in Hc by lia; unfold zdrop in Hc;
    pose proof (f_equal (.!! 0%nat) Hc) as H0; rewrite lookup_drop, Nat.add_0_r in H0; cbn in H0;
    rewrite (load_ok _ (Ptr b o) l _ Hb Ho H0), bind_ok.
  - done.
  - rewrite (proj2 (Z.eqb_neq _ _)) by done. change (0 <=? -1) with false. cbn [andb].
    rewrite IH; [rewrite bind_ok; unfold u8; by rewrite wrap_small| |cbn; lia|cbn in Hf; lia].
    unfold cells, padd. cbn [blk ofs]. rewrite Hb, (proj2 (Z.ltb_ge _ _)) by lia. unfold zdrop.
    replace (Z.to_nat (o + 1)) with (Z.to_nat o + 1)%nat by lia. by rewrite <- drop_drop, Hc.
Qed.

Lemma string_text_cstr t m p :
  is_cstr t (cells m p) -> string_text m 0 (-1) (Some p) = Ok t.
Proof.
  intros Hs. unfold string_text. destruct p as [b o].
  destruct (cstr_block _ _ _ _ Hs) as (l & _ & Ho & _ & _). destruct Hs as [Ht [rest Hc]].
  rewrite (chars_text_cstr t rest) by (done || (rewrite Hc, length_app, length_fmap; cbn; lia)).
  rewrite bind_ok, Z2Nat.nonpos by (pose proof (zlen_nonneg t); lia). by rewrite app_nil_r.
Qed.

(** ** Theorems *)

(** Truncation.  For a buffer of [n] bytes and arguments outside it,
    [VSNPrintf] writes exactly the longest prefix of the complete output that
    fits in [n - 1] bytes, then a NUL, and nothing else; it returns the length
    of the complete output; and it fails only where producing that output
    fails (an unsupported format, an unterminated argument string). *)
Theorem vsnprintf_truncates (m : mem) (b o n : Z) (l format : list cell) (args : list va) :
  m.(m_blocks) !! b = Some l -> 0 <= o -> 0 < n -> o + n <= zlen l -> Forall (va_out b) args ->
  VSNPrintf m (Ptr b o) n format args =
  (t ← printf_text m format args;
   Ok (zlen t, upd m b (splice l o (Some <$> (ztake (n - 1) t ++ [0]))))).
Proof. apply VSNPrintf_ok. Qed.

Lemma vsnprintf_truncates_witness :
  let m := upd mem_empty 0 (replicate 8 None) in
  VSNPrintf m (Ptr 0 1) 5 (lit "%d-%03u") [VInt (-17); VInt 5] =
  Ok (7, upd m 0 (None :: (Some <$> (str "-17-" ++ [0])) ++ [None; None])).
Proof.
  intros m.
  rewrite (vsnprintf_truncates m 0 1 5 (replicate 8 None) (lit "%d-%03u") [VInt (-17); VInt 5]);
    [vm_compute; reflexivity|reflexivity|lia|lia|vm_compute; discriminate|].
  apply Forall_cons_2; [exact I|]. apply Forall_cons_2; [exact I|]. apply Forall_nil_2.
Defined.

(** Printing and parsing are inverse.  A 64-bit number printed with [%lld]
    into a buffer of 21 bytes is read back by [internal_simple_strtoll], which
    stops at the terminator ([INT64_MIN] apart, whose negation overflows). *)
Theorem decimal_roundtrip (m : mem) (b o : Z) (l : list cell) (v : Z) :
  m.(m_blocks) !! b = Some l -> 0 <= o -> o + 21 <= zlen l -> - 2 ^ 63 < v < 2 ^ 63 ->
  exists n m', internal_snprintf m (Ptr b o) 21 (lit "%lld") [VInt v] = Ok (n, m') /\
    internal_simple_strtoll m' (Ptr b o) 10 = Ok (v, n).
Proof.
  intros Hb Ho Hl Hv. destruct (decimal_text v Hv) as (t & Ht & Hne & Hdig & Hdec & Hlen).
  assert (Hlen' : zlen t <= 19) by (apply Hlen; lia).
  assert (Hpt : printf_text m (lit "%lld") [VInt v] = Ok (sign_chars v ++ t)).
  { change (printf_text m (lit "%lld") [VInt v]) with
      (t1 ← directive_text m (DSigned (s64 v) 0 false); t2 ← Ok (@nil Z); Ok (t1 ++ t2)).
    unfold s64. rewrite swrap_small by (change (64 - 1) with 63; lia).
    rewrite directive_decimal, Ht by done. rewrite !bind_ok. by rewrite app_nil_r. }
  unfold internal_snprintf. change (s32 21) with 21.
  rewrite (VSNPrintf_ok _ _ _ l), Hpt, bind_ok; [|done|lia|lia|lia|repeat constructor].
  assert (Hs : zlen (sign_chars v) <= 1) by (unfold sign_chars; case_match; vm_compute; congruence).
  eexists _, _. split; [done|].
  rewrite (ztake_all (21 - 1)) by (rewrite zlen_app; lia).
  set (x := Some <$> (sign_chars v ++ t) ++ [0]).
  assert (Hx : zlen x = zlen (sign_chars v) + zlen t + 1).
  { unfold x. rewrite zlen_fmap, !zlen_app. done. }
  pose proof (zlen_nonneg t). pose proof (zlen_nonneg (sign_chars v)).
  rewrite (strtoll_ok _ _ [] (if v <? 0 then -1 else 1) (sign_chars v) t 0
             (zdrop (o + zlen x) l)); [| |done| |done|done|easy|done].
  - rewrite Hdec. cbn [app]. do 2 f_equal. unfold clamp, INT64_MIN, INT64_MAX.
    destruct (Z.ltb_spec v 0); lia.
  - rewrite (cells_block _ _ _ (splice l o x)); [|apply upd_lookup|done].
    unfold splice, zdrop, ztake. rewrite drop_app_length' by (rewrite length_take; unfold zlen in *; lia).
    unfold x. rewrite !fmap_app, <- !app_assoc. done.
  - unfold sign_chars. destruct (Z.ltb_spec v 0); constructor.
Qed.

Lemma decimal_roundtrip_witness :
  exists n m', internal_snprintf (upd mem_empty 0 (replicate 21 None)) (Ptr 0 0) 21 (lit "%lld")
      [VInt (-9007199254740993)] = Ok (n, m') /\
    internal_simple_strtoll m' (Ptr 0 0) 10 = Ok (-9007199254740993, n).
Proof.
  apply (decimal_roundtrip (upd mem_empty 0 (replicate 21 None)) 0 0 (replicate 21 None) (-9007199254740993));
    [reflexivity|lia|vm_compute; discriminate|lia].
Defined.
