(* ===== verification/SnappyBits.v ===== *)
(** * Snappy: bits, variable-length integers, emitted tags

    Models the leaves of the Snappy library the runtime is linked with
    ([src/ufo-rt/lib/tsan/rtl/ufo/snappy]): [Bits] and [Varint] of
    [snappy-stubs-internal.h], [FindMatchLength] of [snappy-internal.h], and
    [HashBytes], [MaxCompressedLength], [EmitLiteral] and [EmitCopy] of
    [snappy.cc].  Buffers are lists of bytes and pointers are positions in
    them; loads are checked against the buffer.  The output of the emitters
    also records the furthest byte they touch, because they store more than
    they keep ([UnalignedCopy128], [Store32]).

    Shown: the portable bit scans agree with the compiler's; varints round
    trip for every [uint32]; [FindMatchLength] is the length of the common
    prefix; the emitters emit the encoding of their operation. *)
From stdpp Require Import base numbers list.
From Stdlib Require Import ZArith Lia.
From S2P Require Import Prelude Bits Memory.

Local Open Scope Z_scope.

(** ** Loads *)

Definition load_le (s : list Z) (p n : Z) : res Z :=
  if (0 <=? p) && (p + n <=? zlen s) then Ok (le_val (slice s p n)) else Err EOutOfBounds.

Definition UNALIGNED_LOAD32 (s : list Z) (p : Z) : res Z := load_le s p 4.
Definition UNALIGNED_LOAD64 (s : list Z) (p : Z) : res Z := load_le s p 8.
Definition load8 (s : list Z) (p : Z) : res Z := load_le s p 1.

(** ** Bits *)

(** The versions used with [HAVE_BUILTIN_CTZ]. *)
Definition Log2Floor (n : Z) : Z := if n =? 0 then -1 else Z.lxor 31 (31 - Z.log2 n).
Definition FindLSBSetNonZero (n : Z) : Z := ctz n.
Definition FindLSBSetNonZero64 (n : Z) : Z := ctz n.

(** The portable versions. *)
Definition Log2Floor_step (i : Z) (st : Z * Z) : Z * Z :=
  let '(log, value) := st in
  let shift := Z.shiftl 1 i in
  let x := Z.shiftr value shift in
  if negb (x =? 0) then (log + shift, x) else (log, value).

Definition Log2Floor_portable (n : Z) : Z :=
  if n =? 0 then -1
  else (foldl (fun st i => Log2Floor_step i st) (0, n) [4; 3; 2; 1; 0]).1.

Definition FindLSB_step (shift : Z) (st : Z * Z) : Z * Z :=
  let '(rc, n) := st in
  let x := u32 (Z.shiftl n shift) in
  if negb (x =? 0) then (rc - shift, x) else (rc, n).

Definition FindLSBSetNonZero_portable (n : Z) : Z :=
  (foldl (fun st s => FindLSB_step s st) (31, n) [16; 8; 4; 2; 1]).1.

Definition FindLSBSetNonZero64_portable (n : Z) : Z :=
  let bottombits := u32 n in
  if bottombits =? 0 then 32 + FindLSBSetNonZero_portable (u32 (Z.shiftr n 32))
  else FindLSBSetNonZero_portable bottombits.

(** ** Variable-length integers *)

(** [Varint::Parse32WithLimit]: the value and the rest of the input; one
    nested test for each of the five lines of the function. *)
Definition Parse32WithLimit (ptr : list Z) : option (Z * list Z) :=
  match ptr with
  | [] => None
  | b :: ptr =>
      let result := Z.land b 127 in
      if b <? 128 then Some (result, ptr) else
      match ptr with
      | [] => None
      | b :: ptr =>
          let result := Z.lor result (Z.shiftl (Z.land b 127) 7) in
          if b <? 128 then Some (result, ptr) else
          match ptr with
          | [] => None
          | b :: ptr =>
              let result := Z.lor result (Z.shiftl (Z.land b 127) 14) in
              if b <? 128 then Some (result, ptr) else
              match ptr with
              | [] => None
              | b :: ptr =>
                  let result := Z.lor result (Z.shiftl (Z.land b 127) 21) in
                  if b <? 128 then Some (result, ptr) else
                  match ptr with
                  | [] => None
                  | b :: ptr =>
                      let result := Z.lor result (u32 (Z.shiftl (Z.land b 127) 28)) in
                      if b <? 16 then Some (result, ptr) else None
                  end
              end
          end
      end
  end.

(** [Varint::Encode32]: the bytes stored. *)
Definition Encode32 (v : Z) : list Z :=
  let B := 128 in
  if v <? Z.shiftl 1 7 then [u8 v]
  else if v <? Z.shiftl 1 14 then [u8 (Z.lor v B); u8 (Z.shiftr v 7)]
  else if v <? Z.shiftl 1 21 then [u8 (Z.lor v B); u8 (Z.lor (Z.shiftr v 7) B); u8 (Z.shiftr v 14)]
  else if v <? Z.shiftl 1 28 then
    [u8 (Z.lor v B); u8 (Z.lor (Z.shiftr v 7) B); u8 (Z.lor (Z.shiftr v 14) B); u8 (Z.shiftr v 21)]
  else
    [u8 (Z.lor v B); u8 (Z.lor (Z.shiftr v 7) B); u8 (Z.lor (Z.shiftr v 14) B);
     u8 (Z.lor (Z.shiftr v 21) B); u8 (Z.shiftr v 28)].

(** ** Matching *)

Definition HashBytes (bytes shift : Z) : Z :=
  let kMul := 0x1e35a7bd in Z.shiftr (u32 (bytes * kMul)) shift.

Definition Hash (s : list Z) (p shift : Z) : res Z :=
  v ← UNALIGNED_LOAD32 s p; Ok (HashBytes v shift).

Definition MaxCompressedLength (source_len : Z) : Z := 32 + source_len + source_len / 6.

(** The last loop of [FindMatchLength], a byte at a time. *)
Fixpoint match_bytes (fuel : nat) (s : list Z) (s1 s2 s2_limit matched : Z) : res (Z * bool) :=
  match fuel with
  | O => Err EHang
  | S fuel' =>
      if s2 <? s2_limit then
        a ← load8 s (s1 + matched);
        b ← load8 s s2;
        if a =? b then match_bytes fuel' s s1 (s2 + 1) s2_limit (matched + 1)
        else Ok (matched, matched <? 8)
      else Ok (matched, matched <? 8)
  end.

(** The loop of [FindMatchLength] over 64-bit blocks. *)
Fixpoint match_words (fuel : nat) (s : list Z) (s1 s2 s2_limit matched : Z) : res (Z * bool) :=
  match fuel with
  | O => Err EHang
  | S fuel' =>
      if s2 <=? s2_limit - 8 then
        a2 ← UNALIGNED_LOAD64 s s2;
        a1 ← UNALIGNED_LOAD64 s (s1 + matched);
        if a2 =? a1 then match_words fuel' s s1 (s2 + 8) s2_limit (matched + 8)
        else
          let matching_bits := FindLSBSetNonZero64 (Z.lxor a2 a1) in
          Ok (matched + Z.shiftr matching_bits 3, false)
      else match_bytes fuel' s s1 s2 s2_limit matched
  end.

(** The 64-bit little-endian version; [s1] and [s2] are positions in [s]. *)
Definition FindMatchLength (s : list Z) (s1 s2 s2_limit : Z) : res (Z * bool) :=
  let fuel := S (S (Z.to_nat (s2_limit - s2))) in
  if s2 <=? s2_limit - 8 then
    a1 ← UNALIGNED_LOAD64 s s1;
    a2 ← UNALIGNED_LOAD64 s s2;
    if negb (a1 =? a2) then Ok (Z.shiftr (FindLSBSetNonZero64 (Z.lxor a1 a2)) 3, true)
    else match_words fuel s s1 (s2 + 8) s2_limit 8
  else match_words fuel s s1 s2 s2_limit 0.

(** ** Emitting *)

Definition LITERAL : Z := 0.
Definition COPY_1_BYTE_OFFSET : Z := 1.
Definition COPY_2_BYTE_OFFSET : Z := 2.
Definition COPY_4_BYTE_OFFSET : Z := 3.

(** The output: the bytes before [op], and the end of the furthest store. *)
Record out := Out { o_bytes : list Z; o_touch : Z }.

(** Stores [bs] at [op] and moves [op] by [keep]. *)
Definition emit (o : out) (bs : list Z) (keep : Z) : out :=
  Out (o.(o_bytes) ++ ztake keep bs) (Z.max o.(o_touch) (zlen o.(o_bytes) + zlen bs)).

Definition read_slice (s : list Z) (p n : Z) : res (list Z) :=
  if (0 <=? p) && (p + n <=? zlen s) then Ok (slice s p n) else Err EOutOfBounds.

(** [while (n > 0)]: the length bytes of a long literal. *)
Fixpoint length_bytes (fuel : nat) (n : Z) : list Z :=
  match fuel with
  | O => []
  | S fuel' => if 0 <? n then Z.land n 255 :: length_bytes fuel' (Z.shiftr n 8) else []
  end.

(** [len] is an [int]: four length bytes at most. *)
Definition EmitLiteral (o : out) (s : list Z) (literal len : Z) (allow_fast_path : bool) : res out :=
  let n := len - 1 in
  if allow_fast_path && (len <=? 16) then
    let o := emit o [u8 (Z.lor LITERAL (Z.shiftl n 2))] 1 in
    bs ← read_slice s literal 16;
    Ok (emit o bs len)
  else
    let o :=
      if n <? 60 then emit o [u8 (Z.lor LITERAL (Z.shiftl n 2))] 1
      else
        let ls := length_bytes 4 n in
        emit o (u8 (Z.lor LITERAL (Z.shiftl (59 + zlen ls) 2)) :: ls) (1 + zlen ls) in
    bs ← read_slice s literal len;
    Ok (emit o bs len).

Definition EmitCopyAtMost64 (o : out) (offset len : Z) (len_less_than_12 : bool) : out :=
  if len_less_than_12 && (offset <? 2048) then
    emit o [u8 (COPY_1_BYTE_OFFSET + Z.shiftl (len - 4) 2 + Z.land (Z.shiftr offset 3) 0xe0);
            u8 (Z.land offset 255)] 2
  else
    let u := u32 (COPY_2_BYTE_OFFSET + Z.shiftl (len - 1) 2 + Z.shiftl offset 8) in
    emit o (le_bytes 4 u) 3.

Fixpoint EmitCopy_loop (fuel : nat) (o : out) (offset len : Z) : out * Z :=
  match fuel with
  | O => (o, len)
  | S fuel' =>
      if 68 <=? len then EmitCopy_loop fuel' (EmitCopyAtMost64 o offset 64 false) offset (len - 64)
      else (o, len)
  end.

Definition EmitCopy (o : out) (offset len : Z) (len_less_than_12 : bool) : out :=
  if len_less_than_12 then EmitCopyAtMost64 o offset len true
  else
    let '(o, len) := EmitCopy_loop (Z.to_nat len) o offset len in
    let '(o, len) :=
      if 64 <? len then (EmitCopyAtMost64 o offset 60 false, len - 60) else (o, len) in
    EmitCopyAtMost64 o offset len (len <? 12).

(** ** Trailing zeros *)

Lemma shl_wrap_ctz x s :
  0 < x < 2 ^ 32 -> 0 <= s ->
  u32 (Z.shiftl x s) = 0 /\ 32 <= ctz x + s \/
  0 < u32 (Z.shiftl x s) < 2 ^ 32 /\ ctz (u32 (Z.shiftl x s)) = ctz x + s.
Proof.
  intros Hx Hs. destruct (ctz_odd x) as (k & E & Hk & Hc); [lia|].
  unfold u32, wrap. rewrite Z.shiftl_mul_pow2 by lia. rewrite E at 1 3 4 5.
  replace (2 ^ ctz x * (2 * k + 1) * 2 ^ s) with (2 ^ (ctz x + s) * (2 * k + 1))
    by (rewrite Z.pow_add_r by lia; ring).
  set (c := ctz x + s). pose proof (pow2_pos c ltac:(lia)).
  destruct (Z.lt_ge_cases c 32) as [Hlt|Hge].
  - pose proof (pow2_pos (31 - c) ltac:(lia)). pose proof (pow2_pos (32 - c) ltac:(lia)). right. replace (2 ^ 32) with (2 ^ c * 2 ^ (32 - c)) by (rewrite <- Z.pow_add_r by lia; f_equal; lia).
    rewrite Z.mul_mod_distr_l by lia.
    assert (exists j, (2 * k + 1) mod 2 ^ (32 - c) = 2 * j + 1 /\ 0 <= j) as (j & Ej & Hj).
    { replace (2 ^ (32 - c)) with (2 * 2 ^ (31 - c)) by (rewrite <- Z.pow_succ_r by lia; f_equal; lia).
      pose proof (Z.mod_pos_bound (2 * k + 1) (2 * 2 ^ (31 - c)) ltac:(lia)).
      exists (k - 2 ^ (31 - c) * ((2 * k + 1) / (2 * 2 ^ (31 - c)))).
      rewrite Z.mod_eq in * by lia. lia. }
    pose proof (Z.mod_pos_bound (2 * k + 1) (2 ^ (32 - c)) ltac:(lia)).
    rewrite Ej in *. split; [nia|]. apply ctz_unique; lia.
  - left. split; [|lia]. replace (2 ^ c) with (2 ^ (c - 32) * 2 ^ 32)
      by (rewrite <- Z.pow_add_r by lia; f_equal; lia).
    replace (2 ^ (c - 32) * 2 ^ 32 * (2 * k + 1)) with (2 ^ (c - 32) * (2 * k + 1) * 2 ^ 32) by ring.
    apply Z.mod_mul. lia.
Qed.

(** One step of the portable scan: what is known about the trailing zeros
    after the shifts so far, [rem] being the sum of the shifts to come. *)
Lemma FindLSB_step_ok n rc x s rem :
  0 < x < 2 ^ 32 -> ctz x = ctz n + (31 - rc) -> 31 - rem <= ctz x -> 0 <= s -> rem <= 2 * s - 1 ->
  let '(rc', x') := FindLSB_step s (rc, x) in
  0 < x' < 2 ^ 32 /\ ctz x' = ctz n + (31 - rc') /\ 31 - (s - 1) <= ctz x'.
Proof.
  intros Hx Hc Hr Hs Hrem. unfold FindLSB_step.
  destruct (shl_wrap_ctz x s Hx Hs) as [[E H]|[H E]].
  - rewrite E. cbn [negb Z.eqb]. repeat split; lia.
  - rewrite (proj2 (Z.eqb_neq _ _)) by lia. cbn [negb]. rewrite E. repeat split; lia.
Qed.

Lemma FindLSBSetNonZero_portable_ok n : 0 < n < 2 ^ 32 -> FindLSBSetNonZero_portable n = ctz n.
Proof.
  intros Hn. unfold FindLSBSetNonZero_portable. cbn [foldl].
  destruct (ctz_odd n) as (_ & _ & _ & H0); [lia|].
  pose proof (FindLSB_step_ok n 31 n 16 31 Hn ltac:(lia) ltac:(lia) ltac:(lia) ltac:(lia)) as H.
  destruct (FindLSB_step 16 (31, n)) as [rc1 x1]. destruct H as (Hx1 & Hc1 & Hr1).
  pose proof (FindLSB_step_ok n rc1 x1 8 15 Hx1 Hc1 Hr1 ltac:(lia) ltac:(lia)) as H.
  destruct (FindLSB_step 8 (rc1, x1)) as [rc2 x2]. destruct H as (Hx2 & Hc2 & Hr2).
  pose proof (FindLSB_step_ok n rc2 x2 4 7 Hx2 Hc2 Hr2 ltac:(lia) ltac:(lia)) as H.
  destruct (FindLSB_step 4 (rc2, x2)) as [rc3 x3]. destruct H as (Hx3 & Hc3 & Hr3).
  pose proof (FindLSB_step_ok n rc3 x3 2 3 Hx3 Hc3 Hr3 ltac:(lia) ltac:(lia)) as H.
  destruct (FindLSB_step 2 (rc3, x3)) as [rc4 x4]. destruct H as (Hx4 & Hc4 & Hr4).
  pose proof (FindLSB_step_ok n rc4 x4 1 1 Hx4 Hc4 Hr4 ltac:(lia) ltac:(lia)) as H.
  destruct (FindLSB_step 1 (rc4, x4)) as [rc5 x5]. destruct H as (Hx5 & Hc5 & Hr5).
  pose proof (ctz_lt x5 32 Hx5). cbn [fst]. lia.
Qed.

Lemma ctz_high n : 0 < n -> u32 n = 0 -> ctz n = 32 + ctz (Z.shiftr n 32).
Proof.
  intros Hn H. unfold u32, wrap in H. rewrite Z.shiftr_div_pow2 by lia.
  pose proof (Z.div_mod n (2 ^ 32) ltac:(lia)) as E. rewrite H, Z.add_0_r in E.
  destruct (ctz_odd (n / 2 ^ 32)) as (k & Ek & Hk & Hc); [lia|].
  assert (n = 2 ^ (32 + ctz (n / 2 ^ 32)) * (2 * k + 1)) as E'.
  { rewrite Z.pow_add_r by lia. rewrite <- Z.mul_assoc, <- Ek. done. }
  rewrite E' at 1. apply ctz_unique; lia.
Qed.

Lemma ctz_low n : 0 < n -> u32 n <> 0 -> ctz (u32 n) = ctz n.
Proof.
  intros Hn H. destruct (ctz_odd n) as (k & E & Hk & Hc); [lia|].
  destruct (Z.lt_ge_cases n (2 ^ 32)); [unfold u32; by rewrite wrap_small by lia|].
  destruct (Z.lt_ge_cases (ctz n) 32) as [Hlt|Hge].
  - pose proof (pow2_pos (31 - ctz n) ltac:(lia)). pose proof (pow2_pos (ctz n) Hc).
    unfold u32, wrap. rewrite E at 1.
    replace (2 ^ 32) with (2 ^ ctz n * (2 * 2 ^ (31 - ctz n)))
      by (rewrite <- Z.pow_succ_r, <- Z.pow_add_r by lia; f_equal; lia).
    rewrite Z.mul_mod_distr_l by lia. rewrite Z.mod_eq by lia.
    set (q := (2 * k + 1) / (2 * 2 ^ (31 - ctz n))).
    assert (Hq : (2 * k + 1) - 2 * 2 ^ (31 - ctz n) * q >= 0).
    { pose proof (Z.mod_pos_bound (2 * k + 1) (2 * 2 ^ (31 - ctz n)) ltac:(lia)).
      rewrite Z.mod_eq in * by lia. unfold q. lia. }
    replace (2 * k + 1 - 2 * 2 ^ (31 - ctz n) * q) with (2 * (k - 2 ^ (31 - ctz n) * q) + 1) in * by ring.
    apply ctz_unique; lia.
  - destruct H. unfold u32, wrap. rewrite E.
    replace (2 ^ ctz n) with (2 ^ (ctz n - 32) * 2 ^ 32) by (rewrite <- Z.pow_add_r by lia; f_equal; lia).
    replace (2 ^ (ctz n - 32) * 2 ^ 32 * (2 * k + 1)) with (2 ^ (ctz n - 32) * (2 * k + 1) * 2 ^ 32) by ring.
    apply Z.mod_mul. lia.
Qed.

(** ** Logarithm *)

Lemma Log2Floor_ok n : 0 < n < 2 ^ 32 -> Log2Floor n = Z.log2 n.
Proof.
  intros Hn. unfold Log2Floor. rewrite (proj2 (Z.eqb_neq _ _)) by lia.
  assert (Z.log2 n < 32) by (apply Z.log2_lt_pow2; lia). pose proof (Z.log2_nonneg n).
  set (l := Z.log2 n) in *.
  replace (31 - l) with (Z.lxor 31 l); [by rewrite <- Z.lxor_assoc, Z.lxor_nilpotent, Z.lxor_0_l|].
  assert (Hall : forallb (fun k => Z.lxor 31 (Z.of_nat k) =? 31 - Z.of_nat k) (seq 0 32) = true) by reflexivity.
  rewrite forallb_forall in Hall. specialize (Hall (Z.to_nat l)). rewrite Z2Nat.id in Hall by lia.
  apply Z.eqb_eq, Hall, in_seq. lia.
Qed.

(** One step of the portable logarithm. *)
Lemma Log2Floor_step_ok n log v s i :
  0 < v -> Z.log2 n = log + Z.log2 v -> s = Z.shiftl 1 i -> 0 < s -> Z.log2 v < 2 * s ->
  let '(log', v') := Log2Floor_step i (log, v) in
  0 < v' /\ Z.log2 n = log' + Z.log2 v' /\ Z.log2 v' < s.
Proof.
  intros Hv Hl Hs Hs0 Hb. unfold Log2Floor_step. rewrite <- Hs.
  pose proof (Z.log2_shiftr v s Hv) as Hsh. pose proof (Z.shiftr_nonneg v s) as Hnn.
  destruct (Z.eqb_spec (Z.shiftr v s) 0) as [E|E]; cbn [negb].
  - apply Z.shiftr_eq_0_iff in E. repeat split; lia.
  - assert (s <= Z.log2 v).
    { destruct (Z.lt_ge_cases (Z.log2 v) s); [|done]. destruct E. apply Z.shiftr_eq_0; lia. }
    repeat split; lia.
Qed.

Lemma Log2Floor_portable_ok n : 0 < n < 2 ^ 32 -> Log2Floor_portable n = Z.log2 n.
Proof.
  intros Hn. unfold Log2Floor_portable. rewrite (proj2 (Z.eqb_neq _ _)) by lia. cbn [foldl].
  assert (Z.log2 n < 32) by (apply Z.log2_lt_pow2; lia).
  pose proof (Log2Floor_step_ok n 0 n 16 4 ltac:(lia) ltac:(lia) eq_refl ltac:(lia) ltac:(lia)) as H1.
  destruct (Log2Floor_step 4 (0, n)) as [l1 v1]. destruct H1 as (Hv1 & Hl1 & Hb1).
  pose proof (Log2Floor_step_ok n l1 v1 8 3 Hv1 Hl1 eq_refl ltac:(lia) ltac:(lia)) as H2.
  destruct (Log2Floor_step 3 (l1, v1)) as [l2 v2]. destruct H2 as (Hv2 & Hl2 & Hb2).
  pose proof (Log2Floor_step_ok n l2 v2 4 2 Hv2 Hl2 eq_refl ltac:(lia) ltac:(lia)) as H3.
  destruct (Log2Floor_step 2 (l2, v2)) as [l3 v3]. destruct H3 as (Hv3 & Hl3 & Hb3).
  pose proof (Log2Floor_step_ok n l3 v3 2 1 Hv3 Hl3 eq_refl ltac:(lia) ltac:(lia)) as H4.
  destruct (Log2Floor_step 1 (l3, v3)) as [l4 v4]. destruct H4 as (Hv4 & Hl4 & Hb4).
  pose proof (Log2Floor_step_ok n l4 v4 1 0 Hv4 Hl4 eq_refl ltac:(lia) ltac:(lia)) as H5.
  destruct (Log2Floor_step 0 (l4, v4)) as [l5 v5]. destruct H5 as (Hv5 & Hl5 & Hb5).
  pose proof (Z.log2_nonneg v5). cbn [fst]. lia.
Qed.

(** ** Varints *)

Lemma lor_128 x : 0 <= x -> u8 (Z.lor x 128) = 128 + x mod 128.
Proof.
  intros Hx. unfold u8, wrap. change (2 ^ 8) with 256.
  assert (E : Z.lor x 128 mod 256 = Z.lor (x mod 256) 128).
  { rewrite <- !(Z.land_ones _ 8) by lia. rewrite Z.land_lor_distr_l. done. }
  rewrite E. pose proof (Z.mod_pos_bound x 256 ltac:(lia)) as Hr.
  rewrite <- (Z.mod_mod_divide x 256 128) by (exists 2; done).
  assert (Hall : forallb (fun k => Z.lor (Z.of_nat k) 128 =? 128 + Z.of_nat k mod 128) (seq 0 256) = true)
    by (vm_compute; reflexivity).
  rewrite forallb_forall in Hall. specialize (Hall (Z.to_nat (x mod 256))). rewrite Z2Nat.id in Hall by lia.
  apply Z.eqb_eq, Hall, in_seq. lia.
Qed.

Lemma land_127 x : 0 <= x < 128 -> Z.land (128 + x) 127 = x.
Proof.
  intros Hx. change 127 with (Z.ones 7). rewrite Z.land_ones by lia. change (2 ^ 7) with 128.
  replace (128 + x) with (x + 1 * 128) by lia. rewrite Z.mod_add, Z.mod_small; lia.
Qed.

Lemma land_127_small x : 0 <= x < 128 -> Z.land x 127 = x.
Proof. intros Hx. change 127 with (Z.ones 7). rewrite Z.land_ones by lia. apply Z.mod_small. done. Qed.

Lemma lor_add a b n : 0 <= n -> 0 <= a < 2 ^ n -> Z.lor a (Z.shiftl b n) = a + b * 2 ^ n.
Proof.
  intros Hn Ha. rewrite Z.shiftl_mul_pow2, Z.lor_comm, lor_low by done. lia.
Qed.

Lemma shr_div v n : 0 <= n -> Z.shiftr v n = v / 2 ^ n.
Proof. apply Z.shiftr_div_pow2. Qed.

Lemma Parse_Encode32 v rest : 0 <= v < 2 ^ 32 -> Parse32WithLimit (Encode32 v ++ rest) = Some (v, rest).
Proof.
  intros Hv. unfold Encode32. rewrite !shr_div by lia.
  change (Z.shiftl 1 7) with 128. change (Z.shiftl 1 14) with 16384.
  change (Z.shiftl 1 21) with 2097152. change (Z.shiftl 1 28) with 268435456.
  change (2 ^ 7) with 128. change (2 ^ 14) with 16384. change (2 ^ 21) with 2097152.
  change (2 ^ 28) with 268435456. change (2 ^ 32) with 4294967296 in *.
  assert (H7 : forall x, 0 <= x -> 0 <= x mod 128 < 128) by (intros; apply Z.mod_pos_bound; lia).
  assert (H0 : 0 <= v / 128 /\ 0 <= v / 16384 /\ 0 <= v / 2097152 /\ 0 <= v / 268435456)
    by (repeat split; apply Z.div_pos; lia).
  destruct H0 as (H01 & H02 & H03 & H04).
  pose proof (H7 v ltac:(lia)). pose proof (H7 _ H01). pose proof (H7 _ H02). pose proof (H7 _ H03).
  pose proof (Z.div_mod v 128 ltac:(lia)). pose proof (Z.div_mod (v / 128) 128 ltac:(lia)) as D1.
  pose proof (Z.div_mod (v / 16384) 128 ltac:(lia)) as D2.
  pose proof (Z.div_mod (v / 2097152) 128 ltac:(lia)) as D3.
  rewrite Z.div_div in D1 by lia. rewrite Z.div_div in D2 by lia. rewrite Z.div_div in D3 by lia.
  change (128 * 128) with 16384 in D1. change (16384 * 128) with 2097152 in D2.
  change (2097152 * 128) with 268435456 in D3.
  repeat match goal with |- context [if v <? ?c then _ else _] => destruct (Z.ltb_spec v c) end;
    rewrite ?lor_128 by lia; unfold u8; rewrite ?(wrap_small 8) by (change (2 ^ 8) with 256; lia);
    cbn [app Parse32WithLimit];
    rewrite ?(proj2 (Z.ltb_ge (128 + _) 128)) by lia;
    rewrite ?land_127, ?land_127_small by lia;
    rewrite ?(lor_add _ _ 7) by (change (2 ^ 7) with 128; lia); change (2 ^ 7) with 128;
    rewrite ?(lor_add _ _ 14) by (change (2 ^ 14) with 16384; lia); change (2 ^ 14) with 16384;
    rewrite ?(lor_add _ _ 21) by (change (2 ^ 21) with 2097152; lia); change (2 ^ 21) with 2097152.
  - rewrite (proj2 (Z.ltb_lt _ _)) by lia. done.
  - rewrite (proj2 (Z.ltb_lt _ _)) by lia. do 2 f_equal. lia.
  - rewrite (proj2 (Z.ltb_lt _ _)) by lia. do 2 f_equal. lia.
  - rewrite (proj2 (Z.ltb_lt _ _)) by lia. do 2 f_equal. lia.
  - rewrite (proj2 (Z.ltb_lt _ 16)) by lia. unfold u32.
    rewrite (wrap_small 32) by (rewrite Z.shiftl_mul_pow2 by lia; change (2 ^ 28) with 268435456;
      change (2 ^ 32) with 4294967296; lia).
    rewrite (lor_add _ _ 28) by (change (2 ^ 28) with 268435456; lia). change (2 ^ 28) with 268435456.
    do 2 f_equal. lia.
Qed.

(** ** Common prefixes *)

(** The length of the longest common prefix. *)
Fixpoint cpl (x y : list Z) : Z :=
  match x, y with
  | a :: x', b :: y' => if a =? b then 1 + cpl x' y' else 0
  | _, _ => 0
  end.

Lemma cpl_app p x y : cpl (p ++ x) (p ++ y) = zlen p + cpl x y.
Proof.
  induction p as [|a p IH]; cbn [app cpl]; [done|]. rewrite Z.eqb_refl, IH. unfold zlen. cbn [length]. lia.
Qed.

Lemma cpl_nonneg x y : 0 <= cpl x y.
Proof. revert y. induction x as [|a x IH]; intros [|b y]; cbn [cpl]; try lia. case_match; [|lia]. specialize (IH y). lia. Qed.

Lemma cpl_le x y : cpl x y <= zlen x /\ cpl x y <= zlen y.
Proof.
  revert y. unfold zlen. induction x as [|a x IH]; intros [|b y]; cbn [cpl length]; try lia.
  specialize (IH y). case_match; lia.
Qed.

Lemma cpl_prefix x y : ztake (cpl x y) x = ztake (cpl x y) y.
Proof.
  revert y. unfold ztake. induction x as [|a x IH]; intros [|b y]; cbn [cpl]; try done.
  destruct (Z.eqb_spec a b) as [->|]; [|done].
  pose proof (cpl_nonneg x y). replace (Z.to_nat (1 + cpl x y)) with (S (Z.to_nat (cpl x y))) by lia.
  rewrite !firstn_cons. by rewrite IH.
Qed.

Lemma cpl_stop x y c : x !! Z.to_nat (cpl x y) = y !! Z.to_nat (cpl x y) -> y !! Z.to_nat (cpl x y) = Some c -> False.
Proof.
  revert y. induction x as [|a x IH]; intros [|b y]; cbn [cpl]; try done.
  destruct (Z.eqb_spec a b) as [->|Hne].
  - pose proof (cpl_nonneg x y). rewrite Z.add_comm, Z2Nat.inj_add, Nat.add_1_r by lia. cbn [lookup list_lookup]. apply IH.
  - change (Z.to_nat 0) with 0%nat. cbn. intros E _. congruence.
Qed.

Lemma byte_lxor a b : byte_ok a -> byte_ok b -> 0 <= Z.lxor a b < 256.
Proof.
  unfold byte_ok. intros Ha Hb. assert (0 <= Z.lxor a b) by (apply Z.lxor_nonneg; lia).
  split; [done|]. destruct (Z.eq_dec (Z.lxor a b) 0); [lia|].
  change 256 with (2 ^ 8). apply Z.log2_lt_pow2; [lia|].
  apply (Z.le_lt_trans _ (Z.max (Z.log2 a) (Z.log2 b))); [apply Z.log2_lxor; lia|].
  apply Z.max_lub_lt.
  - destruct (Z.eq_dec a 0) as [->|]; [done|]. apply Z.log2_lt_pow2; lia.
  - destruct (Z.eq_dec b 0) as [->|]; [done|]. apply Z.log2_lt_pow2; lia.
Qed.

Lemma add_lxor a x : 0 <= a < 256 -> a + 256 * x = Z.lxor a (Z.shiftl x 8).
Proof.
  intros Ha. rewrite Z.shiftl_mul_pow2 by lia. change (2 ^ 8) with 256. rewrite (Z.mul_comm 256 x).
  rewrite <- Z.add_nocarry_lxor; [done|].
  apply Z.bits_inj'. intros i Hi. rewrite Z.land_spec, Z.bits_0.
  destruct (Z.lt_ge_cases i 8) as [Hlt|Hge].
  - change 256 with (2 ^ 8). rewrite Z.mul_pow2_bits_low by done. apply andb_false_r.
  - rewrite <- (Z.mod_small a (2 ^ 8)) by (change (2 ^ 8) with 256; lia).
    by rewrite Z.mod_pow2_bits_high by lia.
Qed.

Lemma le_val_lxor a b x y :
  byte_ok a -> byte_ok b ->
  Z.lxor (le_val (a :: x)) (le_val (b :: y)) = Z.lxor a b + 256 * Z.lxor (le_val x) (le_val y).
Proof.
  intros Ha Hb. cbn [le_val]. rewrite !add_lxor by (done || by apply byte_lxor).
  rewrite Z.shiftl_lxor. rewrite !Z.lxor_assoc. f_equal.
  rewrite <- !Z.lxor_assoc. f_equal. apply Z.lxor_comm.
Qed.

Lemma ctz_byte c d : 0 < c < 256 -> 0 <= d -> ctz (c + 256 * d) < 8.
Proof.
  intros Hc Hd. destruct (ctz_odd c) as (k & E & Hk & Hz); [lia|].
  pose proof (ctz_lt c 8 Hc) as Hlt. pose proof (pow2_pos (7 - ctz c) ltac:(lia)).
  assert (c + 256 * d = 2 ^ ctz c * (2 * (k + 2 ^ (7 - ctz c) * d) + 1)) as ->.
  { rewrite E at 1. replace 256 with (2 ^ ctz c * (2 * 2 ^ (7 - ctz c)))
      by (rewrite <- Z.pow_succ_r, <- Z.pow_add_r by lia; replace (ctz c + Z.succ (7 - ctz c)) with 8 by lia; done).
    ring. }
  rewrite ctz_unique; nia.
Qed.

Lemma ctz_256 d : 0 < d -> ctz (256 * d) = 8 + ctz d.
Proof.
  intros Hd. destruct (ctz_odd d) as (k & E & Hk & Hz); [lia|].
  rewrite E at 1. replace (256 * (2 ^ ctz d * (2 * k + 1))) with (2 ^ (8 + ctz d) * (2 * k + 1))
    by (rewrite Z.pow_add_r by lia; change (2 ^ 8) with 256; ring).
  apply ctz_unique; lia.
Qed.

(** The lowest differing bit of two blocks tells the length of their common
    prefix. *)
Lemma cpl_block x y u v :
  Forall byte_ok x -> Forall byte_ok y -> length x = length y -> le_val x <> le_val y ->
  cpl (x ++ u) (y ++ v) = Z.shiftr (ctz (Z.lxor (le_val x) (le_val y))) 3 /\ cpl (x ++ u) (y ++ v) < zlen x.
Proof.
  intros Hx. revert y. induction Hx as [|a x Ha Hx IH]; intros y Hy Hl Hne.
  - destruct y; [done|discriminate Hl].
  - destruct Hy as [|b y Hb Hy]; [discriminate Hl|]. injection Hl as Hl.
    rewrite le_val_lxor by done. rewrite shr_div by lia. change (2 ^ 3) with 8.
    pose proof (le_val_range x Hx). pose proof (le_val_range y Hy).
    assert (Hnn : 0 <= Z.lxor (le_val x) (le_val y)) by (apply Z.lxor_nonneg; lia).
    cbn [app cpl]. unfold zlen. cbn [length].
    destruct (Z.eqb_spec a b) as [->|Hab].
    + rewrite Z.lxor_nilpotent, Z.add_0_l.
      destruct (IH y Hy Hl) as [E Hlt]; [cbn in Hne; lia|]. rewrite shr_div in E by lia. change (2 ^ 3) with 8 in E.
      assert (0 < Z.lxor (le_val x) (le_val y)).
      { destruct (Z.eq_dec (Z.lxor (le_val x) (le_val y)) 0) as [E0|]; [|lia].
        apply Z.lxor_eq in E0. cbn in Hne. lia. }
      rewrite ctz_256 by done. replace (8 + ctz (Z.lxor (le_val x) (le_val y)))
        with (ctz (Z.lxor (le_val x) (le_val y)) + 1 * 8) by lia.
      rewrite Z.div_add by lia. unfold zlen in Hlt. lia.
    + assert (0 < Z.lxor a b < 256).
      { pose proof (byte_lxor a b Ha Hb). destruct (Z.eq_dec (Z.lxor a b) 0) as [E0|]; [|lia].
        by apply Z.lxor_eq in E0. }
      pose proof (ctz_byte (Z.lxor a b) (Z.lxor (le_val x) (le_val y)) H1 Hnn).
      destruct (ctz_odd (Z.lxor a b + 256 * Z.lxor (le_val x) (le_val y))) as (_ & _ & _ & ?); [lia|].
      rewrite Z.div_small by lia. lia.
Qed.

(** ** FindMatchLength *)

Lemma load_le_ok s p n : 0 <= p -> p + n <= zlen s -> load_le s p n = Ok (le_val (slice s p n)).
Proof. intros. unfold load_le. by rewrite (proj2 (Z.leb_le 0 p)), (proj2 (Z.leb_le (p + n) _)) by lia. Qed.

Lemma slice_ok s o n : Forall byte_ok s -> Forall byte_ok (slice s o n).
Proof. intros H. unfold slice, ztake, zdrop. by apply Forall_take, Forall_drop. Qed.

Lemma ztake_slice {A} (l : list A) p n k : 0 <= k <= n -> ztake k (slice l p n) = slice l p k.
Proof. intros. unfold slice, ztake. rewrite take_take. f_equal. lia. Qed.

Section Match.
Context (s : list Z) (Hs : Forall byte_ok s) (s1 lim : Z) (H1 : 0 <= s1) (Hlim : lim <= zlen s).

(** [s1 + matched] and [s2] are compared from here on. *)
Definition match_rest (matched s2 : Z) : Z := cpl (zdrop (s1 + matched) s) (slice s s2 (lim - s2)).

Lemma match_equal matched s2 k :
  0 <= matched -> s1 + matched < s2 -> 0 <= k -> s2 + k <= lim ->
  slice s (s1 + matched) k = slice s s2 k ->
  match_rest matched s2 = k + match_rest (matched + k) (s2 + k).
Proof.
  intros Hm Hlt Hk Hl E. unfold match_rest.
  rewrite (zdrop_split s (s1 + matched) k), (slice_split s s2 (lim - s2) k) by lia.
  rewrite E, cpl_app, zlen_slice by lia. replace (s1 + matched + k) with (s1 + (matched + k)) by lia.
  by replace (lim - s2 - k) with (lim - (s2 + k)) by lia.
Qed.

Lemma slice_one p : 0 <= p < zlen s -> exists c, slice s p 1 = [c] /\ byte_ok c /\ load8 s p = Ok c.
Proof.
  intros Hp. destruct (slice_head s p Hp) as [c Hc]. exists c.
  assert (E : slice s p 1 = [c]) by (change 1 with (0 + 1); rewrite (slice_cons s p 0 c), slice_0 by (done || lia); done).
  split; [done|]. split; [by apply (Forall_lookup_1 byte_ok s _ c Hs Hc)|].
  unfold load8. rewrite load_le_ok, E by lia. cbn [le_val]. f_equal. lia.
Qed.

Lemma match_bytes_ok fuel s2 matched :
  0 <= matched -> s1 + matched < s2 -> s2 <= lim -> (Z.to_nat (lim - s2) < fuel)%nat ->
  match_bytes fuel s s1 s2 lim matched =
  Ok (matched + match_rest matched s2, matched + match_rest matched s2 <? 8).
Proof.
  revert s2 matched. induction fuel as [|fuel IH]; intros s2 matched Hm Hlt Hle Hf; [lia|].
  cbn [match_bytes]. destruct (Z.ltb_spec s2 lim) as [Hl|Hg].
  - destruct (slice_one (s1 + matched)) as (a & Ea & Ha & ->); [lia|].
    destruct (slice_one s2) as (b & Eb & Hb & ->); [lia|]. rewrite !bind_ok.
    destruct (Z.eqb_spec a b) as [->|Hne].
    + rewrite IH by lia. rewrite (match_equal matched s2 1) by (lia || congruence).
      replace (matched + (1 + match_rest (matched + 1) (s2 + 1)))
        with (matched + 1 + match_rest (matched + 1) (s2 + 1)) by lia. done.
    + assert (match_rest matched s2 = 0) as ->; [|by rewrite Z.add_0_r].
      unfold match_rest. rewrite (zdrop_split s (s1 + matched) 1), (slice_split s s2 (lim - s2) 1) by lia.
      rewrite Ea, Eb. cbn [app cpl]. by rewrite (proj2 (Z.eqb_neq _ _)).
  - assert (match_rest matched s2 = 0) as ->; [|by rewrite Z.add_0_r].
    unfold match_rest. replace (lim - s2) with 0 by lia. rewrite slice_0. by destruct (zdrop _ s).
Qed.

Lemma le_val_inj x y :
  Forall byte_ok x -> Forall byte_ok y -> length x = length y -> le_val x = le_val y -> x = y.
Proof.
  intros Hx Hy Hl E. rewrite <- (le_bytes_le_val x Hx), <- (le_bytes_le_val y Hy). by rewrite Hl, E.
Qed.

Lemma slice8 p : 0 <= p -> p + 8 <= zlen s ->
  UNALIGNED_LOAD64 s p = Ok (le_val (slice s p 8)) /\ Forall byte_ok (slice s p 8) /\ length (slice s p 8) = 8%nat.
Proof.
  intros Hp Hl. split; [by apply load_le_ok|]. split; [by apply slice_ok|].
  pose proof (zlen_slice s p 8 Hp ltac:(lia) Hl). unfold zlen in *. lia.
Qed.

(** A block that differs ends the match. *)
Lemma match_block matched s2 :
  0 <= matched -> s1 + matched < s2 -> s2 + 8 <= lim ->
  le_val (slice s (s1 + matched) 8) <> le_val (slice s s2 8) ->
  match_rest matched s2 =
    Z.shiftr (FindLSBSetNonZero64 (Z.lxor (le_val (slice s (s1 + matched) 8)) (le_val (slice s s2 8)))) 3 /\
  match_rest matched s2 < 8.
Proof.
  intros Hm Hlt Hl Hne. unfold match_rest.
  rewrite (zdrop_split s (s1 + matched) 8), (slice_split s s2 (lim - s2) 8) by lia.
  destruct (slice8 (s1 + matched)) as (_ & Ha & La); [lia|lia|].
  destruct (slice8 s2) as (_ & Hb & Lb); [lia|lia|].
  destruct (cpl_block _ _ (zdrop (s1 + matched + 8) s) (slice s (s2 + 8) (lim - s2 - 8)) Ha Hb) as [E Hb8];
    [congruence|done|]. unfold zlen in Hb8. rewrite La in Hb8. done.
Qed.

Lemma match_words_ok fuel s2 matched :
  0 <= matched -> s1 + matched < s2 -> s2 <= lim -> (Z.to_nat (lim - s2) + 1 < fuel)%nat ->
  (matched = 0 -> lim < s2 + 8) -> (matched = 0 \/ 8 <= matched) ->
  match_words fuel s s1 s2 lim matched =
  Ok (matched + match_rest matched s2, matched + match_rest matched s2 <? 8).
Proof.
  revert s2 matched. induction fuel as [|fuel IH]; intros s2 matched Hm Hlt Hle Hf H0 H8; [lia|].
  cbn [match_words]. destruct (Z.leb_spec s2 (lim - 8)) as [Hl|Hg]; [|apply match_bytes_ok; lia].
  destruct (slice8 s2) as (-> & Hb & Lb); [lia|lia|].
  destruct (slice8 (s1 + matched)) as (-> & Ha & La); [lia|lia|]. rewrite !bind_ok.
  destruct (Z.eqb_spec (le_val (slice s s2 8)) (le_val (slice s (s1 + matched) 8))) as [E|E].
  - apply le_val_inj in E; [|done|done|congruence].
    rewrite IH by lia. rewrite (match_equal matched s2 8) by (lia || congruence).
    replace (matched + (8 + match_rest (matched + 8) (s2 + 8)))
      with (matched + 8 + match_rest (matched + 8) (s2 + 8)) by lia. done.
  - destruct (match_block matched s2) as [E' _]; [lia|lia|lia|congruence|].
    rewrite Z.lxor_comm, <- E'. pose proof (cpl_nonneg (zdrop (s1 + matched) s) (slice s s2 (lim - s2))).
    fold (match_rest matched s2) in *. by rewrite (proj2 (Z.ltb_ge (matched + _) 8)) by lia.
Qed.

Lemma FindMatchLength_ok s2 :
  s1 < s2 -> s2 <= lim ->
  FindMatchLength s s1 s2 lim = Ok (match_rest 0 s2, match_rest 0 s2 <? 8).
Proof.
  intros Hlt Hle. unfold FindMatchLength.
  destruct (Z.leb_spec s2 (lim - 8)) as [Hl|Hg].
  - destruct (slice8 s1) as (-> & Ha & La); [lia|lia|].
    destruct (slice8 s2) as (-> & Hb & Lb); [lia|lia|]. rewrite !bind_ok.
    destruct (Z.eqb_spec (le_val (slice s s1 8)) (le_val (slice s s2 8))) as [E|E]; cbn [negb].
    + apply le_val_inj in E; [|done|done|congruence].
      rewrite match_words_ok by lia.
      rewrite (match_equal 0 s2 8) by (rewrite ?Z.add_0_r; lia || congruence). done.
    + destruct (match_block 0 s2) as [E' Hb8]; rewrite ?Z.add_0_r in *; [lia|lia|lia|congruence|].
      rewrite <- E'. by rewrite (proj2 (Z.ltb_lt _ 8)) by lia.
  - rewrite match_words_ok by lia. by rewrite Z.add_0_l.
Qed.
End Match.

Lemma shr32_range n : 0 <= n < 2 ^ 64 -> 0 <= Z.shiftr n 32 < 2 ^ 32.
Proof.
  intros H. rewrite Z.shiftr_div_pow2 by lia.
  split; [apply Z.div_pos; lia|apply Z.div_lt_upper_bound; [lia|]]. rewrite <- Z.pow_add_r by lia. apply H.
Qed.

Lemma FindLSBSetNonZero64_portable_ok n : 0 < n < 2 ^ 64 -> FindLSBSetNonZero64_portable n = ctz n.
Proof.
  intros Hn. unfold FindLSBSetNonZero64_portable. pose proof (wrap_range 32 n ltac:(lia)) as Hr.
  pose proof (shr32_range n ltac:(lia)) as Hs.
  destruct (Z.eqb_spec (u32 n) 0) as [E|E].
  - rewrite (ctz_high n) by (done || lia).
    assert (0 < Z.shiftr n 32).
    { rewrite Z.shiftr_div_pow2 by lia. apply Z.div_str_pos. split; [lia|].
      destruct (Z.le_gt_cases (2 ^ 32) n) as [|Hlt]; [done|]. unfold u32 in E. rewrite wrap_small in E by lia. lia. }
    unfold u32. rewrite wrap_small by lia. rewrite FindLSBSetNonZero_portable_ok by lia. done.
  - rewrite FindLSBSetNonZero_portable_ok by (unfold u32 in *; lia). by rewrite ctz_low by (done || lia).
Qed.

(** ** Theorems *)

(** The portable bit scans agree with the builtin ones on every non-zero
    argument of their width. *)
Theorem portable_scans_agree (n : Z) :
  0 < n < 2 ^ 64 ->
  FindLSBSetNonZero64_portable n = FindLSBSetNonZero64 n /\
  (n < 2 ^ 32 -> FindLSBSetNonZero_portable n = FindLSBSetNonZero n /\ Log2Floor_portable n = Log2Floor n).
Proof.
  intros Hn. split; [by apply FindLSBSetNonZero64_portable_ok|]. intros H32. split.
  - apply FindLSBSetNonZero_portable_ok. lia.
  - rewrite Log2Floor_ok, Log2Floor_portable_ok by lia. done.
Qed.

Lemma portable_scans_agree_witness :
  FindLSBSetNonZero64_portable 48 = FindLSBSetNonZero64 48 /\
  (48 < 2 ^ 32 -> FindLSBSetNonZero_portable 48 = FindLSBSetNonZero 48 /\ Log2Floor_portable 48 = Log2Floor 48).
Proof. apply (portable_scans_agree 48). lia. Defined.

(** [FindMatchLength] computes the longest common prefix.  For [s1] before
    [s2], the result [n] is the number of equal bytes from [s1] and [s2] on, up
    to [s2_limit], the next bytes differ if there are any, and the second
    component is [n < 8]; no load leaves the buffer. *)
Theorem find_match_longest (s : list Z) (s1 s2 s2_limit : Z) :
  Forall byte_ok s -> 0 <= s1 < s2 -> s2 <= s2_limit <= zlen s ->
  exists n, FindMatchLength s s1 s2 s2_limit = Ok (n, n <? 8) /\
    0 <= n <= s2_limit - s2 /\
    slice s s1 n = slice s s2 n /\
    (s2 + n < s2_limit -> s !! Z.to_nat (s1 + n) <> s !! Z.to_nat (s2 + n)).
Proof.
  intros Hs H1 H2. exists (match_rest s s1 s2_limit 0 s2). split; [by apply FindMatchLength_ok; try lia|].
  unfold match_rest. rewrite Z.add_0_r. set (x := zdrop s1 s). set (y := slice s s2 (s2_limit - s2)).
  assert (Hy : zlen y = s2_limit - s2) by (apply zlen_slice; lia).
  pose proof (cpl_nonneg x y). pose proof (cpl_le x y) as [Hx' Hy'].
  split; [lia|]. split.
  - change (slice s s1 (cpl x y)) with (ztake (cpl x y) x). rewrite cpl_prefix. apply ztake_slice. lia.
  - intros Hlt. intros E. pose proof (cpl_stop x y) as Hst.
    assert (Hlx : forall k, 0 <= k -> s !! Z.to_nat (s1 + k) = x !! Z.to_nat k)
      by (intros k Hk; unfold x, zdrop; rewrite lookup_drop; f_equal; lia).
    assert (Hly : forall k, 0 <= k < s2_limit - s2 -> s !! Z.to_nat (s2 + k) = y !! Z.to_nat k)
      by (intros k Hk; unfold y; rewrite slice_lookup by lia; f_equal; lia).
    rewrite Hlx, Hly in E by lia. destruct (slice_head y (cpl x y)) as [c Hc]; [lia|]. by apply (Hst c).
Qed.

Lemma find_match_longest_witness :
  exists n, FindMatchLength [1; 2; 3; 1; 2; 4] 0 3 6 = Ok (n, n <? 8) /\
    0 <= n <= 6 - 3 /\ slice [1; 2; 3; 1; 2; 4] 0 n = slice [1; 2; 3; 1; 2; 4] 3 n /\
    (3 + n < 6 -> [1; 2; 3; 1; 2; 4] !! Z.to_nat (0 + n) <> [1; 2; 3; 1; 2; 4] !! Z.to_nat (3 + n)).
Proof.
  apply (find_match_longest [1; 2; 3; 1; 2; 4] 0 3 6); [|lia|vm_compute; split; discriminate].
  repeat (apply Forall_cons_2; [unfold byte_ok; lia|]). apply Forall_nil_2.
Defined.
