(* ===== verification/SnappyCompress.v ===== *)
(** * Snappy: the compressor

    Models [GetHashTable], [CompressFragment], [Compress] and [RawCompress] of
    [src/ufo-rt/lib/tsan/rtl/ufo/snappy/snappy.cc].  The hash table is a list
    of 16-bit entries, the two nested loops of [CompressFragment] recurse on
    fuel (one unit for each input byte is enough, see [compress_loop_ok]), and
    [goto emit_remainder] returns to the caller, which emits the remainder.

    A compressed fragment is a sequence of operations ([op]): a literal, or a
    copy from the output produced so far.  Shown: whatever the hash table
    sends the search to, the emitted operations rebuild the input; every load
    is inside the input; no store goes past [MaxCompressedLength]. *)
From stdpp Require Import base numbers list.
From Stdlib Require Import ZArith Lia.
From S2P Require Import Prelude Bits Memory SnappyBits.

Local Open Scope Z_scope.

Definition kBlockLog : Z := 16.
Definition kBlockSize : Z := Z.shiftl 1 kBlockLog.
Definition kMaxHashTableBits : Z := 14.
Definition kMaxHashTableSize : Z := Z.shiftl 1 kMaxHashTableBits.

(** [while (htsize < kMaxHashTableSize && htsize < input_size)]: at most six
    doublings. *)
Fixpoint table_size_loop (fuel : nat) (htsize input_size : Z) : Z :=
  match fuel with
  | O => htsize
  | S fuel' =>
      if (htsize <? kMaxHashTableSize) && (htsize <? input_size)
      then table_size_loop fuel' (Z.shiftl htsize 1) input_size
      else htsize
  end.

Definition GetHashTable (input_size : Z) : list Z * Z :=
  let htsize := table_size_loop 6 256 input_size in
  (replicate (Z.to_nat htsize) 0, htsize).

Definition table_get (table : list Z) (i : Z) : res Z :=
  if i <? 0 then Err EOutOfBounds else res_of_option EOutOfBounds (table !! Z.to_nat i).

Definition table_set (table : list Z) (i v : Z) : res (list Z) :=
  if (0 <=? i) && (i <? zlen table) then Ok (<[Z.to_nat i := u16 v]> table) else Err EOutOfBounds.

(** The search for a match (step 1), from the tag [do]: [None] is
    [goto emit_remainder]; a match is its position and its candidate. *)
Fixpoint scan (fuel : nat) (input : list Z) (shift ip_limit next_ip next_hash skip : Z)
    (table : list Z) : res (option (Z * Z) * list Z) :=
  match fuel with
  | O => Err EHang
  | S fuel' =>
      let ip := next_ip in
      let hash := next_hash in
      let bytes_between_hash_lookups := Z.shiftr skip 5 in
      let skip := skip + bytes_between_hash_lookups in
      let next_ip := ip + bytes_between_hash_lookups in
      if ip_limit <? next_ip then Ok (None, table)
      else
        next_hash ← Hash input next_ip shift;
        candidate ← table_get table hash;
        table ← table_set table hash ip;
        v ← UNALIGNED_LOAD32 input ip;
        w ← UNALIGNED_LOAD32 input candidate;
        if negb (v =? w) then scan fuel' input shift ip_limit next_ip next_hash skip table
        else Ok (Some (ip, candidate), table)
  end.

Definition GetUint32AtOffset (v offset : Z) : Z := u32 (Z.shiftr v (8 * offset)).

(** Where the copying loop (step 3) leaves off: at the end of the input, or
    with the position and hash for the next search. *)
Inductive copy_exit : Type :=
| CERemainder (next_emit : Z)
| CENext (next_emit ip next_hash : Z).

Fixpoint copies (fuel : nat) (input : list Z) (shift ip_limit ip_end ip candidate : Z)
    (table : list Z) (o : out) : res (copy_exit * list Z * out) :=
  match fuel with
  | O => Err EHang
  | S fuel' =>
      let base := ip in
      '(first, second) ← FindMatchLength input (candidate + 4) (ip + 4) ip_end;
      let matched := 4 + first in
      let ip := ip + matched in
      let offset := base - candidate in
      let o := EmitCopy o offset matched second in
      let next_emit := ip in
      if ip_limit <=? ip then Ok (CERemainder next_emit, table, o)
      else
        input_bytes ← UNALIGNED_LOAD64 input (ip - 1);
        let prev_hash := HashBytes (GetUint32AtOffset input_bytes 0) shift in
        table ← table_set table prev_hash (ip - 1);
        let cur_hash := HashBytes (GetUint32AtOffset input_bytes 1) shift in
        candidate ← table_get table cur_hash;
        candidate_bytes ← UNALIGNED_LOAD32 input candidate;
        table ← table_set table cur_hash ip;
        if GetUint32AtOffset input_bytes 1 =? candidate_bytes
        then copies fuel' input shift ip_limit ip_end ip candidate table o
        else Ok (CENext next_emit (ip + 1) (HashBytes (GetUint32AtOffset input_bytes 2) shift), table, o)
  end.

(** The outer loop; returns [next_emit] at [emit_remainder]. *)
Fixpoint compress_loop (fuel : nat) (input : list Z) (shift ip_limit ip_end ip next_emit next_hash : Z)
    (table : list Z) (o : out) : res (Z * out) :=
  match fuel with
  | O => Err EHang
  | S fuel' =>
      '(found, table) ← scan (S (length input)) input shift ip_limit ip next_hash 32 table;
      match found with
      | None => Ok (next_emit, o)
      | Some (ip, candidate) =>
          o ← EmitLiteral o input next_emit (ip - next_emit) true;
          '(e, table, o) ← copies (S (length input)) input shift ip_limit ip_end ip candidate table o;
          match e with
          | CERemainder next_emit => Ok (next_emit, o)
          | CENext next_emit ip next_hash =>
              compress_loop fuel' input shift ip_limit ip_end ip next_emit next_hash table o
          end
      end
  end.

Definition kInputMarginBytes : Z := 15.

(** [op] starts at the beginning of the output: positions of [out] are
    relative to it. *)
Definition CompressFragment (input : list Z) (table : list Z) (table_size : Z) : res out :=
  let input_size := zlen input in
  let shift := 32 - Log2Floor table_size in
  let ip_end := input_size in
  let o := Out [] 0 in
  '(next_emit, o) ←
    (if kInputMarginBytes <=? input_size then
       let ip_limit := input_size - kInputMarginBytes in
       let ip := 0 + 1 in
       next_hash ← Hash input ip shift;
       compress_loop (S (length input)) input shift ip_limit ip_end ip 0 next_hash table o
     else Ok (0, o));
  if next_emit <? ip_end then EmitLiteral o input next_emit (ip_end - next_emit) false
  else Ok o.

(** [while (N > 0)]: the fragments of a flat input, each at most [kBlockSize]
    bytes, are read in place ([ByteArraySource]) and compressed straight into
    the output ([UncheckedByteArraySink]). *)
Fixpoint Compress_loop (fuel : nat) (input : list Z) (written : list Z) : res (list Z) :=
  match input with
  | [] => Ok written
  | _ =>
      match fuel with
      | O => Err EHang
      | S fuel' =>
          let num_to_read := Z.min (zlen input) kBlockSize in
          let fragment := ztake num_to_read input in
          let '(table, table_size) := GetHashTable num_to_read in
          o ← CompressFragment fragment table table_size;
          Compress_loop fuel' (zdrop num_to_read input) (written ++ o.(o_bytes))
      end
  end.

Definition Compress (input : list Z) : res (list Z) :=
  Compress_loop (S (length input)) input (Encode32 (u32 (zlen input))).

Definition RawCompress (input : list Z) : res (list Z) := Compress input.

Inductive snappy_status := SNAPPY_OK | SNAPPY_INVALID_INPUT | SNAPPY_BUFFER_TOO_SMALL.

Definition snappy_max_compressed_length (source_length : Z) : Z := MaxCompressedLength source_length.

(** [*compressed_length] is [None] when the caller left it uninitialised. *)
Definition snappy_compress (input : list Z) (compressed_length : option Z)
  : res (snappy_status * list Z) :=
  n ← res_of_option EUndef compressed_length;
  if n <? snappy_max_compressed_length (zlen input) then Ok (SNAPPY_BUFFER_TOO_SMALL, [])
  else bs ← RawCompress input; Ok (SNAPPY_OK, bs).

(** ** Operations *)

Inductive op : Type :=
| OLit (bs : list Z)
| OCopy (offset len : Z).

Definition lit_tag (len : Z) : list Z :=
  let n := len - 1 in
  if n <? 60 then [u8 (Z.shiftl n 2)]
  else let ls := length_bytes 4 n in u8 (Z.shiftl (59 + zlen ls) 2) :: ls.

Definition copy_tag (offset len : Z) : list Z :=
  if (len <? 12) && (offset <? 2048)
  then [u8 (COPY_1_BYTE_OFFSET + Z.shiftl (len - 4) 2 + Z.land (Z.shiftr offset 3) 0xe0); u8 (Z.land offset 255)]
  else ztake 3 (le_bytes 4 (u32 (COPY_2_BYTE_OFFSET + Z.shiftl (len - 1) 2 + Z.shiftl offset 8))).

(** The encoding of an operation. *)
Definition op_bytes (p : op) : list Z :=
  match p with
  | OLit bs => lit_tag (zlen bs) ++ bs
  | OCopy offset len => copy_tag offset len
  end.

Definition op_ok (p : op) : Prop :=
  match p with
  | OLit bs => 1 <= zlen bs <= kBlockSize /\ Forall byte_ok bs
  | OCopy offset len => 1 <= offset < 65536 /\ 4 <= len <= 64
  end.

(** Copying from the output itself, byte by byte: the copied range may
    overlap the bytes being produced. *)
Fixpoint self_copy (n : nat) (offset : Z) (bs : list Z) : option (list Z) :=
  match n with
  | O => Some bs
  | S n' =>
      if (offset <=? 0) || (zlen bs <? offset) then None
      else c ← bs !! Z.to_nat (zlen bs - offset); self_copy n' offset (bs ++ [c])
  end.

Definition exec1 (bs : list Z) (p : op) : option (list Z) :=
  match p with
  | OLit l => Some (bs ++ l)
  | OCopy offset len => self_copy (Z.to_nat len) offset bs
  end.

Fixpoint exec (bs : list Z) (ps : list op) : option (list Z) :=
  match ps with
  | [] => Some bs
  | p :: ps' => bs' ← exec1 bs p; exec bs' ps'
  end.

(** ** What the emitters emit *)

Lemma zlen_cons {A} (a : A) l : zlen (a :: l) = zlen l + 1.
Proof. unfold zlen. cbn [length]. lia. Qed.

Lemma length_bytes_2 n : 60 <= n < 65536 -> 1 <= zlen (length_bytes 4 n) <= 2.
Proof.
  intros Hn. cbn [length_bytes]. rewrite (proj2 (Z.ltb_lt 0 n)) by lia. rewrite !shr_div by lia.
  change (2 ^ 8) with 256. rewrite !Z.div_div by lia. rewrite zlen_cons.
  rewrite (Z.div_small n (256 * 256)) by lia. change (0 <? 0) with false. cbv iota.
  destruct (0 <? n / 256); unfold zlen; cbn [length]; lia.
Qed.

Lemma lit_tag_len len :
  1 <= len <= 65536 -> 1 <= zlen (lit_tag len) <= 3 /\ (len <= 60 -> zlen (lit_tag len) = 1).
Proof.
  intros Hl. unfold lit_tag. cbv zeta. destruct (Z.ltb_spec (len - 1) 60).
  - change (zlen [u8 (Z.shiftl (len - 1) 2)]) with 1. lia.
  - rewrite zlen_cons. pose proof (length_bytes_2 (len - 1) ltac:(lia)). lia.
Qed.

Lemma read_slice_ok s p n : 0 <= p -> p + n <= zlen s -> read_slice s p n = Ok (slice s p n).
Proof. intros. unfold read_slice. by rewrite (proj2 (Z.leb_le 0 p)), (proj2 (Z.leb_le (p + n) _)) by lia. Qed.

Lemma EmitLiteral_ok o s p len (fast : bool) :
  0 <= p -> 1 <= len <= 65536 -> p + len <= zlen s -> (fast = true -> p + 16 <= zlen s) ->
  exists o', EmitLiteral o s p len fast = Ok o' /\
    o'.(o_bytes) = o.(o_bytes) ++ op_bytes (OLit (slice s p len)) /\
    o'.(o_touch) <= Z.max o.(o_touch) (zlen o.(o_bytes) + zlen (lit_tag len) + Z.max len 16).
Proof.
  intros Hp Hlen Hs Hf. unfold EmitLiteral, op_bytes. rewrite (zlen_slice s p len) by lia.
  destruct (fast && (len <=? 16)) eqn:Hfast.
  - apply andb_true_iff in Hfast as [-> Hle%Z.leb_le]. rewrite read_slice_ok, bind_ok by auto.
    eexists. split; [done|]. unfold emit, lit_tag. cbn [o_bytes o_touch].
    rewrite (proj2 (Z.ltb_lt (len - 1) 60)) by lia. rewrite ztake_slice, <- app_assoc by lia.
    rewrite zlen_app, zlen_slice by auto with lia.
    change (Z.lor LITERAL (Z.shiftl (len - 1) 2)) with (Z.shiftl (len - 1) 2).
    split; [done|]. change (zlen (ztake 1 [u8 (Z.shiftl (len - 1) 2)])) with 1.
    change (zlen [u8 (Z.shiftl (len - 1) 2)]) with 1. lia.
  - rewrite read_slice_ok, bind_ok by lia. eexists. split; [done|].
    set (tag := lit_tag len).
    assert (Ho : (if len - 1 <? 60 then emit o [u8 (Z.lor LITERAL (Z.shiftl (len - 1) 2))] 1
      else emit o (u8 (Z.lor LITERAL (Z.shiftl (59 + zlen (length_bytes 4 (len - 1))) 2)) :: length_bytes 4 (len - 1))
             (1 + zlen (length_bytes 4 (len - 1)))) = emit o tag (zlen tag)).
    { unfold tag, lit_tag. cbv zeta. destruct (len - 1 <? 60); [done|]. rewrite zlen_cons. f_equal. lia. }
    cbv zeta. rewrite Ho. unfold emit. cbn [o_bytes o_touch].
    rewrite ztake_zlen, (ztake_all len) by (rewrite zlen_slice; lia).
    rewrite zlen_app, zlen_slice, <- app_assoc by lia. split; [done|]. lia.
Qed.

Lemma copy_tag_len offset len : 2 <= zlen (copy_tag offset len) <= 3.
Proof.
  unfold copy_tag. case_match; [unfold zlen; cbn [length]; lia|].
  rewrite zlen_ztake; [lia|]. unfold zlen. rewrite length_le_bytes. lia.
Qed.

Lemma EmitCopyAtMost64_ok o offset len :
  (EmitCopyAtMost64 o offset len (len <? 12)).(o_bytes) = o.(o_bytes) ++ copy_tag offset len /\
  (EmitCopyAtMost64 o offset len (len <? 12)).(o_touch) <= Z.max o.(o_touch) (zlen o.(o_bytes) + 4).
Proof.
  unfold EmitCopyAtMost64, copy_tag. destruct ((len <? 12) && (offset <? 2048)); cbn [emit o_bytes o_touch].
  - split; [done|]. unfold zlen. cbn [length]. lia.
  - split; [done|]. unfold zlen. rewrite length_le_bytes. lia.
Qed.

(** The lengths of the copies one match is split into. *)
Record copy_lens (len : Z) (lens : list Z) (offset : Z) : Prop := {
  cl_sum : foldr Z.add 0 lens = len;
  cl_range : Forall (fun l => 4 <= l <= 64) lens;
  cl_size : 6 * zlen (concat (copy_tag offset <$> lens)) <= 7 * len - 10
}.

Definition copied (o : out) (offset : Z) (lens : list Z) (o' : out) : Prop :=
  o'.(o_bytes) = o.(o_bytes) ++ concat (copy_tag offset <$> lens) /\
  o'.(o_touch) <= Z.max o.(o_touch) (zlen o'.(o_bytes) + 2).

Lemma copied_one o offset len : copied o offset [len] (EmitCopyAtMost64 o offset len (len <? 12)).
Proof.
  destruct (EmitCopyAtMost64_ok o offset len) as [E T]. pose proof (copy_tag_len offset len).
  unfold copied. cbn [fmap list_fmap concat]. rewrite app_nil_r, E. split; [done|]. rewrite zlen_app. lia.
Qed.

Lemma copied_app o o1 o2 offset l1 l2 :
  copied o offset l1 o1 -> copied o1 offset l2 o2 -> copied o offset (l1 ++ l2) o2.
Proof.
  intros [E1 T1] [E2 T2]. unfold copied. rewrite fmap_app, concat_app, E2, E1, <- app_assoc. split; [done|].
  rewrite E2 in T2. rewrite app_assoc, <- E1. rewrite zlen_app in *.
  pose proof (zlen_nonneg (concat (copy_tag offset <$> l2))). lia.
Qed.

Lemma copy_lens_one offset len : 4 <= len <= 64 -> copy_lens len [len] offset.
Proof.
  intros H. pose proof (copy_tag_len offset len). constructor.
  - cbn. lia.
  - apply Forall_cons_2; [done|apply Forall_nil_2].
  - cbn [fmap list_fmap concat]. rewrite app_nil_r. lia.
Qed.

Lemma copy_lens_cons offset l len lens :
  12 <= l <= 64 -> copy_lens len lens offset -> copy_lens (l + len) (l :: lens) offset.
Proof.
  intros Hl [Hs Hr Hz]. pose proof (copy_tag_len offset l). constructor.
  - cbn. lia.
  - by apply Forall_cons_2; [lia|].
  - cbn [fmap list_fmap concat]. rewrite zlen_app. lia.
Qed.

Lemma EmitCopy_tail o offset len :
  4 <= len < 68 ->
  exists o' lens,
    (let '(o, len) := if 64 <? len then (EmitCopyAtMost64 o offset 60 false, len - 60) else (o, len) in
     EmitCopyAtMost64 o offset len (len <? 12)) = o' /\ copied o offset lens o' /\ copy_lens len lens offset.
Proof.
  intros Hl. destruct (Z.ltb_spec 64 len).
  - eexists _, ([60] ++ [len - 60]). split; [done|]. split.
    + eapply copied_app; [apply (copied_one o offset 60)|apply copied_one].
    + replace len with (60 + (len - 60)) at 1 by lia. apply copy_lens_cons; [lia|]. apply copy_lens_one. lia.
  - eexists _, [len]. split; [done|]. split; [apply copied_one|]. apply copy_lens_one. lia.
Qed.

Lemma EmitCopy_ok o offset len :
  4 <= len -> exists lens, copied o offset lens (EmitCopy o offset len (len <? 12)) /\ copy_lens len lens offset.
Proof.
  intros Hl. unfold EmitCopy. destruct (Z.ltb_spec len 12) as [H12|H12].
  - exists [len]. split; [|apply copy_lens_one; lia].
    pose proof (copied_one o offset len) as H. by rewrite (proj2 (Z.ltb_lt len 12)) in H.
  - assert (Hloop : forall fuel o len, 4 <= len -> (Z.to_nat len <= fuel)%nat ->
      exists lens, copied o offset lens
        (let '(o, len) := EmitCopy_loop fuel o offset len in
         let '(o, len) := if 64 <? len then (EmitCopyAtMost64 o offset 60 false, len - 60) else (o, len) in
         EmitCopyAtMost64 o offset len (len <? 12)) /\ copy_lens len lens offset); [|by apply Hloop].
    clear. induction fuel as [|fuel IH]; intros o len Hl Hf; [lia|]. cbn [EmitCopy_loop].
    destruct (Z.leb_spec 68 len) as [H68|H68].
    + destruct (IH (EmitCopyAtMost64 o offset 64 false) (len - 64)) as (lens & Hc & Hl'); [lia|lia|].
      exists ([64] ++ lens). split; [eapply copied_app; [apply (copied_one o offset 64)|exact Hc]|].
      replace len with (64 + (len - 64)) at 1 by lia. by apply copy_lens_cons.
    + destruct (EmitCopy_tail o offset len) as (o' & lens & E & Hc & Hl'); [lia|].
      exists lens. rewrite E. done.
Qed.

(** ** Running the operations *)

Lemma exec_app bs ps qs : exec bs (ps ++ qs) = (bs' ← exec bs ps; exec bs' qs).
Proof.
  revert bs. induction ps as [|p ps IH]; intros bs; cbn [app exec]; [done|].
  destruct (exec1 bs p) as [bs'|]; [|done]. cbn. apply IH.
Qed.

Lemma self_copy_add a b offset bs :
  self_copy (a + b) offset bs = (bs' ← self_copy a offset bs; self_copy b offset bs').
Proof.
  revert bs. induction a as [|a IH]; intros bs; cbn [Nat.add self_copy]; [done|].
  destruct (_ || _); [done|]. destruct (bs !! _) as [c|]; [|done]. cbn. apply IH.
Qed.

(** A match in the input is rebuilt by a copy. *)
Lemma self_copy_match input candidate ip (n : nat) :
  0 <= candidate < ip -> ip + Z.of_nat n <= zlen input ->
  slice input candidate (Z.of_nat n) = slice input ip (Z.of_nat n) ->
  self_copy n (ip - candidate) (ztake ip input) = Some (ztake (ip + Z.of_nat n) input).
Proof.
  intros Hc Hl E.
  assert (Hat : forall k, (k <= n)%nat ->
    self_copy (n - k) (ip - candidate) (ztake (ip + Z.of_nat k) input) = Some (ztake (ip + Z.of_nat n) input)).
  2: { specialize (Hat 0%nat ltac:(lia)). rewrite Nat.sub_0_r, Z.add_0_r in Hat. exact Hat. }
  intros k Hk. remember (n - k)%nat as r eqn:Hr. revert k Hk Hr.
  induction r as [|r IH]; intros k Hk Hr; cbn [self_copy]; [by replace k with n by lia|].
  rewrite zlen_ztake by lia. rewrite (proj2 (Z.leb_gt _ 0)), (proj2 (Z.ltb_ge _ _)) by lia. cbn [orb].
  destruct (slice_head input (ip + Z.of_nat k)) as [c Hcc]; [lia|].
  assert (Hlk : ztake (ip + Z.of_nat k) input !! Z.to_nat (ip + Z.of_nat k - (ip - candidate)) = Some c).
  { unfold ztake. rewrite lookup_take_lt by lia.
    pose proof (f_equal (.!! k) E) as Ek. rewrite !slice_lookup in Ek by lia.
    replace (Z.to_nat (ip + Z.of_nat k - (ip - candidate))) with (Z.to_nat candidate + k)%nat by lia.
    rewrite Ek, <- Hcc. f_equal. lia. }
  rewrite Hlk. cbn [mbind option_bind].
  replace (ztake (ip + Z.of_nat k) input ++ [c]) with (ztake (ip + Z.of_nat (S k)) input).
  - apply IH; lia.
  - unfold ztake. replace (Z.to_nat (ip + Z.of_nat (S k))) with (S (Z.to_nat (ip + Z.of_nat k))) by lia.
    by apply take_S_r.
Qed.

Lemma exec_copies offset lens bs :
  Forall (fun l => 4 <= l <= 64) lens ->
  exec bs (OCopy offset <$> lens) = self_copy (Z.to_nat (foldr Z.add 0 lens)) offset bs.
Proof.
  intros H. revert bs. induction H as [|l lens Hl Hr IH]; intros bs; cbn [fmap list_fmap exec exec1 foldr]; [done|].
  assert (0 <= foldr Z.add 0 lens) by (clear -Hr; induction Hr; cbn; lia).
  rewrite Z2Nat.inj_add, self_copy_add by lia. destruct (self_copy _ offset bs); [|done]. cbn. apply IH.
Qed.

(** ** The state of a compression

    [c] bytes of the input are encoded by the operations emitted so far, in
    7/6 of their size up to [k] sixths of a byte. *)
Record emitted (input : list Z) (c k : Z) (o : out) : Prop := {
  em_ops : exists ops, o.(o_bytes) = concat (op_bytes <$> ops) /\ Forall op_ok ops /\
             exec [] ops = Some (ztake c input);
  em_size : 6 * zlen o.(o_bytes) <= 7 * c + k;
  em_touch : 6 * o.(o_touch) <= 7 * zlen input + 102
}.

Lemma emitted_literal input c k len o (fast : bool) :
  Forall byte_ok input -> zlen input <= kBlockSize -> emitted input c k o -> k <= 0 -> 0 <= c -> 1 <= len ->
  c + len <= zlen input -> (fast = true -> c + 16 <= zlen input) ->
  exists o', EmitLiteral o input c len fast = Ok o' /\
    emitted input (c + len) (if len <=? 60 then k + 5 else k) o'.
Proof.
  intros Hok Hb [(ops & E & Ho & Hx) Hs Ht] Hk Hc Hlen Hl Hf.
  change kBlockSize with 65536 in Hb.
  destruct (EmitLiteral_ok o input c len fast) as (o' & Eo & Ebytes & Etouch); [done|lia|done|done|].
  pose proof (lit_tag_len len ltac:(lia)) as [Htag Htag1].
  assert (Hz : zlen (slice input c len) = len) by (apply zlen_slice; lia).
  exists o'. split; [done|]. constructor.
  - exists (ops ++ [OLit (slice input c len)]). split; [|split].
    + rewrite fmap_app, concat_app, Ebytes, E. cbn [fmap list_fmap concat]. by rewrite app_nil_r.
    + apply Forall_app. split; [done|]. apply Forall_cons_2; [|apply Forall_nil_2].
      cbn [op_ok]. rewrite Hz. change kBlockSize with 65536. split; [lia|by apply slice_ok].
    + rewrite exec_app, Hx. cbn [mbind option_bind exec exec1]. f_equal.
      unfold slice, ztake, zdrop. rewrite take_take_drop, Z2Nat.inj_add by lia. done.
  - rewrite Ebytes, zlen_app. cbn [op_bytes]. rewrite zlen_app, Hz. destruct (Z.leb_spec len 60); lia.
  - destruct (Z.max_spec len 16), (Z.le_gt_cases len 60); lia.
Qed.

Lemma emitted_weaken input c k k' o : emitted input c k o -> k <= k' -> emitted input c k' o.
Proof. intros [H1 H2 H3] H. constructor; [done|lia|done]. Qed.

Lemma emitted_copy input c k len candidate o :
  emitted input c k o -> k <= 5 -> 0 <= candidate < c -> c - candidate < 65536 -> 4 <= len -> c + len <= zlen input ->
  slice input candidate len = slice input c len ->
  emitted input (c + len) (k - 10) (EmitCopy o (c - candidate) len (len <? 12)).
Proof.
  intros [(ops & E & Ho & Hx) Hs Ht] Hk Hc Hoff Hlen Hl Hm.
  destruct (EmitCopy_ok o (c - candidate) len Hlen) as (lens & [Eb Et] & [Hsum Hr Hz]).
  constructor.
  - exists (ops ++ (OCopy (c - candidate) <$> lens)). split; [|split].
    + rewrite fmap_app, concat_app, Eb, E, <- list_fmap_compose. done.
    + apply Forall_app. split; [done|]. apply Forall_fmap. eapply Forall_impl; [exact Hr|].
      intros l Hl'. cbv beta in Hl'. change (op_ok (OCopy (c - candidate) l)). cbn [op_ok]. lia.
    + rewrite exec_app, Hx. cbn [mbind option_bind]. rewrite exec_copies, Hsum by done.
      pose proof (self_copy_match input candidate c (Z.to_nat len)) as H.
      rewrite Z2Nat.id in H by lia. by apply H.
  - rewrite Eb, zlen_app. lia.
  - rewrite Eb, zlen_app in Et. lia.
Qed.

(** ** The loops *)

Section Fragment.
Context (input : list Z) (bits : Z).
Context (Hok : Forall byte_ok input) (Hblock : zlen input <= kBlockSize) (Hbits : 0 <= bits <= 32).
Context (Hmargin : kInputMarginBytes <= zlen input).

Local Abbreviation shift := (32 - bits).
Local Abbreviation ip_limit := (zlen input - kInputMarginBytes).

(** The table has [2^bits] entries, all of them positions before [ip]. *)
Definition table_ok (ip : Z) (table : list Z) : Prop :=
  zlen table = 2 ^ bits /\ Forall (fun e => 0 <= e < ip) table.

Lemma HashBytes_range v : 0 <= HashBytes v shift < 2 ^ bits.
Proof.
  unfold HashBytes. rewrite shr_div by lia.
  pose proof (wrap_range 32 (v * 0x1e35a7bd) ltac:(lia)) as Hr. fold (u32 (v * 0x1e35a7bd)) in Hr.
  pose proof (pow2_pos (32 - bits) ltac:(lia)).
  split; [apply Z.div_pos; lia|]. apply Z.div_lt_upper_bound; [lia|].
  rewrite <- Z.pow_add_r by lia. replace (32 - bits + bits) with 32 by lia. lia.
Qed.

Lemma table_get_ok ip table h :
  table_ok ip table -> 0 <= h < 2 ^ bits -> exists c, table_get table h = Ok c /\ 0 <= c < ip.
Proof.
  intros [Hl Hf] Hh. unfold table_get. rewrite (proj2 (Z.ltb_ge h 0)) by lia.
  destruct (slice_head table h) as [c Hc]; [lia|]. rewrite Hc. exists c. split; [done|].
  exact (Forall_lookup_1 _ _ _ _ Hf Hc).
Qed.

Lemma table_set_ok ip table h v :
  table_ok ip table -> 0 <= h < 2 ^ bits -> ip <= v + 1 -> 0 <= v < 65536 ->
  exists table', table_set table h v = Ok table' /\ table_ok (v + 1) table'.
Proof.
  intros [Hl Hf] Hh Hv Hv'. unfold table_set. rewrite (proj2 (Z.leb_le 0 h)), (proj2 (Z.ltb_lt h _)) by lia.
  eexists. split; [done|]. split; [unfold zlen in *; by rewrite length_insert|].
  apply Forall_insert.
  - eapply Forall_impl; [exact Hf|]. cbv beta. lia.
  - unfold u16. rewrite wrap_small by (change (2 ^ 16) with 65536; lia). lia.
Qed.

Lemma load32_ok p : 0 <= p -> p + 4 <= zlen input -> UNALIGNED_LOAD32 input p = Ok (le_val (slice input p 4)).
Proof. apply load_le_ok. Qed.

(** Equal words are equal bytes. *)
Lemma load32_eq p q :
  0 <= p -> p + 4 <= zlen input -> 0 <= q -> q + 4 <= zlen input ->
  le_val (slice input p 4) = le_val (slice input q 4) -> slice input p 4 = slice input q 4.
Proof.
  intros Hp Hp4 Hq Hq4. apply le_val_inj; [by apply slice_ok|by apply slice_ok|].
  pose proof (zlen_slice input p 4). pose proof (zlen_slice input q 4). unfold zlen in *. lia.
Qed.

(** A match the search can report. *)
Definition match_at (ip candidate : Z) : Prop :=
  0 <= candidate < ip /\ ip < ip_limit /\ slice input candidate 4 = slice input ip 4.

Lemma scan_ok fuel ip h skip table :
  0 < ip -> table_ok ip table -> 0 <= h < 2 ^ bits -> 32 <= skip ->
  (Z.to_nat (ip_limit - ip) < fuel)%nat ->
  exists found table', scan fuel input shift ip_limit ip h skip table = Ok (found, table') /\
    match found with
    | None => True
    | Some (ip', candidate) => ip <= ip' /\ match_at ip' candidate /\ table_ok (ip' + 1) table'
    end.
Proof.
  change kInputMarginBytes with 15 in *. change kBlockSize with 65536 in *.
  revert ip h skip table. induction fuel as [|fuel IH]; intros ip h skip table Hip Ht Hh Hskip Hf; [lia|].
  cbn [scan]. assert (Hb : 1 <= Z.shiftr skip 5).
  { rewrite shr_div by lia. change (2 ^ 5) with 32. apply Z.div_le_lower_bound; lia. }
  change kInputMarginBytes with 15.
  destruct (Z.ltb_spec (zlen input - 15) (ip + Z.shiftr skip 5)) as [Hgt|Hle]; [by exists None, table|].
  unfold Hash. rewrite (load32_ok (ip + Z.shiftr skip 5)), !bind_ok by lia.
  destruct (table_get_ok ip table h Ht Hh) as (c & -> & Hc). rewrite bind_ok.
  destruct (table_set_ok ip table h ip Ht Hh) as (table' & -> & Ht'); [lia|lia|]. rewrite bind_ok.
  rewrite !load32_ok, !bind_ok by lia.
  destruct (Z.eqb_spec (le_val (slice input ip 4)) (le_val (slice input c 4))) as [E|E]; cbn [negb].
  - eexists (Some (ip, c)), table'. split; [done|]. split; [lia|]. split; [|done].
    apply load32_eq in E; [|lia..]. unfold match_at. change kInputMarginBytes with 15. split; [lia|]. split; [lia|done].
  - destruct (IH (ip + Z.shiftr skip 5) (HashBytes (le_val (slice input (ip + Z.shiftr skip 5) 4)) shift)
        (skip + Z.shiftr skip 5) table') as (found & t & Hs & Hres);
      [lia| |apply HashBytes_range|lia|lia|].
    { destruct Ht' as [? Hfa]. split; [done|]. eapply Forall_impl; [exact Hfa|]. cbv beta. lia. }
    exists found, t. split; [done|]. destruct found as [[ip' c']|]; [|done].
    destruct Hres as (? & ? & ?). split; [lia|done].
Qed.

(** The match extended as far as it goes. *)
Lemma match_extend ip candidate :
  match_at ip candidate ->
  exists first, FindMatchLength input (candidate + 4) (ip + 4) (zlen input) = Ok (first, first <? 8) /\
    0 <= first /\ ip + (4 + first) <= zlen input /\
    slice input candidate (4 + first) = slice input ip (4 + first).
Proof.
  intros (Hc & Hip & E). change kInputMarginBytes with 15 in *.
  rewrite (FindMatchLength_ok input Hok (candidate + 4) (zlen input)) by lia.
  set (x := zdrop (candidate + 4 + 0) input). set (y := slice input (ip + 4) (zlen input - (ip + 4))).
  exists (cpl x y). split; [done|]. pose proof (cpl_nonneg x y) as Hn. pose proof (cpl_le x y) as [_ Hle].
  assert (Hy : zlen y = zlen input - (ip + 4)) by (apply zlen_slice; lia).
  split; [done|]. split; [lia|].
  rewrite (slice_split input candidate (4 + cpl x y) 4), (slice_split input ip (4 + cpl x y) 4), E by lia.
  f_equal. replace (4 + cpl x y - 4) with (cpl x y) by lia.
  pose proof (cpl_prefix x y) as Hp. remember (cpl x y) as n eqn:Hdef. unfold x, y in Hp.
  rewrite Z.add_0_r in Hp. rewrite ztake_slice in Hp by lia. exact Hp.
Qed.

Lemma uint32_at_1 p :
  1 <= p -> p + 7 <= zlen input ->
  exists v, UNALIGNED_LOAD64 input (p - 1) = Ok v /\ GetUint32AtOffset v 1 = le_val (slice input p 4).
Proof.
  intros Hp Hl. exists (le_val (slice input (p - 1) 8)). split; [apply load_le_ok; lia|].
  destruct (slice_head input (p - 1)) as [a Ha]; [lia|].
  replace 8 with (7 + 1) by lia. rewrite (slice_cons input (p - 1) 7 a) by (done || lia).
  replace (p - 1 + 1) with p by lia. rewrite (slice_split input p 7 4) by lia.
  pose proof (Forall_lookup_1 byte_ok input _ a Hok Ha) as Hba. cbn [le_val].
  unfold GetUint32AtOffset, u32, wrap. rewrite shr_div by lia. change (2 ^ (8 * 1)) with 256.
  rewrite Z.add_comm, Z.mul_comm, Z.div_add_l, (Z.div_small a) by (unfold byte_ok in Hba; lia).
  rewrite Z.add_0_r.
  assert (Happ : forall x y, le_val (x ++ y) = le_val x + 2 ^ (8 * zlen x) * le_val y).
  { induction x as [|b x IHx]; intros y; [cbn; destruct (le_val y); done|].
    cbn [app le_val]. rewrite IHx, zlen_cons. replace (8 * (zlen x + 1)) with (8 + 8 * zlen x) by lia.
    rewrite Z.pow_add_r by (pose proof (zlen_nonneg x); lia). change (2 ^ 8) with 256. ring. }
  rewrite Happ, zlen_slice by lia. change (8 * 4) with 32.
  rewrite (Z.mul_comm (2 ^ 32)), Z.mod_add by lia. apply Z.mod_small.
  pose proof (le_val_range (slice input p 4) (slice_ok _ _ _ Hok)) as Hr.
  pose proof (zlen_slice input p 4 ltac:(lia) ltac:(lia) ltac:(lia)) as Hz. unfold zlen in Hz.
  rewrite Hz in Hr. exact Hr.
Qed.

Lemma table_weaken ip ip' table : table_ok ip table -> ip <= ip' -> table_ok ip' table.
Proof. intros [Hl Hf] H. split; [done|]. eapply Forall_impl; [exact Hf|]. cbv beta. lia. Qed.

(** What the copying loop leaves behind. *)
Definition copies_post (ip : Z) (e : copy_exit) (table : list Z) (o : out) : Prop :=
  match e with
  | CERemainder next_emit => ip < next_emit <= zlen input /\ emitted input next_emit (-5) o
  | CENext next_emit ip' h =>
      ip < next_emit < ip_limit /\ ip' = next_emit + 1 /\ emitted input next_emit (-5) o /\
      table_ok ip' table /\ 0 <= h < 2 ^ bits
  end.

Lemma copies_ok fuel ip candidate table o :
  match_at ip candidate -> table_ok (ip + 1) table -> emitted input ip 5 o ->
  (Z.to_nat (ip_limit - ip) <= fuel)%nat ->
  exists e table' o', copies fuel input shift ip_limit (zlen input) ip candidate table o = Ok (e, table', o') /\
    copies_post ip e table' o'.
Proof.
  unfold kInputMarginBytes in *. change kBlockSize with 65536 in *.
  revert ip candidate table o. induction fuel as [|fuel IH]; intros ip c table o Hm Ht He Hf.
  { destruct Hm as (? & ? & ?). unfold kInputMarginBytes in *. lia. }
  cbn [copies]. destruct (match_extend ip c Hm) as (first & -> & Hfirst & Hend & Hslice). rewrite bind_ok.
  destruct Hm as (Hc & Hip & _). unfold kInputMarginBytes in *.
  replace (first <? 8) with (4 + first <? 12) by (destruct (Z.ltb_spec (4 + first) 12), (Z.ltb_spec first 8); lia).
  pose proof (emitted_copy input ip 5 (4 + first) c o He ltac:(lia) ltac:(lia) ltac:(lia) ltac:(lia) ltac:(lia) Hslice) as He'.
  change (5 - 10) with (-5) in He'.
  set (o' := EmitCopy o (ip - c) (4 + first) (4 + first <? 12)) in *.
  set (ip' := ip + (4 + first)) in *.
  destruct (Z.leb_spec (zlen input - 15) ip') as [Hrem|Hcont].
  { eexists (CERemainder ip'), table, o'. split; [done|]. cbn. split; [lia|done]. }
  destruct (uint32_at_1 ip') as (v & -> & Hv); [lia|lia|]. rewrite bind_ok.
  destruct (table_set_ok (ip + 1) table (HashBytes (GetUint32AtOffset v 0) shift) (ip' - 1))
    as (t1 & -> & Ht1); [done|apply HashBytes_range|lia|lia|]. rewrite bind_ok.
  destruct (table_get_ok _ t1 (HashBytes (GetUint32AtOffset v 1) shift) Ht1) as (c' & -> & Hc');
    [apply HashBytes_range|]. rewrite bind_ok.
  rewrite load32_ok, bind_ok by lia.
  destruct (table_set_ok _ t1 (HashBytes (GetUint32AtOffset v 1) shift) ip' Ht1) as (t2 & -> & Ht2);
    [apply HashBytes_range|lia|lia|]. rewrite bind_ok, Hv.
  destruct (Z.eqb_spec (le_val (slice input ip' 4)) (le_val (slice input c' 4))) as [E|E].
  - destruct (IH ip' c' t2 o') as (e & t3 & o3 & Hcp & Hpost).
    + split; [lia|]. unfold kInputMarginBytes. split; [lia|]. symmetry. apply load32_eq; (done || lia).
    + done.
    + by eapply emitted_weaken; [exact He'|].
    + lia.
    + exists e, t3, o3. split; [done|]. destruct e; cbn [copies_post] in *; intuition lia.
  - eexists (CENext ip' (ip' + 1) _), t2, o'. split; [done|]. cbn [copies_post].
    unfold kInputMarginBytes. split; [lia|]. split; [done|]. split; [done|]. split; [done|apply HashBytes_range].
Qed.

Lemma compress_loop_ok fuel ip next_emit h table o :
  0 <= next_emit < ip -> next_emit <= zlen input -> table_ok ip table -> 0 <= h < 2 ^ bits ->
  emitted input next_emit (if next_emit =? 0 then 0 else -5) o ->
  (Z.to_nat (zlen input - next_emit) < fuel)%nat ->
  exists next_emit' o', compress_loop fuel input shift ip_limit (zlen input) ip next_emit h table o = Ok (next_emit', o') /\
    0 <= next_emit' <= zlen input /\ emitted input next_emit' (if next_emit' =? 0 then 0 else -5) o'.
Proof.
  unfold kInputMarginBytes in *.
  revert ip next_emit h table o. induction fuel as [|fuel IH]; intros ip ne h table o Hne Hl Ht Hh He Hf; [lia|].
  cbn [compress_loop].
  destruct (scan_ok (S (length input)) ip h 32 table) as (found & t1 & Hs & Hres);
    [lia|done|done|lia|unfold kInputMarginBytes, zlen in *; lia|].
  unfold kInputMarginBytes in Hs. rewrite Hs, bind_ok. cbv beta iota.
  destruct found as [[ip' c]|]; [|exists ne, o; split; [done|]; split; [lia|done]].
  destruct Hres as (Hge & Hm & Ht1). pose proof Hm as (Hc & Hip' & _). unfold kInputMarginBytes in Hip'.
  destruct (emitted_literal input ne (if ne =? 0 then 0 else -5) (ip' - ne) o true) as (o1 & -> & He1);
    [done|done|done|case_match; lia|lia|lia|lia|lia|].
  rewrite bind_ok. replace (ne + (ip' - ne)) with ip' in He1 by lia.
  apply (emitted_weaken _ _ _ 5) in He1; [|repeat case_match; lia].
  destruct (copies_ok (S (length input)) ip' c t1 o1 Hm Ht1 He1) as (e & t2 & o2 & Hcp & Hpost);
    [unfold kInputMarginBytes, zlen in *; lia|].
  unfold kInputMarginBytes in Hcp. rewrite Hcp, bind_ok. cbv beta iota.
  destruct e as [ne'|ne' ip'' h']; cbn [copies_post] in Hpost.
  - exists ne', o2. split; [done|]. split; [lia|]. rewrite (proj2 (Z.eqb_neq _ _)) by lia. apply Hpost.
  - destruct Hpost as (Hb & -> & He2 & Ht2 & Hh'). unfold kInputMarginBytes in Hb.
    apply IH; try (done || lia). rewrite (proj2 (Z.eqb_neq _ _)) by lia. done.
Qed.
End Fragment.

Lemma emitted_nil input : emitted input 0 0 (Out [] 0).
Proof.
  constructor; cbn [o_bytes o_touch]; [|unfold zlen; cbn; lia|pose proof (zlen_nonneg input); lia].
  exists []. split; [done|]. split; [apply Forall_nil_2|]. unfold ztake. by rewrite take_0.
Qed.

(** [CompressFragment] on a fresh table of [2^bits] zero entries. *)
Lemma CompressFragment_ok input bits :
  Forall byte_ok input -> zlen input <= kBlockSize -> 0 <= bits < 32 ->
  exists o, CompressFragment input (replicate (Z.to_nat (2 ^ bits)) 0) (2 ^ bits) = Ok o /\
    emitted input (zlen input) (if zlen input <=? 60 then 5 else 0) o.
Proof.
  intros Hok Hblk Hbits. unfold CompressFragment. pose proof (zlen_nonneg input).
  pose proof (pow2_pos bits ltac:(lia)).
  assert (Log2Floor (2 ^ bits) = bits) as ->.
  { rewrite Log2Floor_ok; [apply Z.log2_pow2; lia|]. split; [done|]. apply Z.pow_lt_mono_r; lia. }
  assert (Hmain : exists ne o,
    (if kInputMarginBytes <=? zlen input then
       next_hash ← Hash input (0 + 1) (32 - bits);
       compress_loop (S (length input)) input (32 - bits) (zlen input - kInputMarginBytes) (zlen input)
         (0 + 1) 0 next_hash (replicate (Z.to_nat (2 ^ bits)) 0) (Out [] 0)
     else Ok (0, Out [] 0)) = Ok (ne, o) /\ 0 <= ne <= zlen input /\ emitted input ne (if ne =? 0 then 0 else -5) o).
  { destruct (Z.leb_spec kInputMarginBytes (zlen input)) as [Hm|Hm].
    - unfold Hash, UNALIGNED_LOAD32. rewrite load_le_ok, bind_ok, bind_ok by (unfold kInputMarginBytes in Hm; lia).
      apply compress_loop_ok; try done; try lia.
      + split; [rewrite zlen_replicate; lia|]. apply Forall_replicate. lia.
      + apply HashBytes_range. lia.
      + apply emitted_nil.
      + unfold zlen. lia.
    - exists 0, (Out [] 0). split; [done|]. split; [lia|apply emitted_nil]. }
  destruct Hmain as (ne & o & Hrun & Hne & He). cbv zeta. rewrite Hrun, bind_ok. cbv beta iota.
  destruct (Z.ltb_spec ne (zlen input)) as [Hlt|Hge].
  - destruct (emitted_literal input ne (if ne =? 0 then 0 else -5) (zlen input - ne) o false) as (o' & E & He');
      [done|done|done|case_match; lia|lia|lia|lia|done|].
    exists o'. split; [done|]. replace (ne + (zlen input - ne)) with (zlen input) in He' by lia.
    eapply emitted_weaken; [exact He'|].
    destruct (Z.leb_spec (zlen input) 60), (Z.leb_spec (zlen input - ne) 60), (Z.eqb_spec ne 0); lia.
  - exists o. split; [done|]. assert (ne = zlen input) as Ene by lia. rewrite Ene in He.
    eapply emitted_weaken; [exact He|]. repeat case_match; lia.
Qed.

(** ** Several fragments *)

Lemma table_size_loop_ok fuel b n :
  0 <= b -> exists b', b <= b' <= b + Z.of_nat fuel /\ table_size_loop fuel (2 ^ b) n = 2 ^ b'.
Proof.
  revert b. induction fuel as [|fuel IH]; intros b Hb; cbn [table_size_loop].
  - exists b. split; [lia|done].
  - case_match.
    + rewrite Z.shiftl_mul_pow2 by lia. change (2 ^ 1) with (2 ^ 1). rewrite <- Z.pow_add_r by lia.
      destruct (IH (b + 1)) as (b' & Hb' & ->); [lia|]. exists b'. split; [lia|done].
    + exists b. split; [lia|done].
Qed.

Lemma GetHashTable_ok n :
  exists bits, 8 <= bits <= 14 /\ GetHashTable n = (replicate (Z.to_nat (2 ^ bits)) 0, 2 ^ bits).
Proof.
  unfold GetHashTable. destruct (table_size_loop_ok 6 8 n) as (b & Hb & E); [lia|].
  change (2 ^ 8) with 256 in E. rewrite E. exists b. split; [lia|done].
Qed.

Lemma self_copy_prefix pre n offset bs r :
  self_copy n offset bs = Some r -> self_copy n offset (pre ++ bs) = Some (pre ++ r).
Proof.
  revert bs. induction n as [|n IH]; intros bs; cbn [self_copy]; [by intros [= <-]|].
  destruct ((offset <=? 0) || (zlen bs <? offset)) eqn:Hc; [done|].
  apply orb_false_iff in Hc as [H1%Z.leb_gt H2%Z.ltb_ge]. pose proof (zlen_nonneg pre).
  rewrite (proj2 (Z.leb_gt _ _)), (proj2 (Z.ltb_ge _ _)) by (rewrite ?zlen_app; lia). cbn [orb].
  destruct (bs !! Z.to_nat (zlen bs - offset)) as [c|] eqn:Hl; [|done]. cbn [mbind option_bind].
  rewrite lookup_app_r by (unfold zlen in *; rewrite length_app; lia).
  replace (Z.to_nat (zlen (pre ++ bs) - offset) - length pre)%nat with (Z.to_nat (zlen bs - offset))
    by (unfold zlen in *; rewrite length_app; lia).
  rewrite Hl. cbn [mbind option_bind]. rewrite <- app_assoc. apply IH.
Qed.

Lemma exec_prefix pre ps bs r : exec bs ps = Some r -> exec (pre ++ bs) ps = Some (pre ++ r).
Proof.
  revert bs. induction ps as [|p ps IH]; intros bs; cbn [exec]; [by intros [= <-]|].
  destruct (exec1 bs p) as [bs'|] eqn:E; [|done]. cbn [mbind option_bind]. intros H.
  assert (exec1 (pre ++ bs) p = Some (pre ++ bs')) as ->.
  { destruct p; cbn [exec1] in *; [|by apply self_copy_prefix]. simplify_eq. by rewrite app_assoc. }
  cbn [mbind option_bind]. by apply IH.
Qed.

Definition rest_bound (n : Z) : Z := if n =? 0 then 0 else 5.

Lemma Compress_loop_ok fuel input written :
  Forall byte_ok input -> (length input <= fuel)%nat ->
  exists ops, Compress_loop fuel input written = Ok (written ++ concat (op_bytes <$> ops)) /\
    Forall op_ok ops /\ exec [] ops = Some input /\
    6 * zlen (concat (op_bytes <$> ops)) <= 7 * zlen input + rest_bound (zlen input).
Proof.
  revert input written. induction fuel as [|fuel IH]; intros input written Hok Hf.
  - destruct input; [|cbn in Hf; lia]. exists []. rewrite app_nil_r. split; [done|]. split; [apply Forall_nil_2|]. done.
  - destruct input as [|x input']; [exists []; rewrite app_nil_r; split; [done|]; split; [apply Forall_nil_2|done]|].
    set (input := x :: input') in *. cbn [Compress_loop]. unfold input at 1. fold input.
    assert (Hpos : 1 <= zlen input) by (unfold input, zlen; cbn [length]; lia).
    change kBlockSize with 65536. set (n := Z.min (zlen input) 65536).
    assert (Hn : 1 <= n <= zlen input) by lia.
    destruct (GetHashTable_ok n) as (bits & Hbits & ->).
    destruct (CompressFragment_ok (ztake n input) bits) as (o & -> & [(ops1 & E1 & Ho1 & Hx1) Hs1 _]).
    { unfold ztake. by apply Forall_take. } { rewrite zlen_ztake by lia. change kBlockSize with 65536. lia. } { lia. }
    rewrite bind_ok. rewrite (zlen_ztake n) in * by lia. rewrite (ztake_all n (ztake n input)) in Hx1
      by (rewrite zlen_ztake; lia).
    destruct (IH (zdrop n input) (written ++ o_bytes o)) as (ops2 & -> & Ho2 & Hx2 & Hs2).
    { unfold zdrop. by apply Forall_drop. } { unfold zdrop, zlen in *. rewrite length_drop. lia. }
    exists (ops1 ++ ops2). rewrite fmap_app, concat_app, <- E1, app_assoc. split; [done|].
    split; [by apply Forall_app|]. split.
    + rewrite exec_app, Hx1. cbn [mbind option_bind].
      rewrite <- (app_nil_r (ztake n input)) at 1. erewrite exec_prefix by exact Hx2. by rewrite ztake_zdrop.
    + rewrite zlen_app. rewrite zlen_zdrop in Hs2 by lia. unfold rest_bound in *.
      rewrite (proj2 (Z.eqb_neq (zlen input) 0)) by lia.
      destruct (Z.leb_spec n 60), (Z.eqb_spec (zlen input - n) 0); lia.
Qed.

Lemma Encode32_len v : zlen (Encode32 v) <= 5.
Proof. unfold Encode32. repeat case_match; unfold zlen; cbn [length]; lia. Qed.

Lemma Compress_ok input :
  Forall byte_ok input ->
  exists ops, Compress input = Ok (Encode32 (u32 (zlen input)) ++ concat (op_bytes <$> ops)) /\
    Forall op_ok ops /\ exec [] ops = Some input /\
    zlen (Encode32 (u32 (zlen input)) ++ concat (op_bytes <$> ops)) <= MaxCompressedLength (zlen input).
Proof.
  intros Hok. unfold Compress.
  destruct (Compress_loop_ok (S (length input)) input (Encode32 (u32 (zlen input))) Hok ltac:(lia))
    as (ops & E & Ho & Hx & Hs).
  exists ops. split; [done|]. split; [done|]. split; [done|]. rewrite zlen_app.
  pose proof (Encode32_len (u32 (zlen input))). unfold MaxCompressedLength, rest_bound in *.
  pose proof (Z.div_mod (zlen input) 6 ltac:(lia)). pose proof (Z.mod_pos_bound (zlen input) 6 ltac:(lia)).
  case_match; lia.
Qed.

(** ** Theorems *)

(** C22: a fragment is compressed losslessly within its bound.  Whatever the
    input, [CompressFragment] on the table [GetHashTable] hands out returns,
    without a load outside the fragment; the emitted operations rebuild the
    fragment; and no store, the 16-byte ones of the fast path included, goes
    beyond [MaxCompressedLength]. *)
Theorem compress_fragment_correct (input : list Z) :
  Forall byte_ok input -> zlen input <= kBlockSize ->
  exists o ops,
    (let '(table, table_size) := GetHashTable (zlen input) in CompressFragment input table table_size) = Ok o /\
    o.(o_bytes) = concat (op_bytes <$> ops) /\ exec [] ops = Some input /\
    zlen o.(o_bytes) <= MaxCompressedLength (zlen input) /\ o.(o_touch) <= MaxCompressedLength (zlen input).
Proof.
  intros Hb Hl. destruct (GetHashTable_ok (zlen input)) as (bits & Hbits & ->).
  destruct (CompressFragment_ok input bits Hb Hl ltac:(lia)) as (o & E & [(ops & E1 & _ & E2) Hs Ht]).
  rewrite ztake_zlen in E2. exists o, ops. split; [done|]. split; [done|]. split; [done|].
  unfold MaxCompressedLength. pose proof (Z.div_mod (zlen input) 6 ltac:(lia)).
  pose proof (Z.mod_pos_bound (zlen input) 6 ltac:(lia)). case_match; lia.
Qed.

Lemma compress_fragment_correct_witness :
  exists o ops,
    (let '(table, table_size) := GetHashTable 30 in CompressFragment (replicate 30 1) table table_size) = Ok o /\
    o.(o_bytes) = concat (op_bytes <$> ops) /\ exec [] ops = Some (replicate 30 1) /\
    zlen o.(o_bytes) <= MaxCompressedLength 30 /\ o.(o_touch) <= MaxCompressedLength 30.
Proof.
  apply (compress_fragment_correct (replicate 30 1)).
  - apply Forall_replicate. unfold byte_ok. lia.
  - vm_compute. discriminate.
Defined.
