(* ===== verification/SnappyCopy.v ===== *)
(** * Snappy: copying with overlap

    Models [UnalignedCopy64], [UnalignedCopy128], [IncrementalCopySlow] and
    [IncrementalCopy] of [src/ufo-rt/lib/tsan/rtl/ufo/snappy/snappy.cc], on
    the cells of the output array, with positions for pointers.  The two
    builds of [IncrementalCopy] (with and without [SNAPPY_HAVE_SSSE3]) are
    selected by a boolean.

    Shown: [IncrementalCopy], which expands short patterns, copies blocks of
    eight and sixteen bytes and overshoots, leaves in the copied range what
    the byte-by-byte copy would leave, never touches anything at or after
    [buf_limit], and never changes anything before [op]. *)
From stdpp Require Import base numbers list.
From Stdlib Require Import ZArith Lia.
From S2P Require Import Prelude Memory.

Local Open Scope Z_scope.

(** [n] bytes through a temporary: all loads precede all stores. *)
Definition copy_block (d : list cell) (src dst n : Z) : res (list cell) :=
  if (0 <=? src) && (src + n <=? zlen d) && (0 <=? dst) && (dst + n <=? zlen d)
  then Ok (splice d dst (slice d src n))
  else Err EOutOfBounds.

Definition UnalignedCopy64 (d : list cell) (src dst : Z) : res (list cell) := copy_block d src dst 8.

(** [while (op < op_limit) *op++ = *src++], for [n] iterations. *)
Fixpoint copy_slow (n : nat) (d : list cell) (src op : Z) : res (list cell) :=
  match n with
  | O => Ok d
  | S n' => d ← copy_block d src op 1; copy_slow n' d (src + 1) (op + 1)
  end.

Definition IncrementalCopySlow (d : list cell) (src op op_limit : Z) : res (list cell * Z) :=
  d ← copy_slow (Z.to_nat (op_limit - op)) d src op; Ok (d, op_limit).

(** [while (pattern_size < 8)]: three doublings at most. *)
Fixpoint expand_pattern (fuel : nat) (d : list cell) (src op pattern_size : Z) : res (list cell * Z * Z) :=
  match fuel with
  | O => Ok (d, op, pattern_size)
  | S fuel' =>
      if pattern_size <? 8 then
        d ← UnalignedCopy64 d src op;
        expand_pattern fuel' d src (op + pattern_size) (pattern_size * 2)
      else Ok (d, op, pattern_size)
  end.

(** The row of [pshufb_fill_patterns] for a pattern size repeats its first
    [pattern_size] indices; the shuffle picks these bytes. *)
Definition fill_pattern (bytes : list cell) (pattern_size : Z) : list cell :=
  (fun i => default None (bytes !! Z.to_nat (Z.of_nat i mod pattern_size))) <$> seq 0 16.

Definition store_block (d : list cell) (dst : Z) (bytes : list cell) : res (list cell) :=
  if (0 <=? dst) && (dst + zlen bytes <=? zlen d) then Ok (splice d dst bytes) else Err EOutOfBounds.

(** [while (op < op_end)]: sixteen bytes of pattern at a time. *)
Fixpoint store_pattern (fuel : nat) (d pattern : list cell) (op op_end step : Z) : res (list cell * Z) :=
  match fuel with
  | O => Err EHang
  | S fuel' =>
      if op <? op_end then
        d ← store_block d op pattern;
        store_pattern fuel' d pattern (op + step) op_end step
      else Ok (d, op)
  end.

(** [do .. while (op < op_limit)]: two blocks of eight bytes at a time. *)
Fixpoint copy_blocks_do (fuel : nat) (d : list cell) (op_to_src op op_limit : Z) : res (list cell) :=
  match fuel with
  | O => Err EHang
  | S fuel' =>
      d ← UnalignedCopy64 d (op + op_to_src) op;
      d ← UnalignedCopy64 d (op + op_to_src + 8) (op + 8);
      let op := op + 16 in
      if op <? op_limit then copy_blocks_do fuel' d op_to_src op op_limit else Ok d
  end.

(** [for (op_end = buf_limit - 16; op < op_end; op += 16, src += 16)] *)
Fixpoint copy_blocks_for (fuel : nat) (d : list cell) (src op op_end : Z) : res (list cell * Z * Z) :=
  match fuel with
  | O => Err EHang
  | S fuel' =>
      if op <? op_end then
        d ← UnalignedCopy64 d src op;
        d ← UnalignedCopy64 d (src + 8) (op + 8);
        copy_blocks_for fuel' d (src + 16) (op + 16) op_end
      else Ok (d, src, op)
  end.

(** The part of [IncrementalCopy] after the short patterns. *)
Definition copy_tail (d : list cell) (src op op_limit buf_limit : Z) : res (list cell * Z) :=
  let fuel := S (Z.to_nat (buf_limit - op)) in
  if op_limit <=? buf_limit - 16 then
    d ← copy_blocks_do fuel d (src - op) op op_limit; Ok (d, op_limit)
  else
    '(d, src, op) ← copy_blocks_for fuel d src op (buf_limit - 16);
    if op_limit <=? op then Ok (d, op_limit)
    else
      '(d, src, op) ←
        (if op <=? buf_limit - 8 then d ← UnalignedCopy64 d src op; Ok (d, src + 8, op + 8)
         else Ok (d, src, op));
      IncrementalCopySlow d src op op_limit.

Definition IncrementalCopy (have_ssse3 : bool) (d : list cell) (src op op_limit buf_limit : Z)
  : res (list cell * Z) :=
  let pattern_size := op - src in
  if pattern_size <? 8 then
    if have_ssse3 then
      '(d, op, finished) ←
        (if op <=? buf_limit - 16 then
           bytes ← (if (0 <=? src) && (src + 8 <=? zlen d) then Ok (slice d src 8) else Err EOutOfBounds);
           let pattern := fill_pattern bytes pattern_size in
           let step := pattern_size * (16 / pattern_size) in
           '(d, op) ← store_pattern (S (Z.to_nat (op_limit - op))) d pattern op
                        (Z.min op_limit (buf_limit - 15)) step;
           Ok (d, op, op_limit <=? op)
         else Ok (d, op, false));
      if (finished : bool) then Ok (d, op_limit) else IncrementalCopySlow d src op op_limit
    else if op <=? buf_limit - 11 then
      '(d, op, _) ← expand_pattern 3 d src op pattern_size;
      if op_limit <=? op then Ok (d, op_limit) else copy_tail d src op op_limit buf_limit
    else IncrementalCopySlow d src op op_limit
  else copy_tail d src op op_limit buf_limit.

(** ** Periodic ranges *)

Definition at_ (d : list cell) (i : Z) : option cell := if i <? 0 then None else d !! Z.to_nat i.

Lemma at_nonneg d i : 0 <= i -> at_ d i = d !! Z.to_nat i.
Proof. intros. unfold at_. by rewrite (proj2 (Z.ltb_ge _ _)). Qed.

Lemma at_splice d dst x i :
  0 <= dst -> dst + zlen x <= zlen d ->
  at_ (splice d dst x) i = if (dst <=? i) && (i <? dst + zlen x) then at_ x (i - dst) else at_ d i.
Proof.
  intros Hd Hl. unfold at_. destruct (Z.ltb_spec i 0).
  - by rewrite (proj2 (Z.leb_gt dst i)) by lia.
  - rewrite splice_lookup, Z2Nat.id by lia.
    destruct (Z.ltb_spec i dst), (Z.leb_spec dst i), (Z.ltb_spec i (dst + zlen x)); try lia; cbn [andb]; try done.
    rewrite (proj2 (Z.ltb_ge _ _)) by lia. f_equal. lia.
Qed.

Lemma at_slice d src n i : 0 <= src -> 0 <= i < n -> at_ (slice d src n) i = at_ d (src + i).
Proof.
  intros Hs Hi. rewrite !at_nonneg by lia. rewrite slice_lookup by lia. f_equal. lia.
Qed.

Section Copy.
Context (d0 : list cell) (op0 p buf_limit : Z).
Context (Hp : 1 <= p <= op0) (Hbuf : buf_limit <= zlen d0).

(** [d] differs from the initial array [d0] only between [op0] and
    [buf_limit], and repeats with period [p] up to [k]. *)
Record good (d : list cell) (k : Z) : Prop := {
  g_len : zlen d = zlen d0;
  g_low : forall i, i < op0 -> at_ d i = at_ d0 i;
  g_high : forall i, buf_limit <= i -> at_ d i = at_ d0 i;
  g_per : forall i, op0 <= i < k -> at_ d i = at_ d (i - p)
}.

Lemma good_weaken d k k' : good d k -> k' <= k -> good d k'.
Proof. intros [H1 H2 H3 H4] H. constructor; try done. intros i Hi. apply H4. lia. Qed.

(** Going back any number of periods. *)
Lemma good_back d k (j : nat) i :
  good d k -> i < k -> op0 - p <= i - Z.of_nat j * p -> at_ d i = at_ d (i - Z.of_nat j * p).
Proof.
  intros Hg. revert i. induction j as [|j IH]; intros i Hi Hb; [f_equal; lia|].
  rewrite (g_per d k Hg i) by lia. rewrite IH by lia. f_equal. lia.
Qed.

(** A multiple of the period: the distance from source to destination. *)
Definition dist (q : Z) : Prop := exists j : nat, q = Z.of_nat j * p /\ (1 <= j)%nat.

Lemma dist_ge q : dist q -> p <= q.
Proof. intros (j & -> & Hj). nia. Qed.

Lemma copy_block_good d op q n :
  good d op -> dist q -> op0 <= op -> op0 - p <= op - q -> 0 < n -> op + n <= buf_limit ->
  exists d', copy_block d (op - q) op n = Ok d' /\ good d' (op + Z.min n q).
Proof.
  intros Hg Hq Hop Hsrc Hn Hlim. pose proof (dist_ge q Hq). pose proof Hg as [Hlen Hlow Hhigh Hper].
  unfold copy_block.
  rewrite (proj2 (Z.leb_le 0 (op - q))), (proj2 (Z.leb_le (op - q + n) _)), (proj2 (Z.leb_le 0 op)),
    (proj2 (Z.leb_le (op + n) _)) by lia. cbn [andb].
  eexists. split; [done|].
  assert (Hz : zlen (slice d (op - q) n) = n) by (apply zlen_slice; lia).
  assert (Hat : forall i, at_ (splice d op (slice d (op - q) n)) i =
    if (op <=? i) && (i <? op + n) then at_ d (i - q) else at_ d i).
  { intros i. rewrite at_splice, Hz by lia. destruct ((op <=? i) && (i <? op + n)) eqn:E; [|done].
    apply andb_true_iff in E as [E1%Z.leb_le E2%Z.ltb_lt]. rewrite at_slice by lia. f_equal. lia. }
  constructor.
  - rewrite zlen_splice by lia. done.
  - intros i Hi. rewrite Hat, (proj2 (Z.leb_gt op i)) by lia. apply Hlow. done.
  - intros i Hi. rewrite Hat, (proj2 (Z.ltb_ge i _)), andb_false_r by lia. apply Hhigh. done.
  - intros i Hi. rewrite !Hat. destruct (Z.leb_spec op i) as [Hge|Hlt]; cbn [andb].
    + rewrite (proj2 (Z.ltb_lt i _)) by lia.
      destruct (Z.leb_spec op (i - p)) as [Hge'|Hlt']; cbn [andb].
      * rewrite (proj2 (Z.ltb_lt (i - p) _)) by lia.
        rewrite (Hper (i - q)) by lia. f_equal. lia.
      * destruct Hq as (j & -> & Hj).
        rewrite (good_back d op (j - 1) (i - p) Hg) by nia. f_equal. nia.
    + rewrite (proj2 (Z.leb_gt op (i - p))) by lia. cbn [andb]. apply Hper. lia.
Qed.

Lemma copy_slow_good (n : nat) d op q :
  good d op -> dist q -> op0 <= op -> op0 - p <= op - q -> op + Z.of_nat n <= buf_limit ->
  exists d', copy_slow n d (op - q) op = Ok d' /\ good d' (op + Z.of_nat n).
Proof.
  revert d op. induction n as [|n IH]; intros d op Hg Hq Hop Hsrc Hl; cbn [copy_slow].
  - exists d. split; [done|]. by replace (op + Z.of_nat 0) with op by lia.
  - pose proof (dist_ge q Hq).
    destruct (copy_block_good d op q 1) as (d1 & -> & Hg1); [done|done|done|done|lia|lia|]. rewrite bind_ok.
    replace (op + Z.min 1 q) with (op + 1) in Hg1 by lia. replace (op - q + 1) with (op + 1 - q) by lia.
    destruct (IH d1 (op + 1)) as (d' & Hd' & Hg'); [done|done|lia|lia|lia|].
    exists d'. split; [done|]. by replace (op + Z.of_nat (S n)) with (op + 1 + Z.of_nat n) by lia.
Qed.

Lemma slow_good d op q op_limit :
  good d op -> dist q -> op0 <= op -> op0 - p <= op - q -> op_limit <= buf_limit ->
  exists d', IncrementalCopySlow d (op - q) op op_limit = Ok (d', op_limit) /\ good d' op_limit.
Proof.
  intros Hg Hq Hop Hsrc Hl. unfold IncrementalCopySlow.
  destruct (Z.le_gt_cases op op_limit) as [Hle|Hgt].
  - destruct (copy_slow_good (Z.to_nat (op_limit - op)) d op q) as (d' & -> & Hg'); [done|done|done|done|lia|].
    exists d'. split; [done|]. by replace (op + Z.of_nat (Z.to_nat (op_limit - op))) with op_limit in Hg' by lia.
  - exists d. rewrite Z2Nat.nonpos by lia. split; [done|]. eapply good_weaken; [exact Hg|lia].
Qed.

(** A block of eight bytes at a distance of at least eight. *)
Lemma copy64_good d op q :
  good d op -> dist q -> 8 <= q -> op0 <= op -> op0 - p <= op - q -> op + 8 <= buf_limit ->
  exists d', UnalignedCopy64 d (op - q) op = Ok d' /\ good d' (op + 8).
Proof.
  intros Hg Hq H8 Hop Hsrc Hl.
  destruct (copy_block_good d op q 8) as (d' & E & Hg'); [done|done|done|done|lia|lia|].
  exists d'. split; [done|]. by replace (op + Z.min 8 q) with (op + 8) in Hg' by lia.
Qed.

Lemma copy128_good d op q :
  good d op -> dist q -> 8 <= q -> op0 <= op -> op0 - p <= op - q -> op + 16 <= buf_limit ->
  exists d1 d2, UnalignedCopy64 d (op - q) op = Ok d1 /\
    UnalignedCopy64 d1 (op - q + 8) (op + 8) = Ok d2 /\ good d2 (op + 16).
Proof.
  intros Hg Hq H8 Hop Hsrc Hl.
  destruct (copy64_good d op q) as (d1 & E1 & Hg1); [done|done|done|done|done|lia|].
  destruct (copy64_good d1 (op + 8) q) as (d2 & E2 & Hg2); [done|done|done|lia|lia|lia|].
  exists d1, d2. replace (op - q + 8) with (op + 8 - q) by lia.
  replace (op + 8 + 8) with (op + 16) in Hg2 by lia. done.
Qed.

Lemma copy_blocks_do_good fuel d op q op_limit :
  good d op -> dist q -> 8 <= q -> op0 <= op -> op0 - p <= op - q ->
  op <= op_limit -> op_limit <= buf_limit - 16 -> (Z.to_nat (op_limit - op) < fuel)%nat ->
  exists d', copy_blocks_do fuel d (- q) op op_limit = Ok d' /\ good d' op_limit.
Proof.
  revert d op. induction fuel as [|fuel IH]; intros d op Hg Hq H8 Hop Hsrc Hle Hlim Hf; [lia|].
  cbn [copy_blocks_do]. replace (op + - q) with (op - q) by lia.
  destruct (copy128_good d op q) as (d1 & d2 & -> & E2 & Hg2); [done|done|done|done|done|lia|].
  rewrite bind_ok, E2, bind_ok. destruct (Z.ltb_spec (op + 16) op_limit) as [Hlt|Hge].
  - apply IH; (done || lia).
  - exists d2. split; [done|]. eapply good_weaken; [exact Hg2|lia].
Qed.

Lemma copy_blocks_for_good fuel d op q :
  good d op -> dist q -> 8 <= q -> op0 <= op -> op0 - p <= op - q ->
  (Z.to_nat (buf_limit - op) < fuel)%nat ->
  exists d' op', copy_blocks_for fuel d (op - q) op (buf_limit - 16) = Ok (d', op' - q, op') /\
    good d' op' /\ op <= op'.
Proof.
  revert d op. induction fuel as [|fuel IH]; intros d op Hg Hq H8 Hop Hsrc Hf; [lia|].
  cbn [copy_blocks_for]. destruct (Z.ltb_spec op (buf_limit - 16)) as [Hlt|Hge].
  - destruct (copy128_good d op q) as (d1 & d2 & -> & E2 & Hg2); [done|done|done|done|done|lia|].
    rewrite bind_ok, E2, bind_ok. replace (op - q + 16) with (op + 16 - q) by lia.
    destruct (IH d2 (op + 16)) as (d' & op' & E & Hg' & Hle); [done|done|done|lia|lia|lia|].
    exists d', op'. split; [done|]. split; [done|lia].
  - exists d, op. split; [done|]. split; [done|lia].
Qed.

Lemma copy_tail_good d op q op_limit :
  good d op -> dist q -> 8 <= q -> op0 <= op -> op0 - p <= op - q -> op <= op_limit <= buf_limit ->
  exists d', copy_tail d (op - q) op op_limit buf_limit = Ok (d', op_limit) /\ good d' op_limit.
Proof.
  intros Hg Hq H8 Hop Hsrc Hl. unfold copy_tail. cbv zeta.
  destruct (Z.leb_spec op_limit (buf_limit - 16)) as [Hslop|Hslop].
  - replace (op - q - op) with (- q) by lia.
    destruct (copy_blocks_do_good (S (Z.to_nat (buf_limit - op))) d op q op_limit) as (d' & -> & Hg');
      [done|done|done|done|done|lia|lia|lia|]. by exists d'.
  - destruct (copy_blocks_for_good (S (Z.to_nat (buf_limit - op))) d op q) as (d1 & op1 & -> & Hg1 & Hle1);
      [done|done|done|done|done|lia|]. rewrite bind_ok. cbv beta iota.
    destruct (Z.leb_spec op_limit op1) as [Hdone|Hmore].
    + exists d1. split; [done|]. eapply good_weaken; [exact Hg1|lia].
    + destruct (Z.leb_spec op1 (buf_limit - 8)) as [H1|H1].
      * destruct (copy64_good d1 op1 q) as (d2 & -> & Hg2); [done|done|done|lia|lia|lia|].
        rewrite !bind_ok. cbv beta iota. replace (op1 - q + 8) with (op1 + 8 - q) by lia.
        apply slow_good; (done || lia).
      * rewrite bind_ok. cbv beta iota. apply slow_good; (done || lia).
Qed.

(** The pattern has doubled [k] times. *)
Lemma expand_good (f k : nat) d op :
  (f + k = 3)%nat -> p < 8 -> op0 + 11 <= buf_limit -> op = op0 - p + p * 2 ^ Z.of_nat k -> good d op ->
  exists d' op' q, expand_pattern f d (op0 - p) op (p * 2 ^ Z.of_nat k) = Ok (d', op', q) /\
    good d' op' /\ dist q /\ 8 <= q /\ op0 <= op' /\ op' - q = op0 - p.
Proof.
  revert k d op. induction f as [|f IH]; intros k d op Hf Hp8 Hb Hop Hg; cbn [expand_pattern].
  - replace k with 3%nat in * by lia. change (2 ^ Z.of_nat 3) with 8 in *.
    exists d, op, (p * 8). split; [done|]. split; [done|]. split; [exists 8%nat; lia|]. lia.
  - assert (H2 : 1 <= 2 ^ Z.of_nat k) by (pose proof (Z.pow_pos_nonneg 2 (Z.of_nat k)); lia).
    assert (Hdist : dist (p * 2 ^ Z.of_nat k)) by (exists (Z.to_nat (2 ^ Z.of_nat k)); split; nia).
    destruct (Z.ltb_spec (p * 2 ^ Z.of_nat k) 8) as [Hlt|Hge].
    + assert (p * 2 ^ Z.of_nat k - p <= 3).
      { assert (k = 0 \/ k = 1 \/ k = 2)%nat as [->|[->| ->]] by lia;
          [change (2 ^ Z.of_nat 0) with 1 in *|change (2 ^ Z.of_nat 1) with 2 in *|change (2 ^ Z.of_nat 2) with 4 in *]; lia. }
      destruct (copy_block_good d op (p * 2 ^ Z.of_nat k) 8) as (d1 & E & Hg1); [done|done|nia|lia|lia|lia|].
      unfold UnalignedCopy64. replace (op - p * 2 ^ Z.of_nat k) with (op0 - p) in E by lia. rewrite E, bind_ok.
      rewrite Z.min_r in Hg1 by lia.
      replace (p * 2 ^ Z.of_nat k * 2) with (p * 2 ^ Z.of_nat (S k))
        by (rewrite Nat2Z.inj_succ, Z.pow_succ_r by lia; ring).
      apply IH; [lia|done|done| |done]. rewrite Nat2Z.inj_succ, Z.pow_succ_r by lia. lia.
    + exists d, op, (p * 2 ^ Z.of_nat k). split; [done|]. split; [done|]. split; [done|]. nia.
Qed.

Lemma zlen_fill_pattern bytes q : zlen (fill_pattern bytes q) = 16.
Proof. unfold fill_pattern, zlen. by rewrite length_fmap, length_seq. Qed.

Lemma at_fill_pattern bytes q i :
  1 <= q -> q <= zlen bytes -> 0 <= i < 16 -> at_ (fill_pattern bytes q) i = at_ bytes (i mod q).
Proof.
  intros Hq Hl Hi. pose proof (Z.mod_pos_bound i q ltac:(lia)). rewrite !at_nonneg by lia.
  unfold fill_pattern. rewrite list_lookup_fmap, lookup_seq_lt by lia. cbn [fmap option_fmap option_map Nat.add].
  rewrite Z2Nat.id by lia. destruct (slice_head bytes (i mod q)) as [c Hc]; [lia|]. by rewrite Hc.
Qed.

Lemma store_good d op pattern :
  good d op -> dist (op - (op0 - p)) -> op0 <= op -> op + 16 <= buf_limit -> zlen pattern = 16 ->
  (forall i, 0 <= i < 16 -> at_ pattern i = at_ d0 (op0 - p + i mod p)) ->
  exists d', store_block d op pattern = Ok d' /\ good d' (op + 16).
Proof.
  intros Hg Hq Hop Hl Hz Hpat. pose proof Hg as [Hlen Hlow Hhigh Hper].
  unfold store_block. rewrite (proj2 (Z.leb_le 0 op)), (proj2 (Z.leb_le (op + _) _)) by lia. cbn [andb].
  eexists. split; [done|].
  assert (Hat : forall i, at_ (splice d op pattern) i =
    if (op <=? i) && (i <? op + 16) then at_ pattern (i - op) else at_ d i).
  { intros i. by rewrite at_splice, Hz by lia. }
  constructor.
  - rewrite zlen_splice by lia. done.
  - intros i Hi. rewrite Hat, (proj2 (Z.leb_gt op i)) by lia. by apply Hlow.
  - intros i Hi. rewrite Hat, (proj2 (Z.ltb_ge i _)), andb_false_r by lia. by apply Hhigh.
  - intros i Hi. rewrite !Hat. destruct (Z.leb_spec op i) as [Hge|Hlt]; cbn [andb].
    + rewrite (proj2 (Z.ltb_lt i _)), Hpat by lia.
      destruct (Z.leb_spec op (i - p)) as [Hge'|Hlt']; cbn [andb].
      * rewrite (proj2 (Z.ltb_lt (i - p) _)), Hpat by lia. do 2 f_equal.
        replace (i - op) with (i - p - op + 1 * p) by lia. by rewrite Z.mod_add by lia.
      * rewrite Z.mod_small by lia. destruct Hq as (j & Ej & Hj).
        rewrite (good_back d op (j - 1) (i - p) Hg) by nia. rewrite <- Hlow by lia. f_equal. nia.
    + rewrite (proj2 (Z.leb_gt op (i - p))) by lia. cbn [andb]. apply Hper. lia.
Qed.

Lemma store_pattern_good fuel d pattern op op_end m :
  good d op -> dist (op - (op0 - p)) -> op0 <= op -> op_end <= buf_limit - 15 -> zlen pattern = 16 ->
  (forall i, 0 <= i < 16 -> at_ pattern i = at_ d0 (op0 - p + i mod p)) ->
  1 <= m -> m * p <= 16 -> (Z.to_nat (op_end - op) < fuel)%nat ->
  exists d' op', store_pattern fuel d pattern op op_end (p * m) = Ok (d', op') /\
    good d' op' /\ op_end <= op' /\ op <= op' /\ dist (op' - (op0 - p)).
Proof.
  revert d op. induction fuel as [|fuel IH]; intros d op Hg Hq Hop Hl Hz Hpat Hm Hmp Hf; [lia|].
  cbn [store_pattern]. destruct (Z.ltb_spec op op_end) as [Hlt|Hge].
  - destruct (store_good d op pattern) as (d1 & -> & Hg1); [done|done|done|lia|done|done|]. rewrite bind_ok.
    destruct (IH d1 (op + p * m)) as (d' & op' & E & H1 & H2 & H3 & H4);
      [eapply good_weaken; [exact Hg1|lia]| |nia|done|done|done|done|done|nia|].
    { destruct Hq as (j & Ej & Hj). exists (j + Z.to_nat m)%nat. split; [nia|lia]. }
    exists d', op'. split; [done|]. split; [done|]. split; [done|]. split; [nia|done].
  - exists d, op. split; [done|]. split; [done|]. split; [done|]. split; [lia|done].
Qed.

Lemma good_init : good d0 op0.
Proof. constructor; try done. intros i Hi. lia. Qed.

Lemma dist_p : dist p.
Proof. exists 1%nat. lia. Qed.

Lemma IncrementalCopy_good (ssse3 : bool) op_limit :
  op0 <= op_limit <= buf_limit ->
  exists d', IncrementalCopy ssse3 d0 (op0 - p) op0 op_limit buf_limit = Ok (d', op_limit) /\ good d' op_limit.
Proof.
  intros Hl. pose proof good_init as Hg. pose proof dist_p as Hd.
  pose proof (slow_good d0 op0 p op_limit Hg Hd ltac:(lia) ltac:(lia) ltac:(lia)) as Hslow.
  unfold IncrementalCopy. replace (op0 - (op0 - p)) with p by lia.
  destruct (Z.ltb_spec p 8) as [Hp8|Hp8]; [|apply copy_tail_good; (done || lia)].
  destruct ssse3.
  - destruct (Z.leb_spec op0 (buf_limit - 16)) as [H16|H16]; [|exact Hslow].
    rewrite (proj2 (Z.leb_le 0 (op0 - p))), (proj2 (Z.leb_le (op0 - p + 8) _)) by lia. cbn [andb]. rewrite bind_ok.
    assert (Hm : 1 <= 16 / p) by (apply Z.div_le_lower_bound; lia).
    assert (Hmp : 16 / p * p <= 16) by (rewrite Z.mul_comm; apply Z.mul_div_le; lia).
    destruct (store_pattern_good (S (Z.to_nat (op_limit - op0))) d0 (fill_pattern (slice d0 (op0 - p) 8) p) op0
      (Z.min op_limit (buf_limit - 15)) (16 / p)) as (d1 & op1 & -> & Hg1 & Hend & Hge & Hd1);
      [done|by replace (op0 - (op0 - p)) with p by lia|lia|lia|apply zlen_fill_pattern| |done|done|lia|].
    { intros i Hi. pose proof (Z.mod_pos_bound i p ltac:(lia)).
      rewrite at_fill_pattern by (rewrite ?zlen_slice; lia). by rewrite at_slice by lia. }
    rewrite !bind_ok. cbv beta iota. destruct (Z.leb_spec op_limit op1) as [Hdone|Hmore].
    + exists d1. split; [done|]. eapply good_weaken; [exact Hg1|lia].
    + pose proof (slow_good d1 op1 (op1 - (op0 - p)) op_limit Hg1 Hd1 ltac:(lia) ltac:(lia) ltac:(lia)) as Hs.
      by replace (op1 - (op1 - (op0 - p))) with (op0 - p) in Hs by lia.
  - destruct (Z.leb_spec op0 (buf_limit - 11)) as [H11|H11]; [|exact Hslow].
    destruct (expand_good 3 0 d0 op0) as (d1 & op1 & q & E & Hg1 & Hq & H8 & Hop1 & Hsrc);
      [done|done|lia|change (2 ^ Z.of_nat 0) with 1; lia|done|].
    change (2 ^ Z.of_nat 0) with 1 in E. rewrite Z.mul_1_r in E. rewrite E, bind_ok. cbv beta iota.
    destruct (Z.leb_spec op_limit op1) as [Hdone|Hmore].
    + exists d1. split; [done|]. eapply good_weaken; [exact Hg1|lia].
    + rewrite <- Hsrc. apply copy_tail_good; (done || lia).
Qed.
End Copy.

(** Two arrays that agree before [op0] and repeat with the same period agree
    up to the end of the repetition. *)
Lemma good_agree d0 op0 p lim d d' k :
  1 <= p -> good d0 op0 p lim d k -> good d0 op0 p lim d' k -> forall i, i < k -> at_ d i = at_ d' i.
Proof.
  intros Hp Hg Hg' i Hi.
  remember (Z.to_nat (i - op0 + 1)) as n eqn:Hn. revert i Hi Hn.
  induction n as [n IH] using lt_wf_ind. intros i Hi Hn.
  destruct (Z.lt_ge_cases i op0) as [Hlt|Hge].
  - rewrite (g_low _ _ _ _ _ _ Hg i Hlt), (g_low _ _ _ _ _ _ Hg' i Hlt). done.
  - rewrite (g_per _ _ _ _ _ _ Hg i), (g_per _ _ _ _ _ _ Hg' i) by lia.
    apply (IH (Z.to_nat (i - p - op0 + 1))); lia.
Qed.

(** ** Theorems *)

(** C38: the optimised copy is the byte-by-byte copy.  For a source before the
    destination, in either build, [IncrementalCopy] and [IncrementalCopySlow]
    both return [op_limit] without leaving the array, their results agree
    everywhere before [op_limit], and bytes at or after [buf_limit] are not
    touched. *)
Theorem incremental_copy_equiv (ssse3 : bool) (d : list cell) (src op op_limit buf_limit : Z) :
  0 <= src < op -> op <= op_limit <= buf_limit -> buf_limit <= zlen d ->
  exists d1 d2,
    IncrementalCopy ssse3 d src op op_limit buf_limit = Ok (d1, op_limit) /\
    IncrementalCopySlow d src op op_limit = Ok (d2, op_limit) /\
    (forall i, i < op_limit -> at_ d1 i = at_ d2 i) /\
    (forall i, buf_limit <= i -> at_ d1 i = at_ d i).
Proof.
  intros Hs Hl Hb.
  destruct (IncrementalCopy_good d op (op - src) buf_limit ltac:(lia) Hb ssse3 op_limit Hl) as (d1 & E1 & G1).
  destruct (slow_good d op (op - src) buf_limit ltac:(lia) Hb d op (op - src) op_limit) as (d2 & E2 & G2);
    [apply good_init|apply dist_p|lia|lia|lia|].
  replace (op - (op - src)) with src in * by lia. exists d1, d2.
  split; [done|]. split; [done|]. split.
  - intros i Hi. eapply (good_agree _ _ (op - src)); [lia|exact G1|exact G2|lia].
  - apply (g_high _ _ _ _ _ _ G1).
Qed.

Lemma incremental_copy_equiv_witness :
  let d := (Some <$> [97; 98]) ++ replicate 30 None in
  exists d1 d2,
    IncrementalCopy true d 0 2 9 32 = Ok (d1, 9) /\ IncrementalCopySlow d 0 2 9 = Ok (d2, 9) /\
    (forall i, i < 9 -> at_ d1 i = at_ d2 i) /\ (forall i, 32 <= i -> at_ d1 i = at_ d i).
Proof.
  intros d. apply (incremental_copy_equiv true d 0 2 9 32); [lia|lia|vm_compute; discriminate].
Defined.
