(* ===== verification/SnappyDecompress.v ===== *)
(** * Snappy: the decompressor

    Models [SnappyDecompressor] ([ReadUncompressedLength], [RefillTag],
    [DecompressAllTags]), [InternalUncompress], [RawUncompress], the array
    writer and the validator of
    [src/ufo-rt/lib/tsan/rtl/ufo/snappy/snappy.cc], [char_table] of
    [snappy-internal.h], [ByteArraySource] of [snappy-sinksource.cc] and the
    C interface of [snappy-c.cc].

    As in the C++ template, the decompressor is written against a class of
    writers ([Writer]); [WriterLaws] says what a writer promises, the theorems
    about decompression are proved from these laws, and [SnappyArrayWriter]
    and [SnappyDecompressionValidator] discharge them.

    Shown: on every input, valid or not, the decompressor terminates without
    a bad access and returns exactly what the reference decoder [decode] of
    the format returns; decompression inverts compression. *)
From stdpp Require Import base numbers list sets.
From Stdlib Require Import ZArith Lia.
From S2P Require Import Prelude Bits Memory SnappyBits SnappyCompress SnappyCopy.

Local Open Scope Z_scope.

Definition kMaximumTagLength : Z := 5.

Definition char_table : list Z := [
  0x0001; 0x0804; 0x1001; 0x2001; 0x0002; 0x0805; 0x1002; 0x2002;
  0x0003; 0x0806; 0x1003; 0x2003; 0x0004; 0x0807; 0x1004; 0x2004;
  0x0005; 0x0808; 0x1005; 0x2005; 0x0006; 0x0809; 0x1006; 0x2006;
  0x0007; 0x080a; 0x1007; 0x2007; 0x0008; 0x080b; 0x1008; 0x2008;
  0x0009; 0x0904; 0x1009; 0x2009; 0x000a; 0x0905; 0x100a; 0x200a;
  0x000b; 0x0906; 0x100b; 0x200b; 0x000c; 0x0907; 0x100c; 0x200c;
  0x000d; 0x0908; 0x100d; 0x200d; 0x000e; 0x0909; 0x100e; 0x200e;
  0x000f; 0x090a; 0x100f; 0x200f; 0x0010; 0x090b; 0x1010; 0x2010;
  0x0011; 0x0a04; 0x1011; 0x2011; 0x0012; 0x0a05; 0x1012; 0x2012;
  0x0013; 0x0a06; 0x1013; 0x2013; 0x0014; 0x0a07; 0x1014; 0x2014;
  0x0015; 0x0a08; 0x1015; 0x2015; 0x0016; 0x0a09; 0x1016; 0x2016;
  0x0017; 0x0a0a; 0x1017; 0x2017; 0x0018; 0x0a0b; 0x1018; 0x2018;
  0x0019; 0x0b04; 0x1019; 0x2019; 0x001a; 0x0b05; 0x101a; 0x201a;
  0x001b; 0x0b06; 0x101b; 0x201b; 0x001c; 0x0b07; 0x101c; 0x201c;
  0x001d; 0x0b08; 0x101d; 0x201d; 0x001e; 0x0b09; 0x101e; 0x201e;
  0x001f; 0x0b0a; 0x101f; 0x201f; 0x0020; 0x0b0b; 0x1020; 0x2020;
  0x0021; 0x0c04; 0x1021; 0x2021; 0x0022; 0x0c05; 0x1022; 0x2022;
  0x0023; 0x0c06; 0x1023; 0x2023; 0x0024; 0x0c07; 0x1024; 0x2024;
  0x0025; 0x0c08; 0x1025; 0x2025; 0x0026; 0x0c09; 0x1026; 0x2026;
  0x0027; 0x0c0a; 0x1027; 0x2027; 0x0028; 0x0c0b; 0x1028; 0x2028;
  0x0029; 0x0d04; 0x1029; 0x2029; 0x002a; 0x0d05; 0x102a; 0x202a;
  0x002b; 0x0d06; 0x102b; 0x202b; 0x002c; 0x0d07; 0x102c; 0x202c;
  0x002d; 0x0d08; 0x102d; 0x202d; 0x002e; 0x0d09; 0x102e; 0x202e;
  0x002f; 0x0d0a; 0x102f; 0x202f; 0x0030; 0x0d0b; 0x1030; 0x2030;
  0x0031; 0x0e04; 0x1031; 0x2031; 0x0032; 0x0e05; 0x1032; 0x2032;
  0x0033; 0x0e06; 0x1033; 0x2033; 0x0034; 0x0e07; 0x1034; 0x2034;
  0x0035; 0x0e08; 0x1035; 0x2035; 0x0036; 0x0e09; 0x1036; 0x2036;
  0x0037; 0x0e0a; 0x1037; 0x2037; 0x0038; 0x0e0b; 0x1038; 0x2038;
  0x0039; 0x0f04; 0x1039; 0x2039; 0x003a; 0x0f05; 0x103a; 0x203a;
  0x003b; 0x0f06; 0x103b; 0x203b; 0x003c; 0x0f07; 0x103c; 0x203c;
  0x0801; 0x0f08; 0x103d; 0x203d; 0x1001; 0x0f09; 0x103e; 0x203e;
  0x1801; 0x0f0a; 0x103f; 0x203f; 0x2001; 0x0f0b; 0x1040; 0x2040
].

(** ** Writers *)

(** [ip] arguments are the bytes readable from [ip] on. *)
Class Writer (W : Type) := {
  SetExpectedLength : W -> Z -> W;
  CheckLength : W -> bool;
  Append : W -> list Z -> res (bool * W);
  TryFastAppend : W -> list Z -> Z -> res (bool * W);
  AppendFromSelf : W -> Z -> Z -> res (bool * W)
}.

(** *** The flat array writer *)

(** [base_] is the start of [aw_array]. *)
Record SnappyArrayWriter := mkArrayWriter {
  aw_array : list cell; aw_op : Z; aw_op_limit : Z }.

Definition aw_Append (w : SnappyArrayWriter) (ip : list Z) : res (bool * SnappyArrayWriter) :=
  let op := w.(aw_op) in
  let space_left := w.(aw_op_limit) - op in
  if space_left <? zlen ip then Ok (false, w)
  else
    d ← store_block w.(aw_array) op (Some <$> ip);
    Ok (true, mkArrayWriter d (op + zlen ip) w.(aw_op_limit)).

Definition aw_TryFastAppend (w : SnappyArrayWriter) (ip : list Z) (len : Z) : res (bool * SnappyArrayWriter) :=
  let op := w.(aw_op) in
  let space_left := w.(aw_op_limit) - op in
  if (len <=? 16) && (16 + kMaximumTagLength <=? zlen ip) && (16 <=? space_left) then
    d ← store_block w.(aw_array) op (Some <$> ztake 16 ip);
    Ok (true, mkArrayWriter d (op + len) w.(aw_op_limit))
  else Ok (false, w).

(** [offset - 1u] wraps around for [offset = 0]. *)
Definition aw_AppendFromSelf (ssse3 : bool) (w : SnappyArrayWriter) (offset len : Z)
  : res (bool * SnappyArrayWriter) :=
  let op_end := w.(aw_op) + len in
  if (w.(aw_op) <=? u64 (offset - 1)) || (w.(aw_op_limit) <? op_end) then Ok (false, w)
  else
    '(d, op) ← IncrementalCopy ssse3 w.(aw_array) (w.(aw_op) - offset) w.(aw_op) op_end w.(aw_op_limit);
    Ok (true, mkArrayWriter d op w.(aw_op_limit)).

Definition array_writer (ssse3 : bool) : Writer SnappyArrayWriter := {|
  SetExpectedLength w len := mkArrayWriter w.(aw_array) w.(aw_op) (w.(aw_op) + len);
  CheckLength w := w.(aw_op) =? w.(aw_op_limit);
  Append := aw_Append;
  TryFastAppend := aw_TryFastAppend;
  AppendFromSelf := aw_AppendFromSelf ssse3 |}.

(** *** The validator *)

Record SnappyDecompressionValidator := mkValidator { dv_expected : Z; dv_produced : Z }.

Definition dv_Append (w : SnappyDecompressionValidator) (ip : list Z) : res (bool * SnappyDecompressionValidator) :=
  let produced := w.(dv_produced) + zlen ip in
  Ok (produced <=? w.(dv_expected), mkValidator w.(dv_expected) produced).

Definition dv_AppendFromSelf (w : SnappyDecompressionValidator) (offset len : Z)
  : res (bool * SnappyDecompressionValidator) :=
  if w.(dv_produced) <=? u64 (offset - 1) then Ok (false, w)
  else
    let produced := w.(dv_produced) + len in
    Ok (produced <=? w.(dv_expected), mkValidator w.(dv_expected) produced).

Definition validator_writer : Writer SnappyDecompressionValidator := {|
  SetExpectedLength w len := mkValidator len w.(dv_produced);
  CheckLength w := w.(dv_expected) =? w.(dv_produced);
  Append := dv_Append;
  TryFastAppend w ip len := Ok (false, w);
  AppendFromSelf := dv_AppendFromSelf |}.

(** ** The decompressor *)

(** [d_reader] is what is left of the source; [d_buf] the buffered bytes
    [[ip_, ip_limit_)], in the source or in [scratch_]. *)
Record decompressor := mkDecompressor {
  d_reader : list Z; d_buf : list Z; d_peeked : Z; d_eof : bool }.

Fixpoint read_length_loop (fuel : nat) (reader : list Z) (result shift : Z) : option (Z * list Z) :=
  match fuel with
  | O => None
  | S fuel' =>
      if 32 <=? shift then None
      else
        match reader with
        | [] => None
        | c :: reader =>
            let val := Z.land c 127 in
            if negb (Z.shiftr (u32 (Z.shiftl val shift)) shift =? val) then None
            else
              let result := Z.lor result (u32 (Z.shiftl val shift)) in
              if c <? 128 then Some (result, reader)
              else read_length_loop fuel' reader result (shift + 7)
        end
  end.

(** five bytes have a shift below 32 *)
Definition ReadUncompressedLength (reader : list Z) : option (Z * list Z) :=
  read_length_loop 6 reader 0 0.

Definition table_entry (c : Z) : Z := default 0 (char_table !! Z.to_nat c).

(** [while (nbuf < needed)]: stitching a tag together from the source. *)
Fixpoint refill_scratch (fuel : nat) (scratch reader : list Z) (needed : Z) : option (list Z * list Z) :=
  match fuel with
  | O => None
  | S fuel' =>
      if zlen scratch <? needed then
        match reader with
        | [] => None
        | _ =>
            let to_add := Z.min (needed - zlen scratch) (zlen reader) in
            refill_scratch fuel' (scratch ++ ztake to_add reader) (zdrop to_add reader) needed
        end
      else Some (scratch, reader)
  end.

Definition RefillTag (d : decompressor) : bool * decompressor :=
  let refilled :=
    match d.(d_buf) with
    | [] =>
        let reader := zdrop d.(d_peeked) d.(d_reader) in
        let n := zlen reader in
        if n =? 0 then inl (mkDecompressor reader [] n true)
        else inr (mkDecompressor reader reader n false)
    | _ => inr d
    end in
  match refilled with
  | inl d => (false, d)
  | inr d =>
      match d.(d_buf) with
      | [] => (false, d)
      | c :: _ =>
          let needed := Z.shiftr (table_entry c) 11 + 1 in
          let nbuf := u32 (zlen d.(d_buf)) in
          if nbuf <? needed then
            let reader := zdrop d.(d_peeked) d.(d_reader) in
            match refill_scratch (S (length reader)) (ztake nbuf d.(d_buf)) reader needed with
            | None => (false, mkDecompressor reader d.(d_buf) 0 d.(d_eof))
            | Some (scratch, reader) => (true, mkDecompressor reader scratch 0 d.(d_eof))
            end
          else if nbuf <? kMaximumTagLength then
            (true, mkDecompressor (zdrop d.(d_peeked) d.(d_reader)) (ztake nbuf d.(d_buf)) 0 d.(d_eof))
          else (true, d)
      end
  end.

(** [MAYBE_REFILL]: [false] is the [return] inside it. *)
Definition MAYBE_REFILL (d : decompressor) : bool * decompressor :=
  if zlen d.(d_buf) <? kMaximumTagLength then RefillTag d else (true, d).

(** [LittleEndian::Load32(ip) & wordmask[k]]: the first [k] bytes; bytes
    behind the buffered ones are masked out. *)
Definition load_masked (buf : list Z) (k : Z) : res Z :=
  if k <=? zlen buf then Ok (le_val (ztake k buf)) else Err EUndef.

Section Decompress.
Context {W : Type} `{Writer W}.

(** [while (avail < literal_length)]: [None] is a [return]; otherwise what is
    left of the literal. *)
Fixpoint literal_loop (fuel : nat) (d : decompressor) (w : W) (literal_length : Z)
  : res (option Z * decompressor * W) :=
  match fuel with
  | O => Err EHang
  | S fuel' =>
      let avail := zlen d.(d_buf) in
      if avail <? literal_length then
        '(b, w) ← Append w d.(d_buf);
        if negb b then Ok (None, d, w)
        else
          let literal_length := literal_length - avail in
          let reader := zdrop d.(d_peeked) d.(d_reader) in
          let avail := zlen reader in
          let d := mkDecompressor reader reader avail d.(d_eof) in
          if avail =? 0 then Ok (None, d, w)
          else literal_loop fuel' d w literal_length
      else Ok (Some literal_length, d, w)
  end.

Definition set_buf (d : decompressor) (buf : list Z) : decompressor :=
  mkDecompressor d.(d_reader) buf d.(d_peeked) d.(d_eof).

(** One turn of [for ( ;; )]: whether to go on, and the states. *)
Definition tag_step (d : decompressor) (w : W) : res (bool * decompressor * W) :=
  match d.(d_buf) with
  | [] => Err EOutOfBounds
  | c :: ip =>
      let d := set_buf d ip in
      if Z.land c 3 =? LITERAL then
        let literal_length := Z.shiftr c 2 + 1 in
        '(fast, w) ← TryFastAppend w ip literal_length;
        if (fast : bool) then Ok (true, set_buf d (zdrop literal_length ip), w)
        else
          '(literal_length, d) ←
            (if 61 <=? literal_length then
               let literal_length_length := literal_length - 60 in
               v ← load_masked ip literal_length_length;
               Ok (u32 (v + 1), set_buf d (zdrop literal_length_length ip))
             else Ok (literal_length, d));
          '(remaining, d, w) ← literal_loop 3 d w literal_length;
          match remaining with
          | None => Ok (false, d, w)
          | Some literal_length =>
              '(b, w) ← Append w (ztake literal_length d.(d_buf));
              if negb b then Ok (false, d, w)
              else
                let '(go, d) := MAYBE_REFILL (set_buf d (zdrop literal_length d.(d_buf))) in
                Ok (go, d, w)
          end
      else
        let entry := table_entry c in
        trailer ← load_masked ip (Z.shiftr entry 11);
        let length := Z.land entry 0xff in
        let d := set_buf d (zdrop (Z.shiftr entry 11) ip) in
        let copy_offset := Z.land entry 0x700 in
        '(b, w) ← AppendFromSelf w (copy_offset + trailer) length;
        if negb b then Ok (false, d, w)
        else let '(go, d) := MAYBE_REFILL d in Ok (go, d, w)
  end.

Fixpoint tag_loop (fuel : nat) (d : decompressor) (w : W) : res (decompressor * W) :=
  match fuel with
  | O => Err EHang
  | S fuel' =>
      '(go, d, w) ← tag_step d w;
      if (go : bool) then tag_loop fuel' d w else Ok (d, w)
  end.

(** Every turn consumes a byte of the input. *)
Definition DecompressAllTags (d : decompressor) (w : W) : res (decompressor * W) :=
  let '(go, d) := MAYBE_REFILL d in
  if go then tag_loop (S (length d.(d_buf) + length d.(d_reader))) d w else Ok (d, w).

Definition InternalUncompress (compressed : list Z) (w : W) : res (bool * W) :=
  match ReadUncompressedLength compressed with
  | None => Ok (false, w)
  | Some (uncompressed_len, reader) =>
      let w := SetExpectedLength w uncompressed_len in
      '(d, w) ← DecompressAllTags (mkDecompressor reader [] 0 false) w;
      Ok (d.(d_eof) && CheckLength w, w)
  end.
End Decompress.

Definition RawUncompress (ssse3 : bool) (compressed : list Z) (uncompressed : list cell) : res (bool * list cell) :=
  '(b, w) ← @InternalUncompress _ (array_writer ssse3) compressed (mkArrayWriter uncompressed 0 0);
  Ok (b, w.(aw_array)).

Definition IsValidCompressedBuffer (compressed : list Z) : res bool :=
  '(b, _) ← @InternalUncompress _ validator_writer compressed (mkValidator 0 0); Ok b.

Definition GetUncompressedLength (start : list Z) : option Z := fst <$> Parse32WithLimit start.

Definition snappy_uncompress (ssse3 : bool) (compressed : list Z) (uncompressed : list cell)
    (uncompressed_length : Z) : res (snappy_status * list cell * Z) :=
  match GetUncompressedLength compressed with
  | None => Ok (SNAPPY_INVALID_INPUT, uncompressed, uncompressed_length)
  | Some real_uncompressed_length =>
      if uncompressed_length <? real_uncompressed_length
      then Ok (SNAPPY_BUFFER_TOO_SMALL, uncompressed, uncompressed_length)
      else
        '(b, d) ← RawUncompress ssse3 compressed uncompressed;
        if negb b then Ok (SNAPPY_INVALID_INPUT, d, uncompressed_length)
        else Ok (SNAPPY_OK, d, real_uncompressed_length)
  end.

Definition snappy_uncompressed_length (compressed : list Z) : snappy_status * option Z :=
  match GetUncompressedLength compressed with
  | Some v => (SNAPPY_OK, Some v)
  | None => (SNAPPY_INVALID_INPUT, None)
  end.

Definition snappy_validate_compressed_buffer (compressed : list Z) : res snappy_status :=
  b ← IsValidCompressedBuffer compressed; Ok (if (b : bool) then SNAPPY_OK else SNAPPY_INVALID_INPUT).

(** ** The format, as a reference decoder *)

Definition take_le (k : Z) (bs : list Z) : option (Z * list Z) :=
  if k <=? zlen bs then Some (le_val (ztake k bs), zdrop k bs) else None.

Definition take_lit (n : Z) (bs : list Z) : option (op * list Z) :=
  if n <=? zlen bs then Some (OLit (ztake n bs), zdrop n bs) else None.

(** One element: the low two bits of the tag are its kind, the rest its
    length, and the offset or long length follows.  The length of a long
    literal is computed in 32 bits, so a literal of 2^32 bytes is an empty
    one. *)
Definition decode_tag (c : Z) (bs : list Z) : option (op * list Z) :=
  let m := c / 4 in
  if c mod 4 =? 0 then
    if m <? 60 then take_lit (m + 1) bs
    else '(v, bs) ← take_le (m - 59) bs; take_lit (u32 (v + 1)) bs
  else if c mod 4 =? 1 then
    '(v, bs) ← take_le 1 bs; Some (OCopy (256 * (c / 32) + v) (4 + m mod 8), bs)
  else if c mod 4 =? 2 then '(v, bs) ← take_le 2 bs; Some (OCopy v (m + 1), bs)
  else '(v, bs) ← take_le 4 bs; Some (OCopy v (m + 1), bs).

Fixpoint decode_ops (fuel : nat) (bs produced : list Z) (expected : Z) : option (list Z) :=
  match bs with
  | [] => Some produced
  | c :: rest =>
      match fuel with
      | O => None
      | S fuel' =>
          '(p, rest) ← decode_tag c rest;
          produced ← exec1 produced p;
          if zlen produced <=? expected then decode_ops fuel' rest produced expected else None
      end
  end.

Definition decode (compressed : list Z) : option (list Z) :=
  '(n, rest) ← Parse32WithLimit compressed;
  x ← decode_ops (S (length rest)) rest [] n;
  if zlen x =? n then Some x else None.

(** ** What a writer promises *)

Class WriterLaws (W : Type) {HW : Writer W} := {
  (** [w] was told to expect that many bytes and has produced these *)
  wrep : W -> Z -> list Z -> Prop;
  wrep_bound : forall w n xs, wrep w n xs -> zlen xs <= n < 2 ^ 32;
  check_law : forall w n xs, wrep w n xs -> CheckLength w = (zlen xs =? n);
  append_law : forall w n xs bs, wrep w n xs ->
    exists w', Append w bs = Ok (zlen xs + zlen bs <=? n, w') /\
      (zlen xs + zlen bs <= n -> wrep w' n (xs ++ bs));
  fast_law : forall w n xs ip len, wrep w n xs -> 1 <= len ->
    TryFastAppend w ip len = Ok (false, w) \/
    len <= 16 /\ 16 + kMaximumTagLength <= zlen ip /\ zlen xs + len <= n /\
    exists w', TryFastAppend w ip len = Ok (true, w') /\ wrep w' n (xs ++ ztake len ip);
  self_law : forall w n xs offset len, wrep w n xs -> 0 <= offset < 2 ^ 33 -> 1 <= len ->
    exists w', AppendFromSelf w offset len =
        Ok ((1 <=? offset) && (offset <=? zlen xs) && (zlen xs + len <=? n), w') /\
      (1 <= offset <= zlen xs -> zlen xs + len <= n ->
       exists xs', self_copy (Z.to_nat len) offset xs = Some xs' /\ wrep w' n xs')
}.

(** ** The table *)

(** The number of bytes after a tag. *)
Definition extra (c : Z) : Z :=
  if c mod 4 =? 0 then (if c / 4 <? 60 then 0 else c / 4 - 59)
  else if c mod 4 =? 1 then 1 else if c mod 4 =? 2 then 2 else 4.

Definition entry_ok (c : Z) : bool :=
  let e := table_entry c in
  (Z.shiftr e 11 =? extra c) && (Z.land c 3 =? c mod 4) && (Z.shiftr c 2 =? c / 4) &&
  (if c mod 4 =? 0 then true
   else if c mod 4 =? 1 then (Z.land e 0xff =? 4 + (c / 4) mod 8) && (Z.land e 0x700 =? 256 * (c / 32))
   else (Z.land e 0xff =? c / 4 + 1) && (Z.land e 0x700 =? 0)).

Lemma char_table_entries : forallb (fun k => entry_ok (Z.of_nat k)) (seq 0 256) = true.
Proof. vm_compute. reflexivity. Qed.

Lemma char_table_ok c : byte_ok c -> entry_ok c = true.
Proof.
  intros Hc. pose proof char_table_entries as H. rewrite forallb_forall in H.
  specialize (H (Z.to_nat c)). unfold byte_ok in Hc. rewrite Z2Nat.id in H by lia. apply H, in_seq. lia.
Qed.

Lemma entry_extra c : byte_ok c -> Z.shiftr (table_entry c) 11 = extra c.
Proof.
  intros Hc. apply char_table_ok in Hc. unfold entry_ok in Hc. repeat rewrite andb_true_iff in Hc.
  destruct Hc as (((H & _) & _) & _). by apply Z.eqb_eq.
Qed.

Lemma entry_bits c : byte_ok c -> Z.land c 3 = c mod 4 /\ Z.shiftr c 2 = c / 4.
Proof.
  intros Hc. apply char_table_ok in Hc. unfold entry_ok in Hc. repeat rewrite andb_true_iff in Hc.
  destruct Hc as (((_ & H) & H') & _). by apply Z.eqb_eq in H, H'.
Qed.

Lemma entry_copy c :
  byte_ok c -> c mod 4 <> 0 ->
  Z.land (table_entry c) 0xff = (if c mod 4 =? 1 then 4 + (c / 4) mod 8 else c / 4 + 1) /\
  Z.land (table_entry c) 0x700 = (if c mod 4 =? 1 then 256 * (c / 32) else 0).
Proof.
  intros Hc Hne. apply char_table_ok in Hc. unfold entry_ok in Hc. repeat rewrite andb_true_iff in Hc.
  destruct Hc as (_ & H). rewrite (proj2 (Z.eqb_neq _ _)) in H by done.
  destruct (c mod 4 =? 1); apply andb_true_iff in H as [H1%Z.eqb_eq H2%Z.eqb_eq]; done.
Qed.

Lemma extra_range c : byte_ok c -> 0 <= extra c <= 4.
Proof.
  intros Hc. unfold byte_ok in Hc. unfold extra.
  assert (0 <= c / 4 < 64) by (split; [apply Z.div_pos; lia|apply Z.div_lt_upper_bound; lia]).
  repeat case_match; to_Prop; lia.
Qed.

(** Too few bytes after the tag: no element. *)
Lemma decode_tag_short c bs : byte_ok c -> zlen bs < extra c -> decode_tag c bs = None.
Proof.
  intros Hc Hs. unfold decode_tag, extra in *. unfold take_le. pose proof (zlen_nonneg bs).
  destruct (Z.eqb_spec (c mod 4) 0).
  - destruct (c / 4 <? 60); [lia|]. by rewrite (proj2 (Z.leb_gt _ _)) by lia.
  - destruct (c mod 4 =? 1); [by rewrite (proj2 (Z.leb_gt _ _)) by lia|].
    destruct (c mod 4 =? 2); by rewrite (proj2 (Z.leb_gt _ _)) by lia.
Qed.

(** ** The writers keep their promise *)

Lemma u64_pred offset : 0 <= offset < 2 ^ 33 -> u64 (offset - 1) = if offset =? 0 then 2 ^ 64 - 1 else offset - 1.
Proof.
  intros H. destruct (Z.eqb_spec offset 0) as [->|Hne]; [reflexivity|].
  apply wrap_small. change (2 ^ 64) with 18446744073709551616. lia.
Qed.

(** The overflow-safe test of the offset. *)
Lemma offset_test n offset :
  0 <= n < 2 ^ 32 -> 0 <= offset < 2 ^ 33 -> (n <=? u64 (offset - 1)) = negb ((1 <=? offset) && (offset <=? n)).
Proof.
  intros Hn Ho. rewrite u64_pred by done. apply eq_true_iff_eq.
  rewrite negb_true_iff, andb_false_iff, Z.leb_le, !Z.leb_gt. destruct (Z.eqb_spec offset 0); lia.
Qed.

Lemma self_copy_total n offset xs :
  1 <= offset <= zlen xs -> exists xs', self_copy n offset xs = Some xs' /\ zlen xs' = zlen xs + Z.of_nat n.
Proof.
  revert xs. induction n as [|n IH]; intros xs Ho; cbn [self_copy]; [exists xs; split; [done|lia]|].
  rewrite (proj2 (Z.leb_gt _ 0)), (proj2 (Z.ltb_ge _ _)) by lia. cbn [orb].
  destruct (slice_head xs (zlen xs - offset)) as [c ->]; [lia|]. cbn [mbind option_bind].
  assert (E : zlen (xs ++ [c]) = zlen xs + 1) by (rewrite zlen_app; done).
  destruct (IH (xs ++ [c])) as (xs' & -> & Hl); [lia|]. exists xs'. split; [done|lia].
Qed.

(** The bytes produced so far are the initialised prefix of the array. *)
Definition prefix_rep (d : list cell) (xs : list Z) : Prop :=
  forall i c, xs !! i = Some c -> d !! i = Some (Some c).

Lemma prefix_rep_snoc d xs c :
  prefix_rep d xs -> d !! length xs = Some (Some c) -> prefix_rep d (xs ++ [c]).
Proof.
  intros H Hc i c' Hi. apply lookup_app_Some in Hi as [Hi|[Hi Hi']]; [by apply H|].
  apply list_lookup_singleton_Some in Hi' as [E <-]. by replace i with (length xs) by lia.
Qed.

(** A periodic array contains the result of a copy. *)
Lemma self_copy_rep n offset d xs xs' lo k :
  (forall i, lo <= i < k -> at_ d i = at_ d (i - offset)) -> lo <= zlen xs -> zlen xs + Z.of_nat n <= k ->
  1 <= offset <= zlen xs -> prefix_rep d xs -> self_copy n offset xs = Some xs' -> prefix_rep d xs'.
Proof.
  intros Hper. revert xs. induction n as [|n IH]; intros xs Hlo Hk Ho Hr; cbn [self_copy]; [by intros [= <-]|].
  rewrite (proj2 (Z.leb_gt _ 0)), (proj2 (Z.ltb_ge _ _)) by lia. cbn [orb].
  destruct (slice_head xs (zlen xs - offset)) as [c Hc]; [lia|]. rewrite Hc. cbn [mbind option_bind].
  assert (E : zlen (xs ++ [c]) = zlen xs + 1) by (rewrite zlen_app; done).
  apply IH; [lia|lia|lia|]. apply prefix_rep_snoc; [done|].
  specialize (Hper (zlen xs) ltac:(lia)). rewrite !at_nonneg in Hper by lia.
  unfold zlen in Hper at 1. rewrite Nat2Z.id in Hper. rewrite Hper. by apply Hr.
Qed.

Lemma splice_rep d xs bs :
  prefix_rep d xs -> zlen xs + zlen bs <= zlen d -> prefix_rep (splice d (zlen xs) (Some <$> bs)) (xs ++ bs).
Proof.
  intros Hr Hl i c Hi. pose proof (zlen_nonneg xs).
  rewrite splice_lookup by (rewrite ?zlen_fmap; lia). rewrite zlen_fmap.
  apply lookup_app_Some in Hi as [Hi|[Hi Hi']].
  - apply lookup_lt_Some in Hi as Hlt. rewrite (proj2 (Z.ltb_lt _ _)) by (unfold zlen; lia). by apply Hr.
  - apply lookup_lt_Some in Hi' as Hlt. unfold zlen in *.
    rewrite (proj2 (Z.ltb_ge _ _)), (proj2 (Z.ltb_lt _ _)) by lia. rewrite list_lookup_fmap.
    rewrite Nat2Z.id. by rewrite Hi'.
Qed.

Lemma prefix_rep_take d xs ys : prefix_rep d (xs ++ ys) -> forall k, prefix_rep d (xs ++ take k ys).
Proof.
  intros H k i c Hi. apply H. apply lookup_app_Some in Hi as [Hi|[Hi Hi']]; apply lookup_app_Some; [by left|right].
  split; [done|]. by apply lookup_take_Some in Hi' as [? _].
Qed.

(** [d0] is the array before decompression: what lies behind the expected
    length stays. *)
Record array_rep (d0 : list cell) (w : SnappyArrayWriter) (n : Z) (xs : list Z) : Prop := {
  ar_op : w.(aw_op) = zlen xs;
  ar_limit : w.(aw_op_limit) = n;
  ar_len : zlen w.(aw_array) = zlen d0;
  ar_room : zlen xs <= n <= zlen d0;
  ar_small : n < 2 ^ 32;
  ar_pre : prefix_rep w.(aw_array) xs;
  ar_post : forall i, n <= i -> at_ w.(aw_array) i = at_ d0 i
}.

Lemma array_append d0 w n xs bs :
  array_rep d0 w n xs ->
  exists w', aw_Append w bs = Ok (zlen xs + zlen bs <=? n, w') /\
    (zlen xs + zlen bs <= n -> array_rep d0 w' n (xs ++ bs)).
Proof.
  intros [H1 H2 H3 H4 H5 H6 H7]. unfold aw_Append. rewrite H1, H2. pose proof (zlen_nonneg bs). pose proof (zlen_nonneg xs).
  destruct (Z.ltb_spec (n - zlen xs) (zlen bs)) as [Hlt|Hge].
  - exists w. rewrite (proj2 (Z.leb_gt _ _)) by lia. split; [done|lia].
  - unfold store_block. rewrite zlen_fmap, H3.
    rewrite (proj2 (Z.leb_le 0 _)), (proj2 (Z.leb_le _ (zlen d0))), (proj2 (Z.leb_le _ n)) by lia. cbn [andb].
    rewrite bind_ok. eexists. split; [done|]. intros _. split; cbn [aw_op aw_op_limit aw_array]; try done.
    + by rewrite zlen_app.
    + rewrite zlen_splice; rewrite ?zlen_fmap; lia.
    + rewrite zlen_app. lia.
    + apply splice_rep; [done|lia].
    + intros i Hi. rewrite at_splice, zlen_fmap by (rewrite ?zlen_fmap; lia).
      rewrite (proj2 (Z.ltb_ge i _)), andb_false_r by lia. by apply H7.
Qed.

(** The fast append stores 16 bytes, of which [len] count. *)
Lemma array_fast d0 w n xs ip len :
  array_rep d0 w n xs -> 1 <= len ->
  aw_TryFastAppend w ip len = Ok (false, w) \/
  len <= 16 /\ 16 + kMaximumTagLength <= zlen ip /\ zlen xs + len <= n /\
  exists w', aw_TryFastAppend w ip len = Ok (true, w') /\ array_rep d0 w' n (xs ++ ztake len ip).
Proof.
  intros [H1 H2 H3 H4 H5 H6 H7] Hlen. unfold aw_TryFastAppend. rewrite H1, H2.
  pose proof (zlen_nonneg xs). unfold kMaximumTagLength in *.
  destruct ((len <=? 16) && _ && _) eqn:E; [right|by left].
  apply andb_true_iff in E as [[E1%Z.leb_le E2%Z.leb_le]%andb_true_iff E3%Z.leb_le].
  assert (Hz : zlen (ztake 16 ip) = 16) by (apply zlen_ztake; lia).
  split; [done|]. split; [done|]. split; [lia|].
  unfold store_block. rewrite zlen_fmap, H3, Hz.
  rewrite (proj2 (Z.leb_le 0 _)), (proj2 (Z.leb_le _ (zlen d0))) by lia. cbn [andb]. rewrite bind_ok.
  eexists. split; [done|]. split; cbn [aw_op aw_op_limit aw_array]; try done.
  - rewrite zlen_app, zlen_ztake by lia. done.
  - rewrite zlen_splice; rewrite ?zlen_fmap; lia.
  - rewrite zlen_app, zlen_ztake by lia. lia.
  - replace (ztake len ip) with (take (Z.to_nat len) (ztake 16 ip))
      by (unfold ztake; rewrite take_take; f_equal; lia).
    apply prefix_rep_take, splice_rep; [done|lia].
  - intros i Hi. rewrite at_splice, zlen_fmap by (rewrite ?zlen_fmap; lia).
    rewrite (proj2 (Z.ltb_ge i _)), andb_false_r by lia. by apply H7.
Qed.

Lemma at_below d xs i : prefix_rep d xs -> 0 <= i < zlen xs -> at_ d i = Some <$> (xs !! Z.to_nat i).
Proof.
  intros H Hi. rewrite at_nonneg by lia. destruct (slice_head xs i Hi) as [c Hc]. rewrite Hc. by apply H.
Qed.

Lemma array_self ssse3 d0 w n xs offset len :
  array_rep d0 w n xs -> 0 <= offset < 2 ^ 33 -> 1 <= len ->
  exists w', aw_AppendFromSelf ssse3 w offset len =
      Ok ((1 <=? offset) && (offset <=? zlen xs) && (zlen xs + len <=? n), w') /\
    (1 <= offset <= zlen xs -> zlen xs + len <= n ->
     exists xs', self_copy (Z.to_nat len) offset xs = Some xs' /\ array_rep d0 w' n xs').
Proof.
  intros [H1 H2 H3 H4 H5 H6 H7] Ho Hlen. pose proof (zlen_nonneg xs). unfold aw_AppendFromSelf. cbv zeta.
  rewrite H1, H2, offset_test by lia.
  destruct ((1 <=? offset) && (offset <=? zlen xs)) eqn:E; cbn [negb orb andb].
  2: { exists w. split; [done|]. apply andb_false_iff in E as [E%Z.leb_gt|E%Z.leb_gt]; lia. }
  apply andb_true_iff in E as [E1%Z.leb_le E2%Z.leb_le].
  destruct (Z.ltb_spec n (zlen xs + len)) as [Hlt|Hge].
  { exists w. rewrite (proj2 (Z.leb_gt _ _)) by lia. split; [done|lia]. }
  rewrite (proj2 (Z.leb_le _ n)) by lia.
  destruct (IncrementalCopy_good w.(aw_array) (zlen xs) offset n ltac:(lia) ltac:(lia) ssse3 (zlen xs + len) ltac:(lia))
    as (d' & -> & [G1 G2 G3 G4]).
  rewrite bind_ok. cbv beta iota. eexists. split; [done|]. intros _ _.
  destruct (self_copy_total (Z.to_nat len) offset xs ltac:(lia)) as (xs' & Hs & Hl).
  exists xs'. split; [done|]. split; cbn [aw_op aw_op_limit aw_array]; try done; try lia.
  - eapply (self_copy_rep (Z.to_nat len) offset d' xs xs' (zlen xs) (zlen xs + len)); [exact G4|lia|lia|lia| |exact Hs].
    intros i c Hi. apply lookup_lt_Some in Hi as Hb. specialize (G2 (Z.of_nat i) ltac:(unfold zlen; lia)).
    rewrite !at_nonneg, Nat2Z.id in G2 by lia. rewrite G2. by apply H6.
  - intros i Hi. rewrite G3 by done. by apply H7.
Qed.

#[export] Instance array_laws (ssse3 : bool) (d0 : list cell) : @WriterLaws _ (array_writer ssse3).
Proof.
  refine {| wrep := array_rep d0 : @SnappyArrayWriter -> Z -> list Z -> Prop |}.
  - intros w n xs H. destruct H. lia.
  - intros w n xs H. cbn. by rewrite (ar_op _ _ _ _ H), (ar_limit _ _ _ _ H).
  - apply array_append.
  - apply array_fast.
  - apply array_self.
Defined.

Record valid_rep (w : SnappyDecompressionValidator) (n : Z) (xs : list Z) : Prop := {
  vr_expected : w.(dv_expected) = n;
  vr_produced : w.(dv_produced) = zlen xs;
  vr_room : zlen xs <= n < 2 ^ 32
}.

#[export] Instance validator_laws : @WriterLaws _ validator_writer.
Proof.
  refine {| wrep := valid_rep |}.
  - intros w n xs H. destruct H. lia.
  - intros w n xs H. cbn. rewrite (vr_expected _ _ _ H), (vr_produced _ _ _ H). apply Z.eqb_sym.
  - intros w n xs bs [H1 H2 H3]. cbn. unfold dv_Append. cbv zeta. rewrite H1, H2. eexists. split; [done|].
    intros Hle. split; cbn [dv_expected dv_produced]; rewrite ?zlen_app; lia.
  - intros w n xs ip len H Hlen. by left.
  - intros w n xs offset len [H1 H2 H3] Ho Hlen. cbn. unfold dv_AppendFromSelf. pose proof (zlen_nonneg xs).
    rewrite H1, H2, offset_test by lia.
    destruct ((1 <=? offset) && (offset <=? zlen xs)) eqn:E; cbn [negb andb]; (eexists; split; [done|]); intros Hof Hle.
    + destruct (self_copy_total (Z.to_nat len) offset xs ltac:(lia)) as (xs' & Hs & Hl).
      exists xs'. split; [done|]. split; cbn [dv_expected dv_produced]; lia.
    + apply andb_false_iff in E as [E%Z.leb_gt|E%Z.leb_gt]; lia.
Defined.

(** ** Refilling *)

(** The input not yet consumed. *)
Definition rest_of (d : decompressor) : list Z := d.(d_buf) ++ zdrop d.(d_peeked) d.(d_reader).

Record dinv (d : decompressor) : Prop := {
  di_eof : d.(d_eof) = false;
  di_peeked : 0 <= d.(d_peeked) <= zlen d.(d_reader);
  di_bytes : Forall byte_ok (rest_of d);
  di_small : zlen (rest_of d) < 2 ^ 32
}.

(** A whole tag is in the buffer. *)
Definition ready (d : decompressor) : Prop := exists c t, d.(d_buf) = c :: t /\ extra c <= zlen t.

(** What refilling does, by the input that is left. *)
Definition refilled (r : list Z) (res : bool * decompressor) : Prop :=
  match r with
  | [] => res.1 = false /\ d_eof res.2 = true
  | c :: t =>
      if extra c <=? zlen t then res.1 = true /\ dinv res.2 /\ rest_of res.2 = r /\ ready res.2
      else res.1 = false /\ d_eof res.2 = false
  end.

Lemma zdrop_0 {A} (l : list A) : zdrop 0 l = l.
Proof. done. Qed.

Lemma zdrop_zlen {A} (l : list A) : zdrop (zlen l) l = [].
Proof. unfold zdrop, zlen. rewrite Nat2Z.id. apply drop_all. Qed.

Lemma zlen_pos_cons {A} (l : list A) : 0 < zlen l -> exists a t, l = a :: t.
Proof. destruct l as [|a t]; [unfold zlen; cbn; lia|]. by exists a, t. Qed.

Lemma refill_scratch_ok scratch reader needed :
  zlen scratch < needed ->
  refill_scratch (S (length reader)) scratch reader needed =
  if needed <=? zlen scratch + zlen reader
  then Some (scratch ++ ztake (needed - zlen scratch) reader, zdrop (needed - zlen scratch) reader) else None.
Proof.
  intros Hn. cbn [refill_scratch]. rewrite (proj2 (Z.ltb_lt _ _)) by done.
  destruct reader as [|a t]; [by rewrite (proj2 (Z.leb_gt _ _)) by (unfold zlen in *; cbn; lia)|].
  cbn [length refill_scratch]. set (r := a :: t). assert (0 < zlen r) by (unfold zlen; cbn; lia).
  destruct (Z.leb_spec needed (zlen scratch + zlen r)) as [Hle|Hgt].
  - rewrite Z.min_l by lia. rewrite zlen_app, zlen_ztake by lia. by rewrite (proj2 (Z.ltb_ge _ _)) by lia.
  - rewrite Z.min_r by lia. rewrite ztake_zlen, zdrop_zlen, zlen_app. by rewrite (proj2 (Z.ltb_lt _ _)) by lia.
Qed.

Lemma dinv_same d d' :
  dinv d -> d_eof d' = d_eof d -> 0 <= d_peeked d' <= zlen (d_reader d') -> rest_of d' = rest_of d -> dinv d'.
Proof. intros [H1 H2 H3 H4] E1 Hp E2. split; [congruence|done|by rewrite E2|by rewrite E2]. Qed.

(** The buffer is not empty. *)
Definition RefillTag_full (d : decompressor) : bool * decompressor :=
  match d.(d_buf) with
  | [] => (false, d)
  | c :: _ =>
      let needed := Z.shiftr (table_entry c) 11 + 1 in
      let nbuf := u32 (zlen d.(d_buf)) in
      if nbuf <? needed then
        let reader := zdrop d.(d_peeked) d.(d_reader) in
        match refill_scratch (S (length reader)) (ztake nbuf d.(d_buf)) reader needed with
        | None => (false, mkDecompressor reader d.(d_buf) 0 d.(d_eof))
        | Some (scratch, reader) => (true, mkDecompressor reader scratch 0 d.(d_eof))
        end
      else if nbuf <? kMaximumTagLength then
        (true, mkDecompressor (zdrop d.(d_peeked) d.(d_reader)) (ztake nbuf d.(d_buf)) 0 d.(d_eof))
      else (true, d)
  end.

Lemma RefillTag_full_ok d : dinv d -> d_buf d <> [] -> refilled (rest_of d) (RefillTag_full d).
Proof.
  intros Hd Hne. pose proof Hd as [He Hp Hb Hs]. pose proof (zlen_nonneg (zdrop (d_peeked d) (d_reader d))) as Hz.
  unfold RefillTag_full. destruct (d_buf d) as [|c t] eqn:Ebuf; [done|].
  assert (Hr : rest_of d = c :: t ++ zdrop (d_peeked d) (d_reader d)) by (unfold rest_of; by rewrite Ebuf).
  assert (Hc : byte_ok c) by (rewrite Hr in Hb; by apply Forall_cons in Hb as [? _]).
  pose proof (extra_range c Hc). pose proof (zlen_nonneg t).
  rewrite Hr, zlen_cons, zlen_app in Hs. rewrite Hr. cbn [refilled]. cbv zeta.
  rewrite entry_extra by done. unfold u32. rewrite wrap_small by (rewrite zlen_cons; lia).
  rewrite ztake_zlen, zlen_cons. destruct (Z.ltb_spec (zlen t + 1) (extra c + 1)) as [Hlt|Hge].
  - rewrite refill_scratch_ok by (rewrite zlen_cons; lia). rewrite zlen_cons, zlen_app.
    destruct (Z.leb_spec (extra c + 1) (zlen t + 1 + zlen (zdrop (d_peeked d) (d_reader d)))) as [Hle|Hgt].
    + rewrite (proj2 (Z.leb_le (extra c) _)) by lia.
      assert (Er : rest_of (mkDecompressor (zdrop (extra c + 1 - (zlen t + 1)) (zdrop (d_peeked d) (d_reader d)))
        ((c :: t) ++ ztake (extra c + 1 - (zlen t + 1)) (zdrop (d_peeked d) (d_reader d))) 0 (d_eof d)) = rest_of d).
      { rewrite Hr. unfold rest_of. cbn [d_buf d_peeked d_reader]. by rewrite zdrop_0, <- app_assoc, ztake_zdrop. }
      split; [done|]. cbn [snd]. split; [|split; [by rewrite Er|]].
      * eapply dinv_same; [exact Hd|done| |done]. cbn [d_peeked d_reader]. pose proof (zlen_nonneg
          (zdrop (extra c + 1 - (zlen t + 1)) (zdrop (d_peeked d) (d_reader d)))). lia.
      * exists c, (t ++ ztake (extra c + 1 - (zlen t + 1)) (zdrop (d_peeked d) (d_reader d))).
        split; [done|]. rewrite zlen_app, zlen_ztake by lia. lia.
    + rewrite (proj2 (Z.leb_gt (extra c) _)) by lia. split; [done|]. done.
  - rewrite zlen_app, (proj2 (Z.leb_le (extra c) _)) by lia. unfold kMaximumTagLength.
    destruct (Z.ltb_spec (zlen t + 1) 5).
    + split; [done|]. cbn [snd]. split; [|split].
      * eapply dinv_same; [exact Hd|done|cbn; lia|]. rewrite Hr. unfold rest_of. cbn. done.
      * unfold rest_of. cbn. done.
      * exists c, t. split; [done|lia].
    + split; [done|]. split; [done|]. split; [done|]. exists c, t. split; [done|lia].
Qed.

Lemma RefillTag_split d :
  RefillTag d =
  match d.(d_buf) with
  | [] =>
      let reader := zdrop d.(d_peeked) d.(d_reader) in
      if zlen reader =? 0 then (false, mkDecompressor reader [] (zlen reader) true)
      else RefillTag_full (mkDecompressor reader reader (zlen reader) false)
  | _ => RefillTag_full d
  end.
Proof.
  unfold RefillTag, RefillTag_full. destruct (d_buf d) as [|c t] eqn:E; [|by rewrite E]. cbv zeta.
  destruct (zlen (zdrop (d_peeked d) (d_reader d)) =? 0); done.
Qed.

Lemma MAYBE_REFILL_ok d : dinv d -> refilled (rest_of d) (MAYBE_REFILL d).
Proof.
  intros Hd. pose proof Hd as [He Hp Hb Hs]. unfold MAYBE_REFILL.
  destruct (Z.ltb_spec (zlen (d_buf d)) kMaximumTagLength) as [Hlt|Hge].
  - rewrite RefillTag_split. destruct (d_buf d) as [|c t] eqn:Ebuf; [|apply RefillTag_full_ok; [done|by rewrite Ebuf]].
    cbv zeta. assert (Hr : rest_of d = zdrop (d_peeked d) (d_reader d)) by (unfold rest_of; by rewrite Ebuf).
    rewrite Hr. destruct (Z.eqb_spec (zlen (zdrop (d_peeked d) (d_reader d))) 0) as [E|E].
    + destruct (zdrop _ _) eqn:E'; [done|]. rewrite zlen_cons in E. pose proof (zlen_nonneg l). lia.
    + set (r := zdrop (d_peeked d) (d_reader d)) in *. pose proof (zlen_nonneg r).
      assert (Er : rest_of (mkDecompressor r r (zlen r) false) = r)
        by (unfold rest_of; cbn; by rewrite zdrop_zlen, app_nil_r).
      rewrite <- Er at 1. apply RefillTag_full_ok.
      * split; cbn [d_eof d_peeked d_reader]; [done|lia| |]; rewrite Er; by rewrite <- Hr.
      * cbn. intros E'. by rewrite E' in E.
  - unfold kMaximumTagLength in Hge. destruct (zlen_pos_cons (d_buf d) ltac:(lia)) as (c & t & Ebuf).
    assert (Hr : rest_of d = c :: t ++ zdrop (d_peeked d) (d_reader d)) by (unfold rest_of; by rewrite Ebuf).
    rewrite Hr in Hb. apply Forall_cons in Hb as [Hc _]. pose proof (extra_range c Hc).
    rewrite Ebuf, zlen_cons in Hge. pose proof (zlen_nonneg (zdrop (d_peeked d) (d_reader d))).
    rewrite Hr. cbn [refilled]. rewrite zlen_app, (proj2 (Z.leb_le _ _)) by lia.
    split; [done|]. split; [done|]. split; [done|]. exists c, t. split; [done|lia].
Qed.

(** ** A step of the loop decodes one element *)

Lemma zdrop_app_le {A} k (l t : list A) : 0 <= k <= zlen l -> zdrop k (l ++ t) = zdrop k l ++ t.
Proof. intros H. unfold zdrop, zlen in *. apply drop_app_le. lia. Qed.

(** The output after an element, if it fits. *)
Definition apply_op (n : Z) (xs : list Z) (pr : op * list Z) : option (list Z * list Z) :=
  xs' ← exec1 xs pr.1; if zlen xs' <=? n then Some (xs', pr.2) else None.

Lemma decode_ops_S fuel c r xs n :
  decode_ops (S fuel) (c :: r) xs n =
  match decode_tag c r ≫= apply_op n xs with Some (xs', r') => decode_ops fuel r' xs' n | None => None end.
Proof.
  cbn [decode_ops]. destruct (decode_tag c r) as [[p r']|]; [|done]. cbn [mbind option_bind]. unfold apply_op.
  cbn [fst snd]. destruct (exec1 xs p) as [xs'|]; [|done]. cbn [mbind option_bind]. by destruct (_ <=? n).
Qed.

Lemma decode_tag_copy c r :
  byte_ok c -> c mod 4 <> 0 -> extra c <= zlen r ->
  decode_tag c r = Some (OCopy (Z.land (table_entry c) 0x700 + le_val (ztake (extra c) r)) (Z.land (table_entry c) 0xff),
                         zdrop (extra c) r).
Proof.
  intros Hc Hne He. destruct (entry_copy c Hc Hne) as [-> ->]. unfold decode_tag, take_le, extra in *.
  rewrite (proj2 (Z.eqb_neq _ _)) in * by done.
  destruct (c mod 4 =? 1); [by rewrite (proj2 (Z.leb_le _ _)) by done|].
  destruct (c mod 4 =? 2); by rewrite (proj2 (Z.leb_le _ _)) by done.
Qed.

Lemma decode_tag_literal c r :
  byte_ok c -> c mod 4 = 0 -> extra c <= zlen r ->
  decode_tag c r =
  if c / 4 <? 60 then take_lit (c / 4 + 1) r
  else take_lit (u32 (le_val (ztake (extra c) r) + 1)) (zdrop (extra c) r).
Proof.
  intros Hc E He. unfold decode_tag, take_le, extra in *. rewrite E in *. cbn [Z.eqb] in *.
  destruct (c / 4 <? 60); [done|]. by rewrite (proj2 (Z.leb_le _ _)) by done.
Qed.

Lemma tag_ranges c : byte_ok c -> 0 <= c / 4 < 64 /\ 0 <= c / 32 < 8 /\ 0 <= (c / 4) mod 8 < 8.
Proof.
  intros Hc. unfold byte_ok in Hc. split; [|split].
  - split; [apply Z.div_pos; lia|apply Z.div_lt_upper_bound; lia].
  - split; [apply Z.div_pos; lia|apply Z.div_lt_upper_bound; lia].
  - apply Z.mod_pos_bound. lia.
Qed.

Lemma copy_ranges c : byte_ok c -> c mod 4 <> 0 ->
  1 <= Z.land (table_entry c) 0xff /\ 0 <= Z.land (table_entry c) 0x700 < 2048.
Proof.
  intros Hc Hne. destruct (entry_copy c Hc Hne) as [-> ->]. pose proof (tag_ranges c Hc).
  destruct (c mod 4 =? 1); lia.
Qed.

Lemma le_val_ztake k bs : Forall byte_ok bs -> 0 <= k <= 4 -> 0 <= le_val (ztake k bs) < 2 ^ 32.
Proof.
  intros Hb Hk. pose proof (le_val_range (ztake k bs) (Forall_take _ _ _ Hb)) as Hr.
  assert (Hl : Z.of_nat (length (ztake k bs)) <= 4) by (unfold ztake; rewrite length_take; lia).
  pose proof (Z.pow_le_mono_r 2 (8 * Z.of_nat (length (ztake k bs))) 32 ltac:(lia) ltac:(lia)). lia.
Qed.

Section Refine.
Context {W : Type} `{HL : WriterLaws W}.

Definition stepped (n : Z) (o : option (list Z * list Z)) (res : bool * decompressor * W) : Prop :=
  match o with
  | None => res.1.1 = false /\ d_eof res.1.2 = false
  | Some (xs', r') => wrep res.2 n xs' /\ refilled r' res.1
  end.

Definition literal_part (d : decompressor) (w : W) (literal_length : Z) : res (bool * decompressor * W) :=
  '(remaining, d, w) ← literal_loop 3 d w literal_length;
  match remaining with
  | None => Ok (false, d, w)
  | Some literal_length =>
      '(b, w) ← Append w (ztake literal_length d.(d_buf));
      if negb b then Ok (false, d, w)
      else
        let '(go, d) := MAYBE_REFILL (set_buf d (zdrop literal_length d.(d_buf))) in
        Ok (go, d, w)
  end.

Lemma dinv_next d r x :
  dinv d -> rest_of d = x ++ r -> dinv (mkDecompressor r r (zlen r) false) /\
  rest_of (mkDecompressor r r (zlen r) false) = r.
Proof.
  intros [He Hp Hb Hs] E. assert (Er : rest_of (mkDecompressor r r (zlen r) false) = r)
    by (unfold rest_of; cbn; by rewrite zdrop_zlen, app_nil_r).
  split; [|done]. pose proof (zlen_nonneg r). pose proof (zlen_nonneg x). rewrite E, zlen_app in Hs.
  split; cbn [d_eof d_peeked d_reader]; [done|lia| |]; rewrite Er; [|lia].
  rewrite E in Hb. by apply Forall_app in Hb as [_ ?].
Qed.

Lemma literal_loop_ok d w n xs L :
  dinv d -> wrep w n xs ->
  exists rem d' w', literal_loop 3 d w L = Ok (rem, d', w') /\
    match rem with
    | None => d_eof d' = false /\ (zlen (rest_of d) < L \/ n < zlen xs + L)
    | Some L' => dinv d' /\ L' <= zlen (d_buf d') /\
        exists x, rest_of d = x ++ rest_of d' /\ L = zlen x + L' /\ (0 <= L -> 0 <= L') /\ wrep w' n (xs ++ x)
    end.
Proof.
  intros Hd Hw. change 3%nat with (S 2). cbn [literal_loop]. pose proof Hd as [He Hp Hb Hs].
  destruct (Z.ltb_spec (zlen (d_buf d)) L) as [Hlt|Hge].
  2: { exists (Some L), d, w. split; [done|]. split; [done|]. split; [done|]. exists []. rewrite app_nil_r. done. }
  destruct (append_law w n xs (d_buf d) Hw) as (w1 & -> & Hw1). rewrite bind_ok. cbv beta iota zeta.
  destruct (Z.leb_spec (zlen xs + zlen (d_buf d)) n) as [Hle|Hgt]; cbn [negb].
  2: { exists None, d, w1. split; [done|]. split; [done|]. lia. }
  specialize (Hw1 Hle). set (r := zdrop (d_peeked d) (d_reader d)) in *.
  assert (Hr : rest_of d = d_buf d ++ r) by done.
  rewrite He. destruct (dinv_next d r (d_buf d) Hd Hr) as [Hd1 Hr1].
  destruct (Z.eqb_spec (zlen r) 0) as [E0|E0].
  { exists None. eexists _, _. split; [done|]. split; [done|]. left. rewrite Hr, zlen_app. lia. }
  cbn [d_buf d_peeked d_reader d_eof]. destruct (Z.ltb_spec (zlen r) (L - zlen (d_buf d))) as [Hlt'|Hge'].
  - destruct (append_law w1 n _ r Hw1) as (w2 & -> & _). rewrite bind_ok. cbv beta iota zeta. rewrite zdrop_zlen.
    assert (Hshort : zlen (rest_of d) < L) by (rewrite Hr, zlen_app; lia).
    destruct (_ <=? n); cbn [negb]; exists None; eexists _, _; (split; [done|]); (split; [done|]); by left.
  - exists (Some (L - zlen (d_buf d))). eexists _, _. split; [done|]. split; [done|]. split; [done|].
    exists (d_buf d). split; [by rewrite Hr1|]. split; [lia|]. split; [lia|done].
Qed.

Lemma rest_set_buf d k :
  0 <= k <= zlen (d_buf d) -> rest_of (set_buf d (zdrop k (d_buf d))) = zdrop k (rest_of d).
Proof. intros Hk. unfold rest_of, set_buf. cbn [d_buf d_peeked d_reader]. by rewrite zdrop_app_le. Qed.

Lemma Forall_zdrop (P : Z -> Prop) k l : Forall P l -> Forall P (zdrop k l).
Proof. apply Forall_drop. Qed.

(** Consuming bytes of the buffer keeps the invariant. *)
Lemma dinv_set_buf d k : dinv d -> 0 <= k <= zlen (d_buf d) -> dinv (set_buf d (zdrop k (d_buf d))).
Proof.
  intros [He Hp Hb Hs] Hk. split; [done|done| |]; rewrite rest_set_buf by done.
  - by apply Forall_zdrop.
  - unfold rest_of in *. rewrite zlen_app in Hs. rewrite zdrop_app_le, zlen_app, zlen_zdrop by done. lia.
Qed.

Lemma zdrop_zdrop {A} a b (l : list A) : 0 <= a -> 0 <= b -> zdrop a (zdrop b l) = zdrop (b + a) l.
Proof. intros Ha Hb. unfold zdrop. rewrite drop_drop. f_equal. lia. Qed.

Lemma take_lit_fits n xs L r :
  0 <= L -> take_lit L r ≫= apply_op n xs =
  if (L <=? zlen r) && (zlen xs + L <=? n) then Some (xs ++ ztake L r, zdrop L r) else None.
Proof.
  intros HL0. unfold take_lit. destruct (Z.leb_spec L (zlen r)) as [Hle|]; [|done].
  cbn [mbind option_bind]. unfold apply_op. cbn [fst snd exec1 mbind option_bind].
  rewrite zlen_app, zlen_ztake by lia. done.
Qed.

Lemma stepped_refill n xs' d (w : W) :
  dinv d -> wrep w n xs' ->
  exists go d' w', (let '(go, d) := MAYBE_REFILL d in Ok (go, d, w)) = Ok (go, d', w') /\
    stepped n (Some (xs', rest_of d)) (go, d', w').
Proof.
  intros Hd Hw. pose proof (MAYBE_REFILL_ok d Hd) as Hr. destruct (MAYBE_REFILL d) as [go d'].
  exists go, d', w. split; [done|]. split; done.
Qed.

Lemma literal_part_ok d w n xs L :
  dinv d -> wrep w n xs -> 0 <= L ->
  exists go d' w', literal_part d w L = Ok (go, d', w') /\
    stepped n (take_lit L (rest_of d) ≫= apply_op n xs) (go, d', w').
Proof.
  intros Hd Hw HL0. unfold literal_part. rewrite take_lit_fits by done.
  destruct (literal_loop_ok d w n xs L Hd Hw) as (rem & d1 & w1 & -> & Hrem). rewrite bind_ok. cbv beta iota.
  destruct rem as [L'|].
  - destruct Hrem as (Hd1 & Hbuf & x & Hr & HL' & Hpos & Hw1). specialize (Hpos HL0).
    destruct (append_law w1 n _ (ztake L' (d_buf d1)) Hw1) as (w2 & -> & Hw2). rewrite bind_ok. cbv beta iota.
    rewrite zlen_app, zlen_ztake in * by lia. rewrite Hr, zlen_app.
    assert (zlen (rest_of d1) = zlen (d_buf d1) + zlen (zdrop (d_peeked d1) (d_reader d1)))
      by (unfold rest_of; by rewrite zlen_app).
    pose proof (zlen_nonneg (zdrop (d_peeked d1) (d_reader d1))). pose proof (zlen_nonneg x).
    rewrite (proj2 (Z.leb_le L _)) by lia. cbn [andb]. replace (zlen xs + zlen x + L') with (zlen xs + L) in * by lia.
    destruct (Z.leb_spec (zlen xs + L) n) as [Hle|Hgt]; cbn [negb].
    + specialize (Hw2 Hle). rewrite <- app_assoc in Hw2.
      assert (E1 : ztake L (x ++ rest_of d1) = x ++ ztake L' (d_buf d1)).
      { unfold ztake, rest_of, zlen in *. rewrite take_app_ge, take_app_le by lia. repeat f_equal. lia. }
      assert (E2 : zdrop L (x ++ rest_of d1) = rest_of (set_buf d1 (zdrop L' (d_buf d1)))).
      { rewrite rest_set_buf by lia. unfold zdrop, zlen in *. rewrite drop_app_ge by lia. f_equal. lia. }
      rewrite E1, E2. apply stepped_refill; [apply dinv_set_buf; [done|lia]|done].
    + exists false, d1, w2. split; [done|]. split; [done|]. apply Hd1.
  - destruct Hrem as [He Hno]. exists false, d1, w1. split; [done|].
    assert ((L <=? zlen (rest_of d)) && (zlen xs + L <=? n) = false) as ->
      by (apply andb_false_iff; rewrite !Z.leb_gt; lia).
    done.
Qed.

Lemma MAYBE_REFILL_full d : 5 <= zlen (d_buf d) -> MAYBE_REFILL d = (true, d).
Proof. intros H. unfold MAYBE_REFILL. by rewrite (proj2 (Z.ltb_ge _ _)). Qed.

Lemma copy_apply n xs offset len r :
  1 <= len ->
  (1 <=? offset) && (offset <=? zlen xs) && (zlen xs + len <=? n) = false ->
  apply_op n xs (OCopy offset len, r) = None.
Proof.
  intros Hl E. unfold apply_op. cbn [fst snd exec1].
  destruct (Z.to_nat len) as [|k] eqn:Ek; [lia|].
  destruct (Z.leb_spec 1 offset) as [H1|H1], (Z.leb_spec offset (zlen xs)) as [H2|H2]; cbn [andb] in E.
  - destruct (self_copy_total (S k) offset xs ltac:(lia)) as (xs' & -> & Hz). cbn [mbind option_bind].
    apply Z.leb_gt in E. by rewrite (proj2 (Z.leb_gt _ _)) by lia.
  - cbn [self_copy]. by rewrite (proj2 (Z.ltb_lt _ _) H2), orb_true_r.
  - cbn [self_copy]. by rewrite (proj2 (Z.leb_le _ 0)) by lia.
  - cbn [self_copy]. by rewrite (proj2 (Z.leb_le _ 0)) by lia.
Qed.

Lemma stepped_literal d w n xs c ip :
  dinv d -> wrep w n xs -> d_buf d = c :: ip -> extra c <= zlen ip -> c mod 4 = 0 ->
  exists go d' w', tag_step d w = Ok (go, d', w') /\
    stepped n (decode_tag c (ip ++ zdrop (d_peeked d) (d_reader d)) ≫= apply_op n xs) (go, d', w').
Proof.
  intros Hd Hw Ebuf Hex Hc0. set (r := zdrop (d_peeked d) (d_reader d)). pose proof Hd as [He Hp Hb Hs].
  assert (Hr : rest_of d = c :: ip ++ r) by (unfold rest_of; by rewrite Ebuf).
  assert (Hc : byte_ok c) by (rewrite Hr in Hb; by apply Forall_cons in Hb as [? _]).
  assert (Hip : Forall byte_ok ip) by (rewrite Hr in Hb; apply Forall_cons in Hb as [_ Hb]; by apply Forall_app in Hb as [? _]).
  pose proof (extra_range c Hc). pose proof (tag_ranges c Hc). destruct (entry_bits c Hc) as [E1 E2].
  assert (Hd1 : dinv (set_buf d ip)).
  { replace ip with (zdrop 1 (d_buf d)) by (by rewrite Ebuf). apply dinv_set_buf; [done|].
    rewrite Ebuf, zlen_cons. pose proof (zlen_nonneg ip). lia. }
  unfold tag_step. rewrite Ebuf, E1, E2, Hc0. cbv zeta. cbn [LITERAL Z.eqb].
  rewrite decode_tag_literal by (rewrite ?zlen_app; pose proof (zlen_nonneg r); first [done|lia]).
  destruct (fast_law w n xs ip (c / 4 + 1) Hw ltac:(lia)) as [->|(F1 & F2 & F3 & w' & -> & Hw')]; rewrite bind_ok; cbv beta iota.
  - assert (Hlit : forall L d1, dinv d1 -> 0 <= L ->
      exists go d' w', literal_part d1 w L = Ok (go, d', w') /\
        stepped n (take_lit L (rest_of d1) ≫= apply_op n xs) (go, d', w')) by (intros; by apply literal_part_ok).
    unfold literal_part in Hlit. destruct (Z.leb_spec 61 (c / 4 + 1)) as [Hlong|Hshort].
    + rewrite (proj2 (Z.ltb_ge (c / 4) 60)) by lia.
      assert (Ek : c / 4 + 1 - 60 = extra c)
        by (unfold extra; rewrite Hc0; cbn [Z.eqb]; rewrite (proj2 (Z.ltb_ge _ _)); lia).
      rewrite Ek. unfold load_masked. rewrite (proj2 (Z.leb_le _ _)) by lia. rewrite !bind_ok. cbv beta iota.
      rewrite ztake_app_le, zdrop_app_le by lia.
      apply (Hlit (u32 (le_val (ztake (extra c) ip) + 1)) (set_buf (set_buf d ip) (zdrop (extra c) ip))).
      * change ip with (d_buf (set_buf d ip)) at 2. apply dinv_set_buf; [done|]. cbn [set_buf d_buf]. lia.
      * apply wrap_range. lia.
    + rewrite (proj2 (Z.ltb_lt (c / 4) 60)) by lia. rewrite !bind_ok. cbv beta iota.
      apply (Hlit (c / 4 + 1) (set_buf d ip)); [done|lia].
  - unfold kMaximumTagLength in F2. rewrite (proj2 (Z.ltb_lt (c / 4) 60)) by lia. pose proof (zlen_nonneg r).
    rewrite take_lit_fits by lia. rewrite zlen_app, !(proj2 (Z.leb_le _ _)) by lia. cbn [andb].
    rewrite ztake_app_le, zdrop_app_le by lia. eexists _, _, _. split; [done|]. split; [done|].
    assert (Hd2 : dinv (set_buf (set_buf d ip) (zdrop (c / 4 + 1) ip))).
    { change ip with (d_buf (set_buf d ip)) at 2. apply dinv_set_buf; [done|]. cbn [set_buf d_buf]. lia. }
    pose proof (MAYBE_REFILL_ok _ Hd2) as Hm. rewrite MAYBE_REFILL_full in Hm; [exact Hm|].
    cbn [set_buf d_buf]. rewrite zlen_zdrop; lia.
Qed.

Lemma stepped_copy d w n xs c ip :
  dinv d -> wrep w n xs -> d_buf d = c :: ip -> extra c <= zlen ip -> c mod 4 <> 0 ->
  exists go d' w', tag_step d w = Ok (go, d', w') /\
    stepped n (decode_tag c (ip ++ zdrop (d_peeked d) (d_reader d)) ≫= apply_op n xs) (go, d', w').
Proof.
  intros Hd Hw Ebuf Hex Hc0. set (r := zdrop (d_peeked d) (d_reader d)). pose proof Hd as [He Hp Hb Hs].
  assert (Hr : rest_of d = c :: ip ++ r) by (unfold rest_of; by rewrite Ebuf).
  assert (Hc : byte_ok c) by (rewrite Hr in Hb; by apply Forall_cons in Hb as [? _]).
  assert (Hip : Forall byte_ok ip) by (rewrite Hr in Hb; apply Forall_cons in Hb as [_ Hb]; by apply Forall_app in Hb as [? _]).
  pose proof (extra_range c Hc). destruct (entry_bits c Hc) as [E1 E2]. pose proof (copy_ranges c Hc Hc0) as [Hlen Hhi].
  pose proof (le_val_ztake (extra c) ip Hip ltac:(lia)) as Hv. pose proof (zlen_nonneg r).
  unfold tag_step. rewrite Ebuf, E1. cbv zeta. unfold LITERAL. rewrite (proj2 (Z.eqb_neq _ _)) by done.
  rewrite entry_extra by done. unfold load_masked. rewrite (proj2 (Z.leb_le _ _)) by done. rewrite bind_ok.
  rewrite decode_tag_copy, ztake_app_le, zdrop_app_le by (rewrite ?zlen_app; first [done|lia]).
  cbn [mbind option_bind].
  set (offset := Z.land (table_entry c) 0x700 + le_val (ztake (extra c) ip)).
  set (len := Z.land (table_entry c) 0xff) in *.
  assert (Hd1 : dinv (set_buf d (zdrop (extra c) ip))).
  { replace (zdrop (extra c) ip) with (zdrop (1 + extra c) (d_buf d))
      by (rewrite Ebuf, <- zdrop_zdrop by lia; done).
    apply dinv_set_buf; [done|]. rewrite Ebuf, zlen_cons. lia. }
  destruct (self_law w n xs offset len Hw ltac:(unfold offset; lia) Hlen) as (w' & E & Hw').
  match goal with |- context [AppendFromSelf _ _ _] => change (set_buf (set_buf d ip)) with (set_buf d) end.
  fold offset len. rewrite E. cbn [mbind res_bind]. cbv beta iota.
  destruct ((1 <=? offset) && (offset <=? zlen xs) && (zlen xs + len <=? n)) eqn:Eok; cbn [negb].
  - apply andb_true_iff in Eok as [[O1%Z.leb_le O2%Z.leb_le]%andb_true_iff O3%Z.leb_le].
    destruct (Hw' ltac:(lia) O3) as (xs' & Hsc & Hw''). unfold apply_op. cbn [fst snd exec1]. rewrite Hsc.
    cbn [mbind option_bind]. pose proof (wrep_bound _ _ _ Hw''). rewrite (proj2 (Z.leb_le _ n)) by lia.
    by apply (stepped_refill n xs' (set_buf d (zdrop (extra c) ip)) w').
  - rewrite copy_apply by done. eexists _, _, _. split; [done|]. split; done.
Qed.

Lemma decode_tag_shrinks c r p r' : decode_tag c r = Some (p, r') -> (length r' <= length r)%nat.
Proof.
  assert (Ht : forall k bs v bs', take_le k bs = Some (v, bs') -> (length bs' <= length bs)%nat).
  { intros k bs v bs'. unfold take_le, zdrop. destruct (_ <=? _); [|done]. intros [= _ <-]. rewrite length_drop. lia. }
  assert (Hl : forall k bs p bs', take_lit k bs = Some (p, bs') -> (length bs' <= length bs)%nat).
  { intros k bs p' bs'. unfold take_lit, zdrop. destruct (_ <=? _); [|done]. intros [= _ <-]. rewrite length_drop. lia. }
  unfold decode_tag. repeat case_match; try (by apply Hl);
    match goal with |- (take_le ?k ?bs ≫= _) = _ -> _ => destruct (take_le k bs) as [[v bs']|] eqn:E; [|done] end;
    cbn [mbind option_bind]; apply Ht in E.
  - intros Hx%Hl. lia.
  - intros [= _ <-]. done.
  - intros [= _ <-]. done.
  - intros [= _ <-]. done.
Qed.

Lemma apply_shrinks n xs c r xs' r' :
  decode_tag c r ≫= apply_op n xs = Some (xs', r') -> (length r' <= length r)%nat.
Proof.
  destruct (decode_tag c r) as [[p r1]|] eqn:E; [|done]. cbn [mbind option_bind]. unfold apply_op. cbn [fst snd].
  destruct (exec1 xs p); [|done]. cbn [mbind option_bind]. destruct (_ <=? n); [|done]. intros [= _ <-].
  by eapply decode_tag_shrinks.
Qed.

Lemma decode_ops_fuel k k' bs xs n :
  (length bs <= k)%nat -> (length bs <= k')%nat -> decode_ops k bs xs n = decode_ops k' bs xs n.
Proof.
  revert k' bs xs. induction k as [|k IH]; intros k' [|c r] xs Hk Hk'; cbn [length] in *; try lia; try (by destruct k').
  destruct k' as [|k']; [lia|]. rewrite !decode_ops_S.
  destruct (decode_tag c r ≫= apply_op n xs) as [[xs' r']|] eqn:E; [|done]. apply apply_shrinks in E. apply IH; lia.
Qed.

Lemma decode_ops_truncated fuel c t xs n :
  byte_ok c -> zlen t < extra c -> decode_ops fuel (c :: t) xs n = None.
Proof. intros Hc Ht. destruct fuel as [|f]; [done|]. by rewrite decode_ops_S, decode_tag_short. Qed.

(** The state after all tags, by what the reference decoder says. *)
Definition finished (n : Z) (o : option (list Z)) (d : decompressor) (w : W) : Prop :=
  match o with Some ys => d_eof d = true /\ wrep w n ys | None => d_eof d = false end.

Lemma stepped_bytes d c r : dinv d -> rest_of d = c :: r -> Forall byte_ok (c :: r).
Proof. intros Hd E. rewrite <- E. apply Hd. Qed.

Lemma tag_step_ok d w n xs c r :
  dinv d -> wrep w n xs -> ready d -> rest_of d = c :: r ->
  exists go d' w', tag_step d w = Ok (go, d', w') /\ stepped n (decode_tag c r ≫= apply_op n xs) (go, d', w').
Proof.
  intros Hd Hw (c' & ip & Ebuf & Hex) Hr. unfold rest_of in Hr. rewrite Ebuf in Hr. injection Hr as -> <-.
  destruct (Z.eq_dec (c mod 4) 0); [by apply stepped_literal|by apply stepped_copy].
Qed.

Lemma Forall_suffix_decode c r p r' : decode_tag c r = Some (p, r') -> Forall byte_ok r -> Forall byte_ok r'.
Proof.
  intros E Hr. unfold decode_tag, take_le, take_lit in E.
  repeat case_match; simplify_eq/=; repeat case_match; simplify_eq/=; repeat apply Forall_zdrop; done.
Qed.

Lemma tag_loop_ok fuel d w n xs :
  dinv d -> ready d -> wrep w n xs -> (length (rest_of d) <= fuel)%nat ->
  exists d' w', tag_loop fuel d w = Ok (d', w') /\ finished n (decode_ops fuel (rest_of d) xs n) d' w'.
Proof.
  revert d w xs. induction fuel as [|fuel IH]; intros d w xs Hd Hrd Hw Hf.
  { destruct Hrd as (c & t & E & _). unfold rest_of in Hf. rewrite E in Hf. cbn in Hf. lia. }
  destruct (rest_of d) as [|c r] eqn:Hr.
  { destruct Hrd as (c & t & E & _). unfold rest_of in Hr. by rewrite E in Hr. }
  cbn [tag_loop length] in *. rewrite decode_ops_S.
  destruct (tag_step_ok d w n xs c r Hd Hw Hrd Hr) as (go & d1 & w1 & -> & Hs). rewrite bind_ok. cbv beta iota.
  destruct (decode_tag c r ≫= apply_op n xs) as [[xs' r']|] eqn:E.
  2: { destruct Hs as [Hgo He]. cbn in Hgo, He. subst go. by exists d1, w1. }
  destruct Hs as [Hw1 Href]. cbn [fst snd] in *. apply apply_shrinks in E as Hlen.
  destruct r' as [|c' t']; cbn [refilled fst snd] in Href.
  { destruct Href as [-> He]. exists d1, w1. split; [done|]. by destruct fuel. }
  destruct (Z.leb_spec (extra c') (zlen t')) as [Hle|Hgt].
  - destruct Href as (-> & Hd1 & Hr1 & Hrd1). rewrite <- Hr1. apply IH; try done. rewrite Hr1. lia.
  - destruct Href as [-> He]. exists d1, w1. split; [done|]. rewrite decode_ops_truncated; [done| |done].
    destruct (decode_tag c r) as [[p r1]|] eqn:Et; [|done]. cbn [mbind option_bind] in E. unfold apply_op in E.
    cbn [fst snd] in E. destruct (exec1 xs p); [|done]. cbn in E. destruct (_ <=? n); [|done]. injection E as <- ->.
    pose proof (stepped_bytes d c r Hd Hr) as Hb. apply Forall_cons in Hb as [_ Hb].
    apply (Forall_suffix_decode _ _ _ _ Et) in Hb. by apply Forall_cons in Hb as [? _].
Qed.

Lemma DecompressAllTags_ok rest w n :
  Forall byte_ok rest -> zlen rest < 2 ^ 32 -> wrep w n [] ->
  exists d' w', DecompressAllTags (mkDecompressor rest [] 0 false) w = Ok (d', w') /\
    finished n (decode_ops (S (length rest)) rest [] n) d' w'.
Proof.
  intros Hb Hs Hw. unfold DecompressAllTags.
  assert (Hd : dinv (mkDecompressor rest [] 0 false)).
  { split; [done|cbn; pose proof (zlen_nonneg rest); lia|done|done]. }
  pose proof (MAYBE_REFILL_ok _ Hd) as Href. destruct (MAYBE_REFILL _) as [go d].
  change (rest_of (mkDecompressor rest [] 0 false)) with rest in Href.
  destruct rest as [|c t]; cbn [refilled fst snd] in Href.
  { destruct Href as [-> He]. by exists d, w. }
  destruct (Z.leb_spec (extra c) (zlen t)) as [Hle|Hgt].
  - destruct Href as (-> & Hd1 & Hr1 & Hrd1).
    assert (Hlen : (length (rest_of d) <= length (d_buf d) + length (d_reader d))%nat)
      by (unfold rest_of, zdrop; rewrite length_app, length_drop; lia).
    destruct (tag_loop_ok (S (length (d_buf d) + length (d_reader d))) d w n []) as (d' & w' & -> & Hf);
      [done|done|done|lia|]. rewrite Hr1 in *.
    exists d', w'. split; [done|]. erewrite decode_ops_fuel; [exact Hf| |]; lia.
  - destruct Href as [-> He]. exists d, w. split; [done|]. apply Forall_cons in Hb as [Hc _].
    by rewrite decode_ops_truncated.
Qed.
End Refine.

(** ** The length *)

Lemma byte_cases (P : Z -> bool) :
  forallb (fun k => P (Z.of_nat k)) (seq 0 256) = true -> forall c, byte_ok c -> P c = true.
Proof.
  intros H c Hc. rewrite forallb_forall in H. specialize (H (Z.to_nat c)). unfold byte_ok in Hc.
  rewrite Z2Nat.id in H by lia. apply H, in_seq. lia.
Qed.

(** Seven bits of a byte fit at a shift of up to 21; at 28 only four do. *)
Lemma varint_byte c shift :
  byte_ok c -> shift ∈ [0; 7; 14; 21] ->
  u32 (Z.shiftl (Z.land c 127) shift) = Z.shiftl (Z.land c 127) shift /\
  Z.shiftr (Z.shiftl (Z.land c 127) shift) shift = Z.land c 127.
Proof.
  intros Hc Hs.
  assert (E : forallb (fun s => (u32 (Z.shiftl (Z.land c 127) s) =? Z.shiftl (Z.land c 127) s) &&
    (Z.shiftr (Z.shiftl (Z.land c 127) s) s =? Z.land c 127)) [0; 7; 14; 21] = true).
  { revert c Hc. apply byte_cases. vm_compute. reflexivity. }
  rewrite forallb_forall in E. apply list_elem_of_In, E in Hs.
  by apply andb_true_iff in Hs as [H1%Z.eqb_eq H2%Z.eqb_eq].
Qed.

Lemma varint_byte_28 c :
  byte_ok c ->
  (Z.shiftr (u32 (Z.shiftl (Z.land c 127) 28)) 28 =? Z.land c 127) && (c <? 128) = (c <? 16).
Proof.
  intros Hc. apply eqb_prop. revert c Hc. apply byte_cases. vm_compute. reflexivity.
Qed.

Lemma read_length_step fuel c reader result shift :
  byte_ok c -> shift ∈ [0; 7; 14; 21] ->
  read_length_loop (S fuel) (c :: reader) result shift =
  let result := Z.lor result (Z.shiftl (Z.land c 127) shift) in
  if c <? 128 then Some (result, reader) else read_length_loop fuel reader result (shift + 7).
Proof.
  intros Hc Hs. destruct (varint_byte c shift Hc Hs) as [E1 E2]. cbn [read_length_loop].
  assert ((32 <=? shift) = false) as ->.
  { rewrite !elem_of_cons, elem_of_nil in Hs. destruct Hs as [->|[->|[->|[->|[]]]]]; done. }
  rewrite E1, E2, Z.eqb_refl. done.
Qed.

Lemma read_length_nil fuel result shift : read_length_loop fuel [] result shift = None.
Proof. destruct fuel as [|f]; cbn; [done|]. by destruct (32 <=? shift). Qed.

(** The two readers of a varint agree. *)
Lemma ReadUncompressedLength_Parse32 bs :
  Forall byte_ok bs -> ReadUncompressedLength bs = Parse32WithLimit bs.
Proof.
  intros H. unfold ReadUncompressedLength, Parse32WithLimit.
  destruct H as [|c0 bs Hc0 H]; [done|].
  rewrite read_length_step, Z.lor_0_l, Z.shiftl_0_r by (done || set_solver). cbv zeta. destruct (c0 <? 128); [done|].
  destruct H as [|c1 bs Hc1 H]; [apply read_length_nil|].
  rewrite read_length_step by (done || set_solver). cbv zeta. destruct (c1 <? 128); [done|].
  destruct H as [|c2 bs Hc2 H]; [apply read_length_nil|].
  rewrite read_length_step by (done || set_solver). cbv zeta. destruct (c2 <? 128); [done|].
  destruct H as [|c3 bs Hc3 H]; [apply read_length_nil|].
  rewrite read_length_step by (done || set_solver). cbv zeta. destruct (c3 <? 128); [done|].
  destruct H as [|c4 bs Hc4 H]; [apply read_length_nil|].
  change (0 + 7 + 7 + 7 + 7) with 28. cbn [read_length_loop]. change (32 <=? 28) with false. cbv iota.
  rewrite <- varint_byte_28 by done.
  destruct (Z.shiftr (u32 (Z.shiftl (Z.land c4 127) 28)) 28 =? Z.land c4 127); cbn [negb andb]; [|done].
  by destruct (c4 <? 128).
Qed.

(** ** Decoding what the compressor emits *)

Lemma copy1_high offset : 0 <= offset < 2048 -> Z.land (Z.shiftr offset 3) 0xe0 = 32 * (offset / 256).
Proof.
  intros H.
  assert (E : forallb (fun k => Z.land (Z.shiftr (Z.of_nat k) 3) 0xe0 =? 32 * (Z.of_nat k / 256)) (seq 0 2048) = true)
    by (vm_compute; reflexivity).
  rewrite forallb_forall in E. specialize (E (Z.to_nat offset)). rewrite Z2Nat.id in E by lia.
  apply Z.eqb_eq, E, in_seq. lia.
Qed.

Lemma land_255 n : Z.land n 255 = n mod 256.
Proof. change 255 with (Z.ones 8). by rewrite Z.land_ones by lia. Qed.

Lemma u8_small n : 0 <= n < 256 -> u8 n = n.
Proof. intros H. by apply wrap_small. Qed.

Lemma length_bytes_val n :
  60 <= n < 65536 -> le_val (length_bytes 4 n) = n /\ 1 <= zlen (length_bytes 4 n) <= 2.
Proof.
  intros Hn. split; [|by apply length_bytes_2]. cbn [length_bytes]. rewrite (proj2 (Z.ltb_lt 0 n)) by lia.
  rewrite !Z.shiftr_shiftr, !Z.shiftr_div_pow2, !land_255 by lia.
  change (8 + 8) with 16. change (16 + 8) with 24. change (2 ^ 8) with 256. change (2 ^ 16) with 65536.
  rewrite (Z.div_small n 65536) by lia. change (0 <? 0) with false. cbv iota.
  pose proof (Z.div_mod n 256 ltac:(lia)). pose proof (Z.mod_pos_bound n 256 ltac:(lia)).
  assert (0 <= n / 256 < 256) by (split; [apply Z.div_pos; lia|apply Z.div_lt_upper_bound; lia]).
  destruct (Z.ltb_spec 0 (n / 256)); cbn [le_val]; rewrite ?(Z.mod_small (n / 256)); lia.
Qed.

Lemma take_le_app k xs r : zlen xs = k -> take_le k (xs ++ r) = Some (le_val xs, r).
Proof.
  intros Hk. pose proof (zlen_nonneg r). unfold take_le. rewrite zlen_app, (proj2 (Z.leb_le _ _)) by lia.
  unfold ztake, zdrop, zlen in *. rewrite take_app_length', drop_app_length' by lia. done.
Qed.

Lemma take_lit_app xs r : take_lit (zlen xs) (xs ++ r) = Some (OLit xs, r).
Proof.
  pose proof (zlen_nonneg r). unfold take_lit. rewrite zlen_app, (proj2 (Z.leb_le _ _)) by lia.
  unfold ztake, zdrop, zlen in *. rewrite take_app_length', drop_app_length' by lia. done.
Qed.

Lemma tag_split q k r : 0 <= k < 4 -> q = 4 * r + k -> q mod 4 = k /\ q / 4 = r.
Proof.
  intros Hk ->. split.
  - rewrite Z.add_comm, Z.mul_comm, Z.mod_add by lia. by apply Z.mod_small.
  - rewrite Z.mul_comm, Z.div_add_l, Z.div_small by lia. lia.
Qed.

Lemma decode_literal bs r :
  1 <= zlen bs <= kBlockSize ->
  exists c t, op_bytes (OLit bs) ++ r = c :: t /\ decode_tag c t = Some (OLit bs, r).
Proof.
  change kBlockSize with 65536. intros Hl. cbn [op_bytes]. unfold lit_tag. cbv zeta.
  destruct (Z.ltb_spec (zlen bs - 1) 60) as [Hs|Hg].
  - eexists _, _. split; [done|]. cbn [app]. rewrite Z.shiftl_mul_pow2 by lia. change (2 ^ 2) with 4.
    rewrite u8_small by lia. unfold decode_tag.
    destruct (tag_split ((zlen bs - 1) * 4) 0 (zlen bs - 1)) as [-> ->]; [lia|lia|]. cbn [Z.eqb].
    rewrite (proj2 (Z.ltb_lt _ _)) by lia. replace (zlen bs - 1 + 1) with (zlen bs) by lia. apply take_lit_app.
  - destruct (length_bytes_val (zlen bs - 1)) as [Hv Hz]; [lia|]. set (ls := length_bytes 4 (zlen bs - 1)) in *.
    eexists _, (ls ++ bs ++ r). split; [by rewrite <- app_assoc|]. rewrite Z.shiftl_mul_pow2 by lia. change (2 ^ 2) with 4.
    rewrite u8_small by lia. unfold decode_tag.
    destruct (tag_split ((59 + zlen ls) * 4) 0 (59 + zlen ls)) as [-> ->]; [lia|lia|]. cbn [Z.eqb].
    rewrite (proj2 (Z.ltb_ge _ _)) by lia. rewrite take_le_app by lia. cbn [mbind option_bind].
    rewrite Hv. replace (zlen bs - 1 + 1) with (zlen bs) by lia. unfold u32. rewrite wrap_small by lia. apply take_lit_app.
Qed.

Lemma decode_copy offset len r :
  1 <= offset < 65536 -> 4 <= len <= 64 ->
  exists c t, op_bytes (OCopy offset len) ++ r = c :: t /\ decode_tag c t = Some (OCopy offset len, r).
Proof.
  intros Ho Hl. cbn [op_bytes]. unfold copy_tag, COPY_1_BYTE_OFFSET, COPY_2_BYTE_OFFSET.
  pose proof (Z.div_mod offset 256 ltac:(lia)). pose proof (Z.mod_pos_bound offset 256 ltac:(lia)).
  destruct ((len <? 12) && (offset <? 2048)) eqn:E.
  - apply andb_true_iff in E as [E1%Z.ltb_lt E2%Z.ltb_lt].
    assert (0 <= offset / 256 < 8) by (split; [apply Z.div_pos; lia|apply Z.div_lt_upper_bound; lia]).
    eexists _, _. split; [done|]. rewrite copy1_high, land_255, Z.shiftl_mul_pow2 by lia. change (2 ^ 2) with 4.
    rewrite !u8_small by lia. unfold decode_tag. set (c := 1 + (len - 4) * 4 + 32 * (offset / 256)).
    destruct (tag_split c 1 (len - 4 + 8 * (offset / 256))) as [-> E4]; [lia|unfold c; lia|]. cbn [Z.eqb].
    assert (c / 32 = offset / 256) as ->.
    { unfold c. replace (1 + _ + _) with (offset / 256 * 32 + (1 + (len - 4) * 4)) by lia.
      rewrite Z.div_add_l, (Z.div_small (1 + _)) by lia. lia. }
    change (offset mod 256 :: r) with ([offset mod 256] ++ r). rewrite take_le_app by done. cbn [mbind option_bind le_val].
    rewrite E4. replace (len - 4 + 8 * (offset / 256)) with (len - 4 + offset / 256 * 8) by lia.
    rewrite Z.mod_add, (Z.mod_small (len - 4)) by lia. do 3 f_equal; lia.
  - rewrite !Z.shiftl_mul_pow2 by lia. change (2 ^ 2) with 4. change (2 ^ 8) with 256.
    assert (0 <= offset / 256 < 256) by (split; [apply Z.div_pos; lia|apply Z.div_lt_upper_bound; lia]).
    unfold u32. rewrite wrap_small by (change (2 ^ 32) with 4294967296; lia).
    set (c := 2 + (len - 1) * 4). assert (Hc : 0 <= c < 256) by (unfold c; lia).
    assert (Ebytes : ztake 3 (le_bytes 4 (c + offset * 256)) = [c; offset mod 256; offset / 256]).
    { cbn [le_bytes]. replace ((c + offset * 256) / 256) with offset
        by (rewrite Z.div_add, Z.div_small by lia; lia).
      rewrite Z.mod_add, (Z.mod_small c) by lia. unfold ztake. cbn. by rewrite (Z.mod_small (offset / 256)) by lia. }
    rewrite Ebytes. eexists _, _. split; [done|]. unfold decode_tag.
    destruct (tag_split c 2 (len - 1)) as [-> ->]; [lia|unfold c; lia|]. cbn [Z.eqb Pos.eqb].
    change (offset mod 256 :: offset / 256 :: r) with ([offset mod 256; offset / 256] ++ r).
    rewrite take_le_app by done. cbn [mbind option_bind le_val]. do 3 f_equal; lia.
Qed.

Lemma decode_op p r : op_ok p -> exists c t, op_bytes p ++ r = c :: t /\ decode_tag c t = Some (p, r).
Proof. destruct p as [bs|offset len]; intros [H1 H2]; [by apply decode_literal|by apply decode_copy]. Qed.

Lemma exec1_grows xs p ys : exec1 xs p = Some ys -> zlen xs <= zlen ys.
Proof.
  destruct p as [bs|offset len]; cbn [exec1]; [intros [= <-]; rewrite zlen_app; pose proof (zlen_nonneg bs); lia|].
  generalize (Z.to_nat len) as k. intros k. revert xs.
  induction k as [|k IH]; intros xs; cbn [self_copy]; [intros [= <-]; lia|].
  destruct (_ || _); [done|]. destruct (xs !! _) as [c|]; [|done]. cbn [mbind option_bind]. intros H%IH.
  rewrite zlen_app in H. pose proof (zlen_nonneg [c]). lia.
Qed.

Lemma exec_grows ps xs ys : exec xs ps = Some ys -> zlen xs <= zlen ys.
Proof.
  revert xs. induction ps as [|p ps IH]; intros xs; cbn [exec]; [intros [= <-]; lia|].
  destruct (exec1 xs p) as [zs|] eqn:E; [|done]. cbn [mbind option_bind]. intros H%IH. apply exec1_grows in E. lia.
Qed.

Lemma decode_ops_concat ops xs ys n fuel :
  Forall op_ok ops -> exec xs ops = Some ys -> zlen ys <= n ->
  (length (concat (op_bytes <$> ops)) <= fuel)%nat ->
  decode_ops fuel (concat (op_bytes <$> ops)) xs n = Some ys.
Proof.
  intros Ho. revert xs fuel. induction Ho as [|p ops Hp Ho IH]; intros xs fuel Hx Hn Hf; cbn [exec] in Hx.
  { injection Hx as ->. by destruct fuel. }
  cbn [fmap list_fmap concat] in *. destruct (decode_op p (concat (op_bytes <$> ops)) Hp) as (c & t & E & Hd).
  rewrite E in *. cbn [length] in Hf. destruct fuel as [|fuel]; [lia|]. apply decode_tag_shrinks in Hd as Hs.
  rewrite decode_ops_S, Hd. cbn [mbind option_bind]. unfold apply_op. cbn [fst snd].
  destruct (exec1 xs p) as [zs|] eqn:E1; [|done]. cbn [mbind option_bind] in *. apply exec_grows in Hx as Hg.
  rewrite (proj2 (Z.leb_le _ _)) by lia. apply IH; [done|done|lia].
Qed.

Lemma decode_Compress input :
  Forall byte_ok input -> zlen input < 2 ^ 32 ->
  exists bs, Compress input = Ok bs /\ decode bs = Some input /\ zlen bs <= MaxCompressedLength (zlen input).
Proof.
  intros Hb Hl. destruct (Compress_ok input Hb) as (ops & -> & Ho & Hx & Hs). eexists. split; [done|]. split; [|done].
  unfold decode. pose proof (zlen_nonneg input). unfold u32. rewrite wrap_small by lia.
  rewrite Parse_Encode32 by lia. cbn [mbind option_bind].
  rewrite (decode_ops_concat ops [] input); [|done|done|lia|lia]. cbn [mbind option_bind]. by rewrite Z.eqb_refl.
Qed.

Lemma Encode32_bytes v : Forall byte_ok (Encode32 v).
Proof.
  assert (H : forall x, byte_ok (u8 x)) by (intros x; unfold byte_ok; apply (wrap_range 8 x); lia).
  unfold Encode32. repeat case_match; repeat (apply Forall_cons_2; [apply H|]); apply Forall_nil_2.
Qed.

Lemma op_bytes_ok p : op_ok p -> Forall byte_ok (op_bytes p).
Proof.
  assert (H : forall x, byte_ok (u8 x)) by (intros x; unfold byte_ok; apply (wrap_range 8 x); lia).
  assert (Hl : forall k n, Forall byte_ok (length_bytes k n)).
  { induction k as [|k IH]; intros n; cbn [length_bytes]; [done|]. destruct (0 <? n); [|done].
    apply Forall_cons_2; [|done]. rewrite land_255. unfold byte_ok. apply Z.mod_pos_bound. lia. }
  destruct p as [bs|offset len]; cbn [op_bytes op_ok]; intros [H1 H2].
  - apply Forall_app. split; [|done]. unfold lit_tag. cbv zeta. destruct (_ <? 60); apply Forall_cons_2; auto.
  - unfold copy_tag. destruct (_ && _); [repeat (apply Forall_cons_2; [apply H|]); done|].
    apply Forall_take, le_bytes_ok.
Qed.

Lemma Compress_bytes input bs : Forall byte_ok input -> Compress input = Ok bs -> Forall byte_ok bs.
Proof.
  intros Hb E. destruct (Compress_ok input Hb) as (ops & E' & Ho & _). rewrite E' in E. injection E as <-.
  apply Forall_app. split; [apply Encode32_bytes|]. clear E'. induction Ho as [|p ops Hp Ho IH]; [done|].
  cbn [fmap list_fmap concat]. apply Forall_app. split; [by apply op_bytes_ok|done].
Qed.

(** ** Whole inputs *)

Lemma InternalUncompress_ok {W} {HW : Writer W} {HL : WriterLaws W} compressed w :
  Forall byte_ok compressed -> zlen compressed < 2 ^ 32 ->
  (forall n r, Parse32WithLimit compressed = Some (n, r) -> wrep (SetExpectedLength w n) n []) ->
  exists b w', InternalUncompress compressed w = Ok (b, w') /\
    match decode compressed with Some x => b = true /\ wrep w' (zlen x) x | None => b = false end.
Proof.
  intros Hb Hs Hw. unfold InternalUncompress, decode. rewrite ReadUncompressedLength_Parse32 by done.
  destruct (Parse32WithLimit compressed) as [[n r]|] eqn:E; [|by exists false, w].
  assert (Hr : Forall byte_ok r /\ zlen r <= zlen compressed).
  { unfold Parse32WithLimit in E. repeat case_match; simplify_eq/=; rewrite ?zlen_cons;
      repeat (match goal with H : Forall byte_ok (_ :: _) |- _ => apply Forall_cons in H as [_ ?] end);
      (split; [done|]); lia. }
  destruct Hr as [Hr Hrl].
  destruct (DecompressAllTags_ok r (SetExpectedLength w n) n) as (d & w' & -> & Hf); [done|lia|by eapply Hw|].
  rewrite bind_ok. cbv beta iota. cbn [mbind option_bind]. destruct (decode_ops _ r [] n) as [x|]; cbn [finished] in Hf.
  - destruct Hf as [-> Hx]. eexists _, _. split; [done|]. cbn [andb mbind option_bind].
    rewrite (check_law w' n x Hx). destruct (Z.eqb_spec (zlen x) n) as [<-|]; done.
  - rewrite Hf. by eexists _, _.
Qed.

Lemma array_rep_whole d0 w x : array_rep d0 w (zlen x) x -> aw_array w = (Some <$> x) ++ zdrop (zlen x) d0.
Proof.
  intros [_ _ H3 H4 _ H6 H7]. apply list_eq. intros i. destruct (Nat.lt_ge_cases i (length x)) as [Hlt|Hge].
  - rewrite lookup_app_l by (by rewrite length_fmap). rewrite list_lookup_fmap.
    destruct (x !! i) as [c|] eqn:E; [|apply lookup_ge_None in E; lia]. by apply H6.
  - rewrite lookup_app_r, length_fmap by (by rewrite length_fmap). unfold zdrop. rewrite lookup_drop.
    specialize (H7 (Z.of_nat i) ltac:(unfold zlen; lia)). rewrite !at_nonneg, Nat2Z.id in H7 by lia. rewrite H7.
    f_equal. unfold zlen. lia.
Qed.

Lemma lor_shift_range a b n k : 0 <= n -> 0 <= k -> 0 <= a < 2 ^ n -> 0 <= b < 2 ^ k -> 0 <= Z.lor a (Z.shiftl b n) < 2 ^ (n + k).
Proof. intros Hn Hk Ha Hb. rewrite lor_add, Z.pow_add_r by lia. nia. Qed.

Lemma land_127_range c : 0 <= Z.land c 127 < 2 ^ 7.
Proof. change 127 with (Z.ones 7). rewrite Z.land_ones by lia. apply Z.mod_pos_bound. lia. Qed.

Lemma Parse32_range compressed n r :
  Forall byte_ok compressed -> Parse32WithLimit compressed = Some (n, r) -> 0 <= n < 2 ^ 32.
Proof.
  intros Hb. unfold Parse32WithLimit.
  assert (Hup : forall a k, 0 <= a < 2 ^ k -> 0 <= k <= 32 -> 0 <= a < 2 ^ 32).
  { intros a k Ha Hk. pose proof (Z.pow_le_mono_r 2 k 32 ltac:(lia) ltac:(lia)). lia. }
  destruct compressed as [|b0 bs]; [done|]. pose proof (land_127_range b0) as H0.
  destruct (b0 <? 128); [intros [= <- _]; by apply (Hup _ 7)|].
  destruct bs as [|b1 bs]; [done|]. pose proof (lor_shift_range _ _ 7 7 ltac:(lia) ltac:(lia) H0 (land_127_range b1)) as H1.
  destruct (b1 <? 128); [intros [= <- _]; by apply (Hup _ 14)|].
  destruct bs as [|b2 bs]; [done|]. pose proof (lor_shift_range _ _ 14 7 ltac:(lia) ltac:(lia) H1 (land_127_range b2)) as H2.
  destruct (b2 <? 128); [intros [= <- _]; by apply (Hup _ 21)|].
  destruct bs as [|b3 bs]; [done|]. pose proof (lor_shift_range _ _ 21 7 ltac:(lia) ltac:(lia) H2 (land_127_range b3)) as H3.
  destruct (b3 <? 128); [intros [= <- _]; by apply (Hup _ 28)|].
  destruct bs as [|b4 bs]; [done|]. destruct (Z.ltb_spec b4 16) as [Hlt|]; [|done]. intros [= <- _].
  do 4 (apply Forall_cons in Hb as [_ Hb]). apply Forall_cons in Hb as [Hb4 _]. unfold byte_ok in Hb4.
  rewrite (land_127_small b4) by lia. unfold u32.
  rewrite wrap_small by (rewrite Z.shiftl_mul_pow2 by lia; change (2 ^ 28) with 268435456; change (2 ^ 32) with 4294967296; lia).
  apply (lor_shift_range _ _ 28 4 ltac:(lia) ltac:(lia) H3). change (2 ^ 4) with 16. lia.
Qed.

Lemma uncompress_sound (ssse3 : bool) (compressed : list Z) (uncompressed : list cell) :
  Forall byte_ok compressed -> zlen compressed < 2 ^ 32 ->
  exists st d n, snappy_uncompress ssse3 compressed uncompressed (zlen uncompressed) = Ok (st, d, n) /\
    match decode compressed with
    | Some x =>
        if zlen x <=? zlen uncompressed
        then st = SNAPPY_OK /\ n = zlen x /\ d = (Some <$> x) ++ zdrop (zlen x) uncompressed
        else st = SNAPPY_BUFFER_TOO_SMALL /\ d = uncompressed
    | None => st <> SNAPPY_OK
    end.
Proof.
  intros Hb Hs. unfold snappy_uncompress, GetUncompressedLength.
  destruct (Parse32WithLimit compressed) as [[n r]|] eqn:E; cbn [fmap option_fmap option_map fst].
  2: { eexists _, _, _. split; [done|]. unfold decode. by rewrite E. }
  assert (Hlen : forall x, decode compressed = Some x -> zlen x = n).
  { intros x. unfold decode. rewrite E. cbn [mbind option_bind]. destruct (decode_ops _ _ _ _) as [y|]; [|done].
    cbn [mbind option_bind]. destruct (Z.eqb_spec (zlen y) n); [|done]. by intros [= <-]. }
  apply Parse32_range in E as Hn; [|done]. destruct (Z.ltb_spec (zlen uncompressed) n) as [Hlt|Hge].
  - eexists _, _, _. split; [done|]. destruct (decode compressed) as [x|]; [|done].
    rewrite (Hlen x), (proj2 (Z.leb_gt _ _)) by done. done.
  - unfold RawUncompress.
    destruct (@InternalUncompress_ok _ (array_writer ssse3) (array_laws ssse3 uncompressed) compressed
      (mkArrayWriter uncompressed 0 0)) as (b & w' & -> & Hdec); [done|done| |].
    { intros n' r' E'. rewrite E in E'. injection E' as <- <-.
      split; cbn [SetExpectedLength array_writer aw_op aw_op_limit aw_array];
        first [done|change (zlen (@nil Z)) with 0; lia|intros i c Hi; done|lia]. }
    rewrite !bind_ok. cbv beta iota.
    destruct (decode compressed) as [x|].
    + destruct Hdec as [-> Hx]. specialize (Hlen x eq_refl). rewrite Hlen, (proj2 (Z.leb_le _ _)) by done.
      eexists _, _, _. split; [done|]. split; [done|]. split; [done|].
      rewrite <- Hlen. by apply array_rep_whole.
    + rewrite Hdec. by eexists _, _, _.
Qed.

(** ** Theorems *)

(** C17: decompression into a buffer is the reference decoder.  On every input
    below 4 GB, valid or not, and in either build, [snappy_uncompress] returns
    without leaving a buffer: a valid input that fits is written to the front
    of the destination, the bytes behind it untouched, and its length
    returned; a valid input that does not fit is reported as such and an
    invalid one refused. *)
Theorem uncompress_decodes (ssse3 : bool) (compressed : list Z) (uncompressed : list cell) :
  Forall byte_ok compressed -> zlen compressed < 2 ^ 32 ->
  exists st d n, snappy_uncompress ssse3 compressed uncompressed (zlen uncompressed) = Ok (st, d, n) /\
    match decode compressed with
    | Some x =>
        if zlen x <=? zlen uncompressed
        then st = SNAPPY_OK /\ n = zlen x /\ d = (Some <$> x) ++ zdrop (zlen x) uncompressed
        else st = SNAPPY_BUFFER_TOO_SMALL /\ d = uncompressed
    | None => st <> SNAPPY_OK
    end.
Proof. apply uncompress_sound. Qed.

Lemma uncompress_decodes_witness :
  exists st d n, snappy_uncompress true [6; 4; 97; 98; 5; 2] (replicate 8 None) 8 = Ok (st, d, n) /\
    match decode [6; 4; 97; 98; 5; 2] with
    | Some x =>
        if zlen x <=? 8 then st = SNAPPY_OK /\ n = zlen x /\ d = (Some <$> x) ++ zdrop (zlen x) (replicate 8 None)
        else st = SNAPPY_BUFFER_TOO_SMALL /\ d = replicate 8 None
    | None => st <> SNAPPY_OK
    end.
Proof.
  apply (uncompress_decodes true [6; 4; 97; 98; 5; 2] (replicate 8 None)); [|done].
  repeat (apply Forall_cons_2; [unfold byte_ok; lia|]). apply Forall_nil_2.
Defined.

(** C11: decompression inverts compression.  Any input of up to 2 GB
    compresses, within the announced maximum, to bytes from which
    [snappy_uncompress] rebuilds it, and which the validator accepts. *)
Theorem snappy_roundtrip (ssse3 : bool) (input : list Z) (uncompressed : list cell) :
  Forall byte_ok input -> zlen input <= 2 ^ 31 -> zlen input <= zlen uncompressed ->
  exists bs,
    snappy_compress input (Some (snappy_max_compressed_length (zlen input))) = Ok (SNAPPY_OK, bs) /\
    zlen bs <= snappy_max_compressed_length (zlen input) /\
    snappy_uncompress ssse3 bs uncompressed (zlen uncompressed) =
      Ok (SNAPPY_OK, (Some <$> input) ++ zdrop (zlen input) uncompressed, zlen input) /\
    snappy_validate_compressed_buffer bs = Ok SNAPPY_OK.
Proof.
  intros Hb Hl Hd. change (2 ^ 31) with 2147483648 in Hl.
  destruct (decode_Compress input Hb ltac:(change (2 ^ 32) with 4294967296; lia)) as (bs & E & Hdec & Hs).
  exists bs. split; [|split; [done|]].
  { unfold snappy_compress. cbn [res_of_option]. rewrite bind_ok, Z.ltb_irrefl. unfold RawCompress. by rewrite E, bind_ok. }
  assert (Hbs : zlen bs < 2 ^ 32).
  { unfold MaxCompressedLength in Hs. pose proof (zlen_nonneg input).
    assert (zlen input / 6 <= 357913942) by (apply Z.div_le_upper_bound; lia). change (2 ^ 32) with 4294967296. lia. }
  pose proof (Compress_bytes _ _ Hb E) as Hbb. split.
  - pose proof (uncompress_sound ssse3 bs uncompressed Hbb Hbs) as (st & d & n & Eu & Hm). rewrite Hdec in Hm.
    rewrite (proj2 (Z.leb_le _ _)) in Hm by done. destruct Hm as (-> & -> & ->). done.
  - unfold snappy_validate_compressed_buffer, IsValidCompressedBuffer.
    destruct (@InternalUncompress_ok _ validator_writer validator_laws bs (mkValidator 0 0)) as (b & w' & -> & Hv);
      [done|done| |].
    { intros n r Ep. apply Parse32_range in Ep; [|done]. split; cbn; lia || done. }
    rewrite Hdec in Hv. destruct Hv as [-> _]. done.
Qed.

Lemma snappy_roundtrip_witness :
  exists bs,
    snappy_compress (replicate 20 7) (Some (snappy_max_compressed_length 20)) = Ok (SNAPPY_OK, bs) /\
    zlen bs <= snappy_max_compressed_length 20 /\
    snappy_uncompress false bs (replicate 20 None) 20 = Ok (SNAPPY_OK, (Some <$> replicate 20 7) ++ [], 20) /\
    snappy_validate_compressed_buffer bs = Ok SNAPPY_OK.
Proof.
  apply (snappy_roundtrip false (replicate 20 7) (replicate 20 None)).
  - apply Forall_replicate. unfold byte_ok. lia.
  - vm_compute. discriminate.
  - vm_compute. discriminate.
Defined.

(** The validator accepts exactly the inputs the reference decoder
    decodes; so it accepts an input exactly when a large enough buffer
    receives it. *)
Theorem validate_iff_decodes (compressed : list Z) :
  Forall byte_ok compressed -> zlen compressed < 2 ^ 32 ->
  snappy_validate_compressed_buffer compressed =
    Ok (if decode compressed is Some _ then SNAPPY_OK else SNAPPY_INVALID_INPUT).
Proof.
  intros Hb Hs. unfold snappy_validate_compressed_buffer, IsValidCompressedBuffer.
  destruct (@InternalUncompress_ok _ validator_writer validator_laws compressed (mkValidator 0 0)) as (b & w' & -> & Hv);
    [done|done| |].
  - intros n r Ep. apply Parse32_range in Ep; [|done]. split; cbn; lia || done.
  - destruct (decode compressed); [destruct Hv as [-> _]|rewrite Hv]; done.
Qed.

Lemma validate_iff_decodes_witness :
  snappy_validate_compressed_buffer [6; 4; 97; 98; 5; 3] =
    Ok (if decode [6; 4; 97; 98; 5; 3] is Some _ then SNAPPY_OK else SNAPPY_INVALID_INPUT).
Proof.
  apply (validate_iff_decodes [6; 4; 97; 98; 5; 3]); [|done].
  repeat (apply Forall_cons_2; [unfold byte_ok; lia|]). apply Forall_nil_2.
Defined.

(** The length of a long literal is computed in 32 bits.  An element that
    announces a literal of 2^32 bytes is accepted, as an empty one, where the
    announced bytes are not there. *)
Theorem literal_length_wraps :
  snappy_validate_compressed_buffer [0; 0xfc; 0xff; 0xff; 0xff; 0xff] = Ok SNAPPY_OK.
Proof. vm_compute. reflexivity. Qed.
