(* ===== verification/Stat.v ===== *)
(** * Event statistics

    Models [TLStatistic] of [src/ufo-rt/lib/tsan/rtl/ufo/ufo_stat.h] and the
    writers of [ufo_stat.cc].  The struct is nothing but [u64] counters, so it
    is the function from its field names to their values; [fprintf] appends
    to the text of its stream, [Printf] to the text of the terminal.

    Shown: what the counters add up to, and that the lines of the CSV file
    have a column more than its heading. *)
From Stdlib Require Import ZArith Lia String.
From stdpp Require Import base numbers list.
From S2P Require Import Prelude Memory Events LibC Printf.

Local Open Scope Z_scope.

Inductive counter : Type :=
| c_start | c_join | c_alloc | c_dealloc
| c_lock | c_rd_lock | c_unlock | c_rd_unlock | c_rw_unlock
| c_cond_wait | c_cond_signal | c_cond_bc
| c_read (kAccessSizeLog : Z) | c_write (kAccessSizeLog : Z)
| c_range_w | c_range_r | cs_acc | cs_range_acc | c_func_call | c_ptr_prop.

#[export] Instance counter_eq_dec : EqDecision counter.
Proof. solve_decision. Defined.

Definition TLStatistic : Type := counter -> Z.

Definition stat_init : TLStatistic := fun _ => 0.

(** [field += d] *)
Definition bump (f : counter) (d : Z) (s : TLStatistic) : TLStatistic :=
  fun g => if decide (g = f) then u64 (s g + d) else s g.

Definition counted : list counter :=
  [c_start; c_join; c_alloc; c_dealloc; c_lock; c_rd_lock; c_unlock; c_rd_unlock; c_rw_unlock;
   c_cond_wait; c_cond_signal; c_cond_bc; c_range_w; c_range_r;
   c_read 0; c_read 1; c_read 2; c_read 3; c_write 0; c_write 1; c_write 2; c_write 3;
   c_func_call; c_ptr_prop].

Definition count (s : TLStatistic) : Z := foldl (fun c f => u64 (c + s f)) 0 counted.

(** [sizeof] of an enumerator is that of [enum EventType] *)
Definition sizeof_EventType : Z := 4.

Definition sized : list (counter * Z) :=
  let n {E} `{Packed E} : Z := Z.of_nat (sizeof E) in
  [(c_start, n (E := CreateThreadEvent)); (c_join, n (E := JoinThreadEvent));
   (c_alloc, n (E := AllocEvent)); (c_dealloc, n (E := DeallocEvent));
   (c_lock, n (E := LockEvent)); (c_unlock, n (E := UnlockEvent));
   (c_cond_wait, n (E := ThrCondWaitEvent)); (c_cond_signal, n (E := ThrCondSignalEvent));
   (c_cond_bc, n (E := ThrCondBCEvent));
   (c_range_w, sizeof_EventType); (c_range_r, sizeof_EventType);
   (c_read 0, n (E := MemAccEvent) + 1); (c_read 1, n (E := MemAccEvent) + 2);
   (c_read 2, n (E := MemAccEvent) + 4); (c_read 3, n (E := MemAccEvent) + 8);
   (c_write 0, n (E := MemAccEvent) + 1); (c_write 1, n (E := MemAccEvent) + 2);
   (c_write 2, n (E := MemAccEvent) + 4); (c_write 3, n (E := MemAccEvent) + 8);
   (c_func_call, n (E := FuncEntryEvent) + n (E := FuncExitEvent));
   (c_ptr_prop, n (E := PtrAssignEvent))].

Definition size (s : TLStatistic) : Z := foldl (fun c '(f, k) => u64 (c + u64 (s f * k))) 0 sized.

Definition used (s : TLStatistic) : bool := negb (size s =? 0).

(** ** Output *)

(** [%llu], [%u] and, for a tid, [%d]: the decimal digits of a number that is
    not negative *)
Definition llu (v : Z) : list Z :=
  match number_digits (Z.to_nat kMaxLen) v 10 with
  | Ok ds => digit_char false <$> rev ds
  | Err _ => []
  end.

Definition crlf : list Z := [13; 10].

Definition state_text (tid : Z) (s : TLStatistic) : list Z :=
  str "#" ++ llu tid ++ str " |Start " ++ llu (s c_start) ++ str " |Join " ++ llu (s c_join)
  ++ str " |Alloc " ++ llu (s c_alloc) ++ str " |Dealloc " ++ llu (s c_dealloc)
  ++ str " |Lock " ++ llu (s c_lock) ++ str " |Unlock " ++ llu (s c_unlock)
  ++ str " |Cond Wait " ++ llu (s c_cond_wait) ++ str " |Cond Signal " ++ llu (s c_cond_signal)
  ++ str " | Cond BC " ++ llu (s c_cond_bc)
  ++ crlf ++ str "R1 " ++ llu (s (c_read 0)) ++ str " |R2 " ++ llu (s (c_read 1))
  ++ str " |R4 " ++ llu (s (c_read 2)) ++ str " |R8 " ++ llu (s (c_read 3))
  ++ str " |W1 " ++ llu (s (c_write 0)) ++ str " |W2 " ++ llu (s (c_write 1))
  ++ str " |W4 " ++ llu (s (c_write 2)) ++ str " |W8 " ++ llu (s (c_write 3))
  ++ crlf ++ str "RW " ++ llu (s c_range_w) ++ str " |RR " ++ llu (s c_range_r)
  ++ str " |Stack ACC " ++ llu (s cs_acc) ++ str " |Stack Range ACC " ++ llu (s cs_range_acc)
  ++ str " |Func Call " ++ llu (s c_func_call) ++ str " | Ptr Prop " ++ llu (s c_ptr_prop)
  ++ crlf ++ str "Total stored events: " ++ llu (count s) ++ str ", size: " ++ llu (size s) ++ crlf.

(** The two texts: the terminal's and, if the stream is not null, the
    stream's. *)
Definition out_text : Type := (list Z * option (list Z))%type.

(** [_P] *)
Definition P_ (o : out_text) (t : list Z) : out_text := (o.1 ++ t, (fun x => x ++ t) <$> o.2).

Definition _print_state (o : out_text) (tid : Z) (s : TLStatistic) : out_text := P_ o (state_text tid s).

(** The fields [summary_stat] sums up; the counters of rd/rw locks are not
    among them. *)
Definition summed : list counter :=
  [c_start; c_join; c_dealloc; c_alloc; c_unlock; c_lock; c_cond_wait; c_cond_signal; c_cond_bc;
   c_range_r; c_range_w; c_read 0; c_read 1; c_read 2; c_read 3;
   c_write 0; c_write 1; c_write 2; c_write 3; cs_acc; cs_range_acc; c_func_call; c_ptr_prop].

Definition add_stat (total s : TLStatistic) : TLStatistic :=
  foldl (fun t f => bump f (s f) t) total summed.

Fixpoint summary_loop (o : out_text) (total : TLStatistic) (arr_stat : list TLStatistic) (i : Z)
  : out_text * TLStatistic :=
  match arr_stat with
  | [] => (o, total)
  | s :: rest =>
      if negb (used s) then summary_loop o total rest (i + 1)
      else summary_loop (_print_state o i s) (add_stat total s) rest (i + 1)
  end.

(** The total is computed and dropped. *)
Definition summary_stat (o : out_text) (arr_stat : list TLStatistic) (this_pid p_pid : Z) : out_text :=
  let o := P_ o (crlf ++ str " >>>>>>>>>>>>>>>>>> Statistic (pid:" ++ llu this_pid ++ str " from:"
                 ++ llu p_pid ++ str ") >>>>>>>>>>>>>>>>>>>>>>>>>>>>" ++ crlf) in
  (summary_loop o stat_init arr_stat 0).1.

Definition csv_heading : list Z :=
  str "TID,Start,Join,Alloc,Dealloc,Lock,Unlock,Cond Wait,Cond Signal,Cond BC," ++
  str "R1,R2,R4,R8,W1,W2,W4,W8," ++
  str "RW,RR,Stack ACC,Stack Range ACC,Func Call, Ptr Prop" ++
  str "Total,size" ++ crlf.

Definition csv_columns : list counter :=
  [c_start; c_join; c_alloc; c_dealloc; c_lock; c_unlock; c_cond_wait; c_cond_signal; c_cond_bc;
   c_read 0; c_read 1; c_read 2; c_read 3; c_write 0; c_write 1; c_write 2; c_write 3;
   c_range_w; c_range_r; cs_acc; cs_range_acc; c_func_call; c_ptr_prop].

Definition csv_row (i : Z) (s : TLStatistic) : list Z :=
  llu i ++ concat ((fun f => str "," ++ llu (s f)) <$> csv_columns)
  ++ str "," ++ llu (count s) ++ str ", " ++ llu (size s) ++ crlf.

Fixpoint csv_loop (arr_stat : list TLStatistic) (i : Z) : list Z :=
  match arr_stat with
  | [] => []
  | s :: rest => (if size s <? 1 then [] else csv_row i s) ++ csv_loop rest (i + 1)
  end.

Definition print_csv (f : list Z) (arr_stat : list TLStatistic) (this_pid p_pid : Z) : list Z :=
  f ++ llu p_pid ++ str " -> " ++ llu this_pid ++ crlf ++ csv_heading ++ csv_loop arr_stat 0.

(** ** Lemmas *)

Lemma bump_eq f d s : bump f d s f = u64 (s f + d).
Proof. unfold bump. by rewrite decide_True. Qed.

Lemma bump_ne f g d s : g <> f -> bump f d s g = s g.
Proof. intros H. unfold bump. by rewrite decide_False. Qed.

(** Counters stay [u64]. *)
Definition stat_wf (s : TLStatistic) : Prop := forall f, 0 <= s f < 2 ^ 64.

Lemma stat_init_wf : stat_wf stat_init.
Proof. intros f. unfold stat_init. lia. Qed.

Lemma bump_wf f d s : stat_wf s -> stat_wf (bump f d s).
Proof.
  intros H g. destruct (decide (g = f)) as [->|Hne]; [rewrite bump_eq; apply (wrap_range 64); lia|by rewrite bump_ne].
Qed.

Lemma foldl_u64 {A} (h : A -> Z) l c :
  foldl (fun c x => u64 (c + h x)) (u64 c) l = u64 (c + foldr (fun x acc => h x + acc) 0 l).
Proof.
  revert c. induction l as [|x l IH]; intros c; cbn [foldl foldr]; [by rewrite Z.add_0_r|].
  unfold u64, wrap in *. rewrite Zplus_mod_idemp_l, IH. f_equal. lia.
Qed.

Definition total_of (l : list counter) (s : TLStatistic) : Z := foldr (fun f acc => s f + acc) 0 l.

Lemma count_total s : count s = u64 (total_of counted s).
Proof. unfold count. change 0 with (u64 0) at 1. by rewrite foldl_u64. Qed.

Lemma u64_range z : 0 <= u64 z < 2 ^ 64.
Proof. apply (wrap_range 64). lia. Qed.

Lemma size_range s : 0 <= size s < 2 ^ 64.
Proof.
  unfold size. generalize sized as l. intros l. pattern l. apply rev_ind; [cbn; lia|].
  intros [f k] l' _. rewrite foldl_app. apply u64_range.
Qed.

(** ** Columns *)

Definition commas (t : list Z) : nat := length (filter (fun c => c = 44) t).

Lemma commas_app x y : commas (x ++ y) = (commas x + commas y)%nat.
Proof. unfold commas. by rewrite filter_app, length_app. Qed.

Lemma digit_not_comma d : 0 <= d < 10 -> digit_char false d <> 44.
Proof. intros H. unfold digit_char. rewrite (proj2 (Z.ltb_lt _ _)) by lia. lia. Qed.

Lemma commas_none t : Forall (fun c => c <> 44) t -> commas t = 0%nat.
Proof. unfold commas. induction 1 as [|c t Hc _ IH]; [done|]. by rewrite filter_cons_False. Qed.

Lemma commas_llu v : 0 <= v < 2 ^ 64 -> commas (llu v) = 0%nat.
Proof.
  intros Hv. unfold llu. destruct (number_digits_64 v Hv) as (ds & -> & [_ Hr _]).
  apply commas_none, Forall_fmap, Forall_rev. eapply Forall_impl; [exact Hr|]. intros d Hd. by apply digit_not_comma.
Qed.

Lemma commas_columns s :
  stat_wf s -> commas (concat ((fun f => str "," ++ llu (s f)) <$> csv_columns)) = 23%nat.
Proof.
  intros Hs.
  assert (H : forall l, commas (concat ((fun f => str "," ++ llu (s f)) <$> l)) = length l).
  { induction l as [|f l IH]; [done|]. cbn [fmap list_fmap concat length].
    rewrite !commas_app, IH, (commas_llu (s f) (Hs f)). reflexivity. }
  apply H.
Qed.

(** ** Theorems *)

(** The CSV heading is a column short.  Its text has 24 commas (the last
    counter's name runs into [Total]), while every line below it has 25: the
    names of the last two columns do not stand above their values. *)
Theorem csv_heading_short (i : Z) (s : TLStatistic) :
  0 <= i < 2 ^ 64 -> stat_wf s ->
  commas csv_heading = 24%nat /\ commas (csv_row i s) = 25%nat.
Proof.
  intros Hi Hs. split; [vm_compute; reflexivity|]. unfold csv_row.
  pose proof (size_range s) as Hz. pose proof (u64_range (total_of counted s)) as Hc. rewrite <- count_total in Hc.
  rewrite !commas_app, commas_columns by exact Hs.
  rewrite (commas_llu i Hi), (commas_llu _ Hz), (commas_llu _ Hc). reflexivity.
Qed.

Lemma csv_heading_short_witness :
  commas csv_heading = 24%nat /\ commas (csv_row 3 (bump c_lock 1 stat_init)) = 25%nat.
Proof. apply (csv_heading_short 3 (bump c_lock 1 stat_init)); [lia|]. apply bump_wf, stat_init_wf. Defined.
