(* ===== verification/State.v ===== *)
(** * The state of the tracing runtime, and the operating system below it

    The structs of [tlbuffer.h], [io_queue.h] and [ufo.h] (all under
    [src/ufo-rt/lib/tsan/rtl/ufo]) as records, and the state the components
    share.  The operating system is not part of the program: [OSOps] lists the
    calls the runtime makes, [OSLaws] what it relies on (a file opened with
    [O_APPEND] grows by what is written to it, which may be less than what was
    handed to [write]; a descriptor in use is not handed out again; [fcntl]
    tells whether one is open), and [sim_os] is a small file system on a disk of
    limited size that satisfies these laws.

    Two history variables go with a system: [os_sent], all that was handed to
    [write] for a file, and [os_short], whether a write was short or failed.
    The runtime ignores the results of its writes, so what it guarantees it
    guarantees of the bytes it hands over; a file has them if no write was
    short ([complete_law]).

    The array [trace_dir] of the context and the buffers are blocks of the
    memory of [Memory]; [tlbufs] and [stat] belong to the world of
    [Handlers]. *)
From stdpp Require Import base numbers list gmap.
From Stdlib Require Import ZArith Lia.
From S2P Require Import Prelude Memory.

Local Open Scope Z_scope.

(** ** The operating system *)

(** A path or an environment string is its characters, without the NUL. *)
Abbreviation chars := (list Z).

(** A loaded module: full name, base address, highest executable address. *)
Record LoadedModule := mkModule { lm_full_name : chars; lm_base : Z; lm_max : Z }.

Class OSOps (O : Type) := {
  (** [internal_open(path, O_CREAT | O_APPEND | O_WRONLY, 0666)] *)
  os_open : O -> chars -> Z * O;
  os_write : O -> Z -> list Z -> Z * O;
  os_fsync : O -> Z -> O;
  os_close : O -> Z -> O;
  (** [fcntl(fd, F_GETFL) >= 0 || errno != EBADF] *)
  os_fcntl_ok : O -> Z -> bool;
  (** [gettimeofday]: seconds and microseconds *)
  os_gettimeofday : O -> (Z * Z) * O;
  (** [GetThreadStackAndTls(main, ..)]: stack address and size, TLS address and size *)
  os_GetThreadStackAndTls : O -> bool -> Z * Z * Z * Z;
  os_getenv : O -> chars -> option chars;
  os_getpid : O -> Z;
  os_getppid : O -> Z;
  (** [S_ISDIR] of [internal_stat] *)
  os_isdir : O -> chars -> bool;
  os_mkdir : O -> chars -> Z * O;
  (** the names [readdir] returns, then [remove] *)
  os_readdir : O -> chars -> list chars;
  os_remove : O -> chars -> O;
  (** [fopen(path, "w+")], the text written, [fclose]; [None] if it cannot be opened *)
  os_put_file : O -> chars -> list Z -> option O;
  (** [MemoryMappingLayout::DumpListOfModules] *)
  os_modules : O -> list LoadedModule
}.

Class OSLaws (O : Type) {H : OSOps O} := {
  (** the path behind an open descriptor, and the contents of a file *)
  os_file : O -> Z -> option chars;
  os_bytes : O -> chars -> list Z;
  (** the contents if every write had been complete, and whether one was not *)
  os_sent : O -> chars -> list Z;
  os_short : O -> bool;
  complete_law : forall o p, os_short o = false -> os_bytes o p = os_sent o p;
  open_law : forall o p fd o', os_open o p = (fd, o') -> 0 <= fd ->
    os_file o fd = None /\ os_file o' fd = Some p /\
    (forall fd', fd' <> fd -> os_file o' fd' = os_file o fd') /\ (forall q, os_sent o' q = os_sent o q);
  open_fails_law : forall o p fd o', os_open o p = (fd, o') -> fd < 0 ->
    (forall fd', os_file o' fd' = os_file o fd') /\ (forall q, os_sent o' q = os_sent o q);
  write_law : forall o fd p bs, os_file o fd = Some p ->
    exists n o', os_write o fd bs = (n, o') /\ (forall fd', os_file o' fd' = os_file o fd') /\
      os_sent o' p = os_sent o p ++ bs /\ (forall q, q <> p -> os_sent o' q = os_sent o q) /\
      n <= zlen bs /\ os_bytes o' p = os_bytes o p ++ ztake n bs /\ (forall q, q <> p -> os_bytes o' q = os_bytes o q) /\
      os_short o' = os_short o || (n <? zlen bs);
  write_fails_law : forall o fd bs, os_file o fd = None ->
    (forall fd', os_file (os_write o fd bs).2 fd' = os_file o fd') /\
    (forall q, os_sent (os_write o fd bs).2 q = os_sent o q);
  fsync_law : forall o fd,
    (forall fd', os_file (os_fsync o fd) fd' = os_file o fd') /\ (forall q, os_sent (os_fsync o fd) q = os_sent o q);
  fsync_bytes_law : forall o fd, (forall q, os_bytes (os_fsync o fd) q = os_bytes o q) /\ os_short (os_fsync o fd) = os_short o;
  close_law : forall o fd, os_file (os_close o fd) fd = None /\
    (forall fd', fd' <> fd -> os_file (os_close o fd) fd' = os_file o fd') /\
    (forall q, os_sent (os_close o fd) q = os_sent o q);
  fcntl_law : forall o fd, os_fcntl_ok o fd = true <-> is_Some (os_file o fd);
  fd_law : forall o fd, is_Some (os_file o fd) -> 0 <= fd;
  (** an environment string is a C string *)
  env_law : forall o name s, os_getenv o name = Some s -> Forall (fun c => byte_ok c /\ c <> 0) s;
  time_law : forall o, (forall fd, os_file (os_gettimeofday o).2 fd = os_file o fd) /\
    (forall q, os_sent (os_gettimeofday o).2 q = os_sent o q);
  mkdir_law : forall o p, (forall fd, os_file (os_mkdir o p).2 fd = os_file o fd) /\
    (forall q, os_sent (os_mkdir o p).2 q = os_sent o q);
  put_law : forall o p t o', os_put_file o p t = Some o' ->
    (forall fd, os_file o' fd = os_file o fd) /\ os_sent o' p = t /\ (forall q, q <> p -> os_sent o' q = os_sent o q)
}.

(** *** A file system *)

Record sim := Sim {
  sim_fds : gmap Z chars;
  (** the writes to a file: what was to be written, and how much of it was *)
  sim_files : gmap chars (list (list Z * Z));
  sim_dirs : gset chars;
  sim_env : gmap chars chars;
  sim_clock : Z * Z;
  sim_pid : Z;
  sim_stack : Z * Z * Z * Z;
  sim_mods : list LoadedModule;
  (** paths that cannot be opened *)
  sim_denied : gset chars;
  (** how many bytes the disk can still take *)
  sim_room : Z }.

Definition sim_set (s : sim) (fds : gmap Z chars) (files : gmap chars (list (list Z * Z))) (room : Z) : sim :=
  Sim fds files s.(sim_dirs) s.(sim_env) s.(sim_clock) s.(sim_pid) s.(sim_stack) s.(sim_mods) s.(sim_denied) room.

Definition sim_writes (s : sim) (p : chars) : list (list Z * Z) := default [] (s.(sim_files) !! p).

Definition sim_data (s : sim) (p : chars) : list Z := concat (sim_writes s p).*1.

Definition sim_bytes (s : sim) (p : chars) : list Z := concat ((fun w : list Z * Z => ztake w.2 w.1) <$> sim_writes s p).

Definition cut_short (w : list Z * Z) : bool := w.2 <? zlen w.1.

Definition sim_short (s : sim) : bool := bool_decide (map_Exists (fun _ ws => existsb cut_short ws = true) s.(sim_files)).

(** A descriptor above all in use. *)
Definition sim_fresh (s : sim) : Z := foldr Z.max 2 (fst <$> map_to_list s.(sim_fds)) + 1.

Definition sim_open (s : sim) (p : chars) : Z * sim :=
  if decide (p ∈ s.(sim_denied)) then (-1, s)
  else (sim_fresh s, sim_set s (<[sim_fresh s := p]> s.(sim_fds)) s.(sim_files) s.(sim_room)).

Definition sim_file (s : sim) (fd : Z) : option chars := if fd <? 0 then None else s.(sim_fds) !! fd.

Definition sim_write (s : sim) (fd : Z) (bs : list Z) : Z * sim :=
  match sim_file s fd with
  | Some p =>
      let n := Z.min (zlen bs) s.(sim_room) in
      (n, sim_set s s.(sim_fds) (<[p := sim_writes s p ++ [(bs, n)]]> s.(sim_files)) (s.(sim_room) - Z.max 0 n))
  | None => (-1, s)
  end.

#[export] Instance sim_os : OSOps sim := {|
  os_open := sim_open;
  os_write := sim_write;
  os_fsync s fd := s;
  os_close s fd := sim_set s (delete fd s.(sim_fds)) s.(sim_files) s.(sim_room);
  os_fcntl_ok s fd := bool_decide (is_Some (sim_file s fd));
  os_gettimeofday s := (s.(sim_clock), s);
  os_GetThreadStackAndTls s main := s.(sim_stack);
  os_getenv s name := filter (fun c => 0 < c < 256) <$> s.(sim_env) !! name;
  os_getpid s := s.(sim_pid);
  os_getppid s := 1;
  os_isdir s p := bool_decide (p ∈ s.(sim_dirs));
  os_mkdir s p := (0, Sim s.(sim_fds) s.(sim_files) ({[p]} ∪ s.(sim_dirs)) s.(sim_env) s.(sim_clock) s.(sim_pid)
                         s.(sim_stack) s.(sim_mods) s.(sim_denied) s.(sim_room));
  os_readdir s p := [];
  os_remove s p := sim_set s s.(sim_fds) (delete p s.(sim_files)) s.(sim_room);
  os_put_file s p t :=
    let n := Z.min (zlen t) s.(sim_room) in
    Some (sim_set s s.(sim_fds) (<[p := [(t, n)]]> s.(sim_files)) (s.(sim_room) - Z.max 0 n));
  os_modules s := s.(sim_mods) |}.

Lemma sim_fresh_None s : s.(sim_fds) !! sim_fresh s = None /\ 0 <= sim_fresh s.
Proof.
  assert (H : forall l x, x ∈ 2 :: l -> x <= foldr Z.max 2 l).
  { intros l x Hx. induction l as [|y l IH]; cbn.
    - apply list_elem_of_singleton in Hx. lia.
    - apply elem_of_cons in Hx as [->|Hx]; [specialize (IH ltac:(apply elem_of_cons; by left)); lia|].
      apply elem_of_cons in Hx as [->|Hx]; [lia|]. specialize (IH ltac:(apply elem_of_cons; by right)). lia. }
  unfold sim_fresh. set (l := fst <$> map_to_list (sim_fds s)).
  pose proof (H l 2 ltac:(apply elem_of_cons; by left)). split; [|lia].
  destruct (sim_fds s !! (foldr Z.max 2 l + 1)) as [p|] eqn:E; [|done].
  assert (Hin : foldr Z.max 2 l + 1 ∈ 2 :: l).
  { apply elem_of_cons. right. apply list_elem_of_fmap. exists (foldr Z.max 2 l + 1, p). split; [done|].
    by apply elem_of_map_to_list. }
  apply H in Hin. lia.
Qed.

Lemma sim_file_nonneg s fd : 0 <= fd -> sim_file s fd = s.(sim_fds) !! fd.
Proof. intros H. unfold sim_file. by rewrite (proj2 (Z.ltb_ge _ _)). Qed.

Lemma complete_writes (ws : list (list Z * Z)) : existsb cut_short ws = false -> concat ((fun w : list Z * Z => ztake w.2 w.1) <$> ws) = concat ws.*1.
Proof.
  induction ws as [|[bs n] ws IH]; [done|]. cbn [existsb]. intros [Hw Hws]%orb_false_elim. rewrite !fmap_cons. cbn [concat fst snd].
  rewrite IH by done. apply Z.ltb_ge in Hw. cbn [fst snd] in Hw. unfold ztake, zlen in *. by rewrite take_ge by lia.
Qed.

Lemma sim_short_add s fds p bs n room :
  sim_short (sim_set s fds (<[p := sim_writes s p ++ [(bs, n)]]> s.(sim_files)) room) = sim_short s || (n <? zlen bs).
Proof.
  unfold sim_short. cbn [sim_files sim_set]. apply eq_bool_prop_intro. rewrite orb_True, !bool_decide_spec. split.
  - intros (q & ws & Hq & Hs). apply lookup_insert_Some in Hq as [[<- <-]|[Hne Hq]]; [|left; by exists q, ws].
    rewrite existsb_app in Hs. cbn [existsb] in Hs. rewrite orb_false_r in Hs. apply orb_true_iff in Hs as [Hs|Hs]; [left|right; by apply Is_true_true].
    unfold sim_writes in Hs. destruct (sim_files s !! p) as [ws|] eqn:E; [|done]. by exists p, ws.
  - intros [(q & ws & Hq & Hs)|Hs].
    + destruct (decide (q = p)) as [->|Hne]; [|exists q, ws; split; [by rewrite lookup_insert_ne by done|done]].
      eexists p, _. split; [apply lookup_insert_eq|]. unfold sim_writes. rewrite Hq, existsb_app. cbn [default from_option id]. by rewrite Hs.
    + eexists p, _. split; [apply lookup_insert_eq|]. rewrite existsb_app. cbn [existsb]. unfold cut_short. cbn [fst snd]. apply Is_true_true in Hs. rewrite Hs. by rewrite !orb_true_r.
Qed.

#[export] Instance sim_laws : OSLaws sim.
Proof.
  refine {| os_file := sim_file; os_bytes := sim_bytes; os_sent := sim_data; os_short := sim_short |}; cbn.
  - intros o p Hs. apply complete_writes. unfold sim_writes. destruct (sim_files o !! p) as [ws|] eqn:E; [|done].
    cbn. destruct (existsb cut_short ws) eqn:Ew; [|done]. apply bool_decide_eq_false in Hs. destruct Hs. by exists p, ws.
  - intros o p fd o'. unfold sim_open. destruct (decide _); intros [= <- <-] Hfd; [lia|].
    destruct (sim_fresh_None o) as [Hn Hp]. rewrite !sim_file_nonneg by done. cbn. rewrite lookup_insert_eq.
    split; [done|]. split; [done|]. split; [|done]. intros fd' Hne. unfold sim_file. cbn.
    by rewrite lookup_insert_ne.
  - intros o p fd o'. unfold sim_open. destruct (decide _); intros [= <- <-] Hfd; [done|].
    destruct (sim_fresh_None o). lia.
  - intros o fd p bs Hf. unfold sim_write. rewrite Hf. do 2 eexists. split; [done|]. split; [done|].
    assert (Hp : forall q, sim_writes (sim_set o (sim_fds o) (<[p := sim_writes o p ++ [(bs, Z.min (zlen bs) (sim_room o))]]> (sim_files o))
      (sim_room o - Z.max 0 (Z.min (zlen bs) (sim_room o)))) q = if decide (q = p) then sim_writes o p ++ [(bs, Z.min (zlen bs) (sim_room o))] else sim_writes o q).
    { intros q. unfold sim_writes at 1. cbn. case_decide as Hq; [subst; by rewrite lookup_insert_eq|by rewrite lookup_insert_ne]. }
    unfold sim_data, sim_bytes. repeat split.
    + rewrite Hp, decide_True, fmap_app, concat_app by done. cbn. by rewrite app_nil_r.
    + intros q Hq. by rewrite Hp, decide_False.
    + lia.
    + rewrite Hp, decide_True, fmap_app, concat_app by done. cbn. by rewrite app_nil_r.
    + intros q Hq. by rewrite Hp, decide_False.
    + apply sim_short_add.
  - intros o fd bs Hf. unfold sim_write. by rewrite Hf.
  - done.
  - done.
  - intros o fd. unfold sim_file. cbn. rewrite lookup_delete_eq. split; [by case_match|]. split; [|done].
    intros fd' Hne. by rewrite lookup_delete_ne.
  - intros o fd. apply bool_decide_eq_true.
  - intros o fd [p Hp]. unfold sim_file in Hp. by destruct (Z.ltb_spec fd 0).
  - intros o name s Hs. apply fmap_Some in Hs as (t & _ & ->). apply Forall_forall. intros c Hc.
    apply list_elem_of_filter in Hc as [Hc _]. unfold byte_ok. lia.
  - done.
  - done.
  - intros o p t o' [= <-]. split; [done|]. unfold sim_data, sim_writes. cbn. rewrite lookup_insert_eq. split; [cbn; by rewrite app_nil_r|].
    intros q Hq. by rewrite lookup_insert_ne.
Defined.

(** ** The structs *)

(** [buf_] is [None] for the null pointer. *)
Record TLBuffer := mkTLBuffer {
  buf_ : option ptr;
  size_ : Z;
  capacity_ : Z;
  trace_fd_ : Z;
  last_fe : Z;
  tls_height : Z;
  tls_bottom : Z;
  stack_height : Z;
  stack_bottom : Z;
  e_counter_ : Z }.

Record WriteTask := mkWriteTask { wt_fd_ : Z; wt_data_ : option ptr; wt_size_ : Z; wt_cap_ : Z }.

(** [taskq_] is [None] for the null pointer. *)
Record OutQueue := mkOutQueue {
  length_ : Z;
  taskq_ : option (list WriteTask);
  head_ : Z;
  tail_ : Z;
  task_count_ : Z;
  continue_ : bool }.

Record UFOContext := mkUFOContext {
  do_print_stat_ : bool;
  cur_pid_ : Z;
  p_pid_ : Z;
  is_subproc : bool;
  mudule_length_ : Z;
  tl_buf_size_ : Z;
  mem_t1_ : Z;
  mem_t2_ : Z;
  is_on : bool;
  no_stack : bool;
  no_data_value : bool;
  trace_func_call : bool;
  trace_ptr_prop : bool;
  trace_dir : ptr;
  time_started : Z;
  e_count : Z;
  use_io_q : bool;
  use_compression : bool;
  out_queue_legth : Z }.

Definition get_buf_size (u : UFOContext) : Z := u.(tl_buf_size_).

(** The size of [trace_dir]. *)
Definition DIR_MAX_LEN : Z := 255.

(** What the buffers, the queue and the context share.  [k_outlen] is the
    value the uninitialised variable [outlen] of [_do_write] happens to have. *)
Record core (O : Type) := Core {
  k_mem : mem;
  k_os : O;
  k_ctx : UFOContext;
  k_queue : option OutQueue;
  k_zip_buf : option ptr;
  k_zipbuf_len : Z;
  k_outlen : Z }.
Arguments Core {O}.
Arguments k_mem {O}.
Arguments k_os {O}.
Arguments k_ctx {O}.
Arguments k_queue {O}.
Arguments k_zip_buf {O}.
Arguments k_zipbuf_len {O}.
Arguments k_outlen {O}.

Section Setters.
Context {O : Type}.
Definition with_mem (c : core O) (m : mem) : core O :=
  Core m c.(k_os) c.(k_ctx) c.(k_queue) c.(k_zip_buf) c.(k_zipbuf_len) c.(k_outlen).
Definition with_os (c : core O) (o : O) : core O :=
  Core c.(k_mem) o c.(k_ctx) c.(k_queue) c.(k_zip_buf) c.(k_zipbuf_len) c.(k_outlen).
Definition with_ctx (c : core O) (u : UFOContext) : core O :=
  Core c.(k_mem) c.(k_os) u c.(k_queue) c.(k_zip_buf) c.(k_zipbuf_len) c.(k_outlen).
Definition with_queue (c : core O) (q : option OutQueue) : core O :=
  Core c.(k_mem) c.(k_os) c.(k_ctx) q c.(k_zip_buf) c.(k_zipbuf_len) c.(k_outlen).
Definition with_zip (c : core O) (z : option ptr) (n : Z) : core O :=
  Core c.(k_mem) c.(k_os) c.(k_ctx) c.(k_queue) z n c.(k_outlen).
End Setters.

Definition set_buf_ (b : TLBuffer) (p : option ptr) : TLBuffer :=
  mkTLBuffer p b.(size_) b.(capacity_) b.(trace_fd_) b.(last_fe) b.(tls_height) b.(tls_bottom)
    b.(stack_height) b.(stack_bottom) b.(e_counter_).
Definition set_size_ (b : TLBuffer) (n : Z) : TLBuffer :=
  mkTLBuffer b.(buf_) n b.(capacity_) b.(trace_fd_) b.(last_fe) b.(tls_height) b.(tls_bottom)
    b.(stack_height) b.(stack_bottom) b.(e_counter_).
Definition set_capacity_ (b : TLBuffer) (n : Z) : TLBuffer :=
  mkTLBuffer b.(buf_) b.(size_) n b.(trace_fd_) b.(last_fe) b.(tls_height) b.(tls_bottom)
    b.(stack_height) b.(stack_bottom) b.(e_counter_).
Definition set_trace_fd_ (b : TLBuffer) (fd : Z) : TLBuffer :=
  mkTLBuffer b.(buf_) b.(size_) b.(capacity_) fd b.(last_fe) b.(tls_height) b.(tls_bottom)
    b.(stack_height) b.(stack_bottom) b.(e_counter_).
Definition set_last_fe (b : TLBuffer) (n : Z) : TLBuffer :=
  mkTLBuffer b.(buf_) b.(size_) b.(capacity_) b.(trace_fd_) n b.(tls_height) b.(tls_bottom)
    b.(stack_height) b.(stack_bottom) b.(e_counter_).
Definition set_e_counter_ (b : TLBuffer) (n : Z) : TLBuffer :=
  mkTLBuffer b.(buf_) b.(size_) b.(capacity_) b.(trace_fd_) b.(last_fe) b.(tls_height) b.(tls_bottom)
    b.(stack_height) b.(stack_bottom) n.
Definition set_stack (b : TLBuffer) (stack_bottom stack_height tls_bottom tls_height : Z) : TLBuffer :=
  mkTLBuffer b.(buf_) b.(size_) b.(capacity_) b.(trace_fd_) b.(last_fe) tls_height tls_bottom
    stack_height stack_bottom b.(e_counter_).

(** A null pointer is used. *)
Definition deref (p : option ptr) : res ptr := res_of_option ENull p.

(** The characters of a C string, as the system reads a path. *)
Fixpoint cstring (s : list cell) : res chars :=
  match s with
  | [] => Err EOutOfBounds
  | None :: _ => Err EUndef
  | Some c :: s' => if c =? 0 then Ok [] else t ← cstring s'; Ok (c :: t)
  end.
