(* ===== verification/HeapSort.v ===== *)
(** * Sorting the table of modules

    Models [Swap], [InternalSort], [Sort] and [InternalLowerBound] of
    [src/ufo-rt/lib/sanitizer_common/sanitizer_common.h].  An array is a list;
    an access outside it is an error.  The indices are natural numbers: they
    stay below the size of the array, so [2 * j + 2] does not wrap.

    Shown: both sorts return, for every array and every strict weak ordering,
    a permutation of the array in ascending order; the binary search returns
    the first position whose element is not less than the value. *)
From stdpp Require Import base numbers list sorting.
From Stdlib Require Import ZArith Lia.
From S2P Require Import Prelude.

Section Code.
Context {T : Type} (comp : T -> T -> bool).

Definition get (v : list T) (i : nat) : res T := res_of_option EOutOfBounds (v !! i).

Definition Swap (v : list T) (i j : nat) : res (list T) :=
  tmp ← get v i; b ← get v j; Ok (<[j := tmp]> (<[i := b]> v)).

(** [for (j = i; j > 0; j = p)] *)
Fixpoint sift_up (fuel : nat) (v : list T) (j : nat) : res (list T) :=
  if (0 <? j)%nat then
    match fuel with
    | O => Err EHang
    | S fuel' =>
        let p := ((j - 1) / 2)%nat in
        a ← get v p; b ← get v j;
        if comp a b then v ← Swap v j p; sift_up fuel' v p else Ok v
    end
  else Ok v.

(** [for (i = ..; i < size; i++)], [n] rounds *)
Fixpoint insert_all (n : nat) (v : list T) (i : nat) : res (list T) :=
  match n with
  | O => Ok v
  | S n' => v ← sift_up i v i; insert_all n' v (S i)
  end.

(** [if (k < i && comp(v[max_ind], v[k])) max_ind = k;] *)
Definition larger (v : list T) (i max_ind k : nat) : res nat :=
  if (k <? i)%nat then a ← get v max_ind; b ← get v k; Ok (if comp a b then k else max_ind)
  else Ok max_ind.

(** [for (j = ..; j < i; j = max_ind)] *)
Fixpoint sink (fuel : nat) (v : list T) (j i : nat) : res (list T) :=
  if (j <? i)%nat then
    match fuel with
    | O => Err EHang
    | S fuel' =>
        max_ind ← larger v i j (2 * j + 1);
        max_ind ← larger v i max_ind (2 * j + 2);
        if negb (max_ind =? j)%nat then v ← Swap v j max_ind; sink fuel' v max_ind i else Ok v
    end
  else Ok v.

(** [for (i = ..; i > 0; i--)] *)
Fixpoint extract_all (i : nat) (v : list T) : res (list T) :=
  match i with
  | O => Ok v
  | S i' => v ← Swap v 0 i; v ← sink i v 0 i; extract_all i' v
  end.

Definition Sort (v : list T) (size : nat) : res (list T) :=
  if (size <? 2)%nat then Ok v
  else v ← insert_all (size - 1) v 1; extract_all (size - 1) v.

(** The same text over a container. *)
Definition InternalSort (v : list T) (size : nat) : res (list T) :=
  if (size <? 2)%nat then Ok v
  else v ← insert_all (size - 1) v 1; extract_all (size - 1) v.

Fixpoint InternalLowerBound (fuel : nat) (v : list T) (first last : nat) (val : T) : res nat :=
  if (first <? last)%nat then
    match fuel with
    | O => Err EHang
    | S fuel' =>
        let mid := ((first + last) / 2)%nat in
        x ← get v mid;
        if comp x val then InternalLowerBound fuel' v (mid + 1) last val
        else InternalLowerBound fuel' v first mid val
    end
  else Ok first.
End Code.

(** ** Orderings and heaps *)

(** A strict weak ordering; [le a b] is "[b] is not less than [a]". *)
Class StrictWeak {T} (comp : T -> T -> bool) : Prop := {
  sw_asym : forall a b, comp a b = true -> comp b a = false;
  sw_trans : forall a b c, comp b a = false -> comp c b = false -> comp c a = false }.

Section Heap.
Context {T : Type} `{Inhabited T} (comp : T -> T -> bool) `{SW : !StrictWeak comp}.
Local Open Scope nat_scope.

Definition le (a b : T) : Prop := comp b a = false.

Lemma le_trans a b c : le a b -> le b c -> le a c.
Proof. unfold le. intros H1 H2. by apply (sw_trans a b c). Qed.

Lemma le_refl a : le a a.
Proof. unfold le. destruct (comp a a) eqn:E; [|done]. by apply sw_asym in E as E'; congruence. Qed.

Lemma lt_le a b : comp a b = true -> le a b.
Proof. apply sw_asym. Qed.

Definition parent (i : nat) : nat := (i - 1) / 2.

Lemma parent_lt i : 0 < i -> parent i < i.
Proof. unfold parent. intros Hi. apply Nat.Div0.div_lt_upper_bound. lia. Qed.

Lemma parent_child c j : 0 < c -> parent c = j <-> c = 2 * j + 1 \/ c = 2 * j + 2.
Proof.
  unfold parent. intros Hc. pose proof (Nat.div_mod_eq (c - 1) 2). pose proof (Nat.mod_upper_bound (c - 1) 2 ltac:(lia)).
  split; [|intros [->| ->]]; [lia|..].
  - replace (2 * j + 1 - 1) with (j * 2) by lia. by rewrite Nat.div_mul.
  - replace (2 * j + 2 - 1) with (1 + j * 2) by lia. by rewrite Nat.div_add.
Qed.

Lemma get_ok (v : list T) i : i < length v -> get v i = Ok (v !!! i).
Proof. intros Hi. unfold get. by rewrite (list_lookup_lookup_total_lt v i Hi). Qed.

(** What swapping two elements does. *)
Definition swapped (v : list T) (i j : nat) (v' : list T) : Prop :=
  length v' = length v /\ v' !!! i = v !!! j /\ v' !!! j = v !!! i /\
  (forall k, k <> i -> k <> j -> v' !!! k = v !!! k) /\ v' ≡ₚ v.

Definition transpose (i j k : nat) : nat := if decide (k = i) then j else if decide (k = j) then i else k.

Lemma Swap_ok (v : list T) i j :
  i < length v -> j < length v -> exists v', Swap v i j = Ok v' /\ swapped v i j v'.
Proof.
  intros Hi Hj. unfold Swap. rewrite !get_ok by done. rewrite !bind_ok.
  set (v' := <[j := v !!! i]> (<[i := v !!! j]> v)). exists v'. split; [done|].
  assert (Hl : length v' = length v) by (unfold v'; by rewrite !length_insert).
  assert (Hv : forall k, v' !! k = v !! transpose i j k).
  { intros k. unfold v', transpose. destruct (decide (k = j)) as [->|Hkj].
    - rewrite list_lookup_insert_eq by (rewrite length_insert; done).
      rewrite <- (list_lookup_lookup_total_lt v i Hi). by destruct (decide (j = i)) as [->|].
    - rewrite list_lookup_insert_ne by done. destruct (decide (k = i)) as [->|Hki].
      + rewrite list_lookup_insert_eq by done. by rewrite <- (list_lookup_lookup_total_lt v j Hj).
      + by rewrite list_lookup_insert_ne. }
  assert (Hv' : forall k, v' !!! k = v !!! transpose i j k).
  { intros k. rewrite !list_lookup_total_alt. by rewrite Hv. }
  repeat split; [done|..].
  - rewrite Hv'. unfold transpose. by rewrite decide_True.
  - rewrite Hv'. unfold transpose. rewrite (decide_True (P := j = j)) by done. by destruct (decide (j = i)) as [->|].
  - intros k Hi' Hj'. rewrite Hv'. unfold transpose. by rewrite !decide_False.
  - apply Permutation_inj. split; [done|]. exists (transpose i j). split; [|exact Hv].
    intros a b. unfold transpose. repeat destruct (decide _); congruence.
Qed.

(** The first [n] elements form a heap. *)
Definition heap (v : list T) (n : nat) : Prop := forall i, 0 < i < n -> le (v !!! i) (v !!! parent i).

(** *** Stage 1 *)

(** A heap of [n] elements but for [j], which may be larger than its parent. *)
Record up_heap (v : list T) (n j : nat) : Prop := {
  up_edge : forall i, 0 < i < n -> i <> j -> le (v !!! i) (v !!! parent i);
  up_over : forall c, 0 < c < n -> parent c = j -> 0 < j -> le (v !!! c) (v !!! parent j) }.

Lemma up_heap_swap (v v' : list T) n j :
  0 < j < n -> comp (v !!! parent j) (v !!! j) = true -> up_heap v n j -> swapped v j (parent j) v' ->
  up_heap v' n (parent j).
Proof.
  intros Hj Hlt [He Ho] (_ & Hvj & Hvp & Hk & _). pose proof (parent_lt j ltac:(lia)) as Hp. apply lt_le in Hlt.
  assert (Hkid : forall c, 0 < c < n -> parent c = parent j -> c <> j -> le (v !!! c) (v !!! parent j)).
  { intros c Hc Hpc Hcj. rewrite <- Hpc. by apply He. }
  constructor.
  - intros i Hi Hip. pose proof (parent_lt i ltac:(lia)) as Hpi. destruct (decide (i = j)) as [->|Hij].
    { by rewrite Hvj, Hvp. }
    rewrite (Hk i) by done. destruct (decide (parent i = j)) as [Hpj|Hpj]; [rewrite Hpj, Hvj; apply Ho; done || lia|].
    destruct (decide (parent i = parent j)) as [Hpp|Hpp].
    + rewrite Hpp, Hvp. eapply le_trans; [|exact Hlt]. by apply Hkid.
    + rewrite Hk by done. by apply He.
  - intros c Hc Hpc Hp0. pose proof (parent_lt (parent j) Hp0) as Hpp. rewrite (Hk (parent (parent j))) by lia.
    assert (Hup : le (v !!! parent j) (v !!! parent (parent j))) by (apply He; lia).
    destruct (decide (c = j)) as [->|Hcj]; [by rewrite Hvj|]. pose proof (parent_lt c ltac:(lia)).
    rewrite (Hk c) by lia. eapply le_trans; [|exact Hup]. by apply Hkid.
Qed.

Lemma sift_up_ok fuel v n j :
  j < n <= length v -> j <= fuel -> up_heap v n j ->
  exists v', sift_up comp fuel v j = Ok v' /\ length v' = length v /\ v' ≡ₚ v /\ heap v' n.
Proof.
  revert v j. induction fuel as [|fuel IH]; intros v j Hj Hf Hh; cbn [sift_up].
  { assert (j = 0) as -> by lia. exists v. repeat split; [done..|]. intros i Hi. apply (up_edge _ _ _ Hh); lia. }
  destruct (Nat.ltb_spec 0 j) as [Hj0|Hj0].
  2: { assert (j = 0) as -> by lia. exists v. repeat split; [done..|]. intros i Hi. apply (up_edge _ _ _ Hh); lia. }
  fold (parent j). pose proof (parent_lt j Hj0). rewrite !get_ok by lia. rewrite !bind_ok.
  destruct (comp (v !!! parent j) (v !!! j)) eqn:Hc.
  - destruct (Swap_ok v j (parent j)) as (v1 & -> & Hs); [lia..|]. rewrite bind_ok.
    destruct (IH v1 (parent j)) as (v' & Hv' & Hl & Hp & Hh'); [destruct Hs as [-> _]; lia|lia| |].
    { apply (up_heap_swap v); [lia|done..]. }
    exists v'. destruct Hs as (Hl1 & _ & _ & _ & Hp1). repeat split; [done|congruence|by etrans|done].
  - exists v. repeat split; [done..|]. intros i Hi. destruct (decide (i = j)) as [->|Hij]; [done|].
    by apply (up_edge _ _ _ Hh).
Qed.

Lemma insert_all_ok n v i :
  0 < i -> i + n = length v -> heap v i ->
  exists v', insert_all comp n v i = Ok v' /\ length v' = length v /\ v' ≡ₚ v /\ heap v' (length v).
Proof.
  revert v i. induction n as [|n IH]; intros v i Hi Hl Hh; cbn [insert_all].
  { exists v. rewrite <- Hl, Nat.add_0_r. done. }
  destruct (sift_up_ok i v (S i) i) as (v1 & -> & Hl1 & Hp1 & Hh1); [lia..| |].
  { constructor; [intros k Hk Hki; apply Hh; lia|]. intros c Hc Hpc. pose proof (parent_lt c ltac:(lia)). lia. }
  rewrite bind_ok. destruct (IH v1 (S i)) as (v' & -> & Hl' & Hp' & Hh'); [lia..|done|].
  exists v'. rewrite <- Hl1. repeat split; [congruence|by etrans|done].
Qed.

(** *** Stage 2 *)

(** A heap of [n] elements but for [j], which may be smaller than a child. *)
Record down_heap (v : list T) (n j : nat) : Prop := {
  down_edge : forall c, 0 < c < n -> parent c <> j -> le (v !!! c) (v !!! parent c);
  down_over : forall c, 0 < c < n -> parent c = j -> 0 < j -> le (v !!! c) (v !!! parent j) }.

Lemma larger_ok v i m k :
  m < length v -> i <= length v ->
  exists m', larger comp v i m k = Ok m' /\ (m' = m \/ m' = k /\ k < i) /\ le (v !!! m) (v !!! m') /\
    (k < i -> le (v !!! k) (v !!! m')) /\ (m' = k -> k <> m -> comp (v !!! m) (v !!! k) = true).
Proof.
  intros Hm Hi. unfold larger. destruct (Nat.ltb_spec k i) as [Hk|Hk].
  - rewrite !get_ok by lia. rewrite !bind_ok. eexists. split; [done|].
    destruct (comp (v !!! m) (v !!! k)) eqn:E.
    + split; [by right|]; split; [by apply lt_le|]; split; [intros _; apply le_refl|done].
    + split; [by left|]; split; [apply le_refl|]; split; [done|]. by intros -> ?.
  - exists m. split; [done|]; split; [by left|]; split; [apply le_refl|]; split; [lia|]. by intros -> ?.
Qed.

(** [max_ind]: [j], or a child of it larger than it, and no child is larger. *)
Definition max_child (v : list T) (i j m : nat) : Prop :=
  (m = j \/ j < m < i /\ parent m = j) /\ le (v !!! j) (v !!! m) /\
  (forall c, 0 < c < i -> parent c = j -> le (v !!! c) (v !!! m)).

Lemma max_child_ok v i j :
  j < i <= length v ->
  exists m1 m, larger comp v i j (2 * j + 1) = Ok m1 /\ larger comp v i m1 (2 * j + 2) = Ok m /\ max_child v i j m.
Proof.
  intros Hj. destruct (larger_ok v i j (2 * j + 1)) as (m1 & E1 & Hm1 & Hle1 & Hk1 & _); [lia..|].
  destruct (larger_ok v i m1 (2 * j + 2)) as (m2 & E2 & Hm2 & Hle2 & Hk2 & _); [lia..|].
  exists m1, m2. split; [done|]. split; [done|]. split; [|split].
  - destruct Hm2 as [->|[-> ?]].
    + destruct Hm1 as [->|[-> ?]]; [by left|right]. split; [lia|]. apply parent_child; [lia|by left].
    + right. split; [lia|]. apply parent_child; [lia|by right].
  - by eapply le_trans.
  - intros c Hc Hp. apply parent_child in Hp as [->| ->]; [| |lia].
    + eapply le_trans; [apply Hk1; lia|done].
    + apply Hk2; lia.
Qed.

Lemma down_heap_swap v v' i j m :
  j < i -> m <> j -> max_child v i j m -> down_heap v i j -> swapped v j m v' -> down_heap v' i m.
Proof.
  intros Hj Hne ([->|[Hm Hpm]] & Hle & Hmax) [He Ho] (_ & Hvj & Hvm & Hk & _); [done|]. constructor.
  - intros c Hc Hpc. pose proof (parent_lt c ltac:(lia)) as Hpl. destruct (decide (parent c = j)) as [Hcj|Hcj].
    + rewrite Hcj, Hvj. destruct (decide (c = m)) as [->|Hcm]; [by rewrite Hvm|]. rewrite Hk by lia. by apply Hmax.
    + rewrite (Hk (parent c)) by done. destruct (decide (c = j)) as [->|Hcj'].
      * rewrite Hvj. apply Ho; lia.
      * destruct (decide (c = m)) as [->|Hcm]; [lia|]. rewrite Hk by done. by apply He.
  - intros c Hc Hpc Hm0. pose proof (parent_lt c ltac:(lia)). rewrite Hpm, Hvj, Hk by lia.
    rewrite <- Hpc. apply He; [done|lia].
Qed.

(** [v'] is [v] with the first [i] elements rearranged. *)
Definition rearranged (v v' : list T) (i : nat) : Prop :=
  length v' = length v /\ v' ≡ₚ v /\ (forall k, i <= k -> v' !!! k = v !!! k) /\
  (forall P : T -> Prop, (forall k, k < i -> P (v !!! k)) -> forall k, k < i -> P (v' !!! k)).

Lemma rearranged_refl v i : rearranged v v i.
Proof. by repeat split. Qed.

Lemma rearranged_trans v v1 v' i : rearranged v v1 i -> rearranged v1 v' i -> rearranged v v' i.
Proof.
  intros (Hl & Hp & Hk & HP) (Hl' & Hp' & Hk' & HP'). repeat split; [congruence|by etrans|..].
  - intros k Hki. by rewrite Hk', Hk.
  - intros P HPv. apply HP'. by apply HP.
Qed.

Lemma swapped_rearranged v v' j m i : j < i -> m < i -> swapped v j m v' -> rearranged v v' i.
Proof.
  intros Hj Hm (Hl & Hvj & Hvm & Hk & Hp). repeat split; [done|done|intros k Hki; apply Hk; lia|].
  intros P HP k Hki. destruct (decide (k = j)) as [->|]; [rewrite Hvj; by apply HP|].
  destruct (decide (k = m)) as [->|]; [rewrite Hvm; by apply HP|]. rewrite Hk by done. by apply HP.
Qed.

Lemma sink_ok fuel v j i :
  j <= i <= length v -> i <= fuel + j -> down_heap v i j ->
  exists v', sink comp fuel v j i = Ok v' /\ heap v' i /\ rearranged v v' i.
Proof.
  revert v j. induction fuel as [|fuel IH]; intros v j Hj Hf Hh; cbn [sink].
  { destruct (Nat.ltb_spec j i); [lia|]. exists v. split; [done|]. split; [|apply rearranged_refl].
    intros c Hc. pose proof (parent_lt c ltac:(lia)). apply (down_edge _ _ _ Hh); lia. }
  destruct (Nat.ltb_spec j i) as [Hji|Hji].
  2: { exists v. split; [done|]. split; [|apply rearranged_refl].
       intros c Hc. pose proof (parent_lt c ltac:(lia)). apply (down_edge _ _ _ Hh); lia. }
  destruct (max_child_ok v i j) as (m1 & m & -> & Hm & Hmax); [lia|]. rewrite bind_ok, Hm, bind_ok.
  destruct (Nat.eqb_spec m j) as [->|Hmj]; cbn [negb].
  - exists v. split; [done|]. split; [|apply rearranged_refl]. intros c Hc.
    destruct (decide (parent c = j)) as [Hp|Hp]; [|by apply (down_edge _ _ _ Hh)]. rewrite Hp. by apply Hmax.
  - assert (Hmi : j < m < i) by (destruct Hmax as ([?|[? _]] & _); [done|lia]).
    destruct (Swap_ok v j m) as (v1 & -> & Hs); [lia..|]. rewrite bind_ok.
    destruct (IH v1 m) as (v' & -> & Hh' & Hr); [destruct Hs as [-> _]; lia|lia|by apply (down_heap_swap v _ i j)|].
    exists v'. split; [done|]. split; [done|]. eapply rearranged_trans; [|done].
    eapply swapped_rearranged; [..|done]; lia.
Qed.

Lemma heap_root v n : heap v n -> forall i, i < n -> le (v !!! i) (v !!! 0).
Proof.
  intros Hh i. induction (lt_wf i) as [i _ IH]. intros Hi. destruct (decide (i = 0)) as [->|Hi0]; [apply le_refl|].
  pose proof (parent_lt i ltac:(lia)). eapply le_trans; [apply Hh; lia|]. apply IH; lia.
Qed.

(** Every element behind position [i] is at least all elements before it. *)
Definition tail_sorted (v : list T) (i : nat) : Prop :=
  forall l k, l < k < length v -> i < k -> le (v !!! l) (v !!! k).

Lemma extract_step v v1 v2 i :
  S i < length v -> heap v (S (S i)) -> tail_sorted v (S i) -> swapped v 0 (S i) v1 -> rearranged v1 v2 (S i) ->
  tail_sorted v2 i.
Proof.
  intros Hi Hh Ht (Hl1 & H0 & Hn & Hk1 & _) (Hl2 & _ & Hk2 & HP) l k Hlk Hik.
  assert (Hpre : forall x, (forall j, j < S (S i) -> le (v !!! j) x) -> forall j, j < S i -> le (v2 !!! j) x).
  { intros x Hx. apply (HP (fun y => le y x)). intros j Hj. destruct (decide (j = 0)) as [->|]; [rewrite H0; apply Hx; lia|].
    rewrite Hk1 by lia. apply Hx. lia. }
  rewrite (Hk2 k) by lia. destruct (decide (k = S i)) as [->|Hki].
  - rewrite Hn. apply Hpre; [|lia]. by apply heap_root.
  - rewrite (Hk1 k) by lia. destruct (decide (l < S i)) as [Hl|Hl].
    + apply Hpre; [|done]. intros j Hj. apply Ht; lia.
    + rewrite (Hk2 l) by lia. destruct (decide (l = S i)) as [->|]; [rewrite Hn|rewrite Hk1 by lia]; apply Ht; lia.
Qed.

Lemma extract_all_ok i v :
  i < length v -> heap v (S i) -> tail_sorted v i ->
  exists v', extract_all comp i v = Ok v' /\ v' ≡ₚ v /\ tail_sorted v' 0.
Proof.
  revert v. induction i as [|i IH]; intros v Hi Hh Ht; cbn [extract_all]; [by exists v|].
  destruct (Swap_ok v 0 (S i)) as (v1 & -> & Hs); [lia..|]. rewrite bind_ok.
  assert (Hd : down_heap v1 (S i) 0).
  { constructor; [|lia]. intros c Hc Hpc. pose proof (parent_lt c ltac:(lia)).
    destruct Hs as (_ & _ & _ & Hk & _). rewrite !Hk by lia. apply Hh. lia. }
  destruct (sink_ok (S i) v1 0 (S i)) as (v2 & -> & Hh2 & Hr); [destruct Hs as [-> _]; lia|lia|done|]. rewrite bind_ok.
  pose proof Hs as (Hl1 & _ & _ & _ & Hp1). pose proof Hr as (Hl2 & Hp2 & _).
  destruct (IH v2) as (v' & -> & Hp & Ht'); [lia|done|by eapply extract_step|].
  exists v'. split; [done|]. split; [by rewrite Hp, Hp2|done].
Qed.

Lemma Sort_total (v : list T) :
  exists v', Sort comp v (length v) = Ok v' /\ v' ≡ₚ v /\ forall l k, l < k < length v' -> le (v' !!! l) (v' !!! k).
Proof.
  unfold Sort. destruct (Nat.ltb_spec (length v) 2) as [Hl|Hl]; [exists v; repeat split; [done..|]; intros; lia|].
  destruct (insert_all_ok (length v - 1) v 1) as (v1 & -> & Hl1 & Hp1 & Hh); [lia..|intros i Hi; lia|]. rewrite bind_ok.
  destruct (extract_all_ok (length v - 1) v1) as (v' & -> & Hp & Ht).
  - lia.
  - by replace (S (length v - 1)) with (length v) by lia.
  - intros l k Hlk Hk. lia.
  - exists v'. split; [done|]. split; [by rewrite Hp|]. intros l k Hlk. apply Ht; lia.
Qed.

(** *** Binary search *)

Lemma lower_bound_total fuel v first last val :
  last <= first + fuel -> first <= last <= length v ->
  (forall l k, l < k < length v -> le (v !!! l) (v !!! k)) ->
  (forall k, k < first -> comp (v !!! k) val = true) ->
  exists r, InternalLowerBound comp fuel v first last val = Ok r /\ first <= r <= last /\
    (forall k, k < r -> comp (v !!! k) val = true) /\ (r < last -> comp (v !!! r) val = false).
Proof.
  intros Hf Hb Hs. revert first last Hf Hb. induction fuel as [|fuel IH]; intros first last Hf Hb Hlt;
    cbn [InternalLowerBound]; destruct (Nat.ltb_spec first last) as [Hfl|Hfl]; try lia;
    try (exists first; repeat split; [lia..|done|lia]).
  set (mid := (first + last) / 2).
  assert (Hm : first <= mid < last).
  { unfold mid. split; [apply Nat.div_le_lower_bound; lia|apply Nat.Div0.div_lt_upper_bound; lia]. }
  rewrite get_ok by lia. rewrite bind_ok. destruct (comp (v !!! mid) val) eqn:E.
  - destruct (IH (mid + 1) last) as (r & -> & Hr & Hk & He); [lia..| |by exists r; repeat split; [lia..|done|done]].
    intros k Hk. destruct (comp (v !!! k) val) eqn:Ek; [done|]. destruct (decide (k = mid)) as [->|]; [congruence|].
    assert (Hle : le (v !!! k) (v !!! mid)) by (apply Hs; lia). unfold le in Hle.
    pose proof (sw_trans val (v !!! k) (v !!! mid) Ek Hle). congruence.
  - destruct (IH first mid) as (r & -> & Hr & Hk & He); [lia..|done|]. exists r. repeat split; [lia..|done|].
    intros _. destruct (decide (r < mid)) as [|Hrm]; [by apply He|]. by replace r with mid by lia.
Qed.
End Heap.

Lemma ordered_sorted {T} `{Inhabited T} (R : T -> T -> Prop) (v : list T) :
  (forall l k, (l < k < length v)%nat -> R (v !!! l) (v !!! k)) <-> StronglySorted R v.
Proof.
  split.
  - induction v as [|x v IH]; intros Hv; [constructor|]. constructor.
    + apply IH. intros l k Hlk. apply (Hv (S l) (S k)). cbn. lia.
    + apply Forall_lookup. intros i y Hy. pose proof (lookup_lt_Some _ _ _ Hy) as Hi.
      rewrite <- (list_lookup_total_correct _ _ _ Hy). apply (Hv 0%nat (S i)). cbn. lia.
  - induction 1 as [|x v Hv IH Hx]; intros l k Hlk; cbn in Hlk; [lia|].
    destruct k as [|k]; [lia|]. destruct l as [|l]; cbn; [|apply IH; lia].
    rewrite Forall_lookup in Hx. apply (Hx k), list_lookup_lookup_total_lt. lia.
Qed.

#[export] Instance ltb_strict_weak {T} (key : T -> Z) : StrictWeak (fun a b => (key a <? key b)%Z).
Proof. split; intros *; rewrite ?Z.ltb_lt, ?Z.ltb_ge; lia. Qed.

Lemma Sort_ok {T} (comp : T -> T -> bool) `{StrictWeak T comp} (v : list T) :
  exists v', Sort comp v (length v) = Ok v' /\ v' ≡ₚ v /\ StronglySorted (fun a b => comp b a = false) v'.
Proof.
  destruct v as [|x v]; [exists []; repeat constructor|].
  destruct (@Sort_total T (populate x) comp _ (x :: v)) as (v' & Hs & Hp & Ho). exists v'. split; [done|]. split; [done|].
  by apply (@ordered_sorted T (populate x)).
Qed.

(** C37: the heap sorts sort.  For every array and every strict weak ordering
    both return, without an access outside the array, the same permutation of
    the array, in which no element is less than one before it. *)
Theorem sort_sorts {T} (comp : T -> T -> bool) (v : list T) :
  StrictWeak comp ->
  exists v', Sort comp v (length v) = Ok v' /\ InternalSort comp v (length v) = Ok v' /\ v' ≡ₚ v /\
    StronglySorted (fun a b => comp b a = false) v'.
Proof. intros SW. destruct (Sort_ok comp v) as (v' & Hs & Hp & Ho). by exists v'. Qed.

Lemma sort_sorts_witness :
  exists v', Sort Z.ltb [3; 1; 2; 1]%Z 4 = Ok v' /\ InternalSort Z.ltb [3; 1; 2; 1]%Z 4 = Ok v' /\ v' ≡ₚ [3; 1; 2; 1]%Z /\
    StronglySorted (fun a b => (b <? a)%Z = false) v'.
Proof. apply (sort_sorts Z.ltb [3; 1; 2; 1]%Z), (ltb_strict_weak id). Defined.

(** The binary search finds the boundary.  In an array in ascending order
    [InternalLowerBound] over the whole array returns, within as many rounds
    as the array has elements, the number of elements that are less than the
    value: all before the result are, none from it on is. *)
Theorem lower_bound_first {T} (comp : T -> T -> bool) (v : list T) (val : T) :
  StrictWeak comp -> StronglySorted (fun a b => comp b a = false) v ->
  exists r, InternalLowerBound comp (length v) v 0 (length v) val = Ok r /\
    Forall (fun x => comp x val = true) (take r v) /\ Forall (fun x => comp x val = false) (drop r v).
Proof.
  intros SW Hs. pose proof (proj2 (@ordered_sorted T (populate val) _ v) Hs) as Ho.
  destruct (@lower_bound_total T (populate val) comp _ (length v) v 0 (length v) val) as (r & Hr & Hb & Hk & He);
    [lia..|exact Ho|lia|].
  exists r. split; [done|]. rewrite !Forall_lookup. split.
  - intros i x Hx. apply lookup_take_Some in Hx as [Hx Hi].
    rewrite <- (@list_lookup_total_correct _ (populate val) _ _ _ Hx). by apply Hk.
  - intros i x Hx. rewrite lookup_drop in Hx. pose proof (lookup_lt_Some _ _ _ Hx) as Hi.
    rewrite <- (@list_lookup_total_correct _ (populate val) _ _ _ Hx).
    destruct i as [|i]; [rewrite Nat.add_0_r in *; by apply He|].
    apply (sw_trans val (@lookup_total _ _ _ (@list_lookup_total _ (populate val)) r v)); [apply He; lia|apply Ho; lia].
Qed.

Lemma lower_bound_first_witness :
  exists r, InternalLowerBound Z.ltb 4 [1; 1; 2; 3]%Z 0 4 2%Z = Ok r /\
    Forall (fun x => (x <? 2)%Z = true) (take r [1; 1; 2; 3]%Z) /\ Forall (fun x => (x <? 2)%Z = false) (drop r [1; 1; 2; 3]%Z).
Proof.
  apply (lower_bound_first Z.ltb [1; 1; 2; 3]%Z 2%Z); [apply (ltb_strict_weak id)|]. repeat constructor.
Defined.
