(* ===== verification/IOQueue.v ===== *)
(** * The output queue

    Models [WriteTask] and [OutQueue] of
    [src/ufo-rt/lib/tsan/rtl/ufo/io_queue.h] and [io_queue.cc]: a ring of
    [length_] write tasks between the traced threads, which swap a full
    buffer for an empty one, and a worker that writes the tasks out.

    In the first part the methods are functions on the shared state; a
    producer that finds the queue full waits, and what it waits for is the
    worker's next iteration ([work_once]).  [Module Threads] is a step relation for the
    worker, any number of producers and the thread that stops the queue, with
    the mutex and the condition variables.

    Shown: the ring is a FIFO queue of at most [length_ - 1] tasks (a
    simulation of [push] and [work_once] by a list); tasks reach their files
    complete and in order; a queue of length one can never be used; [stop]
    can wait for ever. *)
From stdpp Require Import base numbers list gmap.
From Stdlib Require Import ZArith Lia.
From S2P Require Import Prelude Memory SnappyBits SnappyCompress State.

Local Open Scope Z_scope.

Definition sizeof_WriteTask : Z := 24.

(** The task takes the buffer's data, the buffer the task's. *)
Definition load_with (task : WriteTask) (buf : TLBuffer) : WriteTask * TLBuffer :=
  (mkWriteTask buf.(trace_fd_) buf.(buf_) buf.(size_) buf.(capacity_),
   set_buf_ (set_capacity_ (set_size_ buf 0) task.(wt_cap_)) task.(wt_data_)).

Definition set_head (q : OutQueue) (head count : Z) : OutQueue :=
  mkOutQueue q.(length_) q.(taskq_) head q.(tail_) count q.(continue_).
Definition set_tail (q : OutQueue) (tail count : Z) : OutQueue :=
  mkOutQueue q.(length_) q.(taskq_) q.(head_) tail count q.(continue_).
Definition set_taskq (q : OutQueue) (tasks : option (list WriteTask)) : OutQueue :=
  mkOutQueue q.(length_) tasks q.(head_) q.(tail_) q.(task_count_) q.(continue_).
Definition set_continue (q : OutQueue) (b : bool) : OutQueue :=
  mkOutQueue q.(length_) q.(taskq_) q.(head_) q.(tail_) q.(task_count_) b.

(** [taskq_ + i] *)
Definition task_at (q : OutQueue) (i : Z) : res WriteTask :=
  ts ← res_of_option ENull q.(taskq_);
  if i <? 0 then Err EOutOfBounds else res_of_option EOutOfBounds (ts !! Z.to_nat i).

Definition set_task (q : OutQueue) (i : Z) (t : WriteTask) : res OutQueue :=
  ts ← res_of_option ENull q.(taskq_);
  if (0 <=? i) && (i <? zlen ts) then Ok (set_taskq q (Some (<[Z.to_nat i := t]> ts))) else Err EOutOfBounds.

(** The index of the task, and the queue without it. *)
Definition pop (q : OutQueue) : Z * OutQueue :=
  (q.(head_), set_head q (Z.rem (q.(head_) + 1) q.(length_)) (q.(task_count_) - 1)).

Definition is_empty (q : OutQueue) : bool := q.(head_) =? q.(tail_).

Definition is_full (q : OutQueue) : bool :=
  (q.(tail_) - q.(head_) =? q.(length_) - 1) || (q.(head_) - q.(tail_) =? 1).

Definition is_started (q : OutQueue) : bool := q.(continue_).

Section Queue.
Context {OS : Type} `{OSOps OS}.

Definition get_queue (c : core OS) : res OutQueue := res_of_option ENull c.(k_queue).

(** [snappy_compress] gets the uninitialised [outlen]. *)
Definition _do_write (fd : Z) (data : option ptr) (len : Z) (c : core OS) : res (core OS) :=
  bytes ← (if len =? 0 then Ok [] else p ← deref data; load_bytes c.(k_mem) p (Z.to_nat len));
  c ← (if c.(k_ctx).(use_compression) then
         '(st, bs) ← snappy_compress bytes (Some c.(k_outlen));
         match st with
         | SNAPPY_OK =>
             zip ← deref c.(k_zip_buf);
             m ← store_bytes c.(k_mem) zip bs;
             let block_len := u32 (zlen bs) in
             let '(_, o) := os_write c.(k_os) fd (le_bytes 4 block_len) in
             let '(_, o) := os_write o fd bs in
             Ok (with_os (with_mem c m) o)
         | _ => Err EDie
         end
       else
         let '(_, o) := os_write c.(k_os) fd bytes in Ok (with_os c o));
  Ok (with_os c (os_fsync c.(k_os) fd)).

(** One turn of [_work_loop] with a queue that is not empty. *)
Definition work_once (c : core OS) : res (core OS) :=
  q ← get_queue c;
  let '(i, q) := pop q in
  task ← task_at q i;
  c ← _do_write task.(wt_fd_) task.(wt_data_) task.(wt_size_) (with_queue c (Some q));
  q ← get_queue c;
  q ← set_task q i (mkWriteTask task.(wt_fd_) task.(wt_data_) 0 task.(wt_cap_));
  Ok (with_queue c (Some q)).

(** [while (is_full()) wait_non_full();] a full queue that is also empty is
    never popped: the worker waits for it to be filled. *)
Fixpoint wait_while_full (fuel : nat) (c : core OS) : res (core OS) :=
  q ← get_queue c;
  if is_full q then
    match fuel with
    | O => Err EHang
    | S fuel' => if is_empty q then Err EHang else c ← work_once c; wait_while_full fuel' c
    end
  else Ok c.

Definition push (buf : TLBuffer) (c : core OS) : res (TLBuffer * core OS) :=
  q ← get_queue c;
  c ← wait_while_full (Z.to_nat q.(length_)) c;
  q ← get_queue c;
  let i := q.(tail_) in
  task ← task_at q i;
  let q := set_tail q (Z.rem (q.(tail_) + 1) q.(length_)) (q.(task_count_) + 1) in
  let '(task, buf) := load_with task buf in
  q ← set_task q i task;
  Ok (buf, with_queue c (Some q)).

(** [for (int i = 0; i < length_; ++i)] *)
Fixpoint alloc_tasks (n : nat) (sz : Z) (m : mem) : list WriteTask * mem :=
  match n with
  | O => ([], m)
  | S n' =>
      let '(p, m) := alloc m sz in
      let '(ts, m) := alloc_tasks n' sz m in
      (mkWriteTask (-1) (Some p) 0 sz :: ts, m)
  end.

(** The worker is started; its steps are [work_once]. *)
Definition start (len : Z) (c : core OS) : core OS :=
  let sz := get_buf_size c.(k_ctx) in
  let '(ts, m) := alloc_tasks (Z.to_nat len) sz c.(k_mem) in
  let c := with_mem c m in
  let c :=
    if c.(k_ctx).(use_compression) then
      let n := snappy_max_compressed_length sz in
      let '(p, m) := alloc c.(k_mem) n in
      with_zip (with_mem c m) (Some p) n
    else c in
  with_queue c (Some (mkOutQueue len (Some ts) 0 0 0 true)).

Fixpoint free_tasks (ts : list WriteTask) (m : mem) : res mem :=
  match ts with
  | [] => Ok m
  | t :: ts' => m ← match t.(wt_data_) with Some p => free m p | None => Ok m end; free_tasks ts' m
  end.

Definition release_mem (c : core OS) : res (core OS) :=
  q ← get_queue c;
  m ← match q.(taskq_) with
      | Some ts => free_tasks (ztake q.(length_) ts) c.(k_mem)
      | None => if 0 <? q.(length_) then Err ENull else Ok c.(k_mem)
      end;
  let c := with_queue (with_mem c m) (Some (set_taskq q None)) in
  if c.(k_ctx).(use_compression) then
    m ← match c.(k_zip_buf) with Some p => free c.(k_mem) p | None => Ok c.(k_mem) end;
    Ok (with_zip (with_mem c m) None c.(k_zipbuf_len))
  else Ok c.

(** [while (!is_empty())] *)
Fixpoint drain (fuel : nat) (c : core OS) : res (core OS) :=
  q ← get_queue c;
  if is_empty q then Ok c
  else
    match fuel with
    | O => Err EHang
    | S fuel' =>
        let '(i, q) := pop q in
        task ← task_at q i;
        let c := with_queue c (Some q) in
        c ← (if 0 <? task.(wt_size_) then _do_write task.(wt_fd_) task.(wt_data_) task.(wt_size_) c else Ok c);
        drain fuel' c
    end.

(** The worker has left its loop when [pthread_join] returns. *)
Definition stop (c : core OS) : res (core OS) :=
  q ← get_queue c;
  c ← drain (Z.to_nat q.(length_)) (with_queue c (Some (set_continue q false)));
  release_mem c.
End Queue.

(** ** The ring as a queue *)

(** A write that waits: a descriptor and the bytes to be written. *)
Abbreviation request := (Z * list Z)%type.

(** A task owns its data block, of which the first [wt_size_] bytes are to be
    written. *)
Definition owns (m : mem) (t : WriteTask) (b : Z) : Prop :=
  t.(wt_data_) = Some (Ptr b 0) /\ exists l, m.(m_blocks) !! b = Some l /\ zlen l = t.(wt_cap_).

Definition holds (m : mem) (t : WriteTask) (r : request) : Prop :=
  t.(wt_fd_) = r.1 /\ t.(wt_size_) = zlen r.2 /\
  exists b l, t.(wt_data_) = Some (Ptr b 0) /\ m.(m_blocks) !! b = Some l /\ slice l 0 (zlen r.2) = Some <$> r.2.

(** The sizes of buffers: an event of up to 64 bytes fits, and sizes can be
    added in 32 bits. *)
Definition cap_ok (n : Z) : Prop := 64 <= n < 2 ^ 32 - 64.

(** The [items] wait in the ring, from [head_] on; [blks] are its data
    blocks. *)
Record ring (m : mem) (q : OutQueue) (ts : list WriteTask) (blks : list Z) (items : list request) : Prop := {
  rg_tasks : q.(taskq_) = Some ts;
  rg_len : zlen ts = q.(length_);
  rg_pos : 1 <= q.(length_);
  rg_head : 0 <= q.(head_) < q.(length_);
  rg_tail : q.(tail_) = (q.(head_) + zlen items) mod q.(length_);
  rg_count : q.(task_count_) = zlen items;
  rg_room : zlen items <= q.(length_) - 1;
  rg_own : Forall2 (owns m) ts blks;
  rg_caps : Forall (fun t => cap_ok t.(wt_cap_)) ts;
  rg_nodup : NoDup blks;
  rg_items : forall k r, items !! k = Some r ->
    exists t, ts !! Z.to_nat ((q.(head_) + Z.of_nat k) mod q.(length_)) = Some t /\ holds m t r
}.

Lemma idx_inj h L j k :
  0 <= j < L -> 0 <= k < L -> (h + j) mod L = (h + k) mod L -> j = k.
Proof.
  intros Hj Hk E. pose proof (Z.div_mod (h + j) L ltac:(lia)) as H1. pose proof (Z.div_mod (h + k) L ltac:(lia)) as H2.
  rewrite E in H1. generalize dependent ((h + k) mod L). generalize ((h + j) / L) ((h + k) / L). intros x y r _ H1 H2.
  assert (x = y) as -> by nia. lia.
Qed.

Lemma idx_cases h n L :
  0 <= h < L -> 0 <= n < L -> (h + n) mod L = if h + n <? L then h + n else h + n - L.
Proof.
  intros Hh Hn. destruct (Z.ltb_spec (h + n) L); [apply Z.mod_small; lia|].
  symmetry. apply (Z.mod_unique _ _ 1); lia.
Qed.

Section RingFacts.
Context {m : mem} {q : OutQueue} {ts : list WriteTask} {blks : list Z} {items : list request}.
Context (Hr : ring m q ts blks items).

Lemma ring_empty : is_empty q = (zlen items =? 0).
Proof.
  unfold is_empty. pose proof (zlen_nonneg items). destruct Hr as [_ _ Hp Hh Ht _ Hroom _ _ _ _].
  rewrite Ht, idx_cases by lia. apply eq_true_iff_eq. rewrite !Z.eqb_eq.
  destruct (Z.ltb_spec (q.(head_) + zlen items) q.(length_)); lia.
Qed.

Lemma ring_full : is_full q = (zlen items =? q.(length_) - 1).
Proof.
  unfold is_full. pose proof (zlen_nonneg items). destruct Hr as [_ _ Hp Hh Ht _ Hroom _ _ _ _].
  rewrite Ht, idx_cases by lia. apply eq_true_iff_eq. rewrite orb_true_iff, !Z.eqb_eq.
  destruct (Z.ltb_spec (q.(head_) + zlen items) q.(length_)); lia.
Qed.

Lemma ring_task k :
  0 <= k -> exists t b, ts !! Z.to_nat (k mod q.(length_)) = Some t /\
    blks !! Z.to_nat (k mod q.(length_)) = Some b /\ owns m t b /\ 0 <= k mod q.(length_) < q.(length_).
Proof.
  intros Hk. pose proof (rg_pos _ _ _ _ _ Hr). pose proof (Z.mod_pos_bound k q.(length_) ltac:(lia)).
  destruct (slice_head ts (k mod q.(length_))) as [t Ht]; [rewrite (rg_len _ _ _ _ _ Hr); lia|].
  destruct (Forall2_lookup_l _ _ _ _ _ (rg_own _ _ _ _ _ Hr) Ht) as (b & Hb & Ho). by exists t, b.
Qed.
End RingFacts.

Lemma task_at_ok q ts i t :
  q.(taskq_) = Some ts -> 0 <= i -> ts !! Z.to_nat i = Some t -> task_at q i = Ok t.
Proof.
  intros Hq Hi Ht. unfold task_at. rewrite Hq. cbn [res_of_option]. rewrite bind_ok.
  rewrite (proj2 (Z.ltb_ge _ _)) by lia. by rewrite Ht.
Qed.

Lemma set_task_ok q ts i t :
  q.(taskq_) = Some ts -> 0 <= i < zlen ts -> set_task q i t = Ok (set_taskq q (Some (<[Z.to_nat i := t]> ts))).
Proof.
  intros Hq Hi. unfold set_task. rewrite Hq. cbn [res_of_option]. rewrite bind_ok.
  rewrite (proj2 (Z.leb_le _ _)), (proj2 (Z.ltb_lt _ _)) by lia. done.
Qed.

Lemma rem_mod a L : 0 <= a -> 0 < L -> Z.rem a L = a mod L.
Proof. intros. by apply Z.rem_mod_nonneg. Qed.

(** Taking the first request out. *)
Lemma ring_pop m q ts blks r items :
  ring m q ts blks (r :: items) -> ring m (pop q).2 ts blks items.
Proof.
  intros [H1 H2 H3 H4 H5 H6 H7 H8 Hcaps H9 H10]. rewrite zlen_cons in *. pose proof (zlen_nonneg items).
  pose proof (Z.mod_pos_bound (q.(head_) + 1) q.(length_) ltac:(lia)).
  split; cbn [pop snd set_head taskq_ length_ head_ tail_ task_count_]; rewrite ?rem_mod by lia; try done; try lia.
  - rewrite H5, Zplus_mod_idemp_l. f_equal. lia.
  - intros k r' Hk. destruct (H10 (S k) r' Hk) as (t' & Ht' & Hh). exists t'. split; [|done].
    rewrite Zplus_mod_idemp_l. by replace (q.(head_) + 1 + Z.of_nat k) with (q.(head_) + Z.of_nat (S k)) by lia.
Qed.

(** A task that is not waiting may change its descriptor and size. *)
Lemma ring_free m q ts blks items i t t' :
  ring m q ts blks items -> ts !! i = Some t -> t'.(wt_data_) = t.(wt_data_) -> t'.(wt_cap_) = t.(wt_cap_) ->
  (forall k, (k < length items)%nat -> Z.to_nat ((q.(head_) + Z.of_nat k) mod q.(length_)) <> i) ->
  ring m (set_taskq q (Some (<[i := t']> ts))) (<[i := t']> ts) blks items.
Proof.
  intros [H1 H2 H3 H4 H5 H6 H7 H8 Hcaps H9 H10] Ht Hd Hc Hfree.
  split; cbn [set_taskq taskq_ length_ head_ tail_ task_count_]; try done.
  - unfold zlen in *. by rewrite length_insert.
  - destruct (Forall2_lookup_l _ _ _ _ _ H8 Ht) as (b & Hb & Ho).
    rewrite <- (list_insert_id blks _ b Hb). apply Forall2_insert; [done|]. unfold owns in *. by rewrite Hd, Hc.
  - apply Forall_insert; [done|]. cbv beta. rewrite Hc. rewrite Forall_forall in Hcaps.
    apply Hcaps. by eapply list_elem_of_lookup_2.
  - intros k r Hk. destruct (H10 k r Hk) as (t1 & Ht1 & Hh). exists t1. split; [|done].
    rewrite list_lookup_insert_ne; [done|]. apply not_eq_sym, Hfree. by eapply lookup_lt_Some.
Qed.

(** The head is not among the waiting tasks after it. *)
Lemma ring_head_free m q ts blks r items k :
  ring m q ts blks (r :: items) -> (k < length items)%nat ->
  Z.to_nat (((pop q).2.(head_) + Z.of_nat k) mod (pop q).2.(length_)) <> Z.to_nat q.(head_).
Proof.
  intros [_ _ H3 H4 _ _ H7 _ _ _ _] Hk. rewrite zlen_cons in H7. cbn [pop snd set_head head_ length_].
  rewrite rem_mod, Zplus_mod_idemp_l by lia. intros E. unfold zlen in *.
  pose proof (Z.mod_pos_bound (q.(head_) + 1 + Z.of_nat k) q.(length_) ltac:(lia)).
  assert (0 = 1 + Z.of_nat k); [|lia]. apply (idx_inj q.(head_) q.(length_)); [lia|lia|].
  rewrite Z.add_0_r, (Z.mod_small q.(head_)), Z.add_assoc by lia. lia.
Qed.

(** A request at the end; its task takes over the buffer's block [b] and
    hands out its own. *)
Lemma ring_push m q ts blks items t b r i :
  ring m q ts blks items -> zlen items < q.(length_) - 1 -> i = Z.to_nat q.(tail_) ->
  b ∉ blks -> owns m t b -> cap_ok t.(wt_cap_) -> holds m t r ->
  ring m (set_taskq (set_tail q (Z.rem (q.(tail_) + 1) q.(length_)) (q.(task_count_) + 1)) (Some (<[i := t]> ts)))
       (<[i := t]> ts) (<[i := b]> blks) (items ++ [r]).
Proof.
  intros [H1 H2 H3 H4 H5 H6 H7 H8 Hcaps H9 H10] Hroom -> Hb Ho Hcap Hh. pose proof (zlen_nonneg items).
  pose proof (Z.mod_pos_bound (q.(head_) + zlen items) q.(length_) ltac:(lia)) as Hmod.
  assert (Hsnoc : zlen (items ++ [r]) = zlen items + 1) by (by rewrite zlen_app).
  split; cbn [set_taskq set_tail taskq_ length_ head_ tail_ task_count_]; rewrite ?rem_mod, ?Hsnoc by lia; try done; try lia.
  - unfold zlen in *. by rewrite length_insert.
  - rewrite H5, Zplus_mod_idemp_l. f_equal. lia.
  - by apply Forall2_insert.
  - by apply Forall_insert.
  - apply NoDup_alt. intros j k x Hj Hk.
    assert (Hi : (Z.to_nat (tail_ q) < length blks)%nat).
    { apply Forall2_length in H8. unfold zlen in *. rewrite <- H8. lia. }
    destruct (decide (j = Z.to_nat (tail_ q))) as [->|Hj'], (decide (k = Z.to_nat (tail_ q))) as [->|Hk']; [done| | |].
    + rewrite list_lookup_insert_eq in Hj by done. rewrite list_lookup_insert_ne in Hk by done.
      injection Hj as ->. exfalso. apply Hb. by eapply list_elem_of_lookup_2.
    + rewrite list_lookup_insert_eq in Hk by done. rewrite list_lookup_insert_ne in Hj by done.
      injection Hk as ->. exfalso. apply Hb. by eapply list_elem_of_lookup_2.
    + rewrite list_lookup_insert_ne in Hj, Hk by done. by eapply NoDup_lookup.
  - intros k r' Hk. destruct (decide (k = length items)) as [->|Hne].
    + rewrite list_lookup_middle in Hk by done. injection Hk as ->. exists t. split; [|done].
      change (Z.of_nat (length items)) with (zlen items). rewrite <- H5. apply list_lookup_insert_eq.
      unfold zlen in *. lia.
    + apply lookup_lt_Some in Hk as Hlt. rewrite length_app in Hlt. cbn in Hlt.
      rewrite lookup_app_l in Hk by lia. destruct (H10 k r' Hk) as (t' & Ht' & Hh'). exists t'. split; [|done].
      rewrite list_lookup_insert_ne; [done|]. rewrite H5. intros E.
      pose proof (Z.mod_pos_bound (q.(head_) + Z.of_nat k) q.(length_) ltac:(lia)). unfold zlen in *.
      assert (Z.of_nat (length items) = Z.of_nat k); [|lia].
      apply (idx_inj q.(head_) q.(length_)); lia.
Qed.

(** Changes of memory outside the ring's blocks. *)
Lemma ring_frame m m' q ts blks items :
  (forall x, x ∈ blks -> m'.(m_blocks) !! x = m.(m_blocks) !! x) ->
  ring m q ts blks items -> ring m' q ts blks items.
Proof.
  intros Hm [H1 H2 H3 H4 H5 H6 H7 H8 Hcaps H9 H10]. split; try done.
  - eapply Forall2_impl; [|intros t x H; exact H]. apply Forall2_same_length_lookup_2; [by eapply Forall2_length|].
    intros i t x Ht Hx. destruct (Forall2_lookup_lr _ _ _ _ _ _ H8 Ht Hx) as (Hd & l & Hl & Hc).
    split; [done|]. exists l. split; [|done]. rewrite Hm; [done|]. by eapply list_elem_of_lookup_2.
  - intros k r Hk. destruct (H10 k r Hk) as (t & Ht & Hfd & Hsz & b & l & Hd & Hb & Hl). exists t. split; [done|].
    split; [done|]. split; [done|]. exists b, l. split; [done|]. split; [|done].
    destruct (Forall2_lookup_l _ _ _ _ _ H8 Ht) as (b' & Hb' & (Hd' & _)). rewrite Hd in Hd'. injection Hd' as <-.
    rewrite Hm; [done|]. by eapply list_elem_of_lookup_2.
Qed.

Section Refinement.
Context {OS : Type} `{OSOps OS}.

(** The queue of a state, with the blocks it owns. *)
Definition q_rep (c : core OS) (blks : list Z) (items : list request) : Prop :=
  exists q ts, c.(k_queue) = Some q /\ ring c.(k_mem) q ts blks items.

Lemma _do_write_ok (c : core OS) fd data bytes b l :
  c.(k_ctx).(use_compression) = false -> data = Some (Ptr b 0) -> c.(k_mem).(m_blocks) !! b = Some l ->
  slice l 0 (zlen bytes) = Some <$> bytes ->
  _do_write fd data (zlen bytes) c = Ok (with_os c (os_fsync (os_write c.(k_os) fd bytes).2 fd)).
Proof.
  intros Hc -> Hb Hl. unfold _do_write. rewrite Hc.
  assert ((if zlen bytes =? 0 then Ok [] else p ← deref (Some (Ptr b 0)); load_bytes (k_mem c) p (Z.to_nat (zlen bytes)))
    = Ok bytes) as ->.
  { destruct (Z.eqb_spec (zlen bytes) 0) as [E|_].
    - destruct bytes; [done|]. unfold zlen in E. cbn in E. lia.
    - cbn [deref res_of_option]. rewrite bind_ok. unfold zlen at 1. rewrite Nat2Z.id. by eapply load_bytes_ok. }
  rewrite bind_ok. destruct (os_write (k_os c) fd bytes) as [n o]. rewrite bind_ok. done.
Qed.

(** The worker writes the oldest request. *)
Lemma work_once_ok (c : core OS) blks fd bytes items :
  c.(k_ctx).(use_compression) = false -> q_rep c blks ((fd, bytes) :: items) ->
  exists q', work_once c = Ok (with_queue (with_os c (os_fsync (os_write c.(k_os) fd bytes).2 fd)) (Some q')) /\
    (exists ts', ring c.(k_mem) q' ts' blks items) /\
    (forall q, c.(k_queue) = Some q -> q'.(length_) = q.(length_)).
Proof.
  intros Hc (q & ts & Hq & Hr). unfold work_once, get_queue. rewrite Hq. cbn [res_of_option]. rewrite bind_ok.
  destruct (rg_items _ _ _ _ _ Hr 0%nat _ eq_refl) as (t & Ht & (Hfd & Hsz & b & l & Hd & Hb & Hl)).
  pose proof (rg_head _ _ _ _ _ Hr) as Hh. rewrite Z.add_0_r, Z.mod_small in Ht by lia.
  unfold pop. cbn [fst snd] in *.
  rewrite (task_at_ok _ ts _ t); [|apply Hr|cbn; lia|done]. rewrite bind_ok.
  rewrite Hfd, Hsz, (_do_write_ok (with_queue c _) fd _ bytes b l) by done. rewrite bind_ok.
  cbn [with_queue with_os k_queue k_os k_mem k_ctx res_of_option]. rewrite bind_ok.
  rewrite (set_task_ok _ ts); [|apply Hr|rewrite (rg_len _ _ _ _ _ Hr); cbn; lia]. rewrite bind_ok.
  eexists. split; [done|]. split.
  - eexists. eapply (ring_free _ (pop q).2 ts blks items _ t); [by eapply ring_pop|done|done|done|].
    intros k Hk. by eapply ring_head_free.
  - intros q' [= <-]. done.
Qed.

(** The bytes in a buffer. *)
Definition buf_holds (m : mem) (tb : TLBuffer) (b : Z) (bytes : list Z) : Prop :=
  tb.(buf_) = Some (Ptr b 0) /\ tb.(size_) = zlen bytes /\ cap_ok tb.(capacity_) /\
  exists l, m.(m_blocks) !! b = Some l /\ zlen l = tb.(capacity_) /\ slice l 0 (zlen bytes) = Some <$> bytes.

(** A push that need not wait. *)
Lemma push_room_ok (c : core OS) q blks items tb b bytes :
  q_rep c blks items -> c.(k_queue) = Some q -> zlen items < q.(length_) - 1 ->
  buf_holds c.(k_mem) tb b bytes -> b ∉ blks ->
  exists tb' q' b' blks',
    push tb c = Ok (tb', with_queue c (Some q')) /\ q'.(length_) = q.(length_) /\
    q_rep (with_queue c (Some q')) blks' (items ++ [(tb.(trace_fd_), bytes)]) /\
    buf_holds c.(k_mem) tb' b' [] /\ (b' ∈ blks) /\ (b' ∉ blks') /\
    (forall x, (x ∈ blks') <-> x = b \/ (x ∈ blks /\ x <> b')) /\
    (exists p cap, tb' = set_buf_ (set_capacity_ (set_size_ tb 0) cap) p).
Proof.
  intros (q0 & ts & Hq & Hr) Hq' Hroom (Hb1 & Hb2 & Hbc & l & Hl1 & Hl2 & Hl3) Hnin. rewrite Hq in Hq'. injection Hq' as ->.
  unfold push, get_queue. rewrite Hq. cbn [res_of_option]. rewrite bind_ok.
  assert (wait_while_full (Z.to_nat (length_ q)) c = Ok c) as ->.
  { destruct (Z.to_nat (length_ q)); cbn [wait_while_full]; unfold get_queue; rewrite Hq; cbn [res_of_option];
      rewrite bind_ok, (ring_full Hr), (proj2 (Z.eqb_neq _ _)) by lia; done. }
  rewrite bind_ok, Hq. cbn [res_of_option]. rewrite bind_ok.
  destruct (ring_task Hr (q.(head_) + zlen items)) as (t & b' & Ht & Hb' & (Hd & lt & Hlt & Hcap) & Hbnd);
    [pose proof (zlen_nonneg items); pose proof (rg_head _ _ _ _ _ Hr); lia|].
  rewrite <- (rg_tail _ _ _ _ _ Hr) in Ht, Hb', Hbnd.
  rewrite (task_at_ok q ts _ t); [|apply Hr|lia|done]. rewrite bind_ok. cbv zeta. unfold load_with. cbv iota beta.
  rewrite (set_task_ok _ ts); [|apply Hr|rewrite (rg_len _ _ _ _ _ Hr); cbn; lia]. rewrite bind_ok.
  set (nt := mkWriteTask (trace_fd_ tb) (buf_ tb) (size_ tb) (capacity_ tb)).
  eexists _, _, b', (<[Z.to_nat q.(tail_) := b]> blks). split; [done|]. split; [done|]. split.
  { eexists _, _. split; [done|]. cbn [k_mem with_queue]. apply ring_push; try done.
    - split; [done|]. by exists l.
    - split; [done|]. split; [done|]. by exists b, l. }
  assert (Hnin' : b' ∉ <[Z.to_nat q.(tail_) := b]> blks).
  { intros Hin. apply list_elem_of_lookup in Hin as [j Hj].
    destruct (decide (j = Z.to_nat q.(tail_))) as [->|Hne].
    - rewrite list_lookup_insert_eq in Hj by (by eapply lookup_lt_Some). injection Hj as ->.
      apply Hnin. by eapply list_elem_of_lookup_2.
    - rewrite list_lookup_insert_ne in Hj by done. apply Hne. eapply NoDup_lookup; [apply Hr|done|done]. }
  split; [|split; [by eapply list_elem_of_lookup_2|split; [done|split; [|eexists _, _; done]]]].
  { split; [done|]. split; [done|]. split; [|by exists lt; rewrite slice_0].
    pose proof (rg_caps _ _ _ _ _ Hr) as Hcaps. rewrite Forall_forall in Hcaps. apply Hcaps. by eapply list_elem_of_lookup_2. }
  intros x. rewrite !list_elem_of_lookup. split.
  - intros [j Hj]. destruct (decide (j = Z.to_nat q.(tail_))) as [->|Hne].
    + rewrite list_lookup_insert_eq in Hj by (by eapply lookup_lt_Some). injection Hj as ->. by left.
    + rewrite list_lookup_insert_ne in Hj by done. right. split; [by exists j|]. intros ->.
      apply Hne. eapply NoDup_lookup; [apply Hr|done|done].
  - intros [->|[[j Hj] Hne]].
    + exists (Z.to_nat q.(tail_)). rewrite list_lookup_insert_eq by (by eapply lookup_lt_Some). done.
    + exists j. rewrite list_lookup_insert_ne; [done|]. intros E. rewrite E in Hb'. congruence.
Qed.

(** A push that finds the queue full is one that comes after the worker's
    next iteration. *)
Lemma push_full (c : core OS) q blks r items tb :
  c.(k_ctx).(use_compression) = false -> q_rep c blks (r :: items) -> c.(k_queue) = Some q ->
  zlen (r :: items) = q.(length_) - 1 ->
  exists c1, work_once c = Ok c1 /\ push tb c = push tb c1.
Proof.
  intros Hc Hrep Hq Hfull. destruct r as [fd bytes].
  destruct (work_once_ok c blks fd bytes items Hc Hrep) as (q' & E & (ts' & Hr') & Hlen). specialize (Hlen q Hq).
  eexists. split; [exact E|]. destruct Hrep as (q0 & ts & Hq0 & Hr). rewrite Hq in Hq0. injection Hq0 as <-.
  unfold push, get_queue. rewrite Hq. cbn [with_queue with_os k_queue res_of_option]. rewrite !bind_ok.
  pose proof (rg_pos _ _ _ _ _ Hr). rewrite zlen_cons in Hfull. pose proof (zlen_nonneg items).
  assert (Hroom : is_full q' = false) by (rewrite (ring_full Hr'), Hlen; apply Z.eqb_neq; lia).
  assert (Hw : forall n, wait_while_full n (with_queue (with_os c (os_fsync (os_write (k_os c) fd bytes).2 fd)) (Some q'))
    = Ok (with_queue (with_os c (os_fsync (os_write (k_os c) fd bytes).2 fd)) (Some q'))).
  { intros n. destruct n; cbn [wait_while_full]; unfold get_queue; cbn [with_queue k_queue res_of_option];
      rewrite bind_ok, Hroom; done. }
  destruct (Z.to_nat (length_ q)) as [|n] eqn:En; [lia|]. cbn [wait_while_full]. unfold get_queue at 1. rewrite Hq.
  cbn [res_of_option]. rewrite bind_ok, (ring_full Hr), (ring_empty Hr), zlen_cons.
  rewrite (proj2 (Z.eqb_eq (zlen items + 1) _)), (proj2 (Z.eqb_neq (zlen items + 1) 0)) by lia.
  rewrite E, bind_ok, !Hw. done.
Qed.

(** What is written for a list of requests; [drain] skips empty ones. *)
Definition write_out (o : OS) (r : request) : OS :=
  if 0 <? zlen r.2 then os_fsync (os_write o r.1 r.2).2 r.1 else o.

Lemma drain_ok (c : core OS) blks items fuel :
  c.(k_ctx).(use_compression) = false -> q_rep c blks items -> (length items <= fuel)%nat ->
  exists q', drain fuel c = Ok (with_queue (with_os c (foldl write_out c.(k_os) items)) (Some q')) /\
    exists ts', ring c.(k_mem) q' ts' blks [].
Proof.
  revert c items. induction fuel as [|fuel IH]; intros c items Hc (q & ts & Hq & Hr) Hf.
  - destruct items; [|cbn in Hf; lia]. cbn [drain]. unfold get_queue. rewrite Hq. cbn [res_of_option].
    rewrite bind_ok, (ring_empty Hr). exists q. split; [by destruct c; cbn in *; subst|by exists ts].
  - cbn [drain]. unfold get_queue. rewrite Hq. cbn [res_of_option]. rewrite bind_ok, (ring_empty Hr).
    destruct items as [|[fd bytes] items].
    + exists q. split; [by destruct c; cbn in *; subst|by exists ts].
    + rewrite zlen_cons, (proj2 (Z.eqb_neq _ _)) by (pose proof (zlen_nonneg items); lia).
      destruct (rg_items _ _ _ _ _ Hr 0%nat _ eq_refl) as (t & Ht & (Hfd & Hsz & b & l & Hd & Hb & Hl)).
      pose proof (rg_head _ _ _ _ _ Hr) as Hh. rewrite Z.add_0_r, Z.mod_small in Ht by lia.
      unfold pop. cbv iota beta. cbn [fst snd] in *. rewrite (task_at_ok _ ts _ t); [|apply Hr|cbn; lia|done].
      rewrite bind_ok, Hsz. cbn [foldl]. apply ring_pop in Hr as Hr'. unfold pop in Hr'. cbn [snd] in Hr'.
      set (q1 := set_head q (Z.rem (head_ q + 1) (length_ q)) (task_count_ q - 1)) in *.
      assert (Hstep : (if 0 <? zlen bytes then _do_write (wt_fd_ t) (wt_data_ t) (zlen bytes) (with_queue c (Some q1))
                       else Ok (with_queue c (Some q1))) =
        Ok (with_queue (with_os c (write_out c.(k_os) (fd, bytes))) (Some q1))).
      { unfold write_out. cbn [fst snd]. destruct (0 <? zlen bytes); [|by destruct c].
        rewrite Hfd. by rewrite (_do_write_ok (with_queue c (Some q1)) fd _ bytes b l). }
      rewrite Hstep, bind_ok.
      destruct (IH (with_queue (with_os c (write_out c.(k_os) (fd, bytes))) (Some q1)) items) as (q' & E & Hr2);
        [done|by exists q1, ts|cbn in Hf; lia|]. by exists q'.
Qed.

Lemma free_tasks_ok ts blks m :
  Forall2 (owns m) ts blks -> NoDup blks ->
  exists m', free_tasks ts m = Ok m' /\
    forall b, m'.(m_blocks) !! b = if decide (b ∈ blks) then None else m.(m_blocks) !! b.
Proof.
  revert blks m. induction ts as [|t ts IH]; intros blks m Ho Hn; inversion Ho as [|? b ? blks' (Hd & l & Hl & _) Ho']; subst.
  - exists m. split; [done|]. intros b. rewrite decide_False; [done|]. apply not_elem_of_nil.
  - apply NoDup_cons in Hn as [Hb Hn]. cbn [free_tasks]. rewrite Hd. unfold free, block_of. cbn [blk].
    rewrite Hl. cbn [res_of_option]. rewrite !bind_ok.
    destruct (IH blks' (Mem m.(m_next) (delete b m.(m_blocks)))) as (m' & E & Hm'); [|done|].
    { clear -Ho' Hb. induction Ho' as [|t' b' ts' blks' (Hd & l & Hl & Hc) _ IH]; [constructor|].
      apply not_elem_of_cons in Hb as [Hne Hb]. constructor; [|by apply IH].
      split; [done|]. exists l. split; [|done]. cbn. by rewrite lookup_delete_ne. }
    exists m'. split; [done|]. intros x. rewrite Hm'. cbn.
    destruct (decide (x = b)) as [->|Hne].
    + rewrite (decide_True (P := b ∈ b :: blks')) by (apply elem_of_cons; by left).
      rewrite decide_False by done. apply lookup_delete_eq.
    + rewrite lookup_delete_ne by done. destruct (decide (x ∈ blks')) as [Hin|Hout].
      * by rewrite decide_True by (apply elem_of_cons; by right).
      * by rewrite decide_False by (by apply not_elem_of_cons).
Qed.
End Refinement.

(** ** The queue at the start *)

Lemma owns_alloc m n t b : b < m.(m_next) -> owns m t b -> owns (alloc m n).2 t b.
Proof.
  intros Hb (Hd & l & Hl & Hc). split; [done|]. exists l. split; [|done]. cbn. rewrite lookup_insert_ne by lia. done.
Qed.

Lemma alloc_tasks_ok n sz m :
  0 <= sz ->
  exists ts m', alloc_tasks n sz m = (ts, m') /\ length ts = n /\
    Forall2 (owns m') ts (seqZ m.(m_next) (Z.of_nat n)) /\ Forall (fun t => t.(wt_cap_) = sz) ts /\ m'.(m_next) = m.(m_next) + Z.of_nat n /\
    (forall b, b < m.(m_next) -> m'.(m_blocks) !! b = m.(m_blocks) !! b).
Proof.
  intros Hs. revert m. induction n as [|n IH]; intros m; cbn [alloc_tasks].
  - exists [], m. split; [done|]. split; [done|]. split; [constructor|]. split; [constructor|]. split; [lia|done].
  - destruct (alloc m sz) as [p m1] eqn:Ea. unfold alloc in Ea. injection Ea as <- <-.
    destruct (IH (Mem (m_next m + 1) (<[m_next m := replicate (Z.to_nat sz) None]> (m_blocks m)))) as (ts & m' & -> & Hl & Ho & Hcs & Hn & Hf).
    cbn [m_next] in *. eexists _, m'. split; [done|]. split; [cbn; lia|]. split; [|split; [by constructor|split; [lia|]]].
    + rewrite seqZ_cons by lia. constructor.
      * split; [done|]. exists (replicate (Z.to_nat sz) None). cbn [wt_cap_]. rewrite zlen_replicate. split; [|lia].
        rewrite Hf by lia. cbn. apply lookup_insert_eq.
      * replace (Z.succ (m_next m)) with (m_next m + 1) by lia.
        by replace (Z.pred (Z.of_nat (S n))) with (Z.of_nat n) by lia.
    + intros b Hb. rewrite Hf by lia. cbn. rewrite lookup_insert_ne by lia. done.
Qed.

(** A fresh queue is empty and owns new blocks. *)
Lemma start_ok {OS} (c : core OS) len :
  1 <= len -> cap_ok c.(k_ctx).(tl_buf_size_) -> c.(k_ctx).(use_compression) = false ->
  q_rep (start len c) (seqZ c.(k_mem).(m_next) len) [].
Proof.
  intros Hl Hs Hc. unfold start, get_buf_size.
  destruct (alloc_tasks_ok (Z.to_nat len) c.(k_ctx).(tl_buf_size_) c.(k_mem) ltac:(unfold cap_ok in Hs; lia))
    as (ts & m' & -> & Hlen & Ho & Hcs & Hn & Hf).
  cbv zeta. cbn [with_mem k_ctx]. rewrite Hc. rewrite Z2Nat.id in * by lia.
  eexists _, ts. split; [done|]. cbn [with_queue with_mem k_mem].
  split; cbn; try done; try lia.
  - unfold zlen. lia.
  - change (zlen (@nil request)) with 0. lia.
  - eapply Forall_impl; [exact Hcs|]. by intros t ->.
  - apply NoDup_seqZ.
Qed.

(** ** Theorems *)

Lemma push_ok {OS} `{OSOps OS} (c : core OS) q blks items tb b bytes :
  c.(k_ctx).(use_compression) = false -> q_rep c blks items -> c.(k_queue) = Some q -> 2 <= q.(length_) ->
  buf_holds c.(k_mem) tb b bytes -> b ∉ blks ->
  exists c1 items1 tb' q' b' blks',
    (c1 = c /\ items1 = items \/ work_once c = Ok c1 /\ exists r, items = r :: items1) /\
    push tb c = Ok (tb', with_queue c1 (Some q')) /\ q'.(length_) = q.(length_) /\
    q_rep (with_queue c1 (Some q')) blks' (items1 ++ [(tb.(trace_fd_), bytes)]) /\
    buf_holds c1.(k_mem) tb' b' [] /\ (b' ∉ blks') /\
    (forall x, (x ∈ blks') <-> x = b \/ (x ∈ blks /\ x <> b')) /\ (b' ∈ blks) /\
    (exists p cap, tb' = set_buf_ (set_capacity_ (set_size_ tb 0) cap) p).
Proof.
  intros Hc Hrep Hq Hl Hbuf Hnin. pose proof Hrep as (q0 & ts & Hq0 & Hr). rewrite Hq in Hq0. injection Hq0 as <-.
  destruct (Z.eq_dec (zlen items) (q.(length_) - 1)) as [Hfull|Hroom].
  - destruct items as [|[fd bs] items]; [unfold zlen in Hfull; cbn in Hfull; lia|].
    destruct (work_once_ok c blks fd bs items Hc Hrep) as (q1 & E & (ts1 & Hr1) & Hlen). specialize (Hlen q Hq).
    destruct (push_full c q blks (fd, bs) items tb Hc Hrep Hq Hfull) as (c1 & E1 & Ep). rewrite E in E1. injection E1 as <-.
    rewrite zlen_cons in Hfull.
    destruct (push_room_ok (with_queue (with_os c (os_fsync (os_write (k_os c) fd bs).2 fd)) (Some q1)) q1 blks items tb b bytes)
      as (tb' & q' & b' & blks' & E2 & Hl2 & Hrep' & Hbuf' & Hin' & Hnin' & Hset & Etb);
      [by exists q1, ts1|done|lia|done|done|].
    eexists _, items, tb', q', b', blks'. split; [right; split; [exact E|by eexists]|].
    rewrite Ep, E2. split; [done|]. split; [lia|]. done.
  - pose proof (rg_room _ _ _ _ _ Hr).
    destruct (push_room_ok c q blks items tb b bytes) as (tb' & q' & b' & blks' & E2 & Hl2 & Hrep' & Hbuf' & Hin' & Hnin' & Hset & Etb);
      [done|done|lia|done|done|].
    eexists c, items, tb', q', b', blks'. split; [by left|]. done.
Qed.

(** A state to try the theorems on: a queue of three tasks of 64 bytes, and
    a buffer with two bytes for descriptor 5. *)
Definition demo_ctx : UFOContext :=
  mkUFOContext false 1 1 false 0 64 0 0 true false false false false (Ptr 0 0) 0 0 true false 3.

Definition demo_mem : mem := Mem 1 {[0 := Some 65 :: Some 66 :: replicate 62 None]}.

Definition demo_core : core sim :=
  start 3 (Core demo_mem (Sim ∅ ∅ ∅ ∅ (0, 0) 1 (0, 0, 0, 0) [] ∅ 1000) demo_ctx None None 0 0).

Definition demo_queue : OutQueue :=
  mkOutQueue 3 (Some [mkWriteTask (-1) (Some (Ptr 1 0)) 0 64; mkWriteTask (-1) (Some (Ptr 2 0)) 0 64;
                      mkWriteTask (-1) (Some (Ptr 3 0)) 0 64]) 0 0 0 true.

Definition demo_buf : TLBuffer := mkTLBuffer (Some (Ptr 0 0)) 2 64 5 0 0 0 0 0 0.

Lemma demo_rep : q_rep demo_core [1; 2; 3] [].
Proof. apply (start_ok (Core demo_mem _ demo_ctx None None 0 0) 3); [lia|unfold cap_ok; cbn; lia|done]. Qed.

Lemma demo_holds : buf_holds demo_core.(k_mem) demo_buf 0 [65; 66].
Proof.
  split; [done|]. split; [done|]. split; [unfold cap_ok; cbn; lia|].
  exists (Some 65 :: Some 66 :: replicate 62 None). split; [reflexivity|]. split; reflexivity.
Qed.

(** The same with the buffer's bytes waiting. *)
Definition demo_pushed : core sim :=
  match push demo_buf demo_core with Ok (_, c) => c | Err _ => demo_core end.

Lemma demo_pushed_rep : q_rep demo_pushed [0; 2; 3] [(5, [65; 66])].
Proof.
  eexists (mkOutQueue 3 (Some [mkWriteTask 5 (Some (Ptr 0 0)) 2 64; mkWriteTask (-1) (Some (Ptr 2 0)) 0 64;
                      mkWriteTask (-1) (Some (Ptr 3 0)) 0 64]) 0 1 1 true), _.
  split; [vm_compute; reflexivity|]. split; cbn [length_ head_ tail_ task_count_ taskq_].
  - reflexivity.
  - reflexivity.
  - lia.
  - lia.
  - reflexivity.
  - reflexivity.
  - vm_compute. discriminate.
  - repeat (constructor; [split; [reflexivity|]; eexists; split; [vm_compute; reflexivity|reflexivity]|]). constructor.
  - repeat (constructor; [unfold cap_ok; cbn; lia|]). constructor.
  - apply (bool_decide_unpack _). vm_compute. exact I.
  - intros [|[|k]] r Hk; try done. injection Hk as <-. eexists. split; [reflexivity|].
    split; [done|]. split; [done|]. eexists _, _. split; [done|]. split; [vm_compute; reflexivity|reflexivity].
Qed.

(** Pushing enqueues.  In a queue of length two or more that holds the
    requests [items], and for a buffer whose block is not one of the queue's,
    [push] hands the buffer's bytes to the end of the queue and leaves the
    caller an empty buffer that is no longer the queue's, of full capacity;
    nothing is written.  If the ring is full, it does so once the worker has
    written the oldest request. *)
Theorem push_enqueues {OS} `{OSOps OS} (c : core OS) (q : OutQueue) (blks : list Z) (items : list request)
    (tb : TLBuffer) (b : Z) (bytes : list Z) :
  c.(k_ctx).(use_compression) = false -> q_rep c blks items -> c.(k_queue) = Some q -> 2 <= q.(length_) ->
  buf_holds c.(k_mem) tb b bytes -> b ∉ blks ->
  exists c1 items1 tb' q' b' blks',
    (c1 = c /\ items1 = items \/ work_once c = Ok c1 /\ exists r, items = r :: items1) /\
    push tb c = Ok (tb', with_queue c1 (Some q')) /\
    q_rep (with_queue c1 (Some q')) blks' (items1 ++ [(tb.(trace_fd_), bytes)]) /\
    buf_holds c1.(k_mem) tb' b' [] /\ (b' ∉ blks') /\ tb'.(trace_fd_) = tb.(trace_fd_).
Proof.
  intros Hc Hrep Hq Hl Hbuf Hnin.
  destruct (push_ok c q blks items tb b bytes Hc Hrep Hq Hl Hbuf Hnin)
    as (c1 & items1 & tb' & q' & b' & blks' & H1 & H2 & _ & H3 & H4 & H5 & _ & _ & (p & cap & ->)).
  by exists c1, items1, (set_buf_ (set_capacity_ (set_size_ tb 0) cap) p), q', b', blks'.
Qed.

Lemma push_enqueues_witness :
  exists c1 items1 tb' q' b' blks',
    (c1 = demo_core /\ items1 = [] \/ work_once demo_core = Ok c1 /\ exists r, [] = r :: items1) /\
    push demo_buf demo_core = Ok (tb', with_queue c1 (Some q')) /\
    q_rep (with_queue c1 (Some q')) blks' (items1 ++ [(5, [65; 66])]) /\
    buf_holds c1.(k_mem) tb' b' [] /\ (b' ∉ blks') /\ tb'.(trace_fd_) = 5.
Proof.
  apply (push_enqueues demo_core demo_queue [1; 2; 3] [] demo_buf 0 [65; 66]).
  - reflexivity.
  - apply demo_rep.
  - reflexivity.
  - vm_compute. discriminate.
  - apply demo_holds.
  - apply (bool_decide_unpack _). vm_compute. exact I.
Defined.

(** The worker dequeues.  One iteration writes the whole oldest request to
    its descriptor with a single write, then syncs it; the others keep their
    order, no memory changes, and the ring's blocks stay the same. *)
Theorem worker_dequeues {OS} `{OSOps OS} (c : core OS) (blks : list Z) (fd : Z) (bytes : list Z) (items : list request) :
  c.(k_ctx).(use_compression) = false -> q_rep c blks ((fd, bytes) :: items) ->
  exists c', work_once c = Ok c' /\ q_rep c' blks items /\
    c'.(k_os) = os_fsync (os_write c.(k_os) fd bytes).2 fd /\ c'.(k_mem) = c.(k_mem) /\ c'.(k_ctx) = c.(k_ctx).
Proof.
  intros Hc Hrep. destruct (work_once_ok c blks fd bytes items Hc Hrep) as (q' & E & (ts' & Hr) & _).
  eexists. split; [exact E|]. split; [|done]. by exists q', ts'.
Qed.

Lemma worker_dequeues_witness :
  exists c', work_once demo_pushed = Ok c' /\ q_rep c' [0; 2; 3] [] /\
    c'.(k_os) = os_fsync (os_write demo_pushed.(k_os) 5 [65; 66]).2 5 /\
    c'.(k_mem) = demo_pushed.(k_mem) /\ c'.(k_ctx) = demo_pushed.(k_ctx).
Proof. apply (worker_dequeues demo_pushed [0; 2; 3] 5 [65; 66] []); [reflexivity|apply demo_pushed_rep]. Defined.

Lemma stop_ok {OS} `{OSOps OS} (c : core OS) (blks : list Z) (items : list request) :
  c.(k_ctx).(use_compression) = false -> q_rep c blks items ->
  exists c', stop c = Ok c' /\ c'.(k_os) = foldl write_out c.(k_os) items /\
    (forall b, c'.(k_mem).(m_blocks) !! b = if decide (b ∈ blks) then None else c.(k_mem).(m_blocks) !! b) /\ c'.(k_ctx) = c.(k_ctx).
Proof.
  intros Hc (q & ts & Hq & Hr). unfold stop, get_queue. rewrite Hq. cbn [res_of_option]. rewrite bind_ok.
  destruct (drain_ok (with_queue c (Some (set_continue q false))) blks items (Z.to_nat q.(length_))) as (q' & E & ts' & Hr');
    [done| |pose proof (rg_room _ _ _ _ _ Hr); unfold zlen in *; lia|].
  { exists (set_continue q false), ts. split; [done|]. by destruct Hr. }
  rewrite E, bind_ok. cbn [with_queue with_os k_os k_mem k_ctx] in *. unfold release_mem, get_queue.
  cbn [with_queue with_os k_os k_mem k_ctx k_queue res_of_option]. rewrite bind_ok, (rg_tasks _ _ _ _ _ Hr').
  rewrite <- (rg_len _ _ _ _ _ Hr'), ztake_zlen.
  destruct (free_tasks_ok ts' blks c.(k_mem) (rg_own _ _ _ _ _ Hr') (rg_nodup _ _ _ _ _ Hr')) as (m' & -> & Hm').
  rewrite bind_ok. cbn [with_mem k_ctx with_queue with_os]. rewrite Hc. eexists. split; [done|]. by split.
Qed.

(** C33: stopping loses nothing.  In a run without compression, [stop] hands the
    requests that still wait to [write], oldest first, and gives back every data block of the ring and nothing
    else. *)
Theorem stop_writes_all {OS} `{OSOps OS} (c : core OS) (blks : list Z) (items : list request) :
  c.(k_ctx).(use_compression) = false -> q_rep c blks items ->
  exists c', stop c = Ok c' /\ c'.(k_os) = foldl write_out c.(k_os) items /\
    forall b, c'.(k_mem).(m_blocks) !! b = if decide (b ∈ blks) then None else c.(k_mem).(m_blocks) !! b.
Proof. intros Hc Hq. destruct (stop_ok c blks items Hc Hq) as (c' & H1 & H2 & H3 & _). by exists c'. Qed.

Lemma stop_writes_all_witness :
  exists c', stop demo_pushed = Ok c' /\ c'.(k_os) = foldl write_out demo_pushed.(k_os) [(5, [65; 66])] /\
    forall b, c'.(k_mem).(m_blocks) !! b =
      if decide (b ∈ [0; 2; 3]) then None else demo_pushed.(k_mem).(m_blocks) !! b.
Proof. apply (stop_writes_all demo_pushed [0; 2; 3] [(5, [65; 66])]); [reflexivity|apply demo_pushed_rep]. Defined.

(** A queue of length one, which the configuration accepts, can never be
    used: it is full while it is empty, and the first [push] waits for
    ever. *)
Theorem length_one_hangs {OS} `{OSOps OS} (c : core OS) (tb : TLBuffer) : push tb (start 1 c) = Err EHang.
Proof.
  unfold start. cbn [alloc_tasks Z.to_nat Pos.to_nat Pos.iter_op alloc].
  destruct (c.(k_ctx).(use_compression)) eqn:E; cbn; rewrite ?E; cbn; done.
Qed.

(** ** Threads

    The same queue as concurrent threads: each step is one action of a
    thread, on the mutex, a condition variable or, under the mutex, the
    queue.  A thread in [..Wait] has decided to wait and still holds the
    mutex; [pthread_cond_wait] releases it and sleeps in one step, and a
    signal wakes a sleeper if there is one and is lost otherwise.  Waking up
    for no reason is allowed, as POSIX does.  The ring is the list of its
    requests, which the theorems above justify. *)
Module Threads.

(** [_work_loop], by line. *)
Inductive wpc : Type :=
| WTop | WLock | WEmpty | WStarted | WWait | WSleep | WAwake | WPop | WWrite (r : request) | WNotify | WUnlock
| WQuit | WDone.

(** [push] *)
Inductive ppc : Type := PLock | PFull | PWait | PSleep | PAwake | PPush | PNotify | PUnlock | PDone.

(** [stop] *)
Inductive spc : Type := SStore | SSignal | SJoin | SLock | SDrain | SUnlock | SDone.

Inductive who : Type := Worker | Producer (i : nat) | Stopper.

Record state := State {
  t_len : Z;
  t_queue : list request;
  (** all that was pushed, and all that was written, in order *)
  t_pushed : list request;
  t_written : list request;
  t_continue : bool;
  t_holder : option who;
  t_worker : wpc;
  t_prods : list (ppc * request);
  t_stop : spc }.

(** Producers that are about to push their requests. *)
Definition init (len : Z) (rs : list request) : state :=
  State len [] [] [] true None WTop ((fun r => (PLock, r)) <$> rs) SStore.

Definition full (st : state) : bool := zlen st.(t_queue) =? st.(t_len) - 1.

(** [pthread_cond_signal] on [cond_not_empty_], where only the worker waits *)
Definition signal_worker (w : wpc) : wpc := match w with WSleep => WAwake | _ => w end.

Inductive step : state -> state -> Prop :=
(* the worker *)
| w_top len q pu wr h ps s :
    step (State len q pu wr true h WTop ps s) (State len q pu wr true h WLock ps s)
| w_leave len q pu wr h ps s :
    step (State len q pu wr false h WTop ps s) (State len q pu wr false h WDone ps s)
| w_lock len q pu wr c ps s :
    step (State len q pu wr c None WLock ps s) (State len q pu wr c (Some Worker) WEmpty ps s)
| w_empty len pu wr c h ps s :
    step (State len [] pu wr c h WEmpty ps s) (State len [] pu wr c h WStarted ps s)
| w_not_empty len r q pu wr c h ps s :
    step (State len (r :: q) pu wr c h WEmpty ps s) (State len (r :: q) pu wr c h WPop ps s)
| w_started len q pu wr h ps s :
    step (State len q pu wr true h WStarted ps s) (State len q pu wr true h WWait ps s)
| w_stopped len q pu wr h ps s :
    step (State len q pu wr false h WStarted ps s) (State len q pu wr false h WQuit ps s)
| w_wait len q pu wr c h ps s :
    step (State len q pu wr c h WWait ps s) (State len q pu wr c None WSleep ps s)
| w_spurious len q pu wr c h ps s :
    step (State len q pu wr c h WSleep ps s) (State len q pu wr c h WAwake ps s)
| w_relock len q pu wr c ps s :
    step (State len q pu wr c None WAwake ps s) (State len q pu wr c (Some Worker) WEmpty ps s)
| w_pop len r q pu wr c h ps s :
    step (State len (r :: q) pu wr c h WPop ps s) (State len q pu wr c h (WWrite r) ps s)
| w_write len q pu wr c h r ps s :
    step (State len q pu wr c h (WWrite r) ps s) (State len q pu (wr ++ [r]) c h WNotify ps s)
| w_notify_one len q pu wr c h ps s i r :
    ps !! i = Some (PSleep, r) ->
    step (State len q pu wr c h WNotify ps s) (State len q pu wr c h WUnlock (<[i := (PAwake, r)]> ps) s)
| w_notify_none len q pu wr c h ps s :
    (forall i r, ps !! i <> Some (PSleep, r)) ->
    step (State len q pu wr c h WNotify ps s) (State len q pu wr c h WUnlock ps s)
| w_unlock len q pu wr c h ps s :
    step (State len q pu wr c h WUnlock ps s) (State len q pu wr c None WTop ps s)
| w_quit len q pu wr c h ps s :
    step (State len q pu wr c h WQuit ps s) (State len q pu wr c None WDone ps s)
(* a producer *)
| p_lock len q pu wr c w ps s i r :
    ps !! i = Some (PLock, r) ->
    step (State len q pu wr c None w ps s) (State len q pu wr c (Some (Producer i)) w (<[i := (PFull, r)]> ps) s)
| p_full len q pu wr c h w ps s i r :
    ps !! i = Some (PFull, r) -> zlen q = len - 1 ->
    step (State len q pu wr c h w ps s) (State len q pu wr c h w (<[i := (PWait, r)]> ps) s)
| p_room len q pu wr c h w ps s i r :
    ps !! i = Some (PFull, r) -> zlen q <> len - 1 ->
    step (State len q pu wr c h w ps s) (State len q pu wr c h w (<[i := (PPush, r)]> ps) s)
| p_wait len q pu wr c h w ps s i r :
    ps !! i = Some (PWait, r) ->
    step (State len q pu wr c h w ps s) (State len q pu wr c None w (<[i := (PSleep, r)]> ps) s)
| p_spurious len q pu wr c h w ps s i r :
    ps !! i = Some (PSleep, r) ->
    step (State len q pu wr c h w ps s) (State len q pu wr c h w (<[i := (PAwake, r)]> ps) s)
| p_relock len q pu wr c w ps s i r :
    ps !! i = Some (PAwake, r) ->
    step (State len q pu wr c None w ps s) (State len q pu wr c (Some (Producer i)) w (<[i := (PFull, r)]> ps) s)
| p_push len q pu wr c h w ps s i r :
    ps !! i = Some (PPush, r) ->
    step (State len q pu wr c h w ps s)
         (State len (q ++ [r]) (pu ++ [r]) wr c h w (<[i := (PNotify, r)]> ps) s)
| p_notify len q pu wr c h w ps s i r :
    ps !! i = Some (PNotify, r) ->
    step (State len q pu wr c h w ps s) (State len q pu wr c h (signal_worker w) (<[i := (PUnlock, r)]> ps) s)
| p_unlock len q pu wr c h w ps s i r :
    ps !! i = Some (PUnlock, r) ->
    step (State len q pu wr c h w ps s) (State len q pu wr c None w (<[i := (PDone, r)]> ps) s)
(* the thread that stops the queue; it does not take the mutex to signal *)
| s_store len q pu wr c h w ps :
    step (State len q pu wr c h w ps SStore) (State len q pu wr false h w ps SSignal)
| s_signal len q pu wr c h w ps :
    step (State len q pu wr c h w ps SSignal) (State len q pu wr c h (signal_worker w) ps SJoin)
| s_join len q pu wr c h ps :
    step (State len q pu wr c h WDone ps SJoin) (State len q pu wr c h WDone ps SLock)
| s_lock len q pu wr c w ps :
    step (State len q pu wr c None w ps SLock) (State len q pu wr c (Some Stopper) w ps SDrain)
| s_drain len r q pu wr c h w ps :
    step (State len (r :: q) pu wr c h w ps SDrain) (State len q pu (wr ++ [r]) c h w ps SDrain)
| s_drained len pu wr c h w ps :
    step (State len [] pu wr c h w ps SDrain) (State len [] pu wr c h w ps SUnlock)
| s_unlock len q pu wr c h w ps :
    step (State len q pu wr c h w ps SUnlock) (State len q pu wr c None w ps SDone).

(** Which program points hold the mutex. *)
Definition w_holds (w : wpc) : bool :=
  match w with
  | WEmpty | WStarted | WWait | WPop | WWrite _ | WNotify | WUnlock | WQuit => true
  | _ => false
  end.
Definition p_holds (p : ppc) : bool :=
  match p with PFull | PWait | PPush | PNotify | PUnlock => true | _ => false end.
Definition s_holds (s : spc) : bool := match s with SDrain | SUnlock => true | _ => false end.

Definition in_flight (w : wpc) : list request := match w with WWrite r => [r] | _ => [] end.

Record inv (st : state) : Prop := {
  i_worker : w_holds st.(t_worker) = true <-> st.(t_holder) = Some Worker;
  i_prods : forall i p r, st.(t_prods) !! i = Some (p, r) -> (p_holds p = true <-> st.(t_holder) = Some (Producer i));
  i_holder : forall i, st.(t_holder) = Some (Producer i) -> is_Some (st.(t_prods) !! i);
  i_stop : s_holds st.(t_stop) = true <-> st.(t_holder) = Some Stopper;
  i_fifo : st.(t_pushed) = st.(t_written) ++ in_flight st.(t_worker) ++ st.(t_queue);
  i_room : zlen st.(t_queue) <= st.(t_len) - 1;
  i_pop : st.(t_worker) = WPop -> st.(t_queue) <> [];
  i_push : forall i r, st.(t_prods) !! i = Some (PPush, r) -> zlen st.(t_queue) < st.(t_len) - 1;
  i_joined : match st.(t_stop) with SLock | SDrain | SUnlock | SDone => st.(t_worker) = WDone | _ => True end;
  i_drained : st.(t_stop) = SUnlock -> st.(t_queue) = []
}.

Lemma insert_cases {A} (l : list A) i x j y :
  <[i := x]> l !! j = Some y -> j = i /\ y = x \/ j <> i /\ l !! j = Some y.
Proof.
  intros H. destruct (decide (j = i)) as [->|Hne]; [left|right].
  - apply lookup_lt_Some in H as Hlt. rewrite length_insert in Hlt.
    rewrite list_lookup_insert_eq in H by done. by injection H as <-.
  - by rewrite list_lookup_insert_ne in H.
Qed.

Lemma insert_is_Some {A} (l : list A) i x j : is_Some (l !! j) -> is_Some (<[i := x]> l !! j).
Proof. rewrite !lookup_lt_is_Some. by rewrite length_insert. Qed.

(** Looks up a producer after an update. *)
Ltac upd_prods :=
  repeat match goal with
  | H : <[_ := _]> _ !! _ = Some _ |- _ =>
      apply insert_cases in H as [[? ?]|[? ?]]; simplify_eq
  end.

(** What a thread at its program point knows of the holder. *)
Ltac holder_facts :=
  repeat match goal with
  | Hp : (forall i p r, ?ps !! i = Some (p, r) -> _), H : ?ps !! ?i = Some (?p, ?r) |- _ =>
      lazymatch goal with
      | _ : p_holds p = true <-> _ |- _ => fail
      | _ => pose proof (Hp i p r H)
      end
  end.

Lemma init_inv len rs : 1 <= len -> inv (init len rs).
Proof.
  intros Hl. split; cbn; try done.
  - intros i p r. rewrite list_lookup_fmap. destruct (rs !! i); cbn; [|done]. by intros [= <- <-].
  - unfold zlen. cbn. lia.
  - intros i r. rewrite list_lookup_fmap. destruct (rs !! i); cbn; [|done]. done.
Qed.

Lemma step_mutex st st' :
  step st st' -> inv st ->
  (w_holds st'.(t_worker) = true <-> st'.(t_holder) = Some Worker) /\
  (forall i p r, st'.(t_prods) !! i = Some (p, r) -> (p_holds p = true <-> st'.(t_holder) = Some (Producer i))) /\
  (forall i, st'.(t_holder) = Some (Producer i) -> is_Some (st'.(t_prods) !! i)) /\
  (s_holds st'.(t_stop) = true <-> st'.(t_holder) = Some Stopper).
Proof.
  intros Hs [Hw Hp Hh Hst _ _ _ _ _ _]. destruct Hs; cbn in *;
    (split; [|split; [intros j p' r' Hj|split; [intros j Hj|]]]);
    upd_prods; holder_facts; cbn in *;
    try (apply insert_is_Some); eauto;
    try (destruct w; cbn in *; intuition congruence); try (intuition congruence);
    injection Hj as ->; by eexists.
Qed.

Lemma signal_in_flight w : in_flight (signal_worker w) = in_flight w.
Proof. by destruct w. Qed.

Lemma signal_pop w : signal_worker w = WPop -> w = WPop.
Proof. by destruct w. Qed.

Lemma signal_done w : w = WDone -> signal_worker w = WDone.
Proof. by intros ->. Qed.

Lemma step_queue st st' :
  step st st' -> inv st ->
  st'.(t_pushed) = st'.(t_written) ++ in_flight st'.(t_worker) ++ st'.(t_queue) /\
  zlen st'.(t_queue) <= st'.(t_len) - 1 /\
  (st'.(t_worker) = WPop -> st'.(t_queue) <> []) /\
  (forall i r, st'.(t_prods) !! i = Some (PPush, r) -> zlen st'.(t_queue) < st'.(t_len) - 1).
Proof.
  intros Hs [Hw Hp Hh Hst Hf Hroom Hpop Hpush Hdone _]. destruct Hs; cbn in *; subst;
    rewrite ?signal_in_flight, ?zlen_app, ?zlen_cons, <- ?app_assoc in *; cbn;
    (split; [try done|split; [|split; [intros HP|intros j r' Hj]]]);
    upd_prods; holder_facts; cbn in *; eauto; try lia; try done.
  all: try (apply signal_pop in HP; by apply Hpop).
  all: try (subst; intuition congruence).
  - specialize (Hpush i r H). change (zlen (@nil request)) with 0. lia.
  - pose proof (Hp i _ _ H) as [Hi _]. pose proof (Hp j _ _ H1) as [Hj _]. specialize (Hi eq_refl). specialize (Hj eq_refl).
    congruence.
Qed.

Lemma step_inv st st' : step st st' -> inv st -> inv st'.
Proof.
  intros Hs Hi. destruct (step_mutex st st' Hs Hi) as (H1 & H2 & H3 & H4).
  destruct (step_queue st st' Hs Hi) as (H5 & H6 & H7 & H8). split; try done.
  - destruct Hi as [_ _ _ _ _ _ _ _ Hdone _]. clear -Hs Hdone.
    destruct Hs; cbn in *; repeat case_match; try done; by apply signal_done.
  - destruct Hi as [_ Hp _ Hst _ _ _ _ _ Hdr]. intros E. clear -Hs Hdr E Hst Hp.
    destruct Hs; cbn in *; subst; holder_facts; cbn in *; intuition congruence.
Qed.

(** C18: the queue's threads.  Whatever the interleaving of the worker, the
    producers and the thread that stops the queue, at most one of them is in
    its critical section; the ring never holds more than [length_ - 1]
    requests; the requests are written in the order in which they were pushed;
    and when [stop] has drained the queue, everything pushed is written. *)
Theorem queue_threads_safe (len : Z) (rs : list request) (st : state) :
  1 <= len -> star step (init len rs) st ->
  (w_holds st.(t_worker) = true -> s_holds st.(t_stop) = false /\
     forall i p r, st.(t_prods) !! i = Some (p, r) -> p_holds p = false) /\
  (forall i j p p' r r', st.(t_prods) !! i = Some (p, r) -> st.(t_prods) !! j = Some (p', r') ->
     p_holds p = true -> p_holds p' = true -> i = j) /\
  zlen st.(t_queue) <= len - 1 /\
  st.(t_pushed) = st.(t_written) ++ in_flight st.(t_worker) ++ st.(t_queue) /\
  (st.(t_stop) = SUnlock -> st.(t_written) = st.(t_pushed)).
Proof.
  intros Hl Hs. assert (Hi : inv st /\ st.(t_len) = len).
  { apply (star_invariant step (fun s => inv s /\ s.(t_len) = len)) with (s := init len rs);
      [|done|split; [by apply init_inv|done]].
    intros s1 s2 [Hi Hlen] H12. split; [by eapply step_inv|]. by destruct H12. }
  destruct Hi as [[Hw Hp Hh Hst Hf Hroom Hpop Hpush Hdone Hdr] Hlen]. rewrite Hlen in *. split; [|split; [|split; [done|split; [done|]]]].
  - intros E. apply Hw in E. split.
    + destruct (s_holds (t_stop st)); [|done]. pose proof (proj1 Hst eq_refl). congruence.
    + intros i p r Hlk. specialize (Hp i p r Hlk). destruct (p_holds p); [|done]. pose proof (proj1 Hp eq_refl). congruence.
  - intros i j p p' r r' Hi Hj Pi Pj. apply (Hp i p r Hi) in Pi. apply (Hp j p' r' Hj) in Pj. congruence.
  - intros E. rewrite E in Hdone. rewrite Hf, Hdone, (Hdr E). cbn. by rewrite app_nil_r.
Qed.

Lemma queue_threads_safe_witness :
  let st := State 2 [(3, [7])] [(3, [7])] [] true (Some (Producer 0)) WLock [(PNotify, (3, [7]))] SStore in
  star step (init 2 [(3, [7])]) st /\ st.(t_pushed) = st.(t_written) ++ in_flight st.(t_worker) ++ st.(t_queue).
Proof.
  intros st.
  assert (Hs : star step (init 2 [(3, [7])]) st).
  { eapply star_step; [apply w_top|]. eapply star_step; [apply (p_lock _ _ _ _ _ _ _ _ 0%nat (3, [7])); reflexivity|].
    eapply star_step; [apply (p_room _ _ _ _ _ _ _ _ _ 0%nat (3, [7])); [reflexivity|done]|].
    eapply star_step; [apply (p_push _ _ _ _ _ _ _ _ _ 0%nat (3, [7])); reflexivity|]. apply star_refl. }
  split; [exact Hs|]. exact (proj1 (proj2 (proj2 (proj2 (queue_threads_safe 2 [(3, [7])] st ltac:(lia) Hs))))).
Defined.

(** C40: [stop] can wait for ever.  It signals the worker without the mutex:
    between the worker's test of [continue_] and its wait the signal is lost,
    the worker sleeps, and [pthread_join] waits for it.  In the state reached
    no thread can take a step, unless the worker wakes up for no reason. *)
Theorem stop_can_hang :
  exists st, star step (init 2 []) st /\ st.(t_worker) = WSleep /\ st.(t_stop) = SJoin /\
    st.(t_continue) = false /\ (forall st', step st st' -> st'.(t_worker) = WAwake).
Proof.
  exists (State 2 [] [] [] false None WSleep [] SJoin). split; [|split; [done|split; [done|split; [done|]]]].
  - eapply star_step; [apply w_top|]. eapply star_step; [apply w_lock|]. eapply star_step; [apply w_empty|].
    eapply star_step; [apply w_started|]. eapply star_step; [apply s_store|]. eapply star_step; [apply s_signal|].
    eapply star_step; [apply w_wait|]. apply star_refl.
  - intros st' Hs. inversion Hs; subst; try done.
Qed.
End Threads.
