(* ===== verification/TLBuffer.v ===== *)
(** * Trace buffers

    Models [src/ufo-rt/lib/tsan/rtl/ufo/tlbuffer.h] and [tlbuffer.cc]: the
    buffer of a traced thread, its trace file, and [put_event].  A method is a
    function of the buffer, its index [tid] ([this - G_BUF_BASE]) and the
    shared state.

    The stream of a buffer is what its file will contain once everything is
    written: the file's contents, the requests for it that wait in the output
    queue, and the bytes in the buffer.  Shown: [put_event] appends exactly the
    bytes of the event to the stream, whether it has to flush or not and with
    the queue or without; the worker leaves streams as they are; [finish]
    writes the stream out if no request waits, and out of order if one does;
    file names of thread ids with four digits collide. *)
From Stdlib Require Import ZArith Lia String.
From stdpp Require Import base numbers list gmap.
From S2P Require Import Prelude Memory Events LibC Printf SnappyBits SnappyCompress SnappyDecompress State IOQueue.

Local Open Scope Z_scope.

Section Buffer.
Context {OS : Type} `{OSOps OS}.

Definition get_bytes (m : mem) (data : option ptr) (len : Z) : res (list Z) :=
  if len =? 0 then Ok [] else p ← deref data; load_bytes m p (Z.to_nat len).

(** A failed write is ignored. *)
Definition ___w (fd : Z) (data : option ptr) (len : Z) (c : core OS) : res (core OS) :=
  bytes ← get_bytes c.(k_mem) data len;
  let '(ret, o) := os_write c.(k_os) fd bytes in Ok (with_os c o).

Definition write_file (fd : Z) (data : option ptr) (len : Z) (c : core OS) : res (core OS) :=
  if fd <? 0 then Ok c
  else
    bytes ← get_bytes c.(k_mem) data len;
    c ← (if c.(k_ctx).(use_compression) then
           let outlen := snappy_max_compressed_length len in
           let '(out, m) := alloc c.(k_mem) outlen in
           '(st, bs) ← snappy_compress bytes (Some outlen);
           match st with
           | SNAPPY_OK =>
               m ← store_bytes m out bs;
               let block_len := u32 (zlen bs) in
               let '(_, o) := os_write c.(k_os) fd (le_bytes 4 block_len) in
               let '(_, o) := os_write o fd bs in
               m ← free m out;
               Ok (with_os (with_mem c m) o)
           | _ => Err EDie
           end
         else
           let '(_, o) := os_write c.(k_os) fd bytes in Ok (with_os c o));
    Ok (with_os c (os_fsync c.(k_os) fd)).

Definition is_file_open (tb : TLBuffer) (c : core OS) : bool :=
  negb (tb.(trace_fd_) =? -1) && os_fcntl_ok c.(k_os) tb.(trace_fd_).

(** [last_fe] is not initialised: the buffer keeps what was in memory. *)
Definition init (raw : TLBuffer) : TLBuffer :=
  mkTLBuffer None 0 0 (-1) raw.(last_fe) (u32 (-1)) (u64 (-1)) (u32 (-1)) (u64 (-1)) 0.

Definition open_buf (tb : TLBuffer) (c : core OS) : TLBuffer * core OS :=
  let sz := get_buf_size c.(k_ctx) in
  let '(p, m) := alloc c.(k_mem) sz in
  (set_size_ (set_capacity_ (set_buf_ tb (Some p)) sz) 0, with_mem c m).

(** Both heights are the stack's. *)
Definition open_file (tid : Z) (tb : TLBuffer) (c : core OS) : res (TLBuffer * core OS) :=
  let tb :=
    if c.(k_ctx).(no_stack) then
      let '(stk_addr, stk_size, tls_addr, tls_size) := os_GetThreadStackAndTls c.(k_os) (tid =? 0) in
      set_stack tb (u64 stk_addr) (u32 stk_size) (u64 tls_addr) (u32 stk_size)
    else tb in
  pre_len ← internal_strlen c.(k_mem) c.(k_ctx).(trace_dir);
  let name_len := pre_len + 5 in
  let '(file_name, m) := alloc c.(k_mem) name_len in
  '(_, m) ← internal_snprintf m file_name name_len (lit "%s/%d") [VStr (Some c.(k_ctx).(trace_dir)); VInt tid];
  name ← cstring (cells m file_name);
  let '(fd, o) := os_open c.(k_os) name in
  let tb := set_trace_fd_ tb fd in
  m ← free m file_name;
  let data := if c.(k_ctx).(use_compression) then 1 else 0 in
  let header := new_UFOHeader tid c.(k_ctx).(time_started) data in
  let '(_, o) := os_write o tb.(trace_fd_) (encode header) in
  Ok (tb, with_os (with_mem c m) o).

Definition flush (tid : Z) (tb : TLBuffer) (c : core OS) : res (TLBuffer * core OS) :=
  '(tb, c) ← (if negb (is_file_open tb c) then open_file tid tb c else Ok (tb, c));
  if tb.(trace_fd_) <? 0 then Ok (tb, c)
  else
    '(tb, c) ←
      (if c.(k_ctx).(use_io_q) then push tb c
       else c ← write_file tb.(trace_fd_) tb.(buf_) tb.(size_) c; Ok (tb, c));
    Ok (set_size_ tb 0, c).

(** [capacity_ = 0], and the file is closed *)
Definition finish_close (tb : TLBuffer) (c : core OS) : TLBuffer * core OS :=
  let tb := set_capacity_ tb 0 in
  if is_file_open tb c
  then (tb, with_os c (os_close (os_fsync c.(k_os) tb.(trace_fd_)) tb.(trace_fd_)))
  else (tb, c).

Definition finish (tid : Z) (tb : TLBuffer) (c : core OS) : res (TLBuffer * core OS) :=
  match tb.(buf_) with
  | None => Ok (finish_close tb c)
  | Some _ =>
      '(tb, c, returned) ←
        (if 0 <? tb.(size_) then
           '(tb, c) ← (if negb (is_file_open tb c) then open_file tid tb c else Ok (tb, c));
           if tb.(trace_fd_) <? 0 then Ok (tb, c, true)
           else
             c ← write_file tb.(trace_fd_) tb.(buf_) tb.(size_) c;
             Ok (set_size_ tb 0, c, false)
         else Ok (tb, c, false));
      if (returned : bool) then Ok (tb, c)
      else
        p ← deref tb.(buf_);
        m ← free c.(k_mem) p;
        Ok (finish_close (set_buf_ tb None) (with_mem c m))
  end.

Definition reset (tb : TLBuffer) : TLBuffer := set_e_counter_ (set_trace_fd_ (set_size_ tb 0) (-1)) 0.

(** [while (offset < SZ)]: two bytes at a time, from the event to the
    buffer. *)
Fixpoint copy_pairs (fuel : nat) (m : mem) (pbuf : ptr) (pdata : list Z) (offset SZ : Z) : res (mem * Z) :=
  if offset <? SZ then
    match fuel with
    | O => Err EHang
    | S fuel' =>
        if zlen pdata <? offset + 2 then Err EOutOfBounds
        else
          m ← store_bytes m (padd pbuf offset) (slice pdata offset 2);
          copy_pairs fuel' m pbuf pdata (offset + 2) SZ
    end
  else Ok (m, offset).

Definition put_event {E} `{Packed E} (event : E) (tid : Z) (tb : TLBuffer) (c : core OS) : res (TLBuffer * core OS) :=
  let SZ := Z.of_nat (sizeof E) in
  if tb.(trace_fd_) <? 0 then Ok (tb, c)
  else
    '(tb, c) ←
      match tb.(buf_) with
      | None => let '(tb, c) := open_buf tb c in open_file tid tb c
      | Some _ => if tb.(capacity_) <=? u32 (tb.(size_) + SZ) then flush tid tb c else Ok (tb, c)
      end;
    let pdata := encode event in
    p ← deref tb.(buf_);
    let pbuf := padd p tb.(size_) in
    m ← store_bytes c.(k_mem) pbuf (ztake 1 pdata);
    '(m, offset) ← copy_pairs (sizeof E) m pbuf pdata 1 SZ;
    Ok (set_e_counter_ (set_size_ tb (u32 (tb.(size_) + offset))) (u64 (tb.(e_counter_) + 1)), with_mem c m).
End Buffer.

(** ** Copying an event *)

Lemma zdrop_ge {A} n (l : list A) : zlen l <= n -> zdrop n l = [].
Proof. intros H. unfold zdrop, zlen in *. apply drop_ge. lia. Qed.

Lemma Forall_slice (P : Z -> Prop) l o n : Forall P l -> Forall P (slice l o n).
Proof. intros H. by apply Forall_take, Forall_drop. Qed.

(** For an odd size the pairs end exactly at the end of the event. *)
Lemma copy_pairs_ok fuel m b o l pdata k SZ :
  m.(m_blocks) !! b = Some l -> 0 <= o -> Forall byte_ok pdata -> zlen pdata = SZ ->
  0 <= k -> Z.of_nat fuel * 2 >= SZ - (2 * k + 1) -> Z.odd SZ = true -> 2 * k + 1 <= SZ -> o + SZ <= zlen l ->
  copy_pairs fuel m (Ptr b o) pdata (2 * k + 1) SZ =
  Ok (upd m b (splice l (o + (2 * k + 1)) (Some <$> zdrop (2 * k + 1) pdata)), SZ).
Proof.
  revert m l k. induction fuel as [|fuel IH]; intros m l k Hb Ho Hok Hz Hk Hf Hodd Hle Hl; cbn [copy_pairs].
  - rewrite (proj2 (Z.ltb_ge _ _)), zdrop_ge by lia. cbn [fmap list_fmap]. rewrite splice_nil, upd_id by (done || lia).
    by replace (2 * k + 1) with SZ by lia.
  - destruct (Z.ltb_spec (2 * k + 1) SZ) as [Hlt|Hge].
    + assert (2 * k + 3 <= SZ).
      { rewrite Z.odd_spec in Hodd. destruct Hodd as [x ->]. lia. }
      rewrite (proj2 (Z.ltb_ge _ _)) by lia. unfold padd. cbn [blk ofs].
      assert (Hs2 : zlen (slice pdata (2 * k + 1) 2) = 2) by (apply zlen_slice; lia).
      rewrite (store_bytes_ok _ _ _ l) by (rewrite ?Hs2; (done || lia || by apply Forall_slice)). rewrite bind_ok.
      replace (2 * k + 1 + 2) with (2 * (k + 1) + 1) by lia.
      rewrite (IH _ (splice l (o + (2 * k + 1)) (Some <$> slice pdata (2 * k + 1) 2)) (k + 1));
        [|apply upd_lookup|done|done|done|lia|lia|done|lia|rewrite zlen_splice; rewrite ?zlen_fmap, ?Hs2; lia].
      rewrite upd_upd. do 3 f_equal. rewrite (zdrop_split pdata (2 * k + 1) 2), fmap_app by lia.
      rewrite <- splice_app by (rewrite ?zlen_fmap, ?Hs2, ?zlen_zdrop by lia; lia).
      rewrite zlen_fmap, Hs2. replace (2 * k + 1 + 2) with (2 * (k + 1) + 1) by lia. f_equal. lia.
    + rewrite zdrop_ge by lia. cbn [fmap list_fmap]. rewrite splice_nil, upd_id by (done || lia).
      by replace (2 * k + 1) with SZ by lia.
Qed.

(** The whole copy, first byte included. *)
Lemma copy_event_ok fuel m b o l pdata SZ :
  m.(m_blocks) !! b = Some l -> 0 <= o -> Forall byte_ok pdata -> zlen pdata = SZ -> Z.odd SZ = true ->
  Z.of_nat fuel = SZ -> o + SZ <= zlen l ->
  (m ← store_bytes m (Ptr b o) (ztake 1 pdata); copy_pairs fuel m (Ptr b o) pdata 1 SZ) =
  Ok (upd m b (splice l o (Some <$> pdata)), SZ).
Proof.
  intros Hb Ho Hok Hz Hodd Hf Hl.
  assert (1 <= SZ) by (rewrite Z.odd_spec in Hodd; destruct Hodd as [x ->]; pose proof (zlen_nonneg pdata); lia).
  assert (H1 : zlen (ztake 1 pdata) = 1) by (apply zlen_ztake; lia).
  rewrite (store_bytes_ok _ _ _ l) by (rewrite ?H1; (done || lia || by apply Forall_take)). rewrite bind_ok.
  rewrite (copy_pairs_ok fuel _ b o (splice l o (Some <$> ztake 1 pdata)) pdata 0 SZ);
    [|apply upd_lookup|done|done|done|lia|lia|done|lia|rewrite zlen_splice; rewrite ?zlen_fmap, ?H1; lia].
  change (2 * 0 + 1) with 1. rewrite upd_upd. do 3 f_equal.
  rewrite <- (ztake_zdrop 1 pdata) at 3. rewrite fmap_app.
  rewrite <- splice_app by (rewrite ?zlen_fmap, ?H1, ?zlen_zdrop by lia; lia). by rewrite zlen_fmap, H1.
Qed.

(** ** Streams *)

(** The bytes of the requests for a descriptor. *)
Definition queued (fd : Z) (items : list request) : list Z :=
  concat (snd <$> filter (fun r => r.1 = fd) items).

Lemma queued_cons fd r items :
  queued fd (r :: items) = (if decide (r.1 = fd) then r.2 else []) ++ queued fd items.
Proof. unfold queued. by rewrite filter_cons; case_decide. Qed.

Lemma queued_app fd x y : queued fd (x ++ y) = queued fd x ++ queued fd y.
Proof. unfold queued. by rewrite filter_app, fmap_app, concat_app. Qed.

Section Streams.
Context {OS : Type} `{HL : OSLaws OS}.

(** The buffer [tb] has its file [p] open, and nobody else has; block [b]
    holds its [bytes]; [items] wait in the queue, if there is one. *)
Record opened (c : core OS) (tb : TLBuffer) (p : chars) (blks : list Z) (items : list request)
    (b : Z) (bytes : list Z) : Prop := {
  op_plain : c.(k_ctx).(use_compression) = false;
  op_fd : os_file c.(k_os) tb.(trace_fd_) = Some p;
  op_only : forall fd, os_file c.(k_os) fd = Some p -> fd = tb.(trace_fd_);
  op_buf : buf_holds c.(k_mem) tb b bytes;
  op_bytes : Forall byte_ok bytes;
  op_queue :
    if c.(k_ctx).(use_io_q) then
      q_rep c blks items /\ (b ∉ blks) /\ Forall (fun r => is_Some (os_file c.(k_os) r.1)) items /\
      exists q, c.(k_queue) = Some q /\ 2 <= q.(length_)
    else items = []
}.

(** What the file will contain. *)
Definition stream (c : core OS) (tb : TLBuffer) (p : chars) (items : list request) (bytes : list Z) : list Z :=
  os_sent c.(k_os) p ++ queued tb.(trace_fd_) items ++ bytes.

(** What a step of the owner of block [b], now [b'], leaves as it is: the
    configuration, the open descriptors, the files nobody has open, the memory
    outside its block. *)
Record framed (c c' : core OS) (blks blks' : list Z) (b b' : Z) : Prop := {
  fr_ctx : c'.(k_ctx) = c.(k_ctx);
  fr_file : forall fd, os_file c'.(k_os) fd = os_file c.(k_os) fd;
  fr_data : forall q, (forall fd, os_file c.(k_os) fd <> Some q) -> os_sent c'.(k_os) q = os_sent c.(k_os) q;
  fr_wf : mem_wf c.(k_mem) -> mem_wf c'.(k_mem);
  fr_mem : forall x, x <> b' -> c'.(k_mem).(m_blocks) !! x = c.(k_mem).(m_blocks) !! x;
  fr_in : b' = b \/ (b' ∈ blks);
  fr_blks : forall x, x ∈ blks' -> x = b \/ (x ∈ blks) }.

(** The step from [c] to [c'] by the owner of file [p] and block [b], now
    [b'], also leaves the other open buffers and their streams as they are. *)
Definition others_kept (c c' : core OS) (p : chars) (blks blks' : list Z) (items items' : list request) (b b' : Z) : Prop :=
  framed c c' blks blks' b b' /\
  forall tb2 p2 b2 bytes2, opened c tb2 p2 blks items b2 bytes2 -> p2 <> p -> b2 <> b ->
    opened c' tb2 p2 blks' items' b2 bytes2 /\
    stream c' tb2 p2 items' bytes2 = stream c tb2 p2 items bytes2 /\ b2 <> b'.

(** Writing a request, then syncing. *)
Lemma written_law (o : OS) fd p bs :
  os_file o fd = Some p ->
  let o' := os_fsync (os_write o fd bs).2 fd in
  (forall fd', os_file o' fd' = os_file o fd') /\
  (forall q, os_sent o' q = if decide (q = p) then os_sent o q ++ bs else os_sent o q).
Proof.
  intros Hf. destruct (write_law o fd p bs Hf) as (n1 & o1 & -> & H1 & H2 & H3 & _). cbn [snd].
  destruct (fsync_law o1 fd) as [F1 F2]. split; [intros fd'; by rewrite F1|]. intros q. rewrite F2.
  case_decide; [by subst|by apply H3].
Qed.

(** The worker leaves the stream as it is. *)
Lemma work_stream (o : OS) fd p r items :
  os_file o fd = Some p -> (forall fd', os_file o fd' = Some p -> fd' = fd) -> is_Some (os_file o r.1) ->
  let o' := os_fsync (os_write o r.1 r.2).2 r.1 in
  (forall fd', os_file o' fd' = os_file o fd') /\
  os_sent o' p ++ queued fd items = os_sent o p ++ queued fd (r :: items).
Proof.
  intros Hf Ho [p' Hp']. destruct (written_law o r.1 p' r.2 Hp') as [H1 H2]. split; [done|].
  rewrite H2, queued_cons. destruct (decide (p = p')) as [->|Hne].
  - rewrite (decide_True (P := r.1 = fd)) by (by apply Ho). by rewrite <- app_assoc.
  - rewrite (decide_False (P := r.1 = fd)); [done|]. intros E. rewrite E in Hp'. congruence.
Qed.

Lemma opened_is_open c tb p blks items b bytes :
  opened c tb p blks items b bytes -> is_file_open tb c = true /\ 0 <= tb.(trace_fd_).
Proof.
  intros [_ Hf _ _ _ _]. pose proof (fd_law c.(k_os) tb.(trace_fd_) ltac:(by eexists)) as Hp. split; [|done].
  unfold is_file_open. rewrite (proj2 (Z.eqb_neq _ _)) by lia. cbn. apply fcntl_law. by eexists.
Qed.

Lemma get_bytes_ok m b l bytes :
  m.(m_blocks) !! b = Some l -> slice l 0 (zlen bytes) = Some <$> bytes ->
  get_bytes m (Some (Ptr b 0)) (zlen bytes) = Ok bytes.
Proof.
  intros Hb Hl. unfold get_bytes. destruct (Z.eqb_spec (zlen bytes) 0) as [E|_].
  - destruct bytes; [done|]. rewrite zlen_cons in E. pose proof (zlen_nonneg bytes). lia.
  - cbn [deref res_of_option]. rewrite bind_ok. unfold zlen at 1. rewrite Nat2Z.id. by eapply load_bytes_ok.
Qed.

Lemma write_file_ok (c : core OS) fd b l bytes :
  0 <= fd -> c.(k_ctx).(use_compression) = false ->
  c.(k_mem).(m_blocks) !! b = Some l -> slice l 0 (zlen bytes) = Some <$> bytes ->
  write_file fd (Some (Ptr b 0)) (zlen bytes) c = Ok (with_os c (os_fsync (os_write c.(k_os) fd bytes).2 fd)).
Proof.
  intros Hfd Hc Hb Hl. unfold write_file. rewrite (proj2 (Z.ltb_ge _ _)), Hc by lia.
  rewrite (get_bytes_ok _ _ _ _ Hb Hl), bind_ok. destruct (os_write c.(k_os) fd bytes) as [n o]. by rewrite bind_ok.
Qed.

(** What stays when a buffer is flushed. *)
Definition same_fields (tb tb' : TLBuffer) : Prop :=
  tb'.(trace_fd_) = tb.(trace_fd_) /\ tb'.(e_counter_) = tb.(e_counter_) /\ tb'.(last_fe) = tb.(last_fe) /\
  tb'.(stack_bottom) = tb.(stack_bottom) /\ tb'.(stack_height) = tb.(stack_height) /\
  tb'.(tls_bottom) = tb.(tls_bottom) /\ tb'.(tls_height) = tb.(tls_height).

Definition same_but_count (tb tb' : TLBuffer) : Prop :=
  tb'.(trace_fd_) = tb.(trace_fd_) /\ tb'.(last_fe) = tb.(last_fe) /\
  tb'.(stack_bottom) = tb.(stack_bottom) /\ tb'.(stack_height) = tb.(stack_height) /\
  tb'.(tls_bottom) = tb.(tls_bottom) /\ tb'.(tls_height) = tb.(tls_height).

Lemma work_once_only (c : core OS) blks r items c1 :
  c.(k_ctx).(use_compression) = false -> q_rep c blks (r :: items) -> work_once c = Ok c1 ->
  c1.(k_os) = os_fsync (os_write c.(k_os) r.1 r.2).2 r.1 /\ c1.(k_mem) = c.(k_mem) /\ c1.(k_ctx) = c.(k_ctx).
Proof.
  intros Hc Hrep E. destruct r as [fd bs]. destruct (work_once_ok c blks fd bs items Hc Hrep) as (q' & E' & _).
  rewrite E in E'. injection E' as ->. done.
Qed.

(** A full queue loses its oldest request to the worker first. *)
Lemma wait_keeps (c c1 : core OS) blks items items1 fd p :
  c.(k_ctx).(use_compression) = false -> q_rep c blks items -> os_file c.(k_os) fd = Some p ->
  (forall fd', os_file c.(k_os) fd' = Some p -> fd' = fd) -> Forall (fun r => is_Some (os_file c.(k_os) r.1)) items ->
  (c1 = c /\ items1 = items \/ work_once c = Ok c1 /\ exists r, items = r :: items1) ->
  (forall fd', os_file c1.(k_os) fd' = os_file c.(k_os) fd') /\ c1.(k_ctx) = c.(k_ctx) /\
  (forall fd2 p2, os_file c.(k_os) fd2 = Some p2 -> (forall fd', os_file c.(k_os) fd' = Some p2 -> fd' = fd2) ->
     os_sent c1.(k_os) p2 ++ queued fd2 items1 = os_sent c.(k_os) p2 ++ queued fd2 items) /\
  Forall (fun r => is_Some (os_file c.(k_os) r.1)) items1 /\ c1.(k_mem) = c.(k_mem) /\
  (forall q, (forall fd, os_file c.(k_os) fd <> Some q) -> os_sent c1.(k_os) q = os_sent c.(k_os) q).
Proof.
  intros Hc Hrep Hf Ho Hfds Hcase. destruct Hcase as [[-> ->]|[Ew [r ->]]]; [done|]. apply Forall_cons in Hfds as [Hr Hfds].
  destruct (work_once_only c blks r items1 c1 Hc Hrep Ew) as (Eo & Em & Ec). rewrite Eo.
  destruct (work_stream c.(k_os) fd p r items1 Hf Ho Hr) as [W1 _].
  split; [done|]. split; [done|]. split; [intros fd2 p2 Hf2 Ho2; by apply work_stream|]. split; [done|]. split; [done|].
  intros q0 Hq0. destruct Hr as [p0 Hp0]. destruct (written_law c.(k_os) r.1 p0 r.2 Hp0) as [_ ->].
  rewrite decide_False; [done|]. intros ->. by apply (Hq0 r.1).
Qed.

(** What a flush achieves. *)
Definition flushed (x : res (TLBuffer * core OS)) (c : core OS) (tb : TLBuffer) (p : chars) (blks : list Z) (items : list request)
    (b : Z) (bytes : list Z) : Prop :=
  exists tb' c' blks' items' b',
    x = Ok (tb', c') /\ opened c' tb' p blks' items' b' [] /\
    stream c' tb' p items' [] = stream c tb p items bytes /\ same_fields tb tb' /\ c'.(k_ctx) = c.(k_ctx) /\
    others_kept c c' p blks blks' items items' b b'.

Lemma flush_queue c tb p blks items b bytes :
  opened c tb p blks items b bytes -> c.(k_ctx).(use_io_q) = true ->
  flushed ('(tb, c) ← push tb c; Ok (set_size_ tb 0, c)) c tb p blks items b bytes.
Proof.
  intros [Hc Hf Ho Hbuf Hby Hq] Eq. rewrite Eq in Hq. destruct Hq as (Hrep & Hnin & Hfds & q & Hq & Hlen).
  destruct (push_ok c q blks items tb b bytes Hc Hrep Hq Hlen Hbuf Hnin)
    as (c1 & items1 & tb' & q' & b' & blks' & Hcase & Hpush & Hlen' & Hrep' & Hbuf' & Hnin' & Hset & Hin & (pt & cap & Etb)).
  rewrite Hpush, bind_ok. cbv beta iota.
  destruct (wait_keeps c c1 blks items items1 tb.(trace_fd_) p Hc Hrep Hf Ho Hfds Hcase) as (F1 & F2 & F3 & F4 & F5 & F6).
  exists (set_size_ tb' 0). eexists _, blks', _, b'. split; [done|].
  assert (Hfd' : (set_size_ tb' 0).(trace_fd_) = tb.(trace_fd_)) by (by rewrite Etb).
  assert (Hfds' : Forall (fun r => is_Some (os_file c1.(k_os) r.1)) (items1 ++ [(tb.(trace_fd_), bytes)])).
  { apply Forall_app. split; [eapply Forall_impl; [exact F4|]; intros r; by rewrite F1|].
    apply Forall_singleton. cbn. rewrite F1. by eexists. }
  split; [|split; [|split; [by rewrite Etb|split; [done|]]]].
  - split; cbn [with_queue k_ctx k_os k_mem]; rewrite ?Hfd', ?F1, ?F2; try done.
    + intros fd. rewrite F1. apply Ho.
    + destruct Hbuf' as (B1 & B2 & B3 & B4). split; [done|]. by split.
    + rewrite Eq. split; [done|]. split; [done|]. split; [done|exists q'; split; [done|lia]].
  - unfold stream. cbn [with_queue k_os]. rewrite Hfd', queued_app, app_nil_r, !app_assoc, (F3 _ p) by done.
    rewrite <- !app_assoc. do 2 f_equal. rewrite queued_cons, decide_True by done. cbn. by rewrite app_nil_r.
  - split.
    { split; cbn [with_queue k_ctx k_os k_mem]; try done; rewrite ?F5; try done; [by right|].
      intros x Hx%Hset. destruct Hx as [?|[? _]]; [by left|by right]. }
    intros tb2 p2 b2 bytes2 [Hc2 Hf2 Ho2 Hbuf2 Hby2 Hq2] Hp2 Hneb2. rewrite Eq in Hq2. destruct Hq2 as (_ & Hnin2 & _).
    assert (Hne : tb2.(trace_fd_) <> tb.(trace_fd_)) by (intros E; rewrite E in Hf2; congruence).
    split; [|split; [|by intros ->]].
    + split; cbn [with_queue k_ctx k_os k_mem]; [by rewrite F2|by rewrite F1|intros fd; rewrite F1; apply Ho2|by rewrite F5|done|].
      rewrite F2, Eq. split; [done|]. split; [|split; [done|exists q'; split; [done|lia]]]. rewrite Hset. by intros [?|[? _]].
    + unfold stream. cbn [with_queue k_os]. rewrite queued_app.
      assert (queued tb2.(trace_fd_) [(tb.(trace_fd_), bytes)] = []) as ->.
      { rewrite queued_cons, decide_False by (cbn; congruence). done. }
      by rewrite app_nil_r, !app_assoc, (F3 _ p2).
Qed.

Lemma flush_direct c tb p blks items b bytes :
  opened c tb p blks items b bytes -> c.(k_ctx).(use_io_q) = false -> 0 <= tb.(trace_fd_) ->
  flushed ('(tb, c) ← (c ← write_file tb.(trace_fd_) tb.(buf_) tb.(size_) c; Ok (tb, c)); Ok (set_size_ tb 0, c))
    c tb p blks items b bytes.
Proof.
  intros [Hc Hf Ho Hbuf Hby Hq] Eq Hfd. rewrite Eq in Hq. subst items. pose proof Hbuf as (Hb1 & Hb2 & Hb3 & l & Hl1 & Hl2 & Hl3).
  rewrite Hb1, Hb2, (write_file_ok c _ b l bytes) by done. rewrite !bind_ok. cbv beta iota.
  destruct (written_law c.(k_os) tb.(trace_fd_) p bytes Hf) as [W1 W2].
  exists (set_size_ tb 0). eexists _, blks, [], b. split; [done|]. split; [|split; [|split; [done|split; [done|]]]].
  - split; cbn [with_os k_ctx k_os k_mem set_size_ trace_fd_]; rewrite ?W1; try done.
    + intros fd. rewrite W1. apply Ho.
    + split; [done|]. split; [done|]. split; [done|]. exists l. by rewrite slice_0.
    + by rewrite Eq.
  - unfold stream. cbn [with_os k_os set_size_ trace_fd_]. rewrite W2, decide_True by done.
    unfold queued. cbn. by rewrite app_nil_r.
  - split.
    { split; cbn [with_os k_ctx k_os k_mem]; try done; [|by left|by right].
      intros q Hq. rewrite W2, decide_False; [done|]. intros ->. by apply (Hq tb.(trace_fd_)). }
    intros tb2 p2 b2 bytes2 [Hc2 Hf2 Ho2 Hbuf2 Hby2 Hq2] Hp2 Hneb2. split; [|split; [|done]].
    + split; cbn [with_os k_ctx k_os k_mem]; [done|by rewrite W1|intros fd; rewrite W1; apply Ho2|done|done|by rewrite Eq].
    + unfold stream. cbn [with_os k_os]. by rewrite W2, decide_False.
Qed.

Lemma flush_opened tid c tb p blks items b bytes :
  opened c tb p blks items b bytes -> flushed (flush tid tb c) c tb p blks items b bytes.
Proof.
  intros Hop. destruct (opened_is_open _ _ _ _ _ _ _ Hop) as [Hopen Hfd]. unfold flush. rewrite Hopen. cbn [negb]. rewrite bind_ok.
  cbv beta iota. rewrite (proj2 (Z.ltb_ge _ _)) by lia.
  destruct (c.(k_ctx).(use_io_q)) eqn:Eq; [by apply flush_queue|by apply flush_direct].
Qed.

Lemma q_rep_frame (c : core OS) m' blks items :
  (forall x, x ∈ blks -> m'.(m_blocks) !! x = c.(k_mem).(m_blocks) !! x) ->
  q_rep c blks items -> q_rep (with_mem c m') blks items.
Proof. intros Hm (q & ts & Hq & Hr). exists q, ts. split; [done|]. by eapply ring_frame. Qed.

(** Storing bytes behind those in the buffer. *)
Lemma store_holds m tb b bytes x l n :
  buf_holds m tb b bytes -> m.(m_blocks) !! b = Some l -> zlen bytes + zlen x <= tb.(capacity_) ->
  buf_holds (upd m b (splice l (zlen bytes) (Some <$> x))) (set_e_counter_ (set_size_ tb (zlen bytes + zlen x)) n) b (bytes ++ x).
Proof.
  intros (Hb1 & Hb2 & Hb3 & l' & Hl1 & Hl2 & Hl3) Hl Hroom.
  rewrite Hl in Hl1. injection Hl1 as <-. pose proof (zlen_nonneg bytes). pose proof (zlen_nonneg x).
  split; [done|]. split; [by rewrite zlen_app|]. split; [done|].
  exists (splice l (zlen bytes) (Some <$> x)). split; [apply upd_lookup|].
  split; [rewrite zlen_splice; rewrite ?zlen_fmap; cbn; lia|].
  rewrite zlen_app, fmap_app. unfold slice. rewrite zdrop_0. rewrite <- (zlen_fmap Some x), ztake_splice; rewrite ?zlen_fmap; try lia.
  by rewrite <- Hl3.
Qed.

Lemma store_opened c tb p blks items b bytes x l n :
  opened c tb p blks items b bytes -> c.(k_mem).(m_blocks) !! b = Some l -> Forall byte_ok x ->
  zlen bytes + zlen x <= tb.(capacity_) ->
  opened (with_mem c (upd c.(k_mem) b (splice l (zlen bytes) (Some <$> x))))
    (set_e_counter_ (set_size_ tb (zlen bytes + zlen x)) n) p blks items b (bytes ++ x).
Proof.
  intros [Hc Hf Ho Hbuf Hby Hq] Hl Hx Hroom.
  split; cbn [with_mem k_ctx k_os k_mem set_e_counter_ set_size_ trace_fd_]; try done.
  - by apply store_holds.
  - by apply Forall_app.
  - destruct (use_io_q (k_ctx c)); [|done]. destruct Hq as (Hrep & Hnin & Hrest). split; [|done].
    apply q_rep_frame; [|done]. intros y Hy. apply upd_lookup_ne. intros ->. done.
Qed.

Lemma store_keeps c tb p blks items b bytes l' :
  opened c tb p blks items b bytes -> others_kept c (with_mem c (upd c.(k_mem) b l')) p blks blks items items b b.
Proof.
  intros Hop. destruct (op_buf _ _ _ _ _ _ _ Hop) as (_ & _ & _ & l0 & Hl0 & _). split.
  { split; cbn [with_mem k_ctx k_os k_mem]; try done; [|intros x Hx; by apply upd_lookup_ne|by left|by right].
    intros Hwf. by eapply upd_wf. }
  intros tb2 p2 b2 bytes2 [Hc2 Hf2 Ho2 Hbuf2 Hby2 Hq2] Hp2 Hb2. split; [|done].
  pose proof (op_queue _ _ _ _ _ _ _ Hop) as Hq. split; cbn [with_mem k_ctx k_os k_mem]; try done.
  - destruct Hbuf2 as (B1 & B2 & B3 & l & B4 & B5). do 3 (split; [done|]). exists l. by rewrite upd_lookup_ne.
  - destruct (use_io_q (k_ctx c)); [|done]. destruct Hq as (_ & Hnin & _), Hq2 as (Hrep & Hrest). split; [|done].
    apply q_rep_frame; [|done]. intros y Hy. apply upd_lookup_ne. by intros ->.
Qed.

Lemma others_kept_refl c p blks items b : others_kept c c p blks blks items items b b.
Proof. split; [|done]. split; try done; [by left|by right]. Qed.

Lemma framed_trans c c1 c2 blks blks1 blks2 b b1 b2 :
  framed c c1 blks blks1 b b1 -> framed c1 c2 blks1 blks2 b1 b2 ->
  (b2 = b1 \/ c1.(k_mem) = c.(k_mem)) -> framed c c2 blks blks2 b b2.
Proof.
  intros [A1 A2 A3 A4 A5 A6 A7] [B1 B2 B3 B4 B5 B6 B7] Hm. split.
  - by rewrite B1.
  - intros fd. by rewrite B2.
  - intros q Hq. rewrite B3, A3; [done|done|]. intros fd. by rewrite A2.
  - auto.
  - intros x Hx. rewrite B5 by done. destruct Hm as [->| ->]; [by apply A5|done].
  - destruct B6 as [->|Hx]; [done|]. destruct (A7 _ Hx); [by left|by right].
  - intros x Hx. destruct (B7 _ Hx) as [->|Hx1]; [destruct A6; [by left|by right]|by apply A7].
Qed.

Lemma others_kept_trans c c1 c2 p blks blks1 blks2 items items1 items2 b b1 b2 :
  others_kept c c1 p blks blks1 items items1 b b1 -> others_kept c1 c2 p blks1 blks2 items1 items2 b1 b2 ->
  (b2 = b1 \/ c1.(k_mem) = c.(k_mem)) -> others_kept c c2 p blks blks2 items items2 b b2.
Proof.
  intros [F1 H1] [F2 H2] Hm. split; [by eapply framed_trans|]. intros tb' p' b' bytes' Hop Hp Hb. destruct (H1 _ _ _ _ Hop Hp Hb) as (Hop1 & Hs1 & Hb1).
  destruct (H2 _ _ _ _ Hop1 Hp Hb1) as (Hop2 & Hs2 & Hb2). split; [done|]. split; [by rewrite Hs2|done].
Qed.

Lemma copy_buffer_ok m b o l pdata SZ fuel (k : mem -> Z -> res (TLBuffer * core OS)) :
  m.(m_blocks) !! b = Some l -> 0 <= o -> Forall byte_ok pdata -> zlen pdata = SZ -> Z.odd SZ = true ->
  Z.of_nat fuel = SZ -> o + SZ <= zlen l ->
  (m ← store_bytes m (Ptr b o) (ztake 1 pdata);
   '(m, offset) ← copy_pairs fuel m (Ptr b o) pdata 1 SZ; k m offset) =
  k (upd m b (splice l o (Some <$> pdata))) SZ.
Proof.
  intros Hb Ho Hok Hz Hodd Hf Hl. pose proof (copy_event_ok fuel m b o l pdata SZ Hb Ho Hok Hz Hodd Hf Hl) as E.
  destruct (store_bytes m (Ptr b o) (ztake 1 pdata)) as [m1|]; [|done]. cbn [mbind res_mbind res_bind] in E |- *.
  by rewrite E.
Qed.

(** [put_event] on an open buffer. *)
Lemma put_event_opened {E} `{HP : Packed E} (e : E) tid c tb p blks items b bytes :
  opened c tb p blks items b bytes -> Z.odd (Z.of_nat (sizeof E)) = true -> Z.of_nat (sizeof E) < 64 ->
  exists tb' c' blks' items' b' bytes',
    put_event e tid tb c = Ok (tb', c') /\ opened c' tb' p blks' items' b' bytes' /\
    stream c' tb' p items' bytes' = stream c tb p items bytes ++ encode e /\
    same_but_count tb tb' /\ tb'.(e_counter_) = u64 (tb.(e_counter_) + 1) /\ c'.(k_ctx) = c.(k_ctx) /\
    others_kept c c' p blks blks' items items' b b' /\ exists prev, bytes' = prev ++ encode e.
Proof.
  intros Hop Hodd Hsz. destruct (opened_is_open _ _ _ _ _ _ _ Hop) as [Hopen Hfd].
  assert (Hlen : zlen (encode e) = Z.of_nat (sizeof E)) by (unfold zlen; by rewrite length_encode).
  pose proof (op_buf _ _ _ _ _ _ _ Hop) as (Hb1 & Hb2 & Hb3 & l & Hl1 & Hl2 & Hl3).
  assert (Hcap : 64 <= tb.(capacity_) < 2 ^ 32 - 64) by exact Hb3.
  assert (Hle : zlen bytes <= zlen l).
  { apply (f_equal zlen) in Hl3. rewrite zlen_fmap in Hl3. unfold slice, zdrop, ztake, zlen in *.
    rewrite length_take, length_drop in Hl3. lia. }
  unfold put_event. rewrite (proj2 (Z.ltb_ge _ _)), Hb1 by lia. pose proof (zlen_nonneg bytes).
  assert (u32 (tb.(size_) + Z.of_nat (sizeof E)) = tb.(size_) + Z.of_nat (sizeof E)) as ->
    by (apply wrap_small; rewrite Hb2; lia).
  assert (Hprep : exists tb1 c1 blks1 items1 b1 bytes1,
    (if tb.(capacity_) <=? tb.(size_) + Z.of_nat (sizeof E) then flush tid tb c else Ok (tb, c)) = Ok (tb1, c1) /\
    opened c1 tb1 p blks1 items1 b1 bytes1 /\ stream c1 tb1 p items1 bytes1 = stream c tb p items bytes /\
    same_fields tb tb1 /\ c1.(k_ctx) = c.(k_ctx) /\ zlen bytes1 + Z.of_nat (sizeof E) < tb1.(capacity_) /\
    others_kept c c1 p blks blks1 items items1 b b1).
  { destruct (Z.leb_spec tb.(capacity_) (tb.(size_) + Z.of_nat (sizeof E))) as [Hfull|Hroom].
    - destruct (flush_opened tid c tb p blks items b bytes Hop) as (tb1 & c1 & blks1 & items1 & b1 & E1 & Hop1 & Hst & Hsame & Hctx & Hkept).
      exists tb1, c1, blks1, items1, b1, []. rewrite E1. do 5 (split; [done|]). split; [|done].
      destruct (op_buf _ _ _ _ _ _ _ Hop1) as (_ & _ & Hcap1 & _). unfold cap_ok in Hcap1. change (zlen (@nil Z)) with 0. lia.
    - exists tb, c, blks, items, b, bytes. do 5 (split; [done|]). split; [lia|]. apply others_kept_refl. }
  destruct Hprep as (tb1 & c1 & blks1 & items1 & b1 & bytes1 & -> & Hop1 & Hst & Hsame & Hctx & Hroom & Hkept).
  rewrite bind_ok. cbv beta iota.
  pose proof (op_buf _ _ _ _ _ _ _ Hop1) as (Hb1' & Hb2' & Hb3' & l1 & Hl1' & Hl2' & Hl3').
  assert (Hcap1 : 64 <= tb1.(capacity_) < 2 ^ 32 - 64) by exact Hb3'. pose proof (zlen_nonneg bytes1).
  rewrite Hb1'. cbn [deref res_of_option]. rewrite bind_ok. unfold padd. cbn [blk ofs]. rewrite Z.add_0_l, Hb2'.
  rewrite (copy_buffer_ok _ b1 _ l1 (encode e) (Z.of_nat (sizeof E)) (sizeof E)
    (fun m offset => Ok (set_e_counter_ (set_size_ tb1 (u32 (zlen bytes1 + offset))) (u64 (e_counter_ tb1 + 1)), with_mem c1 m)));
    [|done|lia|apply encode_ok|done|done|done|lia].
  unfold u32. rewrite wrap_small by lia. rewrite <- Hlen.
  eexists _, _, blks1, items1, b1, (bytes1 ++ encode e). split; [done|]. split.
  { apply store_opened; [done|done|apply encode_ok|lia]. }
  destruct Hsame as (Hs1 & Hs2 & Hs3 & Hs4 & Hs5 & Hs6 & Hs7).
  split; [|split; [done|split; [by cbn; rewrite Hs2|split; [done|split; [|by exists bytes1]]]]].
  2: { eapply others_kept_trans; [exact Hkept|by eapply store_keeps|by left]. }
  rewrite <- Hst. unfold stream. cbn [with_mem k_os set_e_counter_ set_size_ trace_fd_]. by rewrite <- !app_assoc.
Qed.
End Streams.

(** ** Opening *)

Lemma cstring_ok t s : is_cstr t s -> cstring s = Ok t.
Proof.
  intros [Ht [rest ->]]. induction Ht as [|c t [Hc Hne] _ IH]; [done|]. cbn [fmap list_fmap app cstring].
  rewrite (proj2 (Z.eqb_neq _ _)) by done. by rewrite IH.
Qed.

(** The decimal digits of a thread id. *)
Definition tid_text (tid : Z) : list Z :=
  match number_text (u64 (Z.abs tid)) 10 0 false (tid <? 0) false with Ok t => t | Err _ => [] end.

Lemma tid_text_ok m tid :
  - 2 ^ 31 <= tid < 2 ^ 31 ->
  directive_text m (DSigned (s32 tid) 0 false) = Ok (tid_text tid) /\
  Forall (fun c => byte_ok c /\ c <> 0) (tid_text tid).
Proof.
  intros H. unfold s32. rewrite swrap_small by (change (32 - 1) with 31; lia).
  rewrite directive_decimal by lia. destruct (decimal_text tid ltac:(lia)) as (t & E & _ & Hd & _).
  unfold tid_text. rewrite E. split; [done|]. apply Forall_app. split.
  - unfold sign_chars. destruct (tid <? 0); [|done]. apply Forall_singleton. unfold byte_ok. lia.
  - eapply Forall_impl; [exact Hd|]. cbn. intros c Hc. apply IsDigit_iff in Hc. unfold byte_ok. lia.
Qed.

(** The name [open_file] uses: only three digits of the id have room. *)
Definition trace_name (dir : chars) (tid : Z) : chars := dir ++ 47 :: ztake 3 (tid_text tid).

Lemma name_text m p dir tid :
  is_cstr dir (cells m p) -> - 2 ^ 31 <= tid < 2 ^ 31 ->
  printf_text m (lit "%s/%d") [VStr (Some p); VInt tid] = Ok (dir ++ 47 :: tid_text tid).
Proof.
  intros Hdir Htid. destruct (tid_text_ok m tid Htid) as [Ht _].
  change (printf_text m (lit "%s/%d") [VStr (Some p); VInt tid]) with
    (t1 ← directive_text m (DString 0 (-1) (Some p));
     t2 ← (t3 ← (t4 ← directive_text m (DSigned (s32 tid) 0 false); t5 ← Ok (@nil Z); Ok (t4 ++ t5)); Ok (u8 47 :: t3));
     Ok (t1 ++ t2)).
  cbn [directive_text]. rewrite (string_text_cstr dir) by done. cbn [directive_text] in Ht. rewrite Ht, !bind_ok.
  by rewrite app_nil_r.
Qed.

Section Open.
Context {OS : Type} `{HL : OSLaws OS}.

(** The buffer with the stack bounds [open_file] notes. *)
Definition noted (c : core OS) (tid : Z) (tb : TLBuffer) : TLBuffer :=
  if c.(k_ctx).(no_stack) then
    let '(stk_addr, stk_size, tls_addr, _) := os_GetThreadStackAndTls c.(k_os) (tid =? 0) in
    set_stack tb (u64 stk_addr) (u32 stk_size) (u64 tls_addr) (u32 stk_size)
  else tb.

Definition trace_header (c : core OS) (tid : Z) : UFOHeader :=
  new_UFOHeader tid c.(k_ctx).(time_started) (if c.(k_ctx).(use_compression) then 1 else 0).

Lemma name_cells dir tid (l : list cell) :
  Forall (fun c => byte_ok c /\ c <> 0) (dir ++ 47 :: tid_text tid) -> zlen l = zlen dir + 5 ->
  is_cstr (trace_name dir tid) (splice l 0 (Some <$> (ztake (zlen dir + 5 - 1) (dir ++ 47 :: tid_text tid) ++ [0]))).
Proof.
  intros Hok Hl. pose proof (zlen_nonneg dir).
  assert (E : ztake (zlen dir + 5 - 1) (dir ++ 47 :: tid_text tid) = trace_name dir tid).
  { unfold trace_name, ztake, zlen. rewrite take_app_ge by lia.
    replace (Z.to_nat (Z.of_nat (length dir) + 5 - 1) - length dir)%nat with 4%nat by lia. done. }
  rewrite E. split.
  - rewrite <- E. by apply Forall_take.
  - unfold splice. exists (zdrop (0 + zlen (Some <$> (trace_name dir tid ++ [0]))) l).
    change (ztake 0 l) with (@nil cell). cbn [app]. by rewrite fmap_app, <- app_assoc.
Qed.

Lemma open_file_ok tid tb (c : core OS) dir :
  is_cstr dir (cells c.(k_mem) c.(k_ctx).(trace_dir)) -> mem_wf c.(k_mem) ->
  zlen dir < 2 ^ 30 -> - 2 ^ 31 <= tid < 2 ^ 31 ->
  open_file tid tb c =
  let '(fd, o) := os_open c.(k_os) (trace_name dir tid) in
  Ok (set_trace_fd_ (noted c tid tb) fd,
      with_os (with_mem c (Mem (c.(k_mem).(m_next) + 1) c.(k_mem).(m_blocks)))
              (os_write o fd (encode (trace_header c tid))).2).
Proof.
  intros Hdir Hwf Hlen Htid. unfold open_file. fold (trace_header c tid).
  destruct (c.(k_ctx).(trace_dir)) as [bd od] eqn:Etd.
  rewrite (strlen_ok _ _ dir), bind_ok by done. cbv zeta.
  destruct (alloc c.(k_mem) (zlen dir + 5)) as [fn m1] eqn:Ea. unfold alloc in Ea. injection Ea as <- <-.
  pose proof (mem_wf_fresh _ Hwf) as Hfresh. pose proof (zlen_nonneg dir).
  set (m1 := Mem (m_next (k_mem c) + 1) (<[m_next (k_mem c) := replicate (Z.to_nat (zlen dir + 5)) None]> (m_blocks (k_mem c)))).
  assert (Hne : bd <> m_next (k_mem c)).
  { destruct (cstr_block _ _ _ _ Hdir) as (l & Hl & _). intros ->. rewrite Hfresh in Hl. done. }
  assert (Hdir1 : is_cstr dir (cells m1 (Ptr bd od))).
  { unfold cells in *. cbn [blk ofs m1 m_blocks] in *. by rewrite lookup_insert_ne by done. }
  assert (Hb1 : m_blocks m1 !! m_next (k_mem c) = Some (replicate (Z.to_nat (zlen dir + 5)) None)) by apply lookup_insert_eq.
  assert (Hz : zlen (replicate (Z.to_nat (zlen dir + 5)) (@None Z)) = zlen dir + 5) by (rewrite zlen_replicate; lia).
  unfold internal_snprintf. unfold s32. rewrite swrap_small by (change (32 - 1) with 31; lia).
  rewrite (VSNPrintf_ok m1 _ 0 _ _ _ _ Hb1) by
    (lia || (rewrite Hz; lia) || (repeat constructor; cbn; try done; intros E; congruence)).
  rewrite (name_text _ _ dir tid) by done. rewrite !bind_ok. cbv beta iota.
  assert (Hok : Forall (fun c => byte_ok c /\ c <> 0) (dir ++ 47 :: tid_text tid)).
  { apply Forall_app. split; [by destruct Hdir|]. apply Forall_cons_2; [unfold byte_ok; lia|].
    by apply (tid_text_ok m1). }
  rewrite (cstring_ok (trace_name dir tid)).
  2: { rewrite (cells_block _ _ _ _ (upd_lookup _ _ _)) by lia. rewrite zdrop_0. by apply name_cells. }
  rewrite bind_ok. fold (noted c tid tb). destruct (os_open (k_os c) (trace_name dir tid)) as [fd o].
  unfold free, block_of. cbn [blk]. rewrite upd_lookup. cbn [res_of_option]. rewrite !bind_ok.
  cbn [set_trace_fd_ trace_fd_]. destruct (os_write o fd (encode (trace_header c tid))) as [n o'] eqn:Ew. cbn [snd].
  do 4 f_equal. cbn. by rewrite insert_insert_eq, delete_insert_id.
Qed.
End Open.

(** ** Finishing *)

Section Finish.
Context {OS : Type} `{HL : OSLaws OS}.

(** The buffer's own bytes go straight to the file, whatever waits in the
    queue; the buffer is freed and the file closed. *)
Lemma finish_ready tid (c : core OS) tb p b bytes :
  c.(k_ctx).(use_compression) = false -> os_file c.(k_os) tb.(trace_fd_) = Some p -> buf_holds c.(k_mem) tb b bytes ->
  exists tb' c', finish tid tb c = Ok (tb', c') /\
    os_sent c'.(k_os) p = os_sent c.(k_os) p ++ bytes /\
    (forall q, q <> p -> os_sent c'.(k_os) q = os_sent c.(k_os) q) /\
    os_file c'.(k_os) tb.(trace_fd_) = None /\
    (forall fd, fd <> tb.(trace_fd_) -> os_file c'.(k_os) fd = os_file c.(k_os) fd) /\
    c'.(k_mem) = Mem c.(k_mem).(m_next) (delete b c.(k_mem).(m_blocks)) /\ c'.(k_queue) = c.(k_queue) /\ c'.(k_ctx) = c.(k_ctx) /\
    tb'.(buf_) = None /\ tb'.(capacity_) = 0 /\ tb'.(size_) = 0 /\ tb'.(trace_fd_) = tb.(trace_fd_).
Proof.
  intros Hc Hf (Hb1 & Hb2 & Hb3 & l & Hl1 & Hl2 & Hl3). pose proof (fd_law c.(k_os) tb.(trace_fd_) ltac:(by eexists)) as Hfd.
  assert (Hopen : is_file_open tb c = true).
  { unfold is_file_open. rewrite (proj2 (Z.eqb_neq _ _)) by lia. cbn. apply fcntl_law. by eexists. }
  unfold finish. rewrite Hb1.
  assert (Hprep : exists o, (if 0 <? tb.(size_) then
      '(tb, c) ← (if negb (is_file_open tb c) then open_file tid tb c else Ok (tb, c));
      if tb.(trace_fd_) <? 0 then Ok (tb, c, true)
      else c ← write_file tb.(trace_fd_) tb.(buf_) tb.(size_) c; Ok (set_size_ tb 0, c, false)
    else Ok (tb, c, false)) = Ok (set_size_ tb 0, with_os c o, false) /\
    (forall fd, os_file o fd = os_file c.(k_os) fd) /\
    (forall q, os_sent o q = if decide (q = p) then os_sent c.(k_os) q ++ bytes else os_sent c.(k_os) q)).
  { rewrite Hb2. destruct (Z.ltb_spec 0 (zlen bytes)) as [Hpos|Hz].
    - rewrite Hopen. cbn [negb]. rewrite bind_ok. cbv beta iota. rewrite (proj2 (Z.ltb_ge _ _)), Hb1, Hb2 by lia.
      rewrite (write_file_ok c _ b l bytes) by done. rewrite bind_ok.
      destruct (written_law c.(k_os) tb.(trace_fd_) p bytes Hf) as [W1 W2]. eexists. split; [done|]. by split.
    - assert (bytes = []) as -> by (destruct bytes; [done|]; rewrite zlen_cons in Hz; pose proof (zlen_nonneg bytes); lia).
      exists c.(k_os). split; [|split; [done|]].
      + destruct tb, c; cbn in *. by subst.
      + intros q. rewrite app_nil_r. by case_decide. }
  destruct Hprep as (o & -> & O1 & O2). rewrite bind_ok. cbv beta iota. cbn [set_size_ buf_]. rewrite Hb1.
  cbn [deref res_of_option]. rewrite bind_ok. cbn [with_os k_mem]. unfold free, block_of. cbn [blk]. rewrite Hl1.
  cbn [res_of_option]. rewrite !bind_ok. unfold finish_close, is_file_open.
  cbn [set_buf_ set_size_ set_capacity_ trace_fd_ with_mem with_os k_os].
  assert (Hok : os_fcntl_ok o tb.(trace_fd_) = true) by (apply fcntl_law; rewrite O1; by eexists).
  rewrite Hok, (proj2 (Z.eqb_neq _ _)) by lia. cbn [negb andb].
  destruct (fsync_law o tb.(trace_fd_)) as [F1 F2].
  destruct (close_law (os_fsync o tb.(trace_fd_)) tb.(trace_fd_)) as (C1 & C2 & C3).
  eexists _, _. split; [done|]. cbn [with_os with_mem k_os k_mem m_blocks k_queue k_ctx buf_ capacity_ size_ trace_fd_].
  split; [by rewrite C3, F2, O2, decide_True|]. split; [intros q Hq'; by rewrite C3, F2, O2, decide_False|].
  split; [done|]. split; [intros fd Hne; by rewrite C2, F1, O1|]. done.
Qed.

Lemma finish_opened tid (c : core OS) tb p blks items b bytes :
  opened c tb p blks items b bytes ->
  exists tb' c', finish tid tb c = Ok (tb', c') /\
    os_sent c'.(k_os) p = os_sent c.(k_os) p ++ bytes /\
    (forall q, q <> p -> os_sent c'.(k_os) q = os_sent c.(k_os) q) /\
    os_file c'.(k_os) tb.(trace_fd_) = None /\
    (forall fd, fd <> tb.(trace_fd_) -> os_file c'.(k_os) fd = os_file c.(k_os) fd) /\
    c'.(k_mem) = Mem c.(k_mem).(m_next) (delete b c.(k_mem).(m_blocks)) /\ c'.(k_queue) = c.(k_queue) /\ c'.(k_ctx) = c.(k_ctx) /\
    tb'.(buf_) = None /\ tb'.(capacity_) = 0 /\ tb'.(size_) = 0 /\ tb'.(trace_fd_) = tb.(trace_fd_).
Proof. intros [Hc Hf _ Hbuf _ _]. by apply finish_ready. Qed.
End Finish.

(** ** Names *)

Lemma tid_names : forallb (fun k => bool_decide (ztake 3 (tid_text (Z.of_nat k)) = ztake 3 (tid_text (Z.of_nat k / 10))))
  (seq 1000 (Z.to_nat 9000)) = true.
Proof. vm_compute. reflexivity. Qed.

Lemma tid_text_dec tid : 0 <= tid < 2 ^ 31 -> dec (tid_text tid) = tid /\ forall k, 0 < k -> tid < 10 ^ k -> zlen (tid_text tid) <= k.
Proof.
  intros H. destruct (decimal_text tid ltac:(lia)) as (t & E & _ & _ & Hdec & Hlen). unfold tid_text. rewrite E.
  unfold sign_chars. rewrite (proj2 (Z.ltb_ge _ _)) by lia. cbn [app]. rewrite Z.abs_eq in Hdec, Hlen by lia. done.
Qed.

(** ** Theorems *)

(** The size of an event that [put_event] copies as it should: the copy
    goes in pairs of bytes behind the first one. *)
Definition copyable (n : nat) : bool := Z.odd (Z.of_nat n) && (Z.of_nat n <? 64).

(** A state to try the theorems on: descriptor 5 is open, the buffer holds
    two bytes, the queue is empty ([demo_a]) or holds them ([demo_b]). *)
Definition demo_os : sim := Sim {[5 := [112]]} ∅ ∅ ∅ (0, 0) 1 (0, 0, 0, 0) [] ∅ 1000.

Definition demo_a : core sim := start 3 (Core demo_mem demo_os demo_ctx None None 0 0).

Definition demo_b : TLBuffer * core sim :=
  match flush 0 demo_buf demo_a with Ok r => r | Err _ => (demo_buf, demo_a) end.

Lemma demo_only fd : sim_file demo_os fd = Some [112] -> fd = 5.
Proof.
  unfold sim_file. destruct (fd <? 0); [done|]. change (sim_fds demo_os) with ({[5 := [112]]} : gmap Z chars).
  by intros [<- _]%lookup_singleton_Some.
Qed.

Lemma demo_a_opened : opened demo_a demo_buf [112] [1; 2; 3] [] 0 [65; 66].
Proof.
  split.
  - reflexivity.
  - reflexivity.
  - exact demo_only.
  - split; [done|]. split; [done|]. split; [unfold cap_ok; cbn; lia|].
    exists (Some 65 :: Some 66 :: replicate 62 None). split; [reflexivity|]. split; reflexivity.
  - repeat (apply Forall_cons_2; [unfold byte_ok; lia|]). apply Forall_nil_2.
  - change (use_io_q (k_ctx demo_a)) with true. cbv iota. split.
    { apply (start_ok (Core demo_mem demo_os demo_ctx None None 0 0) 3); [lia|unfold cap_ok; cbn; lia|done]. }
    split; [apply (bool_decide_unpack _); vm_compute; exact I|]. split; [constructor|].
    eexists. split; [reflexivity|]. vm_compute. discriminate.
Qed.

Lemma demo_b_opened : opened demo_b.2 demo_b.1 [112] [0; 2; 3] [(5, [65; 66])] 1 [].
Proof.
  split.
  - vm_compute. reflexivity.
  - vm_compute. reflexivity.
  - change (trace_fd_ demo_b.1) with 5. exact demo_only.
  - split; [reflexivity|]. split; [reflexivity|]. split; [unfold cap_ok; vm_compute; split; congruence|].
    exists (replicate 64 None). split; [vm_compute; reflexivity|]. split; reflexivity.
  - apply Forall_nil_2.
  - change (use_io_q (k_ctx demo_b.2)) with true. cbv iota. split.
    { destruct demo_pushed_rep as (q & ts & Hq & Hr).
      assert (k_queue demo_b.2 = k_queue demo_pushed /\ k_mem demo_b.2 = k_mem demo_pushed) as [E1 E2]
        by (split; vm_compute; reflexivity).
      exists q, ts. by rewrite E1, E2. }
    split; [apply (bool_decide_unpack _); vm_compute; exact I|].
    split; [apply Forall_singleton; exists [112]; vm_compute; reflexivity|].
    eexists. split; [vm_compute; reflexivity|]. vm_compute. discriminate.
Qed.

(** C10: [put_event] appends the event.  For an open trace buffer in a run
    without compression, without the output queue or with one of two entries or
    more, and whether the buffer has to be flushed or not, putting an event of
    any copyable size succeeds, keeps the buffer open and within its capacity,
    and the stream of the thread (what was handed to [write] for its file,
    waiting requests, buffer) grows by exactly the bytes of the event. *)
Theorem put_event_appends {OS} `{HL : OSLaws OS} {E} `{HP : Packed E} (e : E) (tid : Z) (c : core OS) (tb : TLBuffer)
    (p : chars) (blks : list Z) (items : list request) (b : Z) (bytes : list Z) :
  opened c tb p blks items b bytes -> copyable (sizeof E) = true ->
  exists tb' c' blks' items' b' bytes',
    put_event e tid tb c = Ok (tb', c') /\ opened c' tb' p blks' items' b' bytes' /\
    stream c' tb' p items' bytes' = stream c tb p items bytes ++ encode e /\
    tb'.(e_counter_) = u64 (tb.(e_counter_) + 1).
Proof.
  intros Hop [Hodd Hsz%Z.ltb_lt]%andb_true_iff.
  destruct (put_event_opened e tid c tb p blks items b bytes Hop Hodd Hsz)
    as (tb' & c' & blks' & items' & b' & bytes' & H1 & H2 & H3 & _ & H4 & _).
  by exists tb', c', blks', items', b', bytes'.
Qed.

Lemma put_event_appends_witness :
  exists tb' c' blks' items' b' bytes',
    put_event (new_LockEvent 7 9) 0 demo_buf demo_a = Ok (tb', c') /\ opened c' tb' [112] blks' items' b' bytes' /\
    stream c' tb' [112] items' bytes' = stream demo_a demo_buf [112] [] [65; 66] ++ encode (new_LockEvent 7 9) /\
    tb'.(e_counter_) = 1.
Proof.
  apply (put_event_appends (new_LockEvent 7 9) 0 demo_a demo_buf [112] [1; 2; 3] [] 0 [65; 66]);
    [apply demo_a_opened|reflexivity].
Defined.

(** Every event of the interface is copyable. *)
Lemma events_copyable :
  Forall (fun n => copyable n = true)
    [sizeof AllocEvent; sizeof DeallocEvent; sizeof LockEvent; sizeof UnlockEvent; sizeof ThrCondWaitEvent;
     sizeof ThrCondSignalEvent; sizeof ThrCondBCEvent; sizeof MemRangeAccEvent; sizeof MemAccEvent;
     sizeof CreateThreadEvent; sizeof ThreadBeginEvent; sizeof JoinThreadEvent; sizeof ThreadEndEvent;
     sizeof PtrAssignEvent; sizeof PtrDeRefEvent; sizeof UFOHeader; sizeof FuncEntryEvent; sizeof FuncExitEvent;
     sizeof UFOPkt].
Proof. repeat (constructor; [reflexivity|]). constructor. Qed.

(** The worker moves bytes of streams without changing them: after an
    iteration the stream of every open buffer is what it was. *)
Theorem worker_keeps_streams {OS} `{HL : OSLaws OS} (c : core OS) (tb : TLBuffer) (p : chars) (blks : list Z)
    (r : request) (items : list request) (b : Z) (bytes : list Z) :
  opened c tb p blks (r :: items) b bytes -> c.(k_ctx).(use_io_q) = true ->
  exists c', work_once c = Ok c' /\ opened c' tb p blks items b bytes /\
    stream c' tb p items bytes = stream c tb p (r :: items) bytes.
Proof.
  intros [Hc Hf Ho Hbuf Hby Hq] Eq. rewrite Eq in Hq. destruct Hq as (Hrep & Hnin & Hfds & q & Hq & Hlen).
  apply Forall_cons in Hfds as [Hr Hfds]. destruct r as [fd bs].
  destruct (work_once_ok c blks fd bs items Hc Hrep) as (q' & E & Hr' & Hlen'). specialize (Hlen' q Hq).
  destruct (work_stream c.(k_os) tb.(trace_fd_) p (fd, bs) items Hf Ho Hr) as [W1 W2]. cbn [fst snd] in W1, W2.
  eexists. split; [exact E|]. split.
  - split; cbn [with_queue with_os k_ctx k_os k_mem]; try done.
    + by rewrite W1.
    + intros fd'. rewrite W1. apply Ho.
    + rewrite Eq. split; [destruct Hr' as [ts' Hr']; by exists q', ts'|]. split; [done|].
      split; [eapply Forall_impl; [exact Hfds|]; intros r; by rewrite W1|]. exists q'. split; [done|lia].
  - unfold stream. cbn [with_queue with_os k_os]. by rewrite !app_assoc, W2.
Qed.

Lemma worker_keeps_streams_witness :
  exists c', work_once demo_b.2 = Ok c' /\ opened c' demo_b.1 [112] [0; 2; 3] [] 1 [] /\
    stream c' demo_b.1 [112] [] [] = stream demo_b.2 demo_b.1 [112] [(5, [65; 66])] [].
Proof.
  apply (worker_keeps_streams demo_b.2 demo_b.1 [112] [0; 2; 3] (5, [65; 66]) [] 1 []);
    [apply demo_b_opened|reflexivity].
Defined.

(** C34: finishing completes the file, if nothing waits.  In a run without
    compression, when no request for the thread's file is in the queue,
    [finish] hands the rest of the stream to [write], frees the buffer and
    closes the file; if no write was short, the file then has the whole stream.
    What other files were sent is as before. *)
Theorem finish_completes {OS} `{HL : OSLaws OS} (tid : Z) (c : core OS) (tb : TLBuffer) (p : chars) (blks : list Z)
    (items : list request) (b : Z) (bytes : list Z) :
  opened c tb p blks items b bytes -> queued tb.(trace_fd_) items = [] ->
  exists tb' c', finish tid tb c = Ok (tb', c') /\
    os_sent c'.(k_os) p = stream c tb p items bytes /\ (os_short c'.(k_os) = false -> os_bytes c'.(k_os) p = stream c tb p items bytes) /\
    (forall q, q <> p -> os_sent c'.(k_os) q = os_sent c.(k_os) q) /\
    os_file c'.(k_os) tb.(trace_fd_) = None /\ c'.(k_mem).(m_blocks) = delete b c.(k_mem).(m_blocks) /\
    tb'.(buf_) = None.
Proof.
  intros Hop Hq. destruct (finish_opened tid c tb p blks items b bytes Hop)
    as (tb' & c' & E & H1 & H2 & H3 & _ & H4 & _ & _ & H5 & _). exists tb', c'. split; [done|].
  assert (Hs : os_sent c'.(k_os) p = stream c tb p items bytes) by (by unfold stream; rewrite Hq).
  split; [done|]. split; [intros Hn; by rewrite complete_law|]. by rewrite H4.
Qed.

Lemma finish_completes_witness :
  exists tb' c', finish 0 demo_buf demo_a = Ok (tb', c') /\ os_short c'.(k_os) = false /\
    os_bytes c'.(k_os) [112] = stream demo_a demo_buf [112] [] [65; 66] /\
    os_file c'.(k_os) 5 = None /\ c'.(k_mem).(m_blocks) = delete 0 demo_a.(k_mem).(m_blocks) /\ tb'.(buf_) = None.
Proof.
  destruct (finish_completes 0 demo_a demo_buf [112] [1; 2; 3] [] 0 [65; 66] demo_a_opened eq_refl) as (tb' & c' & E & _ & Hb & _ & H).
  assert (Hs : os_short c'.(k_os) = false) by (vm_compute in E; injection E as _ <-; vm_compute; reflexivity).
  exists tb', c'. split; [exact E|]. split; [exact Hs|]. split; [exact (Hb Hs)|exact H].
Defined.

(** C35: a short write is not noticed.  When a buffer is flushed directly, in a
    run without compression, and [write] takes only the first [n] bytes, or
    fails, [flush] succeeds and empties the buffer all the same; the file has
    these [n] bytes, and the others are lost. *)
Theorem short_write_loses {OS} `{HL : OSLaws OS} (tid : Z) (c : core OS) (tb : TLBuffer) (p : chars) (blks : list Z)
    (items : list request) (b : Z) (bytes : list Z) (n : Z) (o : OS) :
  opened c tb p blks items b bytes -> c.(k_ctx).(use_io_q) = false -> os_write c.(k_os) tb.(trace_fd_) bytes = (n, o) -> n < zlen bytes ->
  exists c', flush tid tb c = Ok (set_size_ tb 0, c') /\ os_bytes c'.(k_os) p = os_bytes c.(k_os) p ++ ztake n bytes /\ os_short c'.(k_os) = true.
Proof.
  intros Hop Eq Ew Hn. destruct (opened_is_open _ _ _ _ _ _ _ Hop) as [Hopen Hfd]. destruct Hop as [Hc Hf Ho Hbuf Hby _].
  unfold flush. rewrite Hopen. cbn [negb]. rewrite bind_ok. cbv beta iota. rewrite (proj2 (Z.ltb_ge _ _)), Eq by lia.
  destruct Hbuf as (Hb1 & Hb2 & _ & l & Hl1 & Hl2 & Hl3). rewrite Hb1, Hb2, (write_file_ok c _ b l bytes) by done. rewrite !bind_ok. cbv beta iota.
  eexists. split; [done|]. cbn [with_os k_os]. rewrite Ew. cbn [snd]. destruct (fsync_bytes_law o tb.(trace_fd_)) as [-> ->].
  destruct (write_law c.(k_os) tb.(trace_fd_) p bytes Hf) as (n' & o' & E & _ & _ & _ & _ & Hb & _ & Hs). rewrite Ew in E. injection E as <- <-.
  split; [done|]. rewrite Hs, (proj2 (Z.ltb_lt _ _)) by done. apply orb_true_r.
Qed.

(** A disk with room for one more byte, and no queue. *)
Definition demo_full : core sim :=
  Core demo_mem (sim_set demo_os demo_os.(sim_fds) ∅ 1) (mkUFOContext false 1 1 false 0 64 0 0 true false false false false (Ptr 0 0) 0 0 false false 3)
    None None 0 0.

Lemma demo_full_opened : opened demo_full demo_buf [112] [] [] 0 [65; 66].
Proof. destruct demo_a_opened as [_ _ _ Hbuf Hby _]. split; try done; try exact demo_only. Qed.

Lemma short_write_loses_witness :
  exists c', flush 0 demo_buf demo_full = Ok (set_size_ demo_buf 0, c') /\ os_bytes c'.(k_os) [112] = [65] /\ os_short c'.(k_os) = true.
Proof. apply (short_write_loses 0 demo_full demo_buf [112] [] [] 0 [65; 66] 1 (os_write demo_full.(k_os) 5 [65; 66]).2 demo_full_opened); reflexivity. Defined.

(** Finishing overtakes the queue.  If a request for the thread's file
    still waits when the thread ends, [finish] writes the newer bytes of the
    buffer and closes the file; when the worker comes to the request its
    descriptor is closed, and its bytes are lost. *)
Theorem finish_loses_queued {OS} `{HL : OSLaws OS} (tid : Z) (c : core OS) (tb : TLBuffer) (p : chars) (blks : list Z)
    (old : list Z) (items : list request) (b : Z) (bytes : list Z) :
  opened c tb p blks ((tb.(trace_fd_), old) :: items) b bytes -> c.(k_ctx).(use_io_q) = true ->
  exists tb' c' c'', finish tid tb c = Ok (tb', c') /\ work_once c' = Ok c'' /\
    os_sent c''.(k_os) p = os_sent c.(k_os) p ++ bytes.
Proof.
  intros Hop Eq. destruct (finish_opened tid c tb p blks _ b bytes Hop)
    as (tb' & c' & E & H1 & _ & H3 & _ & Hm & Hqq & Hctx & _).
  destruct Hop as [Hc _ _ _ _ Hq]. rewrite Eq in Hq. destruct Hq as ((q & ts & Hq & Hr) & Hnin & _).
  assert (Hrep : q_rep c' blks ((tb.(trace_fd_), old) :: items)).
  { exists q, ts. rewrite Hqq. split; [done|]. eapply ring_frame; [|exact Hr]. intros x Hx. rewrite Hm.
    apply lookup_delete_ne. intros ->. done. }
  destruct (work_once_ok c' blks _ _ items ltac:(by rewrite Hctx) Hrep) as (q' & Ew & _).
  eexists _, c', _. split; [done|]. split; [exact Ew|]. cbn [with_queue with_os k_os].
  destruct (write_fails_law c'.(k_os) tb.(trace_fd_) old H3) as [_ Wd].
  destruct (fsync_law (os_write c'.(k_os) tb.(trace_fd_) old).2 tb.(trace_fd_)) as [_ Fd]. by rewrite Fd, Wd.
Qed.

(** the file ends up empty: the two bytes are lost *)
Lemma finish_loses_queued_witness :
  exists tb' c' c'', finish 0 demo_b.1 demo_b.2 = Ok (tb', c') /\ work_once c' = Ok c'' /\
    os_sent c''.(k_os) [112] = os_sent demo_b.2.(k_os) [112] ++ [].
Proof.
  apply (finish_loses_queued 0 demo_b.2 demo_b.1 [112] [0; 2; 3] [65; 66] [] 1 []); [apply demo_b_opened|reflexivity].
Defined.

Lemma trace_name_inj (dir : chars) (tid tid' : Z) :
  0 <= tid < 1000 -> 0 <= tid' < 1000 -> trace_name dir tid = trace_name dir tid' -> tid = tid'.
Proof.
  intros H H' E. unfold trace_name in E. apply app_inv_head in E. injection E as E.
  destruct (tid_text_dec tid ltac:(lia)) as [D1 L1]. destruct (tid_text_dec tid' ltac:(lia)) as [D2 L2].
  rewrite !ztake_all in E by (apply L1 || apply L2; lia). congruence.
Qed.

Lemma trace_name_cut (dir : chars) (tid : Z) :
  1000 <= tid < 10000 -> trace_name dir tid = trace_name dir (tid / 10).
Proof.
  intros H. unfold trace_name. do 2 f_equal. pose proof tid_names as Hn. rewrite forallb_forall in Hn.
  specialize (Hn (Z.to_nat tid)). rewrite Z2Nat.id in Hn by lia. apply bool_decide_eq_true in Hn; [done|].
  apply in_seq. lia.
Qed.

Lemma open_file_path {OS} `{HL : OSLaws OS} tid tb (c : core OS) dir :
  is_cstr dir (cells c.(k_mem) c.(k_ctx).(trace_dir)) -> mem_wf c.(k_mem) ->
  zlen dir < 2 ^ 30 -> - 2 ^ 31 <= tid < 2 ^ 31 ->
  exists tb' c', open_file tid tb c = Ok (tb', c') /\
    (0 <= tb'.(trace_fd_) -> os_file c'.(k_os) tb'.(trace_fd_) = Some (trace_name dir tid)).
Proof.
  intros Hdir Hwf Hlen Htid. rewrite (open_file_ok _ _ _ dir) by done.
  destruct (os_open (k_os c) (trace_name dir tid)) as [fd o] eqn:Eo.
  do 2 eexists. split; [done|]. intros Hfd. cbn [trace_fd_ set_trace_fd_ k_os with_os] in *. destruct (open_law _ _ _ _ Eo Hfd) as (_ & Hf & _).
  destruct (write_law _ _ _ (encode (trace_header c tid)) Hf) as (n' & o' & Ew & Hf' & _).
  rewrite Ew. cbn. by rewrite Hf'.
Qed.

(** Trace files of different threads.  [open_file] succeeds for every
    thread id of four digits; where the system opens the files, threads with
    ids below 1000 get different files, and a thread with a four-digit id gets
    the file of the thread whose id lacks the last digit: the name has room
    for three digits only. *)
Theorem trace_files {OS} `{HL : OSLaws OS} (tid tid' : Z) (tb tb' : TLBuffer) (c c' : core OS) (dir : chars) :
  is_cstr dir (cells c.(k_mem) c.(k_ctx).(trace_dir)) -> mem_wf c.(k_mem) ->
  is_cstr dir (cells c'.(k_mem) c'.(k_ctx).(trace_dir)) -> mem_wf c'.(k_mem) ->
  zlen dir < 2 ^ 30 -> 0 <= tid < 10000 -> 0 <= tid' < 10000 ->
  exists tb1 c1 tb1' c1',
    open_file tid tb c = Ok (tb1, c1) /\ open_file tid' tb' c' = Ok (tb1', c1') /\
    (0 <= tb1.(trace_fd_) -> 0 <= tb1'.(trace_fd_) ->
     (tid < 1000 -> tid' < 1000 ->
      os_file c1.(k_os) tb1.(trace_fd_) = os_file c1'.(k_os) tb1'.(trace_fd_) -> tid = tid') /\
     (1000 <= tid -> tid' = tid / 10 ->
      os_file c1.(k_os) tb1.(trace_fd_) = os_file c1'.(k_os) tb1'.(trace_fd_))).
Proof.
  intros Hd Hw Hd' Hw' Hl Ht Ht'.
  destruct (open_file_path tid tb c dir) as (tb1 & c1 & E & Hp); [done..|lia|].
  destruct (open_file_path tid' tb' c' dir) as (tb1' & c1' & E' & Hp'); [done..|lia|].
  exists tb1, c1, tb1', c1'. split; [done|]. split; [done|]. intros Hf Hf'. rewrite (Hp Hf), (Hp' Hf'). split.
  - intros ?? [= Hn]. apply (trace_name_inj dir); [lia|lia|done].
  - intros ? ->. f_equal. apply trace_name_cut. lia.
Qed.

Definition demo_dir : core sim :=
  Core (Mem 1 {[0 := [Some 100; Some 0]]}) demo_os demo_ctx None None 0 0.

Lemma demo_dir_ok : is_cstr [100] (cells demo_dir.(k_mem) demo_dir.(k_ctx).(trace_dir)) /\ mem_wf demo_dir.(k_mem).
Proof.
  split.
  - split; [repeat constructor; unfold byte_ok; lia|]. by exists [].
  - intros b l Hb. unfold demo_dir in Hb. cbn [k_mem m_blocks] in Hb.
    apply lookup_singleton_Some in Hb as [<- _]. cbn. lia.
Qed.

Lemma trace_files_witness :
  exists tb1 c1 tb1' c1',
    open_file 8000 demo_buf demo_dir = Ok (tb1, c1) /\ open_file 800 demo_buf demo_dir = Ok (tb1', c1') /\
    (0 <= tb1.(trace_fd_) -> 0 <= tb1'.(trace_fd_) ->
     (8000 < 1000 -> 800 < 1000 ->
      os_file c1.(k_os) tb1.(trace_fd_) = os_file c1'.(k_os) tb1'.(trace_fd_) -> 8000 = 800) /\
     (1000 <= 8000 -> 800 = 8000 / 10 ->
      os_file c1.(k_os) tb1.(trace_fd_) = os_file c1'.(k_os) tb1'.(trace_fd_))).
Proof.
  destruct demo_dir_ok as [Hd Hw].
  apply (trace_files 8000 800 demo_buf demo_buf demo_dir demo_dir [100]); try done; lia.
Defined.

(** Compressed blocks.  With compression, [write_file] appends the
    length of the compressed block in four bytes and the block, which
    decompresses to the buffer's bytes; its scratch memory is given back. *)
Theorem compressed_block {OS} `{HL : OSLaws OS} (c : core OS) (fd : Z) (p : chars) (b : Z) (l : list cell) (bytes : list Z) :
  c.(k_ctx).(use_compression) = true -> os_file c.(k_os) fd = Some p -> mem_wf c.(k_mem) ->
  c.(k_mem).(m_blocks) !! b = Some l -> slice l 0 (zlen bytes) = Some <$> bytes ->
  Forall byte_ok bytes -> zlen bytes <= 2 ^ 31 ->
  exists c' bs, write_file fd (Some (Ptr b 0)) (zlen bytes) c = Ok c' /\
    os_sent c'.(k_os) p = os_sent c.(k_os) p ++ le_bytes 4 (zlen bs) ++ bs /\
    zlen bs < 2 ^ 32 /\ decode bs = Some bytes /\ c'.(k_mem).(m_blocks) = c.(k_mem).(m_blocks).
Proof.
  intros Hc Hf Hwf Hb Hl Hok Hlen. pose proof (fd_law c.(k_os) fd ltac:(by eexists)) as Hfd.
  change (2 ^ 31) with 2147483648 in Hlen.
  destruct (decode_Compress bytes Hok ltac:(change (2 ^ 32) with 4294967296; lia)) as (bs & Ec & Hd & Hs).
  pose proof (Compress_bytes _ _ Hok Ec) as Hbs. pose proof (zlen_nonneg bytes). pose proof (zlen_nonneg bs).
  assert (Hmax : MaxCompressedLength (zlen bytes) < 2 ^ 32).
  { unfold MaxCompressedLength. assert (zlen bytes / 6 <= 357913942) by (apply Z.div_le_upper_bound; lia).
    change (2 ^ 32) with 4294967296. lia. }
  unfold write_file. rewrite (proj2 (Z.ltb_ge _ _)), Hc, (get_bytes_ok _ _ _ _ Hb Hl), bind_ok by lia. cbv zeta.
  destruct (alloc c.(k_mem) (snappy_max_compressed_length (zlen bytes))) as [out m1] eqn:Ea.
  unfold alloc, snappy_max_compressed_length in Ea. injection Ea as <- <-.
  unfold snappy_compress, snappy_max_compressed_length. cbn [res_of_option]. rewrite bind_ok, Z.ltb_irrefl.
  unfold RawCompress. rewrite Ec, !bind_ok. cbv beta iota.
  rewrite (store_bytes_ok _ _ 0 (replicate (Z.to_nat (MaxCompressedLength (zlen bytes))) None));
    [|cbn; apply lookup_insert_eq|lia|rewrite zlen_replicate; lia|done].
  rewrite bind_ok. destruct (write_law c.(k_os) fd p (le_bytes 4 (u32 (zlen bs))) Hf) as (n1 & o1 & -> & W1 & W2 & _).
  destruct (write_law o1 fd p bs) as (n2 & o2 & -> & W1' & W2' & _); [by rewrite W1|].
  unfold free, block_of. cbn [blk upd m_blocks m_next]. rewrite lookup_insert_eq. cbn [res_of_option]. rewrite !bind_ok.
  destruct (fsync_law o2 fd) as [_ F2].
  eexists _, bs. split; [done|]. cbn [with_os with_mem k_os k_mem m_blocks]. split; [|split; [lia|split; [done|]]].
  - rewrite F2, W2', W2, <- app_assoc. unfold u32. rewrite wrap_small by lia. done.
  - rewrite insert_insert_eq. apply delete_insert_id. by apply mem_wf_fresh.
Qed.

Definition demo_zip : core sim :=
  Core demo_mem demo_os (mkUFOContext false 1 1 false 0 64 0 0 true false false false false (Ptr 0 0) 0 0 false true 3)
    None None 0 0.

Lemma compressed_block_witness :
  exists c' bs, write_file 5 (Some (Ptr 0 0)) 2 demo_zip = Ok c' /\
    os_sent c'.(k_os) [112] = os_sent demo_os [112] ++ le_bytes 4 (zlen bs) ++ bs /\
    zlen bs < 2 ^ 32 /\ decode bs = Some [65; 66] /\ c'.(k_mem).(m_blocks) = demo_mem.(m_blocks).
Proof.
  apply (compressed_block demo_zip 5 [112] 0 (Some 65 :: Some 66 :: replicate 62 None) [65; 66]).
  - reflexivity.
  - reflexivity.
  - intros b l. cbn. intros [<- _]%lookup_singleton_Some. lia.
  - reflexivity.
  - reflexivity.
  - repeat (apply Forall_cons_2; [unfold byte_ok; lia|]). apply Forall_nil_2.
  - vm_compute. discriminate.
Defined.

(** Compression in the worker depends on an uninitialised variable.
    [_do_write] passes [outlen] without setting it; whenever the value found
    there is less than the maximal compressed length, the process dies, for
    any buffer. *)
Theorem queue_compression_dies {OS} `{OSOps OS} (c : core OS) (fd b : Z) (l : list cell) (bytes : list Z) :
  c.(k_ctx).(use_compression) = true -> c.(k_mem).(m_blocks) !! b = Some l ->
  slice l 0 (zlen bytes) = Some <$> bytes -> c.(k_outlen) < snappy_max_compressed_length (zlen bytes) ->
  _do_write fd (Some (Ptr b 0)) (zlen bytes) c = Err EDie.
Proof.
  intros Hc Hb Hl Ho. unfold _do_write. fold (get_bytes c.(k_mem) (Some (Ptr b 0)) (zlen bytes)).
  rewrite (get_bytes_ok _ _ _ _ Hb Hl), bind_ok, Hc. unfold snappy_compress. cbn [res_of_option]. rewrite bind_ok.
  by rewrite (proj2 (Z.ltb_lt _ _)).
Qed.

Lemma queue_compression_dies_witness : _do_write 5 (Some (Ptr 0 0)) 2 demo_zip = Err EDie.
Proof.
  apply (queue_compression_dies demo_zip 5 0 (Some 65 :: Some 66 :: replicate 62 None) [65; 66]); reflexivity.
Defined.
