(* ===== verification/Context.v ===== *)
(** * The context of the runtime

    Models the configuration and the files of
    [src/ufo-rt/lib/tsan/rtl/ufo/ufo.cc] (with the constants of [defs.h]):
    reading the environment, naming and opening the trace directory, writing
    the table of modules and the statistics.  The life cycle of the context,
    which calls these, is in [Runtime].

    The strings of the environment and the string constants are outside the
    blocks of the runtime's memory; where a string routine copies one, it is
    placed in a block of its own for the duration of the call.

    Shown: the configuration is accepted exactly when the sizes are in their
    ranges, and then every size is in the range the buffers and the queue rely
    on; the directory's name is what it should be, terminated and within its
    array, for every environment; the file paths are right for short names and
    built from uninitialised bytes for long ones; the table of modules lists
    every module in the order of the addresses. *)
From Stdlib Require Import ZArith Lia String.
From stdpp Require Import base numbers list gmap sorting.
From S2P Require Import Prelude Memory Events LibC Printf Stat State HeapSort IOQueue TLBuffer.

Local Open Scope Z_scope.

(** ** Constants *)

Definition MAX_THREAD : Z := 8192.
Definition ENV_UFO_ON : chars := str "UFO_ON".
Definition ENV_NO_STACK_ACC : chars := str "UFO_NO_STACK".
Definition NO_STACK_ACC : Z := 1.
Definition ENV_TL_BUF_SIZE : chars := str "UFO_TL_BUF".
Definition DEFAULT_BUF_PRE_THR : Z := 128.
Definition ENV_TRACE_DIR : chars := str "UFO_TDIR".
Definition DEFAULT_TRACE_DIR : chars := str "ufo_traces".
Definition ENV_USE_COMPRESS : chars := str "UFO_COMPRESS".
Definition COMPRESS_ON : Z := 0.
Definition ENV_USE_IO_Q : chars := str "UFO_ASYNC_IO".
Definition ASYNC_IO_ON : Z := 1.
Definition ENV_IO_Q_SIZE : chars := str "UFO_IO_Q".
Definition DEFAULT_IO_Q_SIZE : Z := 4.
Definition ENV_TRACE_FUNC : chars := str "UFO_CALL".
Definition ENV_NO_VALUE : chars := str "UFO_NO_VALUE".
Definition ENV_PRINT_STAT : chars := str "UFO_STAT".
Definition ENV_PTR_PROP : chars := str "UFO_PTR_PROP".
Definition NAME_MODULE_INFO : chars := str "/_module_info.txt".
Definition NAME_STAT_FILE : chars := str "/_statistics.txt".
Definition NAME_STAT_CSV : chars := str "/_statistics.csv".
Definition ENV_UFO_MEM_T1 : chars := str "UFO_MEM_T1".
Definition ENV_UFO_MEM_T2 : chars := str "UFO_MEM_T2".
Definition DEFAULT_MEM_THRESHOLD_1 : Z := 128 * 80.
Definition DEFAULT_MEM_THRESHOLD_2 : Z := 128 * 120.

(** ** Strings outside the runtime's memory *)

(** A memory that holds one string. *)
Definition string_mem (s : chars) : mem := Mem 1 {[0 := Some <$> (s ++ [0])]}.

Definition place (m : mem) (s : chars) : ptr * mem :=
  let '(p, m) := alloc m (zlen s + 1) in (p, upd m p.(blk) (Some <$> (s ++ [0]))).

(** [internal_strncpy] and [internal_strncat] with such a string as source *)
Definition strncpy_from (m : mem) (dst : ptr) (s : chars) (n : Z) : res mem :=
  let '(p, m) := place m s in m ← internal_strncpy m dst p n; free m p.

Definition strncat_from (m : mem) (dst : ptr) (s : chars) (n : Z) : res mem :=
  let '(p, m) := place m s in m ← internal_strncat m dst p n; free m p.

(** [%lx] *)
Definition hex (v : Z) : list Z :=
  match number_digits (Z.to_nat kMaxLen) v 16 with
  | Ok ds => digit_char false <$> rev ds
  | Err _ => []
  end.

(** ** Fields of the context *)

Definition set_mudule_length_ (u : UFOContext) (n : Z) : UFOContext :=
  mkUFOContext u.(do_print_stat_) u.(cur_pid_) u.(p_pid_) u.(is_subproc) n u.(tl_buf_size_) u.(mem_t1_) u.(mem_t2_)
    u.(is_on) u.(no_stack) u.(no_data_value) u.(trace_func_call) u.(trace_ptr_prop) u.(trace_dir) u.(time_started)
    u.(e_count) u.(use_io_q) u.(use_compression) u.(out_queue_legth).
Definition set_e_count (u : UFOContext) (n : Z) : UFOContext :=
  mkUFOContext u.(do_print_stat_) u.(cur_pid_) u.(p_pid_) u.(is_subproc) u.(mudule_length_) u.(tl_buf_size_) u.(mem_t1_)
    u.(mem_t2_) u.(is_on) u.(no_stack) u.(no_data_value) u.(trace_func_call) u.(trace_ptr_prop) u.(trace_dir)
    u.(time_started) n u.(use_io_q) u.(use_compression) u.(out_queue_legth).
Definition set_time_started (u : UFOContext) (n : Z) : UFOContext :=
  mkUFOContext u.(do_print_stat_) u.(cur_pid_) u.(p_pid_) u.(is_subproc) u.(mudule_length_) u.(tl_buf_size_) u.(mem_t1_)
    u.(mem_t2_) u.(is_on) u.(no_stack) u.(no_data_value) u.(trace_func_call) u.(trace_ptr_prop) u.(trace_dir)
    n u.(e_count) u.(use_io_q) u.(use_compression) u.(out_queue_legth).
Definition set_process (u : UFOContext) (cur_pid p_pid : Z) (subproc : bool) : UFOContext :=
  mkUFOContext u.(do_print_stat_) cur_pid p_pid subproc u.(mudule_length_) u.(tl_buf_size_) u.(mem_t1_)
    u.(mem_t2_) u.(is_on) u.(no_stack) u.(no_data_value) u.(trace_func_call) u.(trace_ptr_prop) u.(trace_dir)
    u.(time_started) u.(e_count) u.(use_io_q) u.(use_compression) u.(out_queue_legth).
Definition set_is_on (u : UFOContext) (b : bool) : UFOContext :=
  mkUFOContext u.(do_print_stat_) u.(cur_pid_) u.(p_pid_) u.(is_subproc) u.(mudule_length_) u.(tl_buf_size_) u.(mem_t1_)
    u.(mem_t2_) b u.(no_stack) u.(no_data_value) u.(trace_func_call) u.(trace_ptr_prop) u.(trace_dir)
    u.(time_started) u.(e_count) u.(use_io_q) u.(use_compression) u.(out_queue_legth).
Definition set_recording (u : UFOContext) (nostack novalue : bool) : UFOContext :=
  mkUFOContext u.(do_print_stat_) u.(cur_pid_) u.(p_pid_) u.(is_subproc) u.(mudule_length_) u.(tl_buf_size_) u.(mem_t1_)
    u.(mem_t2_) u.(is_on) nostack novalue u.(trace_func_call) u.(trace_ptr_prop) u.(trace_dir)
    u.(time_started) u.(e_count) u.(use_io_q) u.(use_compression) u.(out_queue_legth).
Definition set_trace_dir (u : UFOContext) (p : ptr) : UFOContext :=
  mkUFOContext u.(do_print_stat_) u.(cur_pid_) u.(p_pid_) u.(is_subproc) u.(mudule_length_) u.(tl_buf_size_) u.(mem_t1_)
    u.(mem_t2_) u.(is_on) u.(no_stack) u.(no_data_value) u.(trace_func_call) u.(trace_ptr_prop) p
    u.(time_started) u.(e_count) u.(use_io_q) u.(use_compression) u.(out_queue_legth).

Section Config.
Context {OS : Type} `{OSOps OS}.

(** ** Configuration *)

Definition get_time_ms (o : OS) : Z * OS :=
  let '((tv_sec, tv_usec), o) := os_gettimeofday o in
  (u64 (u64 (u64 tv_sec * 1000) + u64 tv_usec / 1000), o).

Definition get_int_opt (o : OS) (name : chars) (default_val : Z) : res Z :=
  match os_getenv o name with
  | None => Ok default_val
  | Some str_int =>
      n ← internal_strnlen (string_mem str_int) (Ptr 0 0) 40;
      if n <? 1 then Ok default_val else internal_atoll (string_mem str_int) (Ptr 0 0)
  end.

(** The part of [read_config] that builds the directory's name. *)
Definition read_trace_dir (o : OS) (trace_dir : ptr) (cur_pid : Z) (m : mem) : res mem :=
  m ← internal_memset m trace_dir 0 DIR_MAX_LEN;
  m ← match os_getenv o ENV_TRACE_DIR with
      | None => strncpy_from m trace_dir DEFAULT_TRACE_DIR 100
      | Some env_dir =>
          dir_len ← internal_strnlen (string_mem env_dir) (Ptr 0 0) DIR_MAX_LEN;
          if dir_len <? 1 then strncpy_from m trace_dir DEFAULT_TRACE_DIR 100
          else strncpy_from m trace_dir env_dir (DIR_MAX_LEN - 45)
      end;
  dir_len ← internal_strnlen m trace_dir (DIR_MAX_LEN - 1);
  m ← (if (0 <? dir_len) && (dir_len <? DIR_MAX_LEN - 45) then
         c ← load m (padd trace_dir (dir_len - 1));
         if c =? 47 then store m (padd trace_dir (dir_len - 1)) 95
         else
           m ← store m (padd trace_dir dir_len) 95;
           store m (padd trace_dir (dir_len + 1)) 0
       else Ok m);
  let '(str_pid, m) := alloc m 50 in
  m ← internal_memset m str_pid 0 50;
  '(_, m) ← internal_snprintf m str_pid 45 (lit "%u") [VInt cur_pid];
  m ← internal_strncat m trace_dir str_pid 45;
  free m str_pid.

Definition read_config (c : core OS) : res (core OS) :=
  let o := c.(k_os) in
  let u := c.(k_ctx) in
  print_stat ← get_int_opt o ENV_PRINT_STAT 1;
  bufsz ← get_int_opt o ENV_TL_BUF_SIZE DEFAULT_BUF_PRE_THR;
  let bufsz := u64 bufsz in
  sz ← (if (0 <? bufsz) && (bufsz <? 4096) then Ok (u32 (u64 (bufsz * 1024 * 1024))) else Err EDie);
  bufsz ← get_int_opt o ENV_UFO_MEM_T1 DEFAULT_MEM_THRESHOLD_1;
  let bufsz := u64 bufsz in
  let mem_t1 :=
    if (0 <? bufsz) && (bufsz <? DEFAULT_MEM_THRESHOLD_1 * 100) then u64 (bufsz * 1024 * 1024)
    else DEFAULT_MEM_THRESHOLD_1 * 1024 * 1024 in
  bufsz ← get_int_opt o ENV_UFO_MEM_T2 DEFAULT_MEM_THRESHOLD_2;
  let bufsz := u64 bufsz in
  let mem_t2 :=
    if (mem_t1 <? u64 (bufsz * 1024 * 1024)) && (bufsz <? DEFAULT_MEM_THRESHOLD_2 * 100) then u64 (bufsz * 1024 * 1024)
    else u64 (mem_t1 * 3) / 2 in
  use_comp ← get_int_opt o ENV_USE_COMPRESS COMPRESS_ON;
  do_use_q ← get_int_opt o ENV_USE_IO_Q ASYNC_IO_ON;
  out_queue_legth ←
    (if negb (do_use_q =? 0) then
       io_q_sz ← get_int_opt o ENV_IO_Q_SIZE DEFAULT_IO_Q_SIZE;
       if (0 <? io_q_sz) && (io_q_sz <? 1024) then Ok io_q_sz else Err EDie
     else Ok (-1));
  do_trace_call ← get_int_opt o ENV_TRACE_FUNC 0;
  do_trace_ptr_prop ← get_int_opt o ENV_PTR_PROP 0;
  m ← read_trace_dir o u.(trace_dir) u.(cur_pid_) c.(k_mem);
  Ok (with_ctx (with_mem c m)
        (mkUFOContext (negb (print_stat =? 0)) u.(cur_pid_) u.(p_pid_) u.(is_subproc) u.(mudule_length_) sz mem_t1 mem_t2
           u.(is_on) u.(no_stack) u.(no_data_value) (negb (do_trace_call =? 0)) (negb (do_trace_ptr_prop =? 0))
           u.(trace_dir) u.(time_started) u.(e_count) (negb (do_use_q =? 0)) (negb (use_comp =? 0)) out_queue_legth)).

(** ** The directory *)

(** [sprintf(filepath, "%s/%s", ..)] into 320 bytes, then [remove] *)
Fixpoint remove_files (o : OS) (dir : chars) (names : list chars) : res OS :=
  match names with
  | [] => Ok o
  | d_name :: names' =>
      let filepath := dir ++ 47 :: d_name in
      if 320 <? zlen filepath + 1 then Err EOutOfBounds
      else remove_files (os_remove o filepath) dir names'
  end.

Definition open_trace_dir (c : core OS) : res (core OS) :=
  dir ← cstring (cells c.(k_mem) c.(k_ctx).(trace_dir));
  if negb (os_isdir c.(k_os) dir) then
    let '(ret, o) := os_mkdir c.(k_os) dir in
    if negb (ret =? 0) then Err EDie else Ok (with_os c o)
  else
    o ← remove_files c.(k_os) dir (os_readdir c.(k_os) dir);
    Ok (with_os c o).

(** ** Files *)

Definition CompareBaseAddressJEFF (a b : LoadedModule) : bool := a.(lm_base) <? b.(lm_base).

(** The three [fprintf]s for a module, and the end of the line. *)
Definition module_line (md : LoadedModule) : list Z :=
  md.(lm_full_name) ++ str "|" ++ hex md.(lm_base) ++ str "|" ++ hex md.(lm_max) ++ str "|" ++ crlf.

(** [internal_strncpy(path, trace_dir, 200); internal_strncat(path, name, 50);] *)
Definition build_path (m : mem) (path trace_dir : ptr) (name : chars) : res mem :=
  m ← internal_strncpy m path trace_dir 200; strncat_from m path name 50.

(** A null [FILE *] is used by [fprintf]. *)
Definition save_module_info (tid : Z) (c : core OS) : res (core OS) :=
  let modules := os_modules c.(k_os) in
  modules ← Sort CompareBaseAddressJEFF modules (length modules);
  let cur_len := u32 (zlen modules) in
  if c.(k_ctx).(mudule_length_) =? cur_len then Ok c
  else
    let u := set_mudule_length_ c.(k_ctx) cur_len in
    let '(path, m) := alloc c.(k_mem) DIR_MAX_LEN in
    m ← build_path m path u.(trace_dir) NAME_MODULE_INFO;
    name ← cstring (cells m path);
    o ← res_of_option ENull (os_put_file c.(k_os) name (concat (module_line <$> modules)));
    m ← free m path;
    Ok (with_ctx (with_os (with_mem c m) o) u).

(** [term] is the text on the terminal so far.  [summary_stat] accepts a null
    stream, [fclose] does not. *)
Definition output_stat (stat : list TLStatistic) (term : list Z) (c : core OS) : res (list Z * core OS) :=
  let u := c.(k_ctx) in
  let '(path, m) := alloc c.(k_mem) DIR_MAX_LEN in
  m ← build_path m path u.(trace_dir) NAME_STAT_FILE;
  name ← cstring (cells m path);
  let '(term, text) := summary_stat (term, Some []) stat u.(cur_pid_) u.(p_pid_) in
  o ← res_of_option ENull (os_put_file c.(k_os) name (default [] text));
  m ← internal_memset m path 0 DIR_MAX_LEN;
  m ← build_path m path u.(trace_dir) NAME_STAT_CSV;
  name ← cstring (cells m path);
  o ← res_of_option ENull (os_put_file o name (print_csv [] stat u.(cur_pid_) u.(p_pid_)));
  m ← free m path;
  Ok (term, with_os (with_mem c m) o).
End Config.

(** ** Strings in zeroed arrays *)

(** A constant is a C string. *)
Lemma const_chars s :
  forallb (fun c => (0 <? c) && (c <? 256)) s = true -> Forall (fun c => byte_ok c /\ c <> 0) s.
Proof.
  intros Hs. apply Forall_forall. intros c Hc. rewrite forallb_forall in Hs.
  apply list_elem_of_In, Hs, andb_true_iff in Hc as [H1%Z.ltb_lt H2%Z.ltb_lt]. unfold byte_ok. lia.
Qed.

Lemma string_mem_cstr s : Forall (fun c => byte_ok c /\ c <> 0) s -> is_cstr s (cells (string_mem s) (Ptr 0 0)).
Proof.
  intros Hs. split; [done|]. exists []. unfold cells, string_mem. cbn [blk m_blocks]. rewrite lookup_singleton_eq.
  change (0 <? 0) with false. cbv iota. by rewrite fmap_app.
Qed.

Lemma insert_splice {A} (l : list A) o a : 0 <= o < zlen l -> <[Z.to_nat o := a]> l = splice l o [a].
Proof.
  intros Ho. rewrite <- (splice_nil (<[_ := a]> l) (o + 1)) by lia. apply splice_cons; [lia|].
  change (zlen (@nil A)) with 0. lia.
Qed.

(** An array of [n] bytes that holds [t], the rest zero. *)
Definition padded (n : Z) (t : chars) : list cell := Some <$> (t ++ replicate (Z.to_nat (n - zlen t)) 0).

Lemma zlen_padded n t : zlen t <= n -> zlen (padded n t) = n.
Proof.
  intros Ht. unfold padded, zlen in *. rewrite length_fmap, length_app, length_replicate. lia.
Qed.

Lemma padded_cstr n t : Forall (fun c => byte_ok c /\ c <> 0) t -> zlen t < n -> is_cstr t (padded n t).
Proof.
  intros Ht Hn. split; [done|]. exists (Some <$> replicate (Z.to_nat (n - zlen t) - 1) 0).
  unfold padded. replace (Z.to_nat (n - zlen t)) with (S (Z.to_nat (n - zlen t) - 1)) at 1 by lia. by rewrite fmap_app.
Qed.

Lemma splice_padded n t x (k : nat) :
  zlen t + zlen x + Z.of_nat k <= n ->
  splice (padded n t) (zlen t) (Some <$> (x ++ replicate k 0)) = padded n (t ++ x).
Proof.
  intros Hn. pose proof (zlen_nonneg t). pose proof (zlen_nonneg x).
  unfold splice, padded, ztake, zdrop. rewrite <- fmap_take, <- fmap_drop, <- !fmap_app. f_equal.
  rewrite take_app_le, take_ge by (unfold zlen in *; lia). rewrite <- !app_assoc. do 2 f_equal.
  rewrite drop_app_ge by (rewrite zlen_fmap, zlen_app; unfold zlen in *; lia). rewrite drop_replicate, <- replicate_add.
  f_equal. rewrite zlen_fmap, !zlen_app. unfold zlen. rewrite length_replicate. unfold zlen in *. lia.
Qed.

Lemma padded_set n t c c' : zlen t < n -> <[Z.to_nat (zlen t) := Some c']> (padded n (t ++ [c])) = padded n (t ++ [c']).
Proof.
  intros Hn. unfold padded. rewrite !zlen_app. change (zlen [c']) with (zlen [c]). rewrite <- !app_assoc, !fmap_app.
  replace (Z.to_nat (zlen t)) with (length (Some <$> t) + 0)%nat by (rewrite length_fmap; unfold zlen; lia).
  by rewrite insert_app_r.
Qed.

(** Copies from outside leave the other blocks alone. *)
Lemma place_ok m s p m1 :
  place m s = (p, m1) -> mem_wf m -> Forall (fun c => byte_ok c /\ c <> 0) s ->
  p = Ptr m.(m_next) 0 /\ is_cstr s (cells m1 p) /\ (forall b, b <> m.(m_next) -> m1.(m_blocks) !! b = m.(m_blocks) !! b) /\
  forall b l, b <> m.(m_next) -> free (upd m1 b l) p = Ok (Mem (m.(m_next) + 1) (<[b := l]> m.(m_blocks))).
Proof.
  intros E Hwf Hs. unfold place, alloc in E. cbn [blk upd m_next m_blocks] in E. injection E as <- <-.
  split; [done|]. split; [|split].
  - split; [done|]. exists []. unfold cells. cbn [blk ofs m_blocks upd]. rewrite lookup_insert_eq.
    change (0 <? 0) with false. cbv iota. by rewrite fmap_app.
  - intros b Hb. cbn [upd m_blocks]. by rewrite !lookup_insert_ne.
  - intros b l Hb. unfold free, block_of. cbn [blk upd m_blocks m_next]. rewrite lookup_insert_ne, lookup_insert_eq by done.
    cbn [res_of_option]. rewrite bind_ok. do 2 f_equal.
    rewrite delete_insert_ne, insert_insert_eq, delete_insert_id by (done || by apply mem_wf_fresh). done.
Qed.

Lemma strncpy_from_ok m b l s n k t :
  m.(m_blocks) !! b = Some l -> mem_wf m -> Forall (fun c => byte_ok c /\ c <> 0) s -> 0 <= k <= n ->
  l = padded n [] -> t = ztake k s ->
  strncpy_from m (Ptr b 0) s k = Ok (Mem (m.(m_next) + 1) (<[b := padded n t]> m.(m_blocks))).
Proof.
  intros Hb Hwf Hs Hk -> ->. unfold strncpy_from. destruct (place m s) as [p m1] eqn:E.
  destruct (place_ok _ _ _ _ E Hwf Hs) as (-> & Hc & Hm & Hfree).
  assert (Hne : b <> m.(m_next)) by (specialize (Hwf _ _ Hb); lia).
  rewrite (strncpy_ok _ _ _ _ _ (padded n []) s); [|by rewrite Hm|done|done|lia|lia|].
  2: { rewrite zlen_padded; [lia|]. change (zlen (@nil Z)) with 0. lia. }
  rewrite bind_ok, Hfree by done. do 3 f_equal. apply (splice_padded n []).
  change (zlen (@nil Z)) with 0. unfold ztake, zlen. rewrite length_take. lia.
Qed.

Lemma strncat_from_ok m b n t s k :
  m.(m_blocks) !! b = Some (padded n t) -> mem_wf m -> Forall (fun c => byte_ok c /\ c <> 0) s ->
  Forall (fun c => byte_ok c /\ c <> 0) t -> zlen s <= k -> zlen t + k <= n -> zlen t + zlen s < n ->
  strncat_from m (Ptr b 0) s k = Ok (Mem (m.(m_next) + 1) (<[b := padded n (t ++ s)]> m.(m_blocks))).
Proof.
  intros Hb Hwf Hs Ht Hk Hn Hn'. unfold strncat_from. destruct (place m s) as [p m1] eqn:E.
  destruct (place_ok _ _ _ _ E Hwf Hs) as (-> & Hc & Hm & Hfree).
  assert (Hne : b <> m.(m_next)) by (specialize (Hwf _ _ Hb); lia). pose proof (zlen_nonneg s).
  rewrite (strncat_ok _ _ _ _ _ (padded n t) t s); [|by rewrite Hm| |done|done|lia|rewrite zlen_padded; lia|rewrite zlen_padded; lia].
  2: { rewrite (cells_block _ _ _ (padded n t)); [|by rewrite Hm|lia]. apply padded_cstr; [done|lia]. }
  rewrite bind_ok, Hfree by done. rewrite ztake_all by done. do 3 f_equal. rewrite Z.add_0_l.
  apply (splice_padded n t s 1). lia.
Qed.

(** ** The name of the trace directory *)

Definition dir_base (env : option chars) : chars :=
  match env with
  | Some (c :: s) => ztake (DIR_MAX_LEN - 45) (c :: s)
  | _ => DEFAULT_TRACE_DIR
  end.

(** A name that leaves room gets a trailing ['_'], in place of a trailing
    ['/']. *)
Definition dir_mark (d : chars) : chars :=
  if zlen d <? DIR_MAX_LEN - 45 then
    (match last d with Some 47 => removelast d | _ => d end) ++ [95]
  else d.

Definition dir_name (env : option chars) (pid : Z) : chars := dir_mark (dir_base env) ++ tid_text pid.

Lemma pid_text pid :
  0 <= pid < 2 ^ 32 ->
  number_text pid 10 0 false false false = Ok (tid_text pid) /\ zlen (tid_text pid) <= 10 /\
  Forall (fun c => byte_ok c /\ c <> 0) (tid_text pid).
Proof.
  intros Hp. destruct (decimal_text pid ltac:(lia)) as (t & E & _ & Hd & _ & Hl).
  unfold tid_text. rewrite E. unfold sign_chars, u64 in *. rewrite (proj2 (Z.ltb_ge pid 0)) in * by lia. cbn [app] in *.
  rewrite Z.abs_eq, wrap_small in E by lia. split; [done|]. split; [apply Hl; lia|].
  eapply Forall_impl; [exact Hd|]. cbn. intros c Hc. apply IsDigit_iff in Hc. unfold byte_ok. lia.
Qed.

Lemma pid_printf m pid :
  0 <= pid < 2 ^ 32 -> printf_text m (lit "%u") [VInt pid] = Ok (tid_text pid).
Proof.
  intros Hp.
  change (printf_text m (lit "%u") [VInt pid]) with
    (t1 ← number_text (u32 pid) 10 0 false false false; t2 ← Ok (@nil Z); Ok (t1 ++ t2)).
  unfold u32. rewrite wrap_small by done. destruct (pid_text pid Hp) as [-> _]. rewrite !bind_ok. by rewrite app_nil_r.
Qed.

Lemma append_pid_ok m b n d pid :
  m.(m_blocks) !! b = Some (padded n d) -> mem_wf m -> Forall (fun c => byte_ok c /\ c <> 0) d ->
  zlen d + 45 <= n -> 0 <= pid < 2 ^ 32 ->
  (let '(str_pid, m) := alloc m 50 in
   m ← internal_memset m str_pid 0 50;
   '(_, m) ← internal_snprintf m str_pid 45 (lit "%u") [VInt pid];
   m ← internal_strncat m (Ptr b 0) str_pid 45;
   free m str_pid) = Ok (Mem (m.(m_next) + 1) (<[b := padded n (d ++ tid_text pid)]> m.(m_blocks))).
Proof.
  intros Hb Hwf Hd Hn Hp. unfold alloc. destruct (pid_text pid Hp) as (_ & Hl & Ht).
  assert (Hne : b <> m.(m_next)) by (specialize (Hwf _ _ Hb); lia). pose proof (zlen_nonneg (tid_text pid)).
  set (m1 := Mem (m.(m_next) + 1) (<[m.(m_next) := replicate (Z.to_nat 50) None]> m.(m_blocks))).
  assert (Hb1 : m1.(m_blocks) !! m.(m_next) = Some (replicate (Z.to_nat 50) None)) by apply lookup_insert_eq.
  unfold internal_memset. rewrite (memset_loop_ok _ _ _ _ _ _ Hb1) by (done || (rewrite zlen_replicate; lia)).
  rewrite bind_ok. set (l0 := splice _ _ _). assert (Hl0 : zlen l0 = 50) by done.
  unfold internal_snprintf. change (s32 45) with 45.
  rewrite (VSNPrintf_ok _ _ _ _ _ _ _ (upd_lookup _ _ _)) by (lia || (repeat constructor)).
  rewrite pid_printf, !bind_ok, upd_upd by done.
  set (l1 := splice l0 0 _). assert (Hl1 : is_cstr (tid_text pid) l1).
  { split; [done|]. exists (zdrop (0 + zlen (Some <$> (tid_text pid ++ [0]))) l0). unfold l1.
    rewrite ztake_all by lia. unfold splice. change (ztake 0 l0) with (@nil cell). cbn [app]. by rewrite fmap_app, <- app_assoc. }
  assert (Hb2 : (upd m1 m.(m_next) l1).(m_blocks) !! b = Some (padded n d)).
  { rewrite upd_lookup_ne by done. unfold m1. cbn [m_blocks]. by rewrite lookup_insert_ne. }
  rewrite (strncat_ok _ _ _ _ _ (padded n d) d (tid_text pid) 45 Hb2);
    [| |by rewrite (cells_block _ _ _ _ (upd_lookup _ _ _))|done|lia|rewrite zlen_padded; lia|rewrite zlen_padded; lia].
  2: { rewrite (cells_block _ _ _ _ Hb2) by lia. apply padded_cstr; [done|lia]. }
  rewrite bind_ok, ztake_all by lia. rewrite Z.add_0_l. change [0] with (replicate 1 0) at 1. rewrite splice_padded by lia.
  unfold free, block_of. cbn [blk upd m_blocks m_next m1]. rewrite lookup_insert_ne, lookup_insert_eq by done.
  cbn [res_of_option]. rewrite bind_ok. do 2 f_equal.
  rewrite delete_insert_ne, !insert_insert_eq, delete_insert_id by (done || by apply mem_wf_fresh). done.
Qed.

Lemma dir_base_ok env :
  (forall s, env = Some s -> Forall (fun c => byte_ok c /\ c <> 0) s) ->
  Forall (fun c => byte_ok c /\ c <> 0) (dir_base env) /\ 0 < zlen (dir_base env) <= 210.
Proof.
  intros Henv. destruct env as [[|c s]|]; cbn [dir_base].
  1,3: split; [by apply const_chars|done].
  specialize (Henv _ eq_refl). change (DIR_MAX_LEN - 45) with 210. split; [by apply Forall_take|].
  unfold ztake, zlen. rewrite length_take. cbn [length]. lia.
Qed.

Lemma dir_mark_ok d :
  Forall (fun c => byte_ok c /\ c <> 0) d -> 0 < zlen d <= 210 ->
  Forall (fun c => byte_ok c /\ c <> 0) (dir_mark d) /\ zlen (dir_mark d) <= 210.
Proof.
  intros Hd Hl. unfold dir_mark. change (DIR_MAX_LEN - 45) with 210.
  assert (H95 : Forall (fun c => byte_ok c /\ c <> 0) [95]) by by apply const_chars.
  destruct (Z.ltb_spec (zlen d) 210) as [Hlt|Hge]; [|split; [done|lia]].
  assert (Hr : Forall (fun c => byte_ok c /\ c <> 0) (removelast d) /\ zlen (removelast d) <= zlen d).
  { destruct d as [|x d _] using rev_ind; [done|]. rewrite removelast_last, zlen_app. apply Forall_app in Hd as [Hd _].
    split; [done|]. change (zlen [x]) with 1. lia. }
  destruct Hr as [Hr Hrl]. rewrite zlen_app. change (zlen [95]) with 1.
  repeat case_match; (split; [apply Forall_app; split; done|lia]).
Qed.

(** Loading and storing where the array ends the string. *)
Lemma load_padded m b n d c :
  m.(m_blocks) !! b = Some (padded n (d ++ [c])) -> load m (Ptr b (zlen d)) = Ok c.
Proof.
  intros Hb. pose proof (zlen_nonneg d). rewrite (load_ok m (Ptr b (zlen d)) _ c Hb); [done|done|]. cbn [ofs].
  unfold padded. rewrite <- app_assoc, fmap_app.
  replace (Z.to_nat (zlen d)) with (length (Some <$> d)) by (rewrite length_fmap; unfold zlen; lia).
  by apply list_lookup_middle.
Qed.

Lemma mark_ok m b d :
  m.(m_blocks) !! b = Some (padded DIR_MAX_LEN d) -> Forall (fun c => byte_ok c /\ c <> 0) d -> 0 < zlen d <= 210 ->
  (dir_len ← internal_strnlen m (Ptr b 0) (DIR_MAX_LEN - 1);
   if (0 <? dir_len) && (dir_len <? DIR_MAX_LEN - 45) then
     c ← load m (padd (Ptr b 0) (dir_len - 1));
     if c =? 47 then store m (padd (Ptr b 0) (dir_len - 1)) 95
     else
       m ← store m (padd (Ptr b 0) dir_len) 95;
       store m (padd (Ptr b 0) (dir_len + 1)) 0
   else Ok m) = Ok (upd m b (padded DIR_MAX_LEN (dir_mark d))).
Proof.
  intros Hb Hd Hl. change (DIR_MAX_LEN - 1) with 254. change (DIR_MAX_LEN - 45) with 210. unfold dir_mark.
  change (DIR_MAX_LEN - 45) with 210. change DIR_MAX_LEN with 255 in *.
  rewrite (strnlen_ok _ _ d); [|lia|rewrite (cells_block _ _ _ _ Hb) by lia; apply padded_cstr; [done|lia]].
  rewrite bind_ok, Z.min_r by lia. rewrite (proj2 (Z.ltb_lt 0 _)) by lia. cbn [andb].
  destruct (Z.ltb_spec (zlen d) 210) as [Hlt|Hge]; [|by rewrite upd_id].
  destruct d as [|x d _] using rev_ind; [unfold zlen in Hl; cbn in Hl; lia|]. unfold padd. cbn [blk ofs]. rewrite zlen_app in *. change (zlen [x]) with 1 in *.
  pose proof (zlen_nonneg d). replace (0 + (zlen d + 1 - 1)) with (zlen d) by lia.
  rewrite (load_padded _ _ _ _ _ Hb), bind_ok, last_snoc, removelast_last.
  destruct (Z.eqb_spec x 47) as [->|Hx].
  - rewrite (store_ok _ _ _ _ _ Hb); [|rewrite zlen_padded; rewrite ?zlen_app; change (zlen [47]) with 1; lia|easy].
    by rewrite padded_set by lia.
  - assert (Hz : zlen (d ++ [x]) = zlen d + 1) by (rewrite zlen_app; done).
    assert (Hz' : zlen ((d ++ [x]) ++ [95]) = zlen d + 2) by (rewrite !zlen_app; change (zlen [x]) with 1; change (zlen [95]) with 1; lia).
    assert (E1 : <[Z.to_nat (0 + (zlen d + 1)) := Some 95]> (padded 255 (d ++ [x])) = padded 255 ((d ++ [x]) ++ [95])).
    { rewrite insert_splice by (rewrite zlen_padded; lia). rewrite Z.add_0_l, <- Hz.
      apply (splice_padded 255 (d ++ [x]) [95] 0). change (zlen [95]) with 1. lia. }
    assert (E2 : <[Z.to_nat (0 + (zlen d + 1 + 1)) := Some 0]> (padded 255 ((d ++ [x]) ++ [95])) = padded 255 ((d ++ [x]) ++ [95])).
    { rewrite insert_splice by (rewrite zlen_padded; lia). replace (0 + (zlen d + 1 + 1)) with (zlen ((d ++ [x]) ++ [95])) by lia.
      rewrite <- (app_nil_r ((d ++ [x]) ++ [95])) at 3. apply (splice_padded 255 ((d ++ [x]) ++ [95]) [] 1).
      change (zlen (@nil Z)) with 0. lia. }
    rewrite (store_ok _ _ _ _ _ Hb), bind_ok, E1; [|rewrite zlen_padded; lia|easy].
    rewrite (store_ok _ _ _ _ _ (upd_lookup _ _ _)), E2, upd_upd; [|rewrite zlen_padded; lia|easy].
    by repeat case_match; simplify_eq.
Qed.

Lemma read_trace_dir_ok {OS} `{HL : OSLaws OS} (o : OS) m b l pid :
  m.(m_blocks) !! b = Some l -> zlen l = DIR_MAX_LEN -> mem_wf m -> 0 <= pid < 2 ^ 32 ->
  read_trace_dir o (Ptr b 0) pid m =
  Ok (Mem (m.(m_next) + 2) (<[b := padded DIR_MAX_LEN (dir_name (os_getenv o ENV_TRACE_DIR) pid)]> m.(m_blocks))).
Proof.
  intros Hb Hl Hwf Hp. unfold read_trace_dir, internal_memset.
  rewrite (memset_loop_ok _ _ _ _ _ _ Hb), bind_ok by (done || (change (Z.of_nat (Z.to_nat DIR_MAX_LEN)) with DIR_MAX_LEN; lia)).
  set (l0 := splice _ _ _). assert (Hl0 : l0 = padded DIR_MAX_LEN []).
  { unfold l0, splice. change (ztake 0 l) with (@nil cell). cbn [app]. unfold zdrop. rewrite drop_ge by (unfold zlen in Hl;
      change (zlen (replicate (Z.to_nat DIR_MAX_LEN) (Some 0))) with 255; change DIR_MAX_LEN with 255 in Hl; lia).
    by rewrite app_nil_r. }
  set (env := os_getenv o ENV_TRACE_DIR).
  assert (Henv : forall s, env = Some s -> Forall (fun c => byte_ok c /\ c <> 0) s) by (intros s; apply env_law).
  pose proof (upd_wf _ _ _ l0 Hwf Hb) as Hwf0.
  set (m1 := Mem (m.(m_next) + 1) (<[b := padded DIR_MAX_LEN (dir_base env)]> (<[b := l0]> m.(m_blocks)))).
  assert (Hfrom : forall s k, Forall (fun c => byte_ok c /\ c <> 0) s -> 0 <= k <= DIR_MAX_LEN -> ztake k s = dir_base env ->
            strncpy_from (upd m b l0) (Ptr b 0) s k = Ok m1).
  { intros s k Hs Hk Hbase. rewrite (strncpy_from_ok _ _ l0 _ DIR_MAX_LEN _ (dir_base env)); try done. apply upd_lookup. }
  assert (Hdef : strncpy_from (upd m b l0) (Ptr b 0) DEFAULT_TRACE_DIR 100 = Ok m1 \/ exists c s, env = Some (c :: s)).
  { destruct env as [[|c s]|] eqn:E; [left|right; by eauto|left];
      (apply Hfrom; [by apply const_chars|done|done]). }
  match goal with |- (?X ≫= _) = _ => assert (HX : X = Ok m1) end.
  { clearbody env. destruct env as [s|] eqn:E; [|by destruct Hdef as [?|(? & ? & ?)]].
    rewrite (strnlen_ok _ _ s) by (done || by apply string_mem_cstr, Henv). rewrite bind_ok.
    destruct s as [|c s]; [by destruct Hdef as [?|(? & ? & ?)]|].
    rewrite (proj2 (Z.ltb_ge _ _)) by (change DIR_MAX_LEN with 255; unfold zlen; cbn [length]; lia).
    apply Hfrom; [by apply Henv|done|done]. }
  rewrite HX, bind_ok. clear HX. destruct (dir_base_ok env Henv) as [Hbase Hbl].
  assert (Hb1 : m1.(m_blocks) !! b = Some (padded DIR_MAX_LEN (dir_base env))) by apply lookup_insert_eq.
  pose proof (mark_ok _ _ _ Hb1 Hbase Hbl) as Hmark. destruct (dir_mark_ok _ Hbase Hbl) as [Hmk Hmkl].
  apply bind_ok_inv in Hmark as (dir_len & -> & Hmark). rewrite bind_ok, Hmark, bind_ok.
  rewrite (append_pid_ok _ _ DIR_MAX_LEN (dir_mark (dir_base env))); try done; [|apply upd_lookup| |change DIR_MAX_LEN with 255; lia].
  - cbn [upd m_next m_blocks m1]. rewrite !insert_insert_eq. do 2 f_equal. lia.
  - eapply upd_wf; [|exact Hb1]. intros b' l' Hb'. unfold m1 in *. cbn [m_blocks m_next] in *.
    rewrite insert_insert_eq in Hb'. apply lookup_insert_Some in Hb' as [[<- _]|[_ Hb']]; [|specialize (Hwf _ _ Hb'); lia].
    specialize (Hwf _ _ Hb). lia.
Qed.

(** ** Reading the configuration *)

Lemma get_int_opt_total {OS} `{HL : OSLaws OS} (o : OS) name d :
  INT64_MIN <= d <= INT64_MAX -> exists v, get_int_opt o name d = Ok v /\ INT64_MIN <= v <= INT64_MAX.
Proof.
  intros Hd. unfold get_int_opt. destruct (os_getenv o name) as [s|] eqn:E; [|by exists d].
  pose proof (string_mem_cstr s (env_law _ _ _ E)) as Hs. rewrite (strnlen_ok _ _ s), bind_ok by done.
  destruct (_ <? 1); [by exists d|]. unfold internal_atoll.
  destruct (strtoll_total _ _ _ Hs) as (v & e & -> & Hv). rewrite bind_ok. by exists v.
Qed.

(** An unsigned reading of a signed value is small only if the value is. *)
Lemma u64_small v : INT64_MIN <= v <= INT64_MAX -> (0 <= v /\ u64 v = v) \/ (v < 0 /\ 2 ^ 63 <= u64 v < 2 ^ 64).
Proof.
  unfold INT64_MIN, INT64_MAX, u64, wrap. intros Hv. destruct (decide (0 <= v)) as [H|H].
  - left. rewrite Z.mod_small; lia.
  - right. replace (v mod 2 ^ 64) with (v + 2 ^ 64); [lia|]. apply (Z.mod_unique v (2 ^ 64) (-1)); lia.
Qed.

Definition megabytes (n : Z) : Z := n * 1024 * 1024.

Lemma u64_megabytes n : 0 <= n < 2 ^ 24 -> u64 (megabytes n) = megabytes n.
Proof. intros Hn. unfold u64, megabytes. rewrite wrap_small; lia. Qed.

(** The two thresholds. *)
Lemma thresholds_ok v1 v2 :
  INT64_MIN <= v1 <= INT64_MAX -> INT64_MIN <= v2 <= INT64_MAX ->
  let t1 := if (0 <? u64 v1) && (u64 v1 <? DEFAULT_MEM_THRESHOLD_1 * 100) then u64 (megabytes (u64 v1))
            else DEFAULT_MEM_THRESHOLD_1 * 1024 * 1024 in
  let t2 := if (t1 <? u64 (megabytes (u64 v2))) && (u64 v2 <? DEFAULT_MEM_THRESHOLD_2 * 100) then u64 (megabytes (u64 v2))
            else u64 (t1 * 3) / 2 in
  0 < t1 < t2.
Proof.
  intros Hv1 Hv2. cbv zeta. unfold DEFAULT_MEM_THRESHOLD_1, DEFAULT_MEM_THRESHOLD_2.
  set (t1 := if _ && _ then _ else 128 * 80 * 1024 * 1024).
  assert (Ht1 : 2 ^ 20 <= t1 < 2 ^ 50).
  { unfold t1. destruct (Z.ltb_spec 0 (u64 v1)); cbn [andb]; [|lia].
    destruct (Z.ltb_spec (u64 v1) (128 * 80 * 100)); [|lia]. rewrite u64_megabytes by lia. unfold megabytes. lia. }
  assert (Hhalf : t1 < u64 (t1 * 3) / 2) by (unfold u64; rewrite wrap_small by lia; apply Z.le_succ_l, Z.div_le_lower_bound; lia).
  destruct (Z.ltb_spec t1 (u64 (megabytes (u64 v2)))); cbn [andb]; [|lia].
  destruct (u64 v2 <? 128 * 120 * 100); lia.
Qed.

(** What the rest of the runtime relies on after [read_config]. *)
Record configured {OS} `{OSOps OS} (c c' : core OS) (b bufsz use_q qsz : Z) : Prop := {
  cf_buf : c'.(k_ctx).(tl_buf_size_) = megabytes bufsz /\ cap_ok c'.(k_ctx).(tl_buf_size_);
  cf_queue : c'.(k_ctx).(use_io_q) = negb (use_q =? 0) /\
    (c'.(k_ctx).(use_io_q) = true -> c'.(k_ctx).(out_queue_legth) = qsz /\ 0 < qsz < 1024);
  cf_mem : 0 < c'.(k_ctx).(mem_t1_) < c'.(k_ctx).(mem_t2_);
  cf_dir : c'.(k_ctx).(trace_dir) = Ptr b 0 /\
    c'.(k_mem) = Mem (c.(k_mem).(m_next) + 2)
      (<[b := padded DIR_MAX_LEN (dir_name (os_getenv c.(k_os) ENV_TRACE_DIR) c.(k_ctx).(cur_pid_))]> c.(k_mem).(m_blocks));
  cf_kept : c'.(k_os) = c.(k_os) /\ c'.(k_queue) = c.(k_queue) /\ c'.(k_ctx).(is_on) = c.(k_ctx).(is_on) /\
    c'.(k_ctx).(cur_pid_) = c.(k_ctx).(cur_pid_) /\ c'.(k_ctx).(no_stack) = c.(k_ctx).(no_stack);
  cf_plain : forall v, get_int_opt c.(k_os) ENV_USE_COMPRESS COMPRESS_ON = Ok v ->
    c'.(k_ctx).(use_compression) = negb (v =? 0) }.

Lemma read_config_total {OS} `{HL : OSLaws OS} (c : core OS) b l :
  c.(k_ctx).(trace_dir) = Ptr b 0 -> c.(k_mem).(m_blocks) !! b = Some l -> zlen l = DIR_MAX_LEN ->
  mem_wf c.(k_mem) -> 0 <= c.(k_ctx).(cur_pid_) < 2 ^ 32 ->
  exists bufsz use_q qsz,
    get_int_opt c.(k_os) ENV_TL_BUF_SIZE DEFAULT_BUF_PRE_THR = Ok bufsz /\
    get_int_opt c.(k_os) ENV_USE_IO_Q ASYNC_IO_ON = Ok use_q /\
    get_int_opt c.(k_os) ENV_IO_Q_SIZE DEFAULT_IO_Q_SIZE = Ok qsz /\
    if bool_decide (0 < bufsz < 4096 /\ (use_q <> 0 -> 0 < qsz < 1024))
    then exists c', read_config c = Ok c' /\ configured c c' b bufsz use_q qsz
    else read_config c = Err EDie.
Proof.
  intros Hdir Hb Hl Hwf Hp. set (o := c.(k_os)).
  assert (HI : forall n d, 0 <= d <= 15360 -> exists v, get_int_opt o n d = Ok v /\ INT64_MIN <= v <= INT64_MAX).
  { intros n d Hd. apply get_int_opt_total. unfold INT64_MIN, INT64_MAX. lia. }
  destruct (HI ENV_PRINT_STAT 1) as (v0 & E0 & _); [lia|].
  destruct (HI ENV_TL_BUF_SIZE DEFAULT_BUF_PRE_THR) as (bufsz & E1 & H1); [done|].
  destruct (HI ENV_UFO_MEM_T1 DEFAULT_MEM_THRESHOLD_1) as (v2 & E2 & H2); [done|].
  destruct (HI ENV_UFO_MEM_T2 DEFAULT_MEM_THRESHOLD_2) as (v3 & E3 & H3); [done|].
  destruct (HI ENV_USE_COMPRESS COMPRESS_ON) as (v4 & E4 & _); [done|].
  destruct (HI ENV_USE_IO_Q ASYNC_IO_ON) as (use_q & E5 & _); [done|].
  destruct (HI ENV_IO_Q_SIZE DEFAULT_IO_Q_SIZE) as (qsz & E6 & H6); [done|].
  destruct (HI ENV_TRACE_FUNC 0) as (v7 & E7 & _); [done|]. destruct (HI ENV_PTR_PROP 0) as (v8 & E8 & _); [done|].
  exists bufsz, use_q, qsz. do 3 (split; [done|]). unfold read_config. fold o.
  rewrite E0, E1, !bind_ok. destruct (u64_small bufsz H1) as [[Hp1 ->]|[Hn1 Hb1]].
  2: { rewrite bool_decide_eq_false_2 by lia. rewrite (proj2 (Z.ltb_ge (u64 bufsz) 4096)) by lia. by rewrite andb_false_r. }
  destruct (Z.ltb_spec 0 bufsz) as [Hz|Hz]; cbn [andb]; [|by rewrite bool_decide_eq_false_2 by lia].
  destruct (Z.ltb_spec bufsz 4096) as [Hlt|Hge]; [|by rewrite bool_decide_eq_false_2 by lia].
  rewrite E2, E3, E4, E5, !bind_ok. fold (megabytes (u64 v2)) (megabytes (u64 v3)) (megabytes bufsz).
  pose proof (thresholds_ok v2 v3 H2 H3) as Ht. cbv zeta in Ht.
  set (t1 := if _ && _ then u64 (megabytes (u64 v2)) else _) in *. set (t2 := if _ && _ then u64 (megabytes (u64 v3)) else _) in *.
  assert (Hq : (if negb (use_q =? 0)
                then io_q_sz ← get_int_opt o ENV_IO_Q_SIZE DEFAULT_IO_Q_SIZE;
                     if (0 <? io_q_sz) && (io_q_sz <? 1024) then Ok io_q_sz else Err EDie
                else Ok (-1)) =
               if bool_decide (use_q <> 0 -> 0 < qsz < 1024) then Ok (if use_q =? 0 then -1 else qsz) else Err EDie).
  { rewrite E6, bind_ok. destruct (Z.eqb_spec use_q 0) as [->|Hq0]; cbn [negb]; [by rewrite bool_decide_eq_true_2|].
    destruct (Z.ltb_spec 0 qsz), (Z.ltb_spec qsz 1024); cbn [andb];
      ((by rewrite bool_decide_eq_true_2) || (rewrite bool_decide_eq_false_2; [done|]; intros Hx; specialize (Hx Hq0); lia)). }
  rewrite Hq. case_bool_decide as Hc.
  2: { rewrite bind_err, bool_decide_eq_false_2; [done|]. intros [_ Hx]. done. }
  rewrite (bool_decide_eq_true_2 (_ /\ _)) by done. rewrite E7, E8, !bind_ok, Hdir.
  rewrite (read_trace_dir_ok _ _ _ l), bind_ok by done. eexists. split; [done|].
  assert (Hsz : u32 (u64 (megabytes bufsz)) = megabytes bufsz).
  { rewrite u64_megabytes by lia. unfold u32, megabytes. rewrite wrap_small; lia. }
  constructor; cbn [k_ctx k_mem k_os k_queue with_ctx with_mem tl_buf_size_ use_io_q out_queue_legth mem_t1_ mem_t2_ trace_dir
    is_on cur_pid_ no_stack use_compression].
  - rewrite Hsz. split; [done|]. unfold cap_ok, megabytes. lia.
  - split; [done|]. destruct (Z.eqb_spec use_q 0); [done|]. intros _. split; [done|]. by apply Hc.
  - exact Ht.
  - done.
  - done.
  - intros v Hv. fold o in Hv. congruence.
Qed.

Lemma dir_name_ok {OS} `{HL : OSLaws OS} (o : OS) pid :
  0 <= pid < 2 ^ 32 ->
  let dir := dir_name (os_getenv o ENV_TRACE_DIR) pid in
  zlen dir <= 220 /\ is_cstr dir (padded DIR_MAX_LEN dir).
Proof.
  intros Hp dir. destruct (dir_base_ok (os_getenv o ENV_TRACE_DIR)) as [Hok Hlen]; [intros s; apply env_law|].
  destruct (dir_mark_ok _ Hok Hlen) as [Hmk Hml]. destruct (pid_text _ Hp) as (_ & Htl & Htok).
  assert (Hz : zlen dir <= 220) by (unfold dir, dir_name; rewrite zlen_app; lia).
  split; [done|]. apply padded_cstr; [by apply Forall_app|change DIR_MAX_LEN with 255; lia].
Qed.

(** ** Paths *)

Lemma strlen_undef m p t rest :
  cells m p = (Some <$> t) ++ None :: rest -> Forall (fun c => c <> 0) t -> internal_strlen m p = Err EUndef.
Proof.
  intros E Ht. unfold internal_strlen. rewrite E. generalize 0 as i. clear E.
  induction Ht as [|c t Hc _ IH]; intros i; cbn; [done|]. rewrite (proj2 (Z.eqb_neq c 0)) by done. apply IH.
Qed.

Section Path.
Context (m : mem) (path : Z) (td : ptr) (dir : chars) (l0 : list cell).
Context (Hpath : m.(m_blocks) !! path = Some l0) (Hl0 : zlen l0 = DIR_MAX_LEN).
Context (Hdir : is_cstr dir (cells m td)) (Htd : td.(blk) <> path) (Hwf : mem_wf m).

Lemma path_copied :
  internal_strncpy m (Ptr path 0) td 200 =
  Ok (upd m path ((Some <$> (ztake 200 dir ++ replicate (Z.to_nat (200 - zlen dir)) 0)) ++ zdrop 200 l0)).
Proof.
  destruct td as [bt ot]. change DIR_MAX_LEN with 255 in Hl0.
  rewrite (strncpy_ok _ _ _ _ _ _ _ _ Hpath Hdir) by (done || lia || congruence).
  do 2 f_equal. unfold splice. change (ztake 0 _) with (@nil cell). cbn [app]. f_equal.
  assert (Hz : zlen (Some <$> (ztake 200 dir ++ replicate (Z.to_nat (200 - zlen dir)) 0)) = 200).
  { unfold ztake, zlen. rewrite length_fmap, length_app, length_take, length_replicate. lia. }
  rewrite Hz. done.
Qed.

Lemma build_path_short name :
  zlen dir < 200 -> zlen name <= 50 -> Forall (fun c => byte_ok c /\ c <> 0) name ->
  exists l, build_path m (Ptr path 0) td name = Ok (Mem (m.(m_next) + 1) (<[path := l]> m.(m_blocks))) /\
    zlen l = DIR_MAX_LEN /\ is_cstr (dir ++ name) l.
Proof.
  intros Hd Hn Hname. unfold build_path. rewrite path_copied, bind_ok. rewrite ztake_all by lia.
  pose proof (zlen_nonneg dir). pose proof (zlen_nonneg name).
  set (l1 := (Some <$> (dir ++ replicate (Z.to_nat (200 - zlen dir)) 0)) ++ zdrop 200 l0).
  assert (Hl1 : zlen l1 = 255).
  { change DIR_MAX_LEN with 255 in Hl0. unfold l1, zdrop, zlen in *.
    rewrite length_app, length_fmap, length_app, length_replicate, length_drop. lia. }
  assert (Hc1 : is_cstr dir l1).
  { split; [apply Hdir|]. unfold l1. replace (Z.to_nat (200 - zlen dir)) with (S (Z.to_nat (199 - zlen dir))) by lia.
    rewrite fmap_app, <- app_assoc. by eexists. }
  unfold strncat_from. destruct (place (upd m path l1) name) as [p m1] eqn:E.
  destruct (place_ok _ _ _ _ E (upd_wf _ _ _ _ Hwf Hpath) Hname) as (-> & Hc & Hm & Hfree).
  cbn [upd m_next] in *. assert (Hne : path <> m.(m_next)) by (specialize (Hwf _ _ Hpath); lia).
  assert (Hp1 : m1.(m_blocks) !! path = Some l1) by (rewrite Hm by done; apply lookup_insert_eq).
  rewrite (strncat_ok _ _ _ _ _ l1 dir name); [|done|by rewrite (cells_block _ _ _ _ Hp1)|done|done|lia|lia|lia].
  rewrite bind_ok, Hfree, ztake_all by (done || lia). cbn [upd m_blocks]. rewrite insert_insert_eq. eexists. split; [done|].
  assert (Hlast : zlen (name ++ [0]) = zlen name + 1) by (rewrite zlen_app; done).
  split; [rewrite zlen_splice; rewrite ?zlen_fmap; change DIR_MAX_LEN with 255; lia|].
  split; [apply Forall_app; split; [apply Hdir|done]|]. destruct Hc1 as [_ [rest ->]].
  unfold splice. exists (zdrop (0 + zlen dir + zlen (Some <$> (name ++ [0]))) ((Some <$> dir) ++ Some 0 :: rest)).
  unfold ztake. rewrite take_app_length' by (rewrite length_fmap; unfold zlen; lia).
  rewrite !fmap_app, <- !app_assoc. done.
Qed.

(** An array that was not initialised. *)
Lemma build_path_long name rest :
  200 <= zlen dir -> zdrop 200 l0 = None :: rest -> build_path m (Ptr path 0) td name = Err EUndef.
Proof.
  intros Hd Hrest. unfold build_path. rewrite path_copied, bind_ok. rewrite Z2Nat.nonpos by lia. cbn [replicate].
  rewrite app_nil_r. unfold strncat_from, place, alloc. cbn [upd m_next m_blocks blk].
  unfold internal_strncat. assert (Hne : path <> m.(m_next)) by (specialize (Hwf _ _ Hpath); lia).
  rewrite (strlen_undef _ _ (ztake 200 dir) rest); [done| |].
  - rewrite <- Hrest. rewrite (cells_block _ _ _ ((Some <$> ztake 200 dir) ++ zdrop 200 l0)); [done| |lia].
    cbn [m_blocks upd]. rewrite !lookup_insert_ne by done. apply lookup_insert_eq.
  - apply Forall_take. destruct Hdir as [Hok _]. eapply Forall_impl; [exact Hok|]. by intros c [_ Hc].
Qed.
End Path.

Lemma alloc_cells m n p : mem_wf m -> cells m p <> [] -> cells (alloc m n).2 p = cells m p.
Proof.
  intros Hwf Hne. unfold cells in *. cbn [alloc snd m_blocks]. destruct (m.(m_blocks) !! p.(blk)) as [l|] eqn:E; [|done].
  rewrite lookup_insert_ne, E; [done|]. specialize (Hwf _ _ E). lia.
Qed.

Lemma cstr_not_nil t s : is_cstr t s -> s <> [].
Proof. intros [_ [rest ->]]. by destruct t. Qed.

Section Files.
Context {OS : Type} `{OSOps OS} (c : core OS) (dir : chars).
Context (Hdir : is_cstr dir (cells c.(k_mem) c.(k_ctx).(trace_dir))) (Hwf : mem_wf c.(k_mem)).

(** The array [path] of the function, and the directory's name beside it. *)
Lemma path_block :
  exists m1, alloc c.(k_mem) DIR_MAX_LEN = (Ptr c.(k_mem).(m_next) 0, m1) /\ m1.(m_next) = c.(k_mem).(m_next) + 1 /\
    m1.(m_blocks) !! c.(k_mem).(m_next) = Some (replicate (Z.to_nat DIR_MAX_LEN) None) /\
    is_cstr dir (cells m1 c.(k_ctx).(trace_dir)) /\ c.(k_ctx).(trace_dir).(blk) <> c.(k_mem).(m_next) /\ mem_wf m1 /\
    forall l n, free (Mem n (<[c.(k_mem).(m_next) := l]> m1.(m_blocks))) (Ptr c.(k_mem).(m_next) 0) = Ok (Mem n c.(k_mem).(m_blocks)).
Proof.
  exists (alloc c.(k_mem) DIR_MAX_LEN).2. pose proof (cstr_not_nil _ _ Hdir) as Hne.
  split; [done|]. split; [done|]. split; [apply lookup_insert_eq|].
  split; [by rewrite alloc_cells|]. split; [|split; [by apply alloc_wf|]].
  - destruct (c.(k_ctx).(trace_dir)) as [b o]. destruct (cstr_block _ _ _ _ Hdir) as (l & Hl & _).
    specialize (Hwf _ _ Hl). cbn. lia.
  - intros l n. unfold free, block_of. cbn [blk alloc snd m_blocks m_next]. rewrite lookup_insert_eq. cbn [res_of_option].
    rewrite bind_ok, insert_insert_eq, delete_insert_id; [done|]. by apply mem_wf_fresh.
Qed.

(** The modules in the order in which they are written. *)
Lemma modules_sorted :
  exists ms, Sort CompareBaseAddressJEFF (os_modules c.(k_os)) (length (os_modules c.(k_os))) = Ok ms /\
    ms ≡ₚ os_modules c.(k_os) /\ StronglySorted (fun a b => a.(lm_base) <= b.(lm_base)) ms.
Proof.
  destruct (Sort_ok CompareBaseAddressJEFF (os_modules c.(k_os))) as (ms & Hs & Hp & Ho).
  exists ms. split; [done|]. split; [done|]. clear Hs Hp.
  induction Ho as [|md ms _ IH Hmd]; constructor; [done|]. eapply Forall_impl; [exact Hmd|].
  intros b Hb. by apply Z.ltb_ge in Hb.
Qed.

Lemma save_module_info_ok tid ms :
  Sort CompareBaseAddressJEFF (os_modules c.(k_os)) (length (os_modules c.(k_os))) = Ok ms -> zlen dir < 200 ->
  save_module_info tid c =
  if c.(k_ctx).(mudule_length_) =? u32 (zlen ms) then Ok c
  else
    o ← res_of_option ENull (os_put_file c.(k_os) (dir ++ NAME_MODULE_INFO) (concat (module_line <$> ms)));
    Ok (with_ctx (with_os (with_mem c (Mem (c.(k_mem).(m_next) + 2) c.(k_mem).(m_blocks))) o)
          (set_mudule_length_ c.(k_ctx) (u32 (zlen ms)))).
Proof.
  intros Hs Hd. unfold save_module_info. rewrite Hs, bind_ok. destruct (_ =? _); [done|].
  destruct path_block as (m1 & -> & Hnext & Hp & Hdir1 & Hne & Hwf1 & Hfree).
  destruct (build_path_short m1 _ _ dir _ Hp eq_refl Hdir1 Hne Hwf1 NAME_MODULE_INFO) as (l & Hb & Hl & Hc); [done|done|by apply const_chars|].
  cbn [set_mudule_length_ trace_dir]. rewrite Hb, bind_ok. rewrite (cells_block _ _ _ l) by (done || apply lookup_insert_eq).
  rewrite (cstring_ok (dir ++ NAME_MODULE_INFO)), bind_ok by exact Hc.
  destruct (os_put_file _ _ _) as [o'|]; [|done]. cbn [res_of_option]. rewrite !bind_ok, Hfree, bind_ok, Hnext.
  by replace (m_next (k_mem c) + 1 + 1) with (m_next (k_mem c) + 2) by lia.
Qed.

Lemma save_module_info_long tid ms :
  Sort CompareBaseAddressJEFF (os_modules c.(k_os)) (length (os_modules c.(k_os))) = Ok ms -> 200 <= zlen dir ->
  c.(k_ctx).(mudule_length_) <> u32 (zlen ms) -> save_module_info tid c = Err EUndef.
Proof.
  intros Hs Hd Hn. unfold save_module_info. rewrite Hs, bind_ok, (proj2 (Z.eqb_neq _ _)) by done.
  destruct path_block as (m1 & -> & Hnext & Hp & Hdir1 & Hne & Hwf1 & Hfree).
  cbn [set_mudule_length_ trace_dir]. by rewrite (build_path_long m1 _ _ dir _ Hp eq_refl Hdir1 Hne Hwf1 _ (replicate 54 None)).
Qed.

Lemma output_stat_long stat term : 200 <= zlen dir -> output_stat stat term c = Err EUndef.
Proof.
  intros Hd. unfold output_stat. destruct path_block as (m1 & -> & Hnext & Hp & Hdir1 & Hne & Hwf1 & Hfree).
  by rewrite (build_path_long m1 _ _ dir _ Hp eq_refl Hdir1 Hne Hwf1 _ (replicate 54 None)).
Qed.

Lemma output_stat_ok stat term :
  zlen dir < 200 ->
  output_stat stat term c =
  let '(term, text) := summary_stat (term, Some []) stat c.(k_ctx).(cur_pid_) c.(k_ctx).(p_pid_) in
  o ← res_of_option ENull (os_put_file c.(k_os) (dir ++ NAME_STAT_FILE) (default [] text));
  o ← res_of_option ENull (os_put_file o (dir ++ NAME_STAT_CSV) (print_csv [] stat c.(k_ctx).(cur_pid_) c.(k_ctx).(p_pid_)));
  Ok (term, with_os (with_mem c (Mem (c.(k_mem).(m_next) + 3) c.(k_mem).(m_blocks))) o).
Proof.
  intros Hd. unfold output_stat. destruct path_block as (m1 & -> & Hnext & Hp & Hdir1 & Hne & Hwf1 & Hfree).
  set (b := c.(k_mem).(m_next)) in *.
  destruct (build_path_short m1 _ _ dir _ Hp eq_refl Hdir1 Hne Hwf1 NAME_STAT_FILE) as (l & Hb & Hl & Hc);
    [done|done|by apply const_chars|]. rewrite Hb, bind_ok.
  set (m2 := Mem (m1.(m_next) + 1) (<[b := l]> m1.(m_blocks))). assert (Hp2 : m2.(m_blocks) !! b = Some l) by apply lookup_insert_eq.
  rewrite (cells_block _ _ _ _ Hp2), (cstring_ok (dir ++ NAME_STAT_FILE)), bind_ok by (done || lia).
  destruct (summary_stat _ _ _ _) as [term' text]. destruct (os_put_file _ _ _) as [o1|]; [|done]. cbn [res_of_option].
  rewrite !bind_ok. change DIR_MAX_LEN with 255 in *. unfold internal_memset.
  rewrite (memset_loop_ok _ _ _ _ _ _ Hp2), bind_ok by (done || lia). set (l2 := splice l 0 _).
  assert (Hl2 : zlen l2 = 255) by (unfold l2; rewrite zlen_splice; [done|lia|rewrite zlen_replicate; lia]).
  assert (Hwf2 : mem_wf (upd m2 b l2)).
  { intros b' l' Hb'. cbn [upd m2 m_blocks m_next] in *. rewrite insert_insert_eq in Hb'.
    apply lookup_insert_Some in Hb' as [[<- _]|[_ Hb']]; [unfold b; lia|]. specialize (Hwf1 _ _ Hb'). lia. }
  assert (Hdir2 : is_cstr dir (cells (upd m2 b l2) c.(k_ctx).(trace_dir))).
  { unfold cells in *. cbn [upd m2 m_blocks]. by rewrite !lookup_insert_ne. }
  destruct (build_path_short (upd m2 b l2) b _ dir l2 (upd_lookup _ _ _) Hl2 Hdir2 Hne Hwf2 NAME_STAT_CSV) as (l3 & -> & Hl3 & Hc3);
    [done|done|by apply const_chars|]. rewrite bind_ok, (cells_block _ _ _ l3) by (lia || apply lookup_insert_eq).
  rewrite (cstring_ok (dir ++ NAME_STAT_CSV)), bind_ok by exact Hc3.
  destruct (os_put_file o1 _ _) as [o2|]; [|done]. cbn [res_of_option upd m2 m_blocks m_next]. rewrite !bind_ok, !insert_insert_eq.
  rewrite Hfree, bind_ok, Hnext. by replace (b + 1 + 1 + 1) with (b + 3) by lia.
Qed.
End Files.

(** ** Theorems *)

(** The configuration.  Whatever the environment, [read_config] returns
    or ends the process, the latter exactly when the buffer's size is not
    between 1 and 4095 megabytes or the queue is on and its length not between
    1 and 1023.  When it returns, the buffer's size is the number of megabytes
    asked for and within the bounds the buffers and the queue rely on, the
    thresholds are ordered, the name of the directory stands terminated in its
    array (the environment's name cut to 210 characters, a ['_'] where there
    is room, and the process id), and no other block is touched. *)
Theorem config_checked {OS} `{HL : OSLaws OS} (c : core OS) (b : Z) (l : list cell) :
  c.(k_ctx).(trace_dir) = Ptr b 0 -> c.(k_mem).(m_blocks) !! b = Some l -> zlen l = DIR_MAX_LEN ->
  mem_wf c.(k_mem) -> 0 <= c.(k_ctx).(cur_pid_) < 2 ^ 32 ->
  exists bufsz use_q qsz dir,
    get_int_opt c.(k_os) ENV_TL_BUF_SIZE DEFAULT_BUF_PRE_THR = Ok bufsz /\
    get_int_opt c.(k_os) ENV_USE_IO_Q ASYNC_IO_ON = Ok use_q /\
    get_int_opt c.(k_os) ENV_IO_Q_SIZE DEFAULT_IO_Q_SIZE = Ok qsz /\
    dir = dir_name (os_getenv c.(k_os) ENV_TRACE_DIR) c.(k_ctx).(cur_pid_) /\ zlen dir <= 220 /\
    if bool_decide (0 < bufsz < 4096 /\ (use_q <> 0 -> 0 < qsz < 1024))
    then exists c', read_config c = Ok c' /\ configured c c' b bufsz use_q qsz /\
      is_cstr dir (cells c'.(k_mem) c'.(k_ctx).(trace_dir)) /\
      forall b', b' <> b -> c'.(k_mem).(m_blocks) !! b' = c.(k_mem).(m_blocks) !! b'
    else read_config c = Err EDie.
Proof.
  intros Hdir Hb Hl Hwf Hp. destruct (read_config_total c b l) as (bufsz & use_q & qsz & E1 & E2 & E3 & Hr); [done..|].
  set (env := os_getenv c.(k_os) ENV_TRACE_DIR). exists bufsz, use_q, qsz, (dir_name env c.(k_ctx).(cur_pid_)).
  do 3 (split; [done|]). split; [done|].
  destruct (dir_name_ok c.(k_os) _ Hp) as [Hz Hcs]. fold env in Hz, Hcs.
  split; [done|]. case_bool_decide; [|done]. destruct Hr as (c' & Hc & Hcf). exists c'. split; [done|]. split; [done|].
  destruct Hcf as [_ _ _ [Htd Hm] _ _]. rewrite Htd, Hm. split.
  - by rewrite (cells_block _ _ _ _ (lookup_insert_eq _ _ _)) by lia.
  - intros b' Hb'. cbn [m_blocks]. by rewrite lookup_insert_ne.
Qed.

(** A process with the id 77 and the given environment, its context not
    initialised but for the id. *)
Definition demo_env (env : gmap chars chars) (mods : list LoadedModule) : core sim :=
  Core (Mem 1 {[0 := replicate 255 None]}) (Sim ∅ ∅ ∅ env (0, 0) 77 (0, 0, 0, 0) mods ∅ 1000)
    (mkUFOContext false 77 1 false 0 0 0 0 true false false false false (Ptr 0 0) 0 0 false false 0) None None 0 0.

Definition demo_environment : core sim := demo_env {[ENV_TL_BUF_SIZE := str "2"; ENV_TRACE_DIR := str "out/"]} [].

Lemma demo_env_wf env mods : mem_wf (demo_env env mods).(k_mem).
Proof. intros b l Hb. unfold demo_env in Hb. cbn [k_mem m_blocks] in Hb. apply lookup_singleton_Some in Hb as [<- _]. done. Qed.

Lemma config_checked_witness :
  exists bufsz use_q qsz dir,
    get_int_opt demo_environment.(k_os) ENV_TL_BUF_SIZE DEFAULT_BUF_PRE_THR = Ok bufsz /\
    get_int_opt demo_environment.(k_os) ENV_USE_IO_Q ASYNC_IO_ON = Ok use_q /\
    get_int_opt demo_environment.(k_os) ENV_IO_Q_SIZE DEFAULT_IO_Q_SIZE = Ok qsz /\
    dir = dir_name (os_getenv demo_environment.(k_os) ENV_TRACE_DIR) 77 /\ zlen dir <= 220 /\
    if bool_decide (0 < bufsz < 4096 /\ (use_q <> 0 -> 0 < qsz < 1024))
    then exists c', read_config demo_environment = Ok c' /\ configured demo_environment c' 0 bufsz use_q qsz /\
      is_cstr dir (cells c'.(k_mem) c'.(k_ctx).(trace_dir)) /\
      forall b', b' <> 0 -> c'.(k_mem).(m_blocks) !! b' = demo_environment.(k_mem).(m_blocks) !! b'
    else read_config demo_environment = Err EDie.
Proof.
  apply (config_checked demo_environment 0 (replicate 255 None)); [done|done|done|apply demo_env_wf|].
  cbn. lia.
Defined.

(** The table of modules.  If the number of modules has not changed since
    the last time, [save_module_info] does nothing.  Otherwise it writes one
    line for each module, in the order of the base addresses, to the file of
    the trace directory, and gives its memory back; if the file cannot be
    opened it uses a null pointer.  The directory's name must be shorter than
    200 characters. *)
Theorem module_table {OS} `{OSOps OS} (tid : Z) (c : core OS) (dir : chars) :
  is_cstr dir (cells c.(k_mem) c.(k_ctx).(trace_dir)) -> mem_wf c.(k_mem) -> zlen dir < 200 ->
  exists ms, ms ≡ₚ os_modules c.(k_os) /\ StronglySorted (fun a b => a.(lm_base) <= b.(lm_base)) ms /\
    save_module_info tid c =
      if c.(k_ctx).(mudule_length_) =? u32 (zlen ms) then Ok c
      else match os_put_file c.(k_os) (dir ++ NAME_MODULE_INFO) (concat (module_line <$> ms)) with
           | Some o' => Ok (with_ctx (with_os (with_mem c (Mem (c.(k_mem).(m_next) + 2) c.(k_mem).(m_blocks))) o')
                              (set_mudule_length_ c.(k_ctx) (u32 (zlen ms))))
           | None => Err ENull
           end.
Proof.
  intros Hdir Hwf Hd. destruct (modules_sorted c) as (ms & Hs & Hp & Ho). exists ms. split; [done|]. split; [done|].
  rewrite (save_module_info_ok c dir Hdir Hwf tid ms Hs Hd). destruct (_ =? _); [done|]. by destruct (os_put_file (k_os c) _ _).
Qed.

Definition demo_modules : core sim :=
  with_mem (demo_env ∅ [mkModule (str "libc") 4096 8191; mkModule (str "a.out") 16 255])
    (Mem 1 {[0 := padded 255 (str "t_1")]}).

Lemma demo_modules_ok : is_cstr (str "t_1") (cells demo_modules.(k_mem) demo_modules.(k_ctx).(trace_dir)) /\ mem_wf demo_modules.(k_mem).
Proof.
  split.
  - change (is_cstr (str "t_1") (padded 255 (str "t_1"))). apply padded_cstr; [by apply const_chars|done].
  - intros b l Hb. unfold demo_modules, with_mem in Hb. cbn [k_mem m_blocks] in Hb. by apply lookup_singleton_Some in Hb as [<- _].
Qed.

Lemma module_table_witness :
  exists ms, ms ≡ₚ os_modules demo_modules.(k_os) /\ StronglySorted (fun a b => a.(lm_base) <= b.(lm_base)) ms /\
    save_module_info 1 demo_modules =
      if demo_modules.(k_ctx).(mudule_length_) =? u32 (zlen ms) then Ok demo_modules
      else match os_put_file demo_modules.(k_os) (str "t_1" ++ NAME_MODULE_INFO) (concat (module_line <$> ms)) with
           | Some o' => Ok (with_ctx (with_os (with_mem demo_modules (Mem (demo_modules.(k_mem).(m_next) + 2)
                              demo_modules.(k_mem).(m_blocks))) o') (set_mudule_length_ demo_modules.(k_ctx) (u32 (zlen ms))))
           | None => Err ENull
           end.
Proof. apply (module_table 1 demo_modules (str "t_1")); [apply demo_modules_ok|apply demo_modules_ok|done]. Defined.

(** Long directory names.  If the name of the trace directory has 200
    characters or more (up to 220 are accepted), the paths of the files in it
    are built behind uninitialised bytes: both the table of modules, when it
    has changed, and the statistics fail. *)
Theorem long_dir_undefined {OS} `{OSOps OS} (tid : Z) (stat : list TLStatistic) (term : list Z) (c : core OS) (dir : chars) :
  is_cstr dir (cells c.(k_mem) c.(k_ctx).(trace_dir)) -> mem_wf c.(k_mem) -> 200 <= zlen dir ->
  (c.(k_ctx).(mudule_length_) <> u32 (zlen (os_modules c.(k_os))) -> save_module_info tid c = Err EUndef) /\
  output_stat stat term c = Err EUndef.
Proof.
  intros Hdir Hwf Hd. destruct (modules_sorted c) as (ms & Hs & Hp & _). split.
  - intros Hn. apply (save_module_info_long c dir Hdir Hwf tid ms); [done|done|]. unfold zlen in *. by rewrite Hp.
  - by apply (output_stat_long c dir).
Qed.

Definition demo_long : core sim :=
  with_mem (demo_env ∅ [mkModule (str "a.out") 16 255]) (Mem 1 {[0 := padded 255 (replicate 205 97)]}).

Lemma long_dir_undefined_witness :
  (0 <> u32 (zlen (os_modules demo_long.(k_os))) -> save_module_info 1 demo_long = Err EUndef) /\
  output_stat [] [] demo_long = Err EUndef.
Proof.
  apply (long_dir_undefined 1 [] [] demo_long (replicate 205 97)).
  - change (is_cstr (replicate 205 97) (padded 255 (replicate 205 97))). apply padded_cstr; [by apply const_chars|done].
  - intros b l Hb. unfold demo_long, with_mem in Hb. cbn [k_mem m_blocks] in Hb. by apply lookup_singleton_Some in Hb as [<- _].
  - done.
Defined.
