(* ===== verification/Handlers.v ===== *)
(** * The event handlers

    Models [src/ufo-rt/lib/tsan/rtl/ufo/rtl_impl.h] and [impl_mem_acc.h]: what
    the runtime does on a lock, an access, the start of a thread and so on.  A handler is a function of the thread's id, the
    arguments and the state of the runtime; [STAT_ON] and [BUF_EVENT_ON] are
    defined, and the [DPrintf] macros expand to nothing.  [tm] is the memory of
    the traced program, by address.

    The state adds to that of [State] the arrays [tlbufs] and [stat] of the
    context ([None] for a null pointer) and the text on the terminal. *)
From Stdlib Require Import ZArith Lia String.
From stdpp Require Import base numbers list gmap.
From S2P Require Import Prelude Memory Events LibC Printf Stat State HeapSort IOQueue TLBuffer Context.

Local Open Scope Z_scope.

Record run (O : Type) := Run {
  r_core : core O;
  r_bufs : option (list TLBuffer);
  r_stat : option (list TLStatistic);
  r_term : list Z }.
Arguments Run {O}.
Arguments r_core {O}.
Arguments r_bufs {O}.
Arguments r_stat {O}.
Arguments r_term {O}.

Section Handlers.
Context {OS : Type} `{OSOps OS}.

Definition with_core (r : run OS) (c : core OS) : run OS := Run c r.(r_bufs) r.(r_stat) r.(r_term).
Definition with_bufs (r : run OS) (bufs : option (list TLBuffer)) : run OS :=
  Run r.(r_core) bufs r.(r_stat) r.(r_term).
Definition with_stat (r : run OS) (stat : option (list TLStatistic)) : run OS :=
  Run r.(r_core) r.(r_bufs) stat r.(r_term).

(** [p\[i\]] for an array behind a pointer *)
Definition index {A} (p : option (list A)) (i : Z) : res A :=
  l ← res_of_option ENull p;
  if i <? 0 then Err EOutOfBounds else res_of_option EOutOfBounds (l !! Z.to_nat i).

(** [uctx->tlbufs\[tid\]] *)
Definition get_buf (r : run OS) (tid : Z) : res TLBuffer := index r.(r_bufs) tid.

Definition set_buf (r : run OS) (tid : Z) (tb : TLBuffer) : run OS :=
  with_bufs r ((fun l => <[Z.to_nat tid := tb]> l) <$> r.(r_bufs)).

(** A method of [TLBuffer] called on [tlbufs\[tid\]]. *)
Definition on_buf (tid : Z) (f : TLBuffer -> core OS -> res (TLBuffer * core OS)) (r : run OS) : res (run OS) :=
  tb ← get_buf r tid;
  '(tb, c) ← f tb r.(r_core);
  Ok (with_core (set_buf r tid tb) c).

Definition put {E} `{Packed E} (tid : Z) (e : E) (r : run OS) : res (run OS) := on_buf tid (put_event e tid) r.

(** [MC_STAT]: [uctx->stat\[tid\].field += d] *)
Definition MC_STAT (tid : Z) (field : counter) (d : Z) (r : run OS) : res (run OS) :=
  s ← index r.(r_stat) tid;
  Ok (with_stat r ((fun l => <[Z.to_nat tid := bump field d s]> l) <$> r.(r_stat))).

(** [__sync_add_and_fetch(&uctx->e_count, 1)] *)
Definition next_idx (r : run OS) : Z * run OS :=
  let idx := u64 (r.(r_core).(k_ctx).(e_count) + 1) in
  (idx, with_core r (with_ctx r.(r_core) (set_e_count r.(r_core).(k_ctx) idx))).

(** [(u32)(uctx->get_time_ms() - uctx->time_started)] *)
Definition elapsed (r : run OS) : Z * run OS :=
  let '(t, o) := get_time_ms r.(r_core).(k_os) in
  (u32 (u64 (t - r.(r_core).(k_ctx).(time_started))), with_core r (with_os r.(r_core) o)).

(** [n] bytes at [buf.buf_ + ofs] *)
Definition buf_bytes (r : run OS) (tb : TLBuffer) (ofs n : Z) : res (list Z) :=
  p ← deref tb.(buf_); load_bytes r.(r_core).(k_mem) (padd p ofs) (Z.to_nat n).

Definition buf_value (r : run OS) (tb : TLBuffer) (ofs n : Z) : res Z :=
  bs ← buf_bytes r tb ofs n; Ok (le_val bs).

(** ** Locks *)

Definition _reset_read (tid mtx_id : Z) (r : run OS) : res (run OS) :=
  buf ← get_buf r tid;
  let esz := Z.of_nat (sizeof MemAccEvent) + 1 in
  if esz <=? buf.(size_) then
    tag ← buf_value r buf (buf.(size_) - esz) 1;
    if tag =? 8 then
      addr ← buf_value r buf (buf.(size_) - esz + 6) 8;
      if Z.land addr 0x0000ffffffffffff =? mtx_id then
        let r := set_buf r tid (set_size_ buf (u32 (buf.(size_) - esz))) in
        MC_STAT tid (c_read 0) (-1) r
      else Ok r
    else Ok r
  else Ok r.

Definition impl_mtx_lock (tid pc mutex_id : Z) (r : run OS) : res (run OS) :=
  r ← MC_STAT tid c_lock 1 r;
  r ← _reset_read tid mutex_id r;
  put tid (new_LockEvent mutex_id pc) r.

Definition impl_mtx_unlock (tid pc mutex_id : Z) (r : run OS) : res (run OS) :=
  r ← MC_STAT tid c_unlock 1 r;
  r ← _reset_read tid mutex_id r;
  put tid (new_UnlockEvent mutex_id pc) r.

Definition impl_rd_lock (tid pc mutex_id : Z) (r : run OS) : res (run OS) := Ok r.
Definition impl_rd_unlock (tid pc mutex_id : Z) (r : run OS) : res (run OS) := Ok r.
Definition impl_rw_unlock (tid pc mutex_id : Z) (r : run OS) : res (run OS) := Ok r.

(** ** Condition variables *)

Definition impl_cond_wait (tid pc addr_cond addr_mtx : Z) (r : run OS) : res (run OS) :=
  r ← MC_STAT tid c_cond_wait 1 r;
  let '(_idx, r) := next_idx r in
  put tid (new_ThrCondWaitEvent _idx addr_cond addr_mtx pc) r.

Definition impl_cond_signal (tid pc addr_cond : Z) (r : run OS) : res (run OS) :=
  r ← MC_STAT tid c_cond_signal 1 r;
  let '(_idx, r) := next_idx r in
  put tid (new_ThrCondSignalEvent _idx addr_cond pc) r.

Definition impl_cond_broadcast (tid pc addr_cond : Z) (r : run OS) : res (run OS) :=
  r ← MC_STAT tid c_cond_bc 1 r;
  let '(_idx, r) := next_idx r in
  put tid (new_ThrCondBCEvent _idx addr_cond pc) r.

(** ** Memory management *)

Definition impl_alloc (tid pc addr_left size : Z) (r : run OS) : res (Z * run OS) :=
  r ← MC_STAT tid c_alloc 1 r;
  r ← put tid (new_AllocEvent addr_left pc (u32 size)) r;
  Ok (addr_left, r).

Definition impl_dealloc (tid pc addr size : Z) (r : run OS) : res (run OS) :=
  r ← MC_STAT tid c_dealloc 1 r;
  put tid (new_DeallocEvent addr pc (u32 size)) r.

(** The bytes of the traced program at an address. *)
Definition read_mem (tm : Z -> Z) (addr n : Z) : list Z := (fun i => u8 (tm (u64 (addr + i)))) <$> seqZ 0 n.

Definition __read_addr (tm : Z -> Z) (addr kAccessSizeLog : Z) : Z :=
  match kAccessSizeLog with
  | 0 => le_val (read_mem tm addr 1)
  | 1 => le_val (read_mem tm addr 2)
  | 2 => le_val (read_mem tm addr 4)
  | 3 => le_val (read_mem tm addr 8)
  | _ => u64 (-1)
  end.

(** ** Threads *)

(** An allocation of 288 bytes at the end of the parent's buffer is dropped. *)
Definition reset_alloc (tid_parent : Z) (r : run OS) : res (run OS) :=
  buf_pa ← get_buf r tid_parent;
  let esz := Z.of_nat (sizeof AllocEvent) in
  if esz <=? buf_pa.(size_) then
    tag ← buf_value r buf_pa (buf_pa.(size_) - esz) 1;
    if tag =? type_val MemAlloc then
      size ← buf_value r buf_pa (buf_pa.(size_) - 4) 4;
      if size =? 288 then
        let r := set_buf r tid_parent (set_size_ buf_pa (u32 (buf_pa.(size_) - esz))) in
        MC_STAT tid_parent c_alloc (-1) r
      else Ok r
    else Ok r
  else Ok r.

Definition impl_thread_created (tid_parent tid_kid pc : Z) (r : run OS) : res (run OS) :=
  r ← MC_STAT tid_parent c_start 1 r;
  let '(et, r) := elapsed r in
  r ← reset_alloc tid_parent r;
  let '(_idx, r) := next_idx r in
  r ← put tid_parent (new_CreateThreadEvent _idx (u16 tid_kid) et pc) r;
  r ← on_buf tid_kid (fun buf_kid c =>
        '(buf_kid, c) ←
          (if (match buf_kid.(buf_) with Some _ => true | None => false end) && (0 <? buf_kid.(size_))
           then flush tid_kid buf_kid c
           else Ok (open_buf buf_kid c));
        if negb (is_file_open buf_kid c) then open_file tid_kid buf_kid c else Ok (buf_kid, c)) r;
  put tid_kid (new_ThreadBeginEvent (u16 tid_parent) pc et) r.

(** The last twenty bytes of a [ThreadBeginEvent]. *)
Definition range_fields (stk_addr stk_size tls_addr tls_size : Z) : list Z :=
  pack [(6%nat, u48 stk_addr); (4%nat, u32 stk_size); (6%nat, u48 tls_addr); (4%nat, u32 tls_size)].

Definition impl_thread_started (tid stk_addr stk_size tls_addr tls_size : Z) (r : run OS) : res (run OS) :=
  buf ← get_buf r tid;
  let esz := Z.of_nat (sizeof ThreadBeginEvent) in
  r ← (if esz <=? buf.(size_) then
         tag ← buf_value r buf (buf.(size_) - esz) 1;
         if tag =? type_val ThreadBegin then
           p ← deref buf.(buf_);
           m ← store_bytes r.(r_core).(k_mem) (padd p (buf.(size_) - esz + 13))
                 (range_fields stk_addr stk_size tls_addr tls_size);
           Ok (with_core r (with_mem r.(r_core) m))
         else Ok r
       else Ok r);
  c ← save_module_info tid r.(r_core);
  Ok (with_core r c).

Definition impl_thread_join (tid_main tid_joiner pc : Z) (r : run OS) : res (run OS) :=
  r ← MC_STAT tid_main c_join 1 r;
  let '(et, r) := elapsed r in
  let '(_idx, r) := next_idx r in
  put tid_main (new_JoinThreadEvent _idx (u16 tid_joiner) et pc) r.

Definition impl_thread_end (tid : Z) (r : run OS) : res (run OS) :=
  let '(et, r) := elapsed r in
  r ← put tid (new_ThreadEndEvent (u16 0) et) r;
  on_buf tid (finish tid) r.

(** ** Calls *)

Definition impl_enter_func (tid pc : Z) (r : run OS) : res (run OS) :=
  r ← MC_STAT tid c_func_call 1 r;
  r ← put tid (new_FuncEntryEvent pc) r;
  buf ← get_buf r tid;
  Ok (set_buf r tid (set_last_fe buf buf.(e_counter_))).

Definition impl_exit_func (tid : Z) (r : run OS) : res (run OS) :=
  buf ← get_buf r tid;
  let esz := Z.of_nat (sizeof FuncEntryEvent) in
  empty ← (if (esz <=? buf.(size_)) && (buf.(e_counter_) =? buf.(last_fe))
           then tag ← buf_value r buf (buf.(size_) - esz) 1; Ok (tag =? type_val EnterFunc)
           else Ok false);
  if (empty : bool) then Ok (set_buf r tid (set_size_ buf (u32 (buf.(size_) - esz))))
  else put tid mkFuncExitEvent r.

(** ** Pointers *)

Definition impl_ptr_prop (tid pc addr_src addr_dest : Z) (r : run OS) : res (run OS) :=
  r ← MC_STAT tid c_ptr_prop 1 r;
  put tid (new_PtrAssignEvent addr_src addr_dest) r.

Definition impl_ptr_deref (tid pc addr_ptr : Z) (r : run OS) : res (run OS) :=
  put tid (new_PtrDeRefEvent addr_ptr) r.

(** ** Accesses *)

(** [__MC_STAT]; the counters are arrays of four. *)
Definition MC_STAT_ACC (tid kAccessSizeLog : Z) (is_write : bool) (r : run OS) : res (run OS) :=
  if (0 <=? kAccessSizeLog) && (kAccessSizeLog <? 4) then
    MC_STAT tid (if is_write then c_write kAccessSizeLog else c_read kAccessSizeLog) 1 r
  else Err EOutOfBounds.

Definition acc_type (kAccessSizeLog : Z) (is_write : bool) : Z :=
  let type_idx := if is_write then type_val MemWrite else type_val MemRead in
  let sz := u8 kAccessSizeLog in
  u8 (Z.lor type_idx (Z.shiftl sz 6)).

Definition range_type (is_write : bool) : Z := if is_write then type_val MemRangeWrite else type_val MemRangeRead.

(** The loop that copies the accessed bytes behind the event. *)
Definition append_value (tm : Z -> Z) (tid addr acc_len : Z) (r : run OS) : res (run OS) :=
  on_buf tid (fun buf c =>
    p ← deref buf.(buf_);
    m ← store_bytes c.(k_mem) (padd p buf.(size_)) (read_mem tm addr acc_len);
    Ok (set_size_ buf (u32 (buf.(size_) + acc_len)), with_mem c m)) r.

Definition impl_mem_acc (tm : Z -> Z) (tid pc addr kAccessSizeLog : Z) (is_write : bool) (r : run OS) : res (run OS) :=
  r ← MC_STAT_ACC tid kAccessSizeLog is_write r;
  let acc_len := Z.shiftl 1 kAccessSizeLog in
  r ← put tid (new_MemAccEvent (acc_type kAccessSizeLog is_write) addr pc) r;
  append_value tm tid addr acc_len r.

Definition impl_mem_acc_nv (tm : Z -> Z) (tid pc addr kAccessSizeLog : Z) (is_write : bool) (r : run OS) : res (run OS) :=
  r ← MC_STAT_ACC tid kAccessSizeLog is_write r;
  put tid (new_MemAccEvent (acc_type kAccessSizeLog is_write) addr pc) r.

(** [s64 ofs = addr - bottom; 0 < ofs && ofs < height] *)
Definition inside (addr bottom height : Z) : bool :=
  let ofs := s64 (u64 (addr - bottom)) in (0 <? ofs) && (ofs <? height).

Definition ns_mem_acc (tm : Z -> Z) (tid pc addr kAccessSizeLog : Z) (is_write : bool) (r : run OS) : res (run OS) :=
  r ← MC_STAT_ACC tid kAccessSizeLog is_write r;
  buf ← get_buf r tid;
  if inside addr buf.(stack_bottom) buf.(stack_height) then MC_STAT tid cs_acc 1 r
  else if inside addr buf.(tls_bottom) buf.(tls_height) then MC_STAT tid cs_acc 1 r
  else
    let acc_len := Z.shiftl 1 kAccessSizeLog in
    r ← on_buf tid (fun buf c =>
          match buf.(buf_) with
          | None => let '(buf, c) := open_buf buf c in open_file tid buf c
          | Some _ =>
              if buf.(capacity_) <=? u64 (buf.(size_) + Z.of_nat (sizeof MemAccEvent) + acc_len)
              then flush tid buf c else Ok (buf, c)
          end) r;
    r ← put tid (new_MemAccEvent (acc_type kAccessSizeLog is_write) addr pc) r;
    append_value tm tid addr acc_len r.

Definition ns_mem_acc_nv (tm : Z -> Z) (tid pc addr kAccessSizeLog : Z) (is_write : bool) (r : run OS) : res (run OS) :=
  r ← MC_STAT_ACC tid kAccessSizeLog is_write r;
  buf ← get_buf r tid;
  if inside addr buf.(stack_bottom) buf.(stack_height) then MC_STAT tid cs_acc 1 r
  else if inside addr buf.(tls_bottom) buf.(tls_height) then MC_STAT tid cs_acc 1 r
  else put tid (new_MemAccEvent (acc_type kAccessSizeLog is_write) addr pc) r.

(** A write of a range is counted twice. *)
Definition MC_STAT_RANGE (tid : Z) (is_write : bool) (r : run OS) : res (run OS) :=
  if is_write then r ← MC_STAT tid c_range_w 1 r; MC_STAT tid c_range_w 1 r
  else MC_STAT tid c_range_r 1 r.

Definition impl_mem_range_acc (tid pc addr size : Z) (is_write : bool) (r : run OS) : res (run OS) :=
  r ← MC_STAT_RANGE tid is_write r;
  put tid (new_MemRangeAccEvent (range_type is_write) addr pc (u32 size)) r.

Definition ns_mem_range_acc (tid pc addr size : Z) (is_write : bool) (r : run OS) : res (run OS) :=
  r ← MC_STAT_RANGE tid is_write r;
  buf ← get_buf r tid;
  if inside addr buf.(stack_bottom) buf.(stack_height) then MC_STAT tid cs_acc 1 r
  else if inside addr buf.(tls_bottom) buf.(tls_height) then MC_STAT tid cs_range_acc 1 r
  else put tid (new_MemRangeAccEvent (range_type is_write) addr pc (u32 size)) r.
End Handlers.
