(* ===== verification/System.v ===== *)
(** * The traced system

    The threads' buffers together.  [sys] is the invariant of the runtime
    while it traces: every open thread has its own file and its own block, and
    shares the queue with the others.  [traces] is the abstract state: what the
    file of each open thread will contain.  The handlers of [Handlers] are shown
    to refine appending one entry to the trace of their thread. *)
From Stdlib Require Import ZArith Lia String.
From stdpp Require Import base numbers list gmap.
From S2P Require Import Prelude Events Reader Memory LibC Printf Stat State HeapSort IOQueue TLBuffer Context Handlers.

Local Open Scope Z_scope.

(** ** States that do not differ for an open buffer *)

Section Same.
Context {OS : Type} `{HL : OSLaws OS}.

(** The context's other fields and the clock do not matter. *)
Record core_same (c c' : core OS) : Prop := {
  cs_mem : c'.(k_mem) = c.(k_mem);
  cs_file : forall fd, os_file c'.(k_os) fd = os_file c.(k_os) fd;
  cs_data : forall p, os_sent c'.(k_os) p = os_sent c.(k_os) p;
  cs_queue : c'.(k_queue) = c.(k_queue);
  cs_ctx : set_e_count c'.(k_ctx) 0 = set_e_count c.(k_ctx) 0 }.

Lemma core_same_refl c : core_same c c.
Proof. done. Qed.

Lemma opened_same c c' tb p blks items b bytes :
  core_same c c' -> opened c tb p blks items b bytes -> opened c' tb p blks items b bytes.
Proof.
  intros [Em Ef _ Eq Ec] [Hc Hf Ho Hbuf Hby Hq].
  apply (f_equal use_compression) in Ec as Ep. apply (f_equal use_io_q) in Ec as Ei. cbn in Ep, Ei. split; rewrite ?Em, ?Ep, ?Ei; try done.
  - by rewrite Ef.
  - intros fd. rewrite Ef. apply Ho.
  - destruct (use_io_q (k_ctx c)); [|done]. destruct Hq as ((q & ts & Eq' & Hr) & Hn & Hfd & Hq).
    rewrite <- Eq in Eq', Hq. split; [exists q, ts; by rewrite Em|]. split; [done|]. split; [|done].
    eapply Forall_impl; [exact Hfd|]. intros x. by rewrite Ef.
Qed.

(** The output is not compressed, and the queue holds [items], if there is one. *)
Definition queue_ok (c : core OS) (blks : list Z) (items : list request) : Prop :=
  c.(k_ctx).(use_compression) = false /\
  if c.(k_ctx).(use_io_q) then
    q_rep c blks items /\ Forall (fun r => is_Some (os_file c.(k_os) r.1)) items /\ exists q, c.(k_queue) = Some q /\ 2 <= q.(length_)
  else items = [].

Lemma opened_queue c tb p blks items b bytes : opened c tb p blks items b bytes -> queue_ok c blks items.
Proof.
  intros [Hc _ _ _ _ Hq]. split; [done|]. destruct (use_io_q (k_ctx c)); [|done]. by destruct Hq as (? & _ & ?).
Qed.

Lemma queue_same c c' blks items : core_same c c' -> queue_ok c blks items -> queue_ok c' blks items.
Proof.
  intros [Em Ef _ Eq Ec] [Hp Hq]. apply (f_equal use_compression) in Ec as Ep. apply (f_equal use_io_q) in Ec as Ei. cbn in Ep, Ei.
  split; [by rewrite Ep|]. rewrite Ei. destruct (use_io_q (k_ctx c)); [|done]. destruct Hq as ((q & ts & Eq' & Hr) & Hfd & Hq).
  rewrite <- Eq in Eq', Hq. split; [exists q, ts; by rewrite Em|]. split; [|done].
  eapply Forall_impl; [exact Hfd|]. intros x. by rewrite Ef.
Qed.

Lemma stream_same c c' tb p items bytes : core_same c c' -> stream c' tb p items bytes = stream c tb p items bytes.
Proof. intros [_ _ Ed _ _]. unfold stream. by rewrite Ed. Qed.

(** The clock and the counter of events. *)
Lemma time_same (c : core OS) : core_same c (with_os c (os_gettimeofday c.(k_os)).2).
Proof. destruct (time_law c.(k_os)) as [Hf Hd]. split; [done|exact Hf|exact Hd|done..]. Qed.

Lemma e_count_same (c : core OS) n : core_same c (with_ctx c (set_e_count c.(k_ctx) n)).
Proof. done. Qed.
End Same.

(** ** The invariant *)

Record thread := mkThread { th_buf : TLBuffer; th_path : chars; th_blk : Z; th_bytes : list Z }.

Section System.
Context {OS : Type} `{HL : OSLaws OS}.

(** The configuration; only the counter of events changes. *)
Context (cfg : UFOContext).

(** Every thread has a file and a block of its own. *)
Definition apart (ths : gmap Z thread) : Prop :=
  forall tid tid' th th', ths !! tid = Some th -> ths !! tid' = Some th' -> tid <> tid' ->
    th.(th_path) <> th'.(th_path) /\ th.(th_blk) <> th'.(th_blk).

Lemma apart_insert ths tid th' :
  apart ths ->
  (forall tid2 th2, ths !! tid2 = Some th2 -> tid2 <> tid -> th2.(th_path) <> th'.(th_path) /\ th2.(th_blk) <> th'.(th_blk)) ->
  apart (<[tid := th']> ths).
Proof.
  intros Hap Hnew tid2 tid3 th2 th3 H2 H3 Hne.
  destruct (decide (tid2 = tid)) as [->|Hne2], (decide (tid3 = tid)) as [->|Hne3];
    [done|rewrite lookup_insert_eq in H2; rewrite lookup_insert_ne in H3 by done; injection H2 as <-|
     rewrite lookup_insert_eq in H3; rewrite lookup_insert_ne in H2 by done; injection H3 as <-|
     rewrite lookup_insert_ne in H2, H3 by done; by eapply Hap].
  - destruct (Hnew _ _ H3 Hne3). by split; apply not_eq_sym.
  - by apply (Hnew tid2).
Qed.

Record sys (r : run OS) (ths : gmap Z thread) (blks : list Z) (items : list request) : Prop := {
  sy_bufs : exists bufs, r.(r_bufs) = Some bufs /\ zlen bufs = MAX_THREAD;
  sy_stat : exists stat, r.(r_stat) = Some stat /\ zlen stat = MAX_THREAD;
  sy_open : forall tid th, ths !! tid = Some th -> get_buf r tid = Ok th.(th_buf) /\
    opened r.(r_core) th.(th_buf) th.(th_path) blks items th.(th_blk) th.(th_bytes);
  sy_apart : apart ths;
  sy_cfg : set_e_count r.(r_core).(k_ctx) 0 = cfg;
  sy_queue : queue_ok r.(r_core) blks items;
  sy_wf : mem_wf r.(r_core).(k_mem);
  (** the name of the directory is a string, in a block of its own *)
  sy_dir : exists dir, is_cstr dir (cells r.(r_core).(k_mem) r.(r_core).(k_ctx).(trace_dir)) /\ zlen dir < 2 ^ 30;
  sy_dir_own : (blk r.(r_core).(k_ctx).(trace_dir) ∉ blks) /\
    forall tid th, ths !! tid = Some th -> th.(th_blk) <> blk r.(r_core).(k_ctx).(trace_dir) }.

Definition trace_of (c : core OS) (items : list request) (th : thread) : list Z :=
  stream c th.(th_buf) th.(th_path) items th.(th_bytes).

(** What the files of the open threads will contain. *)
Definition traces (r : run OS) (s : gmap Z (list Z)) : Prop :=
  exists ths blks items, sys r ths blks items /\ s = trace_of r.(r_core) items <$> ths.

Lemma get_buf_range (r : run OS) tid tb :
  get_buf r tid = Ok tb -> exists bufs, r.(r_bufs) = Some bufs /\ 0 <= tid < zlen bufs /\ bufs !! Z.to_nat tid = Some tb.
Proof.
  unfold get_buf, index. destruct (r_bufs r) as [bufs|]; [|done]. cbn [res_of_option]. rewrite bind_ok.
  destruct (Z.ltb_spec tid 0); [done|]. destruct (bufs !! Z.to_nat tid) as [tb'|] eqn:E; [|done]. cbn [res_of_option].
  intros [= ->]. exists bufs. split; [done|]. split; [|done]. apply lookup_lt_Some in E. unfold zlen. lia.
Qed.

Lemma get_buf_with_core (r : run OS) c tid : get_buf (with_core r c) tid = get_buf r tid.
Proof. done. Qed.

Lemma get_set_buf (r : run OS) tid tb tb' : get_buf r tid = Ok tb -> get_buf (set_buf r tid tb') tid = Ok tb'.
Proof.
  intros E. apply get_buf_range in E as (bufs & Hb & Hr & _). unfold get_buf, set_buf, index. cbn. rewrite Hb. cbn.
  rewrite (proj2 (Z.ltb_ge _ _)) by lia. rewrite list_lookup_insert_eq; [done|]. unfold zlen in Hr. lia.
Qed.

Lemma get_set_buf_ne (r : run OS) tid tid' tb' : 0 <= tid -> 0 <= tid' -> tid <> tid' -> get_buf (set_buf r tid tb') tid' = get_buf r tid'.
Proof.
  intros H0 H0' Hne. unfold get_buf, set_buf, index. cbn. destruct (r_bufs r) as [bufs|]; [|done]. cbn.
  rewrite (proj2 (Z.ltb_ge _ _)) by lia. rewrite list_lookup_insert_ne by lia. done.
Qed.

(** A method called on the buffer of an open thread. *)
Lemma on_buf_sys (r : run OS) ths blks items tid th f tb' c' blks' items' b' bytes' :
  sys r ths blks items -> ths !! tid = Some th -> f th.(th_buf) r.(r_core) = Ok (tb', c') ->
  opened c' tb' th.(th_path) blks' items' b' bytes' ->
  others_kept r.(r_core) c' th.(th_path) blks blks' items items' th.(th_blk) b' ->
  let r' := with_core (set_buf r tid tb') c' in
  let th' := mkThread tb' th.(th_path) b' bytes' in
  on_buf tid f r = Ok r' /\ sys r' (<[tid := th']> ths) blks' items' /\
  forall tid2 th2, ths !! tid2 = Some th2 -> tid2 <> tid -> trace_of c' items' th2 = trace_of r.(r_core) items th2.
Proof.
  intros [Hbufs Hstat Hopen Hapart Hcfg Hqok Hwf Hdir [Hd1 Hd2]] Hth Hf Hop [Hfr Hkept] r' th'. destruct (Hopen _ _ Hth) as [Hget Hop0].
  assert (Hother : forall tid2 th2, ths !! tid2 = Some th2 -> tid2 <> tid ->
    opened c' th2.(th_buf) th2.(th_path) blks' items' th2.(th_blk) th2.(th_bytes) /\
    trace_of c' items' th2 = trace_of r.(r_core) items th2 /\ th2.(th_path) <> th.(th_path) /\ th2.(th_blk) <> b').
  { intros tid2 th2 Hth2 Hne. destruct (Hopen _ _ Hth2) as [_ Hop2]. destruct (Hapart _ _ _ _ Hth2 Hth Hne) as [Hp Hb].
    by destruct (Hkept _ _ _ _ Hop2 Hp Hb) as (? & ? & ?). }
  assert (Hb' : b' <> blk r.(r_core).(k_ctx).(trace_dir)).
  { destruct (fr_in _ _ _ _ _ _ Hfr) as [->|Hin]; [by apply (Hd2 tid)|]. intros E. by rewrite E in Hin. }
  split; [|split].
  - unfold on_buf. rewrite Hget, bind_ok, Hf, bind_ok. done.
  - apply get_buf_range in Hget as Hr. destruct Hr as (bufs & Hbufs' & Htid & _).
    split.
    + exists (<[Z.to_nat tid := tb']> bufs). cbn. rewrite Hbufs'. split; [done|]. unfold zlen. rewrite length_insert.
      destruct Hbufs as (bufs0 & Hb0 & Hl0). rewrite Hbufs' in Hb0. by injection Hb0 as <-.
    + done.
    + intros tid2 th2 Hth2. unfold r'. rewrite get_buf_with_core. destruct (decide (tid2 = tid)) as [->|Hne].
      * rewrite lookup_insert_eq in Hth2. injection Hth2 as <-. split; [by eapply get_set_buf|done].
      * rewrite lookup_insert_ne in Hth2 by done. destruct (Hopen _ _ Hth2) as [Hget2 _].
        pose proof (get_buf_range _ _ _ Hget2) as (? & _ & Htid2 & _).
        rewrite get_set_buf_ne by lia. split; [done|]. by apply (Hother tid2).
    + apply apart_insert; [done|]. intros tid2 th2 H2 Hne2. by destruct (Hother _ _ H2 Hne2) as (_ & _ & ? & ?).
    + cbn [r' r_core with_core]. by rewrite (fr_ctx _ _ _ _ _ _ Hfr).
    + by apply (opened_queue _ _ _ _ _ _ _ Hop).
    + by apply (fr_wf _ _ _ _ _ _ Hfr).
    + cbn [r' r_core with_core]. rewrite (fr_ctx _ _ _ _ _ _ Hfr). destruct Hdir as (dir & Hdir & Hlen). exists dir. split; [|done].
      unfold cells. rewrite (fr_mem _ _ _ _ _ _ Hfr); [done|]. by apply not_eq_sym.
    + cbn [r' r_core with_core]. rewrite (fr_ctx _ _ _ _ _ _ Hfr). split.
      * intros Hx%(fr_blks _ _ _ _ _ _ Hfr). destruct Hx as [Hx|Hx]; [by apply (Hd2 _ _ Hth)|done].
      * intros tid2 th2 Hth2. destruct (decide (tid2 = tid)) as [->|Hne].
        -- rewrite lookup_insert_eq in Hth2. by injection Hth2 as <-.
        -- rewrite lookup_insert_ne in Hth2 by done. by apply (Hd2 tid2).
  - intros tid2 th2 Hth2 Hne. by destruct (Hother _ _ Hth2 Hne) as (_ & ? & _).
Qed.

Lemma sys_core (r : run OS) ths blks items c' :
  sys r ths blks items -> core_same r.(r_core) c' -> sys (with_core r c') ths blks items.
Proof.
  intros [Hbufs Hstat Hopen Hapart Hcfg Hqok Hwf Hdir Hown] Hc. pose proof (cs_mem _ _ Hc) as Em.
  pose proof (cs_ctx _ _ Hc) as Ec. apply (f_equal trace_dir) in Ec as Etd. cbn in Etd.
  split; cbn [with_core r_core]; rewrite ?Em, ?Etd; try done; [|by rewrite Ec|by apply (queue_same r.(r_core))]. intros tid th Hth.
  destruct (Hopen _ _ Hth) as [Hg Ho]. split; [done|]. by apply (opened_same r.(r_core)).
Qed.

Lemma traces_core (r : run OS) s c' : traces r s -> core_same r.(r_core) c' -> traces (with_core r c') s.
Proof.
  intros (ths & blks & items & Hsys & ->) Hc. exists ths, blks, items. split; [by apply sys_core|].
  apply map_fmap_ext. intros tid th _. cbn. unfold trace_of. symmetry. by apply stream_same.
Qed.

Lemma traces_next_idx (r : run OS) s : traces r s -> traces (next_idx r).2 s.
Proof. intros Ht. by apply traces_core. Qed.

Lemma traces_elapsed (r : run OS) s : traces r s -> traces (elapsed r).2 s.
Proof.
  intros Ht. unfold elapsed, get_time_ms. pose proof (time_same r.(r_core)) as Hs.
  destruct (os_gettimeofday r.(r_core).(k_os)) as [[sec usec] o]. by apply traces_core.
Qed.

(** Only the statistics differ. *)
Definition stat_only (r r' : run OS) : Prop :=
  r'.(r_core) = r.(r_core) /\ r'.(r_bufs) = r.(r_bufs) /\ r'.(r_term) = r.(r_term).

Lemma stat_only_sys (r r' : run OS) ths blks items :
  stat_only r r' -> (exists stat, r'.(r_stat) = Some stat /\ zlen stat = MAX_THREAD) ->
  sys r ths blks items -> sys r' ths blks items.
Proof.
  intros (Hc & Hb & _) Hs [Hbufs Hstat Hopen Hapart Hcfg Hqok Hwf Hdir Hown]. split; rewrite ?Hc; try done; [by rewrite Hb|].
  intros tid th Hth. unfold get_buf. rewrite Hb. by apply Hopen.
Qed.

Lemma MC_STAT_sys (r : run OS) ths blks items tid f d :
  sys r ths blks items -> 0 <= tid < MAX_THREAD ->
  exists r', MC_STAT tid f d r = Ok r' /\ stat_only r r' /\ sys r' ths blks items.
Proof.
  intros Hsys Htid. destruct (sy_stat _ _ _ _ Hsys) as (stat & Hs & Hl).
  unfold MC_STAT, index. rewrite Hs. cbn [res_of_option]. rewrite bind_ok, (proj2 (Z.ltb_ge _ _)) by lia.
  destruct (lookup_lt_is_Some_2 stat (Z.to_nat tid)) as [x Hx]; [unfold zlen in Hl; lia|]. rewrite Hx. cbn [res_of_option].
  rewrite bind_ok. eexists. split; [done|]. split; [done|].
  apply (stat_only_sys r); [done| |exact Hsys]. cbn. eexists. split; [done|]. unfold zlen in *. by rewrite length_insert.
Qed.

Lemma MC_STAT_ok (r : run OS) s tid f d :
  traces r s -> 0 <= tid < MAX_THREAD -> exists r', MC_STAT tid f d r = Ok r' /\ stat_only r r' /\ traces r' s.
Proof.
  intros (ths & blks & items & Hsys & ->) Htid. destruct (MC_STAT_sys r ths blks items tid f d Hsys Htid) as (r' & E & Hso & Hsys').
  exists r'. split; [done|]. split; [done|]. exists ths, blks, items. split; [done|]. by destruct Hso as [-> _].
Qed.

Lemma traces_tid (r : run OS) s tid : traces r s -> is_Some (s !! tid) -> 0 <= tid < MAX_THREAD.
Proof.
  intros (ths & blks & items & Hsys & ->) [t Ht]. rewrite lookup_fmap in Ht. apply fmap_Some in Ht as (th & Hth & _).
  destruct (sy_open _ _ _ _ Hsys _ _ Hth) as [Hg _]. apply get_buf_range in Hg as (bufs & Hb & Hr & _).
  destruct (sy_bufs _ _ _ _ Hsys) as (bufs' & Hb' & Hl). rewrite Hb in Hb'. injection Hb' as <-. lia.
Qed.

(** The thread's new trace, the others' as they were. *)
Lemma traces_update (r r' : run OS) (ths : gmap Z thread) items items' tid th th' x :
  ths !! tid = Some th -> trace_of r'.(r_core) items' th' = trace_of r.(r_core) items th ++ x ->
  (forall tid2 th2, ths !! tid2 = Some th2 -> tid2 <> tid -> trace_of r'.(r_core) items' th2 = trace_of r.(r_core) items th2) ->
  <[tid := trace_of r.(r_core) items th ++ x]> (trace_of r.(r_core) items <$> ths) =
  trace_of r'.(r_core) items' <$> <[tid := th']> ths.
Proof.
  intros Hth Hx Hother. rewrite fmap_insert, Hx. apply map_eq. intros tid2. destruct (decide (tid2 = tid)) as [->|Hne].
  - by rewrite !lookup_insert_eq.
  - rewrite !lookup_insert_ne, !lookup_fmap by done. destruct (ths !! tid2) as [th2|] eqn:E; [|done]. cbn. f_equal.
    symmetry. by apply (Hother tid2).
Qed.

Lemma on_buf_traces (r : run OS) ths blks items tid th f tb' c' blks' items' b' bytes' x :
  sys r ths blks items -> ths !! tid = Some th -> f th.(th_buf) r.(r_core) = Ok (tb', c') ->
  opened c' tb' th.(th_path) blks' items' b' bytes' ->
  others_kept r.(r_core) c' th.(th_path) blks blks' items items' th.(th_blk) b' ->
  stream c' tb' th.(th_path) items' bytes' = trace_of r.(r_core) items th ++ x ->
  on_buf tid f r = Ok (with_core (set_buf r tid tb') c') /\
  traces (with_core (set_buf r tid tb') c') (<[tid := trace_of r.(r_core) items th ++ x]> (trace_of r.(r_core) items <$> ths)).
Proof.
  intros Hsys Hth Hf Hop Hkept Hst.
  destruct (on_buf_sys r ths blks items tid th f tb' c' blks' items' b' bytes' Hsys Hth Hf Hop Hkept) as (Hon & Hsys' & Hother).
  split; [done|]. eexists _, blks', items'. split; [exact Hsys'|].
  apply (traces_update r (with_core (set_buf r tid tb') c') _ _ _ _ _ (mkThread tb' th.(th_path) b' bytes') _ Hth Hst Hother).
Qed.

(** [put_event] appends to the trace of its thread. *)
Lemma traces_put {E} `{HP : Packed E} (e : E) (r : run OS) s tid t :
  traces r s -> s !! tid = Some t -> copyable (sizeof E) = true ->
  exists r', put tid e r = Ok r' /\ traces r' (<[tid := t ++ encode e]> s) /\ r'.(r_core).(k_ctx) = r.(r_core).(k_ctx).
Proof.
  intros (ths & blks & items & Hsys & ->) Ht Hsz. rewrite lookup_fmap in Ht. apply fmap_Some in Ht as (th & Hth & ->).
  apply andb_true_iff in Hsz as [Hodd Hlt%Z.ltb_lt]. destruct (sy_open _ _ _ _ Hsys _ _ Hth) as [Hg Hop].
  destruct (put_event_opened e tid _ _ _ _ _ _ _ Hop Hodd Hlt) as
    (tb' & c' & blks' & items' & b' & bytes' & Hput & Hop' & Hst & _ & _ & Hctx & Hkept & _).
  destruct (on_buf_traces r ths blks items tid th (put_event e tid) tb' c' blks' items' b' bytes' (encode e)) as [Hon Ht]; [done..|].
  eexists. split; [exact Hon|]. done.
Qed.

(** ** Accesses *)

(** [put_event] where there is room. *)
Lemma put_event_room {E} `{HP : Packed E} (e : E) tid (c : core OS) tb p blks items b bytes l :
  opened c tb p blks items b bytes -> copyable (sizeof E) = true -> c.(k_mem).(m_blocks) !! b = Some l ->
  zlen bytes + Z.of_nat (sizeof E) < tb.(capacity_) ->
  put_event e tid tb c =
  Ok (set_e_counter_ (set_size_ tb (zlen bytes + zlen (encode e))) (u64 (tb.(e_counter_) + 1)),
      with_mem c (upd c.(k_mem) b (splice l (zlen bytes) (Some <$> encode e)))).
Proof.
  intros Hop Hsz Hl Hroom. apply andb_true_iff in Hsz as [Hodd Hlt%Z.ltb_lt].
  destruct (opened_is_open _ _ _ _ _ _ _ Hop) as [Hopen Hfd].
  assert (Hlen : zlen (encode e) = Z.of_nat (sizeof E)) by (unfold zlen; by rewrite length_encode).
  destruct (op_buf _ _ _ _ _ _ _ Hop) as (Hb1 & Hb2 & Hb3 & l' & Hl1 & Hl2 & Hl3). rewrite Hl in Hl1. injection Hl1 as <-.
  unfold cap_ok in Hb3. pose proof (zlen_nonneg bytes). unfold put_event.
  rewrite (proj2 (Z.ltb_ge _ _)), Hb1, Hb2 by lia. unfold u32. rewrite wrap_small by lia.
  rewrite (proj2 (Z.leb_gt _ _)) by lia. rewrite bind_ok, Hb1. cbn [deref res_of_option]. rewrite bind_ok.
  unfold padd. cbn [blk ofs]. rewrite Z.add_0_l, Hb2.
  rewrite (copy_buffer_ok _ b _ l (encode e) (Z.of_nat (sizeof E)) (sizeof E)
    (fun m offset => Ok (set_e_counter_ (set_size_ tb (wrap 32 (zlen bytes + offset))) (u64 (e_counter_ tb + 1)), with_mem c m)));
    [|done|lia|apply encode_ok|done|done|done|lia].
  rewrite wrap_small, Hlen by lia. done.
Qed.

Lemma read_mem_ok tm addr n : 0 <= n -> zlen (read_mem tm addr n) = n /\ Forall byte_ok (read_mem tm addr n).
Proof.
  intros Hn. unfold read_mem. split.
  - unfold zlen. rewrite length_fmap, length_seqZ. lia.
  - apply Forall_fmap, Forall_forall. intros i _. apply wrap_range. lia.
Qed.

(** The method of [append_value]. *)
Definition value_method (tm : Z -> Z) (addr acc_len : Z) (buf : TLBuffer) (c : core OS) : res (TLBuffer * core OS) :=
  p ← deref buf.(buf_);
  m ← store_bytes c.(k_mem) (padd p buf.(size_)) (read_mem tm addr acc_len);
  Ok (set_size_ buf (u32 (buf.(size_) + acc_len)), with_mem c m).

Lemma value_room tm addr n (c : core OS) tb p blks items b bytes :
  opened c tb p blks items b bytes -> 0 <= n -> zlen bytes + n <= tb.(capacity_) ->
  exists tb' c', value_method tm addr n tb c = Ok (tb', c') /\
    opened c' tb' p blks items b (bytes ++ read_mem tm addr n) /\
    others_kept c c' p blks blks items items b b /\ c'.(k_os) = c.(k_os) /\ tb'.(trace_fd_) = tb.(trace_fd_).
Proof.
  intros Hop Hn Hroom. destruct (read_mem_ok tm addr n Hn) as [Hz Hok].
  destruct (op_buf _ _ _ _ _ _ _ Hop) as (Hb1 & Hb2 & Hb3 & l & Hl1 & Hl2 & Hl3).
  unfold cap_ok in Hb3. pose proof (zlen_nonneg bytes). unfold value_method. rewrite Hb1, Hb2. cbn [deref res_of_option].
  rewrite bind_ok. unfold padd. cbn [blk ofs]. rewrite Z.add_0_l, (store_bytes_ok _ _ _ l) by (done || lia).
  rewrite bind_ok. unfold u32. rewrite wrap_small by lia. do 2 eexists. split; [done|].
  split; [|split; [by eapply store_keeps|done]].
  pose proof (store_opened c tb p blks items b bytes (read_mem tm addr n) l tb.(e_counter_) Hop Hl1 Hok ltac:(lia)) as Hs.
  rewrite Hz in Hs. by destruct tb.
Qed.

(** An event and the accessed bytes behind it, where there is room. *)
Lemma acc_room_sys tm (e : MemAccEvent) addr n (r : run OS) ths blks items tid th :
  sys r ths blks items -> ths !! tid = Some th -> 1 <= n ->
  zlen th.(th_bytes) + 13 + n <= th.(th_buf).(capacity_) ->
  exists r' ths' th', (r ← put tid e r; append_value tm tid addr n r) = Ok r' /\ sys r' ths' blks items /\
    ths' !! tid = Some th' /\ th'.(th_bytes) = th.(th_bytes) ++ encode e ++ read_mem tm addr n /\
    trace_of r'.(r_core) items <$> ths' =
    <[tid := trace_of r.(r_core) items th ++ encode e ++ read_mem tm addr n]> (trace_of r.(r_core) items <$> ths).
Proof.
  intros Hsys Hth Hn Hroom. destruct (sy_open _ _ _ _ Hsys _ _ Hth) as [Hg Hop].
  destruct (op_buf _ _ _ _ _ _ _ Hop) as (_ & _ & _ & l & Hl & _).
  assert (Hz : zlen (encode e) = 13) by (unfold zlen; by rewrite length_encode).
  pose proof (put_event_room e tid _ _ _ _ _ _ _ l Hop eq_refl Hl ltac:(cbn; lia)) as Hput. rewrite Hz in Hput.
  assert (Hroom1 : zlen th.(th_bytes) + zlen (encode e) <= th.(th_buf).(capacity_)) by lia.
  pose proof (store_opened _ _ _ _ _ _ _ (encode e) l (u64 (th.(th_buf).(e_counter_) + 1)) Hop Hl (encode_ok e) Hroom1) as Hop1.
  rewrite Hz in Hop1. set (tb1 := set_e_counter_ _ _) in *. set (c1 := with_mem _ _) in *.
  destruct (on_buf_sys r ths blks items tid th (put_event e tid) tb1 c1 blks items th.(th_blk) (th.(th_bytes) ++ encode e))
    as (Hon & Hsys1 & Hother); [done|done|done|done|by eapply store_keeps|].
  unfold put. rewrite Hon, bind_ok. set (r1 := with_core _ c1) in *. set (th1 := mkThread tb1 _ _ _) in *.
  destruct (value_room tm addr n c1 tb1 _ _ _ _ _ Hop1) as (tb2 & c2 & Hv & Hop2 & Hk2 & Hos & Hfd); [lia| |].
  { rewrite zlen_app, Hz. cbn. lia. }
  destruct (on_buf_sys r1 (<[tid := th1]> ths) blks items tid th1 (value_method tm addr n) tb2 c2 blks items th.(th_blk)
    ((th.(th_bytes) ++ encode e) ++ read_mem tm addr n)) as (Hon2 & Hsys2 & Hother2); try done.
  { by rewrite lookup_insert_eq. }
  eexists _, _, _. split; [exact Hon2|]. split; [exact Hsys2|]. split; [apply lookup_insert_eq|].
  split; [by rewrite <- app_assoc|]. rewrite insert_insert_eq. symmetry.
  apply (traces_update r (with_core (set_buf r1 tid tb2) c2) _ _ _ _ th); [done| |].
  - unfold trace_of, stream. cbn [th_buf th_path th_bytes with_core r_core]. rewrite Hos, Hfd. cbn. by rewrite <- !app_assoc.
  - intros tid2 th2 H2 Hne. cbn [with_core r_core]. rewrite (Hother2 tid2 th2); [by apply (Hother tid2)| |done].
    by rewrite lookup_insert_ne by done.
Qed.

Lemma acc_room tm (e : MemAccEvent) addr n (r : run OS) ths blks items tid th :
  sys r ths blks items -> ths !! tid = Some th -> 1 <= n ->
  zlen th.(th_bytes) + 13 + n <= th.(th_buf).(capacity_) ->
  exists r', (r ← put tid e r; append_value tm tid addr n r) = Ok r' /\
    traces r' (<[tid := trace_of r.(r_core) items th ++ encode e ++ read_mem tm addr n]> (trace_of r.(r_core) items <$> ths)).
Proof.
  intros Hsys Hth Hn Hroom. destruct (acc_room_sys tm e addr n r ths blks items tid th Hsys Hth Hn Hroom) as (r' & ths' & th' & E & Hsys' & _ & _ & Htr).
  exists r'. split; [done|]. by exists ths', blks, items.
Qed.

Lemma on_buf_ext tid f g (r : run OS) tb :
  get_buf r tid = Ok tb -> f tb r.(r_core) = g tb r.(r_core) -> on_buf tid f r = on_buf tid g r.
Proof. intros Hg E. unfold on_buf. by rewrite Hg, !bind_ok, E. Qed.

Lemma set_set_buf (r : run OS) tid tb1 c1 tb2 c2 :
  with_core (set_buf (with_core (set_buf r tid tb1) c1) tid tb2) c2 = with_core (set_buf r tid tb2) c2.
Proof.
  unfold set_buf, with_core, with_bufs. cbn. f_equal. destruct (r_bufs r); [|done]. cbn. by rewrite list_insert_insert_eq.
Qed.

(** A thread's buffer with room for the next access, same traces. *)
Definition roomy (r : run OS) ths items tid th (r1 : run OS) (n : Z) : Prop :=
  exists ths1 blks1 items1 th1, sys r1 ths1 blks1 items1 /\
    ths1 !! tid = Some th1 /\ zlen th1.(th_bytes) + 13 + n <= th1.(th_buf).(capacity_) /\
    trace_of r.(r_core) items <$> ths = trace_of r1.(r_core) items1 <$> ths1 /\
    trace_of r1.(r_core) items1 th1 = trace_of r.(r_core) items th.

Lemma flush_roomy (r : run OS) ths blks items tid th n :
  sys r ths blks items -> ths !! tid = Some th -> 1 <= n <= 8 ->
  exists r1, on_buf tid (flush tid) r = Ok r1 /\ roomy r ths items tid th r1 n.
Proof.
  intros Hsys Hth Hn. destruct (sy_open _ _ _ _ Hsys _ _ Hth) as [Hg Hop].
  destruct (flush_opened tid _ _ _ _ _ _ _ Hop) as (tb1 & c1 & blks1 & items1 & b1 & Hf & Hop1 & Hst & _ & _ & Hk).
  destruct (on_buf_sys r ths blks items tid th _ tb1 c1 blks1 items1 b1 [] Hsys Hth Hf Hop1 Hk) as (Hon & Hsys1 & Hother).
  eexists. split; [exact Hon|]. eexists _, blks1, items1, _. split; [exact Hsys1|]. split; [apply lookup_insert_eq|].
  destruct (op_buf _ _ _ _ _ _ _ Hop1) as (_ & _ & Hcap & _). unfold cap_ok in Hcap. cbn [th_bytes th_buf].
  split; [change (zlen (@nil Z)) with 0; lia|]. split; [|exact Hst].
  rewrite <- (traces_update r (with_core (set_buf r tid tb1) c1) ths items items1 tid th (mkThread tb1 th.(th_path) b1 []) []);
    [|done|rewrite app_nil_r; exact Hst|exact Hother].
  rewrite app_nil_r, insert_id; [done|]. by rewrite lookup_fmap, Hth.
Qed.

(** The first step of [ns_mem_acc]: afterwards there is room. *)
Definition room_method (tid acc_len : Z) (buf : TLBuffer) (c : core OS) : res (TLBuffer * core OS) :=
  match buf.(buf_) with
  | None => let '(buf, c) := open_buf buf c in open_file tid buf c
  | Some _ =>
      if buf.(capacity_) <=? u64 (buf.(size_) + Z.of_nat (sizeof MemAccEvent) + acc_len)
      then flush tid buf c else Ok (buf, c)
  end.

Lemma opened_size (c : core OS) tb p blks items b bytes :
  opened c tb p blks items b bytes -> tb.(buf_) = Some (Ptr b 0) /\ tb.(size_) = zlen bytes /\
    64 <= tb.(capacity_) < 2 ^ 32 - 64 /\ 0 <= zlen bytes <= tb.(capacity_).
Proof.
  intros Hop. destruct (op_buf _ _ _ _ _ _ _ Hop) as (Hb1 & Hb2 & Hb3 & l & _ & Hl2 & Hl3).
  do 3 (split; [done|]). split; [apply zlen_nonneg|]. apply (f_equal zlen) in Hl3.
  rewrite zlen_fmap in Hl3. unfold slice, zdrop, ztake, zlen in *. rewrite length_take, length_drop in Hl3. lia.
Qed.

Lemma room_ok (r : run OS) ths blks items tid th n :
  sys r ths blks items -> ths !! tid = Some th -> 1 <= n <= 8 ->
  exists r1, on_buf tid (room_method tid n) r = Ok r1 /\ roomy r ths items tid th r1 n.
Proof.
  intros Hsys Hth Hn. destruct (sy_open _ _ _ _ Hsys _ _ Hth) as [Hg Hop].
  destruct (opened_size _ _ _ _ _ _ _ Hop) as (Hb1 & Hb2 & Hb3 & Hle).
  assert (Hm : room_method tid n th.(th_buf) r.(r_core) =
    if th.(th_buf).(capacity_) <=? zlen th.(th_bytes) + 13 + n then flush tid th.(th_buf) r.(r_core) else Ok (th.(th_buf), r.(r_core))).
  { unfold room_method. rewrite Hb1, Hb2. unfold u64.
    change (Z.of_nat (sizeof MemAccEvent)) with 13. by rewrite wrap_small by lia. }
  destruct (Z.leb_spec th.(th_buf).(capacity_) (zlen th.(th_bytes) + 13 + n)) as [Hfull|Hroom].
  - rewrite (on_buf_ext tid _ (flush tid) r _ Hg Hm). by apply (flush_roomy r ths blks).
  - destruct (on_buf_sys r ths blks items tid th _ _ _ blks items th.(th_blk) th.(th_bytes) Hsys Hth Hm Hop (others_kept_refl _ _ _ _ _))
      as (Hon & Hsys1 & Hother).
    eexists. split; [exact Hon|]. eexists _, blks, items, _. split; [exact Hsys1|]. split; [apply lookup_insert_eq|].
    split; [cbn; lia|]. split; [|done]. rewrite insert_id; [done|]. by rewrite Hth; destruct th.
Qed.

(** [put_event] in a full buffer flushes first. *)
Lemma put_full {E} `{HP : Packed E} (e : E) (r : run OS) ths blks items tid th :
  sys r ths blks items -> ths !! tid = Some th -> copyable (sizeof E) = true ->
  th.(th_buf).(capacity_) <= zlen th.(th_bytes) + Z.of_nat (sizeof E) ->
  put tid e r = (r1 ← on_buf tid (flush tid) r; put tid e r1).
Proof.
  intros Hsys Hth [Hodd Hlt%Z.ltb_lt]%andb_true_iff Hfull. destruct (sy_open _ _ _ _ Hsys _ _ Hth) as [Hg Hop].
  destruct (opened_size _ _ _ _ _ _ _ Hop) as (Hb1 & Hb2 & Hb3 & Hle). destruct (opened_is_open _ _ _ _ _ _ _ Hop) as [_ Hfd].
  destruct (flush_opened tid _ _ _ _ _ _ _ Hop) as (tb1 & c1 & blks1 & items1 & b1 & Hf & Hop1 & _ & _ & _ & _).
  destruct (opened_size _ _ _ _ _ _ _ Hop1) as (Hb1' & Hb2' & Hb3' & _). destruct (opened_is_open _ _ _ _ _ _ _ Hop1) as [_ Hfd1].
  change (zlen []) with 0 in Hb2'.
  assert (Eq : put_event e tid th.(th_buf) r.(r_core) = put_event e tid tb1 c1).
  { unfold put_event. rewrite !(proj2 (Z.ltb_ge _ _)), Hb1, Hb1', Hb2, Hb2' by lia. unfold u32. rewrite !wrap_small by lia.
    rewrite (proj2 (Z.leb_le _ _)), (proj2 (Z.leb_gt _ _)), Hf by lia. done. }
  unfold put. rewrite (on_buf_ext tid _ (fun _ _ => put_event e tid tb1 c1) r _ Hg Eq). unfold on_buf.
  rewrite Hg, !bind_ok, Hf, !bind_ok. cbv beta iota. rewrite get_buf_with_core, (get_set_buf _ _ _ _ Hg), !bind_ok. cbn [with_core r_core]. destruct (put_event e tid tb1 c1) as [[tb2 c2]|]; [|done].
  rewrite !bind_ok. cbv beta iota. by rewrite set_set_buf.
Qed.

(** What [impl_mem_acc] needs, having no check of its own: the value behind
    the event fits, or the event is flushed into an empty buffer. *)
Definition value_fits (r : run OS) (tid n : Z) : bool :=
  match get_buf r tid with
  | Ok buf => (buf.(capacity_) <=? buf.(size_) + 13) || (buf.(size_) + 13 + n <=? buf.(capacity_))
  | Err _ => false
  end.

Lemma acc_fits tm (e : MemAccEvent) addr n (r : run OS) s tid t :
  traces r s -> s !! tid = Some t -> 1 <= n <= 8 -> value_fits r tid n = true ->
  exists r', (r ← put tid e r; append_value tm tid addr n r) = Ok r' /\
    traces r' (<[tid := t ++ encode e ++ read_mem tm addr n]> s).
Proof.
  intros (ths & blks & items & Hsys & ->) Ht Hn Hfits. rewrite lookup_fmap in Ht. apply fmap_Some in Ht as (th & Hth & ->).
  destruct (sy_open _ _ _ _ Hsys _ _ Hth) as [Hg Hop]. destruct (opened_size _ _ _ _ _ _ _ Hop) as (_ & Hb2 & _ & _).
  unfold value_fits in Hfits. rewrite Hg, Hb2 in Hfits.
  destruct (Z.leb_spec th.(th_buf).(capacity_) (zlen th.(th_bytes) + 13)) as [Hfull|Hfit].
  - rewrite (put_full e r ths blks items tid th) by done.
    destruct (flush_roomy r ths blks items tid th n Hsys Hth Hn) as (r1 & -> & ths1 & blks1 & items1 & th1 & Hsys1 & Hth1 & Hroom & Htr & Ht1).
    rewrite bind_ok, Htr, <- Ht1. by apply (acc_room tm e addr n r1 ths1 blks1 items1); [..|lia|].
  - cbn [orb] in Hfits. apply Z.leb_le in Hfits. apply (acc_room tm e addr n r ths blks items); (done || lia).
Qed.

(** ** The end of a buffer *)

Lemma slice_slice {A} (l : list A) o k n D : 0 <= o -> 0 <= k -> k + n <= D -> slice (slice l o D) k n = slice l (o + k) n.
Proof.
  intros Ho Hk Hn. unfold slice, ztake, zdrop. rewrite skipn_firstn_comm, take_take, drop_drop. f_equal; [lia|f_equal; lia].
Qed.

Lemma slice_fmap {A B} (f : A -> B) (l : list A) o n : slice (f <$> l) o n = f <$> slice l o n.
Proof. unfold slice, ztake, zdrop. by rewrite fmap_take, fmap_drop. Qed.

Lemma slice_app_r {A} (x y : list A) k n : 0 <= k -> slice (x ++ y) (zlen x + k) n = slice y k n.
Proof.
  intros Hk. unfold slice, ztake, zdrop, zlen. rewrite drop_app_ge by lia. do 2 f_equal. lia.
Qed.

(** The last [n] bytes of a buffer: reading in them, and dropping them. *)
Lemma buf_tail (r : run OS) ths blks items tid th n :
  sys r ths blks items -> ths !! tid = Some th -> 0 <= n <= th.(th_buf).(size_) ->
  exists b0 d, th.(th_bytes) = b0 ++ d /\ zlen d = n /\ Forall byte_ok d /\
    (forall k m, 0 <= k -> 0 <= m -> k + m <= n ->
       buf_value r th.(th_buf) (th.(th_buf).(size_) - n + k) m = Ok (le_val (slice d k m))) /\
    u32 (th.(th_buf).(size_) - n) = zlen b0 /\ zlen th.(th_bytes) = th.(th_buf).(size_).
Proof.
  intros Hsys Hth Hn. destruct (sy_open _ _ _ _ Hsys _ _ Hth) as [Hg Hop].
  destruct (opened_size _ _ _ _ _ _ _ Hop) as (_ & _ & _ & Hle).
  destruct (op_buf _ _ _ _ _ _ _ Hop) as (Hb1 & Hb2 & Hb3 & l & Hl1 & Hl2 & Hl3). unfold cap_ok in Hb3.
  set (bytes := th.(th_bytes)) in *. set (k0 := zlen bytes - n).
  assert (Hsplit : bytes = ztake k0 bytes ++ zdrop k0 bytes) by (by rewrite ztake_zdrop).
  assert (Hz0 : zlen (ztake k0 bytes) = k0) by (unfold ztake, zlen in *; rewrite length_take; lia).
  assert (Hz1 : zlen (zdrop k0 bytes) = n) by (unfold zdrop, zlen in *; rewrite length_drop; lia).
  exists (ztake k0 bytes), (zdrop k0 bytes). split; [done|]. split; [done|].
  split; [apply Forall_drop, (op_bytes _ _ _ _ _ _ _ Hop)|]. split; [|split; [|done]].
  - intros k m Hk Hm Hkm. unfold buf_value, buf_bytes. rewrite Hb1. cbn [deref res_of_option]. rewrite bind_ok.
    unfold padd. cbn [blk ofs]. assert (Hzs : zlen (slice (zdrop k0 bytes) k m) = m) by (apply zlen_slice; lia).
    rewrite Hb2. replace (Z.to_nat m) with (length (slice (zdrop k0 bytes) k m)) by (unfold zlen in Hzs; lia).
    rewrite (load_bytes_ok _ _ _ l); [by rewrite bind_ok|done|lia|]. rewrite Hzs.
    rewrite <- (slice_app_r (ztake k0 bytes) (zdrop k0 bytes)), Hz0, <- Hsplit, <- slice_fmap, <- Hl3 by lia.
    rewrite slice_slice by lia. done.
  - rewrite Hz0. unfold u32. rewrite wrap_small by lia. lia.
Qed.

Lemma trim_sys (r : run OS) ths blks items tid th b0 d :
  sys r ths blks items -> ths !! tid = Some th -> th.(th_bytes) = b0 ++ d ->
  let tb' := set_size_ th.(th_buf) (zlen b0) in
  sys (set_buf r tid tb') (<[tid := mkThread tb' th.(th_path) th.(th_blk) b0]> ths) blks items.
Proof.
  intros Hsys Hth Hsplit tb'. destruct (sy_open _ _ _ _ Hsys _ _ Hth) as [Hg Hop].
  assert (Hop' : opened r.(r_core) tb' th.(th_path) blks items th.(th_blk) b0).
  { destruct Hop as [Hc Hf Ho (Hb1 & Hb2 & Hb3 & l & Hl1 & Hl2 & Hl3) Hby Hq]. rewrite Hsplit in *. split; try done.
    - split; [done|]. split; [done|]. split; [done|]. exists l. split; [done|]. split; [done|].
      rewrite zlen_app, fmap_app in Hl3. pose proof (zlen_nonneg b0). pose proof (zlen_nonneg d).
      pose proof (slice_slice l 0 0 (zlen b0) (zlen b0 + zlen d) ltac:(lia) ltac:(lia) ltac:(lia)) as E.
      rewrite Hl3 in E. cbn [size_ tb' set_size_]. etransitivity; [symmetry; exact E|]. unfold slice, ztake, zdrop.
      rewrite drop_0, <- (zlen_fmap Some). unfold zlen. by rewrite Nat2Z.id, take_app_length.
    - by apply Forall_app in Hby as [? _]. }
  by destruct (on_buf_sys r ths blks items tid th (fun _ c => Ok (tb', c)) tb' r.(r_core) blks items th.(th_blk) b0
    Hsys Hth eq_refl Hop' (others_kept_refl _ _ _ _ _)) as (_ & Hsys' & _).
Qed.

Lemma trim_traces (r : run OS) ths blks items tid th b0 d :
  sys r ths blks items -> ths !! tid = Some th -> th.(th_bytes) = b0 ++ d ->
  let s := trace_of r.(r_core) items <$> ths in
  exists t0, s !! tid = Some (t0 ++ d) /\ traces (set_buf r tid (set_size_ th.(th_buf) (zlen b0))) (<[tid := t0]> s).
Proof.
  intros Hsys Hth Hsplit s. pose proof (trim_sys r ths blks items tid th b0 d Hsys Hth Hsplit) as Hsys'. cbv zeta in Hsys'.
  set (tb' := set_size_ th.(th_buf) (zlen b0)) in *.
  exists (stream r.(r_core) tb' th.(th_path) items b0). split.
  - unfold s. rewrite lookup_fmap, Hth. cbn. unfold trace_of, stream. rewrite Hsplit. by rewrite <- !app_assoc.
  - eexists _, blks, items. split; [exact Hsys'|]. apply map_eq. intros tid2. unfold s.
    destruct (decide (tid2 = tid)) as [->|Hne]; [by rewrite lookup_fmap, !lookup_insert_eq|].
    by rewrite lookup_fmap, !lookup_insert_ne, lookup_fmap by done.
Qed.

Lemma traces_thread (r : run OS) s tid t :
  traces r s -> s !! tid = Some t -> exists ths blks items th, sys r ths blks items /\ s = trace_of r.(r_core) items <$> ths /\
    ths !! tid = Some th /\ t = trace_of r.(r_core) items th /\ get_buf r tid = Ok th.(th_buf).
Proof.
  intros (ths & blks & items & Hsys & ->) Ht. rewrite lookup_fmap in Ht. apply fmap_Some in Ht as (th & Hth & ->).
  exists ths, blks, items, th. do 4 (split; [done|]). by apply (sy_open _ _ _ _ Hsys).
Qed.

(** Whether the last [n] bytes of the buffer begin with [tag] and pass a test
    on the [len] bytes at [ofs]. *)
Definition tail_is (r : run OS) (tid n tag ofs len : Z) (test : Z -> bool) : bool :=
  match get_buf r tid with
  | Ok buf =>
      (n <=? buf.(size_)) &&
      (match buf_value r buf (buf.(size_) - n) 1 with Ok t => t =? tag | Err _ => false end) &&
      (match buf_value r buf (buf.(size_) - n + ofs) len with Ok v => test v | Err _ => false end)
  | Err _ => false
  end.

(** The entries that handlers take back from the end of the buffer: the read
    of a byte before a lock, the allocation of a thread's own data, the entry
    of a function that does nothing. *)
Definition lock_read (r : run OS) (tid mtx_id : Z) : bool :=
  tail_is r tid 14 8 6 8 (fun addr => Z.land addr 0x0000ffffffffffff =? mtx_id).

Definition thread_alloc (r : run OS) (tid : Z) : bool :=
  tail_is r tid 17 (type_val MemAlloc) 13 4 (fun size => size =? 288).

Definition func_entry (r : run OS) (tid : Z) : bool :=
  match get_buf r tid with Ok buf => buf.(e_counter_) =? buf.(last_fe) | Err _ => false end &&
  tail_is r tid 7 (type_val EnterFunc) 0 0 (fun _ => true).

(** The trace without its last [n] bytes. *)
Definition without_last (n : Z) (t : list Z) : list Z := ztake (zlen t - n) t.

(** A guarded handler tests the tail, and trims it. *)
Lemma tail_guard {A} (r : run OS) s tid t buf n tag ofs len (test : Z -> bool) (x y : res A) :
  traces r s -> s !! tid = Some t -> get_buf r tid = Ok buf -> 1 <= n -> 0 <= ofs -> 0 <= len -> ofs + len <= n ->
  (if n <=? buf.(size_) then
     t ← buf_value r buf (buf.(size_) - n) 1;
     if t =? tag then v ← buf_value r buf (buf.(size_) - n + ofs) len; if test v then x else y else y
   else y) = if tail_is r tid n tag ofs len test then x else y.
Proof.
  intros Hr Ht Hb Hn Ho Hl Hol. destruct (traces_thread _ _ _ _ Hr Ht) as (ths & blks & items & th & Hsys & Hs & Hth & -> & Hg).
  rewrite Hb in Hg. injection Hg as ->. unfold tail_is. rewrite Hb.
  destruct (Z.leb_spec n (size_ (th_buf th))) as [Hsz|_]; [|done].
  destruct (buf_tail r ths blks items tid th n Hsys Hth ltac:(lia)) as (b0 & d & Hsplit & Hz & _ & Hval & Hu & _).
  pose proof (Hval 0 1) as Hv0. rewrite Z.add_0_r in Hv0. rewrite Hv0, bind_ok by lia.
  destruct (le_val (slice d 0 1) =? tag); [|done]. rewrite Hval, bind_ok by lia. done.
Qed.

Lemma tail_trim (r : run OS) s tid t buf n tag ofs len (test : Z -> bool) :
  traces r s -> s !! tid = Some t -> get_buf r tid = Ok buf -> 1 <= n -> tail_is r tid n tag ofs len test = true ->
  traces (set_buf r tid (set_size_ buf (u32 (buf.(size_) - n)))) (<[tid := without_last n t]> s).
Proof.
  intros Hr Ht Hb Hn Htail. destruct (traces_thread _ _ _ _ Hr Ht) as (ths & blks & items & th & Hsys & Hs & Hth & -> & Hg).
  rewrite Hb in Hg. injection Hg as ->. unfold tail_is in Htail. rewrite Hb in Htail.
  apply andb_true_iff in Htail as [[Hsz%Z.leb_le _]%andb_true_iff _].
  destruct (buf_tail r ths blks items tid th n Hsys Hth ltac:(lia)) as (b0 & d & Hsplit & Hz & _ & _ & Hu & _).
  destruct (trim_traces r ths blks items tid th b0 d Hsys Hth Hsplit) as (t0 & Ht0 & Htr). rewrite Hu.
  rewrite <- Hs, Ht in Ht0. injection Ht0 as Et. rewrite <- Hs in Htr. rewrite Et. unfold without_last.
  rewrite zlen_app. replace (zlen t0 + zlen d - n) with (zlen t0) by lia.
  unfold ztake, zlen. by rewrite Nat2Z.id, take_app_length.
Qed.

Lemma reset_read_ok (r : run OS) s tid t m :
  traces r s -> s !! tid = Some t ->
  exists r', _reset_read tid m r = Ok r' /\ r'.(r_core) = r.(r_core) /\
    traces r' (<[tid := if lock_read r tid m then without_last 14 t else t]> s).
Proof.
  intros Hr Ht. pose proof (traces_tid _ _ _ Hr (mk_is_Some _ _ Ht)) as Htid.
  destruct (traces_thread _ _ _ _ Hr Ht) as (_ & _ & _ & th & _ & _ & _ & _ & Hg).
  unfold _reset_read. rewrite Hg, bind_ok. change (Z.of_nat (sizeof MemAccEvent) + 1) with 14. cbv zeta.
  rewrite (tail_guard r s tid t (th_buf th) 14 8 6 8 (fun addr => Z.land addr 0x0000ffffffffffff =? m)) by (done || lia).
  fold (lock_read r tid m). destruct (lock_read r tid m) eqn:E.
  - pose proof (tail_trim _ _ _ _ _ 14 _ _ _ _ Hr Ht Hg ltac:(lia) E) as Htr.
    destruct (MC_STAT_ok _ _ tid (c_read 0) (-1) Htr Htid) as (r' & -> & Hso & Htr').
    exists r'. split; [done|]. split; [by destruct Hso as [-> _]|done].
  - exists r. by rewrite insert_id.
Qed.

Lemma reset_alloc_ok (r : run OS) s tid t :
  traces r s -> s !! tid = Some t ->
  exists r', reset_alloc tid r = Ok r' /\ r'.(r_core) = r.(r_core) /\
    traces r' (<[tid := if thread_alloc r tid then without_last 17 t else t]> s).
Proof.
  intros Hr Ht. pose proof (traces_tid _ _ _ Hr (mk_is_Some _ _ Ht)) as Htid.
  destruct (traces_thread _ _ _ _ Hr Ht) as (_ & _ & _ & th & _ & _ & _ & _ & Hg).
  unfold reset_alloc. rewrite Hg, bind_ok. change (Z.of_nat (sizeof AllocEvent)) with 17. cbv zeta.
  pose proof (tail_guard r s tid t (th_buf th) 17 (type_val MemAlloc) 13 4 (fun size => size =? 288)
    (MC_STAT tid c_alloc (-1) (set_buf r tid (set_size_ (th_buf th) (u32 (size_ (th_buf th) - 17))))) (Ok r)
    Hr Ht Hg ltac:(lia) ltac:(lia) ltac:(lia) ltac:(lia)) as Htg.
  replace (size_ (th_buf th) - 17 + 13) with (size_ (th_buf th) - 4) in Htg by lia. rewrite Htg.
  fold (thread_alloc r tid). destruct (thread_alloc r tid) eqn:E.
  - pose proof (tail_trim _ _ _ _ _ 17 _ _ _ _ Hr Ht Hg ltac:(lia) E) as Htr.
    destruct (MC_STAT_ok _ _ tid c_alloc (-1) Htr Htid) as (r' & -> & Hso & Htr').
    exists r'. split; [done|]. split; [by destruct Hso as [-> _]|done].
  - exists r. by rewrite insert_id.
Qed.

(** ** Functions *)

Lemma exit_func_guard (r : run OS) s tid t buf :
  traces r s -> s !! tid = Some t -> get_buf r tid = Ok buf ->
  impl_exit_func tid r =
  if func_entry r tid then Ok (set_buf r tid (set_size_ buf (u32 (buf.(size_) - 7)))) else put tid mkFuncExitEvent r.
Proof.
  intros Hr Ht Hb. unfold impl_exit_func, func_entry. rewrite Hb, bind_ok. change (Z.of_nat (sizeof FuncEntryEvent)) with 7. cbv zeta.
  pose proof (tail_guard r s tid t buf 7 (type_val EnterFunc) 0 0 (fun _ => true) (Ok true) (Ok false)
    Hr Ht Hb ltac:(lia) ltac:(lia) ltac:(lia) ltac:(lia)) as Htg.
  destruct (buf.(e_counter_) =? buf.(last_fe)); [|by rewrite andb_false_r].
  rewrite andb_true_r. cbn [andb].
  destruct (tail_is r tid 7 (type_val EnterFunc) 0 0 (fun _ => true)) eqn:Et.
  - destruct (7 <=? size_ buf); [|done]. destruct (buf_value r buf (size_ buf - 7) 1) as [tag|]; [|done].
    rewrite bind_ok in *. destruct (tag =? type_val EnterFunc); [by rewrite bind_ok|done].
  - destruct (7 <=? size_ buf); [|by rewrite bind_ok]. destruct (buf_value r buf (size_ buf - 7) 1) as [tag|]; [|done].
    rewrite bind_ok in *. destruct (tag =? type_val EnterFunc); [|by rewrite bind_ok].
    exfalso. unfold buf_value in Htg. destruct (buf_bytes r buf (size_ buf - 7 + 0) 0); done.
Qed.

Lemma exit_func_traces (r : run OS) s tid t :
  traces r s -> s !! tid = Some t ->
  exists r', impl_exit_func tid r = Ok r' /\
    traces r' (<[tid := if func_entry r tid then without_last 7 t else t ++ encode mkFuncExitEvent]> s).
Proof.
  intros Hr Ht. destruct (traces_thread _ _ _ _ Hr Ht) as (_ & _ & _ & th & _ & _ & _ & _ & Hg).
  rewrite (exit_func_guard r s tid t _ Hr Ht Hg). destruct (func_entry r tid) eqn:E.
  - eexists. split; [done|]. apply andb_true_iff in E as [_ E]. by apply (tail_trim r s tid t _ 7 _ _ _ _ Hr Ht Hg ltac:(lia) E).
  - assert (Hc : copyable (sizeof FuncExitEvent) = true) by done.
    destruct (traces_put mkFuncExitEvent r s tid t Hr Ht Hc) as (r' & Hp & Htr & _). by exists r'.
Qed.

Lemma last_fe_sys (r : run OS) ths blks items tid th n :
  sys r ths blks items -> ths !! tid = Some th ->
  let tb' := set_last_fe th.(th_buf) n in
  sys (set_buf r tid tb') (<[tid := mkThread tb' th.(th_path) th.(th_blk) th.(th_bytes)]> ths) blks items.
Proof.
  intros Hsys Hth tb'. destruct (sy_open _ _ _ _ Hsys _ _ Hth) as [_ Hop].
  by destruct (on_buf_sys r ths blks items tid th (fun tb c => Ok (set_last_fe tb n, c)) tb' r.(r_core)
    blks items th.(th_blk) th.(th_bytes) Hsys Hth eq_refl) as (_ & Hsys' & _); [destruct Hop|apply others_kept_refl|].
Qed.

Lemma last_fe_traces (r : run OS) s tid buf n :
  traces r s -> is_Some (s !! tid) -> get_buf r tid = Ok buf -> traces (set_buf r tid (set_last_fe buf n)) s.
Proof.
  intros Hr [t Ht] Hb. destruct (traces_thread _ _ _ _ Hr Ht) as (ths & blks & items & th & Hsys & Hs & Hth & -> & Hg).
  rewrite Hb in Hg. injection Hg as ->. eexists _, blks, items. split; [by apply (last_fe_sys r ths blks items tid th n)|].
  rewrite Hs. apply map_eq. intros tid2. destruct (decide (tid2 = tid)) as [->|Hne]; [by rewrite !lookup_fmap, lookup_insert_eq, Hth|].
  by rewrite !lookup_fmap, lookup_insert_ne by done.
Qed.

Lemma enter_func_traces (r : run OS) s tid t pc :
  traces r s -> s !! tid = Some t ->
  exists r', impl_enter_func tid pc r = Ok r' /\ traces r' (<[tid := t ++ encode (new_FuncEntryEvent pc)]> s) /\
    func_entry r' tid = true.
Proof.
  intros Hr Ht. pose proof (traces_tid _ _ _ Hr (mk_is_Some _ _ Ht)) as Htid. unfold impl_enter_func.
  destruct (MC_STAT_ok _ _ tid c_func_call 1 Hr Htid) as (r1 & -> & _ & Hr1). rewrite bind_ok.
  destruct (traces_thread _ _ _ _ Hr1 Ht) as (ths & blks & items & th & Hsys & -> & Hth & -> & Hg1).
  destruct (sy_open _ _ _ _ Hsys _ _ Hth) as [_ Hop].
  destruct (put_event_opened (new_FuncEntryEvent pc) tid _ _ _ _ _ _ _ Hop ltac:(done) ltac:(done)) as
    (tb' & c' & blks' & items' & b' & bytes' & Hput & Hop' & Hst & _ & _ & _ & Hkept & prev & Hprev).
  destruct (on_buf_traces r1 ths blks items tid th (put_event (new_FuncEntryEvent pc) tid) tb' c' blks' items' b' bytes' _ Hsys Hth Hput Hop' Hkept Hst) as [Hon Htr].
  unfold put. rewrite Hon, bind_ok. set (r2 := with_core _ c') in *.
  assert (Hg2 : get_buf r2 tid = Ok tb') by (unfold r2; rewrite get_buf_with_core; by apply (get_set_buf _ _ _ _ Hg1)).
  rewrite Hg2, bind_ok. eexists. split; [done|].
  assert (Htr2 := last_fe_traces _ _ tid tb' tb'.(e_counter_) Htr ltac:(rewrite lookup_insert_eq; done) Hg2).
  split; [exact Htr2|]. unfold func_entry, tail_is. rewrite (get_set_buf _ _ _ _ Hg2). cbn [e_counter_ last_fe set_last_fe].
  rewrite Z.eqb_refl. cbn [andb size_ set_last_fe].
  destruct (opened_size _ _ _ _ _ _ _ Hop') as (Hb1 & Hb2 & Hb3 & Hle).
  destruct (op_buf _ _ _ _ _ _ _ Hop') as (_ & _ & _ & l & Hl1 & _ & Hl3).
  assert (Hz7 : zlen (encode (new_FuncEntryEvent pc)) = 7) by done. rewrite Hprev, zlen_app, Hz7 in *.
  pose proof (zlen_nonneg prev). rewrite Hb2. rewrite (proj2 (Z.leb_le _ _)) by lia.
  unfold buf_value, buf_bytes. cbn [buf_ set_last_fe]. rewrite Hb1. cbn [deref res_of_option]. rewrite !bind_ok.
  cbn [r_core set_buf with_bufs r2 with_core]. unfold padd. cbn [blk ofs]. change (Z.to_nat 0) with 0%nat.
  change (Z.to_nat 1) with (length [15]).
  rewrite (load_bytes_ok _ _ _ l [15] Hl1); [done|lia|]. change (zlen [15]) with 1.
  replace (0 + (zlen prev + 7 - 7)) with (0 + zlen prev) by lia. rewrite <- (slice_slice l 0 (zlen prev) 1 (zlen prev + 7)) by lia.
  rewrite Hl3, fmap_app. replace (zlen prev) with (zlen (Some <$> prev) + 0) by (rewrite zlen_fmap; lia).
  by rewrite slice_app_r.
Qed.

(** ** The calls of the traced program *)

(** The events of a running thread; [ns] and [nv] tell which of the four
    handlers of an access is installed. *)
Inductive call : Type :=
| CLock (pc mutex_id : Z)
| CUnlock (pc mutex_id : Z)
| CRdLock (pc mutex_id : Z)
| CRdUnlock (pc mutex_id : Z)
| CRwUnlock (pc mutex_id : Z)
| CWait (pc addr_cond addr_mtx : Z)
| CSignal (pc addr_cond : Z)
| CBroadcast (pc addr_cond : Z)
| CAlloc (pc addr_left size : Z)
| CDealloc (pc addr size : Z)
| CJoin (tid_joiner pc : Z)
| CEnter (pc : Z)
| CExit
| CPtrProp (pc addr_src addr_dest : Z)
| CPtrDeref (pc addr_ptr : Z)
| CAcc (ns nv : bool) (pc addr kAccessSizeLog : Z) (is_write : bool)
| CRange (ns : bool) (pc addr size : Z) (is_write : bool).

Definition perform (tm : Z -> Z) (tid : Z) (k : call) (r : run OS) : res (run OS) :=
  match k with
  | CLock pc m => impl_mtx_lock tid pc m r
  | CUnlock pc m => impl_mtx_unlock tid pc m r
  | CRdLock pc m => impl_rd_lock tid pc m r
  | CRdUnlock pc m => impl_rd_unlock tid pc m r
  | CRwUnlock pc m => impl_rw_unlock tid pc m r
  | CWait pc c m => impl_cond_wait tid pc c m r
  | CSignal pc c => impl_cond_signal tid pc c r
  | CBroadcast pc c => impl_cond_broadcast tid pc c r
  | CAlloc pc a n => '(_, r) ← impl_alloc tid pc a n r; Ok r
  | CDealloc pc a n => impl_dealloc tid pc a n r
  | CJoin j pc => impl_thread_join tid j pc r
  | CEnter pc => impl_enter_func tid pc r
  | CExit => impl_exit_func tid r
  | CPtrProp pc src dest => impl_ptr_prop tid pc src dest r
  | CPtrDeref pc p => impl_ptr_deref tid pc p r
  | CAcc false false pc a k w => impl_mem_acc tm tid pc a k w r
  | CAcc false true pc a k w => impl_mem_acc_nv tm tid pc a k w r
  | CAcc true false pc a k w => ns_mem_acc tm tid pc a k w r
  | CAcc true true pc a k w => ns_mem_acc_nv tm tid pc a k w r
  | CRange false pc a n w => impl_mem_range_acc tid pc a n w r
  | CRange true pc a n w => ns_mem_range_acc tid pc a n w r
  end.

(** An address of the thread's own stack or thread-local storage. *)
Definition own_address (r : run OS) (tid addr : Z) : bool :=
  match get_buf r tid with
  | Ok buf => inside addr buf.(stack_bottom) buf.(stack_height) || inside addr buf.(tls_bottom) buf.(tls_height)
  | Err _ => false
  end.

(** How many bytes a call takes back from the trace of its thread. *)
Definition takes_back (r : run OS) (tid : Z) (k : call) : Z :=
  match k with
  | CLock _ m | CUnlock _ m => if lock_read r tid m then 14 else 0
  | CExit => if func_entry r tid then 7 else 0
  | _ => 0
  end.

(** What it adds to it. *)
Definition entry (tm : Z -> Z) (r : run OS) (tid : Z) (k : call) : list item :=
  let idx := (next_idx r).1 in
  let et := (elapsed r).1 in
  match k with
  | CLock pc m => [ItLock (new_LockEvent m pc)]
  | CUnlock pc m => [ItUnlock (new_UnlockEvent m pc)]
  | CRdLock _ _ | CRdUnlock _ _ | CRwUnlock _ _ => []
  | CWait pc c m => [ItWait (new_ThrCondWaitEvent idx c m pc)]
  | CSignal pc c => [ItSignal (new_ThrCondSignalEvent idx c pc)]
  | CBroadcast pc c => [ItBC (new_ThrCondBCEvent idx c pc)]
  | CAlloc pc a n => [ItAlloc (new_AllocEvent a pc (u32 n))]
  | CDealloc pc a n => [ItDealloc (new_DeallocEvent a pc (u32 n))]
  | CJoin j pc => [ItJoin (new_JoinThreadEvent idx (u16 j) et pc)]
  | CEnter pc => [ItEnter (new_FuncEntryEvent pc)]
  | CExit => if func_entry r tid then [] else [ItExit mkFuncExitEvent]
  | CPtrProp _ src dest => [ItPtrAssign (new_PtrAssignEvent src dest)]
  | CPtrDeref _ p => [ItPtrDeRef (new_PtrDeRefEvent p)]
  | CAcc ns nv pc a k w =>
      if ns && own_address r tid a then []
      else [ItMem (new_MemAccEvent (acc_type k w) a pc) (if nv then [] else read_mem tm a (2 ^ k))]
  | CRange ns pc a n w =>
      if ns && own_address r tid a then []
      else [ItRange (new_MemRangeAccEvent (range_type w) a pc (u32 n))]
  end.

Definition entry_bytes (its : list item) : list Z := concat (item_bytes <$> its).

(** The trace of the thread after the call. *)
Definition after (tm : Z -> Z) (r : run OS) (tid : Z) (k : call) (t : list Z) : list Z :=
  (if takes_back r tid k =? 0 then t else without_last (takes_back r tid k) t) ++ entry_bytes (entry tm r tid k).

(** The sizes of accesses are 1, 2, 4 or 8; the handler without a check of
    its own needs room. *)
Definition call_ok (r : run OS) (tid : Z) (k : call) : bool :=
  match k with
  | CAcc ns nv _ _ k _ => (0 <=? k) && (k <=? 3) && (ns || nv || value_fits r tid (2 ^ k))
  | _ => true
  end.

(** *** The handlers, one by one *)

Lemma stat_only_get (r r' : run OS) tid : stat_only r r' -> get_buf r' tid = get_buf r tid.
Proof. intros (_ & Hb & _). unfold get_buf. by rewrite Hb. Qed.

Lemma stat_only_lock_read (r r' : run OS) tid m : stat_only r r' -> lock_read r' tid m = lock_read r tid m.
Proof.
  intros Hs. unfold lock_read, tail_is, buf_value, buf_bytes. rewrite (stat_only_get _ _ _ Hs). by destruct Hs as [-> _].
Qed.

Lemma stat_only_trans (r1 r2 r3 : run OS) : stat_only r1 r2 -> stat_only r2 r3 -> stat_only r1 r3.
Proof. intros (E1 & E2 & E3) (F1 & F2 & F3). split; [congruence|]. split; congruence. Qed.

Section Handler.
Context (r : run OS) (s : gmap Z (list Z)) (tid : Z) (t : list Z).
Hypothesis (Hr : traces r s) (Ht : s !! tid = Some t).

Lemma open_tid : 0 <= tid < MAX_THREAD.
Proof using Hr Ht. by apply (traces_tid _ _ _ Hr); rewrite Ht. Qed.

Lemma stat_put {E} `{HP : Packed E} f (e : E) :
  copyable (sizeof E) = true ->
  exists r', (r ← MC_STAT tid f 1 r; put tid e r) = Ok r' /\ traces r' (<[tid := t ++ encode e]> s).
Proof using Hr Ht.
  intros Hc. destruct (MC_STAT_ok _ _ tid f 1 Hr open_tid) as (r1 & -> & _ & Hr1). rewrite bind_ok.
  destruct (traces_put e r1 s tid t Hr1 Ht Hc) as (r2 & -> & Hr2 & _). by exists r2.
Qed.

Lemma stat_idx_put {E} `{HP : Packed E} f (e : Z -> E) :
  copyable (sizeof E) = true ->
  exists r', (r ← MC_STAT tid f 1 r; let '(_idx, r) := next_idx r in put tid (e _idx) r) = Ok r' /\
    traces r' (<[tid := t ++ encode (e (next_idx r).1)]> s).
Proof using Hr Ht.
  intros Hc. destruct (MC_STAT_ok _ _ tid f 1 Hr open_tid) as (r1 & -> & (Hso & _) & Hr1). rewrite bind_ok.
  apply traces_next_idx in Hr1. unfold next_idx in *. rewrite Hso in *. cbn [fst snd] in *.
  destruct (traces_put (e (u64 (e_count (k_ctx (r_core r)) + 1))) _ s tid t Hr1 Ht Hc) as (r2 & -> & Hr2 & _). by exists r2.
Qed.

(** A lock or an unlock *)
Lemma stat_reset_put {E} `{HP : Packed E} f m (e : E) :
  copyable (sizeof E) = true ->
  exists r', (r ← MC_STAT tid f 1 r; r ← _reset_read tid m r; put tid e r) = Ok r' /\
    traces r' (<[tid := (if lock_read r tid m then without_last 14 t else t) ++ encode e]> s).
Proof using Hr Ht.
  intros Hc. destruct (MC_STAT_ok _ _ tid f 1 Hr open_tid) as (r1 & -> & Hso & Hr1). rewrite bind_ok.
  destruct (reset_read_ok r1 s tid t m Hr1 Ht) as (r2 & -> & _ & Hr2). rewrite bind_ok.
  rewrite (stat_only_lock_read _ _ _ _ Hso) in Hr2.
  destruct (traces_put e r2 _ tid _ Hr2 (lookup_insert_eq _ _ _) Hc) as (r3 & -> & Hr3 & _).
  rewrite insert_insert_eq in Hr3. by exists r3.
Qed.

(** The tests of an access that skips the thread's own addresses. *)
Lemma own_guard a f g (y : run OS -> res (run OS)) :
  (forall r', stat_only r r' -> traces r' s -> exists r'', y r' = Ok r'' /\ traces r'' (<[tid := t ++ g]> s)) ->
  forall r1, stat_only r r1 -> traces r1 s ->
  exists r', (buf ← get_buf r1 tid;
    if inside a buf.(stack_bottom) buf.(stack_height) then MC_STAT tid cs_acc 1 r1
    else if inside a buf.(tls_bottom) buf.(tls_height) then MC_STAT tid f 1 r1 else y r1) = Ok r' /\
    traces r' (<[tid := t ++ (if own_address r tid a then [] else g)]> s).
Proof using Hr Ht.
  intros Hy r1 Hso Hr1. destruct (traces_thread _ _ _ _ Hr Ht) as (_ & _ & _ & th & _ & _ & _ & _ & Hg).
  unfold own_address. rewrite (stat_only_get _ _ _ Hso), Hg, bind_ok.
  destruct (inside a (stack_bottom (th_buf th)) _); [|destruct (inside a (tls_bottom (th_buf th)) _)]; cbn [orb].
  1, 2: rewrite app_nil_r, insert_id by done; destruct (MC_STAT_ok _ _ tid cs_acc 1 Hr1 open_tid) as (r2 & E2 & _ & Hr2);
    destruct (MC_STAT_ok _ _ tid f 1 Hr1 open_tid) as (r3 & E3 & _ & Hr3); eauto.
  by apply Hy.
Qed.

Lemma stat_acc k w :
  0 <= k <= 3 -> exists r1, MC_STAT_ACC tid k w r = Ok r1 /\ stat_only r r1 /\ traces r1 s.
Proof using Hr Ht.
  intros Hk. unfold MC_STAT_ACC. rewrite (proj2 (Z.leb_le _ _)), (proj2 (Z.ltb_lt _ _)) by lia. cbn [andb].
  apply (MC_STAT_ok _ _ _ _ _ Hr open_tid).
Qed.

Lemma stat_range w : exists r1, MC_STAT_RANGE tid w r = Ok r1 /\ stat_only r r1 /\ traces r1 s.
Proof using Hr Ht.
  unfold MC_STAT_RANGE. destruct w; [|apply (MC_STAT_ok _ _ _ _ _ Hr open_tid)].
  destruct (MC_STAT_ok _ _ tid c_range_w 1 Hr open_tid) as (r1 & -> & Hso & Hr1). rewrite bind_ok.
  destruct (MC_STAT_ok _ _ tid c_range_w 1 Hr1 open_tid) as (r2 & -> & Hso2 & Hr2).
  exists r2. split; [done|]. split; [by apply (stat_only_trans _ r1)|done].
Qed.

Lemma acc_traces tm (ns nv : bool) pc a k w :
  0 <= k <= 3 -> ns || nv || value_fits r tid (2 ^ k) = true ->
  exists r', perform tm tid (CAcc ns nv pc a k w) r = Ok r' /\
    traces r' (<[tid := t ++ (if ns && own_address r tid a then []
      else encode (new_MemAccEvent (acc_type k w) a pc) ++ (if nv then [] else read_mem tm a (2 ^ k)))]> s).
Proof using Hr Ht.
  intros Hk Hfit. destruct (stat_acc k w Hk) as (r1 & E1 & Hso & Hr1). set (e := new_MemAccEvent (acc_type k w) a pc).
  assert (Hsh : Z.shiftl 1 k = 2 ^ k) by (rewrite Z.shiftl_mul_pow2 by lia; lia).
  assert (Hp : 1 <= 2 ^ k <= 8) by (assert (k = 0 \/ k = 1 \/ k = 2 \/ k = 3) as [->|[->|[->| ->]]] by lia; lia).
  assert (Hput : forall r', traces r' s -> exists r'', put tid e r' = Ok r'' /\ traces r'' (<[tid := t ++ encode e ++ []]> s)).
  { intros r' Hr'. rewrite app_nil_r. destruct (traces_put e r' s tid t Hr' Ht ltac:(done)) as (r'' & -> & Hr'' & _). by exists r''. }
  assert (Hval : forall r', traces r' s -> value_fits r' tid (2 ^ k) = true ->
    exists r'', (r ← put tid e r'; append_value tm tid a (2 ^ k) r) = Ok r'' /\ traces r'' (<[tid := t ++ encode e ++ read_mem tm a (2 ^ k)]> s)).
  { intros r' Hr' Hf. by apply acc_fits. }
  destruct ns, nv; cbn [perform andb orb] in *; unfold ns_mem_acc_nv, ns_mem_acc, impl_mem_acc_nv, impl_mem_acc; rewrite E1, bind_ok, ?Hsh.
  - apply own_guard; auto.
  - apply (own_guard a cs_acc _ (fun r1 => r ← on_buf tid (room_method tid (2 ^ k)) r1; r ← put tid e r; append_value tm tid a (2 ^ k) r));
      [|done|done]. intros r2 _ Hr2.
    destruct (traces_thread _ _ _ _ Hr2 Ht) as (ths & blks & items & th & Hsys & Hs & Hth & Hth' & _).
    destruct (room_ok r2 ths blks items tid th (2 ^ k) Hsys Hth Hp) as (r3 & Hroom & ths1 & blks1 & items1 & th1 & Hsys1 & Hth1 & Hz & Htr & Ht1).
    rewrite Hroom, bind_ok, Hs, Htr, Hth', <- Ht1. apply (acc_room tm e a (2 ^ k) r3 ths1 blks1 items1); (done || lia).
  - auto.
  - apply Hval; [done|]. unfold value_fits in *. by rewrite (stat_only_get _ _ _ Hso).
Qed.

Lemma range_traces tm (ns : bool) pc a n w :
  exists r', perform tm tid (CRange ns pc a n w) r = Ok r' /\
    traces r' (<[tid := t ++ (if ns && own_address r tid a then [] else encode (new_MemRangeAccEvent (range_type w) a pc (u32 n)))]> s).
Proof using Hr Ht.
  destruct (stat_range w) as (r1 & E1 & Hso & Hr1). set (e := new_MemRangeAccEvent _ _ _ _).
  assert (Hput : forall r', traces r' s -> exists r'', put tid e r' = Ok r'' /\ traces r'' (<[tid := t ++ encode e]> s)).
  { intros r' Hr'. destruct (traces_put e r' s tid t Hr' Ht ltac:(done)) as (r'' & -> & Hr'' & _). by exists r''. }
  destruct ns; cbn [perform andb]; unfold ns_mem_range_acc, impl_mem_range_acc; rewrite E1, bind_ok; [|auto].
  apply own_guard; auto.
Qed.

Lemma join_traces j pc :
  exists r', impl_thread_join tid j pc r = Ok r' /\
    traces r' (<[tid := t ++ encode (new_JoinThreadEvent (next_idx r).1 (u16 j) (elapsed r).1 pc)]> s).
Proof using Hr Ht.
  unfold impl_thread_join. destruct (MC_STAT_ok _ _ tid c_join 1 Hr open_tid) as (r1 & -> & (Hso & _) & Hr1). rewrite bind_ok.
  apply traces_elapsed in Hr1. unfold elapsed in *. rewrite Hso in *. destruct (get_time_ms (k_os (r_core r))) as [ms o].
  cbn [fst snd] in *. apply traces_next_idx in Hr1. unfold next_idx in *. cbn [r_core with_core k_ctx with_os fst snd] in *.
  match goal with |- context [put tid ?e ?r0] => destruct (traces_put e r0 s tid t Hr1 Ht ltac:(done)) as (r2 & -> & Hr2 & _) end.
  by exists r2.
Qed.

(** Every handler refines appending its entry, and taking back what it may. *)
Lemma perform_ok tm k :
  call_ok r tid k = true -> exists r', perform tm tid k r = Ok r' /\ traces r' (<[tid := after tm r tid k t]> s).
Proof using Hr Ht.
  intros Hok. unfold after, entry_bytes.
  assert (Hid : exists r', Ok r = Ok r' /\ traces r' (<[tid := t ++ []]> s)) by (exists r; by rewrite app_nil_r, insert_id).
  destruct k; cbn [call_ok takes_back entry perform] in *; rewrite ?Z.eqb_refl; cbn [fmap list_fmap concat item_bytes]; rewrite ?app_nil_r.
  - destruct (stat_reset_put c_lock mutex_id (new_LockEvent mutex_id pc) ltac:(done)) as (r' & E & Htr).
    exists r'. split; [exact E|]. by destruct (lock_read r tid mutex_id).
  - destruct (stat_reset_put c_unlock mutex_id (new_UnlockEvent mutex_id pc) ltac:(done)) as (r' & E & Htr).
    exists r'. split; [exact E|]. by destruct (lock_read r tid mutex_id).
  - exists r. by rewrite insert_id.
  - exists r. by rewrite insert_id.
  - exists r. by rewrite insert_id.
  - by apply (stat_idx_put c_cond_wait (fun i => new_ThrCondWaitEvent i addr_cond addr_mtx pc)).
  - by apply (stat_idx_put c_cond_signal (fun i => new_ThrCondSignalEvent i addr_cond pc)).
  - by apply (stat_idx_put c_cond_bc (fun i => new_ThrCondBCEvent i addr_cond pc)).
  - destruct (stat_put c_alloc (new_AllocEvent addr_left pc (u32 size)) ltac:(done)) as (r' & E & Htr). exists r'. split; [|done].
    unfold impl_alloc. destruct (MC_STAT tid c_alloc 1 r) as [r1|]; [|done]. rewrite bind_ok in E. by rewrite bind_ok, E, !bind_ok.
  - by apply (stat_put c_dealloc).
  - apply join_traces.
  - destruct (enter_func_traces r s tid t pc Hr Ht) as (r' & E & Htr & _). by exists r'.
  - destruct (exit_func_traces r s tid t Hr Ht) as (r' & E & Htr). exists r'. split; [done|].
    destruct (func_entry r tid); cbn [fmap list_fmap concat item_bytes Z.eqb]; by rewrite app_nil_r.
  - by apply (stat_put c_ptr_prop).
  - destruct (traces_put (new_PtrDeRefEvent addr_ptr) r s tid t Hr Ht ltac:(done)) as (r' & E & Htr & _). by exists r'.
  - apply andb_true_iff in Hok as [[H0%Z.leb_le H3%Z.leb_le]%andb_true_iff Hfit].
    destruct (acc_traces tm ns nv pc addr kAccessSizeLog is_write ltac:(lia) Hfit) as (r' & E & Htr). exists r'. split; [done|].
    destruct (ns && own_address r tid addr); cbn [fmap list_fmap concat item_bytes]; by rewrite ?app_nil_r in *.
  - destruct (range_traces tm ns pc addr size is_write) as (r' & E & Htr). exists r'. split; [done|].
    destruct (ns && own_address r tid addr); cbn [fmap list_fmap concat item_bytes]; by rewrite ?app_nil_r in *.
Qed.
End Handler.

(** ** A new thread *)

(** What [impl_thread_created] does to the buffer of the new thread. *)
Definition kid_method (tid_kid : Z) (buf_kid : TLBuffer) (c : core OS) : res (TLBuffer * core OS) :=
  '(buf_kid, c) ←
    (if (match buf_kid.(buf_) with Some _ => true | None => false end) && (0 <? buf_kid.(size_))
     then flush tid_kid buf_kid c
     else Ok (open_buf buf_kid c));
  if negb (is_file_open buf_kid c) then open_file tid_kid buf_kid c else Ok (buf_kid, c).

(** A buffer that is not in use. *)
Definition unused (r : run OS) (tid : Z) : Prop :=
  exists tb, get_buf r tid = Ok tb /\ (tb.(buf_) = None \/ tb.(size_) = 0) /\ is_file_open tb r.(r_core) = false.

(** The file of a thread can be opened, and nobody has it open. *)
Definition openable (c : core OS) (p : chars) : Prop :=
  (forall fd, os_file c.(k_os) fd <> Some p) /\ 0 <= (os_open c.(k_os) p).1.

Lemma owned_block (m : mem) ts blks x : Forall2 (owns m) ts blks -> x ∈ blks -> is_Some (m.(m_blocks) !! x).
Proof.
  intros Ho Hx. apply list_elem_of_lookup in Hx as [i Hi]. destruct (Forall2_lookup_r _ _ _ _ _ Ho Hi) as (t & _ & Hown).
  destruct Hown as (? & l & Hl & _). by exists l.
Qed.

(** The state with a new block and the file open, its header written. *)
Lemma open_opened (c : core OS) tb tid dir :
  is_cstr dir (cells c.(k_mem) c.(k_ctx).(trace_dir)) -> zlen dir < 2 ^ 30 -> mem_wf c.(k_mem) -> 0 <= tid < 2 ^ 31 ->
  (tb.(buf_) = None \/ tb.(size_) = 0) -> is_file_open tb c = false -> cap_ok c.(k_ctx).(tl_buf_size_) ->
  openable c (trace_name dir tid) ->
  exists tb' c' fd, kid_method tid tb c = Ok (tb', c') /\ c'.(k_ctx) = c.(k_ctx) /\ c'.(k_queue) = c.(k_queue) /\
    c'.(k_mem) = Mem (c.(k_mem).(m_next) + 2)
      (<[c.(k_mem).(m_next) := replicate (Z.to_nat c.(k_ctx).(tl_buf_size_)) None]> c.(k_mem).(m_blocks)) /\
    tb'.(trace_fd_) = fd /\ os_file c.(k_os) fd = None /\ os_file c'.(k_os) fd = Some (trace_name dir tid) /\
    (forall fd', fd' <> fd -> os_file c'.(k_os) fd' = os_file c.(k_os) fd') /\
    os_sent c'.(k_os) (trace_name dir tid) = os_sent c.(k_os) (trace_name dir tid) ++ encode (trace_header c tid) /\
    (forall q, q <> trace_name dir tid -> os_sent c'.(k_os) q = os_sent c.(k_os) q) /\
    buf_holds c'.(k_mem) tb' c.(k_mem).(m_next) [].
Proof.
  intros Hdir Hlen Hwf Htid Hun Hcl Hcap [Hno Hfd]. unfold kid_method.
  assert ((match tb.(buf_) with Some _ => true | None => false end) && (0 <? tb.(size_)) = false) as ->.
  { destruct Hun as [->| ->]; [done|]. by rewrite andb_false_r. }
  rewrite bind_ok. unfold open_buf, get_buf_size. set (sz := c.(k_ctx).(tl_buf_size_)).
  destruct (alloc c.(k_mem) sz) as [pb m1] eqn:Ea. pose proof (alloc_wf c.(k_mem) sz Hwf) as Hwf1. rewrite Ea in Hwf1. cbn [snd] in Hwf1.
  unfold alloc in Ea. injection Ea as <- <-.
  set (tb1 := set_size_ _ 0). set (c1 := with_mem c _). pose proof (mem_wf_fresh _ Hwf) as Hfresh.
  assert (is_file_open tb1 c1 = false) as -> by done. cbn [negb].
  rewrite (open_file_ok tid tb1 c1 dir); [|..|done|done|lia].
  2: { unfold cells in *. cbn [c1 with_mem k_mem k_ctx m_blocks]. rewrite lookup_insert_ne; [done|]. intros E.
       rewrite <- E, Hfresh in Hdir. destruct Hdir as [_ [rest Hrest]]. by destruct dir. }
  cbn [c1 with_mem k_os k_ctx k_mem m_blocks m_next] in *. destruct (os_open c.(k_os) (trace_name dir tid)) as [fd o] eqn:Eo. cbn [fst] in Hfd.
  destruct (open_law _ _ _ _ Eo Hfd) as (L1 & L2 & L3 & L4).
  destruct (write_law o fd _ (encode (trace_header c tid)) L2) as (n' & o' & Ew & W1 & W2 & W3 & _).
  change (trace_header c1 tid) with (trace_header c tid). rewrite Ew. cbn [snd].
  eexists _, _, fd. split; [done|]. cbn [with_os with_mem k_ctx k_os k_mem k_queue]. split; [done|]. split; [done|].
  split; [f_equal; lia|]. split; [done|]. split; [done|]. split; [by rewrite W1|]. split; [intros fd' Hne; by rewrite W1, L3|].
  split; [by rewrite W2, L4|]. split; [intros q Hq; by rewrite W3, L4|].
  unfold buf_holds, noted. destruct (no_stack _); [destruct (os_GetThreadStackAndTls _ _) as [[[? ?] ?] ?]|]; cbn [set_trace_fd_ set_stack tb1 set_size_ set_capacity_ set_buf_ buf_ size_ capacity_].
  all: split; [done|]; split; [done|]; split; [done|]; eexists; split; [cbn [m_blocks]; apply lookup_insert_eq|].
  all: unfold cap_ok in Hcap; split; [rewrite zlen_replicate; lia|by rewrite slice_0].
Qed.

Lemma queued_none fd items : Forall (fun r : request => r.1 <> fd) items -> queued fd items = [].
Proof. induction 1 as [|r items Hr _ IH]; [done|]. by rewrite queued_cons, decide_False. Qed.

(** The next state when a file is opened: a new block, descriptor [fd] is [p]. *)
Record opening (c c' : core OS) (n : list cell) (fd : Z) (p : chars) : Prop := {
  og_ctx : c'.(k_ctx) = c.(k_ctx);
  og_queue : c'.(k_queue) = c.(k_queue);
  og_mem : c'.(k_mem) = Mem (c.(k_mem).(m_next) + 2) (<[c.(k_mem).(m_next) := n]> c.(k_mem).(m_blocks));
  og_before : os_file c.(k_os) fd = None;
  og_fd : os_file c'.(k_os) fd = Some p;
  og_others : forall fd', fd' <> fd -> os_file c'.(k_os) fd' = os_file c.(k_os) fd';
  og_data : forall q, q <> p -> os_sent c'.(k_os) q = os_sent c.(k_os) q;
  og_new : forall fd, os_file c.(k_os) fd <> Some p }.

Lemma queue_beside (c c' : core OS) n fd p blks items :
  queue_ok c blks items -> mem_wf c.(k_mem) -> opening c c' n fd p ->
  queue_ok c' blks items /\ (c.(k_ctx).(use_io_q) = true -> c.(k_mem).(m_next) ∉ blks) /\ queued fd items = [].
Proof.
  intros [Hp Hq] Hwf [Ectx Equ Em Hfd0 Hfd1 Hfd2 Hdata Hno]. unfold queue_ok. rewrite Ectx.
  destruct (use_io_q (k_ctx c)); [|by subst items]. destruct Hq as ((q & ts & Eq & Hr) & Hfds & Hq).
  assert (Hnb : c.(k_mem).(m_next) ∉ blks).
  { intros Hx. destruct (owned_block _ _ _ _ (rg_own _ _ _ _ _ Hr) Hx) as [l' Hl']. pose proof (mem_wf_fresh _ Hwf). congruence. }
  split; [split; [done|split; [|split; [|by rewrite Equ]]]|split; [done|]].
  - exists q, ts. rewrite Equ. split; [done|]. apply (ring_frame c.(k_mem)); [|done]. intros x Hx. rewrite Em. cbn [m_blocks].
    rewrite lookup_insert_ne; [done|]. intros E. by rewrite <- E in Hx.
  - eapply Forall_impl; [exact Hfds|]. intros r Hr'. destruct (decide (r.1 = fd)) as [->|Hr1]; [by eexists|by rewrite Hfd2].
  - apply queued_none. eapply Forall_impl; [exact Hfds|]. intros x [px Hpx] E. congruence.
Qed.

(** A thread that is open stays as it is when another one opens its file. *)
Lemma opened_beside (c c' : core OS) n fd p tb2 p2 blks items b2 bytes2 :
  opened c tb2 p2 blks items b2 bytes2 -> mem_wf c.(k_mem) -> opening c c' n fd p ->
  opened c' tb2 p2 blks items b2 bytes2 /\ stream c' tb2 p2 items bytes2 = stream c tb2 p2 items bytes2 /\
  p2 <> p /\ b2 <> c.(k_mem).(m_next).
Proof.
  intros Hop Hwf Hog. destruct (queue_beside c c' n fd p blks items (opened_queue _ _ _ _ _ _ _ Hop) Hwf Hog) as ([_ Hqueue] & _).
  destruct Hop as [Hc Hf Ho Hbuf Hby Hq]. destruct Hog as [Ectx Equ Em Hfd0 Hfd1 Hfd2 Hdata Hno].
  assert (Hp : p2 <> p) by (intros ->; by apply (Hno _ Hf)).
  assert (Hne : tb2.(trace_fd_) <> fd) by (intros E; rewrite E in Hf; congruence).
  destruct Hbuf as (B1 & B2 & B3 & l & Hl & B4 & B5).
  assert (Hb : b2 <> c.(k_mem).(m_next)) by (intros ->; pose proof (mem_wf_fresh _ Hwf); congruence).
  split; [|split; [unfold stream; by rewrite Hdata|done]]. rewrite Ectx in Hqueue. split.
  - by rewrite Ectx.
  - by rewrite Hfd2.
  - intros fd'. destruct (decide (fd' = fd)) as [->|Hne']; [rewrite Hfd1; congruence|]. rewrite Hfd2 by done. apply Ho.
  - do 3 (split; [done|]). exists l. rewrite Em. cbn [m_blocks]. by rewrite lookup_insert_ne by done.
  - done.
  - rewrite Ectx. destruct (use_io_q (k_ctx c)); [|done]. by destruct Hqueue as (? & ?), Hq as (_ & ? & _).
Qed.

(** Opening keeps the invariant, with the thread added. *)
Lemma open_sys (r : run OS) ths blks items kid kb tb' c' n fd p :
  sys r ths blks items -> ths !! kid = None -> get_buf r kid = Ok kb -> opening r.(r_core) c' n fd p -> tb'.(trace_fd_) = fd ->
  buf_holds c'.(k_mem) tb' r.(r_core).(k_mem).(m_next) [] ->
  sys (with_core (set_buf r kid tb') c') (<[kid := mkThread tb' p r.(r_core).(k_mem).(m_next) []]> ths) blks items.
Proof.
  intros [Hbufs Hstat Hop Hapart Hcfg Hqok Hwf (dir & Hdir & Hlen) [Hd1 Hd2]] Hkid Hkb Hog Efd Hbuf.
  assert (Hdb : blk r.(r_core).(k_ctx).(trace_dir) <> m_next r.(r_core).(k_mem)).
  { intros E. unfold cells in Hdir. rewrite E, (mem_wf_fresh _ Hwf) in Hdir. destruct Hdir as [_ [rest Hr]]. by destruct dir. }
  destruct (queue_beside _ _ _ _ _ _ _ Hqok Hwf Hog) as (Hqok' & Hnin & _).
  assert (Hothers := fun tb2 p2 b2 bytes2 H2 => opened_beside r.(r_core) c' n fd p tb2 p2 blks items b2 bytes2 H2 Hwf Hog).
  destruct Hog as [Ectx Equ Em Hfd0 Hfd1 Hfd2 Hdata Hno]. split; cbn [with_core r_core].
  - destruct Hbufs as (bufs & Eb & Hl). cbn. rewrite Eb. eexists. split; [done|]. unfold zlen in *. by rewrite length_insert.
  - done.
  - intros tid2 th2 H2. rewrite get_buf_with_core. destruct (decide (tid2 = kid)) as [->|Hn].
    + rewrite lookup_insert_eq in H2. injection H2 as <-. split; [by apply (get_set_buf _ _ _ _ Hkb)|].
      destruct Hqok' as [Hc Hq']. split; cbn [th_buf th_path th_blk th_bytes]; rewrite ?Efd; try done.
      * intros fd' Hfd'. destruct (decide (fd' = fd)) as [|Hn]; [done|]. rewrite Hfd2 in Hfd' by done. by apply Hno in Hfd'.
      * rewrite Ectx in *. destruct (use_io_q (k_ctx (r_core r))); [|done]. by destruct Hq' as (? & ?); auto.
    + rewrite lookup_insert_ne in H2 by done. destruct (Hop _ _ H2) as [Hg2 Hop2].
      pose proof (get_buf_range _ _ _ Hg2) as (? & _ & Ht2 & _). pose proof (get_buf_range _ _ _ Hkb) as (? & _ & Ht1 & _).
      rewrite get_set_buf_ne by lia. split; [done|]. by apply Hothers.
  - apply apart_insert; [done|]. intros tid2 th2 H2 _. by destruct (Hothers _ _ _ _ (proj2 (Hop _ _ H2))) as (_ & _ & ? & ?).
  - by rewrite Ectx.
  - done.
  - rewrite Em. intros b l. cbn [m_blocks m_next]. destruct (decide (b = m_next (k_mem (r_core r)))) as [->|Hb]; [lia|].
    rewrite lookup_insert_ne by done. intros Hl%Hwf. lia.
  - rewrite Ectx. exists dir. split; [|done]. unfold cells. rewrite Em. cbn [m_blocks].
    by rewrite lookup_insert_ne by (by apply not_eq_sym).
  - rewrite Ectx. split; [done|]. intros tid2 th2 H2. destruct (decide (tid2 = kid)) as [->|Hn].
    + rewrite lookup_insert_eq in H2. injection H2 as <-. by apply not_eq_sym.
    + rewrite lookup_insert_ne in H2 by done. by apply (Hd2 tid2).
Qed.

Lemma kid_opens (r : run OS) s kid :
  traces r s -> s !! kid = None -> 0 <= kid < MAX_THREAD -> unused r kid -> cap_ok r.(r_core).(k_ctx).(tl_buf_size_) ->
  (forall dir, is_cstr dir (cells r.(r_core).(k_mem) r.(r_core).(k_ctx).(trace_dir)) ->
     openable r.(r_core) (trace_name dir kid) /\ os_sent r.(r_core).(k_os) (trace_name dir kid) = []) ->
  exists r', on_buf kid (kid_method kid) r = Ok r' /\ traces r' (<[kid := encode (trace_header r.(r_core) kid)]> s) /\
    r'.(r_core).(k_ctx) = r.(r_core).(k_ctx).
Proof.
  intros (ths & blks & items & Hsys & ->) Hkid Hrange (kb & Hkb & Hun & Hcl) Hcap Hopen. rewrite lookup_fmap in Hkid. apply fmap_None in Hkid.
  destruct (sy_dir _ _ _ _ Hsys) as (dir & Hdir & Hlen). pose proof (sy_wf _ _ _ _ Hsys) as Hwf. destruct (Hopen dir Hdir) as [Hop1 Hempty].
  destruct (open_opened r.(r_core) kb kid dir Hdir Hlen Hwf ltac:(unfold MAX_THREAD in Hrange; lia) Hun Hcl Hcap Hop1)
    as (tb' & c' & fd & Hm & Ectx & Equ & Em & Efd & F1 & F2 & F3 & D1 & D2 & Hbuf). destruct Hop1 as [Hno _].
  assert (Hog : opening r.(r_core) c' (replicate (Z.to_nat r.(r_core).(k_ctx).(tl_buf_size_)) None) fd (trace_name dir kid)) by (by split).
  eexists. split; [unfold on_buf; rewrite Hkb, bind_ok, Hm, bind_ok; reflexivity|]. split; [|done].
  eexists _, blks, items. split; [by apply (open_sys r ths blks items kid kb tb' c' _ fd _ Hsys Hkid Hkb Hog)|].
  apply map_eq. intros tid2. rewrite lookup_fmap. destruct (decide (tid2 = kid)) as [->|Hn].
  - rewrite !lookup_insert_eq. cbn. unfold trace_of, stream. cbn [th_buf th_path th_bytes with_core r_core].
    destruct (queue_beside _ _ _ _ _ _ _ (sy_queue _ _ _ _ Hsys) Hwf Hog) as (_ & _ & Hq). by rewrite D1, Hempty, Efd, Hq, !app_nil_r.
  - rewrite !lookup_insert_ne, lookup_fmap by done. destruct (ths !! tid2) as [th2|] eqn:E2; [|done]. cbn. f_equal. symmetry.
    by destruct (opened_beside _ _ _ _ _ _ _ _ _ _ _ (proj2 (sy_open _ _ _ _ Hsys _ _ E2)) Hwf Hog) as (_ & ? & _).
Qed.

(** The first half of [impl_thread_created]: the parent's event. *)
Definition created_parent (tid_parent tid_kid pc : Z) (r : run OS) : res (Z * run OS) :=
  r ← MC_STAT tid_parent c_start 1 r;
  let '(et, r) := elapsed r in
  r ← reset_alloc tid_parent r;
  let '(_idx, r) := next_idx r in
  r ← put tid_parent (new_CreateThreadEvent _idx (u16 tid_kid) et pc) r;
  Ok (et, r).

Lemma thread_created_halves tid_parent tid_kid pc (r : run OS) :
  impl_thread_created tid_parent tid_kid pc r =
  ('(et, r) ← created_parent tid_parent tid_kid pc r;
   r ← on_buf tid_kid (kid_method tid_kid) r;
   put tid_kid (new_ThreadBeginEvent (u16 tid_parent) pc et) r).
Proof.
  unfold impl_thread_created, created_parent. destruct (MC_STAT tid_parent c_start 1 r) as [r1|]; [|done]. rewrite !bind_ok.
  destruct (elapsed r1) as [et r2]. destruct (reset_alloc tid_parent r2) as [r3|]; [|done]. rewrite !bind_ok.
  destruct (next_idx r3) as [idx r4]. destruct (put tid_parent _ r4) as [r5|]; [|done]. by rewrite !bind_ok.
Qed.

Lemma elapsed_only (r r1 : run OS) : stat_only r r1 -> (elapsed r1).1 = (elapsed r).1 /\
  get_buf (elapsed r1).2 = get_buf r1 /\ (elapsed r1).2.(r_core).(k_mem) = r1.(r_core).(k_mem) /\
  (elapsed r1).2.(r_core).(k_ctx) = r1.(r_core).(k_ctx).
Proof. intros [E _]. unfold elapsed. rewrite E. by destruct (get_time_ms (k_os (r_core r))). Qed.

Lemma created_parent_ok tid_parent tid_kid pc (r : run OS) s t :
  traces r s -> s !! tid_parent = Some t ->
  exists r', created_parent tid_parent tid_kid pc r = Ok ((elapsed r).1, r') /\
    traces r' (<[tid_parent := (if thread_alloc r tid_parent then without_last 17 t else t) ++
      encode (new_CreateThreadEvent (next_idx r).1 (u16 tid_kid) (elapsed r).1 pc)]> s).
Proof.
  intros Hr Ht. pose proof (traces_tid _ _ _ Hr (mk_is_Some _ _ Ht)) as Htid. unfold created_parent.
  destruct (MC_STAT_ok _ _ tid_parent c_start 1 Hr Htid) as (r1 & -> & Hso & Hr1). rewrite bind_ok.
  apply traces_elapsed in Hr1. destruct (elapsed_only _ _ Hso) as (E1 & E2 & E3 & E4).
  destruct (elapsed r1) as [et r2]. cbn [fst snd] in *. subst et.
  destruct (reset_alloc_ok r2 s tid_parent t Hr1 Ht) as (r3 & -> & Hcore & Hr3). rewrite bind_ok.
  assert (Eal : thread_alloc r2 tid_parent = thread_alloc r tid_parent).
  { unfold thread_alloc, tail_is, buf_value, buf_bytes. rewrite E2, E3, (stat_only_get _ _ _ Hso). by destruct Hso as [-> _]. }
  rewrite Eal in Hr3. apply traces_next_idx in Hr3.
  assert (Ei : (next_idx r3).1 = (next_idx r).1) by (unfold next_idx; cbn; rewrite Hcore, E4; by destruct Hso as [-> _]).
  destruct (next_idx r3) as [idx r4]. cbn [fst snd] in *. subst idx.
  match goal with |- context [put tid_parent ?e r4] =>
    destruct (traces_put e r4 _ tid_parent _ Hr3 (lookup_insert_eq _ _ _) ltac:(done)) as (r5 & -> & Hr5 & _) end.
  rewrite bind_ok. rewrite insert_insert_eq in Hr5. by exists r5.
Qed.

(** ** The end of a thread *)

(** The file behind the descriptor of an open thread. *)
Definition trace_path (r : run OS) (tid : Z) (p : chars) : Prop :=
  exists tb, get_buf r tid = Ok tb /\ os_file r.(r_core).(k_os) tb.(trace_fd_) = Some p.

Lemma finish_sys (r : run OS) ths blks items tid th :
  sys r ths blks items -> ths !! tid = Some th -> r.(r_core).(k_ctx).(use_io_q) = false ->
  exists r', on_buf tid (finish tid) r = Ok r' /\ sys r' (delete tid ths) blks items /\
    os_sent r'.(r_core).(k_os) th.(th_path) = trace_of r.(r_core) items th /\
    (forall tid2 th2, ths !! tid2 = Some th2 -> tid2 <> tid -> trace_of r'.(r_core) items th2 = trace_of r.(r_core) items th2).
Proof.
  intros [Hbufs Hstat Hopen Hapart Hcfg Hqok Hwf Hdir [Hd1 Hd2]] Hth Eq. destruct (Hopen _ _ Hth) as [Hget Hop].
  destruct (finish_opened tid _ _ _ _ _ _ _ Hop) as (tb' & c' & Hf & D1 & D2 & F1 & F2 & Em & Equ & Ectx & _).
  pose proof (op_queue _ _ _ _ _ _ _ Hop) as Hq. rewrite Eq in Hq. subst items.
  assert (Hothers : forall tid2 th2, ths !! tid2 = Some th2 -> tid2 <> tid ->
    opened c' th2.(th_buf) th2.(th_path) blks [] th2.(th_blk) th2.(th_bytes) /\ trace_of c' [] th2 = trace_of r.(r_core) [] th2).
  { intros tid2 th2 H2 Hne. destruct (Hapart _ _ _ _ H2 Hth Hne) as [Hp Hb]. destruct (Hopen _ _ H2) as [_ [Oc Of Oo Ob Oby Oq]].
    assert (Hfd : th2.(th_buf).(trace_fd_) <> th.(th_buf).(trace_fd_)).
    { intros E. rewrite E, (op_fd _ _ _ _ _ _ _ Hop) in Of. congruence. }
    split; [|unfold trace_of, stream; by rewrite D2]. split.
    - by rewrite Ectx.
    - by rewrite F2.
    - intros fd Hfd'. destruct (decide (fd = th.(th_buf).(trace_fd_))) as [->|Hn]; [congruence|]. rewrite F2 in Hfd' by done. by apply Oo.
    - destruct Ob as (B1 & B2 & B3 & l & B4 & B5). do 3 (split; [done|]). exists l. rewrite Em. cbn [m_blocks]. by rewrite lookup_delete_ne by (by apply not_eq_sym).
    - done.
    - by rewrite Ectx, Eq. }
  eexists. split; [unfold on_buf; rewrite Hget, bind_ok, Hf, bind_ok; reflexivity|].
  split; [split|split; [|intros tid2 th2 H2 Hne; by apply (Hothers tid2)]]; cbn [with_core r_core]; rewrite ?Ectx.
  - destruct Hbufs as (bufs & Eb & Hl). cbn. rewrite Eb. eexists. split; [done|]. unfold zlen in *. by rewrite length_insert.
  - done.
  - intros tid2 th2 [Hne H2]%lookup_delete_Some. rewrite get_buf_with_core. destruct (Hopen _ _ H2) as [Hg2 _].
    pose proof (get_buf_range _ _ _ Hg2) as (? & _ & Ht2 & _). pose proof (get_buf_range _ _ _ Hget) as (? & _ & Ht1 & _).
    rewrite get_set_buf_ne by lia. split; [done|]. by apply (Hothers tid2), not_eq_sym.
  - intros tid2 tid3 th2 th3 [_ H2]%lookup_delete_Some [_ H3]%lookup_delete_Some. by apply Hapart.
  - done.
  - destruct Hqok as [Hc _]. unfold queue_ok. by rewrite Ectx, Eq.
  - intros b l. rewrite Em. cbn [m_blocks m_next]. intros [_ Hl]%lookup_delete_Some. by apply (Hwf b l).
  - destruct Hdir as (dir & Hdir & Hlen). exists dir. split; [|done]. unfold cells. rewrite Em. cbn [m_blocks].
    rewrite lookup_delete_ne; [done|]. by apply (Hd2 tid).
  - split; [done|]. intros tid2 th2 [_ H2]%lookup_delete_Some. by apply (Hd2 tid2).
  - rewrite D1. unfold trace_of, stream. by cbn.
Qed.

Lemma thread_end_ok (r : run OS) s tid t p :
  traces r s -> s !! tid = Some t -> r.(r_core).(k_ctx).(use_io_q) = false -> trace_path r tid p ->
  exists r', impl_thread_end tid r = Ok r' /\ traces r' (delete tid s) /\
    os_sent r'.(r_core).(k_os) p = t ++ encode (new_ThreadEndEvent 0 (elapsed r).1).
Proof.
  intros Hr Ht Eq (tb & Hg & Hf). unfold impl_thread_end. apply traces_elapsed in Hr as Hr1.
  assert (Hsame : forall fd, os_file (elapsed r).2.(r_core).(k_os) fd = os_file r.(r_core).(k_os) fd).
  { unfold elapsed, get_time_ms. destruct (time_law r.(r_core).(k_os)) as [Hfd _].
    destruct (os_gettimeofday r.(r_core).(k_os)) as [[sec usec] o]. exact Hfd. }
  destruct (elapsed_only r r ltac:(done)) as (_ & E2 & _ & E4).
  destruct (elapsed r) as [et r1]. cbn [fst snd] in *.
  destruct (traces_thread _ _ _ _ Hr1 Ht) as (ths & blks & items & th & Hsys & Hs & Hth & Htr & Hg1).
  rewrite E2, Hg in Hg1. injection Hg1 as ->. destruct (sy_open _ _ _ _ Hsys _ _ Hth) as [_ Hop].
  destruct (put_event_opened (new_ThreadEndEvent (u16 0) et) tid _ _ _ _ _ _ _ Hop ltac:(done) ltac:(done)) as
    (tb' & c' & blks' & items' & b' & bytes' & Hput & Hop' & Hst & _ & _ & Hctx & Hkept & _).
  destruct (on_buf_sys r1 ths blks items tid th _ tb' c' blks' items' b' bytes' Hsys Hth Hput Hop' Hkept) as (Hon & Hsys2 & Hother).
  unfold put. rewrite Hon, bind_ok. set (r2 := with_core _ c') in *.
  destruct (finish_sys r2 _ blks' items' tid _ Hsys2 (lookup_insert_eq _ _ _)) as (r3 & -> & Hsys3 & Hd & Hother3); [by cbn; rewrite Hctx, E4|].
  exists r3. split; [done|]. split.
  - rewrite delete_insert_eq in Hsys3. exists (delete tid ths), blks', items'. split; [done|]. rewrite Hs. apply map_eq. intros tid2.
    rewrite lookup_fmap. destruct (decide (tid2 = tid)) as [->|Hne]; [by rewrite !lookup_delete_eq|].
    rewrite !lookup_delete_ne, lookup_fmap by done. destruct (ths !! tid2) as [th2|] eqn:E; [|done]. cbn. f_equal.
    rewrite (Hother3 tid2) by (try rewrite lookup_insert_ne; done). symmetry. by apply (Hother tid2).
  - assert (p = th.(th_path)) as -> by (pose proof (op_fd _ _ _ _ _ _ _ Hop) as E; rewrite Hsame in E; congruence).
    cbn [th_path] in Hd. rewrite Hd, Htr. exact Hst.
Qed.

(** ** Sequences of calls *)

Lemma traces_cfg (r : run OS) s : traces r s -> set_e_count r.(r_core).(k_ctx) 0 = cfg.
Proof. intros (ths & blks & items & Hsys & _). by apply (sy_cfg _ _ _ _ Hsys). Qed.

Lemma traces_path (r : run OS) s tid : traces r s -> is_Some (s !! tid) -> exists p, trace_path r tid p.
Proof.
  intros Hr [t Ht]. destruct (traces_thread _ _ _ _ Hr Ht) as (ths & blks & items & th & Hsys & _ & Hth & _ & Hg).
  destruct (sy_open _ _ _ _ Hsys _ _ Hth) as [_ Hop]. exists th.(th_path), th.(th_buf). split; [done|].
  by apply (op_fd _ _ _ _ _ _ _ Hop).
Qed.

Fixpoint perform_all (tm : Z -> Z) (ks : list (Z * call)) (r : run OS) : res (run OS) :=
  match ks with
  | [] => Ok r
  | (tid, k) :: ks => r ← perform tm tid k r; perform_all tm ks r
  end.

(** The traces after the calls. *)
Fixpoint after_all (tm : Z -> Z) (ks : list (Z * call)) (r : run OS) (s : gmap Z (list Z)) : gmap Z (list Z) :=
  match ks with
  | [] => s
  | (tid, k) :: ks =>
      let s := alter (after tm r tid k) tid s in
      match perform tm tid k r with Ok r' => after_all tm ks r' s | Err _ => s end
  end.

(** A test of every call in the state it meets. *)
Fixpoint all_calls (tm : Z -> Z) (test : run OS -> Z -> call -> bool) (ks : list (Z * call)) (r : run OS) : bool :=
  match ks with
  | [] => true
  | (tid, k) :: ks =>
      test r tid k && match perform tm tid k r with Ok r' => all_calls tm test ks r' | Err _ => true end
  end.

Lemma perform_all_ok tm ks (r : run OS) s :
  traces r s -> Forall (fun x => is_Some (s !! x.1)) ks -> all_calls tm call_ok ks r = true ->
  exists r', perform_all tm ks r = Ok r' /\ traces r' (after_all tm ks r s).
Proof.
  revert r s. induction ks as [|[tid k] ks IH]; intros r s Hr Hks Hok; [by exists r|].
  apply Forall_cons in Hks as [[t Ht] Hks]. cbn [all_calls perform_all after_all fst] in *. apply andb_true_iff in Hok as [Hk Hok].
  destruct (perform_ok r s tid t Hr Ht tm k Hk) as (r1 & E & Hr1). rewrite E, bind_ok in *.
  assert (Ea : <[tid := after tm r tid k t]> s = alter (after tm r tid k) tid s).
  { apply map_eq. intros tid2. destruct (decide (tid2 = tid)) as [->|Hne].
    - by rewrite lookup_insert_eq, lookup_alter_eq, Ht.
    - by rewrite lookup_insert_ne, lookup_alter_ne by done. }
  rewrite Ea in Hr1. apply IH; [done| |done]. eapply Forall_impl; [exact Hks|]. intros [tid2 k2] [t2 H2]. cbn in *.
  destruct (decide (tid2 = tid)) as [->|Hne]; [rewrite lookup_alter_eq, Ht; by eexists|rewrite lookup_alter_ne by done; by eexists].
Qed.

(** The entries that a thread's calls add. *)
Fixpoint entries (tm : Z -> Z) (tid : Z) (ks : list (Z * call)) (r : run OS) : list item :=
  match ks with
  | [] => []
  | (tid', k) :: ks =>
      (if tid' =? tid then entry tm r tid k else []) ++
      match perform tm tid' k r with Ok r' => entries tm tid ks r' | Err _ => [] end
  end.

(** A call that takes nothing back. *)
Definition keeps (r : run OS) (tid : Z) (k : call) : bool := takes_back r tid k =? 0.

Lemma entry_bytes_app a b : entry_bytes (a ++ b) = entry_bytes a ++ entry_bytes b.
Proof. unfold entry_bytes. by rewrite fmap_app, concat_app. Qed.

Lemma after_all_entries tm ks (r : run OS) s tid t :
  s !! tid = Some t -> all_calls tm keeps ks r = true ->
  after_all tm ks r s !! tid = Some (t ++ entry_bytes (entries tm tid ks r)).
Proof.
  revert r s t. induction ks as [|[tid' k] ks IH]; intros r s t Ht Hk; cbn [after_all entries all_calls] in *.
  - rewrite Ht. cbn. by rewrite app_nil_r.
  - apply andb_true_iff in Hk as [Hk1 Hk]. rewrite entry_bytes_app.
    assert (Hs : alter (after tm r tid' k) tid' s !! tid =
      Some (t ++ entry_bytes (if tid' =? tid then entry tm r tid k else []))).
    { destruct (Z.eqb_spec tid' tid) as [->|Hne].
      - rewrite lookup_alter_eq, Ht. cbn. unfold after. unfold keeps in Hk1. by rewrite Hk1.
      - rewrite lookup_alter_ne, Ht by done. cbn. by rewrite app_nil_r. }
    destruct (perform tm tid' k r) as [r'|].
    + by rewrite (IH r' _ _ Hs Hk), app_assoc.
    + by rewrite Hs, app_nil_r.
Qed.

(** The calls whose entries the predictor can read back: not an access
    without its value. *)
Definition readable (k : call) : bool := match k with CAcc _ nv _ _ _ _ => negb nv | _ => true end.

Lemma acc_type_tag k w : acc_type k w = mem_tag w (u8 k).
Proof. unfold acc_type, mem_tag. by destruct w. Qed.

Lemma entry_readable tm (r : run OS) tid k : call_ok r tid k = true -> readable k = true -> Forall item_wf (entry tm r tid k).
Proof.
  intros Hok Hread. assert (Hone : forall it, item_wf it -> Forall item_wf [it]) by (intros; by apply Forall_singleton).
  assert (Hnil : Forall item_wf []) by apply Forall_nil_2.
  destruct k; cbn [entry readable call_ok] in *; try done; try (by apply Hone).
  - destruct (func_entry r tid); [done|by apply Hone].
  - destruct (ns && own_address r tid addr); [done|]. destruct nv; [done|]. apply Hone.
    apply andb_true_iff in Hok as [[H0%Z.leb_le H3%Z.leb_le]%andb_true_iff _].
    assert (0 <= 2 ^ kAccessSizeLog) by (apply Z.pow_nonneg; lia). destruct (read_mem_ok tm addr (2 ^ kAccessSizeLog)) as [Hz Hb]; [done|].
    split; [done|]. exists is_write, kAccessSizeLog. split; [lia|]. split; [|done]. cbn [ma_type_index new_MemAccEvent].
    rewrite acc_type_tag. unfold u8. rewrite (wrap_small 8 kAccessSizeLog) by lia. unfold mem_tag, u8. by rewrite wrap_wrap.
  - destruct (ns && own_address r tid addr); [done|]. apply Hone. cbn. destruct is_write; [by right|by left].
Qed.

Lemma entries_readable tm tid ks (r : run OS) :
  all_calls tm (fun r tid k => call_ok r tid k && readable k) ks r = true -> Forall item_wf (entries tm tid ks r).
Proof.
  revert r. induction ks as [|[tid' k] ks IH]; intros r Hks; cbn [all_calls entries] in *; [apply Forall_nil_2|].
  apply andb_true_iff in Hks as [[Hok Hread]%andb_true_iff Hks]. apply Forall_app. split.
  - destruct (Z.eqb_spec tid' tid) as [->|]; [by apply entry_readable|apply Forall_nil_2].
  - destruct (perform tm tid' k r); [by apply IH|apply Forall_nil_2].
Qed.

Lemma all_calls_impl tm (f g : run OS -> Z -> call -> bool) ks (r : run OS) :
  (forall r tid k, f r tid k = true -> g r tid k = true) -> all_calls tm f ks r = true -> all_calls tm g ks r = true.
Proof.
  intros Hfg. revert r. induction ks as [|[tid k] ks IH]; intros r; [done|]. cbn [all_calls].
  intros [Hf Hks]%andb_true_iff. rewrite (Hfg _ _ _ Hf). destruct (perform tm tid k r); [by apply IH|done].
Qed.

Lemma after_all_none tm ks (r : run OS) s tid : after_all tm ks r s !! tid = None <-> s !! tid = None.
Proof.
  revert r s. induction ks as [|[tid' k] ks IH]; intros r s; [done|]. cbn [after_all].
  assert (Ha : alter (after tm r tid' k) tid' s !! tid = None <-> s !! tid = None) by apply lookup_alter_None.
  destruct (perform tm tid' k r) as [r'|]; [by rewrite IH|done].
Qed.

(** Calls the predictor can read, none taking anything back. *)
Definition plain_call (r : run OS) (tid : Z) (k : call) : bool := call_ok r tid k && keeps r tid k && readable k.

Lemma plain_run tm tid ks (r : run OS) s t :
  traces r s -> s !! tid = Some t -> Forall (fun x => is_Some (s !! x.1)) ks -> all_calls tm plain_call ks r = true ->
  exists r1 s1, perform_all tm ks r = Ok r1 /\ traces r1 s1 /\ s1 !! tid = Some (t ++ entry_bytes (entries tm tid ks r)) /\
    (forall tid', s1 !! tid' = None <-> s !! tid' = None) /\
    Forall item_wf (entries tm tid ks r).
Proof.
  intros Hr Ht Hks Hall.
  assert (Hsub : forall test : run OS -> Z -> call -> bool, (forall r tid k, plain_call r tid k = true -> test r tid k = true) ->
    all_calls tm test ks r = true) by (intros test Htest; by apply (all_calls_impl tm plain_call)).
  destruct (perform_all_ok tm ks r s Hr Hks) as (r1 & E1 & Hr1).
  { apply Hsub. by intros ? ? ? [[-> _]%andb_true_iff _]%andb_true_iff. }
  exists r1, (after_all tm ks r s). split; [done|]. split; [done|]. split; [|split; [intros; apply after_all_none|]].
  - apply after_all_entries; [done|]. apply Hsub. by intros ? ? ? [[_ ->]%andb_true_iff _]%andb_true_iff.
  - apply entries_readable. apply Hsub. by intros ? ? ? [[-> _]%andb_true_iff ->]%andb_true_iff.
Qed.

(** ** Where the handlers go wrong *)

Lemma store_bytes_out m b o l bs :
  m.(m_blocks) !! b = Some l -> 0 <= o <= zlen l -> zlen l < o + zlen bs -> Forall byte_ok bs ->
  store_bytes m (Ptr b o) bs = Err EOutOfBounds.
Proof.
  intros Hb Ho Hl Hok. revert m o l Hb Ho Hl. induction Hok as [|v bs Hv _ IH]; intros m o l Hb Ho Hl.
  - change (zlen (@nil Z)) with 0 in Hl. lia.
  - change (zlen (v :: bs)) with (Z.of_nat (S (length bs))) in Hl. cbn [store_bytes]. destruct (Z.eq_dec o (zlen l)) as [->|Hne].
    + unfold store, store_cell. rewrite (block_of_ok _ (Ptr b (zlen l)) _ Hb), bind_ok. cbn [ofs blk].
      by rewrite Z.ltb_irrefl, andb_false_r.
    + rewrite (store_ok _ _ _ l) by (done || lia). rewrite bind_ok. unfold padd. cbn [blk ofs].
      apply (IH _ _ (<[Z.to_nat o := Some v]> l)); [apply upd_lookup|unfold zlen in *; rewrite length_insert; lia..].
Qed.

Lemma acc_overflows tm (r : run OS) s tid t buf pc a k w :
  traces r s -> s !! tid = Some t -> get_buf r tid = Ok buf -> 0 <= k <= 3 ->
  buf.(size_) + 13 < buf.(capacity_) < buf.(size_) + 13 + 2 ^ k ->
  impl_mem_acc tm tid pc a k w r = Err EOutOfBounds.
Proof.
  intros Hr Ht Hb Hk Hroom. destruct (stat_acc r s tid t Hr Ht k w Hk) as (r1 & E1 & Hso & Hr1). unfold impl_mem_acc.
  rewrite E1, bind_ok. cbv zeta.
  destruct (traces_thread _ _ _ _ Hr1 Ht) as (ths & blks & items & th & Hsys & _ & Hth & _ & Hg).
  rewrite (stat_only_get _ _ _ Hso), Hb in Hg. injection Hg as ->. destruct (sy_open _ _ _ _ Hsys _ _ Hth) as [Hg Hop].
  destruct (opened_size _ _ _ _ _ _ _ Hop) as (Hb1 & Hb2 & Hb3 & Hle). set (e := new_MemAccEvent _ _ _).
  destruct (op_buf _ _ _ _ _ _ _ Hop) as (_ & _ & _ & l & Hl & Hl2 & Hl3).
  assert (Hz : zlen (encode e) = 13) by (unfold zlen; by rewrite length_encode).
  pose proof (put_event_room e tid _ _ _ _ _ _ _ l Hop eq_refl Hl ltac:(cbn; lia)) as Hput. rewrite Hz in Hput.
  unfold put, on_buf at 1. rewrite Hg, bind_ok, Hput, !bind_ok. unfold append_value, on_buf.
  rewrite get_buf_with_core, (get_set_buf _ _ _ _ Hg), bind_ok. cbn [with_core r_core with_mem k_mem set_e_counter_ set_size_ buf_ size_].
  rewrite Hb1. cbn [deref res_of_option]. rewrite bind_ok. unfold padd. cbn [blk ofs]. rewrite Z.add_0_l.
  assert (Hsh : Z.shiftl 1 k = 2 ^ k) by (rewrite Z.shiftl_mul_pow2 by lia; lia).
  destruct (read_mem_ok tm a (2 ^ k)) as [Hzr Hokr]; [apply Z.pow_nonneg; lia|].
  rewrite Hsh, (store_bytes_out _ _ _ (splice l (zlen (th_bytes th)) (Some <$> encode e))); [done|apply upd_lookup|..|done];
    rewrite zlen_splice by (rewrite ?zlen_fmap, ?Hz; lia); lia.
Qed.

(** The tail of a buffer whose last bytes are known. *)
Lemma tail_known (r : run OS) ths blks items tid th b0 d tag ofs len (test : Z -> bool) :
  sys r ths blks items -> ths !! tid = Some th -> th.(th_bytes) = b0 ++ d -> 1 <= zlen d ->
  0 <= ofs -> 0 <= len -> ofs + len <= zlen d ->
  tail_is r tid (zlen d) tag ofs len test = (le_val (slice d 0 1) =? tag) && test (le_val (slice d ofs len)).
Proof.
  intros Hsys Hth Hsplit Hd Ho Hl Hol. destruct (sy_open _ _ _ _ Hsys _ _ Hth) as [Hg Hop].
  destruct (opened_size _ _ _ _ _ _ _ Hop) as (_ & Hb2 & _ & _). pose proof (zlen_nonneg b0).
  assert (Hz : zlen th.(th_bytes) = zlen b0 + zlen d) by (by rewrite Hsplit, zlen_app).
  destruct (buf_tail r ths blks items tid th (zlen d) Hsys Hth ltac:(lia)) as (b1 & d1 & Hs1 & Hz1 & _ & Hval & _ & _).
  rewrite Hsplit in Hs1. apply app_inj_2 in Hs1 as [<- <-]; [|unfold zlen in Hz1; lia].
  unfold tail_is. rewrite Hg. rewrite (proj2 (Z.leb_le _ _)) by lia. cbn [andb].
  pose proof (Hval 0 1) as Hv0. rewrite Z.add_0_r in Hv0. by rewrite Hv0, Hval by lia.
Qed.

(** The six bytes [_reset_read] compares: the last one of the address and the
    first five of the program counter. *)
Lemma read_compared e v :
  Forall byte_ok [v] ->
  Z.land (le_val (slice (encode (e : MemAccEvent) ++ [v]) 6 8)) 0x0000ffffffffffff =
  u48 e.(ma_addr) / 2 ^ 40 + 256 * (u48 e.(ma_pc) mod 2 ^ 40).
Proof.
  intros Hv. unfold encode. cbn [fields packed_MemAccEvent]. rewrite !pack_cons, pack_nil, app_nil_r.
  pose proof (le_bytes_ok 6 e.(ma_addr)) as Ha. pose proof (le_val_le_bytes 6 e.(ma_addr)) as Hva.
  pose proof (le_bytes_ok 6 e.(ma_pc)) as Hp. pose proof (le_val_le_bytes 6 e.(ma_pc)) as Hvp.
  destruct (le_bytes 6 e.(ma_addr)) as [|a0 [|a1 [|a2 [|a3 [|a4 [|a5 [|]]]]]]] eqn:Ea;
    try (apply (f_equal length) in Ea; rewrite length_le_bytes in Ea; discriminate).
  destruct (le_bytes 6 e.(ma_pc)) as [|p0 [|p1 [|p2 [|p3 [|p4 [|p5 [|]]]]]]] eqn:Ep;
    try (apply (f_equal length) in Ep; rewrite length_le_bytes in Ep; discriminate).
  change (le_bytes 1 (ma_type_index e)) with [ma_type_index e mod 256]. cbn [app].
  match goal with |- context [slice ?l 6 8] => change (slice l 6 8) with [a5; p0; p1; p2; p3; p4; p5; v] end.
  unfold u48, wrap. change (2 ^ 48) with (2 ^ (8 * Z.of_nat 6)). rewrite <- Hva, <- Hvp.
  bytes_of_le. change 0xffffffffffff with (Z.ones 48). rewrite Z.land_ones by lia. cbn [le_val].
  set (x := a0 + 2 ^ 8 * a1 + 2 ^ 16 * a2 + 2 ^ 24 * a3 + 2 ^ 32 * a4).
  set (y := p0 + 2 ^ 8 * p1 + 2 ^ 16 * p2 + 2 ^ 24 * p3 + 2 ^ 32 * p4).
  assert (Hx : 0 <= x < 2 ^ 40) by lia. assert (Hy : 0 <= y < 2 ^ 40) by lia.
  replace (a0 + _) with (a5 * 2 ^ 40 + x) by lia. replace (p0 + 256 * (p1 + 256 * (p2 + 256 * (p3 + 256 * (p4 + 256 * (p5 + 256 * 0))))))
    with (y + p5 * 2 ^ 40) by lia.
  replace (a5 + 256 * (p0 + _)) with (a5 + 256 * y + (p5 + 256 * v) * 2 ^ 48) by lia.
  rewrite Z.div_add_l, (Z.div_small x), !Z.mod_add, (Z.mod_small y), Z.mod_small by lia. lia.
Qed.

Lemma byte_read_lock tm (r r' : run OS) s tid t pc a m :
  traces r s -> s !! tid = Some t -> own_address r tid a = false ->
  perform tm tid (CAcc true false pc a 0 false) r = Ok r' ->
  lock_read r' tid m = (u48 a / 2 ^ 40 + 256 * (u48 pc mod 2 ^ 40) =? m).
Proof.
  intros Hr Ht Hown. destruct (stat_acc r s tid t Hr Ht 0 false ltac:(lia)) as (r1 & E1 & Hso & Hr1). cbn [perform].
  unfold ns_mem_acc. rewrite E1, bind_ok.
  destruct (traces_thread _ _ _ _ Hr1 Ht) as (ths & blks & items & th & Hsys & _ & Hth & _ & Hg).
  unfold own_address in Hown. rewrite <- (stat_only_get _ _ tid Hso), Hg in Hown.
  rewrite Hg, bind_ok. apply orb_false_iff in Hown as [-> ->].
  change (Z.shiftl 1 0) with 1. set (e := new_MemAccEvent (acc_type 0 false) a pc).
  destruct (room_ok r1 ths blks items tid th 1 Hsys Hth ltac:(lia)) as (r2 & Hroom & ths1 & blks1 & items1 & th1 & Hsys1 & Hth1 & Hz & _ & _).
  unfold room_method in Hroom. rewrite Hroom, bind_ok.
  destruct (acc_room_sys tm e a 1 r2 ths1 blks1 items1 tid th1 Hsys1 Hth1 ltac:(lia) Hz) as (r3 & ths3 & th3 & -> & Hsys3 & Hth3 & Hb3 & _).
  intros [= <-]. destruct (read_mem_ok tm a 1 ltac:(lia)) as [_ Hok].
  assert (Hd : zlen (encode e ++ read_mem tm a 1) = 14) by done. unfold lock_read. rewrite <- Hd.
  rewrite (tail_known r3 ths3 blks1 items1 tid th3 (th_bytes th1) (encode e ++ read_mem tm a 1)) by (done || lia).
  change (read_mem tm a 1) with [u8 (tm (u64 (a + 0)))] in *. rewrite read_compared by done.
  change (le_val (slice (encode e ++ [u8 (tm (u64 (a + 0)))]) 0 1) =? 8) with true. cbn [andb ma_addr ma_pc e new_MemAccEvent].
  unfold u48. by rewrite !wrap_wrap by lia.
Qed.

(** Entering and leaving at once. *)
Lemma empty_function_ok (r r1 r2 : run OS) s tid t pc :
  traces r s -> s !! tid = Some t -> impl_enter_func tid pc r = Ok r1 -> impl_exit_func tid r1 = Ok r2 -> traces r2 s.
Proof.
  intros Hr Ht E1 E2. destruct (enter_func_traces r s tid t pc Hr Ht) as (r1' & E & Hr1 & Hfe). rewrite E1 in E. injection E as <-.
  destruct (exit_func_traces r1 _ tid _ Hr1 (lookup_insert_eq _ _ _)) as (r2' & E & Hr2). rewrite E2 in E. injection E as <-.
  rewrite Hfe, insert_insert_eq in Hr2. unfold without_last in Hr2. rewrite zlen_app in Hr2.
  change (zlen (encode (new_FuncEntryEvent pc))) with 7 in Hr2.
  replace (zlen t + 7 - 7) with (zlen t) in Hr2 by lia. unfold ztake, zlen in Hr2. rewrite Nat2Z.id, take_app_length in Hr2.
  by rewrite insert_id in Hr2.
Qed.

(** Entering a function when there is room, in detail. *)
Lemma enter_room (r : run OS) s tid t buf pc :
  traces r s -> s !! tid = Some t -> get_buf r tid = Ok buf -> buf.(size_) + 7 < buf.(capacity_) ->
  exists r' ths blks items th bytes, impl_enter_func tid pc r = Ok r' /\ sys r' ths blks items /\ ths !! tid = Some th /\
    th.(th_bytes) = bytes ++ encode (new_FuncEntryEvent pc) /\ th.(th_buf).(e_counter_) = th.(th_buf).(last_fe) /\
    exists ths0 blks0 items0 th0, sys r ths0 blks0 items0 /\ ths0 !! tid = Some th0 /\ th0.(th_bytes) = bytes.
Proof.
  intros Hr Ht Hb Hroom. pose proof (traces_tid _ _ _ Hr (mk_is_Some _ _ Ht)) as Htid. unfold impl_enter_func.
  destruct (traces_thread _ _ _ _ Hr Ht) as (ths & blks & items & th & Hsys & Hs & Hth & _ & Hg).
  destruct (MC_STAT_sys r ths blks items tid c_func_call 1 Hsys Htid) as (r1 & -> & Hso & Hsys1). rewrite bind_ok.
  rewrite Hb in Hg. injection Hg as ->. destruct (sy_open _ _ _ _ Hsys1 _ _ Hth) as [Hg1 Hop].
  destruct (opened_size _ _ _ _ _ _ _ Hop) as (_ & Hb2 & _ & _). destruct (op_buf _ _ _ _ _ _ _ Hop) as (_ & _ & _ & l & Hl & _).
  set (e := new_FuncEntryEvent pc). assert (Hz : zlen (encode e) = 7) by done.
  assert (Hc : copyable (sizeof FuncEntryEvent) = true) by done.
  pose proof (put_event_room e tid _ _ _ _ _ _ _ l Hop Hc Hl ltac:(cbn; lia)) as Hput.
  assert (Hroom1 : zlen th.(th_bytes) + zlen (encode e) <= th.(th_buf).(capacity_)) by lia.
  pose proof (store_opened _ _ _ _ _ _ _ (encode e) l (u64 (th.(th_buf).(e_counter_) + 1)) Hop Hl (encode_ok e) Hroom1) as Hop1.
  set (tb1 := set_e_counter_ _ _) in *. set (c1 := with_mem _ _) in *.
  destruct (on_buf_sys r1 ths blks items tid th _ _ _ blks items th.(th_blk) (th.(th_bytes) ++ encode e) Hsys1 Hth Hput Hop1)
    as (Hon & Hsys2 & _); [by eapply store_keeps|].
  unfold put. rewrite Hon, bind_ok, get_buf_with_core, (get_set_buf _ _ _ _ Hg1), bind_ok.
  eexists _, _, blks, items, _, th.(th_bytes). split; [reflexivity|].
  split; [apply (last_fe_sys _ _ _ _ tid _ tb1.(e_counter_) Hsys2 (lookup_insert_eq _ _ _))|]. split; [apply lookup_insert_eq|].
  split; [done|]. split; [done|]. by exists ths, blks, items, th.
Qed.

Lemma exit_trims (r : run OS) ths blks items tid th b0 d :
  sys r ths blks items -> ths !! tid = Some th -> th.(th_bytes) = b0 ++ d -> zlen d = 7 -> le_val (slice d 0 1) = 15 ->
  th.(th_buf).(e_counter_) = th.(th_buf).(last_fe) ->
  let tb' := set_size_ th.(th_buf) (zlen b0) in
  impl_exit_func tid r = Ok (set_buf r tid tb') /\
  sys (set_buf r tid tb') (<[tid := mkThread tb' th.(th_path) th.(th_blk) b0]> ths) blks items.
Proof.
  intros Hsys Hth Hsplit Hd Htag Hfe tb'. split; [|by apply (trim_sys r ths blks items tid th b0 d)].
  destruct (sy_open _ _ _ _ Hsys _ _ Hth) as [Hg Hop]. destruct (opened_size _ _ _ _ _ _ _ Hop) as (_ & Hb2 & Hb3 & Hle).
  assert (Hr : traces r (trace_of r.(r_core) items <$> ths)) by (by exists ths, blks, items).
  rewrite (exit_func_guard r _ tid (trace_of r.(r_core) items th) th.(th_buf) Hr); [|by rewrite lookup_fmap, Hth|done].
  unfold func_entry. rewrite Hg, Hfe, Z.eqb_refl. cbn [andb]. rewrite <- Hd at 1.
  rewrite (tail_known r ths blks items tid th b0 d) by (done || lia). rewrite Htag. cbn [andb Z.eqb Pos.eqb type_val].
  do 3 f_equal. rewrite Hb2, Hsplit, zlen_app, Hd. unfold u32. rewrite Hsplit, zlen_app in Hle. pose proof (zlen_nonneg b0).
  rewrite wrap_small by lia. lia.
Qed.
End System.

(** ** Theorems *)

(** A run to try the theorems on: thread 0 has its file [d/0] open, with the
    header in it, and an empty buffer of 64 bytes; no queue. *)
Definition demo_cfg : UFOContext :=
  mkUFOContext false 1 1 false 0 64 0 0 true true false true true (Ptr 0 0) 0 0 false false 3.

Definition demo_free : TLBuffer := init (mkTLBuffer None 0 0 0 0 0 0 0 0 0).

Definition demo_first : TLBuffer := mkTLBuffer (Some (Ptr 1 0)) 0 64 3 7 16 2000 16 1000 0.

Definition demo_header : UFOHeader := new_UFOHeader 0 0 0.

Definition demo_files : sim :=
  Sim {[3 := str "d/0"]} {[str "d/0" := [(encode demo_header, zlen (encode demo_header))]]} ∅ ∅ (1, 0) 1 (0, 0, 0, 0) [] ∅ 1000.

Definition demo_blocks : mem := Mem 2 (<[1 := replicate 64 None]> {[0 := padded 255 (str "d")]}).

Definition demo_run : run sim :=
  Run (Core demo_blocks demo_files demo_cfg None None 0 0)
    (Some (demo_first :: replicate (Z.to_nat 8191) demo_free)) (Some (replicate (Z.to_nat 8192) stat_init)) [].

Definition demo_threads : gmap Z thread := {[0 := mkThread demo_first (str "d/0") 1 []]}.

Lemma demo_sys : sys demo_cfg demo_run demo_threads [] [].
Proof.
  assert (Hdir : is_cstr (str "d") (cells demo_blocks (Ptr 0 0))).
  { change (is_cstr (str "d") (padded 255 (str "d"))). apply padded_cstr; [by apply const_chars|done]. }
  unfold demo_threads. split.
  - eexists. split; [done|]. vm_compute. reflexivity.
  - eexists. split; [done|]. vm_compute. reflexivity.
  - intros tid th [<- <-]%lookup_singleton_Some. split; [reflexivity|]. split; try done.
    + intros fd. cbn [r_core demo_run k_os os_file sim_laws]. unfold sim_file. destruct (fd <? 0); [done|].
      change (sim_fds demo_files) with ({[3 := str "d/0"]} : gmap Z chars). by intros [<- _]%lookup_singleton_Some.
    + split; [done|]. split; [done|]. split; [unfold cap_ok; cbn; lia|]. exists (replicate 64 None). split; [reflexivity|]. split; reflexivity.
  - intros tid tid' th th' [<- _]%lookup_singleton_Some [<- _]%lookup_singleton_Some. done.
  - done.
  - done.
  - intros b l Hb. cbn [r_core demo_run k_mem demo_blocks m_blocks m_next] in *. destruct (decide (b = 1)) as [->|Hne]; [lia|].
    rewrite lookup_insert_ne in Hb by done. apply lookup_singleton_Some in Hb as [<- _]. lia.
  - exists (str "d"). split; [exact Hdir|]. vm_compute. reflexivity.
  - split; [apply not_elem_of_nil|]. by intros tid th [<- <-]%lookup_singleton_Some.
Qed.

Lemma demo_traces : traces demo_cfg demo_run {[0 := encode demo_header]}.
Proof. exists demo_threads, [], []. split; [apply demo_sys|]. reflexivity. Qed.

(** C2: the handlers keep the log.  Take a run without compression, without the
    output queue or with one of two entries or more, and a call of an open
    thread: to lock, unlock, wait or signal, allocate or free, join, enter or
    leave a function, assign or follow a pointer, or access memory (not to
    create, start or end a thread).  Let an access have one of the four sizes,
    and its value fit behind its event where the handler does not test that
    ([call_ok]).  Then, whether the buffer has to be flushed or not, the handler
    succeeds and changes the trace of that thread only, that is what was handed
    to [write] for its file, what waits in the queue and the buffer: it appends
    the bytes of exactly the entry the event stands for (none for the reader
    locks, and none for an access to the thread's own stack), after taking back
    the read or the function entry its peephole test finds at the end of the
    buffer. *)
Theorem handlers_log {OS} `{HL : OSLaws OS} (cfg : UFOContext) (tm : Z -> Z) (tid : Z) (k : call) (r : run OS)
    (s : gmap Z (list Z)) (t : list Z) :
  traces cfg r s -> s !! tid = Some t -> call_ok r tid k = true ->
  exists r', perform tm tid k r = Ok r' /\ traces cfg r' (<[tid := after tm r tid k t]> s).
Proof. intros Hr Ht. by apply (perform_ok cfg r s tid t Hr Ht). Qed.

Lemma handlers_log_witness :
  exists r', perform (fun _ => 5) 0 (CAcc true false 7 4096 2 true) demo_run = Ok r' /\
    traces demo_cfg r' {[0 := encode demo_header ++ encode (new_MemAccEvent 137 4096 7) ++ [5; 5; 5; 5]]}.
Proof.
  destruct (handlers_log demo_cfg (fun _ => 5) 0 (CAcc true false 7 4096 2 true) demo_run _ (encode demo_header) demo_traces)
    as (r' & E & Hr); [reflexivity|reflexivity|]. exists r'. split; [exact E|].
  rewrite insert_singleton_eq in Hr. exact Hr.
Defined.

(** From the traced program to the predictor.  Thread [tid] has its header
    and some entries in its trace; then any open threads make any calls the
    predictor can read, none taking anything back, and the thread ends.  Every
    handler succeeds, and if no write was short, what the predictor loads from
    the thread's file is the header and exactly the nodes of the entries, in
    order, with the started threads. *)
Theorem trace_read_back {OS} `{HL : OSLaws OS} (cfg : UFOContext) (tm : Z -> Z) (tid eLimit : Z) (ks : list (Z * call))
    (r : run OS) (s : gmap Z (list Z)) (h : UFOHeader) (its : list item) :
  traces cfg r s -> cfg.(use_io_q) = false -> s !! tid = Some (encode h ++ entry_bytes its) ->
  Forall item_wf its -> Forall (fun x => is_Some (s !! x.1)) ks -> all_calls tm plain_call ks r = true ->
  zlen its + zlen (entries tm tid ks r) < eLimit ->
  exists r1 r2 p, perform_all tm ks r = Ok r1 /\ trace_path r1 tid p /\ impl_thread_end tid r1 = Ok r2 /\
    (os_short r2.(r_core).(k_os) = false -> exists seq e,
    Reader.load tid eLimit (os_bytes r2.(r_core).(k_os) p) = Some seq /\ seq.(seq_header) = Some (header_node h) /\
    seq.(seq_events).*2 = nodes_of tid (its ++ entries tm tid ks r ++ [ItEnd e]) /\
    seq.(seq_newTids) = omap started_tid (its ++ entries tm tid ks r)).
Proof.
  intros Hr Hq Ht Hwf Hks Hall Hlim.
  destruct (plain_run cfg tm tid ks r s _ Hr Ht Hks Hall) as (r1 & s1 & E1 & Hr1 & Ht1 & _ & Hes). set (es := entries tm tid ks r) in *.
  destruct (traces_path cfg r1 _ tid Hr1 ltac:(by rewrite Ht1)) as [p Hp].
  destruct (thread_end_ok cfg r1 _ tid _ p Hr1 Ht1) as (r2 & E2 & _ & Hd); [|done|].
  { rewrite <- Hq, <- (traces_cfg cfg r1 _ Hr1). done. }
  set (e := new_ThreadEndEvent 0 _) in Hd.
  assert (Hfile : os_sent r2.(r_core).(k_os) p = encode h ++ entry_bytes (its ++ es ++ [ItEnd e])).
  { assert (Hend : entry_bytes [ItEnd e] = encode e) by apply app_nil_r. by rewrite Hd, !entry_bytes_app, Hend, <- !app_assoc. }
  exists r1, r2, p. split; [done|]. split; [done|]. split; [done|]. intros Hs. rewrite (complete_law _ _ Hs), Hfile. eexists _, e.
  split; [apply load_file; rewrite !Forall_app; split; [done|]; split; [done|]; by apply Forall_singleton|].
  rewrite loaded_items_all by (rewrite !zlen_app; change (zlen [ItEnd e]) with 1; lia).
  destruct (load_items_parts tid (header_node h) (its ++ es ++ [ItEnd e])) as (-> & -> & ->). rewrite !omap_app. cbn. by rewrite app_nil_r.
Qed.

Definition demo_calls : list (Z * call) :=
  [(0, CEnter 7); (0, CAlloc 8 4096 16); (0, CAcc true false 9 4096 2 true); (0, CLock 10 4160); (0, CAcc true false 11 1008 3 true);
   (0, CAcc true false 12 4100 0 false); (0, CUnlock 13 4160); (0, CExit)].

Lemma trace_read_back_witness :
  exists r1 r2 p seq, perform_all (fun a => a) demo_calls demo_run = Ok r1 /\ trace_path r1 0 p /\ impl_thread_end 0 r1 = Ok r2 /\
    Reader.load 0 100 (os_bytes r2.(r_core).(k_os) p) = Some seq /\ seq.(seq_header) = Some (header_node demo_header) /\
    seq.(seq_events).*2 = [FuncEntryNode 0 7; AllocNode 0 8 4096 16; WriteNode 0 9 4096 4 50462976 0; ReadNode 0 12 4100 1 4 0; FuncExitNode 0] /\
    seq.(seq_newTids) = [].
Proof.
  destruct (trace_read_back demo_cfg (fun a => a) 0 100 demo_calls demo_run {[0 := encode demo_header]} demo_header [] demo_traces)
    as (r1 & r2 & p & H1 & H2 & H3 & H4);
    [reflexivity|vm_compute; reflexivity|apply Forall_nil_2|
     repeat (apply Forall_cons_2; [vm_compute; by eexists|]); apply Forall_nil_2|vm_compute; reflexivity|vm_compute; reflexivity|].
  assert (Hs : match perform_all (fun a => a) demo_calls demo_run with Ok r1 => match impl_thread_end 0 r1 with Ok r2 => os_short r2.(r_core).(k_os) = false | Err _ => True end | Err _ => True end) by (vm_compute; reflexivity).
  rewrite H1, H3 in Hs.
  destruct (H4 Hs) as (seq & e & H5 & H6 & H7 & H8). exists r1, r2, p, seq. do 5 (split; [done|]). split; [rewrite H7|rewrite H8]; vm_compute; reflexivity.
Defined.

(** C36: a new thread.  In a run without compression, without the queue or with
    one of two entries or more: when an open thread creates another with a
    number the runtime has room for, whose buffer is not in use, and the file of
    the new thread can be opened and has not been written, the handler
    succeeds: the parent's trace gets the creation event (after dropping an
    allocation of 288 bytes at its end), the new thread is open with its own
    block and file, and its trace is the header and the begin event with the
    same time; no other trace changes. *)
Theorem thread_created_opens {OS} `{HL : OSLaws OS} (cfg : UFOContext) (tid_parent tid_kid pc et : Z) (r r1 : run OS)
    (s : gmap Z (list Z)) (t : list Z) :
  traces cfg r s -> s !! tid_parent = Some t -> s !! tid_kid = None -> 0 <= tid_kid < MAX_THREAD ->
  cap_ok cfg.(tl_buf_size_) ->
  created_parent tid_parent tid_kid pc r = Ok (et, r1) -> unused r1 tid_kid ->
  (forall dir, is_cstr dir (cells r1.(r_core).(k_mem) r1.(r_core).(k_ctx).(trace_dir)) ->
     openable r1.(r_core) (trace_name dir tid_kid) /\ os_sent r1.(r_core).(k_os) (trace_name dir tid_kid) = []) ->
  exists r', impl_thread_created tid_parent tid_kid pc r = Ok r' /\
    traces cfg r' (<[tid_kid := encode (trace_header r1.(r_core) tid_kid) ++ encode (new_ThreadBeginEvent (u16 tid_parent) pc et)]>
      (<[tid_parent := (if thread_alloc r tid_parent then without_last 17 t else t) ++
         encode (new_CreateThreadEvent (next_idx r).1 (u16 tid_kid) et pc)]> s)).
Proof.
  intros Hr Ht Hkid Hrange Hcap Hpar Hun Hopen. rewrite thread_created_halves, Hpar, bind_ok.
  destruct (created_parent_ok cfg tid_parent tid_kid pc r s t Hr Ht) as (r1' & E & Hr1). rewrite Hpar in E. injection E as -> <-.
  assert (Hne : tid_parent <> tid_kid) by (intros ->; congruence).
  destruct (kid_opens cfg r1 _ tid_kid Hr1) as (r2 & -> & Hr2 & _); [|done|done| |done|].
  { by rewrite lookup_insert_ne. }
  { pose proof (f_equal tl_buf_size_ (traces_cfg cfg _ _ Hr1)) as E. cbn in E. by rewrite E. }
  rewrite bind_ok. destruct (traces_put cfg (new_ThreadBeginEvent (u16 tid_parent) pc (elapsed r).1) r2 _ tid_kid _ Hr2 (lookup_insert_eq _ _ _) ltac:(done))
    as (r3 & -> & Hr3 & _). rewrite insert_insert_eq in Hr3. by exists r3.
Qed.

Lemma ok_facts {A} (x : res A) (P : A -> Prop) : (match x with Ok a => P a | Err _ => False end) -> exists a, x = Ok a /\ P a.
Proof. destruct x; [eauto|done]. Qed.

Lemma demo_created : exists a, created_parent 0 1 9 demo_run = Ok a /\
  (get_buf a.2 1 = Ok demo_free /\ cells (k_mem (r_core a.2)) (trace_dir (k_ctx (r_core a.2))) = padded 255 (str "d") /\ a.1 = 1000 /\
   sim_fds (k_os (r_core a.2)) = {[3 := str "d/0"]} /\ sim_files (k_os (r_core a.2)) = sim_files demo_files /\
   sim_denied (k_os (r_core a.2)) = ∅ /\ trace_header (r_core a.2) 1 = new_UFOHeader 1 0 0).
Proof. apply ok_facts. vm_compute. repeat split. Qed.

Lemma thread_created_opens_witness :
  exists r', impl_thread_created 0 1 9 demo_run = Ok r' /\
    traces demo_cfg r' (<[1 := encode (new_UFOHeader 1 0 0) ++ encode (new_ThreadBeginEvent 0 9 1000)]>
      {[0 := encode demo_header ++ encode (new_CreateThreadEvent 1 1 1000 9)]}).
Proof.
  destruct demo_created as ([et r1] & E & Hg & Hm & Het & Ho & Hf & Hden & Hh). cbn [fst snd] in *. subst et.
  destruct (thread_created_opens demo_cfg 0 1 9 1000 demo_run r1 {[0 := encode demo_header]} (encode demo_header) demo_traces)
    as (r' & E' & Hr').
  - reflexivity.
  - reflexivity.
  - unfold MAX_THREAD. lia.
  - unfold cap_ok. cbn. lia.
  - exact E.
  - exists demo_free. split; [exact Hg|]. split; [by left|]. done.
  - intros dir Hdir. rewrite Hm in Hdir.
    assert (dir = str "d") as ->.
    { destruct Hdir as [Hok [rest Hr]].
      destruct dir as [|c dir]; [by cbn in Hr|]. cbn in Hr. injection Hr as <- Hr. destruct dir as [|c dir]; [done|].
      cbn in Hr. injection Hr as <- _. apply Forall_cons in Hok as [_ Hok]. apply Forall_cons in Hok as [[_ Hok] _]. done. }
    split; [split|].
    + intros fd. cbn. unfold sim_file. destruct (fd <? 0); [done|]. rewrite Ho. intros [_ Hp]%lookup_singleton_Some. by vm_compute in Hp.
    + cbn. unfold sim_open. rewrite Hden. rewrite decide_False by apply not_elem_of_empty. cbn. by destruct (sim_fresh_None (k_os (r_core r1))).
    + cbn. unfold sim_data, sim_writes. rewrite Hf. vm_compute. reflexivity.
  - exists r'. split; [exact E'|]. rewrite Hh in Hr'. rewrite insert_singleton_eq in Hr'. exact Hr'.
Defined.

(** A function that does nothing leaves no trace.  Entering a function and
    leaving it at once, whatever the state of the buffer, puts every trace back
    to what it was. *)
Theorem empty_function_vanishes {OS} `{HL : OSLaws OS} (cfg : UFOContext) (tid pc : Z) (r : run OS) (s : gmap Z (list Z)) :
  traces cfg r s -> is_Some (s !! tid) ->
  exists r', (r ← impl_enter_func tid pc r; impl_exit_func tid r) = Ok r' /\ traces cfg r' s.
Proof.
  intros Hr [t Ht]. destruct (enter_func_traces cfg r s tid t pc Hr Ht) as (r1 & E1 & Hr1 & _).
  destruct (exit_func_traces cfg r1 _ tid _ Hr1 (lookup_insert_eq _ _ _)) as (r2 & E2 & _).
  exists r2. rewrite E1, bind_ok. split; [done|]. by apply (empty_function_ok cfg r r1 r2 s tid t pc).
Qed.

Lemma empty_function_vanishes_witness :
  exists r', (r ← impl_enter_func 0 7 demo_run; impl_exit_func 0 r) = Ok r' /\ traces demo_cfg r' {[0 := encode demo_header]}.
Proof. apply (empty_function_vanishes demo_cfg 0 7 demo_run); [apply demo_traces|by eexists]. Defined.

(** The exit after an empty function.  [last_fe] still equals the count of
    events when the empty function is gone, so the exit of its caller looks at
    the byte seven before the end of the buffer whatever entry it belongs to:
    if it is the tag of a function entry, seven bytes are cut off, and the exit
    is not logged.  A value of eight bytes with 15 in its second one is enough. *)
Theorem exit_cuts_value {OS} `{HL : OSLaws OS} (cfg : UFOContext) (tid pc : Z) (r : run OS) (s : gmap Z (list Z)) (t : list Z)
    (buf : TLBuffer) :
  traces cfg r s -> s !! tid = Some t -> get_buf r tid = Ok buf -> 7 <= buf.(size_) -> buf.(size_) + 7 < buf.(capacity_) ->
  Handlers.buf_value r buf (buf.(size_) - 7) 1 = Ok (type_val EnterFunc) ->
  exists r', (r ← impl_enter_func tid pc r; r ← impl_exit_func tid r; impl_exit_func tid r) = Ok r' /\
    traces cfg r' (<[tid := without_last 7 t]> s).
Proof.
  intros Hr Ht Hb Hsz Hroom Htag.
  destruct (enter_room cfg r s tid t buf pc Hr Ht Hb Hroom)
    as (r1 & ths & blks & items & th & bytes & E1 & Hsys & Hth & Hbytes & Hfe & ths0 & blks0 & items0 & th0 & Hsys0 & Hth0 & Hb0).
  destruct (sy_open _ _ _ _ _ Hsys0 _ _ Hth0) as [Hg0 _]. rewrite Hb in Hg0. injection Hg0 as ->.
  destruct (buf_tail cfg r ths0 blks0 items0 tid th0 7 Hsys0 Hth0 ltac:(lia)) as (b0 & d & Hsplit & Hz & _ & Hval & _ & _).
  pose proof (Hval 0 1 ltac:(lia) ltac:(lia) ltac:(lia)) as Hv. rewrite Z.add_0_r, Htag in Hv. injection Hv as Hv.
  destruct (exit_trims cfg r1 ths blks items tid th bytes (encode (new_FuncEntryEvent pc)) Hsys Hth Hbytes) as [E2 Hsys2]; [done..|].
  pose proof (empty_function_ok cfg r r1 _ s tid t pc Hr Ht E1 E2) as Hr2. rewrite E1, bind_ok, E2, bind_ok.
  destruct (exit_func_traces cfg _ s tid t Hr2 Ht) as (r3 & -> & Hr3). exists r3. split; [done|].
  unfold func_entry in Hr3. destruct (sy_open _ _ _ _ _ Hsys2 _ _ (lookup_insert_eq _ _ _)) as [Hg2 _].
  rewrite Hg2 in Hr3. cbn [th_buf e_counter_ last_fe set_size_] in Hr3. rewrite Hfe, Z.eqb_refl in Hr3. cbn [andb] in Hr3.
  change (tail_is _ tid 7 _) with (tail_is (set_buf r1 tid (set_size_ (th_buf th) (zlen bytes))) tid 7 (type_val EnterFunc)) in Hr3.
  rewrite <- Hz in Hr3 at 1. rewrite (tail_known cfg _ _ _ _ tid _ b0 d 15 0 0 _ Hsys2 (lookup_insert_eq _ _ _)) in Hr3;
    [|cbn; congruence|lia..]. rewrite <- Hv in Hr3. exact Hr3.
Qed.

(** A write of eight bytes, 0, 15, 0 and so on. *)
Definition demo_written : run sim :=
  match perform (fun a => if a =? 4097 then 15 else 0) 0 (CAcc true false 9 4096 3 true) demo_run with Ok r => r | Err _ => demo_run end.

Lemma demo_written_traces :
  traces demo_cfg demo_written {[0 := encode demo_header ++ encode (new_MemAccEvent 201 4096 9) ++ [0; 15; 0; 0; 0; 0; 0; 0]]}.
Proof.
  destruct (perform_ok demo_cfg demo_run _ 0 (encode demo_header) demo_traces eq_refl
    (fun a => if a =? 4097 then 15 else 0) (CAcc true false 9 4096 3 true) eq_refl) as (r' & E & Hr).
  unfold demo_written. rewrite E. rewrite insert_singleton_eq in Hr. exact Hr.
Qed.

Lemma demo_written_buf : exists a, get_buf demo_written 0 = Ok a /\
  (size_ a = 21 /\ capacity_ a = 64 /\ Handlers.buf_value demo_written a 14 1 = Ok 15).
Proof. apply ok_facts. vm_compute. repeat split. Qed.

Lemma exit_cuts_value_witness :
  exists r', (r ← impl_enter_func 0 7 demo_written; r ← impl_exit_func 0 r; impl_exit_func 0 r) = Ok r' /\
    traces demo_cfg r' {[0 := encode demo_header ++ encode (new_MemAccEvent 201 4096 9) ++ [0]]}.
Proof.
  destruct demo_written_buf as (buf & Hb & Hs & Hc & Hv).
  destruct (exit_cuts_value demo_cfg 0 7 demo_written _ _ buf demo_written_traces (lookup_singleton_eq _ _) Hb)
    as (r' & E & Hr); [lia|lia|rewrite Hs; exact Hv|]. exists r'. split; [exact E|].
  rewrite insert_singleton_eq in Hr. exact Hr.
Defined.

(** The access handler writes behind its buffer.  [impl_mem_acc], which is
    installed unless the stack is skipped or values are left out, checks the
    room for the event only ([put_event]); when the event fits and the value
    does not, it stores out of the bounds of the buffer. *)
Theorem value_overflows {OS} `{HL : OSLaws OS} (cfg : UFOContext) (tm : Z -> Z) (tid pc addr kAccessSizeLog : Z) (is_write : bool)
    (r : run OS) (s : gmap Z (list Z)) (t : list Z) (buf : TLBuffer) :
  traces cfg r s -> s !! tid = Some t -> get_buf r tid = Ok buf -> 0 <= kAccessSizeLog <= 3 ->
  buf.(size_) + 13 < buf.(capacity_) < buf.(size_) + 13 + 2 ^ kAccessSizeLog ->
  impl_mem_acc tm tid pc addr kAccessSizeLog is_write r = Err EOutOfBounds.
Proof. apply acc_overflows. Qed.

(** Two accesses of eight bytes and a call: 49 bytes of 64 are used. *)
Definition demo_filled : run sim :=
  match perform_all (fun _ => 0) [(0, CAcc true false 9 4096 3 true); (0, CAcc true false 9 4096 3 true); (0, CEnter 7)] demo_run with
  | Ok r => r
  | Err _ => demo_run
  end.

Lemma demo_filled_traces : exists s, traces demo_cfg demo_filled s /\ is_Some (s !! 0).
Proof.
  destruct (perform_all_ok demo_cfg (fun _ => 0) [(0, CAcc true false 9 4096 3 true); (0, CAcc true false 9 4096 3 true); (0, CEnter 7)] demo_run
    {[0 := encode demo_header]} demo_traces) as (r' & E & Hr).
  - repeat (apply Forall_cons_2; [vm_compute; by eexists|]). apply Forall_nil_2.
  - vm_compute. reflexivity.
  - unfold demo_filled. rewrite E. eexists. split; [exact Hr|]. vm_compute. by eexists.
Qed.

Lemma demo_filled_buf : exists a, get_buf demo_filled 0 = Ok a /\ (size_ a = 49 /\ capacity_ a = 64).
Proof. apply ok_facts. vm_compute. repeat split. Qed.

Lemma value_overflows_witness : impl_mem_acc (fun _ => 0) 0 9 4096 3 true demo_filled = Err EOutOfBounds.
Proof.
  destruct demo_filled_traces as (s & Hr & t & Ht). destruct demo_filled_buf as (buf & Hb & Hs & Hc).
  apply (value_overflows demo_cfg (fun _ => 0) 0 9 4096 3 true demo_filled s t buf Hr Ht Hb); [lia|]. rewrite Hs, Hc. lia.
Defined.

(** What is compared before a lock.  After the read of a byte outside the
    thread's own memory, a lock or unlock drops that read exactly if its mutex
    id equals the highest byte of the address with the lowest forty bits of the
    program counter behind it: the address is looked for six bytes into the
    entry, where it ends, and not one byte. *)
Theorem lock_compares_pc {OS} `{HL : OSLaws OS} (cfg : UFOContext) (tm : Z -> Z) (tid pc addr mutex_id : Z) (r : run OS)
    (s : gmap Z (list Z)) (t : list Z) :
  traces cfg r s -> s !! tid = Some t -> own_address r tid addr = false ->
  exists r' t', ns_mem_acc tm tid pc addr 0 false r = Ok r' /\ traces cfg r' (<[tid := t']> s) /\
    takes_back r' tid (CLock pc mutex_id) =
    (if u48 addr / 2 ^ 40 + 256 * (u48 pc mod 2 ^ 40) =? mutex_id then 14 else 0).
Proof.
  intros Hr Ht Hown. destruct (perform_ok cfg r s tid t Hr Ht tm (CAcc true false pc addr 0 false) eq_refl) as (r' & E & Hr').
  exists r'. eexists. split; [exact E|]. split; [exact Hr'|]. cbn [takes_back].
  by rewrite (byte_read_lock cfg tm r r' s tid t pc addr mutex_id Hr Ht Hown E).
Qed.

Lemma lock_compares_pc_witness :
  exists r' t', ns_mem_acc (fun _ => 0) 0 9 4096 0 false demo_run = Ok r' /\ traces demo_cfg r' (<[0 := t']> {[0 := encode demo_header]}) /\
    takes_back r' 0 (CLock 9 4096) = 0.
Proof. apply (lock_compares_pc demo_cfg (fun _ => 0) 0 9 4096 4096 demo_run _ (encode demo_header) demo_traces); reflexivity. Defined.
