(* ===== verification/Runtime.v ===== *)
(** * The life of the runtime

    Models the table of handlers and the life cycle of
    [src/ufo-rt/lib/tsan/rtl/ufo/ufo.cc] ([start_trace], [stop_trace],
    [init_start], [destroy], [child_after_fork]), the interface to the
    ThreadSanitizer runtime in [ufo_interface.cc], and the handlers of
    [dummy_rtl.h] that do nothing.

    The static members [fn_*] are the record [fns]; a world is the state of
    [Handlers] with this table, [g_started] and whether [uctx] is not null.
    A [ThreadState] is its [tid].  [raw] and [raws] are what the memory of the
    context and of the buffers holds before it is initialised.

    Shown: which handler a call reaches; a run begins with exactly the main
    thread open and ends with complete files; a forked child records no events
    but still collects values. *)
From Stdlib Require Import ZArith Lia String.
From stdpp Require Import base numbers list gmap.
From S2P Require Import Prelude Events Reader Memory LibC Printf Stat State HeapSort IOQueue TLBuffer Context Handlers System.

Local Open Scope Z_scope.

Record fns (O : Type) := Fns {
  fn_alloc : Z -> Z -> Z -> Z -> run O -> res (Z * run O);
  fn_dealloc : Z -> Z -> Z -> Z -> run O -> res (run O);
  fn_thread_created : Z -> Z -> Z -> run O -> res (run O);
  fn_thread_started : Z -> Z -> Z -> Z -> Z -> run O -> res (run O);
  fn_thread_join : Z -> Z -> Z -> run O -> res (run O);
  fn_thread_end : Z -> run O -> res (run O);
  fn_mtx_lock : Z -> Z -> Z -> run O -> res (run O);
  fn_mtx_unlock : Z -> Z -> Z -> run O -> res (run O);
  fn_rd_lock : Z -> Z -> Z -> run O -> res (run O);
  fn_rd_unlock : Z -> Z -> Z -> run O -> res (run O);
  fn_rw_unlock : Z -> Z -> Z -> run O -> res (run O);
  fn_cond_wait : Z -> Z -> Z -> Z -> run O -> res (run O);
  fn_cond_signal : Z -> Z -> Z -> run O -> res (run O);
  fn_cond_bc : Z -> Z -> Z -> run O -> res (run O);
  fn_mem_acc : (Z -> Z) -> Z -> Z -> Z -> Z -> bool -> run O -> res (run O);
  fn_mem_range_acc : Z -> Z -> Z -> Z -> bool -> run O -> res (run O);
  fn_enter_func : Z -> Z -> run O -> res (run O);
  fn_exit_func : Z -> run O -> res (run O);
  fn_ptr_prop : Z -> Z -> Z -> Z -> run O -> res (run O);
  fn_ptr_deref : Z -> Z -> Z -> run O -> res (run O) }.
Arguments Fns {O}.
Arguments fn_alloc {O}.
Arguments fn_dealloc {O}.
Arguments fn_thread_created {O}.
Arguments fn_thread_started {O}.
Arguments fn_thread_join {O}.
Arguments fn_thread_end {O}.
Arguments fn_mtx_lock {O}.
Arguments fn_mtx_unlock {O}.
Arguments fn_rd_lock {O}.
Arguments fn_rd_unlock {O}.
Arguments fn_rw_unlock {O}.
Arguments fn_cond_wait {O}.
Arguments fn_cond_signal {O}.
Arguments fn_cond_bc {O}.
Arguments fn_mem_acc {O}.
Arguments fn_mem_range_acc {O}.
Arguments fn_enter_func {O}.
Arguments fn_exit_func {O}.
Arguments fn_ptr_prop {O}.
Arguments fn_ptr_deref {O}.

Record world (O : Type) := World {
  w_run : run O;
  w_fns : fns O;
  g_started : bool;
  uctx : bool }.
Arguments World {O}.
Arguments w_run {O}.
Arguments w_fns {O}.
Arguments g_started {O}.
Arguments uctx {O}.

Section Runtime.
Context {OS : Type} `{OSOps OS}.

Definition with_run (w : world OS) (r : run OS) : world OS := World r w.(w_fns) w.(g_started) w.(uctx).
Definition with_fns (w : world OS) (f : fns OS) : world OS := World w.(w_run) f w.(g_started) w.(uctx).
Definition with_started (w : world OS) (b : bool) : world OS := World w.(w_run) w.(w_fns) b w.(uctx).
Definition ctx_of (r : run OS) : UFOContext := r.(r_core).(k_ctx).
Definition set_ctx (r : run OS) (u : UFOContext) : run OS := with_core r (with_ctx r.(r_core) u).

(** ** The handlers that do nothing *)

Definition nop_mtx_lock (tid pc mutex_id : Z) (r : run OS) : res (run OS) := Ok r.
Definition nop_mtx_unlock (tid pc mutex_id : Z) (r : run OS) : res (run OS) := Ok r.
Definition nop_rd_lock (tid pc mutex_id : Z) (r : run OS) : res (run OS) := Ok r.
Definition nop_rd_unlock (tid pc mutex_id : Z) (r : run OS) : res (run OS) := Ok r.
Definition nop_rw_unlock (tid pc mutex_id : Z) (r : run OS) : res (run OS) := Ok r.
Definition nop_cond_wait (tid pc addr_cond addr_mtx : Z) (r : run OS) : res (run OS) := Ok r.
Definition nop_cond_signal (tid pc addr_cond : Z) (r : run OS) : res (run OS) := Ok r.
Definition nop_cond_broadcast (tid pc addr_cond : Z) (r : run OS) : res (run OS) := Ok r.
Definition nop_alloc (tid pc addr_left size : Z) (r : run OS) : res (Z * run OS) := Ok (addr_left, r).
Definition nop_dealloc (tid pc addr size : Z) (r : run OS) : res (run OS) := Ok r.
Definition nop_mem_acc (tm : Z -> Z) (tid pc addr kAccessSizeLog : Z) (is_write : bool) (r : run OS) : res (run OS) := Ok r.
Definition nop_mem_range_acc (tid pc addr size : Z) (is_write : bool) (r : run OS) : res (run OS) := Ok r.
Definition nop_thread_created (tid_parent tid_kid pc : Z) (r : run OS) : res (run OS) := Ok r.
Definition nop_thread_start (tid stk_addr stk_size tls_addr tls_size : Z) (r : run OS) : res (run OS) := Ok r.
Definition nop_thread_join (tid_main tid_joiner pc : Z) (r : run OS) : res (run OS) := Ok r.
Definition nop_thread_end (tid : Z) (r : run OS) : res (run OS) := Ok r.
Definition nop_enter_func (tid pc : Z) (r : run OS) : res (run OS) := Ok r.
Definition nop_exit_func (tid : Z) (r : run OS) : res (run OS) := Ok r.
Definition nop_ptr_deref (tid pc addr_src : Z) (r : run OS) : res (run OS) := Ok r.
Definition nop_ptr_prop (tid pc addr_src addr_dest : Z) (r : run OS) : res (run OS) := Ok r.

(** ** The table *)

(** The initial values of the static members. *)
Definition initial_fns : fns OS :=
  Fns nop_alloc nop_dealloc nop_thread_created nop_thread_start nop_thread_join nop_thread_end
    nop_mtx_lock nop_mtx_unlock nop_rd_lock nop_rd_unlock nop_rw_unlock
    nop_cond_wait nop_cond_signal nop_cond_broadcast
    nop_mem_acc nop_mem_range_acc nop_enter_func nop_exit_func nop_ptr_prop nop_ptr_deref.

Definition start_trace (w : world OS) : res (world OS) :=
  let r := w.(w_run) in
  let u := ctx_of r in
  let f := w.(w_fns) in
  if negb u.(is_on) then Ok w
  else
    let '(enter_func, exit_func) :=
      if u.(trace_func_call) then (impl_enter_func, impl_exit_func) else (f.(fn_enter_func), f.(fn_exit_func)) in
    set_no_stack ← get_int_opt r.(r_core).(k_os) ENV_NO_STACK_ACC NO_STACK_ACC;
    set_no_value ← get_int_opt r.(r_core).(k_os) ENV_NO_VALUE 0;
    let no_value := negb (set_no_value =? 0) in
    let '(nostack, mem_range_acc, mem_acc) :=
      if set_no_stack =? 0 then (false, impl_mem_range_acc, if no_value then impl_mem_acc_nv else impl_mem_acc)
      else (true, ns_mem_range_acc, if no_value then ns_mem_acc_nv else ns_mem_acc) in
    Ok (World (set_ctx r (set_recording u nostack no_value))
      (Fns impl_alloc impl_dealloc impl_thread_created impl_thread_started impl_thread_join impl_thread_end
         impl_mtx_lock impl_mtx_unlock impl_rd_lock impl_rd_unlock impl_rw_unlock
         impl_cond_wait impl_cond_signal impl_cond_broadcast
         mem_acc mem_range_acc enter_func exit_func f.(fn_ptr_prop) f.(fn_ptr_deref))
      w.(g_started) w.(uctx)).

Definition stop_trace (w : world OS) : world OS :=
  with_fns w
    (Fns nop_alloc nop_dealloc nop_thread_created nop_thread_start nop_thread_join nop_thread_end
       nop_mtx_lock nop_mtx_unlock nop_rd_lock nop_rd_unlock nop_rw_unlock
       nop_cond_wait nop_cond_signal nop_cond_broadcast
       nop_mem_acc nop_mem_range_acc nop_enter_func nop_exit_func nop_ptr_prop nop_ptr_deref).

(** ** The life cycle *)

(** The event of the main thread, with the ranges filled in. *)
Definition main_begin (stk_addr stk_size tls_addr tls_size : Z) : ThreadBeginEvent :=
  let be := new_ThreadBeginEvent (u16 0) (u64 0) (u32 0) in
  mkThreadBeginEvent be.(tb_tid_parent) be.(tb_pc) be.(tb_e_time) (u48 stk_addr) (u32 stk_size) (u48 tls_addr) (u32 tls_size).

Definition init_start (raws : list TLBuffer) (r : run OS) : res (run OS) :=
  let o := r.(r_core).(k_os) in
  let u := set_process (ctx_of r) (u32 (os_getpid o)) (u32 (os_getppid o)) false in
  let u := set_e_count (set_mudule_length_ u 0) 0 in
  set_on ← get_int_opt o ENV_UFO_ON 0;
  let r := set_ctx r (set_is_on u (negb (set_on =? 0))) in
  let r := with_stat r (Some (replicate (Z.to_nat MAX_THREAD) stat_init)) in
  c ← read_config r.(r_core);
  let r := with_core r c in
  if negb (ctx_of r).(is_on) then Ok r
  else
    let '(t, o) := get_time_ms r.(r_core).(k_os) in
    let r := set_ctx (with_core r (with_os r.(r_core) o)) (set_time_started (ctx_of r) t) in
    let r := with_bufs r (Some (TLBuffer.init <$> raws)) in
    let r := if (ctx_of r).(use_io_q) then with_core r (start (ctx_of r).(out_queue_legth) r.(r_core)) else r in
    c ← open_trace_dir r.(r_core);
    let r := with_core r c in
    r ← on_buf 0 (fun buf c => Ok (open_buf buf c)) r;
    r ← on_buf 0 (open_file 0) r;
    let '(stk_addr, stk_size, tls_addr, tls_size) := os_GetThreadStackAndTls r.(r_core).(k_os) false in
    put 0 (main_begin stk_addr stk_size tls_addr tls_size) r.

(** [for (u32 i = 0; i < MAX_THREAD; ++i) tlbufs\[i\].finish();] the array is
    freed behind the loop. *)
Fixpoint finish_all (i : Z) (bufs : list TLBuffer) (c : core OS) : res (core OS) :=
  match bufs with
  | [] => Ok c
  | tb :: bufs => '(_, c) ← finish i tb c; finish_all (i + 1) bufs c
  end.

Definition destroy (w : world OS) : res (world OS) :=
  let w := stop_trace w in
  let r := w.(w_run) in
  r ← (if (ctx_of r).(do_print_stat_) && (ctx_of r).(is_on) then
         stat ← res_of_option ENull r.(r_stat);
         '(term, c) ← output_stat stat r.(r_term) r.(r_core);
         Ok (Run c r.(r_bufs) r.(r_stat) term)
       else Ok r);
  let r := with_stat r None in
  if negb (ctx_of r).(is_on) then Ok (with_run w r)
  else
    c ← (if (ctx_of r).(use_io_q) then c ← stop r.(r_core); Ok (with_queue c None) else Ok r.(r_core));
    bufs ← res_of_option ENull r.(r_bufs);
    c ← finish_all 0 bufs c;
    Ok (with_run w (with_bufs (with_core r c) None)).

Definition ctx_child_after_fork (r : run OS) : res (run OS) :=
  if negb (ctx_of r).(is_on) then Ok r
  else
    let o := r.(r_core).(k_os) in
    let u := set_process (ctx_of r) (u32 (os_getpid o)) (u32 (os_getppid o)) true in
    let r := set_ctx r (set_mudule_length_ u 0) in
    c ← read_config r.(r_core);
    let '(t, o) := get_time_ms c.(k_os) in
    let c := with_ctx (with_os c o) (set_time_started c.(k_ctx) t) in
    c ← open_trace_dir c;
    c ← (if c.(k_ctx).(use_io_q) then
           c ← release_mem c;
           Ok (start c.(k_ctx).(out_queue_legth) (with_queue c None))
         else Ok c);
    bufs ← res_of_option ENull r.(r_bufs);
    stat ← res_of_option ENull r.(r_stat);
    Ok (Run c (Some (reset <$> bufs)) (Some ((fun _ => stat_init) <$> stat)) r.(r_term)).

(** [total_mem_] and the thresholds are only in comments. *)
Definition mem_acquired (n_bytes : Z) (r : run OS) : run OS := r.
Definition mem_released (n_bytes : Z) (r : run OS) : run OS := r.

(** ** The interface *)

(** The context is allocated, not cleared: [raw] with an array of its own. *)
Definition init_ufo (raw : UFOContext) (raws : list TLBuffer) (w : world OS) : res (bool * world OS) :=
  if w.(g_started) then Ok (true, w)
  else
    let c := w.(w_run).(r_core) in
    let '(dir, m) := alloc c.(k_mem) DIR_MAX_LEN in
    let r := with_core w.(w_run) (with_ctx (with_mem c m) (set_trace_dir raw dir)) in
    r ← init_start raws r;
    Ok (true, World r w.(w_fns) true true).

Definition use_uctx (w : world OS) : res unit := if w.(uctx) then Ok () else Err ENull.

Definition finish_ufo (w : world OS) : res (bool * world OS) :=
  if negb w.(g_started) then Ok (false, w)
  else
    _ ← use_uctx w;
    w ← destroy w;
    m ← free w.(w_run).(r_core).(k_mem) (ctx_of w.(w_run)).(trace_dir);
    Ok (false, World (with_core w.(w_run) (with_mem w.(w_run).(r_core) m)) w.(w_fns) false false).

(** [stop_trace] is static. *)
Definition before_fork (w : world OS) : world OS := with_started (stop_trace w) false.

Definition parent_after_fork (w : world OS) : world OS := with_started w true.

Definition child_after_fork (w : world OS) : res (world OS) :=
  _ ← use_uctx w;
  r ← ctx_child_after_fork w.(w_run);
  Ok (with_started (with_run w r) true).

Definition lift (w : world OS) (x : res (run OS)) : res (world OS) := r ← x; Ok (with_run w r).

Definition on_mtx_lock (tid pc mutex_id : Z) (w : world OS) : res (world OS) :=
  lift w (w.(w_fns).(fn_mtx_lock) tid pc mutex_id w.(w_run)).
Definition on_mtx_unlock (tid pc mutex_id : Z) (w : world OS) : res (world OS) :=
  lift w (w.(w_fns).(fn_mtx_unlock) tid pc mutex_id w.(w_run)).
Definition on_cond_wait (tid pc addr_cond addr_mtx : Z) (w : world OS) : res (world OS) :=
  lift w (w.(w_fns).(fn_cond_wait) tid pc addr_cond addr_mtx w.(w_run)).
Definition on_cond_signal (tid pc addr_cond : Z) (w : world OS) : res (world OS) :=
  lift w (w.(w_fns).(fn_cond_signal) tid pc addr_cond w.(w_run)).
Definition on_cond_broadcast (tid pc addr_cond : Z) (w : world OS) : res (world OS) :=
  lift w (w.(w_fns).(fn_cond_bc) tid pc addr_cond w.(w_run)).
Definition on_alloc (tid pc addr_left size : Z) (w : world OS) : res (Z * world OS) :=
  '(p, r) ← w.(w_fns).(fn_alloc) tid pc addr_left size w.(w_run); Ok (p, with_run w r).
Definition on_dealloc (tid pc addr size : Z) (w : world OS) : res (world OS) :=
  lift w (w.(w_fns).(fn_dealloc) tid pc addr size w.(w_run)).
Definition on_mem_acc (tm : Z -> Z) (tid pc addr kAccessSizeLog : Z) (is_write : bool) (w : world OS) : res (world OS) :=
  lift w (w.(w_fns).(fn_mem_acc) tm tid pc addr kAccessSizeLog is_write w.(w_run)).
Definition on_mem_range_acc (tid pc addr size : Z) (is_write : bool) (w : world OS) : res (world OS) :=
  lift w (w.(w_fns).(fn_mem_range_acc) tid pc addr size is_write w.(w_run)).
Definition on_thread_created (tid_parent tid_kid pc : Z) (w : world OS) : res (world OS) :=
  _ ← use_uctx w;
  w ← start_trace w;
  lift w (w.(w_fns).(fn_thread_created) tid_parent tid_kid pc w.(w_run)).
Definition on_thread_start (tid stk_addr stk_size tls_addr tls_size : Z) (w : world OS) : res (world OS) :=
  lift w (w.(w_fns).(fn_thread_started) tid stk_addr stk_size tls_addr tls_size w.(w_run)).
Definition on_thread_join (tid_main tid_joiner pc : Z) (w : world OS) : res (world OS) :=
  lift w (w.(w_fns).(fn_thread_join) tid_main tid_joiner pc w.(w_run)).
Definition on_thread_end (tid : Z) (w : world OS) : res (world OS) :=
  lift w (w.(w_fns).(fn_thread_end) tid w.(w_run)).
Definition enter_func (tid pc : Z) (w : world OS) : res (world OS) :=
  lift w (w.(w_fns).(fn_enter_func) tid pc w.(w_run)).
Definition exit_func (tid : Z) (w : world OS) : res (world OS) :=
  lift w (w.(w_fns).(fn_exit_func) tid w.(w_run)).
Definition on_ptr_prop (tid pc addr_src addr_dest : Z) (w : world OS) : res (world OS) :=
  lift w (w.(w_fns).(fn_ptr_prop) tid pc addr_src addr_dest w.(w_run)).
Definition on_ptr_deref (tid pc addr_ptr : Z) (w : world OS) : res (world OS) :=
  lift w (w.(w_fns).(fn_ptr_deref) tid pc addr_ptr w.(w_run)).
End Runtime.

(** ** The table and the calls *)

Section Dispatch.
Context {OS : Type} `{HL : OSLaws OS}.

(** A call of the traced program at the interface; reader locks have no entry
    there. *)
Definition dispatch (tm : Z -> Z) (tid : Z) (k : call) (w : world OS) : res (world OS) :=
  match k with
  | CLock pc m => on_mtx_lock tid pc m w
  | CUnlock pc m => on_mtx_unlock tid pc m w
  | CRdLock _ _ | CRdUnlock _ _ | CRwUnlock _ _ => Ok w
  | CWait pc c m => on_cond_wait tid pc c m w
  | CSignal pc c => on_cond_signal tid pc c w
  | CBroadcast pc c => on_cond_broadcast tid pc c w
  | CAlloc pc a n => '(_, w) ← on_alloc tid pc a n w; Ok w
  | CDealloc pc a n => on_dealloc tid pc a n w
  | CJoin j pc => on_thread_join tid j pc w
  | CEnter pc => enter_func tid pc w
  | CExit => exit_func tid w
  | CPtrProp pc src dest => on_ptr_prop tid pc src dest w
  | CPtrDeref pc p => on_ptr_deref tid pc p w
  | CAcc _ _ pc a k wr => on_mem_acc tm tid pc a k wr w
  | CRange _ pc a n wr => on_mem_range_acc tid pc a n wr w
  end.

(** The call as the installed handlers see it. *)
Definition in_mode (ns nv : bool) (k : call) : call :=
  match k with
  | CAcc _ _ pc a k w => CAcc ns nv pc a k w
  | CRange _ pc a n w => CRange ns pc a n w
  | _ => k
  end.

(** What is traced: pointers never, calls if the option is set. *)
Definition traced (u : UFOContext) (k : call) : bool :=
  match k with
  | CEnter _ | CExit => u.(trace_func_call)
  | CPtrProp _ _ _ | CPtrDeref _ _ => false
  | CRdLock _ _ | CRdUnlock _ _ | CRwUnlock _ _ => false
  | _ => true
  end.

Lemma with_run_id (w : world OS) : with_run w w.(w_run) = w.
Proof. by destruct w. Qed.

Lemma lift_nop (w : world OS) : lift w (Ok w.(w_run)) = Ok w.
Proof. unfold lift. by rewrite bind_ok, with_run_id. Qed.

Lemma dispatch_nop tm tid k (w : world OS) : w.(w_fns) = initial_fns -> dispatch tm tid k w = Ok w.
Proof.
  intros E. destruct k; cbn [dispatch]; try done;
    unfold on_mtx_lock, on_mtx_unlock, on_cond_wait, on_cond_signal, on_cond_broadcast, on_alloc, on_dealloc, on_thread_join,
      enter_func, exit_func, on_ptr_prop, on_ptr_deref, on_mem_acc, on_mem_range_acc; rewrite E; apply lift_nop.
Qed.

Lemma start_trace_ok (w : world OS) :
  w.(w_fns) = initial_fns -> (ctx_of w.(w_run)).(is_on) = true ->
  exists set_no_stack set_no_value w',
    get_int_opt w.(w_run).(r_core).(k_os) ENV_NO_STACK_ACC NO_STACK_ACC = Ok set_no_stack /\
    get_int_opt w.(w_run).(r_core).(k_os) ENV_NO_VALUE 0 = Ok set_no_value /\
    let ns := negb (set_no_stack =? 0) in
    let nv := negb (set_no_value =? 0) in
    start_trace w = Ok w' /\ w'.(w_run) = set_ctx w.(w_run) (set_recording (ctx_of w.(w_run)) ns nv) /\
    forall w2, w2.(w_fns) = w'.(w_fns) -> forall tm tid k, dispatch tm tid k w2 =
      if traced (ctx_of w.(w_run)) k then lift w2 (perform tm tid (in_mode ns nv k) w2.(w_run)) else Ok w2.
Proof.
  intros Ef Hon. destruct (get_int_opt_total w.(w_run).(r_core).(k_os) ENV_NO_STACK_ACC NO_STACK_ACC) as (v1 & E1 & _); [done|].
  destruct (get_int_opt_total w.(w_run).(r_core).(k_os) ENV_NO_VALUE 0) as (v2 & E2 & _); [done|].
  exists v1, v2. cbv zeta. unfold start_trace. rewrite Hon, Ef, E1, E2. cbn [negb].
  destruct (trace_func_call (ctx_of (w_run w))) eqn:Etf; rewrite !bind_ok; destruct (v1 =? 0); eexists; (split; [done|]); (split; [done|]);
    (split; [reflexivity|]); (split; [done|]); intros [r2 f2 g2 u2] E tm tid k; cbn [w_fns] in E; subst f2;
    destruct k; cbn [dispatch traced in_mode perform]; rewrite ?Etf; try done;
    try (unfold on_alloc; cbn [w_fns fn_alloc w_run]; unfold lift; destruct (impl_alloc _ _ _ _ _) as [[? ?]|]; done);
    try apply lift_nop; by destruct (v2 =? 0).
Qed.

(** Which handler a call reaches.  Before [start_trace], and again after
    [stop_trace], every call of the interface leaves the state as it is.  In
    between, a call reaches the handler of its kind: accesses the variant that
    the environment asks for, with or without the thread's own stack and with
    or without values, function calls only if they are traced; pointer events
    never reach theirs. *)
Theorem dispatch_table tm (w : world OS) :
  w.(w_fns) = initial_fns -> (ctx_of w.(w_run)).(is_on) = true ->
  (forall tid k, dispatch tm tid k w = Ok w) /\
  exists set_no_stack set_no_value w',
    get_int_opt w.(w_run).(r_core).(k_os) ENV_NO_STACK_ACC NO_STACK_ACC = Ok set_no_stack /\
    get_int_opt w.(w_run).(r_core).(k_os) ENV_NO_VALUE 0 = Ok set_no_value /\
    start_trace w = Ok w' /\
    (forall w2 tid k, w2.(w_fns) = w'.(w_fns) -> dispatch tm tid k w2 =
      if traced (ctx_of w.(w_run)) k
      then lift w2 (perform tm tid (in_mode (negb (set_no_stack =? 0)) (negb (set_no_value =? 0)) k) w2.(w_run))
      else Ok w2) /\
    forall w2 tid k, dispatch tm tid k (stop_trace w2) = Ok (stop_trace w2).
Proof.
  intros Ef Hon. split; [intros; by apply dispatch_nop|].
  destruct (start_trace_ok w Ef Hon) as (v1 & v2 & w' & E1 & E2 & E & _ & Hd). exists v1, v2, w'.
  do 3 (split; [done|]). split; [intros w2 tid k Ew; by apply Hd|]. intros. by apply dispatch_nop.
Qed.
End Dispatch.

(** ** The end *)

Section Destroy.
Context {OS : Type} `{HL : OSLaws OS}.

(** A buffer that was never opened, or finished. *)
Definition idle (c : core OS) (tb : TLBuffer) : Prop := tb.(buf_) = None /\ os_file c.(k_os) tb.(trace_fd_) = None.

(** A thread with bytes to be written. *)
Definition ready (c : core OS) (th : thread) : Prop :=
  os_file c.(k_os) th.(th_buf).(trace_fd_) = Some th.(th_path) /\ buf_holds c.(k_mem) th.(th_buf) th.(th_blk) th.(th_bytes).

Lemma finish_idle tid tb (c : core OS) : idle c tb -> finish tid tb c = Ok (set_capacity_ tb 0, c).
Proof.
  intros [Hb Hf]. unfold finish, finish_close, is_file_open. rewrite Hb. cbn [set_capacity_ trace_fd_].
  assert (os_fcntl_ok c.(k_os) tb.(trace_fd_) = false) as ->; [|by rewrite andb_false_r].
  apply not_true_iff_false. intros [p Hp]%fcntl_law. congruence.
Qed.

Lemma finish_all_ok ths i bufs (c : core OS) :
  apart ths -> c.(k_ctx).(use_compression) = false ->
  (forall (k : nat) tb, bufs !! k = Some tb ->
     match ths !! (i + Z.of_nat k) with Some th => th.(th_buf) = tb /\ ready c th | None => idle c tb end) ->
  exists c', finish_all i bufs c = Ok c' /\ c'.(k_ctx) = c.(k_ctx) /\
    (forall (k : nat) th, (k < length bufs)%nat -> ths !! (i + Z.of_nat k) = Some th ->
       os_sent c'.(k_os) th.(th_path) = os_sent c.(k_os) th.(th_path) ++ th.(th_bytes)) /\
    (forall q, (forall (k : nat) th, (k < length bufs)%nat -> ths !! (i + Z.of_nat k) = Some th -> th.(th_path) <> q) ->
       os_sent c'.(k_os) q = os_sent c.(k_os) q) /\
    forall b, (forall (k : nat) th, (k < length bufs)%nat -> ths !! (i + Z.of_nat k) = Some th -> th.(th_blk) <> b) ->
       c'.(k_mem).(m_blocks) !! b = c.(k_mem).(m_blocks) !! b.
Proof.
  intros Hap. revert i c. induction bufs as [|tb bufs IH]; intros i c Hc Hbufs; cbn [finish_all].
  { exists c. split; [done|]. split; [done|]. split; [cbn; lia|]. by split. }
  pose proof (Hbufs 0%nat tb eq_refl) as Htb. change (Z.of_nat 0) with 0 in Htb. rewrite Z.add_0_r in Htb.
  assert (Hshift : forall k : nat, i + Z.of_nat (S k) = i + 1 + Z.of_nat k) by lia.
  destruct (ths !! i) as [th|] eqn:Eth.
  - destruct Htb as [<- [Hf Hbuf]]. destruct (finish_ready i c th.(th_buf) th.(th_path) th.(th_blk) th.(th_bytes) Hc Hf Hbuf)
      as (tb' & c1 & -> & D1 & D2 & F1 & F2 & Em & _ & Ectx & _). rewrite bind_ok.
    destruct (IH (i + 1) c1) as (c' & E & H0 & H1 & H2 & H3).
    { by rewrite Ectx. }
    { intros k tb2 Hk. pose proof (Hbufs (S k) tb2 Hk) as Hk2. rewrite Hshift in Hk2.
      destruct (ths !! (i + 1 + Z.of_nat k)) as [th2|] eqn:E2.
      - destruct Hk2 as [Htb2 [Hf2 (B1 & B2 & B3 & l & B4 & B5)]]. destruct (Hap _ _ _ _ E2 Eth ltac:(lia)) as [Hp Hb]. split; [done|]. split.
        + rewrite F2; [done|]. intros E. rewrite E in Hf2. congruence.
        + do 3 (split; [done|]). exists l. rewrite Em. cbn [m_blocks]. by rewrite lookup_delete_ne by (by apply not_eq_sym).
      - destruct Hk2 as [Hb Hf2]. split; [done|]. destruct (decide (tb2.(trace_fd_) = th.(th_buf).(trace_fd_))) as [->|Hne]; [done|by rewrite F2]. }
    exists c'. split; [done|]. split; [congruence|]. split; [|split].
    + intros [|k] th2 Hk E2.
      * change (Z.of_nat 0) with 0 in E2. rewrite Z.add_0_r, Eth in E2. injection E2 as <-. rewrite <- D1. apply H2.
        intros k th2 Hk2 E2. by destruct (Hap _ _ _ _ E2 Eth ltac:(lia)) as [? _].
      * rewrite Hshift in E2. rewrite (H1 k) by (done || (cbn in Hk; lia)). rewrite D2; [done|].
        by destruct (Hap _ _ _ _ E2 Eth ltac:(lia)) as [? _].
    + intros q Hq. rewrite H2, D2; [done| |].
      * apply not_eq_sym, (Hq 0%nat th); [cbn; lia|]. change (Z.of_nat 0) with 0. by rewrite Z.add_0_r.
      * intros k th2 Hk E2. apply (Hq (S k)); [cbn; lia|]. by rewrite Hshift.
    + intros b Hb. rewrite H3, Em; cbn [m_blocks]; [apply lookup_delete_ne|].
      * apply (Hb 0%nat); [cbn; lia|]. change (Z.of_nat 0) with 0. by rewrite Z.add_0_r.
      * intros k th2 Hk E2. apply (Hb (S k)); [cbn; lia|]. by rewrite Hshift.
  - rewrite (finish_idle i tb c Htb), bind_ok. destruct (IH (i + 1) c Hc) as (c' & E & H0 & H1 & H2 & H3).
    { intros k tb2 Hk. rewrite <- Hshift. by apply Hbufs. }
    exists c'. split; [done|]. split; [congruence|]. split; [|split].
    + intros [|k] th2 Hk E2; [change (Z.of_nat 0) with 0 in E2; rewrite Z.add_0_r in E2; congruence|].
      rewrite Hshift in E2. apply (H1 k); [cbn in Hk; lia|done].
    + intros q Hq. apply H2. intros k th2 Hk E2. apply (Hq (S k)); [cbn; lia|]. by rewrite Hshift.
    + intros b Hb. apply H3. intros k th2 Hk E2. apply (Hb (S k)); [cbn; lia|]. by rewrite Hshift.
Qed.

(** Writing all that waits completes the files. *)
Lemma written_all (o : OS) fd p items :
  os_file o fd = Some p -> (forall fd', os_file o fd' = Some p -> fd' = fd) ->
  Forall (fun r => is_Some (os_file o r.1)) items ->
  (forall fd', os_file (foldl write_out o items) fd' = os_file o fd') /\
  os_sent (foldl write_out o items) p = os_sent o p ++ queued fd items.
Proof.
  revert o. induction items as [|r items IH]; intros o Hf Ho Hit; [by rewrite app_nil_r|].
  apply Forall_cons in Hit as [Hr Hit]. cbn [foldl].
  assert (Hstep : (forall fd', os_file (write_out o r) fd' = os_file o fd') /\
    os_sent (write_out o r) p ++ queued fd items = os_sent o p ++ queued fd (r :: items)).
  { unfold write_out. destruct (Z.ltb_spec 0 (zlen r.2)) as [_|Hz]; [by apply work_stream|]. split; [done|]. rewrite queued_cons.
    assert (r.2 = []) as -> by (destruct r.2; [done|]; unfold zlen in Hz; cbn in Hz; lia). by case_decide. }
  destruct Hstep as [F1 D1]. destruct (IH (write_out o r)) as [F2 D2].
  - by rewrite F1.
  - intros fd'. rewrite F1. apply Ho.
  - eapply Forall_impl; [exact Hit|]. intros x. by rewrite F1.
  - split; [intros fd'; by rewrite F2|]. by rewrite D2.
Qed.

Lemma written_files (o : OS) items :
  Forall (fun r => is_Some (os_file o r.1)) items -> forall fd', os_file (foldl write_out o items) fd' = os_file o fd'.
Proof.
  revert o. induction items as [|r items IH]; intros o Hit fd'; [done|]. apply Forall_cons in Hit as [[p Hp] Hit]. cbn [foldl].
  assert (F : forall fd', os_file (write_out o r) fd' = os_file o fd').
  { unfold write_out. destruct (0 <? zlen r.2); [|done]. by apply (written_law o r.1 p r.2 Hp). }
  rewrite IH, F; [done|]. eapply Forall_impl; [exact Hit|]. intros x. by rewrite F.
Qed.

(** Stopping the queue, if there is one. *)
Lemma stopped_ok (c : core OS) blks items :
  queue_ok c blks items ->
  exists c', (if c.(k_ctx).(use_io_q) then c ← stop c; Ok (with_queue c None) else Ok c) = Ok c' /\ c'.(k_ctx) = c.(k_ctx) /\
    (forall fd, os_file c'.(k_os) fd = os_file c.(k_os) fd) /\
    (forall fd p, os_file c.(k_os) fd = Some p -> (forall fd', os_file c.(k_os) fd' = Some p -> fd' = fd) ->
       os_sent c'.(k_os) p = os_sent c.(k_os) p ++ queued fd items) /\
    (forall b, (c.(k_ctx).(use_io_q) = true -> b ∉ blks) -> c'.(k_mem).(m_blocks) !! b = c.(k_mem).(m_blocks) !! b).
Proof.
  intros [Hp Hq]. destruct (use_io_q (k_ctx c)) eqn:Eq.
  - destruct Hq as (Hrep & Hfds & _). destruct (stop_ok c blks items Hp Hrep) as (c' & -> & Eo & Em & Ec). rewrite bind_ok.
    eexists. split; [done|]. cbn [with_queue k_ctx k_os k_mem]. rewrite Eo. split; [done|].
    split; [by apply written_files|]. split; [intros fd p Hf Ho; by apply written_all|].
    intros b Hb. rewrite Em, decide_False; [done|]. by apply Hb.
  - subst items. exists c. split; [done|]. split; [done|]. split; [done|]. split; [|done]. intros. by rewrite app_nil_r.
Qed.

(** The statistics can be written: the name of the directory leaves room for
    the names of their files, which are not those of traces. *)
Definition stat_files (c : core OS) (paths : chars -> Prop) : Prop :=
  c.(k_ctx).(do_print_stat_) = true ->
  (forall o p t, is_Some (os_put_file (o : OS) p t)) /\
  forall dir, is_cstr dir (cells c.(k_mem) c.(k_ctx).(trace_dir)) ->
    zlen dir < 200 /\ forall p, paths p -> p <> dir ++ NAME_STAT_FILE /\ p <> dir ++ NAME_STAT_CSV.

Lemma stat_stage (r : run OS) dir stat paths :
  is_cstr dir (cells r.(r_core).(k_mem) (ctx_of r).(trace_dir)) -> mem_wf r.(r_core).(k_mem) -> r.(r_stat) = Some stat ->
  stat_files r.(r_core) paths ->
  exists r1, (if (ctx_of r).(do_print_stat_) && (ctx_of r).(is_on) then
         stat ← res_of_option ENull r.(r_stat);
         '(term, c) ← output_stat stat r.(r_term) r.(r_core);
         Ok (Run c r.(r_bufs) r.(r_stat) term)
       else Ok r) = Ok r1 /\ r1.(r_bufs) = r.(r_bufs) /\ ctx_of r1 = ctx_of r /\ r1.(r_core).(k_queue) = r.(r_core).(k_queue) /\
    r1.(r_core).(k_mem).(m_blocks) = r.(r_core).(k_mem).(m_blocks) /\
    (forall fd, os_file r1.(r_core).(k_os) fd = os_file r.(r_core).(k_os) fd) /\
    (forall p, paths p -> os_sent r1.(r_core).(k_os) p = os_sent r.(r_core).(k_os) p).
Proof.
  intros Hdir Hwf Hst Hsf. destruct ((ctx_of r).(do_print_stat_)) eqn:Ep; [|by exists r]. cbn [andb].
  destruct ((ctx_of r).(is_on)); [|by exists r]. destruct (Hsf Ep) as [Hput Hd]. destruct (Hd dir Hdir) as [Hlen Hpaths].
  rewrite Hst. cbn [res_of_option]. rewrite bind_ok, (output_stat_ok r.(r_core) dir Hdir Hwf) by done.
  destruct (summary_stat _ _ _ _) as [term text].
  destruct (Hput r.(r_core).(k_os) (dir ++ NAME_STAT_FILE) (default [] text)) as [o1 Eo1]. rewrite Eo1. cbn [res_of_option]. rewrite bind_ok.
  destruct (Hput o1 (dir ++ NAME_STAT_CSV) (print_csv [] stat (cur_pid_ (k_ctx (r_core r))) (p_pid_ (k_ctx (r_core r))))) as [o2 Eo2].
  rewrite Eo2. cbn [res_of_option]. rewrite !bind_ok. destruct (put_law _ _ _ _ Eo1) as (F1 & _ & D1). destruct (put_law _ _ _ _ Eo2) as (F2 & _ & D2).
  eexists. split; [done|]. cbn. do 4 (split; [done|]). split; [intros fd; by rewrite F2, F1|].
  intros p Hp. destruct (Hpaths p Hp). by rewrite D2, D1.
Qed.

Lemma destroy_ok cfg (w : world OS) ths blks items :
  sys cfg w.(w_run) ths blks items -> cfg.(is_on) = true ->
  (forall tid tb, get_buf w.(w_run) tid = Ok tb -> ths !! tid = None -> idle w.(w_run).(r_core) tb) ->
  stat_files w.(w_run).(r_core) (fun p => exists tid th, ths !! tid = Some th /\ p = th.(th_path)) ->
  exists w', destroy w = Ok w' /\ w'.(w_fns) = initial_fns /\ w'.(w_run).(r_bufs) = None /\ w'.(w_run).(r_stat) = None /\
    ctx_of w'.(w_run) = ctx_of w.(w_run) /\
    is_Some (w'.(w_run).(r_core).(k_mem).(m_blocks) !! blk (ctx_of w.(w_run)).(trace_dir)) /\
    forall tid th, ths !! tid = Some th -> os_sent w'.(w_run).(r_core).(k_os) th.(th_path) = trace_of w.(w_run).(r_core) items th.
Proof.
  intros [(bufs & Hb & Hlen) (stat & Hst & _) Hop Hap Hcfg Hqok Hwf (dir & Hdir & Hdl) [Hd1 Hd2]] Hon Hidle Hsf. unfold destroy.
  cbn [stop_trace with_fns w_run]. set (r := w.(w_run)) in *.
  destruct (stat_stage r dir stat _ Hdir Hwf Hst Hsf) as (r1 & -> & Eb & Ectx & Equ & Em & Ef & Ed). rewrite bind_ok.
  assert (Hon1 : (ctx_of r1).(is_on) = true) by (rewrite Ectx; rewrite <- Hon, <- Hcfg; done).
  change (ctx_of (with_stat r1 None)) with (ctx_of r1). rewrite Hon1. cbn [negb].
  change (r_core (with_stat r1 None)) with (r_core r1). change (r_bufs (with_stat r1 None)) with (r_bufs r1).
  assert (Hqok1 : queue_ok r1.(r_core) blks items).
  { destruct Hqok as [Hp Hq]. unfold queue_ok. unfold ctx_of in Ectx. rewrite Ectx. split; [done|].
    destruct (use_io_q (k_ctx (r_core r))); [|done]. destruct Hq as ((q & ts & Hq & Hr) & Hfds & Hlq). rewrite Equ.
    split; [exists q, ts; rewrite Equ; split; [done|]; apply (ring_frame r.(r_core).(k_mem)); [intros; by rewrite Em|done]|].
    split; [|done]. eapply Forall_impl; [exact Hfds|]. intros x. by rewrite Ef. }
  change (ctx_of r1) with (r1.(r_core).(k_ctx)).
  destruct (stopped_ok r1.(r_core) blks items Hqok1) as (c2 & -> & Ectx2 & Ef2 & Ed2 & Em2). rewrite bind_ok.
  cbn [r_bufs]. rewrite Eb, Hb. cbn [res_of_option]. rewrite bind_ok.
  assert (Hown : forall tid th, ths !! tid = Some th -> r1.(r_core).(k_ctx).(use_io_q) = true -> th.(th_blk) ∉ blks).
  { intros tid th Hth Eq. destruct (Hop _ _ Hth) as [_ [_ _ _ _ _ Hq]]. unfold ctx_of in Ectx. rewrite Ectx in Eq. rewrite Eq in Hq. by destruct Hq as (_ & ? & _). }
  destruct (finish_all_ok ths 0 bufs c2 Hap) as (c3 & -> & Ectx3 & D3 & _ & M3).
  { rewrite Ectx2. by destruct Hqok1. }
  { intros k tb Hk. rewrite Z.add_0_l. assert (Hg : get_buf r (Z.of_nat k) = Ok tb).
    { unfold get_buf, index. rewrite Hb. cbn [res_of_option]. rewrite bind_ok, (proj2 (Z.ltb_ge _ _)), Nat2Z.id, Hk by lia. done. }
    destruct (ths !! Z.of_nat k) as [th|] eqn:Eth.
    - destruct (Hop _ _ Eth) as [Hg' [_ Hf _ Hbuf _ _]]. rewrite Hg in Hg'. injection Hg' as ->. split; [done|]. split; [by rewrite Ef2, Ef|].
      destruct Hbuf as (B1 & B2 & B3 & l & B4 & B5). do 3 (split; [done|]). exists l. rewrite Em2, Em; [done|]. by apply (Hown (Z.of_nat k)).
    - destruct (Hidle _ _ Hg Eth) as [B1 B2]. split; [done|]. by rewrite Ef2, Ef. }
  rewrite bind_ok. eexists. split; [done|]. split; [done|]. split; [done|]. split; [done|].
  assert (Hrange : forall tid th, ths !! tid = Some th -> exists k : nat, tid = Z.of_nat k /\ (k < length bufs)%nat).
  { intros tid th Hth. destruct (Hop _ _ Hth) as [Hg _]. destruct (get_buf_range _ _ _ Hg) as (bufs' & Hb' & Hr & _).
    rewrite Hb in Hb'. injection Hb' as <-. exists (Z.to_nat tid). unfold zlen in Hr. lia. }
  cbn [w_run with_run with_bufs with_core r_core]. unfold ctx_of in *. cbn [r_core with_bufs with_core with_stat].
  split; [by rewrite Ectx3, Ectx2|]. split.
  - rewrite M3, Em2, Em.
    + destruct Hdir as [_ [rest Hc]]. unfold cells in Hc.
      destruct (m_blocks (k_mem (r_core r)) !! _) as [l|]; [by exists l|]. by destruct dir.
    + done.
    + intros k th Hk Hth. by apply (Hd2 _ _ Hth).
  - intros tid th Hth. destruct (Hrange _ _ Hth) as (k & -> & Hk). destruct (Hop _ _ Hth) as [_ [_ Hf Ho _ _ _]].
    rewrite (D3 k th Hk) by done. rewrite (Ed2 th.(th_buf).(trace_fd_)), Ed, <- app_assoc; [done|by exists (Z.of_nat k), th|by rewrite Ef|].
    intros fd'. rewrite Ef. apply Ho.
Qed.

Lemma finish_ok cfg (w : world OS) s :
  w.(g_started) = true -> w.(uctx) = true -> traces cfg w.(w_run) s -> cfg.(is_on) = true ->
  (forall tid tb, get_buf w.(w_run) tid = Ok tb -> s !! tid = None -> idle w.(w_run).(r_core) tb) ->
  stat_files w.(w_run).(r_core) (fun p => exists tid, trace_path w.(w_run) tid p) ->
  exists w', finish_ufo w = Ok (false, w') /\ w'.(g_started) = false /\ w'.(uctx) = false /\ w'.(w_fns) = initial_fns /\
    w'.(w_run).(r_bufs) = None /\ w'.(w_run).(r_stat) = None /\
    forall tid t p, s !! tid = Some t -> trace_path w.(w_run) tid p -> os_sent w'.(w_run).(r_core).(k_os) p = t.
Proof.
  intros Hg Hu (ths & blks & items & Hsys & ->) Hon Hidle Hsf. unfold finish_ufo, use_uctx. rewrite Hg, Hu. cbn [negb]. rewrite bind_ok.
  destruct (destroy_ok cfg w ths blks items Hsys Hon) as (w' & -> & H1 & H2 & H3 & H4 & [l H5] & H6).
  - intros tid tb Hget Hth. apply (Hidle tid); [done|]. by rewrite lookup_fmap, Hth.
  - intros Hp. destruct (Hsf Hp) as [Hput Hd]. split; [done|]. intros dir Hdir. destruct (Hd dir Hdir) as [Hl Hq]. split; [done|].
    intros p (tid & th & Hth & ->). apply Hq. exists tid, th.(th_buf). destruct (sy_open _ _ _ _ _ Hsys _ _ Hth) as [? Hop].
    split; [done|]. by apply (op_fd _ _ _ _ _ _ _ Hop).
  - rewrite bind_ok. unfold free, block_of. rewrite H4, H5. cbn [res_of_option]. rewrite !bind_ok. eexists. split; [done|].
    cbn. do 3 (split; [done|]). do 2 (split; [done|]). intros tid t p Ht (tb & Hget & Hf).
    apply lookup_fmap_Some in Ht as (th & <- & Hth). destruct (sy_open _ _ _ _ _ Hsys _ _ Hth) as [Hget2 Hop].
    rewrite Hget in Hget2. injection Hget2 as ->. rewrite (op_fd _ _ _ _ _ _ _ Hop) in Hf. injection Hf as <-. by apply (H6 tid).
Qed.

End Destroy.

(** ** After a fork *)

Section Child.
Context {OS : Type} `{HL : OSLaws OS}.

Lemma set_buf_id (r : run OS) tid tb : get_buf r tid = Ok tb -> with_core (set_buf r tid tb) r.(r_core) = r.
Proof.
  intros Hg. destruct (get_buf_range _ _ _ Hg) as (bufs & Hb & _ & Hl). destruct r as [c bs st tm]. cbn in *. subst bs.
  unfold set_buf, with_core. cbn. by rewrite list_insert_id.
Qed.

(** A buffer without a file takes no event. *)
Lemma put_closed {E} `{Packed E} (e : E) tid tb (r : run OS) :
  get_buf r tid = Ok tb -> tb.(trace_fd_) < 0 -> put tid e r = Ok r.
Proof.
  intros Hg Hf. unfold put, on_buf, put_event. rewrite Hg, bind_ok, (proj2 (Z.ltb_lt _ _)) by done. rewrite bind_ok.
  by rewrite set_buf_id.
Qed.

Lemma child_bufs (w w' : world OS) tid tb :
  child_after_fork w = Ok w' -> (ctx_of w.(w_run)).(is_on) = true -> get_buf w.(w_run) tid = Ok tb ->
  get_buf w'.(w_run) tid = Ok (reset tb).
Proof.
  intros E Hon Hg. unfold child_after_fork in E. destruct (use_uctx w); [|done]. rewrite bind_ok in E.
  destruct (ctx_child_after_fork (w_run w)) as [r|] eqn:Er; [|done]. rewrite bind_ok in E. injection E as <-. cbn.
  destruct (get_buf_range _ _ _ Hg) as (bufs & Hb & Hr & Hl).
  unfold ctx_child_after_fork in Er. rewrite Hon in Er. cbn [negb] in Er.
  destruct (read_config _) as [c1|]; [|done]. rewrite bind_ok in Er. destruct (get_time_ms _) as [t o].
  destruct (open_trace_dir _) as [c2|]; [|done]. rewrite bind_ok in Er.
  match type of Er with (?x ≫= _) = _ => destruct x as [c3|] end; [|done]. rewrite bind_ok in Er.
  change (r_bufs (set_ctx _ _)) with (r_bufs (w_run w)) in Er. rewrite Hb in Er. cbn [res_of_option] in Er. rewrite bind_ok in Er.
  match type of Er with (?x ≫= _) = _ => destruct x as [st|] end; [|done]. rewrite bind_ok in Er. injection Er as <-.
  unfold get_buf, index. cbn [r_bufs res_of_option]. rewrite bind_ok, (proj2 (Z.ltb_ge _ _)) by lia.
  by rewrite list_lookup_fmap, Hl.
Qed.

(** Right after a fork events are dropped.  [child_after_fork] resets the
    descriptors, and [put_event] returns at once on such a buffer, so an event
    changes nothing.  A flush, which would open a new file, comes only when an
    access handler finds no room: it appends values although their events were
    dropped ([closed_buffer_takes_values]). *)
Theorem child_drops_events (w w' : world OS) tid tb :
  child_after_fork w = Ok w' -> (ctx_of w.(w_run)).(is_on) = true -> get_buf w.(w_run) tid = Ok tb ->
  (exists tb', get_buf w'.(w_run) tid = Ok tb' /\ tb'.(buf_) = tb.(buf_) /\ tb'.(size_) = 0) /\
  forall E `(Packed E) (e : E), put tid e w'.(w_run) = Ok w'.(w_run).
Proof.
  intros E Hon Hg. pose proof (child_bufs w w' tid tb E Hon Hg) as Hg'. split; [by exists (reset tb)|].
  intros T HT e. by apply (put_closed e tid (reset tb)).
Qed.

(** Values without events.  Where the buffer of a thread is kept without a
    file, as in a forked child, [ns_mem_acc] still succeeds on an access
    outside the thread's own ranges: the event is dropped, but the bytes of
    the value are appended to the buffer all the same, without anything that
    says what they are. *)
Theorem closed_buffer_takes_values tm tid pc a k wr (r : run OS) tb b bytes stat :
  get_buf r tid = Ok tb -> tb.(trace_fd_) < 0 -> buf_holds r.(r_core).(k_mem) tb b bytes ->
  r.(r_stat) = Some stat -> tid < zlen stat -> 0 <= k <= 3 -> own_address r tid a = false ->
  zlen bytes + 13 + 2 ^ k < tb.(capacity_) ->
  exists r' tb', ns_mem_acc tm tid pc a k wr r = Ok r' /\ get_buf r' tid = Ok tb' /\ tb'.(trace_fd_) = tb.(trace_fd_) /\
    buf_holds r'.(r_core).(k_mem) tb' b (bytes ++ read_mem tm a (2 ^ k)) /\ r'.(r_core).(k_os) = r.(r_core).(k_os).
Proof.
  intros Hg Hf Hbuf Hst Htid Hk Hown Hroom. destruct (get_buf_range _ _ _ Hg) as (_ & _ & [H0 _] & _).
  assert (Hstat : exists r1, MC_STAT_ACC tid k wr r = Ok r1 /\ stat_only r r1).
  { unfold MC_STAT_ACC. rewrite (proj2 (Z.leb_le _ _)), (proj2 (Z.ltb_lt _ _)) by lia. cbn [andb]. unfold MC_STAT, index. rewrite Hst.
    cbn [res_of_option]. rewrite bind_ok, (proj2 (Z.ltb_ge _ _)) by lia.
    destruct (lookup_lt_is_Some_2 stat (Z.to_nat tid)) as [x Hx]; [unfold zlen in Htid; lia|]. rewrite Hx. cbn [res_of_option].
    rewrite bind_ok. by eexists. }
  destruct Hstat as (r1 & E1 & Hso). unfold ns_mem_acc. rewrite E1, bind_ok. pose proof (stat_only_get _ _ tid Hso) as Hg1.
  rewrite Hg in Hg1. rewrite Hg1, bind_ok. unfold own_address in Hown. rewrite Hg in Hown. apply orb_false_elim in Hown as [-> ->].
  assert (Hsh : Z.shiftl 1 k = 2 ^ k) by (rewrite Z.shiftl_mul_pow2 by lia; lia). rewrite Hsh.
  pose proof Hbuf as (Hb1 & Hb2 & Hb3 & l & Hl1 & Hl2 & Hl3). unfold cap_ok in Hb3. pose proof (zlen_nonneg bytes).
  assert (0 < 2 ^ k) by (apply Z.pow_pos_nonneg; lia). destruct Hso as [Hc Hso].
  unfold on_buf at 1. rewrite Hg1, bind_ok, Hb1. change (Z.of_nat (sizeof MemAccEvent)) with 13. unfold u64.
  rewrite wrap_small, (proj2 (Z.leb_gt _ _)) by lia. rewrite bind_ok, (set_buf_id _ _ _ Hg1), bind_ok.
  rewrite (put_closed _ tid tb) by done. rewrite bind_ok. unfold append_value, on_buf. rewrite Hg1, bind_ok, Hb1. cbn [deref res_of_option].
  rewrite bind_ok. unfold padd. cbn [blk ofs]. destruct (read_mem_ok tm a (2 ^ k)) as [Hz Hok]; [lia|].
  rewrite Z.add_0_l, Hb2, Hc, (store_bytes_ok _ _ _ l) by (done || lia). rewrite !bind_ok. unfold u32. rewrite wrap_small by lia.
  do 2 eexists. split; [done|]. rewrite get_buf_with_core, (get_set_buf _ _ _ _ Hg1). split; [done|]. split; [done|]. split; [|done].
  cbn [with_core r_core with_mem k_mem].
  pose proof (store_holds r.(r_core).(k_mem) tb b bytes (read_mem tm a (2 ^ k)) l tb.(e_counter_) Hbuf Hl1 ltac:(lia)) as Hs.
  rewrite Hz in Hs. by destruct tb.
Qed.
End Child.

(** ** The beginning *)

Section Begin.
Context {OS : Type} `{HL : OSLaws OS}.

Lemma on_buf_seq tid f g (r : run OS) :
  (r ← on_buf tid f r; on_buf tid g r) = on_buf tid (fun tb c => '(tb, c) ← f tb c; g tb c) r.
Proof.
  unfold on_buf. destruct (get_buf r tid) as [tb|] eqn:Hg; [|done]. rewrite !bind_ok. destruct (f tb (r_core r)) as [[tb1 c1]|]; [|done].
  rewrite !bind_ok, get_buf_with_core, (get_set_buf _ _ _ _ Hg), bind_ok. cbn [with_core r_core].
  destruct (g tb1 c1) as [[tb2 c2]|]; [|done]. rewrite !bind_ok.
  destruct r as [c [bufs|] st tm]; [|done]. unfold set_buf, with_core. cbn. by rewrite list_insert_insert_eq.
Qed.

Lemma alloc_tasks_wf n sz m : mem_wf m -> mem_wf (alloc_tasks n sz m).2.
Proof.
  revert m. induction n as [|n IH]; intros m Hwf; [done|]. cbn [alloc_tasks]. pose proof (alloc_wf m sz Hwf) as Hw.
  destruct (alloc m sz) as [p m1]. specialize (IH m1 Hw). by destruct (alloc_tasks n sz m1).
Qed.

(** Starting the queue, if there is one. *)
Lemma started_ok (c : core OS) :
  let c' := if c.(k_ctx).(use_io_q) then start c.(k_ctx).(out_queue_legth) c else c in
  (c.(k_ctx).(use_io_q) = true -> 2 <= c.(k_ctx).(out_queue_legth)) -> cap_ok c.(k_ctx).(tl_buf_size_) ->
  c.(k_ctx).(use_compression) = false -> mem_wf c.(k_mem) ->
  c'.(k_ctx) = c.(k_ctx) /\ c'.(k_os) = c.(k_os) /\ mem_wf c'.(k_mem) /\
  (forall b, b < c.(k_mem).(m_next) -> c'.(k_mem).(m_blocks) !! b = c.(k_mem).(m_blocks) !! b) /\
  exists blks, queue_ok c' blks [] /\ Forall (fun b => c.(k_mem).(m_next) <= b) blks.
Proof.
  intros c' Hq Hcap Hc Hwf. subst c'. destruct (use_io_q (k_ctx c)) eqn:Eq.
  - specialize (Hq eq_refl). set (n := out_queue_legth (k_ctx c)) in *. pose proof (start_ok c n ltac:(lia) Hcap Hc) as Hrep.
    unfold start, get_buf_size in *. cbv zeta in *. cbn [with_mem k_ctx] in *. rewrite Hc in *.
    destruct (alloc_tasks_ok (Z.to_nat n) (tl_buf_size_ (k_ctx c)) (k_mem c) ltac:(unfold cap_ok in Hcap; lia)) as (ts & m' & E & _ & _ & _ & _ & Hf).
    pose proof (alloc_tasks_wf (Z.to_nat n) (tl_buf_size_ (k_ctx c)) (k_mem c) Hwf) as Hw. rewrite E in *. cbn [k_ctx] in *. rewrite ?Hc in *.
    split; [done|]. split; [done|]. split; [done|]. split; [done|]. exists (seqZ (k_mem c).(m_next) n). split.
    + split; [done|]. cbn [with_queue k_ctx with_mem]. rewrite Eq. split; [done|]. split; [done|]. by eexists.
    + apply Forall_forall. intros b Hb%elem_of_seqZ. lia.
  - do 3 (split; [done|]). split; [done|]. exists []. split; [|done]. split; [done|]. by rewrite Eq.
Qed.

Lemma open_trace_dir_new (c : core OS) dir :
  is_cstr dir (cells c.(k_mem) c.(k_ctx).(trace_dir)) -> os_isdir c.(k_os) dir = false -> (os_mkdir c.(k_os) dir).1 = 0 ->
  open_trace_dir c = Ok (with_os c (os_mkdir c.(k_os) dir).2).
Proof.
  intros Hdir Hi Hm. unfold open_trace_dir. rewrite (cstring_ok dir) by done. rewrite bind_ok, Hi. cbn [negb].
  destruct (os_mkdir _ _) as [ret o]. cbn in Hm. by subst ret.
Qed.

(** A state in which no thread has been opened. *)
Lemma traces_none (r : run OS) bufs stat dir blks :
  r.(r_bufs) = Some bufs -> zlen bufs = MAX_THREAD -> r.(r_stat) = Some stat -> zlen stat = MAX_THREAD ->
  queue_ok r.(r_core) blks [] -> mem_wf r.(r_core).(k_mem) ->
  is_cstr dir (cells r.(r_core).(k_mem) (ctx_of r).(trace_dir)) -> zlen dir < 2 ^ 30 -> blk (ctx_of r).(trace_dir) ∉ blks ->
  traces (set_e_count (ctx_of r) 0) r ∅.
Proof.
  intros Hb Hbl Hs Hsl Hq Hwf Hdir Hl Hblk. exists ∅, blks, []. split; [|by rewrite fmap_empty].
  split; try done; [by exists bufs|by exists stat|by exists dir].
Qed.

(** The buffer and the file of the main thread. *)
Lemma main_opens cfg (r : run OS) tb dir :
  traces cfg r ∅ -> get_buf r 0 = Ok tb -> tb.(buf_) = None -> is_file_open tb r.(r_core) = false ->
  cap_ok r.(r_core).(k_ctx).(tl_buf_size_) -> is_cstr dir (cells r.(r_core).(k_mem) (ctx_of r).(trace_dir)) ->
  openable r.(r_core) (trace_name dir 0) -> os_sent r.(r_core).(k_os) (trace_name dir 0) = [] ->
  exists r', (r ← on_buf 0 (fun buf c => Ok (open_buf buf c)) r; on_buf 0 (open_file 0) r) = Ok r' /\
    traces cfg r' {[0 := encode (trace_header r.(r_core) 0)]}.
Proof.
  intros Hr Hg Hn Hcl Hcap Hdir Hop Hd.
  destruct (kid_opens cfg r ∅ 0 Hr) as (r' & E & Hr' & _); [done|done|by exists tb; eauto|done| |].
  - intros dir' Hdir'. assert (dir' = dir) as ->; [|done]. apply cstring_ok in Hdir, Hdir'. unfold ctx_of in Hdir. congruence.
  - exists r'. split; [|exact Hr']. rewrite <- E, on_buf_seq. unfold on_buf. rewrite Hg, !bind_ok. unfold kid_method. rewrite Hn. cbn [andb].
    rewrite !bind_ok. destruct (open_buf tb (r_core r)) as [tb1 c1] eqn:Eo.
    assert (is_file_open tb1 c1 = false) as ->; [|done].
    unfold open_buf in Eo. destruct (alloc _ _). by injection Eo as <- <-.
Qed.

(** The state [init_start] opens the main thread in. *)
Lemma prepared_ok (c : core OS) b l raws stat term bufsz use_q qsz :
  c.(k_ctx).(trace_dir) = Ptr b 0 -> c.(k_mem).(m_blocks) !! b = Some l -> zlen l = DIR_MAX_LEN ->
  mem_wf c.(k_mem) -> 0 <= c.(k_ctx).(cur_pid_) < 2 ^ 32 -> c.(k_ctx).(is_on) = true ->
  get_int_opt c.(k_os) ENV_TL_BUF_SIZE DEFAULT_BUF_PRE_THR = Ok bufsz -> 0 < bufsz < 4096 ->
  get_int_opt c.(k_os) ENV_USE_IO_Q ASYNC_IO_ON = Ok use_q ->
  get_int_opt c.(k_os) ENV_IO_Q_SIZE DEFAULT_IO_Q_SIZE = Ok qsz -> (use_q <> 0 -> 2 <= qsz < 1024) ->
  get_int_opt c.(k_os) ENV_USE_COMPRESS COMPRESS_ON = Ok 0 -> zlen raws = MAX_THREAD -> zlen stat = MAX_THREAD ->
  let '(t, o) := get_time_ms c.(k_os) in
  let dir := dir_name (os_getenv c.(k_os) ENV_TRACE_DIR) c.(k_ctx).(cur_pid_) in
  os_isdir o dir = false -> (os_mkdir o dir).1 = 0 ->
  exists c1 c2, read_config c = Ok c1 /\ c1.(k_os) = c.(k_os) /\ c1.(k_ctx).(is_on) = true /\
    (let c2 := with_ctx (with_os c1 o) (set_time_started c1.(k_ctx) t) in
     open_trace_dir (if c2.(k_ctx).(use_io_q) then start c2.(k_ctx).(out_queue_legth) c2 else c2)) = Ok c2 /\
    c2.(k_os) = (os_mkdir o dir).2 /\ is_cstr dir (cells c2.(k_mem) c2.(k_ctx).(trace_dir)) /\ cap_ok c2.(k_ctx).(tl_buf_size_) /\
    c2.(k_ctx).(time_started) = t /\ c2.(k_ctx).(use_compression) = false /\
    traces (set_e_count c2.(k_ctx) 0) (Run c2 (Some (TLBuffer.init <$> raws)) (Some stat) term) ∅.
Proof.
  intros Hdir Hb Hl Hwf Hpid Hon E1 H1 E2 E3 H3 E4 Hraws Hstat. destruct (get_time_ms (k_os c)) as [t o]. intros dir Hi Hmk.
  destruct (read_config_total c b l) as (v1 & v2 & v3 & F1 & F2 & F3 & Hr); [done..|].
  rewrite E1 in F1. rewrite E2 in F2. rewrite E3 in F3. injection F1 as <-. injection F2 as <-. injection F3 as <-.
  rewrite bool_decide_true in Hr by (split; [done|]; intros Hu; specialize (H3 Hu); lia).
  destruct Hr as (c1 & Er & [[_ Hcap] [Hu Hq] _ [Htd Hm] (Eo & Equ & Eon & _) Hplain]). specialize (Hplain 0 E4). cbn in Hplain.
  destruct (dir_name_ok c.(k_os) _ Hpid) as [Hz Hcs]. fold dir in Hz, Hcs, Hm.
  set (c1' := with_ctx (with_os c1 o) (set_time_started (k_ctx c1) t)).
  assert (Hbn : b < m_next (k_mem c)) by (by apply (Hwf b l)).
  destruct (started_ok c1') as (Ectx & Eos & Hwf2 & Hsame & blks & Hqok & Hblks).
  { cbn. intros Ht. destruct (Hq Ht) as [-> _]. rewrite Ht in Hu. symmetry in Hu. apply negb_true_iff, Z.eqb_neq in Hu. by apply H3 in Hu as [? _]. }
  { exact Hcap. }
  { exact Hplain. }
  { cbn. rewrite Hm. intros b' l'. cbn. destruct (decide (b' = b)) as [->|Hn]; [lia|]. rewrite lookup_insert_ne by done. intros Hb'. specialize (Hwf b' l' Hb'). lia. }
  set (c2 := if use_io_q (k_ctx c1') then _ else c1') in *.
  assert (Hcell : is_cstr dir (cells (k_mem c2) (trace_dir (k_ctx c2)))).
  { rewrite Ectx. change (trace_dir (k_ctx c1')) with (trace_dir (k_ctx c1)). rewrite Htd.
    assert (Hbl : m_blocks (k_mem c2) !! b = Some (padded DIR_MAX_LEN dir)).
    { rewrite Hsame; cbn; rewrite Hm; cbn; [apply lookup_insert_eq|lia]. }
    rewrite (cells_block _ _ _ _ Hbl) by lia. done. }
  exists c1, (with_os c2 (os_mkdir o dir).2). split; [done|]. split; [done|]. split; [congruence|]. cbv zeta. fold c1'. fold c2.
  split; [rewrite (open_trace_dir_new c2 dir Hcell); rewrite Eos; done|]. cbn [with_os k_os k_mem k_ctx]. rewrite Ectx in *.
  do 5 (split; [done|]). rewrite <- Ectx.
  eapply (traces_none (Run (with_os c2 (os_mkdir o dir).2) _ _ _) _ _ dir blks); try done.
  - unfold zlen in *. by rewrite length_fmap.
  - destruct Hqok as [Hp Hqq]. split; [done|]. cbn [r_core with_os k_ctx k_os]. destruct (use_io_q (k_ctx c2)); [|done].
    destruct Hqq as (? & _ & ?). split; [done|]. split; [apply Forall_nil_2|done].
  - unfold ctx_of. cbn [r_core with_os k_mem k_ctx]. by rewrite Ectx.
  - lia.
  - cbn. rewrite Ectx. cbn. rewrite Htd. intros Hin. rewrite Forall_forall in Hblks. specialize (Hblks _ Hin). cbn in Hblks. rewrite Hm in Hblks. cbn in Hblks. lia.
Qed.

(** An environment that switches tracing on, with options in their ranges and
    without compression. *)
Record traceable (o : OS) (bufsz use_q qsz : Z) : Prop := {
  en_on : exists v, get_int_opt o ENV_UFO_ON 0 = Ok v /\ v <> 0;
  en_buf : get_int_opt o ENV_TL_BUF_SIZE DEFAULT_BUF_PRE_THR = Ok bufsz /\ 0 < bufsz < 4096;
  en_queue : get_int_opt o ENV_USE_IO_Q ASYNC_IO_ON = Ok use_q /\
    get_int_opt o ENV_IO_Q_SIZE DEFAULT_IO_Q_SIZE = Ok qsz /\ (use_q <> 0 -> 2 <= qsz < 1024);
  en_plain : get_int_opt o ENV_USE_COMPRESS COMPRESS_ON = Ok 0 }.

Definition init_ctx (u : UFOContext) (o : OS) : UFOContext :=
  set_is_on (set_e_count (set_mudule_length_ (set_process u (u32 (os_getpid o)) (u32 (os_getppid o)) false) 0) 0) true.

Lemma init_start_step raws (r : run OS) c1 c2 t o von :
  get_int_opt r.(r_core).(k_os) ENV_UFO_ON 0 = Ok von -> von <> 0 ->
  read_config (with_ctx r.(r_core) (init_ctx (ctx_of r) r.(r_core).(k_os))) = Ok c1 -> c1.(k_ctx).(is_on) = true ->
  get_time_ms c1.(k_os) = (t, o) ->
  (let c2 := with_ctx (with_os c1 o) (set_time_started c1.(k_ctx) t) in
   open_trace_dir (if c2.(k_ctx).(use_io_q) then start c2.(k_ctx).(out_queue_legth) c2 else c2)) = Ok c2 ->
  init_start raws r =
    (r ← (r ← on_buf 0 (fun buf c => Ok (open_buf buf c))
              (Run c2 (Some (TLBuffer.init <$> raws)) (Some (replicate (Z.to_nat MAX_THREAD) stat_init)) r.(r_term));
          on_buf 0 (open_file 0) r);
     let '(stk_addr, stk_size, tls_addr, tls_size) := os_GetThreadStackAndTls r.(r_core).(k_os) false in
     put 0 (main_begin stk_addr stk_size tls_addr tls_size) r).
Proof.
  intros Eon Hon Er Eon1 Et Eot. unfold init_start. rewrite Eon, bind_ok, (proj2 (Z.eqb_neq von 0)) by done. cbn [negb].
  unfold ctx_of, set_ctx, with_stat, with_bufs, with_core, init_ctx in *. cbn [r_core r_bufs r_stat r_term] in *.
  rewrite Er, bind_ok, Eon1. cbn [negb r_core r_bufs r_stat r_term]. rewrite Et. cbv zeta in Eot. cbn [with_os k_ctx with_ctx r_core] in *.
  change (use_io_q (set_time_started (k_ctx c1) t)) with (use_io_q (k_ctx c1)) in *.
  destruct (use_io_q (k_ctx c1)); cbn [r_core r_bufs r_stat r_term]; rewrite Eot, bind_ok;
    (destruct (on_buf 0 _ _) as [r1|]; [|done]); by rewrite !bind_ok.
Qed.

Lemma init_opens raw raws (w : world OS) bufsz use_q qsz :
  let o := w.(w_run).(r_core).(k_os) in
  let '(t, o1) := get_time_ms o in
  let dir := dir_name (os_getenv o ENV_TRACE_DIR) (u32 (os_getpid o)) in
  let o2 := (os_mkdir o1 dir).2 in
  w.(g_started) = false -> zlen raws = MAX_THREAD -> mem_wf w.(w_run).(r_core).(k_mem) -> traceable o bufsz use_q qsz ->
  os_isdir o1 dir = false -> (os_mkdir o1 dir).1 = 0 -> 0 <= (os_open o2 (trace_name dir 0)).1 ->
  (forall fd, os_file o fd <> Some (trace_name dir 0)) -> os_sent o (trace_name dir 0) = [] ->
  exists w' cfg a n b m, init_ufo raw raws w = Ok (true, w') /\ w'.(g_started) = true /\ w'.(uctx) = true /\
    traces cfg w'.(w_run) {[0 := encode (new_UFOHeader 0 t 0) ++ encode (main_begin a n b m)]}.
Proof.
  intros o. destruct (get_time_ms o) as [t o1] eqn:Et. intros dir o2 Hg Hraws Hwf [(von & Eon & Hon) [E1 H1] (E2 & E3 & H3) E4] Hi Hmk Hop Hno Hd.
  unfold init_ufo. rewrite Hg. destruct (alloc (k_mem (r_core (w_run w))) DIR_MAX_LEN) as [pd m] eqn:Ea.
  pose proof (alloc_wf _ DIR_MAX_LEN Hwf) as Hwfm. rewrite Ea in Hwfm. cbn [snd] in Hwfm. unfold alloc in Ea. injection Ea as <- <-.
  set (m := Mem _ _) in *. set (nb := m_next (k_mem (r_core (w_run w)))) in *.
  set (r := with_core (w_run w) _). set (c := with_ctx r.(r_core) (init_ctx (ctx_of r) o)).
  pose proof (prepared_ok c nb (replicate (Z.to_nat DIR_MAX_LEN) None) raws (replicate (Z.to_nat MAX_THREAD) stat_init) r.(r_term) bufsz use_q qsz) as Hp.
  change (k_os c) with o in Hp. rewrite Et in Hp. change (cur_pid_ (k_ctx c)) with (u32 (os_getpid o)) in Hp. cbv zeta in Hp. fold dir in Hp.
  destruct Hp as (c1 & c2 & Er & Eo1 & Eon1 & Eot & Eo2 & Hdir & Hcap & Ets & Ecmp & Htr); try done.
  { apply lookup_insert_eq. }
  { apply wrap_range. lia. }
  rewrite <- Eo1 in Et. rewrite (init_start_step raws r c1 c2 t o1 von Eon Hon Er Eon1 Et Eot).
  set (r2 := Run c2 _ _ _) in *. destruct raws as [|raw0 raws]; [done|].
  assert (Hfile : forall fd, os_file o2 fd = os_file o fd).
  { intros fd. subst o2. rewrite (proj1 (mkdir_law _ _)). rewrite Eo1 in Et. unfold get_time_ms in Et.
    pose proof (proj1 (time_law o) fd) as Ht. destruct (os_gettimeofday o) as [[? ?] ?]. injection Et as <- <-. exact Ht. }
  assert (Hdata : forall q, os_sent o2 q = os_sent o q).
  { intros q. subst o2. rewrite (proj2 (mkdir_law _ _)). rewrite Eo1 in Et. unfold get_time_ms in Et.
    pose proof (proj2 (time_law o) q) as Ht. destruct (os_gettimeofday o) as [[? ?] ?]. injection Et as <- <-. exact Ht. }
  destruct (main_opens _ r2 (TLBuffer.init raw0) dir Htr) as (r3 & E & Hr3); try done.
  { split; cbn [r2 r_core]; rewrite Eo2; [intros fd; by rewrite Hfile|exact Hop]. }
  { cbn [r2 r_core]. by rewrite Eo2, Hdata. }
  rewrite E, bind_ok. destruct (os_GetThreadStackAndTls _ _) as [[[sa sn] ta] tn].
  assert (Hc : copyable (sizeof ThreadBeginEvent) = true) by done.
  destruct (traces_put _ (main_begin sa sn ta tn) r3 _ 0 _ Hr3 (lookup_singleton_eq _ _) Hc) as (r4 & E4' & Hr4 & _).
  rewrite E4', bind_ok. rewrite insert_singleton_eq in Hr4. unfold trace_header in Hr4. cbn [r2 r_core] in Hr4. rewrite Ets, Ecmp in Hr4.
  do 6 eexists. split; [done|]. split; [done|]. split; [done|]. exact Hr4.
Qed.

(** A process begins its trace.  Where the environment switches tracing on,
    with options in their ranges and without compression, the directory named
    by the environment and the process id can be made, and the file of the main
    thread can be opened and is new, [init_ufo] succeeds whatever the memory of
    the context and of the buffers holds: the runtime is started, and exactly
    the main thread is open, its trace the header with the time of the start
    and the begin event. *)
Theorem init_opens_main raw raws (w : world OS) bufsz use_q qsz :
  let o := w.(w_run).(r_core).(k_os) in
  let o1 := (get_time_ms o).2 in
  let dir := dir_name (os_getenv o ENV_TRACE_DIR) (u32 (os_getpid o)) in
  let o2 := (os_mkdir o1 dir).2 in
  w.(g_started) = false -> zlen raws = MAX_THREAD -> mem_wf w.(w_run).(r_core).(k_mem) -> traceable o bufsz use_q qsz ->
  os_isdir o1 dir = false -> (os_mkdir o1 dir).1 = 0 -> 0 <= (os_open o2 (trace_name dir 0)).1 ->
  (forall fd, os_file o fd <> Some (trace_name dir 0)) -> os_sent o (trace_name dir 0) = [] ->
  exists w' cfg a n b m, init_ufo raw raws w = Ok (true, w') /\ w'.(g_started) = true /\ w'.(uctx) = true /\
    traces cfg w'.(w_run) {[0 := encode (new_UFOHeader 0 (get_time_ms o).1 0) ++ encode (main_begin a n b m)]}.
Proof. pose proof (init_opens raw raws w bufsz use_q qsz) as Hi. cbv zeta in *. destruct (get_time_ms _) as [t o1]. exact Hi. Qed.
End Begin.

(** ** A small process *)

Definition demo_world : world sim := World demo_run initial_fns true true.

Lemma dispatch_table_witness :
  (forall tid k, dispatch (fun _ => 0) tid k demo_world = Ok demo_world) /\
  exists set_no_stack set_no_value w', set_no_stack = 1 /\ set_no_value = 0 /\ start_trace demo_world = Ok w' /\
    (forall w2 tid k, w2.(w_fns) = w'.(w_fns) -> dispatch (fun _ => 0) tid k w2 =
      if traced demo_cfg k then lift w2 (perform (fun _ => 0) tid (in_mode true false k) w2.(w_run)) else Ok w2).
Proof.
  destruct (dispatch_table (fun _ => 0) demo_world) as [H1 (v1 & v2 & w' & E1 & E2 & E3 & H2 & _)]; [reflexivity..|].
  vm_compute in E1, E2. injection E1 as <-. injection E2 as <-. split; [exact H1|]. exists 1, 0, w'.
  do 3 (split; [done|]). exact H2.
Defined.

Lemma tail_free {A} (x y z : A) n i l : Some (x :: replicate n y) = Some l -> l !! i = Some z -> i <> 0%nat -> z = y.
Proof. intros [= <-] Hl Hi. destruct i; [done|]. cbn in Hl. by apply lookup_replicate in Hl as [-> _]. Qed.

Lemma demo_idle tid tb : get_buf demo_run tid = Ok tb -> tid <> 0 -> tb = demo_free.
Proof.
  intros Hg Hne. destruct (get_buf_range _ _ _ Hg) as (bufs & Hb & [H0 _] & Hl).
  apply (tail_free _ _ _ _ _ _ Hb Hl). lia.
Qed.

Lemma demo_finished : exists a, finish_ufo demo_world = Ok a /\ os_short (k_os (r_core (w_run a.2))) = false.
Proof. apply ok_facts. vm_compute. reflexivity. Qed.


(** The environment of a process that traces without the queue. *)
Definition demo_options : gmap chars chars :=
  <[ENV_UFO_ON := str "1"]> (<[ENV_TL_BUF_SIZE := str "1"]> {[ENV_USE_IO_Q := str "0"]}).

Definition demo_forked : world sim :=
  World (with_core demo_run (with_os demo_run.(r_core)
    (Sim {[3 := str "d/0"]} {[str "d/0" := [(encode demo_header, zlen (encode demo_header))]]} ∅ demo_options (1, 0) 2 (0, 0, 0, 0) [] ∅ 1000))) initial_fns false true.

Lemma demo_child : exists w', child_after_fork demo_forked = Ok w' /\ g_started w' = true.
Proof. apply ok_facts. vm_compute. reflexivity. Qed.

Lemma child_drops_events_witness :
  exists w', child_after_fork demo_forked = Ok w' /\ put 0 (new_LockEvent 4160 9) w'.(w_run) = Ok w'.(w_run).
Proof.
  destruct demo_child as (w' & E & _). exists w'. split; [exact E|].
  apply (proj2 (child_drops_events demo_forked w' 0 demo_first E eq_refl eq_refl)).
Defined.

Definition demo_closed : run sim :=
  Run demo_run.(r_core) (Some [mkTLBuffer (Some (Ptr 1 0)) 0 64 (-1) 7 16 2000 16 1000 0]) (Some [stat_init]) [].

Lemma closed_buffer_takes_values_witness :
  exists r' tb', ns_mem_acc (fun a => a) 0 9 4097 1 true demo_closed = Ok r' /\ get_buf r' 0 = Ok tb' /\
    buf_holds r'.(r_core).(k_mem) tb' 1 [1; 2].
Proof.
  destruct (closed_buffer_takes_values (fun a => a) 0 9 4097 1 true demo_closed (mkTLBuffer (Some (Ptr 1 0)) 0 64 (-1) 7 16 2000 16 1000 0)
    1 [] [stat_init]) as (r' & tb' & E & Hg & _ & Hb & _); try reflexivity; try lia.
  - split; [done|]. split; [done|]. split; [unfold cap_ok; cbn; lia|]. by exists (replicate 64 None).
  - exists r', tb'. split; [exact E|]. split; [exact Hg|exact Hb].
Defined.

(** A process that has not started. *)
Definition demo_fresh : world sim :=
  World (Run (Core mem_empty (Sim ∅ ∅ ∅ demo_options (1, 0) 2 (0, 0, 0, 0) [] ∅ 1000) demo_cfg None None 0 0) None None []) initial_fns false false.

Lemma init_opens_main_witness :
  exists w' cfg a n b m, init_ufo demo_cfg (replicate (Z.to_nat MAX_THREAD) demo_first) demo_fresh = Ok (true, w') /\
    traces cfg w'.(w_run) {[0 := encode (new_UFOHeader 0 1000 0) ++ encode (main_begin a n b m)]}.
Proof.
  destruct (init_opens_main demo_cfg (replicate (Z.to_nat MAX_THREAD) demo_first) demo_fresh 1 0 4)
    as (w' & cfg & a & n & b & m & E & _ & _ & Hr); try reflexivity.
  - intros b l Hb. change (m_blocks _) with (∅ : gmap Z (list cell)) in Hb. by rewrite lookup_empty in Hb.
  - split; [by exists 1; vm_compute|by split; [vm_compute|]|split; [by vm_compute|]; split; [by vm_compute|done]|by vm_compute].
  - vm_compute. discriminate.
  - intros fd. cbn [demo_fresh w_run r_core k_os os_file sim_laws]. unfold sim_file. by destruct (fd <? 0).
  - exists w', cfg, a, n, b, m. split; [exact E|exact Hr].
Defined.
