(* ===== verification/Session.v ===== *)
(** * A traced session

    The calls of the traced program through the interface, from
    [UFOContext::start_trace] to [finish_ufo], composed with the predictor's
    loader: what [Runtime], [System] and [Reader] show of the parts, joined for
    a whole session, with or without the output queue. *)
From Stdlib Require Import ZArith Lia String.
From stdpp Require Import base numbers list gmap.
From S2P Require Import Prelude Events Reader Memory LibC Printf Stat State HeapSort IOQueue TLBuffer Context Handlers System Runtime.

Local Open Scope Z_scope.

(** ** What a call leaves alone *)

Section Leaves.
Context {OS : Type} `{HL : OSLaws OS} (tid : Z) (Htid : 0 <= tid).

(** The buffers of the other threads are the same. *)
Definition others (r r' : run OS) : Prop := forall tid', 0 <= tid' -> tid' <> tid -> get_buf r' tid' = get_buf r tid'.

Definition leaves (r : run OS) (x : res (run OS)) : Prop := match x with Ok r' => others r r' | Err _ => True end.

Lemma leaves_ok r r' : others r r' -> leaves r (Ok r').
Proof. done. Qed.

Lemma leaves_err r e : leaves r (Err e).
Proof. done. Qed.

Lemma leaves_bind r (x : res (run OS)) f :
  leaves r x -> (forall r1, others r r1 -> leaves r (f r1)) -> leaves r (x ≫= f).
Proof. destruct x as [r1|]; [|done]. rewrite bind_ok. intros Hr Hf. by apply Hf. Qed.

Lemma leaves_read {A} r (x : res A) (f : A -> res (run OS)) : (forall a, leaves r (f a)) -> leaves r (x ≫= f).
Proof. destruct x as [a|]; [|done]. by rewrite bind_ok. Qed.

Lemma others_refl r : others r r.
Proof. done. Qed.

Lemma others_core r r1 c : others r r1 -> others r (with_core r1 c).
Proof. done. Qed.

Lemma others_stat r r1 st : others r r1 -> others r (with_stat r1 st).
Proof. done. Qed.

Lemma others_buf r r1 tb : others r r1 -> others r (set_buf r1 tid tb).
Proof using Htid. intros Hr tid' H0 Hne. rewrite get_set_buf_ne by congruence. by apply Hr. Qed.

Lemma leaves_on_buf r r1 f : others r r1 -> leaves r (on_buf tid f r1).
Proof using Htid.
  intros Hr. unfold on_buf. apply leaves_read. intros tb. destruct (f tb (r_core r1)) as [[tb' c']|]; [|done]. rewrite bind_ok.
  by apply leaves_ok, others_core, others_buf.
Qed.

Lemma leaves_put {E} `{Packed E} (e : E) r r1 : others r r1 -> leaves r (put tid e r1).
Proof using Htid. apply leaves_on_buf. Qed.

Lemma leaves_MC_STAT r r1 f d : others r r1 -> leaves r (MC_STAT tid f d r1).
Proof. intros Hr. unfold MC_STAT. apply leaves_read. intros s. by apply leaves_ok, others_stat. Qed.
End Leaves.

Create HintDb leaves.
#[export] Hint Resolve others_refl others_core others_stat others_buf leaves_on_buf leaves_put leaves_MC_STAT leaves_ok leaves_err : leaves.

Ltac leave :=
  first
    [ solve [eauto with leaves]
    | match goal with
      | |- leaves _ _ (_ ≫= _) => first [apply leaves_bind; [|intros ? ?]; leave | apply leaves_read; intros ?; leave]
      | |- leaves _ _ (if ?b then _ else _) => destruct b; leave
      | |- leaves _ _ (let '(_, _) := (let '(_, _) := ?x in _) in _) => destruct x; leave
      end ].

Section Session.
Context {OS : Type} `{HL : OSLaws OS}.

Lemma perform_leaves tm tid k (r : run OS) : 0 <= tid -> leaves tid r (perform tm tid k r).
Proof.
  intros H0. destruct k as [| | | | | | | | | | | | | | |ns nv|ns]; cbn [perform]; try destruct ns; try destruct nv;
    unfold impl_mtx_lock, impl_mtx_unlock, impl_rd_lock, impl_rd_unlock, impl_rw_unlock, impl_cond_wait, impl_cond_signal,
      impl_cond_broadcast, impl_dealloc, impl_thread_join, impl_enter_func, impl_exit_func, impl_ptr_prop, impl_ptr_deref,
      impl_mem_acc, impl_mem_acc_nv, ns_mem_acc, ns_mem_acc_nv, impl_mem_range_acc, ns_mem_range_acc, MC_STAT_ACC, MC_STAT_RANGE,
      _reset_read, append_value, elapsed, next_idx; try leave.
  unfold impl_alloc. pose proof (leaves_MC_STAT tid r r c_alloc 1 (others_refl _ _)) as H1.
  destruct (MC_STAT tid c_alloc 1 r) as [r1|]; [|done]. rewrite bind_ok.
  pose proof (leaves_put tid H0 (new_AllocEvent addr_left pc (u32 size)) r r1 H1) as H2.
  destruct (put tid _ r1) as [r2|]; [|done]. by rewrite !bind_ok.
Qed.

Lemma perform_all_others tm ks (r r' : run OS) tid :
  Forall (fun x => 0 <= x.1 /\ x.1 <> tid) ks -> 0 <= tid -> perform_all tm ks r = Ok r' -> get_buf r' tid = get_buf r tid.
Proof.
  revert r. induction ks as [|[tid' k] ks IH]; intros r Hks H0; cbn [perform_all]; [by intros [= ->]|].
  apply Forall_cons in Hks as [[Ht Hne] Hks]. pose proof (perform_leaves tm tid' k r Ht) as Hl.
  destruct (perform tm tid' k r) as [r1|]; [|done]. rewrite bind_ok. intros E. rewrite (IH r1 Hks H0 E). by apply Hl.
Qed.

(** What is recorded does not depend on the mode. *)
Lemma traces_recording cfg (r : run OS) s ns nv :
  traces cfg r s -> traces (set_recording cfg ns nv) (set_ctx r (set_recording (ctx_of r) ns nv)) s.
Proof.
  intros (ths & blks & items & [H1 H2 H3 H4 H5 H6 H7 H8 H9] & ->). exists ths, blks, items. split; [|done].
  split; try done.
  - intros tid th Hth. destruct (H3 tid th Hth) as [Hg [O1 O2 O3 O4 O5 O6]]. split; [done|]. split; try done.
  - by rewrite <- H5.
Qed.

Fixpoint dispatch_all (tm : Z -> Z) (ks : list (Z * call)) (w : world OS) : res (world OS) :=
  match ks with
  | [] => Ok w
  | (tid, k) :: ks => w ← dispatch tm tid k w; dispatch_all tm ks w
  end.

(** The calls that reach a handler, in the mode of the session. *)
Definition effective (u : UFOContext) (ns nv : bool) (ks : list (Z * call)) : list (Z * call) :=
  omap (fun x => if traced u x.2 then Some (x.1, in_mode ns nv x.2) else None) ks.

Lemma dispatch_all_eq u ns nv tm ks (w : world OS) :
  (forall w2, w2.(w_fns) = w.(w_fns) -> forall tm tid k, dispatch tm tid k w2 =
     if traced u k then lift w2 (perform tm tid (in_mode ns nv k) w2.(w_run)) else Ok w2) ->
  dispatch_all tm ks w = lift w (perform_all tm (effective u ns nv ks) w.(w_run)).
Proof.
  revert w. induction ks as [|[tid k] ks IH]; intros w Hd; [symmetry; apply lift_nop|]. cbn [dispatch_all].
  rewrite (Hd w eq_refl). unfold effective. cbn [omap list_omap fst snd]. destruct (traced u k).
  - cbn [perform_all]. unfold lift. destruct (perform tm tid _ _) as [r1|]; [|done]. rewrite !bind_ok.
    rewrite (IH (with_run w r1) Hd). done.
  - rewrite bind_ok. by apply IH.
Qed.

Lemma effective_open u ns nv ks (P : Z -> Prop) :
  Forall (fun x => P x.1) ks -> Forall (fun x => P x.1) (effective u ns nv ks).
Proof.
  intros Hks. unfold effective. induction Hks as [|[tid k] ks Hx Hks IH]; [done|]. cbn [omap list_omap snd fst].
  destruct (traced u k); [by constructor|done].
Qed.

Lemma start_trace_flags (w w1 : world OS) : start_trace w = Ok w1 -> w1.(g_started) = w.(g_started) /\ w1.(uctx) = w.(uctx).
Proof.
  unfold start_trace. destruct (negb _); [by intros [= ->]|]. destruct (trace_func_call _); destruct (get_int_opt _ ENV_NO_STACK_ACC _) as [v1|];
    try done; rewrite bind_ok; (destruct (get_int_opt _ ENV_NO_VALUE _) as [v2|]; [|done]); rewrite bind_ok; destruct (v1 =? 0); by intros [= <-].
Qed.

End Session.

Definition demo_session : list (Z * call) :=
  [(0, CEnter 7); (0, CRdLock 8 4160); (0, CAcc false true 9 4096 2 true); (0, CPtrDeref 9 4096); (0, CLock 10 4160);
   (0, CAcc false false 11 1008 3 true); (0, CExit)].

(** The session as a computation: the writes are complete. *)
Lemma demo_session_complete : exists a, (w1 ← start_trace demo_world; w2 ← dispatch_all (fun a => a) demo_session w1; finish_ufo w2) = Ok a /\
  os_short (k_os (r_core (w_run a.2))) = false.
Proof. apply ok_facts. vm_compute. reflexivity. Qed.

