(* ===== verification/BitVector.v ===== *)
(** * The interface of the bit vectors

    The templates of [src/ufo-rt/lib/sanitizer_common] take a bit vector class
    as a parameter ([BVGraph<BV>], [DeadlockDetector<BV>]).  [BVOps] has the
    members they use and [BVLaws] what the members promise, in terms of the
    set of bits a vector stands for.  BasicBitVector.v and TwoLevelBitVector.v
    have the two classes of [sanitizer_bitvector.h] and discharge the laws;
    BVGraph.v and the deadlock detector are proved against the laws. *)
From stdpp Require Import base numbers list.
From Stdlib Require Import ZArith Lia.
From S2P Require Import Prelude.

Local Open Scope Z_scope.

Class BVOps (B : Type) : Type := {
  bv_kSize : Z;
  bv_clear : B -> B;
  bv_setAll : B -> B;
  bv_empty : B -> bool;
  bv_setBit : B -> Z -> res (bool * B);
  bv_clearBit : B -> Z -> res (bool * B);
  bv_getBit : B -> Z -> res bool;
  bv_getAndClearFirstOne : B -> res (Z * B);
  bv_setUnion : B -> B -> res (bool * B);
  bv_setIntersection : B -> B -> res (bool * B);
  bv_setDifference : B -> B -> res (bool * B);
  bv_copyFrom : B -> B -> res B;
  bv_intersectsWith : B -> B -> res bool;
  bv_Iterator : Type;
  bv_iterator : B -> bv_Iterator;
  bv_hasNext : bv_Iterator -> bool;
  bv_next : bv_Iterator -> res (Z * bv_Iterator);
}.
Arguments bv_kSize B {_}.
Arguments bv_Iterator B {_}.
#[global] Hint Mode BVOps ! : typeclass_instances.

(** [while (!t.empty()) { uptr i = t.getAndClearFirstOne(); ... }] *)
Fixpoint bv_drain {B S} `{BVOps B} (fuel : nat) (body : Z -> S -> res S) (t : B) (s : S) : res (B * S) :=
  match fuel with
  | O => Err EHang
  | Datatypes.S fuel =>
      if bv_empty t then Ok (t, s)
      else
        '(i, t) ← bv_getAndClearFirstOne t;
        s ← body i s;
        bv_drain fuel body t s
  end.

(** More than a vector has bits: the loop takes one bit out in each round. *)
Definition bv_fuel (B : Type) `{BVOps B} : nat := S (Z.to_nat (bv_kSize B)).

(** A binary operation [this op= v], with the flag that says whether [this]
    has changed. *)
Definition bv_assigns {B} (wf : B -> Prop) (bit : B -> Z -> bool) (op : B -> B -> res (bool * B)) (f : bool -> bool -> bool) : Prop :=
  forall v u, wf v -> wf u ->
    exists changed v', op v u = Ok (changed, v') /\ wf v' /\
      (forall i, bit v' i = f (bit v i) (bit u i)) /\
      (changed = true <-> exists i, bit v' i <> bit v i).

(** [bit v] is the set a vector stands for.  [bv_shape] holds of a vector whose
    storage has the right size, with any contents: the classes have no
    constructors, and [clear] and [setAll] make a usable vector of any. *)
Class BVLaws (B : Type) `{BVOps B} : Type := {
  bit : B -> Z -> bool;
  bv_shape : B -> Prop;
  bv_wf : B -> Prop;
  bv_size_pos : 0 < bv_kSize B;
  bv_wf_shape v : bv_wf v -> bv_shape v;
  bit_range v i : bit v i = true -> 0 <= i < bv_kSize B;
  clear_spec v : bv_shape v -> bv_wf (bv_clear v) /\ forall i, bit (bv_clear v) i = false;
  setAll_spec v : bv_shape v -> bv_wf (bv_setAll v) /\ forall i, 0 <= i < bv_kSize B -> bit (bv_setAll v) i = true;
  empty_spec v : bv_wf v -> bv_empty v = true <-> forall i, bit v i = false;
  setBit_spec v i : bv_wf v -> 0 <= i < bv_kSize B ->
    exists v', bv_setBit v i = Ok (negb (bit v i), v') /\ bv_wf v' /\ forall j, bit v' j = bit v j || (i =? j);
  clearBit_spec v i : bv_wf v -> 0 <= i < bv_kSize B ->
    exists v', bv_clearBit v i = Ok (bit v i, v') /\ bv_wf v' /\ forall j, bit v' j = bit v j && negb (i =? j);
  getBit_spec v i : bv_wf v -> 0 <= i < bv_kSize B -> bv_getBit v i = Ok (bit v i);
  first_spec v c : bv_wf v -> bit v c = true -> (forall i, i < c -> bit v i = false) ->
    exists v', bv_getAndClearFirstOne v = Ok (c, v') /\ bv_wf v' /\ forall j, bit v' j = bit v j && negb (c =? j);
  setUnion_spec : bv_assigns bv_wf bit bv_setUnion orb;
  setIntersection_spec : bv_assigns bv_wf bit bv_setIntersection andb;
  setDifference_spec : bv_assigns bv_wf bit bv_setDifference (fun a b => a && negb b);
  copyFrom_spec v u : bv_shape v -> bv_wf u -> exists v', bv_copyFrom v u = Ok v' /\ bv_wf v' /\ forall i, bit v' i = bit u i;
  intersectsWith_spec v u : bv_wf v -> bv_wf u ->
    exists r, bv_intersectsWith v u = Ok r /\ (r = true <-> exists i, bit v i = true /\ bit u i = true);
  bv_yields : bv_Iterator B -> list Z -> Prop;
  iterator_spec (v : B) : bv_wf v -> bv_yields (bv_iterator v) (ones (bit v) (bv_kSize B));
  yields_nil it : bv_yields it [] -> bv_hasNext it = false;
  yields_cons it i l : bv_yields it (i :: l) -> bv_hasNext it = true /\ exists it', bv_next it = Ok (i, it') /\ bv_yields it' l;
}.
#[global] Hint Mode BVLaws ! - : typeclass_instances.

Section Laws.
Context {B : Type} `{BVLaws B}.

Implicit Types v u : B.

(** The members of a vector, in ascending order. *)
Definition elems (v : B) : list Z := ones (bit v) (bv_kSize B).

Lemma bit_out v i : ~ 0 <= i < bv_kSize B -> bit v i = false.
Proof. intros Hi. destruct (bit v i) eqn:E; [|done]. by apply bit_range in E. Qed.

Lemma elem_of_elems v i : i ∈ elems v <-> bit v i = true.
Proof. unfold elems. rewrite elem_of_ones. split; [tauto|]. intros E. split; [by apply bit_range in E|done]. Qed.

Lemma empty_elems v : bv_wf v -> bv_empty v = true <-> elems v = [].
Proof.
  intros Hv. rewrite empty_spec by done. unfold elems. rewrite ones_nil. split; [auto|]. intros Hn i.
  destruct (decide (0 <= i < bv_kSize B)); [by apply Hn|by apply bit_out].
Qed.

Lemma empty_false v : bv_wf v -> bv_empty v = false <-> exists i, bit v i = true.
Proof.
  intros Hv. split.
  - intros Ee. destruct (elems v) as [|i l] eqn:El; [by rewrite (proj2 (empty_elems v Hv) El) in Ee|].
    exists i. apply elem_of_elems. rewrite El. left.
  - intros (i & Hi). destruct (bv_empty v) eqn:Ee; [|done]. by rewrite (proj1 (empty_spec v Hv) Ee) in Hi.
Qed.

Lemma elems_length v : (length (elems v) < bv_fuel B)%nat.
Proof.
  unfold elems, ones, bv_fuel. pose proof (length_filter (fun i => bit v i = true) (seqZ 0 (bv_kSize B))).
  rewrite length_seqZ in *. lia.
Qed.

(** Taking the first bit out of a vector that has one. *)
Lemma first_elems v c l :
  bv_wf v -> elems v = c :: l ->
  exists v', bv_getAndClearFirstOne v = Ok (c, v') /\ bv_wf v' /\ elems v' = l /\ forall j, bit v' j = bit v j && negb (c =? j).
Proof.
  intros Hv E. assert (bit v c = true) as Hc by (apply elem_of_elems; rewrite E; left).
  pose proof (bit_range v c Hc) as Hr. unfold elems in *.
  assert (Hlow : forall i, 0 <= i < c -> bit v i = false).
  { revert E Hr. replace (bv_kSize B) with (c + (bv_kSize B - c)) at 1 2 by lia. intros E Hr i Hi. rewrite ones_split in E by lia.
    destruct (ones (bit v) c) as [|a k] eqn:Ek; [by apply ones_nil with (i := i) in Ek|].
    injection E as -> _. assert (c ∈ ones (bit v) c) as Hin by (rewrite Ek; left). apply elem_of_ones in Hin. lia. }
  destruct (first_spec v c Hv Hc) as (v' & E1 & Hv' & Hb).
  { intros i Hi. destruct (Z.lt_ge_cases i 0); [apply bit_out; lia|apply Hlow; lia]. }
  exists v'. split; [done|]. split; [done|]. split; [|done]. pose proof E as E'. rewrite (ones_first _ _ c) in E' by done.
  injection E' as <-. apply ones_ext. intros i Hi. rewrite Hb. by rewrite Z.eqb_sym.
Qed.

(** The loop runs its body on the set bits, in ascending order. *)
Lemma drain_fold {S} (body : Z -> S -> res S) v s :
  bv_wf v ->
  exists v', bv_wf v' /\ (forall i, bit v' i = false) /\
    bv_drain (bv_fuel B) body v s = (s' ← foldM body (elems v) s; Ok (v', s')).
Proof.
  intros Hv. pose proof (elems_length v) as Hf. revert v s Hv Hf. generalize (bv_fuel B). intros n.
  induction n as [|n IH]; intros v s Hv Hf; [lia|]. cbn [bv_drain]. destruct (elems v) as [|c l] eqn:E.
  - rewrite (proj2 (empty_elems v Hv) E). exists v. split; [done|]. split; [by apply empty_spec, empty_elems|done].
  - rewrite (proj2 (empty_false v Hv)) by (exists c; apply elem_of_elems; rewrite E; left).
    destruct (first_elems v c l Hv E) as (v1 & E1 & Hv1 & El & _). rewrite E1, bind_ok. cbn [foldM] in *.
    destruct (body c s) as [s1|e] eqn:Eb.
    + rewrite !bind_ok. destruct (IH v1 s1 Hv1) as (v' & ? & ? & Ed); [rewrite El; cbn in Hf; lia|]. rewrite El in Ed. eauto.
    + exists (bv_clear v). rewrite !bind_err. destruct (clear_spec v (bv_wf_shape v Hv)). eauto.
Qed.
End Laws.
