(* ===== verification/BasicBitVector.v ===== *)
(** * Bit vectors in one integer

    [BasicBitVector] of
    [src/ufo-rt/lib/sanitizer_common/sanitizer_bitvector.h]: a set of numbers
    below the width [w] of the integer type, one bit each.  Shown: its
    members meet the laws of BitVector.v at every width up to 64. *)
From stdpp Require Import base numbers list.
From Stdlib Require Import ZArith Lia.
From S2P Require Import Prelude Bits BitVector.

Local Open Scope Z_scope.

(** The width of [basic_int_t]. *)
Class Width (w : Z) : Prop := width_ok : 0 < w <= 64.

#[export] Instance width_8 : Width 8.
Proof. unfold Width. lia. Qed.
#[export] Instance width_64 : Width 64.
Proof. unfold Width. lia. Qed.

Record BasicBitVector (w : Z) : Type := Basic { bits_ : Z }.
Arguments Basic {w} _.
Arguments bits_ {w} _.

#[export] Instance basic_inhabited w : Inhabited (BasicBitVector w) := populate (Basic 0).

Section BasicBitVector.
Context {w : Z}.
Implicit Types v u : BasicBitVector w.

Definition kSize : Z := w.

Definition clear (v : BasicBitVector w) : BasicBitVector w := Basic 0.

Definition setAll (v : BasicBitVector w) : BasicBitVector w := Basic (wrap w (Z.lnot 0)).

Definition empty (v : BasicBitVector w) : bool := v.(bits_) =? 0.

Definition mask (idx : Z) : res Z := if idx <? kSize then Ok (wrap w (Z.shiftl 1 idx)) else Err EDie.

Definition setBit (v : BasicBitVector w) (idx : Z) : res (bool * BasicBitVector w) :=
  let old := v.(bits_) in
  m ← mask idx;
  let bits := Z.lor v.(bits_) m in
  Ok (negb (bits =? old), Basic bits).

Definition clearBit (v : BasicBitVector w) (idx : Z) : res (bool * BasicBitVector w) :=
  let old := v.(bits_) in
  m ← mask idx;
  let bits := Z.land v.(bits_) (wrap w (Z.lnot m)) in
  Ok (negb (bits =? old), Basic bits).

Definition getBit (v : BasicBitVector w) (idx : Z) : res bool :=
  m ← mask idx; Ok (negb (Z.land v.(bits_) m =? 0)).

Definition getAndClearFirstOne (v : BasicBitVector w) : res (Z * BasicBitVector w) :=
  if empty v then Err EDie
  else
    idx ← LeastSignificantSetBitIndex v.(bits_);
    '(_, v) ← clearBit v idx;
    Ok (idx, v).

Definition setUnion (this v : BasicBitVector w) : res (bool * BasicBitVector w) :=
  let old := this.(bits_) in
  let bits := Z.lor this.(bits_) v.(bits_) in
  Ok (negb (bits =? old), Basic bits).

Definition setIntersection (this v : BasicBitVector w) : res (bool * BasicBitVector w) :=
  let old := this.(bits_) in
  let bits := Z.land this.(bits_) v.(bits_) in
  Ok (negb (bits =? old), Basic bits).

Definition setDifference (this v : BasicBitVector w) : res (bool * BasicBitVector w) :=
  let old := this.(bits_) in
  let bits := Z.land this.(bits_) (wrap w (Z.lnot v.(bits_))) in
  Ok (negb (bits =? old), Basic bits).

Definition copyFrom (this v : BasicBitVector w) : res (BasicBitVector w) := Ok (Basic v.(bits_)).

Definition intersectsWith (this v : BasicBitVector w) : res bool := Ok (negb (Z.land this.(bits_) v.(bits_) =? 0)).

(** [Iterator] has a copy of the vector. *)
Definition Iterator : Type := BasicBitVector w.
Definition iterator (bv : BasicBitVector w) : Iterator := bv.
Definition hasNext (it : Iterator) : bool := negb (empty it).
Definition next (it : Iterator) : res (Z * Iterator) := getAndClearFirstOne it.
Definition iterator_clear (it : Iterator) : Iterator := clear it.
End BasicBitVector.
Arguments Iterator : clear implicits.

#[export] Instance basic_ops w : BVOps (BasicBitVector w) := {|
  bv_kSize := w;
  bv_clear := clear; bv_setAll := setAll; bv_empty := empty;
  bv_setBit := setBit; bv_clearBit := clearBit; bv_getBit := getBit;
  bv_getAndClearFirstOne := getAndClearFirstOne;
  bv_setUnion := setUnion; bv_setIntersection := setIntersection; bv_setDifference := setDifference;
  bv_copyFrom := copyFrom; bv_intersectsWith := intersectsWith;
  bv_Iterator := Iterator w; bv_iterator := iterator; bv_hasNext := hasNext; bv_next := next;
|}.

(** ** The laws *)

Section Laws.
Context {w : Z} `{Width w}.
Implicit Types v u : BasicBitVector w.

Definition in_width (v : BasicBitVector w) : Prop := 0 <= v.(bits_) < 2 ^ w.
Definition basic_bit (v : BasicBitVector w) (i : Z) : bool := (i <? w) && Z.testbit v.(bits_) i.

Lemma in_width_bits z : 0 <= z -> (forall i, w <= i -> Z.testbit z i = false) -> 0 <= z < 2 ^ w.
Proof.
  intros Hz Hb. pose proof (width_ok (w := w)) as Hw. split; [done|]. destruct (Z.eq_dec z 0) as [->|]; [apply pow2_pos; lia|].
  apply Z.log2_lt_pow2; [lia|]. destruct (Z.lt_ge_cases (Z.log2 z) w); [done|]. pose proof (Z.bit_log2 z ltac:(lia)). by rewrite Hb in *.
Qed.

Lemma testbit_high z i : 0 <= z < 2 ^ w -> w <= i -> Z.testbit z i = false.
Proof.
  intros Hz Hi. pose proof (width_ok (w := w)) as Hw. rewrite <- (Z.mod_small z (2 ^ w)) by done.
  apply Z.mod_pow2_bits_high. lia.
Qed.

Lemma basic_bit_testbit v i : in_width v -> basic_bit v i = Z.testbit v.(bits_) i.
Proof.
  intros Hv. unfold basic_bit. destruct (Z.ltb_spec i w); [done|]. by rewrite (testbit_high _ i Hv).
Qed.

Lemma testbit_wrap z i : 0 <= i -> Z.testbit (wrap w z) i = (i <? w) && Z.testbit z i.
Proof.
  intros Hi. pose proof (width_ok (w := w)) as Hw. unfold wrap. destruct (Z.ltb_spec i w).
  - by apply Z.mod_pow2_bits_low.
  - apply Z.mod_pow2_bits_high. lia.
Qed.

(** Two words are equal when they have the same bits. *)
Lemma bits_eq v u : in_width v -> in_width u -> (forall i, basic_bit v i = basic_bit u i) <-> v.(bits_) = u.(bits_).
Proof.
  intros Hv Hu. split.
  - intros E. apply Z.bits_inj'. intros i Hi. by rewrite <- !basic_bit_testbit.
  - intros E i. unfold basic_bit. by rewrite E.
Qed.

(** The flag of an operation is the comparison of the words. *)
Lemma changed_spec v z :
  in_width v -> 0 <= z < 2 ^ w ->
  negb (z =? v.(bits_)) = true <-> exists i, basic_bit (Basic z) i <> basic_bit v i.
Proof.
  intros Hv Hz. rewrite negb_true_iff, Z.eqb_neq. split.
  - intros Hne. destruct (decide (Exists (fun i => basic_bit (Basic z) i <> basic_bit v i) (seqZ 0 w))) as [Hex|Hno].
    + apply Exists_exists in Hex as (i & _ & Hi). eauto.
    + destruct Hne. apply (bits_eq (Basic z) v); [done..|]. intros i. destruct (decide (i ∈ seqZ 0 w)) as [Hi|Hi].
      * destruct (decide (basic_bit (Basic z) i = basic_bit v i)) as [|Hn]; [done|]. destruct Hno. apply Exists_exists. eauto.
      * rewrite elem_of_seqZ in Hi. unfold basic_bit. destruct (Z.ltb_spec i w); [|done]. by rewrite !Z.testbit_neg_r by lia.
  - intros (i & Hi) ->. by destruct v.
Qed.

Lemma mask_ok i : 0 <= i < w -> mask (w := w) i = Ok (2 ^ i).
Proof.
  intros Hi. unfold mask, kSize. rewrite (proj2 (Z.ltb_lt _ _)) by lia. rewrite Z.shiftl_mul_pow2, Z.mul_1_l by lia.
  rewrite wrap_small; [done|]. pose proof (pow2_pos i). assert (2 ^ i < 2 ^ w) by (apply Z.pow_lt_mono_r; lia). lia.
Qed.

Lemma lor_width a b : 0 <= a < 2 ^ w -> 0 <= b < 2 ^ w -> 0 <= Z.lor a b < 2 ^ w.
Proof.
  intros Ha Hb. apply in_width_bits; [apply Z.lor_nonneg; lia|]. intros i Hi. by rewrite Z.lor_spec, !testbit_high.
Qed.

Lemma land_width a b : 0 <= a < 2 ^ w -> 0 <= Z.land a b < 2 ^ w.
Proof.
  intros Ha. apply in_width_bits; [apply Z.land_nonneg; lia|]. intros i Hi. by rewrite Z.land_spec, (testbit_high a) by done.
Qed.

Lemma basic_set v i :
  in_width v -> 0 <= i < w ->
  exists v', setBit v i = Ok (negb (basic_bit v i), v') /\ in_width v' /\ forall j, basic_bit v' j = basic_bit v j || (i =? j).
Proof.
  intros Hv Hi. assert (0 <= 2 ^ i < 2 ^ w) by (split; [apply Z.pow_nonneg; lia|apply Z.pow_lt_mono_r; lia]).
  unfold setBit. rewrite mask_ok, bind_ok by done. cbv zeta.
  pose proof (lor_width v.(bits_) (2 ^ i) Hv ltac:(done)) as Hw. set (z := Z.lor v.(bits_) (2 ^ i)) in *.
  assert (Hb : forall j, basic_bit (Basic z) j = basic_bit v j || (i =? j)).
  { intros j. rewrite !basic_bit_testbit by done. cbn [bits_]. unfold z. rewrite Z.lor_spec, Z.pow2_bits_eqb by lia. done. }
  exists (Basic z). split; [|done]. do 2 f_equal. apply eq_true_iff_eq. rewrite changed_spec by done. rewrite negb_true_iff. split.
  - intros (j & Hj). rewrite Hb in Hj. destruct (Z.eqb_spec i j) as [->|]; [by destruct (basic_bit v j)|]. by rewrite orb_false_r in Hj.
  - intros E. exists i. rewrite Hb, E, Z.eqb_refl. done.
Qed.

Lemma basic_clear v i :
  in_width v -> 0 <= i < w ->
  exists v', clearBit v i = Ok (basic_bit v i, v') /\ in_width v' /\ forall j, basic_bit v' j = basic_bit v j && negb (i =? j).
Proof.
  intros Hv Hi. unfold clearBit. rewrite mask_ok, bind_ok by done. cbv zeta.
  pose proof (land_width v.(bits_) (wrap w (Z.lnot (2 ^ i))) Hv) as Hw. set (z := Z.land _ _) in *.
  assert (Hb : forall j, basic_bit (Basic z) j = basic_bit v j && negb (i =? j)).
  { intros j. rewrite !basic_bit_testbit by done. cbn [bits_]. unfold z. rewrite Z.land_spec.
    destruct (Z.lt_ge_cases j 0); [by rewrite !Z.testbit_neg_r by lia|]. rewrite testbit_wrap, Z.lnot_spec, Z.pow2_bits_eqb by lia.
    destruct (Z.ltb_spec j w); [done|]. by rewrite (testbit_high v.(bits_)) by done. }
  exists (Basic z). split; [|done]. do 2 f_equal. apply eq_true_iff_eq. rewrite changed_spec by done. split.
  - intros (j & Hj). rewrite Hb in Hj. destruct (Z.eqb_spec i j) as [->|]; [by destruct (basic_bit v j)|]. by rewrite andb_true_r in Hj.
  - intros E. exists i. rewrite Hb, E, Z.eqb_refl. done.
Qed.

Lemma basic_empty v : in_width v -> empty v = true <-> forall i, basic_bit v i = false.
Proof.
  intros Hv. unfold empty. rewrite Z.eqb_eq. pose proof (width_ok (w := w)) as Hw.
  change 0 with (bits_ (w := w) (Basic 0)) at 1. rewrite <- bits_eq; [|done|split; [done|apply pow2_pos; lia]].
  split; intros Hb i; rewrite Hb; unfold basic_bit; cbn [bits_]; rewrite Z.bits_0; by rewrite andb_false_r.
Qed.

Lemma basic_first v c :
  in_width v -> basic_bit v c = true -> (forall i, i < c -> basic_bit v i = false) ->
  exists v', getAndClearFirstOne v = Ok (c, v') /\ in_width v' /\ forall j, basic_bit v' j = basic_bit v j && negb (c =? j).
Proof.
  intros Hv Hc Hlow. rewrite basic_bit_testbit in Hc by done. assert (0 < v.(bits_)).
  { destruct (Z.eq_dec v.(bits_) 0) as [E|]; [by rewrite E, Z.bits_0 in Hc|]. destruct Hv. lia. }
  destruct (ctz_bits v.(bits_)) as (Hc0 & Ht & Hl); [done|]. assert (ctz v.(bits_) = c) as Ec.
  { destruct (Z.lt_trichotomy (ctz v.(bits_)) c) as [Hlt|[?|Hgt]]; [|done|by rewrite Hl in Hc].
    apply Hlow in Hlt. rewrite basic_bit_testbit in Hlt by done. by rewrite Ht in Hlt. }
  pose proof (ctz_lt v.(bits_) w ltac:(destruct Hv; lia)). destruct (basic_clear v c) as (v' & E & ? & ?); [done|lia|].
  exists v'. split; [|done]. unfold getAndClearFirstOne, empty, LeastSignificantSetBitIndex.
  rewrite (proj2 (Z.eqb_neq _ _)), bind_ok, Ec by lia. by rewrite E.
Qed.

Lemma basic_get v i : in_width v -> 0 <= i < w -> getBit v i = Ok (basic_bit v i).
Proof.
  intros Hv Hi. unfold getBit. rewrite mask_ok, bind_ok by done. f_equal. rewrite basic_bit_testbit by done.
  destruct (Z.testbit v.(bits_) i) eqn:E.
  - apply negb_true_iff, Z.eqb_neq. intros Hz. assert (Hb : Z.testbit (Z.land v.(bits_) (2 ^ i)) i = true); [|by rewrite Hz, Z.bits_0 in Hb].
    by rewrite Z.land_spec, E, Z.pow2_bits_true by lia.
  - apply negb_false_iff, Z.eqb_eq, Z.bits_inj'. intros j Hj. rewrite Z.land_spec, Z.bits_0, Z.pow2_bits_eqb by lia.
    destruct (Z.eqb_spec i j) as [<-|]; [by rewrite E|apply andb_false_r].
Qed.

Lemma basic_assigns op (f : bool -> bool -> bool) (g : Z -> Z -> Z) :
  f false false = false ->
  (forall v u, op v u = Ok (negb (g v.(bits_) u.(bits_) =? v.(bits_)), Basic (g v.(bits_) u.(bits_)))) ->
  (forall a b, 0 <= a < 2 ^ w -> 0 <= b < 2 ^ w -> 0 <= g a b < 2 ^ w /\ forall i, 0 <= i < w -> Z.testbit (g a b) i = f (Z.testbit a i) (Z.testbit b i)) ->
  bv_assigns in_width (basic_bit) op f.
Proof.
  intros Hf Hop Hg v u Hv Hu. destruct (Hg _ _ Hv Hu) as [Hw Hb]. rewrite Hop. eexists _, _. split; [done|]. split; [done|].
  split; [|by apply changed_spec]. intros i. unfold basic_bit. cbn [bits_].
  destruct (Z.ltb_spec i w); [|done]. destruct (Z.lt_ge_cases i 0); [by rewrite !Z.testbit_neg_r by lia|]. apply Hb. lia.
Qed.

Lemma intersects_basic v u :
  in_width v -> in_width u -> exists r, intersectsWith v u = Ok r /\ (r = true <-> exists i, basic_bit v i = true /\ basic_bit u i = true).
Proof.
  intros Hv Hu. eexists. split; [done|]. pose proof (land_width v.(bits_) u.(bits_) Hv) as Hw.
  pose proof (basic_empty (Basic (Z.land v.(bits_) u.(bits_))) Hw) as He. unfold empty in He. cbn [bits_] in He.
  assert (Hb : forall i, basic_bit (Basic (Z.land v.(bits_) u.(bits_))) i = basic_bit v i && basic_bit u i).
  { intros i. rewrite !basic_bit_testbit by done. apply Z.land_spec. }
  destruct (Z.land _ _ =? 0); cbn [negb].
  - split; [done|]. intros (i & Hi1 & Hi2). pose proof (proj1 He eq_refl i) as Hn. rewrite Hb, Hi1, Hi2 in Hn. done.
  - split; [intros _|done]. destruct (decide (Exists (fun i => basic_bit v i && basic_bit u i = true) (seqZ 0 w))) as [Hex|Hno].
    + apply Exists_exists in Hex as (i & _ & Hi). apply andb_true_iff in Hi. eauto.
    + cut (false = true); [done|]. apply He. intros i. rewrite Hb. destruct (basic_bit v i && basic_bit u i) eqn:Ei; [|done].
      destruct Hno. apply Exists_exists. exists i. split; [|done]. apply andb_true_iff in Ei as [Ei _]. unfold basic_bit in Ei.
      apply andb_true_iff in Ei as [El Et]. apply elem_of_seqZ. destruct (Z.lt_ge_cases i 0); [by rewrite Z.testbit_neg_r in Et by lia|]. to_Prop. lia.
Qed.

Lemma basic_range v i : basic_bit v i = true -> 0 <= i < w.
Proof.
  unfold basic_bit. intros E. apply andb_true_iff in E as [E Et]. apply Z.ltb_lt in E.
  destruct (Z.lt_ge_cases i 0); [by rewrite Z.testbit_neg_r in Et by lia|lia].
Qed.

Lemma basic_empty_ones v : in_width v -> empty v = true <-> ones (basic_bit v) w = [].
Proof.
  intros Hv. rewrite basic_empty, ones_nil by done. split; [auto|]. intros Hn i.
  destruct (basic_bit v i) eqn:Eb; [|done]. pose proof (basic_range _ _ Eb). by rewrite Hn in Eb.
Qed.

(** The iterator goes through the set bits. *)
Lemma basic_next v i l :
  in_width v -> ones (basic_bit v) w = i :: l ->
  empty v = false /\ exists v', getAndClearFirstOne v = Ok (i, v') /\ in_width v' /\ ones (basic_bit v') w = l.
Proof.
  intros Hv E. assert (Hin : i ∈ ones (basic_bit v) w) by (rewrite E; left). apply elem_of_ones in Hin as [Hi Hb].
  split; [destruct (empty v) eqn:Ee; [apply basic_empty_ones in Ee; congruence|done]|].
  assert (Hlow : forall j, j < i -> basic_bit v j = false).
  { intros j Hj. destruct (basic_bit v j) eqn:Ej; [|done]. pose proof (basic_range _ _ Ej) as Hr.
    revert E. replace w with (i + (w - i)) by lia. rewrite ones_split by lia.
    destruct (ones (basic_bit v) i) as [|a k] eqn:Ek; [by rewrite (proj1 (ones_nil _ _) Ek j ltac:(lia)) in Ej|].
    intros [= -> _]. assert (Hin : i ∈ ones (basic_bit v) i) by (rewrite Ek; left). apply elem_of_ones in Hin. lia. }
  destruct (basic_first v i Hv Hb Hlow) as (v' & E1 & Hv' & Hb'). exists v'. split; [done|]. split; [done|].
  rewrite (ones_first _ _ i) in E by auto with lia. injection E as <-. apply ones_ext. intros j Hj. by rewrite Hb', Z.eqb_sym.
Qed.

#[export] Instance basic_laws : BVLaws (BasicBitVector w).
Proof.
  refine {| bit := basic_bit; bv_shape := in_width; bv_wf := in_width; bv_yields it l := in_width it /\ ones (basic_bit it) w = l |}.
  - apply width_ok.
  - done.
  - apply basic_range.
  - intros v _. pose proof (width_ok (w := w)). split; [split; [done|apply pow2_pos; lia]|]. intros i. unfold basic_bit. cbn. rewrite Z.bits_0. apply andb_false_r.
  - intros v _. pose proof (width_ok (w := w)). split; [apply wrap_range; lia|]. intros i Hi. unfold basic_bit. cbn -[wrap] in *.
    rewrite testbit_wrap by lia. rewrite (proj2 (Z.ltb_lt _ _)) by lia. cbn. by rewrite Z.lnot_spec, Z.bits_0 by lia.
  - apply basic_empty.
  - apply basic_set.
  - apply basic_clear.
  - apply basic_get.
  - apply basic_first.
  - apply (basic_assigns setUnion orb Z.lor); [done..|]. intros a b Ha Hb. split; [by apply lor_width|]. intros i Hi. apply Z.lor_spec.
  - apply (basic_assigns setIntersection andb Z.land); [done..|]. intros a b Ha Hb. split; [by apply land_width|]. intros i Hi. apply Z.land_spec.
  - apply (basic_assigns setDifference (fun a b => a && negb b) (fun a b => Z.land a (wrap w (Z.lnot b)))); [done..|].
    intros a b Ha Hb. split; [by apply land_width|]. intros i Hi. rewrite Z.land_spec, testbit_wrap by lia.
    rewrite (proj2 (Z.ltb_lt _ _)) by lia. by rewrite Z.lnot_spec by lia.
  - intros v u _ Hu. exists (Basic u.(bits_)). by destruct u.
  - apply intersects_basic.
  - done.
  - intros it [Hv E]. cbn. unfold hasNext. by rewrite (proj2 (basic_empty_ones it Hv) E).
  - intros it i l [Hv E]. destruct (basic_next it i l Hv E) as (He & it' & E1 & ? & ?). cbn. unfold hasNext, next. rewrite He. eauto.
Defined.
End Laws.
