(* ===== verification/TwoLevelBitVector.v ===== *)
(** * Two-level bit vectors

    [TwoLevelBitVector] of
    [src/ufo-rt/lib/sanitizer_common/sanitizer_bitvector.h]: [k] times [w * w]
    bits.  A set bit of the first level says that the word of the second level
    has set bits; where it is clear the word of the second level is stale and
    is cleared when it is used again.

    Shown: the members meet the laws of BitVector.v for every [k] and every
    width of the words, the lazily cleared words included; the iterator goes
    through the set bits in ascending order. *)
From stdpp Require Import base numbers list.
From Stdlib Require Import ZArith Lia.
From S2P Require Import Prelude BitVector BasicBitVector.

Local Open Scope Z_scope.

Record TwoLevelBitVector (k w : Z) : Type := TwoLevel {
  l1_ : list (BasicBitVector w);
  l2_ : list (list (BasicBitVector w));
}.
Arguments TwoLevel {k w} _ _.
Arguments l1_ {k w} _.
Arguments l2_ {k w} _.

(** [Iterator] refers to the vector it goes through. *)
Record Iterator (k w : Z) : Type := MkIterator {
  bv_ : TwoLevelBitVector k w;
  i0_ : Z;
  i1_ : Z;
  it1_ : bv_Iterator (BasicBitVector w);
  it2_ : bv_Iterator (BasicBitVector w);
}.
Arguments MkIterator {k w} _ _ _ _ _.
Arguments bv_ {k w} _.
Arguments i0_ {k w} _.
Arguments i1_ {k w} _.
Arguments it1_ {k w} _.
Arguments it2_ {k w} _.

Section TwoLevelBitVector.
Context {k w : Z}.
#[local] Abbreviation BV := (BasicBitVector w).
#[local] Abbreviation T := (TwoLevelBitVector k w).

Definition kSize : Z := w * w * k.

Definition clear (v : T) : T := TwoLevel ((bv_clear : BV -> BV) <$> v.(l1_)) v.(l2_).

Definition setAll (v : T) : T := TwoLevel ((bv_setAll : BV -> BV) <$> v.(l1_)) ((fun row : list BV => (bv_setAll : BV -> BV) <$> row) <$> v.(l2_)).

Definition empty (v : T) : bool := forallb bv_empty v.(l1_).

Definition check (idx : Z) : res unit := if idx <=? kSize then Ok tt else Err EDie.

Definition idx0 (idx : Z) : res Z :=
  let r := idx / (w * w) in
  if r <=? k then Ok r else Err EDie.

Definition idx1 (idx : Z) : res Z :=
  let r := (idx / w) mod w in
  if r <=? w then Ok r else Err EDie.

Definition idx2 (idx : Z) : res Z :=
  let r := idx mod w in
  if r <=? w then Ok r else Err EDie.

(** [l2_[i0][i1]] *)
Definition get2 (v : T) (i0 i1 : Z) : res BV := row ← aget v.(l2_) i0; aget row i1.
Definition set1 (v : T) (i0 : Z) (x : BV) : res T := l1 ← aset v.(l1_) i0 x; Ok (TwoLevel l1 v.(l2_)).
Definition set2 (v : T) (i0 i1 : Z) (x : BV) : res T :=
  row ← aget v.(l2_) i0;
  row ← aset row i1 x;
  l2 ← aset v.(l2_) i0 row;
  Ok (TwoLevel v.(l1_) l2).

Definition setBit (v : T) (idx : Z) : res (bool * T) :=
  _ ← check idx;
  i0 ← idx0 idx;
  i1 ← idx1 idx;
  i2 ← idx2 idx;
  x1 ← aget v.(l1_) i0;
  b ← bv_getBit x1 i1;
  v ← (if b : bool then Ok v
       else
         p ← bv_setBit x1 i1;
         v ← set1 v i0 p.2;
         x2 ← get2 v i0 i1;
         set2 v i0 i1 (bv_clear x2));
  x2 ← get2 v i0 i1;
  '(r, x2) ← bv_setBit x2 i2;
  v ← set2 v i0 i1 x2;
  Ok (r, v).

Definition clearBit (v : T) (idx : Z) : res (bool * T) :=
  _ ← check idx;
  i0 ← idx0 idx;
  i1 ← idx1 idx;
  i2 ← idx2 idx;
  x1 ← aget v.(l1_) i0;
  b ← bv_getBit x1 i1;
  if b : bool then
    x2 ← get2 v i0 i1;
    '(r, x2) ← bv_clearBit x2 i2;
    v ← set2 v i0 i1 x2;
    if bv_empty x2 then
      p ← bv_clearBit x1 i1;
      v ← set1 v i0 p.2;
      Ok (r, v)
    else Ok (r, v)
  else Ok (false, v).

Definition getBit (v : T) (idx : Z) : res bool :=
  _ ← check idx;
  i0 ← idx0 idx;
  i1 ← idx1 idx;
  i2 ← idx2 idx;
  x1 ← aget v.(l1_) i0;
  b ← bv_getBit x1 i1;
  if b : bool then (x2 ← get2 v i0 i1; bv_getBit x2 i2) else Ok false.

(** The loop of [getAndClearFirstOne], from index [i0] with [n] to go. *)
Fixpoint first_from (n : nat) (i0 : Z) (v : T) : res (Z * T) :=
  match n with
  | O => Err EDie
  | S n =>
      x1 ← aget v.(l1_) i0;
      if bv_empty x1 then first_from n (i0 + 1) v
      else
        '(i1, x1) ← bv_getAndClearFirstOne x1;
        v ← set1 v i0 x1;
        x2 ← get2 v i0 i1;
        '(i2, x2) ← bv_getAndClearFirstOne x2;
        v ← set2 v i0 i1 x2;
        v ← (if bv_empty x2 then Ok v else p ← bv_setBit x1 i1; set1 v i0 p.2);
        Ok (i0 * w * w + i1 * w + i2, v)
  end.

Definition getAndClearFirstOne (v : T) : res (Z * T) := first_from (Z.to_nat k) 0 v.

(** A word of the first level with its words of the second. *)
Definition row : Type := BV * list BV.

(** The loops over [i0] of the binary operations. *)
Definition for_rows (body : bool -> row -> row -> res (bool * row)) (u : T) (s : bool * T) : res (bool * T) :=
  foldM (fun i0 '(r, v) =>
    x1 ← aget v.(l1_) i0;
    x2 ← aget v.(l2_) i0;
    y1 ← aget u.(l1_) i0;
    y2 ← aget u.(l2_) i0;
    '(r, (x1, x2)) ← body r (x1, x2) (y1, y2);
    l1 ← aset v.(l1_) i0 x1;
    l2 ← aset v.(l2_) i0 x2;
    Ok (r, TwoLevel l1 l2)) (seqZ 0 k) s.

Definition union_word (y2 : list BV) (i1 : Z) (s : bool * row) : res (bool * row) :=
  let '(r, (x1, x2)) := s in
  '(new, x1) ← bv_setBit x1 i1;
  x ← aget x2 i1;
  let x := if new : bool then bv_clear x else x in
  y ← aget y2 i1;
  '(c, x) ← bv_setUnion x y;
  x2 ← aset x2 i1 x;
  Ok (if c : bool then true else r, (x1, x2)).

Definition union_row (r : bool) (x y : row) : res (bool * row) :=
  let t := y.1 in
  p ← bv_drain (bv_fuel BV) (union_word y.2) t (r, x);
  Ok p.2.

Definition setUnion (this v : T) : res (bool * T) := for_rows union_row v (false, this).

Definition intersection_word (y2 : list BV) (i1 : Z) (s : bool * row) : res (bool * row) :=
  let '(r, (x1, x2)) := s in
  x ← aget x2 i1;
  y ← aget y2 i1;
  '(c, x) ← bv_setIntersection x y;
  x2 ← aset x2 i1 x;
  x1 ← (if bv_empty x then p ← bv_clearBit x1 i1; Ok p.2 else Ok x1);
  Ok (if c : bool then true else r, (x1, x2)).

Definition intersection_row (r : bool) (x y : row) : res (bool * row) :=
  '(c, x1) ← bv_setIntersection x.1 y.1;
  let r := if c : bool then true else r in
  if bv_empty x1 then Ok (r, (x1, x.2))
  else
    let t := x1 in
    p ← bv_drain (bv_fuel BV) (intersection_word y.2) t (r, (x1, x.2));
    Ok p.2.

Definition setIntersection (this v : T) : res (bool * T) := for_rows intersection_row v (false, this).

Definition difference_word (y2 : list BV) (i1 : Z) (s : bool * row) : res (bool * row) :=
  let '(r, (x1, x2)) := s in
  x ← aget x2 i1;
  y ← aget y2 i1;
  '(c, x) ← bv_setDifference x y;
  x2 ← aset x2 i1 x;
  x1 ← (if bv_empty x then p ← bv_clearBit x1 i1; Ok p.2 else Ok x1);
  Ok (if c : bool then true else r, (x1, x2)).

Definition difference_row (r : bool) (x y : row) : res (bool * row) :=
  q ← bv_setIntersection x.1 y.1;
  p ← bv_drain (bv_fuel BV) (difference_word y.2) q.2 (r, x);
  Ok p.2.

Definition setDifference (this v : T) : res (bool * T) := for_rows difference_row v (false, this).

Definition copyFrom (this v : T) : res T := p ← setUnion (clear this) v; Ok p.2.

(** [copyFrom] with [this] as its argument: [clear] empties the argument too. *)
Definition copyFromSelf (this : T) : res T :=
  let this := clear this in
  p ← setUnion this this; Ok p.2.

(** The inner loop of [intersectsWith]. *)
Fixpoint intersects_words (fuel : nat) (t : BV) (x y : row) : res bool :=
  match fuel with
  | O => Err EHang
  | S fuel =>
      if bv_empty t then Ok false
      else
        '(i1, t) ← bv_getAndClearFirstOne t;
        b ← bv_getBit y.1 i1;
        if negb b then intersects_words fuel t x y
        else
          x2 ← aget x.2 i1;
          y2 ← aget y.2 i1;
          c ← bv_intersectsWith x2 y2;
          if c : bool then Ok true else intersects_words fuel t x y
  end.

Fixpoint intersects_from (n : nat) (i0 : Z) (this v : T) : res bool :=
  match n with
  | O => Ok false
  | S n =>
      x1 ← aget this.(l1_) i0;
      x2 ← aget this.(l2_) i0;
      y1 ← aget v.(l1_) i0;
      y2 ← aget v.(l2_) i0;
      p ← bv_setIntersection x1 y1;
      c ← intersects_words (bv_fuel BV) p.2 (x1, x2) (y1, y2);
      if c : bool then Ok true else intersects_from n (i0 + 1) this v
  end.

Definition intersectsWith (this v : T) : res bool := intersects_from (Z.to_nat k) 0 this v.

(** ** The iterator *)

Definition iterator (bv : T) : Iterator k w :=
  MkIterator bv 0 0 (iterator_clear inhabitant) (iterator_clear inhabitant).

Definition hasNext (it : Iterator k w) : bool :=
  if bv_hasNext it.(it1_) then true
  else existsb (fun x1 => negb (bv_empty x1)) (drop (Z.to_nat it.(i0_)) it.(bv_).(l1_)).

(** [for (; i0_ < kLevel1Size; i0_++)], with [n] rows to go. *)
Fixpoint next_row (n : nat) (it : Iterator k w) : res (Iterator k w) :=
  match n with
  | O => Ok it
  | S n =>
      x1 ← aget it.(bv_).(l1_) it.(i0_);
      if bv_empty x1 then next_row n (MkIterator it.(bv_) (it.(i0_) + 1) it.(i1_) it.(it1_) it.(it2_))
      else Ok (MkIterator it.(bv_) it.(i0_) it.(i1_) (bv_iterator x1) it.(it2_))
  end.

(** The first bit of the current word. *)
Definition next_bit (it : Iterator k w) : res (Z * Iterator k w) :=
  if negb (bv_hasNext it.(it2_)) then Err EDie
  else
    '(i2, it2) ← bv_next it.(it2_);
    let r := it.(i0_) * w * w + it.(i1_) * w + i2 in
    let i0 := if negb (bv_hasNext it.(it1_)) && negb (bv_hasNext it2) then it.(i0_) + 1 else it.(i0_) in
    Ok (r, MkIterator it.(bv_) i0 it.(i1_) it.(it1_) it2).

Definition next_word (it : Iterator k w) : res (Iterator k w) :=
  if negb (bv_hasNext it.(it1_)) then Err EDie
  else
    '(i1, it1) ← bv_next it.(it1_);
    x2 ← get2 it.(bv_) it.(i0_) i1;
    Ok (MkIterator it.(bv_) it.(i0_) i1 it1 (bv_iterator x2)).

Definition next (it : Iterator k w) : res (Z * Iterator k w) :=
  it ← (if negb (bv_hasNext it.(it1_)) && negb (bv_hasNext it.(it2_)) then next_row (Z.to_nat (k - it.(i0_))) it else Ok it);
  it ← (if negb (bv_hasNext it.(it2_)) then next_word it else Ok it);
  next_bit it.
End TwoLevelBitVector.

#[export] Instance two_level_ops k w : BVOps (TwoLevelBitVector k w) := {|
  bv_kSize := kSize (k := k) (w := w);
  bv_clear := clear; bv_setAll := setAll; bv_empty := empty;
  bv_setBit := setBit; bv_clearBit := clearBit; bv_getBit := getBit;
  bv_getAndClearFirstOne := getAndClearFirstOne;
  bv_setUnion := setUnion; bv_setIntersection := setIntersection; bv_setDifference := setDifference;
  bv_copyFrom := copyFrom; bv_intersectsWith := intersectsWith;
  bv_Iterator := Iterator k w; bv_iterator := iterator; bv_hasNext := hasNext; bv_next := next;
|}.

(** The number of words of the first level. *)
Class Levels (k : Z) : Prop := levels_ok : 0 < k.

#[export] Instance levels_1 : Levels 1.
Proof. unfold Levels. lia. Qed.
#[export] Instance levels_3 : Levels 3.
Proof. unfold Levels. lia. Qed.

(** ** Rows *)

Section Rows.
Context {w : Z} `{Width w}.
#[local] Abbreviation BV := (BasicBitVector w).
#[local] Abbreviation row := (row (w := w)).
Implicit Types r u : row.

Lemma width_size : bv_kSize BV = w.
Proof. done. Qed.

(** Where the bit of the first level is set, the word of the second level has
    a set bit; where it is clear the word has any contents. *)
Definition row_wf (r : row) : Prop :=
  bv_wf r.1 /\ zlen r.2 = w /\
  forall i, 0 <= i < w -> bv_shape (r.2 !!! Z.to_nat i) /\
    (bit r.1 i = true -> bv_wf (r.2 !!! Z.to_nat i) /\ exists j, bit (r.2 !!! Z.to_nat i) j = true).

(** The bits a row stands for. *)
Definition rbit (r : row) (i j : Z) : bool := bit r.1 i && bit (r.2 !!! Z.to_nat i) j.

Lemma rbit_range r i j : rbit r i j = true -> 0 <= i < w /\ 0 <= j < w.
Proof. intros E. apply andb_true_iff in E as [E1 E2]. split; [by apply (bit_range (B := BV)) in E1|by apply (bit_range (B := BV)) in E2]. Qed.

Lemma bit1_rbit r i : row_wf r -> bit r.1 i = true <-> exists j, rbit r i j = true.
Proof.
  intros (H1 & _ & Hw). unfold rbit. split.
  - intros E. destruct (Hw i) as [_ Hi]; [by apply bit_range in E|]. destruct (Hi E) as (_ & j & Hj). exists j. by rewrite E.
  - intros (j & E). by apply andb_true_iff in E as [-> _].
Qed.

Lemma row_get r i : row_wf r -> 0 <= i < w -> aget r.2 i = Ok (r.2 !!! Z.to_nat i).
Proof. intros (_ & Hl & _) Hi. apply aget_total. lia. Qed.

(** Replacing one word, with the bit of the first level to match. *)
Lemma row_update r i x1 x :
  row_wf r -> 0 <= i < w -> bv_wf x1 -> bv_wf x ->
  (forall j, j <> i -> bit x1 j = bit r.1 j) -> (bit x1 i = true <-> exists j, bit x j = true) ->
  row_wf (x1, <[Z.to_nat i := x]> r.2) /\
  forall i' j, rbit (x1, <[Z.to_nat i := x]> r.2) i' j = if i =? i' then bit x j else rbit r i' j.
Proof.
  intros (H1 & Hl & Hw) Hi Hx1 Hx Hne Heq.
  assert (Hins : forall i', 0 <= i' -> <[Z.to_nat i := x]> r.2 !!! Z.to_nat i' = if i =? i' then x else r.2 !!! Z.to_nat i')
    by (intros; apply insert_total; lia).
  split; [split; [done|]; split; [by cbn; rewrite zlen_insert|]|].
  - intros i' Hi'. cbn [fst snd]. rewrite Hins by lia. destruct (Z.eqb_spec i i') as [<-|].
    + split; [by apply bv_wf_shape|]. intros E. split; [done|]. by apply Heq.
    + rewrite Hne by done. by apply Hw.
  - intros i' j. unfold rbit. cbn [fst snd]. destruct (decide (0 <= i' < w)) as [Hr|Hr].
    + rewrite Hins by lia. destruct (Z.eqb_spec i i') as [<-|]; [|by rewrite Hne].
      destruct (bit x1 i) eqn:E; [done|]. destruct (bit x j) eqn:Ej; [|done]. cut (false = true); [done|]. apply Heq. eauto.
    + rewrite (proj2 (Z.eqb_neq _ _)) by lia. by rewrite !(bit_out _ i').
Qed.

(** What processing word [i] of a row does to it. *)
Definition word_spec (f : bool -> bool -> bool) (u : row) (i : Z) (step : bool * row -> res (bool * row)) (r : row) : Prop :=
  forall b, exists b' r', step (b, r) = Ok (b', r') /\ row_wf r' /\
    (forall i' j, rbit r' i' j = if i =? i' then f (rbit r i j) (rbit u i j) else rbit r i' j) /\
    (b' = true <-> b = true \/ exists j, rbit r' i j <> rbit r i j).

(** Processing a list of words. *)
Lemma words_fold f u (pre : (Z -> bool) -> (Z -> bool) -> Prop) step l r b :
  (forall i r, row_wf r -> 0 <= i < w -> pre (rbit r i) (rbit u i) -> word_spec f u i (step i) r) ->
  (forall p p' q, (forall j, p j = p' j) -> pre p q -> pre p' q) ->
  row_wf r -> NoDup l -> (forall i, i ∈ l -> 0 <= i < w /\ pre (rbit r i) (rbit u i)) ->
  exists b' r', foldM step l (b, r) = Ok (b', r') /\ row_wf r' /\
    (forall i j, rbit r' i j = if decide (i ∈ l) then f (rbit r i j) (rbit u i j) else rbit r i j) /\
    (b' = true <-> b = true \/ exists i j, rbit r' i j <> rbit r i j).
Proof.
  intros Hstep Hext Hr Hnd. revert b r Hr. induction Hnd as [|i l Hni Hnd IH]; intros b r Hr Hin; cbn [foldM].
  - exists b, r. split; [done|]. split; [done|]. split; [done|]. split; [auto|]. intros [?|(i & j & Hne)]; done.
  - destruct (Hin i) as [Hi Hp]; [left|]. destruct (Hstep i r Hr Hi Hp b) as (b1 & r1 & E1 & Hr1 & Hb1 & Hc1). rewrite E1, bind_ok.
    assert (Hsame : forall i' j, i' <> i -> rbit r1 i' j = rbit r i' j) by (intros i' j Hne; by rewrite Hb1, (proj2 (Z.eqb_neq _ _))).
    destruct (IH b1 r1 Hr1) as (b' & r' & E & Hr' & Hb' & Hc').
    { intros i' Hi'. destruct (Hin i') as [? Hp']; [by right|]. split; [done|]. eapply Hext, Hp'. intros j. symmetry. apply Hsame. by intros ->. }
    exists b', r'. split; [done|]. split; [done|].
    assert (Hi' : forall j, rbit r' i j = rbit r1 i j) by (intros j; rewrite Hb', decide_False; done).
    split.
    + intros i' j. destruct (decide (i' = i)) as [->|Hne].
      * rewrite Hi', Hb1, Z.eqb_refl, decide_True; [done|left].
      * rewrite Hb', Hsame by done. destruct (decide (i' ∈ l)); [rewrite decide_True; [done|by right]|].
        rewrite decide_False; [done|]. intros [?|?]%elem_of_cons; done.
    + rewrite Hc', Hc1. split.
      * intros [[?|(j & Hj)]|(i' & j & Hj)]; [by left|right; exists i, j; by rewrite Hi'|].
        right. exists i', j. destruct (decide (i' = i)) as [->|Hne]; [by rewrite Hi' in Hj|by rewrite Hsame in Hj].
      * intros [?|(i' & j & Hj)]; [by do 2 left|]. destruct (decide (i' = i)) as [->|Hne].
        -- left; right. exists j. by rewrite <- Hi'.
        -- right. exists i', j. by rewrite Hsame.
Qed.

Definition some_bit (p : Z -> bool) : Prop := exists j, p j = true.

Lemma some_bit_ext p q : (forall j, p j = q j) -> some_bit p -> some_bit q.
Proof. intros E (j & Hj). exists j. by rewrite <- E. Qed.

(** A word whose row has bits in it is in use. *)
Lemma row_word r i : row_wf r -> some_bit (rbit r i) -> bit r.1 i = true /\ bv_wf (r.2 !!! Z.to_nat i) /\ forall j, bit (r.2 !!! Z.to_nat i) j = rbit r i j.
Proof.
  intros Hr Hs. apply bit1_rbit in Hs as E; [|done]. split; [done|]. pose proof Hr as (_ & _ & Hw).
  destruct (Hw i) as [_ Hi]; [by apply (bit_range (B := BV)) in E|]. split; [by apply Hi|]. intros j. unfold rbit. by rewrite E.
Qed.

Lemma union_word_spec u i r :
  row_wf u -> row_wf r -> 0 <= i < w -> some_bit (rbit u i) -> word_spec orb u i (union_word u.2 i) r.
Proof.
  intros Hu Hr Hi Hs b. destruct (row_word u i Hu Hs) as (_ & Huw & Hub). pose proof Hr as (Hr1 & Hl & Hw).
  destruct r as [r1 r2]. unfold union_word.
  destruct (setBit_spec r1 i Hr1 Hi) as (x1 & E1 & Hx1 & Hb1). rewrite E1, bind_ok. cbn [fst snd] in *.
  rewrite (row_get (r1, r2)), bind_ok by done. cbn [snd]. set (x := if negb (bit r1 i) then _ else _).
  assert (bv_wf x /\ forall j, bit x j = rbit (r1, r2) i j) as [Hx Hbx].
  { unfold x, rbit. cbn [fst snd]. destruct (Hw i Hi) as [Hsh Hin]. destruct (bit r1 i) eqn:Eb; cbn [negb].
    - split; [by apply Hin|done].
    - by apply clear_spec. }
  rewrite row_get, bind_ok by done. destruct (setUnion_spec x (u.2 !!! Z.to_nat i) Hx Huw) as (c & x' & E & Hx' & Hb' & Hc). rewrite E, bind_ok.
  rewrite aset_ok, bind_ok by lia.
  destruct (row_update (r1, r2) i x1 x' Hr Hi Hx1 Hx') as [Hwf Hrb].
  { intros j Hne. rewrite Hb1, (proj2 (Z.eqb_neq i j)) by done. by rewrite orb_false_r. }
  { rewrite Hb1, Z.eqb_refl, orb_true_r. split; [intros _|done]. destruct Hs as (j & Hj). exists j. rewrite Hb', Hub, Hj. apply orb_true_r. }
  eexists _, _. split; [done|]. split; [exact Hwf|]. cbn [snd] in Hrb. split.
  - intros i' j. rewrite Hrb. destruct (i =? i'); [|done]. by rewrite Hb', Hbx, Hub.
  - setoid_rewrite Hrb. rewrite Z.eqb_refl. setoid_rewrite <- Hbx. destruct c.
    + split; [intros _; right; by apply Hc|done].
    + split; [auto|]. intros [?|Hex]; [done|]. apply Hc in Hex. done.
Qed.

(** The common body of the intersection and the difference. *)
Definition shrink_word (op : BV -> BV -> res (bool * BV)) (y2 : list BV) (i1 : Z) (s : bool * row) : res (bool * row) :=
  let '(r, (x1, x2)) := s in
  x ← aget x2 i1;
  y ← aget y2 i1;
  '(c, x) ← op x y;
  x2 ← aset x2 i1 x;
  x1 ← (if bv_empty x then p ← bv_clearBit x1 i1; Ok p.2 else Ok x1);
  Ok (if c : bool then true else r, (x1, x2)).

Lemma shrink_word_spec op f u i r :
  bv_assigns bv_wf bit op f -> row_wf u -> row_wf r -> 0 <= i < w -> some_bit (rbit r i) /\ some_bit (rbit u i) ->
  word_spec f u i (shrink_word op u.2 i) r.
Proof.
  intros Hop Hu Hr Hi [Hs Hs'] b. destruct (row_word u i Hu Hs') as (_ & Huw & Hub). destruct (row_word r i Hr Hs) as (Er & Hrw & Hrb).
  pose proof Hr as (Hr1 & Hl & _). destruct r as [r1 r2]. unfold shrink_word. cbn [fst snd] in *.
  rewrite (row_get (r1, r2)), bind_ok by done. cbn [snd]. rewrite row_get, bind_ok by done.
  destruct (Hop _ _ Hrw Huw) as (c & x & E & Hx & Hb & Hc). rewrite E, bind_ok. rewrite aset_ok, bind_ok by lia.
  assert (exists x1, (if bv_empty x then p ← bv_clearBit r1 i; Ok p.2 else Ok r1) = Ok x1 /\ bv_wf x1 /\
    (forall j, j <> i -> bit x1 j = bit r1 j) /\ (bit x1 i = true <-> exists j, bit x j = true)) as (x1 & -> & Hx1 & Hne & Heq).
  { destruct (bv_empty x) eqn:Ee.
    - destruct (clearBit_spec r1 i Hr1 Hi) as (x1 & E1 & Hx1 & Hb1). rewrite E1, bind_ok. exists x1. split; [done|]. split; [done|].
      split; [intros j Hne; rewrite Hb1, (proj2 (Z.eqb_neq i j)) by done; apply andb_true_r|].
      rewrite Hb1, Z.eqb_refl, andb_false_r. split; [done|]. intros (j & Hj). by rewrite (proj1 (empty_spec x Hx) Ee) in Hj.
    - exists r1. split; [done|]. split; [done|]. split; [done|]. split; [intros _; by apply empty_false|done]. }
  rewrite bind_ok. destruct (row_update (r1, r2) i x1 x Hr Hi Hx1 Hx Hne Heq) as [Hwf Hup]. cbn [snd] in Hup.
  eexists _, _. split; [done|]. split; [exact Hwf|]. split.
  - intros i' j. rewrite Hup. destruct (i =? i'); [|done]. by rewrite Hb, Hrb, Hub.
  - setoid_rewrite Hup. rewrite Z.eqb_refl. setoid_rewrite <- Hrb. destruct c.
    + split; [intros _; right; by apply Hc|done].
    + split; [auto|]. intros [?|Hex]; [done|]. apply Hc in Hex. done.
Qed.

(** A binary operation on a row. *)
Definition row_assigns (f : bool -> bool -> bool) (body : bool -> row -> row -> res (bool * row)) : Prop :=
  forall b r u, row_wf r -> row_wf u ->
    exists b' r', body b r u = Ok (b', r') /\ row_wf r' /\
      (forall i j, rbit r' i j = f (rbit r i j) (rbit u i j)) /\
      (b' = true <-> b = true \/ exists i j, rbit r' i j <> rbit r i j).

(** The loop over the words that [t] has the bits of. *)
Lemma drain_words f u (pre : (Z -> bool) -> (Z -> bool) -> Prop) step (t : BV) r b :
  (forall i r, row_wf r -> 0 <= i < w -> pre (rbit r i) (rbit u i) -> word_spec f u i (step i) r) ->
  (forall p p' q, (forall j, p j = p' j) -> pre p q -> pre p' q) ->
  row_wf r -> bv_wf t -> (forall i, bit t i = true -> pre (rbit r i) (rbit u i)) ->
  (forall i j, bit t i = false -> f (rbit r i j) (rbit u i j) = rbit r i j) ->
  exists b' r', (p ← bv_drain (bv_fuel BV) step t (b, r); Ok p.2) = Ok (b', r') /\ row_wf r' /\
    (forall i j, rbit r' i j = f (rbit r i j) (rbit u i j)) /\
    (b' = true <-> b = true \/ exists i j, rbit r' i j <> rbit r i j).
Proof.
  intros Hstep Hext Hr Ht Hpre Hout. destruct (drain_fold step t (b, r) Ht) as (t' & _ & _ & ->).
  destruct (words_fold f u pre step (elems t) r b Hstep Hext Hr) as (b' & r' & E & Hr' & Hb & Hc).
  - apply NoDup_ones.
  - intros i Hi%elem_of_elems. split; [by apply (bit_range (B := BV)) in Hi|by apply Hpre].
  - rewrite E. exists b', r'. split; [done|]. split; [done|]. split; [|done]. intros i j. rewrite Hb.
    destruct (decide (i ∈ elems t)) as [|Hn]; [done|]. symmetry. apply Hout. destruct (bit t i) eqn:Ei; [|done].
    destruct Hn. by apply elem_of_elems.
Qed.

Lemma rbit_out r i j : bit r.1 i = false -> rbit r i j = false.
Proof. unfold rbit. by intros ->. Qed.

Lemma union_row_spec : row_assigns orb union_row.
Proof.
  intros b r u Hr Hu. unfold union_row. apply (drain_words orb u (fun _ q => some_bit q)).
  - intros i r' Hr' Hi. by apply union_word_spec.
  - done.
  - done.
  - by destruct Hu.
  - intros i Hi. by apply bit1_rbit.
  - intros i j Hi. by rewrite (rbit_out u), orb_false_r.
Qed.

Lemma shrink_pre_ext (p p' q : Z -> bool) : (forall j, p j = p' j) -> some_bit p /\ some_bit q -> some_bit p' /\ some_bit q.
Proof. intros E [Hp Hq]. split; [by apply (some_bit_ext p)|done]. Qed.

Lemma difference_row_spec : row_assigns (fun a b => a && negb b) difference_row.
Proof.
  intros b r u Hr Hu. unfold difference_row. pose proof Hr as (Hr1 & _). pose proof Hu as (Hu1 & _).
  destruct (setIntersection_spec r.1 u.1 Hr1 Hu1) as (c & t & E & Ht & Hb & _). rewrite E, bind_ok.
  apply (drain_words (fun a b => a && negb b) u (fun p q => some_bit p /\ some_bit q)); [|apply shrink_pre_ext|done|done| |].
  - intros i r' Hr' Hi. apply (shrink_word_spec bv_setDifference); [apply setDifference_spec|done..].
  - intros i Hi. cbn [snd] in Hi. rewrite Hb in Hi. apply andb_true_iff in Hi as [? ?]. split; by apply bit1_rbit.
  - intros i j Hi. cbn [snd] in Hi. rewrite Hb in Hi. apply andb_false_iff in Hi as [Hi|Hi].
    + by rewrite (rbit_out r).
    + rewrite (rbit_out u) by done. apply andb_true_r.
Qed.

Lemma intersection_row_spec : row_assigns andb intersection_row.
Proof.
  intros b r u Hr Hu. unfold intersection_row. pose proof Hr as (Hr1 & Hl & Hw). pose proof Hu as (Hu1 & _).
  destruct (setIntersection_spec r.1 u.1 Hr1 Hu1) as (c & x1 & E & Hx1 & Hb & Hc). rewrite E, bind_ok. cbv zeta.
  set (b1 := if c then true else b). set (r1 := (x1, r.2) : row).
  assert (Hr1' : row_wf r1).
  { split; [done|]. split; [done|]. intros i Hi. destruct (Hw i Hi) as [? Hin]. split; [done|]. cbn [fst snd r1]. rewrite Hb. intros Ei.
    apply andb_true_iff in Ei as [? _]. by apply Hin. }
  assert (Hrb1 : forall i j, rbit r1 i j = rbit r i j && bit u.1 i).
  { intros i j. unfold rbit, r1. cbn [fst snd]. rewrite Hb. by destruct (bit r.1 i), (bit u.1 i), (bit (r.2 !!! Z.to_nat i) j). }
  assert (exists b' r', (if bv_empty x1 then Ok (b1, r1) else p ← bv_drain (bv_fuel BV) (intersection_word u.2) x1 (b1, r1); Ok p.2) = Ok (b', r') /\
    row_wf r' /\ (forall i j, rbit r' i j = rbit r1 i j && rbit u i j) /\ (b' = true <-> b1 = true \/ exists i j, rbit r' i j <> rbit r1 i j))
    as (b' & r' & E' & Hr' & Hb' & Hc').
  { destruct (bv_empty x1) eqn:Ee.
    - exists b1, r1. split; [done|]. split; [done|]. split; [|split; [auto|intros [?|(?&?&?)]; done]].
      intros i j. rewrite (rbit_out r1); [done|]. by apply empty_spec.
    - apply (drain_words andb u (fun p q => some_bit p /\ some_bit q)); [|apply shrink_pre_ext|done|done| |].
      + intros i r' Hr' Hi. apply (shrink_word_spec bv_setIntersection); [apply setIntersection_spec|done..].
      + intros i Hi. split; [by apply bit1_rbit|]. apply bit1_rbit; [done|]. rewrite Hb in Hi. by apply andb_true_iff in Hi as [_ ?].
      + intros i j Hi. by rewrite (rbit_out r1). }
  exists b', r'. split; [exact E'|]. split; [done|].
  assert (Hfin : forall i j, rbit r' i j = rbit r i j && rbit u i j).
  { intros i j. rewrite Hb', Hrb1. unfold rbit at 2 4. by destruct (rbit r i j), (bit u.1 i). }
  split; [done|]. rewrite Hc'. split.
  - intros [Hb1|(i & j & Hne)].
    + unfold b1 in Hb1. destruct c; [|by left]. right. destruct (proj1 Hc eq_refl) as (i & Hi). rewrite Hb in Hi.
      destruct (bit r.1 i) eqn:Ei; [|done]. destruct (bit u.1 i) eqn:Eu; [done|]. apply bit1_rbit in Ei as (j & Hj); [|done].
      exists i, j. rewrite Hfin, Hj, (rbit_out u) by done. done.
    + right. exists i, j. rewrite Hb', Hrb1 in Hne. rewrite Hfin. destruct (rbit r i j); [|done]. rewrite !andb_true_l in *.
      destruct (bit u.1 i), (rbit u i j); cbn in *; congruence.
  - intros [->|(i & j & Hne)]; [left; unfold b1; by destruct c|].
    destruct (decide (rbit r' i j = rbit r1 i j)) as [Es|]; [|right; eauto]. left. unfold b1. destruct c; [done|].
    rewrite Es, Hrb1 in Hne. destruct (rbit r i j) eqn:Er; [|done]. destruct (bit u.1 i) eqn:Eu; [done|].
    cut (false = true); [done|]. apply Hc. exists i. rewrite Hb, Eu. unfold rbit in Er. apply andb_true_iff in Er as [-> _]. done.
Qed.
End Rows.

(** ** Vectors *)

Section Laws.
Context {k w : Z} `{Width w} `{Levels k}.
#[local] Abbreviation BV := (BasicBitVector w).
#[local] Abbreviation T := (TwoLevelBitVector k w).
Implicit Types v u : T.

Definition row_of (v : T) (i0 : Z) : row := (v.(l1_) !!! Z.to_nat i0, v.(l2_) !!! Z.to_nat i0).

Definition two_shape (v : T) : Prop :=
  zlen v.(l1_) = k /\ zlen v.(l2_) = k /\
  forall i0, 0 <= i0 < k -> bv_shape (row_of v i0).1 /\ zlen (row_of v i0).2 = w /\
    forall i1, 0 <= i1 < w -> bv_shape ((row_of v i0).2 !!! Z.to_nat i1).

Definition two_wf (v : T) : Prop :=
  zlen v.(l1_) = k /\ zlen v.(l2_) = k /\ forall i0, 0 <= i0 < k -> row_wf (row_of v i0).

Definition two_bit (v : T) (idx : Z) : bool :=
  (0 <=? idx) && (idx <? w * w * k) && rbit (row_of v (idx / (w * w))) ((idx / w) mod w) (idx mod w).

(** *** Indices *)

Lemma idx_split i0 i1 i2 :
  0 <= i1 < w -> 0 <= i2 < w ->
  (i0 * w * w + i1 * w + i2) / (w * w) = i0 /\ (i0 * w * w + i1 * w + i2) / w mod w = i1 /\ (i0 * w * w + i1 * w + i2) mod w = i2.
Proof.
  intros H1 H2. assert (E : (i0 * w * w + i1 * w + i2) / w = i0 * w + i1) by (symmetry; apply (Z.div_unique _ _ _ i2); lia).
  split; [|split].
  - rewrite <- Z.div_div by lia. rewrite E. symmetry. apply (Z.div_unique _ _ _ i1); lia.
  - rewrite E. symmetry. apply (Z.mod_unique _ _ i0); lia.
  - symmetry. apply (Z.mod_unique _ _ (i0 * w + i1)); lia.
Qed.

(** Every index in range is that of a bit of a word of a row. *)
Lemma idx_join idx :
  0 <= idx < w * w * k ->
  exists i0 i1 i2, idx = i0 * w * w + i1 * w + i2 /\ 0 <= i0 < k /\ 0 <= i1 < w /\ 0 <= i2 < w.
Proof.
  intros Hi. pose proof (width_ok (w := w)) as Hw. exists (idx / w / w), ((idx / w) mod w), (idx mod w).
  pose proof (Z.div_mod idx w ltac:(lia)). pose proof (Z.div_mod (idx / w) w ltac:(lia)). pose proof (Z.mod_pos_bound idx w ltac:(lia)).
  pose proof (Z.mod_pos_bound (idx / w) w ltac:(lia)). split; [lia|]. split; [|lia]. split.
  - apply Z.div_pos; [apply Z.div_pos|]; lia.
  - rewrite Z.div_div by lia. apply Z.div_lt_upper_bound; lia.
Qed.

Lemma idx_range i0 i1 i2 : 0 <= i0 < k -> 0 <= i1 < w -> 0 <= i2 < w -> 0 <= i0 * w * w + i1 * w + i2 < w * w * k.
Proof. nia. Qed.

Lemma two_bit_at v i0 i1 i2 :
  0 <= i0 < k -> 0 <= i1 < w -> 0 <= i2 < w -> two_bit v (i0 * w * w + i1 * w + i2) = rbit (row_of v i0) i1 i2.
Proof.
  intros H1 H2 H3. unfold two_bit. pose proof (idx_range i0 i1 i2 H1 H2 H3). destruct (idx_split i0 i1 i2 H2 H3) as (-> & -> & ->).
  rewrite (proj2 (Z.leb_le _ _)), (proj2 (Z.ltb_lt _ _)) by lia. done.
Qed.

Lemma two_range v idx : two_bit v idx = true -> 0 <= idx < w * w * k.
Proof. unfold two_bit. intros E. to_Prop. lia. Qed.

(** Two indices are the same when their three parts are. *)
Lemma two_level_idx_inj i0 i1 i2 j0 j1 j2 :
  0 <= i1 < w -> 0 <= i2 < w -> 0 <= j1 < w -> 0 <= j2 < w ->
  (i0 * w * w + i1 * w + i2 =? j0 * w * w + j1 * w + j2) = (i0 =? j0) && (i1 =? j1) && (i2 =? j2).
Proof.
  intros H1 H2 H3 H4. apply eq_true_iff_eq. rewrite !andb_true_iff, !Z.eqb_eq. split; [|intros [[-> ->] ->]; done].
  intros E. destruct (idx_split i0 i1 i2 H1 H2) as (E0 & E1 & E2). destruct (idx_split j0 j1 j2 H3 H4) as (F0 & F1 & F2).
  rewrite E in *. split; [split|]; congruence.
Qed.

(** A statement on all bits is one on the bits of the rows. *)
Lemma two_bit_rows v v' (g : bool -> Z -> bool) :
  (forall idx, g false idx = false \/ 0 <= idx < w * w * k) ->
  (forall i0 i1 i2, 0 <= i0 < k -> 0 <= i1 < w -> 0 <= i2 < w ->
    rbit (row_of v' i0) i1 i2 = g (rbit (row_of v i0) i1 i2) (i0 * w * w + i1 * w + i2)) ->
  forall idx, two_bit v' idx = g (two_bit v idx) idx.
Proof.
  intros Hg Hr idx. destruct (decide (0 <= idx < w * w * k)) as [Hi|Hi].
  - destruct (idx_join idx Hi) as (i0 & i1 & i2 & -> & ? & ? & ?). rewrite !two_bit_at by done. by apply Hr.
  - assert (Hf : forall u, two_bit u idx = false) by (intros u; destruct (two_bit u idx) eqn:E; [apply two_range in E; lia|done]).
    rewrite !Hf. destruct (Hg idx); [done|lia].
Qed.

(** *** One row *)

Lemma row_get1 v i0 : two_wf v -> 0 <= i0 < k -> aget v.(l1_) i0 = Ok (row_of v i0).1.
Proof. intros (Hl & _) Hi. apply aget_total. lia. Qed.

Lemma row_get2 v i0 : two_wf v -> 0 <= i0 < k -> aget v.(l2_) i0 = Ok (row_of v i0).2.
Proof. intros (_ & Hl & _) Hi. apply aget_total. lia. Qed.

Definition put_row (v : T) (i0 : Z) (r : row) : T := TwoLevel (<[Z.to_nat i0 := r.1]> v.(l1_)) (<[Z.to_nat i0 := r.2]> v.(l2_)).

Lemma row_of_put v i0 r j :
  zlen v.(l1_) = k -> zlen v.(l2_) = k -> 0 <= i0 < k -> 0 <= j -> row_of (put_row v i0 r) j = if i0 =? j then r else row_of v j.
Proof.
  intros Hl1 Hl2 Hi Hj. unfold row_of, put_row. cbn [l1_ l2_]. rewrite !insert_total by lia. destruct (i0 =? j); [by destruct r|done].
Qed.

Lemma two_wf_put v i0 r : two_wf v -> 0 <= i0 < k -> row_wf r -> two_wf (put_row v i0 r).
Proof.
  intros (Hl1 & Hl2 & Hr) Hi Hw. split; [cbn; by rewrite zlen_insert|]. split; [cbn; by rewrite zlen_insert|].
  intros j Hj. rewrite row_of_put by (done || lia). destruct (i0 =? j); [done|by apply Hr].
Qed.

(** *** The binary operations *)

Lemma rows_spec f body b v u :
  row_assigns f body -> two_wf v -> two_wf u ->
  exists b' v', for_rows body u (b, v) = Ok (b', v') /\ two_wf v' /\
    (forall i0 i j, 0 <= i0 < k -> rbit (row_of v' i0) i j = f (rbit (row_of v i0) i j) (rbit (row_of u i0) i j)) /\
    (b' = true <-> b = true \/ exists i0 i j, 0 <= i0 < k /\ rbit (row_of v' i0) i j <> rbit (row_of v i0) i j).
Proof.
  intros Hbody Hv Hu. unfold for_rows.
  destruct (foldM_inv (fun seen '(b1, v1) => two_wf v1 /\
    (forall i0 i j, 0 <= i0 < k -> rbit (row_of v1 i0) i j = if decide (i0 ∈ seen) then f (rbit (row_of v i0) i j) (rbit (row_of u i0) i j) else rbit (row_of v i0) i j) /\
    (b1 = true <-> b = true \/ exists i0 i j, 0 <= i0 < k /\ rbit (row_of v1 i0) i j <> rbit (row_of v i0) i j))
    (fun i0 '(r, v) => x1 ← aget v.(l1_) i0; x2 ← aget v.(l2_) i0; y1 ← aget u.(l1_) i0; y2 ← aget u.(l2_) i0;
      '(r, (x1, x2)) ← body r (x1, x2) (y1, y2); l1 ← aset v.(l1_) i0 x1; l2 ← aset v.(l2_) i0 x2; Ok (r, TwoLevel l1 l2)) (seqZ 0 k) (b, v))
    as ((b' & v') & E & Hv' & Hb & Hc).
  - split; [done|]. split; [done|]. split; [auto|]. intros [?|(?&?&?&?&?)]; done.
  - intros seen x rest [b1 v1] El (Hv1 & Hb1 & Hc1). assert (Hx : 0 <= x < k) by (cut (x ∈ seqZ 0 k); [rewrite elem_of_seqZ; lia|rewrite El; apply elem_of_app; right; left]).
    assert (Hns : x ∉ seen) by (pose proof (NoDup_seqZ 0 k) as Hnd; rewrite El in Hnd; apply NoDup_app in Hnd as (_ & Hd & _); intros Hs; apply (Hd x Hs); left).
    rewrite !row_get1, !row_get2 by done. rewrite !bind_ok. pose proof Hv1 as (Hl1 & Hl2 & Hr1). pose proof Hu as (_ & _ & Hru).
    destruct (Hbody b1 (row_of v1 x) (row_of u x) (Hr1 x Hx) (Hru x Hx)) as (b2 & r2 & E2 & Hr2 & Hbr & Hcr).
    change (body b1 ((row_of v1 x).1, (row_of v1 x).2) ((row_of u x).1, (row_of u x).2)) with (body b1 (row_of v1 x) (row_of u x)).
    rewrite E2, bind_ok. destruct r2 as [x1 x2]. rewrite !aset_ok, !bind_ok by lia. eexists. split; [done|].
    change (TwoLevel _ _) with (put_row v1 x (x1, x2)). split; [by apply two_wf_put|].
    assert (Hput : forall i0 i j, 0 <= i0 < k -> rbit (row_of (put_row v1 x (x1, x2)) i0) i j = if x =? i0 then rbit (x1, x2) i j else rbit (row_of v1 i0) i j)
      by (intros i0 i j Hi0; rewrite row_of_put by (done || lia); by destruct (x =? i0)).
    split.
    + intros i0 i j Hi0. rewrite Hput by done. destruct (Z.eqb_spec x i0) as [<-|Hne].
      * rewrite Hbr, Hb1, decide_False by done. rewrite decide_True; [done|]. apply elem_of_app. right. left.
      * rewrite Hb1 by done. destruct (decide (i0 ∈ seen)) as [Hs|Hs].
        -- rewrite decide_True; [done|]. apply elem_of_app. by left.
        -- rewrite decide_False; [done|]. intros [?|Hi]%elem_of_app; [done|]. apply list_elem_of_singleton in Hi. by subst.
    + assert (Hx1 : forall i j, rbit (row_of v1 x) i j = rbit (row_of v x) i j) by (intros i j; by rewrite Hb1, decide_False by done).
      rewrite Hcr, Hc1. split.
      * intros [[?|(i0 & i & j & Hi0 & Hne)]|(i & j & Hne)]; [by left| |].
        -- right. exists i0, i, j. split; [done|]. rewrite Hput by done. destruct (Z.eqb_spec x i0) as [<-|]; [|done]. by rewrite Hx1 in Hne.
        -- right. exists x, i, j. split; [done|]. rewrite Hput, Z.eqb_refl by done. by rewrite <- Hx1.
      * intros [?|(i0 & i & j & Hi0 & Hne)]; [by do 2 left|]. rewrite Hput in Hne by done. destruct (Z.eqb_spec x i0) as [<-|].
        -- right. exists i, j. by rewrite Hx1.
        -- left; right. eauto 6.
  - exists b', v'. split; [exact E|]. split; [done|]. split; [|done]. intros i0 i j Hi0. rewrite Hb by done. rewrite decide_True; [done|]. apply elem_of_seqZ. lia.
Qed.

Lemma two_assigns f body :
  f false false = false -> row_assigns f body -> bv_assigns two_wf two_bit (fun v u => for_rows body u (false, v)) f.
Proof.
  intros Hf Hbody v u Hv Hu. destruct (rows_spec f body false v u Hbody Hv Hu) as (b & v' & E & Hv' & Hb & Hc).
  exists b, v'. split; [done|]. split; [done|]. split.
  - apply (two_bit_rows v v' (fun a idx => f a (two_bit u idx))).
    + intros idx. destruct (two_bit u idx) eqn:Eu; [right; by apply two_range in Eu|by left].
    + intros i0 i1 i2 H0' H1 H2. rewrite two_bit_at by done. by apply Hb.
  - rewrite Hc. split.
    + intros [?|(i0 & i & j & Hi0 & Hne)]; [done|]. assert (Hr : rbit (row_of v' i0) i j = true \/ rbit (row_of v i0) i j = true)
        by (destruct (rbit (row_of v' i0) i j), (rbit (row_of v i0) i j); tauto).
      assert (0 <= i < w /\ 0 <= j < w) as [? ?] by (destruct Hr as [Hr|Hr]; by apply rbit_range in Hr).
      exists (i0 * w * w + i * w + j). by rewrite !two_bit_at.
    + intros (idx & Hne). right. assert (0 <= idx < w * w * k) as Hi.
      { destruct (two_bit v' idx) eqn:E1; [by apply two_range in E1|]. destruct (two_bit v idx) eqn:E2; [by apply two_range in E2|done]. }
      destruct (idx_join idx Hi) as (i0 & i1 & i2 & -> & ? & ? & ?). rewrite !two_bit_at in Hne by done. eauto 6.
Qed.

(** *** One bit *)

Definition sized (v : T) (i0 : Z) : Prop := zlen v.(l1_) = k /\ zlen v.(l2_) = k /\ zlen (row_of v i0).2 = w.

Lemma wf_sized v i0 : two_wf v -> 0 <= i0 < k -> sized v i0.
Proof. intros (? & ? & Hr) Hi. split; [done|]. split; [done|]. by destruct (Hr i0 Hi) as (_ & ? & _). Qed.

Lemma sized_put v i0 r : sized v i0 -> 0 <= i0 < k -> zlen r.2 = w -> sized (put_row v i0 r) i0.
Proof.
  intros (Hl1 & Hl2 & _) Hi Hr. split; [cbn; by rewrite zlen_insert|]. split; [cbn; by rewrite zlen_insert|].
  rewrite row_of_put by (done || lia). by rewrite Z.eqb_refl.
Qed.

Lemma set1_ok v i0 x : sized v i0 -> 0 <= i0 < k -> set1 v i0 x = Ok (put_row v i0 (x, (row_of v i0).2)).
Proof.
  intros (Hl1 & Hl2 & _) Hi. unfold set1. rewrite aset_ok, bind_ok by lia. unfold put_row. cbn [fst snd].
  rewrite (list_insert_id v.(l2_)); [done|]. apply list_lookup_lookup_total_lt. unfold zlen in *. lia.
Qed.

Lemma get2_ok v i0 i1 : sized v i0 -> 0 <= i0 < k -> 0 <= i1 < w -> get2 v i0 i1 = Ok ((row_of v i0).2 !!! Z.to_nat i1).
Proof. intros (_ & Hl2 & Hr) Hi0 Hi1. unfold get2. rewrite aget_total, bind_ok by lia. apply aget_total. lia. Qed.

Lemma set2_ok v i0 i1 x :
  sized v i0 -> 0 <= i0 < k -> 0 <= i1 < w -> set2 v i0 i1 x = Ok (put_row v i0 ((row_of v i0).1, <[Z.to_nat i1 := x]> (row_of v i0).2)).
Proof.
  intros (Hl1 & Hl2 & Hr) Hi0 Hi1. unfold set2. rewrite aget_total, bind_ok by lia. unfold row_of in *. cbn [fst snd] in *.
  rewrite aset_ok, bind_ok, aset_ok, bind_ok by lia. unfold put_row. cbn [fst snd].
  rewrite (list_insert_id v.(l1_)); [done|]. apply list_lookup_lookup_total_lt. unfold zlen in *. lia.
Qed.

Lemma put_row_twice v i0 r r' : put_row (put_row v i0 r) i0 r' = put_row v i0 r'.
Proof. unfold put_row. cbn [l1_ l2_]. by rewrite !list_insert_insert_eq. Qed.

Lemma row_of_put_eq v i0 r : sized v i0 -> 0 <= i0 < k -> row_of (put_row v i0 r) i0 = r.
Proof. intros (? & ? & _) Hi. rewrite row_of_put by (done || lia). by rewrite Z.eqb_refl. Qed.

(** The bits after replacing one row. *)
Lemma two_put v i0 r (g : bool -> Z -> bool) :
  two_wf v -> 0 <= i0 < k -> row_wf r ->
  (forall idx, g false idx = false \/ 0 <= idx < w * w * k) ->
  (forall i1 i2, 0 <= i1 < w -> 0 <= i2 < w -> rbit r i1 i2 = g (rbit (row_of v i0) i1 i2) (i0 * w * w + i1 * w + i2)) ->
  (forall b j0 j1 j2, j0 <> i0 -> 0 <= j1 < w -> 0 <= j2 < w -> g b (j0 * w * w + j1 * w + j2) = b) ->
  two_wf (put_row v i0 r) /\ forall idx, two_bit (put_row v i0 r) idx = g (two_bit v idx) idx.
Proof.
  intros Hv Hi0 Hr Hg Heq Hne. split; [by apply two_wf_put|]. apply two_bit_rows; [done|]. intros j0 j1 j2 H1 H2 H3.
  destruct Hv as (? & ? & _). rewrite row_of_put by (done || lia). destruct (Z.eqb_spec i0 j0) as [<-|]; [by apply Heq|by rewrite Hne by auto].
Qed.

(** The checks of an index in range pass. *)
Lemma checks_ok i0 i1 i2 :
  0 <= i0 < k -> 0 <= i1 < w -> 0 <= i2 < w ->
  let idx := i0 * w * w + i1 * w + i2 in
  check (k := k) (w := w) idx = Ok tt /\ idx0 (k := k) (w := w) idx = Ok i0 /\ idx1 (w := w) idx = Ok i1 /\ idx2 (w := w) idx = Ok i2.
Proof.
  intros H1 H2 H3 idx. pose proof (idx_range i0 i1 i2 H1 H2 H3). destruct (idx_split i0 i1 i2 H2 H3) as (E0 & E1 & E2).
  unfold check, idx0, idx1, idx2, kSize, idx. rewrite E0, E1, E2, !(proj2 (Z.leb_le _ _)) by lia. done.
Qed.

Lemma two_get v idx : two_wf v -> 0 <= idx < w * w * k -> getBit v idx = Ok (two_bit v idx).
Proof.
  intros Hv Hi. destruct (idx_join idx Hi) as (i0 & i1 & i2 & -> & H0' & H1 & H2). rewrite two_bit_at by done.
  unfold getBit. destruct (checks_ok i0 i1 i2 H0' H1 H2) as (-> & -> & -> & ->). rewrite !bind_ok, row_get1, bind_ok by done.
  destruct Hv as (? & ? & Hr) eqn:Ev. destruct (Hr i0 H0') as (Hr1 & Hl & Hw). rewrite getBit_spec, bind_ok by done.
  unfold rbit. destruct (bit (row_of v i0).1 i1) eqn:E; [|done]. rewrite get2_ok, bind_ok by (done || by apply wf_sized).
  destruct (Hw i1 H1) as [_ Hin]. by rewrite getBit_spec by (done || by apply Hin).
Qed.

Lemma two_set v idx :
  two_wf v -> 0 <= idx < w * w * k ->
  exists v', setBit v idx = Ok (negb (two_bit v idx), v') /\ two_wf v' /\ forall j, two_bit v' j = two_bit v j || (idx =? j).
Proof.
  intros Hv Hi. destruct (idx_join idx Hi) as (i0 & i1 & i2 & -> & H0' & H1 & H2). rewrite two_bit_at by done.
  unfold setBit. destruct (checks_ok i0 i1 i2 H0' H1 H2) as (-> & -> & -> & ->). rewrite !bind_ok, row_get1, bind_ok by done.
  pose proof Hv as (_ & _ & Hr). pose proof (Hr i0 H0') as Hrow. pose proof Hrow as (Hr1 & Hl & Hw). rewrite getBit_spec, bind_ok by done.
  pose proof (wf_sized v i0 Hv H0') as Hsz. set (r := row_of v i0) in *. destruct (Hw i1 H1) as [Hsh Hin].
  assert (exists x1 x, (if bit r.1 i1 then Ok v else p ← bv_setBit r.1 i1; v0 ← set1 v i0 p.2; x2 ← get2 v0 i0 i1; set2 v0 i0 i1 (bv_clear x2)) =
    Ok (put_row v i0 (x1, <[Z.to_nat i1 := x]> r.2)) /\ bv_wf x1 /\ bv_wf x /\ (forall j, bit x1 j = bit r.1 j || (i1 =? j)) /\ forall j, bit x j = rbit r i1 j)
    as (x1 & x & -> & Hx1 & Hx & Hb1 & Hb).
  { unfold rbit. destruct (bit r.1 i1) eqn:E.
    - exists r.1, (r.2 !!! Z.to_nat i1). rewrite (list_insert_id r.2) by (apply list_lookup_lookup_total_lt; unfold zlen in *; lia).
      split; [|split; [done|]; split; [by apply Hin|]; split; [|done]].
      + f_equal. unfold put_row, r, row_of. cbn [fst snd]. destruct Hsz as (? & ? & _). unfold zlen in *.
        rewrite !list_insert_id by (apply list_lookup_lookup_total_lt; lia). by destruct v.
      + intros j. destruct (Z.eqb_spec i1 j) as [<-|]; [by rewrite E|by rewrite orb_false_r].
    - destruct (setBit_spec r.1 i1 Hr1 H1) as (x1 & E1 & Hx1 & Hb1). rewrite E1, bind_ok. cbn [snd].
      rewrite set1_ok, bind_ok by done. assert (Hs1 : sized (put_row v i0 (x1, r.2)) i0) by (by apply sized_put).
      rewrite get2_ok, bind_ok, set2_ok by done. rewrite row_of_put_eq, put_row_twice by done. cbn [fst snd].
      destruct (clear_spec _ Hsh) as [Hc Hz]. eexists x1, _. split; [done|]. split; [done|]. split; [exact Hc|]. split; [done|].
      intros j. rewrite Hz. by rewrite ?E. }
  rewrite bind_ok. assert (Hs1 : sized (put_row v i0 (x1, <[Z.to_nat i1 := x]> r.2)) i0) by (apply sized_put; [done..|]; cbn; by rewrite zlen_insert).
  rewrite get2_ok, bind_ok, row_of_put_eq by done. cbn [snd]. rewrite (insert_total r.2), Z.eqb_refl by lia.
  destruct (setBit_spec x i2 Hx H2) as (x' & E' & Hx' & Hb'). rewrite E', bind_ok, set2_ok, bind_ok by done.
  rewrite row_of_put_eq, put_row_twice by done. cbn [fst snd]. rewrite list_insert_insert_eq.
  destruct (row_update r i1 x1 x' Hrow H1 Hx1 Hx') as [Hrw Hrb].
  { intros j Hne. rewrite Hb1, (proj2 (Z.eqb_neq i1 j)) by done. apply orb_false_r. }
  { rewrite Hb1, Z.eqb_refl, orb_true_r. split; [|done]. intros _. exists i2. rewrite Hb', Z.eqb_refl. apply orb_true_r. }
  eexists. split; [by rewrite <- Hb|].
  apply (two_put v i0 _ (fun b j => b || (i0 * w * w + i1 * w + i2 =? j)) Hv H0' Hrw).
  - intros j. destruct (Z.eqb_spec (i0 * w * w + i1 * w + i2) j) as [<-|]; [by right|by left].
  - intros j1 j2 Hj1 Hj2. rewrite Hrb, two_level_idx_inj, Z.eqb_refl by done. cbn [andb]. destruct (Z.eqb_spec i1 j1) as [<-|]; [|by rewrite orb_false_r].
    by rewrite Hb', Hb.
  - intros b j0 j1 j2 Hne Hj1 Hj2. rewrite two_level_idx_inj, (proj2 (Z.eqb_neq i0 j0)) by auto. apply orb_false_r.
Qed.

(** Taking bits out of the word [i1] of a row that is in use: the word is
    stored back, and the bit of the first level follows it. *)
Lemma put_shrunk v i0 i1 x1 x (g : bool -> Z -> bool) :
  two_wf v -> 0 <= i0 < k -> 0 <= i1 < w -> bv_wf x1 -> bv_wf x ->
  (forall j, j <> i1 -> bit x1 j = bit (row_of v i0).1 j) -> (bit x1 i1 = true <-> exists j, bit x j = true) ->
  (forall idx, g false idx = false) ->
  (forall i2, 0 <= i2 < w -> bit x i2 = g (rbit (row_of v i0) i1 i2) (i0 * w * w + i1 * w + i2)) ->
  (forall b j0 j1 j2, j0 <> i0 \/ j1 <> i1 -> 0 <= j1 < w -> 0 <= j2 < w -> g b (j0 * w * w + j1 * w + j2) = b) ->
  let v' := put_row v i0 (x1, <[Z.to_nat i1 := x]> (row_of v i0).2) in
  two_wf v' /\ forall idx, two_bit v' idx = g (two_bit v idx) idx.
Proof.
  intros Hv H0' H1 Hx1 Hx Hne Heq Hg Hb Hout v'. pose proof Hv as (_ & _ & Hr).
  destruct (row_update (row_of v i0) i1 x1 x (Hr i0 H0') H1 Hx1 Hx Hne Heq) as [Hrw Hrb]. apply two_put; [done..| | |].
  - auto.
  - intros j1 j2 Hj1 Hj2. rewrite Hrb. destruct (Z.eqb_spec i1 j1) as [<-|]; [by apply Hb|by rewrite Hout by auto].
  - intros b j0 j1 j2 Hj0. apply Hout. by left.
Qed.

Lemma two_clear v idx :
  two_wf v -> 0 <= idx < w * w * k ->
  exists v', clearBit v idx = Ok (two_bit v idx, v') /\ two_wf v' /\ forall j, two_bit v' j = two_bit v j && negb (idx =? j).
Proof.
  intros Hv Hi. destruct (idx_join idx Hi) as (i0 & i1 & i2 & -> & H0' & H1 & H2). rewrite two_bit_at by done.
  unfold clearBit. destruct (checks_ok i0 i1 i2 H0' H1 H2) as (-> & -> & -> & ->). rewrite !bind_ok, row_get1, bind_ok by done.
  pose proof Hv as (_ & _ & Hr). pose proof (Hr i0 H0') as (Hr1 & Hl & Hw). rewrite getBit_spec, bind_ok by done.
  pose proof (wf_sized v i0 Hv H0') as Hsz. set (r := row_of v i0) in *. destruct (Hw i1 H1) as [Hsh Hin].
  unfold rbit. destruct (bit r.1 i1) eqn:E.
  2:{ exists v. split; [done|]. split; [done|]. intros j. destruct (Z.eqb_spec (i0 * w * w + i1 * w + i2) j) as [<-|]; [|by rewrite andb_true_r].
      rewrite two_bit_at by done. unfold rbit. fold r. by rewrite E. }
  destruct (Hin eq_refl) as [Hx _]. rewrite get2_ok, bind_ok by done. set (x := r.2 !!! Z.to_nat i1) in *.
  destruct (clearBit_spec x i2 Hx H2) as (x' & E' & Hx' & Hb'). fold r. fold x. rewrite E', bind_ok, set2_ok, bind_ok by done. fold r.
  assert (Hbits : forall x1, bv_wf x1 -> (forall j, j <> i1 -> bit x1 j = bit r.1 j) -> (bit x1 i1 = true <-> exists j, bit x' j = true) ->
    let v' := put_row v i0 (x1, <[Z.to_nat i1 := x']> r.2) in two_wf v' /\ forall j, two_bit v' j = two_bit v j && negb (i0 * w * w + i1 * w + i2 =? j)).
  { intros x1 Hx1 Hne Heq. apply (put_shrunk v i0 i1 x1 x' (fun b j => b && negb (i0 * w * w + i1 * w + i2 =? j))); [done..| |].
    - intros j2 Hj2. rewrite Hb', two_level_idx_inj, !Z.eqb_refl by done. unfold rbit. fold r. by rewrite E.
    - intros b j0 j1 j2 Hne' Hj1 Hj2. rewrite two_level_idx_inj by done. destruct Hne' as [Hn|Hn].
      + rewrite (proj2 (Z.eqb_neq i0 j0)) by auto. apply andb_true_r.
      + rewrite (proj2 (Z.eqb_neq i1 j1)), andb_false_r by auto. apply andb_true_r. }
  destruct (bv_empty x') eqn:Ee.
  - destruct (clearBit_spec r.1 i1 Hr1 H1) as (x1 & E1 & Hx1 & Hb1). rewrite E1, bind_ok. cbn [snd].
    rewrite set1_ok, bind_ok by (done || (apply sized_put; [done..|]; cbn; by rewrite zlen_insert)).
    rewrite row_of_put_eq, put_row_twice by done. eexists. split; [done|]. apply Hbits; [done| |].
    + intros j Hne. rewrite Hb1, (proj2 (Z.eqb_neq i1 j)) by done. apply andb_true_r.
    + rewrite Hb1, Z.eqb_refl, andb_false_r. split; [done|]. intros (j & Hj). by rewrite (proj1 (empty_spec x' Hx') Ee) in Hj.
  - eexists. split; [done|]. apply Hbits; [done..|]. rewrite E. split; [intros _; by apply empty_false|done].
Qed.

(** *** The whole vector *)

Lemma two_empty v : two_wf v -> empty v = true <-> forall idx, two_bit v idx = false.
Proof.
  intros (Hl1 & Hl2 & Hr). unfold empty. rewrite forallb_forall. split.
  - intros Hall idx. destruct (two_bit v idx) eqn:E; [|done]. pose proof (two_range _ _ E) as Hi.
    destruct (idx_join idx Hi) as (i0 & i1 & i2 & -> & H0' & H1 & H2). rewrite two_bit_at in E by done.
    destruct (Hr i0 H0') as (Hr1 & _). assert (Hem : bv_empty (row_of v i0).1 = true).
    { apply Hall, list_elem_of_In, (list_elem_of_lookup_2 _ (Z.to_nat i0)), list_lookup_lookup_total_lt. unfold zlen in *. lia. }
    unfold rbit in E. by rewrite (proj1 (empty_spec _ Hr1) Hem) in E.
  - intros Hn x Hx. apply list_elem_of_In, list_elem_of_lookup in Hx as (n & Hx). pose proof (lookup_lt_Some _ _ _ Hx) as Hlt. apply list_lookup_total_correct in Hx as Ex.
    assert (H0' : 0 <= Z.of_nat n < k) by (unfold zlen in *; lia). pose proof (Hr _ H0') as Hrow. pose proof Hrow as (Hr1 & _).
    unfold row_of in Hr1. cbn [fst] in Hr1. rewrite Nat2Z.id, Ex in Hr1. apply empty_spec; [done|]. intros i1.
    destruct (bit x i1) eqn:E; [|done]. destruct (proj1 (bit1_rbit (row_of v (Z.of_nat n)) i1 Hrow)) as (i2 & Hi2).
    { unfold row_of. cbn [fst]. by rewrite Nat2Z.id, Ex. }
    destruct (rbit_range _ _ _ Hi2) as [? ?]. rewrite <- two_bit_at in Hi2 by done. by rewrite Hn in Hi2.
Qed.

Lemma two_clear_all v : two_shape v -> two_wf (clear v) /\ forall idx, two_bit (clear v) idx = false.
Proof.
  intros (Hl1 & Hl2 & Hs). assert (Hrow : forall i0, 0 <= i0 < k -> row_of (clear v) i0 = (bv_clear (row_of v i0).1, (row_of v i0).2)).
  { intros i0 Hi. unfold row_of, clear. cbn [l1_ l2_ fst snd]. f_equal. apply list_lookup_total_fmap. unfold zlen in *. lia. }
  assert (Hwf : two_wf (clear v)).
  { split; [cbn; by rewrite zlen_fmap|]. split; [done|]. intros i0 Hi. rewrite Hrow by done. destruct (Hs i0 Hi) as (H1 & Hl & Hsh).
    destruct (clear_spec _ H1) as [Hc Hz]. split; [done|]. split; [done|]. intros i1 Hi1. split; [by apply Hsh|]. cbn [fst]. by rewrite Hz. }
  split; [done|]. apply two_empty; [done|]. unfold empty, clear. cbn [l1_]. apply forallb_forall. intros x Hx.
  apply list_elem_of_In, list_elem_of_fmap in Hx as (y & -> & Hy). apply list_elem_of_lookup in Hy as (n & Hn).
  pose proof (lookup_lt_Some _ _ _ Hn) as Hlt. destruct (Hs (Z.of_nat n)) as (H1 & _); [unfold zlen in *; lia|]. unfold row_of in H1. cbn [fst] in H1.
  rewrite Nat2Z.id, (list_lookup_total_correct _ _ _ Hn) in H1. destruct (clear_spec _ H1) as [Hc Hz]. by apply empty_spec.
Qed.

Lemma two_set_all v : two_shape v -> two_wf (setAll v) /\ forall idx, 0 <= idx < w * w * k -> two_bit (setAll v) idx = true.
Proof.
  intros (Hl1 & Hl2 & Hs). pose proof (width_ok (w := w)) as Hw0.
  assert (Hrow : forall i0, 0 <= i0 < k -> row_of (setAll v) i0 = (bv_setAll (row_of v i0).1, bv_setAll <$> (row_of v i0).2)).
  { intros i0 Hi. unfold row_of, setAll. cbn [l1_ l2_ fst snd]. f_equal; apply list_lookup_total_fmap; unfold zlen in *; lia. }
  assert (Hword : forall i0 i1, 0 <= i0 < k -> 0 <= i1 < w -> (bv_setAll <$> (row_of v i0).2) !!! Z.to_nat i1 = bv_setAll ((row_of v i0).2 !!! Z.to_nat i1)).
  { intros i0 i1 Hi0 Hi1. destruct (Hs i0 Hi0) as (_ & Hl & _). apply list_lookup_total_fmap. unfold zlen in *. lia. }
  split; [split; [cbn; by rewrite zlen_fmap|]; split; [cbn; by rewrite zlen_fmap|]|].
  - intros i0 Hi. rewrite Hrow by done. destruct (Hs i0 Hi) as (H1 & Hl & Hsh). split; [by apply setAll_spec|]. split; [cbn; by rewrite zlen_fmap|].
    intros i1 Hi1. cbn [fst snd]. rewrite Hword by done. destruct (setAll_spec _ (Hsh i1 Hi1)) as [Hwf Hall]. split; [by apply bv_wf_shape|].
    intros _. split; [done|]. exists 0. apply Hall. cbn. lia.
  - intros idx Hi. destruct (idx_join idx Hi) as (i0 & i1 & i2 & -> & H0' & H1 & H2). rewrite two_bit_at, Hrow by done. unfold rbit. cbn [fst snd].
    rewrite Hword by done. destruct (Hs i0 H0') as (Hsh1 & _ & Hsh). destruct (setAll_spec _ Hsh1) as [_ ->]; [|done].
    destruct (setAll_spec _ (Hsh i1 H1)) as [_ ->]; done.
Qed.

Lemma two_copy v u : two_shape v -> two_wf u -> exists v', copyFrom v u = Ok v' /\ two_wf v' /\ forall i, two_bit v' i = two_bit u i.
Proof.
  intros Hv Hu. destruct (two_clear_all v Hv) as [Hc Hz]. destruct (two_assigns orb union_row eq_refl union_row_spec (clear v) u Hc Hu) as (b & v' & E & Hv' & Hb & _).
  exists v'. unfold copyFrom, setUnion. rewrite E. split; [done|]. split; [done|]. intros i. by rewrite Hb, Hz.
Qed.

Lemma two_copy_self v : two_shape v -> exists v', copyFromSelf v = Ok v' /\ two_wf v' /\ forall i, two_bit v' i = false.
Proof.
  intros Hv. destruct (two_clear_all v Hv) as [Hc Hz].
  destruct (two_assigns orb union_row eq_refl union_row_spec (clear v) (clear v) Hc Hc) as (b & v' & E & Hv' & Hb & _).
  exists v'. unfold copyFromSelf, setUnion. rewrite E. split; [done|]. split; [done|]. intros i. by rewrite Hb, Hz.
Qed.

(** Rows without bits are skipped. *)
Lemma first_skip v i0 : two_wf v -> 0 <= i0 < k ->
  forall n j, 0 <= j <= i0 -> Z.of_nat n = k - j -> (forall j', j <= j' < i0 -> bv_empty (row_of v j').1 = true) ->
  exists n', first_from n j v = first_from (S n') i0 v.
Proof.
  intros Hv Hi0 n. induction n as [|n IH]; intros j Hj Hn Hem; [lia|]. destruct (Z.eq_dec j i0) as [->|Hne]; [by exists n|].
  destruct (IH (j + 1)) as (n' & E); [lia|lia|intros; apply Hem; lia|]. exists n'. rewrite <- E. cbn [first_from].
  rewrite row_get1, bind_ok, Hem by (done || lia). done.
Qed.

Lemma two_first v c :
  two_wf v -> two_bit v c = true -> (forall i, i < c -> two_bit v i = false) ->
  exists v', getAndClearFirstOne v = Ok (c, v') /\ two_wf v' /\ forall j, two_bit v' j = two_bit v j && negb (c =? j).
Proof.
  intros Hv Hc Hlow. pose proof (two_range _ _ Hc) as Hi. destruct (idx_join c Hi) as (i0 & i1 & i2 & -> & H0' & H1 & H2).
  rewrite two_bit_at in Hc by done. pose proof Hv as (_ & _ & Hr). pose proof (Hr i0 H0') as Hrow. pose proof Hrow as (Hr1 & Hl & Hw).
  assert (Hlow' : forall j0 j1 j2, 0 <= j0 < k -> j0 < i0 \/ j0 = i0 /\ (j1 < i1 \/ j1 = i1 /\ j2 < i2) -> rbit (row_of v j0) j1 j2 = false).
  { intros j0 j1 j2 Hj0 Hlt. destruct (rbit (row_of v j0) j1 j2) eqn:E; [|done]. destruct (rbit_range _ _ _ E) as [? ?].
    rewrite <- two_bit_at in E by done. rewrite Hlow in E; [done|]. nia. }
  unfold getAndClearFirstOne. destruct (first_skip v i0 Hv H0' (Z.to_nat k) 0) as (n & ->); [lia|lia| |].
  { intros j Hj. assert (Hj' : 0 <= j < k) by lia. pose proof (Hr j Hj') as Hrj. apply empty_spec; [by destruct Hrj|]. intros i.
    destruct (bit (row_of v j).1 i) eqn:E; [|done]. apply bit1_rbit in E as (j2 & E); [|done]. rewrite Hlow' in E; [done|done|lia]. }
  cbn [first_from]. rewrite row_get1, bind_ok by done. set (r := row_of v i0) in *. pose proof (wf_sized v i0 Hv H0') as Hsz.
  destruct (row_word r i1 Hrow) as (Eb & Hx & Hbx); [by exists i2|].
  rewrite (proj2 (empty_false r.1 Hr1)) by eauto.
  destruct (first_spec r.1 i1 Hr1 Eb) as (x1 & E1 & Hx1 & Hb1).
  { intros i Hlt. destruct (bit r.1 i) eqn:E; [|done]. apply bit1_rbit in E as (j & E); [|done]. unfold r in E. rewrite Hlow' in E; [done|done|lia]. }
  rewrite E1, bind_ok, set1_ok, bind_ok by done. fold r. assert (Hs1 : sized (put_row v i0 (x1, r.2)) i0) by (by apply sized_put).
  rewrite get2_ok, bind_ok, row_of_put_eq by done. cbn [snd].
  destruct (first_spec (r.2 !!! Z.to_nat i1) i2 Hx) as (x & E2 & Hx' & Hb2).
  { by rewrite Hbx. }
  { intros j Hj. rewrite Hbx. apply Hlow'; [done|lia]. }
  rewrite E2, bind_ok, set2_ok, bind_ok by done. rewrite row_of_put_eq, put_row_twice by done. cbn [fst snd].
  assert (Hbits : forall x1, bv_wf x1 -> (forall j, j <> i1 -> bit x1 j = bit r.1 j) -> (bit x1 i1 = true <-> exists j, bit x j = true) ->
    let v' := put_row v i0 (x1, <[Z.to_nat i1 := x]> r.2) in two_wf v' /\ forall j, two_bit v' j = two_bit v j && negb (i0 * w * w + i1 * w + i2 =? j)).
  { intros y1 Hy1 Hne Heq. apply (put_shrunk v i0 i1 y1 x (fun b j => b && negb (i0 * w * w + i1 * w + i2 =? j))); [done..| |].
    - intros j2 Hj2. rewrite Hb2, two_level_idx_inj, !Z.eqb_refl, Hbx by done. done.
    - intros b j0 j1 j2 Hne' Hj1 Hj2. rewrite two_level_idx_inj by done. destruct Hne' as [Hn|Hn].
      + rewrite (proj2 (Z.eqb_neq i0 j0)) by auto. apply andb_true_r.
      + rewrite (proj2 (Z.eqb_neq i1 j1)), andb_false_r by auto. apply andb_true_r. }
  assert (Hrest : forall j, j <> i1 -> bit x1 j = bit r.1 j) by (intros j Hne; rewrite Hb1, (proj2 (Z.eqb_neq i1 j)) by auto; apply andb_true_r).
  destruct (bv_empty x) eqn:Ee.
  - rewrite bind_ok. eexists. split; [done|]. apply Hbits; [done..|]. rewrite Hb1, Z.eqb_refl, andb_false_r. split; [done|].
    intros (j & Hj). by rewrite (proj1 (empty_spec x Hx') Ee) in Hj.
  - destruct (setBit_spec x1 i1 Hx1 H1) as (y1 & E3 & Hy1 & Hb3). rewrite E3, bind_ok. cbn [snd].
    rewrite set1_ok by (done || (apply sized_put; [done..|]; cbn; by rewrite zlen_insert)). rewrite row_of_put_eq, put_row_twice, bind_ok by done.
    eexists. split; [done|]. apply Hbits; [done| |].
    + intros j Hne. rewrite Hb3, (proj2 (Z.eqb_neq i1 j)), orb_false_r by auto. by apply Hrest.
    + rewrite Hb3, Z.eqb_refl, orb_true_r. split; [intros _; by apply empty_false|done].
Qed.

(** *** Intersection test *)

Lemma words_intersect (r u : row) : row_wf r -> row_wf u ->
  forall n (t : BV), (length (elems t) < n)%nat -> bv_wf t -> (forall i, bit t i = true -> bit r.1 i = true /\ bit u.1 i = true) ->
  exists b, intersects_words n t r u = Ok b /\ (b = true <-> exists i j, bit t i = true /\ rbit r i j = true /\ rbit u i j = true).
Proof.
  intros Hr Hu n. induction n as [|n IH]; intros t Hf Ht Hsub; [lia|]. cbn [intersects_words]. destruct (elems t) as [|i l] eqn:El.
  { rewrite (proj2 (empty_elems t Ht) El). exists false. split; [done|]. split; [done|]. intros (i & j & Hi & _).
    apply elem_of_elems in Hi. rewrite El in Hi. by apply elem_of_nil in Hi. }
  assert (Hit : bit t i = true) by (apply elem_of_elems; rewrite El; left). rewrite (proj2 (empty_false t Ht)) by eauto.
  destruct (first_elems t i l Ht El) as (t' & E & Ht' & El' & Hb). rewrite E, bind_ok.
  destruct (Hsub i Hit) as [Hri Hui]. assert (Hi : 0 <= i < w) by (by apply (bit_range (B := BV)) in Hri).
  rewrite getBit_spec, bind_ok, Hui by (done || by destruct Hu). cbn [negb]. rewrite !row_get, !bind_ok by done.
  destruct (row_word r i Hr) as (_ & Hrw & Hrb); [by apply bit1_rbit|]. destruct (row_word u i Hu) as (_ & Huw & Hub); [by apply bit1_rbit|].
  destruct (intersectsWith_spec _ _ Hrw Huw) as (c & Ec & Hc). rewrite Ec, bind_ok. setoid_rewrite Hrb in Hc. setoid_rewrite Hub in Hc. destruct c.
  - exists true. split; [done|]. split; [intros _|done]. destruct (proj1 Hc eq_refl) as (j & ? & ?). eauto.
  - destruct (IH t') as (b & Eb & Hbb); [rewrite El'; cbn in Hf; lia|done| |].
    { intros i' Hi'. rewrite Hb in Hi'. apply andb_true_iff in Hi' as [? _]. by apply Hsub. }
    exists b. split; [done|]. rewrite Hbb. split.
    + intros (i' & j & Hi' & ?). rewrite Hb in Hi'. apply andb_true_iff in Hi' as [? _]. eauto.
    + intros (i' & j & Hi' & H1 & H2). exists i', j. split; [|done]. rewrite Hb, Hi'. destruct (Z.eqb_spec i i') as [<-|]; [|done].
      cut (false = true); [done|]. apply Hc. eauto.
Qed.

Lemma two_intersects v u :
  two_wf v -> two_wf u ->
  exists b, intersectsWith v u = Ok b /\ (b = true <-> exists idx, two_bit v idx = true /\ two_bit u idx = true).
Proof.
  intros Hv Hu. unfold intersectsWith. assert (Hfrom : forall n j, 0 <= j -> Z.of_nat n = k - j ->
    exists b, intersects_from n j v u = Ok b /\
      (b = true <-> exists i0 i1 i2, j <= i0 < k /\ rbit (row_of v i0) i1 i2 = true /\ rbit (row_of u i0) i1 i2 = true)).
  { intros n. induction n as [|n IH]; intros j Hj Hn; cbn [intersects_from].
    - exists false. split; [done|]. split; [done|]. intros (i0 & i1 & i2 & ? & _). lia.
    - assert (Hj' : 0 <= j < k) by lia. rewrite !row_get1, !row_get2, !bind_ok by done. pose proof Hv as (_ & _ & Hrv). pose proof Hu as (_ & _ & Hru).
      pose proof (Hrv j Hj') as Hr. pose proof (Hru j Hj') as Hr'. destruct (setIntersection_spec (row_of v j).1 (row_of u j).1) as (c & t & E & Ht & Hb & _); [by destruct Hr|by destruct Hr'|].
      rewrite E, bind_ok. cbn [snd]. destruct (words_intersect (row_of v j) (row_of u j) Hr Hr' (bv_fuel BV) t (elems_length t) Ht) as (b & Eb & Hbb).
      { intros i Hi. rewrite Hb in Hi. by apply andb_true_iff. }
      change ((row_of v j).1, (row_of v j).2) with (row_of v j). change ((row_of u j).1, (row_of u j).2) with (row_of u j).
      rewrite Eb, bind_ok. destruct b.
      + exists true. split; [done|]. split; [intros _|done]. destruct (proj1 Hbb eq_refl) as (i & i2 & _ & ? & ?). exists j, i, i2. split; [lia|done].
      + destruct (IH (j + 1)) as (b & Eb' & Hb'); [lia..|]. exists b. split; [done|]. rewrite Hb'. split.
        * intros (i0 & i1 & i2 & ? & ?). exists i0, i1, i2. split; [lia|done].
        * intros (i0 & i1 & i2 & ? & H1 & H2). exists i0, i1, i2. split; [|done]. destruct (Z.eq_dec i0 j) as [->|]; [|lia].
          cut (false = true); [done|]. apply Hbb. exists i1, i2. split; [|done]. rewrite Hb. unfold rbit in H1, H2.
          apply andb_true_iff in H1 as [-> _]. by apply andb_true_iff in H2 as [-> _]. }
  destruct (Hfrom (Z.to_nat k) 0) as (b & E & Hb); [lia..|pose proof (levels_ok (k := k)); lia|]. exists b. split; [done|]. rewrite Hb. split.
  - intros (i0 & i1 & i2 & ? & H1 & H2). destruct (rbit_range _ _ _ H1) as [? ?]. exists (i0 * w * w + i1 * w + i2). by rewrite !two_bit_at.
  - intros (idx & H1 & H2). destruct (idx_join idx (two_range _ _ H1)) as (i0 & i1 & i2 & -> & ? & ? & ?). rewrite two_bit_at in H1, H2 by done. eauto 8.
Qed.

(** *** The iterator *)

Definition word_elems (v : T) (i0 i1 : Z) : list Z :=
  (fun i2 => i0 * w * w + i1 * w + i2) <$> elems ((row_of v i0).2 !!! Z.to_nat i1).
Definition row_elems (v : T) (i0 : Z) : list Z := concat (word_elems v i0 <$> elems (row_of v i0).1).
Definition rest_rows (v : T) (i0 : Z) : list Z := concat (row_elems v <$> seqZ i0 (k - i0)).

Lemma rest_rows_step v i0 : i0 < k -> rest_rows v i0 = row_elems v i0 ++ rest_rows v (i0 + 1).
Proof.
  intros Hi. unfold rest_rows. rewrite seqZ_cons by lia. rewrite fmap_cons. cbn [concat].
  do 4 f_equal; lia.
Qed.

Lemma word_elems_some v i0 i1 : two_wf v -> 0 <= i0 < k -> bit (row_of v i0).1 i1 = true -> word_elems v i0 i1 <> [].
Proof.
  intros (_ & _ & Hr) Hi Hb. destruct (row_word _ i1 (Hr i0 Hi)) as (_ & Hw & _); [by apply bit1_rbit; [apply Hr|]|].
  destruct (Hr i0 Hi) as (_ & _ & Hin). destruct (Hin i1) as [_ Hj]; [by apply (bit_range (B := BV)) in Hb|]. destruct (Hj Hb) as (_ & j & Hj').
  unfold word_elems. intros E%fmap_nil_inv. apply elem_of_elems in Hj'. rewrite E in Hj'. by apply elem_of_nil in Hj'.
Qed.

Lemma row_elems_nil v i0 : two_wf v -> 0 <= i0 < k -> row_elems v i0 = [] <-> bv_empty (row_of v i0).1 = true.
Proof.
  intros Hv Hi. pose proof Hv as (_ & _ & Hr). destruct (Hr i0 Hi) as (Hr1 & _). rewrite empty_elems by done. unfold row_elems. split.
  - intros E. destruct (elems (row_of v i0).1) as [|i1 l] eqn:El; [done|]. rewrite fmap_cons in E. cbn [concat] in E.
    apply app_eq_nil in E as [E _]. apply word_elems_some in E; [done..|]. apply elem_of_elems. rewrite El. left.
  - by intros ->.
Qed.

Lemma rest_rows_some v n i0 :
  two_wf v -> 0 <= i0 -> Z.of_nat n = k - i0 ->
  rest_rows v i0 <> [] <-> exists j, i0 <= j < k /\ bv_empty (row_of v j).1 = false.
Proof.
  intros Hv. revert i0. induction n as [|n IH]; intros i0 Hi0 Hn.
  - replace (rest_rows v i0) with (@nil Z) by (unfold rest_rows; replace (k - i0) with 0 by lia; done). split; [done|]. intros (j & ? & _). lia.
  - assert (Hi : 0 <= i0 < k) by lia. rewrite rest_rows_step by lia. specialize (IH (i0 + 1) ltac:(lia) ltac:(lia)). split.
    + intros Hne. destruct (bv_empty (row_of v i0).1) eqn:Ee; [|exists i0; split; [lia|done]].
      rewrite (proj2 (row_elems_nil v i0 Hv Hi) Ee) in Hne. destruct (proj1 IH Hne) as (j & ? & ?). exists j. split; [lia|done].
    + intros (j & Hj & Ee) E. apply app_eq_nil in E as [E1 E2]. destruct (Z.eq_dec j i0) as [->|].
      * apply row_elems_nil in E1; [congruence|done..].
      * revert E2. apply IH. exists j. split; [lia|done].
Qed.

Lemma rows_left v i0 :
  two_wf v -> 0 <= i0 <= k ->
  existsb (fun x1 => negb (bv_empty x1)) (drop (Z.to_nat i0) v.(l1_)) = true <-> exists j, i0 <= j < k /\ bv_empty (row_of v j).1 = false.
Proof.
  intros (Hl & _ & _) Hi. unfold zlen in Hl. rewrite existsb_exists. split.
  - intros (x & Hx & He). apply list_elem_of_In, list_elem_of_lookup in Hx as (n & Hn). rewrite lookup_drop in Hn. pose proof (lookup_lt_Some _ _ _ Hn).
    exists (i0 + Z.of_nat n). split; [lia|]. unfold row_of. cbn [fst]. replace (Z.to_nat (i0 + Z.of_nat n)) with (Z.to_nat i0 + n)%nat by lia.
    rewrite (list_lookup_total_correct _ _ _ Hn). by apply negb_true_iff.
  - intros (j & Hj & He). exists (row_of v j).1. split; [|by rewrite He]. apply list_elem_of_In, list_elem_of_lookup. exists (Z.to_nat (j - i0)).
    rewrite lookup_drop. replace (Z.to_nat i0 + Z.to_nat (j - i0))%nat with (Z.to_nat j) by lia. apply list_lookup_lookup_total_lt. lia.
Qed.

(** What an iterator has still to give: between two rows, or within a row. *)
Definition two_yields (it : Iterator k w) (l : list Z) : Prop :=
  two_wf it.(bv_) /\ 0 <= it.(i0_) <= k /\
  exists l1 l2, bv_yields it.(it1_) l1 /\ bv_yields it.(it2_) l2 /\
    (l1 = [] /\ l2 = [] /\ l = rest_rows it.(bv_) it.(i0_) \/
     (l1 <> [] \/ l2 <> []) /\ it.(i0_) < k /\ (forall i, i ∈ l1 -> bit (row_of it.(bv_) it.(i0_)).1 i = true) /\
     bv_empty (row_of it.(bv_) it.(i0_)).1 = false /\
     l = ((fun i2 => it.(i0_) * w * w + it.(i1_) * w + i2) <$> l2) ++ concat (word_elems it.(bv_) it.(i0_) <$> l1) ++ rest_rows it.(bv_) (it.(i0_) + 1)).

Lemma yields_hasNext (it : bv_Iterator BV) l : bv_yields it l -> bv_hasNext it = match l with [] => false | _ => true end.
Proof. destruct l; intros Hy; [by apply yields_nil|by apply yields_cons in Hy as [? _]]. Qed.

Lemma two_yields_hasNext it l : two_yields it l -> hasNext it = match l with [] => false | _ => true end.
Proof.
  destruct it as [v i0 i1 it1 it2]. intros (Hv & Hi & l1 & l2 & Hy1 & Hy2 & Hc). cbn [bv_ i0_ i1_ it1_ it2_] in *. unfold hasNext. cbn [bv_ i0_ it1_].
  rewrite (yields_hasNext it1 l1 Hy1). pose proof (rest_rows_some v (Z.to_nat (k - i0)) i0 Hv ltac:(lia) ltac:(lia)) as Hsome.
  pose proof (rows_left v i0 Hv Hi) as Hleft. destruct Hc as [(-> & -> & ->)|(Hne & Hlt & Hsub & He & ->)].
  - destruct (rest_rows v i0) eqn:E.
    + destruct (existsb _ _); [|done]. destruct (proj2 Hsome (proj1 Hleft eq_refl)). done.
    + apply Hleft, Hsome. done.
  - destruct l1 as [|a l1].
    + rewrite (proj2 Hleft) by (exists i0; split; [lia|done]). by destruct Hne, l2.
    + rewrite fmap_cons. cbn [concat]. pose proof (word_elems_some v i0 a Hv ltac:(lia) (Hsub a ltac:(left))).
      by destruct l2, (word_elems v i0 a).
Qed.

(** The row the iterator goes on with. *)
Lemma next_row_spec v i1 it1 it2 n i0 :
  two_wf v -> 0 <= i0 -> Z.of_nat n = k - i0 -> rest_rows v i0 <> [] ->
  exists j, i0 <= j < k /\ bv_empty (row_of v j).1 = false /\ rest_rows v i0 = row_elems v j ++ rest_rows v (j + 1) /\
    next_row n (MkIterator v i0 i1 it1 it2) = Ok (MkIterator v j i1 (bv_iterator (row_of v j).1) it2).
Proof.
  intros Hv. revert i0. induction n as [|n IH]; intros i0 Hi Hn Hne.
  - destruct Hne. unfold rest_rows. by replace (k - i0) with 0 by lia.
  - cbn [next_row bv_ i0_ i1_ it1_ it2_]. rewrite row_get1, bind_ok by (done || lia). destruct (bv_empty (row_of v i0).1) eqn:Ee.
    + rewrite rest_rows_step in * by lia. rewrite (proj2 (row_elems_nil v i0 Hv ltac:(lia)) Ee) in *.
      destruct (IH (i0 + 1)) as (j & ? & ? & ? & ?); [lia|lia|done|]. exists j. split; [lia|]. by rewrite app_nil_l.
    + exists i0. split; [lia|]. split; [done|]. split; [apply rest_rows_step; lia|done].
Qed.

(** The next bit of the current word. *)
Lemma next_bit_spec v i0 i1 it1 it2 l1 i2 l2 :
  two_wf v -> 0 <= i0 < k -> bv_yields it1 l1 -> bv_yields it2 (i2 :: l2) ->
  (forall i, i ∈ l1 -> bit (row_of v i0).1 i = true) -> bv_empty (row_of v i0).1 = false ->
  exists it', next_bit (MkIterator v i0 i1 it1 it2) = Ok (i0 * w * w + i1 * w + i2, it') /\
    two_yields it' (((fun j => i0 * w * w + i1 * w + j) <$> l2) ++ concat (word_elems v i0 <$> l1) ++ rest_rows v (i0 + 1)).
Proof.
  intros Hv Hi Hy1 Hy2 Hsub He. unfold next_bit. cbn [bv_ i0_ i1_ it1_ it2_]. rewrite (yields_hasNext _ _ Hy2). cbn [negb].
  apply yields_cons in Hy2 as (_ & it2' & E & Hy2). rewrite E, bind_ok. eexists. split; [done|].
  rewrite (yields_hasNext _ _ Hy1), (yields_hasNext _ _ Hy2). split; [done|]. cbn [bv_ i0_ i1_ it1_ it2_].
  destruct l1 as [|a l1], l2 as [|b l2]; cbn [negb andb].
  1: split; [lia|]; exists [], []; split; [done|]; split; [done|]; left; done.
  all: split; [lia|]; eexists _, _; split; [exact Hy1|]; split; [exact Hy2|]; right; split; [by (left + right)|]; split; [lia|done].
Qed.

(** The next word of the current row, and its first bit. *)
Lemma next_word_spec v i0 i1 it1 it2 a l1 i l :
  two_wf v -> 0 <= i0 < k -> bv_empty (row_of v i0).1 = false -> (forall i, i ∈ a :: l1 -> bit (row_of v i0).1 i = true) ->
  bv_yields it1 (a :: l1) -> i :: l = concat (word_elems v i0 <$> a :: l1) ++ rest_rows v (i0 + 1) ->
  exists it', (it ← next_word (MkIterator v i0 i1 it1 it2); next_bit it) = Ok (i, it') /\ two_yields it' l.
Proof.
  intros Hv Hi He Hsub Hy E. unfold next_word. cbn [bv_ i0_ i1_ it1_ it2_]. rewrite (yields_hasNext _ _ Hy). cbn [negb].
  apply yields_cons in Hy as (_ & it1' & En & Hy). rewrite En, bind_ok.
  assert (Hba : bit (row_of v i0).1 a = true) by (apply Hsub; left).
  rewrite get2_ok, !bind_ok by (by apply wf_sized || by apply (bit_range (B := BV)) in Hba || done).
  pose proof (word_elems_some v i0 a Hv Hi Hba) as Hsome. pose proof Hv as (_ & _ & Hr).
  destruct (row_word _ a (Hr i0 Hi)) as (_ & Hww & _); [by apply bit1_rbit; [apply Hr|]|].
  pose proof (iterator_spec _ Hww) as Hy2. fold (elems ((row_of v i0).2 !!! Z.to_nat a)) in Hy2.
  rewrite fmap_cons in E. cbn [concat] in E. unfold word_elems at 1 in E. unfold word_elems in Hsome.
  destruct (elems ((row_of v i0).2 !!! Z.to_nat a)) as [|i2 l2]; [done|]. rewrite fmap_cons, <- app_assoc in E. injection E as -> ->.
  eapply next_bit_spec; [done..| |done]. intros b Hb. apply Hsub. by right.
Qed.

Lemma two_yields_next it i l : two_yields it (i :: l) -> exists it', next it = Ok (i, it') /\ two_yields it' l.
Proof.
  destruct it as [v i0 i1 it1 it2]. intros (Hv & Hi & l1 & l2 & Hy1 & Hy2 & Hc). cbn [bv_ i0_ i1_ it1_ it2_] in *. unfold next. cbn [bv_ i0_ i1_ it1_ it2_].
  rewrite (yields_hasNext it1 l1 Hy1), (yields_hasNext it2 l2 Hy2). pose proof Hv as (_ & _ & Hr).
  destruct Hc as [(-> & -> & El)|(Hne & Hlt & Hsub & He & El)]; cbn [negb andb].
  - destruct (next_row_spec v i1 it1 it2 (Z.to_nat (k - i0)) i0) as (j & Hj & He & Erest & En); [done|lia|lia|by rewrite <- El|].
    rewrite En, bind_ok. cbn [it2_]. rewrite (yields_hasNext it2 [] Hy2). cbn [negb].
    assert (Hj' : 0 <= j < k) by lia. destruct (Hr j Hj') as (Hr1 & _). pose proof (iterator_spec _ Hr1) as Hy. fold (elems (row_of v j).1) in Hy.
    rewrite Erest in El. unfold row_elems in El. destruct (elems (row_of v j).1) as [|a l1] eqn:Ea; [by rewrite (proj2 (empty_elems _ Hr1) Ea) in He|].
    eapply next_word_spec; [done..| |exact Hy|exact El]. intros b Hb. rewrite <- Ea in Hb. by apply elem_of_elems.
  - assert ((negb match l1 with [] => false | _ => true end && negb match l2 with [] => false | _ => true end) = false) as ->
      by (destruct Hne; by destruct l1, l2). rewrite bind_ok. cbn [it2_]. rewrite (yields_hasNext it2 l2 Hy2).
    destruct l2 as [|i2 l2]; cbn [negb].
    + destruct l1 as [|a l1]; [by destruct Hne|]. rewrite fmap_nil, app_nil_l in El. eapply next_word_spec; [done|lia|done..].
    + rewrite bind_ok, fmap_cons in *. injection El as -> ->. eapply next_bit_spec; [done|lia|done..].
Qed.

(** At the start all set bits are to come. *)
Lemma concat_ones {A} (f : Z -> list A) p n :
  (forall i, 0 <= i < n -> p i = false -> f i = []) -> concat (f <$> ones p n) = concat (f <$> seqZ 0 n).
Proof.
  intros Hf. assert (Hl : Forall (fun i => p i = false -> f i = []) (seqZ 0 n)).
  { apply Forall_forall. intros i Hi%elem_of_seqZ. apply Hf. lia. }
  unfold ones. induction Hl as [|i l Hi Hl IH]; [done|]. rewrite filter_cons, fmap_cons. cbn [concat].
  destruct (decide (p i = true)) as [E|E]; [rewrite fmap_cons; cbn [concat]; by rewrite IH|].
  apply not_true_is_false in E. by rewrite (Hi E).
Qed.

Lemma fmap_concat {A C} (f : A -> C) (l : list (list A)) : f <$> concat l = concat ((fun x : list A => f <$> x) <$> l).
Proof. induction l as [|x l IH]; [done|]. rewrite fmap_cons. cbn [concat]. by rewrite fmap_app, IH. Qed.

Lemma two_elems v : two_wf v -> ones (two_bit v) (w * w * k) = rest_rows v 0.
Proof.
  intros Hv. pose proof (width_ok (w := w)) as Hw. pose proof (levels_ok (k := k)) as Hk. pose proof Hv as (_ & _ & Hr).
  replace (w * w * k) with (Z.of_nat (Z.to_nat k) * (w * w)) by lia. rewrite ones_rows by nia. unfold rest_rows. rewrite Z.sub_0_r, Z2Nat.id by lia.
  f_equal. apply list_fmap_ext. intros n i0 Hi0. apply list_elem_of_lookup_2, elem_of_seqZ in Hi0. assert (Hi : 0 <= i0 < k) by lia. clear Hi0 n.
  replace (ones (fun i => two_bit v (i0 * (w * w) + i)) (w * w)) with (ones (fun i => two_bit v (i0 * (w * w) + i)) (Z.of_nat (Z.to_nat w) * w)) by (f_equal; lia).
  rewrite ones_rows, Z2Nat.id by lia. rewrite fmap_concat, <- list_fmap_compose.
  rewrite <- (concat_ones _ (bit (row_of v i0).1)).
  - unfold row_elems, elems. cbn [bv_kSize basic_ops]. f_equal. apply list_fmap_ext. intros n i1 Hi1. apply list_elem_of_lookup_2, elem_of_ones in Hi1 as [Hi1 Hb]. unfold compose, word_elems.
    rewrite <- list_fmap_compose. unfold elems. cbn [bv_kSize basic_ops]. rewrite (ones_ext _ (bit ((row_of v i0).2 !!! Z.to_nat i1))).
    + apply list_fmap_ext. intros m i2 _. unfold compose. ring.
    + intros i2 Hi2. replace (i0 * (w * w) + (i1 * w + i2)) with (i0 * w * w + i1 * w + i2) by ring. rewrite two_bit_at by done. unfold rbit. by rewrite Hb.
  - intros i1 Hi1 Hb. unfold compose. rewrite (proj2 (ones_nil _ _)); [done|]. intros i2 Hi2.
    replace (i0 * (w * w) + (i1 * w + i2)) with (i0 * w * w + i1 * w + i2) by ring. rewrite two_bit_at by done. by apply rbit_out.
Qed.

Lemma two_iterator v : two_wf v -> two_yields (iterator v) (ones (two_bit v) (w * w * k)).
Proof.
  intros Hv. rewrite two_elems by done. pose proof (levels_ok (k := k)) as Hk. split; [done|]. split; [cbn; lia|].
  assert (Hy : bv_yields (B := BV) (iterator_clear (w := w) inhabitant) []).
  { pose proof (width_ok (w := w)). assert (bv_wf (Basic 0 : BV)) as H0' by (split; [done|apply Bits.pow2_pos; lia]).
    pose proof (iterator_spec _ H0') as Hy. rewrite (proj2 (ones_nil _ _)) in Hy; [done|]. intros i _. apply (proj2 (clear_spec (Basic 0 : BV) (bv_wf_shape _ H0')) i). }
  exists [], []. split; [done|]. split; [done|]. by left.
Qed.

#[export] Instance two_level_laws : BVLaws (TwoLevelBitVector k w).
Proof.
  refine {| bit := two_bit; bv_shape := two_shape; bv_wf := two_wf; bv_yields := two_yields |}.
  - pose proof (width_ok (w := w)). pose proof (levels_ok (k := k)). cbn. unfold kSize. nia.
  - intros v (? & ? & Hr). split; [done|]. split; [done|]. intros i0 Hi. destruct (Hr i0 Hi) as (Hr1 & Hl & Hw).
    split; [by apply bv_wf_shape|]. split; [done|]. intros i1 Hi1. exact (proj1 (Hw i1 Hi1)).
  - apply two_range.
  - apply two_clear_all.
  - apply two_set_all.
  - apply two_empty.
  - apply two_set.
  - apply two_clear.
  - apply two_get.
  - apply two_first.
  - apply (two_assigns orb union_row); [done|apply union_row_spec].
  - apply (two_assigns andb intersection_row); [done|apply intersection_row_spec].
  - apply (two_assigns (fun a b => a && negb b) difference_row); [done|apply difference_row_spec].
  - apply two_copy.
  - apply two_intersects.
  - apply two_iterator.
  - intros it Hy. by apply two_yields_hasNext in Hy.
  - intros it i l Hy. split; [by apply two_yields_hasNext in Hy|by apply two_yields_next].
Defined.
End Laws.
