(* ===== verification/BitVectorSpec.v ===== *)
(** * Bit vectors as sets

    What a client sees of a bit vector class: programs over a few vectors, run
    on the class and on finite sets.  Shown: on every class that meets the
    laws of BitVector.v, and so on both classes of
    [src/ufo-rt/lib/sanitizer_common/sanitizer_bitvector.h], a program answers
    as it does on sets; the checks of the two-level class let one index through
    that is out of range. *)
From stdpp Require Import base numbers list sets gmap.
From Stdlib Require Import ZArith Lia.
From S2P Require Import Prelude BitVector BasicBitVector TwoLevelBitVector.

Local Open Scope Z_scope.

(** Calls on the vectors with the numbers [r] and [s]. *)
Inductive call : Type :=
| CClear (r : nat)
| CSetAll (r : nat)
| CEmpty (r : nat)
| CSetBit (r : nat) (i : Z)
| CClearBit (r : nat) (i : Z)
| CGetBit (r : nat) (i : Z)
| CFirst (r : nat)
| CUnion (r s : nat)
| CIntersection (r s : nat)
| CDifference (r s : nat)
| CCopy (r s : nat)
| CIntersects (r s : nat)
| CIterate (r : nat).

Inductive answer : Type :=
| ANone
| ABool (b : bool)
| AIndex (i : Z)
| AList (l : list Z).

(** ** On sets *)

Section Sets.
(** [keeps]: whether a vector copied to itself keeps its members. *)
Context (size : Z) (keeps : bool).

Definition members (s : gset Z) : list Z := ones (fun i => bool_decide (i ∈ s)) size.

Definition full : gset Z := list_to_set (seqZ 0 size).

(** [None]: the call is not allowed. *)
Definition set_call (vs : list (gset Z)) (c : call) : option (answer * list (gset Z)) :=
  let at_ r := vs !! r in
  let idx i := guard (0 <= i < size) in
  match c with
  | CClear r => _ ← at_ r; Some (ANone, <[r := ∅]> vs)
  | CSetAll r => _ ← at_ r; Some (ANone, <[r := full]> vs)
  | CEmpty r => a ← at_ r; Some (ABool (bool_decide (members a = [])), vs)
  | CSetBit r i => a ← at_ r; _ ← idx i; Some (ABool (bool_decide (i ∉ a)), <[r := a ∪ {[i]}]> vs)
  | CClearBit r i => a ← at_ r; _ ← idx i; Some (ABool (bool_decide (i ∈ a)), <[r := a ∖ {[i]}]> vs)
  | CGetBit r i => a ← at_ r; _ ← idx i; Some (ABool (bool_decide (i ∈ a)), vs)
  | CFirst r => a ← at_ r; i ← head (members a); Some (AIndex i, <[r := a ∖ {[i]}]> vs)
  | CUnion r s => a ← at_ r; b ← at_ s; Some (ABool (bool_decide (a ∪ b <> a)), <[r := a ∪ b]> vs)
  | CIntersection r s => a ← at_ r; b ← at_ s; Some (ABool (bool_decide (a ∩ b <> a)), <[r := a ∩ b]> vs)
  | CDifference r s => a ← at_ r; b ← at_ s; Some (ABool (bool_decide (a ∖ b <> a)), <[r := a ∖ b]> vs)
  | CCopy r s => _ ← at_ r; b ← at_ s; Some (ANone, <[r := if bool_decide (r = s) && negb keeps then ∅ else b]> vs)
  | CIntersects r s => a ← at_ r; b ← at_ s; Some (ABool (bool_decide (a ∩ b <> ∅)), vs)
  | CIterate r => a ← at_ r; Some (AList (members a), vs)
  end.

Fixpoint set_run (vs : list (gset Z)) (cs : list call) : option (list answer) :=
  match cs with
  | [] => Some []
  | c :: cs => '(a, vs) ← set_call vs c; l ← set_run vs cs; Some (a :: l)
  end.
End Sets.

(** ** On a bit vector class *)

(** [v.copyFrom(v)], where the vector written and the vector read are one
    object.  In the other binary operations that case needs no text of its own:
    they read every word of the argument before they write the word of [this]
    at the same place, and [setUnion] clears a word only where the argument has
    members and [this] has none. *)
Class BVSelf (B : Type) : Type := {
  bv_keeps : bool;
  bv_copySelf : B -> res B;
}.
Arguments bv_keeps B {_}.
#[global] Hint Mode BVSelf ! : typeclass_instances.

Class BVSelfLaws (B : Type) `{BVLaws B} `{BVSelf B} : Prop :=
  copySelf_spec (v : B) : bv_wf v -> exists v', bv_copySelf v = Ok v' /\ bv_wf v' /\ forall i, bit v' i = bv_keeps B && bit v i.

#[export] Instance basic_self {w : Z} : BVSelf (BasicBitVector w) :=
  {| bv_keeps := true; bv_copySelf := fun v => BasicBitVector.copyFrom v v |}.
#[export] Instance two_self {k w : Z} : BVSelf (TwoLevelBitVector k w) :=
  {| bv_keeps := false; bv_copySelf := copyFromSelf |}.

#[export] Instance basic_self_laws {w : Z} `{Width w} : BVSelfLaws (BasicBitVector w).
Proof. intros v Hv. destruct (copyFrom_spec v v) as (v' & E & Hw & Hb); [by apply bv_wf_shape|done|]. exists v'. by split_and!. Qed.

#[export] Instance two_self_laws {k w : Z} `{Levels k} `{Width w} : BVSelfLaws (TwoLevelBitVector k w).
Proof. intros v Hv. exact (two_copy_self v (bv_wf_shape v Hv)). Qed.

Section Vectors.
Context {B : Type} `{BVOps B} `{BVSelf B}.

Definition vec (vs : list B) (r : nat) : res B := res_of_option EOutOfBounds (vs !! r).

(** [while (it.hasNext()) ... it.next()] *)
Fixpoint iterate (fuel : nat) (it : bv_Iterator B) : res (list Z) :=
  match fuel with
  | O => Err EHang
  | S fuel => if bv_hasNext it then '(i, it) ← bv_next it; l ← iterate fuel it; Ok (i :: l) else Ok []
  end.

Definition bv_call (vs : list B) (c : call) : res (answer * list B) :=
  let update r (o : res (bool * B)) := '(b, x) ← o; Ok (ABool b, <[r := x]> vs) in
  match c with
  | CClear r => x ← vec vs r; Ok (ANone, <[r := bv_clear x]> vs)
  | CSetAll r => x ← vec vs r; Ok (ANone, <[r := bv_setAll x]> vs)
  | CEmpty r => x ← vec vs r; Ok (ABool (bv_empty x), vs)
  | CSetBit r i => x ← vec vs r; update r (bv_setBit x i)
  | CClearBit r i => x ← vec vs r; update r (bv_clearBit x i)
  | CGetBit r i => x ← vec vs r; b ← bv_getBit x i; Ok (ABool b, vs)
  | CFirst r => x ← vec vs r; '(i, x) ← bv_getAndClearFirstOne x; Ok (AIndex i, <[r := x]> vs)
  | CUnion r s => x ← vec vs r; y ← vec vs s; update r (bv_setUnion x y)
  | CIntersection r s => x ← vec vs r; y ← vec vs s; update r (bv_setIntersection x y)
  | CDifference r s => x ← vec vs r; y ← vec vs s; update r (bv_setDifference x y)
  | CCopy r s =>
      x ← vec vs r;
      y ← vec vs s;
      x ← (if bool_decide (r = s) then bv_copySelf x else bv_copyFrom x y);
      Ok (ANone, <[r := x]> vs)
  | CIntersects r s => x ← vec vs r; y ← vec vs s; b ← bv_intersectsWith x y; Ok (ABool b, vs)
  | CIterate r => x ← vec vs r; l ← iterate (bv_fuel B) (bv_iterator x); Ok (AList l, vs)
  end.

Fixpoint bv_run (vs : list B) (cs : list call) : res (list answer) :=
  match cs with
  | [] => Ok []
  | c :: cs => '(a, vs) ← bv_call vs c; l ← bv_run vs cs; Ok (a :: l)
  end.
End Vectors.

(** ** The refinement *)

Section Refinement.
Context {B : Type} `{BVSelfLaws B}.
#[local] Abbreviation K := (bv_kSize B).
Implicit Types x y : B.

Definition stands_for (x : B) (a : gset Z) : Prop := bv_wf x /\ forall i, i ∈ a <-> bit x i = true.

Lemma stands_decide x a i : stands_for x a -> bool_decide (i ∈ a) = bit x i.
Proof. intros [_ Hb]. apply eq_true_iff_eq. rewrite bool_decide_eq_true. apply Hb. Qed.

Lemma stands_members x a : stands_for x a -> members K a = elems x.
Proof. intros Hx. apply ones_ext. intros i _. by apply stands_decide. Qed.

Lemma iterate_spec l : forall fuel (it : bv_Iterator B), bv_yields it l -> (length l < fuel)%nat -> iterate fuel it = Ok l.
Proof.
  induction l as [|i l IH]; intros fuel it Hy Hf; (destruct fuel as [|fuel]; [cbn in Hf; lia|]); cbn [iterate].
  - by rewrite (yields_nil it Hy).
  - destruct (yields_cons it i l Hy) as (-> & it' & -> & Hy'). rewrite bind_ok, (IH fuel it') by (done || cbn in Hf; lia). done.
Qed.

(** The flag of a binary operation. *)
Lemma changed_decide x x' a a' (c : bool) :
  stands_for x a -> stands_for x' a' -> (c = true <-> exists i, bit x' i <> bit x i) -> c = bool_decide (a' <> a).
Proof.
  intros Hx Hx' Hc. apply eq_true_iff_eq. rewrite Hc, bool_decide_eq_true. split.
  - intros (i & Hi) ->. apply Hi. rewrite <- (stands_decide x a i Hx). symmetry. by apply stands_decide.
  - intros Hne. destruct c; [by apply Hc|]. destruct Hne. apply set_eq. intros i. destruct Hx as [_ Hx], Hx' as [_ Hx']. rewrite Hx, Hx'.
    destruct (decide (bit x' i = bit x i)) as [->|Hn]; [done|]. cut (false = true); [done|]. apply Hc. eauto.
Qed.

Lemma assign_call op f (F : gset Z -> gset Z -> gset Z) (vs : list B) r x y a b :
  bv_assigns bv_wf bit op f -> (forall a b i, i ∈ F a b <-> f (bool_decide (i ∈ a)) (bool_decide (i ∈ b)) = true) ->
  stands_for x a -> stands_for y b ->
  exists x', ('(c, z) ← op x y; Ok (ABool c, <[r := z]> vs)) = Ok (ABool (bool_decide (F a b <> a)), <[r := x']> vs) /\ stands_for x' (F a b).
Proof.
  intros Hop HF Hx Hy. destruct (Hop x y) as (c & x' & -> & Hx' & Hb & Hc); [by destruct Hx|by destruct Hy|]. rewrite bind_ok.
  assert (Hs : stands_for x' (F a b)) by (split; [done|]; intros i; by rewrite HF, Hb, (stands_decide x a i Hx), (stands_decide y b i Hy)).
  exists x'. split; [|done]. do 3 f_equal. by apply (changed_decide x x').
Qed.

Lemma call_refines vs ss c ans ss' :
  Forall2 stands_for vs ss -> set_call K (bv_keeps B) ss c = Some (ans, ss') ->
  exists vs', bv_call vs c = Ok (ans, vs') /\ Forall2 stands_for vs' ss'.
Proof.
  intros Hvs. assert (Hat : forall r a, ss !! r = Some a -> exists x, vec vs r = Ok x /\ stands_for x a).
  { intros r a Ha. destruct (Forall2_lookup_r _ _ _ _ _ Hvs Ha) as (x & Hx & Hs). exists x. unfold vec. by rewrite Hx. }
  assert (Hput : forall r x a, stands_for x a -> Forall2 stands_for (<[r := x]> vs) (<[r := a]> ss)) by (intros; by apply Forall2_insert).
  destruct c as [r|r|r|r i|r i|r i|r|r s|r s|r s|r s|r s|r]; cbn [set_call bv_call]; intros E;
    apply bind_Some in E as (a & Ha & E); destruct (Hat _ _ Ha) as (x & -> & Hx); rewrite bind_ok; pose proof Hx as [Hw Hb].
  - injection E as <- <-. eexists. split; [done|]. apply Hput. destruct (clear_spec x (bv_wf_shape x Hw)) as [Hc Hz]. split; [done|]. intros i. rewrite Hz. set_solver +.
  - injection E as <- <-. eexists. split; [done|]. apply Hput. destruct (setAll_spec x (bv_wf_shape x Hw)) as [Hc Hz]. split; [done|]. intros i.
    unfold full. rewrite elem_of_list_to_set, elem_of_seqZ. split; [intros ?; apply Hz; lia|]. intros ?%bit_range. lia.
  - injection E as <- <-. eexists. split; [|done]. do 3 f_equal. apply eq_true_iff_eq. rewrite bool_decide_eq_true, (stands_members x a Hx). by apply empty_elems.
  - apply bind_Some in E as (Hi & _ & E). injection E as <- <-. destruct (setBit_spec x i Hw Hi) as (x' & -> & Hx' & Hb'). rewrite bind_ok. eexists. split.
    + do 3 f_equal. rewrite <- (stands_decide x a i Hx). by rewrite bool_decide_not.
    + apply Hput. split; [done|]. intros j. rewrite Hb', orb_true_iff, Z.eqb_eq, <- Hb. set_solver +.
  - apply bind_Some in E as (Hi & _ & E). injection E as <- <-. destruct (clearBit_spec x i Hw Hi) as (x' & -> & Hx' & Hb'). rewrite bind_ok. eexists. split.
    + do 3 f_equal. symmetry. by apply stands_decide.
    + apply Hput. split; [done|]. intros j. rewrite Hb', andb_true_iff, negb_true_iff, Z.eqb_neq, <- Hb. set_solver +.
  - apply bind_Some in E as (Hi & _ & E). injection E as <- <-. rewrite getBit_spec, bind_ok by done. eexists. split; [|done]. do 3 f_equal. symmetry. by apply stands_decide.
  - apply bind_Some in E as (i & Hi & E). injection E as <- <-. rewrite (stands_members x a Hx) in Hi. destruct (elems x) as [|j l] eqn:El; [done|]. cbn in Hi. injection Hi as ->.
    destruct (first_elems x i l Hw El) as (x' & -> & Hx' & _ & Hb'). rewrite bind_ok. eexists. split; [done|]. apply Hput. split; [done|].
    intros j. rewrite Hb', andb_true_iff, negb_true_iff, Z.eqb_neq, <- Hb. set_solver +.
  - apply bind_Some in E as (b & Hsb & E). injection E as <- <-. destruct (Hat _ _ Hsb) as (y & -> & Hy). rewrite bind_ok.
    destruct (assign_call bv_setUnion orb (∪) vs r x y a b setUnion_spec) as (x' & -> & Hs); [|done..|eexists; split; [done|by apply Hput]].
    intros a' b' i. rewrite orb_true_iff, !bool_decide_eq_true. set_solver +.
  - apply bind_Some in E as (b & Hsb & E). injection E as <- <-. destruct (Hat _ _ Hsb) as (y & -> & Hy). rewrite bind_ok.
    destruct (assign_call bv_setIntersection andb (∩) vs r x y a b setIntersection_spec) as (x' & -> & Hs); [|done..|eexists; split; [done|by apply Hput]].
    intros a' b' i. rewrite andb_true_iff, !bool_decide_eq_true. set_solver +.
  - apply bind_Some in E as (b & Hsb & E). injection E as <- <-. destruct (Hat _ _ Hsb) as (y & -> & Hy). rewrite bind_ok.
    destruct (assign_call bv_setDifference (fun p q => p && negb q) (∖) vs r x y a b setDifference_spec) as (x' & -> & Hs); [|done..|eexists; split; [done|by apply Hput]].
    intros a' b' i. rewrite andb_true_iff, negb_true_iff, bool_decide_eq_true, bool_decide_eq_false. set_solver +.
  - apply bind_Some in E as (b & Hsb & E). injection E as <- <-. destruct (Hat _ _ Hsb) as (y & -> & Hy). rewrite bind_ok. destruct Hy as [Hyw Hyb].
    case_bool_decide as Hrs.
    + subst s. assert (b = a) as -> by congruence. destruct (copySelf_spec x Hw) as (x' & -> & Hx' & Hb'). rewrite bind_ok. eexists. split; [done|]. apply Hput.
      split; [done|]. intros i. rewrite Hb'. destruct (bv_keeps B); cbn; [by rewrite Hb|]. set_solver +.
    + destruct (copyFrom_spec x y (bv_wf_shape x Hw) Hyw) as (x' & -> & Hx' & Hb'). rewrite bind_ok. eexists. split; [done|]. apply Hput. split; [done|]. intros i. by rewrite Hb'.
  - apply bind_Some in E as (b & Hsb & E). injection E as <- <-. destruct (Hat _ _ Hsb) as (y & -> & Hy). rewrite bind_ok. destruct Hy as [Hyw Hyb].
    destruct (intersectsWith_spec x y Hw Hyw) as (c & -> & Hc). rewrite bind_ok. eexists. split; [|done]. do 3 f_equal. apply eq_true_iff_eq. rewrite Hc, bool_decide_eq_true.
    setoid_rewrite <- Hb. setoid_rewrite <- Hyb. split; [set_solver +|]. intros [i Hi]%set_choose_L. set_solver.
  - injection E as <- <-. rewrite (iterate_spec (elems x)) by (by apply iterator_spec || apply elems_length). rewrite bind_ok. eexists. split; [|done]. by rewrite (stands_members x a Hx).
Qed.

Lemma run_refines cs : forall vs ss l, Forall2 stands_for vs ss -> set_run K (bv_keeps B) ss cs = Some l -> bv_run vs cs = Ok l.
Proof.
  induction cs as [|c cs IH]; intros vs ss l Hvs E; cbn [set_run bv_run] in *; [by injection E as <-|].
  apply bind_Some in E as ((a & ss') & Ec & E). apply bind_Some in E as (l' & El & E). injection E as <-.
  destruct (call_refines vs ss c a ss' Hvs Ec) as (vs' & -> & Hvs'). rewrite bind_ok, (IH vs' ss' l' Hvs' El). done.
Qed.

(** Vectors of any contents, cleared. *)
Lemma cleared_stand (vs : list B) : Forall bv_shape vs -> Forall2 stands_for (bv_clear <$> vs) (replicate (length vs) ∅).
Proof.
  induction 1 as [|x vs Hx _ IH]; [constructor|]. cbn. constructor; [|exact IH]. destruct (clear_spec x Hx) as [Hc Hz]. split; [done|]. intros i. rewrite Hz. set_solver.
Qed.
End Refinement.

Lemma shape_of_lists {k w : Z} `{Levels k} `{Width w} (v : TwoLevelBitVector k w) :
  zlen v.(l1_) = k -> zlen v.(l2_) = k -> Forall bv_shape v.(l1_) -> Forall (fun r => zlen r = w /\ Forall bv_shape r) v.(l2_) -> two_shape v.
Proof.
  intros H1 H2 F1 F2. split; [done|]. split; [done|]. intros i0 Hi. unfold row_of, zlen in *. cbn [fst snd].
  destruct (Forall_lookup_total_1 _ _ (Z.to_nat i0) F2) as [Hr F]; [lia|]. split; [apply (Forall_lookup_total_1 _ _ _ F1); lia|].
  split; [done|]. intros i1 Hi1. apply (Forall_lookup_total_1 _ _ _ F). lia.
Qed.

(** C23: two-level bit vectors implement sets.  For every number of words of the
    first level and every word width up to 64: after the vectors, of any
    contents, are cleared, every program of calls that is allowed on sets (its
    indices are in range, and the first member is taken of sets that have one)
    runs on the vectors without failing, and every answer is that of the sets:
    the flags of the updates, tests, first members and the lists of the
    iterator.  A copy of a vector to itself is no copy but empties the vector:
    [copyFrom] clears before it reads. *)
Theorem two_level_refines_sets (k w : Z) `{Levels k} `{Width w} (vs : list (TwoLevelBitVector k w)) cs l :
  Forall bv_shape vs -> set_run (kSize (k := k) (w := w)) false (replicate (length vs) ∅) cs = Some l -> bv_run (bv_clear <$> vs) cs = Ok l.
Proof. intros Hvs E. eapply run_refines; [by apply cleared_stand|exact E]. Qed.

(** Words of the second level that have stale bits. *)
Definition stale : TwoLevelBitVector 3 8 := TwoLevel (replicate 3 (Basic 255)) (replicate 3 (replicate 8 (Basic 85))).

Lemma two_level_refines_sets_witness :
  bv_run (bv_clear <$> [stale; stale])
    [CSetBit 0 5; CSetBit 0 64; CSetBit 0 5; CSetBit 1 191; CUnion 0 1; CIterate 0; CDifference 0 1; CIntersects 0 1; CFirst 0; CCopy 1 0; CCopy 0 0; CIterate 1; CIterate 0] =
  Ok [ABool true; ABool true; ABool false; ABool true; ABool true; AList [5; 64; 191]; ABool true; ABool false; AIndex 5; ANone; ANone; AList [64]; AList []].
Proof.
  apply (two_level_refines_sets 3 8); [|vm_compute; reflexivity].
  repeat constructor; apply (shape_of_lists stale); (reflexivity || (repeat constructor; easy)).
Defined.

(** The index checks of the two-level vectors let the size itself through.
    For an index equal to the number of bits, which is out of range, all four
    checks of [setBit], [clearBit] and [getBit] pass, and the members then
    access the first level beyond its end. *)
Theorem index_of_size_unchecked (k w : Z) `{Levels k} `{Width w} (v : TwoLevelBitVector k w) :
  two_shape v ->
  check (k := k) (w := w) (kSize (k := k) (w := w)) = Ok tt /\ setBit v (kSize (k := k) (w := w)) = Err EOutOfBounds /\
  clearBit v (kSize (k := k) (w := w)) = Err EOutOfBounds /\ getBit v (kSize (k := k) (w := w)) = Err EOutOfBounds.
Proof.
  intros (Hl & _). pose proof (width_ok (w := w)). pose proof (levels_ok (k := k)). unfold setBit, clearBit, getBit, check. rewrite Z.leb_refl, !bind_ok.
  assert (idx0 (w := w) (kSize (k := k) (w := w)) = Ok k /\ idx1 (w := w) (kSize (k := k) (w := w)) = Ok 0 /\ idx2 (w := w) (kSize (k := k) (w := w)) = Ok 0) as (-> & -> & ->).
  { unfold idx0, idx1, idx2, kSize. replace (w * w * k) with (k * (w * w)) by ring. rewrite Z.div_mul by nia. replace (k * (w * w)) with (k * w * w) by ring.
    rewrite Z.div_mul, !Z.mod_mul by lia. rewrite Z.leb_refl, (proj2 (Z.leb_le 0 w)) by lia. done. }
  assert (aget v.(l1_) k = Err EOutOfBounds) as E.
  { unfold aget. rewrite (proj2 (Z.ltb_ge _ _)) by lia. rewrite lookup_ge_None_2; [done|]. unfold zlen in Hl. lia. }
  rewrite !bind_ok, E. done.
Qed.

Lemma index_of_size_unchecked_witness :
  setBit (TwoLevel [Basic 0] [replicate 8 (Basic 0)] : TwoLevelBitVector 1 8) 64 = Err EOutOfBounds.
Proof.
  assert (Hs : two_shape (TwoLevel [Basic 0] [replicate 8 (Basic 0)] : TwoLevelBitVector 1 8)) by (apply shape_of_lists; (reflexivity || (repeat constructor; easy))).
  apply (index_of_size_unchecked 1 8 (TwoLevel [Basic 0] [replicate 8 (Basic 0)]) Hs).
Defined.
