(* ===== verification/BVGraph.v ===== *)
(** * Directed graphs of bit vectors

    [BVGraph] of [src/ufo-rt/lib/sanitizer_common/sanitizer_bvgraph.h]: one bit
    vector of successors for each node, and two vectors of temporaries.  The
    bit vector class is the parameter of the template; the theorems are proved
    against the laws of BitVector.v.

    Shown: every member keeps the graph well formed and has the effect on the
    edges that its comment states; [isReachable] decides reachability, and its
    loop ends; [findPath] finds a path of at most the given number of nodes
    where there is one, and [findShortestPath] a shortest one. *)
From stdpp Require Import base numbers list relations.
From Stdlib Require Import ZArith Lia.
From S2P Require Import Prelude BitVector BasicBitVector.

Local Open Scope Z_scope.

Record BVGraph (B : Type) : Type := MkGraph {
  v : list B;
  t1 : B;
  t2 : B;
}.
Arguments MkGraph {B} _ _ _.
Arguments v {B} _.
Arguments t1 {B} _.
Arguments t2 {B} _.

Section BVGraph.
Context {B : Type} `{BVOps B}.

Definition size : Z := bv_kSize B.

Definition set_v (g : BVGraph B) (l : list B) : BVGraph B := MkGraph l g.(t1) g.(t2).

Definition clear (g : BVGraph B) : BVGraph B := set_v g ((bv_clear : B -> B) <$> g.(v)).

Definition empty (g : BVGraph B) : bool := forallb bv_empty g.(v).

Definition check (idx1 idx2 : Z) : res unit :=
  if idx1 <? size then if idx2 <? size then Ok tt else Err EDie else Err EDie.

Definition addEdge (g : BVGraph B) (from to : Z) : res (bool * BVGraph B) :=
  _ ← check from to;
  x ← aget g.(v) from;
  '(r, x) ← bv_setBit x to;
  l ← aset g.(v) from x;
  Ok (r, set_v g l).

(** The body of the loop of [addEdges]; [added] is [added_edges[0 .. res)]. *)
Definition add_one (to max_added_edges : Z) (node : Z) (s : list B * list Z) : res (list B * list Z) :=
  let '(vs, added) := s in
  x ← aget vs node;
  '(r, x) ← bv_setBit x to;
  vs ← aset vs node x;
  Ok (vs, if r : bool then if zlen added <? max_added_edges then added ++ [node] else added else added).

Definition addEdges (g : BVGraph B) (from : B) (to max_added_edges : Z) : res (list Z * BVGraph B) :=
  t ← bv_copyFrom g.(t1) from;
  '(t, (vs, added)) ← bv_drain (bv_fuel B) (add_one to max_added_edges) t (g.(v), []);
  Ok (added, MkGraph vs t g.(t2)).

(** The version that checks its arguments, and the one without. *)
Definition hasEdge_checked (g : BVGraph B) (from to : Z) : res bool :=
  _ ← check from to; x ← aget g.(v) from; bv_getBit x to.

Definition hasEdge (g : BVGraph B) (from to : Z) : res bool := x ← aget g.(v) from; bv_getBit x to.

Definition removeEdge (g : BVGraph B) (from to : Z) : res (bool * BVGraph B) :=
  x ← aget g.(v) from;
  '(r, x) ← bv_clearBit x to;
  l ← aset g.(v) from x;
  Ok (r, set_v g l).

Definition remove_to (to : B) (from : Z) (s : bool * list B) : res (bool * list B) :=
  let '(r, vs) := s in
  x ← aget vs from;
  '(c, x) ← bv_setDifference x to;
  vs ← aset vs from x;
  Ok (if c : bool then true else r, vs).

Definition removeEdgesTo (g : BVGraph B) (to : B) : res (bool * BVGraph B) :=
  '(r, vs) ← foldM (remove_to to) (seqZ 0 size) (false, g.(v));
  Ok (r, set_v g vs).

Definition remove_from (idx : Z) (s : bool * list B) : res (bool * list B) :=
  let '(r, vs) := s in
  x ← aget vs idx;
  if negb (bv_empty x) then vs ← aset vs idx (bv_clear x); Ok (true, vs) else Ok (r, vs).

Definition removeEdgesFrom (g : BVGraph B) (from : B) : res (bool * BVGraph B) :=
  t ← bv_copyFrom g.(t1) from;
  '(t, (r, vs)) ← bv_drain (bv_fuel B) remove_from t (false, g.(v));
  Ok (r, MkGraph vs t g.(t2)).

(** [removeEdgesFrom(uptr)] *)
Definition removeEdgesFrom_node (g : BVGraph B) (from : Z) : res (BVGraph B) :=
  x ← aget g.(v) from;
  l ← aset g.(v) from (bv_clear x);
  Ok (set_v g l).

(** The loop of [isReachable].  [n] bounds the nodes still to be visited, [m]
    the nodes of [to_visit] until the next of them. *)
Fixpoint reach_loop (vs : list B) (n : nat) : nat -> B -> B -> res (B * B) :=
  fix skip (m : nat) (to_visit visited : B) : res (B * B) :=
    match m with
    | O => Err EHang
    | S m =>
        if bv_empty to_visit then Ok (to_visit, visited)
        else
          '(idx, to_visit) ← bv_getAndClearFirstOne to_visit;
          '(r, visited) ← bv_setBit visited idx;
          if r : bool then
            x ← aget vs idx;
            p ← bv_setUnion to_visit x;
            match n with
            | O => Err EHang
            | S n => reach_loop vs n (bv_fuel B) p.2 visited
            end
          else skip m to_visit visited
    end.

Definition isReachable (g : BVGraph B) (from : Z) (targets : B) : res (bool * BVGraph B) :=
  x ← aget g.(v) from;
  to_visit ← bv_copyFrom g.(t1) x;
  p ← bv_setBit (bv_clear g.(t2)) from;
  '(to_visit, visited) ← reach_loop g.(v) (Z.to_nat size) (bv_fuel B) to_visit p.2;
  r ← bv_intersectsWith targets visited;
  Ok (r, MkGraph g.(v) to_visit visited).

(** The loop of [findPath] over the successors, with the recursive call. *)
Fixpoint path_loop (search : Z -> list Z -> res (Z * list Z)) (fuel : nat) (it : bv_Iterator B) (path : list Z) : res (Z * list Z) :=
  match fuel with
  | O => Err EHang
  | S fuel =>
      if bv_hasNext it then
        '(idx, it) ← bv_next it;
        '(r, path) ← search idx path;
        if r =? 0 then path_loop search fuel it path else Ok (r + 1, path)
      else Ok (0, path)
  end.

(** [off] is where [path] points into the caller's array. *)
Fixpoint findPath (g : BVGraph B) (targets : B) (path_size : nat) (from off : Z) (path : list Z) : res (Z * list Z) :=
  match path_size with
  | O => Ok (0, path)
  | S path_size =>
      path ← aset path off from;
      b ← bv_getBit targets from;
      if b : bool then Ok (1, path)
      else
        x ← aget g.(v) from;
        path_loop (fun idx path => findPath g targets path_size idx (off + 1) path) (bv_fuel B) (bv_iterator x) path
  end.

(** The loop of [findShortestPath] from [p], with [n] rounds to go. *)
Fixpoint shortest_from (g : BVGraph B) (targets : B) (n : nat) (p from : Z) (path : list Z) : res (Z * list Z) :=
  match n with
  | O => Ok (0, path)
  | S n =>
      '(r, path) ← findPath g targets (Z.to_nat p) from 0 path;
      if r =? p then Ok (p, path) else shortest_from g targets n (p + 1) from path
  end.

Definition findShortestPath (g : BVGraph B) (from : Z) (targets : B) (path : list Z) (path_size : Z) : res (Z * list Z) :=
  shortest_from g targets (Z.to_nat path_size) 1 from path.
End BVGraph.

(** ** Edges *)

Section Edges.
Context {B : Type} `{BVLaws B}.
Implicit Types g : BVGraph B.
Implicit Types x : B.

(** Every node has a usable vector; the temporaries have any contents. *)
Definition vecs_wf (vs : list B) : Prop := zlen vs = bv_kSize B /\ Forall bv_wf vs.
Definition graph_wf (g : BVGraph B) : Prop := vecs_wf g.(v) /\ bv_shape g.(t1) /\ bv_shape g.(t2).

(** Storage of the right size: the class has no constructor either. *)
Definition graph_shape (g : BVGraph B) : Prop := zlen g.(v) = bv_kSize B /\ Forall bv_shape g.(v) /\ bv_shape g.(t1) /\ bv_shape g.(t2).

Definition edge_in (vs : list B) (a b : Z) : bool :=
  (0 <=? a) && match vs !! Z.to_nat a with Some x => bit x b | None => false end.

Definition edge (g : BVGraph B) (a b : Z) : Prop := edge_in g.(v) a b = true.

Lemma edge_range vs a b : vecs_wf vs -> edge_in vs a b = true -> 0 <= a < bv_kSize B /\ 0 <= b < bv_kSize B.
Proof.
  intros [Hl _] E. unfold edge_in in E. apply andb_true_iff in E as [Ha E]. apply Z.leb_le in Ha.
  destruct (vs !! Z.to_nat a) as [x|] eqn:Ex; [|done]. apply lookup_lt_Some in Ex. apply bit_range in E. unfold zlen in *. lia.
Qed.

Lemma vec_at vs a : vecs_wf vs -> 0 <= a < bv_kSize B -> exists x, aget vs a = Ok x /\ bv_wf x /\ forall b, bit x b = edge_in vs a b.
Proof.
  intros [Hl Hw] Ha. destruct (lookup_lt_is_Some_2 vs (Z.to_nat a)) as [x Hx]; [unfold zlen in *; lia|]. exists x.
  split; [apply aget_lookup; [lia|done]|]. split; [by apply (Forall_lookup_1 _ _ _ _ Hw Hx)|]. intros b. unfold edge_in. rewrite (proj2 (Z.leb_le _ _)) by lia. by rewrite Hx.
Qed.

(** Replacing the vector of one node. *)
Lemma vec_put vs a x :
  vecs_wf vs -> 0 <= a < bv_kSize B -> bv_wf x ->
  exists vs', aset vs a x = Ok vs' /\ vecs_wf vs' /\ forall c b, edge_in vs' c b = if a =? c then bit x b else edge_in vs c b.
Proof.
  intros [Hl Hw] Ha Hx. exists (<[Z.to_nat a := x]> vs). split; [apply aset_ok; lia|]. split.
  - split; [by rewrite zlen_insert|by apply Forall_insert].
  - intros c b. unfold edge_in. destruct (Z.eqb_spec a c) as [<-|Hne].
    + rewrite (proj2 (Z.leb_le _ _)), list_lookup_insert_eq by (unfold zlen in *; lia). done.
    + destruct (Z.leb_spec 0 c); [|done]. by rewrite list_lookup_insert_ne by lia.
Qed.

Lemma hasEdge_spec g a b :
  graph_wf g -> 0 <= a < bv_kSize B -> 0 <= b < bv_kSize B ->
  hasEdge g a b = Ok (edge_in g.(v) a b) /\ hasEdge_checked g a b = Ok (edge_in g.(v) a b).
Proof.
  intros (Hv & _) Ha Hb. destruct (vec_at g.(v) a Hv Ha) as (x & Ex & Hx & Hbx). unfold hasEdge_checked, hasEdge, check, size.
  rewrite !(proj2 (Z.ltb_lt _ _)), Ex, !bind_ok by lia. rewrite getBit_spec, Hbx by done. done.
Qed.

Lemma addEdge_spec g a b :
  graph_wf g -> 0 <= a < bv_kSize B -> 0 <= b < bv_kSize B ->
  exists g', addEdge g a b = Ok (negb (edge_in g.(v) a b), g') /\ graph_wf g' /\
    forall c d, edge g' c d <-> edge g c d \/ c = a /\ d = b.
Proof.
  intros (Hv & Ht1 & Ht2) Ha Hb. destruct (vec_at g.(v) a Hv Ha) as (x & Ex & Hx & Hbx). unfold addEdge, check, size.
  rewrite !(proj2 (Z.ltb_lt _ _)), Ex, !bind_ok by lia. destruct (setBit_spec x b Hx Hb) as (x' & E & Hx' & Hbx'). rewrite E, bind_ok, Hbx.
  destruct (vec_put g.(v) a x' Hv Ha Hx') as (vs' & E' & Hv' & Hed). rewrite E', bind_ok. eexists. split; [done|]. split; [done|].
  intros c d. unfold edge, set_v. cbn [v]. rewrite Hed. destruct (Z.eqb_spec a c) as [<-|Hne].
  - rewrite Hbx', Hbx, orb_true_iff, Z.eqb_eq. naive_solver.
  - split; [auto|]. intros [?|[-> _]]; done.
Qed.

Lemma removeEdge_spec g a b :
  graph_wf g -> 0 <= a < bv_kSize B -> 0 <= b < bv_kSize B ->
  exists g', removeEdge g a b = Ok (edge_in g.(v) a b, g') /\ graph_wf g' /\
    forall c d, edge g' c d <-> edge g c d /\ ~ (c = a /\ d = b).
Proof.
  intros (Hv & Ht1 & Ht2) Ha Hb. destruct (vec_at g.(v) a Hv Ha) as (x & Ex & Hx & Hbx). unfold removeEdge.
  rewrite Ex, !bind_ok by lia. destruct (clearBit_spec x b Hx Hb) as (x' & E & Hx' & Hbx'). rewrite E, bind_ok, Hbx.
  destruct (vec_put g.(v) a x' Hv Ha Hx') as (vs' & E' & Hv' & Hed). rewrite E', bind_ok. eexists. split; [done|]. split; [done|].
  intros c d. unfold edge, set_v. cbn [v]. rewrite Hed. destruct (Z.eqb_spec a c) as [<-|Hne].
  - rewrite Hbx', Hbx, andb_true_iff, negb_true_iff, Z.eqb_neq. split; intros [??]; split; naive_solver.
  - split; [|tauto]. intros ?. split; [done|]. by intros [-> _].
Qed.

(** [addEdges] adds the edges from all of [from]; the array gets the sources
    of the first [max] of the edges that are new. *)
Lemma addEdges_spec g x to max :
  graph_wf g -> bv_wf x -> 0 <= to < bv_kSize B -> 0 <= max ->
  exists g', addEdges g x to max = Ok (ztake max (ones (fun a => bit x a && negb (edge_in g.(v) a to)) (bv_kSize B)), g') /\ graph_wf g' /\
    forall c d, edge g' c d <-> edge g c d \/ bit x c = true /\ d = to.
Proof.
  intros (Hv & Ht1 & Ht2) Hx Hto Hmax. unfold addEdges. destruct (copyFrom_spec g.(t1) x Ht1 Hx) as (t & E & Ht & Hbt). rewrite E, bind_ok.
  destruct (drain_fold (add_one to max) t (g.(v), []) Ht) as (t' & Ht' & _ & ->).
  destruct (foldM_inv (fun seen '(vs, added) => vecs_wf vs /\ added = ztake max (filter (fun a => edge_in g.(v) a to = false) seen) /\
    forall c d, edge_in vs c d = true <-> edge_in g.(v) c d = true \/ c ∈ seen /\ d = to) (add_one to max) (elems t) (g.(v), []))
    as ((vs & added) & Ef & Hvs & Hadd & Hed).
  - split; [done|]. split; [by rewrite filter_nil; unfold ztake; rewrite take_nil|]. intros c d. split; [auto|]. intros [?|[Hin _]]; [done|]. by apply elem_of_nil in Hin.
  - intros seen a rest [vs added] El (Hvs & Hadd & Hed). assert (Hat : a ∈ elems t) by (rewrite El; apply elem_of_app; right; left).
    assert (Hns : a ∉ seen) by (pose proof (NoDup_ones (bit t) (bv_kSize B)) as Hnd; fold (elems t) in Hnd; rewrite El in Hnd; apply NoDup_app in Hnd as (_ & Hd & _); intros Hs; apply (Hd a Hs); left).
    apply elem_of_elems, bit_range in Hat as Ha. unfold add_one. destruct (vec_at vs a Hvs Ha) as (y & Ey & Hy & Hby). rewrite Ey, bind_ok.
    destruct (setBit_spec y to Hy Hto) as (y' & Ey' & Hy' & Hby'). rewrite Ey', bind_ok, Hby. destruct (vec_put vs a y' Hvs Ha Hy') as (vs' & Ep & Hvs' & Hedp). rewrite Ep, bind_ok.
    assert (Hsame : edge_in vs a to = edge_in g.(v) a to).
    { apply eq_true_iff_eq. rewrite Hed. split; [|auto]. intros [?|[Hs _]]; done. }
    eexists. split; [done|]. split; [done|]. split.
    + rewrite Hsame, filter_app, filter_cons, filter_nil. set (l := filter _ seen) in *. destruct (edge_in g.(v) a to); cbn [negb].
      * by rewrite app_nil_r.
      * rewrite Hadd. unfold ztake, zlen. rewrite length_take. destruct (Z.ltb_spec (Z.of_nat (Z.to_nat max `min` length l)) max).
        -- by rewrite (take_ge l), (take_ge (l ++ [a])) by (rewrite ?length_app; cbn; lia).
        -- by rewrite take_app_le by lia.
    + intros c d. rewrite Hedp. destruct (Z.eqb_spec a c) as [<-|Hne].
      * rewrite Hby', Hby, orb_true_iff, Hed, Z.eqb_eq. rewrite elem_of_app, list_elem_of_singleton. intuition.
      * rewrite Hed, elem_of_app, list_elem_of_singleton. intuition congruence.
  - rewrite Ef. exists (MkGraph vs t' g.(t2)). split; [|split; [split; [done|]; split; [by apply bv_wf_shape|done]|]].
    + cbn. do 2 f_equal. rewrite Hadd. f_equal. unfold elems, ones. rewrite list_filter_filter. apply list_filter_iff. intros a.
      rewrite Hbt, andb_true_iff, negb_true_iff. tauto.
    + intros c d. unfold edge. cbn [v]. rewrite Hed, elem_of_elems, Hbt. done.
Qed.

(** [removeEdgesTo] takes out the edges into all of [to]. *)
Lemma removeEdgesTo_spec g x :
  graph_wf g -> bv_wf x ->
  exists r g', removeEdgesTo g x = Ok (r, g') /\ graph_wf g' /\
    (forall c d, edge g' c d <-> edge g c d /\ bit x d = false) /\ (r = true <-> exists c d, edge g c d /\ bit x d = true).
Proof.
  intros (Hv & Ht1 & Ht2) Hx. unfold removeEdgesTo, size.
  destruct (foldM_inv (fun seen '(r, vs) => vecs_wf vs /\
    (forall c d, edge_in vs c d = true <-> edge_in g.(v) c d = true /\ (c ∈ seen -> bit x d = false)) /\
    (r = true <-> exists c d, c ∈ seen /\ edge_in g.(v) c d = true /\ bit x d = true)) (remove_to x) (seqZ 0 (bv_kSize B)) (false, g.(v)))
    as ((r & vs) & Ef & Hvs & Hed & Hr).
  - split; [done|]. split; [|split; [done|]; intros (c & d & Hin & _); by apply elem_of_nil in Hin].
    intros c d. split; [|by intros [? _]]. intros ?. split; [done|]. intros Hin. by apply elem_of_nil in Hin.
  - intros seen a rest [r vs] El (Hvs & Hed & Hr). assert (Ha : 0 <= a < bv_kSize B) by (cut (a ∈ seqZ 0 (bv_kSize B)); [rewrite elem_of_seqZ; lia|rewrite El; apply elem_of_app; right; left]).
    unfold remove_to. destruct (vec_at vs a Hvs Ha) as (y & Ey & Hy & Hby). rewrite Ey, bind_ok.
    destruct (setDifference_spec y x Hy Hx) as (c & y' & Ey' & Hy' & Hby' & Hc). rewrite Ey', bind_ok. destruct (vec_put vs a y' Hvs Ha Hy') as (vs' & Ep & Hvs' & Hedp). rewrite Ep, bind_ok.
    assert (Hns : a ∉ seen) by (pose proof (NoDup_seqZ 0 (bv_kSize B)) as Hnd; rewrite El in Hnd; apply NoDup_app in Hnd as (_ & Hd & _); intros Hs; apply (Hd a Hs); left).
    assert (Ha' : forall d, edge_in vs a d = true <-> edge_in g.(v) a d = true) by (intros d; rewrite Hed; split; [by intros [? _]|]; intros ?; split; done).
    eexists. split; [done|]. split; [done|]. split.
    + intros b d. rewrite Hedp, elem_of_app, list_elem_of_singleton. destruct (Z.eqb_spec a b) as [<-|Hne].
      * rewrite Hby', Hby, andb_true_iff, negb_true_iff, Ha'. intuition.
      * rewrite Hed. intuition congruence.
    + setoid_rewrite elem_of_app. setoid_rewrite list_elem_of_singleton. split.
      * intros Hif. destruct c.
        -- destruct (proj1 Hc eq_refl) as (d & Hd). rewrite Hby', Hby in Hd. exists a, d. split; [by right|]. rewrite <- Ha'.
           destruct (edge_in vs a d), (bit x d); done.
        -- apply Hr in Hif as (b & d & ? & ?). exists b, d. auto.
      * intros (b & d & [Hin| ->] & He & Hb); destruct c; try done; [apply Hr; eauto|].
        cut (false = true); [done|]. apply Hc. exists d. rewrite Hby', Hby. rewrite <- Ha' in He. by rewrite He, Hb.
  - rewrite Ef. exists r, (set_v g vs). split; [done|]. split; [done|]. assert (Hin : forall c d, edge_in g.(v) c d = true -> c ∈ seqZ 0 (bv_kSize B)).
    { intros c d He. apply edge_range in He as [? _]; [|done]. apply elem_of_seqZ. lia. }
    split.
    + intros c d. unfold edge. cbn [v set_v]. rewrite Hed. split; intros [? ?]; split; eauto.
    + rewrite Hr. unfold edge. split; [intros (c & d & _ & ?); eauto|]. intros (c & d & He & ?). exists c, d. eauto.
Qed.

Lemma removeEdgesFrom_node_spec g a :
  graph_wf g -> 0 <= a < bv_kSize B ->
  exists g', removeEdgesFrom_node g a = Ok g' /\ graph_wf g' /\ forall c d, edge g' c d <-> edge g c d /\ c <> a.
Proof.
  intros (Hv & Ht1 & Ht2) Ha. destruct (vec_at g.(v) a Hv Ha) as (x & Ex & Hx & Hbx). unfold removeEdgesFrom_node. rewrite Ex, bind_ok.
  destruct (clear_spec x (bv_wf_shape x Hx)) as [Hc Hz]. destruct (vec_put g.(v) a _ Hv Ha Hc) as (vs' & E' & Hv' & Hed). rewrite E', bind_ok.
  eexists. split; [done|]. split; [done|]. intros c d. unfold edge. cbn [v set_v]. rewrite Hed.
  destruct (Z.eqb_spec a c) as [<-|]; [rewrite Hz; intuition done|intuition].
Qed.

(** [removeEdgesFrom] of a set takes out the edges that leave it. *)
Lemma removeEdgesFrom_spec g x :
  graph_wf g -> bv_wf x ->
  exists r g', removeEdgesFrom g x = Ok (r, g') /\ graph_wf g' /\
    (forall c d, edge g' c d <-> edge g c d /\ bit x c = false) /\ (r = true <-> exists c d, edge g c d /\ bit x c = true).
Proof.
  intros (Hv & Ht1 & Ht2) Hx. unfold removeEdgesFrom. destruct (copyFrom_spec g.(t1) x Ht1 Hx) as (t & E & Ht & Hbt). rewrite E, bind_ok.
  destruct (drain_fold remove_from t (false, g.(v)) Ht) as (t' & Ht' & _ & ->).
  destruct (foldM_inv (fun seen '(r, vs) => vecs_wf vs /\ (forall c d, edge_in vs c d = true <-> edge_in g.(v) c d = true /\ c ∉ seen) /\
    (r = true <-> exists c d, c ∈ seen /\ edge_in g.(v) c d = true)) remove_from (elems t) (false, g.(v))) as ((r & vs) & Ef & Hvs & Hed & Hr).
  - split; [done|]. split; [|split; [done|]; intros (c & d & Hin & _); by apply elem_of_nil in Hin].
    intros c d. split; [|by intros [? _]]. intros ?. split; [done|]. apply not_elem_of_nil.
  - intros seen a rest [r vs] El (Hvs & Hed & Hr). assert (Hat : a ∈ elems t) by (rewrite El; apply elem_of_app; right; left).
    assert (Hns : a ∉ seen) by (pose proof (NoDup_ones (bit t) (bv_kSize B)) as Hnd; fold (elems t) in Hnd; rewrite El in Hnd; apply NoDup_app in Hnd as (_ & Hd & _); intros Hs; apply (Hd a Hs); left).
    apply elem_of_elems, bit_range in Hat as Ha. unfold remove_from. destruct (vec_at vs a Hvs Ha) as (y & Ey & Hy & Hby). rewrite Ey, bind_ok.
    assert (Ha' : forall d, bit y d = true <-> edge_in g.(v) a d = true) by (intros d; rewrite Hby, Hed; split; [by intros [? _]|]; intros ?; split; done).
    destruct (bv_empty y) eqn:Ee; cbn [negb].
    + assert (Hno : forall d, edge_in g.(v) a d = false) by (intros d; destruct (edge_in g.(v) a d) eqn:Eg; [|done]; apply Ha' in Eg; by rewrite (proj1 (empty_spec y Hy) Ee) in Eg).
      eexists. split; [done|]. split; [done|]. split.
      * intros c d. rewrite Hed, not_elem_of_app, list_elem_of_singleton. split; [|tauto]. intros [? ?]. split; [done|]. split; [done|]. intros ->. by rewrite Hno in *.
      * rewrite Hr. setoid_rewrite elem_of_app. setoid_rewrite list_elem_of_singleton. split; [intros (c & d & ? & ?); eauto|].
        intros (c & d & [?| ->] & He); [eauto|]. by rewrite Hno in He.
    + destruct (clear_spec y (bv_wf_shape y Hy)) as [Hc Hz]. destruct (vec_put vs a _ Hvs Ha Hc) as (vs' & Ep & Hvs' & Hedp). rewrite Ep, bind_ok.
      eexists. split; [done|]. split; [done|]. split.
      * intros c d. rewrite Hedp, not_elem_of_app, list_elem_of_singleton. destruct (Z.eqb_spec a c) as [<-|]; [rewrite Hz|rewrite Hed]; intuition congruence.
      * split; [|done]. intros _. apply empty_false in Ee as (d & Hd); [|done]. exists a, d. split; [|by apply Ha']. apply elem_of_app. right. by apply list_elem_of_singleton.
  - rewrite Ef. exists r, (MkGraph vs t' g.(t2)). split; [done|]. split; [split; [done|]; split; [by apply bv_wf_shape|done]|].
    assert (Hm : forall c, c ∈ elems t <-> bit x c = true) by (intros c; by rewrite elem_of_elems, Hbt). split.
    + intros c d. unfold edge. cbn [v]. rewrite Hed, Hm. by rewrite not_true_iff_false.
    + rewrite Hr. setoid_rewrite Hm. unfold edge. split; intros (c & d & ? & ?); eauto.
Qed.

Lemma graph_clear_spec g : graph_shape g -> graph_wf (clear g) /\ forall c d, ~ edge (clear g) c d.
Proof.
  intros (Hl & Hs & Ht1 & Ht2). split.
  - split; [|done]. split; [cbn; by rewrite zlen_fmap|]. apply Forall_fmap. apply (Forall_impl _ _ _ Hs). intros x Hx. by apply clear_spec.
  - intros c d. unfold edge, edge_in, clear, set_v. cbn [v]. rewrite list_lookup_fmap.
    destruct (g.(v) !! Z.to_nat c) as [x|] eqn:Ex; cbn; [|by rewrite andb_false_r].
    destruct (clear_spec x (Forall_lookup_1 _ _ _ _ Hs Ex)) as [_ Hz]. rewrite Hz. by rewrite andb_false_r.
Qed.

Lemma graph_wf_shape g : graph_wf g -> graph_shape g.
Proof. intros ((Hl & Hw) & Ht1 & Ht2). split; [done|]. split; [|done]. apply (Forall_impl _ _ _ Hw). intros x. apply bv_wf_shape. Qed.

Lemma graph_empty_spec g : graph_wf g -> empty g = true <-> forall c d, ~ edge g c d.
Proof.
  intros ((Hl & Hw) & _). unfold empty. rewrite forallb_forall. unfold edge, edge_in. split.
  - intros Hall c d E. apply andb_true_iff in E as [_ E]. destruct (g.(v) !! Z.to_nat c) as [x|] eqn:Ex; [|done].
    assert (He : bv_empty x = true) by (apply Hall, list_elem_of_In; by eapply list_elem_of_lookup_2).
    by rewrite (proj1 (empty_spec x (Forall_lookup_1 _ _ _ _ Hw Ex)) He) in E.
  - intros Hn x Hx. apply list_elem_of_In, list_elem_of_lookup in Hx as (n & Hx). apply empty_spec; [by apply (Forall_lookup_1 _ _ _ _ Hw Hx)|].
    intros d. destruct (bit x d) eqn:E; [|done]. destruct (Hn (Z.of_nat n) d). rewrite (proj2 (Z.leb_le _ _)), Nat2Z.id by lia. by rewrite Hx.
Qed.
End Edges.

(** ** Reachability *)

Section Reach.
Context {B : Type} `{BVLaws B}.
Implicit Types g : BVGraph B.
Implicit Types x to_visit visited targets : B.

Lemma elems_le (x : B) : (length (elems x) <= Z.to_nat (bv_kSize B))%nat.
Proof. pose proof (elems_length x). unfold bv_fuel in *. lia. Qed.

(** Setting a bit that was clear adds one member. *)
Lemma elems_add (x x' : B) i :
  bit x i = false -> (forall j, bit x' j = bit x j || (i =? j)) -> 0 <= i < bv_kSize B -> (S (length (elems x)) <= length (elems x'))%nat.
Proof.
  intros Hi Hb Hr. change (S (length (elems x))) with (length (i :: elems x)). apply submseteq_length, NoDup_submseteq.
  - constructor; [|apply NoDup_ones]. rewrite elem_of_elems. by rewrite Hi.
  - intros j Hj. apply elem_of_elems. rewrite Hb. apply elem_of_cons in Hj as [->|Hj]; [by rewrite Z.eqb_refl, orb_true_r|].
    apply elem_of_elems in Hj. by rewrite Hj.
Qed.

Lemma reach_loop_eq vs n m (to_visit visited : B) :
  reach_loop vs n (S m) to_visit visited =
    if bv_empty to_visit then Ok (to_visit, visited)
    else
      '(idx, to_visit) ← bv_getAndClearFirstOne to_visit;
      '(r, visited) ← bv_setBit visited idx;
      if r : bool then
        x ← aget vs idx;
        p ← bv_setUnion to_visit x;
        match n with O => Err EHang | S n => reach_loop vs n (bv_fuel B) p.2 visited end
      else reach_loop vs n m to_visit visited.
Proof. by destruct n. Qed.

(** What the loop keeps: visited and pending nodes are reachable, and the
    successors of visited nodes are visited or pending. *)
Definition reach_inv (vs : list B) (from : Z) (to_visit visited : B) : Prop :=
  let E a b := edge_in vs a b = true in
  bv_wf to_visit /\ bv_wf visited /\ bit visited from = true /\
  (forall a, bit visited a = true -> rtc E from a) /\ (forall a, bit to_visit a = true -> rtc E from a) /\
  (forall a b, bit visited a = true -> E a b -> bit visited b = true \/ bit to_visit b = true).

Lemma reach_visit vs from to_visit visited i to_visit1 visited1 x (p : bool * B) :
  reach_inv vs from to_visit visited -> bit to_visit i = true -> bv_wf to_visit1 -> bv_wf visited1 ->
  (forall j, bit to_visit1 j = bit to_visit j && negb (i =? j)) -> (forall j, bit visited1 j = bit visited j || (i =? j)) ->
  (forall b, bit x b = edge_in vs i b) -> bv_wf p.2 -> (forall j, bit p.2 j = bit to_visit1 j || bit x j) ->
  reach_inv vs from p.2 visited1.
Proof.
  intros (_ & _ & Hf & Hv & Ht & Hs) Hi Ht1 Hv1 Hbt Hbv Hbx Hp Hbp. split; [done|]. split; [done|]. split; [by rewrite Hbv, Hf|].
  assert (Hri : rtc (fun a b => edge_in vs a b = true) from i) by auto. split; [|split].
  - intros a. rewrite Hbv, orb_true_iff, Z.eqb_eq. intros [?| <-]; auto.
  - intros a. rewrite Hbp, Hbt, Hbx, orb_true_iff, andb_true_iff. intros [[? _]|He]; [auto|]. by eapply rtc_r.
  - intros a b. rewrite !Hbv, Hbp, Hbt, Hbx, !orb_true_iff, Z.eqb_eq. intros [Ha| <-] He.
    + destruct (Hs a b Ha He) as [?|Hb]; [auto|]. rewrite Hb. destruct (Z.eqb_spec i b); auto.
    + auto.
Qed.

Lemma reach_skip vs from (to_visit visited : B) i to_visit1 visited1 :
  reach_inv vs from to_visit visited -> bit visited i = true -> bv_wf to_visit1 -> bv_wf visited1 ->
  (forall j, bit to_visit1 j = bit to_visit j && negb (i =? j)) -> (forall j, bit visited1 j = bit visited j || (i =? j)) ->
  reach_inv vs from to_visit1 visited1.
Proof.
  intros (_ & _ & Hf & Hv & Ht & Hs) Hi Ht1 Hv1 Hbt Hbv.
  assert (Hsame : forall j, bit visited1 j = bit visited j) by (intros j; rewrite Hbv; destruct (Z.eqb_spec i j) as [<-|]; [by rewrite Hi|apply orb_false_r]).
  split; [done|]. split; [done|]. split; [by rewrite Hsame|]. split; [intros a; rewrite Hsame; auto|]. split.
  - intros a. rewrite Hbt, andb_true_iff. intros [? _]. auto.
  - intros a b. rewrite !Hsame. intros Ha He. destruct (Hs a b Ha He) as [?|Hb]; [auto|]. rewrite Hbt, Hb.
    destruct (Z.eqb_spec i b) as [<-|]; auto.
Qed.

Lemma reach_done vs from to_visit visited a :
  reach_inv vs from to_visit visited -> (forall i, bit to_visit i = false) ->
  bit visited a = true <-> rtc (fun a b => edge_in vs a b = true) from a.
Proof.
  intros (_ & _ & Hf & Hv & _ & Hs) Hno. split; [apply Hv|]. intros Hr. revert Hf. clear Hv. induction Hr as [|a b c Hab _ IH]; [done|].
  intros Ha. apply IH. destruct (Hs _ _ Ha Hab) as [?|Hb]; [done|]. by rewrite Hno in Hb.
Qed.

Lemma reach_loop_spec vs from : vecs_wf vs ->
  forall n m to_visit visited, reach_inv vs from to_visit visited ->
    (Z.to_nat (bv_kSize B) <= n + length (elems visited))%nat -> (length (elems to_visit) < m)%nat ->
    exists to_visit' visited', reach_loop vs n m to_visit visited = Ok (to_visit', visited') /\ bv_wf to_visit' /\ bv_wf visited' /\
      forall a, bit visited' a = true <-> rtc (fun a b => edge_in vs a b = true) from a.
Proof.
  intros Hvs n. induction n as [n IHn] using lt_wf_ind. intros m. induction m as [|m IHm]; intros to_visit visited Hinv Hn Hm; [lia|].
  rewrite reach_loop_eq. pose proof Hinv as (Htw & Hvw & _). destruct (elems to_visit) as [|i l] eqn:El.
  { pose proof (proj2 (empty_elems to_visit Htw) El) as Ee. rewrite Ee. exists to_visit, visited. split; [done|]. split; [done|]. split; [done|].
    intros a. eapply reach_done; [done|]. by apply empty_spec. }
  assert (Hit : bit to_visit i = true) by (apply elem_of_elems; rewrite El; left). pose proof (bit_range _ _ Hit) as Hi.
  rewrite (proj2 (empty_false to_visit Htw)) by eauto. destruct (first_elems to_visit i l Htw El) as (t' & Et & Ht' & El' & Hbt). rewrite Et, bind_ok.
  destruct (setBit_spec visited i Hvw Hi) as (vis' & Ev & Hvis' & Hbv). rewrite Ev, bind_ok. destruct (bit visited i) eqn:Evi; cbn [negb].
  - apply IHm; [by apply (reach_skip vs from to_visit visited i)| |rewrite El'; cbn in Hm; lia].
    rewrite Hn. apply Nat.add_le_mono_l, submseteq_length, NoDup_submseteq; [apply NoDup_ones|].
    intros j. rewrite !elem_of_elems, Hbv. by intros ->.
  - destruct (vec_at vs i Hvs Hi) as (x & Ex & Hx & Hbx). rewrite Ex, bind_ok.
    destruct (setUnion_spec t' x Ht' Hx) as (c & u & Eu & Hu & Hbu & _). rewrite Eu, bind_ok. cbn [snd].
    pose proof (elems_add visited vis' i Evi Hbv Hi). pose proof (elems_le vis'). destruct n as [|n]; [lia|].
    apply IHn; [lia| |lia|apply elems_length]. by apply (reach_visit vs from to_visit visited i t' vis' x (c, u)).
Qed.

(** [isReachable] decides whether a target is reachable, in any number of steps
    and in none. *)
Lemma isReachable_spec g from targets :
  graph_wf g -> bv_wf targets -> 0 <= from < bv_kSize B ->
  exists r g', isReachable g from targets = Ok (r, g') /\ graph_wf g' /\ g'.(v) = g.(v) /\
    (r = true <-> exists t, bit targets t = true /\ rtc (edge g) from t).
Proof.
  intros (Hv & Ht1 & Ht2) Htar Hf. unfold isReachable. destruct (vec_at g.(v) from Hv Hf) as (x & Ex & Hx & Hbx). rewrite Ex, bind_ok.
  destruct (copyFrom_spec g.(t1) x Ht1 Hx) as (tv & Et & Htv & Hbt). rewrite Et, bind_ok. destruct (clear_spec g.(t2) Ht2) as [Hc Hz].
  destruct (setBit_spec _ from Hc Hf) as (vis & Ev & Hvis & Hbv). rewrite Ev, bind_ok. cbn [snd].
  assert (Hone : forall a, bit vis a = true <-> a = from) by (intros a; rewrite Hbv, Hz; cbn; rewrite Z.eqb_eq; split; congruence).
  destruct (reach_loop_spec g.(v) from Hv (Z.to_nat (size (B := B))) (bv_fuel B) tv vis) as (tv' & vis' & Er & Htv' & Hvis' & Hr).
  { split; [done|]. split; [done|]. split; [by apply Hone|]. split; [intros a ->%Hone; constructor|]. split.
    - intros a. rewrite Hbt, Hbx. intros He. by apply rtc_once.
    - intros a b ->%Hone He. right. by rewrite Hbt, Hbx. }
  { unfold size. lia. }
  { apply elems_length. }
  rewrite Er, bind_ok. destruct (intersectsWith_spec targets vis' Htar Hvis') as (r & Ei & Hri). rewrite Ei, bind_ok.
  eexists r, _. split; [done|]. split; [split; [done|]; split; by apply bv_wf_shape|]. split; [done|]. rewrite Hri. by setoid_rewrite Hr.
Qed.

(** ** Paths *)

(** [walk g targets a l]: [l] goes from [a] along edges to a target. *)
Inductive walk (g : BVGraph B) (targets : B) : Z -> list Z -> Prop :=
| walk_end a : bit targets a = true -> walk g targets a [a]
| walk_step a b l : edge g a b -> walk g targets b l -> walk g targets a (a :: l).

Lemma walk_head g targets a l : walk g targets a l -> exists k, l = a :: k.
Proof. destruct 1; eauto. Qed.

Lemma walk_reach g targets a : (exists l, walk g targets a l) <-> exists t, bit targets t = true /\ rtc (edge g) a t.
Proof.
  split.
  - intros (l & Hw). induction Hw as [a Ha|a b l Hab _ (t & Ht & Hr)]; [exists a; by split; [|constructor]|]. exists t. split; [done|]. by eapply rtc_l.
  - intros (t & Ht & Hr). induction Hr as [a|a b t Hab _ IH]; [exists [a]; by constructor|]. destruct (IH Ht) as (l & Hl). exists (a :: l). by econstructor.
Qed.

(** The part of an array from an offset. *)
Definition part (path : list Z) (off r : Z) : list Z := ztake r (zdrop off path).

(** What a search for a path of at most [n] nodes leaves. *)
Definition found (g : BVGraph B) (targets : B) (n : nat) (from off : Z) (path : list Z) (o : Z * list Z) : Prop :=
  length o.2 = length path /\ ztake off o.2 = ztake off path /\
  (o.1 = 0 /\ (forall l, walk g targets from l -> (n < length l)%nat) \/ 0 < o.1 <= Z.of_nat n /\ walk g targets from (part o.2 off o.1)).

Lemma part_cons path off r a :
  0 <= off < zlen path -> 0 < r -> path !! Z.to_nat off = Some a -> part path off r = a :: part path (off + 1) (r - 1).
Proof.
  intros Ho Hr Ha. unfold part, ztake, zdrop. rewrite (drop_S path a) by done. replace (Z.to_nat r) with (S (Z.to_nat (r - 1))) by lia.
  replace (Z.to_nat (off + 1)) with (S (Z.to_nat off)) by lia. done.
Qed.

Lemma path_loop_spec g targets n off search l :
  (forall idx path, idx ∈ l -> off + 1 + Z.of_nat n <= zlen path -> exists o, search idx path = Ok o /\ found g targets n idx (off + 1) path o) ->
  forall fuel (it : bv_Iterator B) path, bv_yields it l -> (length l < fuel)%nat -> 0 <= off -> off + 1 + Z.of_nat n <= zlen path ->
  exists o, path_loop search fuel it path = Ok o /\ length o.2 = length path /\ ztake (off + 1) o.2 = ztake (off + 1) path /\
    (o.1 = 0 /\ (forall idx k, idx ∈ l -> walk g targets idx k -> (n < length k)%nat) \/
     0 < o.1 <= Z.of_nat n + 1 /\ exists idx, idx ∈ l /\ walk g targets idx (part o.2 (off + 1) (o.1 - 1))).
Proof.
  induction l as [|i l IH]; intros Hs fuel it path Hy Hf Ho Hp; (destruct fuel as [|fuel]; [cbn in Hf; lia|]); cbn [path_loop].
  - rewrite (yields_nil it Hy). exists (0, path). split; [done|]. split; [done|]. split; [done|]. left. split; [done|]. intros idx k Hin. by apply elem_of_nil in Hin.
  - apply yields_cons in Hy as (-> & it' & -> & Hy). rewrite bind_ok. destruct (Hs i path) as ([r path1] & -> & Hl & Htk & Hc); [left|done|]. rewrite bind_ok. cbn [fst snd] in *.
    destruct Hc as [[-> Hno]|[Hr Hw]].
    + destruct (IH (fun idx p Hin => Hs idx p ltac:(by right)) fuel it' path1 Hy) as (o & -> & Hl' & Htk' & Hc); [cbn in Hf; lia|done|unfold zlen in *; lia|].
      exists o. split; [done|]. split; [congruence|]. split; [congruence|]. destruct Hc as [[-> Hno']|[Hr (idx & Hin & Hw)]].
      * left. split; [done|]. intros idx k [->|Hin]%elem_of_cons; [apply Hno|by apply Hno'].
      * right. split; [done|]. exists idx. split; [by right|done].
    + rewrite (proj2 (Z.eqb_neq _ _)) by lia. exists (r + 1, path1). split; [done|]. split; [done|]. split; [done|]. right. split; [cbn; lia|].
      exists i. split; [left|]. cbn [fst snd]. by replace (r + 1 - 1) with r by lia.
Qed.

Lemma findPath_spec g targets n :
  graph_wf g -> bv_wf targets ->
  forall from off path, 0 <= from < bv_kSize B -> 0 <= off -> off + Z.of_nat n <= zlen path ->
  exists o, findPath g targets n from off path = Ok o /\ found g targets n from off path o.
Proof.
  intros Hg Htar. pose proof Hg as (Hv & _). induction n as [|n IH]; intros from off path Hf Ho Hp; cbn [findPath].
  - exists (0, path). split; [done|]. split; [done|]. split; [done|]. left. split; [done|]. intros l Hw. apply walk_head in Hw as (k & ->). cbn. lia.
  - assert (Hlt : 0 <= off < zlen path) by lia. rewrite aset_ok, bind_ok by done. set (path1 := <[Z.to_nat off := from]> path).
    assert (Hl1 : length path1 = length path) by apply length_insert. assert (Ha1 : path1 !! Z.to_nat off = Some from) by (apply list_lookup_insert_eq; unfold zlen in *; lia).
    assert (Ht1 : ztake off path1 = ztake off path) by (apply take_insert_ge; lia).
    rewrite getBit_spec, bind_ok by done. destruct (bit targets from) eqn:Eb.
    + exists (1, path1). split; [done|]. split; [done|]. split; [done|]. right. split; [cbn; lia|]. cbn [fst snd].
      rewrite (part_cons _ _ _ from) by (done || unfold zlen in *; rewrite ?Hl1; lia). change (1 - 1) with 0. unfold part, ztake. cbn. by constructor.
    + destruct (vec_at g.(v) from Hv Hf) as (x & -> & Hx & Hbx). rewrite bind_ok.
      destruct (path_loop_spec g targets n off (fun idx path => findPath g targets n idx (off + 1) path) (elems x)) with (fuel := bv_fuel B) (it := bv_iterator x) (path := path1)
        as (o & -> & Hl & Htk & Hc); [|by apply iterator_spec|apply elems_length|done|unfold zlen in *; lia|].
      { intros idx p Hin Hlen. apply elem_of_elems, bit_range in Hin. apply IH; [done|lia|lia]. }
      exists o. split; [done|]. assert (Hpre : forall m, m <= off + 1 -> ztake m o.2 = ztake m path1).
      { intros m Hm. unfold ztake in *. replace (Z.to_nat m) with (Z.to_nat m `min` Z.to_nat (off + 1))%nat by lia. by rewrite <- !take_take, Htk. }
      split; [congruence|]. split; [rewrite Hpre by lia; done|]. destruct Hc as [[E0 Hno]|[Hr (idx & Hin & Hw)]].
      * left. split; [done|]. intros l Hw. destruct Hw as [a Ha|a b l Hab Hw]; [congruence|]. cbn. apply -> Nat.succ_lt_mono. apply (Hno b l); [|done].
        apply elem_of_elems. by rewrite Hbx.
      * right. split; [lia|]. assert (Hoff : o.2 !! Z.to_nat off = Some from).
        { rewrite <- Ha1. rewrite <- (lookup_take_lt o.2 (Z.to_nat (off + 1))), <- (lookup_take_lt path1 (Z.to_nat (off + 1))) by lia. by unfold ztake in Htk; rewrite Htk. }
        rewrite (part_cons _ _ _ from) by (done || unfold zlen in *; lia). apply (walk_step _ _ _ idx); [|done]. unfold edge. rewrite <- Hbx. by apply elem_of_elems.
Qed.

(** [findShortestPath] finds a path with the least number of nodes, if there
    is one that fits. *)
Lemma findShortestPath_spec g from targets path path_size :
  graph_wf g -> bv_wf targets -> 0 <= from < bv_kSize B -> 0 <= path_size <= zlen path ->
  exists r path', findShortestPath g from targets path path_size = Ok (r, path') /\ length path' = length path /\
    if r =? 0 then forall l, walk g targets from l -> path_size < zlen l
    else 0 < r <= path_size /\ walk g targets from (ztake r path') /\ forall l, walk g targets from l -> r <= zlen l.
Proof.
  intros Hg Htar Hf Hp. unfold findShortestPath.
  cut (forall n p path, zlen path >= path_size -> 1 <= p -> Z.of_nat n = path_size - p + 1 -> (forall l, walk g targets from l -> p <= zlen l) ->
    exists r path', shortest_from g targets n p from path = Ok (r, path') /\ length path' = length path /\
    if r =? 0 then forall l, walk g targets from l -> path_size < zlen l
    else 0 < r <= path_size /\ walk g targets from (ztake r path') /\ forall l, walk g targets from l -> r <= zlen l).
  { intros Hcut. apply Hcut; [lia|lia|lia|]. intros l (k & ->)%walk_head. unfold zlen. cbn. lia. }
  clear path Hp. intros n. induction n as [|n IH]; intros p path Hp Hp1 Hn Hmin; cbn [shortest_from].
  - exists 0, path. split; [done|]. split; [done|]. cbn. intros l Hw. specialize (Hmin l Hw). lia.
  - destruct (findPath_spec g targets (Z.to_nat p) Hg Htar from 0 path Hf) as ([r path1] & -> & Hl & _ & Hc); [lia|lia|]. rewrite bind_ok. cbn [fst snd] in *.
    destruct Hc as [[-> Hno]|[Hr Hw]].
    + rewrite (proj2 (Z.eqb_neq 0 p)) by lia. destruct (IH (p + 1) path1) as (r & path' & -> & Hl' & Hc); [unfold zlen in *; lia|lia|lia| |].
      { intros l Hw. specialize (Hno l Hw). unfold zlen. lia. }
      exists r, path'. split; [done|]. split; [congruence|done].
    + assert (Er : r = p). { pose proof (Hmin _ Hw) as Hm. unfold part in Hm. rewrite zlen_ztake in Hm; [lia|]. unfold zdrop, zlen in *. rewrite length_drop. lia. }
      subst r. rewrite Z.eqb_refl. exists p, path1. split; [done|]. split; [done|]. rewrite (proj2 (Z.eqb_neq p 0)) by lia. split; [lia|]. split; [|done].
      exact Hw.
Qed.
End Reach.

(** C24: the path that a lock order report shows is a shortest one.  For every
    well-formed graph, start, set of targets and room for a path: if a walk
    from the start to a target has at most [path_size] nodes,
    [findShortestPath] returns the number of nodes of such a walk and stores
    it, and no walk is shorter; otherwise it returns 0.  Either way it ends,
    and no access is out of bounds. *)
Theorem shortest_path_found {B : Type} `{BVLaws B} (g : BVGraph B) from (targets : B) path path_size :
  graph_wf g -> bv_wf targets -> 0 <= from < bv_kSize B -> 0 <= path_size <= zlen path ->
  exists r path', findShortestPath g from targets path path_size = Ok (r, path') /\ length path' = length path /\
    if r =? 0 then forall l, walk g targets from l -> path_size < zlen l
    else 0 < r <= path_size /\ walk g targets from (ztake r path') /\ forall l, walk g targets from l -> r <= zlen l.
Proof. apply findShortestPath_spec. Qed.

(** The edges 0-1, 1-2, 2-3, 3-0 and the short cut 1-3. *)
Definition ring : BVGraph (BasicBitVector 8) :=
  MkGraph [Basic 2; Basic 12; Basic 8; Basic 1; Basic 0; Basic 0; Basic 0; Basic 0] (Basic 0) (Basic 0).

Lemma shortest_path_found_witness :
  exists path, findShortestPath ring 0 (Basic 8) (replicate 8 (-1)) 8 = Ok (3, path) /\ ztake 3 path = [0; 1; 3] /\
    forall l, walk ring (Basic 8 : BasicBitVector 8) 0 l -> 3 <= zlen l.
Proof.
  assert (Hw : graph_wf ring) by (split; [split; [reflexivity|repeat constructor; easy]|split; easy]).
  destruct (shortest_path_found ring 0 (Basic 8) (replicate 8 (-1)) 8 Hw) as (r & path & E & _ & Hr); [easy|easy|easy|].
  pose proof E as E'. vm_compute in E'. injection E' as Er Ep. subst r path. exists (0 :: 1 :: 3 :: replicate 5 (-1)).
  split; [reflexivity|]. split; [reflexivity|]. apply Hr.
Defined.
