(* ===== verification/DeadlockTLS.v ===== *)
(** * The locks a thread holds

    [DeadlockDetectorTLS] of
    [src/ufo-rt/lib/sanitizer_common/sanitizer_deadlock_detector.h]: the set of
    the locks a thread holds, the stacks they were taken at, and the further
    acquisitions of locks it holds already.  A member that fails a CHECK
    returns [EDie].

    Shown: the record implements a multiset of locks, [addLock] adding one
    acquisition and [removeLock] taking one away, with the context of every
    held lock kept. *)
From stdpp Require Import base numbers list.
From Stdlib Require Import ZArith Lia.
From S2P Require Import Prelude BitVector.

Local Open Scope Z_scope.

Record LockWithContext : Type := MkLWC { lock : Z; stk : Z }.

Record DeadlockDetectorTLS (B : Type) : Type := MkTLS {
  bv_ : B;
  epoch_ : Z;
  recursive_locks : list Z;
  n_recursive_locks : Z;
  all_locks_with_contexts_ : list LockWithContext;
  n_all_locks_ : Z;
}.
Arguments MkTLS {B} _ _ _ _ _ _.
Arguments bv_ {B} _.
Arguments epoch_ {B} _.
Arguments recursive_locks {B} _.
Arguments n_recursive_locks {B} _.
Arguments all_locks_with_contexts_ {B} _.
Arguments n_all_locks_ {B} _.

(** [for (sptr i = n - 1; i >= 0; i--)] up to the first element that fits. *)
Fixpoint scan_down {A} (p : A -> bool) (l : list A) (n : nat) : res (option Z) :=
  match n with
  | O => Ok None
  | S i =>
      x ← aget l (Z.of_nat i);
      if p x then Ok (Some (Z.of_nat i)) else scan_down p l i
  end.

Definition Swap {A} (l : list A) (i j : Z) : res (list A) :=
  x ← aget l i;
  y ← aget l j;
  l ← aset l i y;
  aset l j x.

Section TLS.
Context {B : Type} `{BVOps B}.
#[local] Abbreviation TLS := (DeadlockDetectorTLS B).

Definition clear (d : TLS) : TLS :=
  MkTLS (bv_clear d.(bv_)) 0 d.(recursive_locks) 0 d.(all_locks_with_contexts_) 0.

Definition empty (d : TLS) : bool := bv_empty d.(bv_).

Definition ensureCurrentEpoch (d : TLS) (current_epoch : Z) : TLS :=
  if d.(epoch_) =? current_epoch then d
  else MkTLS (bv_clear d.(bv_)) current_epoch d.(recursive_locks) 0 d.(all_locks_with_contexts_) 0.

Definition getEpoch (d : TLS) : Z := d.(epoch_).

Definition addLock (d : TLS) (lock_id current_epoch stk : Z) : res (bool * TLS) :=
  if negb (d.(epoch_) =? current_epoch) then Err EDie
  else
    '(new, bv) ← bv_setBit d.(bv_) lock_id;
    if negb new then
      if negb (d.(n_recursive_locks) <? 64) then Err EDie
      else
        r ← aset d.(recursive_locks) d.(n_recursive_locks) lock_id;
        Ok (false, MkTLS bv d.(epoch_) r (d.(n_recursive_locks) + 1) d.(all_locks_with_contexts_) d.(n_all_locks_))
    else if negb (d.(n_all_locks_) <? 64) then Err EDie
    else
      a ← aset d.(all_locks_with_contexts_) d.(n_all_locks_) (MkLWC (u32 lock_id) stk);
      Ok (true, MkTLS bv d.(epoch_) d.(recursive_locks) d.(n_recursive_locks) a (d.(n_all_locks_) + 1)).

Definition removeLock (d : TLS) (lock_id : Z) : res TLS :=
  r ← scan_down (fun x => x =? lock_id) d.(recursive_locks) (Z.to_nat d.(n_recursive_locks));
  match r with
  | Some i =>
      let n := d.(n_recursive_locks) - 1 in
      l ← Swap d.(recursive_locks) i n;
      Ok (MkTLS d.(bv_) d.(epoch_) l n d.(all_locks_with_contexts_) d.(n_all_locks_))
  | None =>
      '(was, bv) ← bv_clearBit d.(bv_) lock_id;
      if negb was then Ok (MkTLS bv d.(epoch_) d.(recursive_locks) d.(n_recursive_locks) d.(all_locks_with_contexts_) d.(n_all_locks_))
      else
        a ← scan_down (fun c => c.(lock) =? u32 lock_id) d.(all_locks_with_contexts_) (Z.to_nat d.(n_all_locks_));
        match a with
        | Some i =>
            l ← Swap d.(all_locks_with_contexts_) i (d.(n_all_locks_) - 1);
            Ok (MkTLS bv d.(epoch_) d.(recursive_locks) d.(n_recursive_locks) l (d.(n_all_locks_) - 1))
        | None => Ok (MkTLS bv d.(epoch_) d.(recursive_locks) d.(n_recursive_locks) d.(all_locks_with_contexts_) d.(n_all_locks_))
        end
  end.

(** The loop of [findLockContext], from [i] with [n] to go. *)
Fixpoint find_context (l : list LockWithContext) (n : nat) (i lock_id : Z) : res Z :=
  match n with
  | O => Ok 0
  | S n =>
      c ← aget l i;
      if c.(lock) =? u32 lock_id then Ok c.(stk) else find_context l n (i + 1) lock_id
  end.

Definition findLockContext (d : TLS) (lock_id : Z) : res Z :=
  find_context d.(all_locks_with_contexts_) (Z.to_nat d.(n_all_locks_)) 0 lock_id.

Definition getLocks (d : TLS) (current_epoch : Z) : res B :=
  if d.(epoch_) =? current_epoch then Ok d.(bv_) else Err EDie.

Definition getNumLocks (d : TLS) : Z := d.(n_all_locks_).

Definition getLock (d : TLS) (idx : Z) : res Z := c ← aget d.(all_locks_with_contexts_) idx; Ok c.(lock).
End TLS.

(** ** Arrays with a counter *)

Lemma scan_down_spec {A} (p : A -> bool) l n :
  Z.of_nat n <= zlen l ->
  (exists i x, scan_down p l n = Ok (Some i) /\ 0 <= i < Z.of_nat n /\ l !! Z.to_nat i = Some x /\ p x = true) \/
  scan_down p l n = Ok None /\ forall x, x ∈ take n l -> p x = false.
Proof.
  intros Hn. induction n as [|i IH]; cbn [scan_down].
  - right. split; [done|]. intros x Hx. rewrite take_0 in Hx. by apply elem_of_nil in Hx.
  - destruct (lookup_lt_is_Some_2 l i) as [x Hx]; [unfold zlen in *; lia|]. rewrite (aget_lookup _ _ x), bind_ok by (rewrite ?Nat2Z.id; done || lia).
    destruct (p x) eqn:Ep; [left; exists (Z.of_nat i), x; rewrite Nat2Z.id; split; [done|]; split; [lia|done]|].
    destruct IH as [(j & y & -> & Hj & Hy)|[-> Hno]]; [lia|left; exists j, y; split; [done|]; split; [lia|done]|].
    right. split; [done|]. intros y Hy. rewrite (take_S_r _ _ _ Hx) in Hy. apply elem_of_app in Hy as [?|Hy]; [auto|].
    apply list_elem_of_singleton in Hy. by subst.
Qed.

Lemma insert_middle {A} (l1 l2 : list A) x y n : n = length l1 -> <[n := y]> (l1 ++ x :: l2) = l1 ++ y :: l2.
Proof. intros ->. induction l1 as [|a l1 IH]; [done|]. cbn. f_equal. exact IH. Qed.

(** Swapping an element with the last one and dropping that. *)
Lemma Swap_last {A} (l : list A) i n x :
  0 <= i < n -> n <= zlen l -> l !! Z.to_nat i = Some x ->
  exists l', Swap l i (n - 1) = Ok l' /\ zlen l' = zlen l /\ ztake i l' = ztake i l /\ x :: ztake (n - 1) l' ≡ₚ ztake n l.
Proof.
  intros Hi Hn Hx. destruct (lookup_lt_is_Some_2 l (Z.to_nat (n - 1))) as [y Hy]; [unfold zlen in *; lia|]. unfold Swap.
  rewrite (aget_lookup l i x), bind_ok by (done || lia). rewrite (aget_lookup l (n - 1) y), bind_ok by (done || lia). rewrite aset_ok, bind_ok, aset_ok by (rewrite ?zlen_insert; lia).
  eexists. split; [done|]. split; [by rewrite !zlen_insert|]. split; [unfold ztake; rewrite !take_insert_ge by lia; done|].
  pose proof (take_drop_middle l _ _ Hx) as El. set (l1 := take (Z.to_nat i) l) in *. set (l2 := drop (S (Z.to_nat i)) l) in *.
  assert (Hl1 : length l1 = Z.to_nat i) by (unfold l1; rewrite length_take; unfold zlen in *; lia).
  rewrite <- El in *. unfold ztake. destruct (Z.eq_dec i (n - 1)) as [->|Hne].
  - rewrite Hx in Hy. injection Hy as ->. rewrite !insert_middle by (done || lia). replace (Z.to_nat n) with (length (l1 ++ [y])) by (rewrite length_app; cbn; lia).
    replace (Z.to_nat (n - 1)) with (length l1) by lia. rewrite take_app_length. rewrite (assoc_L (++) l1 [y] l2 : l1 ++ y :: l2 = (l1 ++ [y]) ++ l2).
    rewrite take_app_length. by rewrite Permutation_cons_append.
  - rewrite lookup_app_r in Hy by lia. replace (Z.to_nat (n - 1) - length l1)%nat with (S (Z.to_nat (n - 2 - i))) in Hy by lia. cbn in Hy.
    pose proof (take_drop_middle l2 _ _ Hy) as El2. set (m := take (Z.to_nat (n - 2 - i)) l2) in *. set (l3 := drop (S (Z.to_nat (n - 2 - i))) l2) in *.
    assert (Hm : length m = Z.to_nat (n - 2 - i)) by (unfold m; rewrite length_take; apply lookup_lt_Some in Hy; lia).
    rewrite <- El2 in *. rewrite (insert_middle l1) by lia. rewrite (assoc_L (++) l1 (y :: m) (y :: l3) : l1 ++ y :: m ++ y :: l3 = (l1 ++ y :: m) ++ y :: l3).
    rewrite (insert_middle (l1 ++ y :: m)) by (rewrite length_app; cbn; lia).
    replace (Z.to_nat (n - 1)) with (length (l1 ++ y :: m)) by (rewrite length_app; cbn; lia). rewrite take_app_length.
    replace (l1 ++ x :: m ++ y :: l3) with ((l1 ++ x :: m ++ [y]) ++ l3) by (rewrite <- !app_assoc; cbn; by rewrite <- app_assoc).
    replace (Z.to_nat n) with (length (l1 ++ x :: m ++ [y])) by (rewrite !length_app; cbn; rewrite length_app; cbn; lia). rewrite take_app_length.
    rewrite Permutation_middle. apply Permutation_app_head. constructor. apply Permutation_cons_append.
Qed.

(** ** The multiset of locks *)

(** Node numbers fit into the 16 bits of an edge (and so into 32). *)
Class SmallBV (B : Type) `{BVOps B} : Prop := small_ok : bv_kSize B <= 2 ^ 16.

Section Laws.
Context {B : Type} `{BVLaws B} `{!SmallBV B}.
#[local] Abbreviation TLS := (DeadlockDetectorTLS B).
Implicit Types d : TLS.

(** The parts of the arrays that are in use. *)
Definition recs (d : TLS) : list Z := ztake d.(n_recursive_locks) d.(recursive_locks).
Definition ctxs (d : TLS) : list LockWithContext := ztake d.(n_all_locks_) d.(all_locks_with_contexts_).

Definition tls_shape (d : TLS) : Prop := bv_shape d.(bv_) /\ zlen d.(recursive_locks) = 64 /\ zlen d.(all_locks_with_contexts_) = 64.

Definition tls_wf (d : TLS) : Prop :=
  bv_wf d.(bv_) /\ zlen d.(recursive_locks) = 64 /\ zlen d.(all_locks_with_contexts_) = 64 /\
  0 <= d.(n_recursive_locks) <= 64 /\ 0 <= d.(n_all_locks_) <= 64 /\
  (forall i, i ∈ recs d -> bit d.(bv_) i = true) /\
  NoDup (lock <$> ctxs d) /\ (forall i, i ∈ lock <$> ctxs d <-> bit d.(bv_) i = true).

(** How often the thread has acquired a lock it has not released. *)
Definition acquisitions (d : TLS) (i : Z) : nat :=
  ((if bit d.(bv_) i then 1 else 0) + length (filter (fun j => j = i) (recs d)))%nat.

Lemma tls_wf_shape d : tls_wf d -> tls_shape d.
Proof. intros (? & ? & ? & _). split; [by apply bv_wf_shape|done]. Qed.

Lemma tls_reset d e : tls_shape d -> tls_wf (MkTLS (bv_clear d.(bv_)) e d.(recursive_locks) 0 d.(all_locks_with_contexts_) 0).
Proof.
  intros (Hb & Hr & Ha). destruct (clear_spec _ Hb) as [Hc Hz]. split; [done|]. split; [done|]. split; [done|]. split; [done|]. split; [done|].
  unfold recs, ctxs, ztake. cbn -[bv_clear]. rewrite !take_0. split; [intros i Hi; by apply elem_of_nil in Hi|]. split; [constructor|].
  intros i. rewrite Hz. split; [intros Hi; by apply elem_of_nil in Hi|done].
Qed.

Lemma lock_u32 d i : tls_wf d -> i ∈ lock <$> ctxs d -> u32 i = i.
Proof.
  intros (_ & _ & _ & _ & _ & _ & _ & Hm) Hi. apply Hm, bit_range in Hi. pose proof (small_ok (B := B)). unfold u32. rewrite wrap_small; [done|].
  assert (2 ^ 16 < 2 ^ 32) by done. lia.
Qed.

Lemma index_u32 i : 0 <= i < bv_kSize B -> u32 i = i.
Proof. intros Hi. pose proof (small_ok (B := B)). unfold u32. rewrite wrap_small; [done|]. assert (2 ^ 16 < 2 ^ 32) by done. lia. Qed.

Lemma ztake_snoc {A} (l : list A) n x : 0 <= n < zlen l -> ztake (n + 1) (<[Z.to_nat n := x]> l) = ztake n l ++ [x].
Proof.
  unfold zlen, ztake. intros Hn. replace (Z.to_nat (n + 1)) with (S (Z.to_nat n)) by lia.
  rewrite (take_S_r _ _ x) by (apply list_lookup_insert_eq; lia). by rewrite take_insert_ge by lia.
Qed.

(** [addLock] adds one acquisition; it fails when the arrays are full. *)
Lemma addLock_spec d i s :
  tls_wf d -> 0 <= i < bv_kSize B ->
  if (if bit d.(bv_) i then d.(n_recursive_locks) else d.(n_all_locks_)) <? 64 then
    exists d', addLock d i d.(epoch_) s = Ok (negb (bit d.(bv_) i), d') /\ tls_wf d' /\ d'.(epoch_) = d.(epoch_) /\
      (forall j, bit d'.(bv_) j = bit d.(bv_) j || (i =? j)) /\
      (forall j, acquisitions d' j = (acquisitions d j + if (i =? j)%Z then 1 else 0)%nat) /\
      ctxs d' = if bit d.(bv_) i then ctxs d else ctxs d ++ [MkLWC i s]
  else addLock d i d.(epoch_) s = Err EDie.
Proof.
  intros Hd Hi. pose proof Hd as (Hb & Hr & Ha & Hnr & Hna & Hrec & Hnd & Hm). unfold addLock. rewrite Z.eqb_refl. cbn [negb].
  destruct (setBit_spec d.(bv_) i Hb Hi) as (b' & E & Hb' & Hbit). rewrite E, bind_ok. destruct (bit d.(bv_) i) eqn:Ei; cbn [negb].
  - destruct (Z.ltb_spec d.(n_recursive_locks) 64); [|done]. cbn [negb]. rewrite aset_ok, bind_ok by lia. eexists. split; [done|].
    assert (Er : ztake (d.(n_recursive_locks) + 1) (<[Z.to_nat d.(n_recursive_locks) := i]> d.(recursive_locks)) = recs d ++ [i]) by (apply ztake_snoc; lia).
    assert (Hsame : forall j, bit b' j = bit d.(bv_) j) by (intros j; rewrite Hbit; destruct (Z.eqb_spec i j) as [<-|]; [by rewrite Ei|apply orb_false_r]).
    split; [|split; [done|]; split; [done|]; split; [|done]].
    + split; [done|]. split; [cbn; by rewrite zlen_insert|]. split; [done|]. split; [cbn; lia|]. split; [done|]. split; [|split; [done|]].
      * unfold recs. cbn. rewrite Er. intros j Hj. rewrite Hsame. apply elem_of_app in Hj as [?|Hj]; [auto|]. apply list_elem_of_singleton in Hj. by subst.
      * intros j. unfold ctxs. cbn. rewrite Hsame. apply Hm.
    + intros j. unfold acquisitions. cbn. rewrite Hsame. unfold recs at 1. cbn. rewrite Er, filter_app, length_app, filter_cons, filter_nil.
      destruct (Z.eqb_spec i j) as [<-|]; [rewrite decide_True by done|rewrite decide_False by done]; cbn; lia.
  - destruct (Z.ltb_spec d.(n_all_locks_) 64); [|done]. cbn [negb]. rewrite aset_ok, bind_ok by lia. eexists. split; [done|].
    rewrite index_u32 by done.
    assert (Ec : ztake (d.(n_all_locks_) + 1) (<[Z.to_nat d.(n_all_locks_) := MkLWC i s]> d.(all_locks_with_contexts_)) = ctxs d ++ [MkLWC i s]) by (apply ztake_snoc; lia).
    split; [|split; [done|]; split; [done|]; split; [|exact Ec]].
    + split; [done|]. split; [done|]. split; [cbn; by rewrite zlen_insert|]. split; [done|]. split; [cbn; lia|]. unfold ctxs. cbn. rewrite Ec, fmap_app. cbn [fmap list_fmap lock].
      split; [|split].
      * intros j Hj. rewrite Hbit, Hrec by done. done.
      * apply NoDup_app. split; [done|]. split; [|apply NoDup_singleton]. intros j Hj ->%list_elem_of_singleton. apply Hm in Hj. congruence.
      * intros j. rewrite elem_of_app, list_elem_of_singleton, Hm, Hbit, orb_true_iff, Z.eqb_eq. intuition.
    + intros j. unfold acquisitions, recs. cbn. rewrite Hbit. destruct (Z.eqb_spec i j) as [<-|]; [rewrite Ei; cbn; lia|rewrite orb_false_r; lia].
Qed.

Lemma bit_acquisitions d i : tls_wf d -> bit d.(bv_) i = true <-> (0 < acquisitions d i)%nat.
Proof.
  intros (_ & _ & _ & _ & _ & Hrec & _). unfold acquisitions. destruct (bit d.(bv_) i) eqn:E; [split; [lia|done]|]. split; [done|].
  destruct (filter (fun j => j = i) (recs d)) as [|j l] eqn:Ef; [cbn; lia|]. assert (Hj : j ∈ filter (fun j => j = i) (recs d)) by (rewrite Ef; left).
  apply list_elem_of_filter in Hj as [-> Hj]. apply Hrec in Hj. congruence.
Qed.

Lemma count_cons (l l' : list Z) x j :
  x :: l' ≡ₚ l -> length (filter (fun k => k = j) l) = (length (filter (fun k => k = j) l') + if (x =? j)%Z then 1 else 0)%nat.
Proof.
  intros <-. rewrite filter_cons. destruct (Z.eqb_spec x j) as [<-|]; [rewrite decide_True by done|rewrite decide_False by done]; cbn; lia.
Qed.

(** [removeLock] takes one acquisition away. *)
Lemma removeLock_spec d i :
  tls_wf d -> 0 <= i < bv_kSize B ->
  exists d', removeLock d i = Ok d' /\ tls_wf d' /\ d'.(epoch_) = d.(epoch_) /\
    (forall j, acquisitions d' j = (acquisitions d j - if (i =? j)%Z then 1 else 0)%nat) /\
    (forall c, c ∈ ctxs d' <-> c ∈ ctxs d /\ bit d'.(bv_) c.(lock) = true).
Proof.
  intros Hd Hi. pose proof Hd as (Hb & Hr & Ha & Hnr & Hna & Hrec & Hnd & Hm). unfold removeLock.
  destruct (scan_down_spec (fun x => x =? i) d.(recursive_locks) (Z.to_nat d.(n_recursive_locks))) as [(k & x & -> & Hk & Hx & Ex)|[-> Hno]]; [lia| |]; rewrite bind_ok.
  - apply Z.eqb_eq in Ex as ->. destruct (Swap_last d.(recursive_locks) k d.(n_recursive_locks) i) as (l & -> & Hl & _ & Hp); [lia|lia|done|]. rewrite bind_ok.
    change (ztake d.(n_recursive_locks) d.(recursive_locks)) with (recs d) in Hp. eexists. split; [done|]. split; [|split; [done|]; split].
    + split; [done|]. split; [cbn; lia|]. split; [done|]. split; [cbn; lia|]. split; [done|]. split; [|done].
      intros j Hj. apply Hrec. rewrite <- Hp. by right.
    + intros j. unfold acquisitions. cbn. rewrite (count_cons _ _ _ j Hp). unfold recs. cbn. destruct (i =? j)%Z; lia.
    + intros c. unfold ctxs. cbn. split; [|by intros [? _]]. intros Hc. split; [done|]. apply Hm. by apply list_elem_of_fmap_2.
  - assert (Hni : i ∉ recs d) by (intros Hin; apply Hno in Hin; by rewrite Z.eqb_refl in Hin).
    destruct (clearBit_spec d.(bv_) i Hb Hi) as (b' & E & Hb' & Hbit). rewrite E, bind_ok.
    assert (Hrec' : forall j, j ∈ recs d -> bit b' j = true).
    { intros j Hj. rewrite Hbit, Hrec by done. destruct (Z.eqb_spec i j) as [<-|]; done. }
    assert (Hacq : forall j, ((if bit b' j then 1 else 0) + length (filter (fun k => k = j) (recs d)))%nat = (acquisitions d j - if (i =? j)%Z then 1 else 0)%nat).
    { intros j. unfold acquisitions. rewrite Hbit. destruct (Z.eqb_spec i j) as [<-|]; [|rewrite andb_true_r; lia].
      rewrite andb_false_r. destruct (filter (fun k => k = i) (recs d)) as [|k l] eqn:Ef; [destruct (bit d.(bv_) i); cbn; lia|].
      assert (Hk : k ∈ filter (fun k => k = i) (recs d)) by (rewrite Ef; left). by apply list_elem_of_filter in Hk as [-> Hk]. }
    destruct (bit d.(bv_) i) eqn:Ei; cbn [negb].
    + destruct (scan_down_spec (fun c => c.(lock) =? u32 i) d.(all_locks_with_contexts_) (Z.to_nat d.(n_all_locks_))) as [(k & c & -> & Hk & Hc & Ec)|[-> Hno']]; [lia| |]; rewrite bind_ok.
      2:{ apply Hm in Ei. apply list_elem_of_fmap in Ei as (c & Ec & Hc). specialize (Hno' c Hc). rewrite index_u32, <- Ec, Z.eqb_refl in Hno' by done. done. }
      rewrite index_u32 in Ec by done. apply Z.eqb_eq in Ec. destruct (Swap_last d.(all_locks_with_contexts_) k d.(n_all_locks_) c) as (l & -> & Hl & _ & Hp); [lia|lia|done|]. rewrite bind_ok.
      change (ztake d.(n_all_locks_) d.(all_locks_with_contexts_)) with (ctxs d) in Hp. set (l' := ztake (d.(n_all_locks_) - 1) l) in *.
      assert (Hnd' : NoDup (i :: (lock <$> l'))) by (rewrite <- Ec, <- fmap_cons, Hp; done). apply NoDup_cons in Hnd' as [Hni' Hnd'].
      assert (Hm' : forall j, j ∈ lock <$> l' <-> bit b' j = true).
      { intros j. rewrite Hbit, andb_true_iff, negb_true_iff, Z.eqb_neq, <- Hm, <- Hp, fmap_cons, elem_of_cons, Ec. split; [|intuition congruence].
        intros Hj. split; [auto|]. by intros ->. }
      eexists. split; [done|]. split; [|split; [done|]; split].
      * split; [done|]. split; [done|]. split; [cbn; lia|]. split; [done|]. split; [cbn; lia|]. split; [done|]. split; done.
      * exact Hacq.
      * intros c'. unfold ctxs at 1. cbn. fold l'. rewrite <- Hp, elem_of_cons. split.
        -- intros Hc'. split; [auto|]. apply Hm'. by apply list_elem_of_fmap_2.
        -- intros [[->|?] Hb1]; [|done]. rewrite Ec, Hbit, Z.eqb_refl, andb_false_r in Hb1. done.
    + assert (Hsame : forall j, bit b' j = bit d.(bv_) j) by (intros j; rewrite Hbit; destruct (Z.eqb_spec i j) as [<-|]; [by rewrite Ei|apply andb_true_r]).
      eexists. split; [done|]. split; [|split; [done|]; split].
      * split; [done|]. split; [done|]. split; [done|]. split; [done|]. split; [done|]. split; [done|]. split; [done|]. intros j. cbn [bv_]. rewrite Hsame. apply Hm.
      * exact Hacq.
      * intros c. unfold ctxs. cbn. rewrite Hsame. split; [|by intros [? _]]. intros Hc. split; [done|]. apply Hm. by apply list_elem_of_fmap_2.
Qed.

(** The context of a lock that is held. *)
Lemma findLockContext_spec d c : tls_wf d -> c ∈ ctxs d -> findLockContext d c.(lock) = Ok c.(stk).
Proof.
  intros Hd Hc. pose proof Hd as (_ & _ & Ha & _ & Hna & _ & Hnd & _). unfold findLockContext.
  assert (Hu : u32 c.(lock) = c.(lock)) by (apply (lock_u32 d _ Hd); by apply list_elem_of_fmap_2). unfold ctxs in *.
  set (l := d.(all_locks_with_contexts_)) in *. apply list_elem_of_lookup in Hc as (m & Hm). pose proof (lookup_lt_Some _ _ _ Hm) as Hlt.
  unfold ztake in *. rewrite length_take in Hlt. rewrite lookup_take_lt in Hm by lia.
  cut (forall n i, 0 <= i <= Z.of_nat m -> i + Z.of_nat n = d.(n_all_locks_) -> find_context l n i c.(lock) = Ok c.(stk)); [intros Hcut; apply Hcut; lia|].
  induction n as [|n IH]; intros i Hi Hn; [lia|]. cbn [find_context]. destruct (lookup_lt_is_Some_2 l (Z.to_nat i)) as [c' Hc']; [unfold zlen in *; lia|].
  rewrite (aget_lookup l i c'), bind_ok, Hu by (done || lia). destruct (Z.eqb_spec c'.(lock) c.(lock)) as [El|Hne].
  - assert (Z.to_nat i = m) as Em; [|rewrite Em in Hc'; congruence]. eapply (NoDup_lookup _ _ _ c.(lock) Hnd).
    + rewrite list_lookup_fmap, lookup_take_lt, Hc' by lia. cbn. by rewrite El.
    + rewrite list_lookup_fmap, lookup_take_lt, Hm by lia. done.
  - apply IH; [|lia]. destruct (decide (i = Z.of_nat m)) as [->|]; [|lia]. rewrite Nat2Z.id, Hm in Hc'. congruence.
Qed.
End Laws.
