(* ===== verification/DeadlockDetector.v ===== *)
(** * The lock order graph

    [DeadlockDetector] of
    [src/ufo-rt/lib/sanitizer_common/sanitizer_deadlock_detector.h].  A lock
    has a node; there is an edge from each lock a thread holds to a lock it
    acquires.  Nodes of destroyed locks are recycled, and when none are left
    the graph is flushed and a new epoch begins: a node id is the index of the
    node plus the epoch.

    Shown: the invariant of the detector and that every operation keeps it;
    what each operation does to the nodes and the edges, recycling and
    flushing included; a lock event is reported exactly when it closes a cycle
    in the graph; the reported path is a shortest one to a lock that is held. *)
From stdpp Require Import base numbers list relations.
From Stdlib Require Import ZArith Lia.
From S2P Require Import Prelude BitVector BasicBitVector TwoLevelBitVector BVGraph DeadlockTLS.

Local Open Scope Z_scope.

Record Edge : Type := MkEdge { from : Z; to : Z; stk_from : Z; stk_to : Z; unique_tid : Z }.

Record DeadlockDetector (B : Type) : Type := MkDetector {
  current_epoch_ : Z;
  available_nodes_ : B;
  recycled_nodes_ : B;
  tmp_bv_ : B;
  g_ : BVGraph B;
  data_ : list Z;
  edges_ : list Edge;
  n_edges_ : Z;
}.
Arguments MkDetector {B} _ _ _ _ _ _ _ _.
Arguments current_epoch_ {B} _.
Arguments available_nodes_ {B} _.
Arguments recycled_nodes_ {B} _.
Arguments tmp_bv_ {B} _.
Arguments g_ {B} _.
Arguments data_ {B} _.
Arguments edges_ {B} _.
Arguments n_edges_ {B} _.

Section Detector.
Context {B : Type} `{BVOps B}.
#[local] Abbreviation DD := (DeadlockDetector B).
#[local] Abbreviation TLS := (DeadlockDetectorTLS B).

Definition size : Z := bv_kSize B.

Definition set_g (dd : DD) (g : BVGraph B) : DD :=
  MkDetector dd.(current_epoch_) dd.(available_nodes_) dd.(recycled_nodes_) dd.(tmp_bv_) g dd.(data_) dd.(edges_) dd.(n_edges_).

Definition clear (dd : DD) : DD :=
  MkDetector 0 (bv_clear dd.(available_nodes_)) (bv_clear dd.(recycled_nodes_)) dd.(tmp_bv_) (BVGraph.clear dd.(g_)) dd.(data_) dd.(edges_) 0.

(** *** Nodes and indices *)

Definition check_idx (idx : Z) : res unit := if idx <? size then Ok tt else Err EDie.

Definition nodeToEpoch (node : Z) : Z := node / size * size.

Definition check_node (dd : DD) (node : Z) : res unit :=
  if negb (size <=? node) then Err EDie
  else if negb (dd.(current_epoch_) =? nodeToEpoch node) then Err EDie
  else Ok tt.

Definition indexToNode (dd : DD) (idx : Z) : res Z := _ ← check_idx idx; Ok (u64 (idx + dd.(current_epoch_))).

Definition nodeToIndexUnchecked (node : Z) : Z := node mod size.

Definition nodeToIndex (dd : DD) (node : Z) : res Z := _ ← check_node dd node; Ok (nodeToIndexUnchecked node).

Definition getAvailableNode (dd : DD) (data : Z) : res (Z * DD) :=
  '(idx, a) ← bv_getAndClearFirstOne dd.(available_nodes_);
  l ← aset dd.(data_) idx data;
  let dd := MkDetector dd.(current_epoch_) a dd.(recycled_nodes_) dd.(tmp_bv_) dd.(g_) l dd.(edges_) dd.(n_edges_) in
  node ← indexToNode dd idx;
  Ok (node, dd).

(** The loop of [newNode] over [edges_], for the indices below [n]. *)
Fixpoint purge_edges (recycled : B) (n : nat) (edges : list Edge) (n_edges : Z) : res (list Edge * Z) :=
  match n with
  | O => Ok (edges, n_edges)
  | S i =>
      e ← aget edges (Z.of_nat i);
      b ← bv_getBit recycled e.(from);
      b ← (if b : bool then Ok true else bv_getBit recycled e.(to));
      if b : bool then
        edges ← Swap edges (Z.of_nat i) (n_edges - 1);
        purge_edges recycled i edges (n_edges - 1)
      else purge_edges recycled i edges n_edges
  end.

Definition newNode (dd : DD) (data : Z) : res (Z * DD) :=
  if negb (bv_empty dd.(available_nodes_)) then getAvailableNode dd data
  else if negb (bv_empty dd.(recycled_nodes_)) then
    '(edges, n_edges) ← purge_edges dd.(recycled_nodes_) (Z.to_nat dd.(n_edges_)) dd.(edges_) dd.(n_edges_);
    if negb (bv_empty dd.(available_nodes_)) then Err EDie
    else
      '(_, g) ← removeEdgesTo dd.(g_) dd.(recycled_nodes_);
      '(_, a) ← bv_setUnion dd.(available_nodes_) dd.(recycled_nodes_);
      getAvailableNode (MkDetector dd.(current_epoch_) a (bv_clear dd.(recycled_nodes_)) dd.(tmp_bv_) g dd.(data_) edges n_edges) data
  else
    getAvailableNode (MkDetector (u64 (dd.(current_epoch_) + size)) (bv_setAll dd.(available_nodes_)) (bv_clear dd.(recycled_nodes_))
      dd.(tmp_bv_) (BVGraph.clear dd.(g_)) dd.(data_) dd.(edges_) 0) data.

Definition getData (dd : DD) (node : Z) : res Z := idx ← nodeToIndex dd node; aget dd.(data_) idx.

Definition nodeBelongsToCurrentEpoch (dd : DD) (node : Z) : bool := negb (node =? 0) && (node / size * size =? dd.(current_epoch_)).

Definition removeNode (dd : DD) (node : Z) : res DD :=
  idx ← nodeToIndex dd node;
  a ← bv_getBit dd.(available_nodes_) idx;
  if a : bool then Err EDie
  else
    '(new, r) ← bv_setBit dd.(recycled_nodes_) idx;
    if negb new then Err EDie
    else
      g ← removeEdgesFrom_node dd.(g_) idx;
      Ok (MkDetector dd.(current_epoch_) dd.(available_nodes_) r dd.(tmp_bv_) g dd.(data_) dd.(edges_) dd.(n_edges_)).

(** *** Lock events *)

Definition ensureCurrentEpoch (dd : DD) (dtls : TLS) : TLS := DeadlockTLS.ensureCurrentEpoch dtls dd.(current_epoch_).

Definition isHeld (dd : DD) (dtls : TLS) (node : Z) : res bool :=
  locks ← getLocks dtls dd.(current_epoch_);
  idx ← nodeToIndex dd node;
  bv_getBit locks idx.

Definition onLockBefore (dd : DD) (dtls : TLS) (cur_node : Z) : res (bool * (DD * TLS)) :=
  let dtls := ensureCurrentEpoch dd dtls in
  cur_idx ← nodeToIndex dd cur_node;
  locks ← getLocks dtls dd.(current_epoch_);
  '(r, g) ← isReachable dd.(g_) cur_idx locks;
  Ok (r, (set_g dd g, dtls)).

Definition findLockContext (dd : DD) (dtls : TLS) (node : Z) : res Z :=
  idx ← nodeToIndex dd node; DeadlockTLS.findLockContext dtls idx.

Definition onLockAfter (dd : DD) (dtls : TLS) (cur_node stk : Z) : res TLS :=
  let dtls := ensureCurrentEpoch dd dtls in
  cur_idx ← nodeToIndex dd cur_node;
  p ← addLock dtls cur_idx dd.(current_epoch_) stk;
  Ok p.2.

(** The loop of [hasAllEdges], from [i] with [n] to go. *)
Fixpoint has_edges (dd : DD) (dtls : TLS) (cur_idx : Z) (n : nat) (i : Z) : res bool :=
  match n with
  | O => Ok true
  | S n =>
      l ← getLock dtls i;
      b ← hasEdge dd.(g_) l cur_idx;
      if negb b then Ok false else has_edges dd dtls cur_idx n (i + 1)
  end.

Definition hasAllEdges (dd : DD) (dtls : TLS) (cur_node : Z) : res bool :=
  let local_epoch := getEpoch dtls in
  if negb (cur_node =? 0) && (local_epoch =? dd.(current_epoch_)) && (local_epoch =? nodeToEpoch cur_node) then
    let cur_idx := nodeToIndexUnchecked cur_node in
    has_edges dd dtls cur_idx (Z.to_nat (getNumLocks dtls)) 0
  else Ok false.

(** The loop of [addEdges] over the new edges. *)
Definition record_edge (dtls : TLS) (cur_idx stk tid : Z) (a : Z) (s : list Edge * Z) : res (list Edge * Z) :=
  let '(edges, n) := s in
  if n <? size * 32 then
    c ← DeadlockTLS.findLockContext dtls a;
    edges ← aset edges n (MkEdge (u16 a) (u16 cur_idx) c stk tid);
    Ok (edges, n + 1)
  else Ok (edges, n).

Definition addEdges (dd : DD) (dtls : TLS) (cur_node stk tid : Z) : res (Z * (DD * TLS)) :=
  let dtls := ensureCurrentEpoch dd dtls in
  cur_idx ← nodeToIndex dd cur_node;
  locks ← getLocks dtls dd.(current_epoch_);
  '(added, g) ← BVGraph.addEdges dd.(g_) locks cur_idx 40;
  '(edges, n) ← foldM (record_edge dtls cur_idx stk tid) added (dd.(edges_), dd.(n_edges_));
  Ok (zlen added, (MkDetector dd.(current_epoch_) dd.(available_nodes_) dd.(recycled_nodes_) dd.(tmp_bv_) g dd.(data_) edges n, dtls)).

Fixpoint find_edge (edges : list Edge) (n : nat) (i from_idx to_idx : Z) : res (option Edge) :=
  match n with
  | O => Ok None
  | S n =>
      e ← aget edges i;
      if (e.(from) =? from_idx) && (e.(to) =? to_idx) then Ok (Some e) else find_edge edges n (i + 1) from_idx to_idx
  end.

(** [None]: the result is false and the out parameters are as before. *)
Definition findEdge (dd : DD) (from_node to_node : Z) : res (option (Z * Z * Z)) :=
  from_idx ← nodeToIndex dd from_node;
  to_idx ← nodeToIndex dd to_node;
  o ← find_edge dd.(edges_) (Z.to_nat dd.(n_edges_)) 0 from_idx to_idx;
  Ok (option_map (fun e => (e.(stk_from), e.(stk_to), e.(unique_tid))) o).

Definition onLock (dd : DD) (dtls : TLS) (cur_node stk : Z) : res (bool * (DD * TLS)) :=
  let dtls := ensureCurrentEpoch dd dtls in
  held ← isHeld dd dtls cur_node;
  '(is_reachable, (dd, dtls)) ← (if negb held then onLockBefore dd dtls cur_node else Ok (false, (dd, dtls)));
  '(_, (dd, dtls)) ← addEdges dd dtls cur_node stk 0;
  dtls ← onLockAfter dd dtls cur_node stk;
  Ok (is_reachable, (dd, dtls)).

Definition onTryLock (dd : DD) (dtls : TLS) (cur_node stk : Z) : res (bool * TLS) :=
  let dtls := ensureCurrentEpoch dd dtls in
  cur_idx ← nodeToIndex dd cur_node;
  p ← addLock dtls cur_idx dd.(current_epoch_) stk;
  Ok (false, p.2).

Definition onFirstLock (dd : DD) (dtls : TLS) (node stk : Z) : res (bool * TLS) :=
  if negb (DeadlockTLS.empty dtls) then Ok (false, dtls)
  else if negb (getEpoch dtls =? 0) && (getEpoch dtls =? nodeToEpoch node) then
    p ← addLock dtls (nodeToIndexUnchecked node) (nodeToEpoch node) stk;
    Ok (true, p.2)
  else Ok (false, dtls).

Definition findPathToLock (dd : DD) (dtls : TLS) (cur_node : Z) (path : list Z) (path_size : Z) : res (Z * (list Z * DD)) :=
  locks ← getLocks dtls dd.(current_epoch_);
  tmp ← bv_copyFrom dd.(tmp_bv_) locks;
  let dd := MkDetector dd.(current_epoch_) dd.(available_nodes_) dd.(recycled_nodes_) tmp dd.(g_) dd.(data_) dd.(edges_) dd.(n_edges_) in
  idx ← nodeToIndex dd cur_node;
  b ← bv_getBit tmp idx;
  if b : bool then Err EDie
  else
    '(r, path) ← findShortestPath dd.(g_) idx tmp path path_size;
    path ← foldM (fun i path => x ← aget path i; n ← indexToNode dd x; aset path i n) (seqZ 0 r) path;
    if negb (r =? 0) then
      x ← aget path 0;
      if x =? cur_node then Ok (r, (path, dd)) else Err EDie
    else Ok (r, (path, dd)).

Definition onUnlock (dtls : TLS) (node : Z) : res TLS :=
  if getEpoch dtls =? nodeToEpoch node then removeLock dtls (nodeToIndexUnchecked node) else Ok dtls.

Definition onLockFast (dd : DD) (dtls : TLS) (node stk : Z) : res (bool * TLS) :=
  b ← hasAllEdges dd dtls node;
  if b : bool then
    p ← addLock dtls (nodeToIndexUnchecked node) (nodeToEpoch node) stk;
    Ok (true, p.2)
  else Ok (false, dtls).
End Detector.

(** ** Cycles

    A recursive acquisition puts an edge from a lock to itself; such an edge is
    no cycle. *)

Definition acyclic (E : Z -> Z -> Prop) : Prop := forall a b, rtc E a b -> rtc E b a -> a = b.

Section Cycles.
Context (E : Z -> Z -> Prop) (held : Z -> Prop) (n : Z).

(** The graph after lock [n] is acquired while [held] are. *)
Definition with_lock (a b : Z) : Prop := E a b \/ held a /\ b = n.

Lemma with_lock_mono a b : rtc E a b -> rtc with_lock a b.
Proof. induction 1 as [|a b c Hab _ IH]; [constructor|]. eapply rtc_l; [|exact IH]. by left. Qed.

Lemma with_lock_split a b : rtc with_lock a b -> rtc E a b \/ (exists h, held h /\ rtc E a h) /\ rtc E n b.
Proof.
  induction 1 as [a|a b c Hab _ IH]; [left; constructor|]. destruct Hab as [Hab|[Hh ->]].
  - destruct IH as [IH|[(h & Hh & Hr) IH]]; [left; by eapply rtc_l|]. right. split; [|done]. exists h. split; [done|]. by eapply rtc_l.
  - right. split; [exists a; split; [done|constructor]|]. by destruct IH as [IH|[_ IH]].
Qed.

(** A lock that is not held closes a cycle iff it reaches a held one. *)
Lemma with_lock_acyclic :
  acyclic E -> ~ held n -> acyclic with_lock <-> ~ exists h, held h /\ rtc E n h.
Proof.
  intros Hac Hn. split.
  - intros Hac' (h & Hh & Hr). assert (n = h) as ->; [|done]. apply Hac'; [by apply with_lock_mono|]. apply rtc_once. by right.
  - intros Hno a b Hab Hba. apply with_lock_split in Hab, Hba.
    destruct Hab as [Hab|[(h & Hh & Hab) Hnb]], Hba as [Hba|[(h' & Hh' & Hba) Hna]]; [by apply Hac|destruct Hno..].
    + exists h'. split; [done|]. by do 2 (etrans; [eassumption|]).
    + exists h. split; [done|]. by do 2 (etrans; [eassumption|]).
    + exists h. split; [done|]. by etrans.
Qed.
End Cycles.

(** ** The invariant *)

Section Invariant.
Context {B : Type} `{BVLaws B} `{!SmallBV B}.
#[local] Abbreviation DD := (DeadlockDetector B).
#[local] Abbreviation TLS := (DeadlockDetectorTLS B).
#[local] Abbreviation K := (bv_kSize B).
Implicit Types dd : DD.
Implicit Types d : TLS.

(** A node in use. *)
Definition live (dd : DD) (i : Z) : Prop := 0 <= i < K /\ bit dd.(available_nodes_) i = false /\ bit dd.(recycled_nodes_) i = false.

(** The edges with their stacks. *)
Definition recorded (dd : DD) : list Edge := ztake dd.(n_edges_) dd.(edges_).

Definition epoch_ok (dd : DD) : Prop :=
  0 <= dd.(current_epoch_) /\ dd.(current_epoch_) + K <= 2 ^ 64 /\ dd.(current_epoch_) mod K = 0 /\
  forall i, bit dd.(available_nodes_) i = true \/ bit dd.(recycled_nodes_) i = true -> K <= dd.(current_epoch_).

Definition dd_shape (dd : DD) : Prop :=
  bv_shape dd.(available_nodes_) /\ bv_shape dd.(recycled_nodes_) /\ bv_shape dd.(tmp_bv_) /\ graph_shape dd.(g_) /\
  zlen dd.(data_) = K /\ zlen dd.(edges_) = K * 32.

Definition edges_ok (dd : DD) : Prop :=
  (forall a b, edge dd.(g_) a b -> live dd a /\ bit dd.(available_nodes_) b = false) /\
  forall e, e ∈ recorded dd ->
    0 <= e.(from) < K /\ 0 <= e.(to) < K /\ bit dd.(available_nodes_) e.(from) = false /\ bit dd.(available_nodes_) e.(to) = false /\
    (bit dd.(recycled_nodes_) e.(from) = false -> edge dd.(g_) e.(from) e.(to)).

Definition dd_wf (dd : DD) : Prop :=
  (bv_wf dd.(available_nodes_) /\ bv_wf dd.(recycled_nodes_) /\ bv_shape dd.(tmp_bv_) /\ graph_wf dd.(g_) /\
   zlen dd.(data_) = K /\ zlen dd.(edges_) = K * 32 /\ 0 <= dd.(n_edges_) <= K * 32) /\
  epoch_ok dd /\
  (forall i, bit dd.(available_nodes_) i = true -> bit dd.(recycled_nodes_) i = false) /\
  edges_ok dd.

(** *** Node ids *)

Definition node_at (dd : DD) (i : Z) : Z := i + dd.(current_epoch_).

Lemma node_parts e i : e mod K = 0 -> 0 <= i < K -> (i + e) mod K = i /\ (i + e) / K * K = e.
Proof.
  intros He Hi. apply Z.div_exact in He; [|lia]. revert He. generalize (e / K). intros q ->.
  rewrite (Z.mul_comm K q), Z.mod_add, Z.mod_small, Z.div_add, Z.div_small by lia. split; [done|]. ring.
Qed.

Lemma nodeToIndex_ok dd i : epoch_ok dd -> K <= dd.(current_epoch_) -> 0 <= i < K -> nodeToIndex dd (node_at dd i) = Ok i.
Proof.
  intros (_ & _ & He & _) HK Hi. destruct (node_parts _ i He Hi) as [Em Ed]. unfold nodeToIndex, check_node, nodeToIndexUnchecked, nodeToEpoch, node_at, size.
  rewrite Em, Ed, Z.eqb_refl. rewrite (proj2 (Z.leb_le _ _)) by lia. done.
Qed.

Lemma indexToNode_ok dd i : epoch_ok dd -> 0 <= i < K -> indexToNode dd i = Ok (node_at dd i).
Proof.
  intros (H0' & H1 & _) Hi. unfold indexToNode, check_idx, size. rewrite (proj2 (Z.ltb_lt _ _)) by lia. cbn.
  unfold u64. by rewrite wrap_small by lia.
Qed.

(** *** New nodes *)

Lemma getAvailableNode_spec dd data :
  dd_wf dd -> bv_empty dd.(available_nodes_) = false ->
  exists i dd', getAvailableNode dd data = Ok (node_at dd i, dd') /\ dd_wf dd' /\ bit dd.(available_nodes_) i = true /\ live dd' i /\
    dd'.(data_) !! Z.to_nat i = Some data /\ (forall j, j <> i -> 0 <= j -> dd'.(data_) !! Z.to_nat j = dd.(data_) !! Z.to_nat j) /\
    dd'.(current_epoch_) = dd.(current_epoch_) /\ dd'.(g_) = dd.(g_) /\ (forall j, live dd' j <-> live dd j \/ j = i) /\ recorded dd' = recorded dd.
Proof.
  intros ((Ha & Hr & Ht & Hg & Hd & He & Hn) & Hep & Hdis & Hed) Hne. unfold getAvailableNode.
  destruct (elems dd.(available_nodes_)) as [|i l] eqn:El; [by rewrite (proj2 (empty_elems _ Ha) El) in Hne|].
  assert (Hi : bit dd.(available_nodes_) i = true) by (apply elem_of_elems; rewrite El; left). pose proof (bit_range _ _ Hi) as Hir.
  destruct (first_elems _ i l Ha El) as (a' & E & Ha' & _ & Hb). rewrite E, bind_ok, aset_ok, bind_ok by lia.
  set (dd' := MkDetector _ a' _ _ _ _ _ _). pose proof Hep as (He0 & He1 & He2 & He3).
  assert (Hlive : forall j, live dd' j <-> live dd j \/ j = i).
  { intros j. unfold live. cbn. rewrite Hb. destruct (Z.eqb_spec i j) as [<-|]; [rewrite andb_false_r, Hdis by done; tauto|]. rewrite andb_true_r. intuition congruence. }
  assert (Hep' : epoch_ok dd').
  { split; [done|]. split; [done|]. split; [done|]. intros j. cbn. rewrite Hb. intros [Hj|Hj]; [|by apply (He3 j); right].
    apply andb_true_iff in Hj as [Hj _]. apply (He3 j). by left. }
  rewrite (indexToNode_ok dd') by done. rewrite bind_ok. eexists i, dd'. split; [done|].
  assert (Hmono : forall j, bit dd.(available_nodes_) j = false -> bit a' j = false) by (intros j Hj; by rewrite Hb, Hj).
  split; [split; [|split; [done|]; split]|].
  - split; [done|]. split; [done|]. split; [done|]. split; [done|]. split; [cbn; by rewrite zlen_insert|]. split; done.
  - intros j. cbn. rewrite Hb, andb_true_iff. intros [? _]. by apply Hdis.
  - destruct Hed as [Hg1 Hrec]. split.
    + intros x y Hxy. destruct (Hg1 x y Hxy) as [Hl Hy]. split; [by apply Hlive; left|by apply Hmono].
    + intros e Hin. destruct (Hrec e Hin) as (? & ? & ? & ? & ?). split; [done|]. split; [done|]. split; [by apply Hmono|]. split; [by apply Hmono|done].
  - split; [done|]. split; [apply Hlive; by right|]. split; [apply list_lookup_insert_eq; unfold zlen in *; lia|]. split; [|done].
    intros j Hj Hj0. apply list_lookup_insert_ne. lia.
Qed.

(** The edges of recycled nodes are dropped, in some order. *)
Definition keeps (r : B) (e : Edge) : Prop := bit r e.(from) = false /\ bit r e.(to) = false.

#[local] Instance keeps_dec r e : Decision (keeps r e) := _.

Lemma purge_edges_spec (r : B) n : bv_wf r ->
  forall edges m, Z.of_nat n <= m <= zlen edges -> (forall e, e ∈ take n edges -> 0 <= e.(from) < K /\ 0 <= e.(to) < K) ->
  exists edges' m', purge_edges r n edges m = Ok (edges', m') /\ zlen edges' = zlen edges /\ 0 <= m' <= m /\
    ztake m' edges' ≡ₚ filter (keeps r) (take n edges) ++ drop n (ztake m edges).
Proof.
  intros Hr. induction n as [|i IH]; intros edges m Hm Hin; cbn [purge_edges].
  { exists edges, m. rewrite take_0, filter_nil, drop_0. split; [done|]. split; [done|]. split; [lia|done]. }
  destruct (lookup_lt_is_Some_2 edges i) as [e He]; [unfold zlen in *; lia|]. rewrite (aget_lookup edges (Z.of_nat i) e), bind_ok by (rewrite ?Nat2Z.id; done || lia).
  assert (Htk : take (S i) edges = take i edges ++ [e]) by by apply take_S_r.
  destruct (Hin e) as [Hf Ht]; [rewrite Htk; apply elem_of_app; right; left|]. rewrite !getBit_spec, bind_ok by done.
  assert (Hm' : ztake m edges !! i = Some e) by (unfold ztake; rewrite lookup_take_lt by lia; done).
  assert (Hin' : forall e, e ∈ take i edges -> 0 <= e.(from) < K /\ 0 <= e.(to) < K) by (intros e' He'; apply Hin; rewrite Htk; apply elem_of_app; by left).
  assert (Eb : (b ← (if bit r e.(from) then Ok true else Ok (bit r e.(to))); if b : bool then edges ← Swap edges (Z.of_nat i) (m - 1); purge_edges r i edges (m - 1) else purge_edges r i edges m)
    = if bit r e.(from) || bit r e.(to) then edges ← Swap edges (Z.of_nat i) (m - 1); purge_edges r i edges (m - 1) else purge_edges r i edges m) by by destruct (bit r e.(from)).
  rewrite Eb, Htk, filter_app, filter_cons, filter_nil, <- app_assoc. clear Eb. destruct (bit r e.(from) || bit r e.(to)) eqn:Ek.
  - rewrite decide_False by (intros [H1 H2]; by rewrite H1, H2 in Ek). rewrite app_nil_l.
    destruct (Swap_last edges (Z.of_nat i) m e) as (edges1 & -> & Hl & Hpre & Hp); [lia|lia|by rewrite Nat2Z.id|]. rewrite bind_ok.
    unfold ztake in Hpre. rewrite Nat2Z.id in Hpre. rewrite <- Hpre in Hin'.
    destruct (IH edges1 (m - 1)) as (edges' & m' & -> & Hl' & Hm1 & Hp'); [lia|done|]. exists edges', m'. split; [done|]. split; [lia|]. split; [lia|].
    rewrite Hp', Hpre. apply Permutation_app_head, (Permutation_app_inv_l (e :: take i edges)).
    assert (E1 : take i edges ++ drop i (ztake (m - 1) edges1) = ztake (m - 1) edges1).
    { rewrite <- Hpre. replace (take i edges1) with (take i (ztake (m - 1) edges1)) by (unfold ztake; rewrite take_take; f_equal; lia). apply take_drop. }
    cbn [app]. rewrite E1, Hp. rewrite <- (take_drop_middle (ztake m edges) i e) at 1 by done. rewrite <- Permutation_middle.
    replace (take i (ztake m edges)) with (take i edges) by (unfold ztake; rewrite take_take; f_equal; lia). done.
  - apply orb_false_iff in Ek as [E1 E2]. rewrite decide_True by done.
    destruct (IH edges m) as (edges' & m' & -> & Hl' & Hm1 & Hp'); [lia|done|]. exists edges', m'. split; [done|]. split; [done|]. split; [lia|].
    rewrite Hp'. by rewrite (drop_S _ _ _ Hm').
Qed.

(** A new node: one that was free, else a recycled one, else the first of a new
    epoch with an empty graph.  It has no edges. *)
Definition fresh_node (dd dd' : DD) (i : Z) : Prop :=
  live dd' i /\ K <= dd'.(current_epoch_) /\ (forall a, ~ edge dd'.(g_) a i /\ ~ edge dd'.(g_) i a) /\
  (dd'.(current_epoch_) = dd.(current_epoch_) /\ ~ live dd i /\ (forall j, live dd' j <-> live dd j \/ j = i) /\
    (forall j, live dd j -> dd'.(data_) !! Z.to_nat j = dd.(data_) !! Z.to_nat j) /\
    (forall a b, edge dd'.(g_) a b -> edge dd.(g_) a b) /\ (forall a b, live dd b -> edge dd.(g_) a b -> edge dd'.(g_) a b) \/
   dd'.(current_epoch_) = dd.(current_epoch_) + K /\ (forall j, 0 <= j < K -> live dd j) /\ (forall j, live dd' j <-> j = i) /\
    forall a b, ~ edge dd'.(g_) a b).

Lemma newNode_available dd data :
  dd_wf dd -> bv_empty dd.(available_nodes_) = false ->
  exists i dd', getAvailableNode dd data = Ok (node_at dd' i, dd') /\ dd_wf dd' /\ dd'.(data_) !! Z.to_nat i = Some data /\
    bit dd.(available_nodes_) i = true /\ fresh_node dd dd' i.
Proof.
  intros Hdd Ea. pose proof Hdd as (_ & (_ & _ & _ & He3) & _ & [Hg1 _]).
  destruct (getAvailableNode_spec dd data Hdd Ea) as (i & dd' & -> & Hdd' & Hi & Hl & Hdat & Hdat' & Eep & Eg & Hlv & _).
  exists i, dd'. split; [unfold node_at; by rewrite Eep|]. split; [done|]. split; [done|]. split; [done|]. split; [done|]. rewrite Eep, Eg. split; [apply (He3 i); by left|]. split.
  - intros a. split; intros Hx; destruct (Hg1 _ _ Hx) as ([_ [? _]] & ?); congruence.
  - left. split; [done|]. split; [intros (_ & ? & _); congruence|]. split; [done|]. split; [|done]. intros j Hj.
    apply Hdat'; [|by destruct Hj as [? _]; lia]. intros ->. destruct Hj as (_ & ? & _). congruence.
Qed.

(** The detector with the recycled nodes available again. *)
Lemma recycle_wf dd edges m (g : BVGraph B) (a : B) :
  dd_wf dd -> (forall i, bit dd.(available_nodes_) i = false) ->
  zlen edges = zlen dd.(edges_) -> 0 <= m <= dd.(n_edges_) -> ztake m edges ≡ₚ filter (keeps dd.(recycled_nodes_)) (recorded dd) ->
  graph_wf g -> (forall x y, edge g x y <-> edge dd.(g_) x y /\ bit dd.(recycled_nodes_) y = false) ->
  bv_wf a -> (forall i, bit a i = bit dd.(recycled_nodes_) i) ->
  let dd1 := MkDetector dd.(current_epoch_) a (bv_clear dd.(recycled_nodes_)) dd.(tmp_bv_) g dd.(data_) edges m in
  dd_wf dd1 /\ forall j, live dd1 j <-> live dd j.
Proof.
  intros ((Ha & Hr & Ht & Hg & Hd & He & Hn) & (He0 & He1 & He2 & He3) & Hdis & [Hg1 Hrec]) Hno Hl Hm Hp Hg' Hedg Ha' Hba dd1.
  destruct (clear_spec _ (bv_wf_shape _ Hr)) as [Hc Hz].
  assert (Hlv : forall j, live dd1 j <-> live dd j) by (intros j; unfold live; cbn; rewrite Hba, Hz, Hno; tauto). split; [|done].
  split; [split; [done|]; split; [done|]; split; [done|]; split; [done|]; split; [done|]; cbn; lia|]. split; [|split; [|split]].
  - split; [done|]. split; [done|]. split; [done|]. cbn. intros i. rewrite Hba, Hz. intros [?|?]; [|done]. apply (He3 i). by right.
  - intros i _. apply Hz.
  - intros x y Hxy. apply Hedg in Hxy as [Hxy Hy]. destruct (Hg1 _ _ Hxy) as [Hx _]. split; [by apply Hlv|]. cbn. by rewrite Hba.
  - intros e Hin. unfold recorded in Hin. cbn in Hin. rewrite Hp in Hin. apply list_elem_of_filter in Hin as [[Hk1 Hk2] Hin].
    destruct (Hrec e Hin) as (? & ? & _ & _ & He'). cbn. rewrite !Hba. split; [done|]. split; [done|]. split; [done|]. split; [done|]. intros _. apply Hedg. auto.
Qed.

(** The detector at the start of a new epoch. *)
Lemma flush_wf dd :
  dd_wf dd -> dd.(current_epoch_) + 2 * K <= 2 ^ 64 ->
  let dd1 := MkDetector (u64 (dd.(current_epoch_) + size (B := B))) (bv_setAll dd.(available_nodes_)) (bv_clear dd.(recycled_nodes_))
      dd.(tmp_bv_) (BVGraph.clear dd.(g_)) dd.(data_) dd.(edges_) 0 in
  dd_wf dd1 /\ dd1.(current_epoch_) = dd.(current_epoch_) + K /\ (forall j, ~ live dd1 j) /\ (forall a b, ~ edge dd1.(g_) a b) /\
  bv_empty dd1.(available_nodes_) = false.
Proof.
  intros ((Ha & Hr & Ht & Hg & Hd & He & Hn) & (He0 & He1 & He2 & He3) & Hdis & _) Hroom dd1. pose proof (bv_size_pos (B := B)) as HK.
  destruct (setAll_spec _ (bv_wf_shape _ Ha)) as [Hsa Hall]. destruct (clear_spec _ (bv_wf_shape _ Hr)) as [Hc Hz].
  destruct (graph_clear_spec _ (graph_wf_shape _ Hg)) as [Hgc Hnoe].
  assert (Eu : u64 (dd.(current_epoch_) + size (B := B)) = dd.(current_epoch_) + K) by (unfold u64, size; apply wrap_small; lia).
  split; [|split; [done|]; split; [|split; [done|]]].
  - split; [split; [done|]; split; [done|]; split; [done|]; split; [done|]; split; [done|]; split; [done|]; cbn; lia|]. split; [|split].
    + unfold epoch_ok. cbn. rewrite Eu. split; [lia|]. split; [lia|]. split; [|intros; lia].
      rewrite <- Zplus_mod_idemp_l, He2, Z.add_0_l. apply Z.mod_same. lia.
    + intros i _. apply Hz.
    + split; [intros a b Hab; by apply Hnoe in Hab|]. unfold recorded, ztake. cbn. intros e Hin. by apply elem_of_nil in Hin.
  - intros j (Hj & Hja & _). cbn in Hja. by rewrite Hall in Hja.
  - apply empty_false; [done|]. exists 0. apply Hall. lia.
Qed.

Lemma newNode_spec dd data :
  dd_wf dd -> dd.(current_epoch_) + 2 * K <= 2 ^ 64 ->
  exists i dd', newNode dd data = Ok (node_at dd' i, dd') /\ dd_wf dd' /\ dd'.(data_) !! Z.to_nat i = Some data /\ fresh_node dd dd' i.
Proof.
  intros Hdd Hroom. pose proof Hdd as ((Ha & Hr & Ht & Hg & Hd & He & Hn) & _ & _ & [_ Hrec]). unfold newNode.
  destruct (bv_empty dd.(available_nodes_)) eqn:Ea; cbn [negb].
  2:{ destruct (newNode_available dd data Hdd Ea) as (i & dd' & ? & ? & ? & _ & ?). eauto 6. }
  pose proof (proj1 (empty_spec _ Ha) Ea) as Hnoav. destruct (bv_empty dd.(recycled_nodes_)) eqn:Er; cbn [negb].
  - pose proof (proj1 (empty_spec _ Hr) Er) as Hnorec. destruct (flush_wf dd Hdd Hroom) as (Hdd1 & Eep & Hnl & Hnoe & Hne).
    destruct (newNode_available _ data Hdd1 Hne) as (i & dd' & -> & Hdd' & Hdat & _ & Hl & HK & Hno & [(Eep' & _ & Hlv & _ & Hsub & _)|(_ & Hall & _)]).
    2:{ pose proof (bv_size_pos (B := B)). destruct (Hnl 0). apply Hall. lia. }
    exists i, dd'. split; [done|]. split; [done|]. split; [done|]. split; [done|]. split; [done|]. split; [done|]. right. split; [congruence|].
    split; [by intros j Hj|]. split; [|intros a b Hab; apply Hsub in Hab; by apply Hnoe in Hab]. intros j. rewrite Hlv. split; [|auto]. intros [Hj|?]; [by apply Hnl in Hj|done].
  - destruct (purge_edges_spec dd.(recycled_nodes_) (Z.to_nat dd.(n_edges_)) Hr dd.(edges_) dd.(n_edges_)) as (edges' & m' & -> & Hl & Hm & Hp); [lia| |].
    { intros e Hin. destruct (Hrec e Hin) as (? & ? & _). done. }
    rewrite bind_ok. rewrite (drop_ge (ztake _ dd.(edges_))), app_nil_r in Hp by (unfold ztake; rewrite length_take; lia).
    destruct (removeEdgesTo_spec dd.(g_) dd.(recycled_nodes_) Hg Hr) as (b & g' & -> & Hg' & Hedg & _). rewrite bind_ok.
    destruct (setUnion_spec _ _ Ha Hr) as (c & a' & -> & Ha' & Hba & _). rewrite bind_ok.
    destruct (recycle_wf dd edges' m' g' a' Hdd Hnoav Hl Hm Hp Hg' Hedg Ha') as [Hdd1 Hlv1]; [intros j; by rewrite Hba, Hnoav|].
    destruct (newNode_available _ data Hdd1) as (i & dd' & -> & Hdd' & Hdat & Hi & Hli & HK & Hno & [(Eep' & Hnl & Hlv & Hdat' & Hsub & Hsup)|(_ & Hall & _)]).
    { apply empty_false; [done|]. apply empty_false in Er as (j & Hj); [|done]. exists j. cbn. by rewrite Hba, Hj, orb_true_r. }
    2:{ apply empty_false in Er as (j & Hj); [|done]. pose proof (bit_range _ _ Hj) as Hjr. destruct (proj1 (Hlv1 j) (Hall j Hjr)) as (_ & _ & ?). congruence. }
    exists i, dd'. split; [done|]. split; [done|]. split; [done|]. split; [done|]. split; [done|]. split; [done|]. left. split; [done|]. split; [by rewrite <- Hlv1|].
    split; [intros j; by rewrite Hlv, Hlv1|]. split; [intros j Hj; by apply Hdat', Hlv1|]. split.
    + intros x y Hxy. apply Hsub in Hxy. by apply Hedg in Hxy as [? _].
    + intros x y Hy Hxy. apply Hsup; [by apply Hlv1|]. apply Hedg. destruct Hy as (_ & _ & ?). done.
Qed.

Lemma removeNode_spec dd i :
  dd_wf dd -> K <= dd.(current_epoch_) -> live dd i ->
  exists dd', removeNode dd (node_at dd i) = Ok dd' /\ dd_wf dd' /\ dd'.(current_epoch_) = dd.(current_epoch_) /\
    (forall j, live dd' j <-> live dd j /\ j <> i) /\ forall a b, edge dd'.(g_) a b <-> edge dd.(g_) a b /\ a <> i.
Proof.
  intros ((Ha & Hr & Ht & Hg & Hd & He & Hn) & Hep & Hdis & [Hg1 Hrec]) HK (Hi & Hia & Hir). pose proof Hep as (He0 & He1 & He2 & He3). unfold removeNode.
  rewrite nodeToIndex_ok, bind_ok by done. rewrite getBit_spec, bind_ok, Hia by done. destruct (setBit_spec _ i Hr Hi) as (r' & -> & Hr' & Hb). rewrite bind_ok, Hir. cbn [negb].
  destruct (removeEdgesFrom_node_spec dd.(g_) i Hg Hi) as (g' & -> & Hg' & Hed). rewrite bind_ok. eexists. split; [done|].
  assert (Hb' : forall j, bit r' j = false <-> bit dd.(recycled_nodes_) j = false /\ j <> i).
  { intros j. rewrite Hb, orb_false_iff, Z.eqb_neq. intuition. }
  split; [|split; [done|]; split; [|exact Hed]].
  - split; [done|]. split; [|split].
    + split; [done|]. split; [done|]. split; [done|]. intros j _. done.
    + cbn. intros j Hj. apply Hb'. split; [by apply Hdis|]. intros ->. congruence.
    + split.
      * cbn. intros x y Hxy. apply Hed in Hxy as [Hxy Hne]. destruct (Hg1 _ _ Hxy) as [(? & ? & ?) ?]. split; [|done]. split; [done|]. cbn. split; [done|]. by apply Hb'.
      * intros e Hin. destruct (Hrec e Hin) as (? & ? & ? & ? & He'). split; [done|]. split; [done|]. split; [done|]. split; [done|]. cbn. intros [? ?]%Hb'. apply Hed. auto.
  - intros j. unfold live. cbn. rewrite Hb'. tauto.
Qed.

(** *** Lock events *)

(** The locks of a thread that count: those of the current epoch. *)
Definition held (dd : DD) (d : TLS) (i : Z) : Prop := d.(epoch_) = dd.(current_epoch_) /\ bit d.(bv_) i = true.

Definition tls_ok (dd : DD) (d : TLS) : Prop := tls_wf d /\ forall i, held dd d i -> live dd i.

Lemma ensure_spec dd d :
  tls_wf d -> let d' := ensureCurrentEpoch dd d in
  tls_wf d' /\ d'.(epoch_) = dd.(current_epoch_) /\ (forall i, bit d'.(bv_) i = true <-> held dd d i) /\
  (d.(epoch_) = dd.(current_epoch_) -> d' = d) /\ (d.(epoch_) <> dd.(current_epoch_) -> d'.(n_all_locks_) = 0 /\ d'.(n_recursive_locks) = 0).
Proof.
  intros Hd d'. unfold d', ensureCurrentEpoch, DeadlockTLS.ensureCurrentEpoch, held. destruct (Z.eqb_spec d.(epoch_) dd.(current_epoch_)) as [E|Hne].
  - split; [done|]. split; [done|]. split; [tauto|]. done.
  - split; [by apply tls_reset, tls_wf_shape|]. split; [done|]. split; [|done]. destruct Hd as (Hb & _). destruct (clear_spec _ (bv_wf_shape _ Hb)) as [_ Hz].
    intros i. cbn [bv_]. rewrite Hz. split; [done|]. by intros [? _].
Qed.

(** A change of the temporaries of the graph. *)
Lemma dd_wf_temps dd g : dd_wf dd -> graph_wf g -> g.(v) = dd.(g_).(v) -> dd_wf (set_g dd g).
Proof.
  intros ((Ha & Hr & Ht & Hg & Hd & He & Hn) & Hep & Hdis & Hed) Hg' Ev. split; [done|]. split; [done|]. split; [done|].
  unfold edges_ok, edge in *. cbn [g_ set_g]. rewrite Ev. exact Hed.
Qed.

Lemma isHeld_spec dd d i :
  dd_wf dd -> tls_wf d -> d.(epoch_) = dd.(current_epoch_) -> K <= dd.(current_epoch_) -> 0 <= i < K -> isHeld dd d (node_at dd i) = Ok (bit d.(bv_) i).
Proof.
  intros (_ & Hep & _) (Hb & _) E HK Hi. unfold isHeld, getLocks. rewrite E, Z.eqb_refl, bind_ok, nodeToIndex_ok, bind_ok by done. by apply getBit_spec.
Qed.

(** Before a lock is taken: is a held lock reachable from it? *)
Lemma onLockBefore_spec dd d i :
  dd_wf dd -> tls_ok dd d -> K <= dd.(current_epoch_) -> live dd i ->
  exists r g, onLockBefore dd d (node_at dd i) = Ok (r, (set_g dd g, ensureCurrentEpoch dd d)) /\ dd_wf (set_g dd g) /\ g.(v) = dd.(g_).(v) /\
    (r = true <-> exists h, held dd d h /\ rtc (edge dd.(g_)) i h).
Proof.
  intros Hdd [Hd _] HK (Hi & _). destruct (ensure_spec dd d Hd) as ((Hb & Hrest) & Hep & Hbits & _). pose proof Hdd as ((_ & _ & _ & Hg & _) & Hepo & _).
  unfold onLockBefore, getLocks. rewrite nodeToIndex_ok, bind_ok, Hep, Z.eqb_refl, bind_ok by done.
  destruct (isReachable_spec dd.(g_) i _ Hg Hb Hi) as (r & g & -> & Hg' & Ev & Hr). rewrite bind_ok. exists r, g. split; [done|].
  split; [by apply dd_wf_temps|]. split; [done|]. rewrite Hr. by setoid_rewrite Hbits.
Qed.

(** The stacks recorded for the new edges: of as many as there is room for. *)
Definition records (d : TLS) (i stk tid : Z) (a : Z) (e : Edge) : Prop :=
  e.(from) = a /\ e.(to) = i /\ e.(stk_to) = stk /\ e.(unique_tid) = tid /\ DeadlockTLS.findLockContext d a = Ok e.(stk_from).

Lemma index_u16 i : 0 <= i < K -> u16 i = i.
Proof. intros Hi. pose proof (small_ok (B := B)). unfold u16. apply wrap_small. lia. Qed.

Lemma record_edges_spec d i stk tid l edges n :
  tls_wf d -> 0 <= i < K -> (forall a, a ∈ l -> bit d.(bv_) a = true) -> zlen edges = K * 32 -> 0 <= n <= K * 32 ->
  exists edges' n' new, foldM (record_edge d i stk tid) l (edges, n) = Ok (edges', n') /\ zlen edges' = K * 32 /\ n <= n' <= K * 32 /\
    ztake n' edges' = ztake n edges ++ new /\ Forall2 (records d i stk tid) (ztake (K * 32 - n) l) new.
Proof.
  intros Hd Hi Hl He Hn. destruct (foldM_inv (fun seen '(edges', n') => zlen edges' = K * 32 /\ n <= n' <= K * 32 /\
      exists new, n' = n + zlen new /\ ztake n' edges' = ztake n edges ++ new /\ Forall2 (records d i stk tid) (ztake (K * 32 - n) seen) new)
    (record_edge d i stk tid) l (edges, n)) as ((edges' & n') & E & He' & Hn' & new & En & Et & Hf).
  - split; [done|]. split; [lia|]. exists []. rewrite app_nil_r. unfold ztake, zlen. rewrite take_nil. split; [cbn; lia|]. split; [done|constructor].
  - intros seen a rest [edges1 n1] El (He1 & Hn1 & new & En & Et & Hf). unfold record_edge, size. destruct (Z.ltb_spec n1 (K * 32)) as [Hlt|Hge].
    + assert (Hba : bit d.(bv_) a = true) by (apply Hl; rewrite El; apply elem_of_app; right; left). pose proof (bit_range _ _ Hba) as Hra.
      pose proof Hd as (_ & _ & _ & _ & _ & _ & _ & Hm). apply Hm in Hba as Hc. apply list_elem_of_fmap in Hc as (c & -> & Hc).
      rewrite (findLockContext_spec d c Hd Hc), bind_ok, aset_ok, bind_ok by lia. eexists. split; [done|]. rewrite !index_u16 by done.
      split; [by rewrite zlen_insert|]. split; [lia|]. exists (new ++ [MkEdge c.(lock) i c.(DeadlockTLS.stk) stk tid]). rewrite zlen_app. split; [change (zlen [_]) with 1; lia|].
      split; [rewrite ztake_snoc, Et, app_assoc by lia; done|]. assert (Hlen : zlen new = zlen seen).
      { apply Forall2_length in Hf. unfold ztake in Hf. rewrite length_take in Hf. unfold zlen in *. lia. }
      unfold ztake, zlen in *. rewrite take_ge in Hf by lia. rewrite take_ge by (rewrite length_app; cbn; lia). apply Forall2_app; [done|].
      constructor; [|constructor]. split; [done|]. split; [done|]. split; [done|]. split; [done|]. by apply findLockContext_spec.
    + eexists. split; [done|]. split; [done|]. split; [done|]. exists new. split; [done|]. split; [done|].
      assert (Hlen : (length (ztake (K * 32 - n) seen) = length new)) by by apply Forall2_length in Hf.
      unfold ztake, zlen in *. rewrite length_take in Hlen. rewrite take_app_le by lia. done.
  - exists edges', n', new. split; [done|]. split; [done|]. split; [done|]. split; done.
Qed.

(** After a lock is taken: the edges from all held locks are there. *)
Lemma dd_addEdges_spec dd d i stk tid :
  dd_wf dd -> tls_ok dd d -> K <= dd.(current_epoch_) -> live dd i ->
  let added := ztake 40 (ones (fun a => bit (ensureCurrentEpoch dd d).(bv_) a && negb (edge_in dd.(g_).(v) a i)) K) in
  exists dd' new, addEdges dd d (node_at dd i) stk tid = Ok (zlen added, (dd', ensureCurrentEpoch dd d)) /\ dd_wf dd' /\
    dd'.(current_epoch_) = dd.(current_epoch_) /\ dd'.(data_) = dd.(data_) /\ (forall j, live dd' j <-> live dd j) /\
    (forall a b, edge dd'.(g_) a b <-> with_lock (edge dd.(g_)) (held dd d) i a b) /\
    recorded dd' = recorded dd ++ new /\ Forall2 (records (ensureCurrentEpoch dd d) i stk tid) (ztake (K * 32 - dd.(n_edges_)) added) new.
Proof.
  intros Hdd [Hd Hok] HK Hli added. pose proof Hli as (Hi & Hia & Hir). destruct (ensure_spec dd d Hd) as (Hd' & Hep & Hbits & _). set (d' := ensureCurrentEpoch dd d) in *.
  pose proof Hdd as ((Ha & Hr & Ht & Hg & Hda & He & Hn) & Hepo & Hdis & [Hg1 Hrec]). pose proof Hd' as (Hb & _).
  unfold addEdges, getLocks. fold d'. rewrite nodeToIndex_ok, bind_ok, Hep, Z.eqb_refl, bind_ok by done.
  destruct (BVGraph.addEdges_spec dd.(g_) d'.(bv_) i 40 Hg Hb Hi ltac:(lia)) as (g & -> & Hg' & Hed). fold added. rewrite bind_ok.
  assert (Hadd : forall a, a ∈ added -> bit d'.(bv_) a = true).
  { intros a Hin. unfold added, ztake in Hin. apply elem_of_take in Hin as (m & Hm & _). apply list_elem_of_lookup_2, elem_of_ones in Hm as [_ Hm]. by apply andb_true_iff in Hm as [? _]. }
  destruct (record_edges_spec d' i stk tid added dd.(edges_) dd.(n_edges_) Hd' Hi Hadd He Hn) as (edges' & n' & new & -> & He' & Hn' & Et & Hf). rewrite bind_ok.
  set (dd' := MkDetector _ _ _ _ g _ edges' n'). assert (Hedge : forall a b, edge g a b <-> with_lock (edge dd.(g_)) (held dd d) i a b).
  { intros a b. rewrite Hed, Hbits. done. }
  exists dd', new. split; [done|]. split; [|split; [done|]; split; [done|]; split; [done|]; split; [done|]; split; [exact Et|done]].
  split; [split; [done|]; split; [done|]; split; [done|]; split; [done|]; split; [done|]; split; [done|cbn; lia]|]. split; [done|]. split; [done|]. split.
  - cbn [g_ dd']. intros a b [Hab|[Hh ->]]%Hedge; [by apply Hg1|]. split; [by apply Hok|done].
  - intros e Hin. unfold recorded in Hin. cbn [n_edges_ edges_ dd'] in Hin. rewrite Et in Hin. cbn [g_ available_nodes_ recycled_nodes_ dd']. apply elem_of_app in Hin as [Hin|Hin].
    + destruct (Hrec e Hin) as (? & ? & ? & ? & He1). split; [done|]. split; [done|]. split; [done|]. split; [done|]. intros ?. apply Hedge. left. auto.
    + apply list_elem_of_lookup in Hin as (m & Hm). destruct (Forall2_lookup_r _ _ _ _ _ Hf Hm) as (a & Hma & <- & -> & _).
      assert (Hbf : bit d'.(bv_) e.(from) = true) by (apply Hadd; unfold ztake in Hma; apply lookup_take_Some in Hma as [Hma _]; by eapply list_elem_of_lookup_2).
      apply Hbits in Hbf as Hh. destruct (Hok _ Hh) as (? & ? & ?). split; [done|]. split; [done|]. split; [done|]. split; [done|]. intros _. apply Hedge. by right.
Qed.

Lemma onLockAfter_spec dd d i stk :
  dd_wf dd -> tls_wf d -> d.(epoch_) = dd.(current_epoch_) -> K <= dd.(current_epoch_) -> 0 <= i < K ->
  (if bit d.(bv_) i then d.(n_recursive_locks) else d.(n_all_locks_)) < 64 ->
  exists d', onLockAfter dd d (node_at dd i) stk = Ok d' /\ tls_wf d' /\ d'.(epoch_) = d.(epoch_) /\
    (forall j, bit d'.(bv_) j = bit d.(bv_) j || (i =? j)) /\
    (forall j, acquisitions d' j = (acquisitions d j + if (i =? j)%Z then 1 else 0)%nat).
Proof.
  intros (_ & Hep & _) Hd E HK Hi Hroom. destruct (ensure_spec dd d Hd) as (_ & _ & _ & -> & _); [|done]. unfold onLockAfter.
  destruct (ensure_spec dd d Hd) as (_ & _ & _ & -> & _); [|done]. rewrite nodeToIndex_ok, bind_ok by done. rewrite <- E.
  pose proof (addLock_spec d i stk Hd Hi) as Ha. rewrite (proj2 (Z.ltb_lt _ _) Hroom) in Ha. destruct Ha as (d' & -> & ? & ? & ? & ? & _). eauto 8.
Qed.

Lemma acyclic_ext (E E' : Z -> Z -> Prop) : (forall a b, E a b <-> E' a b) -> acyclic E -> acyclic E'.
Proof.
  intros Heq Hac a b Hab Hba. assert (Hsub : forall x y, rtc E' x y -> rtc E x y) by (intros x y; apply rtc_subrel; intros ? ?; apply Heq). auto.
Qed.

(** A whole lock event. *)
Lemma onLock_spec dd d i stk :
  dd_wf dd -> tls_ok dd d -> K <= dd.(current_epoch_) -> live dd i -> ~ held dd d i ->
  (d.(epoch_) = dd.(current_epoch_) -> d.(n_all_locks_) < 64) ->
  exists r dd' d', onLock dd d (node_at dd i) stk = Ok (r, (dd', d')) /\ dd_wf dd' /\ tls_ok dd' d' /\
    (forall j, held dd' d' j <-> held dd d j \/ j = i) /\ (forall j, live dd' j <-> live dd j) /\
    (forall a b, edge dd'.(g_) a b <-> with_lock (edge dd.(g_)) (held dd d) i a b) /\
    (r = true <-> exists h, held dd d h /\ rtc (edge dd.(g_)) i h).
Proof.
  intros Hdd Hok HK Hli Hnh Hroom. pose proof Hok as [Hd Hlive]. pose proof Hli as (Hi & _). destruct (ensure_spec dd d Hd) as (Hd' & Hep & Hbits & Hsame & Hreset). unfold onLock.
  set (d1 := ensureCurrentEpoch dd d) in *. rewrite isHeld_spec, bind_ok by done. assert (Hb1 : bit d1.(bv_) i = false) by (destruct (bit d1.(bv_) i) eqn:E; [by apply Hbits in E|done]).
  assert (Hheld : forall j, held dd d1 j <-> held dd d j) by (intros j; rewrite <- Hbits; unfold held; tauto).
  assert (Hok1 : tls_ok dd d1) by (split; [done|]; intros j Hj; by apply Hlive, Hheld).
  rewrite Hb1. cbn [negb]. destruct (onLockBefore_spec dd d1 i Hdd Hok1 HK Hli) as (r & g & -> & Hdd1 & Ev & Hr). rewrite bind_ok.
  assert (Hens : ensureCurrentEpoch dd d1 = d1) by (destruct (ensure_spec dd d1 Hd') as (_ & _ & _ & E & _); by apply E). rewrite Hens. set (dd1 := set_g dd g) in *.
  change (node_at dd i) with (node_at dd1 i). destruct (dd_addEdges_spec dd1 d1 i stk 0 Hdd1 Hok1 HK Hli) as (dd2 & new & -> & Hdd2 & Eep & _ & Hlv & Hedge & _). rewrite bind_ok.
  change (ensureCurrentEpoch dd1 d1) with (ensureCurrentEpoch dd d1). rewrite Hens. assert (Hn : d1.(n_all_locks_) < 64).
  { destruct (Z.eq_dec d.(epoch_) dd.(current_epoch_)) as [E|E]; [rewrite (Hsame E); auto|]. destruct (Hreset E) as [-> _]. lia. }
  change (node_at dd1 i) with (i + dd.(current_epoch_)). cbn [current_epoch_ dd1 set_g] in Eep. rewrite <- Eep in *. change (i + dd2.(current_epoch_)) with (node_at dd2 i).
  destruct (onLockAfter_spec dd2 d1 i stk Hdd2 Hd' Hep HK Hi) as (d2 & -> & Hd2 & Eep2 & Hbit2 & _); [by rewrite Hb1|]. rewrite bind_ok.
  assert (Hh2 : forall j, held dd2 d2 j <-> held dd d j \/ j = i).
  { intros j. unfold held at 1. rewrite Eep2, Hep, Hbit2, orb_true_iff, Hbits, Z.eqb_eq. intuition. }
  exists r, dd2, d2. split; [done|]. split; [done|]. split; [split; [done|]; intros j [Hj| ->]%Hh2; apply Hlv; [by apply Hlive|done]|].
  split; [done|]. split; [done|]. split.
  - intros a b. rewrite Hedge. unfold with_lock, edge. cbn [g_ dd1 set_g]. rewrite Ev. split; (intros [?|[? ->]]; [by left|right; split; [by apply Hheld|done]]).
  - rewrite Hr. by setoid_rewrite Hheld.
Qed.

(** The fast path: all edges are there already. *)
Lemma hasAllEdges_spec dd d i :
  dd_wf dd -> tls_wf d -> K <= dd.(current_epoch_) -> 0 <= i < K ->
  exists b, hasAllEdges dd d (node_at dd i) = Ok b /\
    (b = true <-> d.(epoch_) = dd.(current_epoch_) /\ forall h, bit d.(bv_) h = true -> edge dd.(g_) h i).
Proof.
  intros ((_ & _ & _ & Hg & _) & (_ & _ & He & _) & _) Hd HK Hi. pose proof (bv_size_pos (B := B)) as Hpos.
  unfold hasAllEdges, getEpoch, nodeToEpoch, nodeToIndexUnchecked, node_at, size. destruct (node_parts _ i He Hi) as [Em Ed]. rewrite Em, Ed.
  rewrite (proj2 (Z.eqb_neq (i + dd.(current_epoch_)) 0)) by lia. cbn [negb andb]. rewrite andb_diag.
  destruct (Z.eqb_spec d.(epoch_) dd.(current_epoch_)) as [E|Hne]; [|exists false; split; [done|]; split; [done|]; by intros [? _]].
  pose proof Hd as (_ & _ & Ha & _ & Hna & _ & _ & Hm). unfold getNumLocks.
  cut (forall n k, 0 <= k -> k + Z.of_nat n = d.(n_all_locks_) -> exists b, has_edges dd d i n k = Ok b /\
    (b = true <-> forall m c, k <= Z.of_nat m < d.(n_all_locks_) -> d.(all_locks_with_contexts_) !! m = Some c -> edge dd.(g_) c.(lock) i)).
  { intros Hcut. destruct (Hcut (Z.to_nat d.(n_all_locks_)) 0) as (b & Eb & Hb); [lia|lia|]. exists b. split; [done|]. rewrite Hb. split.
    - intros Hall. split; [done|]. intros h Hh. apply Hm, list_elem_of_fmap in Hh as (c & -> & Hc). apply list_elem_of_lookup in Hc as (m & Hmc).
      unfold ctxs, ztake in Hmc. apply lookup_take_Some in Hmc as [Hmc Hlt]. apply (Hall m c); [lia|done].
    - intros [_ Hall] m c Hmn Hmc. apply Hall, Hm. apply list_elem_of_fmap_2, (list_elem_of_lookup_2 _ m). unfold ctxs, ztake. rewrite lookup_take_lt by lia. done. }
  induction n as [|n IH]; intros k Hk Hn; cbn [has_edges].
  { exists true. split; [done|]. split; [|done]. intros _ m c Hmn. lia. }
  destruct (lookup_lt_is_Some_2 d.(all_locks_with_contexts_) (Z.to_nat k)) as [c Hc]; [unfold zlen in *; lia|]. unfold getLock.
  rewrite (aget_lookup _ _ c), !bind_ok by (done || lia). assert (Hlk : 0 <= c.(lock) < K).
  { apply (bit_range d.(bv_)), Hm, list_elem_of_fmap_2, (list_elem_of_lookup_2 _ (Z.to_nat k)). unfold ctxs, ztake. rewrite lookup_take_lt by lia. done. }
  destruct (hasEdge_spec dd.(g_) c.(lock) i Hg Hlk Hi) as [-> _]. rewrite bind_ok. destruct (edge_in dd.(g_).(v) c.(lock) i) eqn:Ee; cbn [negb].
  - destruct (IH (k + 1)) as (b & -> & Hb); [lia|lia|]. exists b. split; [done|]. rewrite Hb. split.
    + intros Hall m c' Hmn Hmc. destruct (decide (Z.of_nat m = k)) as [Em'|]; [|apply (Hall m); [lia|done]]. replace (Z.to_nat k) with m in Hc by lia. congruence.
    + intros Hall m c' Hmn Hmc. apply (Hall m); [lia|done].
  - exists false. split; [done|]. split; [done|]. intros Hall. exfalso. specialize (Hall (Z.to_nat k) c ltac:(lia) Hc). unfold edge in Hall. congruence.
Qed.

(** *** Reports *)

Lemma walk_range g (targets : B) a l : graph_wf g -> bv_wf targets -> 0 <= a < K -> walk g targets a l -> Forall (fun x => 0 <= x < K) l.
Proof.
  intros (Hg & _) Ht Ha Hw. revert Ha. induction Hw as [a Hb|a b l Hab Hw IH]; intros Ha; constructor; [done|constructor|done|].
  apply IH. by apply (edge_range g.(v)) in Hab as [_ ?].
Qed.

Lemma walk_ext g (t t' : B) a l : (forall i, bit t i = bit t' i) -> walk g t a l -> walk g t' a l.
Proof. intros Ht. induction 1 as [a Ha|a b l Hab _ IH]; [apply walk_end; by rewrite <- Ht|by apply (walk_step _ _ _ b)]. Qed.

(** The path as node ids. *)
Lemma path_to_nodes dd r path :
  epoch_ok dd -> 0 <= r <= zlen path -> Forall (fun x => 0 <= x < K) (ztake r path) ->
  exists path', foldM (fun i path => x ← aget path i; n ← indexToNode dd x; aset path i n) (seqZ 0 r) path = Ok path' /\
    length path' = length path /\ ztake r path' = node_at dd <$> ztake r path.
Proof.
  intros Hep Hr Hall. unfold zlen, ztake in *. destruct (foldM_inv (fun seen path1 => path1 = (node_at dd <$> take (length seen) path) ++ drop (length seen) path)
    (fun i path => x ← aget path i; n ← indexToNode dd x; aset path i n) (seqZ 0 r) path) as (path' & E & Hp).
  - cbn. by rewrite drop_0.
  - intros seen x rest path1 El ->. assert (Hx : seqZ 0 r !! length seen = Some x) by (rewrite El, lookup_app_r, Nat.sub_diag by lia; done).
    apply lookup_seqZ in Hx as [-> Hlt]. rewrite Z.add_0_l. destruct (lookup_lt_is_Some_2 path (length seen)) as [y Hy]; [lia|].
    assert (Hlen : length (node_at dd <$> take (length seen) path) = length seen) by (rewrite length_fmap, length_take; lia).
    rewrite (aget_lookup _ _ y), bind_ok; [|lia|rewrite Nat2Z.id, lookup_app_r, Hlen, Nat.sub_diag, lookup_drop, Nat.add_0_r by lia; done].
    rewrite indexToNode_ok, bind_ok; [|done|apply (Forall_lookup_1 _ _ (length seen) y Hall); rewrite lookup_take_lt by lia; done].
    rewrite aset_ok by (unfold zlen; rewrite length_app, length_drop, Hlen; lia). eexists. split; [done|]. rewrite Nat2Z.id, length_app, Nat.add_1_r.
    rewrite (drop_S _ _ _ Hy), insert_middle by done. rewrite (take_S_r _ _ _ Hy), fmap_app, <- app_assoc. done.
  - exists path'. split; [done|]. subst path'. rewrite length_seqZ. assert (Hlen : length (node_at dd <$> take (Z.to_nat r) path) = Z.to_nat r) by (rewrite length_fmap, length_take; lia).
    split; [rewrite length_app, length_drop, Hlen; lia|]. rewrite take_app_le by lia. by rewrite take_ge by lia.
Qed.

(** The reported path: a shortest one from the lock to a held one. *)
Lemma findPathToLock_spec dd d i path path_size :
  dd_wf dd -> tls_wf d -> d.(epoch_) = dd.(current_epoch_) -> K <= dd.(current_epoch_) -> 0 <= i < K -> bit d.(bv_) i = false -> 0 <= path_size <= zlen path ->
  exists r path' dd' l, findPathToLock dd d (node_at dd i) path path_size = Ok (r, (path', dd')) /\ dd_wf dd' /\
    dd'.(current_epoch_) = dd.(current_epoch_) /\ dd'.(g_) = dd.(g_) /\ dd'.(data_) = dd.(data_) /\ recorded dd' = recorded dd /\ (forall j, live dd' j <-> live dd j) /\
    length path' = length path /\ ztake r path' = node_at dd <$> l /\ zlen l = r /\
    if r =? 0 then forall k, walk dd.(g_) d.(bv_) i k -> path_size < zlen k
    else r <= path_size /\ walk dd.(g_) d.(bv_) i l /\ forall k, walk dd.(g_) d.(bv_) i k -> r <= zlen k.
Proof.
  intros Hdd Hd E HK Hi Hb Hps. pose proof Hdd as ((Ha & Hr & Ht & Hg & Hda & He & Hn) & Hep & Hdis & Hed). pose proof Hd as (Hbv & _).
  unfold findPathToLock, getLocks. rewrite E, Z.eqb_refl, bind_ok. destruct (copyFrom_spec dd.(tmp_bv_) d.(bv_) Ht Hbv) as (tmp & -> & Htmp & Hbt). rewrite bind_ok.
  set (dd' := MkDetector _ _ _ tmp _ _ _ _). change (node_at dd i) with (node_at dd' i). rewrite (nodeToIndex_ok dd'), bind_ok by done.
  rewrite getBit_spec, bind_ok, Hbt, Hb by done. change (g_ dd') with (g_ dd). destruct (findShortestPath_spec dd.(g_) i tmp path path_size Hg Htmp Hi Hps) as (r & path1 & -> & Hl1 & Hc). rewrite bind_ok.
  assert (Hdd' : dd_wf dd') by (split; [split; [done|]; split; [done|]; split; [by apply bv_wf_shape|done]|done]).
  assert (Hwalk : forall k, walk dd.(g_) tmp i k <-> walk dd.(g_) d.(bv_) i k).
  { intros k. split; apply walk_ext; auto. }
  assert (Hr0 : 0 <= r <= zlen path1) by (unfold zlen in *; destruct (Z.eqb_spec r 0); lia).
  destruct (path_to_nodes dd' r path1 Hep Hr0) as (path2 & -> & Hl2 & Ht2).
  { destruct (Z.eqb_spec r 0) as [->|]; [constructor|]. destruct Hc as (_ & Hw & _). by eapply walk_range. }
  rewrite bind_ok. assert (Hzl : zlen (ztake r path1) = r) by by apply zlen_ztake. exists r, path2, dd', (ztake r path1).
  split; [|split; [done|]; split; [done|]; split; [done|]; split; [done|]; split; [done|]; split; [done|]; split; [congruence|]; split; [done|]; split; [done|]].
  - destruct (Z.eqb_spec r 0); cbn [negb]; [done|]. destruct Hc as (_ & Hw & _). destruct (walk_head _ _ _ _ Hw) as (k & Ek). rewrite Ek, fmap_cons in Ht2.
    rewrite (aget_lookup path2 0 (node_at dd' i)), bind_ok, Z.eqb_refl; [done|done|]. unfold ztake in Ht2. destruct path2 as [|x path2]; [by rewrite take_nil in Ht2|].
    destruct (Z.to_nat r); [done|]. cbn in Ht2. by injection Ht2 as -> _.
  - destruct (Z.eqb_spec r 0); [intros k Hk; by apply Hc, Hwalk|]. destruct Hc as (? & Hw & Hmin). split; [lia|]. split; [by apply Hwalk|]. intros k Hk. by apply Hmin, Hwalk.
Qed.

(** The stacks of a recorded edge are found. *)
Lemma findEdge_spec dd a b :
  dd_wf dd -> K <= dd.(current_epoch_) -> 0 <= a < K -> 0 <= b < K ->
  exists o, findEdge dd (node_at dd a) (node_at dd b) = Ok o /\
    match o with
    | Some (s1, s2, t) => exists e, e ∈ recorded dd /\ e.(from) = a /\ e.(to) = b /\ s1 = e.(stk_from) /\ s2 = e.(stk_to) /\ t = e.(unique_tid)
    | None => forall e, e ∈ recorded dd -> ~ (e.(from) = a /\ e.(to) = b)
    end.
Proof.
  intros ((_ & _ & _ & _ & _ & He & Hn) & Hep & _) HK Ha Hb. unfold findEdge. rewrite !nodeToIndex_ok, !bind_ok by done. unfold recorded.
  cut (forall n k, 0 <= k -> k + Z.of_nat n = dd.(n_edges_) -> (forall m e, Z.of_nat m < k -> dd.(edges_) !! m = Some e -> ~ (e.(from) = a /\ e.(to) = b)) ->
    exists o, find_edge dd.(edges_) n k a b = Ok o /\
      match o with Some e => e ∈ ztake dd.(n_edges_) dd.(edges_) /\ e.(from) = a /\ e.(to) = b
      | None => forall e, e ∈ ztake dd.(n_edges_) dd.(edges_) -> ~ (e.(from) = a /\ e.(to) = b) end).
  { intros Hcut. destruct (Hcut (Z.to_nat dd.(n_edges_)) 0) as (o & -> & Ho); [lia|lia|intros; lia|]. rewrite bind_ok.
    eexists. split; [done|]. destruct o as [e|]; cbn; [exists e; tauto|done]. }
  induction n as [|n IH]; intros k Hk Hkn Hno; cbn [find_edge].
  - exists None. split; [done|]. intros e Hin. unfold ztake in Hin. apply elem_of_take in Hin as (m & Hm & Hlt). apply (Hno m); [lia|done].
  - destruct (lookup_lt_is_Some_2 dd.(edges_) (Z.to_nat k)) as [e Hke]; [unfold zlen in *; lia|]. rewrite (aget_lookup _ _ e), bind_ok by (done || lia).
    destruct ((e.(from) =? a) && (e.(to) =? b)) eqn:Ec.
    + to_Prop. exists (Some e). split; [done|]. split; [|done]. unfold ztake. apply elem_of_take. exists (Z.to_nat k). split; [done|lia].
    + apply IH; [lia|lia|]. intros m e' Hm Hme [E1 E2]. destruct (decide (Z.of_nat m = k)) as [Em|]; [|by apply (Hno m e' ltac:(lia) Hme)].
      replace (Z.to_nat k) with m in Hke by lia. assert (e' = e) as -> by congruence. rewrite E1, E2, !Z.eqb_refl in Ec. done.
Qed.
End Invariant.
