(* ===== verification/DDetector.v ===== *)
(** * Deadlock detection for the runtime

    [src/ufo-rt/lib/sanitizer_common/sanitizer_deadlock_detector1.cc] with
    [sanitizer_deadlock_detector_interface.h]: the events of the mutexes of a
    program, each with the thread it happens in.  Mutexes and threads are
    records in a store, by address; the code holds [mtx] where it touches the
    graph, and each event is one step.  What a callback unwinds to is a value
    of the callback.

    Shown: as long as a program destroys no mutex that is held, and holds no
    more locks than the arrays have room for, no event fails a CHECK or leaves
    an array, whatever the order of the events, over recycling and flushing of
    the graph; a thread that is about to lock is reported exactly when the lock
    closes a cycle; the report names the mutexes of the cycle. *)
From stdpp Require Import base numbers list relations gmap.
From Stdlib Require Import ZArith Lia.
From S2P Require Import Prelude BitVector BasicBitVector TwoLevelBitVector BVGraph DeadlockTLS DeadlockDetector.

Local Open Scope Z_scope.

(** [DDBV] *)
Definition DDBV : Type := TwoLevelBitVector 1 64.

Record DDMutex : Type := MkMutex { id : Z; m_stk : Z; m_ctx : Z }.

Record LoopEntry : Type := MkEntry { thr_ctx : Z; mtx_ctx0 : Z; mtx_ctx1 : Z; stk0 : Z; stk1 : Z }.

(** [DDReport]: the first [n] entries of [loop] are in use. *)
Record DDReport : Type := MkReport { n : Z; loop : list LoopEntry }.

Definition kMaxLoopSize : Z := 20.

Record DDLogicalThread (B : Type) : Type := MkThread {
  lt_ctx : Z;
  lt_dd : DeadlockDetectorTLS B;
  rep : DDReport;
  report_pending : bool;
}.
Arguments MkThread {B} _ _ _ _.
Arguments lt_ctx {B} _.
Arguments lt_dd {B} _.
Arguments rep {B} _.
Arguments report_pending {B} _.

(** The detector, with the mutexes and the threads of the program. *)
Record DD (B : Type) : Type := MkDD {
  det : DeadlockDetector B;
  second_deadlock_stack : bool;
  mutexes : gmap Z DDMutex;
  threads : gmap Z (DDLogicalThread B);
}.
Arguments MkDD {B} _ _ _ _.
Arguments det {B} _.
Arguments second_deadlock_stack {B} _.
Arguments mutexes {B} _.
Arguments threads {B} _.

(** The thread of the callback, and what [Unwind] and [UniqueTid] return. *)
Record DDCallback : Type := MkCallback { lt : Z; Unwind : Z; UniqueTid : Z }.

Section DD.
Context {B : Type} `{BVOps B}.

Definition the_mutex (st : DD B) (m : Z) : res DDMutex := res_of_option ENull (st.(mutexes) !! m).
Definition the_thread (st : DD B) (t : Z) : res (DDLogicalThread B) := res_of_option ENull (st.(threads) !! t).

Definition set_det (st : DD B) (d : DeadlockDetector B) : DD B := MkDD d st.(second_deadlock_stack) st.(mutexes) st.(threads).
Definition set_mutex (st : DD B) (m : Z) (x : DDMutex) : DD B := MkDD st.(det) st.(second_deadlock_stack) (<[m := x]> st.(mutexes)) st.(threads).
Definition set_thread (st : DD B) (t : Z) (x : DDLogicalThread B) : DD B := MkDD st.(det) st.(second_deadlock_stack) st.(mutexes) (<[t := x]> st.(threads)).
Definition with_dd (x : DDLogicalThread B) (d : DeadlockDetectorTLS B) : DDLogicalThread B := MkThread x.(lt_ctx) d x.(rep) x.(report_pending).

(** [DD::DD]: in zeroed memory, [mem]. *)
Definition DD_init (mem : DeadlockDetector B) (second : bool) : DD B := MkDD (DeadlockDetector.clear mem) second ∅ ∅.

(** The thread is in memory of any contents, [mem]. *)
Definition CreateLogicalThread (st : DD B) (t ctx : Z) (mem : DDLogicalThread B) : DD B :=
  set_thread st t (MkThread ctx (DeadlockTLS.clear mem.(lt_dd)) mem.(rep) false).

Definition DestroyLogicalThread (st : DD B) (t : Z) : DD B := MkDD st.(det) st.(second_deadlock_stack) st.(mutexes) (delete t st.(threads)).

Definition MutexInit (st : DD B) (cb : DDCallback) (m : Z) : res (DD B) :=
  x ← the_mutex st m;
  Ok (set_mutex st m (MkMutex 0 cb.(Unwind) x.(m_ctx))).

Definition MutexEnsureID (st : DD B) (t m : Z) : res (DD B) :=
  x ← the_mutex st m;
  st ← (if negb (nodeBelongsToCurrentEpoch st.(det) x.(id)) then
          '(node, d) ← newNode st.(det) m;
          Ok (set_mutex (set_det st d) m (MkMutex node x.(m_stk) x.(m_ctx)))
        else Ok st);
  y ← the_thread st t;
  Ok (set_thread st t (with_dd y (ensureCurrentEpoch st.(det) y.(lt_dd)))).

(** One entry of the report. *)
Definition report_entry (st : DD B) (path : list Z) (len i : Z) (l : list LoopEntry) : res (list LoopEntry) :=
  from ← aget path i;
  to ← aget path ((i + 1) mod len);
  p0 ← getData st.(det) from;
  p1 ← getData st.(det) to;
  o ← findEdge st.(det) from to;
  let '(stk_from, stk_to, unique_tid) := default (2 ^ 32 - 1, 2 ^ 32 - 1, 0) o in
  m0 ← the_mutex st p0;
  m1 ← the_mutex st p1;
  aset l i (MkEntry (u64 unique_tid) m0.(m_ctx) m1.(m_ctx) stk_to stk_from).

Definition ReportDeadlock (st : DD B) (cb : DDCallback) (m : Z) (stack : list Z) : res (DD B) :=
  x ← the_mutex st m;
  y ← the_thread st cb.(lt);
  '(len, (path, d)) ← findPathToLock st.(det) y.(lt_dd) x.(id) stack 20;
  let st := set_det st d in
  if len =? 0 then Ok st
  else
    p0 ← aget path 0;
    if negb (x.(id) =? p0) then Err EDie
    else
      let len := Z.min len kMaxLoopSize in
      l ← foldM (report_entry st path len) (seqZ 0 len) y.(rep).(loop);
      Ok (set_thread st cb.(lt) (MkThread y.(lt_ctx) y.(lt_dd) (MkReport len l) true)).

(** [stack] is the contents of [path[20]] of [ReportDeadlock]. *)
Definition MutexBeforeLock (st : DD B) (cb : DDCallback) (m : Z) (wlock : bool) (stack : list Z) : res (DD B) :=
  y ← the_thread st cb.(lt);
  if DeadlockTLS.empty y.(lt_dd) then Ok st
  else
    x ← the_mutex st m;
    all ← hasAllEdges st.(det) y.(lt_dd) x.(id);
    if all : bool then Ok st
    else
      st ← MutexEnsureID st cb.(lt) m;
      x ← the_mutex st m;
      y ← the_thread st cb.(lt);
      held ← isHeld st.(det) y.(lt_dd) x.(id);
      if held : bool then Ok st
      else
        '(r, (d, tls)) ← onLockBefore st.(det) y.(lt_dd) x.(id);
        let st := set_thread (set_det st d) cb.(lt) (with_dd y tls) in
        if r : bool then
          '(_, (d, tls)) ← addEdges st.(det) tls x.(id) cb.(Unwind) cb.(UniqueTid);
          ReportDeadlock (set_thread (set_det st d) cb.(lt) (with_dd y tls)) cb m stack
        else Ok st.

(** The part of [MutexAfterLock] that holds [mtx]. *)
Definition after_slow (st : DD B) (cb : DDCallback) (m : Z) (wlock trylock : bool) (stk : Z) : res (DD B) :=
  st ← MutexEnsureID st cb.(lt) m;
  x ← the_mutex st m;
  y ← the_thread st cb.(lt);
  _ ← (if wlock then held ← isHeld st.(det) y.(lt_dd) x.(id); if held : bool then Err EDie else Ok tt else Ok tt);
  '(d, tls) ← (if negb trylock then
                 p ← addEdges st.(det) y.(lt_dd) x.(id) (if negb (stk =? 0) then stk else cb.(Unwind)) cb.(UniqueTid);
                 Ok p.2
               else Ok (st.(det), y.(lt_dd)));
  tls ← onLockAfter d tls x.(id) stk;
  Ok (set_thread (set_det st d) cb.(lt) (with_dd y tls)).

Definition MutexAfterLock (st : DD B) (cb : DDCallback) (m : Z) (wlock trylock : bool) : res (DD B) :=
  y ← the_thread st cb.(lt);
  x ← the_mutex st m;
  let stk := if st.(second_deadlock_stack) then cb.(Unwind) else 0 in
  '(first, tls) ← onFirstLock st.(det) y.(lt_dd) x.(id) stk;
  if first : bool then Ok (set_thread st cb.(lt) (with_dd y tls))
  else
    '(fast, tls) ← onLockFast st.(det) y.(lt_dd) x.(id) stk;
    if fast : bool then Ok (set_thread st cb.(lt) (with_dd y tls))
    else
      after_slow st cb m wlock trylock stk.

Definition MutexBeforeUnlock (st : DD B) (cb : DDCallback) (m : Z) (wlock : bool) : res (DD B) :=
  y ← the_thread st cb.(lt);
  x ← the_mutex st m;
  tls ← onUnlock y.(lt_dd) x.(id);
  Ok (set_thread st cb.(lt) (with_dd y tls)).

Definition MutexDestroy (st : DD B) (cb : DDCallback) (m : Z) : res (DD B) :=
  x ← the_mutex st m;
  if x.(id) =? 0 then Ok st
  else
    st ← (if nodeBelongsToCurrentEpoch st.(det) x.(id) then d ← removeNode st.(det) x.(id); Ok (set_det st d) else Ok st);
    Ok (set_mutex st m (MkMutex 0 x.(m_stk) x.(m_ctx))).

Definition GetReport (st : DD B) (cb : DDCallback) : res (option DDReport * DD B) :=
  y ← the_thread st cb.(lt);
  if negb y.(report_pending) then Ok (None, st)
  else Ok (Some y.(rep), set_thread st cb.(lt) (MkThread y.(lt_ctx) y.(lt_dd) y.(rep) false)).
End DD.

(** ** The invariant of the program *)

Section Laws.
Context {B : Type} `{BVLaws B} `{!SmallBV B}.
#[local] Abbreviation K := (bv_kSize B).
Implicit Types st : DD B.
Implicit Types dd : DeadlockDetector B.
Implicit Types y : DDLogicalThread B.

(** What a thread holds in the current epoch are nodes in use. *)
Definition tls_sys (dd : DeadlockDetector B) (d : DeadlockDetectorTLS B) : Prop := tls_ok dd d /\ 0 <= d.(epoch_) <= dd.(current_epoch_).

Definition thread_ok (dd : DeadlockDetector B) (y : DDLogicalThread B) : Prop := tls_sys dd y.(lt_dd) /\ zlen y.(rep).(loop) = 20.

(** A mutex has no node, a node of an older epoch, or one in use that refers to
    the mutex. *)
Definition mutex_ok (dd : DeadlockDetector B) (m : Z) (x : DDMutex) : Prop :=
  x.(id) = 0 \/ exists i e, 0 <= i < K /\ e mod K = 0 /\ K <= e <= dd.(current_epoch_) /\ x.(id) = i + e /\
    (e = dd.(current_epoch_) -> live dd i /\ dd.(data_) !! Z.to_nat i = Some m).

(** Every node in use is that of a mutex. *)
Definition owned (dd : DeadlockDetector B) (ms : gmap Z DDMutex) : Prop :=
  K <= dd.(current_epoch_) -> forall i, live dd i -> exists m x, dd.(data_) !! Z.to_nat i = Some m /\ ms !! m = Some x /\ x.(id) = node_at dd i.

Definition sys_ok (st : DD B) : Prop :=
  dd_wf st.(det) /\ map_Forall (fun _ y => thread_ok st.(det) y) st.(threads) /\
  map_Forall (fun m x => mutex_ok st.(det) m x) st.(mutexes) /\ owned st.(det) st.(mutexes).

(** Changes of the detector that leave the nodes as they are. *)
Definition same_nodes (dd dd' : DeadlockDetector B) : Prop :=
  dd'.(current_epoch_) = dd.(current_epoch_) /\ dd'.(data_) = dd.(data_) /\ forall j, live dd' j <-> live dd j.

Lemma tls_sys_same dd dd' d : same_nodes dd dd' -> tls_sys dd d -> tls_sys dd' d.
Proof.
  intros (Ee & _ & Hlv) [[Hd Hl] He]. unfold tls_sys. rewrite Ee. split; [split; [done|]|done].
  intros i Hi. apply Hlv, Hl. unfold held in *. by rewrite <- Ee.
Qed.

Lemma sys_set_det st dd' : sys_ok st -> dd_wf dd' -> same_nodes st.(det) dd' -> sys_ok (set_det st dd').
Proof.
  intros (Hdd & Ht & Hm & Ho) Hdd' Hs. pose proof Hs as (Ee & Ed & Hlv). split; [done|]. split; [|split].
  - intros t y Hy. destruct (Ht t y Hy) as [Hy1 Hy2]. split; [by apply (tls_sys_same st.(det))|done].
  - intros m x Hx. destruct (Hm m x Hx) as [?|(i & e & ? & ? & ? & ? & Hc)]; [by left|]. right. exists i, e. cbn [det set_det]. rewrite Ee, Ed. split; [done|].
    split; [done|]. split; [done|]. split; [done|]. intros He. destruct (Hc He). split; [by apply Hlv|done].
  - unfold owned, node_at. cbn [det set_det mutexes]. rewrite Ee, Ed. intros HK i Hi. apply Ho; [done|by apply Hlv].
Qed.

Lemma sys_set_thread st t y : sys_ok st -> thread_ok st.(det) y -> sys_ok (set_thread st t y).
Proof. intros (Hdd & Ht & Hm & Ho) Hy. split; [done|]. split; [|split; done]. by apply map_Forall_insert_2. Qed.

Lemma the_thread_ok st t y : st.(threads) !! t = Some y -> the_thread st t = Ok y.
Proof. intros E. unfold the_thread. by rewrite E. Qed.

Lemma the_mutex_ok st m x : st.(mutexes) !! m = Some x -> the_mutex st m = Ok x.
Proof. intros E. unfold the_mutex. by rewrite E. Qed.

(** A node id belongs to the current epoch iff it is that of a node in use. *)
Lemma belongs_spec st m x :
  sys_ok st -> st.(mutexes) !! m = Some x ->
  if nodeBelongsToCurrentEpoch st.(det) x.(id)
  then K <= st.(det).(current_epoch_) /\ exists i, x.(id) = node_at st.(det) i /\ live st.(det) i /\ st.(det).(data_) !! Z.to_nat i = Some m
  else forall i, live st.(det) i -> K <= st.(det).(current_epoch_) -> x.(id) <> node_at st.(det) i.
Proof.
  intros (Hdd & _ & Hm & _) Hx. pose proof Hdd as (_ & (_ & _ & He & _) & _). pose proof (bv_size_pos (B := B)) as HK. unfold nodeBelongsToCurrentEpoch, DeadlockDetector.size.
  destruct (Hm m x Hx) as [E0|(i & e & Hi & Hem & Hee & E & Hc)].
  - rewrite E0. cbn [Z.eqb negb andb]. intros i (Hi & _) HKe. unfold node_at. lia.
  - destruct (node_parts e i Hem Hi) as [_ Ed]. rewrite E, Ed, (proj2 (Z.eqb_neq (i + e) 0)) by lia. cbn [negb andb]. destruct (Z.eqb_spec e st.(det).(current_epoch_)) as [Ec|Hne].
    + split; [lia|]. exists i. split; [unfold node_at; congruence|]. by apply Hc.
    + intros j (Hj & _) _ Ej. unfold node_at in Ej. destruct (node_parts _ j He Hj) as [_ Ed']. rewrite <- Ej, Ed in Ed'. done.
Qed.

(** A mutex that gets a new node. *)
Lemma sys_new_node st m x i dd' s :
  sys_ok st -> st.(mutexes) !! m = Some x -> nodeBelongsToCurrentEpoch st.(det) x.(id) = false ->
  dd_wf dd' -> dd'.(data_) !! Z.to_nat i = Some m -> fresh_node st.(det) dd' i ->
  sys_ok (set_mutex (set_det st dd') m (MkMutex (node_at dd' i) s x.(m_ctx))).
Proof.
  intros Hst Hx Hnb Hdd' Hdat (Hli & HKe & _ & Hcase). pose proof (belongs_spec st m x Hst Hx) as Hbel. rewrite Hnb in Hbel. pose proof Hst as (Hdd & Ht & Hm & Ho).
  pose proof Hdd' as (_ & (_ & _ & He' & _) & _). pose proof (bv_size_pos (B := B)) as HK. pose proof Hli as (Hi & _).
  assert (Hep : st.(det).(current_epoch_) <= dd'.(current_epoch_)) by (destruct Hcase as [(-> & _)|(-> & _)]; lia).
  split; [done|]. cbn [det threads mutexes set_mutex set_det]. split; [|split].
  - intros t y Hy. destruct (Ht t y Hy) as [[[Hd Hl] He] Hy2]. split; [|done]. split; [split; [done|]|lia]. intros j [Ej Hj].
    destruct Hcase as [(Ee & _ & Hlv & _)|(Ee & _)]; [|lia]. apply Hlv. left. apply Hl. split; [congruence|done].
  - apply map_Forall_insert_2.
    + right. exists i, dd'.(current_epoch_). done.
    + intros m' x' Hx'. destruct (Hm m' x' Hx') as [?|(j & e & ? & ? & ? & ? & Hc)]; [by left|]. right. exists j, e. split; [done|]. split; [done|]. split; [lia|]. split; [done|].
      intros ->. destruct Hcase as [(Ee & _ & Hlv & Hda & _)|(Ee & _)]; [|lia]. destruct (Hc Ee) as [Hlj Hdj]. split; [apply Hlv; by left|]. by rewrite Hda.
  - intros _ j Hj. destruct (decide (j = i)) as [->|Hne]; [exists m; eexists; split; [done|]; split; [apply lookup_insert_eq|done]|].
    destruct Hcase as [(Ee & Hnl & Hlv & Hda & _)|(_ & _ & Hlv & _)]; [|by apply Hlv in Hj]. apply Hlv in Hj as [Hj|?]; [|done].
    rewrite Ee in HKe. destruct (Ho HKe j Hj) as (m' & x' & Hm1 & Hx1 & Hid). exists m', x'. rewrite Hda by done. split; [done|]. unfold node_at in *. rewrite Ee. split; [|done].
    rewrite lookup_insert_ne; [done|]. intros <-. assert (x' = x) as -> by congruence. by apply (Hbel j Hj HKe).
Qed.

(** [MutexEnsureID]: the mutex has a node in use, and the thread is in the
    current epoch. *)
Definition ensured (st : DD B) (dd' : DeadlockDetector B) (i t m : Z) (x : DDMutex) (y : DDLogicalThread B) : DD B :=
  MkDD dd' st.(second_deadlock_stack) (<[m := MkMutex (node_at dd' i) x.(m_stk) x.(m_ctx)]> st.(mutexes))
    (<[t := with_dd y (ensureCurrentEpoch dd' y.(lt_dd))]> st.(threads)).

Lemma tls_sys_ensure dd d : tls_sys dd d -> 0 <= dd.(current_epoch_) -> tls_sys dd (ensureCurrentEpoch dd d).
Proof.
  intros [[Hd Hl] He] H0'. destruct (ensure_spec dd d Hd) as (Hd' & Hep & Hb & _). split; [split; [done|]|lia].
  intros i [_ Hi]. by apply Hl, Hb.
Qed.

Lemma MutexEnsureID_spec st t m x y :
  sys_ok st -> st.(mutexes) !! m = Some x -> st.(threads) !! t = Some y -> st.(det).(current_epoch_) + 2 * K <= 2 ^ 64 ->
  exists dd' i, MutexEnsureID st t m = Ok (ensured st dd' i t m x y) /\ sys_ok (ensured st dd' i t m x y) /\ live dd' i /\ K <= dd'.(current_epoch_) /\
    (dd' = st.(det) /\ x.(id) = node_at dd' i \/ nodeBelongsToCurrentEpoch st.(det) x.(id) = false /\ fresh_node st.(det) dd' i).
Proof.
  intros Hst Hx Hy Hroom. pose proof (belongs_spec st m x Hst Hx) as Hbel. unfold MutexEnsureID. rewrite (the_mutex_ok st m x Hx), bind_ok.
  assert (Hfin : forall st1 dd', sys_ok st1 -> st1.(det) = dd' -> st1.(threads) = st.(threads) ->
    sys_ok (set_thread st1 t (with_dd y (ensureCurrentEpoch dd' y.(lt_dd))))).
  { intros st1 dd' Hst1 <- Et. apply sys_set_thread; [done|]. pose proof Hst1 as (((_ & _ & _ & _ & _) & (He0 & _) & _) & Ht & _).
    destruct (Ht t y) as [Hty Hl]; [by rewrite Et|]. split; [by apply tls_sys_ensure|done]. }
  destruct (nodeBelongsToCurrentEpoch st.(det) x.(id)) eqn:Eb; cbn [negb].
  - destruct Hbel as (HKe & i & Ei & Hli & _). rewrite bind_ok, (the_thread_ok st t y Hy), bind_ok. exists st.(det), i.
    assert (E : ensured st st.(det) i t m x y = set_thread st t (with_dd y (ensureCurrentEpoch st.(det) y.(lt_dd)))).
    { unfold ensured, set_thread. rewrite <- Ei. f_equal. apply insert_id. rewrite Hx. by destruct x. }
    rewrite E. split; [done|]. split; [by apply Hfin|]. split; [done|]. split; [done|]. by left.
  - pose proof Hst as (Hdd & _). destruct (newNode_spec st.(det) m Hdd Hroom) as (i & dd' & -> & Hdd' & Hdat & Hfr). rewrite !bind_ok.
    set (st1 := set_mutex _ _ _). rewrite (the_thread_ok st1 t y Hy), bind_ok. exists dd', i. split; [done|].
    split; [apply (Hfin st1); [by apply sys_new_node|done|done]|]. split; [by destruct Hfr|]. split; [by destruct Hfr as (_ & ? & _)|]. by right.
Qed.

(** *** The report *)

(** The entry [k] of the report names the mutexes of the nodes [k] and [k + 1]
    of the cycle. *)
Definition node_mutex (st : DD B) (a : Z) (x : DDMutex) : Prop :=
  exists m, st.(det).(data_) !! Z.to_nat a = Some m /\ st.(mutexes) !! m = Some x /\ x.(id) = node_at st.(det) a.

Definition entry_names (st : DD B) (l : list Z) (loop : list LoopEntry) (k : Z) : Prop :=
  exists e a b x0 x1, loop !! Z.to_nat k = Some e /\ l !! Z.to_nat k = Some a /\ l !! Z.to_nat ((k + 1) mod zlen l) = Some b /\
    node_mutex st a x0 /\ node_mutex st b x1 /\ e.(mtx_ctx0) = x0.(m_ctx) /\ e.(mtx_ctx1) = x1.(m_ctx).

Lemma getData_ok st a x : sys_ok st -> K <= st.(det).(current_epoch_) -> live st.(det) a -> node_mutex st a x ->
  exists p, getData st.(det) (node_at st.(det) a) = Ok p /\ st.(mutexes) !! p = Some x.
Proof.
  intros ((_ & Hep & _) & _) HK (Ha & _) (m & Hm & Hx & _). exists m. unfold getData. rewrite nodeToIndex_ok, bind_ok by done. split; [|done]. apply aget_lookup; [lia|done].
Qed.

Lemma live_mutex st a : sys_ok st -> K <= st.(det).(current_epoch_) -> live st.(det) a -> exists x, node_mutex st a x.
Proof. intros (_ & _ & _ & Ho) HK Ha. destruct (Ho HK a Ha) as (m & x & ? & ? & ?). exists x, m. done. Qed.

Lemma report_entries st l path loop :
  sys_ok st -> K <= st.(det).(current_epoch_) -> Forall (live st.(det)) l -> 0 < zlen l <= 20 -> ztake (zlen l) path = node_at st.(det) <$> l -> zlen loop = 20 ->
  exists loop', foldM (report_entry st path (zlen l)) (seqZ 0 (zlen l)) loop = Ok loop' /\ zlen loop' = 20 /\ forall k, 0 <= k < zlen l -> entry_names st l loop' k.
Proof.
  intros Hst HK Hl Hn Hp Hlo. destruct (foldM_inv (fun seen loop1 => zlen loop1 = 20 /\ forall k, k ∈ seen -> entry_names st l loop1 k)
    (report_entry st path (zlen l)) (seqZ 0 (zlen l)) loop) as (loop' & E & Hlo' & Hall).
  - split; [done|]. intros k Hk. by apply elem_of_nil in Hk.
  - intros seen k rest loop1 El (Hl1 & Hall). assert (Hk : 0 <= k < zlen l) by (cut (k ∈ seqZ 0 (zlen l)); [rewrite elem_of_seqZ; lia|rewrite El; apply elem_of_app; right; left]).
    assert (Hns : k ∉ seen) by (pose proof (NoDup_seqZ 0 (zlen l)) as Hnd; rewrite El in Hnd; apply NoDup_app in Hnd as (_ & Hd & _); intros Hs; apply (Hd k Hs); left).
    assert (Hseen : forall k', k' ∈ seen -> 0 <= k') by (intros k' Hk'; cut (k' ∈ seqZ 0 (zlen l)); [rewrite elem_of_seqZ; lia|rewrite El; apply elem_of_app; by left]).
    assert (Hget : forall j, 0 <= j < zlen l -> exists a x, l !! Z.to_nat j = Some a /\ aget path j = Ok (node_at st.(det) a) /\ live st.(det) a /\ node_mutex st a x).
    { intros j Hj. destruct (lookup_lt_is_Some_2 l (Z.to_nat j)) as [a Ha]; [unfold zlen in *; lia|]. pose proof (Forall_lookup_1 _ _ _ _ Hl Ha) as Hla.
      destruct (live_mutex st a Hst HK Hla) as (x & Hx). exists a, x. split; [done|]. split; [|done]. apply aget_lookup; [lia|].
      rewrite <- (lookup_take_lt path (Z.to_nat (zlen l))) by lia. unfold ztake in Hp. rewrite Hp, list_lookup_fmap, Ha. done. }
    assert (Hk' : 0 <= (k + 1) mod zlen l < zlen l) by (apply Z.mod_pos_bound; lia).
    destruct (Hget k Hk) as (a & x0 & Ha & Ea & Hla & Hx0). destruct (Hget _ Hk') as (b & x1 & Hb & Eb & Hlb & Hx1). unfold report_entry.
    rewrite Ea, Eb, !bind_ok. destruct (getData_ok st a x0 Hst HK Hla Hx0) as (p0 & -> & Hp0). destruct (getData_ok st b x1 Hst HK Hlb Hx1) as (p1 & -> & Hp1). rewrite !bind_ok.
    pose proof Hst as (Hdd & _). destruct (findEdge_spec st.(det) a b Hdd HK) as (o & -> & _); [by destruct Hla|by destruct Hlb|]. rewrite bind_ok.
    destruct (default _ o) as [[s1 s2] tid]. rewrite (the_mutex_ok st p0 x0 Hp0), (the_mutex_ok st p1 x1 Hp1), !bind_ok, aset_ok by lia. eexists. split; [done|].
    split; [by rewrite zlen_insert|]. intros k' [Hin|Hin]%elem_of_app.
    + destruct (Hall k' Hin) as (e & a' & b' & y0 & y1 & He & Hrest). exists e, a', b', y0, y1. split; [|done]. rewrite list_lookup_insert_ne; [done|].
      intros E. apply Hns. replace k with k'; [done|]. specialize (Hseen k' Hin). lia.
    + apply list_elem_of_singleton in Hin as ->. eexists _, a, b, x0, x1. split; [apply list_lookup_insert_eq; unfold zlen in *; lia|]. done.
  - exists loop'. split; [done|]. split; [done|]. intros k Hk. apply Hall, elem_of_seqZ. lia.
Qed.

(** The nodes of a path to a held lock are in use. *)
Lemma walk_live dd d i l : dd_wf dd -> tls_ok dd d -> d.(epoch_) = dd.(current_epoch_) -> walk dd.(g_) d.(bv_) i l -> Forall (live dd) l.
Proof.
  intros (_ & _ & _ & [Hg _]) [_ Hl] E. induction 1 as [a Ha|a b l Hab _ IH]; constructor; [by apply Hl|constructor| |done]. by destruct (Hg a b Hab).
Qed.

(** [ReportDeadlock]. *)
Lemma ReportDeadlock_spec st cb m x y i stack :
  sys_ok st -> st.(mutexes) !! m = Some x -> st.(threads) !! cb.(lt) = Some y -> K <= st.(det).(current_epoch_) ->
  x.(id) = node_at st.(det) i -> live st.(det) i -> y.(lt_dd).(epoch_) = st.(det).(current_epoch_) -> bit y.(lt_dd).(bv_) i = false -> zlen stack = 20 ->
  exists dd' y', ReportDeadlock st cb m stack = Ok (set_thread (set_det st dd') cb.(lt) y') /\ sys_ok (set_thread (set_det st dd') cb.(lt) y') /\
    dd'.(g_) = st.(det).(g_) /\ same_nodes st.(det) dd' /\ y'.(lt_dd) = y.(lt_dd) /\
    if y'.(report_pending) then y' = y \/ exists l, walk st.(det).(g_) y.(lt_dd).(bv_) i l /\ y'.(rep).(n) = zlen l /\ zlen l <= 20 /\
      (forall k, walk st.(det).(g_) y.(lt_dd).(bv_) i k -> zlen l <= zlen k) /\ forall k, 0 <= k < zlen l -> entry_names st l y'.(rep).(loop) k
    else forall l, walk st.(det).(g_) y.(lt_dd).(bv_) i l -> 20 < zlen l.
Proof.
  intros Hst Hx Hy HK Eid Hli Eep Hb Hstk. pose proof Hst as (Hdd & Ht & _). destruct (Ht _ y Hy) as [[[Hd Hl] He] Hlo]. pose proof Hli as (Hi & _). unfold ReportDeadlock.
  rewrite (the_mutex_ok st m x Hx), (the_thread_ok st _ y Hy), !bind_ok, Eid.
  destruct (findPathToLock_spec st.(det) y.(lt_dd) i stack 20) as (r & path & dd' & l & -> & Hdd' & Ee & Eg & Ed & Er & Hlv & Hlp & Hp & Hr & Hc); [done..|lia|]. rewrite bind_ok.
  assert (Hsame : same_nodes st.(det) dd') by done. assert (Hst1 : sys_ok (set_det st dd')) by by apply sys_set_det.
  destruct (Z.eqb_spec r 0) as [->|Hr0].
  - exists dd', y. assert (E : set_thread (set_det st dd') (lt cb) y = set_det st dd') by (unfold set_thread, set_det; f_equal; by apply insert_id). rewrite E.
    split; [done|]. split; [done|]. split; [done|]. split; [done|]. split; [done|]. destruct (report_pending y); [by left|done].
  - destruct Hc as (Hr20 & Hw & Hmin). assert (Hpos : 0 < r) by (pose proof (zlen_nonneg l); lia).
    assert (Hp0 : aget path 0 = Ok (node_at st.(det) i)).
    { destruct (walk_head _ _ _ _ Hw) as (k & ->). apply aget_lookup; [done|]. unfold ztake in Hp. destruct path as [|p path]; [by rewrite take_nil in Hp|].
      replace (Z.to_nat r) with (S (Z.to_nat (r - 1))) in Hp by lia. cbn in Hp. by injection Hp as -> _. }
    rewrite Hp0, bind_ok, Z.eqb_refl. cbn [negb]. unfold kMaxLoopSize. rewrite Z.min_l by lia. subst r.
    assert (Hlive : Forall (live (det (set_det st dd'))) l).
    { apply (Forall_impl (live st.(det))); [by apply (walk_live st.(det) y.(lt_dd) i)|]. intros a Ha. by apply Hlv. }
    destruct (report_entries (set_det st dd') l path y.(rep).(loop) Hst1) as (loop' & E & Hlo' & Hall); [cbn; by rewrite Ee|done|lia| |done|].
    { rewrite Hp. apply list_fmap_ext. intros k a _. unfold node_at. cbn. by rewrite Ee. }
    rewrite E, bind_ok. eexists dd', _. split; [done|]. split; [|split; [done|]; split; [done|]; split; [done|]].
    + apply sys_set_thread; [done|]. split; [|done]. cbn. by apply (tls_sys_same st.(det)).
    + cbn. right. exists l. split; [done|]. split; [done|]. split; [done|]. split; [done|]. intros k Hk. destruct (Hall k Hk) as (e & a & b & x0 & x1 & ? & ? & ? & H1 & H2 & ?).
      assert (Hnm : forall a x, node_mutex (set_det st dd') a x -> node_mutex st a x).
      { intros c z (m' & Hm1 & Hm2 & Hm3). exists m'. cbn in Hm1, Hm2. unfold node_at in *. cbn in Hm3. rewrite Ed in Hm1. rewrite Ee in Hm3. done. }
      exists e, a, b, x0, x1. split; [done|]. split; [done|]. split; [done|]. split; [by apply Hnm|]. split; [by apply Hnm|done].
Qed.

(** *** Before a lock is taken *)

(** [l] leads from the lock to one that the thread holds: with the lock taken,
    the graph has a cycle. *)
Definition lock_path (st : DD B) (t m i : Z) (l : list Z) : Prop :=
  exists x y, st.(mutexes) !! m = Some x /\ st.(threads) !! t = Some y /\ x.(id) = node_at st.(det) i /\ live st.(det) i /\ K <= st.(det).(current_epoch_) /\
    y.(lt_dd).(epoch_) = st.(det).(current_epoch_) /\ bit y.(lt_dd).(bv_) i = false /\ walk st.(det).(g_) y.(lt_dd).(bv_) i l.

Lemma walk_sub (g g' : BVGraph B) (t t' : B) i l :
  (forall a b, edge g a b -> edge g' a b) -> (forall a, bit t a = true -> bit t' a = true) -> walk g t i l -> walk g' t' i l.
Proof. intros Hg Ht. induction 1 as [a Ha|a b l Hab _ IH]; [apply walk_end; auto|apply (walk_step _ _ _ b); auto]. Qed.

(** Edges that leave a held lock do not shorten a path to one. *)
Lemma walk_shortcut (g g' : BVGraph B) (t : B) i l :
  (forall a b, edge g' a b -> edge g a b \/ bit t a = true) -> walk g' t i l ->
  exists l', walk g t i l' /\ zlen l' <= zlen l /\ (zlen l' = zlen l -> l' = l).
Proof.
  intros Hg Hw. induction Hw as [a Ha|a b l Hab Hw (l' & Hw' & Hle & Heq)]; [exists [a]; split; [by apply walk_end|]; split; [done|done]|].
  destruct (walk_head _ _ _ _ Hw) as (k & El). destruct (bit t a) eqn:Ea.
  - exists [a]. split; [by apply walk_end|]. subst l. unfold zlen. cbn. split; [lia|]. intros ?. lia.
  - exists (a :: l'). destruct (Hg a b Hab) as [Hab'|?]; [|congruence]. split; [by apply (walk_step _ _ _ b)|]. unfold zlen in *. cbn. split; [lia|]. intros ?. f_equal. apply Heq. lia.
Qed.

Lemma hasAllEdges_mutex st m x y :
  sys_ok st -> st.(mutexes) !! m = Some x -> tls_wf y.(lt_dd) ->
  exists b, hasAllEdges st.(det) y.(lt_dd) x.(id) = Ok b /\
    (b = true -> y.(lt_dd).(epoch_) = st.(det).(current_epoch_) /\ K <= st.(det).(current_epoch_) /\
      exists i, x.(id) = node_at st.(det) i /\ live st.(det) i /\ forall h, bit y.(lt_dd).(bv_) h = true -> edge st.(det).(g_) h i).
Proof.
  intros Hst Hx Hd. pose proof (belongs_spec st m x Hst Hx) as Hbel. pose proof Hst as (Hdd & _). destruct (nodeBelongsToCurrentEpoch st.(det) x.(id)) eqn:Eb.
  - destruct Hbel as (HKe & i & Ei & Hli & _). rewrite Ei. destruct (hasAllEdges_spec st.(det) y.(lt_dd) i Hdd Hd HKe) as (b & -> & Hb); [by destruct Hli|].
    exists b. split; [done|]. intros [? ?]%Hb. eauto 6.
  - exists false. split; [|done]. unfold nodeBelongsToCurrentEpoch in Eb. unfold hasAllEdges, getEpoch, nodeToEpoch. destruct (x.(id) =? 0); [done|]. cbn [negb andb] in *.
    destruct (Z.eqb_spec y.(lt_dd).(epoch_) st.(det).(current_epoch_)) as [->|]; [|done]. cbn [andb]. by rewrite Z.eqb_sym, Eb.
Qed.

(** What the event leaves of a thread that had no report pending. *)
Definition before_spec (st : DD B) (t m : Z) (y : DDLogicalThread B) (st' : DD B) : Prop :=
  sys_ok st' /\ exists y', st'.(threads) !! t = Some y' /\ (y.(report_pending) = false ->
    (acyclic (edge st.(det).(g_)) -> y'.(report_pending) = true <-> exists i l, lock_path st t m i l /\ zlen l <= 20) /\
    (y'.(report_pending) = true -> exists i l, lock_path st t m i l /\ (forall l', lock_path st t m i l' -> zlen l <= zlen l') /\
      y'.(rep).(n) = zlen l /\ forall k, 0 <= k < zlen l -> entry_names st l y'.(rep).(loop) k)).

Lemma before_quiet st t m st' y y' :
  sys_ok st' -> st'.(threads) !! t = Some y' -> y'.(report_pending) = y.(report_pending) ->
  (acyclic (edge st.(det).(g_)) -> forall i l, ~ lock_path st t m i l) -> before_spec st t m y st'.
Proof.
  intros Hst' Hy' Hp Hno. split; [done|]. exists y'. split; [done|]. rewrite Hp. intros ->. split; [|done].
  intros Hac. split; [done|]. intros (i & l & Hl & _). by destruct (Hno Hac i l).
Qed.

(** The graph shows no path when the search finds none. *)
Lemma no_lock_path st t m x y :
  st.(mutexes) !! m = Some x -> st.(threads) !! t = Some y ->
  (forall i h, x.(id) = node_at st.(det) i -> live st.(det) i -> K <= st.(det).(current_epoch_) -> y.(lt_dd).(epoch_) = st.(det).(current_epoch_) -> bit y.(lt_dd).(bv_) i = false ->
    bit y.(lt_dd).(bv_) h = true -> ~ rtc (edge st.(det).(g_)) i h) ->
  forall i l, ~ lock_path st t m i l.
Proof.
  intros Hx Hy Hno i l (x' & y' & Hx' & Hy' & Eid & Hli & HK & Eep & Hb & Hw). assert (x' = x) as -> by congruence. assert (y' = y) as -> by congruence.
  destruct (proj1 (walk_reach st.(det).(g_) y.(lt_dd).(bv_) i)) as (h & Hh & Hr); [eauto|]. by apply (Hno i h).
Qed.

Lemma same_nodes_trans dd dd1 dd2 : same_nodes dd dd1 -> same_nodes dd1 dd2 -> same_nodes dd dd2.
Proof. intros (E1 & D1 & L1) (E2 & D2 & L2). split; [congruence|]. split; [congruence|]. intros j. by rewrite L2, L1. Qed.

Lemma entry_names_same st st' l loop k :
  st'.(mutexes) = st.(mutexes) -> same_nodes st.(det) st'.(det) -> entry_names st' l loop k -> entry_names st l loop k.
Proof.
  intros Em (Ee & Ed & _) (e & a & b & x0 & x1 & ? & ? & ? & H1 & H2 & ?).
  assert (Hnm : forall a x, node_mutex st' a x -> node_mutex st a x).
  { intros c z (m' & Hm1 & Hm2 & Hm3). exists m'. unfold node_at in *. rewrite Ed in Hm1. rewrite Em in Hm2. rewrite Ee in Hm3. done. }
  exists e, a, b, x0, x1. split; [done|]. split; [done|]. split; [done|]. split; [by apply Hnm|]. split; [by apply Hnm|done].
Qed.

(** The branch that has found a path. *)
Lemma before_report st cb m x y i d1 g stack :
  sys_ok st -> st.(mutexes) !! m = Some x -> st.(threads) !! cb.(lt) = Some y -> K <= st.(det).(current_epoch_) ->
  x.(id) = node_at st.(det) i -> live st.(det) i -> d1 = ensureCurrentEpoch st.(det) y.(lt_dd) -> y.(lt_dd).(epoch_) = st.(det).(current_epoch_) ->
  bit y.(lt_dd).(bv_) i = false -> dd_wf (set_g st.(det) g) -> g.(v) = st.(det).(g_).(v) -> zlen stack = 20 ->
  let st1 := set_thread (set_det st (set_g st.(det) g)) cb.(lt) (with_dd y d1) in
  exists st', ('(_, (d, tls)) ← addEdges st1.(det) d1 x.(id) cb.(Unwind) cb.(UniqueTid);
    ReportDeadlock (set_thread (set_det st1 d) cb.(lt) (with_dd y tls)) cb m stack) = Ok st' /\ before_spec st cb.(lt) m y st'.
Proof.
  intros Hst Hx Hy HK Eid Hli Ed1 Eep Hb Hdd1 Ev Hstk st1. pose proof Hst as (Hdd & Ht & _). destruct (Ht _ y Hy) as [Hts Hlo]. pose proof Hts as [Hok He].
  assert (E1 : d1 = y.(lt_dd)) by (subst d1; destruct (ensure_spec st.(det) y.(lt_dd)) as (_ & _ & _ & E & _); [by destruct Hok|by apply E]). clear Ed1. subst d1.
  assert (Ey : with_dd y y.(lt_dd) = y) by by destruct y. unfold st1. rewrite Ey. clear st1. set (st1 := set_thread _ _ y). rewrite Eid. cbn [det st1 set_thread set_det].
  change (node_at st.(det) i) with (node_at (set_g st.(det) g) i).
  destruct (dd_addEdges_spec (set_g st.(det) g) y.(lt_dd) i cb.(Unwind) cb.(UniqueTid) Hdd1 Hok HK Hli) as (dd2 & new & -> & Hdd2 & Ee2 & Ed2 & Hlv2 & Hedge & _). rewrite bind_ok.
  assert (Eens : ensureCurrentEpoch (set_g st.(det) g) y.(lt_dd) = y.(lt_dd)) by (destruct (ensure_spec st.(det) y.(lt_dd)) as (_ & _ & _ & E & _); [by destruct Hok|by apply E]). rewrite Eens, Ey.
  assert (Hs2 : same_nodes st.(det) dd2) by done. set (st2 := set_thread (set_det st1 dd2) cb.(lt) y).
  assert (Est2 : st2 = set_thread (set_det st dd2) cb.(lt) y) by (unfold st2, st1, set_thread, set_det; cbn; by rewrite insert_insert_eq).
  assert (Hst2 : sys_ok st2).
  { rewrite Est2. apply sys_set_thread; [by apply sys_set_det|]. split; [by apply (tls_sys_same st.(det))|done]. }
  assert (Hedge' : forall a b, edge dd2.(g_) a b -> edge st.(det).(g_) a b \/ bit y.(lt_dd).(bv_) a = true).
  { intros a b [Hab|[[_ Hh] _]]%Hedge; [left|by right]. unfold edge in *. cbn in Hab. by rewrite <- Ev. }
  assert (Hsub : forall a b, edge st.(det).(g_) a b -> edge dd2.(g_) a b) by (intros a b Hab; apply Hedge; left; unfold edge in *; cbn; by rewrite Ev).
  destruct (ReportDeadlock_spec st2 cb m x y i stack) as (dd3 & y' & -> & Hst3 & _ & Hs3 & Edd & Hc); [done|done|apply lookup_insert_eq|cbn; rewrite Ee2; done| |by apply Hlv2|cbn; rewrite Ee2; done|done|done|].
  { rewrite Eid. unfold node_at. cbn. by rewrite Ee2. }
  eexists. split; [done|]. split; [done|]. exists y'. split; [apply lookup_insert_eq|]. intros Hpend. cbn [det st2 set_thread set_det] in Hc.
  assert (Hpath : forall l, walk st.(det).(g_) y.(lt_dd).(bv_) i l -> lock_path st cb.(lt) m i l) by (intros l Hw; exists x, y; done).
  assert (Hpath' : forall i' l, lock_path st cb.(lt) m i' l -> walk dd2.(g_) y.(lt_dd).(bv_) i l).
  { intros i' l (x' & y1 & Hx' & Hy1 & Eid' & _ & _ & _ & _ & Hw). assert (x' = x) as -> by congruence. assert (y1 = y) as -> by congruence.
    assert (i' = i) as -> by (unfold node_at in *; lia). by apply (walk_sub st.(det).(g_) dd2.(g_) y.(lt_dd).(bv_) y.(lt_dd).(bv_)). }
  destruct (report_pending y') eqn:Ep.
  - destruct Hc as [->|(l & Hw & Hn & H20 & Hmin & Hent)]; [congruence|]. destruct (walk_shortcut st.(det).(g_) dd2.(g_) _ i l Hedge' Hw) as (l' & Hw' & Hle & Heq).
    assert (l' = l) as ->. { apply Heq. specialize (Hmin l' (walk_sub _ _ _ _ _ _ Hsub (fun _ H => H) Hw')). lia. }
    split; [intros _; split; [intros _; eauto|done]|]. intros _. exists i, l. split; [auto|]. split; [intros l' Hl'; apply Hmin; by apply (Hpath' i)|]. split; [done|].
    intros k Hk. apply (entry_names_same st st2); [by rewrite Est2|by rewrite Est2|]. by apply Hent.
  - split; [|done]. intros _. split; [done|]. intros (i' & l & Hl & H20). specialize (Hc l (Hpath' _ _ Hl)). lia.
Qed.

Lemma MutexBeforeLock_spec st cb m wlock stack x y :
  sys_ok st -> st.(mutexes) !! m = Some x -> st.(threads) !! cb.(lt) = Some y -> st.(det).(current_epoch_) + 2 * K <= 2 ^ 64 -> zlen stack = 20 ->
  exists st', MutexBeforeLock st cb m wlock stack = Ok st' /\ before_spec st cb.(lt) m y st'.
Proof.
  intros Hst Hx Hy Hroom Hstk. pose proof Hst as (Hdd & Ht & _). destruct (Ht _ y Hy) as [Hts Hlo]. pose proof Hts as [[Hd Hl] He]. pose proof Hd as (Hbv & _).
  unfold MutexBeforeLock. rewrite (the_thread_ok st _ y Hy), bind_ok. destruct (DeadlockTLS.empty y.(lt_dd)) eqn:Ee.
  { exists st. split; [done|]. apply (before_quiet _ _ _ _ _ y); [done..|]. intros _. apply (no_lock_path st _ m x y Hx Hy). intros i h _ _ _ _ _ Hh.
    unfold DeadlockTLS.empty in Ee. by rewrite (proj1 (empty_spec _ Hbv) Ee) in Hh. }
  rewrite (the_mutex_ok st m x Hx), bind_ok. destruct (hasAllEdges_mutex st m x y Hst Hx Hd) as (b & -> & Hall). rewrite bind_ok. destruct b.
  { exists st. split; [done|]. apply (before_quiet _ _ _ _ _ y); [done..|]. intros Hac. apply (no_lock_path st _ m x y Hx Hy). intros i h Eid Hli _ Eep Hb Hh Hr.
    destruct (Hall eq_refl) as (_ & _ & i' & Eid' & _ & Hedge). assert (i' = i) as -> by (unfold node_at in *; lia).
    assert (i = h) as -> by (apply Hac; [done|apply rtc_once; auto]). congruence. }
  clear Hall. destruct (MutexEnsureID_spec st cb.(lt) m x y Hst Hx Hy Hroom) as (dd' & i & -> & Hst1 & Hli & HK & Hcase). rewrite bind_ok.
  set (st1 := ensured st dd' i cb.(lt) m x y) in *. set (x1 := MkMutex (node_at dd' i) x.(m_stk) x.(m_ctx)). set (y1 := with_dd y (ensureCurrentEpoch dd' y.(lt_dd))).
  assert (Hx1 : st1.(mutexes) !! m = Some x1) by apply lookup_insert_eq. assert (Hy1 : st1.(threads) !! cb.(lt) = Some y1) by apply lookup_insert_eq.
  rewrite (the_mutex_ok st1 m x1 Hx1), (the_thread_ok st1 _ y1 Hy1), !bind_ok. cbn [lt_dd y1 with_dd id x1]. change st1.(det) with dd'.
  pose proof Hst1 as (Hdd1 & Ht1 & _). destruct (Ht1 _ y1 Hy1) as [[Hok1 _] Hlo1]. change st1.(det) with dd' in *. cbn [lt_dd y1 with_dd] in *.
  destruct (ensure_spec dd' y.(lt_dd) Hd) as (Hd1 & Hep1 & Hbits & Hsame & _). set (d1 := ensureCurrentEpoch dd' y.(lt_dd)) in *.
  rewrite isHeld_spec, bind_ok by (done || by destruct Hli).
  assert (Hno : (forall h, bit d1.(bv_) i = false -> bit d1.(bv_) h = true -> ~ rtc (edge dd'.(g_)) i h) -> forall i' l, ~ lock_path st cb.(lt) m i' l).
  { intros Hnp. apply (no_lock_path st _ m x y Hx Hy). intros i' h Eid Hli' HK' Eep Hb Hh Hr. destruct Hcase as [[-> Eid2]|[Hnb _]].
    - assert (i' = i) as -> by (unfold node_at in *; lia). rewrite (Hsame Eep) in Hnp. by apply (Hnp h).
    - pose proof (belongs_spec st m x Hst Hx) as Hbel. rewrite Hnb in Hbel. by apply (Hbel i'). }
  destruct (bit d1.(bv_) i) eqn:Ebi.
  { exists st1. split; [done|]. apply (before_quiet _ _ _ _ _ y1); [done..|]. intros _. by apply Hno. }
  destruct (onLockBefore_spec dd' d1 i Hdd1 Hok1 HK Hli) as (r & g & -> & Hdd2 & Ev & Hr). rewrite bind_ok.
  assert (Eens : ensureCurrentEpoch dd' d1 = d1) by (destruct (ensure_spec dd' d1 Hd1) as (_ & _ & _ & E & _); by apply E). rewrite Eens. destruct r.
  - destruct (proj1 Hr eq_refl) as (h & [_ Hh] & Hrt). destruct Hcase as [[-> Eid2]|[_ (_ & _ & Hnoe & _)]].
    + assert (Eep : y.(lt_dd).(epoch_) = st.(det).(current_epoch_)) by (apply Hbits in Hh as [? _]; done).
      assert (Emx : st1.(mutexes) = st.(mutexes)) by (apply insert_id; rewrite Hx; f_equal; destruct x; cbn in *; congruence).
      assert (Est : set_thread (set_det st1 (set_g st.(det) g)) cb.(lt) (with_dd y1 d1) = set_thread (set_det st (set_g st.(det) g)) cb.(lt) (with_dd y d1)).
      { unfold set_thread, set_det. cbn [mutexes threads det second_deadlock_stack]. rewrite Emx. f_equal. cbn. by rewrite insert_insert_eq. }
      rewrite Est. cbn [y1 with_dd lt_ctx rep report_pending]. rewrite <- Eid2. pose proof (Hsame Eep) as Ed.
      apply (before_report st cb m x y i d1 g stack); try done. by rewrite <- Ed.
    + assert (h = i) as ->; [|congruence]. destruct Hrt as [|? b ? Hib _]; [done|]. by destruct (Hnoe b).
  - eexists. split; [done|]. apply (before_quiet _ _ _ _ _ (with_dd y1 d1)); [|apply lookup_insert_eq|done|].
    + apply sys_set_thread; [apply sys_set_det; [done..|]|]; [done|]. split; [|done]. split; [done|]. cbn. rewrite Hep1. pose proof Hdd1 as (_ & (? & _) & _). lia.
    + intros _. apply Hno. intros h _ Hh Hrt. cut (false = true); [done|]. apply Hr. exists h. done.
Qed.

(** *** After a lock is taken *)

(** The thread holds the mutex in the current epoch. *)
Definition thread_holds (st : DD B) (t m : Z) : Prop :=
  exists x y i, st.(mutexes) !! m = Some x /\ st.(threads) !! t = Some y /\ K <= st.(det).(current_epoch_) /\ live st.(det) i /\
    x.(id) = node_at st.(det) i /\ held st.(det) y.(lt_dd) i.

(** The thread has the mutex among its locks. *)
Definition holds (st : DD B) (t m : Z) : Prop :=
  exists x y, st.(mutexes) !! m = Some x /\ st.(threads) !! t = Some y /\
    y.(lt_dd).(epoch_) = nodeToEpoch (B := B) x.(id) /\ bit y.(lt_dd).(bv_) (nodeToIndexUnchecked (B := B) x.(id)) = true.

Definition after_spec (st : DD B) (t m : Z) (st' : DD B) : Prop :=
  sys_ok st' /\ holds st' t m /\
  (acyclic (edge st.(det).(g_)) -> (forall i l, ~ lock_path st t m i l) -> ~ thread_holds st t m -> acyclic (edge st'.(det).(g_))).

Lemma tls_no_locks (d : DeadlockDetectorTLS B) : tls_wf d -> DeadlockTLS.empty d = true -> (forall i, bit d.(bv_) i = false) /\ d.(n_all_locks_) = 0.
Proof.
  intros (Hb & _ & Ha & _ & Hn & _ & _ & Hm) Ee. pose proof (proj1 (empty_spec _ Hb) Ee) as Hno. split; [done|].
  destruct (ctxs d) as [|c l] eqn:E; [|assert (Hc : bit d.(bv_) c.(lock) = true) by (apply Hm; left); by rewrite Hno in Hc].
  apply (f_equal length) in E. unfold ctxs, ztake in E. rewrite length_take in E. unfold zlen in *. cbn in E. lia.
Qed.

(** A thread that takes a lock of its own epoch. *)
Lemma tls_sys_add dd (d d' : DeadlockDetectorTLS B) i :
  tls_sys dd d -> tls_wf d' -> d'.(epoch_) = d.(epoch_) -> (forall j, bit d'.(bv_) j = bit d.(bv_) j || (i =? j)) ->
  (d.(epoch_) = dd.(current_epoch_) -> live dd i) -> tls_sys dd d'.
Proof.
  intros [[Hd Hl] He] Hd' Ee Hb Hli. split; [split; [done|]|by rewrite Ee]. intros j [Ej Hj]. rewrite Hb, orb_true_iff, Z.eqb_eq in Hj.
  destruct Hj as [Hj| <-]; [apply Hl; split; [congruence|done]|apply Hli; congruence].
Qed.

(** The epoch of a node of a mutex, and its index. *)
Lemma mutex_parts st m x :
  sys_ok st -> st.(mutexes) !! m = Some x ->
  0 <= nodeToIndexUnchecked (B := B) x.(id) < K /\
  (nodeToEpoch (B := B) x.(id) = st.(det).(current_epoch_) -> x.(id) <> 0 -> live st.(det) (nodeToIndexUnchecked (B := B) x.(id)) /\ x.(id) = node_at st.(det) (nodeToIndexUnchecked (B := B) x.(id))).
Proof.
  intros (Hdd & _ & Hm & _) Hx. pose proof (bv_size_pos (B := B)) as HK. split; [apply Z.mod_pos_bound; done|]. intros Ee Hne.
  destruct (Hm m x Hx) as [?|(i & e & Hi & Hem & _ & E & Hc)]; [done|]. unfold nodeToEpoch, nodeToIndexUnchecked, DeadlockDetector.size in *.
  destruct (node_parts e i Hem Hi) as [Em Ed]. rewrite E, Em. rewrite E, Ed in Ee. destruct (Hc Ee). unfold node_at. split; [done|lia].
Qed.

Lemma after_add st cb m x y s :
  sys_ok st -> st.(mutexes) !! m = Some x -> st.(threads) !! cb.(lt) = Some y -> y.(lt_dd).(epoch_) = nodeToEpoch (B := B) x.(id) -> x.(id) <> 0 ->
  (if bit y.(lt_dd).(bv_) (nodeToIndexUnchecked (B := B) x.(id)) then y.(lt_dd).(n_recursive_locks) else y.(lt_dd).(n_all_locks_)) < 64 ->
  exists d', addLock y.(lt_dd) (nodeToIndexUnchecked (B := B) x.(id)) (nodeToEpoch (B := B) x.(id)) s = Ok (negb (bit y.(lt_dd).(bv_) (nodeToIndexUnchecked (B := B) x.(id))), d') /\
    after_spec st cb.(lt) m (set_thread st cb.(lt) (with_dd y d')).
Proof.
  intros Hst Hx Hy Ee Hne Hroom. destruct (mutex_parts st m x Hst Hx) as [Hi Hcur]. set (i := nodeToIndexUnchecked x.(id)) in *. pose proof Hst as (_ & Ht & _). destruct (Ht _ y Hy) as [Hts Hlo].
  pose proof Hts as [[Hd _] _]. pose proof (addLock_spec y.(lt_dd) i s Hd Hi) as Ha. rewrite (proj2 (Z.ltb_lt _ _) Hroom) in Ha. destruct Ha as (d' & Ea & Hd' & Ee' & Hb & _).
  rewrite <- Ee. exists d'. split; [done|]. split; [|split].
  - apply sys_set_thread; [done|]. split; [|done]. apply (tls_sys_add _ y.(lt_dd) d' i); try done. intros Ec. apply Hcur; [congruence|done].
  - exists x, (with_dd y d'). split; [done|]. split; [apply lookup_insert_eq|]. cbn. split; [congruence|]. fold i. by rewrite Hb, Z.eqb_refl, orb_true_r.
  - done.
Qed.

Lemma acyclic_sub (E E' : Z -> Z -> Prop) : (forall a b, E' a b -> E a b) -> acyclic E -> acyclic E'.
Proof. intros Hs Hac a b Hab Hba. assert (Hsub : forall c e, rtc E' c e -> rtc E c e) by (intros ? ?; apply rtc_subrel; exact Hs). auto. Qed.

(** A lock with a fresh node is not held. *)
Lemma fresh_not_held dd dd' d i : tls_sys dd d -> fresh_node dd dd' i -> ~ held dd' d i.
Proof.
  intros [[_ Hl] He] (_ & _ & _ & Hc) [Ee Hb]. pose proof (bv_size_pos (B := B)).
  destruct Hc as [(Eep & Hnl & _)|(Eep & _)]; [apply Hnl, Hl; split; [congruence|done]|lia].
Qed.

(** The edges a lock event adds, [dd'] being the detector that has a node for
    the mutex. *)
Lemma after_acyclic st t m x y dd' i (g2 : BVGraph B) :
  sys_ok st -> st.(mutexes) !! m = Some x -> st.(threads) !! t = Some y -> live dd' i -> K <= dd'.(current_epoch_) ->
  (dd' = st.(det) /\ x.(id) = node_at dd' i \/ nodeBelongsToCurrentEpoch st.(det) x.(id) = false /\ fresh_node st.(det) dd' i) ->
  ~ held dd' y.(lt_dd) i -> (forall a b, edge g2 a b -> with_lock (edge dd'.(g_)) (held dd' y.(lt_dd)) i a b) ->
  acyclic (edge st.(det).(g_)) -> (forall i l, ~ lock_path st t m i l) -> acyclic (edge g2).
Proof.
  intros Hst Hx Hy Hli HK Hcase Hnh Hed Hac Hno. eapply acyclic_sub; [exact Hed|]. apply with_lock_acyclic; [|done|].
  - destruct Hcase as [[-> _]|[_ (_ & _ & _ & [(_ & _ & _ & _ & Hs & _)|(_ & _ & _ & Hs)])]]; [done|by apply (acyclic_sub (edge st.(det).(g_)))|].
    apply (acyclic_sub (edge st.(det).(g_))); [|done]. intros a b Hab. by apply Hs in Hab.
  - intros (h & [Ee Hb] & Hr). destruct Hcase as [[-> Eid]|[_ (_ & _ & Hnoe & _)]].
    + destruct (proj2 (walk_reach st.(det).(g_) y.(lt_dd).(bv_) i)) as (l & Hw); [eauto|]. apply (Hno i l). exists x, y. split; [done|]. split; [done|]. split; [done|].
      split; [done|]. split; [done|]. split; [done|]. split; [|done]. destruct (bit y.(lt_dd).(bv_) i) eqn:Ei; [|done]. by destruct Hnh.
    + destruct Hr as [|? b ? Hib _]; [by destruct Hnh|]. by destruct (Hnoe b).
Qed.

Lemma after_slow_spec st cb m wlock trylock x y s :
  sys_ok st -> st.(mutexes) !! m = Some x -> st.(threads) !! cb.(lt) = Some y -> st.(det).(current_epoch_) + 2 * K <= 2 ^ 64 ->
  y.(lt_dd).(n_all_locks_) < 64 -> y.(lt_dd).(n_recursive_locks) < 64 -> (wlock = true -> ~ thread_holds st cb.(lt) m) ->
  exists st', after_slow st cb m wlock trylock s = Ok st' /\ after_spec st cb.(lt) m st'.
Proof.
  intros Hst Hx Hy Hroom Hna Hnr Hwl. pose proof Hst as (Hdd & Ht & _). destruct (Ht _ y Hy) as [Hts Hlo]. pose proof Hts as [[Hd Hl] He]. unfold after_slow.
  destruct (MutexEnsureID_spec st cb.(lt) m x y Hst Hx Hy Hroom) as (dd' & i & -> & Hst1 & Hli & HK & Hcase). rewrite bind_ok. pose proof Hli as (Hi & _).
  set (st1 := ensured st dd' i cb.(lt) m x y) in *. set (x1 := MkMutex (node_at dd' i) x.(m_stk) x.(m_ctx)). set (y1 := with_dd y (ensureCurrentEpoch dd' y.(lt_dd))).
  rewrite (the_mutex_ok st1 m x1), (the_thread_ok st1 _ y1), !bind_ok by apply lookup_insert_eq. cbn [lt_dd y1 with_dd id x1]. change st1.(det) with dd'.
  pose proof Hst1 as (Hdd1 & Ht1 & _). destruct (Ht1 cb.(lt) y1) as [Hts1 Hlo1]; [apply lookup_insert_eq|]. change st1.(det) with dd' in *. cbn [lt_dd y1 with_dd] in *. pose proof Hts1 as [Hok1 _].
  destruct (ensure_spec dd' y.(lt_dd) Hd) as (Hd1 & Hep1 & Hbits & Hsame & Hreset). set (d1 := ensureCurrentEpoch dd' y.(lt_dd)) in *.
  assert (Hnh : ~ thread_holds st cb.(lt) m -> ~ held dd' y.(lt_dd) i).
  { intros Hnt Hh. destruct Hcase as [[-> Eid]|[_ Hfr]]; [destruct Hnt; exists x, y, i; done|by apply (fresh_not_held st.(det) dd' y.(lt_dd) i)]. }
  assert ((if wlock then held ← isHeld dd' d1 (node_at dd' i); if held : bool then Err EDie else Ok tt else Ok tt) = Ok tt) as ->.
  { destruct wlock; [|done]. rewrite isHeld_spec, bind_ok by done. destruct (bit d1.(bv_) i) eqn:Eb; [|done]. apply Hbits in Eb. by destruct (Hnh (Hwl eq_refl)). }
  rewrite bind_ok. assert (Hn1 : (if bit d1.(bv_) i then d1.(n_recursive_locks) else d1.(n_all_locks_)) < 64).
  { destruct (Z.eq_dec y.(lt_dd).(epoch_) dd'.(current_epoch_)) as [E|E]; [rewrite (Hsame E); by case_match|]. destruct (Hreset E) as [-> ->]. case_match; lia. }
  assert (Hheld1 : forall j, held dd' d1 j <-> held dd' y.(lt_dd) j) by (intros j; rewrite <- Hbits; unfold held; tauto).
  assert (exists dd2, (if negb trylock then p ← addEdges dd' d1 (node_at dd' i) (if negb (s =? 0) then s else cb.(Unwind)) cb.(UniqueTid); Ok p.2 else Ok (dd', d1)) = Ok (dd2, d1) /\
    dd_wf dd2 /\ same_nodes dd' dd2 /\ forall a b, edge dd2.(g_) a b -> with_lock (edge dd'.(g_)) (held dd' y.(lt_dd)) i a b) as (dd2 & -> & Hdd2 & Hs2 & Hed2).
  { destruct trylock; cbn [negb]; [exists dd'; split; [done|]; split; [done|]; split; [by split|]; by left|].
    destruct (dd_addEdges_spec dd' d1 i (if negb (s =? 0) then s else cb.(Unwind)) cb.(UniqueTid) Hdd1 Hok1 HK Hli) as (dd2 & new & -> & Hdd2 & Ee2 & Ed2 & Hlv2 & Hedge & _). rewrite bind_ok.
    assert (Eens : ensureCurrentEpoch dd' d1 = d1) by (destruct (ensure_spec dd' d1 Hd1) as (_ & _ & _ & E & _); by apply E). rewrite Eens. exists dd2. split; [done|]. split; [done|]. split; [done|].
    intros a b [?|[Hh ->]]%Hedge; [by left|]. right. split; [by apply Hheld1|done]. }
  rewrite bind_ok. pose proof Hs2 as (Ee2 & _ & Hlv2). replace (node_at dd' i) with (node_at dd2 i) by (unfold node_at; by rewrite Ee2).
  destruct (onLockAfter_spec dd2 d1 i s Hdd2 Hd1) as (d2 & -> & Hd2 & Eep2 & Hbit2 & _); [congruence|by rewrite Ee2|done|done|]. rewrite bind_ok. eexists. split; [done|]. split; [|split].
  - apply sys_set_thread; [by apply sys_set_det|]. split; [|done]. cbn [lt_dd with_dd]. apply (tls_sys_add _ d1 d2 i); [by apply (tls_sys_same dd')|done..|]. intros _. by apply Hlv2.
  - exists x1, (with_dd y1 d2). split; [apply lookup_insert_eq|]. split; [apply lookup_insert_eq|]. cbn. pose proof Hdd1 as (_ & (_ & _ & Hem & _) & _). destruct (node_parts _ i Hem Hi) as [Em Ed].
    unfold nodeToEpoch, nodeToIndexUnchecked, node_at, DeadlockDetector.size. rewrite Em, Ed. split; [congruence|]. by rewrite Hbit2, Z.eqb_refl, orb_true_r.
  - intros Hac Hno Hnt. apply (after_acyclic st cb.(lt) m x y dd' i); auto.
Qed.

Lemma MutexAfterLock_spec st cb m wlock trylock x y :
  sys_ok st -> st.(mutexes) !! m = Some x -> st.(threads) !! cb.(lt) = Some y -> st.(det).(current_epoch_) + 2 * K <= 2 ^ 64 ->
  y.(lt_dd).(n_all_locks_) < 64 -> y.(lt_dd).(n_recursive_locks) < 64 -> (wlock = true -> ~ thread_holds st cb.(lt) m) ->
  exists st', MutexAfterLock st cb m wlock trylock = Ok st' /\ after_spec st cb.(lt) m st'.
Proof.
  intros Hst Hx Hy Hroom Hna Hnr Hwl. pose proof Hst as (Hdd & Ht & _). destruct (Ht _ y Hy) as [Hts Hlo]. pose proof Hts as [[Hd Hl] He].
  unfold MutexAfterLock. rewrite (the_thread_ok st _ y Hy), bind_ok, (the_mutex_ok st m x Hx), bind_ok. set (s := if second_deadlock_stack st then _ else _).
  assert (Hboth : (if bit y.(lt_dd).(bv_) (nodeToIndexUnchecked (B := B) x.(id)) then y.(lt_dd).(n_recursive_locks) else y.(lt_dd).(n_all_locks_)) < 64) by by case_match.
  pose proof (bv_size_pos (B := B)) as HKp.
  destruct (if negb (getEpoch y.(lt_dd) =? 0) && (getEpoch y.(lt_dd) =? nodeToEpoch (B := B) x.(id)) then DeadlockTLS.empty y.(lt_dd) else false) eqn:Efirst.
  { unfold onFirstLock. destruct (negb (getEpoch y.(lt_dd) =? 0) && _) eqn:Ec; [|done]. rewrite Efirst. cbn [negb]. apply andb_true_iff in Ec as [Ec1 Ec2].
    unfold getEpoch in *. apply negb_true_iff, Z.eqb_neq in Ec1. apply Z.eqb_eq in Ec2. assert (Hne : x.(id) <> 0) by (intros E0; rewrite E0 in Ec2; unfold nodeToEpoch in Ec2; rewrite Z.div_0_l in Ec2 by (unfold DeadlockDetector.size; lia); done).
    destruct (after_add st cb m x y s Hst Hx Hy Ec2 Hne Hboth) as (d' & -> & Haf). rewrite !bind_ok. eauto. }
  assert (onFirstLock (det st) (lt_dd y) (id x) s = Ok (false, lt_dd y)) as ->.
  { unfold onFirstLock. destruct (DeadlockTLS.empty y.(lt_dd)); cbn [negb]; [|done]. by destruct (negb (getEpoch y.(lt_dd) =? 0) && _). }
  clear Efirst. rewrite bind_ok. unfold onLockFast. destruct (hasAllEdges_mutex st m x y Hst Hx Hd) as (b & -> & Hall). rewrite bind_ok. destruct b.
  { destruct (Hall eq_refl) as (Eep & HKe & i & Eid & Hli & _). pose proof Hdd as (_ & (_ & _ & Hem & _) & _). destruct (node_parts _ i Hem ltac:(by destruct Hli)) as [_ Ed].
    assert (Ee : y.(lt_dd).(epoch_) = nodeToEpoch (B := B) x.(id)) by (unfold nodeToEpoch, DeadlockDetector.size; rewrite Eid; unfold node_at; congruence).
    assert (Hne : x.(id) <> 0) by (rewrite Eid; unfold node_at; destruct Hli; lia).
    destruct (after_add st cb m x y s Hst Hx Hy Ee Hne Hboth) as (d' & -> & Haf). rewrite !bind_ok. eauto. }
  rewrite bind_ok. by apply (after_slow_spec st cb m wlock trylock x y).
Qed.

(** *** The other events *)

Lemma MutexBeforeUnlock_spec st cb m wlock x y :
  sys_ok st -> st.(mutexes) !! m = Some x -> st.(threads) !! cb.(lt) = Some y ->
  exists d', MutexBeforeUnlock st cb m wlock = Ok (set_thread st cb.(lt) (with_dd y d')) /\ sys_ok (set_thread st cb.(lt) (with_dd y d')) /\
    if y.(lt_dd).(epoch_) =? nodeToEpoch (B := B) x.(id)
    then forall j, acquisitions d' j = (acquisitions y.(lt_dd) j - if (nodeToIndexUnchecked (B := B) x.(id) =? j)%Z then 1 else 0)%nat
    else d' = y.(lt_dd).
Proof.
  intros Hst Hx Hy. unfold MutexBeforeUnlock, onUnlock, getEpoch. rewrite (the_thread_ok st _ y Hy), bind_ok, (the_mutex_ok st m x Hx), bind_ok.
  pose proof Hst as (_ & Ht & _). destruct (Ht _ y Hy) as [[[Hd Hl] He] Hlo]. destruct (mutex_parts st m x Hst Hx) as [Hi _].
  destruct (_ =? _) eqn:Ee; [|exists y.(lt_dd); split; [done|]; split; [|done]; apply sys_set_thread; [done|]; split; [|done]; split; done].
  destruct (removeLock_spec y.(lt_dd) _ Hd Hi) as (d' & -> & Hd' & Ee' & Hacq & _). rewrite bind_ok. exists d'. split; [done|]. split; [|done].
  apply sys_set_thread; [done|]. split; [|done]. split; [split; [done|]|cbn; by rewrite Ee']. cbn. intros j [Ej Hj]. apply Hl. split; [congruence|].
  apply bit_acquisitions in Hj; [|done]. apply bit_acquisitions; [done|]. rewrite Hacq in Hj. lia.
Qed.

(** A mutex without a node of the current epoch loses its id. *)
Lemma sys_forget st m x s c :
  sys_ok st -> (forall x0, st.(mutexes) !! m = Some x0 -> forall i, live st.(det) i -> K <= st.(det).(current_epoch_) -> x0.(id) <> node_at st.(det) i) ->
  x = MkMutex 0 s c -> sys_ok (set_mutex st m x).
Proof.
  intros (Hdd & Ht & Hm & Ho) Hno ->. split; [done|]. split; [done|]. split; [apply map_Forall_insert_2; [by left|done]|].
  intros HK i Hi. destruct (Ho HK i Hi) as (m' & x' & Hd & Hx' & Eid). exists m', x'. split; [done|]. split; [|done]. cbn. rewrite lookup_insert_ne; [done|].
  intros <-. by apply (Hno x' Hx' i).
Qed.

Lemma MutexDestroy_spec st cb m x :
  sys_ok st -> st.(mutexes) !! m = Some x -> (forall t, ~ thread_holds st t m) ->
  exists st', MutexDestroy st cb m = Ok st' /\ sys_ok st' /\ st'.(mutexes) !! m = Some (MkMutex 0 x.(m_stk) x.(m_ctx)).
Proof.
  intros Hst Hx Hnh. unfold MutexDestroy. rewrite (the_mutex_ok st m x Hx), bind_ok. destruct (Z.eqb_spec x.(id) 0) as [E0|Hne].
  { exists st. split; [done|]. split; [done|]. rewrite Hx. f_equal. destruct x; cbn in *. congruence. }
  pose proof (belongs_spec st m x Hst Hx) as Hbel. destruct (nodeBelongsToCurrentEpoch st.(det) x.(id)) eqn:Eb; rewrite ?bind_ok.
  2:{ eexists. split; [done|]. split; [|apply lookup_insert_eq]. eapply sys_forget; [done| |done]. intros x0 Hx0. assert (x0 = x) as -> by congruence. done. }
  destruct Hbel as (HKe & i & Eid & Hli & Hdat). pose proof Hst as (Hdd & Ht & Hm & Ho). rewrite Eid.
  destruct (removeNode_spec st.(det) i Hdd HKe Hli) as (dd' & E & Hdd' & Eep & Hlv & _).
  assert (Edat : dd'.(data_) = st.(det).(data_)).
  { unfold removeNode in E. inv_ok. destruct r0; [done|]. inv_ok. destruct r0 as [new r0]. destruct (negb new); [done|]. inv_ok. by subst dd'. }
  rewrite E, !bind_ok. eexists. split; [done|]. split; [|apply lookup_insert_eq]. split; [done|]. cbn [det threads mutexes set_mutex set_det]. split; [|split].
  - intros t y Hy. destruct (Ht t y Hy) as [[[Hd Hl] He] Hlo]. split; [|done]. split; [split; [done|]|by rewrite Eep]. intros j [Ej Hj]. rewrite Eep in Ej.
    apply Hlv. split; [by apply Hl|]. intros ->. apply (Hnh t). exists x, y, i. done.
  - intros m' x' Hx'. apply lookup_insert_Some in Hx' as [[<- <-]|[Hmm Hx']].
    + by left.
    + destruct (Hm m' x' Hx') as [?|(j & e & Hj & ? & ? & ? & Hc)]; [by left|]. right. exists j, e. rewrite Eep. split; [done|]. split; [done|]. split; [done|]. split; [done|].
      intros Ee. destruct (Hc Ee) as [Hlj Hdj]. rewrite Edat. split; [|done]. apply Hlv. split; [done|]. intros ->. congruence.
  - intros _ j Hj. apply Hlv in Hj as [Hj Hne']. destruct (Ho HKe j Hj) as (m' & x' & Hm1 & Hx1 & Hid). exists m', x'. rewrite Edat. split; [done|]. unfold node_at in *. rewrite Eep. split; [|done].
    rewrite lookup_insert_ne; [done|]. intros <-. assert (x' = x) as -> by congruence. lia.
Qed.

(** ** Programs *)

(** The events of a program.  A mutex and a thread begin with the contents of
    the memory they are made in, [EvBefore] has that of the array of its frame. *)
Inductive event : Type :=
| EvThread (t ctx : Z) (mem : DDLogicalThread B)
| EvThreadEnd (t : Z)
| EvInit (cb : DDCallback) (m : Z) (mem : DDMutex)
| EvBefore (cb : DDCallback) (m : Z) (wlock : bool) (stack : list Z)
| EvAfter (cb : DDCallback) (m : Z) (wlock trylock : bool)
| EvUnlock (cb : DDCallback) (m : Z) (wlock : bool)
| EvDestroy (cb : DDCallback) (m : Z)
| EvReport (cb : DDCallback).

Definition run_event (st : DD B) (e : event) : res (DD B) :=
  match e with
  | EvThread t ctx mem => Ok (CreateLogicalThread st t ctx mem)
  | EvThreadEnd t => Ok (DestroyLogicalThread st t)
  | EvInit cb m mem => MutexInit (set_mutex st m mem) cb m
  | EvBefore cb m wlock stack => MutexBeforeLock st cb m wlock stack
  | EvAfter cb m wlock trylock => MutexAfterLock st cb m wlock trylock
  | EvUnlock cb m wlock => MutexBeforeUnlock st cb m wlock
  | EvDestroy cb m => MutexDestroy st cb m
  | EvReport cb => p ← GetReport st cb; Ok p.2
  end.

Definition run_events (st : DD B) (es : list event) : res (DD B) := foldM (fun e st => run_event st e) es st.

(** The thread holds the mutex, as a test. *)
Definition holdsb (st : DD B) (t m : Z) : bool :=
  match st.(mutexes) !! m, st.(threads) !! t with
  | Some x, Some y =>
      nodeBelongsToCurrentEpoch st.(det) x.(id) && (y.(lt_dd).(epoch_) =? st.(det).(current_epoch_)) && bit y.(lt_dd).(bv_) (nodeToIndexUnchecked (B := B) x.(id))
  | _, _ => false
  end.

(** There is room for another epoch. *)
Definition epochs_left (st : DD B) : bool := st.(det).(current_epoch_) + 2 * K <=? 2 ^ 64.

(** What the detector relies on: events are of threads and mutexes that exist;
    a mutex that has a node is not initialised again, and one that is held is
    not destroyed; a thread holds a write lock once; it holds less than 64
    locks. *)
Definition allowed (st : DD B) (e : event) : bool :=
  let exist cb m := bool_decide (is_Some (st.(threads) !! cb.(lt))) && bool_decide (is_Some (st.(mutexes) !! m)) in
  match e with
  | EvThread _ _ mem => (zlen mem.(rep).(loop) =? 20) && (zlen mem.(lt_dd).(recursive_locks) =? 64) && (zlen mem.(lt_dd).(all_locks_with_contexts_) =? 64)
  | EvThreadEnd t => true
  | EvInit cb m _ => match st.(mutexes) !! m with Some x => negb (nodeBelongsToCurrentEpoch st.(det) x.(id)) | None => true end
  | EvBefore cb m _ stack => exist cb m && epochs_left st && (zlen stack =? 20)
  | EvAfter cb m wlock _ => exist cb m && epochs_left st && negb (wlock && holdsb st cb.(lt) m) &&
      match st.(threads) !! cb.(lt) with Some y => (y.(lt_dd).(n_all_locks_) <? 64) && (y.(lt_dd).(n_recursive_locks) <? 64) | None => false end
  | EvUnlock cb m _ => exist cb m
  | EvDestroy cb m => bool_decide (is_Some (st.(mutexes) !! m)) && bool_decide (map_Forall (fun t _ => holdsb st t m = false) st.(threads))
  | EvReport cb => bool_decide (is_Some (st.(threads) !! cb.(lt)))
  end.

(** The memory of a new thread holds a bit vector. *)
Definition thread_mem (e : event) : Prop := match e with EvThread _ _ mem => bv_shape mem.(lt_dd).(bv_) | _ => True end.

(** Each event is allowed in the state the ones before it lead to. *)
Fixpoint allowed_all (st : DD B) (es : list event) : bool :=
  match es with
  | [] => true
  | e :: es => allowed st e && match run_event st e with Ok st' => allowed_all st' es | Err _ => true end
  end.

Lemma holdsb_spec st t m : sys_ok st -> thread_holds st t m <-> holdsb st t m = true.
Proof.
  intros Hst. unfold holdsb. split.
  - intros (x & y & i & Hx & Hy & HK & (Hi & _) & Eid & Ee & Hb). rewrite Hx, Hy. pose proof (bv_size_pos (B := B)). pose proof Hst as ((_ & (_ & _ & Hem & _) & _) & _).
    destruct (node_parts _ i Hem Hi) as [Em Ed]. unfold nodeBelongsToCurrentEpoch, nodeToIndexUnchecked, DeadlockDetector.size. rewrite Eid. unfold node_at. rewrite Em, Ed, Ee, Z.eqb_refl, Hb.
    rewrite (proj2 (Z.eqb_neq _ 0)) by lia. done.
  - destruct (st.(mutexes) !! m) as [x|] eqn:Hx; [|done]. destruct (st.(threads) !! t) as [y|] eqn:Hy; [|done]. intros E. apply andb_true_iff in E as [E Hb]. apply andb_true_iff in E as [Enb Ee].
    apply Z.eqb_eq in Ee. pose proof (belongs_spec st m x Hst Hx) as Hbel. rewrite Enb in Hbel. destruct Hbel as (HK & i & Eid & Hli & _). exists x, y, i. split; [done|]. split; [done|]. split; [done|].
    split; [done|]. split; [done|]. split; [done|]. pose proof Hst as ((_ & (_ & _ & Hem & _) & _) & _). pose proof Hli as (Hi & _). destruct (node_parts _ i Hem Hi) as [Em _].
    unfold nodeToIndexUnchecked, DeadlockDetector.size in Hb. rewrite Eid in Hb. unfold node_at in Hb. by rewrite Em in Hb.
Qed.

Lemma thread_new_ok dd ctx (mem : DDLogicalThread B) :
  dd_wf dd -> bv_shape mem.(lt_dd).(bv_) -> zlen mem.(rep).(loop) = 20 -> zlen mem.(lt_dd).(recursive_locks) = 64 -> zlen mem.(lt_dd).(all_locks_with_contexts_) = 64 ->
  thread_ok dd (MkThread ctx (DeadlockTLS.clear mem.(lt_dd)) mem.(rep) false).
Proof.
  intros (_ & (He & _) & _) Hs Hl Hr Ha. split; [|done]. destruct (clear_spec _ Hs) as [_ Hz].
  split; [split; [by apply tls_reset|]|cbn; lia]. intros i [_ Hb]. cbn [lt_dd DeadlockTLS.clear bv_] in Hb. by rewrite Hz in Hb.
Qed.

#[local] Ltac existing y Hy x Hx :=
  repeat match goal with H : bool_decide _ = true |- _ => apply bool_decide_eq_true in H end;
  try match goal with H : is_Some (threads _ !! _) |- _ => destruct H as [y Hy] end;
  try match goal with H : is_Some (mutexes _ !! _) |- _ => destruct H as [x Hx] end.

Lemma event_safe st e : sys_ok st -> thread_mem e -> allowed st e = true -> exists st', run_event st e = Ok st' /\ sys_ok st'.
Proof.
  intros Hst Hmem Hal. pose proof Hst as (Hdd & Ht & Hm & Ho). destruct e as [t ctx mem|t|cb m mem|cb m wl stack|cb m wl tl|cb m wl|cb m|cb]; cbn [run_event allowed] in *.
  - to_Prop. eexists. split; [done|]. apply sys_set_thread; [done|]. by apply thread_new_ok.
  - eexists. split; [done|]. split; [done|]. split; [|done]. by apply map_Forall_delete.
  - unfold MutexInit. rewrite (the_mutex_ok _ m mem), bind_ok by apply lookup_insert_eq. eexists. split; [done|].
    replace (set_mutex (set_mutex st m mem) m _) with (set_mutex st m (MkMutex 0 cb.(Unwind) mem.(m_ctx))) by (unfold set_mutex; cbn; by rewrite insert_insert_eq).
    eapply sys_forget; [done| |done]. intros x Hx. pose proof (belongs_spec st m x Hst Hx) as Hbel. rewrite Hx in Hal. apply negb_true_iff in Hal. by rewrite Hal in Hbel.
  - unfold epochs_left in Hal. to_Prop. existing y Hy x Hx.
    destruct (MutexBeforeLock_spec st cb m wl stack x y) as (st' & E & Hst' & _); [done..|]. eauto.
  - unfold epochs_left in Hal. apply andb_true_iff in Hal as [Hal Hn]. apply andb_true_iff in Hal as [Hal Hw]. to_Prop. existing y Hy x Hx. rewrite Hy in Hn. to_Prop.
    destruct (MutexAfterLock_spec st cb m wl tl x y) as (st' & E & Hst' & _); [done..| |eauto].
    intros ->. rewrite holdsb_spec by done. apply negb_true_iff in Hw. cbn in Hw. congruence.
  - to_Prop. existing y Hy x Hx. destruct (MutexBeforeUnlock_spec st cb m wl x y) as (d' & E & Hst' & _); [done..|]. eauto.
  - apply andb_true_iff in Hal as [Hex Hall%bool_decide_eq_true]. existing y Hy x Hx. destruct (MutexDestroy_spec st cb m x) as (st' & E & Hst' & _); [done..| |eauto].
    intros t Hh. apply holdsb_spec in Hh as Hb; [|done]. destruct Hh as (? & y & ? & _ & Hy & _). rewrite (Hall t y Hy) in Hb. done.
  - apply bool_decide_eq_true in Hal as [y Hy]. unfold GetReport. rewrite (the_thread_ok st _ y Hy), bind_ok. destruct (report_pending y); cbn [negb]; rewrite bind_ok; eexists; (split; [done|]); [|done].
    apply sys_set_thread; [done|]. destruct (Ht _ y Hy) as [? ?]. done.
Qed.

Lemma run_safe es : forall st, sys_ok st -> Forall thread_mem es -> allowed_all st es = true -> exists st', run_events st es = Ok st' /\ sys_ok st'.
Proof.
  induction es as [|e es IH]; intros st Hst Hmem Hal; cbn [allowed_all] in *; [by exists st|]. apply andb_true_iff in Hal as [Ha Hal]. apply Forall_cons in Hmem as [He Hmem].
  destruct (event_safe st e Hst He Ha) as (st1 & E & Hst1). unfold run_events. cbn [foldM]. rewrite E in *. rewrite bind_ok. by apply IH.
Qed.

Lemma DD_init_ok (mem : DeadlockDetector B) s : dd_shape mem -> sys_ok (DD_init mem s).
Proof.
  intros (Ha & Hr & Ht & Hg & Hd & He). pose proof (bv_size_pos (B := B)) as HK. pose proof (small_ok (B := B)) as HS. assert (HS' : 2 ^ 16 < 2 ^ 64) by done.
  destruct (clear_spec _ Ha) as [Hca Hza], (clear_spec _ Hr) as [Hcr Hzr]. destruct (graph_clear_spec _ Hg) as [Hcg Hze].
  split; [|split; [done|]; split; [done|]].
  - split; [split; [done|]; split; [done|]; split; [done|]; split; [done|]; split; [done|]; split; [done|cbn; lia]|]. split; [|split; [|split]].
    + split; [done|]. split; [cbn; lia|]. split; [cbn; apply Z.mod_0_l; lia|]. intros i. cbn. rewrite Hza, Hzr. intros [?|?]; done.
    + intros i. cbn. by rewrite Hza.
    + intros a b Hab. by apply Hze in Hab.
    + unfold recorded, ztake. cbn. intros e Hin. by apply elem_of_nil in Hin.
  - intros HKe. cbn in HKe. lia.
Qed.

(** C14: the deadlock detector never fails.  From its initial state, in memory
    of any contents, every sequence of thread and mutex events in which threads
    and mutexes exist, no held mutex is destroyed, a write lock is not taken
    twice by a thread, and a thread holds less than 64 locks runs to its end:
    no CHECK fails and no array is left, over recycling of nodes and flushes of
    the graph; the invariant of the detector holds in the end. *)
Theorem detector_never_fails mem s es :
  dd_shape mem -> Forall thread_mem es -> allowed_all (DD_init mem s) es = true ->
  exists st', run_events (DD_init mem s) es = Ok st' /\ sys_ok st'.
Proof. intros Hmem. apply run_safe. by apply DD_init_ok. Qed.

(** C12: a thread that is about to lock is reported exactly when the lock closes
    a cycle.  Take a detector with room for an epoch, as its invariant
    describes it, and a thread and a mutex it knows.  If the lock order graph
    has no cycle yet and the thread has no report pending, then [MutexBeforeLock] leaves a report exactly when the graph has
    a path of at most 20 locks from the lock to one that the thread holds, its
    fast path included.  The report is then one of a shortest such path, and
    its entries name the mutexes along it. *)
Theorem deadlock_reported st cb m wlock stack x y :
  sys_ok st -> st.(mutexes) !! m = Some x -> st.(threads) !! cb.(lt) = Some y -> y.(report_pending) = false ->
  st.(det).(current_epoch_) + 2 * K <= 2 ^ 64 -> zlen stack = 20 -> acyclic (edge st.(det).(g_)) ->
  exists st' y', MutexBeforeLock st cb m wlock stack = Ok st' /\ st'.(threads) !! cb.(lt) = Some y' /\
    (y'.(report_pending) = true <-> exists i l, lock_path st cb.(lt) m i l /\ zlen l <= 20) /\
    (y'.(report_pending) = true -> exists i l, lock_path st cb.(lt) m i l /\ (forall l', lock_path st cb.(lt) m i l' -> zlen l <= zlen l') /\
      y'.(rep).(n) = zlen l /\ forall k, 0 <= k < zlen l -> entry_names st l y'.(rep).(loop) k).
Proof.
  intros Hst Hx Hy Hp Hroom Hstk Hac. destruct (MutexBeforeLock_spec st cb m wlock stack x y Hst Hx Hy Hroom Hstk) as (st' & E & _ & y' & Hy' & Hc).
  destruct (Hc Hp) as [Hiff Hrep]. exists st', y'. auto.
Qed.

(** C19: locks that are not reported leave no cycle.  Take a detector with room
    for an epoch, as its invariant describes it, a mutex it knows, and a thread
    that has fewer than 64 locks, fewer than 64 recursive ones, and does not
    hold the mutex.  If the lock order graph has no cycle and there is no path
    from the mutex to a lock the thread holds, then [MutexAfterLock] the graph has
    no cycle and the thread has the mutex among its locks; the lock may get a
    new node, a recycled one or one of a new epoch. *)
Theorem unreported_lock_keeps_order st cb m wlock trylock x y :
  sys_ok st -> st.(mutexes) !! m = Some x -> st.(threads) !! cb.(lt) = Some y -> st.(det).(current_epoch_) + 2 * K <= 2 ^ 64 ->
  y.(lt_dd).(n_all_locks_) < 64 -> y.(lt_dd).(n_recursive_locks) < 64 -> ~ thread_holds st cb.(lt) m ->
  acyclic (edge st.(det).(g_)) -> (forall i l, ~ lock_path st cb.(lt) m i l) ->
  exists st', MutexAfterLock st cb m wlock trylock = Ok st' /\ sys_ok st' /\ holds st' cb.(lt) m /\ acyclic (edge st'.(det).(g_)).
Proof.
  intros Hst Hx Hy Hroom Hna Hnr Hnh Hac Hno. destruct (MutexAfterLock_spec st cb m wlock trylock x y Hst Hx Hy Hroom Hna Hnr (fun _ => Hnh)) as (st' & E & Hst' & Hh & Hc).
  exists st'. auto.
Qed.
End Laws.

(** ** Two threads that take two mutexes in opposite orders *)

#[export] Instance small_basic : SmallBV (BasicBitVector 8).
Proof. unfold SmallBV. cbn. lia. Qed.
#[export] Instance small_DDBV : SmallBV (TwoLevelBitVector 1 64).
Proof. unfold SmallBV. vm_compute. discriminate. Qed.

Module Demo.
Definition bv : BasicBitVector 8 := Basic 0.
Definition mem : DeadlockDetector (BasicBitVector 8) :=
  MkDetector 0 bv bv bv (MkGraph (replicate 8 bv) bv bv) (replicate 8 0) (replicate 256 (MkEdge 0 0 0 0 0)) 0.
Definition thread : DDLogicalThread (BasicBitVector 8) :=
  MkThread 0 (MkTLS bv 0 (replicate 64 0) 0 (replicate 64 (MkLWC 0 0)) 0) (MkReport 0 (replicate 20 (MkEntry 0 0 0 0 0))) false.
Definition cb (t : Z) : DDCallback := MkCallback t (10 + t) t.
Definition locks (t m : Z) : list (event (B := BasicBitVector 8)) := [EvBefore (cb t) m true (replicate 20 0); EvAfter (cb t) m true false].
Definition unlocks (t m : Z) : list (event (B := BasicBitVector 8)) := [EvUnlock (cb t) m true].
Definition start : list event :=
  [EvThread 1 0 thread; EvThread 2 0 thread; EvInit (cb 1) 100 (MkMutex 7 0 1000); EvInit (cb 1) 200 (MkMutex 7 0 2000)] ++
  locks 1 100 ++ locks 1 200 ++ unlocks 1 200 ++ unlocks 1 100 ++ locks 2 200.

(** Thread 1 had 100 and then 200; thread 2 has 200. *)
Definition state : DD (BasicBitVector 8) :=
  match run_events (DD_init mem true) start with Ok st => st | Err _ => DD_init mem true end.
Definition thread2 : DDLogicalThread (BasicBitVector 8) := default thread (state.(threads) !! 2).
Definition mutex1 : DDMutex := default (MkMutex 0 0 0) (state.(mutexes) !! 100).
Definition mutex2 : DDMutex := default (MkMutex 0 0 0) (state.(mutexes) !! 200).

Lemma mem_shape : dd_shape mem.
Proof. split; [done|]. split; [done|]. split; [done|]. split; [|done]. split; [done|]. split; [|done]. by apply Forall_replicate. Qed.

Lemma start_threads : Forall thread_mem start.
Proof. repeat apply Forall_cons_2; try exact I; try (split; [discriminate|reflexivity]). apply Forall_nil_2. Qed.

Lemma state_ok : sys_ok state.
Proof.
  destruct (run_safe start (DD_init mem true) (DD_init_ok _ _ mem_shape) start_threads) as (st' & E & Hst'); [vm_compute; reflexivity|].
  unfold state. by rewrite E.
Qed.

(** Its graph has edges to higher indices only. *)
Lemma state_acyclic : acyclic (edge state.(det).(g_)).
Proof.
  assert (Hlt : forall a b, edge state.(det).(g_) a b -> a < b).
  { intros a b Hab. pose proof state_ok as (((_ & _ & _ & (Hv & _) & _) & _) & _). destruct (edge_range _ _ _ Hv Hab) as [Ha Hb]. unfold edge in Hab.
    assert (Hall : forallb (fun a => forallb (fun b => negb (edge_in state.(det).(g_).(v) a b) || (a <? b)) (seqZ 0 8)) (seqZ 0 8) = true) by (vm_compute; reflexivity).
    rewrite forallb_forall in Hall. assert (Hin : forall c, 0 <= c < 8 -> In c (seqZ 0 8)) by (intros c Hc; apply list_elem_of_In, elem_of_seqZ; lia).
    specialize (Hall a (Hin a Ha)). rewrite forallb_forall in Hall. specialize (Hall b (Hin b Hb)). rewrite Hab in Hall. cbn in Hall. by apply Z.ltb_lt. }
  assert (Hle : forall a b, rtc (edge state.(det).(g_)) a b -> a <= b) by (induction 1 as [|a b c Hab _ IH]; [lia|]; specialize (Hlt a b Hab); lia).
  intros a b Hab Hba. pose proof (Hle a b Hab). pose proof (Hle b a Hba). lia.
Qed.

Lemma detector_never_fails_witness : exists st', run_events (DD_init mem true) start = Ok st' /\ sys_ok st'.
Proof. apply detector_never_fails; [exact mem_shape|exact start_threads|vm_compute; reflexivity]. Defined.

(** The order of thread 2 is reported. *)
Lemma deadlock_reported_witness :
  exists st' y', MutexBeforeLock state (cb 2) 100 true (replicate 20 0) = Ok st' /\ st'.(threads) !! 2 = Some y' /\
    (y'.(report_pending) = true <-> exists i l, lock_path state 2 100 i l /\ zlen l <= 20) /\
    (y'.(report_pending) = true -> exists i l, lock_path state 2 100 i l /\ (forall l', lock_path state 2 100 i l' -> zlen l <= zlen l') /\
      y'.(rep).(n) = zlen l /\ forall k, 0 <= k < zlen l -> entry_names state l y'.(rep).(loop) k).
Proof.
  apply (deadlock_reported state (cb 2) 100 true (replicate 20 0) mutex1 thread2).
  - exact state_ok.
  - vm_compute. reflexivity.
  - vm_compute. reflexivity.
  - vm_compute. reflexivity.
  - vm_compute. discriminate.
  - vm_compute. reflexivity.
  - exact state_acyclic.
Defined.

Definition state0 : DD (BasicBitVector 8) :=
  match run_events (DD_init mem true) (take 7 start) with Ok st => st | Err _ => DD_init mem true end.

Lemma state0_ok : sys_ok state0.
Proof.
  destruct (run_safe (take 7 start) (DD_init mem true) (DD_init_ok _ _ mem_shape)) as (st' & E & Hst'); [apply Forall_take, start_threads|vm_compute; reflexivity|].
  unfold state0. by rewrite E.
Qed.

Lemma state0_no_edges a b : ~ edge state0.(det).(g_) a b.
Proof. apply graph_empty_spec; [by destruct state0_ok as ((( _ & _ & _ & ? & _) & _) & _)|vm_compute; reflexivity]. Qed.

(** Thread 1 has 100 and takes 200. *)
Lemma unreported_lock_keeps_order_witness :
  exists st', MutexAfterLock state0 (cb 1) 200 true false = Ok st' /\ sys_ok st' /\ holds st' 1 200 /\ acyclic (edge st'.(det).(g_)).
Proof.
  apply (unreported_lock_keeps_order state0 (cb 1) 200 true false (default mutex2 (state0.(mutexes) !! 200)) (default thread (state0.(threads) !! 1))).
  - exact state0_ok.
  - vm_compute. reflexivity.
  - vm_compute. reflexivity.
  - vm_compute. discriminate.
  - vm_compute. reflexivity.
  - vm_compute. reflexivity.
  - rewrite (holdsb_spec _ _ _ state0_ok). vm_compute. discriminate.
  - intros a b Hab _. destruct Hab as [|a c b Hac _]; [reflexivity|]. destruct (state0_no_edges a c Hac).
  - intros i l (x & y & _ & Hy & _ & _ & _ & _ & Hb & Hw). assert (Hr : exists l, walk state0.(det).(g_) y.(lt_dd).(bv_) i l) by eauto.
    apply walk_reach in Hr as (h & Hh & Hr). destruct Hr as [|a c b Hac _]; [congruence|]. destruct (state0_no_edges a c Hac).
Defined.
End Demo.
