(* ===== verification/DenseAlloc.v ===== *)
(** * The slab allocator

    [DenseSlabAlloc] of [src/ufo-rt/lib/tsan/rtl/tsan_dense_alloc.h]: blocks of
    one type, named by 32-bit indices, in batches that are mapped on demand.  A
    free block holds the index of the next free block in its first word; every
    thread keeps some free indices in a cache.

    A block is the list of its 32-bit words.  [map_] is a finite map, the
    entries it does not have are null pointers, and [Map(idx)] stands for the
    access through the address: [load] and [store].  [MmapOrDie] gives zeroed
    blocks; a process that has no memory for them ends there.

    [SlabOps] and [SlabLaws] are what the allocator promises to the clocks.
    Shown: the allocator keeps its promise.  No index is handed out twice or
    lost, blocks in use keep their contents, and an allocation succeeds as long
    as the blocks in use and the room of the caches stay below the number of
    indices. *)
From stdpp Require Import base numbers list gmap fin_maps.
From Stdlib Require Import ZArith Lia.
From S2P Require Import Prelude.

Local Open Scope Z_scope.

Abbreviation block := (list Z).

(** ** What the allocator promises

    [A] is the allocator, [C] the cache of a thread. *)

Class SlabOps (A C : Type) := {
  sl_alloc : A -> C -> res (Z * (A * C));
  sl_free : A -> C -> Z -> res (A * C);
  sl_load : A -> Z -> res block;
  sl_store : A -> Z -> block -> res A;
}.

(** [sl_inv a cs live]: with the caches [cs], the blocks [live] are in use. *)
Class SlabLaws (A C : Type) `{SlabOps A C} := {
  sl_words : Z;
  sl_limit : Z;
  sl_inv : A -> gmap Z C -> gmap Z block -> Prop;
  sl_alloc_ok a cs live k c :
    sl_inv a cs live -> cs !! k = Some c -> Z.of_nat (size live) + 128 * Z.of_nat (size cs) < sl_limit ->
    exists i b a' c', sl_alloc a c = Ok (i, (a', c')) /\ i <> 0 /\ live !! i = None /\ sl_inv a' (<[k := c']> cs) (<[i := b]> live);
  sl_free_ok a cs live k c i b :
    sl_inv a cs live -> cs !! k = Some c -> live !! i = Some b ->
    exists a' c', sl_free a c i = Ok (a', c') /\ sl_inv a' (<[k := c']> cs) (delete i live);
  sl_load_ok a cs live i b : sl_inv a cs live -> live !! i = Some b -> sl_load a i = Ok b;
  sl_store_ok a cs live i b b' :
    sl_inv a cs live -> live !! i = Some b -> zlen b' = sl_words ->
    exists a', sl_store a i b' = Ok a' /\ sl_inv a' cs (<[i := b']> live);
  sl_shape a cs live i b : sl_inv a cs live -> live !! i = Some b -> zlen b = sl_words;
  sl_index a cs live i b : sl_inv a cs live -> live !! i = Some b -> 0 < i < 2 ^ 32;
}.

(** ** The source *)

Record DenseSlabAllocCache : Type := MkCache {
  pos : Z;
  cache : list Z;
}.

Definition kCacheSize : Z := 128.

Section DenseSlabAlloc.
Context (kL1Size kL2Size kWords : Z).

Record DenseSlabAlloc : Type := MkAlloc {
  map_ : gmap Z (list block);
  freelist_ : Z;
  fillpos_ : Z;
}.
Implicit Types (a : DenseSlabAlloc) (c : DenseSlabAllocCache).

Definition CHECK (b : bool) : res unit := if b then Ok tt else Err EDie.

(** The constructor. *)
Definition DenseSlabAlloc_init : res DenseSlabAlloc :=
  _ ← CHECK (Z.land kL1Size (kL1Size - 1) =? 0);
  _ ← CHECK (Z.land kL2Size (kL2Size - 1) =? 0);
  _ ← CHECK (kL1Size * kL2Size <=? Z.shiftl 1 (4 * 8));
  _ ← CHECK (4 <=? kWords * 4);
  Ok (MkAlloc ∅ 0 0).

Definition load a (idx : Z) : res block :=
  if kL1Size <=? idx / kL2Size then Err EOutOfBounds else
  batch ← res_of_option ENull (a.(map_) !! (idx / kL2Size));
  aget batch (idx mod kL2Size).

Definition store a (idx : Z) (b : block) : res DenseSlabAlloc :=
  if kL1Size <=? idx / kL2Size then Err EOutOfBounds else
  batch ← res_of_option ENull (a.(map_) !! (idx / kL2Size));
  batch ← aset batch (idx mod kL2Size) b;
  Ok (MkAlloc (<[idx / kL2Size := batch]> a.(map_)) a.(freelist_) a.(fillpos_)).

Definition set_freelist a (i : Z) : DenseSlabAlloc := MkAlloc a.(map_) i a.(fillpos_).

(** [for (i = start; i < kL2Size; i++)]: the links of a new batch. *)
Definition link_batch (fillpos start : Z) (batch : list block) : res (list block) :=
  batch ← foldM (fun i batch =>
    b ← aget batch i;
    b ← aset b 0 (u32 (i + 1 + fillpos * kL2Size));
    aset batch i b) (seqZ start (kL2Size - start)) batch;
  b ← aget batch (kL2Size - 1);
  b ← aset b 0 0;
  aset batch (kL2Size - 1) b.

Definition grow a : res DenseSlabAlloc :=
  if a.(fillpos_) =? kL1Size then Err EDie else
  let batch := replicate (Z.to_nat kL2Size) (replicate (Z.to_nat kWords) 0) in
  let start := if a.(fillpos_) =? 0 then 1 else 0 in
  batch ← link_batch a.(fillpos_) start batch;
  Ok (MkAlloc (<[a.(fillpos_) := batch]> a.(map_)) (u32 (a.(fillpos_) * kL2Size + start)) (a.(fillpos_) + 1)).

(** [for (i = 0; i < kSize / 2 && freelist_ != 0; i++)] *)
Fixpoint take_free (n : nat) a c : res (DenseSlabAlloc * DenseSlabAllocCache) :=
  match n with
  | O => Ok (a, c)
  | S n =>
    if a.(freelist_) =? 0 then Ok (a, c) else
    let idx := a.(freelist_) in
    l ← aset c.(cache) c.(pos) idx;
    b ← load a idx;
    next ← aget b 0;
    take_free n (set_freelist a next) (MkCache (c.(pos) + 1) l)
  end.

Definition Refill a c : res (DenseSlabAlloc * DenseSlabAllocCache) :=
  a ← (if a.(freelist_) =? 0 then grow a else Ok a);
  take_free (Z.to_nat (kCacheSize / 2)) a c.

(** The body of the loops of [Drain] and [FlushCache]. *)
Definition put_free a c : res (DenseSlabAlloc * DenseSlabAllocCache) :=
  let pos := c.(pos) - 1 in
  idx ← aget c.(cache) pos;
  b ← load a idx;
  b ← aset b 0 a.(freelist_);
  a ← store a idx b;
  Ok (set_freelist a idx, MkCache pos c.(cache)).

Fixpoint put_frees (n : nat) a c : res (DenseSlabAlloc * DenseSlabAllocCache) :=
  match n with
  | O => Ok (a, c)
  | S n => '(a, c) ← put_free a c; put_frees n a c
  end.

Definition Drain a c : res (DenseSlabAlloc * DenseSlabAllocCache) := put_frees (Z.to_nat (kCacheSize / 2)) a c.

Definition Alloc a c : res (Z * (DenseSlabAlloc * DenseSlabAllocCache)) :=
  '(a, c) ← (if c.(pos) =? 0 then Refill a c else Ok (a, c));
  let pos := c.(pos) - 1 in
  i ← aget c.(cache) pos;
  Ok (i, (a, MkCache pos c.(cache))).

Definition Free a c (idx : Z) : res (DenseSlabAlloc * DenseSlabAllocCache) :=
  '(a, c) ← (if c.(pos) =? kCacheSize then Drain a c else Ok (a, c));
  l ← aset c.(cache) c.(pos) idx;
  Ok (a, MkCache (c.(pos) + 1) l).

(** [while (c->pos)] *)
Definition FlushCache a c : res (DenseSlabAlloc * DenseSlabAllocCache) := put_frees (Z.to_nat c.(pos)) a c.

Definition InitCache : DenseSlabAllocCache := MkCache 0 (replicate (Z.to_nat kCacheSize) 0).
End DenseSlabAlloc.

(** ** The invariant *)

(** Sizes that pass the constructor's checks and give every batch a block. *)
Class SlabSizes (kL1Size kL2Size kWords : Z) : Prop := slab_sizes : 0 < kL1Size /\ 1 < kL2Size /\ kL1Size * kL2Size <= 2 ^ 32 /\ 0 < kWords.

Section Laws.
Context (kL1Size kL2Size kWords : Z) `{Hsizes : SlabSizes kL1Size kL2Size kWords}.
#[local] Abbreviation ld := (load kL1Size kL2Size).
#[local] Abbreviation st := (store kL1Size kL2Size).
Implicit Types (a : DenseSlabAlloc) (c : DenseSlabAllocCache) (live : gmap Z block).

Definition slab_shape a : Prop :=
  0 <= a.(fillpos_) <= kL1Size /\
  (forall p, 0 <= p < a.(fillpos_) -> exists batch, a.(map_) !! p = Some batch /\ zlen batch = kL2Size /\ Forall (fun b : block => zlen b = kWords) batch).

Definition mapped a (i : Z) : Prop := 0 <= i < a.(fillpos_) * kL2Size.

Lemma mapped_div a i : mapped a i -> slab_shape a -> 0 <= i / kL2Size < a.(fillpos_) /\ 0 <= i mod kL2Size < kL2Size /\ (kL1Size <=? i / kL2Size) = false.
Proof.
  intros Hi [Hf _]. destruct Hsizes as (? & ? & _). assert (0 <= i / kL2Size < a.(fillpos_)).
  { split; [apply Z.div_pos; destruct Hi; lia|]. apply Z.div_lt_upper_bound; unfold mapped in Hi; lia. }
  split; [done|]. split; [apply Z.mod_pos_bound; lia|]. apply Z.leb_gt. lia.
Qed.

Lemma load_mapped a i : slab_shape a -> mapped a i -> exists b, ld a i = Ok b /\ zlen b = kWords.
Proof.
  intros Hs Hi. destruct (mapped_div a i Hi Hs) as (Hq & Hr & Hle). destruct Hs as [_ Hs]. destruct (Hs _ Hq) as (batch & E & Hl & Hb).
  unfold load. rewrite Hle, E. cbn [res_of_option]. rewrite bind_ok. unfold zlen in Hl.
  destruct (lookup_lt_is_Some_2 batch (Z.to_nat (i mod kL2Size))) as [b Eb]; [lia|]. exists b. split; [apply aget_lookup; lia || done|].
  eapply Forall_lookup_1 in Hb; done.
Qed.

Lemma load_ext a a' i : a'.(map_) = a.(map_) -> ld a' i = ld a i.
Proof. unfold load. by intros ->. Qed.

Lemma store_mapped a i b :
  slab_shape a -> mapped a i -> zlen b = kWords ->
  exists a', st a i b = Ok a' /\ slab_shape a' /\ a'.(freelist_) = a.(freelist_) /\ a'.(fillpos_) = a.(fillpos_) /\
    forall j, mapped a j -> ld a' j = if i =? j then Ok b else ld a j.
Proof.
  intros Hs Hi Hb. destruct (mapped_div a i Hi Hs) as (Hq & Hr & Hle). pose proof Hs as [Hf Hbs]. destruct (Hbs _ Hq) as (batch & E & Hl & Hbl).
  unfold store. rewrite Hle, E. cbn [res_of_option]. rewrite bind_ok, aset_ok, bind_ok by lia. eexists. split; [done|]. split; [|split; [done|]; split; [done|]].
  - split; [done|]. cbn [map_ fillpos_]. intros p Hp. destruct (decide (p = i / kL2Size)) as [->|Hne].
    + rewrite lookup_insert_eq. eexists. split; [done|]. rewrite zlen_insert. split; [done|]. by apply Forall_insert.
    + rewrite lookup_insert_ne by congruence. by apply Hbs.
  - intros j Hj. destruct (mapped_div a j Hj Hs) as (Hq' & Hr' & Hle'). unfold load. cbn [map_]. rewrite Hle'. destruct Hsizes as (_ & HL2 & _).
    destruct (decide (j / kL2Size = i / kL2Size)) as [Eq|Hne].
    + rewrite Eq, lookup_insert_eq, E. cbn [res_of_option]. rewrite !bind_ok. destruct (Z.eqb_spec i j) as [<-|Hij].
      * apply aget_lookup; [lia|]. apply list_lookup_insert_eq. unfold zlen in Hl. lia.
      * unfold aget. destruct (j mod kL2Size <? 0); [done|]. rewrite list_lookup_insert_ne; [done|]. intros Em.
        apply Hij. rewrite (Z.div_mod i kL2Size), (Z.div_mod j kL2Size), Eq by lia. lia.
    + rewrite lookup_insert_ne by congruence. destruct (Z.eqb_spec i j) as [<-|]; done.
Qed.

(** The free list. *)
Fixpoint chain a (i : Z) (l : list Z) : Prop :=
  match l with
  | [] => i = 0
  | x :: l => i = x /\ x <> 0 /\ exists b n, ld a x = Ok b /\ b !! 0%nat = Some n /\ chain a n l
  end.

Lemma chain_frame a a' l : forall i, (forall x, x ∈ l -> ld a' x = ld a x) -> chain a i l -> chain a' i l.
Proof.
  induction l as [|x l IH]; intros i Hl; [done|]. intros (-> & Hx & b & n & E & En & Hc). split; [done|]. split; [done|].
  exists b, n. split; [rewrite Hl by set_solver; done|]. split; [done|]. apply IH; [|done]. intros y Hy. apply Hl. by right.
Qed.

Definition cache_ok c : Prop := 0 <= c.(pos) <= 128 /\ zlen c.(cache) = 128.

Definition held c : list Z := ztake c.(pos) c.(cache).

(** The allocator and one cache; [rest] are the indices in other caches and in
    use, [live] the contents of blocks in use. *)
Definition slab_core a c (fl rest : list Z) live : Prop :=
  slab_shape a /\ cache_ok c /\ chain a a.(freelist_) fl /\
  fl ++ held c ++ rest ≡ₚ seqZ 1 (a.(fillpos_) * kL2Size - 1) /\
  (forall i b, live !! i = Some b -> ld a i = Ok b /\ i ∈ rest).

Lemma perm_range (l : list Z) a i : l ≡ₚ seqZ 1 (a.(fillpos_) * kL2Size - 1) -> i ∈ l <-> 1 <= i < a.(fillpos_) * kL2Size.
Proof. intros ->. rewrite elem_of_seqZ. lia. Qed.

Lemma perm_nodup (l : list Z) n : l ≡ₚ seqZ 1 n -> NoDup l.
Proof. intros ->. apply NoDup_seqZ. Qed.

Lemma held_push c i : cache_ok c -> c.(pos) < 128 -> held (MkCache (c.(pos) + 1) (<[Z.to_nat c.(pos) := i]> c.(cache))) = held c ++ [i].
Proof.
  intros [Hp Hl] Hlt. unfold held, ztake, zlen in *. cbn [pos cache]. replace (Z.to_nat (c.(pos) + 1)) with (S (Z.to_nat c.(pos))) by lia.
  rewrite (take_S_r _ _ i) by (apply list_lookup_insert_eq; lia). by rewrite take_insert_ge by lia.
Qed.

Lemma held_pop c : cache_ok c -> 0 < c.(pos) -> exists i, aget c.(cache) (c.(pos) - 1) = Ok i /\ held c = held (MkCache (c.(pos) - 1) c.(cache)) ++ [i].
Proof.
  intros [Hp Hl] Hlt. unfold held, ztake, zlen in *. cbn [pos cache]. destruct (lookup_lt_is_Some_2 c.(cache) (Z.to_nat (c.(pos) - 1))) as [i E]; [lia|].
  exists i. split; [apply aget_lookup; lia || done|]. replace (Z.to_nat c.(pos)) with (S (Z.to_nat (c.(pos) - 1))) by lia. by apply take_S_r.
Qed.

(** *** The loops *)

Lemma take_free_core n : forall a c fl rest live,
  slab_core a c fl rest live -> c.(pos) + Z.of_nat n <= 128 ->
  exists a' c' fl', take_free kL1Size kL2Size n a c = Ok (a', c') /\ slab_core a' c' fl' rest live /\ a'.(fillpos_) = a.(fillpos_) /\
    c'.(pos) = c.(pos) + Z.of_nat (n `min` length fl).
Proof.
  induction n as [|n IH]; intros a c fl rest live Hcore Hn; cbn [take_free].
  { exists a, c, fl. split; [done|]. split; [done|]. split; [done|]. cbn. lia. }
  pose proof Hcore as (Hs & Hc & Hch & Hp & Hl). destruct fl as [|x fl]; cbn [chain] in Hch.
  { rewrite Hch, Z.eqb_refl. exists a, c, []. split; [done|]. split; [exact Hcore|]. split; [done|]. cbn. lia. }
  destruct Hch as (Ex & Hx & b & nx & Eb & En & Hch). rewrite Ex, (proj2 (Z.eqb_neq x 0)) by done. destruct Hc as [Hpos Hlen].
  rewrite aset_ok, bind_ok by lia. rewrite Eb, bind_ok, (aget_lookup b 0 nx), bind_ok by done.
  destruct (IH (set_freelist a nx) (MkCache (c.(pos) + 1) (<[Z.to_nat c.(pos) := x]> c.(cache))) fl rest live) as (a' & c' & fl' & -> & Hcore' & Hf & Hp').
  { split; [done|]. split; [split; cbn [pos cache]; [lia|by rewrite zlen_insert]|]. split; [by apply (chain_frame a)|]. split; [|exact Hl].
    rewrite held_push by (done || lia). cbn [fillpos_ set_freelist]. rewrite <- Hp. solve_Permutation. }
  { cbn [pos]. lia. }
  exists a', c', fl'. split; [done|]. split; [done|]. split; [done|]. rewrite Hp'. cbn [pos length]. lia.
Qed.

Lemma put_free_core a c fl rest live :
  slab_core a c fl rest live -> 0 < c.(pos) ->
  exists a' c' x, put_free kL1Size kL2Size a c = Ok (a', c') /\ slab_core a' c' (x :: fl) rest live /\ c'.(pos) = c.(pos) - 1 /\ c'.(cache) = c.(cache).
Proof.
  intros (Hs & Hc & Hch & Hp & Hl) Hpos. unfold put_free. destruct (held_pop c Hc Hpos) as (x & -> & Eh). rewrite bind_ok.
  assert (Hin : x ∈ fl ++ held c ++ rest) by (rewrite Eh; set_solver). pose proof (proj1 (perm_range _ a x Hp) Hin) as Hx.
  pose proof (perm_nodup _ _ Hp) as Hnd. rewrite Eh in Hnd. assert (Hm : mapped a x) by (unfold mapped; lia).
  destruct (load_mapped a x Hs Hm) as (b & -> & Hb). rewrite bind_ok. destruct Hsizes as (_ & _ & _ & HW). rewrite aset_ok, bind_ok by lia.
  destruct (store_mapped a x (<[Z.to_nat 0 := a.(freelist_)]> b) Hs Hm) as (a' & -> & Hs' & Ef & Ep & Hld); [by rewrite zlen_insert|]. rewrite bind_ok.
  assert (Hother : forall y, y ∈ fl \/ y ∈ rest -> ld a' y = ld a y).
  { intros y Hy. assert (y ∈ fl ++ held c ++ rest) as Hy' by set_solver. apply (perm_range _ a y Hp) in Hy'. rewrite Hld by (unfold mapped; lia).
    destruct (Z.eqb_spec x y) as [<-|]; [|done]. exfalso. rewrite !NoDup_app in Hnd. set_solver. }
  eexists _, _, x. split; [done|]. split; [|done]. split; [done|]. split; [destruct Hc; split; cbn [pos cache]; [lia|done]|]. split; [|split].
  - cbn [freelist_ set_freelist chain]. split; [done|]. split; [lia|]. exists (<[0%nat := a.(freelist_)]> b), a.(freelist_). split.
    + unfold set_freelist. rewrite (load_ext a') by done. rewrite Hld by done. by rewrite Z.eqb_refl.
    + split; [apply list_lookup_insert_eq; unfold zlen in Hb; lia|]. apply (chain_frame a); [|done]. intros y Hy. rewrite (load_ext a') by done. apply Hother. by left.
  - cbn [fillpos_ set_freelist]. rewrite Ep, <- Hp, Eh. solve_Permutation.
  - intros i b' Hi. destruct (Hl i b' Hi) as [Eb Hr]. split; [|done]. rewrite (load_ext a') by done. rewrite Hother by (by right). done.
Qed.

Lemma put_frees_core n : forall a c fl rest live,
  slab_core a c fl rest live -> Z.of_nat n <= c.(pos) ->
  exists a' c' fl', put_frees kL1Size kL2Size n a c = Ok (a', c') /\ slab_core a' c' fl' rest live /\ c'.(pos) = c.(pos) - Z.of_nat n.
Proof.
  induction n as [|n IH]; intros a c fl rest live Hcore Hn; cbn [put_frees].
  { exists a, c, fl. split; [done|]. split; [done|]. lia. }
  destruct (put_free_core a c fl rest live Hcore ltac:(lia)) as (a1 & c1 & x & -> & Hcore1 & Hp1 & _). rewrite bind_ok.
  destruct (IH a1 c1 (x :: fl) rest live Hcore1 ltac:(lia)) as (a' & c' & fl' & -> & Hcore' & Hp'). exists a', c', fl'. split; [done|]. split; [done|]. lia.
Qed.

(** *** A new batch *)

Lemma seqZ_split s n pre x rest : seqZ s n = pre ++ x :: rest -> x = s + zlen pre /\ zlen pre < n.
Proof.
  intros E. assert (Hx : seqZ s n !! length pre = Some x) by (rewrite E, list_lookup_middle; done).
  apply lookup_seqZ in Hx as [-> Hn]. unfold zlen. split; [done|lia].
Qed.

Definition links (f start : Z) (batch : list block) : Prop :=
  zlen batch = kL2Size /\ Forall (fun b : block => zlen b = kWords) batch /\
  forall i, start <= i < kL2Size -> exists b, batch !! Z.to_nat i = Some b /\ b !! 0%nat = Some (if i =? kL2Size - 1 then 0 else u32 (i + 1 + f * kL2Size)).

Lemma set_first (batch : list block) i v :
  zlen batch = kL2Size -> Forall (fun b : block => zlen b = kWords) batch -> 0 <= i < kL2Size ->
  exists b b' batch', aget batch i = Ok b /\ aset b 0 v = Ok b' /\ aset batch i b' = Ok batch' /\
    zlen batch' = kL2Size /\ Forall (fun b : block => zlen b = kWords) batch' /\
    b' !! 0%nat = Some v /\ forall j, 0 <= j -> batch' !! Z.to_nat j = if j =? i then Some b' else batch !! Z.to_nat j.
Proof.
  intros Hl Hb Hi. destruct Hsizes as (_ & _ & _ & HW). unfold zlen in *. destruct (lookup_lt_is_Some_2 batch (Z.to_nat i)) as [b E]; [lia|].
  pose proof (Forall_lookup_1 _ _ _ _ Hb E) as Hw. exists b, (<[0%nat := v]> b), (<[Z.to_nat i := <[0%nat := v]> b]> batch). unfold zlen in Hw; cbn beta in Hw.
  split; [apply aget_lookup; lia || done|]. split; [apply aset_ok; unfold zlen; lia|]. split; [apply aset_ok; unfold zlen; lia|]. rewrite length_insert. split; [done|].
  split; [apply Forall_insert; [done|]; by rewrite length_insert|]. split; [apply list_lookup_insert_eq; lia|]. intros j Hj. destruct (Z.eqb_spec j i) as [->|Hne].
  - apply list_lookup_insert_eq. lia.
  - apply list_lookup_insert_ne. lia.
Qed.

Lemma link_batch_spec f start batch :
  0 <= start < kL2Size -> zlen batch = kL2Size -> Forall (fun b : block => zlen b = kWords) batch ->
  exists batch', link_batch kL2Size f start batch = Ok batch' /\ links f start batch'.
Proof.
  intros Hst Hl Hb. unfold link_batch.
  destruct (foldM_inv (fun pre (l : list block) => zlen l = kL2Size /\ Forall (fun b : block => zlen b = kWords) l /\
      forall i, start <= i < start + zlen pre -> exists b, l !! Z.to_nat i = Some b /\ b !! 0%nat = Some (u32 (i + 1 + f * kL2Size)))
    (fun i l => b ← aget l i; b ← aset b 0 (u32 (i + 1 + f * kL2Size)); aset l i b) (seqZ start (kL2Size - start)) batch) as (l & -> & Hl' & Hb' & Hlk).
  - split; [done|]. split; [done|]. intros i Hi. change (zlen (@nil Z)) with 0 in Hi. lia.
  - intros pre x rest l El (Hl1 & Hb1 & Hk). apply seqZ_split in El as [-> Hlt]. set (x := start + zlen pre) in *. pose proof (zlen_nonneg pre).
    destruct (set_first l x (u32 (x + 1 + f * kL2Size)) Hl1 Hb1) as (b & b' & l' & -> & E2 & E3 & ? & ? & E0 & Hat); [lia|]. rewrite bind_ok, E2, bind_ok, E3.
    exists l'. split; [done|]. split; [done|]. split; [done|]. intros i Hi. rewrite zlen_app in Hi. change (zlen [x]) with 1 in Hi. rewrite Hat by lia. destruct (Z.eqb_spec i x) as [->|Hne]; [eauto|apply Hk; lia].
  - rewrite bind_ok. destruct (set_first l (kL2Size - 1) 0 Hl' Hb') as (b & b' & l' & -> & E2 & E3 & ? & ? & E0 & Hat); [lia|]. rewrite bind_ok, E2, bind_ok, E3.
    exists l'. split; [done|]. split; [done|]. split; [done|]. intros i Hi. rewrite Hat by lia. destruct (Z.eqb_spec i (kL2Size - 1)) as [->|Hne]; [eauto|].
    apply Hlk. unfold zlen. rewrite length_seqZ. lia.
Qed.

Lemma links_chain a f start batch (n : nat) :
  links f start batch -> a.(map_) !! f = Some batch -> 0 <= f < kL1Size -> 0 <= start -> 0 < f * kL2Size + start ->
  forall i, start <= i -> i + Z.of_nat n = kL2Size - 1 -> chain a (f * kL2Size + i) (seqZ (f * kL2Size + i) (Z.of_nat n + 1)).
Proof.
  intros (Hl & _ & Hk) Ef Hf Hst Hpos. destruct Hsizes as (_ & HL2 & Hmax & _).
  assert (Hld : forall i, start <= i < kL2Size -> exists b, ld a (f * kL2Size + i) = Ok b /\ b !! 0%nat = Some (if i =? kL2Size - 1 then 0 else u32 (i + 1 + f * kL2Size))).
  { intros i Hi. destruct (Hk i Hi) as (b & Eb & E0). exists b. split; [|done]. unfold load.
    rewrite Z.div_add_l, (Z.div_small i), Z.add_0_r by lia. rewrite (proj2 (Z.leb_gt _ _)) by lia. rewrite Ef. cbn [res_of_option]. rewrite bind_ok.
    rewrite Z.add_comm, Z.mod_add, Z.mod_small by lia. apply aget_lookup; [lia|done]. }
  induction n as [|n IH]; intros i Hi Hn; destruct (Hld i ltac:(lia)) as (b & Eb & E0); rewrite seqZ_cons by lia; cbn [chain].
  - split; [done|]. split; [lia|]. exists b, 0. rewrite Z.eqb_refl in E0 || rewrite (proj2 (Z.eqb_eq i (kL2Size - 1))) in E0 by lia. split; [done|]. split; [done|]. done.
  - split; [done|]. split; [lia|]. exists b, (f * kL2Size + (i + 1)). rewrite (proj2 (Z.eqb_neq _ _)) in E0 by lia.
    replace (u32 (i + 1 + f * kL2Size)) with (f * kL2Size + (i + 1)) in E0 by (unfold u32, wrap; rewrite Z.mod_small; nia). split; [done|]. split; [done|].
    replace (Z.succ (f * kL2Size + i)) with (f * kL2Size + (i + 1)) by lia. replace (Z.pred (Z.of_nat (S n) + 1)) with (Z.of_nat n + 1) by lia. apply IH; lia.
Qed.

Lemma grow_core a c rest live :
  slab_core a c [] rest live -> a.(fillpos_) < kL1Size ->
  exists a' x fl, grow kL1Size kL2Size kWords a = Ok a' /\ slab_core a' c (x :: fl) rest live.
Proof.
  intros (Hs & Hc & Hch & Hp & Hl) Hlt. pose proof Hs as [Hf Hbs]. unfold grow. rewrite (proj2 (Z.eqb_neq _ _)) by lia. pose proof Hsizes as (HL1 & HL2 & Hmax & HW).
  set (f := a.(fillpos_)) in *. set (start := if f =? 0 then 1 else 0). assert (Hst : 0 <= start < kL2Size /\ 0 < f * kL2Size + start /\ f * kL2Size + start = Z.max 1 (f * kL2Size)).
  { unfold start. destruct (Z.eqb_spec f 0) as [->|]; nia. }
  destruct (link_batch_spec f start (replicate (Z.to_nat kL2Size) (replicate (Z.to_nat kWords) 0))) as (batch & -> & Hlk); [lia|rewrite zlen_replicate; lia|apply Forall_replicate; rewrite zlen_replicate; lia|].
  rewrite bind_ok. replace (u32 (f * kL2Size + start)) with (f * kL2Size + start) by (unfold u32, wrap; rewrite Z.mod_small; nia). set (a' := MkAlloc _ _ _).
  pose proof (links_chain a' f start batch (Z.to_nat (kL2Size - 1 - start)) Hlk (lookup_insert_eq _ _ _) ltac:(lia) ltac:(lia) ltac:(lia) start ltac:(lia) ltac:(lia)) as Hchain.
  rewrite seqZ_cons in Hchain by lia. eexists a', _, _. split; [done|].
  assert (Hold : forall i, mapped a i -> ld a' i = ld a i).
  { intros i Hi. destruct (mapped_div a i Hi Hs) as (Hq & _). unfold load, a'. cbn [map_]. rewrite lookup_insert_ne by (unfold f in *; lia). done. }
  split; [|split; [done|]; split; [exact Hchain|]; split].
  - split; [cbn; lia|]. cbn [map_ fillpos_ a']. intros p Hpp. destruct (decide (p = f)) as [->|Hne].
    + rewrite lookup_insert_eq. exists batch. split; [done|]. destruct Hlk as (? & ? & _). done.
    + rewrite lookup_insert_ne by congruence. apply Hbs. unfold f in *. lia.
  - cbn [app] in Hp. cbn [fillpos_ a']. rewrite <- seqZ_cons, Hp by lia. replace (Z.of_nat (Z.to_nat (kL2Size - 1 - start)) + 1) with (kL2Size - start) by lia.
    unfold start in *. destruct (Z.eqb_spec f 0) as [Ef|Hf0].
    { rewrite Ef. change (seqZ 1 (0 * kL2Size - 1)) with (@nil Z). rewrite app_nil_r. by replace ((0 + 1) * kL2Size - 1) with (kL2Size - 1) by lia. }
    rewrite Permutation_app_comm. replace (f * kL2Size + 0) with (1 + (f * kL2Size - 1)) by lia.
    rewrite <- seqZ_app by nia. by replace (f * kL2Size - 1 + (kL2Size - 0)) with ((f + 1) * kL2Size - 1) by lia.
  - intros i b Hi. destruct (Hl i b Hi) as [E Hr]. split; [|done]. rewrite Hold; [done|]. assert (i ∈ [] ++ held c ++ rest) as Hin by set_solver. apply (perm_range _ a i Hp) in Hin. unfold mapped. lia.
Qed.

(** *** All caches *)

Definition cached (cs : gmap Z DenseSlabAllocCache) : list Z := map_to_list cs ≫= fun kc => held kc.2.

Definition keys live : list Z := (map_to_list live).*1.

Definition slab_inv a (cs : gmap Z DenseSlabAllocCache) live : Prop :=
  exists fl, slab_shape a /\ map_Forall (fun _ c => cache_ok c) cs /\ chain a a.(freelist_) fl /\
    fl ++ cached cs ++ keys live ≡ₚ seqZ 1 (a.(fillpos_) * kL2Size - 1) /\
    forall i b, live !! i = Some b -> ld a i = Ok b /\ zlen b = kWords.

Lemma cached_put cs k c : cached (<[k := c]> cs) ≡ₚ held c ++ cached (delete k cs).
Proof. unfold cached. rewrite <- insert_delete_eq, map_to_list_insert by apply lookup_delete_eq. done. Qed.

Lemma cached_get cs k c : cs !! k = Some c -> cached cs ≡ₚ held c ++ cached (delete k cs).
Proof. intros E. rewrite <- (insert_id cs k c E) at 1. apply cached_put. Qed.

Lemma cached_length cs : map_Forall (fun _ c => cache_ok c) cs -> Z.of_nat (length (cached cs)) <= 128 * Z.of_nat (size cs).
Proof.
  intros Hcs. unfold cached. rewrite <- length_map_to_list. assert (Hl : Forall (fun kc : Z * DenseSlabAllocCache => cache_ok kc.2) (map_to_list cs)).
  { apply Forall_forall. intros [k c] Hin%elem_of_map_to_list. by apply (Hcs k). }
  induction Hl as [|[k c] l [Hp Hc] _ IH]; [cbn; lia|]. rewrite bind_cons, length_app. cbn [length snd] in *. unfold held, ztake, zlen in *. rewrite length_take. lia.
Qed.

Lemma elem_of_keys live i : i ∈ keys live <-> is_Some (live !! i).
Proof.
  unfold keys. rewrite list_elem_of_fmap. split.
  - intros ([j b] & -> & Hin%elem_of_map_to_list). eauto.
  - intros [b E]. exists (i, b). split; [done|]. by apply elem_of_map_to_list.
Qed.

Lemma keys_put live i b : live !! i = None -> keys (<[i := b]> live) ≡ₚ i :: keys live.
Proof. intros E. unfold keys. by rewrite map_to_list_insert by done. Qed.

Lemma keys_delete live i b : live !! i = Some b -> keys live ≡ₚ i :: keys (delete i live).
Proof. intros E. unfold keys. by rewrite <- (map_to_list_delete live i b E). Qed.

Lemma inv_core a cs live k c :
  slab_inv a cs live -> cs !! k = Some c -> exists fl, slab_core a c fl (cached (delete k cs) ++ keys live) live.
Proof.
  intros (fl & Hs & Hcs & Hch & Hp & Hl) E. exists fl. split; [done|]. split; [by apply (Hcs k)|]. split; [done|]. split.
  - rewrite <- Hp, (cached_get cs k c E). solve_Permutation.
  - intros i b Hi. split; [by apply Hl|]. rewrite elem_of_app. right. apply elem_of_keys. eauto.
Qed.

Lemma core_inv a cs live k c fl :
  map_Forall (fun _ c => cache_ok c) cs -> (forall i b, live !! i = Some b -> zlen b = kWords) ->
  slab_core a c fl (cached (delete k cs) ++ keys live) live -> slab_inv a (<[k := c]> cs) live.
Proof.
  intros Hcs Hw (Hs & Hc & Hch & Hp & Hl). exists fl. split; [done|]. split; [by apply map_Forall_insert_2|]. split; [done|]. split.
  - rewrite <- Hp, cached_put. solve_Permutation.
  - intros i b Hi. split; [by apply Hl|by apply (Hw i)].
Qed.


Lemma alloc_core a c fl rest live :
  slab_core a c fl rest live -> (c.(pos) = 0 -> fl = [] -> a.(fillpos_) < kL1Size) ->
  exists i a' c' fl', Alloc kL1Size kL2Size kWords a c = Ok (i, (a', c')) /\ slab_core a' c' fl' (i :: rest) live /\ i ∉ rest.
Proof.
  intros Hcore Hroom. unfold Alloc.
  assert (exists a1 c1 fl1, (if c.(pos) =? 0 then Refill kL1Size kL2Size kWords a c else Ok (a, c)) = Ok (a1, c1) /\ slab_core a1 c1 fl1 rest live /\ 0 < c1.(pos)) as (a1 & c1 & fl1 & -> & Hcore1 & Hpos).
  { destruct (Z.eqb_spec c.(pos) 0) as [E0|E0]; [|pose proof Hcore as (_ & [? _] & _); exists a, c, fl; split; [done|]; split; [done|lia]]. unfold Refill.
    assert (exists a1 x fl1, (if a.(freelist_) =? 0 then grow kL1Size kL2Size kWords a else Ok a) = Ok a1 /\ slab_core a1 c (x :: fl1) rest live) as (a1 & x & fl1 & -> & Hcore1).
    { destruct fl as [|x fl]; pose proof Hcore as (_ & _ & Hch & _); cbn [chain] in Hch.
      - rewrite Hch. destruct (grow_core a c rest live Hcore) as (a1 & x & fl1 & ? & ?); [by apply Hroom|]. rewrite Z.eqb_refl. eauto.
      - destruct Hch as (-> & Hx & _). rewrite (proj2 (Z.eqb_neq x 0)) by done. eauto. }
    rewrite bind_ok. destruct (take_free_core (Z.to_nat (kCacheSize / 2)) a1 c (x :: fl1) rest live Hcore1) as (a2 & c2 & fl2 & -> & Hcore2 & _ & Hp2); [rewrite E0; done|].
    exists a2, c2, fl2. split; [done|]. split; [done|]. rewrite Hp2, E0. change (Z.to_nat (kCacheSize / 2)) with 64%nat. cbn [length]. lia. }
  rewrite bind_ok. destruct Hcore1 as (Hs & Hc & Hch & Hp & Hl). destruct (held_pop c1 Hc Hpos) as (i & -> & Eh). rewrite bind_ok. eexists i, a1, _, fl1. split; [done|]. split.
  - split; [done|]. split; [destruct Hc; split; cbn [pos cache]; [lia|done]|]. split; [done|]. split; [rewrite <- Hp, Eh; solve_Permutation|].
    intros j b Hj. destruct (Hl j b Hj). split; [done|]. by right.
  - pose proof (perm_nodup _ _ Hp) as Hnd. rewrite Eh, !NoDup_app in Hnd. set_solver.
Qed.

Lemma free_core a c fl i rest live :
  slab_core a c fl (i :: rest) live -> live !! i = None ->
  exists a' c' fl', Free kL1Size kL2Size a c i = Ok (a', c') /\ slab_core a' c' fl' rest live.
Proof.
  intros Hcore Hi. unfold Free.
  assert (exists a1 c1 fl1, (if c.(pos) =? kCacheSize then Drain kL1Size kL2Size a c else Ok (a, c)) = Ok (a1, c1) /\ slab_core a1 c1 fl1 (i :: rest) live /\ c1.(pos) < 128) as (a1 & c1 & fl1 & -> & Hcore1 & Hpos).
  { destruct (Z.eqb_spec c.(pos) kCacheSize) as [E|E]; [|pose proof Hcore as (_ & [? _] & _); exists a, c, fl; split; [done|]; split; [done|unfold kCacheSize in E; lia]].
    destruct (put_frees_core (Z.to_nat (kCacheSize / 2)) a c fl (i :: rest) live Hcore) as (a1 & c1 & fl1 & ? & ? & Hp); [rewrite E; done|].
    exists a1, c1, fl1. split; [done|]. split; [done|]. rewrite Hp, E. done. }
  rewrite bind_ok. pose proof Hcore1 as (Hs & Hc & Hch & Hp & Hl). pose proof Hc as [Hp1 Hc1]. rewrite aset_ok, bind_ok by lia. eexists a1, _, fl1. split; [done|].
  split; [done|]. split; [split; cbn [pos cache]; [lia|by rewrite zlen_insert]|]. split; [done|]. split; [rewrite <- Hp, held_push by (done || lia); solve_Permutation|].
  intros j b Hj. destruct (Hl j b Hj) as [? [->|?]%elem_of_cons]; [congruence|done].
Qed.

(** *** The laws *)

#[export] Instance slab_ops : SlabOps DenseSlabAlloc DenseSlabAllocCache := {
  sl_alloc := Alloc kL1Size kL2Size kWords;
  sl_free := Free kL1Size kL2Size;
  sl_load := load kL1Size kL2Size;
  sl_store := store kL1Size kL2Size;
}.

Lemma alloc_inv a cs live k c :
  slab_inv a cs live -> cs !! k = Some c -> Z.of_nat (size live) + 128 * Z.of_nat (size cs) < kL1Size * kL2Size - 1 ->
  exists i b a' c', Alloc kL1Size kL2Size kWords a c = Ok (i, (a', c')) /\ i <> 0 /\ live !! i = None /\ slab_inv a' (<[k := c']> cs) (<[i := b]> live).
Proof.
  intros Hinv Ec Hroom. pose proof Hinv as (fl0 & Hs0 & Hcs & _ & Hp0 & Hw). destruct (inv_core a cs live k c Hinv Ec) as (fl & Hcore).
  destruct (alloc_core a c fl _ live Hcore) as (i & a' & c' & fl' & -> & Hcore' & Hni).
  { intros E0 ->. destruct Hcore as (_ & _ & _ & Hp & _). apply Permutation_length in Hp. cbn [app] in Hp. rewrite app_assoc in Hp.
    rewrite length_app, <- (cached_get cs k c Ec), length_seqZ in Hp. unfold keys in Hp. rewrite length_fmap, length_map_to_list in Hp.
    pose proof (cached_length cs Hcs). destruct Hs0 as [Hf _]. assert (0 < kL2Size) by (destruct Hsizes as (_ & ? & _); lia).
    destruct (Z.lt_ge_cases a.(fillpos_) kL1Size) as [|Hge]; [done|]. assert (a.(fillpos_) = kL1Size) as Ef by lia. rewrite Ef in Hp. lia. }
  pose proof Hcore' as (Hs & _ & _ & Hp & Hl). assert (Hi : i ∈ fl' ++ held c' ++ i :: cached (delete k cs) ++ keys live) by set_solver +.
  apply (perm_range _ a' i Hp) in Hi. assert (Hnone : live !! i = None).
  { destruct (live !! i) eqn:E; [|done]. destruct Hni. rewrite elem_of_app. right. apply elem_of_keys. eauto. }
  destruct (load_mapped a' i Hs) as (b & Eb & Hb); [unfold mapped; lia|]. exists i, b, a', c'. split; [done|]. split; [lia|]. split; [done|].
  apply (core_inv a' cs _ k c' fl' Hcs).
  - intros j b' [[-> <-]|[_ Hj]]%lookup_insert_Some; [done|by apply (Hw j)].
  - destruct Hcore' as (? & ? & ? & _ & _). split; [done|]. split; [done|]. split; [done|]. split; [rewrite <- Hp, keys_put by done; solve_Permutation|].
    intros j b' [[-> <-]|[_ Hj]]%lookup_insert_Some; (split; [done || by apply (Hl j)|]); rewrite elem_of_app; right; apply elem_of_keys; rewrite lookup_insert_is_Some'; eauto.
Qed.

Lemma free_inv a cs live k c i b :
  slab_inv a cs live -> cs !! k = Some c -> live !! i = Some b ->
  exists a' c', Free kL1Size kL2Size a c i = Ok (a', c') /\ slab_inv a' (<[k := c']> cs) (delete i live).
Proof.
  intros Hinv Ec Hi. pose proof Hinv as (_ & _ & Hcs & _ & _ & Hw). destruct (inv_core a cs live k c Hinv Ec) as (fl & Hs & Hc & Hch & Hp & Hl).
  destruct (free_core a c fl i (cached (delete k cs) ++ keys (delete i live)) (delete i live)) as (a' & c' & fl' & -> & Hcore); [|apply lookup_delete_eq|].
  { split; [done|]. split; [done|]. split; [done|]. split; [rewrite <- Hp, (keys_delete live i b Hi); solve_Permutation|].
    intros j b' [Hne Hj]%lookup_delete_Some. split; [by apply Hl|]. right. rewrite elem_of_app. right. apply elem_of_keys. rewrite lookup_delete_ne by done. eauto. }
  exists a', c'. split; [done|]. apply (core_inv a' cs _ k c' fl' Hcs); [|done]. intros j b' [_ Hj]%lookup_delete_Some. by apply (Hw j).
Qed.

Lemma inv_mapped a cs live i b : slab_inv a cs live -> live !! i = Some b -> 1 <= i < a.(fillpos_) * kL2Size.
Proof.
  intros (fl & _ & _ & _ & Hp & _) Hi. apply (perm_range _ a i Hp). rewrite !elem_of_app. do 2 right. apply elem_of_keys. eauto.
Qed.

Lemma store_inv a cs live i b b' :
  slab_inv a cs live -> live !! i = Some b -> zlen b' = kWords -> exists a', st a i b' = Ok a' /\ slab_inv a' cs (<[i := b']> live).
Proof.
  intros Hinv Hi Hb. pose proof (inv_mapped _ _ _ _ _ Hinv Hi) as Hm. destruct Hinv as (fl & Hs & Hcs & Hch & Hp & Hl).
  destruct (store_mapped a i b' Hs) as (a' & -> & Hs' & Ef & Ep & Hld); [unfold mapped; lia|done|]. exists a'. split; [done|].
  assert (Hmap : forall j, j ∈ fl ++ cached cs ++ keys live -> mapped a j) by (intros j Hj; apply (perm_range _ a j Hp) in Hj; unfold mapped; lia).
  pose proof (perm_nodup _ _ Hp) as Hnd. exists fl. split; [done|]. split; [done|]. rewrite Ef, Ep. split; [|split].
  - apply (chain_frame a); [|done]. intros x Hx. rewrite Hld by (apply Hmap; set_solver). destruct (Z.eqb_spec i x) as [<-|]; [|done]. exfalso.
    apply NoDup_app in Hnd as (_ & Hd & _). apply (Hd i Hx). rewrite elem_of_app. right. apply elem_of_keys. eauto.
  - rewrite <- Hp. replace live with (<[i := b]> (delete i live)) at 2 by (by rewrite insert_delete_eq, insert_id). rewrite <- insert_delete_eq, !keys_put by apply lookup_delete_eq. done.
  - intros j b'' Hj. assert (Hjm : mapped a j). { apply Hmap. rewrite !elem_of_app. do 2 right. apply elem_of_keys. destruct (decide (i = j)) as [<-|]; [eauto|]. rewrite lookup_insert_ne in Hj by done. eauto. }
    rewrite Hld by done. destruct (Z.eqb_spec i j) as [<-|Hne].
    + rewrite lookup_insert_eq in Hj. injection Hj as <-. done.
    + rewrite lookup_insert_ne in Hj by done. by apply Hl.
Qed.

#[export] Program Instance slab_laws : SlabLaws DenseSlabAlloc DenseSlabAllocCache := {
  sl_words := kWords;
  sl_limit := kL1Size * kL2Size - 1;
  sl_inv := slab_inv;
}.
Next Obligation. apply alloc_inv. Qed.
Next Obligation. apply free_inv. Qed.
Next Obligation. cbn. intros a cs live i b (fl & _ & _ & _ & _ & Hl) Hi. by apply Hl. Qed.
Next Obligation. apply store_inv. Qed.
Next Obligation. cbn. intros a cs live i b (fl & _ & _ & _ & _ & Hl) Hi. by apply (Hl i). Qed.
Next Obligation.
  cbn. intros a cs live i b Hinv Hi. pose proof (inv_mapped _ _ _ _ _ Hinv Hi). destruct Hinv as (_ & [Hf _] & _). destruct Hsizes as (_ & ? & ? & _). change 4294967296 with (2 ^ 32). nia.
Qed.

Lemma slab_init_inv ks a : DenseSlabAlloc_init kL1Size kL2Size kWords = Ok a -> slab_inv a (gset_to_gmap InitCache ks) ∅.
Proof.
  unfold DenseSlabAlloc_init, CHECK. intros E. do 4 (match type of E with context [if ?b then _ else _] => destruct b; [rewrite bind_ok in E|done] end). injection E as <-.
  exists []. split; [split; [cbn; destruct Hsizes; lia|]; cbn; intros; lia|]. split; [|split; [done|]; split].
  - intros k c [_ <-]%lookup_gset_to_gmap_Some. split; done.
  - cbn [app fillpos_]. change (seqZ 1 (0 * kL2Size - 1)) with (@nil Z). unfold keys. rewrite map_to_list_empty, app_nil_r.
    assert (Hall : Forall (fun kc : Z * DenseSlabAllocCache => held kc.2 = []) (map_to_list (gset_to_gmap InitCache ks))).
    { apply Forall_forall. intros [k c] Hin%elem_of_map_to_list. apply lookup_gset_to_gmap_Some in Hin as [_ <-]. done. }
    unfold cached. induction Hall as [|kc l E _ IH]; [done|]. rewrite bind_cons, E. exact IH.
  - intros i b Hi. by rewrite lookup_empty in Hi.
Qed.

(** A thread that ends gives the indices of its cache back. *)
Lemma flush_inv a cs live k c :
  slab_inv a cs live -> cs !! k = Some c ->
  exists a' c', FlushCache kL1Size kL2Size a c = Ok (a', c') /\ c'.(pos) = 0 /\ slab_inv a' (<[k := c']> cs) live.
Proof.
  intros Hinv Ec. pose proof Hinv as (_ & _ & Hcs & _ & _ & Hw). destruct (inv_core a cs live k c Hinv Ec) as (fl & Hcore). pose proof Hcore as (_ & [Hp _] & _).
  destruct (put_frees_core (Z.to_nat c.(pos)) a c fl _ live Hcore) as (a' & c' & fl' & E & Hcore' & Hp'); [lia|]. exists a', c'. split; [done|]. split; [lia|].
  apply (core_inv a' cs live k c' fl' Hcs); [|done]. intros j b Hj. by apply (Hw j).
Qed.
End Laws.
