(* ===== verification/SyncClock.v ===== *)
(** * Vector clocks of synchronisation objects

    [SyncClock] of [src/ufo-rt/lib/tsan/rtl/tsan_clock.h] and [tsan_clock.cc],
    with the constants and the [ClockBlock] of [tsan_defs.h].  A clock is a
    table of up to 8128 elements in blocks of 128 words: the first-level block
    has the reference count in its last word, the indices of the second-level
    blocks before it, and the elements that do not fill a second-level block at
    its start.  Tables are shared between clocks and the caches of threads,
    and shared tables are not changed; up to two elements of a clock live
    outside of it (dirty entries).

    The blocks are those of an allocator with the operations of DenseAlloc.v.
    A pointer to a block is its index, 0 for null; a method takes the
    allocator, or the pair of allocator and cache where it allocates or frees,
    and returns the new one.  [DCHECK]s, which release builds leave out, are
    not modelled, and the counters of events ([CPP_STAT_INC]) are left out.
    Operations on a reference count are those of one thread at a time. *)
From stdpp Require Import base numbers list gmap.
From Stdlib Require Import ZArith Lia.
From S2P Require Import Prelude Bits DenseAlloc.

Local Open Scope Z_scope.

(** ** Constants and blocks *)

Definition kClkBits : Z := 42.
Definition kTableSize : Z := 128.
Definition kClockCount : Z := 64.
Definition kRefIdx : Z := kTableSize - 1.
Definition kBlockIdx : Z := kTableSize - 2.
Definition kTidBits : Z := 13.
Definition kMaxTid : Z := Z.shiftl 1 kTidBits - kClockCount.
Definition kMaxTidInClock : Z := kMaxTid * 2.
Definition kInvalidTid : Z := kMaxTid + 1.
Definition kDirtyTids : Z := 2.

Record ClockElem : Type := MkElem {
  epoch : Z;
  reused : Z;
}.

(** The two bit fields in the 64 bits of an element. *)
Definition elem_bits (e : ClockElem) : Z := Z.lor (wrap kClkBits e.(epoch)) (Z.shiftl (wrap (64 - kClkBits) e.(reused)) kClkBits).

Definition bits_elem (z : Z) : ClockElem := MkElem (wrap kClkBits z) (Z.shiftr z kClkBits).

(** [cb->clock[i]]; the word of the lower half comes first. *)
Definition clock_get (b : block) (i : Z) : res ClockElem :=
  lo ← aget b (2 * i);
  hi ← aget b (2 * i + 1);
  Ok (bits_elem (Z.lor lo (Z.shiftl hi 32))).

Definition clock_set (b : block) (i : Z) (e : ClockElem) : res block :=
  b ← aset b (2 * i) (wrap 32 (elem_bits e));
  aset b (2 * i + 1) (Z.shiftr (elem_bits e) 32).

(** [internal_memcpy] and [internal_memset] of words at the start of, and
    from an offset in, a block. *)
Definition copy_words (dst src : block) (n : Z) : res block :=
  if (n <=? zlen dst) && (n <=? zlen src) then Ok (ztake n src ++ zdrop n dst) else Err EOutOfBounds.

Definition zero_words (dst : block) (off n : Z) : res block :=
  if off + n <=? zlen dst then Ok (ztake off dst ++ replicate (Z.to_nat n) 0 ++ zdrop (off + n) dst) else Err EOutOfBounds.

(** ** The clock *)

Record Dirty : Type := MkDirty {
  d_epoch : Z;
  d_tid : Z;
}.

Record SyncClock : Type := MkSync {
  release_store_tid_ : Z;
  release_store_reused_ : Z;
  dirty_ : list Dirty;
  tab_ : Z;
  tab_idx_ : Z;
  size_ : Z;
  blocks_ : Z;
}.

Definition set_tab (s : SyncClock) (tab idx size blocks : Z) : SyncClock :=
  MkSync s.(release_store_tid_) s.(release_store_reused_) s.(dirty_) tab idx size blocks.

Definition set_size (s : SyncClock) (n : Z) : SyncClock := set_tab s s.(tab_) s.(tab_idx_) (wrap 16 n) s.(blocks_).

Definition set_dirty (s : SyncClock) (d : list Dirty) : SyncClock :=
  MkSync s.(release_store_tid_) s.(release_store_reused_) d s.(tab_) s.(tab_idx_) s.(size_) s.(blocks_).

Definition set_release_store (s : SyncClock) (tid reused : Z) : SyncClock :=
  MkSync tid reused s.(dirty_) s.(tab_) s.(tab_idx_) s.(size_) s.(blocks_).

Definition no_dirty (d : Dirty) : Dirty := MkDirty d.(d_epoch) kInvalidTid.

Definition ResetImpl (s : SyncClock) : SyncClock := MkSync kInvalidTid 0 (no_dirty <$> s.(dirty_)) 0 0 0 0.

(** The constructor; the times of the dirty entries are not initialised. *)
Definition SyncClock_init : SyncClock := ResetImpl (MkSync 0 0 [MkDirty 0 0; MkDirty 0 0] 0 0 0 0).

Definition SyncClock_destroy (s : SyncClock) : res unit :=
  _ ← CHECK (s.(size_) =? 0);
  _ ← CHECK (s.(blocks_) =? 0);
  _ ← CHECK (s.(tab_) =? 0);
  CHECK (s.(tab_idx_) =? 0).

Section SyncClock.
Context {A C : Type} `{SlabOps A C}.
Implicit Types (a : A) (h : A * C) (s : SyncClock).

(** A change of one block. *)
Definition on_block a (p : Z) (f : block -> res block) : res A :=
  b ← sl_load a p;
  b ← f b;
  sl_store a p b.

Definition ref_load a (tab : Z) : res Z :=
  b ← sl_load a tab;
  aget b kRefIdx.

Definition ref_store a (tab v : Z) : res A := on_block a tab (fun b => aset b kRefIdx (wrap 32 v)).

(** [for (i = 0; i < blocks; i++)] *)
Fixpoint free_blocks (n : nat) (i idx : Z) h : res (A * C) :=
  match n with
  | O => Ok h
  | S n =>
    cb ← sl_load h.1 idx;
    x ← aget cb (kBlockIdx - i);
    h ← sl_free h.1 h.2 x;
    free_blocks n (i + 1) idx h
  end.

Definition UnrefClockBlock h (idx blocks : Z) : res (A * C) :=
  v ← ref_load h.1 idx;
  _ ← CHECK (0 <? v);
  if v =? 1 then
    h ← free_blocks (Z.to_nat blocks) 0 idx h;
    sl_free h.1 h.2 idx
  else
    a ← ref_store h.1 idx (v - 1);
    Ok (a, h.2).

Definition Reset s h : res (SyncClock * (A * C)) :=
  h ← (if negb (s.(size_) =? 0) then UnrefClockBlock h s.(tab_idx_) s.(blocks_) else Ok h);
  Ok (ResetImpl s, h).

Definition get_block s a (bi : Z) : res Z :=
  b ← sl_load a s.(tab_);
  aget b (kBlockIdx - bi).

Definition append_block s a (idx : Z) : res (SyncClock * A) :=
  let bi := s.(blocks_) in
  let s := set_tab s s.(tab_) s.(tab_idx_) s.(size_) (wrap 16 (bi + 1)) in
  x ← get_block s a bi;
  _ ← CHECK (x =? 0);
  a ← on_block a s.(tab_) (fun b => aset b (kBlockIdx - bi) idx);
  Ok (s, a).

Definition capacity s : res Z :=
  if s.(size_) =? 0 then Ok 0 else
  let ratio := 2 in
  r ← RoundUpTo (s.(blocks_) + 1) ratio;
  let top := kClockCount - r / ratio in
  Ok (s.(blocks_) * kClockCount + top).

(** The block and the place in it of an element. *)
Definition elem s a (tid : Z) : res (Z * Z) :=
  let block := tid / kClockCount in
  let tid := tid mod kClockCount in
  if block =? s.(blocks_) then Ok (s.(tab_), tid)
  else idx ← get_block s a block; Ok (idx, tid).

Definition read a (p : Z * Z) : res ClockElem :=
  b ← sl_load a p.1;
  clock_get b p.2.

Definition write a (p : Z * Z) (e : ClockElem) : res A := on_block a p.1 (fun b => clock_set b p.2 e).

Definition write_epoch a (p : Z * Z) (v : Z) : res A :=
  e ← read a p;
  write a p (MkElem v e.(reused)).

Definition write_reused a (p : Z * Z) (v : Z) : res A :=
  e ← read a p;
  write a p (MkElem e.(epoch) v).

Definition get_clean s a (tid : Z) : res Z :=
  p ← elem s a tid;
  e ← read a p;
  Ok e.(epoch).

Fixpoint find_dirty (l : list Dirty) (tid : Z) : option Z :=
  match l with
  | [] => None
  | d :: l => if d.(d_tid) =? tid then Some d.(d_epoch) else find_dirty l tid
  end.

Definition get s a (tid : Z) : res Z :=
  match find_dirty s.(dirty_) tid with
  | Some e => Ok e
  | None => get_clean s a tid
  end.

(** *** The iterator

    [pos_] and [end_] point into one block. *)

Record Iter : Type := MkIter {
  parent_ : bool;
  it_base : Z;
  it_pos : Z;
  it_end : Z;
  block_ : Z;
}.

Definition Next s a (it : Iter) : res Iter :=
  let block := it.(block_) + 1 in
  let count := Z.min (wrap 64 (s.(size_) - block * kClockCount)) kClockCount in
  if block <? s.(blocks_) then
    idx ← get_block s a block;
    Ok (MkIter true idx 0 count block)
  else if (block =? s.(blocks_)) && (s.(blocks_) * kClockCount <? s.(size_)) then
    Ok (MkIter true s.(tab_) 0 count block)
  else Ok (MkIter false it.(it_base) it.(it_pos) it.(it_end) block).

Definition begin s a : res Iter := Next s a (MkIter true 0 0 0 (-1)).

(** [operator++] *)
Definition increment s a (it : Iter) : res Iter :=
  let it := MkIter it.(parent_) it.(it_base) (it.(it_pos) + 1) it.(it_end) it.(block_) in
  if it.(it_end) <=? it.(it_pos) then Next s a it else Ok it.

(** [for (ClockElem &ce : *s)] *)
Fixpoint for_elems {X : Type} (fuel : nat) s (body : Z * Z -> A -> X -> res (A * X)) (it : Iter) a (x : X) : res (A * X) :=
  match fuel with
  | O => Err EHang
  | S fuel =>
    if it.(parent_) then
      '(a, x) ← body (it.(it_base), it.(it_pos)) a x;
      it ← increment s a it;
      for_elems fuel s body it a x
    else Ok (a, x)
  end.

Definition for_each {X : Type} s (body : Z * Z -> A -> X -> res (A * X)) a (x : X) : res (A * X) :=
  it ← begin s a;
  for_elems (S (Z.to_nat s.(size_))) s body it a x.

(** *** Sharing and growth *)

Definition IsShared s a : res bool :=
  if s.(size_) =? 0 then Ok false else
  v ← ref_load a s.(tab_);
  _ ← CHECK (0 <? v);
  Ok (1 <? v).

Definition Unshare_with (Resize : SyncClock -> A * C -> Z -> res (SyncClock * (A * C))) s h : res (SyncClock * (A * C)) :=
  b ← IsShared s h.1;
  if negb b then Ok (s, h) else
  let old := s in
  let s := ResetImpl s in
  '(s, h) ← Resize s h old.(size_);
  old_iter ← begin old h.1;
  '(a, _) ← for_each s (fun p a old_iter =>
    e ← read a (old_iter.(it_base), old_iter.(it_pos));
    a ← write a p e;
    old_iter ← increment old a old_iter;
    Ok (a, old_iter)) h.1 old_iter;
  let s := set_release_store s old.(release_store_tid_) old.(release_store_reused_) in
  let s := set_dirty s old.(dirty_) in
  '(old, h) ← Reset old (a, h.2);
  _ ← SyncClock_destroy old;
  Ok (s, h).

(** [while (nclk > capacity())] *)
Fixpoint add_blocks (fuel : nat) s h (nclk : Z) : res (SyncClock * (A * C)) :=
  match fuel with
  | O => Err EHang
  | S fuel =>
    cap ← capacity s;
    if cap <? nclk then
      '(idx, h) ← sl_alloc h.1 h.2;
      a ← on_block h.1 idx (fun b => zero_words b 0 kTableSize);
      '(s, a) ← append_block s a idx;
      add_blocks fuel s (a, h.2) nclk
    else Ok (s, h)
  end.

(** The first-level table of a clock that has none. *)
Definition first_table s h : res (SyncClock * (A * C)) :=
  _ ← SyncClock_destroy s;
  '(idx, h) ← sl_alloc h.1 h.2;
  a ← on_block h.1 idx (fun b => zero_words b 0 kTableSize);
  a ← ref_store a idx 1;
  Ok (set_tab s idx idx 1 s.(blocks_), (a, h.2)).

(** The elements of the first-level block move to a new block. *)
Definition evacuate s h : res (SyncClock * (A * C)) :=
  '(idx, h) ← sl_alloc h.1 h.2;
  let top := s.(size_) - s.(blocks_) * kClockCount in
  _ ← CHECK (top <? kClockCount);
  let move := 2 * top in
  tab ← sl_load h.1 s.(tab_);
  a ← on_block h.1 idx (fun b => b ← copy_words b tab move; zero_words b move (kTableSize - move));
  a ← on_block a s.(tab_) (fun b => zero_words b 0 move);
  '(s, a) ← append_block s a idx;
  Ok (s, (a, h.2)).

Fixpoint Resize_fuel (fuel : nat) s h (nclk : Z) : res (SyncClock * (A * C)) :=
  match fuel with
  | O => Err EHang
  | S fuel =>
    '(s, h) ← Unshare_with (Resize_fuel fuel) s h;
    cap ← capacity s;
    if nclk <=? cap then Ok (set_size s nclk, h) else
    '(s, h) ← (if s.(size_) =? 0 then first_table s h
              else if s.(blocks_) * kClockCount <? s.(size_) then evacuate s h
              else Ok (s, h));
    '(s, h) ← add_blocks (Z.to_nat kTableSize) s h nclk;
    Ok (set_size s nclk, h)
  end.

(** [Unshare] calls [Resize] on an empty clock, which has nothing to unshare. *)
Definition Resize s h (nclk : Z) : res (SyncClock * (A * C)) := Resize_fuel 2 s h nclk.

Definition Unshare s h : res (SyncClock * (A * C)) := Unshare_with Resize s h.

(** *** Dirty entries *)

Definition FlushDirty s a : res (SyncClock * A) :=
  a ← foldM (fun d a =>
    if negb (d.(d_tid) =? kInvalidTid) then
      _ ← CHECK (d.(d_tid) <? s.(size_));
      p ← elem s a d.(d_tid);
      write_epoch a p d.(d_epoch)
    else Ok a) s.(dirty_) a;
  Ok (set_dirty s (no_dirty <$> s.(dirty_)), a).

Definition Cachable s a : res bool :=
  if s.(size_) =? 0 then Ok false else
  if existsb (fun d => negb (d.(d_tid) =? kInvalidTid)) s.(dirty_) then Ok false else
  v ← ref_load a s.(tab_);
  Ok (v =? 1).
End SyncClock.
