(* ===== verification/ClockTable.v ===== *)
(** * The tables of clocks in the allocator's blocks

    A table of a [SyncClock] (SyncClock.v) as a value: its second-level
    blocks, its reference count and its elements; and the blocks that
    represent it.  A set of blocks in use is a list of indices with contents,
    up to the order, which is split and joined like the assertions of a
    separation logic.

    Shown: what each operation on the blocks does to the tables: reading and
    writing an element, taking and dropping references, growing, and copying a
    shared table.  No operation reaches outside a block, and every block that
    no table uses is free. *)
From stdpp Require Import base numbers list gmap.
From Stdlib Require Import ZArith Lia.
From S2P Require Import Prelude Bits DenseAlloc SyncClock.

Local Open Scope Z_scope.

(** ** Blocks in use *)

Class ClockBlocks (A C : Type) `{SlabLaws A C} : Prop := clock_words : sl_words = kTableSize.

Section Heap.
Context {A C : Type} `{ClockBlocks A C}.
Implicit Types (a : A) (c : C) (cs : gmap Z C) (l : list (Z * block)).

Definition heap a cs l : Prop := exists live, sl_inv a cs live /\ map_to_list live ≡ₚ l.

#[export] Instance heap_proper a cs : Proper ((≡ₚ) ==> iff) (heap a cs).
Proof. intros l l' E. unfold heap. by setoid_rewrite E. Qed.

Lemma heap_lookup a cs l p b : heap a cs l -> (p, b) ∈ l -> exists live, sl_inv a cs live /\ live !! p = Some b.
Proof. intros (live & Hi & E) Hin. exists live. split; [done|]. rewrite <- E in Hin. by apply elem_of_map_to_list in Hin. Qed.

Lemma heap_load a cs l p b : heap a cs l -> (p, b) ∈ l -> sl_load a p = Ok b /\ zlen b = kTableSize /\ 0 < p < 2 ^ 32.
Proof.
  intros Hh Hin. destruct (heap_lookup a cs l p b Hh Hin) as (live & Hi & E). split; [by apply (sl_load_ok _ cs live)|].
  split; [rewrite <- clock_words; by apply (sl_shape a cs live p)|by apply (sl_index a cs live p b)].
Qed.

Lemma heap_nodup a cs l : heap a cs l -> NoDup l.*1.
Proof. intros (live & _ & <-). apply NoDup_fst_map_to_list. Qed.

Lemma heap_cons_lookup live p b l : map_to_list live ≡ₚ (p, b) :: l -> live !! p = Some b.
Proof. intros E. apply elem_of_map_to_list. rewrite E. left. Qed.

Lemma heap_cons_delete live p b l : map_to_list live ≡ₚ (p, b) :: l -> map_to_list (delete p live : gmap Z block) ≡ₚ l.
Proof. intros E. apply (Permutation_cons_inv (a := (p, b))). rewrite map_to_list_delete; [done|]. by apply (heap_cons_lookup _ _ _ l). Qed.

Lemma heap_store a cs p b b' l : heap a cs ((p, b) :: l) -> zlen b' = kTableSize -> exists a', sl_store a p b' = Ok a' /\ heap a' cs ((p, b') :: l).
Proof.
  intros (live & Hi & E) Hb. destruct (sl_store_ok a cs live p b b' Hi) as (a' & -> & Hi'); [by apply (heap_cons_lookup _ _ _ l)|by rewrite clock_words|].
  exists a'. split; [done|]. eexists. split; [done|]. rewrite <- insert_delete_eq, map_to_list_insert by apply lookup_delete_eq. by rewrite (heap_cons_delete live p b l).
Qed.

Lemma heap_on_block a cs p b b' l f : heap a cs ((p, b) :: l) -> f b = Ok b' -> zlen b' = kTableSize -> exists a', on_block a p f = Ok a' /\ heap a' cs ((p, b') :: l).
Proof.
  intros Hh Ef Hb. destruct (heap_load a cs _ p b Hh) as (E & _); [left|]. unfold on_block. rewrite E, bind_ok, Ef, bind_ok. by apply (heap_store a cs p b).
Qed.

Lemma heap_alloc a cs k c l :
  heap a cs l -> cs !! k = Some c -> zlen l + 128 * Z.of_nat (size cs) < sl_limit ->
  exists i b a' c', sl_alloc a c = Ok (i, (a', c')) /\ i <> 0 /\ zlen b = kTableSize /\ heap a' (<[k := c']> cs) ((i, b) :: l).
Proof.
  intros (live & Hi & E) Hc Hroom. destruct (sl_alloc_ok a cs live k c Hi Hc) as (i & b & a' & c' & Ea & Hi0 & Hn & Hi').
  { rewrite <- length_map_to_list, E. done. }
  exists i, b, a', c'. split; [done|]. split; [done|]. split.
  - rewrite <- clock_words. apply (sl_shape a' _ _ i b Hi'). apply lookup_insert_eq.
  - eexists. split; [done|]. by rewrite map_to_list_insert, E.
Qed.

Lemma heap_free a cs k c p b l : heap a cs ((p, b) :: l) -> cs !! k = Some c -> exists a' c', sl_free a c p = Ok (a', c') /\ heap a' (<[k := c']> cs) l.
Proof.
  intros (live & Hi & E) Hc. destruct (sl_free_ok a cs live k c p b Hi Hc) as (a' & c' & Ef & Hi'); [by apply (heap_cons_lookup _ _ _ l)|].
  exists a', c'. split; [done|]. eexists. split; [done|]. by apply (heap_cons_delete live p b l).
Qed.
End Heap.

(** ** Elements as words *)

Definition elem_ok (e : ClockElem) : Prop := 0 <= e.(epoch) < 2 ^ 42 /\ 0 <= e.(reused) < 2 ^ 22.

Definition elem_words (e : ClockElem) : list Z := [wrap 32 (elem_bits e); Z.shiftr (elem_bits e) 32].

Lemma elem_bits_val e : elem_ok e -> elem_bits e = e.(epoch) + 2 ^ 42 * e.(reused).
Proof.
  intros [He Hr]. unfold elem_bits, kClkBits, wrap. rewrite !Z.mod_small by lia. rewrite Z.shiftl_mul_pow2 by lia.
  pose proof (Z.add_lor_land e.(epoch) (e.(reused) * 2 ^ 42)) as Hadd. assert (Z.land e.(epoch) (e.(reused) * 2 ^ 42) = 0) as El; [|rewrite El in Hadd; lia].
  apply Z.bits_inj'. intros n Hn. rewrite Z.land_spec, Z.bits_0. destruct (Z.lt_ge_cases n 42).
  - rewrite Z.mul_pow2_bits_low by lia. by rewrite andb_false_r.
  - rewrite (Z.bits_above_log2 e.(epoch) n); [done|lia|]. destruct (Z.eq_dec e.(epoch) 0) as [->|]; [cbn; lia|]. apply Z.log2_lt_pow2; [lia|].
    apply Z.lt_le_trans with (2 ^ 42); [lia|]. apply Z.pow_le_mono_r; lia.
Qed.

Lemma words_elem e : elem_ok e -> bits_elem (Z.lor (wrap 32 (elem_bits e)) (Z.shiftl (Z.shiftr (elem_bits e) 32) 32)) = e.
Proof.
  intros He. replace (Z.lor _ _) with (elem_bits e).
  - rewrite elem_bits_val by done. destruct e as [ep re], He as [H1 H2]. cbn [epoch reused] in *. unfold bits_elem, kClkBits, wrap. f_equal.
    + rewrite Z.mul_comm, Z.mod_add by lia. apply Z.mod_small. lia.
    + rewrite Z.shiftr_div_pow2, Z.mul_comm, Z.div_add, Z.div_small by lia. lia.
  - apply Z.bits_inj'. intros n Hn. unfold wrap. rewrite Z.lor_spec. destruct (Z.lt_ge_cases n 32).
    + rewrite Z.mod_pow2_bits_low, Z.shiftl_spec_low by lia. by rewrite orb_false_r.
    + rewrite Z.mod_pow2_bits_high, Z.shiftl_spec, Z.shiftr_spec by lia. cbn. f_equal. lia.
Qed.

Definition zero_elem : ClockElem := MkElem 0 0.

#[export] Instance elem_inhabited : Inhabited ClockElem := populate zero_elem.

Definition clk_words (vs : list ClockElem) : list Z := vs ≫= elem_words.

Lemma clk_words_length vs : length (clk_words vs) = (2 * length vs)%nat.
Proof. induction vs as [|e vs IH]; [done|]. unfold clk_words in *. rewrite bind_cons, length_app, IH. cbn. lia. Qed.

Lemma clk_words_zeros n : clk_words (replicate n zero_elem) = replicate (2 * n) 0.
Proof. induction n as [|n IH]; [done|]. replace (2 * S n)%nat with (S (S (2 * n))) by lia. unfold clk_words in *. cbn [replicate]. by rewrite bind_cons, IH. Qed.

Lemma clk_words_get vs z i e : vs !! i = Some e -> (clk_words vs ++ z) !! (2 * i)%nat = Some (wrap 32 (elem_bits e)) /\ (clk_words vs ++ z) !! (2 * i + 1)%nat = Some (Z.shiftr (elem_bits e) 32).
Proof.
  revert i. induction vs as [|x vs IH]; intros i Hi; [done|]. destruct i as [|i]; cbn in Hi.
  - injection Hi as ->. done.
  - replace (2 * S i + 1)%nat with (S (S (2 * i + 1))) by lia. replace (2 * S i)%nat with (S (S (2 * i))) by lia. by apply IH.
Qed.

Lemma clk_words_set vs z i e : (i < length vs)%nat ->
  <[(2 * i + 1)%nat := Z.shiftr (elem_bits e) 32]> (<[(2 * i)%nat := wrap 32 (elem_bits e)]> (clk_words vs ++ z)) = clk_words (<[i := e]> vs) ++ z.
Proof.
  revert i. induction vs as [|x vs IH]; intros i Hi; [cbn in Hi; lia|]. destruct i as [|i]; [done|].
  replace (2 * S i + 1)%nat with (S (S (2 * i + 1))) by lia. replace (2 * S i)%nat with (S (S (2 * i))) by lia. change (clk_words (x :: vs)) with (elem_words x ++ clk_words vs).
  unfold elem_words at 1. cbn [app]. cbn [insert list_insert]. change (list_insert ?k ?x ?l) with (<[k := x]> l). rewrite IH by (cbn in Hi; lia). done.
Qed.

Lemma clock_get_words vs z i e : vs !! Z.to_nat i = Some e -> 0 <= i -> elem_ok e -> clock_get (clk_words vs ++ z) i = Ok e.
Proof.
  intros Hi H0 He. destruct (clk_words_get vs z _ _ Hi) as [E1 E2]. unfold clock_get. rewrite (aget_lookup _ (2 * i) (wrap 32 (elem_bits e))), bind_ok; [|lia|].
  - rewrite (aget_lookup _ (2 * i + 1) (Z.shiftr (elem_bits e) 32)), bind_ok; [by rewrite words_elem|lia|]. rewrite <- E2. f_equal. lia.
  - rewrite <- E1. f_equal. lia.
Qed.

Lemma clock_set_words vs z i e : 0 <= i < zlen vs -> clock_set (clk_words vs ++ z) i e = Ok (clk_words (<[Z.to_nat i := e]> vs) ++ z).
Proof.
  intros Hi. unfold clock_set, zlen in *. rewrite aset_ok, bind_ok; [|unfold zlen; rewrite length_app, clk_words_length; lia].
  rewrite aset_ok; [|rewrite zlen_insert; unfold zlen; rewrite length_app, clk_words_length; lia].
  rewrite <- clk_words_set by lia. do 3 f_equal; [lia|]. f_equal; lia.
Qed.

(** ** Tables as values *)

Record table : Type := MkTable {
  ids : list Z;
  refc : Z;
  vals : list ClockElem;
}.

Definition pad (n : nat) (l : list Z) : list Z := l ++ replicate (n - length l) 0.

(** The elements of the second-level block [j], and of the first-level block. *)
Definition chunk (j : nat) (vs : list ClockElem) : list ClockElem := take 64 (drop (64 * j) vs).

Definition tail_vals (t : table) : list ClockElem := drop (64 * length t.(ids)) t.(vals).

Definition data_block (vs : list ClockElem) : block := pad 128 (clk_words vs).

Definition top_block (t : table) : block := pad (127 - length t.(ids)) (clk_words (tail_vals t)) ++ reverse t.(ids) ++ [t.(refc)].

Definition data_piece (t : table) (j : nat) : Z * block := (t.(ids) !!! j, data_block (chunk j t.(vals))).

(** The blocks of the table with the first-level block [i]. *)
Definition pieces (i : Z) (t : table) : list (Z * block) := (i, top_block t) :: (data_piece t <$> seq 0 (length t.(ids))).

(** How many elements fit in with [n] second-level blocks. *)
Definition cap (n : Z) : Z := 64 * n + 64 - (n + 2) / 2.

Definition table_shape (t : table) : Prop :=
  zlen t.(ids) <= 127 /\ zlen t.(vals) <= cap (zlen t.(ids)) /\ Forall elem_ok t.(vals) /\ 0 < t.(refc) < 2 ^ 32.

Definition table_ok (t : table) : Prop := table_shape t /\ 0 < zlen t.(vals) /\ 64 * (zlen t.(ids) - 1) < zlen t.(vals).

Definition set_val (t : table) (k : Z) (e : ClockElem) : table := MkTable t.(ids) t.(refc) (<[Z.to_nat k := e]> t.(vals)).

Definition set_ref (t : table) (r : Z) : table := MkTable t.(ids) r t.(vals).

(** Where an element is. *)
Definition addr (i : Z) (t : table) (k : Z) : Z * Z :=
  (if k / 64 =? zlen t.(ids) then i else t.(ids) !!! Z.to_nat (k / 64), k mod 64).

Lemma cap_bounds n : 0 <= n <= 127 -> 64 * n <= cap n /\ 2 * (cap n - 64 * n) <= 127 - n /\ cap n < 64 * n + 64 /\ 64 * n < cap (n + 1).
Proof. intros Hn. unfold cap. pose proof (Z.div_mod (n + 2) 2 ltac:(lia)). pose proof (Z.mod_pos_bound (n + 2) 2 ltac:(lia)). pose proof (Z.div_mod (n + 1 + 2) 2 ltac:(lia)). pose proof (Z.mod_pos_bound (n + 1 + 2) 2 ltac:(lia)). lia. Qed.

Lemma lookup_chunk j vs r : chunk j vs !! r = if decide (r < 64)%nat then vs !! (64 * j + r)%nat else None.
Proof. unfold chunk. destruct (decide _); [rewrite lookup_take_lt by done|apply lookup_take_ge; lia]. by rewrite lookup_drop. Qed.

Lemma chunk_length j vs : (length (chunk j vs) <= 64)%nat.
Proof. unfold chunk. rewrite length_take. lia. Qed.

Lemma chunk_insert j vs k e : (k < length vs)%nat -> chunk j (<[k := e]> vs) = if decide (k / 64 = j)%nat then <[(k mod 64)%nat := e]> (chunk j vs) else chunk j vs.
Proof.
  intros Hk. pose proof (Nat.div_mod_eq k 64) as Ek. pose proof (Nat.mod_upper_bound k 64 ltac:(lia)) as Hm. apply list_eq. intros r. destruct (decide (k / 64 = j)%nat) as [Ej|Hj].
  - destruct (decide (r = k mod 64)%nat) as [->|Hr].
    + rewrite list_lookup_insert_eq, lookup_chunk, decide_True by (done || unfold chunk; rewrite length_take, length_drop; lia). rewrite <- Ej, <- Ek. by apply list_lookup_insert_eq.
    + rewrite list_lookup_insert_ne, !lookup_chunk by done. destruct (decide _); [|done]. apply list_lookup_insert_ne. lia.
  - rewrite !lookup_chunk. destruct (decide _); [|done]. apply list_lookup_insert_ne. intros ->. apply Hj. rewrite Nat.mul_comm, Nat.div_add_l, Nat.div_small by lia. lia.
Qed.

Lemma pad_length n l : (length l <= n)%nat -> length (pad n l) = n.
Proof. intros Hl. unfold pad. rewrite length_app, length_replicate. lia. Qed.

Lemma data_block_length vs : (length vs <= 64)%nat -> zlen (data_block vs) = kTableSize.
Proof. intros Hl. unfold zlen, data_block. rewrite pad_length; [done|]. rewrite clk_words_length. lia. Qed.

Lemma tail_length t : table_shape t -> zlen (tail_vals t) = Z.max 0 (zlen t.(vals) - 64 * zlen t.(ids)) /\ 2 * zlen (tail_vals t) <= 127 - zlen t.(ids).
Proof.
  intros (Hn & Hv & _). pose proof (cap_bounds (zlen t.(ids)) ltac:(unfold zlen in *; lia)) as (? & ? & ?). unfold zlen, tail_vals in *. rewrite length_drop. lia.
Qed.

Lemma top_block_length t : table_shape t -> zlen (top_block t) = kTableSize.
Proof.
  intros Ht. pose proof (tail_length t Ht) as [_ Hl]. destruct Ht as (Hn & _). unfold top_block, zlen in *.
  rewrite !length_app, length_reverse, pad_length by (rewrite clk_words_length; lia). cbn. unfold kTableSize. lia.
Qed.

Lemma seq_focus n q : (q < n)%nat -> seq 0 n ≡ₚ q :: filter (fun j => j <> q) (seq 0 n).
Proof.
  intros Hq. apply NoDup_Permutation.
  - apply NoDup_seq.
  - apply NoDup_cons. split; [rewrite list_elem_of_filter; tauto|]. apply NoDup_filter, NoDup_seq.
  - intros j. rewrite elem_of_cons, list_elem_of_filter, elem_of_seq. destruct (decide (j = q)); intuition lia.
Qed.

(** The blocks without the one of the element [k]. *)
Definition others (i : Z) (t : table) (k : Z) : list (Z * block) :=
  if k / 64 =? zlen t.(ids) then data_piece t <$> seq 0 (length t.(ids))
  else (i, top_block t) :: (data_piece t <$> filter (fun j => j <> Z.to_nat (k / 64)) (seq 0 (length t.(ids)))).

Definition block_of (t : table) (k : Z) : block :=
  if k / 64 =? zlen t.(ids) then top_block t else data_block (chunk (Z.to_nat (k / 64)) t.(vals)).

Lemma row_range t k : table_shape t -> 0 <= k < zlen t.(vals) -> 0 <= k / 64 <= zlen t.(ids).
Proof.
  intros (Hn & Hv & _) Hk. pose proof (cap_bounds (zlen t.(ids)) ltac:(unfold zlen in *; lia)). split; [apply Z.div_pos; lia|].
  cut (k / 64 < zlen t.(ids) + 1); [lia|]. apply Z.div_lt_upper_bound; lia.
Qed.

Lemma pieces_focus i t k : table_shape t -> 0 <= k < zlen t.(vals) -> pieces i t ≡ₚ ((addr i t k).1, block_of t k) :: others i t k.
Proof.
  intros Ht Hk. pose proof (row_range t k Ht Hk). unfold pieces, addr, block_of, others. destruct (Z.eqb_spec (k / 64) (zlen t.(ids))) as [E|Hne]; [done|].
  rewrite (seq_focus _ (Z.to_nat (k / 64))) at 1 by (unfold zlen in *; lia). rewrite fmap_cons. apply Permutation_swap.
Qed.

Lemma Z_to_nat_div64 k : 0 <= k -> Z.to_nat (k / 64) = (Z.to_nat k / 64)%nat /\ Z.to_nat (k mod 64) = (Z.to_nat k mod 64)%nat.
Proof. intros Hk. split; [apply (Z2Nat.inj_div k 64); lia|apply (Z2Nat.inj_mod k 64); lia]. Qed.

Lemma block_of_words t k : table_shape t -> 0 <= k < zlen t.(vals) ->
  exists vs z, block_of t k = clk_words vs ++ z /\ vs !! Z.to_nat (k mod 64) = t.(vals) !! Z.to_nat k /\
    forall e, block_of (set_val t k e) k = clk_words (<[Z.to_nat (k mod 64) := e]> vs) ++ z.
Proof.
  intros Ht Hk. pose proof (row_range t k Ht Hk) as Hr. destruct (Z_to_nat_div64 k ltac:(lia)) as [E1 E2]. pose proof (Z.div_mod k 64 ltac:(lia)). pose proof (Z.mod_pos_bound k 64 ltac:(lia)).
  unfold block_of. cbn [ids set_val]. unfold zlen in *. destruct (Z.eqb_spec (k / 64) (Z.of_nat (length t.(ids)))) as [E|Hne].
  - eexists (tail_vals t), _. split; [unfold top_block, pad; by rewrite <- app_assoc|]. split; [unfold tail_vals; rewrite lookup_drop; f_equal; lia|].
    intros e. unfold top_block, tail_vals, pad. cbn [ids refc vals set_val]. rewrite drop_insert_ge by lia. rewrite <- app_assoc, !clk_words_length, length_insert. do 3 f_equal. lia.
  - eexists (chunk (Z.to_nat (k / 64)) t.(vals)), _. split; [done|]. split; [rewrite lookup_chunk, decide_True by lia; f_equal; lia|].
    intros e. unfold data_block, pad. cbn [vals set_val]. rewrite chunk_insert by lia. rewrite decide_True by lia. rewrite E2, !clk_words_length, length_insert. done.
Qed.

Lemma others_set i t k e : table_shape t -> 0 <= k < zlen t.(vals) -> others i (set_val t k e) k = others i t k.
Proof.
  intros Ht Hk. pose proof (row_range t k Ht Hk) as Hr. destruct (Z_to_nat_div64 k ltac:(lia)) as [E1 _]. unfold others. cbn [ids set_val]. unfold zlen in *.
  assert (Hp : forall j, j <> (Z.to_nat k / 64)%nat -> data_piece (set_val t k e) j = data_piece t j).
  { intros j Hj. unfold data_piece. cbn [ids vals set_val]. rewrite chunk_insert by lia. by rewrite decide_False by congruence. }
  destruct (Z.eqb_spec (k / 64) (Z.of_nat (length t.(ids)))) as [E|Hne].
  - apply list_fmap_ext. intros _ j Hj%list_elem_of_lookup_2. apply elem_of_seq in Hj. apply Hp. lia.
  - f_equal.
    + f_equal. unfold top_block, tail_vals. cbn [ids refc vals set_val]. rewrite drop_insert_lt; [done|]. pose proof (Z.div_mod k 64 ltac:(lia)). pose proof (Z.mod_pos_bound k 64 ltac:(lia)). lia.
    + apply list_fmap_ext. intros _ j Hj%list_elem_of_lookup_2. apply list_elem_of_filter in Hj as [Hj _]. apply Hp. congruence.
Qed.

Lemma set_val_shape t k e : table_shape t -> elem_ok e -> table_shape (set_val t k e).
Proof. intros (Hn & Hv & Hf & Hr) He. split; [done|]. cbn [vals ids refc set_val]. rewrite zlen_insert. split; [done|]. split; [by apply Forall_insert|done]. Qed.

Lemma set_val_ok t k e : table_ok t -> elem_ok e -> table_ok (set_val t k e).
Proof. intros (Hs & Hv & Hb) He. split; [by apply set_val_shape|]. cbn [vals ids set_val]. by rewrite zlen_insert. Qed.

(** ** The words of a first-level block *)

Lemma top_block_split t : table_shape t -> length (pad (127 - length t.(ids)) (clk_words (tail_vals t))) = (127 - length t.(ids))%nat /\ (length t.(ids) <= 127)%nat.
Proof. intros Ht. pose proof (tail_length t Ht) as [_ Hl]. destruct Ht as (Hn & _). unfold zlen in *. split; [apply pad_length; rewrite clk_words_length; lia|lia]. Qed.

Lemma top_ref t : table_shape t -> top_block t !! 127%nat = Some t.(refc).
Proof.
  intros Ht. destruct (top_block_split t Ht) as [Hp Hn]. unfold top_block. rewrite app_assoc, lookup_app_r; rewrite length_app, length_reverse, Hp; [|lia].
  by replace (127 - _)%nat with 0%nat by lia.
Qed.

Lemma top_set_ref t r : table_shape t -> <[127%nat := r]> (top_block t) = top_block (set_ref t r).
Proof.
  intros Ht. destruct (top_block_split t Ht) as [Hp Hn]. unfold top_block. cbn [ids refc vals set_ref tail_vals]. unfold tail_vals in *. cbn [ids vals set_ref].
  rewrite !app_assoc, insert_app_r_alt; rewrite length_app, length_reverse, Hp; [|lia]. by replace (127 - (127 - length t.(ids) + length t.(ids)))%nat with 0%nat by lia.
Qed.

Lemma top_id t j : table_shape t -> (j < length t.(ids))%nat -> top_block t !! (126 - j)%nat = Some (t.(ids) !!! j).
Proof.
  intros Ht Hj. destruct (top_block_split t Ht) as [Hp Hn]. unfold top_block. rewrite lookup_app_r by lia. rewrite Hp, lookup_app_l by (rewrite length_reverse; lia).
  rewrite reverse_lookup by lia. replace (length t.(ids) - S (126 - j - (127 - length t.(ids))))%nat with j by lia. by apply list_lookup_lookup_total_lt.
Qed.

(** A block index in a table whose elements are all in second-level blocks. *)
Lemma top_append t x : table_shape t -> (length t.(ids) < 127)%nat -> tail_vals t = [] ->
  top_block t !! (126 - length t.(ids))%nat = Some 0 /\
  forall t', t' = MkTable (t.(ids) ++ [x]) t.(refc) t.(vals) -> <[(126 - length t.(ids))%nat := x]> (top_block t) = top_block t'.
Proof.
  intros Ht Hn Htail. assert (Hz : forall n, pad n (clk_words []) = replicate n 0) by (intros n; unfold pad; cbn; by rewrite Nat.sub_0_r).
  unfold top_block. rewrite Htail, Hz. split.
  - rewrite lookup_app_l by (rewrite length_replicate; lia). apply lookup_replicate. split; [done|lia].
  - intros t' ->. assert (tail_vals (MkTable (t.(ids) ++ [x]) t.(refc) t.(vals)) = []) as ->.
    { unfold tail_vals in *. cbn [ids vals]. rewrite length_app. cbn [length]. apply drop_ge. apply (f_equal length) in Htail. rewrite length_drop in Htail. cbn in Htail. lia. }
    cbn [ids refc]. rewrite Hz, length_app, reverse_app. cbn [length reverse rev_append app]. rewrite insert_app_l by (rewrite length_replicate; lia).
    replace (127 - length t.(ids))%nat with ((126 - length t.(ids)) + 1)%nat at 1 by lia. rewrite replicate_add, insert_app_r_alt by (rewrite length_replicate; lia).
    rewrite length_replicate, Nat.sub_diag. replace (127 - (length t.(ids) + 1))%nat with (126 - length t.(ids))%nat by lia. cbn. by rewrite <- app_assoc.
Qed.

(** ** Operations on one table *)

Section Table.
Context {A C : Type} `{ClockBlocks A C}.
Implicit Types (a : A) (c : C) (cs : gmap Z C) (s : SyncClock) (t : table) (l rest : list (Z * block)).

Lemma top_in i t rest : (i, top_block t) ∈ pieces i t ++ rest.
Proof. left. Qed.

Lemma ref_load_ok a cs i t rest : heap a cs (pieces i t ++ rest) -> table_shape t -> ref_load a i = Ok t.(refc).
Proof.
  intros Hh Ht. destruct (heap_load a cs _ i (top_block t) Hh (top_in i t rest)) as (E & _). unfold ref_load. rewrite E, bind_ok. apply aget_lookup; [done|]. by apply top_ref.
Qed.

Lemma set_ref_shape t r : table_shape t -> 0 < r < 2 ^ 32 -> table_shape (set_ref t r).
Proof. intros (? & ? & ? & _) Hr. done. Qed.

Lemma ref_store_ok a cs i t r rest :
  heap a cs (pieces i t ++ rest) -> table_shape t -> 0 < r < 2 ^ 32 -> exists a', ref_store a i r = Ok a' /\ heap a' cs (pieces i (set_ref t r) ++ rest).
Proof.
  intros Hh Ht Hr. unfold ref_store. apply (heap_on_block a cs i (top_block t) (top_block (set_ref t r)) ((data_piece t <$> seq 0 (length t.(ids))) ++ rest)); [done| |].
  - rewrite aset_ok by (rewrite top_block_length by done; done). rewrite <- top_set_ref by done. unfold wrap. rewrite Z.mod_small by lia. done.
  - by apply top_block_length, set_ref_shape.
Qed.

Lemma get_block_ok a cs i t rest s j :
  heap a cs (pieces i t ++ rest) -> table_shape t -> s.(tab_) = i -> 0 <= j < zlen t.(ids) -> get_block s a j = Ok (t.(ids) !!! Z.to_nat j).
Proof.
  intros Hh Ht Es Hj. destruct (heap_load a cs _ i (top_block t) Hh (top_in i t rest)) as (E & _). unfold get_block. rewrite Es, E, bind_ok. destruct (top_block_split t Ht) as [_ Hn].
  unfold zlen in Hj. apply aget_lookup; [unfold kBlockIdx, kTableSize; lia|]. rewrite <- top_id by (done || lia). f_equal. unfold kBlockIdx, kTableSize. lia.
Qed.

Lemma elem_ok_at a cs i t rest s k :
  heap a cs (pieces i t ++ rest) -> table_shape t -> s.(tab_) = i -> s.(blocks_) = zlen t.(ids) -> 0 <= k < zlen t.(vals) -> elem s a k = Ok (addr i t k).
Proof.
  intros Hh Ht Es Eb Hk. unfold elem, addr, kClockCount. rewrite Eb, Es. pose proof (row_range t k Ht Hk). destruct (Z.eqb_spec (k / 64) (zlen t.(ids))) as [E|Hne]; [done|].
  rewrite (get_block_ok a cs i t rest) by (done || lia). done.
Qed.

Lemma read_ok a cs i t rest k e :
  heap a cs (pieces i t ++ rest) -> table_shape t -> 0 <= k -> t.(vals) !! Z.to_nat k = Some e -> read a (addr i t k) = Ok e.
Proof.
  intros Hh Ht Hk He. assert (Hlt : 0 <= k < zlen t.(vals)) by (apply lookup_lt_Some in He; unfold zlen; lia).
  rewrite (pieces_focus i t k Ht Hlt) in Hh. destruct (heap_load a cs _ (addr i t k).1 (block_of t k) Hh) as (E & _); [left|]. unfold read. rewrite E, bind_ok.
  destruct (block_of_words t k Ht Hlt) as (vs & z & -> & Ev & _). change (addr i t k).2 with (k mod 64). apply clock_get_words; [by rewrite Ev|apply Z.mod_pos_bound; lia|].
  destruct Ht as (_ & _ & Hf & _). by apply (Forall_lookup_1 _ _ _ _ Hf He).
Qed.

Lemma block_of_length t k : table_shape t -> zlen (block_of t k) = kTableSize.
Proof. intros Ht. unfold block_of. destruct (_ =? _); [by apply top_block_length|]. apply data_block_length, chunk_length. Qed.

Lemma write_ok a cs i t rest k e :
  heap a cs (pieces i t ++ rest) -> table_shape t -> 0 <= k < zlen t.(vals) -> elem_ok e ->
  exists a', write a (addr i t k) e = Ok a' /\ heap a' cs (pieces i (set_val t k e) ++ rest).
Proof.
  intros Hh Ht Hk He. rewrite (pieces_focus i t k Ht Hk) in Hh. pose proof (set_val_shape t k e Ht He) as Ht'.
  destruct (block_of_words t k Ht Hk) as (vs & z & Eb & Ev & Eset). pose proof (Z.mod_pos_bound k 64 ltac:(lia)).
  cbn [app] in Hh. destruct (heap_on_block a cs (addr i t k).1 (block_of t k) (block_of (set_val t k e) k) _ (fun b => clock_set b (k mod 64) e) Hh) as (a' & E & Hh').
  - rewrite Eset, Eb. apply clock_set_words. assert (is_Some (vs !! Z.to_nat (k mod 64))) as Hs by (rewrite Ev; apply lookup_lt_is_Some; unfold zlen in Hk; lia).
    apply lookup_lt_is_Some in Hs. unfold zlen. lia.
  - by apply block_of_length.
  - exists a'. split; [exact E|]. rewrite (pieces_focus i (set_val t k e) k) by (done || cbn [vals set_val]; rewrite zlen_insert; done). rewrite others_set by done. exact Hh'.
Qed.

Lemma write_epoch_ok a cs i t rest k e v :
  heap a cs (pieces i t ++ rest) -> table_shape t -> 0 <= k -> t.(vals) !! Z.to_nat k = Some e -> 0 <= v < 2 ^ 42 ->
  exists a', write_epoch a (addr i t k) v = Ok a' /\ heap a' cs (pieces i (set_val t k (MkElem v e.(reused))) ++ rest).
Proof.
  intros Hh Ht Hk He Hv. unfold write_epoch. rewrite (read_ok a cs i t rest k e), bind_ok by done. apply write_ok; [done|done|apply lookup_lt_Some in He; unfold zlen; lia|].
  destruct Ht as (_ & _ & Hf & _). destruct (Forall_lookup_1 _ _ _ _ Hf He). done.
Qed.

Lemma write_reused_ok a cs i t rest k e v :
  heap a cs (pieces i t ++ rest) -> table_shape t -> 0 <= k -> t.(vals) !! Z.to_nat k = Some e -> 0 <= v < 2 ^ 22 ->
  exists a', write_reused a (addr i t k) v = Ok a' /\ heap a' cs (pieces i (set_val t k (MkElem e.(epoch) v)) ++ rest).
Proof.
  intros Hh Ht Hk He Hv. unfold write_reused. rewrite (read_ok a cs i t rest k e), bind_ok by done. apply write_ok; [done|done|apply lookup_lt_Some in He; unfold zlen; lia|].
  destruct Ht as (_ & _ & Hf & _). destruct (Forall_lookup_1 _ _ _ _ Hf He). done.
Qed.

(** *** Iteration *)

(** The iterator at the element [k]. *)
Definition iter_at s i t (k : Z) (it : Iter) : Prop :=
  if k <? zlen t.(vals)
  then it.(parent_) = true /\ (it.(it_base), it.(it_pos)) = addr i t k /\ it.(block_) = k / 64 /\ it.(it_end) = Z.min (zlen t.(vals) - 64 * (k / 64)) 64
  else it.(parent_) = false.

Definition on_table s i t : Prop := s.(tab_) = i /\ s.(blocks_) = zlen t.(ids) /\ s.(size_) = zlen t.(vals).

(** [Next] at the end of the block before [b]. *)
Lemma next_at a cs i t0 t rest s b it :
  heap a cs (pieces i t0 ++ rest) -> t0.(ids) = t.(ids) -> table_shape t0 -> table_ok t -> on_table s i t -> 0 <= b <= zlen t.(ids) + 1 -> it.(block_) = b - 1 ->
  exists it', Next s a it = Ok it' /\ (64 * b < zlen t.(vals) -> iter_at s i t (64 * b) it') /\ (zlen t.(vals) <= 64 * b -> it'.(parent_) = false).
Proof.
  intros Hh Eids Ht0 ((Hn & Hv & _) & Hpos & Hlast) (Es & Eb & Ez) Hb Eit. unfold Next. rewrite Eit, Eb, Ez. replace (b - 1 + 1) with b by lia. unfold kClockCount.
  pose proof (cap_bounds (zlen t.(ids)) ltac:(unfold zlen in *; lia)) as (_ & _ & Hcap & _).
  assert (Hw : 64 * b < zlen t.(vals) -> wrap 64 (zlen t.(vals) - b * 64) = zlen t.(vals) - 64 * b) by (intros; unfold wrap; rewrite Z.mod_small; lia).
  assert (Hat : 64 * b < zlen t.(vals) -> 64 * b / 64 = b /\ (64 * b) mod 64 = 0) by (intros _; split; [rewrite Z.mul_comm; apply Z.div_mul; lia|rewrite Z.mul_comm; apply Z.mod_mul; lia]).
  assert (Hin : forall it0 : Iter, 64 * b < zlen t.(vals) -> it0.(parent_) = true -> (it0.(it_base), it0.(it_pos)) = (if b =? zlen t.(ids) then i else t.(ids) !!! Z.to_nat b, 0) -> it0.(block_) = b ->
    it0.(it_end) = Z.min (zlen t.(vals) - 64 * b) 64 -> iter_at s i t (64 * b) it0).
  { intros it0 Hlt E1 E2 E3 E4. unfold iter_at, addr. rewrite (proj2 (Z.ltb_lt _ _)) by lia. destruct (Hat Hlt) as [-> ->]. done. }
  destruct (Z.ltb_spec b (zlen t.(ids))) as [Hlt|Hge].
  - rewrite (get_block_ok a cs i t0 rest), bind_ok by (done || rewrite Eids; lia). eexists. split; [done|]. split; [|lia]. intros Hlt'. apply Hin; try done.
    + rewrite (proj2 (Z.eqb_neq _ _)) by lia. by rewrite Eids.
    + cbn [it_end]. by rewrite Hw.
  - destruct (Z.eqb_spec b (zlen t.(ids))) as [->|Hne]; cbn [andb].
    + destruct (Z.ltb_spec (zlen t.(ids) * 64) (zlen t.(vals))) as [Hlt'|Hge'].
      * eexists. split; [done|]. split; [|lia]. intros _. apply Hin; try done; [lia|by rewrite Es|]. cbn [it_end]. rewrite Hw by lia. done.
      * eexists. split; [done|]. split; [lia|done].
    + eexists. split; [done|]. split; [lia|done].
Qed.

Lemma begin_at a cs i t rest s : heap a cs (pieces i t ++ rest) -> table_ok t -> on_table s i t -> exists it, begin s a = Ok it /\ iter_at s i t 0 it.
Proof.
  intros Hh Ht Hs. pose proof Ht as (Hsh & Hpos & _). destruct (next_at a cs i t t rest s 0 (MkIter true 0 0 0 (-1)) Hh) as (it & E & Hit & _); try done; [unfold zlen; lia|].
  exists it. split; [done|]. apply Hit. lia.
Qed.

Lemma increment_at a cs i t0 t rest s k it :
  heap a cs (pieces i t0 ++ rest) -> t0.(ids) = t.(ids) -> table_shape t0 -> table_ok t -> on_table s i t -> 0 <= k < zlen t.(vals) -> iter_at s i t k it ->
  exists it', increment s a it = Ok it' /\ iter_at s i t (k + 1) it'.
Proof.
  intros Hh Eids Ht0 Ht Hs Hk Hit. pose proof (Z.div_mod k 64 ltac:(lia)) as Ek. pose proof (Z.mod_pos_bound k 64 ltac:(lia)) as Hm. pose proof (row_range t k (proj1 Ht) Hk) as Hr.
  unfold iter_at in Hit. rewrite (proj2 (Z.ltb_lt _ _)) in Hit by lia. destruct Hit as (Hp & Ha & Hb & He). unfold addr in Ha. injection Ha as Hbase Hpos. unfold increment. cbn [it_pos it_end]. rewrite Hpos, He.
  destruct (Z.leb_spec (Z.min (zlen t.(vals) - 64 * (k / 64)) 64) (k mod 64 + 1)) as [Hle|Hgt].
  - destruct (next_at a cs i t0 t rest s (k / 64 + 1) (MkIter it.(parent_) it.(it_base) (k mod 64 + 1) (Z.min (zlen t.(vals) - 64 * (k / 64)) 64) it.(block_)) Hh) as (it' & E & Hin & Hout); try done; [lia|cbn; lia|].
    exists it'. split; [done|]. destruct (Z.lt_ge_cases (64 * (k / 64 + 1)) (zlen t.(vals))) as [Hlt|Hge].
    + replace (k + 1) with (64 * (k / 64 + 1)) by lia. by apply Hin.
    + unfold iter_at. rewrite (proj2 (Z.ltb_ge _ _)) by lia. by apply Hout.
  - eexists. split; [done|]. assert ((k + 1) / 64 = k / 64 /\ (k + 1) mod 64 = k mod 64 + 1) as [E1 E2].
    { assert ((k + 1) / 64 = k / 64) as E by (symmetry; apply Z.div_unique with (k mod 64 + 1); lia). split; [done|]. rewrite Z.mod_eq, E by lia. lia. }
    unfold iter_at, addr. rewrite (proj2 (Z.ltb_lt _ _)) by lia. cbn [parent_ it_base it_pos it_end block_]. rewrite E1, E2, Hbase. done.
Qed.

(** A loop over the elements, with an invariant [P]. *)
Lemma for_elems_rule {X : Type} (P : Z -> A -> X -> Prop) cs i t s body :
  table_ok t -> on_table s i t ->
  (forall k a x, P k a x -> exists t0 rest, heap a cs (pieces i t0 ++ rest) /\ t0.(ids) = t.(ids) /\ table_shape t0) ->
  (forall k a x, 0 <= k < zlen t.(vals) -> P k a x -> exists a' x', body (addr i t k) a x = Ok (a', x') /\ P (k + 1) a' x') ->
  forall (n : nat) k it a x, Z.of_nat n = zlen t.(vals) - k -> 0 <= k -> iter_at s i t k it -> P k a x ->
    exists a' x', for_elems (S n) s body it a x = Ok (a', x') /\ P (zlen t.(vals)) a' x'.
Proof.
  intros Ht Hs Hheap Hstep. induction n as [|n IH]; intros k it a x Hn Hk Hit HP.
  - assert (k = zlen t.(vals)) as -> by lia. unfold iter_at in Hit. rewrite Z.ltb_irrefl in Hit. cbn [for_elems]. rewrite Hit. eauto.
  - change (for_elems (S (S n)) s body it a x) with (if it.(parent_) then '(a, x) ← body (it.(it_base), it.(it_pos)) a x; it ← increment s a it; for_elems (S n) s body it a x else Ok (a, x)).
    pose proof Hit as Hit0. unfold iter_at in Hit0. rewrite (proj2 (Z.ltb_lt _ _)) in Hit0 by lia. destruct Hit0 as (-> & -> & _).
    destruct (Hstep k a x ltac:(lia) HP) as (a1 & x1 & -> & HP1). rewrite bind_ok. destruct (Hheap _ _ _ HP1) as (t0 & rest & Hh & Ei & Ht0).
    destruct (increment_at a1 cs i t0 t rest s k it Hh Ei Ht0 Ht Hs ltac:(lia) Hit) as (it' & -> & Hit'). rewrite bind_ok. apply (IH (k + 1)); [lia|lia|done|done].
Qed.

Lemma for_each_rule {X : Type} (P : Z -> A -> X -> Prop) cs i t rest s body a x :
  heap a cs (pieces i t ++ rest) -> table_ok t -> on_table s i t ->
  (forall k a x, P k a x -> exists t0 rest, heap a cs (pieces i t0 ++ rest) /\ t0.(ids) = t.(ids) /\ table_shape t0) ->
  (forall k a x, 0 <= k < zlen t.(vals) -> P k a x -> exists a' x', body (addr i t k) a x = Ok (a', x') /\ P (k + 1) a' x') ->
  P 0 a x -> exists a' x', for_each s body a x = Ok (a', x') /\ P (zlen t.(vals)) a' x'.
Proof.
  intros Hh Ht Hs Hheap Hstep HP. destruct (begin_at a cs i t rest s Hh Ht Hs) as (it & Eb & Hit). unfold for_each. rewrite Eb, bind_ok. destruct Hs as (Es & Ebl & Ez).
  apply (for_elems_rule P cs i t s body Ht (conj Es (conj Ebl Ez)) Hheap Hstep (Z.to_nat s.(size_)) 0); [unfold zlen in *; lia|lia|done|done].
Qed.

(** *** Dropping a reference *)

Lemma free_blocks_ok k i t rest n : forall j a c cs,
  table_shape t -> (j + n = length t.(ids))%nat -> cs !! k = Some c -> heap a cs ((i, top_block t) :: (data_piece t <$> seq j n) ++ rest) ->
  exists a' c', free_blocks n (Z.of_nat j) i (a, c) = Ok (a', c') /\ heap a' (<[k := c']> cs) ((i, top_block t) :: rest).
Proof.
  induction n as [|n IH]; intros j a c cs Ht Hj Hc Hh; cbn [free_blocks].
  { exists a, c. split; [done|]. rewrite insert_id by done. done. }
  cbn [fst snd]. destruct (heap_load a cs _ i (top_block t) Hh) as (E & _); [left|]. rewrite E, bind_ok.
  rewrite (aget_lookup _ _ (t.(ids) !!! j)), bind_ok; [|destruct (top_block_split t Ht); unfold kBlockIdx, kTableSize; lia|].
  2:{ rewrite <- top_id by (done || lia). f_equal. unfold kBlockIdx, kTableSize. lia. }
  cbn [seq] in Hh. rewrite fmap_cons in Hh. cbn [app] in Hh. rewrite Permutation_swap in Hh.
  destruct (heap_free a cs k c _ _ _ Hh Hc) as (a1 & c1 & -> & Hh1). rewrite bind_ok. replace (Z.of_nat j + 1) with (Z.of_nat (S j)) by lia.
  destruct (IH (S j) a1 c1 (<[k := c1]> cs) Ht ltac:(lia) (lookup_insert_eq _ _ _) Hh1) as (a2 & c2 & -> & Hh2). exists a2, c2. split; [done|]. by rewrite insert_insert_eq in Hh2.
Qed.

(** The last reference frees the blocks. *)
Lemma unref_ok k i t rest a c cs :
  table_shape t -> cs !! k = Some c -> heap a cs (pieces i t ++ rest) ->
  exists a' c', UnrefClockBlock (a, c) i (zlen t.(ids)) = Ok (a', c') /\
    heap a' (<[k := c']> cs) ((if t.(refc) =? 1 then [] else pieces i (set_ref t (t.(refc) - 1))) ++ rest).
Proof.
  intros Ht Hc Hh. pose proof Ht as (_ & _ & _ & Hr). unfold UnrefClockBlock. cbn [fst snd]. rewrite (ref_load_ok a cs i t rest), bind_ok by done.
  rewrite (proj2 (Z.ltb_lt _ _)) by lia. cbn [CHECK]. rewrite bind_ok. destruct (Z.eqb_spec t.(refc) 1) as [E1|Hne].
  - destruct (free_blocks_ok k i t rest (length t.(ids)) 0 a c cs Ht eq_refl Hc Hh) as (a1 & c1 & E & Hh1). unfold zlen. rewrite Nat2Z.id. change 0 with (Z.of_nat 0). rewrite E, bind_ok.
    cbn [fst snd]. destruct (heap_free a1 _ k c1 _ _ _ Hh1 (lookup_insert_eq _ _ _)) as (a2 & c2 & -> & Hh2). exists a2, c2. split; [done|]. by rewrite insert_insert_eq in Hh2.
  - destruct (ref_store_ok a cs i t (t.(refc) - 1) rest Hh Ht ltac:(lia)) as (a1 & -> & Hh1). rewrite bind_ok. exists a1, c. split; [done|]. by rewrite insert_id.
Qed.

(** *** Growth *)

Definition room cs l (n : Z) : Prop := zlen l + n + 128 * Z.of_nat (size cs) <= sl_limit.

Lemma size_put cs k c c' : cs !! k = Some c -> size (<[k := c']> cs) = size cs.
Proof. intros E. rewrite map_size_insert_Some; eauto. Qed.

Lemma zero_words_all b : zlen b = kTableSize -> zero_words b 0 kTableSize = Ok (data_block []).
Proof.
  intros Hb. unfold zero_words. rewrite (proj2 (Z.leb_le _ _)) by lia. unfold ztake, zdrop. rewrite take_0, drop_ge by (unfold zlen in Hb; lia). done.
Qed.

(** A new block of zeros. *)
Lemma alloc_zero k a c cs l :
  heap a cs l -> cs !! k = Some c -> room cs l 1 ->
  exists i a1 c' a', sl_alloc a c = Ok (i, (a1, c')) /\ i <> 0 /\ on_block a1 i (fun b => zero_words b 0 kTableSize) = Ok a' /\ heap a' (<[k := c']> cs) ((i, data_block []) :: l).
Proof.
  intros Hh Hc Hr. destruct (heap_alloc a cs k c l Hh Hc) as (i & b & a1 & c' & E & Hi & Hb & Hh1); [unfold room in Hr; lia|].
  destruct (heap_on_block a1 _ i b (data_block []) l (fun b => zero_words b 0 kTableSize) Hh1 (zero_words_all b Hb)) as (a' & E' & Hh'); [done|].
  exists i, a1, c', a'. done.
Qed.

Definition add_id t (x : Z) : table := MkTable (t.(ids) ++ [x]) t.(refc) t.(vals).

Lemma tail_nil t : zlen t.(vals) <= 64 * zlen t.(ids) -> tail_vals t = [].
Proof. intros Hl. apply drop_ge. unfold zlen in Hl. lia. Qed.

Lemma add_id_shape t x : table_shape t -> zlen t.(ids) < 127 -> zlen t.(vals) <= 64 * zlen t.(ids) + 64 -> (zlen t.(vals) <= cap (zlen t.(ids) + 1)) -> table_shape (add_id t x).
Proof.
  intros (Hn & Hv & Hf & Hr) Hlt _ Hcap. split; [cbn [ids add_id]; rewrite zlen_app; change (zlen [x]) with 1; lia|]. cbn [ids vals add_id]. rewrite zlen_app. done.
Qed.

Lemma pieces_add i t x : zlen t.(vals) <= 64 * zlen t.(ids) + 64 ->
  pieces i (add_id t x) = (i, top_block (add_id t x)) :: (data_piece t <$> seq 0 (length t.(ids))) ++ [(x, data_block (tail_vals t))].
Proof.
  intros Hl. unfold pieces. f_equal. cbn [ids add_id]. rewrite length_app, seq_app, fmap_app. cbn [length seq]. f_equal.
  - apply list_fmap_ext. intros _ j Hj%list_elem_of_lookup_2%elem_of_seq. unfold data_piece. cbn [ids vals add_id]. by rewrite lookup_total_app_l by lia.
  - cbn. unfold data_piece. cbn [ids vals add_id]. rewrite lookup_total_app_r by lia. rewrite Nat.sub_diag. unfold chunk, tail_vals. rewrite take_ge; [done|]. rewrite length_drop. unfold zlen in Hl. lia.
Qed.

(** A new block with contents [d] becomes the last second-level block. *)
Lemma append_block_ok i t rest s a cs x d :
  table_shape t -> zlen t.(ids) < 127 -> zlen t.(vals) <= 64 * zlen t.(ids) -> s.(tab_) = i -> s.(blocks_) = zlen t.(ids) -> heap a cs ((x, d) :: pieces i t ++ rest) ->
  exists a', append_block s a x = Ok (set_tab s i s.(tab_idx_) s.(size_) (zlen t.(ids) + 1), a') /\
    heap a' cs ((i, top_block (add_id t x)) :: (data_piece t <$> seq 0 (length t.(ids))) ++ (x, d) :: rest).
Proof.
  intros Ht Hn Hl Es Eb Hh. destruct (top_append t x Ht ltac:(unfold zlen in Hn; lia) (tail_nil t Hl)) as [E0 Eset]. specialize (Eset _ eq_refl).
  rewrite Permutation_middle in Hh. unfold append_block. rewrite Eb, Es. unfold get_block. cbn [tab_ set_tab].
  destruct (heap_load a cs _ i (top_block t) Hh (top_in i t _)) as (E & _). rewrite E, bind_ok.
  assert (Hi : Z.to_nat (kBlockIdx - zlen t.(ids)) = (126 - length t.(ids))%nat) by (unfold kBlockIdx, kTableSize, zlen; lia).
  rewrite (aget_lookup _ _ 0), bind_ok; [|unfold kBlockIdx, kTableSize; lia|by rewrite Hi]. cbn [Z.eqb CHECK]. rewrite bind_ok.
  destruct (heap_on_block a cs i (top_block t) (top_block (add_id t x)) ((data_piece t <$> seq 0 (length t.(ids))) ++ (x, d) :: rest) (fun b => aset b (kBlockIdx - zlen t.(ids)) x)) as (a' & -> & Hh').
  - exact Hh.
  - rewrite aset_ok by (rewrite top_block_length by done; unfold kBlockIdx, kTableSize, zlen in *; lia). rewrite Hi, Eset. done.
  - apply top_block_length, add_id_shape; [done..|lia|]. pose proof (cap_bounds (zlen t.(ids)) ltac:(unfold zlen in *; lia)). lia.
  - rewrite bind_ok. exists a'. split; [|done]. unfold wrap. rewrite Z.mod_small by (unfold zlen in *; lia). done.
Qed.

Lemma capacity_ok s n : s.(size_) <> 0 -> s.(blocks_) = n -> 0 <= n <= 127 -> capacity s = Ok (cap n).
Proof.
  intros Hz Hb Hn. unfold capacity. rewrite (proj2 (Z.eqb_neq _ _)), Hb by done. pose proof (RoundUpTo_ok (n + 1) 1 ltac:(lia) ltac:(lia) ltac:(lia)) as E.
  change (2 ^ 1) with 2 in E. rewrite E, bind_ok. do 2 f_equal. unfold cap, kClockCount. replace (n + 1 + 2 - 1) with (n + 2) by lia. rewrite Z.div_mul by lia. lia.
Qed.

Definition add_ids t (xs : list Z) : table := MkTable (t.(ids) ++ xs) t.(refc) t.(vals).

Lemma add_blocks_ok k i rest nclk fuel : nclk <= kMaxTid -> forall t s a c cs,
  table_shape t -> zlen t.(vals) <= 64 * zlen t.(ids) -> s.(tab_) = i -> s.(blocks_) = zlen t.(ids) -> s.(size_) <> 0 -> cs !! k = Some c ->
  heap a cs (pieces i t ++ rest) -> room cs rest 128 -> 127 - zlen t.(ids) < Z.of_nat fuel ->
  exists xs a' c', let n := zlen t.(ids) + zlen xs in
    add_blocks fuel s (a, c) nclk = Ok (set_tab s i s.(tab_idx_) s.(size_) n, (a', c')) /\ heap a' (<[k := c']> cs) (pieces i (add_ids t xs) ++ rest) /\
    table_shape (add_ids t xs) /\ nclk <= cap n /\ (xs = [] \/ cap (n - 1) < nclk).
Proof.
  intros Hmax. induction fuel as [|fuel IH]; intros t s a c cs Ht Hv Es Eb Hz Hc Hh Hroom Hf; [destruct Ht; lia|]. cbn [add_blocks]. pose proof Ht as (Hn & _).
  rewrite (capacity_ok s (zlen t.(ids))), bind_ok by (done || unfold zlen in *; lia). destruct (Z.ltb_spec (cap (zlen t.(ids))) nclk) as [Hlt|Hge].
  2:{ exists [], a, c. change (zlen (@nil Z)) with 0. rewrite Z.add_0_r, <- Es, <- Eb. split; [by destruct s|]. unfold add_ids. rewrite app_nil_r, insert_id, Es, Eb by done. destruct t. auto. }
  assert (Hlt' : zlen t.(ids) < 127). { destruct (Z.eq_dec (zlen t.(ids)) 127) as [E|]; [|lia]. rewrite E in Hlt. change (cap 127) with kMaxTid in Hlt. lia. }
  cbn [fst snd]. destruct (alloc_zero k a c cs _ Hh Hc) as (x & a1 & c1 & a2 & -> & Hx & E2 & Hh2).
  { unfold room in *. unfold pieces. rewrite <- app_comm_cons. unfold zlen in *. cbn [length]. rewrite length_app, length_fmap, length_seq. lia. }
  rewrite bind_ok. cbn [fst snd]. rewrite E2, bind_ok. destruct (append_block_ok i t rest s a2 _ x _ Ht Hlt' Hv Es Eb Hh2) as (a3 & -> & Hh3). rewrite bind_ok.
  pose proof (cap_bounds (zlen t.(ids)) ltac:(unfold zlen in *; lia)) as (_ & _ & _ & Hcap).
  assert (Hlen : zlen (add_id t x).(ids) = zlen t.(ids) + 1) by (cbn [ids add_id]; by rewrite zlen_app).
  assert (Ht' : table_shape (add_id t x)) by (apply add_id_shape; lia || done).
  destruct (IH (add_id t x) (set_tab s i s.(tab_idx_) s.(size_) (zlen t.(ids) + 1)) a3 c1 (<[k := c1]> cs) Ht') as (xs & a' & c' & E & Hh' & Hsh & Hcapn & Hcl);
    [cbn [vals add_id]; lia|done|by rewrite Hlen|done|apply lookup_insert_eq| |unfold room in *; by rewrite (size_put cs k c)|lia|].
  { rewrite pieces_add, (tail_nil t Hv) by lia. revert Hh3. rewrite <- app_comm_cons, <- app_assoc. done. }
  rewrite Hlen in *. exists (x :: xs), a', c'. replace (zlen (x :: xs)) with (1 + zlen xs) by (unfold zlen; cbn [length]; lia). rewrite Z.add_assoc.
  assert (Ex : add_ids (add_id t x) xs = add_ids t (x :: xs)) by (unfold add_ids, add_id; cbn [ids refc vals]; by rewrite <- app_assoc). rewrite Ex in *. rewrite insert_insert_eq in Hh'.
  split; [exact E|]. split; [done|]. split; [done|]. split; [done|]. right. destruct Hcl as [->|?]; [|done]. change (zlen (@nil Z)) with 0. replace (zlen t.(ids) + 1 + 0 - 1) with (zlen t.(ids)) by lia. done.
Qed.

Lemma copy_then_zero (b w z : block) : zlen b = kTableSize -> zlen (w ++ z) = kTableSize ->
  (b ← copy_words b (w ++ z) (zlen w); zero_words b (zlen w) (kTableSize - zlen w)) = Ok (pad 128 w).
Proof.
  intros Hb Hw. unfold copy_words. rewrite Hb, Hw. unfold kTableSize, zlen in *. rewrite length_app in Hw. rewrite (proj2 (Z.leb_le _ _)) by lia. cbn [andb]. rewrite bind_ok. unfold ztake, zdrop.
  rewrite Nat2Z.id, take_app_length. unfold zero_words, ztake, zdrop, zlen. rewrite length_app, length_drop. rewrite (proj2 (Z.leb_le _ _)) by lia. rewrite Nat2Z.id, take_app_length.
  rewrite drop_ge by (rewrite length_app, length_drop; lia). rewrite app_nil_r. unfold pad. do 3 f_equal. lia.
Qed.

Lemma zero_front (w z : block) : zero_words (w ++ z) 0 (zlen w) = Ok (replicate (length w) 0 ++ z).
Proof.
  unfold zero_words, ztake, zdrop, zlen. rewrite length_app, (proj2 (Z.leb_le _ _)) by lia. rewrite Z.add_0_l, Nat2Z.id, drop_app_length. done.
Qed.

(** The table without the elements of its first-level block. *)
Definition front t : table := MkTable t.(ids) t.(refc) (take (64 * length t.(ids)) t.(vals)).

Lemma front_shape t : table_shape t -> table_shape (front t) /\ zlen (front t).(vals) <= 64 * zlen t.(ids).
Proof.
  intros (Hn & Hv & Hf & Hr). assert (zlen (front t).(vals) <= 64 * zlen t.(ids)) by (unfold zlen; cbn [front vals]; rewrite length_take; lia).
  split; [|done]. split; [done|]. cbn [ids refc front]. split; [pose proof (cap_bounds (zlen t.(ids)) ltac:(unfold zlen in *; lia)); lia|]. split; [by apply Forall_take|done].
Qed.

Lemma front_top t : table_shape t -> exists z, top_block t = clk_words (tail_vals t) ++ z /\ top_block (front t) = replicate (length (clk_words (tail_vals t))) 0 ++ z.
Proof.
  intros Ht. eexists. split; [unfold top_block, pad; by rewrite <- app_assoc|]. destruct (front_shape t Ht) as [_ Hl]. unfold top_block. rewrite (tail_nil (front t) Hl). cbn [ids refc front].
  rewrite (app_assoc (replicate (length (clk_words (tail_vals t))) 0)), <- replicate_add. unfold pad. cbn [clk_words mbind list_bind app]. do 3 f_equal. destruct (top_block_split t Ht) as [Hp _]. unfold pad in Hp. rewrite length_app, length_replicate in Hp. cbn [length]. lia.
Qed.

Lemma front_piece t j : (j < length t.(ids))%nat -> data_piece (front t) j = data_piece t j.
Proof.
  intros Hj. unfold data_piece. cbn [ids vals front]. do 2 f_equal. apply list_eq. intros r. rewrite !lookup_chunk. destruct (decide _); [|done]. apply lookup_take_lt. lia.
Qed.

Lemma evacuate_ok k i t rest s a c cs :
  table_shape t -> on_table s i t -> 64 * zlen t.(ids) < zlen t.(vals) -> cs !! k = Some c -> heap a cs (pieces i t ++ rest) -> room cs rest 128 ->
  exists x a' c', evacuate s (a, c) = Ok (set_tab s i s.(tab_idx_) s.(size_) (zlen t.(ids) + 1), (a', c')) /\ heap a' (<[k := c']> cs) (pieces i (add_id t x) ++ rest) /\
    table_shape (add_id t x) /\ zlen t.(vals) <= 64 * (zlen t.(ids) + 1).
Proof.
  intros Ht (Es & Eb & Ez) Hlt Hc Hh Hroom. pose proof Ht as (Hn & Hv & Hf & Hr). pose proof (cap_bounds (zlen t.(ids)) ltac:(unfold zlen in *; lia)) as (Hc1 & Hc2 & Hc3 & Hc4).
  unfold evacuate. cbn [fst snd]. destruct (heap_alloc a cs k c _ Hh Hc) as (x & b & a1 & c1 & -> & Hx & Hb & Hh1).
  { unfold room in *. unfold pieces. rewrite <- app_comm_cons. unfold zlen in *. cbn [length]. rewrite length_app, length_fmap, length_seq. lia. }
  rewrite bind_ok. cbn [fst snd]. rewrite Ez, Eb, Es. unfold kClockCount. rewrite (proj2 (Z.ltb_lt _ 64)) by lia. cbn [CHECK]. rewrite bind_ok.
  destruct (heap_load a1 _ _ i (top_block t) Hh1) as (El & _); [right; apply top_in|]. rewrite El, bind_ok. destruct (front_top t Ht) as (z & Etop & Efront).
  assert (Emove : 2 * (zlen t.(vals) - zlen t.(ids) * 64) = zlen (clk_words (tail_vals t))). { unfold zlen at 3. rewrite clk_words_length. pose proof (tail_length t Ht) as [Htl _]. unfold zlen in *. lia. }
  rewrite Emove. pose proof (top_block_length t Ht) as Htlen. rewrite Etop in Htlen.
  destruct (heap_on_block a1 _ x b (data_block (tail_vals t)) _ (fun b => b ← copy_words b (top_block t) (zlen (clk_words (tail_vals t))); zero_words b (zlen (clk_words (tail_vals t))) (kTableSize - zlen (clk_words (tail_vals t)))) Hh1) as (a2 & -> & Hh2).
  { rewrite Etop. by apply copy_then_zero. }
  { apply data_block_length. pose proof (tail_length t Ht). unfold zlen in *. lia. }
  rewrite bind_ok. unfold pieces in Hh2. cbn [app] in Hh2. rewrite Permutation_swap in Hh2. destruct (front_shape t Ht) as [Hfs Hfl].
  destruct (heap_on_block a2 _ i (top_block t) (top_block (front t)) _ (fun b => zero_words b 0 (zlen (clk_words (tail_vals t)))) Hh2) as (a3 & -> & Hh3).
  { rewrite Etop, Efront. apply zero_front. }
  { by apply top_block_length. }
  rewrite bind_ok. rewrite Permutation_swap in Hh3. assert (Hdata : data_piece (front t) <$> seq 0 (length t.(ids)) = data_piece t <$> seq 0 (length t.(ids))).
  { apply list_fmap_ext. intros _ j Hj%list_elem_of_lookup_2%elem_of_seq. apply front_piece. lia. }
  destruct (append_block_ok i (front t) rest s a3 (<[k := c1]> cs) x (data_block (tail_vals t)) Hfs) as (a4 & E4 & Hh4); [cbn [ids front]; lia|exact Hfl|done|done| |].
  { unfold pieces. cbn [ids front]. rewrite Hdata. exact Hh3. }
  rewrite E4, bind_ok, Ez. exists x, a4, c1. split; [done|]. assert (Hsh : table_shape (add_id t x)) by (apply add_id_shape; [done|lia|lia|]; pose proof (cap_bounds (zlen t.(ids) + 1) ltac:(unfold zlen in *; lia)); lia). split; [|split; [done|lia]].
  rewrite pieces_add by lia. cbn [ids front] in Hh4. rewrite Hdata in Hh4. replace (top_block (add_id t x)) with (top_block (add_id (front t) x)); [revert Hh4; by rewrite <- app_comm_cons, <- app_assoc|].
  unfold top_block. rewrite !tail_nil; [done|..]; cbn [ids vals add_id front]; rewrite zlen_app; change (zlen [x]) with 1; [lia|]. cbn [vals front] in Hfl. lia.
Qed.

(** Elements that are zero need no words. *)
Lemma pad_zeros n vs m : (2 * (length vs + m) <= n)%nat -> pad n (clk_words (vs ++ replicate m zero_elem)) = pad n (clk_words vs).
Proof.
  intros Hn. unfold pad, clk_words. rewrite bind_app. change (replicate m zero_elem ≫= elem_words) with (clk_words (replicate m zero_elem)). rewrite clk_words_zeros, <- app_assoc. f_equal.
  rewrite <- replicate_add. f_equal. rewrite length_app, length_replicate. change (vs ≫= elem_words) with (clk_words vs). rewrite clk_words_length. lia.
Qed.

Definition extend t (m : nat) : table := MkTable t.(ids) t.(refc) (t.(vals) ++ replicate m zero_elem).

Lemma pieces_extend i t m : zlen t.(ids) <= 127 -> zlen t.(vals) + Z.of_nat m <= cap (zlen t.(ids)) -> pieces i (extend t m) = pieces i t.
Proof.
  intros Hn Hm. pose proof (cap_bounds (zlen t.(ids)) ltac:(unfold zlen in *; lia)) as (_ & Hc & _). unfold pieces. cbn [ids extend]. f_equal.
  - f_equal. unfold top_block, tail_vals. cbn [ids refc vals extend]. f_equal. destruct (decide (64 * length t.(ids) <= length t.(vals))%nat).
    + rewrite drop_app_le, pad_zeros by (rewrite ?length_drop; unfold zlen in *; lia). done.
    + rewrite (drop_ge t.(vals)) by lia. rewrite drop_app_ge, drop_replicate by lia. change (@nil ClockElem) with (@nil ClockElem). rewrite <- (app_nil_l (replicate _ zero_elem)). apply pad_zeros. unfold zlen in *. cbn [length]. lia.
  - apply list_fmap_ext. intros _ j _. unfold data_piece. cbn [ids vals extend]. f_equal. unfold data_block.
    assert (exists m', chunk j (t.(vals) ++ replicate m zero_elem) = chunk j t.(vals) ++ replicate m' zero_elem) as [m' E].
    { unfold chunk. destruct (decide (64 * j <= length t.(vals))%nat).
      - rewrite drop_app_le, take_app, take_replicate by done. eauto.
      - rewrite (drop_ge t.(vals)) by lia. rewrite drop_app_ge, drop_replicate, take_replicate, take_nil by lia. eexists. done. }
    rewrite E. apply pad_zeros. pose proof (chunk_length j (t.(vals) ++ replicate m zero_elem)) as Hl. rewrite E, length_app, length_replicate in Hl. lia.
Qed.

Lemma zero_elem_ok : elem_ok zero_elem.
Proof. split; cbn; lia. Qed.

Lemma extend_shape t m : table_shape t -> zlen t.(vals) + Z.of_nat m <= cap (zlen t.(ids)) -> table_shape (extend t m).
Proof.
  intros (Hn & Hv & Hf & Hr) Hm. split; [done|]. cbn [ids refc vals extend]. rewrite zlen_app, zlen_replicate. split; [done|]. split; [|done].
  apply Forall_app. split; [done|]. apply Forall_replicate, zero_elem_ok.
Qed.

Lemma not_shared a cs i t rest s : heap a cs (pieces i t ++ rest) -> table_shape t -> on_table s i t -> 0 < zlen t.(vals) -> IsShared s a = Ok (1 <? t.(refc)).
Proof.
  intros Hh Ht (Es & _ & Ez) Hv. unfold IsShared. rewrite Ez, (proj2 (Z.eqb_neq _ _)), Es by lia. rewrite (ref_load_ok a cs i t rest), bind_ok by done.
  destruct Ht as (_ & _ & _ & Hr). rewrite (proj2 (Z.ltb_lt 0 t.(refc))) by lia. done.
Qed.

(** The second half of [Resize], for a table with elements only in
    second-level blocks. *)
Lemma grow_ok k i rest s t a c cs nclk :
  table_shape t -> t.(refc) = 1 -> zlen t.(vals) <= 64 * zlen t.(ids) -> 64 * (zlen t.(ids) - 1) < nclk -> zlen t.(vals) <= nclk -> 0 < nclk <= kMaxTid ->
  s.(tab_) = i -> s.(blocks_) = zlen t.(ids) -> s.(size_) <> 0 -> cs !! k = Some c -> heap a cs (pieces i t ++ rest) -> room cs rest 128 ->
  exists xs a' c', ('(s, h) ← add_blocks (Z.to_nat kTableSize) s (a, c) nclk; Ok (set_size s nclk, h)) = Ok (set_tab s i s.(tab_idx_) nclk (zlen t.(ids) + zlen xs), (a', c')) /\
    let t' := extend (add_ids t xs) (Z.to_nat (nclk - zlen t.(vals))) in heap a' (<[k := c']> cs) (pieces i t' ++ rest) /\ table_ok t' /\ zlen t'.(vals) = nclk.
Proof.
  intros Ht Href Hv Hlow Hle Hmax Es Eb Hz Hc Hh Hroom.
  destruct (add_blocks_ok k i rest nclk (Z.to_nat kTableSize) ltac:(lia) t s a c cs Ht Hv Es Eb Hz Hc Hh Hroom) as (xs & a' & c' & -> & Hh' & Hsh & Hcap & Hlast); [unfold zlen, kTableSize; lia|].
  rewrite bind_ok. exists xs, a', c'. assert (Hlen : zlen (add_ids t xs).(ids) = zlen t.(ids) + zlen xs) by (cbn [ids add_ids]; apply zlen_app). split.
  { unfold set_size. cbn [tab_ tab_idx_ blocks_ set_tab]. unfold wrap. change kMaxTid with 8128 in Hmax. rewrite Z.mod_small by lia. done. }
  cbn zeta. assert (Hz' : zlen (extend (add_ids t xs) (Z.to_nat (nclk - zlen t.(vals)))).(vals) = nclk) by (cbn [vals extend add_ids]; rewrite zlen_app, zlen_replicate; lia).
  split; [|split; [|done]].
  - rewrite pieces_extend; [done|by destruct Hsh|]. rewrite Hlen. cbn [vals add_ids]. lia.
  - split; [apply extend_shape; [done|]; rewrite Hlen; cbn [vals add_ids]; lia|]. rewrite Hz'. split; [lia|]. cbn [ids extend]. rewrite Hlen. destruct xs as [|x xs]; [change (zlen (@nil Z)) with 0; lia|].
    destruct Hlast as [?|Hlast]; [done|]. destruct Hsh as [Hn _]. rewrite Hlen in Hn. assert (0 < zlen (x :: xs)) by (unfold zlen; cbn [length]; lia).
    pose proof (cap_bounds (zlen t.(ids) + zlen (x :: xs) - 1) ltac:(unfold zlen in *; lia)). lia.
Qed.

(** [Resize] of a clock whose table is not shared: zeros are appended. *)
Lemma resize_ok k i rest s t a c cs nclk fuel :
  table_ok t -> t.(refc) = 1 -> on_table s i t -> zlen t.(vals) <= nclk <= kMaxTid -> cs !! k = Some c -> heap a cs (pieces i t ++ rest) -> room cs rest 128 ->
  exists t' a' c', Resize_fuel (S fuel) s (a, c) nclk = Ok (set_tab s i s.(tab_idx_) nclk (zlen t'.(ids)), (a', c')) /\
    heap a' (<[k := c']> cs) (pieces i t' ++ rest) /\ table_ok t' /\ t'.(refc) = 1 /\ t'.(vals) = t.(vals) ++ replicate (Z.to_nat (nclk - zlen t.(vals))) zero_elem.
Proof.
  intros Ht Href Hs Hn Hc Hh Hroom. pose proof Ht as (Hsh & Hpos & Hlow). pose proof Hs as (Es & Eb & Ez). pose proof Hsh as (Hn1 & Hn2 & _).
  pose proof (cap_bounds (zlen t.(ids)) ltac:(unfold zlen in *; lia)) as (Hc1 & Hc2 & Hc3 & Hc4).
  cbn [Resize_fuel]. unfold Unshare_with. cbn [fst snd]. rewrite (not_shared a cs i t rest s Hh Hsh Hs Hpos), bind_ok, Href. cbn [Z.ltb negb]. change (1 <? 1) with false. cbn [negb]. rewrite bind_ok.
  rewrite (capacity_ok s (zlen t.(ids))), bind_ok by (lia || unfold zlen in *; lia). destruct (Z.leb_spec nclk (cap (zlen t.(ids)))) as [Hle|Hgt].
  { exists (extend t (Z.to_nat (nclk - zlen t.(vals)))), a, c. cbn [ids refc vals extend]. split; [|split; [|split; [|done]]].
    - unfold set_size. rewrite Es, Eb. unfold wrap. change kMaxTid with 8128 in Hn. rewrite Z.mod_small by lia. done.
    - rewrite insert_id by done. rewrite pieces_extend by lia. done.
    - split; [apply extend_shape; [done|lia]|]. cbn [ids vals extend]. rewrite zlen_app, zlen_replicate. lia. }
  rewrite (proj2 (Z.eqb_neq _ _)) by lia. rewrite Eb, Ez. unfold kClockCount. destruct (Z.ltb_spec (zlen t.(ids) * 64) (zlen t.(vals))) as [Htop|Hnotop].
  - destruct (evacuate_ok k i t rest s a c cs Hsh Hs ltac:(lia) Hc Hh Hroom) as (x & a1 & c1 & -> & Hh1 & Hsh1 & Hv1). rewrite bind_ok.
    assert (Hlen : zlen (add_id t x).(ids) = zlen t.(ids) + 1) by (cbn [ids add_id]; by rewrite zlen_app).
    destruct (grow_ok k i rest (set_tab s i s.(tab_idx_) s.(size_) (zlen t.(ids) + 1)) (add_id t x) a1 c1 (<[k := c1]> cs) nclk Hsh1) as (xs & a' & c' & E & Hh' & Ht' & Hz');
      try done; rewrite ?Hlen; cbn [vals add_id size_ set_tab]; try lia; [apply lookup_insert_eq|unfold room in *; by rewrite (size_put cs k c)|].
    rewrite E. eexists _, a', c'. rewrite insert_insert_eq in Hh'. split; [|split; [exact Hh'|]; split; [exact Ht'|]; done].
    cbn [ids extend add_ids]. rewrite zlen_app, Hlen. done.
  - rewrite bind_ok. destruct (grow_ok k i rest s t a c cs nclk Hsh Href) as (xs & a' & c' & E & Hh' & Ht' & Hz'); try done; try lia.
    rewrite E. eexists _, a', c'. split; [|split; [exact Hh'|]; split; [exact Ht'|]; done]. cbn [ids extend add_ids]. rewrite zlen_app. done.
Qed.

Definition is_empty s : Prop := s.(size_) = 0 /\ s.(blocks_) = 0 /\ s.(tab_) = 0 /\ s.(tab_idx_) = 0.

(** [Resize] of an empty clock: a table of zeros. *)
Lemma resize_empty_ok k rest s a c cs nclk fuel :
  is_empty s -> 0 < nclk <= kMaxTid -> cs !! k = Some c -> heap a cs rest -> room cs rest 128 ->
  exists i t' a' c', Resize_fuel (S fuel) s (a, c) nclk = Ok (set_tab s i i nclk (zlen t'.(ids)), (a', c')) /\ i <> 0 /\
    heap a' (<[k := c']> cs) (pieces i t' ++ rest) /\ table_ok t' /\ t'.(refc) = 1 /\ t'.(vals) = replicate (Z.to_nat nclk) zero_elem.
Proof.
  intros (Ez & Eb & Et & Ei) Hn Hc Hh Hroom. cbn [Resize_fuel]. unfold Unshare_with, IsShared, capacity. rewrite Ez. cbn [Z.eqb]. rewrite bind_ok. cbn [negb]. rewrite bind_ok, Ez. cbn [Z.eqb]. rewrite bind_ok, (proj2 (Z.leb_gt _ _)) by lia.
  unfold first_table, SyncClock_destroy. rewrite Ez, Eb, Et, Ei. cbn [Z.eqb CHECK]. rewrite !bind_ok. cbn [fst snd].
  destruct (alloc_zero k a c cs rest Hh Hc) as (i & a1 & c1 & a2 & -> & Hi & E2 & Hh2); [unfold room in *; lia|]. rewrite bind_ok. cbn [fst snd]. rewrite E2, bind_ok.
  set (t := MkTable [] 1 []). assert (Ht : table_shape t) by (split; [done|]; split; [done|]; split; [constructor|done]).
  destruct (heap_on_block a2 _ i (data_block []) (top_block t) rest (fun b => aset b kRefIdx (wrap 32 1)) Hh2) as (a3 & E3 & Hh3); [reflexivity|done|]. unfold ref_store. rewrite E3, !bind_ok.
  destruct (grow_ok k i rest (set_tab s i i 1 0) t a3 c1 (<[k := c1]> cs) nclk Ht) as (xs & a' & c' & E & Hh' & Ht' & Hz'); try done; try (unfold t, zlen; cbn [ids vals length]; lia); [apply lookup_insert_eq|unfold room in *; by rewrite (size_put cs k c)|].
  rewrite E. eexists i, _, a', c'. rewrite insert_insert_eq in Hh'. split; [|split; [done|]; split; [exact Hh'|]; split; [exact Ht'|]; split; [done|]].
  - cbn [ids extend add_ids t]. rewrite zlen_app. done.
  - cbn [vals extend add_ids t app]. change (zlen (@nil ClockElem)) with 0. by rewrite Z.sub_0_r.
Qed.

(** *** Copying a shared table *)

Definition mix {X} (k : Z) (l l' : list X) : list X := ztake k l ++ zdrop k l'.

Lemma mix_length {X} k (l l' : list X) : length l = length l' -> length (mix k l l') = length l.
Proof. intros E. unfold mix, ztake, zdrop. rewrite length_app, length_take, length_drop. lia. Qed.

Lemma mix_step {X} k (l l' : list X) e : length l = length l' -> 0 <= k -> l !! Z.to_nat k = Some e -> <[Z.to_nat k := e]> (mix k l l') = mix (k + 1) l l'.
Proof.
  intros El Hk He. pose proof (lookup_lt_Some _ _ _ He) as Hlt. unfold mix, ztake, zdrop. rewrite insert_app_r_alt by (rewrite length_take; lia). rewrite length_take_le, Nat.sub_diag by lia.
  replace (Z.to_nat (k + 1)) with (S (Z.to_nat k)) by lia. rewrite (take_S_r l _ e He), <- app_assoc. f_equal. destruct (lookup_lt_is_Some_2 l' (Z.to_nat k)) as [x Ex]; [lia|]. by rewrite (drop_S l' x) by done.
Qed.

Lemma mix_all {X} (l l' : list X) : length l = length l' -> mix (zlen l) l l' = l.
Proof. intros E. unfold mix, ztake, zdrop, zlen. rewrite Nat2Z.id, take_ge, drop_ge by lia. apply app_nil_r. Qed.

Lemma mix_forall {X} (P : X -> Prop) k (l l' : list X) : Forall P l -> Forall P l' -> Forall P (mix k l l').
Proof. intros H1' H2. apply Forall_app. split; [by apply Forall_take|by apply Forall_drop]. Qed.

Definition set_vals t (l : list ClockElem) : table := MkTable t.(ids) t.(refc) l.

Lemma set_vals_ok t (l : list ClockElem) : table_ok t -> length l = length t.(vals) -> Forall elem_ok l -> table_ok (set_vals t l).
Proof.
  intros ((Hn & Hv & Hf & Hr) & Hp & Hlow) El Hl. unfold zlen in *. split; [split; [done|]; split; [by cbn [ids vals set_vals]; unfold zlen; rewrite El|done]|]. cbn [ids vals set_vals]. unfold zlen. by rewrite El.
Qed.

(** The copying loop. *)
Lemma copy_loop_ok old i t s j u a cs rest it :
  table_ok t -> on_table old i t -> table_ok u -> on_table s j u -> length u.(vals) = length t.(vals) -> iter_at old i t 0 it ->
  heap a cs (pieces j u ++ pieces i t ++ rest) ->
  exists a' it', for_each s (fun p a old_iter =>
      e ← read a (old_iter.(it_base), old_iter.(it_pos));
      a ← write a p e;
      old_iter ← increment old a old_iter;
      Ok (a, old_iter)) a it = Ok (a', it') /\ heap a' cs (pieces j (set_vals u t.(vals)) ++ pieces i t ++ rest).
Proof.
  intros Ht Hold Hu Hs El Hit Hh. pose proof Ht as ((Hn & Hv & Hf & Hr) & _). pose proof Hu as ((Hun & Huv & Huf & Hur) & _).
  assert (Hm : forall k, table_ok (set_vals u (mix k t.(vals) u.(vals)))) by (intros k; apply set_vals_ok; [done|by rewrite mix_length|by apply mix_forall]).
  destruct (for_each_rule (fun k a it => heap a cs (pieces j (set_vals u (mix k t.(vals) u.(vals))) ++ pieces i t ++ rest) /\ iter_at old i t k it) cs j u (pieces i t ++ rest) s
    (fun p a old_iter => e ← read a (old_iter.(it_base), old_iter.(it_pos)); a ← write a p e; old_iter ← increment old a old_iter; Ok (a, old_iter)) a it Hh Hu Hs) as (a' & it' & E & Hh' & _).
  - intros k a1 it1 [Hh1 _]. exists (set_vals u (mix k t.(vals) u.(vals))), (pieces i t ++ rest). split; [done|]. split; [done|]. apply (Hm k).
  - intros k a1 it1 Hk [Hh1 Hit1]. assert (Hkt : 0 <= k < zlen t.(vals)) by (unfold zlen in *; lia).
    pose proof Hit1 as Hi0. unfold iter_at in Hi0. rewrite (proj2 (Z.ltb_lt _ _)) in Hi0 by lia. destruct Hi0 as (_ & -> & _).
    destruct (lookup_lt_is_Some_2 t.(vals) (Z.to_nat k)) as [e He]; [unfold zlen in Hkt; lia|]. pose proof (Forall_lookup_1 _ _ _ _ Hf He) as Hek.
    assert (Hsw : heap a1 cs (pieces i t ++ pieces j (set_vals u (mix k t.(vals) u.(vals))) ++ rest)) by (rewrite app_assoc, (Permutation_app_comm (pieces i t)), <- app_assoc; done).
    rewrite (read_ok a1 cs i t _ k e Hsw) by (done || lia). rewrite bind_ok. change (addr j u k) with (addr j (set_vals u (mix k t.(vals) u.(vals))) k).
    destruct (write_ok a1 cs j (set_vals u (mix k t.(vals) u.(vals))) (pieces i t ++ rest) k e Hh1 (proj1 (Hm k))) as (a2 & -> & Hh2); [cbn [vals set_vals]; unfold zlen in *; rewrite mix_length by done; lia|done|].
    rewrite bind_ok. assert (Es : set_val (set_vals u (mix k t.(vals) u.(vals))) k e = set_vals u (mix (k + 1) t.(vals) u.(vals))) by (unfold set_val, set_vals; cbn [ids refc vals]; rewrite mix_step by (done || lia); done).
    rewrite Es in Hh2. assert (Hsw2 : heap a2 cs (pieces i t ++ pieces j (set_vals u (mix (k + 1) t.(vals) u.(vals))) ++ rest)) by (rewrite app_assoc, (Permutation_app_comm (pieces i t)), <- app_assoc; done).
    destruct (increment_at a2 cs i t t _ old k it1 Hsw2 eq_refl (proj1 Ht) Ht Hold Hkt Hit1) as (it2 & -> & Hit2). rewrite bind_ok. exists a2, it2. done.
  - split; [|done]. unfold mix, ztake, zdrop. cbn [Z.to_nat take app]. rewrite drop_0. by destruct u.
  - exists a', it'. split; [exact E|]. replace (zlen u.(vals)) with (zlen t.(vals)) in Hh' by (unfold zlen; lia). by rewrite mix_all in Hh' by done.
Qed.

(** [Unshare]: a shared table is copied, and loses a reference. *)
Lemma unshare_ok k i rest s t a c cs fuel :
  table_ok t -> on_table s i t -> s.(tab_idx_) = i -> cs !! k = Some c -> heap a cs (pieces i t ++ rest) -> room cs (pieces i t ++ rest) 128 -> zlen t.(vals) <= kMaxTid ->
  if t.(refc) =? 1 then Unshare_with (Resize_fuel (S fuel)) s (a, c) = Ok (s, (a, c)) else
  exists j u a' c', Unshare_with (Resize_fuel (S fuel)) s (a, c) = Ok (set_tab s j j s.(size_) (zlen u.(ids)), (a', c')) /\ j <> 0 /\ table_ok u /\ u.(refc) = 1 /\ u.(vals) = t.(vals) /\
    heap a' (<[k := c']> cs) (pieces j u ++ pieces i (set_ref t (t.(refc) - 1)) ++ rest).
Proof.
  intros Ht Hs Ei Hc Hh Hroom Hmax. pose proof Ht as (Hsh & Hpos & _). pose proof Hs as (Es & Eb & Ez). pose proof Hsh as (_ & _ & Hf & Hr). unfold Unshare_with at 1. cbn [fst snd].
  rewrite (not_shared a cs i t rest s Hh Hsh Hs Hpos), bind_ok. destruct (Z.eqb_spec t.(refc) 1) as [Href|Hne]; [by rewrite Href|]. unfold Unshare_with. cbn [fst snd].
  rewrite (not_shared a cs i t rest s Hh Hsh Hs Hpos), bind_ok. rewrite (proj2 (Z.ltb_lt _ _)) by lia. cbn [negb].
  destruct (resize_empty_ok k (pieces i t ++ rest) (ResetImpl s) a c cs s.(size_) fuel) as (j & u & a1 & c1 & -> & Hj & Hh1 & Hu & Hur & Huv); [done|lia|done|done|done|]. rewrite bind_ok. cbn [fst snd].
  assert (Hlen : length u.(vals) = length t.(vals)) by (rewrite Huv, length_replicate, Ez; unfold zlen; lia).
  assert (Hsw : heap a1 (<[k := c1]> cs) (pieces i t ++ pieces j u ++ rest)) by (rewrite app_assoc, (Permutation_app_comm (pieces i t)), <- app_assoc; done).
  destruct (begin_at a1 _ i t _ s Hsw Ht Hs) as (it & -> & Hit). rewrite bind_ok.
  destruct (copy_loop_ok s i t (set_tab (ResetImpl s) j j s.(size_) (zlen u.(ids))) j u a1 (<[k := c1]> cs) rest it Ht Hs Hu) as (a2 & it2 & -> & Hh2); [split; [done|]; split; [done|]; cbn [size_ set_tab]; unfold zlen in *; lia|done|done|done|].
  rewrite bind_ok. unfold Reset. rewrite Ez, (proj2 (Z.eqb_neq _ _)) by lia. cbn [negb]. rewrite Ei, Eb.
  rewrite app_assoc, (Permutation_app_comm _ (pieces i t)), <- app_assoc in Hh2.
  destruct (unref_ok k i t _ a2 c1 (<[k := c1]> cs) Hsh (lookup_insert_eq _ _ _) Hh2) as (a3 & c3 & -> & Hh3). rewrite !bind_ok. rewrite (proj2 (Z.eqb_neq _ _)) in Hh3 by done. rewrite insert_insert_eq in Hh3.
  exists j, (set_vals u t.(vals)), a3, c3. split; [done|]. split; [done|]. split; [by apply set_vals_ok|]. split; [done|]. split; [done|].
  rewrite app_assoc, (Permutation_app_comm (pieces j _)), <- app_assoc. done.
Qed.
End Table.
