(* ===== verification/ThreadClock.v ===== *)
(** * Vector clocks of threads

    [ThreadClock] of [src/ufo-rt/lib/tsan/rtl/tsan_clock.h] and
    [tsan_clock.cc]: the vector clock of a thread, and the operations between
    it and the clock of a synchronisation object (SyncClock.v).  The comment at
    the top of [tsan_clock.cc] gives each operation a meaning on plain vectors;
    ClockSpec.v shows that the operations have it.

    A method returns the thread's clock, the object's clock where it changes
    it, and the allocator and cache. *)
From stdpp Require Import base numbers list gmap.
From Stdlib Require Import ZArith Lia.
From S2P Require Import Prelude DenseAlloc SyncClock.

Local Open Scope Z_scope.

Record ThreadClock : Type := MkThread {
  tid_ : Z;
  reused_ : Z;
  last_acquire_ : Z;
  cached_idx_ : Z;
  cached_size_ : Z;
  cached_blocks_ : Z;
  nclk_ : Z;
  clk_ : list Z;
}.

Definition set_cached (t : ThreadClock) (idx size blocks : Z) : ThreadClock :=
  MkThread t.(tid_) t.(reused_) t.(last_acquire_) idx size blocks t.(nclk_) t.(clk_).

Definition set_clk (t : ThreadClock) (nclk : Z) (clk : list Z) : ThreadClock :=
  MkThread t.(tid_) t.(reused_) t.(last_acquire_) t.(cached_idx_) t.(cached_size_) t.(cached_blocks_) nclk clk.

Definition set_last_acquire (t : ThreadClock) (v : Z) : ThreadClock :=
  MkThread t.(tid_) t.(reused_) v t.(cached_idx_) t.(cached_size_) t.(cached_blocks_) t.(nclk_) t.(clk_).

(** The constructor. *)
Definition ThreadClock_init (tid reused : Z) : res ThreadClock :=
  let reused_ := wrap 32 (reused + 1) in
  _ ← CHECK (tid <? kMaxTidInClock);
  _ ← CHECK (reused_ =? Z.shiftr (wrap 64 (Z.shiftl reused_ kClkBits)) kClkBits);
  Ok (MkThread tid reused_ 0 0 0 0 (tid + 1) (replicate (Z.to_nat kMaxTidInClock) 0)).

Definition ThreadClock_get (t : ThreadClock) (tid : Z) : res Z := aget t.(clk_) tid.

Definition set_time (t : ThreadClock) (v : Z) : res ThreadClock :=
  clk ← aset t.(clk_) t.(tid_) v;
  Ok (set_clk t t.(nclk_) clk).

Definition tick (t : ThreadClock) : res ThreadClock :=
  v ← aget t.(clk_) t.(tid_);
  clk ← aset t.(clk_) t.(tid_) (wrap 64 (v + 1));
  Ok (set_clk t t.(nclk_) clk).

Section ThreadClock.
Context {A C : Type} `{SlabOps A C}.
Implicit Types (t : ThreadClock) (a : A) (h : A * C) (src dst : SyncClock).

Definition ResetCached t h : res (ThreadClock * (A * C)) :=
  if negb (t.(cached_idx_) =? 0) then
    h ← UnrefClockBlock h t.(cached_idx_) t.(cached_blocks_);
    Ok (set_cached t 0 0 0, h)
  else Ok (t, h).

Definition set_other t h (tid v : Z) : res (ThreadClock * (A * C)) :=
  clk ← aset t.(clk_) tid v;
  let t := set_clk t (if t.(nclk_) <=? tid then tid + 1 else t.(nclk_)) clk in
  own ← aget t.(clk_) t.(tid_);
  ResetCached (set_last_acquire t own) h.

(** The body of the loops of [acquire]: [if (clk_[i] < epoch)]. *)
Definition acquire_at (i e : Z) (st : list Z * bool) : res (list Z * bool) :=
  v ← aget st.1 i;
  if v <? e then clk ← aset st.1 i e; Ok (clk, true) else Ok st.

Definition acquire_dirty (l : list Dirty) (st : list Z * bool) : res (list Z * bool) :=
  foldM (fun d st => if negb (d.(d_tid) =? kInvalidTid) then acquire_at d.(d_tid) d.(d_epoch) st else Ok st) l st.

(** [for (ClockElem &src_elem : *src)] *)
Definition acquire_table src a (st : list Z * bool) : res (list Z * bool) :=
  '(_, (_, st)) ← for_each src (fun p a (x : Z * (list Z * bool)) =>
    e ← read a p;
    st ← acquire_at x.1 e.(epoch) x.2;
    Ok (a, (x.1 + 1, st))) a (0, st);
  Ok st.

(** [tid_ >= nclk || src->elem(tid_).reused != reused_] *)
Definition not_acquired t src a : res bool :=
  if src.(size_) <=? t.(tid_) then Ok true else
  p ← elem src a t.(tid_);
  e ← read a p;
  Ok (negb (e.(reused) =? t.(reused_))).

Definition acquire t h src : res (ThreadClock * (A * C)) :=
  let nclk := src.(size_) in
  if nclk =? 0 then Ok (t, h) else
  st ← acquire_dirty src.(dirty_) (t.(clk_), false);
  b ← not_acquired t src h.1;
  '(nclk', st, a) ← (if b : bool then
      st ← acquire_table src h.1 st;
      a ← (if t.(tid_) <? nclk then
             p ← elem src h.1 t.(tid_);
             write_reused h.1 p t.(reused_)
           else Ok h.1);
      Ok (Z.max t.(nclk_) nclk, st, a)
    else Ok (t.(nclk_), st, h.1));
  let t := set_clk t nclk' st.1 in
  if st.2 : bool then
    own ← aget t.(clk_) t.(tid_);
    ResetCached (set_last_acquire t own) (a, h.2)
  else Ok (t, (a, h.2)).

(** The first entry that is the thread's or free. *)
Fixpoint update_dirty (l : list Dirty) (tid v : Z) : option (list Dirty) :=
  match l with
  | [] => None
  | d :: l =>
    if (d.(d_tid) =? tid) || (d.(d_tid) =? kInvalidTid) then Some (MkDirty (wrap kClkBits v) (wrap (64 - kClkBits) tid) :: l)
    else option_map (cons d) (update_dirty l tid v)
  end.

(** [for (i = first; i < dst->size_; i++) dst->elem(i).reused = 0] *)
Definition clear_reused dst a (first : Z) : res A :=
  foldM (fun i a => p ← elem dst a i; write_reused a p 0) (seqZ first (dst.(size_) - first)) a.

Definition UpdateCurrentThread t h dst : res (SyncClock * (A * C)) :=
  own ← aget t.(clk_) t.(tid_);
  match update_dirty dst.(dirty_) t.(tid_) own with
  | Some l => Ok (set_dirty dst l, h)
  | None =>
    '(dst, h) ← Unshare dst h;
    p ← elem dst h.1 t.(tid_);
    a ← write_epoch h.1 p own;
    a ← clear_reused dst a 0;
    '(dst, a) ← FlushDirty dst a;
    Ok (dst, (a, h.2))
  end.

Definition IsAlreadyAcquired t src a : res bool :=
  p ← elem src a t.(tid_);
  e ← read a p;
  if negb (e.(reused) =? t.(reused_)) then Ok false else
  foldM (fun d (b : bool) =>
    if b && negb (d.(d_tid) =? kInvalidTid) then
      v ← aget t.(clk_) d.(d_tid);
      Ok (negb (v <? d.(d_epoch)))
    else Ok b) src.(dirty_) true.

(** [for (ClockElem &ce : *dst)]: the new time from the old and the thread's. *)
Definition store_table t dst a (f : Z -> Z -> Z) : res A :=
  '(a, _) ← for_each dst (fun p a i =>
    e ← read a p;
    v ← aget t.(clk_) i;
    a ← write_epoch a p (f e.(epoch) v);
    a ← write_reused a p 0;
    Ok (a, i + 1)) a 0;
  Ok a.

(** The table of the cache becomes that of an empty clock. *)
Definition store_cached t h dst : res (SyncClock * (A * C)) :=
  let dst := set_tab dst t.(cached_idx_) t.(cached_idx_) t.(cached_size_) t.(cached_blocks_) in
  d ← aget dst.(dirty_) 0;
  _ ← CHECK (d.(d_tid) =? kInvalidTid);
  own ← aget t.(clk_) t.(tid_);
  l ← aset dst.(dirty_) 0 (MkDirty (wrap kClkBits own) (wrap (64 - kClkBits) t.(tid_)));
  let dst := set_release_store (set_dirty dst l) t.(tid_) t.(reused_) in
  p ← elem dst h.1 t.(tid_);
  a ← write_reused h.1 p t.(reused_);
  v ← ref_load a dst.(tab_);
  a ← ref_store a dst.(tab_) (v + 1);
  Ok (dst, (a, h.2)).

(** The thread caches the table it has stored. *)
Definition cache_table t a dst : res (ThreadClock * A) :=
  b ← (if t.(cached_idx_) =? 0 then Cachable dst a else Ok false);
  if b : bool then
    v ← ref_load a dst.(tab_);
    a ← (if v =? 1 then ref_store a dst.(tab_) 2 else ref_store a dst.(tab_) (v + 1));
    Ok (set_cached t dst.(tab_idx_) dst.(size_) dst.(blocks_), a)
  else Ok (t, a).

Definition ReleaseStore t h dst : res (ThreadClock * SyncClock * (A * C)) :=
  if (dst.(size_) =? 0) && negb (t.(cached_idx_) =? 0) then
    '(dst, h) ← store_cached t h dst;
    Ok (t, dst, h)
  else
  '(dst, h) ← (if dst.(size_) <? t.(nclk_) then Resize dst h t.(nclk_) else Ok (dst, h));
  fast ← (if (dst.(release_store_tid_) =? t.(tid_)) && (dst.(release_store_reused_) =? t.(reused_)) then
            p ← elem dst h.1 t.(tid_);
            e ← read h.1 p;
            Ok (t.(last_acquire_) <? e.(epoch))
          else Ok false);
  if fast : bool then
    '(dst, h) ← UpdateCurrentThread t h dst;
    Ok (t, dst, h)
  else
  '(dst, h) ← Unshare dst h;
  a ← store_table t dst h.1 (fun _ v => v);
  let dst := set_dirty dst (no_dirty <$> dst.(dirty_)) in
  let dst := set_release_store dst t.(tid_) t.(reused_) in
  p ← elem dst a t.(tid_);
  a ← write_reused a p t.(reused_);
  '(t, a) ← cache_table t a dst;
  Ok (t, dst, (a, h.2)).

Definition release t h dst : res (ThreadClock * SyncClock * (A * C)) :=
  if dst.(size_) =? 0 then ReleaseStore t h dst else
  '(dst, h) ← (if dst.(size_) <? t.(nclk_) then Resize dst h t.(nclk_) else Ok (dst, h));
  p ← elem dst h.1 t.(tid_);
  e ← read h.1 p;
  if t.(last_acquire_) <? e.(epoch) then
    '(dst, h) ← UpdateCurrentThread t h dst;
    let other := negb (dst.(release_store_tid_) =? t.(tid_)) || negb (dst.(release_store_reused_) =? t.(reused_)) in
    Ok (t, if other then set_release_store dst kInvalidTid dst.(release_store_reused_) else dst, h)
  else
  '(dst, h) ← Unshare dst h;
  acquired ← IsAlreadyAcquired t dst h.1;
  '(dst, a) ← FlushDirty dst h.1;
  a ← store_table t dst a Z.max;
  a ← clear_reused dst a t.(nclk_);
  let dst := set_release_store dst kInvalidTid 0 in
  a ← (if acquired : bool then p ← elem dst a t.(tid_); write_reused a p t.(reused_) else Ok a);
  Ok (t, dst, (a, h.2)).

Definition acq_rel t h dst : res (ThreadClock * SyncClock * (A * C)) :=
  '(t, h) ← acquire t h dst;
  ReleaseStore t h dst.
End ThreadClock.
