(* ===== verification/ClockLoops.v ===== *)
(** * The loops of the clock operations

    What the loops of ThreadClock.v and SyncClock.v do to one table
    (ClockTable.v) and to the vector of a thread: every loop over a table ends
    and is a map over its elements, and acquiring is the maximum. *)
From stdpp Require Import base numbers list gmap.
From Stdlib Require Import ZArith Lia.
From S2P Require Import Prelude Bits DenseAlloc SyncClock ClockTable ThreadClock.

Local Open Scope Z_scope.

(** ** Vectors and elements by index, zero outside *)

Definition at_ (clk : list Z) (i : Z) : Z := if i <? 0 then 0 else default 0 (clk !! Z.to_nat i).

Definition el (vs : list ClockElem) (i : Z) : ClockElem := if i <? 0 then zero_elem else default zero_elem (vs !! Z.to_nat i).

Lemma at_get clk i : 0 <= i < zlen clk -> aget clk i = Ok (at_ clk i).
Proof.
  intros Hi. unfold at_. rewrite (proj2 (Z.ltb_ge _ _)) by lia. destruct (lookup_lt_is_Some_2 clk (Z.to_nat i)) as [x Ex]; [unfold zlen in Hi; lia|]. rewrite Ex. by apply aget_lookup; lia || done.
Qed.

Lemma at_set clk i v j : 0 <= i < zlen clk -> at_ (<[Z.to_nat i := v]> clk) j = if i =? j then v else at_ clk j.
Proof.
  intros Hi. unfold at_, zlen in *. destruct (Z.ltb_spec j 0); [by rewrite (proj2 (Z.eqb_neq i j)) by lia|]. destruct (Z.eqb_spec i j) as [<-|Hne].
  - by rewrite list_lookup_insert_eq by lia.
  - by rewrite list_lookup_insert_ne by lia.
Qed.

Lemma el_lookup vs i : 0 <= i < zlen vs -> vs !! Z.to_nat i = Some (el vs i).
Proof. intros Hi. unfold el. rewrite (proj2 (Z.ltb_ge _ _)) by lia. destruct (lookup_lt_is_Some_2 vs (Z.to_nat i)) as [x Ex]; [unfold zlen in Hi; lia|]. by rewrite Ex. Qed.

Lemma el_out vs i : ~ 0 <= i < zlen vs -> el vs i = zero_elem.
Proof. intros Hi. unfold el, zlen in *. destruct (Z.ltb_spec i 0); [done|]. by rewrite lookup_ge_None_2 by lia. Qed.

Lemma el_set vs k e j : 0 <= k < zlen vs -> el (<[Z.to_nat k := e]> vs) j = if k =? j then e else el vs j.
Proof.
  intros Hk. unfold el, zlen in *. destruct (Z.ltb_spec j 0); [by rewrite (proj2 (Z.eqb_neq k j)) by lia|]. destruct (Z.eqb_spec k j) as [<-|Hne].
  - by rewrite list_lookup_insert_eq by lia.
  - by rewrite list_lookup_insert_ne by lia.
Qed.

Lemma el_ok vs i : Forall elem_ok vs -> elem_ok (el vs i).
Proof.
  intros Hf. destruct (decide (0 <= i < zlen vs)) as [Hi|Hi]; [|rewrite el_out by done; apply zero_elem_ok]. apply (Forall_lookup_1 _ _ _ _ Hf (el_lookup vs i Hi)).
Qed.

Lemma el_app_zeros vs n i : el (vs ++ replicate n zero_elem) i = el vs i.
Proof.
  unfold el. destruct (i <? 0); [done|]. destruct (decide (Z.to_nat i < length vs)%nat); [by rewrite lookup_app_l|]. rewrite lookup_app_r, (lookup_ge_None_2 vs) by lia.
  destruct (replicate n zero_elem !! _) eqn:E; [|done]. by apply lookup_replicate in E as [-> _].
Qed.

(** The elements as a function of their index. *)
Definition tabulate (vs : list ClockElem) (g : Z -> ClockElem -> ClockElem) : list ClockElem := imap (fun k e => g (Z.of_nat k) e) vs.

Lemma tabulate_length vs g : length (tabulate vs g) = length vs.
Proof. apply length_imap. Qed.

Lemma tabulate_lookup vs g k : 0 <= k < zlen vs -> tabulate vs g !! Z.to_nat k = Some (g k (el vs k)).
Proof. intros Hk. unfold tabulate. rewrite list_lookup_imap, (el_lookup vs k Hk). cbn. by rewrite Z2Nat.id by lia. Qed.

Lemma el_tabulate vs g k : el (tabulate vs g) k = if (0 <=? k) && (k <? zlen vs) then g k (el vs k) else zero_elem.
Proof.
  destruct (decide (0 <= k < zlen vs)) as [Hk|Hk].
  - unfold el at 1. rewrite (proj2 (Z.ltb_ge _ _)), tabulate_lookup, (proj2 (Z.leb_le _ _)), (proj2 (Z.ltb_lt _ _)) by lia. done.
  - rewrite el_out by (unfold zlen in *; rewrite tabulate_length; done). destruct (Z.leb_spec 0 k), (Z.ltb_spec k (zlen vs)); cbn; lia || done.
Qed.

Lemma tabulate_ok vs g : Forall elem_ok vs -> (forall k e, 0 <= k < zlen vs -> elem_ok e -> elem_ok (g k e)) -> Forall elem_ok (tabulate vs g).
Proof.
  intros Hf Hg. apply Forall_lookup. intros k e. unfold tabulate. rewrite list_lookup_imap. destruct (vs !! k) as [x|] eqn:Ex; [|done]. intros [= <-]. apply Hg; [apply lookup_lt_Some in Ex; unfold zlen; lia|].
  by apply (Forall_lookup_1 _ _ _ _ Hf Ex).
Qed.

Section Loops.
Context {A C : Type} `{ClockBlocks A C}.
Implicit Types (a : A) (cs : gmap Z C) (s : SyncClock) (t : table) (th : ThreadClock) (rest : list (Z * block)).

(** The table while a loop replaces its elements in order. *)
Definition partly t (k : Z) (g : Z -> ClockElem -> ClockElem) : table := set_vals t (mix k (tabulate t.(vals) g) t.(vals)).

Lemma partly_ok t k g : table_ok t -> (forall k e, 0 <= k < zlen t.(vals) -> elem_ok e -> elem_ok (g k e)) -> table_ok (partly t k g).
Proof.
  intros Ht Hg. pose proof Ht as ((_ & _ & Hf & _) & _). apply set_vals_ok; [done|by rewrite mix_length by apply tabulate_length; apply tabulate_length|].
  apply mix_forall; [|done]. by apply tabulate_ok.
Qed.

Lemma partly_start t g k : 0 <= k -> (forall j, 0 <= j < k -> g j (el t.(vals) j) = el t.(vals) j) -> partly t k g = t.
Proof.
  intros Hk Hg. unfold partly, set_vals. destruct t as [i r vs]. cbn [ids refc vals] in *. f_equal. unfold mix. rewrite <- (take_drop (Z.to_nat k) vs) at 3. unfold ztake, zdrop. f_equal.
  apply list_eq. intros j. destruct (decide (j < Z.to_nat k)%nat); [|by rewrite !lookup_take_ge by lia]. rewrite !lookup_take_lt by done. destruct (decide (j < length vs)%nat) as [Hj|Hj].
  - replace j with (Z.to_nat (Z.of_nat j)) by lia. rewrite tabulate_lookup, Hg, <- el_lookup by (unfold zlen; lia). done.
  - rewrite !lookup_ge_None_2 by (rewrite ?tabulate_length; lia). done.
Qed.

Lemma partly_end t g k : zlen t.(vals) <= k -> partly t k g = set_vals t (tabulate t.(vals) g).
Proof. intros Hk. unfold partly. f_equal. unfold mix, ztake, zdrop, zlen in *. rewrite take_ge, drop_ge by (rewrite ?tabulate_length; lia). apply app_nil_r. Qed.

Lemma partly_lookup t k g : 0 <= k < zlen t.(vals) -> (partly t k g).(vals) !! Z.to_nat k = Some (el t.(vals) k).
Proof.
  intros Hk. cbn [partly vals set_vals]. unfold mix, ztake, zdrop. pose proof (tabulate_length t.(vals) g) as Hl. unfold zlen in Hk. rewrite lookup_app_r; rewrite length_take, Hl; [|lia].
  rewrite lookup_drop, <- el_lookup by (unfold zlen; lia). f_equal. lia.
Qed.

Lemma partly_step t k g e : 0 <= k < zlen t.(vals) -> e = g k (el t.(vals) k) -> set_val (partly t k g) k e = partly t (k + 1) g.
Proof. intros Hk ->. unfold partly, set_val, set_vals. cbn [ids refc vals]. rewrite mix_step; [done|apply tabulate_length|lia|by apply tabulate_lookup]. Qed.

(** [store_table]: every element gets a new time and loses its flag. *)
Lemma store_table_ok i t s a cs rest th f :
  table_ok t -> on_table s i t -> zlen t.(vals) <= zlen th.(clk_) -> (forall k, 0 <= k < zlen t.(vals) -> 0 <= f (el t.(vals) k).(epoch) (at_ th.(clk_) k) < 2 ^ 42) ->
  heap a cs (pieces i t ++ rest) ->
  exists a', store_table th s a f = Ok a' /\ heap a' cs (pieces i (set_vals t (tabulate t.(vals) (fun k e => MkElem (f e.(epoch) (at_ th.(clk_) k)) 0))) ++ rest).
Proof.
  intros Ht Hs Hclk Hf Hh. set (g := fun k e => MkElem (f e.(epoch) (at_ th.(clk_) k)) 0). set (g' := fun k (e : ClockElem) => g k (el t.(vals) k)).
  assert (Eg : tabulate t.(vals) g = tabulate t.(vals) g').
  { apply list_eq. intros j. destruct (decide (j < length t.(vals))%nat) as [Hj|Hj]; [|by rewrite !lookup_ge_None_2 by (rewrite tabulate_length; lia)].
    replace j with (Z.to_nat (Z.of_nat j)) by lia. rewrite !tabulate_lookup by (unfold zlen; lia). done. }
  rewrite Eg. assert (Hg : forall k e, 0 <= k < zlen t.(vals) -> elem_ok e -> elem_ok (g' k e)) by (intros k e Hk _; split; [by apply Hf|cbn; lia]).
  assert (Hp : forall k, table_ok (partly t k g')) by (intros k; by apply partly_ok).
  destruct (for_each_rule (fun k a x => x = k /\ heap a cs (pieces i (partly t k g') ++ rest)) cs i t rest s
    (fun p a i => e ← read a p; v ← aget th.(clk_) i; a ← write_epoch a p (f e.(epoch) v); a ← write_reused a p 0; Ok (a, i + 1)) a 0 Hh Ht Hs) as (a' & x & E & _ & Hh').
  - intros k a1 x [_ Hh1]. exists (partly t k g'), rest. split; [done|]. split; [done|]. apply (Hp k).
  - intros k a1 x Hk [-> Hh1]. change (addr i t k) with (addr i (partly t k g') k). pose proof (partly_lookup t k g' Hk) as El.
    rewrite (read_ok a1 cs i _ rest k _ Hh1 (proj1 (Hp k)) (proj1 Hk) El), bind_ok. rewrite at_get, bind_ok by lia.
    destruct (write_epoch_ok a1 cs i _ rest k _ (f (el t.(vals) k).(epoch) (at_ th.(clk_) k)) Hh1 (proj1 (Hp k)) (proj1 Hk) El (Hf k Hk)) as (a2 & -> & Hh2). rewrite bind_ok.
    set (e2 := MkElem _ (el t.(vals) k).(reused)) in Hh2. assert (Hlen : zlen (partly t k g').(vals) = zlen t.(vals)) by (unfold zlen; cbn [partly vals set_vals]; by rewrite mix_length, tabulate_length by apply tabulate_length).
    assert (He2 : elem_ok e2). { pose proof Ht as ((_ & _ & Hfo & _) & _). split; [by apply Hf|]. by apply (el_ok t.(vals) k Hfo). }
    assert (El2 : (set_val (partly t k g') k e2).(vals) !! Z.to_nat k = Some e2) by (cbn [set_val vals]; apply list_lookup_insert_eq; unfold zlen in *; lia).
    change (addr i (partly t k g') k) with (addr i (set_val (partly t k g') k e2) k).
    destruct (write_reused_ok a2 cs i _ rest k e2 0 Hh2 (set_val_shape _ k e2 (proj1 (Hp k)) He2) (proj1 Hk) El2 ltac:(lia)) as (a3 & -> & Hh3). rewrite bind_ok. exists a3, (k + 1). split; [done|]. split; [done|].
    rewrite <- (partly_step t k g' (MkElem e2.(epoch) 0) Hk eq_refl). revert Hh3. unfold set_val. cbn [ids refc vals]. by rewrite list_insert_insert_eq.
  - split; [done|]. rewrite partly_start by (lia || intros; lia). done.
  - unfold store_table. rewrite E, bind_ok. exists a'. split; [done|]. by rewrite partly_end in Hh' by lia.
Qed.

(** [clear_reused]: the elements from [first] on lose their flags. *)
Lemma clear_reused_ok i t s a cs rest first :
  table_ok t -> on_table s i t -> 0 <= first -> heap a cs (pieces i t ++ rest) ->
  exists a', clear_reused s a first = Ok a' /\ heap a' cs (pieces i (set_vals t (tabulate t.(vals) (fun k e => if first <=? k then MkElem e.(epoch) 0 else e))) ++ rest).
Proof.
  intros Ht (Es & Eb & Ez) Hfirst Hh. set (g := fun k e => if first <=? k then MkElem e.(epoch) 0 else e).
  assert (Hg : forall k e, 0 <= k < zlen t.(vals) -> elem_ok e -> elem_ok (g k e)) by (intros k e Hk [? ?]; unfold g; destruct (first <=? k); split; done).
  assert (Hp : forall k, table_ok (partly t k g)) by (intros k; by apply partly_ok). unfold clear_reused. rewrite Ez.
  destruct (foldM_inv (fun pre a => heap a cs (pieces i (partly t (first + zlen pre) g) ++ rest)) (fun i a => p ← elem s a i; write_reused a p 0) (seqZ first (zlen t.(vals) - first)) a) as (a' & E & Hh').
  - change (zlen (@nil Z)) with 0. rewrite Z.add_0_r, partly_start; [done|done|]. intros j Hj. unfold g. by rewrite (proj2 (Z.leb_gt _ _)) by lia.
  - intros pre k post a1 El Hh1. apply seqZ_split in El as [Ek Hlt]. subst k. set (k := first + zlen pre) in *. pose proof (zlen_nonneg pre). assert (Hk : 0 <= k < zlen t.(vals)) by lia.
    assert (Hlen : zlen (partly t k g).(vals) = zlen t.(vals)) by (unfold zlen; cbn [partly vals set_vals]; by rewrite mix_length, tabulate_length by apply tabulate_length).
    rewrite (elem_ok_at a1 cs i (partly t k g) rest), bind_ok; [|done|apply (Hp k)|done|done|lia].
    destruct (write_reused_ok a1 cs i _ rest k _ 0 Hh1 (proj1 (Hp k)) (proj1 Hk) (partly_lookup t k g Hk) ltac:(lia)) as (a2 & -> & Hh2). exists a2. split; [done|].
    rewrite zlen_app. change (zlen [k]) with 1. rewrite Z.add_assoc. fold k. rewrite <- (partly_step t k g (MkElem (el t.(vals) k).(epoch) 0) Hk); [done|]. unfold g. by rewrite (proj2 (Z.leb_le _ _)) by lia.
  - exists a'. split; [exact E|]. rewrite partly_end in Hh'; [done|]. unfold zlen. rewrite length_seqZ. lia.
Qed.

(** *** Dirty entries *)

Definition valid (d : Dirty) : bool := negb (d.(d_tid) =? kInvalidTid).

Definition flush_one (d : Dirty) (vs : list ClockElem) : list ClockElem :=
  if valid d then <[Z.to_nat d.(d_tid) := MkElem d.(d_epoch) (el vs d.(d_tid)).(reused)]> vs else vs.

Definition dirty_in (n : Z) (d : Dirty) : Prop := valid d = true -> 0 <= d.(d_tid) < n /\ 0 <= d.(d_epoch) < 2 ^ 42.

Lemma flush_one_length d vs : length (flush_one d vs) = length vs.
Proof. unfold flush_one. destruct (valid d); [apply length_insert|done]. Qed.

Lemma flush_one_ok d vs : Forall elem_ok vs -> dirty_in (zlen vs) d -> Forall elem_ok (flush_one d vs).
Proof. intros Hf Hd. unfold flush_one. destruct (valid d) eqn:E; [|done]. destruct (Hd E). apply Forall_insert; [done|]. split; [done|]. by apply (el_ok vs d.(d_tid) Hf). Qed.

Lemma FlushDirty_ok i t s a cs rest :
  table_ok t -> on_table s i t -> Forall (dirty_in (zlen t.(vals))) s.(dirty_) -> heap a cs (pieces i t ++ rest) ->
  exists a', FlushDirty s a = Ok (set_dirty s (no_dirty <$> s.(dirty_)), a') /\
    heap a' cs (pieces i (set_vals t (foldl (fun vs d => flush_one d vs) t.(vals) s.(dirty_))) ++ rest) /\ table_ok (set_vals t (foldl (fun vs d => flush_one d vs) t.(vals) s.(dirty_))).
Proof.
  intros Ht (Es & Eb & Ez) Hd Hh. unfold FlushDirty. rewrite Ez.
  destruct (foldM_inv (fun pre a => let vs := foldl (fun vs d => flush_one d vs) t.(vals) pre in length vs = length t.(vals) /\ table_ok (set_vals t vs) /\ heap a cs (pieces i (set_vals t vs) ++ rest))
    (fun d a => if negb (d.(d_tid) =? kInvalidTid) then _ ← CHECK (d.(d_tid) <? zlen t.(vals)); p ← elem s a d.(d_tid); write_epoch a p d.(d_epoch) else Ok a) s.(dirty_) a) as (a' & -> & Hl & Hok & Hh').
  - cbn. split; [done|]. replace (set_vals t t.(vals)) with t by by destruct t. done.
  - intros pre d post a1 El (Hl & Hok & Hh1). assert (Hdd : dirty_in (zlen t.(vals)) d) by (rewrite El in Hd; apply Forall_app in Hd as [_ Hd]; by apply Forall_cons in Hd as [? _]).
    cbn zeta. rewrite foldl_app. cbn [foldl]. set (vs := foldl (fun vs d => flush_one d vs) t.(vals) pre) in *. change (negb (d.(d_tid) =? kInvalidTid)) with (valid d).
    unfold flush_one. destruct (valid d) eqn:Ev; [|eauto]. destruct (Hdd Ev) as [Htid Hep]. rewrite (proj2 (Z.ltb_lt _ _)) by lia. cbn [CHECK]. rewrite bind_ok.
    assert (Hlen : zlen vs = zlen t.(vals)) by (unfold zlen; lia). rewrite (elem_ok_at a1 cs i (set_vals t vs) rest), bind_ok; [|done|apply Hok|done|done|cbn [vals set_vals]; lia].
    destruct (write_epoch_ok a1 cs i (set_vals t vs) rest d.(d_tid) (el vs d.(d_tid)) d.(d_epoch) Hh1 (proj1 Hok)) as (a2 & -> & Hh2); [lia|cbn [vals set_vals]; apply el_lookup; lia|done|].
    exists a2. split; [done|]. split; [by rewrite length_insert|]. split; [|exact Hh2]. apply (set_val_ok (set_vals t vs)); [done|]. split; [done|]. pose proof Hok as ((_ & _ & Hf & _) & _). by apply (el_ok vs d.(d_tid) Hf).
  - rewrite bind_ok. eauto.
Qed.

(** *** Acquiring *)

Definition dirty_max (l : list Dirty) (j : Z) : Z := foldr (fun d m => if valid d && (d.(d_tid) =? j) then Z.max d.(d_epoch) m else m) 0 l.

Lemma acquire_at_ok i e clk b :
  0 <= i < zlen clk -> exists clk' b', acquire_at i e (clk, b) = Ok (clk', b') /\ zlen clk' = zlen clk /\
    (forall j, at_ clk' j = if i =? j then Z.max (at_ clk i) e else at_ clk j) /\ (b' = false -> b = false /\ clk' = clk).
Proof.
  intros Hi. unfold acquire_at. cbn [fst snd]. rewrite at_get, bind_ok by done. destruct (Z.ltb_spec (at_ clk i) e) as [Hlt|Hge].
  - rewrite aset_ok, bind_ok by done. eexists _, true. split; [done|]. split; [apply zlen_insert|]. split; [|done]. intros j. rewrite at_set by done. destruct (i =? j); lia.
  - exists clk, b. split; [done|]. split; [done|]. split; [|done]. intros j. destruct (Z.eqb_spec i j) as [<-|]; lia.
Qed.

Lemma acquire_dirty_ok l : forall clk b, (forall j, 0 <= at_ clk j) -> Forall (dirty_in (zlen clk)) l ->
  exists clk' b', acquire_dirty l (clk, b) = Ok (clk', b') /\ zlen clk' = zlen clk /\ (forall j, at_ clk' j = Z.max (at_ clk j) (dirty_max l j)) /\ (b' = false -> b = false /\ clk' = clk).
Proof.
  induction l as [|d l IH]; intros clk b Hpos Hd; unfold acquire_dirty in *; cbn [foldM dirty_max foldr].
  { exists clk, b. split; [done|]. split; [done|]. split; [intros j; specialize (Hpos j); lia|done]. }
  apply Forall_cons in Hd as [Hd1 Hd]. change (negb (d.(d_tid) =? kInvalidTid)) with (valid d). destruct (valid d) eqn:Ev; cbn [andb].
  - destruct (Hd1 Ev) as [Ht He]. destruct (acquire_at_ok d.(d_tid) d.(d_epoch) clk b Ht) as (clk1 & b1 & -> & Hl1 & Ha1 & Hb1). rewrite bind_ok.
    destruct (IH clk1 b1) as (clk' & b' & -> & Hl' & Ha' & Hb'); [intros j; rewrite Ha1; specialize (Hpos j); destruct (Z.eqb_spec d.(d_tid) j) as [<-|]; lia|by rewrite Hl1|].
    exists clk', b'. split; [done|]. split; [lia|]. split; [|intros Hf; destruct (Hb' Hf) as [-> ->]; by apply Hb1].
    intros j. rewrite Ha', Ha1. fold (dirty_max l j). destruct (Z.eqb_spec d.(d_tid) j) as [<-|]; lia.
  - rewrite bind_ok. apply IH; done.
Qed.

Lemma acquire_table_ok i t s a cs rest clk b :
  table_ok t -> on_table s i t -> zlen t.(vals) <= zlen clk -> (forall j, 0 <= at_ clk j) -> heap a cs (pieces i t ++ rest) ->
  exists clk' b', acquire_table s a (clk, b) = Ok (clk', b') /\ zlen clk' = zlen clk /\ (forall j, at_ clk' j = Z.max (at_ clk j) (el t.(vals) j).(epoch)) /\ (b' = false -> b = false /\ clk' = clk).
Proof.
  intros Ht Hs Hl Hpos Hh. pose proof Ht as ((_ & _ & Hf & _) & _).
  destruct (for_each_rule (fun k a1 (x : Z * (list Z * bool)) => a1 = a /\ x.1 = k /\ zlen x.2.1 = zlen clk /\
      (forall j, at_ x.2.1 j = if j <? k then Z.max (at_ clk j) (el t.(vals) j).(epoch) else at_ clk j) /\ (x.2.2 = false -> b = false /\ x.2.1 = clk)) cs i t rest s
    (fun p a (x : Z * (list Z * bool)) => e ← read a p; st ← acquire_at x.1 e.(epoch) x.2; Ok (a, (x.1 + 1, st))) a (0, (clk, b)) Hh Ht Hs) as (a' & [k [clk' b']] & E & _ & _ & Hlen & Ha & Hb).
  - intros k a1 x (-> & _). exists t, rest. split; [done|]. split; [done|]. apply Ht.
  - intros k a1 [k' [clk1 b1]] Hk (-> & Ek & Hlen & Ha & Hb). cbn [fst snd] in *. subst k'. rewrite (read_ok a cs i t rest k (el t.(vals) k)), bind_ok; [|done|apply Ht|lia|by apply el_lookup].
    destruct (acquire_at_ok k (el t.(vals) k).(epoch) clk1 b1) as (clk2 & b2 & -> & Hl2 & Ha2 & Hb2); [lia|]. rewrite bind_ok. eexists _, _. split; [done|]. cbn [fst snd]. split; [done|]. split; [done|]. split; [lia|].
    split; [|intros Hfl; destruct (Hb2 Hfl) as [Hb1 ->]; by apply Hb]. intros j. rewrite Ha2, !Ha. destruct (Z.eqb_spec k j) as [<-|Hne].
    + rewrite Z.ltb_irrefl, (proj2 (Z.ltb_lt _ _)) by lia. done.
    + destruct (Z.ltb_spec j k), (Z.ltb_spec j (k + 1)); lia || done.
  - split; [done|]. split; [done|]. split; [done|]. cbn [fst snd]. split; [|done]. intros j. destruct (Z.ltb_spec j 0); [|done]. rewrite el_out by lia. specialize (Hpos j). cbn. lia.
  - unfold acquire_table. rewrite E, bind_ok. cbn [fst snd] in *. exists clk', b'. split; [done|]. split; [done|]. split; [|done]. intros j. rewrite Ha. destruct (Z.ltb_spec j (zlen t.(vals))); [done|].
    rewrite el_out by lia. specialize (Hpos j). cbn. lia.
Qed.
End Loops.
