(* ===== verification/ClockStore.v ===== *)
(** * Clocks that share tables

    The clocks of all threads and synchronisation objects over one allocator:
    every table in use with the number of its references.  Shown: the
    operations of SyncClock.v and the cache of ThreadClock.v keep the reference
    counts exact, never use or free a table too early or leak one, change a
    table in place only if it has one reference (but for the flags of who has
    acquired it), and do not change the vector of any other clock. *)
From stdpp Require Import base numbers list gmap.
From Stdlib Require Import ZArith Lia.
From S2P Require Import Prelude Bits DenseAlloc SyncClock ClockTable ThreadClock ClockLoops.

Local Open Scope Z_scope.

(** ** Counting *)

Definition count {X : Type} (P : X -> bool) (m : gmap Z X) : Z := Z.of_nat (size (filter (fun kx : Z * X => P kx.2 = true) m)).

Lemma count_nonneg {X} (P : X -> bool) m : 0 <= count P m.
Proof. unfold count. lia. Qed.

Lemma count_new {X} (P : X -> bool) m k x : m !! k = None -> count P (<[k := x]> m) = count P m + if P x then 1 else 0.
Proof.
  intros Hk. unfold count. destruct (P x) eqn:E.
  - rewrite map_filter_insert_True by done. rewrite map_size_insert_None; [lia|]. apply map_lookup_filter_None. by left.
  - rewrite map_filter_insert_False by (cbn; congruence). rewrite delete_id by done. lia.
Qed.

Lemma count_delete {X} (P : X -> bool) m k x : m !! k = Some x -> count P m = count P (delete k m) + if P x then 1 else 0.
Proof. intros Hk. rewrite <- (count_new P (delete k m) k x) by apply lookup_delete_eq. by rewrite insert_delete_eq, insert_id. Qed.

Lemma count_put {X} (P : X -> bool) m k x y : m !! k = Some x -> count P (<[k := y]> m) = count P m - (if P x then 1 else 0) + if P y then 1 else 0.
Proof. intros Hk. rewrite (count_delete P m k x Hk), <- insert_delete_eq, count_new by apply lookup_delete_eq. lia. Qed.

Lemma count_pos {X} (P : X -> bool) m k x : m !! k = Some x -> P x = true -> 0 < count P m.
Proof. intros Hk HP. rewrite (count_delete P m k x Hk), HP. pose proof (count_nonneg P (delete k m)). lia. Qed.

Lemma count_zero {X} (P : X -> bool) m : (forall k x, m !! k = Some x -> P x = false) -> count P m = 0.
Proof.
  intros HP. unfold count. assert (filter (fun kx : Z * X => P kx.2 = true) m = ∅) as ->; [|done]. apply map_empty_filter_2. intros k x Hk. cbn. rewrite (HP k x Hk). done.
Qed.

Lemma size_of_list (l : list Z) : (size (list_to_set l : gset Z) <= length l)%nat.
Proof.
  induction l as [|x l IH]; [cbn; by rewrite size_empty|]. cbn [list_to_set length]. rewrite size_union_alt, size_singleton. apply le_n_S. etrans; [|exact IH]. apply subseteq_size. set_solver +.
Qed.

(** ** Tables and their users *)

Definition blocks (T : gmap Z table) : list (Z * block) := map_to_list T ≫= fun it => pieces it.1 it.2.

Lemma blocks_get T i t : T !! i = Some t -> blocks T ≡ₚ pieces i t ++ blocks (delete i T).
Proof. intros E. unfold blocks. rewrite <- (map_to_list_delete T i t E). done. Qed.

Lemma blocks_put T i t : blocks (<[i := t]> T) ≡ₚ pieces i t ++ blocks (delete i T).
Proof. rewrite (blocks_get _ i t) by apply lookup_insert_eq. by rewrite delete_insert_eq. Qed.

Definition uses (i : Z) (s : SyncClock) : bool := negb (s.(size_) =? 0) && (s.(tab_idx_) =? i).

Definition caches_tab (i : Z) (th : ThreadClock) : bool := negb (th.(cached_idx_) =? 0) && (th.(cached_idx_) =? i).

Definition refs (thr : gmap Z ThreadClock) (syn : gmap Z SyncClock) (i : Z) : Z := count (uses i) syn + count (caches_tab i) thr.

Definition sync_wf (T : gmap Z table) (s : SyncClock) : Prop :=
  is_empty s \/ exists t, T !! s.(tab_idx_) = Some t /\ on_table s s.(tab_idx_) t.

Definition cache_wf (T : gmap Z table) (th : ThreadClock) : Prop :=
  th.(cached_idx_) = 0 \/ exists t, T !! th.(cached_idx_) = Some t /\ th.(cached_size_) = zlen t.(vals) /\ th.(cached_blocks_) = zlen t.(ids).

(** The elements of a clock, and of a thread's cache. *)
Definition vals_of (T : gmap Z table) (s : SyncClock) : list ClockElem := if s.(size_) =? 0 then [] else default [] (vals <$> T !! s.(tab_idx_)).

Definition cached_vals (T : gmap Z table) (th : ThreadClock) : option (list ClockElem) := if th.(cached_idx_) =? 0 then None else vals <$> T !! th.(cached_idx_).

Definition tables_wf (thr : gmap Z ThreadClock) (syn : gmap Z SyncClock) (T : gmap Z table) : Prop :=
  forall i t, T !! i = Some t -> i <> 0 /\ table_ok t /\ zlen t.(vals) <= kMaxTid /\ t.(refc) = refs thr syn i.

(** Nobody else sees a change from [T] to [T']. *)
Definition same_vals (thr : gmap Z ThreadClock) (syn : gmap Z SyncClock) (T T' : gmap Z table) : Prop :=
  (forall k s, syn !! k = Some s -> vals_of T' s = vals_of T s) /\ (forall k th, thr !! k = Some th -> cached_vals T' th = cached_vals T th).

Section Store.
Context {A C : Type} `{ClockBlocks A C}.
Implicit Types (a : A) (c : C) (cs : gmap Z C) (T : gmap Z table) (t : table) (s : SyncClock) (th : ThreadClock)
  (thr : gmap Z ThreadClock) (syn : gmap Z SyncClock).

Definition store_wf a cs thr syn T : Prop :=
  heap a cs (blocks T) /\ tables_wf thr syn T /\ (forall k s, syn !! k = Some s -> sync_wf T s) /\ (forall k th, thr !! k = Some th -> cache_wf T th).

Lemma store_focus a cs thr syn T i t : store_wf a cs thr syn T -> T !! i = Some t -> heap a cs (pieces i t ++ blocks (delete i T)) /\ table_ok t /\ zlen t.(vals) <= kMaxTid /\ i <> 0.
Proof. intros (Hh & HT & _) E. destruct (HT i t E) as (? & ? & ? & _). by rewrite <- blocks_get. Qed.

Lemma new_index a cs T i t : heap a cs (pieces i t ++ blocks T) -> T !! i = None.
Proof.
  intros Hh. destruct (T !! i) as [u|] eqn:E; [|done]. pose proof (heap_nodup a cs _ Hh) as Hnd. rewrite (blocks_get T i u E), fmap_app in Hnd. exfalso.
  apply NoDup_app in Hnd as (_ & Hd & _). apply (Hd i); cbn; [left|left].
Qed.

Lemma uses_on T s i t : T !! i = Some t -> table_ok t -> on_table s i t -> s.(tab_idx_) = i -> uses i s = true.
Proof. intros _ (_ & Hp & _) (_ & _ & Ez) Ei. unfold uses. rewrite Ez, (proj2 (Z.eqb_neq _ _)), Ei, Z.eqb_refl by lia. done. Qed.

(** The only reference to a table. *)
Lemma sole_user thr syn T k s i t :
  tables_wf thr syn T -> T !! i = Some t -> t.(refc) = 1 -> syn !! k = Some s -> uses i s = true ->
  (forall k' s', k' <> k -> syn !! k' = Some s' -> uses i s' = false) /\ (forall k' th, thr !! k' = Some th -> caches_tab i th = false).
Proof.
  intros HT Hi Hr Hk Hu. destruct (HT i t Hi) as (_ & _ & _ & Hrefs). rewrite Hr in Hrefs. unfold refs in Hrefs. rewrite (count_delete _ syn k s Hk), Hu in Hrefs.
  pose proof (count_nonneg (uses i) (delete k syn)) as H1'. pose proof (count_nonneg (caches_tab i) thr) as H2'. split.
  - intros k' s' Hne Hs'. destruct (uses i s') eqn:E; [|done]. pose proof (count_pos (uses i) (delete k syn) k' s') as Hp. rewrite lookup_delete_ne in Hp by done. specialize (Hp Hs' E). lia.
  - intros k' th Hth. destruct (caches_tab i th) eqn:E; [|done]. pose proof (count_pos (caches_tab i) thr k' th Hth E). lia.
Qed.

(** Clocks and caches that do not use a table do not see it. *)
Lemma vals_of_other T i t s : uses i s = false -> vals_of (<[i := t]> T) s = vals_of T s.
Proof.
  unfold uses, vals_of. destruct (s.(size_) =? 0); [done|]. cbn [negb andb]. intros Hne%Z.eqb_neq. by rewrite lookup_insert_ne by done.
Qed.

Lemma cached_vals_other T i t th : caches_tab i th = false -> cached_vals (<[i := t]> T) th = cached_vals T th.
Proof. unfold caches_tab, cached_vals. destruct (th.(cached_idx_) =? 0); [done|]. cbn [negb andb]. intros Hne%Z.eqb_neq. by rewrite lookup_insert_ne by done. Qed.

Lemma sync_wf_other T i t s : uses i s = false -> sync_wf T s -> (forall t0, T !! i = Some t0 -> table_ok t0) -> sync_wf (<[i := t]> T) s.
Proof.
  intros Hu [He|(t0 & Ht & Hon)] Hok; [by left|right]. exists t0. split; [|done]. rewrite lookup_insert_ne; [done|]. intros ->. rewrite (uses_on T s s.(tab_idx_) t0) in Hu; try done. by apply Hok.
Qed.

Lemma cache_wf_other T i t th : caches_tab i th = false -> cache_wf T th -> cache_wf (<[i := t]> T) th.
Proof.
  intros Hu [He|(t0 & Ht & Hon)]; [by left|]. unfold caches_tab in Hu. destruct (Z.eqb_spec th.(cached_idx_) 0) as [?|Hn]; [by left|right]. cbn [negb andb] in Hu. apply Z.eqb_neq in Hu.
  exists t0. by rewrite lookup_insert_ne.
Qed.

(** The same shape with other contents: for everybody. *)
Lemma sync_wf_same T i t t' s : T !! i = Some t -> t'.(ids) = t.(ids) -> length t'.(vals) = length t.(vals) -> sync_wf T s -> sync_wf (<[i := t']> T) s.
Proof.
  intros Hi Eid El [He|(t0 & Ht & Hon)]; [by left|right]. destruct (decide (s.(tab_idx_) = i)) as [E|Hne]; [rewrite E in *|].
  - rewrite Hi in Ht. injection Ht as <-. exists t'. rewrite lookup_insert_eq. split; [done|]. destruct Hon as (? & ? & ?). unfold on_table, zlen. rewrite Eid, El. done.
  - exists t0. by rewrite lookup_insert_ne.
Qed.

Lemma cache_wf_same T i t t' th : T !! i = Some t -> t'.(ids) = t.(ids) -> length t'.(vals) = length t.(vals) -> cache_wf T th -> cache_wf (<[i := t']> T) th.
Proof.
  intros Hi Eid El [He|(t0 & Ht & Hon)]; [by left|right]. destruct (decide (th.(cached_idx_) = i)) as [E|Hne]; [rewrite E in *|].
  - rewrite Hi in Ht. injection Ht as <-. exists t'. rewrite lookup_insert_eq. split; [done|]. unfold zlen. rewrite Eid, El. done.
  - exists t0. by rewrite lookup_insert_ne.
Qed.

(** *** Room *)

Definition roomy cs thr syn : Prop := 128 * (Z.of_nat (size thr) + Z.of_nat (size syn)) + 256 + 128 * Z.of_nat (size cs) <= sl_limit /\ Z.of_nat (size thr) + Z.of_nat (size syn) < 2 ^ 32 - 1.

Lemma pieces_length i t : zlen (pieces i t) = 1 + zlen t.(ids).
Proof. unfold zlen, pieces. cbn [length]. rewrite length_fmap, length_seq. lia. Qed.

Lemma tables_bound thr syn T : tables_wf thr syn T -> Z.of_nat (size T) <= Z.of_nat (size thr) + Z.of_nat (size syn).
Proof.
  intros HT. set (l := (tab_idx_ ∘ snd <$> map_to_list syn) ++ (cached_idx_ ∘ snd <$> map_to_list thr)).
  assert (Hl : length l = (size syn + size thr)%nat) by (unfold l; rewrite length_app, !length_fmap, !length_map_to_list; done).
  cut (size T <= length l)%nat; [lia|]. rewrite <- size_dom. transitivity (size (list_to_set l : gset Z)); [|apply size_of_list]. apply subseteq_size. intros i [t Hi]%elem_of_dom. apply elem_of_list_to_set.
  destruct (HT i t Hi) as (_ & ((_ & _ & _ & Hr) & _) & _ & Hrefs). unfold l. rewrite elem_of_app. destruct (decide (count (uses i) syn = 0)) as [E0|Hne].
  - right. unfold refs in Hrefs. assert (Hp : count (caches_tab i) thr <> 0) by lia.
    destruct (decide (Exists (fun kx : Z * ThreadClock => caches_tab i kx.2 = true) (map_to_list thr))) as [Hex|Hno].
    + apply Exists_exists in Hex as ([k th] & Hin & Hc). apply list_elem_of_fmap. exists (k, th). split; [|done]. cbn in *. unfold caches_tab in Hc. apply andb_true_iff in Hc as [_ ->%Z.eqb_eq]. done.
    + destruct Hp. apply count_zero. intros k th Hk. destruct (caches_tab i th) eqn:E; [|done]. destruct Hno. apply Exists_exists. exists (k, th). split; [by apply elem_of_map_to_list|done].
  - left. destruct (decide (Exists (fun kx : Z * SyncClock => uses i kx.2 = true) (map_to_list syn))) as [Hex|Hno].
    + apply Exists_exists in Hex as ([k s] & Hin & Hc). apply list_elem_of_fmap. exists (k, s). split; [|done]. cbn in *. unfold uses in Hc. apply andb_true_iff in Hc as [_ ->%Z.eqb_eq]. done.
    + destruct Hne. apply count_zero. intros k s Hk. destruct (uses i s) eqn:E; [|done]. destruct Hno. apply Exists_exists. exists (k, s). split; [by apply elem_of_map_to_list|done].
Qed.

Lemma blocks_bound thr syn T : tables_wf thr syn T -> zlen (blocks T) <= 128 * Z.of_nat (size T).
Proof.
  intros HT. assert (Hall : Forall (fun it : Z * table => zlen it.2.(ids) <= 127) (map_to_list T)).
  { apply Forall_forall. intros [i t] Hin%elem_of_map_to_list. destruct (HT i t Hin) as (_ & ((Hn & _) & _) & _). done. }
  unfold blocks. rewrite <- length_map_to_list. induction Hall as [|[i t] l Hn _ IH]; [unfold zlen; cbn; lia|]. rewrite bind_cons, zlen_app. cbn [length fst snd] in *. rewrite pieces_length. lia.
Qed.

Lemma roomy_room a cs thr syn T n : roomy cs thr syn -> store_wf a cs thr syn T -> n <= 256 -> room cs (blocks T) n.
Proof. intros [Hr _] (_ & HT & _) Hn. pose proof (tables_bound thr syn T HT). pose proof (blocks_bound thr syn T HT). unfold room. lia. Qed.

Lemma room_perm cs (l l' : list (Z * block)) n : l ≡ₚ l' -> room cs l n -> room cs l' n.
Proof. unfold room, zlen. by intros ->. Qed.

Lemma roomy_put cs thr syn k (c c' : C) : cs !! k = Some c -> roomy cs thr syn -> roomy (<[k := c']> cs) thr syn.
Proof. intros Hc. unfold roomy. by rewrite (size_put cs k c c' Hc). Qed.

Lemma roomy_sync cs thr syn k s s' : syn !! k = Some s -> roomy cs thr syn -> roomy cs thr (<[k := s']> syn).
Proof. intros Hs. unfold roomy. rewrite map_size_insert_Some; eauto. Qed.

Lemma roomy_thread cs thr syn k th th' : thr !! k = Some th -> roomy cs thr syn -> roomy cs (<[k := th']> thr) syn.
Proof. intros Hs. unfold roomy. rewrite map_size_insert_Some; eauto. Qed.

(** *** Changing the table of a clock in place *)

Lemma refs_same thr syn k s s' : syn !! k = Some s -> (forall i, uses i s' = uses i s) -> forall i, refs thr (<[k := s']> syn) i = refs thr syn i.
Proof. intros Hk Hu i. unfold refs. rewrite (count_put _ syn k s s' Hk), Hu. lia. Qed.

Lemma on_table_uses s i t : on_table s i t -> table_ok t -> s.(tab_idx_) = i -> forall j, uses j s = (i =? j).
Proof. intros (_ & _ & Ez) (_ & Hp & _) Ei j. unfold uses. rewrite Ez, (proj2 (Z.eqb_neq _ _)), Ei by lia. done. Qed.

Lemma vals_of_on T s i t : T !! i = Some t -> table_ok t -> on_table s i t -> s.(tab_idx_) = i -> vals_of T s = t.(vals).
Proof. intros Hi (_ & Hp & _) (_ & _ & Ez) Ei. unfold vals_of. rewrite Ez, (proj2 (Z.eqb_neq _ _)), Ei, Hi by lia. done. Qed.

Lemma change_sole a cs a' cs' thr syn T ks s i t s' t' :
  store_wf a cs thr syn T -> syn !! ks = Some s -> T !! i = Some t -> t.(refc) = 1 -> on_table s i t -> s.(tab_idx_) = i ->
  heap a' cs' (pieces i t' ++ blocks (delete i T)) -> table_ok t' -> zlen t'.(vals) <= kMaxTid -> t'.(refc) = 1 -> on_table s' i t' -> s'.(tab_idx_) = i ->
  store_wf a' cs' thr (<[ks := s']> syn) (<[i := t']> T) /\ same_vals thr (delete ks syn) T (<[i := t']> T) /\ vals_of (<[i := t']> T) s' = t'.(vals).
Proof.
  intros (Hh & HT & HS & HC) Hks Hi Hr Hon Ei Hh' Ht' Hz' Hr' Hon' Ei'. destruct (HT i t Hi) as (Hi0 & Ht & _ & Hrefs).
  pose proof (on_table_uses s i t Hon Ht Ei) as Hu. pose proof (on_table_uses s' i t' Hon' Ht' Ei') as Hu'.
  destruct (sole_user thr syn T ks s i t HT Hi Hr Hks) as [Hos Hoc]; [by rewrite Hu, Z.eqb_refl|].
  assert (Hsame : forall j, refs thr (<[ks := s']> syn) j = refs thr syn j) by (apply refs_same with s; [done|]; intros j; by rewrite Hu, Hu').
  split; [split; [by rewrite blocks_put|]; split; [|split]|split].
  - intros j tj [[<- <-]|[Hne Hj]]%lookup_insert_Some.
    + rewrite Hsame, <- Hrefs, Hr. done.
    + rewrite Hsame. by apply HT.
  - intros k' s0 [[<- <-]|[Hne Hs0]]%lookup_insert_Some.
    + right. exists t'. rewrite Ei', lookup_insert_eq. done.
    + apply sync_wf_other; [by apply (Hos k')|by apply (HS k')|]. intros t0 Ht0. by apply (HT i).
  - intros k' th Hth. apply cache_wf_other; [by apply (Hoc k')|by apply (HC k')].
  - split.
    + intros k' s0 [Hne Hs0]%lookup_delete_Some. apply vals_of_other. by apply (Hos k').
    + intros k' th Hth. apply cached_vals_other. by apply (Hoc k').
  - apply (vals_of_on _ s' i t'); [apply lookup_insert_eq|done|done|done].
Qed.

(** *** [Unshare] *)

Lemma vals_of_delete_ref T s i t r : T !! i = Some t -> vals_of (<[i := set_ref t r]> T) s = vals_of T s.
Proof.
  intros Hi. unfold vals_of. destruct (s.(size_) =? 0); [done|]. destruct (decide (s.(tab_idx_) = i)) as [E|Hne]; [by rewrite E, lookup_insert_eq, Hi|by rewrite lookup_insert_ne].
Qed.

Lemma cached_vals_ref T th i t r : T !! i = Some t -> cached_vals (<[i := set_ref t r]> T) th = cached_vals T th.
Proof.
  intros Hi. unfold cached_vals. destruct (th.(cached_idx_) =? 0); [done|]. destruct (decide (th.(cached_idx_) = i)) as [E|Hne]; [by rewrite E, lookup_insert_eq, Hi|by rewrite lookup_insert_ne].
Qed.

Lemma vals_of_fresh T s j u : T !! j = None -> sync_wf T s -> vals_of (<[j := u]> T) s = vals_of T s.
Proof.
  intros Hj [(Ez & _)|(t & Ht & _)]; unfold vals_of; [by rewrite Ez|]. destruct (s.(size_) =? 0); [done|]. rewrite lookup_insert_ne; [done|]. intros ->. congruence.
Qed.

Lemma cached_vals_fresh T th j u : T !! j = None -> cache_wf T th -> cached_vals (<[j := u]> T) th = cached_vals T th.
Proof.
  intros Hj [Ez|(t & Ht & _)]; unfold cached_vals; [by rewrite Ez|]. destruct (th.(cached_idx_) =? 0); [done|]. rewrite lookup_insert_ne; [done|]. intros ->. congruence.
Qed.

Lemma sync_wf_fresh T s j u : T !! j = None -> sync_wf T s -> sync_wf (<[j := u]> T) s.
Proof. intros Hj [He|(t & Ht & Hon)]; [by left|right]. exists t. rewrite lookup_insert_ne; [done|]. intros ->. congruence. Qed.

Lemma cache_wf_fresh T th j u : T !! j = None -> cache_wf T th -> cache_wf (<[j := u]> T) th.
Proof. intros Hj [He|(t & Ht & Hon)]; [by left|right]. exists t. rewrite lookup_insert_ne; [done|]. intros ->. congruence. Qed.

Lemma refs_none a cs thr syn T j : store_wf a cs thr syn T -> T !! j = None -> refs thr syn j = 0.
Proof.
  intros (_ & _ & HS & HC) Hj. unfold refs. rewrite !count_zero; [done|..].
  - intros k th Hk. destruct (caches_tab j th) eqn:E; [|done]. unfold caches_tab in E. apply andb_true_iff in E as [E0 <-%Z.eqb_eq]. apply negb_true_iff, Z.eqb_neq in E0.
    destruct (HC k th Hk) as [?|(t & Ht & _)]; congruence.
  - intros k s Hk. destruct (uses j s) eqn:E; [|done]. unfold uses in E. apply andb_true_iff in E as [E0 <-%Z.eqb_eq]. apply negb_true_iff, Z.eqb_neq in E0.
    destruct (HS k s Hk) as [[? _]|(t & Ht & _)]; congruence.
Qed.

Lemma set_tab_id s : s.(tab_) = s.(tab_idx_) -> s = set_tab s s.(tab_idx_) s.(tab_idx_) s.(size_) s.(blocks_).
Proof. destruct s. cbn. by intros ->. Qed.

(** A clock [s] of a table [t], after an operation: alone on its table, all
    else unchanged. *)
Definition sole_after a cs thr syn T ks s (s' : SyncClock) (vs : list ClockElem) a' cs' T' : Prop :=
  s' = set_tab s s'.(tab_idx_) s'.(tab_idx_) s'.(size_) s'.(blocks_) /\ store_wf a' cs' thr (<[ks := s']> syn) T' /\ same_vals thr (delete ks syn) T T' /\
  exists t', T' !! s'.(tab_idx_) = Some t' /\ on_table s' s'.(tab_idx_) t' /\ t'.(refc) = 1 /\ t'.(vals) = vs.

Lemma refs_move thr syn ks s s' i j :
  syn !! ks = Some s -> (forall x, uses x s = (i =? x)) -> (forall x, uses x s' = (j =? x)) ->
  forall x, refs thr (<[ks := s']> syn) x = refs thr syn x - (if i =? x then 1 else 0) + if j =? x then 1 else 0.
Proof. intros Hk Hu Hu' x. unfold refs. rewrite (count_put _ syn ks s s' Hk), Hu, Hu'. lia. Qed.

Lemma unshare_store a cs thr syn T ks s t k c fuel :
  store_wf a cs thr syn T -> roomy cs thr syn -> cs !! k = Some c -> syn !! ks = Some s -> T !! s.(tab_idx_) = Some t -> on_table s s.(tab_idx_) t ->
  exists s' a' c' T', Unshare_with (Resize_fuel (S fuel)) s (a, c) = Ok (s', (a', c')) /\ s'.(size_) = s.(size_) /\ sole_after a cs thr syn T ks s s' t.(vals) a' (<[k := c']> cs) T'.
Proof.
  intros Hwf Hroom Hc Hks Hi Hon. set (i := s.(tab_idx_)) in *. destruct (store_focus a cs thr syn T i t Hwf Hi) as (Hh & Ht & Hmax & Hi0).
  pose proof (unshare_ok k i (blocks (delete i T)) s t a c cs fuel Ht Hon eq_refl Hc Hh (room_perm _ _ _ _ (blocks_get T i t Hi) (roomy_room a cs thr syn T 128 Hroom Hwf ltac:(lia))) Hmax) as Hun.
  destruct (Z.eqb_spec t.(refc) 1) as [Hr|Hr].
  - exists s, a, c, T. split; [done|]. split; [done|]. destruct Hon as (E1 & E2 & E3). split; [by apply set_tab_id|]. rewrite !insert_id by done. split; [done|]. split; [done|].
    exists t. done.
  - destruct Hun as (j & u & a' & c' & E & Hj & Hu & Hur & Huv & Hh'). set (s' := set_tab s j j s.(size_) (zlen u.(ids))) in *. set (T1 := <[i := set_ref t (t.(refc) - 1)]> T) in *.
    assert (Hh1 : heap a' (<[k := c']> cs) (pieces j u ++ blocks T1)) by (unfold T1; by rewrite blocks_put). pose proof (new_index _ _ _ _ _ Hh1) as Hj1.
    assert (HjT : T !! j = None /\ i <> j). { unfold T1 in Hj1. apply lookup_insert_None in Hj1 as [? ?]. split; [done|congruence]. } destruct HjT as [HjT Hij].
    pose proof Hwf as (_ & HT & HS & HC). pose proof Hon as (E1 & E2 & E3). assert (Hon' : on_table s' j u) by (split; [done|]; split; [done|]; cbn [size_ set_tab s']; unfold zlen in *; by rewrite Huv).
    pose proof (refs_move thr syn ks s s' i j Hks (on_table_uses s i t Hon Ht eq_refl) (on_table_uses s' j u Hon' Hu eq_refl)) as Hrefs. pose proof (refs_none a cs thr syn T j Hwf HjT) as Hrj.
    destruct (HT i t Hi) as (_ & _ & _ & Hri). assert (Hpos : 0 < t.(refc)) by (destruct Ht as ((_ & _ & _ & ?) & _); lia).
    exists s', a', c', (<[j := u]> T1). split; [done|]. split; [done|]. split; [by destruct s|]. split; [split; [by rewrite blocks_put, delete_id by done|]; split; [|split]|split].
    + intros x tx [[<- <-]|[Hne [[<- <-]|[Hne2 Hx]]%lookup_insert_Some]]%lookup_insert_Some; rewrite Hrefs.
      * rewrite (proj2 (Z.eqb_neq i j)), Z.eqb_refl, Hrj by done. split; [done|]. split; [done|]. split; [unfold zlen in *; rewrite Huv; done|lia].
      * rewrite Z.eqb_refl, (proj2 (Z.eqb_neq j i)) by congruence. split; [done|]. destruct Ht as (Hsh & Hp & Hl). split; [|split; [done|cbn; lia]]. split; [|done]. apply set_ref_shape; [done|]. destruct Hsh as (_ & _ & _ & ?). lia.
      * rewrite (proj2 (Z.eqb_neq i x)), (proj2 (Z.eqb_neq j x)) by congruence. destruct (HT x tx Hx) as (? & ? & ? & Hrx). split; [done|]. split; [done|]. split; [done|]. lia.
    + intros k' s0 [[<- <-]|[Hne Hs0]]%lookup_insert_Some.
      * right. exists u. cbn [tab_idx_ set_tab s']. rewrite lookup_insert_eq. done.
      * apply sync_wf_fresh; [done|]. apply (sync_wf_same T i t); [done|done|done|by apply (HS k')].
    + intros k' th Hth. apply cache_wf_fresh; [done|]. apply (cache_wf_same T i t); [done|done|done|by apply (HC k')].
    + split.
      * intros k' s0 [Hne Hs0]%lookup_delete_Some. rewrite vals_of_fresh; [by apply vals_of_delete_ref|done|]. apply (sync_wf_same T i t); [done|done|done|by apply (HS k')].
      * intros k' th Hth. rewrite cached_vals_fresh; [by apply cached_vals_ref|done|]. apply (cache_wf_same T i t); [done|done|done|by apply (HC k')].
    + exists u. cbn [tab_idx_ set_tab s']. rewrite lookup_insert_eq. done.
Qed.

(** *** [Resize] *)

Lemma resize_after s s1 (h h1 : A * C) nclk fuel :
  Unshare_with (Resize_fuel fuel) s h = Ok (s1, h1) -> Unshare_with (Resize_fuel fuel) s1 h1 = Ok (s1, h1) -> Resize_fuel (S fuel) s h nclk = Resize_fuel (S fuel) s1 h1 nclk.
Proof. intros E E1. cbn [Resize_fuel]. by rewrite E, E1. Qed.

Lemma sole_unshare a cs thr syn T ks s i t k c fuel :
  store_wf a cs thr syn T -> roomy cs thr syn -> cs !! k = Some c -> syn !! ks = Some s -> T !! i = Some t -> on_table s i t -> s.(tab_idx_) = i -> t.(refc) = 1 ->
  Unshare_with (Resize_fuel (S fuel)) s (a, c) = Ok (s, (a, c)).
Proof.
  intros Hwf Hroom Hc Hks Hi Hon Ei Hr. destruct (store_focus a cs thr syn T i t Hwf Hi) as (Hh & Ht & Hmax & Hi0).
  pose proof (unshare_ok k i (blocks (delete i T)) s t a c cs fuel Ht Hon Ei Hc Hh (room_perm _ _ _ _ (blocks_get T i t Hi) (roomy_room a cs thr syn T 128 Hroom Hwf ltac:(lia))) Hmax) as Hun.
  by rewrite Hr in Hun.
Qed.

Lemma same_vals_trans thr syn T1 T2 T3 : same_vals thr syn T1 T2 -> same_vals thr syn T2 T3 -> same_vals thr syn T1 T3.
Proof. intros [H1' H2'] [H3 H4]. split; intros k x Hx; [rewrite (H3 k x Hx); by apply (H1' k)|rewrite (H4 k x Hx); by apply (H2' k)]. Qed.

Lemma resize_table_store a cs thr syn T ks s t k c nclk :
  store_wf a cs thr syn T -> roomy cs thr syn -> cs !! k = Some c -> syn !! ks = Some s -> T !! s.(tab_idx_) = Some t -> on_table s s.(tab_idx_) t -> s.(size_) <= nclk <= kMaxTid ->
  exists s' a' c' T', Resize s (a, c) nclk = Ok (s', (a', c')) /\ s'.(size_) = nclk /\
    sole_after a cs thr syn T ks s s' (t.(vals) ++ replicate (Z.to_nat (nclk - s.(size_))) zero_elem) a' (<[k := c']> cs) T'.
Proof.
  intros Hwf Hroom Hc Hks Hi Hon Hn. destruct (unshare_store a cs thr syn T ks s t k c 0 Hwf Hroom Hc Hks Hi Hon) as (s1 & a1 & c1 & T1 & E1 & Ez1 & Eq1 & Hwf1 & Hsame1 & t1 & Hi1 & Hon1 & Hr1 & Hv1).
  set (i := s1.(tab_idx_)) in *. pose proof (roomy_put cs thr syn k c c1 Hc Hroom) as Hroom1. pose proof (roomy_sync _ _ _ ks s s1 Hks Hroom1) as Hroom1'.
  pose proof (lookup_insert_eq cs k c1) as Hc1. pose proof (lookup_insert_eq syn ks s1) as Hks1.
  pose proof (sole_unshare a1 _ thr _ T1 ks s1 i t1 k c1 0 Hwf1 Hroom1' Hc1 Hks1 Hi1 Hon1 eq_refl Hr1) as E2. unfold Resize. rewrite (resize_after s s1 (a, c) (a1, c1) nclk 1 E1 E2).
  destruct (store_focus a1 _ thr _ T1 i t1 Hwf1 Hi1) as (Hh1 & Ht1 & Hmax1 & Hi0). pose proof Hon1 as (F1 & F2 & F3).
  destruct (resize_ok k i (blocks (delete i T1)) s1 t1 a1 c1 (<[k := c1]> cs) nclk 1 Ht1 Hr1 Hon1) as (t' & a' & c' & E' & Hh' & Ht' & Hr' & Hv'); [lia|done|done| |].
  { pose proof (room_perm _ _ _ _ (blocks_get T1 i t1 Hi1) (roomy_room a1 _ thr _ T1 128 Hroom1' Hwf1 ltac:(lia))) as Hrm. unfold room in *. rewrite zlen_app in Hrm. pose proof (zlen_nonneg (pieces i t1)). lia. }
  rewrite insert_insert_eq in Hh'. rewrite E'. set (s' := set_tab s1 i s1.(tab_idx_) nclk (zlen t'.(ids))) in *.
  assert (Hlen' : zlen t'.(vals) = nclk) by (rewrite Hv', zlen_app, zlen_replicate; lia).
  destruct (change_sole a1 _ a' (<[k := c']> cs) thr _ T1 ks s1 i t1 s' t' Hwf1 Hks1 Hi1 Hr1 Hon1 eq_refl Hh' Ht') as (Hwf' & Hsame' & _); [lia|done|split; [done|]; split; [done|]; by rewrite Hlen'|done|].
  rewrite insert_insert_eq in Hwf'. exists s', a', c', (<[i := t']> T1). split; [done|]. split; [done|]. split; [|split; [done|]; split].
  - unfold s'. rewrite Eq1. done.
  - rewrite delete_insert_eq in Hsame'. eapply same_vals_trans; done.
  - exists t'. cbn [tab_idx_ set_tab s']. fold i. rewrite lookup_insert_eq. split; [done|]. split; [split; [done|]; split; [done|]; by rewrite Hlen'|]. split; [done|]. rewrite Hv', <- Ez1, F3, Hv1. done.
Qed.

Lemma resize_empty_store a cs thr syn T ks s k c nclk :
  store_wf a cs thr syn T -> roomy cs thr syn -> cs !! k = Some c -> syn !! ks = Some s -> is_empty s -> 0 < nclk <= kMaxTid ->
  exists s' a' c' T', Resize s (a, c) nclk = Ok (s', (a', c')) /\ s'.(size_) = nclk /\
    sole_after a cs thr syn T ks s s' (replicate (Z.to_nat nclk) zero_elem) a' (<[k := c']> cs) T'.
Proof.
  intros Hwf Hroom Hc Hks He Hn. pose proof Hwf as (Hh & HT & HS & HC).
  destruct (resize_empty_ok k (blocks T) s a c cs nclk 1 He Hn Hc Hh (roomy_room a cs thr syn T 128 Hroom Hwf ltac:(lia))) as (j & u & a' & c' & E & Hj & Hh' & Hu & Hur & Huv).
  pose proof (new_index _ _ _ _ _ Hh') as HjT. set (s' := set_tab s j j nclk (zlen u.(ids))) in *. assert (Hlen : zlen u.(vals) = nclk) by (rewrite Huv, zlen_replicate; lia).
  assert (Hon' : on_table s' j u) by (split; [done|]; split; [done|]; by rewrite Hlen). pose proof (on_table_uses s' j u Hon' Hu eq_refl) as Hu'.
  assert (Hu0 : forall x, uses x s = false) by (intros x; unfold uses; destruct He as [-> _]; done).
  assert (Hrefs : forall x, refs thr (<[ks := s']> syn) x = refs thr syn x + if j =? x then 1 else 0) by (intros x; unfold refs; rewrite (count_put _ syn ks s s' Hks), Hu', Hu0; lia).
  exists s', a', c', (<[j := u]> T). split; [done|]. split; [done|]. split; [done|]. split; [split; [by rewrite blocks_put, delete_id by done|]; split; [|split]|split].
  - intros x tx [[<- <-]|[Hne Hx]]%lookup_insert_Some; rewrite Hrefs.
    + rewrite Z.eqb_refl, (refs_none a cs thr syn T j Hwf HjT). split; [done|]. split; [done|]. split; lia.
    + rewrite (proj2 (Z.eqb_neq j x)) by done. destruct (HT x tx Hx) as (? & ? & ? & Hrx). split; [done|]. split; [done|]. split; [done|]. lia.
  - intros k' s0 [[<- <-]|[Hne Hs0]]%lookup_insert_Some; [right; exists u; cbn [tab_idx_ set_tab s']; by rewrite lookup_insert_eq|]. apply sync_wf_fresh; [done|by apply (HS k')].
  - intros k' th Hth. apply cache_wf_fresh; [done|by apply (HC k')].
  - split; [intros k' s0 [_ Hs0]%lookup_delete_Some; apply vals_of_fresh; [done|by apply (HS k')]|intros k' th Hth; apply cached_vals_fresh; [done|by apply (HC k')]].
  - exists u. cbn [tab_idx_ set_tab s']. rewrite lookup_insert_eq. done.
Qed.

(** *** References *)

Lemma store_wf_ext a cs thr syn thr' syn' T :
  store_wf a cs thr syn T -> (forall i, refs thr' syn' i = refs thr syn i) ->
  (forall k s, syn' !! k = Some s -> sync_wf T s) -> (forall k th, thr' !! k = Some th -> cache_wf T th) -> store_wf a cs thr' syn' T.
Proof. intros (Hh & HT & _ & _) Hr HS HC. split; [done|]. split; [|done]. intros i t Hi. rewrite Hr. by apply HT. Qed.

Lemma count_le {X} (P : X -> bool) (m : gmap Z X) : count P m <= Z.of_nat (size m).
Proof. unfold count. apply inj_le. rewrite <- !size_dom. apply subseteq_size. apply dom_filter_subseteq. Qed.

Lemma count_zero_inv {X} (P : X -> bool) (m : gmap Z X) k x : count P m = 0 -> m !! k = Some x -> P x = false.
Proof. intros E Hk. destruct (P x) eqn:EP; [|done]. pose proof (count_pos P m k x Hk EP). lia. Qed.

(** One reference less: the last one frees the table. *)
Lemma unref_store a c cs thr syn thr' syn' T i t k :
  store_wf a cs thr syn T -> cs !! k = Some c -> T !! i = Some t -> (forall x, refs thr' syn' x = refs thr syn x - if i =? x then 1 else 0) ->
  (forall k s, syn' !! k = Some s -> sync_wf T s) -> (forall k th, thr' !! k = Some th -> cache_wf T th) ->
  exists a' c' T', UnrefClockBlock (a, c) i (zlen t.(ids)) = Ok (a', c') /\ store_wf a' (<[k := c']> cs) thr' syn' T' /\ same_vals thr' syn' T T'.
Proof.
  intros Hwf Hc Hi Hrefs HS' HC'. destruct (store_focus a cs thr syn T i t Hwf Hi) as (Hh & Ht & Hmax & Hi0). pose proof Hwf as (_ & HT & _). destruct (HT i t Hi) as (_ & _ & _ & Hri).
  destruct (unref_ok k i t (blocks (delete i T)) a c cs (proj1 Ht) Hc Hh) as (a' & c' & E & Hh'). destruct (Z.eqb_spec t.(refc) 1) as [Hr|Hr].
  - exists a', c', (delete i T). split; [done|]. assert (Hz : refs thr' syn' i = 0) by (rewrite Hrefs, Z.eqb_refl; lia). unfold refs in Hz.
    pose proof (count_nonneg (uses i) syn') as Hn1. pose proof (count_nonneg (caches_tab i) thr') as Hn2.
    assert (Hus : forall k s, syn' !! k = Some s -> s.(size_) <> 0 -> s.(tab_idx_) <> i).
    { intros k' s Hs Hz' Ei. assert (Hu : uses i s = false) by (eapply (count_zero_inv (uses i) syn' k'); [lia|done]). unfold uses in Hu. rewrite (proj2 (Z.eqb_neq _ _)), Ei, Z.eqb_refl in Hu by done. done. }
    assert (Huc : forall k th, thr' !! k = Some th -> th.(cached_idx_) <> i).
    { intros k' th Hth Ei. assert (Hu : caches_tab i th = false) by (eapply (count_zero_inv (caches_tab i) thr' k'); [lia|done]). unfold caches_tab in Hu. rewrite Ei, (proj2 (Z.eqb_neq _ _)), Z.eqb_refl in Hu by done. done. }
    split; [split; [done|]; split; [|split]|split].
    + intros x tx [Hne Hx]%lookup_delete_Some. rewrite Hrefs, (proj2 (Z.eqb_neq i x)) by done. destruct (HT x tx Hx) as (? & ? & ? & Hrx). split; [done|]. split; [done|]. split; [done|]. lia.
    + intros k' s Hs. destruct (HS' k' s Hs) as [He|(t0 & Ht0 & Hon)]; [by left|]. destruct (decide (s.(size_) = 0)) as [Ez|Hz'].
      * destruct Hon as (_ & _ & Ezz). pose proof (HT _ _ Ht0) as (_ & (_ & Hp & _) & _). lia.
      * right. exists t0. rewrite lookup_delete_ne; [done|]. intros ->. by eapply Hus.
    + intros k' th Hth. destruct (HC' k' th Hth) as [He|(t0 & Ht0 & Hon)]; [by left|right]. exists t0. rewrite lookup_delete_ne; [done|]. intros ->. by eapply Huc.
    + intros k' s Hs. unfold vals_of. destruct (Z.eqb_spec s.(size_) 0); [done|]. rewrite lookup_delete_ne; [done|]. intros ->. by eapply Hus.
    + intros k' th Hth. unfold cached_vals. destruct (Z.eqb_spec th.(cached_idx_) 0); [done|]. rewrite lookup_delete_ne; [done|]. intros ->. by eapply Huc.
  - exists a', c', (<[i := set_ref t (t.(refc) - 1)]> T). split; [done|]. assert (Hpos : 0 < t.(refc) < 2 ^ 32) by (destruct Ht as ((_ & _ & _ & ?) & _); done). split; [split; [by rewrite blocks_put|]; split; [|split]|split].
    + intros x tx [[<- <-]|[Hne Hx]]%lookup_insert_Some; rewrite Hrefs.
      * rewrite Z.eqb_refl. split; [done|]. destruct Ht as (Hsh & Hp & Hl). split; [split; [apply set_ref_shape; [done|lia]|done]|]. split; [done|cbn; lia].
      * rewrite (proj2 (Z.eqb_neq i x)) by done. destruct (HT x tx Hx) as (? & ? & ? & Hrx). split; [done|]. split; [done|]. split; [done|]. lia.
    + intros k' s Hs. apply (sync_wf_same T i t); [done|done|done|by apply (HS' k')].
    + intros k' th Hth. apply (cache_wf_same T i t); [done|done|done|by apply (HC' k')].
    + intros k' s Hs. by apply vals_of_delete_ref.
    + intros k' th Hth. by apply cached_vals_ref.
Qed.

(** One reference more. *)
Lemma ref_store_store a cs thr syn thr' syn' T i t :
  store_wf a cs thr syn T -> roomy cs thr syn -> T !! i = Some t -> (forall x, refs thr' syn' x = refs thr syn x + if i =? x then 1 else 0) ->
  (forall k s, syn' !! k = Some s -> sync_wf T s) -> (forall k th, thr' !! k = Some th -> cache_wf T th) ->
  exists a' T', ref_load a i = Ok t.(refc) /\ ref_store a i (t.(refc) + 1) = Ok a' /\ store_wf a' cs thr' syn' T' /\ T' = <[i := set_ref t (t.(refc) + 1)]> T /\ same_vals thr' syn' T T'.
Proof.
  intros Hwf [_ Hfew] Hi Hrefs HS' HC'. destruct (store_focus a cs thr syn T i t Hwf Hi) as (Hh & Ht & Hmax & Hi0). pose proof Hwf as (_ & HT & _). destruct (HT i t Hi) as (_ & _ & _ & Hri).
  assert (Hpos : 0 < t.(refc)) by (destruct Ht as ((_ & _ & _ & ?) & _); lia). assert (Hbig : t.(refc) + 1 < 2 ^ 32).
  { rewrite Hri. unfold refs. pose proof (count_le (uses i) syn). pose proof (count_le (caches_tab i) thr). lia. }
  destruct (ref_store_ok a cs i t (t.(refc) + 1) (blocks (delete i T)) Hh (proj1 Ht) ltac:(lia)) as (a' & E & Hh'). exists a', (<[i := set_ref t (t.(refc) + 1)]> T).
  split; [by apply (ref_load_ok a cs i t (blocks (delete i T)) Hh), Ht|]. split; [done|]. split; [|split; [done|]; split].
  - split; [by rewrite blocks_put|]. split; [|split].
    + intros x tx [[<- <-]|[Hne Hx]]%lookup_insert_Some; rewrite Hrefs.
      * rewrite Z.eqb_refl. split; [done|]. destruct Ht as (Hsh & Hp & Hl). split; [split; [apply set_ref_shape; [done|lia]|done]|]. split; [done|cbn; lia].
      * rewrite (proj2 (Z.eqb_neq i x)) by done. destruct (HT x tx Hx) as (? & ? & ? & Hrx). split; [done|]. split; [done|]. split; [done|]. lia.
    + intros k' s Hs. apply (sync_wf_same T i t); [done|done|done|by apply (HS' k')].
    + intros k' th Hth. apply (cache_wf_same T i t); [done|done|done|by apply (HC' k')].
  - intros k' s Hs. by apply vals_of_delete_ref.
  - intros k' th Hth. by apply cached_vals_ref.
Qed.

(** *** Flags *)

Definition set_flag (k r : Z) (vs : list ClockElem) : list ClockElem := <[Z.to_nat k := MkElem (el vs k).(epoch) r]> vs.

(** Some of the users of the elements [vs] now have a flag set. *)
Definition flagged (T T' : gmap Z table) (vs : list ClockElem) (k r : Z) : Prop :=
  (forall s, vals_of T' s = vals_of T s \/ vals_of T s = vs /\ vals_of T' s = set_flag k r vs) /\
  (forall th, cached_vals T' th = cached_vals T th \/ cached_vals T th = Some vs /\ cached_vals T' th = Some (set_flag k r vs)).

Lemma flag_store a cs thr syn T i t s k r :
  store_wf a cs thr syn T -> T !! i = Some t -> s.(tab_) = i -> s.(blocks_) = zlen t.(ids) -> 0 <= k < zlen t.(vals) -> 0 <= r < 2 ^ 22 ->
  exists p a', elem s a k = Ok p /\ write_reused a p r = Ok a' /\
    let T' := <[i := set_vals t (set_flag k r t.(vals))]> T in store_wf a' cs thr syn T' /\ flagged T T' t.(vals) k r.
Proof.
  intros Hwf Hi Es Eb Hk Hr. destruct (store_focus a cs thr syn T i t Hwf Hi) as (Hh & Ht & Hmax & Hi0). pose proof Hwf as (_ & HT & HS & HC). pose proof (el_lookup t.(vals) k Hk) as El.
  destruct (write_reused_ok a cs i t (blocks (delete i T)) k _ r Hh (proj1 Ht) (proj1 Hk) El Hr) as (a' & E & Hh'). exists (addr i t k), a'.
  split; [by apply (elem_ok_at a cs i t (blocks (delete i T))); try apply Ht|]. split; [done|]. cbn zeta. set (t' := set_vals t (set_flag k r t.(vals))).
  assert (Ht' : table_ok t'). { apply (set_val_ok t k (MkElem (el t.(vals) k).(epoch) r) Ht). pose proof Ht as ((_ & _ & Hf & _) & _). destruct (el_ok t.(vals) k Hf). done. }
  assert (Hlen : length t'.(vals) = length t.(vals)) by apply length_insert. destruct (HT i t Hi) as (_ & _ & _ & Hri).
  split; [split; [by rewrite blocks_put|]; split; [|split]|split].
  - intros x tx [[<- <-]|[Hne Hx]]%lookup_insert_Some; [|by apply HT]. split; [done|]. split; [done|]. split; [unfold zlen in *; by rewrite Hlen|done].
  - intros k' s0 Hs0. apply (sync_wf_same T i t); [done|done|done|by apply (HS k')].
  - intros k' th Hth. apply (cache_wf_same T i t); [done|done|done|by apply (HC k')].
  - intros s0. unfold vals_of. destruct (s0.(size_) =? 0); [by left|]. destruct (decide (s0.(tab_idx_) = i)) as [Ex|Hne]; [right; by rewrite Ex, lookup_insert_eq, Hi|left; by rewrite lookup_insert_ne].
  - intros th. unfold cached_vals. destruct (th.(cached_idx_) =? 0); [by left|]. destruct (decide (th.(cached_idx_) = i)) as [Ex|Hne]; [right; by rewrite Ex, lookup_insert_eq, Hi|left; by rewrite lookup_insert_ne].
Qed.
End Store.
