(* ===== verification/ClockSem.v ===== *)
(** * What the clocks mean

    The vector that a [SyncClock] stands for, and why the short cuts of
    [src/ufo-rt/lib/tsan/rtl/tsan_clock.cc] are right.  The invariant says: no
    vector is ahead of a thread in its own time; a vector that has a thread's
    time after the thread last acquired something has all that the thread
    knows; a thread whose flag is set on a table has the times of the table;
    an object that a thread stored to, and the thread's cache, are the thread's
    vector but for its own time.  Shown: every change the operations make
    keeps it. *)
From stdpp Require Import base numbers list gmap.
From Stdlib Require Import ZArith Lia.
From S2P Require Import Prelude Bits DenseAlloc SyncClock ClockTable ThreadClock ClockLoops ClockStore.

Local Open Scope Z_scope.

Definition tid_ok (i : Z) : Prop := 0 <= i < kMaxTid.

Lemma kMaxTid_val : kMaxTid = 8128.
Proof. done. Qed.

Lemma kInvalidTid_val : kInvalidTid = 8129.
Proof. done. Qed.

(** The vector of a clock: dirty entries override the table. *)
Definition value (vs : list ClockElem) (l : list Dirty) (i : Z) : Z :=
  match find_dirty l i with
  | Some e => e
  | None => (el vs i).(epoch)
  end.

Section Sem.
Implicit Types (thr : gmap Z ThreadClock) (syn : gmap Z SyncClock) (th : ThreadClock) (s : SyncClock) (vs : list ClockElem) (l : list Dirty) (V : Z -> Z).

(** The present time of a thread, and the number of its incarnation. *)
Definition own thr (u : Z) : Z := match thr !! u with Some th => at_ th.(clk_) u | None => 0 end.
Definition incarnation thr (u : Z) : Z := match thr !! u with Some th => th.(reused_) | None => 0 end.

Definition thread_ok (u : Z) th : Prop :=
  th.(tid_) = u /\ tid_ok u /\ u < th.(nclk_) <= kMaxTid /\ zlen th.(clk_) = kMaxTidInClock /\ (forall i, 0 <= at_ th.(clk_) i < 2 ^ 42) /\
  (forall i, th.(nclk_) <= i -> at_ th.(clk_) i = 0) /\ 0 <= th.(last_acquire_) <= at_ th.(clk_) u /\ 0 < at_ th.(clk_) u /\ 0 < th.(reused_) < 2 ^ 22.

(** A vector that has a thread's time since its last acquire has its clock. *)
Definition knows thr V : Prop :=
  forall u th, thr !! u = Some th -> th.(last_acquire_) < V u -> forall i, tid_ok i -> i <> u -> at_ th.(clk_) i <= V i.

Definition behind thr V : Prop := forall i, tid_ok i -> 0 <= V i <= own thr i.

Definition good_vals thr vs : Prop :=
  Forall elem_ok vs /\ zlen vs <= kMaxTid /\
  forall u, tid_ok u -> (el vs u).(epoch) <= own thr u /\ (el vs u).(reused) <= incarnation thr u /\
    forall th, thr !! u = Some th -> (el vs u).(reused) = th.(reused_) -> forall i, tid_ok i -> (el vs i).(epoch) <= at_ th.(clk_) i.

(** The two dirty entries. *)
Definition good_dirty thr vs l : Prop :=
  exists d0 d1, l = [d0; d1] /\ (valid d1 = true -> valid d0 = true /\ d0.(d_tid) <> d1.(d_tid)) /\
    forall d, d ∈ l -> valid d = true -> 0 <= d.(d_tid) < zlen vs /\ d.(d_epoch) < 2 ^ 42 /\ 0 < (el vs d.(d_tid)).(epoch) <= d.(d_epoch) /\ d.(d_epoch) <= own thr d.(d_tid).

Definition good_release thr vs s : Prop :=
  forall th, thr !! s.(release_store_tid_) = Some th -> s.(release_store_reused_) <= th.(reused_) /\
    (s.(release_store_reused_) = th.(reused_) -> th.(last_acquire_) < (el vs s.(release_store_tid_)).(epoch) ->
     forall i, tid_ok i -> i <> s.(release_store_tid_) -> value vs s.(dirty_) i = at_ th.(clk_) i).

Definition good_sync thr vs s : Prop :=
  good_vals thr vs /\ good_dirty thr vs s.(dirty_) /\ knows thr (value vs s.(dirty_)) /\ good_release thr vs s.

Definition good_thread thr (u : Z) th : Prop := thread_ok u th /\ behind thr (at_ th.(clk_)) /\ knows thr (at_ th.(clk_)).

Definition good_cache thr (u : Z) th vs : Prop :=
  good_vals thr vs /\ u < zlen vs /\ 0 < (el vs u).(epoch) /\ forall i, tid_ok i -> i <> u -> (el vs i).(epoch) = at_ th.(clk_) i.

Definition sem (T : gmap Z table) thr syn : Prop :=
  (forall u th, thr !! u = Some th -> good_thread thr u th /\ forall vs, cached_vals T th = Some vs -> good_cache thr u th vs) /\
  (forall k s, syn !! k = Some s -> good_sync thr (vals_of T s) s).

(** ** Vectors of clocks *)

Lemma find_dirty_none l i : tid_ok i -> (forall d, d ∈ l -> valid d = true -> d.(d_tid) <> i) -> find_dirty l i = None.
Proof.
  intros Hi Hl. induction l as [|d l IH]; [done|]. cbn [find_dirty]. destruct (Z.eqb_spec d.(d_tid) i) as [E|Hne].
  - exfalso. apply (Hl d); [left| |done]. unfold valid. rewrite kInvalidTid_val. unfold tid_ok in Hi. rewrite kMaxTid_val in Hi. rewrite (proj2 (Z.eqb_neq _ _)) by lia. done.
  - apply IH. intros d' Hd'. apply Hl. by right.
Qed.

Lemma find_dirty_some l i e : find_dirty l i = Some e -> exists d, d ∈ l /\ d.(d_tid) = i /\ d.(d_epoch) = e.
Proof.
  induction l as [|d l IH]; [done|]. cbn [find_dirty]. destruct (Z.eqb_spec d.(d_tid) i) as [E|Hne].
  - intros [= <-]. exists d. split; [left|done].
  - intros Hf. destruct (IH Hf) as (d' & ? & ?). exists d'. split; [by right|done].
Qed.

Lemma tid_valid d : tid_ok d.(d_tid) -> valid d = true.
Proof. intros Hd. unfold tid_ok in Hd. rewrite kMaxTid_val in Hd. unfold valid. rewrite kInvalidTid_val, (proj2 (Z.eqb_neq _ _)) by lia. done. Qed.

(** A vector is between the table and the threads' times. *)
Lemma value_bounds thr vs l i : good_vals thr vs -> good_dirty thr vs l -> tid_ok i -> (el vs i).(epoch) <= value vs l i <= own thr i /\ 0 <= value vs l i < 2 ^ 42.
Proof.
  intros (Hf & Hz & Hv) (d0 & d1 & _ & _ & Hd) Hi. destruct (Hv i Hi) as (Ho & _). pose proof (el_ok vs i Hf) as [He _]. unfold value. destruct (find_dirty l i) as [e|] eqn:E; [|lia].
  apply find_dirty_some in E as (d & Hin & Ei & Ee). subst i e. destruct (Hd d Hin (tid_valid d Hi)) as (_ & ? & ? & ?). lia.
Qed.

Lemma value_out vs l thr i : good_dirty thr vs l -> tid_ok i -> zlen vs <= i -> value vs l i = 0.
Proof.
  intros (d0 & d1 & _ & _ & Hd) Hi Hz. unfold value. rewrite find_dirty_none; [rewrite el_out by lia; done|done|]. intros d Hin Hv Ei. destruct (Hd d Hin Hv) as (Hr & _). lia.
Qed.

(** The greatest of the dirty entries and the table is the vector. *)
Lemma dirty_max_value thr vs l i : good_vals thr vs -> good_dirty thr vs l -> tid_ok i -> Z.max (dirty_max l i) (el vs i).(epoch) = value vs l i.
Proof.
  intros (Hf & _) (d0 & d1 & -> & H01 & Hd) Hi. pose proof (el_ok vs i Hf) as [He _]. unfold value, dirty_max. cbn [foldr find_dirty].
  assert (Hv : forall d, d.(d_tid) = i -> valid d = true) by (intros d <-; by apply tid_valid).
  assert (Hg : forall d, d ∈ [d0; d1] -> d.(d_tid) = i -> (el vs i).(epoch) <= d.(d_epoch)) by (intros d Hin E; destruct (Hd d Hin (Hv d E)) as (_ & _ & ? & _); subst i; lia).
  pose proof (Hg d0 ltac:(left)) as Hg0. pose proof (Hg d1 ltac:(right; left)) as Hg1. pose proof (Hv d0) as Hv0. pose proof (Hv d1) as Hv1. destruct (Z.eqb_spec d0.(d_tid) i) as [E0|N0], (Z.eqb_spec d1.(d_tid) i) as [E1|N1].
  - exfalso. destruct H01 as [_ Hne]; [by apply Hv1|]. congruence.
  - rewrite Hv0, andb_false_r by done. cbn [andb]. specialize (Hg0 E0). lia.
  - rewrite Hv1, andb_false_r by done. cbn [andb]. specialize (Hg1 E1). lia.
  - rewrite !andb_false_r. lia.
Qed.

Lemma dirty_dirty_in thr vs l n : good_dirty thr vs l -> zlen vs <= n -> Forall (dirty_in n) l.
Proof.
  intros (d0 & d1 & _ & _ & Hd) Hn. apply Forall_forall. intros d Hin Hv. destruct (Hd d Hin Hv) as (? & ? & ? & _). lia.
Qed.

(** ** Threads move on *)

(** A thread's own time passes; or it acquires, and remembers when; or it
    starts anew. *)
Definition advances (u : Z) th th' : Prop :=
  at_ th.(clk_) u <= at_ th'.(clk_) u /\
  (th'.(reused_) = th.(reused_) /\ th'.(last_acquire_) = th.(last_acquire_) /\ (forall i, i <> u -> at_ th'.(clk_) i = at_ th.(clk_) i) \/
   th'.(reused_) = th.(reused_) /\ at_ th.(clk_) u <= th'.(last_acquire_) /\ (forall i, at_ th.(clk_) i <= at_ th'.(clk_) i) \/
   th.(reused_) < th'.(reused_) /\ 0 <= th'.(last_acquire_) /\ (forall i, i <> u -> at_ th'.(clk_) i = 0)).

Section Advance.
Context thr (u : Z) th th' (Hu : thr !! u = Some th) (Hadv : advances u th th').
#[local] Abbreviation thr' := (<[u := th']> thr).

Lemma own_advances i : own thr i <= own thr' i.
Proof. unfold own. destruct (decide (i = u)) as [->|Hne]; [rewrite lookup_insert_eq, Hu; apply Hadv|by rewrite lookup_insert_ne]. Qed.

Lemma incarnation_advances i : incarnation thr i <= incarnation thr' i.
Proof.
  unfold incarnation. destruct (decide (i = u)) as [->|Hne]; [|by rewrite lookup_insert_ne]. rewrite lookup_insert_eq, Hu. destruct Hadv as (_ & [(-> & _)|[(-> & _)|(? & _)]]); lia.
Qed.

Lemma good_vals_advances vs : good_vals thr vs -> good_vals thr' vs.
Proof.
  intros (Hf & Hz & Hv). split; [done|]. split; [done|]. intros w Hw. destruct (Hv w Hw) as (H1 & H2 & H3). pose proof (own_advances w). pose proof (incarnation_advances w). split; [lia|]. split; [lia|].
  intros thw [[<- <-]|[Hne Hthw]]%lookup_insert_Some Hr i Hi; [|by apply (H3 thw)]. assert (Einc : incarnation thr u = th.(reused_)) by (unfold incarnation; by rewrite Hu).
  destruct Hadv as (Ho & [(Er & _ & Hs)|[(Er & _ & Hs)|(Er & _)]]); [..|lia]; rewrite Er in Hr; specialize (H3 th Hu Hr i Hi).
  - destruct (decide (i = u)) as [->|Hne]; [lia|by rewrite Hs].
  - specialize (Hs i). lia.
Qed.

Lemma knows_advances V : behind thr V -> tid_ok u -> knows thr V -> knows thr' V.
Proof.
  intros Hb Hut Hk w thw [[<- <-]|[Hne Hthw]]%lookup_insert_Some Hlt i Hi Hiw; [|by apply (Hk w)]. pose proof (Hb u Hut) as Hbu. unfold own in Hbu. rewrite Hu in Hbu. pose proof (Hb i Hi).
  destruct Hadv as (Ho & [(_ & El & Hs)|[(_ & El & _)|(_ & _ & Hs)]]); [|lia|].
  - rewrite Hs by done. apply (Hk u th Hu); [lia|done|done].
  - rewrite Hs by done. lia.
Qed.

Lemma good_dirty_advances vs l : good_dirty thr vs l -> good_dirty thr' vs l.
Proof.
  intros (d0 & d1 & El & H01 & Hd). exists d0, d1. split; [done|]. split; [done|]. intros d Hin Hv. destruct (Hd d Hin Hv) as (? & ? & ? & ?). pose proof (own_advances d.(d_tid)).
  split; [done|]. split; [done|]. split; [done|]. lia.
Qed.

Lemma good_release_advances vs s : (forall i, tid_ok i -> (el vs i).(epoch) <= own thr i) -> tid_ok u -> good_release thr vs s -> good_release thr' vs s.
Proof.
  intros Hv Hut Hr thw [[Ew <-]|[Hne Hthw]]%lookup_insert_Some; [|by apply Hr]. rewrite <- Ew in *. destruct (Hr th) as (H1 & H2); [by rewrite <- Ew|]. rewrite <- Ew in H2.
  specialize (Hv u Hut). unfold own in Hv. rewrite Hu in Hv. destruct Hadv as (Ho & [(Er & El & Hs)|[(Er & El & _)|(Er & _)]]); rewrite ?Er.
  - split; [done|]. intros E Hlt i Hi Hne. rewrite Hs by done. apply H2; [done|lia|done|done].
  - split; [done|]. intros E Hlt. lia.
  - split; [lia|]. intros E. lia.
Qed.

Lemma value_behind vs l : good_vals thr vs -> good_dirty thr vs l -> behind thr (value vs l).
Proof. intros Hv Hd i Hi. destruct (value_bounds thr vs l i Hv Hd Hi). lia. Qed.

Lemma good_sync_advances vs s : tid_ok u -> good_sync thr vs s -> good_sync thr' vs s.
Proof.
  intros Hut (Hv & Hd & Hk & Hr). split; [by apply good_vals_advances|]. split; [by apply good_dirty_advances|]. split; [apply knows_advances; [by apply value_behind|done|done]|].
  apply good_release_advances; [|done|done]. intros i Hi. destruct Hv as (_ & _ & Hv). by apply Hv.
Qed.

(** The system after the thread has moved on. *)
Lemma sem_thread T syn :
  sem T thr syn -> good_thread thr' u th' -> (forall vs, cached_vals T th' = Some vs -> good_cache thr' u th' vs) -> sem T thr' syn.
Proof.
  intros [HT HS] Hth' Hc'. assert (Hut : tid_ok u) by (destruct Hth' as ((_ & ? & _) & _); done). split.
  - intros w thw [[<- <-]|[Hne Hthw]]%lookup_insert_Some; [done|]. destruct (HT w thw Hthw) as [(Hok & Hb & Hk) Hc]. split.
    + split; [done|]. split; [|by apply knows_advances]. intros i Hi. specialize (Hb i Hi). pose proof (own_advances i). lia.
    + intros vs Hvs. destruct (Hc vs Hvs) as (Hv & H2 & H3 & H4). split; [by apply good_vals_advances|done].
  - intros k s Hs. apply good_sync_advances; [done|by apply (HS k)].
Qed.
End Advance.

(** ** Changes of one clock *)

Lemma sem_same T T' thr syn : sem T thr syn -> same_vals thr syn T T' -> sem T' thr syn.
Proof.
  intros [HT HS] [Hs Hc]. split.
  - intros u th Hu. destruct (HT u th Hu) as [Hg Hca]. split; [done|]. intros vs. rewrite (Hc u th Hu). apply Hca.
  - intros k s Hk. rewrite (Hs k s Hk). by apply (HS k).
Qed.

Lemma sem_put T T' thr syn k s' : sem T thr syn -> same_vals thr (delete k syn) T T' -> good_sync thr (vals_of T' s') s' -> sem T' thr (<[k := s']> syn).
Proof.
  intros [HT HS] [Hs Hc] Hg. split.
  - intros u th Hu. destruct (HT u th Hu) as [Hgt Hca]. split; [done|]. intros vs. rewrite (Hc u th Hu). apply Hca.
  - intros k' s [[<- <-]|[Hne Hk]]%lookup_insert_Some; [done|]. rewrite (Hs k' s) by (by rewrite lookup_delete_ne). by apply (HS k').
Qed.

(** *** Setting a flag *)

Lemma set_flag_el vs k r i : 0 <= k < zlen vs -> (el (set_flag k r vs) i).(epoch) = (el vs i).(epoch) /\ (el (set_flag k r vs) i).(reused) = if k =? i then r else (el vs i).(reused).
Proof. intros Hk. unfold set_flag. rewrite el_set by done. destruct (Z.eqb_spec k i) as [->|]; done. Qed.

Lemma set_flag_value vs k r l i : 0 <= k < zlen vs -> value (set_flag k r vs) l i = value vs l i.
Proof. intros Hk. unfold value. destruct (find_dirty l i); [done|]. by apply set_flag_el. Qed.

Lemma set_flag_length k r vs : zlen (set_flag k r vs) = zlen vs.
Proof. apply zlen_insert. Qed.

Lemma good_vals_flag thr u th vs :
  thr !! u = Some th -> thread_ok u th -> u < zlen vs -> (forall i, tid_ok i -> (el vs i).(epoch) <= at_ th.(clk_) i) -> good_vals thr vs -> good_vals thr (set_flag u th.(reused_) vs).
Proof.
  intros Hu (_ & Hut & _ & _ & _ & _ & _ & _ & Hre) Hlt Hle (Hf & Hz & Hv). assert (Hk : 0 <= u < zlen vs) by (unfold tid_ok in Hut; lia). split; [|split].
  - apply Forall_insert; [done|]. destruct (el_ok vs u Hf). split; cbn; [done|lia].
  - by rewrite set_flag_length.
  - intros w Hw. destruct (set_flag_el vs u th.(reused_) w Hk) as [-> ->]. destruct (Hv w Hw) as (H1 & H2 & H3). split; [done|]. destruct (Z.eqb_spec u w) as [<-|Hne].
    + split; [unfold incarnation; rewrite Hu; done|]. intros th0 Hth0 _ i Hi. assert (th0 = th) as -> by congruence. destruct (set_flag_el vs u th.(reused_) i Hk) as [-> _]. by apply Hle.
    + split; [done|]. intros th0 Hth0 Hr i Hi. destruct (set_flag_el vs u th.(reused_) i Hk) as [-> _]. by apply (H3 th0).
Qed.

Lemma good_sync_flag thr u th vs s :
  thr !! u = Some th -> thread_ok u th -> u < zlen vs -> (forall i, tid_ok i -> (el vs i).(epoch) <= at_ th.(clk_) i) -> good_sync thr vs s -> good_sync thr (set_flag u th.(reused_) vs) s.
Proof.
  intros Hu Hok Hlt Hle (Hv & (d0 & d1 & El & H01 & Hd) & Hk & Hr). pose proof Hok as (_ & Hut & _). assert (Hrange : 0 <= u < zlen vs) by (unfold tid_ok in Hut; lia).
  split; [by apply good_vals_flag|]. split; [|split].
  - exists d0, d1. split; [done|]. split; [done|]. intros d Hin Hvd. rewrite set_flag_length. destruct (set_flag_el vs u th.(reused_) d.(d_tid) Hrange) as [-> _]. by apply Hd.
  - intros w thw Hw. rewrite set_flag_value by done. intros Hlt' i Hi Hne. rewrite set_flag_value by done. by apply (Hk w).
  - intros thw Hw. destruct (set_flag_el vs u th.(reused_) s.(release_store_tid_) Hrange) as [-> _]. destruct (Hr thw Hw) as [H1 H2]. split; [done|]. intros E Hl i Hi Hne. rewrite set_flag_value by done. by apply H2.
Qed.

Lemma sem_flag T T' thr syn u th vs :
  sem T thr syn -> thr !! u = Some th -> u < zlen vs -> (forall i, tid_ok i -> (el vs i).(epoch) <= at_ th.(clk_) i) -> flagged T T' vs u th.(reused_) -> sem T' thr syn.
Proof.
  intros [HT HS] Hu Hlt Hle [Hs Hc]. destruct (HT u th Hu) as [(Hok & _) _]. assert (Hrange : 0 <= u < zlen vs) by (destruct Hok as (_ & [? ?] & _); lia). split.
  - intros w thw Hw. destruct (HT w thw Hw) as [Hg Hca]. split; [done|]. intros vs' Hvs'. destruct (Hc thw) as [E|[E1 E2]]; [rewrite E in Hvs'; by apply Hca|].
    rewrite E2 in Hvs'. injection Hvs' as <-. destruct (Hca vs E1) as (Hv & H2 & H3 & H4). split; [by apply good_vals_flag|]. rewrite set_flag_length. split; [done|].
    destruct (set_flag_el vs u th.(reused_) w Hrange) as [-> _]. split; [done|]. intros i Hi Hne. destruct (set_flag_el vs u th.(reused_) i Hrange) as [-> _]. by apply H4.
  - intros k s Hk. destruct (Hs s) as [->|[E1 ->]]; [by apply (HS k)|]. apply good_sync_flag; [done..|]. rewrite <- E1. by apply (HS k).
Qed.
End Sem.
