(* ===== verification/ClockOps.v ===== *)
(** * The operations between thread and object clocks

    Each operation of ThreadClock.v on the shared store: it succeeds, keeps
    the invariant of ClockSem.v, and has the meaning that the comment at the
    top of [src/ufo-rt/lib/tsan/rtl/tsan_clock.cc] gives it, on every path
    through its short cuts. *)
From stdpp Require Import base numbers list gmap.
From Stdlib Require Import ZArith Lia.
From S2P Require Import Prelude Bits DenseAlloc SyncClock ClockTable ThreadClock ClockLoops ClockStore ClockSem.

Local Open Scope Z_scope.

Section Ops.
Context {A C : Type} `{ClockBlocks A C}.
Implicit Types (a : A) (c : C) (cs : gmap Z C) (T : gmap Z table) (t : table) (s : SyncClock) (th : ThreadClock)
  (thr : gmap Z ThreadClock) (syn : gmap Z SyncClock) (vs : list ClockElem) (l : list Dirty).

Definition inv a cs thr syn T : Prop := store_wf a cs thr syn T /\ sem T thr syn /\ roomy cs thr syn.

(** Objects keep their vectors. *)
Definition same_values syn T T' : Prop := forall k s, syn !! k = Some s -> forall i, value (vals_of T' s) s.(dirty_) i = value (vals_of T s) s.(dirty_) i.

Lemma same_vals_values thr syn T T' : same_vals thr syn T T' -> same_values syn T T'.
Proof. intros [Hs _] k s Hk i. by rewrite (Hs k s Hk). Qed.

Lemma own_thread thr u th : thr !! u = Some th -> own thr u = at_ th.(clk_) u.
Proof. intros Hu. unfold own. by rewrite Hu. Qed.

Lemma get_own u th : thread_ok u th -> aget th.(clk_) th.(tid_) = Ok (at_ th.(clk_) u).
Proof. intros (-> & Hu & _ & Hl & _). apply at_get. rewrite Hl. unfold tid_ok, kMaxTidInClock in *. lia. Qed.

(** ** [acquire] *)

(** A thread that takes the maximum with a vector. *)
Lemma acquire_sem thr u th th' V :
  thr !! u = Some th -> good_thread thr u th -> behind thr V -> knows thr V ->
  th'.(tid_) = u -> th'.(reused_) = th.(reused_) -> u < th'.(nclk_) <= kMaxTid -> zlen th'.(clk_) = kMaxTidInClock ->
  (forall i, tid_ok i -> at_ th'.(clk_) i = Z.max (at_ th.(clk_) i) (V i)) -> (forall i, tid_ok i -> V i < 2 ^ 42) -> (forall i, ~ tid_ok i -> at_ th'.(clk_) i = 0) ->
  (forall i, tid_ok i -> th'.(nclk_) <= i -> at_ th'.(clk_) i = 0) ->
  th'.(last_acquire_) = at_ th'.(clk_) u \/ th'.(last_acquire_) = th.(last_acquire_) /\ th'.(clk_) = th.(clk_) ->
  advances u th th' /\ good_thread (<[u := th']> thr) u th'.
Proof.
  intros Hu ((Et & Hut & Hn & Hl & Hpos & Hz & Hla & H0' & Hre) & Hb & Hk) HbV HkV Et' Er' Hn' Hl' Hclk HV Hout Hz' Hla'. assert (Hup : forall i, at_ th.(clk_) i <= at_ th'.(clk_) i).
  { intros i. destruct (decide (tid_ok i)) as [Hi|Hi]; [rewrite Hclk by done; lia|]. rewrite (Hout i Hi). destruct (decide (i < 0)); [unfold at_; by rewrite (proj2 (Z.ltb_lt i 0)) by lia|]. rewrite Hz; [done|]. unfold tid_ok in Hi. lia. }
  assert (Hown : at_ th'.(clk_) u = at_ th.(clk_) u). { rewrite Hclk by done. pose proof (HbV u Hut) as HbVu. rewrite (own_thread thr u th Hu) in HbVu. lia. }
  assert (Hadv : advances u th th').
  { split; [lia|]. destruct Hla' as [E|[E Ec]]; [right; left|left]; (split; [done|]); [split; [lia|done]|]. split; [done|]. intros i _. by rewrite Ec. }
  split; [done|]. split; [|split].
  - split; [done|]. split; [done|]. split; [done|]. split; [done|]. split; [|split; [|split; [|split; [lia|by rewrite Er']]]].
    + intros i. destruct (decide (tid_ok i)) as [Hi|Hi]; [|rewrite (Hout i Hi); lia]. rewrite Hclk by done. specialize (Hpos i). pose proof (HbV i Hi). specialize (HV i Hi). lia.
    + intros i Hi. destruct (decide (tid_ok i)); [by apply Hz'|by apply Hout].
    + destruct Hla' as [E|[E Ec]]; [lia|]. rewrite E, Ec. done.
  - intros i Hi. rewrite Hclk by done. pose proof (own_advances thr u th th' Hu Hadv i). specialize (Hb i Hi). specialize (HbV i Hi). lia.
  - intros w thw [[<- <-]|[Hne Hw]]%lookup_insert_Some Hlt i Hi Hiw; [done|]. destruct (decide (tid_ok w)) as [Hwt|Hwt].
    + rewrite !Hclk in * by done. destruct (Z.max_spec (at_ th.(clk_) w) (V w)) as [[_ E]|[_ E]]; rewrite E in Hlt; [specialize (HkV w thw Hw Hlt i Hi Hiw)|specialize (Hk w thw Hw Hlt i Hi Hiw)]; lia.
    + rewrite (Hout w Hwt) in Hlt. assert (Hz0 : at_ th.(clk_) w = 0) by (pose proof (Hup w); rewrite (Hout w Hwt) in *; specialize (Hpos w); lia).
      rewrite Hclk by done. rewrite <- Hz0 in Hlt. specialize (Hk w thw Hw Hlt i Hi Hiw). lia.
Qed.

Lemma same_cache_ext thr th th' i : th'.(cached_idx_) = th.(cached_idx_) -> caches_tab i th' = caches_tab i th.
Proof. unfold caches_tab. by intros ->. Qed.

(** A thread that keeps its cache. *)
Lemma store_thread a cs thr syn T u th th' :
  store_wf a cs thr syn T -> thr !! u = Some th -> th'.(cached_idx_) = th.(cached_idx_) -> th'.(cached_size_) = th.(cached_size_) -> th'.(cached_blocks_) = th.(cached_blocks_) ->
  store_wf a cs (<[u := th']> thr) syn T.
Proof.
  intros Hwf Hu E1 E2 E3. pose proof Hwf as (_ & _ & HS & HC). apply (store_wf_ext a cs thr syn); [done| |done|].
  - intros i. unfold refs. rewrite (count_put _ thr u th th' Hu), (same_cache_ext thr th th' i E1). lia.
  - intros w thw [[<- <-]|[Hne Hw]]%lookup_insert_Some; [|by apply (HC w)]. unfold cache_wf. rewrite E1, E2, E3. by apply (HC u).
Qed.

Lemma cached_vals_ext T th th' : th'.(cached_idx_) = th.(cached_idx_) -> cached_vals T th' = cached_vals T th.
Proof. unfold cached_vals. by intros ->. Qed.

(** [ResetCached]: the thread, already changed in the other fields. *)
Lemma reset_cached_ok a c cs thr syn T u th th' k :
  store_wf a cs thr syn T -> cs !! k = Some c -> thr !! u = Some th -> th'.(cached_idx_) = th.(cached_idx_) -> th'.(cached_size_) = th.(cached_size_) -> th'.(cached_blocks_) = th.(cached_blocks_) ->
  exists th2 a' c' T', ResetCached th' (a, c) = Ok (th2, (a', c')) /\ th2.(cached_idx_) = 0 /\
    th2 = MkThread th'.(tid_) th'.(reused_) th'.(last_acquire_) 0 th2.(cached_size_) th2.(cached_blocks_) th'.(nclk_) th'.(clk_) /\
    store_wf a' (<[k := c']> cs) (<[u := th2]> thr) syn T' /\ same_vals (<[u := th2]> thr) syn T T'.
Proof.
  intros Hwf Hc Hu E1 E2 E3. unfold ResetCached. pose proof Hwf as (_ & _ & HS & HC). destruct (Z.eqb_spec th'.(cached_idx_) 0) as [E0|Hn0]; cbn [negb].
  - exists th', a, c, T. rewrite insert_id by done. split; [done|]. split; [done|]. split; [destruct th'; cbn in *; congruence|]. split; [by apply (store_thread a cs thr syn T u th)|done].
  - destruct (HC u th Hu) as [?|(t & Ht & Ez & Eb)]; [congruence|]. rewrite E1 in Hn0. rewrite E1, E3, Eb. set (i := th.(cached_idx_)) in *. set (th2 := set_cached th' 0 0 0).
    destruct (unref_store a c cs thr syn (<[u := th2]> thr) syn T i t k Hwf Hc Ht) as (a' & c' & T' & E & Hwf' & Hsame).
    + intros x. unfold refs. rewrite (count_put _ thr u th th2 Hu). assert (caches_tab x th2 = false) as -> by done. assert (caches_tab x th = (i =? x)) as ->; [|lia].
      unfold caches_tab. fold i. by rewrite (proj2 (Z.eqb_neq i 0)).
    + done.
    + intros w thw [[<- <-]|[Hne Hw]]%lookup_insert_Some; [by left|by apply (HC w)].
    + rewrite E, bind_ok. exists th2, a', c', T'. split; [done|]. split; [done|]. split; [done|]. done.
Qed.

(** The flag of a thread on the table of an object, if there is room for it. *)
Lemma set_own_flag a cs thr syn T u th s t :
  store_wf a cs thr syn T -> thr !! u = Some th -> thread_ok u th -> T !! s.(tab_idx_) = Some t -> on_table s s.(tab_idx_) t ->
  exists a' T', (if th.(tid_) <? s.(size_) then p ← elem s a th.(tid_); write_reused a p th.(reused_) else Ok a) = Ok a' /\ store_wf a' cs thr syn T' /\
    (T' = T \/ u < zlen t.(vals) /\ flagged T T' t.(vals) u th.(reused_)).
Proof.
  intros Hwf Hu (-> & Hut & _ & _ & _ & _ & _ & _ & Hre) Hi (Es & Eb & Ez). rewrite Ez. destruct (Z.ltb_spec u (zlen t.(vals))) as [Hlt|Hge]; [|exists a, T; auto].
  destruct (flag_store a cs thr syn T s.(tab_idx_) t s u th.(reused_) Hwf Hi Es Eb) as (p & a' & E1 & E2 & Hwf' & Hfl); [unfold tid_ok in Hut; lia|lia|].
  rewrite E1, bind_ok, E2. exists a', (<[s.(tab_idx_) := set_vals t (set_flag u th.(reused_) t.(vals))]> T). split; [done|]. split; [done|]. right. done.
Qed.

Lemma flagged_values T T' vs u r syn : 0 <= u < zlen vs -> flagged T T' vs u r -> same_values syn T T'.
Proof. intros Hu [Hs _] k s _ i. destruct (Hs s) as [->|[E1 E2]]; [done|]. rewrite E1, E2. by apply set_flag_value. Qed.

Lemma flagged_or_same T T' thr syn u th vs :
  sem T thr syn -> thr !! u = Some th -> (forall i, tid_ok i -> (el vs i).(epoch) <= at_ th.(clk_) i) ->
  T' = T \/ u < zlen vs /\ flagged T T' vs u th.(reused_) -> sem T' thr syn /\ same_values syn T T'.
Proof.
  intros Hsem Hu Hle [->|[Hlt Hfl]]; [done|]. split; [by apply (sem_flag T T' thr syn u th vs)|]. eapply flagged_values; [|done]. destruct Hsem as [HT _]. destruct (HT u th Hu) as [((_ & [? _] & _) & _) _]. lia.
Qed.

Lemma flagged_reused T T' vs u th th' : th'.(reused_) = th.(reused_) ->
  T' = T \/ u < zlen vs /\ flagged T T' vs u th.(reused_) -> T' = T \/ u < zlen vs /\ flagged T T' vs u th'.(reused_).
Proof. by intros ->. Qed.

Lemma at_out clk n i : zlen clk = n -> ~ 0 <= i < n -> at_ clk i = 0.
Proof. intros <- Hi. unfold at_, zlen in *. destruct (Z.ltb_spec i 0); [done|]. by rewrite lookup_ge_None_2 by lia. Qed.

Lemma dirty_max_out thr vs l i : good_dirty thr vs l -> zlen vs <= kMaxTid -> ~ tid_ok i -> dirty_max l i = 0.
Proof.
  intros (d0 & d1 & -> & _ & Hd) Hz Hi. assert (Hv : forall d, d ∈ [d0; d1] -> (valid d && (d.(d_tid) =? i)) = false).
  { intros d Hin. destruct (valid d) eqn:Ev; [|done]. destruct (Hd d Hin Ev) as (Hr & _). destruct (Z.eqb_spec d.(d_tid) i) as [<-|]; [|done]. destruct Hi. unfold tid_ok. lia. }
  cbn [dirty_max foldr]. rewrite !Hv by (try left; right; left). done.
Qed.

(** The vector part of [acquire]. *)
Lemma acquire_vector a cs thr syn T u th s t :
  inv a cs thr syn T -> thr !! u = Some th -> good_sync thr t.(vals) s -> T !! s.(tab_idx_) = Some t -> on_table s s.(tab_idx_) t ->
  exists clk1 b1 b clk b', acquire_dirty s.(dirty_) (th.(clk_), false) = Ok (clk1, b1) /\ not_acquired th s a = Ok b /\
    (if b : bool then acquire_table s a (clk1, b1) else Ok (clk1, b1)) = Ok (clk, b') /\ zlen clk = kMaxTidInClock /\
    (forall i, tid_ok i -> at_ clk i = Z.max (at_ th.(clk_) i) (value t.(vals) s.(dirty_) i)) /\ (forall i, ~ tid_ok i -> at_ clk i = 0) /\ (b' = false -> clk = th.(clk_)) /\
    (b = false -> forall i, tid_ok i -> th.(nclk_) <= i -> at_ clk i = 0).
Proof.
  intros (Hwf & [HT _] & _) Hu (Hv & Hd & _) Hi Hon. destruct (HT u th Hu) as [(Hok & _) _]. pose proof Hok as (Et & Hut & Hn & Hl & Hpos & Hz & _). destruct (store_focus a cs thr syn T _ t Hwf Hi) as (Hh & Ht & Hmax & _).
  pose proof Hon as (Es & Eb & Ez). pose proof Hv as (Hf & _ & Hflag). assert (Hin : zlen t.(vals) <= zlen th.(clk_)) by (rewrite Hl; unfold kMaxTidInClock in *; pose proof kMaxTid_val; lia).
  destruct (acquire_dirty_ok s.(dirty_) th.(clk_) false) as (clk1 & b1 & E1 & Hl1 & Ha1 & Hb1); [intros j; apply Hpos|by apply (dirty_dirty_in thr t.(vals))|].
  assert (Hout : forall i, ~ tid_ok i -> at_ th.(clk_) i = 0) by (intros i Hi'; destruct (decide (i < 0)); [unfold at_; by rewrite (proj2 (Z.ltb_lt i 0)) by lia|]; apply Hz; unfold tid_ok in Hi'; lia).
  assert (Hep : forall i, ~ tid_ok i -> (el t.(vals) i).(epoch) = 0) by (intros i Hi'; rewrite el_out; [done|]; unfold tid_ok in Hi'; lia).
  assert (Hna : not_acquired th s a = Ok (if zlen t.(vals) <=? u then true else negb ((el t.(vals) u).(reused) =? th.(reused_)))).
  { unfold not_acquired. rewrite Et, Ez. destruct (Z.leb_spec (zlen t.(vals)) u); [done|]. assert (Hur : 0 <= u < zlen t.(vals)) by (unfold tid_ok in Hut; lia).
    rewrite (elem_ok_at a cs _ t _ s u Hh (proj1 Ht) Es Eb Hur), bind_ok. by rewrite (read_ok a cs _ t _ u _ Hh (proj1 Ht) (proj1 Hur) (el_lookup _ _ Hur)), bind_ok. }
  destruct (if zlen t.(vals) <=? u then true else negb ((el t.(vals) u).(reused) =? th.(reused_))) eqn:Eb'.
  - destruct (acquire_table_ok _ t s a cs (blocks (delete s.(tab_idx_) T)) clk1 b1 Ht Hon) as (clk & b' & E2 & Hl2 & Ha2 & Hb2); [lia|intros j; rewrite Ha1; specialize (Hpos j); lia|exact Hh|].
    exists clk1, b1, true, clk, b'. split; [done|]. split; [done|]. split; [done|]. split; [lia|]. split; [|split; [|split; [|done]]].
    + intros i Hi'. rewrite Ha2, Ha1, <- (dirty_max_value thr t.(vals) s.(dirty_) i Hv Hd Hi'). lia.
    + intros i Hi'. rewrite Ha2, Ha1, (Hout i Hi'), (Hep i Hi'), (dirty_max_out thr t.(vals)) by done. done.
    + intros E. destruct (Hb2 E) as [Eb1 ->]. by destruct (Hb1 Eb1) as [_ ->].
  - destruct (Z.leb_spec (zlen t.(vals)) u) as [?|Hlt]; [done|]. apply negb_false_iff, Z.eqb_eq in Eb'. destruct (Hflag u Hut) as (_ & _ & Hle). specialize (Hle th Hu Eb').
    exists clk1, b1, false, clk1, b1. split; [done|]. split; [done|]. split; [done|]. split; [lia|]. assert (Hall : forall i, tid_ok i -> at_ clk1 i = Z.max (at_ th.(clk_) i) (value t.(vals) s.(dirty_) i)).
    { intros i Hi'. rewrite Ha1, <- (dirty_max_value thr t.(vals) s.(dirty_) i Hv Hd Hi'). specialize (Hle i Hi'). lia. }
    split; [done|]. split; [|split].
    + intros i Hi'. rewrite Ha1, (Hout i Hi'), (dirty_max_out thr t.(vals)) by done. done.
    + intros E. by destruct (Hb1 E) as [_ ->].
    + intros _ i Hi' Hni. rewrite Hall, (Hz i Hni) by done. specialize (Hle i Hi'). rewrite (Hz i Hni) in Hle. pose proof (el_ok t.(vals) i Hf) as [He _]. unfold value. destruct (find_dirty s.(dirty_) i) as [e|] eqn:Ef; [|lia].
      exfalso. apply find_dirty_some in Ef as (d & Hind & Etid & Ee). destruct Hd as (d0 & d1 & _ & _ & Hd). subst i. destruct (Hd d Hind (tid_valid d Hi')) as (_ & _ & ? & _). lia.
Qed.

Lemma roomy_both cs thr syn k c c' u th th' : cs !! k = Some c -> thr !! u = Some th -> roomy cs thr syn -> roomy (<[k := c']> cs) (<[u := th']> thr) syn.
Proof. intros Hc Hu Hr. apply (roomy_put _ _ _ k c); [done|]. by apply (roomy_thread _ _ _ u th). Qed.

(** The thread's vector becomes the maximum, objects keep theirs. *)
Lemma acquire_ok a c cs thr syn T u th ks s k :
  inv a cs thr syn T -> cs !! k = Some c -> thr !! u = Some th -> syn !! ks = Some s ->
  exists th' a' c' T', acquire th (a, c) s = Ok (th', (a', c')) /\ inv a' (<[k := c']> cs) (<[u := th']> thr) syn T' /\
    (forall i, tid_ok i -> at_ th'.(clk_) i = Z.max (at_ th.(clk_) i) (value (vals_of T s) s.(dirty_) i)) /\ th'.(reused_) = th.(reused_) /\ same_values syn T T'.
Proof.
  intros Hinv Hc Hu Hs. pose proof Hinv as (Hwf & Hsem & Hroom). pose proof Hsem as [HT HS]. destruct (HT u th Hu) as [Hgood Hcache]. pose proof Hgood as ((Et & Hut & Hn & Hl & Hpos & Hz & Hla & H0' & Hre) & Hb & Hk).
  pose proof (HS ks s Hs) as Hg. pose proof Hwf as (_ & HTW & HSW & _). destruct (HSW ks s Hs) as [He|(t & Hi & Hon)].
  { unfold acquire. destruct He as (Ez & _). rewrite Ez, Z.eqb_refl. exists th, a, c, T. rewrite !insert_id by done. split; [done|]. split; [done|]. split; [|done]. intros i Hi.
    assert (Ev : vals_of T s = []) by (unfold vals_of; by rewrite Ez). rewrite Ev in *. destruct Hg as (_ & Hd & _). rewrite (value_out [] s.(dirty_) thr i Hd Hi); [specialize (Hpos i); lia|]. change (zlen (@nil ClockElem)) with 0. unfold tid_ok in Hi. lia. }
  destruct (HTW _ t Hi) as (_ & Ht & Hmax & _). pose proof (vals_of_on T s _ t Hi Ht Hon eq_refl) as Ev. rewrite Ev in *. pose proof Hon as (_ & _ & Ez). pose proof Ht as (_ & Hp & _).
  destruct (acquire_vector a cs thr syn T u th s t Hinv Hu Hg Hi Hon) as (clk1 & b1 & b & clk & b' & E1 & E2 & E3 & Hl' & Hclk & Hout & Hsame & Hzero).
  destruct (set_own_flag a cs thr syn T u th s t Hwf Hu (proj1 Hgood) Hi Hon) as (a1 & T1 & E4 & Hwf1 & Hfl).
  set (n' := if b then Z.max th.(nclk_) (zlen t.(vals)) else th.(nclk_)). set (a2 := if b then a1 else a). set (T2 := if b then T1 else T).
  assert (Hwf2 : store_wf a2 cs thr syn T2) by (unfold a2, T2; by destruct b). assert (Hfl2 : T2 = T \/ u < zlen t.(vals) /\ flagged T T2 t.(vals) u th.(reused_)) by (unfold T2; destruct b; auto).
  assert (Hval : behind thr (value t.(vals) s.(dirty_))) by (apply value_behind; apply Hg).
  assert (Hn' : u < n' <= kMaxTid) by (unfold n'; destruct b; lia). assert (Hz' : forall i, tid_ok i -> n' <= i -> at_ clk i = 0).
  { intros i Hi' Hni. unfold n' in Hni. destruct b; [|by apply Hzero]. rewrite Hclk, Hz, (value_out t.(vals) s.(dirty_) thr) by (done || lia || apply Hg). done. }
  assert (Ecode : acquire th (a, c) s = (let th1 := set_clk th n' clk in if b' : bool then own ← aget th1.(clk_) th1.(tid_); ResetCached (set_last_acquire th1 own) (a2, c) else Ok (th1, (a2, c)))).
  { unfold acquire. rewrite Ez, (proj2 (Z.eqb_neq _ _)) by lia. rewrite E1, bind_ok. cbn [fst snd]. rewrite E2, bind_ok, <- Ez. unfold n', a2. destruct b; [|injection E3 as -> ->; by rewrite bind_ok]. rewrite E3, bind_ok, E4, bind_ok, bind_ok, Ez. done. }
  rewrite Ecode. cbn zeta. clear Ecode. assert (Hle : forall i, tid_ok i -> (el t.(vals) i).(epoch) <= at_ clk i).
  { intros i Hi'. rewrite Hclk by done. destruct Hg as (Hv & Hd & _). destruct (value_bounds thr _ _ i Hv Hd Hi'). lia. }
  assert (Hbound : forall i, tid_ok i -> value t.(vals) s.(dirty_) i < 2 ^ 42) by (intros i Hi'; destruct Hg as (Hv & Hd & _); destruct (value_bounds thr _ _ i Hv Hd Hi'); lia).
  assert (Hsemth : forall th', th'.(tid_) = u -> th'.(reused_) = th.(reused_) -> th'.(nclk_) = n' -> th'.(clk_) = clk ->
    th'.(last_acquire_) = at_ clk u \/ th'.(last_acquire_) = th.(last_acquire_) /\ clk = th.(clk_) -> advances u th th' /\ good_thread (<[u := th']> thr) u th').
  { intros th' F1 F2 F3 F4 F5. apply (acquire_sem thr u th th' (value t.(vals) s.(dirty_))); rewrite ?F3, ?F4; try done; apply Hg. }
  destruct b'.
  - set (th1 := set_clk th n' clk). assert (Eown : aget th1.(clk_) th1.(tid_) = Ok (at_ clk u)) by (cbn [clk_ tid_ th1 set_clk]; rewrite Et; apply at_get; rewrite Hl'; unfold tid_ok, kMaxTidInClock in *; lia).
    rewrite Eown, bind_ok. destruct (reset_cached_ok a2 c cs thr syn T2 u th (set_last_acquire th1 (at_ clk u)) k Hwf2 Hc Hu eq_refl eq_refl eq_refl) as (th2 & a' & c' & T' & E5 & Hc0 & Eth2 & Hwf' & Hsv).
    rewrite E5. assert (F : th2.(tid_) = u /\ th2.(reused_) = th.(reused_) /\ th2.(nclk_) = n' /\ th2.(clk_) = clk /\ th2.(last_acquire_) = at_ clk u) by (rewrite Eth2; done). destruct F as (F1 & F2 & F3 & F4 & F5).
    destruct (Hsemth th2 F1 F2 F3 F4 (or_introl F5)) as [Hadv Hgood'].
    assert (Hs1 : sem T (<[u := th2]> thr) syn). { apply (sem_thread thr u th th2); [done..|]. intros vs. unfold cached_vals. by rewrite Hc0. }
    destruct (flagged_or_same T T2 (<[u := th2]> thr) syn u th2 t.(vals) Hs1) as [Hs2 Hsv2]; [apply lookup_insert_eq|by rewrite F4|by apply (flagged_reused _ _ _ _ th)|].
    exists th2, a', c', T'. split; [done|]. split; [split; [done|]; split; [by apply (sem_same T2)|by apply (roomy_both cs thr syn k c c' u th)]|]. rewrite F4. split; [done|]. split; [done|].
    intros k' s' Hk' i. rewrite (same_vals_values _ _ _ _ Hsv k' s' Hk'). by apply (Hsv2 k').
  - specialize (Hsame eq_refl). destruct (Hsemth (set_clk th n' clk) Et eq_refl eq_refl eq_refl (or_intror (conj eq_refl Hsame))) as [Hadv Hgood'].
    assert (Hs1 : sem T (<[u := set_clk th n' clk]> thr) syn).
    { apply (sem_thread thr u th); [done..|]. intros vs. rewrite (cached_vals_ext T th) by done. intros Hvs. destruct (Hcache vs Hvs) as (Hv & H2 & H3 & H4). split; [by apply (good_vals_advances thr u th)|]. split; [done|]. split; [done|]. cbn [clk_ set_clk]. by rewrite Hsame. }
    destruct (flagged_or_same T T2 (<[u := set_clk th n' clk]> thr) syn u (set_clk th n' clk) t.(vals) Hs1) as [Hs2 Hsv2]; [apply lookup_insert_eq|done|done|].
    exists (set_clk th n' clk), a2, c, T2. split; [done|]. split; [split; [rewrite insert_id by done; by apply (store_thread a2 cs thr syn T2 u th)|]; split; [done|by apply (roomy_both cs thr syn k c c u th)]|]. done.
Qed.

(** ** [UpdateCurrentThread] *)

(** Flushing puts the vector into the table. *)
Lemma flush_value vs l i :
  (exists d0 d1, l = [d0; d1] /\ (valid d1 = true -> valid d0 = true /\ d0.(d_tid) <> d1.(d_tid))) -> (forall d, d ∈ l -> valid d = true -> 0 <= d.(d_tid) < zlen vs) -> tid_ok i ->
  (el (foldl (fun vs d => flush_one d vs) vs l) i).(epoch) = value vs l i /\ (el (foldl (fun vs d => flush_one d vs) vs l) i).(reused) = (el vs i).(reused).
Proof.
  intros (d0 & d1 & -> & H01) Hd Hi. cbn [foldl]. unfold value. cbn [find_dirty].
  assert (Hone : forall vs' d, zlen vs' = zlen vs -> d ∈ [d0; d1] -> (el (flush_one d vs') i).(epoch) = (if d.(d_tid) =? i then d.(d_epoch) else (el vs' i).(epoch)) /\ (el (flush_one d vs') i).(reused) = (el vs' i).(reused)).
  { intros vs' d Hl Hin. unfold flush_one. destruct (valid d) eqn:Ev.
    - rewrite el_set by (rewrite Hl; by apply Hd). destruct (Z.eqb_spec d.(d_tid) i) as [->|]; done.
    - destruct (Z.eqb_spec d.(d_tid) i) as [<-|]; [|done]. rewrite (tid_valid d Hi) in Ev. done. }
  destruct (Hone (flush_one d0 vs) d1) as [E1 R1]; [unfold zlen; by rewrite flush_one_length|right; left|]. destruct (Hone vs d0 eq_refl) as [E0 R0]; [left|]. split; [|congruence]. rewrite E1, E0.
  destruct (Z.eqb_spec d1.(d_tid) i) as [F1|], (Z.eqb_spec d0.(d_tid) i) as [F0|]; try done. exfalso. subst i. destruct (H01 (tid_valid d1 Hi)) as [_ Hne]. congruence.
Qed.

(** A table without flags. *)
Lemma good_vals_cleared thr vs :
  (forall w thw, thr !! w = Some thw -> 0 < thw.(reused_)) -> Forall elem_ok vs -> zlen vs <= kMaxTid ->
  (forall i, tid_ok i -> (el vs i).(epoch) <= own thr i /\ (el vs i).(reused) = 0) -> good_vals thr vs.
Proof.
  intros Hre Hf Hz Hv. split; [done|]. split; [done|]. intros u Hu. destruct (Hv u Hu) as [Ho Hr]. split; [done|]. rewrite Hr. unfold incarnation. split.
  - destruct (thr !! u) eqn:E; [|done]. specialize (Hre u _ E). lia.
  - intros th Hth E. specialize (Hre u th Hth). lia.
Qed.

Lemma valid_no_dirty d : valid (no_dirty d) = false.
Proof. unfold valid, no_dirty. cbn [d_tid]. by rewrite Z.eqb_refl. Qed.

Lemma good_dirty_none thr vs l : length l = 2%nat -> good_dirty thr vs (no_dirty <$> l).
Proof.
  intros Hl. destruct l as [|d0 [|d1 [|]]]; try done. cbn. exists (no_dirty d0), (no_dirty d1). split; [done|]. split; [by rewrite valid_no_dirty|].
  intros d Hin Hv. exfalso. apply elem_of_cons in Hin as [->|[->|Hin]%elem_of_cons]; [by rewrite valid_no_dirty in Hv..|by apply elem_of_nil in Hin].
Qed.

Lemma value_no_dirty vs l i : tid_ok i -> value vs (no_dirty <$> l) i = (el vs i).(epoch).
Proof.
  intros Hi. unfold value. rewrite find_dirty_none; [done|done|]. intros d Hin Hv. exfalso. apply list_elem_of_fmap in Hin as (d' & -> & _). by rewrite valid_no_dirty in Hv.
Qed.

Lemma good_dirty_length thr vs l : good_dirty thr vs l -> length l = 2%nat.
Proof. by intros (d0 & d1 & -> & _). Qed.

(** The new entry of a thread. *)
Lemma update_dirty_ok thr u th vs l l' :
  good_dirty thr vs l -> thr !! u = Some th -> thread_ok u th -> u < zlen vs -> 0 < (el vs u).(epoch) <= at_ th.(clk_) u -> update_dirty l u (at_ th.(clk_) u) = Some l' ->
  good_dirty thr vs l' /\ forall i, tid_ok i -> value vs l' i = if i =? u then at_ th.(clk_) u else value vs l i.
Proof.
  intros (d0 & d1 & -> & H01 & Hd) Hu (Et & Hut & _ & _ & Hpos & _) Hlt Hep. assert (Ew : MkDirty (wrap kClkBits (at_ th.(clk_) u)) (wrap (64 - kClkBits) u) = MkDirty (at_ th.(clk_) u) u).
  { unfold wrap, kClkBits. specialize (Hpos u). unfold tid_ok in Hut. rewrite kMaxTid_val in Hut. rewrite !Z.mod_small by lia. done. }
  cbn [update_dirty]. rewrite Ew. set (n := MkDirty (at_ th.(clk_) u) u). assert (Hvn : valid n = true) by (by apply tid_valid).
  assert (Hn : 0 <= n.(d_tid) < zlen vs /\ n.(d_epoch) < 2 ^ 42 /\ 0 < (el vs n.(d_tid)).(epoch) <= n.(d_epoch) /\ n.(d_epoch) <= own thr n.(d_tid)).
  { cbn [n d_tid d_epoch]. rewrite (own_thread thr u th Hu). specialize (Hpos u). unfold tid_ok in Hut. lia. }
  assert (Hin : forall d d', d' ∈ [d0; d1] -> d = n \/ d = d' -> valid d = true -> 0 <= d.(d_tid) < zlen vs /\ d.(d_epoch) < 2 ^ 42 /\ 0 < (el vs d.(d_tid)).(epoch) <= d.(d_epoch) /\ d.(d_epoch) <= own thr d.(d_tid)).
  { intros d d' Hd' [->| ->]; [done|by apply Hd]. }
  unfold valid in H01. destruct (Z.eqb_spec d0.(d_tid) u) as [E0|N0]; [|destruct (Z.eqb_spec d0.(d_tid) kInvalidTid) as [I0|V0]]; cbn [orb].
  - intros [= <-]. split.
    + exists n, d1. split; [done|]. split; [|intros d [->|[->|?%elem_of_nil]%elem_of_cons]%elem_of_cons; [auto|apply (Hin d1 d1); [right; left|by right]|done]]. intros Hv. split; [done|]. destruct (H01 Hv) as [_ Hne]. cbn. congruence.
    + intros i Hi. unfold value. cbn [find_dirty n d_tid d_epoch]. rewrite E0, Z.eqb_sym. by destruct (Z.eqb_spec i u) as [->|].
  - intros [= <-]. assert (Hv1 : valid d1 = false) by (unfold valid; destruct (d1.(d_tid) =? kInvalidTid) eqn:E; [done|]; by destruct (H01 eq_refl) as [Hb _]). split.
    + exists n, d1. split; [done|]. split; [by rewrite Hv1|]. intros d [->|[->|?%elem_of_nil]%elem_of_cons]%elem_of_cons; [auto|by rewrite Hv1|done].
    + intros i Hi. unfold value. cbn [find_dirty n d_tid d_epoch]. rewrite (Z.eqb_sym u i). destruct (Z.eqb_spec i u) as [->|]; [done|]. destruct (Z.eqb_spec d0.(d_tid) i) as [F|]; [|done].
      exfalso. rewrite kInvalidTid_val in I0. unfold tid_ok in Hi. rewrite kMaxTid_val in Hi. lia.
  - destruct (Z.eqb_spec d1.(d_tid) u) as [E1|N1]; [|destruct (Z.eqb_spec d1.(d_tid) kInvalidTid) as [I1|V1]]; cbn [orb option_map]; [..|done]; intros [= <-].
    + split.
      * exists d0, n. split; [done|]. split; [intros _; split; [unfold valid; by rewrite (proj2 (Z.eqb_neq _ _))|by cbn]|]. intros d [->|[->|?%elem_of_nil]%elem_of_cons]%elem_of_cons; [apply (Hin d0 d0); [left|by right]|auto|done].
      * intros i Hi. unfold value. cbn [find_dirty n d_tid d_epoch]. destruct (Z.eqb_spec d0.(d_tid) i) as [F|]; [rewrite (proj2 (Z.eqb_neq i u)) by congruence; done|]. rewrite E1, (Z.eqb_sym u i). by destruct (Z.eqb_spec i u) as [->|].
    + split.
      * exists d0, n. split; [done|]. split; [intros _; split; [unfold valid; by rewrite (proj2 (Z.eqb_neq _ _))|by cbn]|]. intros d [->|[->|?%elem_of_nil]%elem_of_cons]%elem_of_cons; [apply (Hin d0 d0); [left|by right]|auto|done].
      * intros i Hi. unfold value. cbn [find_dirty n d_tid d_epoch]. destruct (Z.eqb_spec d0.(d_tid) i) as [F|]; [rewrite (proj2 (Z.eqb_neq i u)) by congruence; done|]. rewrite (Z.eqb_sym u i). destruct (Z.eqb_spec i u) as [->|]; [done|].
        destruct (Z.eqb_spec d1.(d_tid) i) as [F|]; [|done]. exfalso. rewrite kInvalidTid_val in I1. unfold tid_ok in Hi. rewrite kMaxTid_val in Hi. lia.
Qed.

Lemma update_dirty_none l u v : update_dirty l u v = None -> forall d, d ∈ l -> valid d = true /\ d.(d_tid) <> u.
Proof.
  induction l as [|d0 l IH]; [intros _ d Hd; by apply elem_of_nil in Hd|]. cbn [update_dirty]. destruct (Z.eqb_spec d0.(d_tid) u), (Z.eqb_spec d0.(d_tid) kInvalidTid) as [|Hv]; try done. cbn [orb].
  destruct (update_dirty l u v); [done|]. intros _ d [->|Hd]%elem_of_cons; [|by apply IH]. split; [|done]. unfold valid. by rewrite (proj2 (Z.eqb_neq _ _)).
Qed.

(** The table of an object that has it for itself gets new elements. *)
Lemma sole_write a cs thr syn T ks s s1 vs a1 cs1 T1 vs' s' a' :
  syn !! ks = Some s -> sole_after a cs thr syn T ks s s1 vs a1 cs1 T1 ->
  (forall t1, T1 !! s1.(tab_idx_) = Some t1 -> table_ok (set_vals t1 vs') /\ heap a' cs1 (pieces s1.(tab_idx_) (set_vals t1 vs') ++ blocks (delete s1.(tab_idx_) T1))) -> length vs' = length vs ->
  s'.(tab_) = s1.(tab_) -> s'.(tab_idx_) = s1.(tab_idx_) -> s'.(size_) = s1.(size_) -> s'.(blocks_) = s1.(blocks_) ->
  exists T', store_wf a' cs1 thr (<[ks := s']> syn) T' /\ same_vals thr (delete ks syn) T T' /\ vals_of T' s' = vs' /\
    exists t', T' !! s'.(tab_idx_) = Some t' /\ on_table s' s'.(tab_idx_) t' /\ t'.(refc) = 1 /\ t'.(vals) = vs'.
Proof.
  intros Hks (_ & Hwf1 & Hsame1 & t1 & Hi1 & Hon1 & Hr1 & Hv1) Hheap Hlen E1 E2 E3 E4. destruct (Hheap t1 Hi1) as [Hok Hh]. destruct (store_focus _ _ _ _ _ _ _ Hwf1 Hi1) as (_ & _ & Hmax & _). destruct Hon1 as (F1 & F2 & F3).
  assert (Hz : zlen vs' = zlen t1.(vals)) by (unfold zlen; by rewrite Hlen, Hv1).
  destruct (change_sole a1 cs1 a' cs1 thr (<[ks := s1]> syn) T1 ks s1 s1.(tab_idx_) t1 s' (set_vals t1 vs') Hwf1 (lookup_insert_eq _ _ _) Hi1 Hr1) as (Hwf' & Hsame' & Hv'); try done.
  - cbn [vals set_vals]. lia.
  - split; [congruence|]. split; [cbn [ids set_vals]; congruence|]. cbn [vals set_vals]. congruence.
  - rewrite insert_insert_eq in Hwf'. rewrite delete_insert_eq in Hsame'. exists (<[s1.(tab_idx_) := set_vals t1 vs']> T1). split; [done|]. split; [by apply (same_vals_trans thr (delete ks syn) T T1)|].
    split; [done|]. exists (set_vals t1 vs'). rewrite E2, lookup_insert_eq. split; [done|]. split; [|done]. split; [congruence|]. split; [cbn [ids set_vals]; congruence|]. cbn [vals set_vals]. congruence.
Qed.

(** The elements that the slow path of [UpdateCurrentThread] leaves. *)
Definition updated (vs : list ClockElem) (l : list Dirty) (u v : Z) : list ClockElem :=
  foldl (fun vs d => flush_one d vs) (tabulate (<[Z.to_nat u := MkElem v (el vs u).(reused)]> vs) (fun k e => if 0 <=? k then MkElem e.(epoch) 0 else e)) l.

Lemma updated_length thr vs l u v : good_dirty thr vs l -> length (updated vs l u v) = length vs.
Proof. intros (d0 & d1 & -> & _). unfold updated. cbn [foldl]. rewrite !flush_one_length, tabulate_length. apply length_insert. Qed.

Lemma updated_values thr vs l u v j :
  good_dirty thr vs l -> (forall d, d ∈ l -> valid d = true /\ d.(d_tid) <> u) -> 0 <= u < zlen vs -> tid_ok j ->
  (el (updated vs l u v) j).(epoch) = (if j =? u then v else value vs l j) /\ (el (updated vs l u v) j).(reused) = 0.
Proof.
  intros (d0 & d1 & Edl & H01 & Hd) Hnone Hu Hj. unfold updated. set (v3 := tabulate _ _).
  assert (Hlen : zlen v3 = zlen vs) by (unfold zlen, v3; rewrite tabulate_length, length_insert; done).
  assert (Hv3 : (el v3 j).(epoch) = (if j =? u then v else (el vs j).(epoch)) /\ (el v3 j).(reused) = 0).
  { unfold v3. rewrite el_tabulate, zlen_insert. unfold tid_ok in Hj. rewrite (proj2 (Z.leb_le 0 j)) by lia. cbn [andb]. destruct (Z.ltb_spec j (zlen vs)).
    - cbn [epoch reused]. split; [|done]. rewrite el_set by lia. rewrite (Z.eqb_sym u j). by destruct (j =? u).
    - rewrite el_out by lia. split; [|done]. rewrite (proj2 (Z.eqb_neq j u)) by lia. done. }
  destruct (flush_value v3 l j) as [-> ->]; [eauto| |done|].
  - intros d Hin Hvd. rewrite Hlen. by apply Hd.
  - destruct Hv3 as [E3 ->]. split; [|done]. unfold value. destruct (find_dirty l j) as [e|] eqn:Ef; [|rewrite E3; by destruct (j =? u)].
    apply find_dirty_some in Ef as (d & Hin & Etid & _). destruct (Hnone d Hin) as [_ Hne]. rewrite (proj2 (Z.eqb_neq j u)) by congruence. done.
Qed.

(** The slow path on a table of its own. *)
Lemma update_table_ok a cs i t s rest thr u v :
  heap a cs (pieces i t ++ rest) -> table_ok t -> on_table s i t -> good_dirty thr t.(vals) s.(dirty_) -> 0 <= u < zlen t.(vals) -> 0 <= v < 2 ^ 42 ->
  exists a', (p ← elem s a u; a ← write_epoch a p v; a ← clear_reused s a 0; FlushDirty s a) = Ok (set_dirty s (no_dirty <$> s.(dirty_)), a') /\
    table_ok (set_vals t (updated t.(vals) s.(dirty_) u v)) /\ heap a' cs (pieces i (set_vals t (updated t.(vals) s.(dirty_) u v)) ++ rest).
Proof.
  intros Hh Ht (F1 & F2 & F3) Hd Hu Hv. rewrite (elem_ok_at a cs i t rest s u Hh (proj1 Ht) F1 F2 Hu), bind_ok.
  destruct (write_epoch_ok a cs i t rest u _ v Hh (proj1 Ht) (proj1 Hu) (el_lookup _ _ Hu) Hv) as (a2 & -> & Hh2). rewrite bind_ok. set (e2 := MkElem v (el t.(vals) u).(reused)) in *. set (t2 := set_val t u e2) in *.
  assert (Ht2 : table_ok t2). { apply set_val_ok; [done|]. split; [done|]. destruct Ht as ((_ & _ & Hf & _) & _). by apply (el_ok t.(vals) u Hf). }
  assert (Hon2 : on_table s i t2) by (split; [done|]; split; [done|]; cbn [vals set_val t2]; rewrite zlen_insert; done).
  destruct (clear_reused_ok i t2 s a2 cs rest 0 Ht2 Hon2 ltac:(lia) Hh2) as (a3 & -> & Hh3). rewrite bind_ok. set (v3 := tabulate t2.(vals) (fun k e => if 0 <=? k then MkElem e.(epoch) 0 else e)) in *.
  assert (Hlen3 : length v3 = length t.(vals)) by (unfold v3; rewrite tabulate_length; apply length_insert).
  assert (Hf3 : Forall elem_ok v3). { destruct Ht2 as ((_ & _ & Hf2 & _) & _). apply tabulate_ok; [done|]. intros k0 e0 _ [? ?]. destruct (0 <=? k0); done. }
  assert (Ht3 : table_ok (set_vals t2 v3)) by (apply set_vals_ok; [done|unfold v3; apply tabulate_length|done]).
  assert (Hon3 : on_table s i (set_vals t2 v3)) by (split; [done|]; split; [done|]; cbn [vals set_vals]; unfold zlen in *; by rewrite Hlen3).
  destruct (FlushDirty_ok i (set_vals t2 v3) s a3 cs rest Ht3 Hon3) as (a4 & -> & Hh4 & Ht4); [|done|eauto]. apply (dirty_dirty_in thr t.(vals)); [done|]. cbn [vals set_vals]. unfold zlen. rewrite Hlen3. done.
Qed.

Definition update_post thr u th vs s s' vs' : Prop :=
  s'.(release_store_tid_) = s.(release_store_tid_) /\ s'.(release_store_reused_) = s.(release_store_reused_) /\ good_vals thr vs' /\ good_dirty thr vs' s'.(dirty_) /\
  forall i, tid_ok i -> value vs' s'.(dirty_) i = if i =? u then at_ th.(clk_) u else value vs s.(dirty_) i.

Lemma update_ok a c cs thr syn T u th ks s t k :
  inv a cs thr syn T -> cs !! k = Some c -> thr !! u = Some th -> syn !! ks = Some s -> T !! s.(tab_idx_) = Some t -> on_table s s.(tab_idx_) t ->
  u < zlen t.(vals) -> th.(last_acquire_) < (el t.(vals) u).(epoch) ->
  exists s' a' c' T', UpdateCurrentThread th (a, c) s = Ok (s', (a', c')) /\ store_wf a' (<[k := c']> cs) thr (<[ks := s']> syn) T' /\ same_vals thr (delete ks syn) T T' /\
    update_post thr u th t.(vals) s s' (vals_of T' s').
Proof.
  intros Hinv Hc Hu Hks Hi Hon Hlt Hla. pose proof Hinv as (Hwf & Hsem & Hroom). pose proof Hsem as [HT HS]. destruct (HT u th Hu) as [(Hok & Hb & _) _]. pose proof Hok as (Et & Hut & Hn & Hl & Hpos & _ & Hla0 & _).
  destruct (store_focus a cs thr syn T _ t Hwf Hi) as (Hh & Ht & Hmax & _). pose proof (vals_of_on T s _ t Hi Ht Hon eq_refl) as Ev. pose proof (HS ks s Hks) as Hg. rewrite Ev in Hg. destruct Hg as (Hv & Hd & Hk & Hr).
  pose proof (proj1 (proj2 (proj2 Hv) u Hut)) as Hown. rewrite (own_thread thr u th Hu) in Hown. unfold UpdateCurrentThread. rewrite (get_own u th Hok), bind_ok, Et. destruct (update_dirty s.(dirty_) u (at_ th.(clk_) u)) as [l'|] eqn:El.
  { destruct (update_dirty_ok thr u th t.(vals) s.(dirty_) l' Hd Hu Hok Hlt ltac:(lia) El) as [Hd' Hval']. exists (set_dirty s l'), a, c, T. rewrite (insert_id cs) by done. split; [done|]. pose proof Hwf as (_ & _ & HSW & HCW). split; [|split].
    - apply (store_wf_ext a cs thr syn); [done| | |done]; [apply (refs_same thr syn ks s); [done|]; done|]. intros k' s0 [[<- <-]|[_ Hs0]]%lookup_insert_Some; [|by apply (HSW k')]. apply (HSW ks s Hks).
    - done.
    - change (vals_of T (set_dirty s l')) with (vals_of T s). rewrite Ev. done. }
  pose proof (update_dirty_none _ _ _ El) as Hnone. destruct (unshare_store a cs thr syn T ks s t k c 1 Hwf Hroom Hc Hks Hi Hon) as (s1 & a1 & c1 & T1 & E1 & Ez1 & Hsole). assert (E1' : Unshare s (a, c) = Ok (s1, (a1, c1))) by exact E1. rewrite E1', bind_ok. cbn [fst snd].
  pose proof Hsole as (Eq1 & Hwf1 & Hsame1 & t1 & Hi1 & Hon1 & Hr1 & Hv1). set (i := s1.(tab_idx_)) in *. destruct (store_focus a1 _ thr _ T1 i t1 Hwf1 Hi1) as (Hh1 & Ht1 & _). pose proof Hon1 as (F1 & F2 & F3).
  rewrite <- Hv1 in *. assert (Hur : 0 <= u < zlen t1.(vals)) by (unfold tid_ok in Hut; lia).
  assert (Ed : s1.(dirty_) = s.(dirty_)) by (rewrite Eq1; done). rewrite <- Ed in Hd. set (vs' := updated t1.(vals) s1.(dirty_) u (at_ th.(clk_) u)).
  destruct (update_table_ok a1 _ i t1 s1 _ thr u (at_ th.(clk_) u) Hh1 Ht1 Hon1 Hd Hur (Hpos u)) as (a4 & E4 & Ht4 & Hh4). fold vs' in Ht4, Hh4. set (s' := set_dirty s1 (no_dirty <$> s1.(dirty_))) in *.
  assert (Ecode : (p ← elem s1 a1 u; a ← write_epoch a1 p (at_ th.(clk_) u); a ← clear_reused s1 a 0; '(dst, a) ← FlushDirty s1 a; Ok (dst, (a, c1))) = Ok (s', (a4, c1))).
  { revert E4. destruct (elem s1 a1 u) as [p|]; [rewrite !bind_ok|done]. destruct (write_epoch a1 p _) as [a2|]; [rewrite !bind_ok|done]. destruct (clear_reused s1 a2 0) as [a3|]; [rewrite !bind_ok|done]. by intros ->. }
  rewrite Ecode. destruct (sole_write a cs thr syn T ks s s1 t1.(vals) a1 _ T1 vs' s' a4 Hks Hsole) as (T' & Hwf' & Hsame' & Hval' & _); [|by apply (updated_length thr)|done..|].
  { intros t0 Ht0. assert (t0 = t1) as -> by (fold i in Ht0; congruence). split; [exact Ht4|exact Hh4]. }
  assert (Hv4 := fun j => updated_values thr t1.(vals) s1.(dirty_) u (at_ th.(clk_) u) j Hd ltac:(by rewrite Ed) Hur). fold vs' in Hv4.
  exists s', a4, c1, T'. split; [done|]. split; [done|]. split; [done|]. rewrite Hval'. split; [cbn; by rewrite Eq1|]. split; [cbn; by rewrite Eq1|]. split; [|split].
  - apply good_vals_cleared.
    + intros w thw Hw. destruct (HT w thw Hw) as [((_ & _ & _ & _ & _ & _ & _ & _ & ?) & _) _]. lia.
    + by destruct Ht4 as ((_ & _ & ? & _) & _).
    + unfold zlen in *. unfold vs'. rewrite (updated_length thr) by done. lia.
    + intros j Hj. destruct (Hv4 j Hj) as [-> ->]. split; [|done]. destruct (Z.eqb_spec j u) as [->|]; [by rewrite (own_thread thr u th Hu)|]. destruct (value_bounds thr _ _ j Hv Hd Hj). lia.
  - apply good_dirty_none. by apply (good_dirty_length thr t1.(vals)).
  - intros j Hj. cbn [dirty_ set_dirty s']. rewrite value_no_dirty by done. rewrite <- Ed. by apply Hv4.
Qed.

(** ** Growing the object's clock *)

Lemma good_sync_zeros thr vs vs' s s' :
  (forall i, el vs' i = el vs i) -> Forall elem_ok vs' -> zlen vs <= zlen vs' <= kMaxTid -> s'.(dirty_) = s.(dirty_) -> s'.(release_store_tid_) = s.(release_store_tid_) -> s'.(release_store_reused_) = s.(release_store_reused_) ->
  good_sync thr vs s -> good_sync thr vs' s'.
Proof.
  intros Hel Hf Hz E1 E2 E3 ((_ & _ & Hv) & (d0 & d1 & El & H01 & Hd) & Hk & Hr). assert (Hval : forall l i, value vs' l i = value vs l i) by (intros l i; unfold value; by rewrite Hel).
  split; [split; [done|]; split; [lia|]; intros u Hu; rewrite Hel; destruct (Hv u Hu) as (? & ? & H3); split; [done|]; split; [done|]; intros th Hth Er i Hi; rewrite Hel; by apply (H3 th)|].
  rewrite E1. split; [|split].
  - exists d0, d1. split; [done|]. split; [done|]. intros d Hin Hvd. rewrite Hel. destruct (Hd d Hin Hvd) as (? & ? & ? & ?). split; [lia|done].
  - intros u th Hu. rewrite Hval. intros Hlt i Hi Hne. rewrite Hval. by apply (Hk u).
  - intros th. rewrite E2, E3, Hel. intros Hth. destruct (Hr th Hth) as [? H2]. split; [done|]. intros Er Hlt i Hi Hne. rewrite E1, Hval. by apply H2.
Qed.

(** The object after [if (dst->size_ < nclk_) dst->Resize(c, nclk_)]. *)
Definition enlarged thr syn T ks s s1 t1 T1 : Prop :=
  T1 !! s1.(tab_idx_) = Some t1 /\ on_table s1 s1.(tab_idx_) t1 /\ (forall i, el t1.(vals) i = el (vals_of T s) i) /\ s1.(dirty_) = s.(dirty_) /\
  s1.(release_store_tid_) = s.(release_store_tid_) /\ s1.(release_store_reused_) = s.(release_store_reused_) /\ same_vals thr (delete ks syn) T T1.

Lemma enlarge_ok a c cs thr syn T ks s k n :
  inv a cs thr syn T -> cs !! k = Some c -> syn !! ks = Some s -> 0 < n <= kMaxTid ->
  exists s1 a1 c1 T1 t1, (if s.(size_) <? n then Resize s (a, c) n else Ok (s, (a, c))) = Ok (s1, (a1, c1)) /\ inv a1 (<[k := c1]> cs) thr (<[ks := s1]> syn) T1 /\
    enlarged thr syn T ks s s1 t1 T1 /\ n <= zlen t1.(vals).
Proof.
  intros Hinv Hc Hks Hn. pose proof Hinv as (Hwf & Hsem & Hroom). pose proof Hsem as [HT HS]. pose proof (HS ks s Hks) as Hg. pose proof Hwf as (_ & HTW & HSW & _).
  assert (Hgrow : forall s1 a1 c1 T1 m, s1.(size_) = n -> sole_after a cs thr syn T ks s s1 (vals_of T s ++ replicate m zero_elem) a1 (<[k := c1]> cs) T1 ->
    exists t1, inv a1 (<[k := c1]> cs) thr (<[ks := s1]> syn) T1 /\ enlarged thr syn T ks s s1 t1 T1 /\ n <= zlen t1.(vals)).
  { intros s1 a1 c1 T1 m Ez1 (Eq1 & Hwf1 & Hsame1 & t1 & Hi1 & Hon1 & Hr1 & Hv1). exists t1. destruct (store_focus _ _ _ _ _ _ _ Hwf1 Hi1) as (_ & Ht1 & Hmax1 & _).
    assert (Hel : forall i, el t1.(vals) i = el (vals_of T s) i) by (intros i; rewrite Hv1; apply el_app_zeros). pose proof (vals_of_on T1 s1 _ t1 Hi1 Ht1 Hon1 eq_refl) as Ev1.
    assert (E1 : s1.(dirty_) = s.(dirty_) /\ s1.(release_store_tid_) = s.(release_store_tid_) /\ s1.(release_store_reused_) = s.(release_store_reused_)) by (rewrite Eq1; done). destruct E1 as (E1 & E2 & E3).
    split; [split; [done|]; split; [|by apply (roomy_put _ _ _ k c), (roomy_sync _ _ _ ks s)]|].
    - apply (sem_put T T1 thr syn ks s1 Hsem Hsame1). rewrite Ev1. apply (good_sync_zeros thr (vals_of T s) _ s s1); [done|by destruct Ht1 as ((_ & _ & ? & _) & _)| |done..]. split; [rewrite Hv1, zlen_app; pose proof (zlen_nonneg (replicate m zero_elem)); lia|done].
    - split; [done|]. destruct Hon1 as (_ & _ & Ez). lia. }
  destruct (HSW ks s Hks) as [He|(t & Hi & Hon)].
  - pose proof He as (Ez & _). rewrite Ez, (proj2 (Z.ltb_lt _ _)) by lia. destruct (resize_empty_store a cs thr syn T ks s k c n Hwf Hroom Hc Hks He Hn) as (s1 & a1 & c1 & T1 & E & Ez1 & Hsole).
    destruct (Hgrow s1 a1 c1 T1 (Z.to_nat n) Ez1) as (t1 & ? & ? & ?); [unfold vals_of; rewrite Ez; exact Hsole|]. exists s1, a1, c1, T1, t1. done.
  - destruct (HTW _ t Hi) as (_ & Ht & Hmax & _). pose proof (vals_of_on T s _ t Hi Ht Hon eq_refl) as Ev. destruct (Z.ltb_spec s.(size_) n) as [Hlt|Hge].
    + destruct (resize_table_store a cs thr syn T ks s t k c n Hwf Hroom Hc Hks Hi Hon ltac:(lia)) as (s1 & a1 & c1 & T1 & E & Ez1 & Hsole). rewrite <- Ev in Hsole. destruct (Hgrow s1 a1 c1 T1 _ Ez1 Hsole) as (t1 & ? & ? & ?). exists s1, a1, c1, T1, t1. done.
    + exists s, a, c, T, t. rewrite !insert_id by done. split; [done|]. split; [done|]. split; [|destruct Hon as (_ & _ & Ez); lia]. split; [done|]. split; [done|]. split; [by rewrite Ev|]. done.
Qed.

(** ** After [UpdateCurrentThread] *)

Lemma update_knows thr u th vs s s' vs' :
  (forall w thw, thr !! w = Some thw -> good_thread thr w thw) -> thr !! u = Some th -> good_sync thr vs s -> update_post thr u th vs s s' vs' -> th.(last_acquire_) < (el vs u).(epoch) ->
  knows thr (value vs' s'.(dirty_)).
Proof.
  intros HT Hu (Hv & Hd & Hk & _) (_ & _ & _ & _ & Hval) Hla w thw Hw Hlt i Hi Hne. destruct (HT u th Hu) as ((_ & Hut & _) & _). destruct (HT w thw Hw) as ((_ & Hwt & _) & Hbw & _). rewrite Hval in * by done.
  destruct (value_bounds thr vs s.(dirty_) u Hv Hd Hut) as [Hvu _]. destruct (Z.eqb_spec w u) as [->|Hwu].
  - assert (thw = th) as -> by congruence. rewrite (proj2 (Z.eqb_neq i u)) by done. apply (Hk u th Hu); [lia|done|done].
  - destruct (Z.eqb_spec i u) as [->|Hiu]; [specialize (Hbw u Hut); rewrite (own_thread thr u th Hu) in Hbw; lia|]. by apply (Hk w thw Hw).
Qed.

(** ** [ReleaseStore] *)

(** Elements with the times of the thread, and its flag alone. *)
Lemma stored_good thr u th vs s :
  (forall w thw, thr !! w = Some thw -> good_thread thr w thw) -> thr !! u = Some th -> Forall elem_ok vs -> th.(nclk_) <= zlen vs <= kMaxTid -> length s.(dirty_) = 2%nat ->
  let vs' := set_flag u th.(reused_) (tabulate vs (fun k _ => MkElem (at_ th.(clk_) k) 0)) in
  let s' := set_release_store (set_dirty s (no_dirty <$> s.(dirty_))) u th.(reused_) in
  good_sync thr vs' s' /\ good_cache thr u th vs' /\ forall i, tid_ok i -> value vs' s'.(dirty_) i = at_ th.(clk_) i.
Proof.
  intros HT Hu Hf Hz Hdl vs' s'. destruct (HT u th Hu) as (Hok & Hb & Hk). pose proof Hok as (Et & Hut & Hn & Hl & Hpos & Hz0 & Hla & H0' & Hre). set (v1 := tabulate vs (fun k _ => MkElem (at_ th.(clk_) k) 0)) in *.
  assert (Hlen : zlen v1 = zlen vs) by (unfold zlen, v1; by rewrite tabulate_length). assert (Hur : 0 <= u < zlen v1) by (unfold tid_ok in Hut; lia).
  assert (Hv1 : forall i, tid_ok i -> (el v1 i).(epoch) = at_ th.(clk_) i /\ (el v1 i).(reused) = 0).
  { intros i Hi. unfold v1. rewrite el_tabulate. unfold tid_ok in Hi. rewrite (proj2 (Z.leb_le 0 i)) by lia. cbn [andb]. destruct (Z.ltb_spec i (zlen vs)); [done|]. rewrite Hz0 by lia. done. }
  assert (Hgv1 : good_vals thr v1).
  { apply good_vals_cleared; [|unfold v1; apply tabulate_ok; [done|]; intros k0 e0 _ _; split; [apply Hpos|cbn; lia]|lia|].
    - intros w thw Hw. destruct (HT w thw Hw) as ((_ & _ & _ & _ & _ & _ & _ & _ & ?) & _). lia.
    - intros i Hi. destruct (Hv1 i Hi) as [-> ->]. split; [by apply Hb|done]. }
  assert (Hgv : good_vals thr vs') by (apply good_vals_flag; [done|done|lia| |done]; intros i Hi; destruct (Hv1 i Hi) as [-> _]; lia).
  assert (Hep : forall i, tid_ok i -> (el vs' i).(epoch) = at_ th.(clk_) i) by (intros i Hi; unfold vs'; destruct (set_flag_el v1 u th.(reused_) i Hur) as [-> _]; by apply Hv1).
  assert (Hval : forall i, tid_ok i -> value vs' s'.(dirty_) i = at_ th.(clk_) i) by (intros i Hi; cbn [dirty_ set_release_store set_dirty s']; rewrite value_no_dirty by done; by apply Hep).
  split; [|split; [|done]].
  - split; [done|]. split; [by apply good_dirty_none|]. split.
    + intros w thw Hw Hlt i Hi Hne. destruct (HT w thw Hw) as ((_ & Hwt & _) & _). rewrite Hval in * by done. by apply (Hk w).
    + intros thw Hw. cbn [release_store_tid_ release_store_reused_ set_release_store s'] in *. assert (thw = th) as -> by congruence. split; [done|]. intros _ _ i Hi _. by apply Hval.
  - split; [done|]. unfold vs'. rewrite set_flag_length. split; [lia|]. fold vs'. rewrite Hep by done. split; [done|]. intros i Hi _. by apply Hep.
Qed.

Lemma cache_keeps u th i n b : advances u th (set_cached th i n b).
Proof. split; [done|]. left. done. Qed.

Lemma cached_thread thr u th i n b : thr !! u = Some th -> good_thread thr u th -> good_thread (<[u := set_cached th i n b]> thr) u (set_cached th i n b).
Proof.
  intros Hu (Hok & Hb & Hk). split; [done|]. split.
  - intros j Hj. specialize (Hb j Hj). pose proof (own_advances thr u th _ Hu (cache_keeps u th i n b) j). cbn [clk_ set_cached]. lia.
  - apply (knows_advances thr u th _ Hu (cache_keeps u th i n b)); [exact Hb|by destruct Hok as (_ & ? & _)|exact Hk].
Qed.

(** [cache_table], for an object that has its table for itself. *)
Lemma cache_table_ok a cs thr syn T u th ks s t :
  inv a cs thr syn T -> thr !! u = Some th -> syn !! ks = Some s -> T !! s.(tab_idx_) = Some t -> on_table s s.(tab_idx_) t -> t.(refc) = 1 ->
  (forall d, d ∈ s.(dirty_) -> valid d = false) -> good_cache thr u th t.(vals) ->
  exists th' a' T', cache_table th a s = Ok (th', a') /\ inv a' cs (<[u := th']> thr) syn T' /\ th'.(clk_) = th.(clk_) /\ th'.(reused_) = th.(reused_) /\ same_vals thr syn T T'.
Proof.
  intros (Hwf & Hsem & Hroom) Hu Hks Hi Hon Hr Hnod Hgc. pose proof Hsem as [HT _]. destruct (HT u th Hu) as [Hgood _]. unfold cache_table. destruct (Z.eqb_spec th.(cached_idx_) 0) as [E0|Hn0].
  2:{ rewrite bind_ok. exists th, a, T. rewrite insert_id by done. done. }
  destruct (store_focus a cs thr syn T _ t Hwf Hi) as (Hh & Ht & Hmax & Hi0). pose proof Hon as (F1 & F2 & F3). assert (Hpos : 0 < zlen t.(vals)) by apply Ht. set (i := s.(tab_idx_)) in *.
  assert (Eref : ref_load a s.(tab_) = Ok 1) by (rewrite F1, <- Hr; by apply (ref_load_ok a cs i t (blocks (delete i T)) Hh), Ht).
  assert (Hex : existsb (fun d => negb (d.(d_tid) =? kInvalidTid)) s.(dirty_) = false).
  { destruct (existsb _ _) eqn:E; [|done]. apply existsb_exists in E as (d & Hin%list_elem_of_In & Hvd). specialize (Hnod d Hin). unfold valid in Hnod. congruence. }
  unfold Cachable. rewrite F3, (proj2 (Z.eqb_neq _ _)), Hex, Eref, !bind_ok by lia. cbn [Z.eqb Pos.eqb]. rewrite ?bind_ok. cbn [Z.eqb Pos.eqb]. set (th' := set_cached th s.(tab_idx_) (zlen t.(vals)) s.(blocks_)).
  pose proof Hwf as (_ & _ & HSW & HCW). destruct (ref_store_store a cs thr syn (<[u := th']> thr) syn T i t Hwf Hroom Hi) as (a' & T' & _ & E2 & Hwf' & ET' & Hsame').
  - intros x. unfold refs. rewrite (count_put _ thr u th th' Hu). assert (caches_tab x th = false) as -> by (unfold caches_tab; by rewrite E0). assert (caches_tab x th' = (i =? x)) as ->; [|lia].
    unfold caches_tab. cbn [cached_idx_ set_cached th']. fold i. by rewrite (proj2 (Z.eqb_neq i 0)).
  - done.
  - intros w thw [[<- <-]|[_ Hw]]%lookup_insert_Some; [|by apply (HCW w)]. right. exists t. cbn [cached_idx_ cached_size_ cached_blocks_ set_cached th']. fold i. done.
  - rewrite Hr in E2. change (1 + 1) with 2 in E2. rewrite F1, E2, bind_ok. exists th', a', T'. split; [done|]. split; [split; [done|]; split; [|by apply (roomy_thread _ _ _ u th)]|].
    + apply (sem_same T); [|done]. apply (sem_thread thr u th); [done|apply cache_keeps|done|by apply cached_thread|]. intros vs. unfold cached_vals. cbn [cached_idx_ set_cached th']. fold i. rewrite (proj2 (Z.eqb_neq i 0)), Hi by done.
      intros [= <-]. destruct Hgc as (Hv & H2 & H3 & H4). split; [by apply (good_vals_advances thr u th), Hv; [|apply cache_keeps]|done].
    + split; [done|]. split; [done|]. subst T'. split; [intros k' s' _; by apply vals_of_delete_ref|intros k' th0 _; by apply cached_vals_ref].
Qed.

(** The cached table with the thread's present time as a dirty entry. *)
Lemma stored_cached_good thr u th vs d1 s :
  (forall w thw, thr !! w = Some thw -> good_thread thr w thw) -> thr !! u = Some th -> good_cache thr u th vs -> valid d1 = false ->
  s.(dirty_) = [MkDirty (at_ th.(clk_) u) u; d1] -> s.(release_store_tid_) = u -> s.(release_store_reused_) = th.(reused_) ->
  (forall i, tid_ok i -> (el vs i).(epoch) <= at_ th.(clk_) i) /\ good_sync thr (set_flag u th.(reused_) vs) s /\ forall i, tid_ok i -> value (set_flag u th.(reused_) vs) s.(dirty_) i = at_ th.(clk_) i.
Proof.
  intros HT Hu (Hv & Hlt & Hpos & Heq) Hd1 Ed Er1 Er2. destruct (HT u th Hu) as (Hok & Hb & Hk). pose proof Hok as (_ & Hut & _ & _ & Hclk & _). assert (Hur : 0 <= u < zlen vs) by (unfold tid_ok in Hut; lia).
  assert (Hle : forall i, tid_ok i -> (el vs i).(epoch) <= at_ th.(clk_) i).
  { intros i Hi. destruct (decide (i = u)) as [->|Hne]; [|by rewrite Heq]. destruct Hv as (_ & _ & Hv). rewrite <- (own_thread thr u th Hu). by apply Hv. }
  assert (Hval : forall i, tid_ok i -> value (set_flag u th.(reused_) vs) s.(dirty_) i = at_ th.(clk_) i).
  { intros i Hi. rewrite set_flag_value by done. rewrite Ed. unfold value. cbn [find_dirty d_tid d_epoch]. rewrite (Z.eqb_sym u i). destruct (Z.eqb_spec i u) as [->|Hne]; [done|].
    destruct (Z.eqb_spec d1.(d_tid) i) as [E|]; [|by apply Heq]. subst i. rewrite (tid_valid d1 Hi) in Hd1. done. }
  split; [done|]. split; [|done]. split; [by apply good_vals_flag|]. split; [|split].
  - rewrite Ed. eexists _, d1. split; [done|]. split; [by rewrite Hd1|]. rewrite set_flag_length. intros d [->|[->|?%elem_of_nil]%elem_of_cons]%elem_of_cons; [|by rewrite Hd1|done]. intros _. cbn [d_tid d_epoch].
    destruct (set_flag_el vs u th.(reused_) u Hur) as [-> _]. rewrite (own_thread thr u th Hu). specialize (Hclk u). specialize (Hle u Hut). lia.
  - intros w thw Hw Hlt' i Hi Hne. destruct (HT w thw Hw) as ((_ & Hwt & _) & _). rewrite Hval in * by done. by apply (Hk w).
  - intros thw. rewrite Er1, Er2. intros Hw. assert (thw = th) as -> by congruence. split; [done|]. intros _ _ i Hi _. by apply Hval.
Qed.

Lemma store_cached_ok a cs thr syn T u th ks s (c : C) :
  inv a cs thr syn T -> thr !! u = Some th -> syn !! ks = Some s -> s.(size_) = 0 -> th.(cached_idx_) <> 0 ->
  exists s' a' T', store_cached th (a, c) s = Ok (s', (a', c)) /\ inv a' cs thr (<[ks := s']> syn) T' /\ (forall i, tid_ok i -> value (vals_of T' s') s'.(dirty_) i = at_ th.(clk_) i) /\ same_values (delete ks syn) T T'.
Proof.
  intros (Hwf & Hsem & Hroom) Hu Hks Ez Hn0. pose proof Hsem as [HT HS]. destruct (HT u th Hu) as [Hgood Hcache]. pose proof Hgood as (Hok & _). pose proof Hok as (Et & Hut & _ & _ & Hclk & _ & _ & _ & Hre).
  pose proof Hwf as (_ & HTW & HSW & HCW). destruct (HCW u th Hu) as [?|(t & Hi & Ecs & Ecb)]; [done|]. set (i := th.(cached_idx_)) in *. destruct (HTW i t Hi) as (Hi0 & Ht & Hmax & _).
  pose proof (Hcache t.(vals)) as Hgc. unfold cached_vals in Hgc. fold i in Hgc. rewrite (proj2 (Z.eqb_neq i 0)), Hi in Hgc by done. specialize (Hgc eq_refl). assert (Hur : 0 <= u < zlen t.(vals)) by (destruct Hgc as (_ & ? & _); unfold tid_ok in Hut; lia).
  pose proof (HS ks s Hks) as Hg. assert (Evs : vals_of T s = []) by (unfold vals_of; by rewrite Ez). rewrite Evs in Hg. destruct Hg as (_ & (d0 & d1 & Ed & _ & Hd) & _).
  assert (Hinval : forall d, d ∈ s.(dirty_) -> valid d = false). { intros d Hin. destruct (valid d) eqn:E; [|done]. destruct (Hd d Hin E) as ([? ?] & _). change (zlen (@nil ClockElem)) with 0 in *. lia. }
  assert (Hw : wrap kClkBits (at_ th.(clk_) u) = at_ th.(clk_) u /\ wrap (64 - kClkBits) u = u). { unfold wrap, kClkBits. specialize (Hclk u). unfold tid_ok in Hut. rewrite kMaxTid_val in Hut. rewrite !Z.mod_small by lia. done. }
  destruct Hw as [W1 W2]. unfold store_cached. cbn [dirty_ set_tab fst snd]. rewrite Ed. change (aget [d0; d1] 0) with (Ok d0). rewrite bind_ok. pose proof (Hinval d0) as Hd0. rewrite Ed in Hd0. specialize (Hd0 ltac:(left)).
  unfold valid in Hd0. apply negb_false_iff in Hd0. rewrite Hd0. cbn [CHECK]. rewrite bind_ok, (get_own u th Hok), bind_ok, Et, W1, W2. change (aset [d0; d1] 0 ?x) with (Ok [x; d1]). rewrite bind_ok.
  set (s' := set_release_store _ u th.(reused_)). destruct (flag_store a cs thr syn T i t s' u th.(reused_) Hwf Hi eq_refl Ecb Hur ltac:(lia)) as (p & a1 & -> & E2 & Hwf1 & Hfl). rewrite bind_ok, E2, bind_ok. cbn zeta in *.
  set (t1 := set_vals t (set_flag u th.(reused_) t.(vals))) in *. set (T1 := <[i := t1]> T) in *. assert (Hd1 : valid d1 = false) by (apply Hinval; rewrite Ed; right; left).
  destruct (stored_cached_good thr u th t.(vals) d1 s') as (Hle & Hgs & Hval); [intros w thw Hw; by apply HT|done|done|done|done|done|done|].
  assert (Hsem1 : sem T1 thr syn) by (apply (sem_flag T T1 thr syn u th t.(vals)); [done|done|lia|done|done]). assert (Hi1 : T1 !! i = Some t1) by apply lookup_insert_eq.
  assert (Hon' : on_table s' i t1) by (split; [done|]; split; [done|]; cbn [size_ set_release_store set_dirty set_tab s' vals t1 set_vals]; rewrite set_flag_length; done).
  pose proof Hwf1 as (_ & HTW1 & HSW1 & HCW1). destruct (HTW1 i t1 Hi1) as (_ & Ht1 & _).
  destruct (ref_store_store a1 cs thr syn thr (<[ks := s']> syn) T1 i t1 Hwf1 Hroom Hi1) as (a2 & T2 & E3 & E4 & Hwf2 & ET2 & Hsame2).
  - intros x. unfold refs. rewrite (count_put _ syn ks s s' Hks), (on_table_uses s' i t1 Hon' Ht1 eq_refl x). assert (uses x s = false) as -> by (unfold uses; by rewrite Ez). lia.
  - intros k' s0 [[<- <-]|[_ Hs0]]%lookup_insert_Some; [|by apply (HSW1 k')]. right. exists t1. done.
  - done.
  - change (s'.(tab_)) with i. rewrite E3, bind_ok, E4, bind_ok. exists s', a2, T2. split; [done|].
    assert (Ev2 : vals_of T2 s' = set_flag u th.(reused_) t.(vals)). { destruct Hsame2 as [Hs2 _]. rewrite (Hs2 ks s') by apply lookup_insert_eq. by apply (vals_of_on T1 s' i t1). }
    assert (Hsame2' : same_vals thr (delete ks syn) T1 T2). { destruct Hsame2 as [Hs2 Hc2]. split; [|done]. intros k' s0 [Hne Hs0]%lookup_delete_Some. apply (Hs2 k'). by rewrite lookup_insert_ne. }
    split; [split; [done|]; split; [|by apply (roomy_sync _ _ _ ks s)]|]; [apply (sem_put T1); [done|done|by rewrite Ev2]|]. rewrite Ev2. split; [done|].
    intros k' s0 Hs0 j. rewrite (same_vals_values _ _ _ _ Hsame2' k' s0 Hs0). by apply (flagged_values T T1 t.(vals) u th.(reused_) (delete ks syn) Hur Hfl k').
Qed.

(** The slow path of [ReleaseStore]. *)
Lemma store_slow_ok a c cs thr syn T u th ks s t k :
  inv a cs thr syn T -> cs !! k = Some c -> thr !! u = Some th -> syn !! ks = Some s -> T !! s.(tab_idx_) = Some t -> on_table s s.(tab_idx_) t -> th.(nclk_) <= zlen t.(vals) ->
  exists th' s' a' c' T',
    ('(dst, h) ← Unshare s (a, c);
     a ← store_table th dst h.1 (fun _ v => v);
     let dst := set_dirty dst (no_dirty <$> dst.(dirty_)) in
     let dst := set_release_store dst th.(tid_) th.(reused_) in
     p ← elem dst a th.(tid_);
     a ← write_reused a p th.(reused_);
     '(t, a) ← cache_table th a dst;
     Ok (t, dst, (a, h.2))) = Ok (th', s', (a', c')) /\ inv a' (<[k := c']> cs) (<[u := th']> thr) (<[ks := s']> syn) T' /\
    th'.(clk_) = th.(clk_) /\ th'.(reused_) = th.(reused_) /\ (forall i, tid_ok i -> value (vals_of T' s') s'.(dirty_) i = at_ th.(clk_) i) /\ same_values (delete ks syn) T T'.
Proof.
  intros (Hwf & Hsem & Hroom) Hc Hu Hks Hi Hon Hnz. pose proof Hsem as [HT HS]. assert (HTg : forall w thw, thr !! w = Some thw -> good_thread thr w thw) by (intros w thw Hw; by apply HT).
  destruct (HTg u th Hu) as (Hok & _). pose proof Hok as (Et & Hut & Hn & Hl & Hclk & Hz0 & _ & _ & Hre). destruct (store_focus a cs thr syn T _ t Hwf Hi) as (_ & Ht & Hmax & _).
  pose proof (HS ks s Hks) as Hg. rewrite (vals_of_on T s _ t Hi Ht Hon eq_refl) in Hg. destruct Hg as ((Hf & _) & Hd & _). pose proof (good_dirty_length _ _ _ Hd) as Hdl.
  destruct (unshare_store a cs thr syn T ks s t k c 1 Hwf Hroom Hc Hks Hi Hon) as (s1 & a1 & c1 & T1 & E1 & Ez1 & Hsole). assert (E1' : Unshare s (a, c) = Ok (s1, (a1, c1))) by exact E1. rewrite E1', bind_ok. cbn [fst snd].
  pose proof Hsole as (Eq1 & Hwf1 & Hsame1 & t1 & Hi1 & Hon1 & Hr1 & Hv1). set (i := s1.(tab_idx_)) in *. destruct (store_focus a1 _ thr _ T1 i t1 Hwf1 Hi1) as (Hh1 & Ht1 & Hmax1 & _). pose proof Hon1 as (F1 & F2 & F3). rewrite <- Hv1 in *.
  assert (Hur : 0 <= u < zlen t1.(vals)) by (unfold tid_ok in Hut; lia). destruct (store_table_ok i t1 s1 a1 (<[k := c1]> cs) (blocks (delete i T1)) th (fun _ v => v) Ht1 Hon1) as (a2 & -> & Hh2); [rewrite Hl; unfold kMaxTidInClock; lia|intros; apply Hclk|exact Hh1|].
  rewrite bind_ok. set (v1 := tabulate t1.(vals) (fun k e => MkElem (at_ th.(clk_) k) 0)) in *. assert (Hlen1 : length v1 = length t1.(vals)) by apply tabulate_length.
  assert (Hlz : zlen v1 = zlen t1.(vals)) by (unfold zlen; by rewrite Hlen1). assert (Ht2 : table_ok (set_vals t1 v1)) by (apply set_vals_ok; [done|done|]; unfold v1; apply tabulate_ok; [done|]; intros; split; [apply Hclk|cbn; lia]).
  rewrite Et. set (s' := set_release_store (set_dirty s1 (no_dirty <$> s1.(dirty_))) u th.(reused_)). cbn zeta.
  rewrite (elem_ok_at a2 _ i (set_vals t1 v1) _ s' u Hh2 (proj1 Ht2) F1 F2), bind_ok by (cbn [vals set_vals]; lia).
  destruct (write_reused_ok a2 _ i (set_vals t1 v1) _ u (el v1 u) th.(reused_) Hh2 (proj1 Ht2) (proj1 Hur)) as (a3 & -> & Hh3); [apply el_lookup; lia|lia|]. rewrite bind_ok. set (vs' := set_flag u th.(reused_) v1).
  change (set_val (set_vals t1 v1) u (MkElem (el v1 u).(epoch) th.(reused_))) with (set_vals t1 vs') in Hh3.
  assert (Hdl1 : length s1.(dirty_) = 2%nat) by (rewrite Eq1; done). destruct (stored_good thr u th t1.(vals) s1 HTg Hu Hf ltac:(lia) Hdl1) as (Hgs & Hgc & Hval). fold v1 vs' s' in Hgs, Hgc, Hval.
  destruct (sole_write a cs thr syn T ks s s1 t1.(vals) a1 _ T1 vs' s' a3 Hks Hsole) as (T2 & Hwf2 & Hsame2 & Hv2 & t2 & Hi2 & Hon2 & Hr2 & Ev2); [|unfold vs', set_flag; by rewrite length_insert|done..|].
  { intros t0 Ht0. assert (t0 = t1) as -> by (fold i in Ht0; congruence). split; [|exact Hh3]. apply set_vals_ok; [done|unfold vs', set_flag; by rewrite length_insert|]. by destruct Hgs as ((? & _) & _). }
  assert (Hsem2 : sem T2 thr (<[ks := s']> syn)) by (apply (sem_put T T2 thr syn ks s' Hsem Hsame2); by rewrite Hv2).
  destruct (cache_table_ok a3 (<[k := c1]> cs) thr (<[ks := s']> syn) T2 u th ks s' t2) as (th' & a4 & T3 & -> & Hinv3 & Ec & Er & Hsame3); [|done|apply lookup_insert_eq|done|done|done| |by rewrite Ev2|].
  { split; [done|]. split; [done|]. apply (roomy_put _ _ _ k c); [done|]. by apply (roomy_sync _ _ _ ks s). }
  { intros d Hin. cbn [dirty_ set_release_store set_dirty s'] in Hin. apply list_elem_of_fmap in Hin as (d' & -> & _). apply valid_no_dirty. }
  rewrite bind_ok. exists th', s', a4, c1, T3. split; [done|]. split; [done|]. split; [done|]. split; [done|]. split.
  - intros j Hj. rewrite (same_vals_values _ _ _ _ Hsame3 ks s') by apply lookup_insert_eq. rewrite Hv2. by apply Hval.
  - intros k' s0 Hs0 j. rewrite (same_vals_values _ _ _ _ Hsame3 k' s0); [by apply (same_vals_values _ _ _ _ Hsame2 k')|]. apply lookup_delete_Some in Hs0 as [Hne Hs0]. by rewrite lookup_insert_ne.
Qed.

(** [ReleaseStore] after growing. *)
Lemma store_rest_ok a c cs thr syn T u th ks s t k :
  inv a cs thr syn T -> cs !! k = Some c -> thr !! u = Some th -> syn !! ks = Some s -> T !! s.(tab_idx_) = Some t -> on_table s s.(tab_idx_) t -> th.(nclk_) <= zlen t.(vals) ->
  exists th' s' a' c' T',
    (fast ← (if (s.(release_store_tid_) =? th.(tid_)) && (s.(release_store_reused_) =? th.(reused_)) then
              p ← elem s a th.(tid_);
              e ← read a p;
              Ok (th.(last_acquire_) <? e.(epoch))
            else Ok false);
    if fast : bool then
      '(dst, h) ← UpdateCurrentThread th (a, c) s;
      Ok (th, dst, h)
    else
      '(dst, h) ← Unshare s (a, c);
      a ← store_table th dst h.1 (fun _ v => v);
      let dst := set_dirty dst (no_dirty <$> dst.(dirty_)) in
      let dst := set_release_store dst th.(tid_) th.(reused_) in
      p ← elem dst a th.(tid_);
      a ← write_reused a p th.(reused_);
      '(t, a) ← cache_table th a dst;
      Ok (t, dst, (a, h.2))) = Ok (th', s', (a', c')) /\ inv a' (<[k := c']> cs) (<[u := th']> thr) (<[ks := s']> syn) T' /\
    th'.(clk_) = th.(clk_) /\ th'.(reused_) = th.(reused_) /\ (forall i, tid_ok i -> value (vals_of T' s') s'.(dirty_) i = at_ th.(clk_) i) /\ same_values (delete ks syn) T T'.
Proof.
  intros Hinv Hc Hu Hks Hi Hon Hnz. pose proof Hinv as (Hwf & Hsem & Hroom). pose proof Hsem as [HT HS]. destruct (HT u th Hu) as [(Hok & _) _]. pose proof Hok as (Et & Hut & Hn & _).
  destruct (store_focus a cs thr syn T _ t Hwf Hi) as (Hh & Ht & _). pose proof Hon as (F1 & F2 & F3). assert (Hur : 0 <= u < zlen t.(vals)) by (unfold tid_ok in Hut; lia).
  pose proof (HS ks s Hks) as Hg. rewrite (vals_of_on T s _ t Hi Ht Hon eq_refl) in Hg. pose proof Hg as (_ & _ & _ & Hr). rewrite Et.
  destruct (Z.eqb_spec s.(release_store_tid_) u) as [E1|N1]; [destruct (Z.eqb_spec s.(release_store_reused_) th.(reused_)) as [E2|N2]|]; cbn [andb].
  2,3: rewrite bind_ok; destruct (store_slow_ok a c cs thr syn T u th ks s t k Hinv Hc Hu Hks Hi Hon Hnz) as (th' & s' & a' & c' & T' & E & ?); rewrite Et in E; exists th', s', a', c', T'; done.
  rewrite (elem_ok_at a cs _ t _ s u Hh (proj1 Ht) F1 F2 Hur), bind_ok, (read_ok a cs _ t _ u _ Hh (proj1 Ht) (proj1 Hur) (el_lookup _ _ Hur)), bind_ok, bind_ok. destruct (Z.ltb_spec th.(last_acquire_) (el t.(vals) u).(epoch)) as [Hlt|Hge].
  2:{ destruct (store_slow_ok a c cs thr syn T u th ks s t k Hinv Hc Hu Hks Hi Hon Hnz) as (th' & s' & a' & c' & T' & E & ?). rewrite Et in E. exists th', s', a', c', T'. done. }
  destruct (update_ok a c cs thr syn T u th ks s t k Hinv Hc Hu Hks Hi Hon ltac:(lia) Hlt) as (s' & a' & c' & T' & -> & Hwf' & Hsame' & Hpost). rewrite bind_ok. pose proof Hpost as (G1 & G2 & G3 & G4 & Hval).
  destruct (Hr th) as [_ Hmatch]; [by rewrite E1|]. assert (Hall : forall i, tid_ok i -> value (vals_of T' s') s'.(dirty_) i = at_ th.(clk_) i).
  { intros i Hi'. rewrite Hval by done. destruct (Z.eqb_spec i u) as [->|Hne]; [done|]. apply Hmatch; [done|by rewrite E1|done|by rewrite E1]. }
  exists th, s', a', c', T'. rewrite (insert_id thr) by done. split; [done|]. split; [split; [done|]; split; [|by apply (roomy_put _ _ _ k c), (roomy_sync _ _ _ ks s)]|].
  - apply (sem_put T); [done|done|]. split; [done|]. split; [done|]. split; [apply (update_knows thr u th t.(vals) s s'); [intros w thw Hw; by apply HT|done|done|done|done]|].
    intros thw. rewrite G1, G2, E1, E2. intros Hw. assert (thw = th) as -> by congruence. split; [done|]. intros _ _ i Hi' _. by apply Hall.
  - split; [done|]. split; [done|]. split; [done|]. by apply (same_vals_values thr).
Qed.

(** The object's vector becomes the thread's. *)
Lemma ReleaseStore_ok a c cs thr syn T u th ks s k :
  inv a cs thr syn T -> cs !! k = Some c -> thr !! u = Some th -> syn !! ks = Some s ->
  exists th' s' a' c' T', ReleaseStore th (a, c) s = Ok (th', s', (a', c')) /\ inv a' (<[k := c']> cs) (<[u := th']> thr) (<[ks := s']> syn) T' /\
    th'.(clk_) = th.(clk_) /\ th'.(reused_) = th.(reused_) /\ (forall i, tid_ok i -> value (vals_of T' s') s'.(dirty_) i = at_ th.(clk_) i) /\ same_values (delete ks syn) T T'.
Proof.
  intros Hinv Hc Hu Hks. unfold ReleaseStore. destruct ((s.(size_) =? 0) && negb (th.(cached_idx_) =? 0)) eqn:Ecase.
  { apply andb_true_iff in Ecase as [Ez%Z.eqb_eq Hn0%negb_true_iff%Z.eqb_neq].
    destruct (store_cached_ok a cs thr syn T u th ks s c Hinv Hu Hks Ez Hn0) as (s' & a' & T' & -> & Hinv' & Hval & Hsv). rewrite bind_ok. exists th, s', a', c, T'. rewrite (insert_id cs), (insert_id thr) by done. done. }
  pose proof Hinv as (_ & [HT _] & _). destruct (HT u th Hu) as [((Et & Hut & Hn & _) & _) _].
  destruct (enlarge_ok a c cs thr syn T ks s k th.(nclk_) Hinv Hc Hks ltac:(unfold tid_ok in Hut; lia)) as (s1 & a1 & c1 & T1 & t1 & -> & Hinv1 & (Hi1 & Hon1 & _ & _ & _ & _ & Hsame1) & Hnz1). rewrite bind_ok. cbn [fst snd].
  destruct (store_rest_ok a1 c1 (<[k := c1]> cs) thr (<[ks := s1]> syn) T1 u th ks s1 t1 k Hinv1 (lookup_insert_eq _ _ _) Hu (lookup_insert_eq _ _ _) Hi1 Hon1 Hnz1) as (th' & s' & a' & c' & T' & E & Hinv' & Ec & Er & Hval & Hsv).
  rewrite !insert_insert_eq in Hinv'. rewrite delete_insert_eq in Hsv. exists th', s', a', c', T'. split; [exact E|]. split; [done|]. split; [done|]. split; [done|]. split; [done|].
  intros k' s0 Hs0 i. rewrite (Hsv k' s0 Hs0). by apply (same_vals_values _ _ _ _ Hsame1 k').
Qed.

(** ** [release] *)

(** The answer of [IsAlreadyAcquired] is right where it is yes. *)
Lemma already_acquired_ok a cs i t s rest thr u th :
  heap a cs (pieces i t ++ rest) -> table_ok t -> on_table s i t -> thr !! u = Some th -> thread_ok u th -> u < zlen t.(vals) -> zlen t.(vals) <= kMaxTid -> good_vals thr t.(vals) -> good_dirty thr t.(vals) s.(dirty_) ->
  exists b, IsAlreadyAcquired th s a = Ok b /\ (b = true -> forall j, tid_ok j -> value t.(vals) s.(dirty_) j <= at_ th.(clk_) j).
Proof.
  intros Hh Ht (F1 & F2 & F3) Hu Hok Hlt Hmax Hv Hd. pose proof Hok as (Et & Hut & _ & Hl & _). assert (Hur : 0 <= u < zlen t.(vals)) by (unfold tid_ok in Hut; lia). unfold IsAlreadyAcquired. rewrite Et.
  rewrite (elem_ok_at a cs i t rest s u Hh (proj1 Ht) F1 F2 Hur), bind_ok, (read_ok a cs i t rest u _ Hh (proj1 Ht) (proj1 Hur) (el_lookup _ _ Hur)), bind_ok. destruct (Z.eqb_spec (el t.(vals) u).(reused) th.(reused_)) as [Er|Hne]; cbn [negb]; [|by exists false].
  destruct (proj2 (proj2 Hv) u Hut) as (_ & _ & Hle). specialize (Hle th Hu Er). destruct Hd as (d0 & d1 & Ed & _ & Hd).
  destruct (foldM_inv (fun pre (b : bool) => b = true -> forall d, d ∈ pre -> valid d = true -> d.(d_epoch) <= at_ th.(clk_) d.(d_tid))
    (fun d (b : bool) => if b && negb (d.(d_tid) =? kInvalidTid) then v ← aget th.(clk_) d.(d_tid); Ok (negb (v <? d.(d_epoch))) else Ok b) s.(dirty_) true) as (b & -> & Hb).
  - intros _ d Hin. by apply elem_of_nil in Hin.
  - intros pre d post b El Hpre. change (negb (d.(d_tid) =? kInvalidTid)) with (valid d). assert (Hin : d ∈ s.(dirty_)) by (rewrite El; set_solver +). destruct b; cbn [andb]; [|exists false; by split].
    destruct (valid d) eqn:Evd.
    + destruct (Hd d Hin Evd) as (Hr & _). rewrite at_get, bind_ok by (rewrite Hl; unfold kMaxTidInClock; pose proof kMaxTid_val; lia). eexists. split; [done|]. intros Hnb d' [Hd'|Hd'%list_elem_of_singleton]%elem_of_app Hv'; [by apply Hpre|]. subst d'.
      apply negb_true_iff, Z.ltb_ge in Hnb. done.
    + exists true. split; [done|]. intros _ d' [Hd'|Hd'%list_elem_of_singleton]%elem_of_app Hv'; [by apply Hpre|congruence].
  - exists b. split; [done|]. intros Eb j Hj. unfold value. destruct (find_dirty s.(dirty_) j) as [e|] eqn:Ef; [|by apply Hle]. apply find_dirty_some in Ef as (d & Hin & Etid & Ee). subst j e. apply Hb; [done|done|by apply tid_valid].
Qed.

(** The elements that the slow path of [release] leaves. *)
Definition merged (vs : list ClockElem) (l : list Dirty) (clk : list Z) (n : Z) : list ClockElem :=
  tabulate (tabulate (foldl (fun vs d => flush_one d vs) vs l) (fun k e => MkElem (Z.max e.(epoch) (at_ clk k)) 0)) (fun k e => if n <=? k then MkElem e.(epoch) 0 else e).

Lemma merged_length thr vs l clk n : good_dirty thr vs l -> length (merged vs l clk n) = length vs.
Proof. intros (d0 & d1 & -> & _). unfold merged. cbn [foldl]. by rewrite !tabulate_length, !flush_one_length. Qed.

Lemma merged_values thr u th vs l j :
  good_vals thr vs -> good_dirty thr vs l -> thread_ok u th -> th.(nclk_) <= zlen vs -> tid_ok j ->
  (el (merged vs l th.(clk_) th.(nclk_)) j).(epoch) = Z.max (value vs l j) (at_ th.(clk_) j) /\ (el (merged vs l th.(clk_) th.(nclk_)) j).(reused) = 0.
Proof.
  intros Hv Hd (_ & _ & _ & _ & Hclk & Hz & _) Hn Hj. pose proof Hd as (d0 & d1 & El & H01 & Hdd). set (v2 := foldl (fun vs d => flush_one d vs) vs l). assert (Hlen : zlen v2 = zlen vs) by (unfold zlen, v2; rewrite El; cbn [foldl]; by rewrite !flush_one_length).
  destruct (flush_value vs l j) as [E2 _]; [eauto|intros d Hin Hvd; by apply Hdd|done|]. fold v2 in E2. unfold merged. fold v2. rewrite !el_tabulate. unfold tid_ok in Hj. rewrite (proj2 (Z.leb_le 0 j)) by lia. cbn [andb].
  assert (Hl2 : zlen (tabulate v2 (fun k e => MkElem (Z.max e.(epoch) (at_ th.(clk_) k)) 0)) = zlen vs) by (unfold zlen in *; by rewrite tabulate_length). rewrite Hl2, Hlen. destruct (Z.ltb_spec j (zlen vs)) as [Hlt|Hge].
  - rewrite <- E2. by destruct (th.(nclk_) <=? j).
  - rewrite (value_out vs l thr) by done. rewrite Hz by lia. done.
Qed.

Lemma merge_table_ok a cs i t s rest thr u th :
  heap a cs (pieces i t ++ rest) -> table_ok t -> on_table s i t -> good_vals thr t.(vals) -> good_dirty thr t.(vals) s.(dirty_) -> thread_ok u th -> zlen t.(vals) <= kMaxTid ->
  let vs' := merged t.(vals) s.(dirty_) th.(clk_) th.(nclk_) in
  exists a1 a2 a3, FlushDirty s a = Ok (set_dirty s (no_dirty <$> s.(dirty_)), a1) /\ store_table th (set_dirty s (no_dirty <$> s.(dirty_))) a1 Z.max = Ok a2 /\
    clear_reused (set_dirty s (no_dirty <$> s.(dirty_))) a2 th.(nclk_) = Ok a3 /\ table_ok (set_vals t vs') /\ heap a3 cs (pieces i (set_vals t vs') ++ rest).
Proof.
  intros Hh Ht (F1 & F2 & F3) Hv Hd (_ & Hut & Hn & Hl & Hclk & _) Hmax vs'. pose proof Hd as (d0 & d1 & El & _ & _). set (s' := set_dirty s (no_dirty <$> s.(dirty_))).
  destruct (FlushDirty_ok i t s a cs rest Ht (conj F1 (conj F2 F3)) (dirty_dirty_in thr t.(vals) s.(dirty_) _ Hd (Z.le_refl _)) Hh) as (a1 & -> & Hh1 & Ht1). set (v2 := foldl (fun vs d => flush_one d vs) t.(vals) s.(dirty_)) in *.
  assert (Hlen : length v2 = length t.(vals)) by (unfold v2; rewrite El; cbn [foldl]; by rewrite !flush_one_length). assert (Hlz : zlen v2 = zlen t.(vals)) by (unfold zlen; by rewrite Hlen). pose proof Ht1 as ((_ & _ & Hf2 & _) & _). cbn [vals set_vals] in Hf2.
  destruct (store_table_ok i (set_vals t v2) s' a1 cs rest th Z.max Ht1) as (a2 & E2 & Hh2); [split; [done|]; split; [done|]; cbn [vals set_vals]; by rewrite Hlz|cbn [vals set_vals]; rewrite Hlz, Hl; unfold kMaxTidInClock; pose proof kMaxTid_val; lia| |done|].
  { intros k _. cbn [vals set_vals]. pose proof (el_ok v2 k Hf2) as [? _]. specialize (Hclk k). lia. }
  cbn [vals set_vals] in Hh2. set (v3 := tabulate v2 (fun k e => MkElem (Z.max e.(epoch) (at_ th.(clk_) k)) 0)) in *. change (set_vals (set_vals t v2) v3) with (set_vals t v3) in Hh2.
  assert (Hf3 : Forall elem_ok v3). { unfold v3. apply tabulate_ok; [done|]. intros k e _ [? ?]. specialize (Hclk k). split; cbn; lia. }
  assert (Hlen3 : length v3 = length t.(vals)) by (unfold v3; by rewrite tabulate_length). assert (Ht3 : table_ok (set_vals t v3)) by (by apply set_vals_ok).
  destruct (clear_reused_ok i (set_vals t v3) s' a2 cs rest th.(nclk_) Ht3) as (a3 & E3 & Hh3); [split; [done|]; split; [done|]; cbn [vals set_vals]; unfold zlen in *; by rewrite Hlen3|unfold tid_ok in Hut; lia|done|].
  exists a1, a2, a3. split; [done|]. split; [done|]. split; [done|]. split; [|exact Hh3]. apply set_vals_ok; [done|by apply (merged_length thr)|]. unfold vs', merged. fold v2. fold v3. apply tabulate_ok; [done|]. intros k e _ [? ?]. destruct (th.(nclk_) <=? k); done.
Qed.

Lemma merged_good thr u th vs l :
  (forall w thw, thr !! w = Some thw -> good_thread thr w thw) -> thr !! u = Some th -> good_vals thr vs -> good_dirty thr vs l -> Forall elem_ok (merged vs l th.(clk_) th.(nclk_)) -> th.(nclk_) <= zlen vs ->
  good_vals thr (merged vs l th.(clk_) th.(nclk_)).
Proof.
  intros HT Hu Hv Hd Hf Hn. destruct (HT u th Hu) as (Hok & Hb & _). apply good_vals_cleared; [|done|unfold zlen; rewrite (merged_length thr) by done; by destruct Hv as (_ & ? & _)|].
  - intros w thw Hw. destruct (HT w thw Hw) as ((_ & _ & _ & _ & _ & _ & _ & _ & ?) & _). lia.
  - intros j Hj. destruct (merged_values thr u th vs l j Hv Hd Hok Hn Hj) as [-> ->]. split; [|done]. destruct (value_bounds thr vs l j Hv Hd Hj). specialize (Hb j Hj). lia.
Qed.

Lemma knows_max thr V W : knows thr V -> knows thr W -> knows thr (fun i => Z.max (V i) (W i)).
Proof.
  intros HV HW u th Hu Hlt i Hi Hne. destruct (Z.max_spec (V u) (W u)) as [[_ E]|[_ E]]; rewrite E in Hlt; [specialize (HW u th Hu Hlt i Hi Hne)|specialize (HV u th Hu Hlt i Hi Hne)]; lia.
Qed.

Lemma knows_ext thr V W : (forall u th, thr !! u = Some th -> tid_ok u) -> (forall i, tid_ok i -> V i = W i) -> knows thr V -> knows thr W.
Proof. intros Ht E HV u th Hu Hlt i Hi Hne. rewrite <- E in * by (done || by apply (Ht u th)). by apply (HV u). Qed.

(** What a release leaves: the maximum of the two vectors. *)
Definition released a' cs' thr (syn : gmap Z SyncClock) T T' th ks (vs : list ClockElem) (l : list Dirty) s' : Prop :=
  inv a' cs' thr (<[ks := s']> syn) T' /\ (forall i, tid_ok i -> value (vals_of T' s') s'.(dirty_) i = Z.max (value vs l i) (at_ th.(clk_) i)) /\ same_values (delete ks syn) T T'.

Lemma thread_tids T thr syn : sem T thr syn -> forall u th, thr !! u = Some th -> tid_ok u.
Proof. intros [HT _] u th Hu. destruct (HT u th Hu) as [((_ & ? & _) & _) _]. done. Qed.

Lemma no_invalid_thread T thr syn : sem T thr syn -> thr !! kInvalidTid = None.
Proof. intros Hsem. destruct (thr !! kInvalidTid) as [th|] eqn:E; [|done]. pose proof (thread_tids T thr syn Hsem _ _ E) as Ht. unfold tid_ok in Ht. rewrite kMaxTid_val, kInvalidTid_val in Ht. lia. Qed.

Lemma release_slow_ok a c cs thr syn T u th ks s t k :
  inv a cs thr syn T -> cs !! k = Some c -> thr !! u = Some th -> syn !! ks = Some s -> T !! s.(tab_idx_) = Some t -> on_table s s.(tab_idx_) t -> th.(nclk_) <= zlen t.(vals) ->
  exists s' a' c' T',
    ('(dst, h) ← Unshare s (a, c);
     acquired ← IsAlreadyAcquired th dst h.1;
     '(dst, a) ← FlushDirty dst h.1;
     a ← store_table th dst a Z.max;
     a ← clear_reused dst a th.(nclk_);
     let dst := set_release_store dst kInvalidTid 0 in
     a ← (if acquired : bool then p ← elem dst a th.(tid_); write_reused a p th.(reused_) else Ok a);
     Ok (th, dst, (a, h.2))) = Ok (th, s', (a', c')) /\ released a' (<[k := c']> cs) thr syn T T' th ks t.(vals) s.(dirty_) s'.
Proof.
  intros (Hwf & Hsem & Hroom) Hc Hu Hks Hi Hon Hnz. pose proof Hsem as [HT HS]. assert (HTg : forall w thw, thr !! w = Some thw -> good_thread thr w thw) by (intros w thw Hw; by apply HT).
  destruct (HTg u th Hu) as (Hok & Hb & Hkn). pose proof Hok as (Et & Hut & Hn & _ & _ & _ & _ & _ & Hre). destruct (store_focus a cs thr syn T _ t Hwf Hi) as (_ & Ht & Hmax & _).
  pose proof (HS ks s Hks) as Hg. rewrite (vals_of_on T s _ t Hi Ht Hon eq_refl) in Hg. destruct Hg as (Hv & Hd & Hkv & _).
  destruct (unshare_store a cs thr syn T ks s t k c 1 Hwf Hroom Hc Hks Hi Hon) as (s1 & a1 & c1 & T1 & E1 & Ez1 & Hsole). assert (E1' : Unshare s (a, c) = Ok (s1, (a1, c1))) by exact E1. rewrite E1', bind_ok. cbn [fst snd].
  pose proof Hsole as (Eq1 & Hwf1 & _ & t1 & Hi1 & Hon1 & Hr1 & Hv1). set (i := s1.(tab_idx_)) in *. destruct (store_focus a1 _ thr _ T1 i t1 Hwf1 Hi1) as (Hh1 & Ht1 & Hmax1 & _). pose proof Hon1 as (F1 & F2 & F3). rewrite <- Hv1 in *.
  assert (Ed : s1.(dirty_) = s.(dirty_)) by (rewrite Eq1; done). rewrite <- Ed in *. assert (Hur : 0 <= u < zlen t1.(vals)) by (unfold tid_ok in Hut; lia).
  destruct (already_acquired_ok a1 _ i t1 s1 _ thr u th Hh1 Ht1 Hon1 Hu Hok ltac:(lia) Hmax1 Hv Hd) as (b & -> & Hacq). rewrite bind_ok.
  destruct (merge_table_ok a1 _ i t1 s1 _ thr u th Hh1 Ht1 Hon1 Hv Hd Hok Hmax1) as (a2 & a3 & a4 & -> & E3 & E4 & Ht4 & Hh4). rewrite bind_ok, E3, bind_ok, E4, bind_ok. cbn zeta.
  set (m := merged t1.(vals) s1.(dirty_) th.(clk_) th.(nclk_)) in *. assert (Hml : length m = length t1.(vals)) by (by apply (merged_length thr)). assert (Hmz : zlen m = zlen t1.(vals)) by (unfold zlen; by rewrite Hml).
  assert (Hfm : Forall elem_ok m) by (by destruct Ht4 as ((_ & _ & ? & _) & _)). assert (Hgm : good_vals thr m) by (by apply (merged_good thr u th)).
  assert (Hmv : forall j, tid_ok j -> (el m j).(epoch) = Z.max (value t1.(vals) s1.(dirty_) j) (at_ th.(clk_) j)) by (intros j Hj; by apply (merged_values thr u th)).
  set (s' := set_release_store (set_dirty s1 (no_dirty <$> s1.(dirty_))) kInvalidTid 0). set (vs' := if b then set_flag u th.(reused_) m else m).
  assert (Hflag : exists a5, (if b then p ← elem s' a4 u; write_reused a4 p th.(reused_) else Ok a4) = Ok a5 /\ table_ok (set_vals t1 vs') /\ heap a5 (<[k := c1]> cs) (pieces i (set_vals t1 vs') ++ blocks (delete i T1))).
  { unfold vs'. destruct b; [|eauto]. rewrite (elem_ok_at a4 _ i (set_vals t1 m) _ s' u Hh4 (proj1 Ht4) F1 F2), bind_ok by (cbn [vals set_vals]; lia).
    destruct (write_reused_ok a4 _ i (set_vals t1 m) _ u (el m u) th.(reused_) Hh4 (proj1 Ht4) (proj1 Hur)) as (a5 & -> & Hh5); [apply el_lookup; lia|lia|]. exists a5. split; [done|]. split; [|exact Hh5].
    apply (set_val_ok (set_vals t1 m) u _ Ht4). pose proof (el_ok m u Hfm) as [? _]. split; cbn [epoch reused]; lia. }
  rewrite Et. destruct Hflag as (a5 & -> & Ht5 & Hh5). rewrite bind_ok.
  assert (Hep : forall j, (el vs' j).(epoch) = (el m j).(epoch)) by (intros j; unfold vs'; destruct b; [|done]; by destruct (set_flag_el m u th.(reused_) j ltac:(lia)) as [-> _]).
  assert (Hgv : good_vals thr vs'). { unfold vs'. destruct b; [|done]. apply good_vals_flag; [done|done|lia| |done]. intros j Hj. rewrite Hmv by done. specialize (Hacq eq_refl j Hj). lia. }
  assert (Hval : forall j, tid_ok j -> value vs' s'.(dirty_) j = Z.max (value t1.(vals) s1.(dirty_) j) (at_ th.(clk_) j)) by (intros j Hj; cbn [dirty_ set_release_store set_dirty s']; rewrite value_no_dirty, Hep by done; by apply Hmv).
  destruct (sole_write a cs thr syn T ks s s1 t1.(vals) a1 _ T1 vs' s' a5 Hks Hsole) as (T2 & Hwf2 & Hsame2 & Hv2 & _); [|unfold vs'; destruct b; [unfold set_flag; by rewrite length_insert|done]|done..|].
  { intros t0 Ht0. assert (t0 = t1) as -> by (fold i in Ht0; congruence). split; [exact Ht5|exact Hh5]. }
  exists s', a5, c1, T2. split; [done|]. split; [split; [done|]; split; [|by apply (roomy_put _ _ _ k c), (roomy_sync _ _ _ ks s)]|].
  - apply (sem_put T); [done|done|]. rewrite Hv2. split; [done|]. split; [apply good_dirty_none; by apply (good_dirty_length thr t1.(vals))|]. split.
    + apply (knows_ext thr (fun j => Z.max (value t1.(vals) s1.(dirty_) j) (at_ th.(clk_) j))); [by apply (thread_tids T thr syn)|intros j Hj; by rewrite Hval|by apply knows_max].
    + intros thw Hw. cbn [release_store_tid_ set_release_store s'] in Hw. by rewrite (no_invalid_thread T thr syn Hsem) in Hw.
  - rewrite Hv2. split; [done|]. by apply (same_vals_values thr).
Qed.

(** The short cut of [release]. *)
Lemma release_fast_ok a c cs thr syn T u th ks s t k :
  inv a cs thr syn T -> cs !! k = Some c -> thr !! u = Some th -> syn !! ks = Some s -> T !! s.(tab_idx_) = Some t -> on_table s s.(tab_idx_) t -> u < zlen t.(vals) -> th.(last_acquire_) < (el t.(vals) u).(epoch) ->
  exists s' a' c' T',
    ('(dst, h) ← UpdateCurrentThread th (a, c) s;
     let other := negb (dst.(release_store_tid_) =? th.(tid_)) || negb (dst.(release_store_reused_) =? th.(reused_)) in
     Ok (th, if other then set_release_store dst kInvalidTid dst.(release_store_reused_) else dst, h)) = Ok (th, s', (a', c')) /\ released a' (<[k := c']> cs) thr syn T T' th ks t.(vals) s.(dirty_) s'.
Proof.
  intros Hinv Hc Hu Hks Hi Hon Hlt Hla. pose proof Hinv as (Hwf & Hsem & Hroom). pose proof Hsem as [HT HS]. destruct (HT u th Hu) as [(Hok & Hb & _) _]. pose proof Hok as (Et & Hut & _).
  destruct (update_ok a c cs thr syn T u th ks s t k Hinv Hc Hu Hks Hi Hon Hlt Hla) as (s1 & a' & c' & T' & -> & Hwf' & Hsame' & Hpost). rewrite bind_ok. cbn zeta. pose proof Hpost as (G1 & G2 & G3 & G4 & Hval).
  destruct (store_focus a cs thr syn T _ t Hwf Hi) as (_ & Ht & _). pose proof (HS ks s Hks) as Hg. rewrite (vals_of_on T s _ t Hi Ht Hon eq_refl) in Hg. pose proof Hg as (Hv & Hd & Hk & Hr).
  pose proof (update_knows thr u th t.(vals) s s1 _ ltac:(intros w thw Hw; by apply HT) Hu Hg Hpost Hla) as Hkn.
  assert (Hmax : forall i, tid_ok i -> value (vals_of T' s1) s1.(dirty_) i = Z.max (value t.(vals) s.(dirty_) i) (at_ th.(clk_) i)).
  { intros i Hi'. rewrite Hval by done. destruct (Z.eqb_spec i u) as [->|Hne].
    - destruct (value_bounds thr _ _ u Hv Hd Hut) as [Hbu _]. rewrite (own_thread thr u th Hu) in Hbu. lia.
    - destruct (value_bounds thr _ _ u Hv Hd Hut) as [Hbu _]. specialize (Hk u th Hu ltac:(lia) i Hi' Hne). lia. }
  set (other := negb (s1.(release_store_tid_) =? th.(tid_)) || negb (s1.(release_store_reused_) =? th.(reused_))). set (s' := if other then set_release_store s1 kInvalidTid s1.(release_store_reused_) else s1).
  assert (Es : s'.(dirty_) = s1.(dirty_) /\ vals_of T' s' = vals_of T' s1) by (unfold s'; by destruct other). destruct Es as [Ed Ev]. exists s', a', c', T'. split; [done|]. split; [split; [|split; [|by apply (roomy_put _ _ _ k c), (roomy_sync _ _ _ ks s)]]|].
  - pose proof Hwf' as (_ & _ & HSW & HCW). apply (store_wf_ext _ _ thr (<[ks := s1]> syn)); [done| | |done].
    + intros x. rewrite <- (insert_insert_eq syn ks s' s1). apply (refs_same thr (<[ks := s1]> syn) ks s1); [apply lookup_insert_eq|]. intros j. unfold s'. by destruct other.
    + intros k' s0 [[<- <-]|[Hne Hs0]]%lookup_insert_Some; [|apply (HSW k'); by rewrite lookup_insert_ne]. pose proof (HSW ks s1 (lookup_insert_eq _ _ _)) as Hs1. unfold s'. by destruct other.
  - apply (sem_put T); [done|done|]. rewrite Ev. split; [done|]. rewrite Ed. split; [done|]. split; [done|]. intros thw Hw. unfold s', other in *. rewrite Et in *.
    destruct (Z.eqb_spec s1.(release_store_tid_) u) as [E1|N1]; cbn [negb orb] in *; [destruct (Z.eqb_spec s1.(release_store_reused_) th.(reused_)) as [E2|N2]; cbn [negb] in *|].
    + rewrite E1 in *. assert (thw = th) as -> by congruence. rewrite E2. split; [done|]. intros _ _ i Hi' Hne. rewrite Hval, (proj2 (Z.eqb_neq i u)) by done.
      destruct (Hr th) as [_ Hm]; [by rewrite <- G1|]. apply Hm; [by rewrite <- G2|by rewrite <- G1|done|by rewrite <- G1].
    + cbn [release_store_tid_ set_release_store] in Hw. by rewrite (no_invalid_thread T thr syn Hsem) in Hw.
    + cbn [release_store_tid_ set_release_store] in Hw. by rewrite (no_invalid_thread T thr syn Hsem) in Hw.
  - rewrite Ev, Ed. split; [done|]. by apply (same_vals_values thr).
Qed.

(** The object's vector becomes the maximum. *)
Lemma release_ok a c cs thr syn T u th ks s k :
  inv a cs thr syn T -> cs !! k = Some c -> thr !! u = Some th -> syn !! ks = Some s ->
  exists th' s' a' c' T', release th (a, c) s = Ok (th', s', (a', c')) /\ inv a' (<[k := c']> cs) (<[u := th']> thr) (<[ks := s']> syn) T' /\
    th'.(clk_) = th.(clk_) /\ th'.(reused_) = th.(reused_) /\ (forall i, tid_ok i -> value (vals_of T' s') s'.(dirty_) i = Z.max (value (vals_of T s) s.(dirty_) i) (at_ th.(clk_) i)) /\ same_values (delete ks syn) T T'.
Proof.
  intros Hinv Hc Hu Hks. pose proof Hinv as (_ & [HT HS] & _). destruct (HT u th Hu) as [((Et & Hut & Hn & _ & Hclk & _) & _) _]. unfold release. destruct (Z.eqb_spec s.(size_) 0) as [Ez|Hz].
  { destruct (ReleaseStore_ok a c cs thr syn T u th ks s k Hinv Hc Hu Hks) as (th' & s' & a' & c' & T' & -> & ? & ? & ? & Hval & ?). exists th', s', a', c', T'. split; [done|]. split; [done|]. split; [done|]. split; [done|]. split; [|done].
    intros i Hi. rewrite Hval by done. pose proof (HS ks s Hks) as (_ & Hd & _). assert (Ev : vals_of T s = []) by (unfold vals_of; by rewrite Ez). rewrite Ev in *.
    rewrite (value_out [] _ thr i Hd Hi); [specialize (Hclk i); lia|]. change (zlen (@nil ClockElem)) with 0. unfold tid_ok in Hi. lia. }
  destruct (enlarge_ok a c cs thr syn T ks s k th.(nclk_) Hinv Hc Hks ltac:(unfold tid_ok in Hut; lia)) as (s1 & a1 & c1 & T1 & t1 & -> & Hinv1 & (Hi1 & Hon1 & Hel & Ed & _ & _ & Hsame1) & Hnz1). rewrite bind_ok. cbn [fst snd].
  pose proof Hinv1 as (Hwf1 & _). destruct (store_focus _ _ _ _ _ _ _ Hwf1 Hi1) as (Hh1 & Ht1 & _). pose proof Hon1 as (F1 & F2 & F3). assert (Hur : 0 <= u < zlen t1.(vals)) by (unfold tid_ok in Hut; lia). rewrite Et.
  rewrite (elem_ok_at a1 _ _ t1 _ s1 u Hh1 (proj1 Ht1) F1 F2 Hur), bind_ok, (read_ok a1 _ _ t1 _ u _ Hh1 (proj1 Ht1) (proj1 Hur) (el_lookup _ _ Hur)), bind_ok.
  assert (Hend : forall s' a' c' T', released a' (<[k := c']> (<[k := c1]> cs)) thr (<[ks := s1]> syn) T1 T' th ks t1.(vals) s1.(dirty_) s' -> inv a' (<[k := c']> cs) (<[u := th]> thr) (<[ks := s']> syn) T' /\ th.(clk_) = th.(clk_) /\ th.(reused_) = th.(reused_) /\
    (forall i, tid_ok i -> value (vals_of T' s') s'.(dirty_) i = Z.max (value (vals_of T s) s.(dirty_) i) (at_ th.(clk_) i)) /\ same_values (delete ks syn) T T').
  { intros s' a' c' T' (Hinv' & Hval & Hsv). rewrite !insert_insert_eq in Hinv'. rewrite delete_insert_eq in Hsv. rewrite (insert_id thr) by done. split; [done|]. split; [done|]. split; [done|]. split.
    - intros i Hi. rewrite Hval, Ed by done. unfold value. by rewrite Hel.
    - intros k' s0 Hs0 i. rewrite (Hsv k' s0 Hs0). by apply (same_vals_values _ _ _ _ Hsame1 k'). }
  destruct (Z.ltb_spec th.(last_acquire_) (el t1.(vals) u).(epoch)) as [Hlt|Hge].
  - destruct (release_fast_ok a1 c1 (<[k := c1]> cs) thr (<[ks := s1]> syn) T1 u th ks s1 t1 k Hinv1 (lookup_insert_eq _ _ _) Hu (lookup_insert_eq _ _ _) Hi1 Hon1 ltac:(lia) Hlt) as (s' & a' & c' & T' & E & Hrel). rewrite Et in E.
    exists th, s', a', c', T'. split; [exact E|]. by apply Hend.
  - destruct (release_slow_ok a1 c1 (<[k := c1]> cs) thr (<[ks := s1]> syn) T1 u th ks s1 t1 k Hinv1 (lookup_insert_eq _ _ _) Hu (lookup_insert_eq _ _ _) Hi1 Hon1 Hnz1) as (s' & a' & c' & T' & E & Hrel). rewrite Et in E.
    exists th, s', a', c', T'. split; [exact E|]. by apply Hend.
Qed.

(** Both: the thread's and the object's vector become the maximum. *)
Lemma acq_rel_ok a c cs thr syn T u th ks s k :
  inv a cs thr syn T -> cs !! k = Some c -> thr !! u = Some th -> syn !! ks = Some s ->
  exists th' s' a' c' T', acq_rel th (a, c) s = Ok (th', s', (a', c')) /\ inv a' (<[k := c']> cs) (<[u := th']> thr) (<[ks := s']> syn) T' /\ th'.(reused_) = th.(reused_) /\
    (forall i, tid_ok i -> at_ th'.(clk_) i = Z.max (at_ th.(clk_) i) (value (vals_of T s) s.(dirty_) i)) /\ (forall i, tid_ok i -> value (vals_of T' s') s'.(dirty_) i = at_ th'.(clk_) i) /\ same_values (delete ks syn) T T'.
Proof.
  intros Hinv Hc Hu Hks. unfold acq_rel. destruct (acquire_ok a c cs thr syn T u th ks s k Hinv Hc Hu Hks) as (th1 & a1 & c1 & T1 & -> & Hinv1 & Hclk1 & Er1 & Hsv1). rewrite bind_ok.
  destruct (ReleaseStore_ok a1 c1 (<[k := c1]> cs) (<[u := th1]> thr) syn T1 u th1 ks s k Hinv1 (lookup_insert_eq _ _ _) (lookup_insert_eq _ _ _) Hks) as (th' & s' & a' & c' & T' & E & Hinv' & Ec & Er & Hval & Hsv).
  rewrite !insert_insert_eq in Hinv'. exists th', s', a', c', T'. rewrite Ec. split; [done|]. split; [done|]. split; [congruence|]. split; [done|]. split; [done|].
  intros k' s0 Hs0 i. rewrite (Hsv k' s0 Hs0). apply (Hsv1 k'). by apply lookup_delete_Some in Hs0 as [_ ?].
Qed.
End Ops.
