(* ===== verification/ClockLife.v ===== *)
(** * The life of the clocks

    The operations that concern one clock only: a thread's own time passes, a
    thread drops its cached table, its slot is given to a new thread, an object
    is reset.  Shown: each of them returns, keeps the invariant of ClockOps.v,
    and changes the vectors as its name says. *)
From stdpp Require Import base numbers list gmap.
From Stdlib Require Import ZArith Lia.
From S2P Require Import Prelude Bits DenseAlloc SyncClock ClockTable ThreadClock ClockLoops ClockStore ClockSem ClockOps.

Local Open Scope Z_scope.

Section Life.
Context {A C : Type} `{ClockBlocks A C}.
Implicit Types (a : A) (c : C) (cs : gmap Z C) (T : gmap Z table) (s : SyncClock) (th : ThreadClock) (thr : gmap Z ThreadClock) (syn : gmap Z SyncClock).

Definition at_time th (v : Z) : ThreadClock := set_clk th th.(nclk_) (<[Z.to_nat th.(tid_) := v]> th.(clk_)).

Lemma set_time_ok u th v : thread_ok u th -> set_time th v = Ok (at_time th v) /\ forall i, at_ (at_time th v).(clk_) i = if u =? i then v else at_ th.(clk_) i.
Proof.
  intros (Et & Hu & _ & Hl & _). assert (Hr : 0 <= u < zlen th.(clk_)) by (rewrite Hl; unfold tid_ok, kMaxTidInClock in *; lia).
  unfold set_time, at_time. rewrite Et, aset_ok by done. split; [done|]. intros i. cbn [clk_ set_clk]. by apply at_set.
Qed.

Lemma tick_time u th : thread_ok u th -> at_ th.(clk_) u + 1 < 2 ^ 42 -> tick th = set_time th (at_ th.(clk_) u + 1).
Proof.
  intros Hok Hlt. unfold tick, set_time. rewrite (get_own u th Hok), bind_ok. pose proof Hok as (_ & _ & _ & _ & Hp & _). specialize (Hp u). unfold wrap. rewrite Z.mod_small by lia. done.
Qed.

(** The thread's own time passes. *)
Lemma time_ok a cs thr syn T u th v :
  inv a cs thr syn T -> thr !! u = Some th -> at_ th.(clk_) u <= v < 2 ^ 42 -> inv a cs (<[u := at_time th v]> thr) syn T.
Proof.
  intros (Hwf & Hsem & Hroom) Hu Hv. pose proof Hsem as [HT _]. destruct (HT u th Hu) as [(Hok & Hb & Hk) Hc]. destruct (set_time_ok u th v Hok) as [_ Hat]. set (th' := at_time th v) in *.
  assert (Hadv : advances u th th'). { split; [rewrite Hat, Z.eqb_refl; lia|left]. split; [done|]. split; [done|]. intros i Hi. by rewrite Hat, (proj2 (Z.eqb_neq u i)). }
  pose proof Hok as (Et & Hut & Hn & Hl & Hp & Hz & Hla & H0' & Hre). split; [|split; [|unfold roomy; by rewrite (size_put thr u th)]]; [by apply (store_thread a cs thr syn T u th)|].
  apply (sem_thread thr u th); [done..|split; [|split]|].
  - split; [done|]. split; [done|]. split; [done|]. split; [unfold th', at_time; cbn [clk_ set_clk]; by rewrite zlen_insert|]. split; [|split; [|split; [|split; [|done]]]].
    + intros i. rewrite Hat. destruct (u =? i); [|done]. specialize (Hp u). lia.
    + intros i Hi. rewrite Hat, (proj2 (Z.eqb_neq u i)); [by apply Hz|cbn in Hi; lia].
    + rewrite Hat, Z.eqb_refl. cbn. lia.
    + rewrite Hat, Z.eqb_refl. lia.
  - intros i Hi. pose proof (own_advances thr u th th' Hu Hadv i). specialize (Hb i Hi). rewrite Hat. destruct (Z.eqb_spec u i) as [<-|Hne]; [|lia].
    rewrite (own_thread _ u th' (lookup_insert_eq _ _ _)), Hat, Z.eqb_refl. specialize (Hp u). lia.
  - intros w thw [[<- <-]|[Hne Hw]]%lookup_insert_Some Hlt i Hi Hiw; [done|]. rewrite Hat, (proj2 (Z.eqb_neq u w)) in Hlt by done. specialize (Hk w thw Hw Hlt i Hi Hiw). rewrite Hat. destruct (Z.eqb_spec u i) as [<-|]; lia.
  - intros vs Hvs. destruct (Hc vs Hvs) as (Hgv & H2 & H3 & H4). split; [by apply (good_vals_advances thr u th th')|]. split; [done|]. split; [done|]. intros i Hi Hne. rewrite Hat, (proj2 (Z.eqb_neq u i)) by done. by apply H4.
Qed.

(** The thread drops its cache and goes on, possibly as another. *)
Lemma drop_ok a c cs thr syn T u th k :
  inv a cs thr syn T -> cs !! k = Some c -> thr !! u = Some th ->
  exists th2 a' c' T', ResetCached th (a, c) = Ok (th2, (a', c')) /\ th2.(clk_) = th.(clk_) /\ th2.(reused_) = th.(reused_) /\ th2.(cached_idx_) = 0 /\ same_values syn T T' /\
    forall th', th' = th2 \/ th'.(cached_idx_) = 0 /\ advances u th th' /\ good_thread (<[u := th']> thr) u th' -> inv a' (<[k := c']> cs) (<[u := th']> thr) syn T'.
Proof.
  intros (Hwf & Hsem & Hroom) Hc Hu. destruct (reset_cached_ok a c cs thr syn T u th th k Hwf Hc Hu eq_refl eq_refl eq_refl) as (th2 & a' & c' & T' & E & E0 & E2 & Hwf' & Hsame).
  exists th2, a', c', T'. split; [done|]. split; [by rewrite E2|]. split; [by rewrite E2|]. split; [done|]. split; [by eapply same_vals_values|]. intros th' Hth'. pose proof Hsem as [HT _]. destruct (HT u th Hu) as [Hg _].
  assert (H2 : th'.(cached_idx_) = 0 /\ advances u th th' /\ good_thread (<[u := th']> thr) u th').
  { destruct Hth' as [->|?]; [|done]. split; [done|]. rewrite E2. split; [by apply (cache_keeps u th 0 th2.(cached_size_) th2.(cached_blocks_))|]. apply (cached_thread thr u th 0 th2.(cached_size_) th2.(cached_blocks_) Hu Hg). }
  destruct H2 as (E0' & Hadv & Hg'). assert (Hnone : forall T0, cached_vals T0 th' = None) by (intros T0; unfold cached_vals; by rewrite E0').
  split; [|split].
  - pose proof Hwf' as (_ & _ & HS & HC). apply (store_wf_ext a' _ (<[u := th2]> thr) syn); [done| |done|].
    + intros i. unfold refs. rewrite !(count_put _ thr u th _ Hu). rewrite (same_cache_ext thr th2 th' i); [done|congruence].
    + intros w thw [[<- <-]|[Hne Hw]]%lookup_insert_Some; [by left|]. apply (HC w). by rewrite lookup_insert_ne.
  - apply (sem_same T); [apply (sem_thread thr u th); try done; intros vs; by rewrite Hnone|]. destruct Hsame as [Hs Hcs]. split; [done|].
    intros w thw [[<- <-]|[Hne Hw]]%lookup_insert_Some; [by rewrite !Hnone|]. apply (Hcs w). by rewrite lookup_insert_ne.
  - by apply (roomy_both cs thr syn k c c' u th).
Qed.

(** *** A new thread in the slot *)

Definition fresh (u r v : Z) : ThreadClock := MkThread u r 0 0 0 0 (u + 1) (<[Z.to_nat u := v]> (replicate (Z.to_nat kMaxTidInClock) 0)).

Lemma fresh_at u r v i : tid_ok u -> at_ (fresh u r v).(clk_) i = if u =? i then v else 0.
Proof.
  intros Hu. cbn [clk_ fresh]. rewrite at_set by (unfold zlen; rewrite length_replicate; unfold tid_ok, kMaxTidInClock in *; lia).
  destruct (u =? i); [done|]. unfold at_. destruct (i <? 0); [done|]. destruct (_ !! _) as [x|] eqn:E; [|done]. by apply lookup_replicate in E as [-> _].
Qed.

Lemma fresh_ok u r v : tid_ok u -> 0 <= r -> r + 1 < 2 ^ 22 -> (th ← ThreadClock_init u r; set_time th v) = Ok (fresh u (r + 1) v).
Proof.
  intros Hu Hr Hlt. unfold ThreadClock_init, CHECK, wrap, kClkBits. rewrite (Z.mod_small (r + 1)) by lia. rewrite (proj2 (Z.ltb_lt u _)) by (unfold tid_ok, kMaxTidInClock in *; lia). rewrite bind_ok.
  rewrite (Z.shiftl_mul_pow2 (r + 1) 42), Z.mod_small, Z.shiftr_div_pow2, Z.div_mul, Z.eqb_refl by lia. rewrite !bind_ok.
  unfold set_time. cbn [clk_ tid_]. rewrite aset_ok by (unfold zlen; rewrite length_replicate; unfold tid_ok, kMaxTidInClock in *; lia). done.
Qed.

Lemma fresh_thread_ok u r v : tid_ok u -> 0 < r < 2 ^ 22 -> 0 < v < 2 ^ 42 -> thread_ok u (fresh u r v).
Proof.
  intros Hu Hr Hv. split; [done|]. split; [done|]. split; [unfold tid_ok in Hu; cbn; lia|]. split; [cbn [clk_ fresh]; rewrite zlen_insert; unfold zlen; by rewrite length_replicate|].
  split; [|split; [|split; [|split; [|done]]]].
  - intros i. rewrite fresh_at by done. destruct (u =? i); lia.
  - intros i Hi. cbn [nclk_ fresh] in Hi. rewrite fresh_at, (proj2 (Z.eqb_neq u i)) by (done || lia). done.
  - rewrite fresh_at, Z.eqb_refl by done. cbn. lia.
  - rewrite fresh_at, Z.eqb_refl by done. lia.
Qed.

Lemma fresh_good thr u r v :
  (forall w thw, thr !! w = Some thw -> 0 <= thw.(last_acquire_)) -> (forall w, 0 <= own thr w) -> tid_ok u -> 0 < r < 2 ^ 22 -> 0 < v < 2 ^ 42 -> good_thread (<[u := fresh u r v]> thr) u (fresh u r v).
Proof.
  intros Hla Hown Hu Hr Hv. split; [by apply fresh_thread_ok|]. split.
  - intros i Hi. rewrite fresh_at by done. destruct (Z.eqb_spec u i) as [<-|Hne]; [rewrite (own_thread _ u _ (lookup_insert_eq _ _ _)), fresh_at, Z.eqb_refl by done; lia|].
    specialize (Hown i). unfold own in *. by rewrite lookup_insert_ne.
  - intros w thw [[<- <-]|[Hne Hw]]%lookup_insert_Some Hlt i Hi Hiw; [done|]. rewrite fresh_at, (proj2 (Z.eqb_neq u w)) in Hlt by done. specialize (Hla w thw Hw). lia.
Qed.

Lemma own_nonneg T thr syn w : sem T thr syn -> 0 <= own thr w.
Proof. intros [HT _]. unfold own. destruct (thr !! w) as [th|] eqn:E; [|done]. destruct (HT w th E) as [((_ & _ & _ & _ & Hp & _) & _) _]. by apply Hp. Qed.

Lemma new_thread_ok a c cs thr syn T u th v k :
  inv a cs thr syn T -> cs !! k = Some c -> thr !! u = Some th -> at_ th.(clk_) u <= v < 2 ^ 42 -> th.(reused_) + 1 < 2 ^ 22 ->
  exists th2 a' c' T', ResetCached th (a, c) = Ok (th2, (a', c')) /\ (th ← ThreadClock_init u th2.(reused_); set_time th v) = Ok (fresh u (th.(reused_) + 1) v) /\
    inv a' (<[k := c']> cs) (<[u := fresh u (th.(reused_) + 1) v]> thr) syn T' /\ same_values syn T T'.
Proof.
  intros Hinv Hc Hu Hv Hr. pose proof Hinv as (_ & Hsem & _). pose proof Hsem as [HT _]. destruct (HT u th Hu) as [((_ & Hut & _ & _ & Hp & _ & _ & H0' & Hre) & _) _].
  destruct (drop_ok a c cs thr syn T u th k Hinv Hc Hu) as (th2 & a' & c' & T' & E & _ & Er & _ & Hsv & Hend). exists th2, a', c', T'. split; [done|].
  split; [rewrite Er; apply fresh_ok; [done|lia|done]|]. split; [|done]. apply Hend. right. split; [done|]. split.
  - split; [rewrite fresh_at, Z.eqb_refl by done; lia|]. right. right. cbn [reused_ last_acquire_ fresh]. split; [lia|]. split; [done|]. intros i Hi. by rewrite fresh_at, (proj2 (Z.eqb_neq u i)).
  - apply fresh_good; [|intros w; by apply (own_nonneg T thr syn)|done|lia|lia]. intros w thw Hw. destruct (HT w thw Hw) as [((_ & _ & _ & _ & _ & _ & Hla & _) & _) _]. lia.
Qed.

(** *** [Reset] *)

Lemma reset_good T thr syn s' n : sem T thr syn -> s'.(size_) = 0 -> s'.(release_store_tid_) = kInvalidTid -> s'.(dirty_) = no_dirty <$> n -> length n = 2%nat -> good_sync thr (vals_of T s') s'.
Proof.
  intros Hsem Ez Er Ed Hn. unfold vals_of. rewrite Ez. cbn [Z.eqb]. split; [|split; [|split]].
  - split; [constructor|]. split; [done|]. intros u Hu. assert (El : el [] u = zero_elem) by (apply el_out; change (zlen (@nil ClockElem)) with 0; unfold tid_ok in Hu; lia). rewrite El. split; [by apply (own_nonneg T thr syn)|].
    pose proof Hsem as [HT _]. split; [unfold incarnation; destruct (thr !! u) as [th|] eqn:E; [|done]; destruct (HT u th E) as [((_ & _ & _ & _ & _ & _ & _ & _ & ?) & _) _]; cbn; lia|].
    intros th Hth _ i Hi. rewrite el_out by (change (zlen (@nil ClockElem)) with 0; unfold tid_ok in Hi; lia). destruct (HT u th Hth) as [((_ & _ & _ & _ & Hp & _) & _) _]. apply Hp.
  - rewrite Ed. by apply good_dirty_none.
  - intros u th Hu Hlt. exfalso. pose proof Hsem as [HT _]. destruct (HT u th Hu) as [((_ & Hut & _ & _ & _ & _ & Hla & _) & _) _]. rewrite Ed, value_no_dirty, el_out in Hlt; [cbn in Hlt; lia| |done].
    change (zlen (@nil ClockElem)) with 0. unfold tid_ok in Hut. lia.
  - intros th. rewrite Er, (no_invalid_thread T thr syn Hsem). done.
Qed.

Lemma reset_ok a c cs thr syn T ks s k :
  inv a cs thr syn T -> cs !! k = Some c -> syn !! ks = Some s ->
  exists s' a' c' T', Reset s (a, c) = Ok (s', (a', c')) /\ is_empty s' /\ inv a' (<[k := c']> cs) thr (<[ks := s']> syn) T' /\
    (forall i, tid_ok i -> value (vals_of T' s') s'.(dirty_) i = 0) /\ same_values (delete ks syn) T T'.
Proof.
  intros (Hwf & Hsem & Hroom) Hc Hks. pose proof Hwf as (_ & _ & HS & HC). pose proof Hsem as [_ HG]. destruct (HG ks s Hks) as (_ & Hd & _). apply good_dirty_length in Hd as Hlen. set (s' := ResetImpl s).
  assert (Hval : forall T' i, tid_ok i -> value (vals_of T' s') s'.(dirty_) i = 0).
  { intros T' i Hi. cbn [s' ResetImpl dirty_]. rewrite value_no_dirty by done. change (vals_of T' s') with (@nil ClockElem). rewrite el_out; [done|]. change (zlen (@nil ClockElem)) with 0. unfold tid_ok in Hi. lia. }
  assert (Hwf' : exists a' c' T', (if negb (s.(size_) =? 0) then UnrefClockBlock (a, c) s.(tab_idx_) s.(blocks_) else Ok (a, c)) = Ok (a', c') /\ store_wf a' (<[k := c']> cs) thr (<[ks := s']> syn) T' /\ same_vals thr (<[ks := s']> syn) T T').
  { assert (HS' : forall k0 s0, <[ks := s']> syn !! k0 = Some s0 -> sync_wf T s0) by (intros k0 s0 [[<- <-]|[_ Hs0]]%lookup_insert_Some; [by left|by apply (HS k0)]). destruct (HS ks s Hks) as [(Ez & _)|(t & Hi & Hon)].
    - rewrite Ez. cbn [Z.eqb negb]. exists a, c, T. rewrite (insert_id cs) by done. split; [done|]. split; [|done]. apply (store_wf_ext a cs thr syn); [done| |done|done]. apply (refs_same thr syn ks s); [done|]. intros i. unfold uses. by rewrite Ez.
    - destruct (store_focus a cs thr syn T _ t Hwf Hi) as (_ & Ht & _). pose proof (on_table_uses s _ t Hon Ht eq_refl) as Hu. pose proof Hon as (_ & Eb & Ez). rewrite Ez, (proj2 (Z.eqb_neq _ _)), Eb by (destruct Ht as (_ & ? & _); lia). cbn [negb].
      apply (unref_store a c cs thr syn thr (<[ks := s']> syn) T _ t k Hwf Hc Hi); [|done|done]. intros x. unfold refs. rewrite (count_put _ syn ks s s' Hks), Hu. assert (uses x s' = false) as -> by done. lia. }
  destruct Hwf' as (a' & c' & T' & E & Hwf' & Hsame). exists s', a', c', T'. unfold Reset. rewrite E, bind_ok. split; [done|]. split; [done|].
  assert (Hsame' : same_vals thr (delete ks syn) T T'). { destruct Hsame as [Hs Hcs]. split; [|done]. intros k0 s0 [Hne Hs0]%lookup_delete_Some. apply (Hs k0). by rewrite lookup_insert_ne. }
  split; [|split; [by apply Hval|by eapply same_vals_values]]. split; [done|]. split.
  - apply (sem_put T T'); [done|done|]. change (vals_of T' s') with (vals_of T s'). by apply (reset_good T thr syn s' s.(dirty_)).
  - unfold roomy. by rewrite (size_put cs k c), (size_put syn ks s).
Qed.
End Life.
