(* ===== verification/ClockSpec.v ===== *)
(** * The clocks implement vectors

    The comment at the top of [src/ufo-rt/lib/tsan/rtl/tsan_clock.cc] gives a
    "very simple model" of the clocks, in which every operation is a loop over
    the whole vector.  Here is that model, a system of threads and objects
    that use the clocks of ThreadClock.v and SyncClock.v over one allocator,
    and the refinement between them.

    A thread runs as in [tsan_rtl_thread.cc] and [tsan_rtl_mutex.cc]: it has
    the number and the allocator cache of its slot, its own time is set before
    an operation and never goes back, also not when the slot is used for a new
    thread.  [set_other] (for [AcquireGlobal], which sets every entry one after
    the other) is not an operation of the system. *)
From stdpp Require Import base numbers list gmap.
From Stdlib Require Import ZArith Lia.
From S2P Require Import Prelude Bits DenseAlloc SyncClock ClockTable ThreadClock ClockLoops ClockStore ClockSem ClockOps ClockLife.

Local Open Scope Z_scope.

Inductive clock_op : Type :=
| OTime (u v : Z)
| OTick (u : Z)
| OAcquire (u k : Z)
| ORelease (u k : Z)
| OReleaseStore (u k : Z)
| OAcqRel (u k : Z)
| OReset (u k : Z)
| OFinish (u : Z)
| OStart (u v : Z).

(** ** The simple model *)

Record vectors : Type := MkVectors {
  v_thread : Z -> Z -> Z;
  v_sync : Z -> Z -> Z;
  v_reuse : Z -> Z;
}.

Definition upd {X} (f : Z -> X) (k : Z) (x : X) : Z -> X := fun i => if i =? k then x else f i.

Definition join (V W : Z -> Z) : Z -> Z := fun i => Z.max (V i) (W i).

Definition model_step (o : clock_op) (m : vectors) : vectors :=
  let thr := m.(v_thread) in
  let syn := m.(v_sync) in
  match o with
  | OTime u v => MkVectors (upd thr u (upd (thr u) u v)) syn m.(v_reuse)
  | OTick u => MkVectors (upd thr u (upd (thr u) u (thr u u + 1))) syn m.(v_reuse)
  | OAcquire u k => MkVectors (upd thr u (join (thr u) (syn k))) syn m.(v_reuse)
  | ORelease u k => MkVectors thr (upd syn k (join (syn k) (thr u))) m.(v_reuse)
  | OReleaseStore u k => MkVectors thr (upd syn k (thr u)) m.(v_reuse)
  | OAcqRel u k =>
    let V := join (thr u) (syn k) in
    MkVectors (upd thr u V) (upd syn k (join (syn k) V)) m.(v_reuse)
  | OReset _ k => MkVectors thr (upd syn k (fun _ => 0)) m.(v_reuse)
  | OFinish _ => m
  | OStart u v => MkVectors (upd thr u (upd (fun _ => 0) u v)) syn (upd m.(v_reuse) u (m.(v_reuse) u + 1))
  end.

Definition model_run (os : list clock_op) (m : vectors) : vectors := foldl (fun m o => model_step o m) m os.

(** Time does not go back, fits in 42 bits, and a slot is not used too often. *)
Definition allowed (nthreads nsyncs : Z) (o : clock_op) (m : vectors) : Prop :=
  let thread u := 0 <= u < nthreads in
  let sync k := 0 <= k < nsyncs in
  match o with
  | OTime u v => thread u /\ m.(v_thread) u u <= v < 2 ^ 42
  | OTick u => thread u /\ m.(v_thread) u u + 1 < 2 ^ 42
  | OAcquire u k | ORelease u k | OReleaseStore u k | OAcqRel u k | OReset u k => thread u /\ sync k
  | OFinish u => thread u
  | OStart u v => thread u /\ m.(v_thread) u u <= v < 2 ^ 42 /\ m.(v_reuse) u + 1 < 2 ^ 22
  end.

Fixpoint allowed_run (nthreads nsyncs : Z) (os : list clock_op) (m : vectors) : Prop :=
  match os with
  | [] => True
  | o :: os => allowed nthreads nsyncs o m /\ allowed_run nthreads nsyncs os (model_step o m)
  end.

(** ** The clocks *)

Record clocks (A C : Type) : Type := MkClocks {
  c_alloc : A;
  c_caches : gmap Z C;
  c_threads : gmap Z ThreadClock;
  c_syncs : gmap Z SyncClock;
}.
Arguments MkClocks {A C} _ _ _ _.
Arguments c_alloc {A C} _.
Arguments c_caches {A C} _.
Arguments c_threads {A C} _.
Arguments c_syncs {A C} _.

Section Clocks.
Context {A C : Type} `{SlabOps A C}.

Definition get_thread (st : clocks A C) (u : Z) : res ThreadClock := res_of_option ENull (st.(c_threads) !! u).
Definition get_sync (st : clocks A C) (k : Z) : res SyncClock := res_of_option ENull (st.(c_syncs) !! k).
Definition get_heap (st : clocks A C) (u : Z) : res (A * C) := c ← res_of_option ENull (st.(c_caches) !! u); Ok (st.(c_alloc), c).

Definition put (st : clocks A C) (u : Z) (th : ThreadClock) (h : A * C) : clocks A C :=
  MkClocks h.1 (<[u := h.2]> st.(c_caches)) (<[u := th]> st.(c_threads)) st.(c_syncs).

Definition put_sync (st : clocks A C) (k : Z) (s : SyncClock) : clocks A C :=
  MkClocks st.(c_alloc) st.(c_caches) st.(c_threads) (<[k := s]> st.(c_syncs)).

(** An operation of the thread [u] on the object [k]. *)
Definition between (f : ThreadClock -> A * C -> SyncClock -> res (ThreadClock * SyncClock * (A * C))) (st : clocks A C) (u k : Z) : res (clocks A C) :=
  th ← get_thread st u;
  s ← get_sync st k;
  h ← get_heap st u;
  '(th, s, h) ← f th h s;
  Ok (put_sync (put st u th h) k s).

Definition clock_step (o : clock_op) (st : clocks A C) : res (clocks A C) :=
  match o with
  | OTime u v =>
    th ← get_thread st u;
    th ← set_time th v;
    h ← get_heap st u;
    Ok (put st u th h)
  | OTick u =>
    th ← get_thread st u;
    th ← tick th;
    h ← get_heap st u;
    Ok (put st u th h)
  | OAcquire u k => between (fun th h s => '(th, h) ← acquire th h s; Ok (th, s, h)) st u k
  | ORelease u k => between release st u k
  | OReleaseStore u k => between ReleaseStore st u k
  | OAcqRel u k => between acq_rel st u k
  | OReset u k => between (fun th h s => '(s, h) ← Reset s h; Ok (th, s, h)) st u k
  | OFinish u =>
    th ← get_thread st u;
    h ← get_heap st u;
    '(th, h) ← ResetCached th h;
    Ok (put st u th h)
  | OStart u v =>
    th ← get_thread st u;
    h ← get_heap st u;
    '(th, h) ← ResetCached th h;
    th ← ThreadClock_init u th.(reused_);
    th ← set_time th v;
    Ok (put st u th h)
  end.

Definition clock_run (os : list clock_op) (st : clocks A C) : res (clocks A C) := foldM clock_step os st.

(** What can be observed of a state. *)
Definition thread_time (st : clocks A C) (u i : Z) : res Z := th ← get_thread st u; ThreadClock_get th i.

Definition sync_time (st : clocks A C) (k i : Z) : res Z :=
  s ← get_sync st k;
  if i <? s.(size_) then get s st.(c_alloc) i else Ok 0.

(** Threads and objects at the start, the own times from [v]. *)
Definition first_thread (v : Z -> Z) (u : Z) : res ThreadClock :=
  th ← ThreadClock_init u 0;
  set_time th (v u).

Definition start_clocks (a : A) (cs : gmap Z C) (nthreads nsyncs : Z) (v : Z -> Z) : res (clocks A C) :=
  thr ← foldM (fun u m => th ← first_thread v u; Ok (<[u := th]> m)) (seqZ 0 nthreads) ∅;
  Ok (MkClocks a cs thr (list_to_map ((fun k => (k, SyncClock_init)) <$> seqZ 0 nsyncs))).
End Clocks.

Definition start_vectors (nthreads : Z) (v : Z -> Z) : vectors :=
  MkVectors (fun u => if (0 <=? u) && (u <? nthreads) then upd (fun _ => 0) u (v u) else fun _ => 0) (fun _ _ => 0) (fun _ => 1).

(** ** The refinement *)

Section Refine.
Context {A C : Type} `{ClockBlocks A C} (nthreads nsyncs : Z).
Implicit Types (st : clocks A C) (m : vectors) (T : gmap Z table).

Definition here {X} (n : Z) (g : gmap Z X) : Prop := forall k, 0 <= k < n <-> is_Some (g !! k).

Definition thread_is m (u : Z) (th : ThreadClock) : Prop :=
  th.(reused_) = m.(v_reuse) u /\ forall i, tid_ok i -> at_ th.(clk_) i = m.(v_thread) u i.

Definition sync_is m T (k : Z) (s : SyncClock) : Prop := forall i, tid_ok i -> value (vals_of T s) s.(dirty_) i = m.(v_sync) k i.

Definition represents st T m : Prop :=
  inv st.(c_alloc) st.(c_caches) st.(c_threads) st.(c_syncs) T /\
  here nthreads st.(c_caches) /\ here nthreads st.(c_threads) /\ here nsyncs st.(c_syncs) /\
  map_Forall (thread_is m) st.(c_threads) /\ map_Forall (sync_is m T) st.(c_syncs).

Lemma here_put {X} n (g : gmap Z X) k x y : here n g -> g !! k = Some x -> here n (<[k := y]> g).
Proof.
  intros Hg Hk j. rewrite (Hg j). destruct (decide (j = k)) as [->|Hne]; [rewrite lookup_insert_eq, Hk; split; by eexists|by rewrite lookup_insert_ne].
Qed.

(** A thread and an object change, the other objects keep their vectors. *)
Lemma represents_put st T m u th th' c c' k s s' a' T' m' :
  represents st T m -> st.(c_threads) !! u = Some th -> st.(c_caches) !! u = Some c -> st.(c_syncs) !! k = Some s ->
  inv a' (<[u := c']> st.(c_caches)) (<[u := th']> st.(c_threads)) (<[k := s']> st.(c_syncs)) T' -> same_values (delete k st.(c_syncs)) T T' ->
  thread_is m' u th' -> sync_is m' T' k s' ->
  (forall w, w <> u -> m'.(v_thread) w = m.(v_thread) w /\ m'.(v_reuse) w = m.(v_reuse) w) -> (forall j, j <> k -> m'.(v_sync) j = m.(v_sync) j) ->
  represents (put_sync (put st u th' (a', c')) k s') T' m'.
Proof.
  intros (_ & Hcs & Hthr & Hsyn & Ht & Hs) Hu Hc Hk Hinv Hsv Hth' Hs' Hmt Hms. split; [done|]. cbn [put put_sync c_alloc c_caches c_threads c_syncs fst snd].
  split; [by apply (here_put _ _ u c)|]. split; [by apply (here_put _ _ u th)|]. split; [by apply (here_put _ _ k s)|]. split.
  - intros w thw [[<- <-]|[Hne Hw]]%lookup_insert_Some; [done|]. destruct (Hmt w) as [E1 E2]; [done|]. unfold thread_is. rewrite E1, E2. by apply Ht.
  - intros j sj [[<- <-]|[Hne Hj]]%lookup_insert_Some; [done|]. intros i Hi. rewrite (Hsv j sj), (Hms j) by (done || by rewrite lookup_delete_ne). by apply (Hs j).
Qed.

(** A thread changes alone. *)
Lemma represents_thread st T m u th th' c c' a' T' m' :
  represents st T m -> st.(c_threads) !! u = Some th -> st.(c_caches) !! u = Some c ->
  inv a' (<[u := c']> st.(c_caches)) (<[u := th']> st.(c_threads)) st.(c_syncs) T' -> same_values st.(c_syncs) T T' ->
  thread_is m' u th' -> (forall w, w <> u -> m'.(v_thread) w = m.(v_thread) w /\ m'.(v_reuse) w = m.(v_reuse) w) -> m'.(v_sync) = m.(v_sync) ->
  represents (put st u th' (a', c')) T' m'.
Proof.
  intros (_ & Hcs & Hthr & Hsyn & Ht & Hs) Hu Hc Hinv Hsv Hth' Hmt Hms. split; [done|]. cbn [put c_alloc c_caches c_threads c_syncs fst snd].
  split; [by apply (here_put _ _ u c)|]. split; [by apply (here_put _ _ u th)|]. split; [done|]. split.
  - intros w thw [[<- <-]|[Hne Hw]]%lookup_insert_Some; [done|]. destruct (Hmt w) as [E1 E2]; [done|]. unfold thread_is. rewrite E1, E2. by apply Ht.
  - intros j sj Hj i Hi. rewrite (Hsv j sj Hj), Hms. by apply (Hs j).
Qed.

Lemma upd_same {X} (f : Z -> X) k x : upd f k x k = x.
Proof. unfold upd. by rewrite Z.eqb_refl. Qed.

Lemma upd_other {X} (f : Z -> X) k x i : i <> k -> upd f k x i = f i.
Proof. intros Hne. unfold upd. by rewrite (proj2 (Z.eqb_neq i k)). Qed.

Lemma represents_found st T m u : represents st T m -> 0 <= u < nthreads ->
  exists th c, st.(c_threads) !! u = Some th /\ st.(c_caches) !! u = Some c /\ thread_is m u th /\ thread_ok u th.
Proof.
  intros ((_ & [HT _] & _) & Hcs & Hthr & _ & Ht & _) Hu. destruct (proj1 (Hthr u) Hu) as [th Eth]. destruct (proj1 (Hcs u) Hu) as [c Ec]. exists th, c. split; [done|]. split; [done|]. split; [by apply Ht|]. by destruct (HT u th Eth) as [(? & _) _].
Qed.

Lemma represents_sync st T m k : represents st T m -> 0 <= k < nsyncs -> exists s, st.(c_syncs) !! k = Some s /\ sync_is m T k s.
Proof. intros (_ & _ & _ & Hsyn & _ & Hs) Hk. destruct (proj1 (Hsyn k) Hk) as [s Es]. exists s. split; [done|]. by apply Hs. Qed.

#[local] Abbreviation runs o st m := (exists st' T', clock_step o st = Ok st' /\ represents st' T' (model_step o m)).

Lemma thread_is_own m u th : thread_is m u th -> thread_ok u th -> at_ th.(clk_) u = m.(v_thread) u u.
Proof. intros [_ Hi] (_ & Hu & _). by apply Hi. Qed.

Lemma run_time st T m u v : represents st T m -> 0 <= u < nthreads -> m.(v_thread) u u <= v < 2 ^ 42 -> runs (OTime u v) st m.
Proof.
  intros Hr Hu Hv. destruct (represents_found st T m u Hr Hu) as (th & c & Eth & Ec & Hth & Hok). cbn [clock_step]. unfold get_thread, get_heap. rewrite Eth, Ec. cbn [res_of_option].
  destruct (set_time_ok u th v Hok) as [E Hat]. rewrite bind_ok, E, !bind_ok. exists (put st u (at_time th v) (st.(c_alloc), c)), T. split; [done|]. pose proof Hr as (Hinv & _).
  apply (represents_thread st T m u th _ c); [done..| |done| | |done].
  - rewrite (insert_id (c_caches st)) by done. apply time_ok; [done..|]. by rewrite (thread_is_own m u th).
  - destruct Hth as [Er Hi]. split; [done|]. intros i Hi'. cbn [model_step v_thread]. rewrite upd_same, Hat. unfold upd. rewrite Z.eqb_sym. destruct (i =? u); [done|by apply Hi].
  - intros w Hw. cbn [model_step v_thread v_reuse]. by rewrite upd_other.
Qed.

Lemma run_tick st T m u : represents st T m -> 0 <= u < nthreads -> m.(v_thread) u u + 1 < 2 ^ 42 -> runs (OTick u) st m.
Proof.
  intros Hr Hu Hlt. destruct (represents_found st T m u Hr Hu) as (th & c & Eth & Ec & Hth & Hok). pose proof (thread_is_own m u th Hth Hok) as Eown.
  destruct (run_time st T m u (m.(v_thread) u u + 1) Hr Hu ltac:(lia)) as (st' & T' & E & Hr'). exists st', T'. split; [|done]. rewrite <- E. cbn [clock_step]. unfold get_thread. rewrite Eth. cbn [res_of_option]. rewrite !bind_ok.
  by rewrite (tick_time u th Hok), Eown by lia.
Qed.

Lemma run_finish st T m u : represents st T m -> 0 <= u < nthreads -> runs (OFinish u) st m.
Proof.
  intros Hr Hu. destruct (represents_found st T m u Hr Hu) as (th & c & Eth & Ec & Hth & Hok). cbn [clock_step]. unfold get_thread, get_heap. rewrite Eth, Ec. cbn [res_of_option]. rewrite !bind_ok.
  destruct (drop_ok _ c _ _ _ T u th u (proj1 Hr) Ec Eth) as (th2 & a' & c' & T' & E & Eclk & Ere & _ & Hsv & Hend). rewrite E, bind_ok. exists (put st u th2 (a', c')), T'. split; [done|].
  apply (represents_thread st T m u th _ c); [done..|by apply Hend; left|done| |done|done]. destruct Hth as [Er Hi]. split; [by rewrite Ere|]. by rewrite Eclk.
Qed.

Lemma run_start st T m u v : represents st T m -> 0 <= u < nthreads -> m.(v_thread) u u <= v < 2 ^ 42 -> m.(v_reuse) u + 1 < 2 ^ 22 -> runs (OStart u v) st m.
Proof.
  intros Hr Hu Hv Hre. destruct (represents_found st T m u Hr Hu) as (th & c & Eth & Ec & Hth & Hok). pose proof (thread_is_own m u th Hth Hok) as Eown. cbn [clock_step]. unfold get_thread, get_heap. rewrite Eth, Ec. cbn [res_of_option]. rewrite !bind_ok.
  destruct (new_thread_ok _ c _ _ _ T u th v u (proj1 Hr) Ec Eth) as (th2 & a' & c' & T' & E & Ei & Hinv & Hsv); [lia|by rewrite (proj1 Hth)|]. rewrite E, bind_ok.
  exists (put st u (fresh u (th.(reused_) + 1) v) (a', c')), T'. split; [revert Ei; destruct (ThreadClock_init u _) as [th0|]; [rewrite !bind_ok; by intros ->|done]|].
  apply (represents_thread st T m u th _ c); [done..| | |done].
  - split; [cbn [model_step v_reuse fresh reused_]; by rewrite upd_same, (proj1 Hth)|]. intros i Hi. rewrite fresh_at by apply Hok. cbn [model_step v_thread]. rewrite upd_same. unfold upd. rewrite Z.eqb_sym. by destruct (i =? u).
  - intros w Hw. cbn [model_step v_thread v_reuse]. by rewrite !upd_other.
Qed.

(** An operation between a thread and an object. *)
Lemma run_between st T m u k o f :
  represents st T m -> 0 <= u < nthreads -> 0 <= k < nsyncs -> clock_step o st = between f st u k ->
  (forall th s c, st.(c_threads) !! u = Some th -> st.(c_caches) !! u = Some c -> st.(c_syncs) !! k = Some s -> thread_is m u th -> sync_is m T k s ->
    exists th' s' a' c' T', f th (st.(c_alloc), c) s = Ok (th', s', (a', c')) /\ inv a' (<[u := c']> st.(c_caches)) (<[u := th']> st.(c_threads)) (<[k := s']> st.(c_syncs)) T' /\
      same_values (delete k st.(c_syncs)) T T' /\ thread_is (model_step o m) u th' /\ sync_is (model_step o m) T' k s') ->
  (forall w, w <> u -> (model_step o m).(v_thread) w = m.(v_thread) w) -> (model_step o m).(v_reuse) = m.(v_reuse) -> (forall j, j <> k -> (model_step o m).(v_sync) j = m.(v_sync) j) ->
  runs o st m.
Proof.
  intros Hr Hu Hk -> Hf Hmt Hmr Hms. destruct (represents_found st T m u Hr Hu) as (th & c & Eth & Ec & Hth & Hok). destruct (represents_sync st T m k Hr Hk) as (s & Es & Hs).
  destruct (Hf th s c Eth Ec Es Hth Hs) as (th' & s' & a' & c' & T' & E & Hinv & Hsv & Hth' & Hs'). unfold between, get_thread, get_sync, get_heap. rewrite Eth, Es, Ec. cbn [res_of_option]. rewrite !bind_ok, E, bind_ok.
  eexists _, T'. split; [done|]. apply (represents_put st T m u th th' c c' k s); try done. intros w Hw. by rewrite Hmt, Hmr.
Qed.

Lemma same_values_delete syn T T' k : same_values syn T T' -> same_values (delete k syn) T T'.
Proof. intros Hsv j s [_ Hj]%lookup_delete_Some. by apply (Hsv j). Qed.

Lemma run_acquire st T m u k : represents st T m -> 0 <= u < nthreads -> 0 <= k < nsyncs -> runs (OAcquire u k) st m.
Proof.
  intros Hr Hu Hk. eapply (run_between st T m u k); [done..| | |done|done].
  - intros th s c Eth Ec Es [Er Ht] Hs. destruct (acquire_ok _ c _ _ _ T u th k s u (proj1 Hr) Ec Eth Es) as (th' & a' & c' & T' & E & Hinv & Hclk & Er' & Hsv). exists th', s, a', c', T'. rewrite E, bind_ok, (insert_id (c_syncs st)) by done.
    split; [done|]. split; [done|]. split; [by apply same_values_delete|]. split; [split; [by rewrite Er'|]|]; intros i Hi.
    + cbn [model_step v_thread]. rewrite upd_same. unfold join. by rewrite Hclk, Ht, Hs.
    + rewrite (Hsv k s Es). by apply Hs.
  - intros w Hw. cbn [model_step v_thread]. by rewrite upd_other.
Qed.

Lemma run_release st T m u k : represents st T m -> 0 <= u < nthreads -> 0 <= k < nsyncs -> runs (ORelease u k) st m.
Proof.
  intros Hr Hu Hk. eapply (run_between st T m u k); [done..| |done|done|].
  - intros th s c Eth Ec Es [Er Ht] Hs. destruct (release_ok _ c _ _ _ T u th k s u (proj1 Hr) Ec Eth Es) as (th' & s' & a' & c' & T' & E & Hinv & Hclk & Er' & Hval & Hsv). exists th', s', a', c', T'.
    split; [done|]. split; [done|]. split; [done|]. split; [split; [by rewrite Er'|by rewrite Hclk]|]. intros i Hi. cbn [model_step v_sync]. rewrite upd_same. unfold join. by rewrite Hval, Ht, Hs.
  - intros j Hj. cbn [model_step v_sync]. by rewrite upd_other.
Qed.

Lemma run_store st T m u k : represents st T m -> 0 <= u < nthreads -> 0 <= k < nsyncs -> runs (OReleaseStore u k) st m.
Proof.
  intros Hr Hu Hk. eapply (run_between st T m u k); [done..| |done|done|].
  - intros th s c Eth Ec Es [Er Ht] Hs. destruct (ReleaseStore_ok _ c _ _ _ T u th k s u (proj1 Hr) Ec Eth Es) as (th' & s' & a' & c' & T' & E & Hinv & Hclk & Er' & Hval & Hsv). exists th', s', a', c', T'.
    split; [done|]. split; [done|]. split; [done|]. split; [split; [by rewrite Er'|by rewrite Hclk]|]. intros i Hi. cbn [model_step v_sync]. rewrite upd_same. by rewrite Hval, Ht.
  - intros j Hj. cbn [model_step v_sync]. by rewrite upd_other.
Qed.

Lemma run_acq_rel st T m u k : represents st T m -> 0 <= u < nthreads -> 0 <= k < nsyncs -> runs (OAcqRel u k) st m.
Proof.
  intros Hr Hu Hk. eapply (run_between st T m u k); [done..| | |done|].
  - intros th s c Eth Ec Es [Er Ht] Hs. destruct (acq_rel_ok _ c _ _ _ T u th k s u (proj1 Hr) Ec Eth Es) as (th' & s' & a' & c' & T' & E & Hinv & Er' & Hclk & Hval & Hsv). exists th', s', a', c', T'.
    split; [done|]. split; [done|]. split; [done|]. split; [split; [by rewrite Er'|]|]; intros i Hi; cbn [model_step v_thread v_sync]; rewrite upd_same; unfold join.
    + by rewrite Hclk, Ht, Hs.
    + rewrite Hval, Hclk, Ht, Hs by done. lia.
  - intros w Hw. cbn [model_step v_thread]. by rewrite upd_other.
  - intros j Hj. cbn [model_step v_sync]. by rewrite upd_other.
Qed.

Lemma run_reset st T m u k : represents st T m -> 0 <= u < nthreads -> 0 <= k < nsyncs -> runs (OReset u k) st m.
Proof.
  intros Hr Hu Hk. eapply (run_between st T m u k); [done..| |done|done|].
  - intros th s c Eth Ec Es Hth Hs. destruct (reset_ok _ c _ _ _ T k s u (proj1 Hr) Ec Es) as (s' & a' & c' & T' & E & _ & Hinv & Hval & Hsv). exists th, s', a', c', T'. rewrite E, bind_ok, (insert_id (c_threads st)) by done.
    split; [done|]. split; [done|]. split; [done|]. split; [done|]. intros i Hi. cbn [model_step v_sync]. rewrite upd_same. by apply Hval.
  - intros j Hj. cbn [model_step v_sync]. by rewrite upd_other.
Qed.

(** Every operation is simulated. *)
Lemma step_refines st T m o : represents st T m -> allowed nthreads nsyncs o m -> runs o st m.
Proof.
  intros Hr. destruct o; cbn [allowed]; intros Hal.
  - destruct Hal. by apply (run_time st T).
  - destruct Hal. by apply (run_tick st T).
  - destruct Hal. by apply (run_acquire st T).
  - destruct Hal. by apply (run_release st T).
  - destruct Hal. by apply (run_store st T).
  - destruct Hal. by apply (run_acq_rel st T).
  - destruct Hal. by apply (run_reset st T).
  - by apply (run_finish st T).
  - destruct Hal as (? & ? & ?). by apply (run_start st T).
Qed.

Lemma clock_run_refines os : forall st T m, represents st T m -> allowed_run nthreads nsyncs os m -> exists st' T', clock_run os st = Ok st' /\ represents st' T' (model_run os m).
Proof.
  induction os as [|o os IH]; intros st T m Hr; [by exists st, T|]. intros [Ho Hos]. destruct (step_refines st T m o Hr Ho) as (st1 & T1 & E1 & Hr1).
  destruct (IH st1 T1 _ Hr1 Hos) as (st' & T' & E & Hr'). exists st', T'. split; [|done]. unfold clock_run in *. cbn [foldM]. by rewrite E1, bind_ok.
Qed.

(** ** What is observed *)

Lemma thread_time_ok st T m u i : represents st T m -> 0 <= u < nthreads -> tid_ok i -> thread_time st u i = Ok (m.(v_thread) u i).
Proof.
  intros Hr Hu Hi. destruct (represents_found st T m u Hr Hu) as (th & c & Eth & _ & [_ Hth] & (_ & _ & _ & Hl & _)). unfold thread_time, get_thread. rewrite Eth. cbn [res_of_option]. rewrite bind_ok.
  unfold ThreadClock_get. rewrite at_get by (rewrite Hl; unfold tid_ok, kMaxTidInClock in *; lia). by rewrite Hth.
Qed.

Lemma sync_time_ok st T m k i : represents st T m -> 0 <= k < nsyncs -> tid_ok i -> sync_time st k i = Ok (m.(v_sync) k i).
Proof.
  intros Hr Hk Hi. destruct (represents_sync st T m k Hr Hk) as (s & Es & Hs). unfold sync_time, get_sync. rewrite Es. cbn [res_of_option]. rewrite bind_ok. specialize (Hs i Hi). pose proof Hr as ((Hwf & [_ HG] & _) & _). pose proof (HG k s Es) as (_ & Hd & _).
  pose proof Hwf as (_ & _ & HSW & _). destruct (HSW k s Es) as [(Ez & _)|(t & Ht & Hon)].
  - rewrite Ez, (proj2 (Z.ltb_ge i 0)), <- Hs by (unfold tid_ok in Hi; lia). rewrite (value_out _ _ _ i Hd Hi); [done|]. unfold vals_of. rewrite Ez. cbn [Z.eqb]. change (zlen (@nil ClockElem)) with 0. unfold tid_ok in Hi. lia.
  - destruct (store_focus _ _ _ _ _ _ t Hwf Ht) as (Hh & Hok & _). rewrite (vals_of_on T s _ t Ht Hok Hon eq_refl) in *. pose proof Hon as (F1 & F2 & F3). rewrite F3. destruct (Z.ltb_spec i (zlen t.(vals))) as [Hlt|Hge].
    + unfold get, get_clean. rewrite <- Hs. unfold value. destruct (find_dirty s.(dirty_) i); [done|]. assert (Hri : 0 <= i < zlen t.(vals)) by (unfold tid_ok in Hi; lia).
      rewrite (elem_ok_at _ _ _ t _ s i Hh (proj1 Hok) F1 F2 Hri), bind_ok, (read_ok _ _ _ t _ i _ Hh (proj1 Hok) (proj1 Hri) (el_lookup _ _ Hri)), bind_ok. done.
    + rewrite <- Hs. by rewrite (value_out _ _ _ i Hd Hi).
Qed.

(** ** The start *)

Lemma seqZ_elem n k : k ∈ seqZ 0 n <-> 0 <= k < n.
Proof. rewrite elem_of_seqZ. lia. Qed.

Lemma dom_here {X} n (g : gmap Z X) : here n g -> dom g = list_to_set (seqZ 0 n).
Proof. intros Hg. apply set_eq. intros k. rewrite elem_of_dom, <- (Hg k), elem_of_list_to_set, seqZ_elem. done. Qed.

Lemma size_here {X} n (g : gmap Z X) : 0 <= n -> here n g -> Z.of_nat (size g) = n.
Proof. intros Hn Hg. rewrite <- size_dom, (dom_here n g Hg), size_list_to_set by apply NoDup_seqZ. rewrite length_seqZ. lia. Qed.

Lemma first_threads_ok (v : Z -> Z) : nthreads <= kMaxTid ->
  exists thr, foldM (fun u (g : gmap Z ThreadClock) => th ← first_thread v u; Ok (<[u := th]> g)) (seqZ 0 nthreads) ∅ = Ok thr /\
    forall u, thr !! u = if decide (0 <= u < nthreads) then Some (fresh u 1 (v u)) else None.
Proof.
  intros Hn. destruct (foldM_inv (fun us (g : gmap Z ThreadClock) => forall u, g !! u = if decide (u ∈ us) then Some (fresh u 1 (v u)) else None)
    (fun u (g : gmap Z ThreadClock) => th ← first_thread v u; Ok (<[u := th]> g)) (seqZ 0 nthreads) ∅) as (thr & E & Hthr).
  - intros u. by rewrite lookup_empty.
  - intros us w rest g Hus Hm. assert (Hw : 0 <= w < nthreads) by (apply seqZ_elem; rewrite Hus; set_solver +). unfold first_thread. rewrite (fresh_ok w 0 (v w)) by (unfold tid_ok; lia). rewrite bind_ok.
    eexists. split; [done|]. intros u. destruct (decide (u = w)) as [->|Hne]; [rewrite lookup_insert_eq, decide_True by set_solver +; done|]. rewrite lookup_insert_ne, Hm by done.
    destruct (decide (u ∈ us)), (decide (u ∈ us ++ [w])); try done; set_solver.
  - exists thr. split; [done|]. intros u. rewrite Hthr. destruct (decide (u ∈ _)) as [Hin|Hin]; rewrite seqZ_elem in Hin; destruct (decide (0 <= u < nthreads)); done.
Qed.

Lemma start_represents (v : Z -> Z) a cs :
  0 <= nthreads <= kMaxTid -> 0 <= nsyncs -> 128 * (nthreads + nsyncs) + 256 + 128 * nthreads <= sl_limit -> nthreads + nsyncs < 2 ^ 32 - 1 ->
  (forall u, 0 <= u < nthreads -> 0 < v u < 2 ^ 42) -> sl_inv a cs ∅ -> here nthreads cs ->
  exists st, start_clocks a cs nthreads nsyncs v = Ok st /\ represents st ∅ (start_vectors nthreads v).
Proof.
  intros Hn Hm Hroom Hrefs Hv Ha Hcs. destruct (first_threads_ok v ltac:(lia)) as (thr & E & Hthr). unfold start_clocks. rewrite E, bind_ok. eexists. split; [done|]. set (syn := list_to_map _ : gmap Z SyncClock).
  assert (Hsyn : forall k, syn !! k = if decide (0 <= k < nsyncs) then Some SyncClock_init else None).
  { intros k. unfold syn. destruct (decide (0 <= k < nsyncs)) as [Hk|Hk].
    - apply elem_of_list_to_map_1; [rewrite <- list_fmap_compose; cbn; rewrite list_fmap_id; apply NoDup_seqZ|]. apply list_elem_of_fmap. exists k. split; [done|by apply seqZ_elem].
    - apply not_elem_of_list_to_map_1. rewrite <- list_fmap_compose. cbn. rewrite list_fmap_id. by rewrite seqZ_elem. }
  assert (Hht : here nthreads thr) by (intros u; rewrite Hthr; destruct (decide _); split; [by eexists|done|done|intros [? [=]]]).
  assert (Hhs : here nsyncs syn) by (intros u; rewrite Hsyn; destruct (decide _); split; [by eexists|done|done|intros [? [=]]]).
  assert (Hfresh : forall u th, thr !! u = Some th -> 0 <= u < nthreads /\ th = fresh u 1 (v u)) by (intros u th; rewrite Hthr; destruct (decide _); [by intros [= <-]|done]).
  assert (Htid : forall u, 0 <= u < nthreads -> tid_ok u) by (unfold tid_ok; lia).
  assert (Hsem0 : sem ∅ thr ∅).
  { split; [|done]. intros u th Hu. apply Hfresh in Hu as Hu'. destruct Hu' as [Hr ->]. split; [|done]. rewrite <- (insert_id thr u _ Hu). apply fresh_good; [| |by apply Htid|done|by apply Hv].
    - intros w thw [_ ->]%Hfresh. done.
    - intros w. unfold own. destruct (thr !! w) as [thw|] eqn:Ew; [|done]. apply Hfresh in Ew as [Hw ->]. rewrite fresh_at, Z.eqb_refl by (by apply Htid). specialize (Hv w Hw). lia. }
  assert (Hinit : forall k s, syn !! k = Some s -> s = SyncClock_init) by (intros k s; rewrite Hsyn; destruct (decide _); [by intros [= <-]|done]).
  split; [split; [|split]|]; cbn [c_alloc c_caches c_threads c_syncs].
  - split; [exists ∅; split; [done|]; unfold blocks; by rewrite !map_to_list_empty|]. split; [intros i t; by rewrite lookup_empty|]. split; [intros k s ->%Hinit; by left|]. intros u th [_ ->]%Hfresh. by left.
  - split; [apply Hsem0|]. intros k s ->%Hinit. by apply (reset_good ∅ thr ∅ _ [MkDirty 0 0; MkDirty 0 0]).
  - unfold roomy. rewrite (size_here nthreads thr), (size_here nsyncs syn), (size_here nthreads cs) by (done || lia). lia.
  - split; [done|]. split; [done|]. split; [done|]. split.
    + intros u th [Hr ->]%Hfresh. split; [done|]. intros i Hi. rewrite fresh_at by (by apply Htid). cbn [start_vectors v_thread]. rewrite (proj2 (Z.leb_le 0 u)), (proj2 (Z.ltb_lt u nthreads)) by lia. cbn [andb]. unfold upd. rewrite Z.eqb_sym. by destruct (i =? u).
    + intros k s ->%Hinit i Hi. cbn [SyncClock_init ResetImpl dirty_]. rewrite value_no_dirty by done. change (vals_of ∅ _) with (@nil ClockElem). rewrite el_out; [done|]. change (zlen (@nil ClockElem)) with 0. unfold tid_ok in Hi. lia.
Qed.

(** A state nobody refers to a table in has no tables. *)
Lemma unreferenced st T m :
  represents st T m -> (forall u th, st.(c_threads) !! u = Some th -> th.(cached_idx_) = 0) -> (forall k s, st.(c_syncs) !! k = Some s -> s.(size_) = 0) -> sl_inv st.(c_alloc) st.(c_caches) ∅.
Proof.
  intros ((((live & Hl & Hp) & HT & _) & _) & _) Hthr Hsyn. assert (T = ∅) as ->.
  { apply map_empty. intros i. destruct (T !! i) as [t|] eqn:Ei; [|done]. destruct (HT i t Ei) as (_ & ((_ & _ & _ & Hr) & _) & _ & Hrefs). unfold refs in Hrefs. rewrite !count_zero in Hrefs; [lia|..].
    - intros u th Hu. unfold caches_tab. by rewrite (Hthr u th Hu).
    - intros k s Hs. unfold uses. by rewrite (Hsyn k s Hs). }
  unfold blocks in Hp. rewrite map_to_list_empty in Hp. cbn in Hp. apply Permutation_nil_r, map_to_list_empty_iff in Hp as ->. done.
Qed.
End Refine.

(** ** The runtime's clocks

    [ctx->clock_alloc], with the sizes of the source; a block has
    [kTableSize] words. *)

Definition kClockL1 : Z := Z.shiftl 1 16.
Definition kClockL2 : Z := Z.shiftl 1 10.

#[export] Instance clock_sizes : SlabSizes kClockL1 kClockL2 kTableSize.
Proof. done. Qed.

#[local] Existing Instance slab_ops.
#[local] Existing Instance slab_laws.
#[local] Abbreviation clk_ops := (slab_ops kClockL1 kClockL2 kTableSize).

#[export] Instance clock_blocks : @ClockBlocks DenseSlabAlloc DenseSlabAllocCache clk_ops (slab_laws kClockL1 kClockL2 kTableSize).
Proof. done. Qed.

Definition clocks_init (nthreads nsyncs : Z) (v : Z -> Z) : res (clocks DenseSlabAlloc DenseSlabAllocCache) :=
  a ← DenseSlabAlloc_init kClockL1 kClockL2 kTableSize;
  start_clocks a (gset_to_gmap InitCache (list_to_set (seqZ 0 nthreads))) nthreads nsyncs v.

(** Threads and objects for which the allocator has enough blocks. *)
Definition fits (nthreads nsyncs : Z) (v : Z -> Z) : Prop :=
  0 <= nthreads <= kMaxTid /\ 0 <= nsyncs /\ 128 * (2 * nthreads + nsyncs) + 256 < kClockL1 * kClockL2 /\ forall u, 0 <= u < nthreads -> 0 < v u < 2 ^ 42.

Lemma init_represents nthreads nsyncs v : fits nthreads nsyncs v ->
  exists st, clocks_init nthreads nsyncs v = Ok st /\ represents (H0 := slab_laws kClockL1 kClockL2 kTableSize) nthreads nsyncs st ∅ (start_vectors nthreads v).
Proof.
  intros (Hn & Hm & Hroom & Hv). unfold clocks_init. destruct (DenseSlabAlloc_init kClockL1 kClockL2 kTableSize) as [a|] eqn:Ea; [|done]. rewrite bind_ok. change (kClockL1 * kClockL2) with 67108864 in Hroom.
  apply start_represents; try done; [change (@sl_limit _ _ _ _) with 67108863; lia|lia|by apply slab_init_inv|]. intros k. rewrite lookup_gset_to_gmap. destruct (decide (0 <= k < nthreads)) as [Hk|Hk].
  - rewrite option_guard_True by (rewrite elem_of_list_to_set; by apply seqZ_elem). split; [by eexists|done].
  - rewrite option_guard_False by (rewrite elem_of_list_to_set; by rewrite seqZ_elem). split; [done|by intros [? [=]]].
Qed.

Lemma clocks_run_represents nthreads nsyncs v os : fits nthreads nsyncs v -> allowed_run nthreads nsyncs os (start_vectors nthreads v) ->
  exists st0 st T, clocks_init nthreads nsyncs v = Ok st0 /\ clock_run (H := clk_ops) os st0 = Ok st /\
    represents (H0 := slab_laws kClockL1 kClockL2 kTableSize) nthreads nsyncs st T (model_run os (start_vectors nthreads v)).
Proof.
  intros Hf Hos. destruct (init_represents nthreads nsyncs v Hf) as (st0 & E0 & Hr0). destruct (clock_run_refines nthreads nsyncs os st0 ∅ _ Hr0 Hos) as (st & T & E & Hr). by exists st0, st, T.
Qed.

(** ** What the runtime gets *)

(** C4: However threads and objects are used, the clocks of [tsan_clock.cc] (tables in 512-byte blocks shared by
    reference counts, dirty entries, the cached table of a thread, the flags that let [acquire] and [release] skip
    the table) do what the comment at the top of the file says of plain vectors: with at most [kMaxTid] threads and
    blocks for all clocks in the allocator, every sequence of operations in which a thread's own time does not go
    back runs without an error, and every entry of every clock is the entry of the simple model. *)
Theorem clocks_refine_vectors nthreads nsyncs v os :
  fits nthreads nsyncs v -> allowed_run nthreads nsyncs os (start_vectors nthreads v) ->
  exists st0 st, clocks_init nthreads nsyncs v = Ok st0 /\ clock_run (H := clk_ops) os st0 = Ok st /\ let m := model_run os (start_vectors nthreads v) in
    (forall u i, 0 <= u < nthreads -> 0 <= i < kMaxTid -> thread_time st u i = Ok (m.(v_thread) u i)) /\
    (forall k i, 0 <= k < nsyncs -> 0 <= i < kMaxTid -> sync_time (H := clk_ops) st k i = Ok (m.(v_sync) k i)).
Proof.
  intros Hf Hos. destruct (clocks_run_represents nthreads nsyncs v os Hf Hos) as (st0 & st & T & E0 & E & Hr). exists st0, st. split; [done|]. split; [done|]. split; intros.
  - by eapply thread_time_ok.
  - by eapply sync_time_ok.
Qed.

(** The fields of an object's clock fit their types: [u16] sizes, a [u32]
    index, two dirty entries of 42 and 22 bits. *)
Definition sync_typed (s : SyncClock) : Prop :=
  0 <= s.(size_) <= kMaxTid /\ 0 <= s.(blocks_) < kTableSize /\ 0 <= s.(tab_idx_) < 2 ^ 32 /\ (s.(size_) = 0 <-> s.(tab_idx_) = 0) /\ length s.(dirty_) = 2%nat /\
  Forall (fun d => d.(d_tid) = kInvalidTid \/ 0 <= d.(d_tid) < s.(size_) /\ 0 < d.(d_epoch) < 2 ^ 42) s.(dirty_).

Lemma represents_typed {A C} `{ClockBlocks A C} nthreads nsyncs (st : clocks A C) T m k s : represents nthreads nsyncs st T m -> st.(c_syncs) !! k = Some s -> sync_typed s.
Proof.
  intros ((Hwf & [_ HG] & _) & _) Hs. destruct (HG k s Hs) as (_ & Hd & _). pose proof Hd as (d0 & d1 & El & _ & Hd'). assert (Hlen : length s.(dirty_) = 2%nat) by (by rewrite El). pose proof Hwf as (_ & _ & HSW & _).
  assert (Hdirty : forall n, vals_of T s = [] \/ zlen (vals_of T s) = n -> Forall (fun d => d.(d_tid) = kInvalidTid \/ 0 <= d.(d_tid) < n /\ 0 < d.(d_epoch) < 2 ^ 42) s.(dirty_)).
  { intros n Hn. apply Forall_forall. intros d Hin. destruct (valid d) eqn:Ev; [right|left; unfold valid in Ev; by apply negb_false_iff, Z.eqb_eq in Ev].
    destruct (Hd' d Hin Ev) as (D1 & D2 & D3 & _). destruct Hn as [Hn|<-]; [|lia]. rewrite Hn in D1. change (zlen (@nil ClockElem)) with 0 in D1. lia. }
  destruct (HSW k s Hs) as [(Ez & Eb & Et & Ei)|(t & Ht & Hon)].
  - unfold sync_typed. rewrite Ez, Eb, Ei, kMaxTid_val. unfold kTableSize. repeat (split; [lia|]). apply Hdirty. left. unfold vals_of. by rewrite Ez.
  - destruct (store_focus _ _ _ _ _ _ t Hwf Ht) as (Hh & Hok & Hmax & _). pose proof Hon as (_ & Eb & Ez). pose proof Hok as ((Hids & _) & Hp & _). assert (Hidx : 0 < s.(tab_idx_) < 2 ^ 32) by (eapply heap_load; [exact Hh|cbn [pieces app]; left]).
    unfold sync_typed. rewrite Ez, Eb. unfold kTableSize. pose proof (zlen_nonneg t.(ids)). repeat (split; [lia|]). apply Hdirty. right. by rewrite (vals_of_on T s _ t Ht Hok Hon eq_refl).
Qed.

(** C20: In every state that the clocks reach, every clock is well-formed: a thread's clock has its number, a vector of
    [kMaxTidInClock] times of 42 bits that are 0 from [nclk_] on, a last acquire not after its own time, an
    incarnation of 22 bits; an object's clock has sizes and indices that fit their fields, a table exactly when it is
    not empty, and dirty entries for threads it has room for. *)
Theorem clocks_well_typed nthreads nsyncs v os :
  fits nthreads nsyncs v -> allowed_run nthreads nsyncs os (start_vectors nthreads v) ->
  exists st0 st, clocks_init nthreads nsyncs v = Ok st0 /\ clock_run (H := clk_ops) os st0 = Ok st /\
    (forall u, 0 <= u < nthreads -> exists th, st.(c_threads) !! u = Some th /\ thread_ok u th) /\
    (forall k, 0 <= k < nsyncs -> exists s, st.(c_syncs) !! k = Some s /\ sync_typed s).
Proof.
  intros Hf Hos. destruct (clocks_run_represents nthreads nsyncs v os Hf Hos) as (st0 & st & T & E0 & E & Hr). exists st0, st. split; [done|]. split; [done|]. split.
  - intros u Hu. destruct (represents_found _ _ st T _ u Hr Hu) as (th & _ & Eth & _ & _ & Hok). by exists th.
  - intros k Hk. destruct (represents_sync _ _ st T _ k Hr Hk) as (s & Es & _). exists s. split; [done|]. exact (represents_typed nthreads nsyncs st T _ k s Hr Es).
Qed.

(** C21: No block is lost and none is freed twice: in a state that the clocks reach and in which every object is reset
    and no thread has a cached table, every index that the allocator ever handed out is again in its free list or in
    the cache of a thread, and there only once. *)
Theorem clocks_free_blocks nthreads nsyncs v os st0 st :
  fits nthreads nsyncs v -> allowed_run nthreads nsyncs os (start_vectors nthreads v) ->
  clocks_init nthreads nsyncs v = Ok st0 -> clock_run (H := clk_ops) os st0 = Ok st ->
  (forall u th, st.(c_threads) !! u = Some th -> th.(cached_idx_) = 0) -> (forall k s, st.(c_syncs) !! k = Some s -> s.(size_) = 0) ->
  exists fl, chain kClockL1 kClockL2 st.(c_alloc) st.(c_alloc).(freelist_) fl /\ fl ++ cached st.(c_caches) ≡ₚ seqZ 1 (st.(c_alloc).(fillpos_) * kClockL2 - 1).
Proof.
  intros Hf Hos E0 E Hthr Hsyn. destruct (clocks_run_represents nthreads nsyncs v os Hf Hos) as (st0' & st' & T & E0' & E' & Hr). assert (st0' = st0) as -> by congruence. assert (st' = st) as -> by congruence.
  destruct (unreferenced _ _ st T _ Hr Hthr Hsyn) as (fl & _ & _ & Hc & Hp & _). exists fl. split; [done|]. rewrite <- Hp. unfold keys. by rewrite map_to_list_empty, app_nil_r.
Qed.

(** ** Two threads and two objects *)

Definition demo_ops : list clock_op :=
  [OTime 0 5; ORelease 0 0; OTick 1; OAcquire 1 0; OReleaseStore 1 1; OTick 1; OReleaseStore 1 0; OAcqRel 0 1; OStart 1 7; ORelease 1 0; OFinish 0; OFinish 1; OReset 0 0; OReset 1 1].

Lemma demo_fits : fits 2 2 (fun _ => 1).
Proof. split; [rewrite kMaxTid_val; lia|]. split; [lia|]. split; [done|lia]. Qed.

Lemma demo_allowed : allowed_run 2 2 demo_ops (start_vectors 2 (fun _ => 1)).
Proof. repeat split; vm_compute; (discriminate || reflexivity). Qed.

(** Every object is reset and no thread has a cached table. *)
Definition idle {A C} (st : clocks A C) : bool :=
  forallb (fun ut => ut.2.(cached_idx_) =? 0) (map_to_list st.(c_threads)) && forallb (fun ks => ks.2.(size_) =? 0) (map_to_list st.(c_syncs)).

Lemma idle_spec {A C} (st : clocks A C) : idle st = true ->
  (forall u th, st.(c_threads) !! u = Some th -> th.(cached_idx_) = 0) /\ (forall k s, st.(c_syncs) !! k = Some s -> s.(size_) = 0).
Proof.
  intros [H1 H2]%andb_true_iff. rewrite forallb_forall in H1, H2. split; intros k x Hx%elem_of_map_to_list; apply Z.eqb_eq; [apply (H1 (k, x))|apply (H2 (k, x))]; by apply list_elem_of_In.
Qed.

Lemma demo_ops_idle : (st0 ← clocks_init 2 2 (fun _ => 1); st ← clock_run (H := clk_ops) demo_ops st0; Ok (idle st)) = Ok true.
Proof. vm_compute. reflexivity. Qed.

Lemma clocks_refine_vectors_witness : exists st0 st, clocks_init 2 2 (fun _ => 1) = Ok st0 /\ clock_run (H := clk_ops) (take 5 demo_ops) st0 = Ok st /\
  thread_time st 1 0 = Ok 5 /\ sync_time (H := clk_ops) st 1 0 = Ok 5 /\ sync_time (H := clk_ops) st 1 1 = Ok 2.
Proof.
  destruct (clocks_refine_vectors 2 2 (fun _ => 1) (take 5 demo_ops)) as (st0 & st & E0 & E & Ht & Hs).
  - apply demo_fits.
  - repeat split; vm_compute; (discriminate || reflexivity).
  - exists st0, st. split; [exact E0|]. split; [exact E|]. split; [apply (Ht 1 0); rewrite ?kMaxTid_val; lia|]. split; [apply (Hs 1 0)|apply (Hs 1 1)]; rewrite ?kMaxTid_val; lia.
Defined.

Lemma clocks_well_typed_witness : exists st0 st, clocks_init 2 2 (fun _ => 1) = Ok st0 /\ clock_run (H := clk_ops) demo_ops st0 = Ok st /\ exists s, st.(c_syncs) !! 1 = Some s /\ sync_typed s.
Proof.
  destruct (clocks_well_typed 2 2 (fun _ => 1) demo_ops demo_fits demo_allowed) as (st0 & st & E0 & E & _ & Hs). exists st0, st. split; [exact E0|]. split; [exact E|]. apply (Hs 1). lia.
Defined.

Lemma clocks_free_blocks_witness : exists st0 st fl, clocks_init 2 2 (fun _ => 1) = Ok st0 /\ clock_run (H := clk_ops) demo_ops st0 = Ok st /\
  chain kClockL1 kClockL2 st.(c_alloc) st.(c_alloc).(freelist_) fl /\ fl ++ cached st.(c_caches) ≡ₚ seqZ 1 (st.(c_alloc).(fillpos_) * kClockL2 - 1).
Proof.
  pose proof demo_ops_idle as Hi. destruct (clocks_init 2 2 (fun _ => 1)) as [st0|] eqn:E0; [rewrite bind_ok in Hi|discriminate]. destruct (clock_run demo_ops st0) as [st|] eqn:E; [rewrite bind_ok in Hi|discriminate].
  injection Hi as Hi. destruct (idle_spec st Hi) as [Ht Hs]. destruct (clocks_free_blocks 2 2 (fun _ => 1) demo_ops st0 st demo_fits demo_allowed E0 E Ht Hs) as (fl & Hc & Hp). exists st0, st, fl. repeat split; assumption.
Defined.
