(* ===== verification/Reach.v ===== *)
(** * Happens-before in the predictor

    [VectorClock] and [NewReachEngine] of [src/ufo-predict/src/main/java/aser/ufo].
    A first pass over the traces collects the synchronisation nodes
    (SyncLoader.v); [postprocessing] then matches them to edges between
    threads, keeps a vector clock for every end of an edge, and [canReach]
    decides from those clocks whether one node is ordered before another.

    The static fields of the engine are the record [engine]; nodes carry their
    global id, as in Reader.v.  A clock of [tidToVCs] is changed in place and
    those of [long2VCs] are copies, so no two of them share an array. *)
From stdpp Require Import base numbers list gmap sorting.
From Stdlib Require Import ZArith Lia.
From S2P Require Import Prelude Reader.

Local Open Scope Z_scope.

(** ** [VectorClock] *)

Record VectorClock : Type := MkVC {
  timestamps : list Z;
  vc_tid : Z;
}.

(** [new VectorClock(idx)], with the static [CLOCK_LENGTH]. *)
Definition new_VC (CLOCK_LENGTH idx : Z) : VectorClock := MkVC (replicate (Z.to_nat CLOCK_LENGTH) 0) idx.

Definition VC_tick (v : VectorClock) : res VectorClock :=
  x ← aget v.(timestamps) v.(vc_tid);
  ts ← aset v.(timestamps) v.(vc_tid) (s32 (x + 1));
  Ok (MkVC ts v.(vc_tid)).

Definition VC_join (v w : VectorClock) : res VectorClock :=
  ts ← foldM (fun i ts =>
      a ← aget ts i;
      b ← aget w.(timestamps) i;
      if a <? b then aset ts i b else Ok ts) (seqZ 0 (zlen v.(timestamps))) v.(timestamps);
  Ok (MkVC ts v.(vc_tid)).

Fixpoint happens_from (l : list Z) (v w : list Z) : res bool :=
  match l with
  | [] => Ok true
  | i :: l =>
    a ← aget v i;
    b ← aget w i;
    if b <? a then Ok false else happens_from l v w
  end.

Definition happensBefore (v w : VectorClock) : res bool :=
  happens_from (seqZ 0 (zlen v.(timestamps))) v.(timestamps) w.(timestamps).

(** ** [NewReachEngine] *)

Abbreviation gnode := (Z * node)%type.

Definition gid (n : gnode) : Z := n.1.

(** [AbstractNode.tid] *)
Definition node_tid (n : node) : Z :=
  match n with
  | TBeginNode t _ _ | TEndNode t _ _ | TStartNode _ t _ _ _ | TJoinNode _ t _ _ _
  | LockNode t _ _ | UnlockNode t _ _ | AllocNode t _ _ _ | DeallocNode t _ _ _
  | RangeReadNode t _ _ _ _ | RangeWriteNode t _ _ _ _ | ReadNode t _ _ _ _ _ | WriteNode t _ _ _ _ _
  | PtrPropNode t _ _ _ | FuncEntryNode t _ | FuncExitNode t
  | WaitNode _ t _ _ _ | NotifyNode _ t _ _ | NotifyAllNode _ t _ _ => t
  end.

Definition tid (n : gnode) : Z := node_tid n.2.

(** [ISyncNode.getIndex], of the nodes the engine orders *)
Definition getIndex (n : gnode) : Z :=
  match n.2 with
  | TStartNode i _ _ _ _ | TJoinNode i _ _ _ _ | WaitNode i _ _ _ _ | NotifyNode i _ _ _ | NotifyAllNode i _ _ _ => i
  | _ => -1
  end.

Record engine : Type := MkEngine {
  tidFirstNode : gmap Z gnode;
  tidLastNode : gmap Z gnode;
  orderedSyncNodeList : list gnode;
  cur_order_index : Z;
  cond2WaitNotifyLs : gmap Z (list gnode);
  long2VCs : gmap Z VectorClock;
  tidToVCs : gmap Z VectorClock;
  tid2GidsMap : gmap Z (list Z);
  tid2IndexMap : gmap Z Z;
  clock_length : Z;
}.

(** The static fields at the start. *)
Definition engine_init : engine := MkEngine ∅ ∅ [] 0 ∅ ∅ ∅ ∅ ∅ 0.

Implicit Types (e : engine) (n : gnode).

Definition set_first e m := MkEngine m e.(tidLastNode) e.(orderedSyncNodeList) e.(cur_order_index) e.(cond2WaitNotifyLs) e.(long2VCs) e.(tidToVCs) e.(tid2GidsMap) e.(tid2IndexMap) e.(clock_length).
Definition set_last e m := MkEngine e.(tidFirstNode) m e.(orderedSyncNodeList) e.(cur_order_index) e.(cond2WaitNotifyLs) e.(long2VCs) e.(tidToVCs) e.(tid2GidsMap) e.(tid2IndexMap) e.(clock_length).
Definition set_ordered e l i := MkEngine e.(tidFirstNode) e.(tidLastNode) l i e.(cond2WaitNotifyLs) e.(long2VCs) e.(tidToVCs) e.(tid2GidsMap) e.(tid2IndexMap) e.(clock_length).
Definition set_waits e m := MkEngine e.(tidFirstNode) e.(tidLastNode) e.(orderedSyncNodeList) e.(cur_order_index) m e.(long2VCs) e.(tidToVCs) e.(tid2GidsMap) e.(tid2IndexMap) e.(clock_length).
Definition set_clocks e m t := MkEngine e.(tidFirstNode) e.(tidLastNode) e.(orderedSyncNodeList) e.(cur_order_index) e.(cond2WaitNotifyLs) m t e.(tid2GidsMap) e.(tid2IndexMap) e.(clock_length).
Definition set_gids e m := MkEngine e.(tidFirstNode) e.(tidLastNode) e.(orderedSyncNodeList) e.(cur_order_index) e.(cond2WaitNotifyLs) e.(long2VCs) e.(tidToVCs) m e.(tid2IndexMap) e.(clock_length).
Definition set_ids e m len := MkEngine e.(tidFirstNode) e.(tidLastNode) e.(orderedSyncNodeList) e.(cur_order_index) e.(cond2WaitNotifyLs) e.(long2VCs) e.(tidToVCs) e.(tid2GidsMap) m len.

(** *** Collecting *)

Definition saveToThreadFirstNode e (t : Z) n : engine := set_first e (<[t := n]> e.(tidFirstNode)).
Definition saveToThreadLastNode e (t : Z) n : engine := set_last e (<[t := n]> e.(tidLastNode)).

(** The loop: the first position from [i] on whose node is not before. *)
Fixpoint order_position (gindex : Z) (l : list gnode) (i : Z) : Z :=
  match l with
  | [] => i
  | n :: l => if gindex <=? getIndex n then i else order_position gindex l (i + 1)
  end.

(** [ArrayList.add(i, x)] *)
Definition list_add {X} (l : list X) (i : Z) (x : X) : res (list X) :=
  if (0 <=? i) && (i <=? zlen l) then Ok (ztake i l ++ x :: zdrop i l) else Err EOutOfBounds.

Definition addToOrderedSyncList e n : res engine :=
  let i := order_position (getIndex n) (zdrop e.(cur_order_index) e.(orderedSyncNodeList)) e.(cur_order_index) in
  l ← list_add e.(orderedSyncNodeList) i n;
  Ok (set_ordered e l i).

(** [setThreadIdsVectorClock] *)
Definition setThreadIdsVectorClock e (ids : list Z) : engine :=
  set_ids e (foldl (fun m ti => <[ti.2 := s16 ti.1]> m) e.(tid2IndexMap) (zip (seqZ 0 (zlen ids)) ids)) (s16 (zlen ids)).

(** *** Edges *)

Definition getThreadVectorClock e (t : Z) : VectorClock :=
  match e.(tidToVCs) !! t with
  | Some v => v
  | None => new_VC e.(clock_length) (default 0 (e.(tid2IndexMap) !! t))
  end.

(** The loop from the end of the list for a place after a smaller id. *)
Fixpoint insert_down (i : nat) (g : Z) (gids : list Z) : res (list Z) :=
  match i with
  | O => Ok gids
  | S j =>
    x ← aget gids (Z.of_nat j);
    if x <? g then list_add gids (Z.of_nat j + 1) g else insert_down j g gids
  end.

Definition insert_gid (gids : list Z) (g : Z) : res (list Z) :=
  x ← aget gids 0;
  if g <? x then list_add gids 0 g else insert_down (length gids) g gids.

Definition addSyncGidToTidList e (t g : Z) : res engine :=
  match e.(tid2GidsMap) !! t with
  | None => Ok (set_gids e (<[t := [g]]> e.(tid2GidsMap)))
  | Some gids => gids ← insert_gid gids g; Ok (set_gids e (<[t := gids]> e.(tid2GidsMap)))
  end.

Definition addEdge e from to : res engine :=
  if tid from =? tid to then Ok e else
  e ← addSyncGidToTidList e (tid from) (gid from);
  e ← addSyncGidToTidList e (tid to) (gid to);
  tid1VC ← VC_tick (getThreadVectorClock e (tid from));
  tid2VC ← VC_tick (getThreadVectorClock e (tid to));
  let vc1 := tid1VC in
  vc2 ← VC_join tid2VC vc1;
  Ok (set_clocks e (<[gid to := vc2]> (<[gid from := vc1]> e.(long2VCs))) (<[tid to := tid2VC]> (<[tid from := tid1VC]> e.(tidToVCs)))).

(** [for (wait : waits) addEdge(node, wait)] *)
Definition add_edges e n (waits : list gnode) : res engine := foldM (fun w e => addEdge e n w) waits e.

(** The body of the loop of [postprocessing]. *)
Definition process e n : res engine :=
  match n.2 with
  | TStartNode _ _ tidKid _ _ =>
    match e.(tidFirstNode) !! tidKid with Some fnode => addEdge e n fnode | None => Ok e end
  | TJoinNode _ _ tid_join _ _ =>
    match e.(tidLastNode) !! tid_join with Some lnode => addEdge e lnode n | None => Ok e end
  | WaitNode _ _ cond _ _ =>
    Ok (set_waits e (<[cond := default [] (e.(cond2WaitNotifyLs) !! cond) ++ [n]]> e.(cond2WaitNotifyLs)))
  | NotifyNode _ _ cond _ =>
    match e.(cond2WaitNotifyLs) !! cond with
    | Some (wait :: rest) => addEdge (set_waits e (<[cond := rest]> e.(cond2WaitNotifyLs))) n wait
    | _ => Ok e
    end
  | NotifyAllNode _ _ cond _ =>
    match e.(cond2WaitNotifyLs) !! cond with
    | Some waits => add_edges (set_waits e (<[cond := []]> e.(cond2WaitNotifyLs))) n waits
    | None => Ok e
    end
  | _ => Ok e
  end.

Definition postprocessing e : res engine := foldM (fun n e => process e n) e.(orderedSyncNodeList) e.

(** *** The question *)

Fixpoint find_down (g : Z) (gids : list Z) : Z :=
  match gids with
  | [] => 0
  | x :: gids => if g <? x then x else find_down g gids
  end.

Definition findSyncGidDown e (t g : Z) : Z := find_down g (default [] (e.(tid2GidsMap) !! t)).

(** the loop from the end of the list *)
Fixpoint find_up (g : Z) (rev_gids : list Z) : Z :=
  match rev_gids with
  | [] => 0
  | x :: rev_gids => if x <? g then x else find_up g rev_gids
  end.

Definition findSyncGidUp e (t g : Z) : Z := find_up g (rev (default [] (e.(tid2GidsMap) !! t))).

Definition canReach e n1 n2 : res bool :=
  if tid n1 =? tid n2 then Ok (gid n1 <=? gid n2) else
  let gid1_down := findSyncGidDown e (tid n1) (gid n1) in
  if gid1_down =? 0 then Ok false else
  let gid2_up := findSyncGidUp e (tid n2) (gid n2) in
  if gid2_up =? 0 then Ok false else
  vc1 ← res_of_option ENull (e.(long2VCs) !! gid1_down);
  vc2 ← res_of_option ENull (e.(long2VCs) !! gid2_up);
  happensBefore vc1 vc2.

(** ** The edges *)

Abbreviation edge := (gnode * gnode)%type.

(** What [postprocessing] matches at a node: a thread's start with its first
    node, its last node with a join, a signal with the longest waiting node of
    its condition, a broadcast with all of them. *)
Definition matched (first last : gmap Z gnode) (waits : gmap Z (list gnode)) n : list edge * gmap Z (list gnode) :=
  match n.2 with
  | TStartNode _ _ kid _ _ => (match first !! kid with Some f => [(n, f)] | None => [] end, waits)
  | TJoinNode _ _ kid _ _ => (match last !! kid with Some f => [(f, n)] | None => [] end, waits)
  | WaitNode _ _ cond _ _ => ([], <[cond := default [] (waits !! cond) ++ [n]]> waits)
  | NotifyNode _ _ cond _ =>
    match waits !! cond with
    | Some (w :: ws) => ([(n, w)], <[cond := ws]> waits)
    | _ => ([], waits)
    end
  | NotifyAllNode _ _ cond _ =>
    match waits !! cond with
    | Some ws => (pair n <$> ws, <[cond := []]> waits)
    | None => ([], waits)
    end
  | _ => ([], waits)
  end.

Fixpoint matches (first last : gmap Z gnode) (waits : gmap Z (list gnode)) (l : list gnode) : list edge :=
  match l with
  | [] => []
  | n :: l => (matched first last waits n).1 ++ matches first last (matched first last waits n).2 l
  end.

Definition apart (ed : edge) : bool := negb (tid ed.1 =? tid ed.2).

(** The edges between threads, the latest first. *)
Definition edges_of e : list edge := rev (filter (fun ed => apart ed = true) (matches e.(tidFirstNode) e.(tidLastNode) ∅ e.(orderedSyncNodeList))).

Implicit Types (R : list edge) (ed : edge) (t g : Z).

Definition touches ed t : bool := (tid ed.1 =? t) || (tid ed.2 =? t).

Definition edges_at R t : Z := zlen (filter (fun ed => touches ed t = true) R).

(** The latest edge at the node [g], and how many edges there are up to it. *)
Fixpoint latest R g : option (Z * edge) :=
  match R with
  | [] => None
  | ed :: R' => if (gid ed.2 =? g) || (gid ed.1 =? g) then Some (zlen R, ed) else latest R' g
  end.

Definition ends_at ed t g : Prop := tid ed.1 = t /\ gid ed.1 = g \/ tid ed.2 = t /\ gid ed.2 = g.

(** A node of thread [t] with an edge. *)
Definition sync_point R t g : Prop := exists ed, ed ∈ R /\ ends_at ed t g.

Lemma edges_at_cons ed R t : edges_at (ed :: R) t = edges_at R t + if touches ed t then 1 else 0.
Proof. unfold edges_at, zlen. rewrite filter_cons. destruct (touches ed t); [rewrite decide_True by done|rewrite decide_False by done]; cbn [length]; lia. Qed.

Lemma edges_at_nonneg R t : 0 <= edges_at R t <= zlen R.
Proof. unfold edges_at, zlen. pose proof (length_filter (fun ed => touches ed t = true) R). lia. Qed.

(** ** Clocks as functions *)

Section Clocks.
Context (len : Z).
Implicit Types (f : Z -> Z).

Definition stamp f : list Z := f <$> seqZ 0 len.

Definition one (i c : Z) : Z -> Z := fun j => if j =? i then c else 0.

Lemma stamp_get f i : 0 <= i < len -> stamp f !! Z.to_nat i = Some (f i).
Proof. intros Hi. unfold stamp. rewrite list_lookup_fmap, lookup_seqZ_lt by lia. cbn. f_equal. f_equal. lia. Qed.

Lemma zlen_stamp f : 0 <= len -> zlen (stamp f) = len.
Proof. intros Hl. unfold stamp. rewrite zlen_fmap. unfold zlen. rewrite length_seqZ. lia. Qed.

Lemma stamp_ext f f' : (forall i, 0 <= i < len -> f i = f' i) -> stamp f = stamp f'.
Proof. intros Hf. unfold stamp. apply list_fmap_ext. intros k x Hx. apply lookup_seqZ in Hx as [-> Hk]. apply Hf. lia. Qed.

Lemma stamp_put f i x : 0 <= i < len -> <[Z.to_nat i := x]> (stamp f) = stamp (fun j => if j =? i then x else f j).
Proof.
  intros Hi. apply list_eq. intros k. destruct (decide (Z.of_nat k < len)) as [Hk|Hk].
  - rewrite <- (Nat2Z.id k), (stamp_get _ (Z.of_nat k)) by lia. destruct (Z.eqb_spec (Z.of_nat k) i) as [<-|Hne].
    + rewrite list_lookup_insert_eq; [done|]. pose proof (zlen_stamp f ltac:(lia)) as Hl. unfold zlen in Hl. lia.
    + rewrite list_lookup_insert_ne by lia. apply stamp_get. lia.
  - rewrite !lookup_ge_None_2; [done|..]; rewrite ?length_insert; unfold stamp; rewrite length_fmap, length_seqZ; lia.
Qed.

Lemma new_VC_stamp i : new_VC len i = MkVC (stamp (fun _ => 0)) i.
Proof.
  unfold new_VC. f_equal. apply list_eq. intros k. destruct (decide (Z.of_nat k < len)) as [Hk|Hk].
  - rewrite lookup_replicate_2 by lia. rewrite <- (Nat2Z.id k). symmetry. apply (stamp_get (fun _ => 0)). lia.
  - rewrite !lookup_ge_None_2; [done|..]; unfold stamp; rewrite ?length_fmap, ?length_seqZ, ?length_replicate; lia.
Qed.

Lemma tick_stamp f i : 0 <= i < len -> - 2 ^ 31 <= f i + 1 < 2 ^ 31 -> VC_tick (MkVC (stamp f) i) = Ok (MkVC (stamp (fun j => if j =? i then f i + 1 else f j)) i).
Proof.
  intros Hi Hf. unfold VC_tick. cbn [timestamps vc_tid]. rewrite (aget_lookup _ i (f i)) by (lia || by apply stamp_get). rewrite bind_ok, aset_ok by (rewrite zlen_stamp; lia). rewrite bind_ok.
  unfold s32. rewrite swrap_small by lia. by rewrite stamp_put.
Qed.

Lemma join_stamp f f' i w : 0 <= len -> VC_join (MkVC (stamp f) i) (MkVC (stamp f') w) = Ok (MkVC (stamp (fun j => Z.max (f j) (f' j))) i).
Proof.
  intros Hl. unfold VC_join. cbn [timestamps vc_tid]. rewrite zlen_stamp by done.
  destruct (foldM_inv (fun us ts => ts = stamp (fun j => if j <? zlen us then Z.max (f j) (f' j) else f j))
    (fun i ts => a ← aget ts i; b ← aget (stamp f') i; if a <? b then aset ts i b else Ok ts) (seqZ 0 len) (stamp f)) as (ts & E & ->).
  - apply stamp_ext. intros j Hj. change (zlen (@nil Z)) with 0. rewrite (proj2 (Z.ltb_ge j 0)) by lia. done.
  - intros us x rest ts Hsplit ->. assert (x = zlen us /\ zlen us < len) as [-> Hx].
    { assert (Hlk : seqZ 0 len !! length us = Some x) by (rewrite Hsplit, lookup_app_r, Nat.sub_diag by lia; done). apply lookup_seqZ in Hlk as [-> ?]. unfold zlen. lia. }
    pose proof (zlen_nonneg us). rewrite (aget_lookup (stamp (fun j => if j <? zlen us then Z.max (f j) (f' j) else f j)) (zlen us) (f (zlen us))); [|lia|rewrite stamp_get by lia; cbn beta; by rewrite Z.ltb_irrefl].
    rewrite bind_ok, (aget_lookup (stamp f') (zlen us) (f' (zlen us))) by (lia || by apply stamp_get). rewrite bind_ok, zlen_app. change (zlen [zlen us]) with 1.
    destruct (Z.ltb_spec (f (zlen us)) (f' (zlen us))) as [Hlt|Hge].
    + rewrite aset_ok by (rewrite zlen_stamp; lia). eexists. split; [done|]. rewrite stamp_put by lia. apply stamp_ext. intros j Hj.
      destruct (Z.eqb_spec j (zlen us)) as [->|Hne]; [rewrite (proj2 (Z.ltb_lt (zlen us) _)) by lia; lia|]. destruct (Z.ltb_spec j (zlen us)), (Z.ltb_spec j (zlen us + 1)); try lia; done.
    + eexists. split; [done|]. apply stamp_ext. intros j Hj. destruct (Z.ltb_spec j (zlen us)), (Z.ltb_spec j (zlen us + 1)); try lia. assert (j = zlen us) as -> by lia. lia.
  - rewrite E, bind_ok. f_equal. f_equal. apply stamp_ext. intros j Hj. unfold zlen. rewrite length_seqZ. rewrite (proj2 (Z.ltb_lt j _)) by lia. done.
Qed.

Lemma happens_stamp f f' i w : 0 <= len -> happensBefore (MkVC (stamp f) i) (MkVC (stamp f') w) = Ok (forallb (fun j => f j <=? f' j) (seqZ 0 len)).
Proof.
  intros Hl. unfold happensBefore. cbn [timestamps]. rewrite zlen_stamp by done. assert (Hall : Forall (fun j => 0 <= j < len) (seqZ 0 len)) by (apply Forall_forall; intros j Hj; apply elem_of_seqZ in Hj; lia).
  induction Hall as [|j l Hj _ IH]; [done|]. cbn [happens_from forallb]. rewrite (aget_lookup (stamp f) j (f j)) by (lia || by apply stamp_get). rewrite bind_ok, (aget_lookup (stamp f') j (f' j)) by (lia || by apply stamp_get). rewrite bind_ok.
  destruct (Z.ltb_spec (f' j) (f j)); [by rewrite (proj2 (Z.leb_gt _ _))|]. by rewrite (proj2 (Z.leb_le (f j) _)).
Qed.
End Clocks.

(** ** The lists of synchronisation points *)

Abbreviation sorted := (StronglySorted Z.le).

Lemma list_add_ok {X} (l1 l2 : list X) x : list_add (l1 ++ l2) (zlen l1) x = Ok (l1 ++ x :: l2).
Proof.
  unfold list_add. pose proof (zlen_nonneg l1). pose proof (zlen_nonneg l2). rewrite zlen_app. rewrite (proj2 (Z.leb_le 0 _)), (proj2 (Z.leb_le (zlen l1) _)) by lia. cbn [andb].
  unfold ztake, zdrop, zlen. rewrite Nat2Z.id, take_app_length, drop_app_length. done.
Qed.

Lemma insert_down_ok g l : forall l1 l2, l = l1 ++ l2 -> sorted l -> (forall x, x ∈ l2 -> g <= x) ->
  (forall x, x ∈ l1 -> g <= x) /\ insert_down (length l1) g l = Ok l \/
  exists k1 k2, l = k1 ++ k2 /\ (forall x, x ∈ k1 -> x < g) /\ (forall x, x ∈ k2 -> g <= x) /\ insert_down (length l1) g l = Ok (k1 ++ g :: k2).
Proof.
  induction l1 as [|y l1 IH] using rev_ind; intros l2 El Hs H2; [left; split; [set_solver|done]|].
  rewrite length_app, Nat.add_comm. cbn [length Nat.add insert_down]. rewrite (aget_lookup l (Z.of_nat (length l1)) y); [|lia|rewrite Nat2Z.id, El, <- app_assoc, lookup_app_r, Nat.sub_diag by lia; done]. rewrite bind_ok.
  destruct (Z.ltb_spec y g) as [Hlt|Hge].
  - right. exists (l1 ++ [y]), l2. split; [done|]. split; [|split; [done|]].
    + intros x Hx. rewrite El in Hs. apply StronglySorted_app_1_l in Hs. apply elem_of_app in Hx as [Hx|Hx%list_elem_of_singleton]; [|lia]. pose proof (StronglySorted_app_1_elem_of _ _ _ x y Hs Hx ltac:(left)). lia.
    + rewrite El. replace (Z.of_nat (length l1) + 1) with (zlen (l1 ++ [y])) by (rewrite zlen_app; unfold zlen; cbn; lia). apply list_add_ok.
  - destruct (IH (y :: l2)) as [[Hall E]|(k1 & k2 & Ek & H1 & H2' & E)]; [by rewrite El, <- app_assoc|done|intros x [->|Hx]%elem_of_cons; [done|by apply H2]| |].
    + left. split; [|done]. intros x [Hx|Hx%list_elem_of_singleton]%elem_of_app; [by apply Hall|lia].
    + right. by exists k1, k2.
Qed.

Lemma sorted_insert k1 k2 g : sorted (k1 ++ k2) -> (forall x, x ∈ k1 -> x < g) -> (forall x, x ∈ k2 -> g <= x) -> sorted (k1 ++ g :: k2).
Proof.
  intros (H12 & Hs1 & Hs2)%StronglySorted_app H1 H2. apply StronglySorted_app. split; [|split; [done|]].
  - intros x1 x2 Hx1 [->|Hx2]%elem_of_cons; [specialize (H1 x1 Hx1); lia|by apply H12].
  - constructor; [done|]. by apply Forall_forall.
Qed.

Lemma insert_gid_ok l g : sorted l -> l <> [] -> exists l', insert_gid l g = Ok l' /\ sorted l' /\ l' <> [] /\ forall x, x ∈ l' <-> x = g \/ x ∈ l.
Proof.
  intros Hs Hne. unfold insert_gid. destruct l as [|y l]; [done|]. rewrite (aget_lookup (y :: l) 0 y) by done. rewrite bind_ok. destruct (Z.ltb_spec g y) as [Hlt|Hge].
  - exists (g :: y :: l). split; [done|]. split; [|split; [done|set_solver]]. constructor; [done|]. apply StronglySorted_inv in Hs as [_ Hf]. constructor; [lia|]. eapply Forall_impl; [exact Hf|]. cbn. lia.
  - destruct (insert_down_ok g (y :: l) (y :: l) []) as [[Hall E]|(k1 & k2 & Ek & H1 & H2 & E)]; [by rewrite app_nil_r|done|set_solver| |]; rewrite E.
    + exists (y :: l). split; [done|]. split; [done|]. split; [done|]. assert (y = g) as -> by (specialize (Hall y ltac:(left)); lia). set_solver.
    + exists (k1 ++ g :: k2). split; [done|]. rewrite Ek in *. split; [by apply sorted_insert|]. split; [by destruct k1|set_solver].
Qed.

Lemma find_down_ok g l : sorted l -> 0 ∉ l ->
  find_down g l = 0 /\ (forall x, x ∈ l -> x <= g) \/ find_down g l ∈ l /\ g < find_down g l /\ (forall x, x ∈ l -> g < x -> find_down g l <= x) /\ find_down g l <> 0.
Proof.
  induction 1 as [|y l Hs IH Hf]; intros H0; [left; set_solver|]. cbn [find_down]. destruct (Z.ltb_spec g y) as [Hlt|Hge].
  - right. split; [left|]. split; [done|]. split; [|set_solver]. rewrite Forall_forall in Hf. intros x [->|Hx]%elem_of_cons _; [lia|by apply Hf].
  - destruct IH as [[E Hall]|(Hin & Hlt & Hmin & Hn0)]; [set_solver|left|right].
    + split; [done|]. intros x [->|Hx]%elem_of_cons; [done|by apply Hall].
    + split; [by right|]. split; [done|]. split; [|done]. intros x [->|Hx]%elem_of_cons Hgx; [lia|by apply Hmin].
Qed.

Lemma find_up_ok g l : sorted l -> 0 ∉ l ->
  find_up g (rev l) = 0 /\ (forall x, x ∈ l -> g <= x) \/ find_up g (rev l) ∈ l /\ find_up g (rev l) < g /\ (forall x, x ∈ l -> x < g -> x <= find_up g (rev l)) /\ find_up g (rev l) <> 0.
Proof.
  induction l as [|y l IH] using rev_ind; intros Hs H0; [left; set_solver|]. rewrite rev_app_distr. cbn [rev app find_up]. pose proof (StronglySorted_app_1_l _ _ _ Hs) as Hs1. destruct (Z.ltb_spec y g) as [Hlt|Hge].
  - right. split; [set_solver|]. split; [done|]. split; [|set_solver]. intros x [Hx|Hx%list_elem_of_singleton]%elem_of_app _; [|lia]. by apply (StronglySorted_app_1_elem_of _ _ _ x y Hs); [|left].
  - destruct IH as [[E Hall]|(Hin & Hlt & Hmax & Hn0)]; [done|set_solver|left|right].
    + split; [done|]. intros x [Hx|Hx%list_elem_of_singleton]%elem_of_app; [by apply Hall|lia].
    + split; [set_solver|]. split; [done|]. split; [|done]. intros x [Hx|Hx%list_elem_of_singleton]%elem_of_app Hgx; [by apply Hmax|lia].
Qed.

(** ** The engine after some edges *)

Section Engine.
Context (idx : Z -> Z) (len : Z).

(** The threads with an entry in [tid2IndexMap]. *)
Definition known e : Prop :=
  e.(clock_length) = len /\ (forall t i, e.(tid2IndexMap) !! t = Some i -> i = idx t /\ 0 <= i < len) /\
  (forall t t' i, e.(tid2IndexMap) !! t = Some i -> e.(tid2IndexMap) !! t' = Some i -> t = t').

Definition known_edge e ed : Prop := is_Some (e.(tid2IndexMap) !! tid ed.1) /\ is_Some (e.(tid2IndexMap) !! tid ed.2) /\ tid ed.1 <> tid ed.2.

(** The clocks of the two ends of the first edge of [R]. *)
Definition from_clock R ed : Z -> Z := one (idx (tid ed.1)) (edges_at R (tid ed.1)).
Definition to_clock R ed : Z -> Z := fun j => Z.max (one (idx (tid ed.2)) (edges_at R (tid ed.2)) j) (from_clock R ed j).

Fixpoint clock_at R g : option VectorClock :=
  match R with
  | [] => None
  | ed :: R' =>
    if gid ed.2 =? g then Some (MkVC (stamp len (to_clock R ed)) (idx (tid ed.2)))
    else if gid ed.1 =? g then Some (MkVC (stamp len (from_clock R ed)) (idx (tid ed.1)))
    else clock_at R' g
  end.

Definition gids_are R t (o : option (list Z)) : Prop :=
  match o with
  | None => forall g, ~ sync_point R t g
  | Some l => sorted l /\ l <> [] /\ forall g, g ∈ l <-> sync_point R t g
  end.

Definition built e R : Prop :=
  known e /\ Forall (known_edge e) R /\
  (forall t, e.(tidToVCs) !! t = if edges_at R t =? 0 then None else Some (MkVC (stamp len (one (idx t) (edges_at R t))) (idx t))) /\
  (forall g, e.(long2VCs) !! g = clock_at R g) /\ (forall t, gids_are R t (e.(tid2GidsMap) !! t)).

Lemma sync_point_cons ed R t g : sync_point (ed :: R) t g <-> ends_at ed t g \/ sync_point R t g.
Proof. unfold sync_point. split; [intros (ed' & [->|Hin]%elem_of_cons & Hend); eauto|intros [Hend|(ed' & Hin & Hend)]; [exists ed|exists ed']; split; try done; [left|by right]]. Qed.

Lemma add_gid_ok (P : Z -> Prop) e t g :
  (match e.(tid2GidsMap) !! t with None => forall x, ~ P x | Some l => sorted l /\ l <> [] /\ forall x, x ∈ l <-> P x end) ->
  exists l, addSyncGidToTidList e t g = Ok (set_gids e (<[t := l]> e.(tid2GidsMap))) /\ sorted l /\ l <> [] /\ forall x, x ∈ l <-> x = g \/ P x.
Proof.
  intros Hg. unfold addSyncGidToTidList. destruct (e.(tid2GidsMap) !! t) as [l|].
  - destruct Hg as (Hs & Hne & Hin). destruct (insert_gid_ok l g Hs Hne) as (l' & -> & Hs' & Hne' & Hin'). rewrite bind_ok. exists l'. split; [done|]. split; [done|]. split; [done|]. intros x. by rewrite Hin', Hin.
  - exists [g]. split; [done|]. split; [repeat constructor|]. split; [done|]. intros x. specialize (Hg x). set_solver.
Qed.

Lemma touches_from ed t : tid ed.1 = t -> touches ed t = true.
Proof. intros <-. unfold touches. by rewrite Z.eqb_refl. Qed.

Lemma touches_to ed t : tid ed.2 = t -> touches ed t = true.
Proof. intros <-. unfold touches. by rewrite Z.eqb_refl, orb_true_r. Qed.

Lemma thread_clock_tick e R t : built e R -> zlen R < 2 ^ 31 - 1 -> is_Some (e.(tid2IndexMap) !! t) ->
  VC_tick (getThreadVectorClock e t) = Ok (MkVC (stamp len (one (idx t) (edges_at R t + 1))) (idx t)).
Proof.
  intros ((El & Hidx & _) & _ & Hvc & _) HR [i Hi]. destruct (Hidx t i Hi) as [-> Hr]. unfold getThreadVectorClock. rewrite Hvc, El, Hi. cbn [default]. pose proof (edges_at_nonneg R t).
  assert (Hend : forall f, (forall j, f j = one (idx t) (edges_at R t) j) -> VC_tick (MkVC (stamp len f) (idx t)) = Ok (MkVC (stamp len (one (idx t) (edges_at R t + 1))) (idx t))).
  { intros f Hf. assert (Ef : f (idx t) = edges_at R t) by (rewrite Hf; unfold one; by rewrite Z.eqb_refl). rewrite tick_stamp by (done || rewrite Ef; lia). f_equal. f_equal. apply stamp_ext. intros j _. rewrite Ef, Hf. unfold one. by destruct (j =? idx t). }
  destruct (Z.eqb_spec (edges_at R t) 0) as [E0|Hn0]; [|by apply Hend]. cbn [from_option]. rewrite new_VC_stamp. apply Hend. intros j. unfold one. rewrite E0. by destruct (j =? idx t).
Qed.

Lemma add_gids_ok e R ed : built e R -> known_edge e ed ->
  exists m, (e ← addSyncGidToTidList e (tid ed.1) (gid ed.1); addSyncGidToTidList e (tid ed.2) (gid ed.2)) = Ok (set_gids e m) /\ forall t, gids_are (ed :: R) t (m !! t).
Proof.
  intros (_ & _ & _ & _ & Hgids) (_ & _ & Hne). destruct (add_gid_ok (sync_point R (tid ed.1)) e (tid ed.1) (gid ed.1) (Hgids (tid ed.1))) as (l1 & -> & Hs1 & Hn1 & Hin1). rewrite bind_ok.
  set (e1 := set_gids e _). destruct (add_gid_ok (sync_point R (tid ed.2)) e1 (tid ed.2) (gid ed.2)) as (l2 & -> & Hs2 & Hn2 & Hin2); [cbn [e1 set_gids tid2GidsMap]; rewrite lookup_insert_ne by done; apply Hgids|].
  eexists. split; [reflexivity|]. intros t. cbn [e1 set_gids tid2GidsMap]. destruct (decide (t = tid ed.2)) as [->|N2]; [|rewrite lookup_insert_ne by done; destruct (decide (t = tid ed.1)) as [->|N1]].
  - rewrite lookup_insert_eq. split; [done|]. split; [done|]. intros g. rewrite Hin2, sync_point_cons. unfold ends_at. naive_solver.
  - rewrite lookup_insert_eq. split; [done|]. split; [done|]. intros g. rewrite Hin1, sync_point_cons. unfold ends_at. naive_solver.
  - rewrite lookup_insert_ne by done. specialize (Hgids t). assert (Hsame : forall g, sync_point (ed :: R) t g <-> sync_point R t g) by (intros g; rewrite sync_point_cons; unfold ends_at; naive_solver).
    destruct (tid2GidsMap e !! t) as [l|]; [|intros g; rewrite Hsame; apply Hgids]. destruct Hgids as (? & ? & Hin). split; [done|]. split; [done|]. intros g. by rewrite Hsame.
Qed.

(** The parts of the engine that [addEdge] leaves alone. *)
Definition same_lists e e' : Prop :=
  e'.(tidFirstNode) = e.(tidFirstNode) /\ e'.(tidLastNode) = e.(tidLastNode) /\ e'.(orderedSyncNodeList) = e.(orderedSyncNodeList) /\
  e'.(cond2WaitNotifyLs) = e.(cond2WaitNotifyLs) /\ e'.(tid2IndexMap) = e.(tid2IndexMap).

Lemma addEdge_ok e R ed : built e R -> known_edge e ed -> zlen R < 2 ^ 31 - 1 -> exists e', addEdge e ed.1 ed.2 = Ok e' /\ built e' (ed :: R) /\ same_lists e e'.
Proof.
  intros Hb Hed HR. pose proof Hed as (Hk1 & Hk2 & Hne). pose proof Hb as (Hk & Hall & Hvc & Hlong & _). unfold addEdge. rewrite (proj2 (Z.eqb_neq _ _)) by done.
  destruct (add_gids_ok e R ed Hb Hed) as (m & Em & Hm). destruct (addSyncGidToTidList e _ _) as [e1|]; [rewrite bind_ok in *|done]. rewrite Em, bind_ok.
  change (getThreadVectorClock (set_gids e m)) with (getThreadVectorClock e). rewrite !(thread_clock_tick e R) by done. rewrite !bind_ok.
  assert (Hlen : 0 <= len) by (destruct Hk as (_ & Hi & _), Hk1 as [i Hi1]; destruct (Hi _ i Hi1); lia). rewrite join_stamp, bind_ok by done. eexists. split; [reflexivity|].
  assert (C1 : edges_at (ed :: R) (tid ed.1) = edges_at R (tid ed.1) + 1) by (rewrite edges_at_cons, touches_from; done). assert (C2 : edges_at (ed :: R) (tid ed.2) = edges_at R (tid ed.2) + 1) by (rewrite edges_at_cons, touches_to; done).
  split; [|done]. split; [done|]. split; [by constructor|]. cbn [set_clocks set_gids tidToVCs long2VCs tid2GidsMap]. split; [|split; [|done]].
  - intros t. pose proof (edges_at_nonneg R t). destruct (decide (t = tid ed.2)) as [->|N2]; [rewrite lookup_insert_eq, C2, (proj2 (Z.eqb_neq _ _)) by lia; done|]. rewrite lookup_insert_ne by done.
    destruct (decide (t = tid ed.1)) as [->|N1]; [rewrite lookup_insert_eq, C1, (proj2 (Z.eqb_neq _ _)) by lia; done|]. rewrite lookup_insert_ne, Hvc, edges_at_cons by done.
    assert (touches ed t = false) as ->; [|by rewrite Z.add_0_r]. unfold touches. rewrite (proj2 (Z.eqb_neq (tid ed.1) t)), (proj2 (Z.eqb_neq (tid ed.2) t)) by congruence. done.
  - intros g. cbn [clock_at]. unfold to_clock, from_clock. rewrite C1, C2. destruct (Z.eqb_spec (gid ed.2) g) as [<-|N2]; [by rewrite lookup_insert_eq|]. rewrite lookup_insert_ne by done.
    destruct (Z.eqb_spec (gid ed.1) g) as [<-|N1]; [by rewrite lookup_insert_eq|]. by rewrite lookup_insert_ne.
Qed.

Definition add_all e (es : list edge) : res engine := foldM (fun ed e => addEdge e ed.1 ed.2) es e.

Definition between R (es : list edge) : list edge := rev (filter (fun ed => apart ed = true) es) ++ R.

Lemma process_all e n : process e n = add_all (set_waits e (matched e.(tidFirstNode) e.(tidLastNode) e.(cond2WaitNotifyLs) n).2) (matched e.(tidFirstNode) e.(tidLastNode) e.(cond2WaitNotifyLs) n).1.
Proof.
  assert (Eset : set_waits e e.(cond2WaitNotifyLs) = e) by (by destruct e). assert (Hone : forall e0 n1 n2, add_all e0 [(n1, n2)] = addEdge e0 n1 n2) by (intros e0 n1 n2; unfold add_all; cbn; by destruct (addEdge e0 n1 n2)).
  unfold process, matched. destruct n.2; cbn [fst snd]; rewrite ?Eset; try done.
  - destruct (tidFirstNode e !! tidKid); [by rewrite Hone|done].
  - destruct (tidLastNode e !! tidKid); [by rewrite Hone|done].
  - destruct (cond2WaitNotifyLs e !! cond) as [[|w ws]|]; cbn [fst snd]; rewrite ?Eset, ?Hone; done.
  - destruct (cond2WaitNotifyLs e !! cond) as [ws|]; cbn [fst snd]; rewrite ?Eset; [|done]. generalize (set_waits e (<[cond:=[]]> (cond2WaitNotifyLs e))) as e0. unfold add_edges, add_all.
    induction ws as [|w ws IH]; intros e0; [done|]. cbn. destruct (addEdge e0 n w); [rewrite !bind_ok; apply IH|done].
Qed.

Lemma add_all_ok es : forall e R, built e R -> (forall ed, ed ∈ es -> apart ed = true -> known_edge e ed) -> zlen es + zlen R < 2 ^ 31 ->
  exists e', add_all e es = Ok e' /\ built e' (between R es) /\ same_lists e e'.
Proof.
  induction es as [|ed es IH]; intros e R Hb Hes Hlen; [by exists e|]. unfold add_all, between. cbn [foldM]. unfold zlen in *. cbn [length] in Hlen. rewrite filter_cons. destruct (apart ed) eqn:Ea.
  - rewrite decide_True by done. cbn [rev]. rewrite <- app_assoc. destruct (addEdge_ok e R ed Hb) as (e1 & -> & Hb1 & Hs1); [apply Hes; [left|done]|unfold zlen; lia|]. rewrite bind_ok.
    destruct (IH e1 (ed :: R) Hb1) as (e' & E & Hb' & Hs'); [|cbn [length]; lia|].
    + intros ed' Hin Ha'. destruct (Hes ed' ltac:(by right) Ha') as (? & ? & ?). unfold known_edge. destruct Hs1 as (_ & _ & _ & _ & ->). done.
    + exists e'. split; [exact E|]. split; [exact Hb'|]. destruct Hs1 as (F1 & F2 & F3 & F4 & F5), Hs' as (G1 & G2 & G3 & G4 & G5). unfold same_lists. by rewrite G1, G2, G3, G4, G5.
  - rewrite decide_False by congruence. unfold apart in Ea. apply negb_false_iff in Ea. assert (addEdge e ed.1 ed.2 = Ok e) as -> by (unfold addEdge; by rewrite Ea). rewrite bind_ok. apply IH; [done| |lia]. intros ed' Hin. apply Hes. by right.
Qed.

Lemma between_app R es es' : between (between R es) es' = between R (es ++ es').
Proof. unfold between. rewrite filter_app, rev_app_distr, app_assoc. done. Qed.

Lemma built_waits e R m : built e R -> built (set_waits e m) R.
Proof. done. Qed.

(** What [postprocessing] reads of the first pass. *)
Definition same_nodes e e' : Prop := e'.(tidFirstNode) = e.(tidFirstNode) /\ e'.(tidLastNode) = e.(tidLastNode) /\ e'.(orderedSyncNodeList) = e.(orderedSyncNodeList).

Lemma process_list_ok l : forall e R, built e R ->
  let es := matches e.(tidFirstNode) e.(tidLastNode) e.(cond2WaitNotifyLs) l in (forall ed, ed ∈ es -> apart ed = true -> known_edge e ed) -> zlen es + zlen R < 2 ^ 31 ->
  exists e', foldM (fun n e => process e n) l e = Ok e' /\ built e' (between R es) /\ same_nodes e e'.
Proof.
  induction l as [|n l IH]; intros e R Hb es Hes Hlen; [by exists e|]. cbn [foldM]. rewrite process_all. cbn [matches] in es. set (w := matched _ _ _ n) in *.
  unfold es in Hlen. rewrite (zlen_app w.1) in Hlen. pose proof (zlen_nonneg (matches e.(tidFirstNode) e.(tidLastNode) w.2 l)).
  destruct (add_all_ok w.1 (set_waits e w.2) R (built_waits e R w.2 Hb)) as (e1 & -> & Hb1 & F1 & F2 & F3 & F4 & F5); [intros ed Hin; apply Hes; unfold es; set_solver|lia|]. rewrite bind_ok.
  cbn [set_waits tidFirstNode tidLastNode orderedSyncNodeList cond2WaitNotifyLs tid2IndexMap] in F1, F2, F3, F4, F5. destruct (IH e1 (between R w.1) Hb1) as (e' & E & Hb' & G1 & G2 & G3).
  - rewrite F1, F2, F4. intros ed Hin Ha. unfold known_edge. rewrite F5. apply (Hes ed); [unfold es; set_solver|done].
  - rewrite F1, F2, F4. assert (zlen (between R w.1) <= zlen w.1 + zlen R); [|lia]. unfold between, zlen. rewrite length_app, length_rev. pose proof (length_filter (fun ed => apart ed = true) w.1). lia.
  - exists e'. split; [done|]. rewrite F1, F2, F4, between_app in Hb'. split; [exact Hb'|]. unfold same_nodes. by rewrite G1, G2, G3.
Qed.

(** ** The answer *)

(** A global id belongs to one thread, and is not 0. *)
Definition own_gids R : Prop := (forall t t' g, sync_point R t g -> sync_point R t' g -> t = t') /\ (forall t, ~ sync_point R t 0).

Definition next_sync R t g x : Prop := sync_point R t x /\ g < x /\ forall z, sync_point R t z -> g < z -> x <= z.
Definition prev_sync R t g y : Prop := sync_point R t y /\ y < g /\ forall z, sync_point R t z -> z < g -> z <= y.

Lemma down_ok e R t g : built e R -> own_gids R ->
  findSyncGidDown e t g = 0 /\ (forall x, ~ next_sync R t g x) \/ findSyncGidDown e t g <> 0 /\ forall x, next_sync R t g x <-> x = findSyncGidDown e t g.
Proof.
  intros (_ & _ & _ & _ & Hgids) [_ H0']. specialize (Hgids t). unfold findSyncGidDown. destruct (tid2GidsMap e !! t) as [l|]; cbn [default from_option]; [|left; split; [done|]; intros x (Hx & _); by apply (Hgids x)].
  destruct Hgids as (Hs & _ & Hin). assert (Hz : 0 ∉ l) by (rewrite Hin; apply H0'). destruct (find_down_ok g l Hs Hz) as [[E Hall]|(Hx & Hlt & Hmin & Hn0)]; [left|right].
  - split; [done|]. intros x (Hx%Hin & Hg & _). specialize (Hall x Hx). lia.
  - split; [done|]. intros x. split; [|intros ->; split; [by apply Hin|]; split; [done|]; intros z Hz'; by apply Hmin, Hin].
    intros (Hx' & Hg & Hle). apply Z.le_antisymm; [apply Hle; [by apply Hin|done]|apply Hmin; [by apply Hin|done]].
Qed.

Lemma up_ok e R t g : built e R -> own_gids R ->
  findSyncGidUp e t g = 0 /\ (forall x, ~ prev_sync R t g x) \/ findSyncGidUp e t g <> 0 /\ forall x, prev_sync R t g x <-> x = findSyncGidUp e t g.
Proof.
  intros (_ & _ & _ & _ & Hgids) [_ H0']. specialize (Hgids t). unfold findSyncGidUp. destruct (tid2GidsMap e !! t) as [l|]; cbn [default from_option]; [|left; split; [done|]; intros x (Hx & _); by apply (Hgids x)].
  destruct Hgids as (Hs & _ & Hin). assert (Hz : 0 ∉ l) by (rewrite Hin; apply H0'). destruct (find_up_ok g l Hs Hz) as [[E Hall]|(Hx & Hlt & Hmax & Hn0)]; [left|right].
  - split; [done|]. intros x (Hx%Hin & Hg & _). specialize (Hall x Hx). lia.
  - split; [done|]. intros x. split; [|intros ->; split; [by apply Hin|]; split; [done|]; intros z Hz'; by apply Hmax, Hin].
    intros (Hx' & Hg & Hle). apply Z.le_antisymm; [apply Hmax; [by apply Hin|done]|apply Hle; [by apply Hin|done]].
Qed.

Lemma latest_ok R g : (exists t, sync_point R t g) -> exists P ed R', R = P ++ ed :: R' /\ latest R g = Some (zlen (ed :: R'), ed) /\ (gid ed.1 = g \/ gid ed.2 = g) /\
  clock_at R g = Some (if gid ed.2 =? g then MkVC (stamp len (to_clock (ed :: R') ed)) (idx (tid ed.2)) else MkVC (stamp len (from_clock (ed :: R') ed)) (idx (tid ed.1))).
Proof.
  intros [t Ht]. induction R as [|ed R IH]; [destruct Ht as (? & Hin & _); by apply not_elem_of_nil in Hin|]. cbn [latest clock_at]. destruct (Z.eqb_spec (gid ed.2) g) as [E2|N2].
  - exists [], ed, R. split; [done|]. split; [done|]. split; [by right|]. rewrite (proj2 (Z.eqb_eq _ _)) by done. done.
  - destruct (Z.eqb_spec (gid ed.1) g) as [E1|N1]; cbn [orb].
    + exists [], ed, R. split; [done|]. split; [done|]. split; [by left|]. rewrite (proj2 (Z.eqb_neq _ _)) by done. done.
    + destruct IH as (P & ed' & R' & -> & El & Hend & Ec); [apply sync_point_cons in Ht as [Hend|]; [unfold ends_at in Hend; naive_solver|done]|]. exists (ed :: P), ed', R'. done.
Qed.

Lemma edges_at_app P R t : edges_at (P ++ R) t = edges_at P t + edges_at R t.
Proof. unfold edges_at. rewrite filter_app. apply zlen_app. Qed.

(** Up to a later edge a thread has more edges. *)
Lemma count_suffix R P1 ed1 R1 P2 ed2 R2 t :
  R = P1 ++ ed1 :: R1 -> R = P2 ++ ed2 :: R2 -> touches ed1 t = true -> touches ed2 t = true ->
  (edges_at (ed1 :: R1) t <= edges_at (ed2 :: R2) t <-> zlen (ed1 :: R1) <= zlen (ed2 :: R2)).
Proof.
  assert (Hless : forall A B C D : list edge, A ++ B = C ++ D -> zlen B <= zlen D -> exists M, D = M ++ B).
  { intros A0 B C D E Hl. exists (drop (length C) A0). assert (Hlen : (length C <= length A0)%nat) by (apply (f_equal length) in E; rewrite !length_app in E; unfold zlen in Hl; lia).
    apply (f_equal (drop (length C))) in E. rewrite drop_app_le, drop_app_length in E by done. done. }
  intros E1 E2 T1 T2. split.
  - intros Hc. destruct (decide (zlen (ed1 :: R1) <= zlen (ed2 :: R2))) as [|Hgt]; [done|]. exfalso. destruct (Hless P2 (ed2 :: R2) P1 (ed1 :: R1)) as [M EM]; [congruence|lia|]. destruct M as [|m M].
    + cbn in EM. rewrite EM in Hgt. lia.
    + cbn in EM. injection EM as <- EM. rewrite edges_at_cons, T1, EM, edges_at_app in Hc. pose proof (edges_at_nonneg M t). lia.
  - intros Hle. destruct (Hless P1 (ed1 :: R1) P2 (ed2 :: R2)) as [M ->]; [congruence|done|]. rewrite edges_at_app. pose proof (edges_at_nonneg M t). lia.
Qed.

Definition ahead R t1 x t2 y : Prop :=
  exists k1 ed1 k2 ed2, latest R x = Some (k1, ed1) /\ latest R y = Some (k2, ed2) /\ k1 <= k2 /\ tid ed2.1 = t1 /\ gid ed2.2 = y /\ (gid ed1.1 = x \/ tid ed1.1 = t2).

Lemma known_idx e t t' : known e -> is_Some (e.(tid2IndexMap) !! t) -> is_Some (e.(tid2IndexMap) !! t') -> (idx t = idx t' <-> t = t') /\ 0 <= idx t < len.
Proof.
  intros (_ & Hi & Hinj) [i Hti] [i' Hti']. destruct (Hi t i Hti) as [-> Hr], (Hi t' i' Hti') as [-> _]. split; [|done]. split; [|by intros ->]. intros E. rewrite <- E in Hti'. by eapply Hinj.
Qed.

Lemma one_le e t t' c : known e -> is_Some (e.(tid2IndexMap) !! t) -> is_Some (e.(tid2IndexMap) !! t') -> one (idx t) c (idx t') = if t =? t' then c else 0.
Proof.
  intros Hk Ht Ht'. destruct (known_idx e t' t Hk Ht' Ht) as [Hinj _]. unfold one. destruct (Z.eqb_spec (idx t') (idx t)) as [E|E], (Z.eqb_spec t t') as [->|Hne]; try done; try congruence; apply Hinj in E; congruence.
Qed.

Section Compare.
Context e R (Hb : built e R) (Hown : own_gids R) (t1 t2 x y : Z) (Hne : t1 <> t2) (Hx : sync_point R t1 x) (Hy : sync_point R t2 y).
Context P1 ed1 R1 (E1 : R = P1 ++ ed1 :: R1) (X1 : gid ed1.1 = x \/ gid ed1.2 = x).
Context P2 ed2 R2 (E2 : R = P2 ++ ed2 :: R2) (X2 : gid ed2.1 = y \/ gid ed2.2 = y).

Lemma end_tid P ed R' t g : R = P ++ ed :: R' -> sync_point R t g -> (gid ed.1 = g -> tid ed.1 = t) /\ (gid ed.2 = g -> tid ed.2 = t).
Proof.
  intros E Ht. assert (Hin : ed ∈ R) by (rewrite E; set_solver +). destruct Hown as [Ho _]. split; intros Eg; eapply Ho; [|exact Ht| |exact Ht]; exists ed; (split; [done|]); [left|right]; done.
Qed.

Lemma edge_known P ed R' : R = P ++ ed :: R' -> known_edge e ed.
Proof. intros E. destruct Hb as (_ & Hall & _). rewrite Forall_forall in Hall. apply Hall. rewrite E. set_solver +. Qed.

Lemma edges_at_pos ed R' t : touches ed t = true -> 0 < edges_at (ed :: R') t.
Proof. intros T. rewrite edges_at_cons, T. pose proof (edges_at_nonneg R' t). lia. Qed.

Lemma compare_clocks :
  let f1 := if gid ed1.2 =? x then to_clock (ed1 :: R1) ed1 else from_clock (ed1 :: R1) ed1 in
  let f2 := if gid ed2.2 =? y then to_clock (ed2 :: R2) ed2 else from_clock (ed2 :: R2) ed2 in
  forallb (fun j => f1 j <=? f2 j) (seqZ 0 len) = true <-> zlen (ed1 :: R1) <= zlen (ed2 :: R2) /\ tid ed2.1 = t1 /\ gid ed2.2 = y /\ (gid ed1.1 = x \/ tid ed1.1 = t2).
Proof.
  destruct (end_tid _ _ _ t1 x E1 Hx) as [A1 A2]. destruct (end_tid _ _ _ t2 y E2 Hy) as [B1 B2]. destruct (edge_known _ _ _ E1) as (K1 & K1' & N1). destruct (edge_known _ _ _ E2) as (K2 & K2' & N2). pose proof Hb as (Hk & _).
  pose proof (count_suffix R P1 ed1 R1 P2 ed2 R2) as Hsuf. intros f1 f2. rewrite forallb_forall. split.
  - intros Hall. assert (Hat : forall t, is_Some (e.(tid2IndexMap) !! t) -> f1 (idx t) <= f2 (idx t)).
    { intros t Ht. apply Z.leb_le, Hall. apply list_elem_of_In, elem_of_seqZ. destruct (known_idx e t t Hk Ht Ht). lia. }
    assert (T1 : touches ed1 t1 = true) by (destruct X1 as [X|X]; [apply touches_from, A1, X|apply touches_to, A2, X]). pose proof (edges_at_pos ed1 R1 t1 T1) as Hp1.
    assert (Hk1 : is_Some (e.(tid2IndexMap) !! t1)) by (destruct X1 as [X|X]; [rewrite <- (A1 X)|rewrite <- (A2 X)]; done). pose proof (Hat t1 Hk1) as Hle1.
    assert (F1 : edges_at (ed1 :: R1) t1 <= f1 (idx t1)).
    { unfold f1, to_clock, from_clock. destruct (Z.eqb_spec (gid ed1.2) x) as [X|X]; [rewrite (A2 X) in *|destruct X1 as [X'|]; [rewrite (A1 X') in *|congruence]]; rewrite !(one_le e) by done; rewrite Z.eqb_refl; [lia|done]. }
    unfold f2, to_clock, from_clock in Hle1. destruct (Z.eqb_spec (gid ed2.2) y) as [Y|Y]; [|destruct X2 as [Y'|]; [|congruence]; rewrite (B1 Y') in *; rewrite (one_le e), (proj2 (Z.eqb_neq t2 t1)) in Hle1 by done; lia].
    rewrite (B2 Y) in *. rewrite !(one_le e), (proj2 (Z.eqb_neq t2 t1)) in Hle1 by done. destruct (Z.eqb_spec (tid ed2.1) t1) as [Et|]; [|lia]. rewrite Et in *.
    assert (T2 : touches ed2 t1 = true) by (by apply touches_from). split; [apply (Hsuf t1 E1 E2 T1 T2); lia|]. split; [done|]. split; [done|]. destruct (Z.eqb_spec (gid ed1.2) x) as [X|X]; [right|left; naive_solver].
    specialize (Hat (tid ed1.1) K1). pose proof (edges_at_pos ed1 R1 (tid ed1.1) ltac:(by apply touches_from)) as Hp3. unfold f1, f2, to_clock, from_clock in Hat. rewrite (B2 Y), Et in Hat.
    rewrite (A2 X) in *. rewrite !(one_le e), Z.eqb_refl, (proj2 (Z.eqb_neq t1 (tid ed1.1))) in Hat by done. destruct (Z.eqb_spec t2 (tid ed1.1)); [done|lia].
  - intros (Hlen & Et & Y & Hfrom) j _. apply Z.leb_le. unfold f1, f2, to_clock, from_clock. rewrite (proj2 (Z.eqb_eq (gid ed2.2) y) Y), (B2 Y), Et. rewrite (B2 Y), Et in *.
    assert (T21 : touches ed2 t1 = true) by (by apply touches_from). assert (T22 : touches ed2 t2 = true) by (apply touches_to; by apply B2). pose proof (edges_at_nonneg (ed2 :: R2) t1). pose proof (edges_at_nonneg (ed2 :: R2) t2).
    destruct (Z.eqb_spec (gid ed1.2) x) as [X|X].
    + destruct Hfrom as [X'|Ht2]; [exfalso; apply N1; rewrite (A1 X'), (A2 X); done|]. rewrite (A2 X), Ht2 in *. pose proof (proj2 (Hsuf t1 E1 E2 ltac:(apply touches_to; by apply A2) T21) Hlen). pose proof (proj2 (Hsuf t2 E1 E2 ltac:(by apply touches_from) T22) Hlen).
      unfold one. destruct (j =? idx t1), (j =? idx t2); lia.
    + destruct X1 as [X'|]; [|congruence]. rewrite (A1 X') in *. pose proof (proj2 (Hsuf t1 E1 E2 ltac:(apply touches_from; by apply A1) T21) Hlen). unfold one. destruct (j =? idx t1), (j =? idx t2); lia.
Qed.
End Compare.

Definition reached R n1 n2 : Prop :=
  tid n1 = tid n2 /\ gid n1 <= gid n2 \/
  tid n1 <> tid n2 /\ exists x y, next_sync R (tid n1) (gid n1) x /\ prev_sync R (tid n2) (gid n2) y /\ ahead R (tid n1) x (tid n2) y.

Lemma ahead_compare e R t1 x t2 y : built e R -> own_gids R -> t1 <> t2 -> sync_point R t1 x -> sync_point R t2 y ->
  exists v1 v2 b, e.(long2VCs) !! x = Some v1 /\ e.(long2VCs) !! y = Some v2 /\ happensBefore v1 v2 = Ok b /\ (b = true <-> ahead R t1 x t2 y).
Proof.
  intros Hb Hown Hne Hx Hy. pose proof Hb as (Hk & Hall & _ & Hlong & _). destruct (latest_ok R x ltac:(by exists t1)) as (P1 & ed1 & R1 & E1 & L1 & X1 & C1). destruct (latest_ok R y ltac:(by exists t2)) as (P2 & ed2 & R2 & E2 & L2 & X2 & C2).
  pose proof (compare_clocks e R Hb Hown t1 t2 x y Hne Hx Hy P1 ed1 R1 E1 X1 P2 ed2 R2 E2 X2) as Hcmp. cbn zeta in Hcmp.
  assert (Hlen : 0 <= len). { rewrite E1 in Hall. apply Forall_app in Hall as [_ [(K & _) _]%Forall_cons]. destruct (known_idx e _ _ Hk K K). lia. }
  rewrite !Hlong, C1, C2. eexists _, _, _. split; [done|]. split; [done|]. split.
  - replace (if gid ed1.2 =? x then _ else _) with (MkVC (stamp len (if gid ed1.2 =? x then to_clock (ed1 :: R1) ed1 else from_clock (ed1 :: R1) ed1)) (if gid ed1.2 =? x then idx (tid ed1.2) else idx (tid ed1.1))) by (by destruct (gid ed1.2 =? x)).
    replace (if gid ed2.2 =? y then _ else _) with (MkVC (stamp len (if gid ed2.2 =? y then to_clock (ed2 :: R2) ed2 else from_clock (ed2 :: R2) ed2)) (if gid ed2.2 =? y then idx (tid ed2.2) else idx (tid ed2.1))) by (by destruct (gid ed2.2 =? y)).
    by apply happens_stamp.
  - rewrite Hcmp. unfold ahead. split.
    + intros (Hle & H2 & H3 & H4). by exists (zlen (ed1 :: R1)), ed1, (zlen (ed2 :: R2)), ed2.
    + intros (k1 & d1 & k2 & d2 & L1' & L2' & Hle & H2 & H3 & H4). rewrite L1 in L1'. rewrite L2 in L2'. injection L1' as <- <-. injection L2' as <- <-. done.
Qed.

Lemma canReach_built e R n1 n2 : built e R -> own_gids R -> exists b, canReach e n1 n2 = Ok b /\ (b = true <-> reached R n1 n2).
Proof.
  intros Hb Hown. unfold canReach, reached. destruct (Z.eqb_spec (tid n1) (tid n2)) as [Et|Hne].
  - exists (gid n1 <=? gid n2). split; [done|]. rewrite Z.leb_le. naive_solver.
  - destruct (down_ok e R (tid n1) (gid n1) Hb Hown) as [[-> Hno]|[Hn0 Hdown]]; [exists false; split; [done|]; naive_solver|]. rewrite (proj2 (Z.eqb_neq _ _)) by done.
    destruct (up_ok e R (tid n2) (gid n2) Hb Hown) as [[-> Hno]|[Hm0 Hup]]; [exists false; split; [done|]; naive_solver|]. rewrite (proj2 (Z.eqb_neq _ _)) by done.
    set (x := findSyncGidDown _ _ _) in *. set (y := findSyncGidUp _ _ _) in *. destruct (ahead_compare e R (tid n1) x (tid n2) y Hb Hown Hne) as (v1 & v2 & b & -> & -> & Hh & Hiff); [by apply (proj2 (Hdown x) eq_refl)|by apply (proj2 (Hup y) eq_refl)|].
    cbn [res_of_option]. rewrite !bind_ok. exists b. split; [done|]. rewrite Hiff. split.
    + intros Ha. right. split; [done|]. exists x, y. split; [by apply Hdown|]. split; [by apply Hup|done].
    + intros [[? _]|(_ & x' & y' & Hx' & Hy' & Ha)]; [done|]. apply Hdown in Hx' as ->. apply Hup in Hy' as ->. done.
Qed.
End Engine.

(** ** The engine as it is used *)

(** What the first pass leaves. *)
Definition collected e : Prop := e.(cond2WaitNotifyLs) = ∅ /\ e.(long2VCs) = ∅ /\ e.(tidToVCs) = ∅ /\ e.(tid2GidsMap) = ∅ /\ e.(tid2IndexMap) = ∅.

(** The threads [ids] have the ends of all edges, and ids are unique. *)
Definition well_collected e (ids : list Z) : Prop :=
  collected e /\ NoDup ids /\ zlen ids < 2 ^ 15 /\ own_gids (edges_of e) /\
  Forall (fun ed => tid ed.1 ∈ ids /\ tid ed.2 ∈ ids) (edges_of e) /\ zlen (matches e.(tidFirstNode) e.(tidLastNode) ∅ e.(orderedSyncNodeList)) < 2 ^ 31.

Definition index_in (ids : list Z) (t : Z) : Z := default 0 (Z.of_nat <$> (fst <$> list_find (eq t) ids)).

Lemma index_in_lookup ids t i : NoDup ids -> ids !! i = Some t -> index_in ids t = Z.of_nat i.
Proof.
  intros Hnd Hi. unfold index_in. destruct (list_find (eq t) ids) as [[j u]|] eqn:E.
  - apply list_find_Some in E as (Hj & <- & _). cbn. by rewrite (NoDup_lookup ids j i t Hnd Hj Hi).
  - apply list_find_None in E. rewrite Forall_forall in E. by destruct (E t); [apply list_elem_of_lookup_2 in Hi|].
Qed.

Lemma index_map_ok ids : NoDup ids -> zlen ids < 2 ^ 15 -> forall m : gmap Z Z, m = foldl (fun m ti => <[ti.2 := s16 ti.1]> m) ∅ (zip (seqZ 0 (zlen ids)) ids) ->
  (forall t i, m !! t = Some i <-> ids !! Z.to_nat i = Some t /\ 0 <= i).
Proof.
  intros Hnd Hlen m ->. cut (forall (k : Z) (l pre : list Z), ids = pre ++ l -> k = zlen pre -> forall m : gmap Z Z, (forall t i, m !! t = Some i <-> pre !! Z.to_nat i = Some t /\ 0 <= i) ->
    forall t i, foldl (fun m ti => <[ti.2 := s16 ti.1]> m) m (zip (seqZ k (zlen l)) l) !! t = Some i <-> ids !! Z.to_nat i = Some t /\ 0 <= i).
  { intros Hgen. apply (Hgen 0 ids []); [done|done|]. intros t i. rewrite lookup_empty, lookup_nil. naive_solver. }
  intros k l. revert k. induction l as [|x l IH]; intros k pre El -> m Hm t i.
  - rewrite app_nil_r in El. subst. apply Hm.
  - assert (Hk : 0 <= zlen pre < 2 ^ 15) by (pose proof (zlen_nonneg pre); pose proof (zlen_nonneg l); rewrite El, zlen_app in Hlen; unfold zlen in *; cbn [length] in Hlen; lia).
    replace (zlen (x :: l)) with (Z.succ (zlen l)) by (unfold zlen; cbn [length]; lia). rewrite seqZ_cons by (pose proof (zlen_nonneg l); lia). rewrite Z.pred_succ. cbn [zip zip_with foldl fst snd].
    replace (Z.succ (zlen pre)) with (zlen (pre ++ [x])) by (rewrite zlen_app; change (zlen [x]) with 1; lia). unfold s16. rewrite swrap_small by lia. apply (IH _ (pre ++ [x])); [by rewrite <- app_assoc|done|].
    intros u j. rewrite lookup_insert_Some. rewrite El in Hnd. assert (Hx : x ∉ pre) by (apply NoDup_app in Hnd as (_ & Hd & _); intros Hin; apply (Hd x Hin); left).
    rewrite lookup_app_Some, list_lookup_singleton_Some, Hm. unfold zlen. split.
    + intros [[<- <-]|[Hne [Hj Hp]]]; [split; [right|lia]; rewrite Nat2Z.id; split; [lia|]; split; [lia|done]|split; [by left|done]].
    + intros [[Hj|(Hge & Hj & <-)] Hp]; [right|left]; [|split; [done|lia]]. split; [|done]. intros <-. by apply list_elem_of_lookup_2 in Hj.
Qed.

Lemma built_start e ids : collected e -> NoDup ids -> zlen ids < 2 ^ 15 -> built (index_in ids) (zlen ids) (setThreadIdsVectorClock e ids) [].
Proof.
  intros (_ & E1 & E2 & E3 & E4) Hnd Hlen. unfold setThreadIdsVectorClock. rewrite E4. set (m := foldl _ _ _). pose proof (index_map_ok ids Hnd Hlen m eq_refl) as Hm. unfold s16. rewrite swrap_small by (pose proof (zlen_nonneg ids); lia).
  split; [split; [done|split]|split; [constructor|split; [|split]]]; cbn [set_ids tid2IndexMap tidToVCs long2VCs tid2GidsMap].
  - intros t i Hi. apply Hm in Hi as [Hi Hp]. rewrite (index_in_lookup ids t _ Hnd Hi). apply lookup_lt_Some in Hi. unfold zlen. lia.
  - intros t t' i [Hi _]%Hm [Hi' _]%Hm. congruence.
  - intros t. by rewrite E2, lookup_empty.
  - intros g. by rewrite E1, lookup_empty.
  - intros t. rewrite E3, lookup_empty. cbn. intros g (ed & Hin & _). by apply not_elem_of_nil in Hin.
Qed.

Lemma index_known e ids t : collected e -> NoDup ids -> zlen ids < 2 ^ 15 -> t ∈ ids -> is_Some ((setThreadIdsVectorClock e ids).(tid2IndexMap) !! t).
Proof.
  intros (_ & _ & _ & _ & E4) Hnd Hlen [i Hi]%list_elem_of_lookup_1. exists (Z.of_nat i). cbn [setThreadIdsVectorClock set_ids tid2IndexMap]. rewrite E4. apply (index_map_ok ids Hnd Hlen _ eq_refl). rewrite Nat2Z.id. split; [done|lia].
Qed.

Lemma postprocessing_ok e ids : well_collected e ids -> exists e', postprocessing (setThreadIdsVectorClock e ids) = Ok e' /\ built (index_in ids) (zlen ids) e' (edges_of e) /\ same_nodes e e'.
Proof.
  intros (Hc & Hnd & Hlen & _ & Hall & Hcount). unfold postprocessing. pose proof Hc as (Hw & _).
  destruct (process_list_ok (index_in ids) (zlen ids) e.(orderedSyncNodeList) (setThreadIdsVectorClock e ids) [] (built_start e ids Hc Hnd Hlen)) as (e' & E & Hb & Hs).
  - cbn [setThreadIdsVectorClock set_ids tidFirstNode tidLastNode cond2WaitNotifyLs]. rewrite Hw. intros ed Hin Ha. rewrite Forall_forall in Hall. destruct (Hall ed) as [H1 H2].
    { unfold edges_of. apply list_elem_of_In, in_rev. rewrite rev_involutive. apply list_elem_of_In, list_elem_of_filter. done. }
    split; [by apply index_known|]. split; [by apply index_known|]. unfold apart in Ha. by apply negb_true_iff, Z.eqb_neq in Ha.
  - cbn [setThreadIdsVectorClock set_ids tidFirstNode tidLastNode cond2WaitNotifyLs]. rewrite Hw. change (zlen (@nil edge)) with 0. lia.
  - exists e'. split; [exact E|]. cbn [setThreadIdsVectorClock set_ids tidFirstNode tidLastNode cond2WaitNotifyLs] in Hb. unfold between in Hb. rewrite app_nil_r, Hw in Hb. split; [exact Hb|exact Hs].
Qed.

(** ** What the answers are worth *)

(** The order of the recorded execution: of a thread, along edges. *)
Inductive hb R : gnode -> gnode -> Prop :=
| hb_thread n1 n2 : tid n1 = tid n2 -> gid n1 <= gid n2 -> hb R n1 n2
| hb_edge n1 n2 : (n1, n2) ∈ R -> hb R n1 n2
| hb_trans n1 n2 n3 : hb R n1 n2 -> hb R n2 n3 -> hb R n1 n3.

(** A thread's ends of edges are processed in its own order. *)
Definition in_program_order R : Prop :=
  forall P ed1 M ed2 R' t g1 g2, R = P ++ ed2 :: M ++ ed1 :: R' -> ends_at ed1 t g1 -> ends_at ed2 t g2 -> g1 <= g2.

Lemma latest_split R g k ed : latest R g = Some (k, ed) -> exists P R', R = P ++ ed :: R' /\ k = zlen (ed :: R') /\ (gid ed.1 = g \/ gid ed.2 = g).
Proof.
  induction R as [|d R IH]; [done|]. cbn [latest]. destruct (Z.eqb_spec (gid d.2) g) as [E|]; [intros [= <- <-]; exists [], R; auto|]. destruct (Z.eqb_spec (gid d.1) g) as [E|]; [intros [= <- <-]; exists [], R; auto|].
  intros Hl. destruct (IH Hl) as (P & R' & -> & ? & ?). by exists (d :: P), R'.
Qed.

(** The answer yes needs one edge between the two threads. *)
Lemma reached_edge R n1 n2 : own_gids R -> in_program_order R -> (forall ed, ed ∈ R -> tid ed.1 <> tid ed.2) -> reached R n1 n2 -> tid n1 <> tid n2 ->
  exists from to, (from, to) ∈ R /\ tid from = tid n1 /\ gid n1 < gid from /\ tid to = tid n2 /\ gid to < gid n2.
Proof.
  intros [Hown _] Hord Hap [[? _]|(_ & x & y & (Hx & Hlx & _) & (Hy & Hly & _) & (k1 & ed1 & k2 & ed2 & L1 & L2 & Hle & Et & Ey & Hf))] Hne; [done|].
  destruct (latest_split R x k1 ed1 L1) as (P1 & R1 & E1 & -> & X1). destruct (latest_split R y k2 ed2 L2) as (P2 & R2 & E2 & -> & _). assert (Hin2 : ed2 ∈ R) by (rewrite E2; set_solver +). assert (Hin1 : ed1 ∈ R) by (rewrite E1; set_solver +).
  exists ed2.1, ed2.2. split; [by destruct ed2|]. split; [done|]. split; [|split; [|lia]].
  - assert (Hend1 : ends_at ed1 (tid n1) x) by (destruct X1 as [X|X]; [left|right]; (split; [|done]); eapply Hown; [|exact Hx| |exact Hx]; exists ed1; (split; [done|]); [left|right]; done).
    assert (Hend2 : ends_at ed2 (tid n1) (gid ed2.1)) by (by left). destruct (decide (zlen (ed1 :: R1) = zlen (ed2 :: R2))) as [Eq|Hlt].
    + assert (ed1 :: R1 = ed2 :: R2) as [= <- <-].
      { rewrite E1 in E2. apply app_inj_2 in E2 as [_ ?]; [done|]. unfold zlen in Eq. lia. }
      destruct Hend1 as [[_ <-]|[Et1 <-]]; [done|]. destruct (Hap ed1 Hin1). congruence.
    + assert (Hsplit : exists M, R2 = M ++ ed1 :: R1).
      { exists (drop (length P2 + 1) P1). rewrite E1 in E2. assert (Hlen : (length P2 + 1 <= length P1)%nat) by (apply (f_equal length) in E2; rewrite !length_app in E2; unfold zlen in *; cbn [length] in *; lia).
        apply (f_equal (drop (length P2 + 1))) in E2. rewrite drop_app_le in E2 by done. rewrite drop_app_ge in E2 by lia. replace (length P2 + 1 - length P2)%nat with 1%nat in E2 by lia. done. }
      destruct Hsplit as [M ->]. pose proof (Hord P2 ed1 M ed2 R1 (tid n1) x (gid ed2.1) E2 Hend1 Hend2). lia.
  - eapply Hown; [|exact Hy]. exists ed2. split; [done|]. by right.
Qed.

Lemma edges_apart e ed : ed ∈ edges_of e -> tid ed.1 <> tid ed.2.
Proof. intros Hin. unfold edges_of in Hin. apply list_elem_of_In, in_rev, list_elem_of_In, list_elem_of_filter in Hin as [Ha _]. unfold apart in Ha. by apply negb_true_iff, Z.eqb_neq in Ha. Qed.

(** What [canReach] answers, exactly: in one thread, whether the first node is not after the second; in two threads,
    whether the last edge at the synchronisation point before the second node comes from the first node's thread, and
    the last edge at the synchronisation point after the first node is not a later one and leaves that thread or comes
    from the other one.  No array is left and no clock is missing. *)
Lemma canReach_decides e ids e' : well_collected e ids -> postprocessing (setThreadIdsVectorClock e ids) = Ok e' ->
  forall n1 n2, exists b, canReach e' n1 n2 = Ok b /\ (b = true <-> reached (edges_of e) n1 n2).
Proof.
  intros Hw E n1 n2. destruct (postprocessing_ok e ids Hw) as (e1 & E1 & Hb & _). assert (e1 = e') as -> by congruence. destruct Hw as (_ & _ & _ & Hown & _). by apply (canReach_built (index_in ids) (zlen ids)).
Qed.

(** [canReach] does not claim an order that the execution did not have.  If the ends of edges in a thread are
    processed in the order of the thread, then a positive answer for nodes of two threads is backed by one edge
    from the first thread, after the first node, to the second thread, before the second node. *)
Lemma canReach_hb e ids e' n1 n2 : well_collected e ids -> in_program_order (edges_of e) ->
  postprocessing (setThreadIdsVectorClock e ids) = Ok e' -> canReach e' n1 n2 = Ok true ->
  hb (edges_of e) n1 n2 /\ (tid n1 <> tid n2 -> exists from to, (from, to) ∈ edges_of e /\ tid from = tid n1 /\ gid n1 < gid from /\ tid to = tid n2 /\ gid to < gid n2).
Proof.
  intros Hw Hord E Hc. pose proof Hw as (_ & _ & _ & Hown & _). destruct (canReach_decides e ids e' Hw E n1 n2) as (b & Eb & Hiff). assert (b = true) as -> by congruence. pose proof (proj1 Hiff eq_refl) as Hr.
  assert (Hedge : tid n1 <> tid n2 -> exists from to, (from, to) ∈ edges_of e /\ tid from = tid n1 /\ gid n1 < gid from /\ tid to = tid n2 /\ gid to < gid n2) by (apply reached_edge; [done..|apply edges_apart|done]).
  split; [|done]. destruct (decide (tid n1 = tid n2)) as [Et|Hne]; [destruct Hr as [[_ Hle]|[? _]]; [by apply hb_thread|done]|]. destruct (Hedge Hne) as (f & t & Hin & Ef & Hf & Ett & Ht).
  apply (hb_trans _ _ f); [by apply hb_thread; [|lia]|]. apply (hb_trans _ _ t); [by apply hb_edge|]. apply hb_thread; [done|lia].
Qed.
