(* ===== verification/SyncLoader.v ===== *)
(** * The first pass of the predictor

    [NewLoadingTask.java] and [EventLoader.preprocessWaitNotify] of
    [src/ufo-predict/src/main/java/aser/ufo/trace]: every trace file is read
    once for its synchronisation nodes, which are handed to the engine of
    Reach.v; the engine then builds its clocks.  A later pass (Reader.v) reads
    the files again for the other nodes, and the two passes must number the
    entries of a file alike, because [canReach] compares those numbers.

    The input and the integers are those of Reader.v.  The statistics of
    [TLStat] and the log are left out.  The reader does not fail here, as in
    Reader.v, so the branch for an [IOException] is not taken. *)
From stdpp Require Import base numbers list gmap sorting.
From Stdlib Require Import ZArith Lia.
From S2P Require Import Prelude Events Reader Reach.

Local Open Scope Z_scope.

(** ** [NewLoadingTask] *)

(** [getRWNode]: the access is read and dropped. *)
Definition sync_getRWNode (size : Z) (bs : list Z) : option node * list Z :=
  let '(_, bs) := getLong48b bs in
  let '(_, bs) := getLong48b bs in
  let '(_, bs) := read_value (Z.to_nat size) bs in
  (None, bs).

Definition sync_getNode (curTid typeIdx : Z) (bs : list Z) : option node * list Z :=
  match typeIdx with
  | 0 =>
      let '(tidParent, bs) := getShort bs in
      let '(_, bs) := getLong48b bs in
      let '(eTime, bs) := getInt bs in
      let '(_, bs) := getLong48b bs in
      let '(_, bs) := getInt bs in
      let '(_, bs) := getLong48b bs in
      let '(_, bs) := getInt bs in
      (Some (TBeginNode curTid tidParent eTime), bs)
  | 1 =>
      let '(tidParent, bs) := getShort bs in
      let '(eTime, bs) := getInt bs in
      (Some (TEndNode curTid tidParent eTime), bs)
  | 2 =>
      let '(index, bs) := getLong48b bs in
      let '(tidKid, bs) := getShort bs in
      let '(eTime, bs) := getInt bs in
      let '(pc, bs) := getLong48b bs in
      (Some (TStartNode index curTid tidKid eTime pc), bs)
  | 3 =>
      let '(index, bs) := getLong48b bs in
      let '(tidKid, bs) := getShort bs in
      let '(eTime, bs) := getInt bs in
      let '(pc, bs) := getLong48b bs in
      (Some (TJoinNode index curTid tidKid eTime pc), bs)
  | 4 | 5 =>
      let '(_, bs) := getLong48b bs in
      let '(_, bs) := getLong48b bs in
      (None, bs)
  | 6 | 7 | 10 | 11 =>
      let '(_, bs) := getLong48b bs in
      let '(_, bs) := getLong48b bs in
      let '(_, bs) := getInt bs in
      (None, bs)
  | 12 =>
      let '(_, bs) := getLong48b bs in
      let '(_, bs) := getLong48b bs in
      (None, bs)
  | 14 =>
      let '(_, bs) := getLong64b bs in
      let '(_, bs) := getLong64b bs in
      (None, bs)
  | 15 => let '(_, bs) := getLong48b bs in (None, bs)
  | 16 => (None, bs)
  | 17 =>
      let '(index, bs) := getLong48b bs in
      let '(cond, bs) := getLong48b bs in
      let '(mutex, bs) := getLong48b bs in
      let '(pc, bs) := getLong48b bs in
      (Some (WaitNode index curTid cond mutex pc), bs)
  | 18 =>
      let '(index, bs) := getLong48b bs in
      let '(cond, bs) := getLong48b bs in
      let '(pc, bs) := getLong48b bs in
      (Some (NotifyNode index curTid cond pc), bs)
  | 19 =>
      let '(index, bs) := getLong48b bs in
      let '(cond, bs) := getLong48b bs in
      let '(pc, bs) := getLong48b bs in
      (Some (NotifyAllNode index curTid cond pc), bs)
  | 20 => let '(_, bs) := getLong48b bs in (None, bs)
  | _ =>
      let type_idx := Z.land typeIdx 0xffffff3f in
      if type_idx <=? 13 then
        let size := Z.shiftl 1 (Z.shiftr typeIdx 6) in
        if type_idx =? 8 then sync_getRWNode size bs
        else if type_idx =? 9 then sync_getRWNode size bs
        else (None, bs)
      else (None, bs)
  end.

Implicit Types (e : engine) (n : gnode).

(** The chain of [instanceof] tests; [saveToStartNodeList],
    [saveToJoinNodeList] and [saveToWaitNotifyList] all are
    [addToOrderedSyncList]. *)
Definition sync_save (t : Z) n e : res engine :=
  match n.2 with
  | TBeginNode _ _ _ => Ok (saveToThreadFirstNode e t n)
  | TEndNode _ _ _ => Ok (saveToThreadLastNode e t n)
  | TStartNode _ _ _ _ _ | TJoinNode _ _ _ _ _
  | WaitNode _ _ _ _ _ | NotifyNode _ _ _ _ | NotifyAllNode _ _ _ _ => addToOrderedSyncList e n
  | _ => Ok e
  end.

(** The body of the loop after [getNode]: [seq.numOfEvents] and the engine. *)
Definition sync_step (t : Z) (o : option node) (st : Z * engine) : res (Z * engine) :=
  let num := s32 (st.1 + 1) in
  match o with
  | Some nd => e ← sync_save t (longs_add t num, nd) st.2; Ok (num, e)
  | None => Ok (num, st.2)
  end.

(** The [while] loop, with fuel for every byte as in Reader.v. *)
Fixpoint sync_loop (fuel : nat) (t bnext : Z) (bs : list Z) (st : Z * engine) : res (Z * engine) :=
  if negb (bnext =? -1) then
    match fuel with
    | O => Err EHang
    | S fuel =>
        let '(o, bs) := sync_getNode t bnext bs in
        st ← sync_step t o st;
        let '(bnext, bs) := read bs in
        sync_loop fuel t bnext bs st
    end
  else Ok st.

(** [load]: the number of events and the engine.  The exception of [getHeader]
    is caught, and leaves the sequence empty. *)
Definition sync_load (t : Z) (file : list Z) e : res (Z * engine) :=
  let e := set_ordered e e.(orderedSyncNodeList) 0 in
  let '(bnext, bs) := read file in
  if bnext =? -1 then Ok (0, e)
  else
    match getHeader bnext bs with
    | None => Ok (0, e)
    | Some (_, bs) => let '(bnext, bs) := read bs in sync_loop (S (length bs)) t bnext bs (0, e)
    end.

(** ** [EventLoader.preprocessWaitNotify] *)

(** [aliveTids_.add] *)
Definition set_add (t : Z) (l : list Z) : list Z := if decide (t ∈ l) then l else l ++ [t].

Definition load_alive (fileInfoMap : gmap Z (list Z)) (t : Z) (st : list Z * engine) : res (list Z * engine) :=
  match fileInfoMap !! t with
  | None => Ok st
  | Some file =>
      r ← sync_load t file st.2;
      Ok (if 0 <? r.1 then set_add t st.1 else st.1, r.2)
  end.

(** The files are the map from thread ids to contents; [toShortArray] is the
    order in which the hash set lists its elements. *)
Definition preprocessWaitNotify (toShortArray : list Z -> list Z) (allThreads : list Z) (fileInfoMap : gmap Z (list Z)) e : res engine :=
  st ← foldM (load_alive fileInfoMap) allThreads ([], e);
  postprocessing (setThreadIdsVectorClock st.2 (toShortArray st.1)).

(** ** The two readers *)

(** The nodes the first pass is after. *)
Definition is_order_node (nd : node) : bool :=
  match nd with
  | TStartNode _ _ _ _ _ | TJoinNode _ _ _ _ _ | WaitNode _ _ _ _ _ | NotifyNode _ _ _ _ | NotifyAllNode _ _ _ _ => true
  | _ => false
  end.

Definition is_engine_node (nd : node) : bool :=
  match nd with TBeginNode _ _ _ | TEndNode _ _ _ => true | _ => is_order_node nd end.

Definition sync_of (g : got) : option node :=
  match g with GNode nd => if is_engine_node nd then Some nd else None | _ => None end.

Lemma getRWNode_sync size (w : bool) t bs : sync_getRWNode size bs = (sync_of (GNode (getRWNode size w t bs).1), (getRWNode size w t bs).2).
Proof.
  unfold sync_getRWNode, getRWNode. destruct (getLong48b bs) as [a bs1], (getLong48b bs1) as [pc bs2], (read_value (Z.to_nat size) bs2) as [vs bs3]. by destruct w.
Qed.

Lemma getNode_default_sync t ty bs :
  (let type_idx := Z.land ty 0xffffff3f in
   if type_idx <=? 13 then
     let size := Z.shiftl 1 (Z.shiftr ty 6) in
     if type_idx =? 8 then sync_getRWNode size bs else if type_idx =? 9 then sync_getRWNode size bs else (None, bs)
   else (None, bs)) = (sync_of (getNode_default t ty bs).1, (getNode_default t ty bs).2).
Proof.
  unfold getNode_default. cbn zeta. case_match; [|done]. case_match; [rewrite (getRWNode_sync _ false t); by destruct (getRWNode _ _ _ _)|].
  case_match; [rewrite (getRWNode_sync _ true t); by destruct (getRWNode _ _ _ _)|done].
Qed.

Lemma getNode_sync t ty bs : sync_getNode t ty bs = (sync_of (getNode t ty bs).1, (getNode t ty bs).2).
Proof.
  unfold sync_getNode, getNode. repeat (match goal with |- context [match ?x with Z0 => _ | _ => _ end] => is_var x; destruct x end || match goal with |- context [match ?x with xH => _ | _ => _ end] => is_var x; destruct x end);
  try apply getNode_default_sync; repeat case_match; simplify_eq; done.
Qed.

(** ** A trace file *)

Record trace : Type := MkTrace { tr_header : UFOHeader; tr_items : list item }.

Definition file_of (tr : trace) : list Z := encode tr.(tr_header) ++ concat (item_bytes <$> tr.(tr_items)).

Definition entry_node (t : Z) (it : item) : option node := sync_of (read_got t it).

Lemma entry_node_tid t it nd : entry_node t it = Some nd -> node_tid nd = t.
Proof. destruct it; cbn; repeat case_match; intros [= <-]; cbn in *; simplify_eq; done. Qed.

(** The synchronisation nodes of the entries after the first [k], each with
    the thread and its place in the file for its id. *)
Fixpoint sync_nodes (t k : Z) (items : list item) : list gnode :=
  match items with
  | [] => []
  | it :: items =>
      match entry_node t it with
      | Some nd => (longs_add t (k + 1), nd) :: sync_nodes t (k + 1) items
      | None => sync_nodes t (k + 1) items
      end
  end.

Definition sync_items (t : Z) (items : list item) (st : Z * engine) : res (Z * engine) := foldM (fun it => sync_step t (entry_node t it)) items st.

Lemma sync_loop_items t items : forall fuel st, Forall item_wf items -> (length items <= fuel)%nat ->
  (let '(bnext, bs) := read (concat (item_bytes <$> items)) in sync_loop fuel t bnext bs st) = sync_items t items st.
Proof.
  induction items as [|it items IH]; intros fuel st Hwf Hfuel; [by destruct fuel|]. apply Forall_cons in Hwf as [Hit Hwf]. cbn [length] in Hfuel. destruct fuel as [|fuel]; [lia|].
  rewrite fmap_cons. cbn [concat]. pose proof (decode1_read t it (concat (item_bytes <$> items)) Hit) as Hd. destruct (item_bytes_head it) as (b & r & E & Hb). rewrite E in *. unfold decode1 in Hd. cbn [app read] in *.
  cbn [sync_loop]. rewrite (proj2 (Z.eqb_neq b (-1))) by done. cbn [negb]. rewrite getNode_sync, Hd. cbn [fst snd]. unfold sync_items. cbn [foldM]. fold (entry_node t it).
  destruct (sync_step t (entry_node t it) st) as [st'|]; [rewrite !bind_ok|done]. apply IH; [done|lia].
Qed.

Lemma sync_step_eq t o k e : 0 <= k < 2 ^ 31 - 1 ->
  sync_step t o (k, e) = match o with Some nd => e ← sync_save t (longs_add t (k + 1), nd) e; Ok (k + 1, e) | None => Ok (k + 1, e) end.
Proof. intros Hk. unfold sync_step. cbn [fst snd]. unfold s32. by rewrite swrap_small by lia. Qed.

Lemma sync_items_save t items : forall k e, 0 <= k -> k + zlen items < 2 ^ 31 ->
  sync_items t items (k, e) = (e' ← foldM (sync_save t) (sync_nodes t k items) e; Ok (k + zlen items, e')).
Proof.
  induction items as [|it items IH]; intros k e Hk Hlen; [cbn; by rewrite Z.add_0_r|]. unfold sync_items. cbn [foldM sync_nodes]. unfold zlen in Hlen. cbn [length] in Hlen.
  rewrite sync_step_eq by lia. replace (k + zlen (it :: items)) with (k + 1 + zlen items) by (unfold zlen; cbn [length]; lia).
  destruct (entry_node t it) as [nd|]; cbn [foldM].
  - destruct (sync_save t (longs_add t (k + 1), nd) e) as [e1|]; [rewrite !bind_ok|done]. apply IH; [lia|unfold zlen; lia].
  - rewrite bind_ok. apply IH; [lia|unfold zlen; lia].
Qed.

Lemma sync_load_trace t tr e : Forall item_wf tr.(tr_items) -> zlen tr.(tr_items) < 2 ^ 31 ->
  sync_load t (file_of tr) e = (e' ← foldM (sync_save t) (sync_nodes t 0 tr.(tr_items)) (set_ordered e e.(orderedSyncNodeList) 0); Ok (zlen tr.(tr_items), e')).
Proof.
  intros Hwf Hlen. unfold sync_load, file_of. destruct tr as [h items]. cbn [tr_header tr_items] in *. erewrite (encode_tag h) by (reflexivity || (cbn; unfold byte_ok; lia)).
  cbn [app read type_val]. cbn [Z.eqb Pos.eqb]. unfold getHeader. cbn [negb Z.eqb Pos.eqb]. rewrite !pack_cons, pack_nil, app_nil_r, <- !app_assoc. rewrite getLong64b_le, getShort_le, getLong64b_le, getInt_le.
  transitivity (sync_items t items (0, set_ordered e e.(orderedSyncNodeList) 0)); [|by rewrite sync_items_save by lia]. rewrite <- (sync_loop_items t items (S (length (read (concat (item_bytes <$> items))).2))).
  - by destruct (read _).
  - done.
  - pose proof (concat_items_length items) as Hl. destruct (concat (item_bytes <$> items)); cbn in *; lia.
Qed.

(** ** The ordered list *)

Definition index_le n1 n2 : Prop := getIndex n1 <= getIndex n2.

#[global] Instance index_le_trans : Transitive index_le.
Proof. intros a b c. unfold index_le. lia. Qed.

Lemma order_position_range g l : forall i, i <= order_position g l i <= i + zlen l.
Proof. induction l as [|n l IH]; intros i; cbn [order_position]; unfold zlen in *; cbn [length]; [lia|]. case_match; [lia|]. pose proof (IH (i + 1)). lia. Qed.

(** The elements the loop passes are smaller, and in a sorted list those it
    leaves are not. *)
Lemma order_position_split g l : forall i, StronglySorted index_le l ->
  Forall (fun n => getIndex n < g) (ztake (order_position g l i - i) l) /\ Forall (fun n => g <= getIndex n) (zdrop (order_position g l i - i) l).
Proof.
  induction l as [|n l IH]; intros i Hs; [cbn [order_position]; rewrite Z.sub_diag; split; constructor|]. cbn [order_position]. apply StronglySorted_inv in Hs as [Hs Hn]. destruct (Z.leb_spec g (getIndex n)) as [Hle|Hlt].
  - rewrite Z.sub_diag. split; [constructor|]. change (Forall (fun m => g <= getIndex m) (n :: l)). constructor; [done|]. eapply Forall_impl; [exact Hn|]. unfold index_le. cbn. intros. lia.
  - destruct (IH (i + 1) Hs) as [H1 H2]. pose proof (order_position_range g l (i + 1)). replace (order_position g l (i + 1) - i) with (Z.succ (order_position g l (i + 1) - (i + 1))) by lia.
    unfold ztake, zdrop in *. rewrite Z2Nat.inj_succ by lia. cbn [take drop]. split; [by constructor|done].
Qed.

Definition ordered_node n : bool := is_order_node n.2.
Definition begin_node n : bool := match n.2 with TBeginNode _ _ _ => true | _ => false end.
Definition end_node n : bool := match n.2 with TEndNode _ _ _ => true | _ => false end.

(** The list is sorted, and what is before the place of the last insertion is
    not above [b]. *)
Definition ordered_to (b : Z) e : Prop :=
  StronglySorted index_le e.(orderedSyncNodeList) /\ 0 <= e.(cur_order_index) <= zlen e.(orderedSyncNodeList) /\
  Forall (fun n => getIndex n <= b) (ztake e.(cur_order_index) e.(orderedSyncNodeList)).

Lemma sorted_insert_at l1 l2 n : StronglySorted index_le (l1 ++ l2) -> Forall (fun m => index_le m n) l1 -> Forall (index_le n) l2 -> StronglySorted index_le (l1 ++ n :: l2).
Proof.
  intros Hs H1 H2. induction l1 as [|m l1 IH]; cbn [app] in *; [by constructor|]. apply StronglySorted_inv in Hs as [Hs Hm]. apply Forall_cons in H1 as [Hmn H1]. constructor; [by apply IH|].
  apply Forall_app in Hm as [Hm1 Hm2]. apply Forall_app. split; [done|]. by constructor.
Qed.

Lemma addToOrderedSyncList_ok b e n : ordered_to b e -> b <= getIndex n ->
  exists l i, addToOrderedSyncList e n = Ok (set_ordered e l i) /\ ordered_to (getIndex n) (set_ordered e l i) /\ l ≡ₚ n :: e.(orderedSyncNodeList).
Proof.
  intros (Hs & Hc & Hb) Hn. unfold addToOrderedSyncList. set (l := orderedSyncNodeList e) in *. set (c := cur_order_index e) in *.
  assert (Hl : ztake c l ++ zdrop c l = l) by (unfold ztake, zdrop; apply take_drop). assert (Hsd : StronglySorted index_le (zdrop c l)) by (rewrite <- Hl in Hs; by apply StronglySorted_app_1_r in Hs).
  destruct (order_position_split (getIndex n) (zdrop c l) c Hsd) as [H1 H2]. pose proof (order_position_range (getIndex n) (zdrop c l) c) as Hr. set (i := order_position _ _ _) in *.
  assert (Hzd : zlen (zdrop c l) = zlen l - c) by (unfold zlen, zdrop in *; rewrite length_drop; lia). assert (Ht : ztake i l = ztake c l ++ ztake (i - c) (zdrop c l)).
  { unfold ztake, zdrop. replace (Z.to_nat i) with (Z.to_nat c + Z.to_nat (i - c))%nat by lia. by rewrite take_take_drop. }
  assert (Hd : zdrop i l = zdrop (i - c) (zdrop c l)) by (unfold zdrop; rewrite drop_drop; f_equal; lia). unfold list_add. rewrite (proj2 (Z.leb_le 0 i)), (proj2 (Z.leb_le i (zlen l))) by lia. cbn [andb]. rewrite bind_ok.
  assert (Hle : Forall (fun m => index_le m n) (ztake i l)).
  { rewrite Ht. apply Forall_app. unfold index_le. split; [eapply Forall_impl; [exact Hb|]|eapply Forall_impl; [exact H1|]]; cbn; intros; lia. }
  eexists _, _. split; [reflexivity|]. split; [|etransitivity; [symmetry; apply Permutation_middle|]; unfold ztake, zdrop; by rewrite take_drop]. split; [|split]; cbn [set_ordered orderedSyncNodeList cur_order_index].
  - apply sorted_insert_at; [unfold ztake, zdrop; by rewrite take_drop|done|by rewrite Hd].
  - unfold zlen, ztake, zdrop in *. rewrite length_app. cbn [length]. rewrite length_take, length_drop. lia.
  - unfold ztake at 1. rewrite take_app_le by (unfold ztake, zlen in *; rewrite length_take; lia). unfold ztake. rewrite take_take, Nat.min_id. exact Hle.
Qed.

(** What collecting leaves alone, and what it does to the maps of first and
    last nodes. *)
Definition same_clocks e e' : Prop :=
  e'.(cond2WaitNotifyLs) = e.(cond2WaitNotifyLs) /\ e'.(long2VCs) = e.(long2VCs) /\ e'.(tidToVCs) = e.(tidToVCs) /\ e'.(tid2GidsMap) = e.(tid2GidsMap) /\ e'.(tid2IndexMap) = e.(tid2IndexMap).

Definition put_last (t : Z) (p : gnode -> bool) (ns : list gnode) (m : gmap Z gnode) : gmap Z gnode := foldl (fun m n => if p n then <[t := n]> m else m) m ns.

Definition indices (ns : list gnode) : list Z := getIndex <$> filter (fun n => ordered_node n = true) ns.

Lemma save_list_ok t ns : forall b e, ordered_to b e -> StronglySorted Z.le (indices ns) -> Forall (Z.le b) (indices ns) ->
  exists e' b', foldM (sync_save t) ns e = Ok e' /\ ordered_to b' e' /\ e'.(orderedSyncNodeList) ≡ₚ filter (fun n => ordered_node n = true) ns ++ e.(orderedSyncNodeList) /\
    e'.(tidFirstNode) = put_last t begin_node ns e.(tidFirstNode) /\ e'.(tidLastNode) = put_last t end_node ns e.(tidLastNode) /\ same_clocks e e'.
Proof.
  induction ns as [|n ns IH]; intros b e Ho Hs Hb; [by exists e, b|]. cbn [foldM]. unfold indices in *. rewrite filter_cons in *. unfold put_last. cbn [foldl].
  destruct (ordered_node n) eqn:En; [rewrite decide_True in * by done|rewrite decide_False in * by congruence].
  - rewrite fmap_cons in Hs, Hb. apply StronglySorted_inv in Hs as [Hs Hn]. apply Forall_cons in Hb as [Hbn _]. destruct (addToOrderedSyncList_ok b e n Ho Hbn) as (l & i & E & Ho1 & Hp).
    destruct (IH (getIndex n) (set_ordered e l i) Ho1 Hs Hn) as (e' & b' & E' & Ho' & Hp' & F & L & C). exists e', b'.
    destruct n as [g []]; try done; cbn [sync_save snd]; rewrite E, bind_ok; (split; [exact E'|]); (split; [done|]); (split; [rewrite Hp'; cbn [set_ordered orderedSyncNodeList]; rewrite Hp; symmetry; apply Permutation_middle|]); (split; [exact F|split; [exact L|exact C]]).
  - destruct n as [g []]; try done; cbn [sync_save snd]; rewrite bind_ok; first [exact (IH b e Ho Hs Hb) | exact (IH b (saveToThreadFirstNode e t _) Ho Hs Hb) | exact (IH b (saveToThreadLastNode e t _) Ho Hs Hb)].
Qed.

(** ** Ids *)

Lemma longs_add_eq t k : - 2 ^ 15 <= t < 2 ^ 15 -> 0 <= k < 2 ^ 32 -> longs_add t k = t * 2 ^ 32 + k.
Proof.
  intros Ht Hk. unfold longs_add. change 0xFFFFFFFF with (Z.ones 32). rewrite Z.land_ones, (Z.mod_small k), Z.shiftl_mul_pow2 by lia. unfold s64. rewrite swrap_small by lia. by apply lor_low.
Qed.

(** A node of a file of thread [t]. *)
Definition numbered (t : Z) n : Prop := tid n = t /\ exists k, gid n = longs_add t k /\ 1 <= k < 2 ^ 31.

Lemma sync_nodes_numbered t items : forall k, 0 <= k -> k + zlen items < 2 ^ 31 -> Forall (numbered t) (sync_nodes t k items).
Proof.
  induction items as [|it items IH]; intros k Hk Hlen; [constructor|]. unfold zlen in Hlen. cbn [length] in Hlen. cbn [sync_nodes]. destruct (entry_node t it) as [nd|] eqn:E; [constructor|]; [|apply IH; unfold zlen; lia..].
  split; [by apply entry_node_tid in E|]. exists (k + 1). split; [done|lia].
Qed.

Lemma numbered_tid t t' n n' : numbered t n -> numbered t' n' -> - 2 ^ 15 <= t < 2 ^ 15 -> - 2 ^ 15 <= t' < 2 ^ 15 -> gid n = gid n' -> t = t'.
Proof. intros (_ & k & E & Hk) (_ & k' & E' & Hk') Ht Ht'. rewrite E, E', !longs_add_eq by lia. lia. Qed.

Lemma numbered_nonzero t n : numbered t n -> - 2 ^ 15 <= t < 2 ^ 15 -> gid n <> 0.
Proof. intros (_ & k & E & Hk) Ht. rewrite E, longs_add_eq by lia. lia. Qed.

(** ** All files *)

Lemma put_last_lookup t p ns : forall m u, put_last t p ns m !! u = if u =? t then (match last (filter (fun n => p n = true) ns) with Some n => Some n | None => m !! t end) else m !! u.
Proof.
  induction ns as [|n ns IH]; intros m u; unfold put_last; cbn [foldl]; [destruct (Z.eqb_spec u t) as [->|]; done|]. fold (put_last t p ns (if p n then <[t:=n]> m else m)). rewrite IH, filter_cons.
  destruct (Z.eqb_spec u t) as [->|Hne]; destruct (p n) eqn:Ep; try (rewrite decide_True by done); try (rewrite decide_False by congruence); try done; [|by rewrite lookup_insert_ne].
  rewrite last_cons, lookup_insert_eq. by destruct (last _).
Qed.

Section Pass.
Context (trs : gmap Z trace).

(** The traces of a run: their entries can be written, none is too long for
    an [int], the thread ids are [short], and the runtime's counter for
    synchronisation only grows. *)
Definition traces_ok : Prop := forall t tr, trs !! t = Some tr ->
  - 2 ^ 15 <= t < 2 ^ 15 /\ Forall item_wf tr.(tr_items) /\ zlen tr.(tr_items) < 2 ^ 31 /\ StronglySorted Z.le (indices (sync_nodes t 0 tr.(tr_items))).

Definition entries (t : Z) : list item := match trs !! t with Some tr => tr.(tr_items) | None => [] end.

Definition nodes_of (t : Z) : list gnode := sync_nodes t 0 (entries t).

(** The nodes the engine orders, of the threads [ts]. *)
Definition all_ordered (ts : list Z) : list gnode := concat ((fun t => filter (fun n => ordered_node n = true) (nodes_of t)) <$> ts).

(** The last node of a kind, which for [TBeginNode] and [TEndNode] is the only
    one. *)
Definition last_nodes (p : gnode -> bool) (ts : list Z) (m : gmap Z gnode) : Prop :=
  forall t, m !! t = if decide (t ∈ ts) then last (filter (fun n => p n = true) (nodes_of t)) else None.

Definition alive (ts : list Z) : list Z := filter (fun t => entries t <> []) ts.

Definition passed (ts : list Z) (st : list Z * engine) : Prop :=
  st.1 = alive ts /\ collected st.2 /\ StronglySorted index_le st.2.(orderedSyncNodeList) /\ st.2.(orderedSyncNodeList) ≡ₚ all_ordered ts /\
  last_nodes begin_node ts st.2.(tidFirstNode) /\ last_nodes end_node ts st.2.(tidLastNode).

Lemma last_nodes_put p ts m t : last_nodes p ts m -> t ∉ ts -> last_nodes p (ts ++ [t]) (put_last t p (nodes_of t) m).
Proof.
  intros Hm Ht u. rewrite put_last_lookup, !Hm. rewrite (decide_False (P := t ∈ ts)) by done. rewrite (decide_ext (u ∈ ts ++ [t]) (u ∈ ts \/ u = t)) by (rewrite elem_of_app, list_elem_of_singleton; done). destruct (Z.eqb_spec u t) as [->|Hne].
  - rewrite decide_True by (by right). by destruct (last _).
  - apply decide_ext. tauto.
Qed.

Lemma ordered_to_start e l : StronglySorted index_le e.(orderedSyncNodeList) -> exists b, ordered_to b (set_ordered e e.(orderedSyncNodeList) 0) /\ (StronglySorted Z.le l -> Forall (Z.le b) l).
Proof.
  intros Hs. exists (default 0 (head l)). split; [split; [done|split; [pose proof (zlen_nonneg e.(orderedSyncNodeList)); cbn [set_ordered cur_order_index orderedSyncNodeList]; lia|constructor]]|].
  destruct l as [|x l]; [constructor|]. intros [_ Hx]%StronglySorted_inv. cbn. by constructor.
Qed.

Lemma all_ordered_snoc ts t : all_ordered (ts ++ [t]) = all_ordered ts ++ filter (fun n => ordered_node n = true) (nodes_of t).
Proof. unfold all_ordered. rewrite fmap_app, concat_app. cbn. by rewrite app_nil_r. Qed.

Lemma alive_snoc ts t : alive (ts ++ [t]) = alive ts ++ match entries t with [] => [] | _ => [t] end.
Proof. unfold alive. rewrite filter_app, filter_cons, filter_nil. destruct (entries t); [rewrite decide_False by tauto|rewrite decide_True by done]; done. Qed.

Lemma load_alive_ok ts t st : traces_ok -> passed ts st -> t ∉ ts -> exists st', load_alive (file_of <$> trs) t st = Ok st' /\ passed (ts ++ [t]) st'.
Proof.
  intros Hok (Ha & (C1 & C2 & C3 & C4 & C5) & Hs & Hp & Hf & Hl) Ht. unfold load_alive. rewrite lookup_fmap. destruct (trs !! t) as [tr|] eqn:E; cbn [fmap option_fmap option_map].
  - assert (Ee : entries t = tr_items tr) by (unfold entries; by rewrite E). destruct (Hok t tr E) as (Htid & Hwf & Hlen & Hsort). rewrite sync_load_trace by done. rewrite <- Ee in *. fold (nodes_of t) in *.
    destruct (ordered_to_start st.2 (indices (nodes_of t)) Hs) as (b & Hb & Hbl). destruct (save_list_ok t (nodes_of t) b _ Hb Hsort (Hbl Hsort)) as (e' & b' & -> & (Hs' & _) & Hp' & F & L & D1 & D2 & D3 & D4 & D5). rewrite !bind_ok.
    eexists. split; [reflexivity|]. cbn [fst snd set_ordered orderedSyncNodeList tidFirstNode tidLastNode cond2WaitNotifyLs long2VCs tidToVCs tid2GidsMap tid2IndexMap] in *. split; [|split; [unfold collected; cbn [snd]; by rewrite D1, D2, D3, D4, D5|split; [done|split; [|split]]]]; cbn [fst snd].
    + rewrite alive_snoc, Ha. destruct (entries t) as [|it its] eqn:Ei.
      * change (zlen (@nil item)) with 0. by rewrite app_nil_r.
      * rewrite (proj2 (Z.ltb_lt 0 _)) by (unfold zlen; cbn [length]; lia). unfold set_add. rewrite decide_False; [done|]. unfold alive. rewrite list_elem_of_filter. tauto.
    + rewrite Hp', Hp, all_ordered_snoc. apply Permutation_app_comm.
    + rewrite F. by apply last_nodes_put.
    + rewrite L. by apply last_nodes_put.
  - assert (Ee : entries t = []) by (unfold entries; by rewrite E). exists st. split; [done|]. assert (En : nodes_of t = []) by (unfold nodes_of; by rewrite Ee). split; [|split; [done|split; [done|split; [|split]]]].
    + by rewrite alive_snoc, Ha, Ee, app_nil_r.
    + by rewrite all_ordered_snoc, En, app_nil_r.
    + pose proof (last_nodes_put _ ts _ t Hf Ht) as Hx. by rewrite En in Hx.
    + pose proof (last_nodes_put _ ts _ t Hl Ht) as Hx. by rewrite En in Hx.
Qed.

Lemma load_files_ok ts : traces_ok -> NoDup ts -> exists st, foldM (load_alive (file_of <$> trs)) ts ([], engine_init) = Ok st /\ passed ts st.
Proof.
  intros Hok Hnd. apply foldM_inv.
  - split; [done|]. split; [done|]. split; [constructor|]. split; [done|]. split; intros t; by rewrite decide_False by apply not_elem_of_nil.
  - intros us t rest st -> Hst. apply load_alive_ok; [done..|]. apply NoDup_app in Hnd as (_ & Hd & _). intros Hin. apply (Hd t Hin). left.
Qed.
End Pass.

(** ** The edges of the files *)

Section Matches.
Context (P : gnode -> Prop) (first last : gmap Z gnode).
Hypothesis Hfirst : map_Forall (fun _ => P) first.
Hypothesis Hlast : map_Forall (fun _ => P) last.

Lemma matched_ends waits n : P n -> map_Forall (fun _ => Forall P) waits ->
  Forall (fun ed : edge => P ed.1 /\ P ed.2) (matched first last waits n).1 /\ map_Forall (fun _ => Forall P) (matched first last waits n).2.
Proof.
  intros Hn Hw. unfold matched. destruct n.2; try (split; [constructor|done]).
  - destruct (first !! tidKid) eqn:E; cbn; (split; [|done]); [|constructor]. apply Forall_singleton. split; [done|]. by apply (Hfirst _ _ E).
  - destruct (last !! tidKid) eqn:E; cbn; (split; [|done]); [|constructor]. apply Forall_singleton. split; [|done]. by apply (Hlast _ _ E).
  - cbn. split; [constructor|]. apply map_Forall_insert_2; [|done]. apply Forall_app. split; [|by apply Forall_singleton]. destruct (waits !! cond) eqn:E; cbn; [by apply (Hw _ _ E)|constructor].
  - destruct (waits !! cond) as [[|w ws]|] eqn:E; cbn; [split; [constructor|done]| |split; [constructor|done]]. pose proof (Hw _ _ E) as Hws. apply Forall_cons in Hws as [Hw1 Hws]. split; [by apply Forall_singleton|]. by apply map_Forall_insert_2.
  - destruct (waits !! cond) as [ws|] eqn:E; cbn; [|split; [constructor|done]]. split; [|by apply map_Forall_insert_2; [constructor|]]. apply Forall_fmap. eapply Forall_impl; [exact (Hw _ _ E)|]. by intros x Hx.
Qed.

Lemma matches_ends l : forall waits, Forall P l -> map_Forall (fun _ => Forall P) waits -> Forall (fun ed : edge => P ed.1 /\ P ed.2) (matches first last waits l).
Proof.
  induction l as [|n l IH]; intros waits Hl Hw; [constructor|]. apply Forall_cons in Hl as [Hn Hl]. cbn [matches]. destruct (matched_ends waits n Hn Hw). apply Forall_app. split; [done|]. by apply IH.
Qed.
End Matches.

(** No node is matched more often than there are nodes. *)
Definition waiting (waits : gmap Z (list gnode)) : Z := map_sum zlen waits.

Lemma waiting_split (waits : gmap Z (list gnode)) c : waiting waits = zlen (default [] (waits !! c)) + waiting (delete c waits).
Proof. unfold waiting. rewrite (map_sum_delete _ waits c). by destruct (waits !! c). Qed.

Lemma waiting_insert (waits : gmap Z (list gnode)) c ws : waiting (<[c := ws]> waits) = zlen ws + waiting (delete c waits).
Proof. apply map_sum_insert. Qed.

Lemma waiting_nonneg (waits : gmap Z (list gnode)) : 0 <= waiting waits.
Proof. apply map_sum_nonneg. apply zlen_nonneg. Qed.

Lemma matched_count first last waits n : zlen (matched first last waits n).1 + waiting (matched first last waits n).2 <= 1 + waiting waits.
Proof.
  unfold matched. destruct n.2; cbn [fst snd]; try (change (zlen (@nil edge)) with 0; lia).
  - destruct (first !! tidKid); unfold zlen; cbn [length]; lia.
  - destruct (last !! tidKid); unfold zlen; cbn [length]; lia.
  - rewrite waiting_insert, (waiting_split waits cond), zlen_app. unfold zlen. cbn [length]. lia.
  - rewrite (waiting_split waits cond). destruct (waits !! cond) as [[|w ws]|] eqn:E; cbn [fst snd]; rewrite ?waiting_insert, ?(waiting_split waits cond), ?E; unfold zlen; cbn [length from_option id]; lia.
  - rewrite (waiting_split waits cond). destruct (waits !! cond) as [ws|] eqn:E; cbn [fst snd]; rewrite ?waiting_insert, ?(waiting_split waits cond), ?E; unfold zlen; cbn [length from_option id]; rewrite ?length_fmap; lia.
Qed.

Lemma matches_count first last l : forall waits, zlen (matches first last waits l) <= zlen l + waiting waits.
Proof.
  induction l as [|n l IH]; intros waits; cbn [matches]; [pose proof (waiting_nonneg waits); unfold zlen; cbn; lia|]. rewrite zlen_app. pose proof (matched_count first last waits n). pose proof (IH (matched first last waits n).2). unfold zlen in *. cbn [length]. lia.
Qed.

(** ** The first pass and the clocks together *)

Section Pass2.
Context (trs : gmap Z trace) (ts : list Z).

Definition of_file n : Prop := exists t, t ∈ ts /\ n ∈ nodes_of trs t.

Lemma of_file_numbered n : traces_ok trs -> of_file n -> exists t, t ∈ alive trs ts /\ numbered t n /\ - 2 ^ 15 <= t < 2 ^ 15.
Proof.
  intros Hok (t & Ht & Hn). unfold nodes_of in Hn. destruct (trs !! t) as [tr|] eqn:E; [|unfold entries in Hn; rewrite E in Hn; cbn in Hn; by apply not_elem_of_nil in Hn].
  assert (Ee : entries trs t = tr_items tr) by (unfold entries; by rewrite E). destruct (Hok t tr E) as (Htid & _ & Hlen & _). exists t. split; [|split; [|done]].
  - unfold alive. apply list_elem_of_filter. split; [|done]. intros En. rewrite En in Hn. by apply not_elem_of_nil in Hn.
  - pose proof (sync_nodes_numbered t (entries trs t) 0) as Hall. rewrite Forall_forall in Hall. apply Hall; [lia|rewrite Ee; lia|done].
Qed.

Lemma passed_ends st : passed trs ts st -> Forall (fun ed : edge => of_file ed.1 /\ of_file ed.2) (matches st.2.(tidFirstNode) st.2.(tidLastNode) ∅ st.2.(orderedSyncNodeList)).
Proof.
  intros (_ & _ & _ & Hp & Hf & Hl). assert (Hmap : forall p (m : gmap Z gnode), last_nodes trs p ts m -> map_Forall (fun _ => of_file) m).
  { intros p m Hm t n Hn. rewrite Hm in Hn. destruct (decide (t ∈ ts)); [|done]. apply last_Some_elem_of, list_elem_of_filter in Hn as [_ Hn]. by exists t. }
  apply matches_ends; [by eapply Hmap|by eapply Hmap| |done]. rewrite Hp. apply Forall_forall. intros n Hn. unfold all_ordered in Hn. apply list_elem_of_In, in_concat in Hn as (ns & Hns & Hn). apply list_elem_of_In, list_elem_of_fmap in Hns as (t & -> & Ht). apply list_elem_of_In, list_elem_of_filter in Hn as [_ Hn]. by exists t.
Qed.

Lemma edges_subset e ed : ed ∈ edges_of e -> ed ∈ matches e.(tidFirstNode) e.(tidLastNode) ∅ e.(orderedSyncNodeList).
Proof. unfold edges_of. intros Hin. apply list_elem_of_In, in_rev, list_elem_of_In, list_elem_of_filter in Hin. tauto. Qed.

Lemma passed_well st ids : traces_ok trs -> passed trs ts st -> NoDup ts -> ids ≡ₚ st.1 -> zlen ts < 2 ^ 15 -> zlen (all_ordered trs ts) < 2 ^ 31 -> well_collected st.2 ids.
Proof.
  intros Hok Hst Hnd Hids Hts Hord. pose proof (passed_ends st Hst) as Hends. rewrite Forall_forall in Hends. pose proof Hst as (Ha & Hc & _ & Hp & _).
  assert (Hsync : forall t g, sync_point (edges_of st.2) t g -> exists n, numbered t n /\ gid n = g /\ t ∈ alive trs ts /\ - 2 ^ 15 <= t < 2 ^ 15).
  { intros t g (ed & Hin & Hend). apply edges_subset, Hends in Hin as [H1 H2].
    destruct Hend as [[<- <-]|[<- <-]]; [destruct (of_file_numbered _ Hok H1) as (u & Hu & Hn & Hb)|destruct (of_file_numbered _ Hok H2) as (u & Hu & Hn & Hb)]; (pose proof Hn as [<- _]); by eexists. }
  split; [done|]. split; [rewrite Hids, Ha; by apply NoDup_filter|]. split; [|split; [split|split]].
  - unfold zlen. rewrite Hids, Ha. unfold alive, zlen in *. pose proof (length_filter (fun t => entries trs t <> []) ts). lia.
  - intros t t' g (n & Hn & E & _ & Ht)%Hsync (n' & Hn' & E' & _ & Ht')%Hsync. apply (numbered_tid t t' n n'); [done..|congruence].
  - intros t (n & Hn & E & _ & Ht)%Hsync. by apply (numbered_nonzero t n).
  - apply Forall_forall. intros ed Hin. rewrite Hids, Ha. destruct (Hsync (tid ed.1) (gid ed.1)) as (_ & _ & _ & ? & _); [by exists ed; split; [|left]|].
    destruct (Hsync (tid ed.2) (gid ed.2)) as (_ & _ & _ & ? & _); [by exists ed; split; [|right]|done].
  - pose proof (matches_count st.2.(tidFirstNode) st.2.(tidLastNode) st.2.(orderedSyncNodeList) ∅) as Hm. change (waiting ∅) with 0 in Hm. pose proof (Permutation_length Hp). unfold zlen in *. lia.
Qed.
End Pass2.

(** What the predictor starts with: the files of a run, the set of its
    threads, and a listing of a hash set, in whatever order. *)
Record input_ok (trs : gmap Z trace) (ts : list Z) (toShortArray : list Z -> list Z) : Prop := {
  in_traces : traces_ok trs;
  in_threads : NoDup ts;
  in_count : zlen ts < 2 ^ 15;
  in_nodes : zlen (all_ordered trs ts) < 2 ^ 31;
  in_listing : forall l, toShortArray l ≡ₚ l;
}.

Lemma first_pass_built trs ts toShortArray : input_ok trs ts toShortArray -> exists st e',
  preprocessWaitNotify toShortArray ts (file_of <$> trs) engine_init = Ok e' /\ postprocessing (setThreadIdsVectorClock st.2 (toShortArray st.1)) = Ok e' /\
  passed trs ts st /\ well_collected st.2 (toShortArray st.1) /\ same_nodes st.2 e' /\ edges_of e' = edges_of st.2.
Proof.
  intros [Hok Hnd Hcount Hnodes Hlist]. destruct (load_files_ok trs ts Hok Hnd) as (st & E & Hst). pose proof (passed_well trs ts st (toShortArray st.1) Hok Hst Hnd (Hlist _) Hcount Hnodes) as Hwell.
  destruct (postprocessing_ok st.2 _ Hwell) as (e' & E' & _ & Hsame). exists st, e'. unfold preprocessWaitNotify. rewrite E, bind_ok. split; [done|]. split; [done|]. split; [done|]. split; [done|]. split; [done|].
  destruct Hsame as (F & L & O). unfold edges_of. by rewrite F, L, O.
Qed.

(** C8: From trace files to answers.  For the files of a run the first pass and the building of the clocks succeed; the
    engine then has the synchronisation nodes of all files, each once, in the order of the runtime's counter, and the
    begin and end nodes of the threads, every node numbered by its place in its file; and [canReach] answers any
    question, yes exactly when the edges between those nodes say so. *)
Theorem first_pass_answers trs ts toShortArray : input_ok trs ts toShortArray -> exists e',
  preprocessWaitNotify toShortArray ts (file_of <$> trs) engine_init = Ok e' /\
  StronglySorted index_le e'.(orderedSyncNodeList) /\ e'.(orderedSyncNodeList) ≡ₚ all_ordered trs ts /\
  last_nodes trs begin_node ts e'.(tidFirstNode) /\ last_nodes trs end_node ts e'.(tidLastNode) /\
  forall n1 n2, exists b, canReach e' n1 n2 = Ok b /\ (b = true <-> reached (edges_of e') n1 n2).
Proof.
  intros Hin. destruct (first_pass_built trs ts toShortArray Hin) as (st & e' & E & Ep & (_ & _ & Hs & Hp & Hf & Hl) & Hw & (F & L & O) & Ee).
  exists e'. split; [done|]. rewrite F, L, O, Ee. split; [done|]. split; [done|]. split; [done|]. split; [done|]. intros n1 n2. by apply (canReach_decides st.2 (toShortArray st.1)).
Qed.

(** C15: The answer yes is right.  If in every thread the ends of edges are met in the order of the thread, then whenever
    [canReach] says yes of two nodes, the recorded execution has the one before the other: in one thread by their
    places in the file, in two by an edge that leaves the first thread after the first node and enters the second
    before the second node. *)
Theorem first_pass_sound trs ts toShortArray e' n1 n2 : input_ok trs ts toShortArray ->
  preprocessWaitNotify toShortArray ts (file_of <$> trs) engine_init = Ok e' -> in_program_order (edges_of e') ->
  canReach e' n1 n2 = Ok true ->
  hb (edges_of e') n1 n2 /\ (tid n1 <> tid n2 -> exists from to, (from, to) ∈ edges_of e' /\ tid from = tid n1 /\ gid n1 < gid from /\ tid to = tid n2 /\ gid to < gid n2).
Proof.
  intros Hin E Hord Hc. destruct (first_pass_built trs ts toShortArray Hin) as (st & e1 & E1 & Ep & _ & Hw & _ & Ee). assert (e1 = e') as -> by congruence. rewrite Ee in *. by apply (canReach_hb st.2 (toShortArray st.1) e').
Qed.

(** ** A chain of threads

    Thread 0 starts thread 1, which starts thread 2; the entries around the
    starts are calls. *)
Module Chain.

Definition header t : UFOHeader := new_UFOHeader t 0 0.
Definition call : item := ItEnter (new_FuncEntryEvent 7).
Definition begin p : item := ItBegin (new_ThreadBeginEvent p 0 0).

Definition chain : gmap Z trace :=
  {[0 := MkTrace (header 0) [begin 0; call; ItCreate (new_CreateThreadEvent 10 1 0 0)];
    1 := MkTrace (header 1) [begin 0; call; ItCreate (new_CreateThreadEvent 11 2 0 0); call];
    2 := MkTrace (header 2) [begin 1; call]]}.

Definition run : res engine := preprocessWaitNotify id [0; 1; 2] (file_of <$> chain) engine_init.

Lemma chain_input : input_ok chain [0; 1; 2] id.
Proof.
  split; [|repeat constructor; set_solver|done|by vm_compute|done]. intros t tr Ht. unfold chain in Ht. repeat (apply lookup_insert_Some in Ht as [[<- <-]|[_ Ht]] || apply lookup_singleton_Some in Ht as [<- <-]);
    (split; [lia|]); (split; [repeat constructor|]); (split; [by vm_compute|]); vm_compute; repeat constructor; discriminate.
Qed.

(** The nodes of the answers below: the entry with number [num] of thread [t]. *)
Definition entry t num : gnode := (longs_add t num, FuncEntryNode t 7).
Definition start0 : gnode := (longs_add 0 3, TStartNode 10 0 1 0 0).
Definition start1 : gnode := (longs_add 1 3, TStartNode 11 1 2 0 0).
Definition begin1 : gnode := (longs_add 1 1, TBeginNode 1 0 0).
Definition begin2 : gnode := (longs_add 2 1, TBeginNode 2 1 0).

Lemma chain_edges e' : run = Ok e' -> edges_of e' = [(start1, begin2); (start0, begin1)].
Proof. intros E. vm_compute in E. injection E as <-. vm_compute. reflexivity. Qed.

Lemma chain_order e' : run = Ok e' -> in_program_order (edges_of e').
Proof.
  intros E0. rewrite (chain_edges e' E0). intros P d1 M d2 R' t g1 g2 E H1 H2. assert (d2 = (start1, begin2) /\ d1 = (start0, begin1)) as [-> ->].
  { destruct P as [|p [|p' P]]; cbn in E; [|apply (f_equal length) in E; rewrite ?length_app in E; cbn in E; rewrite ?length_app in E; cbn in E; lia..].
    injection E as <- E. split; [done|]. destruct M as [|m M]; cbn in E; [by injection E as <- _|]. injection E as _ E. by destruct M. }
  vm_compute in H1, H2. lia.
Qed.

Lemma first_pass_answers_witness : exists e', run = Ok e' /\ forall n1 n2, exists b, canReach e' n1 n2 = Ok b /\ (b = true <-> reached (edges_of e') n1 n2).
Proof. destruct (first_pass_answers chain [0; 1; 2] id chain_input) as (e' & E & _ & _ & _ & _ & Hq). exists e'. split; [exact E|exact Hq]. Defined.

Lemma first_pass_sound_witness : exists e', run = Ok e' /\ hb (edges_of e') (entry 0 2) (entry 1 2).
Proof.
  destruct run as [e'|] eqn:E; [|vm_compute in E; discriminate]. exists e'. split; [reflexivity|].
  apply (first_pass_sound chain [0; 1; 2] id e' (entry 0 2) (entry 1 2) chain_input E (chain_order e' E)). vm_compute in E. injection E as <-. vm_compute. reflexivity.
Defined.

(** [canReach] misses orders that the execution has.  The clock of a synchronisation point is joined with that of
    the other end of its edge, but the clock of its thread is not, so only the latest edge counts: of thread 0, which
    starts thread 1, which starts thread 2, an entry before the start is known to be before those of thread 1 up to
    its next synchronisation, but not before the later ones, and not before those of thread 2. *)
Theorem order_lost : exists e', run = Ok e' /\
  canReach e' (entry 0 2) (entry 1 2) = Ok true /\
  canReach e' (entry 0 2) (entry 1 4) = Ok false /\ hb (edges_of e') (entry 0 2) (entry 1 4) /\
  canReach e' (entry 0 2) (entry 2 2) = Ok false /\ hb (edges_of e') (entry 0 2) (entry 2 2).
Proof.
  destruct run as [e'|] eqn:E; [|vm_compute in E; discriminate]. exists e'. split; [reflexivity|]. rewrite (chain_edges e' E).
  assert (Hstart : hb [(start1, begin2); (start0, begin1)] (entry 0 2) begin1) by (apply (hb_trans _ _ start0); [by apply hb_thread|apply hb_edge; set_solver +]).
  assert (Hall : canReach e' (entry 0 2) (entry 1 2) = Ok true /\ canReach e' (entry 0 2) (entry 1 4) = Ok false /\ canReach e' (entry 0 2) (entry 2 2) = Ok false) by (vm_compute in E; injection E as <-; vm_compute; done).
  destruct Hall as (-> & -> & ->). split; [done|]. split; [done|]. split; [|split; [done|]].
  - apply (hb_trans _ _ begin1); [done|]. by apply hb_thread.
  - apply (hb_trans _ _ begin1); [done|]. apply (hb_trans _ _ start1); [by apply hb_thread|]. apply (hb_trans _ _ begin2); [apply hb_edge; set_solver +|by apply hb_thread].
Qed.
End Chain.
