(* ===== verification/Windows.v ===== *)
(** * Windows of events

    [EventLoader.java], [FileInfo.java] and [BufferedByteReader.java] of
    [src/ufo-predict/src/main/java/aser/ufo/trace], and the loop of
    [Session2.start] around them: the predictor does not load whole files
    but a window of events of every live thread at a time, remembering in each
    file's [FileInfo] where the next window starts.

    The loop of [LoadingTask2.load] is that of Reader.v, here with the bytes it
    leaves, so that windows can follow one another.  A task keeps its
    [lastMemAcc] from one window to the next; the node it then points to belongs
    to an earlier window, so a new window starts without one.  The iteration
    order of the hash sets is the parameter [listing]. *)
From stdpp Require Import base numbers list gmap sorting.
From Stdlib Require Import ZArith Lia.
From S2P Require Import Prelude Events Reader Reach SyncLoader.

Local Open Scope Z_scope.

(** ** Files *)

Record FileInfo : Type := MkFile {
  fi_bytes : list Z;
  fileOffset : Z;
  lastFileOffset : Z;
  enabled : bool;
}.

Definition fsize (fi : FileInfo) : Z := zlen fi.(fi_bytes).

(** [new FileInfo] *)
Definition new_FileInfo (bytes : list Z) : FileInfo := MkFile bytes 0 0 false.

Definition enable (fi : FileInfo) : FileInfo := MkFile fi.(fi_bytes) fi.(fileOffset) fi.(lastFileOffset) true.

(** [BufferedByteReader.init]: a seek before the start of the file is an
    exception. *)
Definition reader_init (fi : FileInfo) : option (list Z) := if fi.(fileOffset) <? 0 then None else Some (zdrop fi.(fileOffset) fi.(fi_bytes)).

(** [BufferedByteReader.finish], one byte back for the tag already read. *)
Definition reader_finish (fi : FileInfo) (byteRead : Z) : FileInfo := MkFile fi.(fi_bytes) (fi.(fileOffset) + byteRead - 1) fi.(fileOffset) fi.(enabled).

(** ** [LoadingTask2.load] from where the last window ended *)

Fixpoint window_loop (fuel : nat) (tid eLimit bnext : Z) (bs : list Z) (seq : TLEventSeq) : option (TLEventSeq * list Z) :=
  if negb (bnext =? -1) && (seq.(seq_eCount) <? eLimit) then
    match fuel with
    | O => None
    | S fuel =>
        let '(g, bs) := getNode tid bnext bs in
        let seq := load_got tid g seq in
        let '(bnext, bs) := read bs in
        window_loop fuel tid eLimit bnext bs seq
    end
  else Some (seq, bs).

(** The part after the header; [start] is what the reader began with. *)
Definition window_from (tid eLimit : Z) (fi : FileInfo) (start : list Z) (h : option TLHeaderNode) (bs : list Z) : option (TLEventSeq * FileInfo) :=
  let '(bnext, bs) := read bs in
  match window_loop (S (length bs)) tid eLimit bnext bs (mkTLEventSeq h [] [] 0 0 None) with
  | Some (seq, rest) => Some (seq, reader_finish fi (zlen start - zlen rest))
  | None => None
  end.

(** [load]; [None] for the sequence whose [events] are null after an
    exception, which leaves the file's offset alone. *)
Definition window_load (tid eLimit : Z) (fi : FileInfo) : option (TLEventSeq * FileInfo) :=
  match reader_init fi with
  | None => None
  | Some start =>
      if fi.(fileOffset) =? 0 then
        let '(bnext, bs) := read start in
        if bnext =? -1 then window_from tid eLimit fi start None bs
        else
          match getHeader bnext bs with
          | None => None
          | Some (h, bs) => window_from tid eLimit fi start (Some h) bs
          end
      else window_from tid eLimit fi start None start
  end.

(** ** [EventLoader] *)

(** A window: what [addTidSeq] put into the indexer. *)
Abbreviation window := (gmap Z (list gnode)).

Record loader : Type := MkLoader {
  fileInfoMap : gmap Z FileInfo;
  aliveTids : gset Z;
}.

(** [nfi.enabled = true] for the threads started *)
Definition enable_all (tids : list Z) (files : gmap Z FileInfo) : gmap Z FileInfo := foldl (fun m t => alter enable t m) files tids.

(** The body of the loop of [addTLSeq]. *)
Definition add_thread (limit : Z) (tid : Z) (st : gmap Z FileInfo * window * gset Z) : gmap Z FileInfo * window * gset Z :=
  let '(files, w, newTids) := st in
  match files !! tid with
  | None => st
  | Some fi =>
      if negb fi.(enabled) then st
      else
        match window_load tid limit fi with
        | None => (delete tid files, w, newTids)
        | Some (seq, fi) =>
            let files := <[tid := fi]> files in
            let '(files, w) :=
              if 0 <? zlen seq.(seq_events) then (files, <[tid := seq.(seq_events)]> w) else (delete tid files, w) in
            if zlen seq.(seq_newTids) <? 1 then (files, w, newTids)
            else (enable_all seq.(seq_newTids) files, w, newTids ∪ list_to_set seq.(seq_newTids))
        end
  end.

Section Loader.
Context (listing : gset Z -> list Z) (windowSize : Z).

Definition addTLSeq (files : gmap Z FileInfo) (w : window) (tids : gset Z) : gmap Z FileInfo * window * gset Z :=
  foldl (fun st t => add_thread windowSize t st) (files, w, ∅) (listing tids).

(** The [while] loop over the threads just found. *)
Fixpoint load_new (fuel : nat) (files : gmap Z FileInfo) (w : window) (alive newTids : gset Z) : option (gmap Z FileInfo * window * gset Z) :=
  if decide (newTids = ∅) then Some (files, w, alive)
  else
    match fuel with
    | O => None
    | S fuel =>
        let '(files, w, nextTids) := addTLSeq files w newTids in
        let nextTids := nextTids ∖ alive in
        load_new fuel files w (alive ∪ nextTids) nextTids
    end.

(** [populateIndexer] up to the indexer's own work. *)
Definition populateIndexer (l : loader) : option (window * loader) :=
  let '(files, w, newTids) := addTLSeq l.(fileInfoMap) ∅ l.(aliveTids) in
  let newTids := newTids ∖ l.(aliveTids) in
  match load_new (S (size l.(fileInfoMap))) files w (l.(aliveTids) ∪ newTids) newTids with
  | None => None
  | Some (files, w, alive) =>
      Some (w, MkLoader (filter (fun tf => tf.2.(fileOffset) < fsize tf.2 - 5) files) alive)
  end.

Definition hasNext (l : loader) : bool := bool_decide (map_Exists (fun _ fi => fi.(enabled) = true) l.(fileInfoMap)).

(** The loop of [Session2.start]. *)
Fixpoint sessions (fuel : nat) (l : loader) : option (list window * loader) :=
  if hasNext l then
    match fuel with
    | O => None
    | S fuel =>
        match populateIndexer l with
        | None => None
        | Some (w, l) =>
            match sessions fuel l with Some (ws, l) => Some (w :: ws, l) | None => None end
        end
    end
  else Some ([], l).
End Loader.

(** [init]: the first thread is the one with the smallest id. *)
Definition loader_init (files : gmap Z (list Z)) : option loader :=
  match merge_sort Z.le (map_to_list files).*1 with
  | [] => None
  | mainTid :: _ => Some (MkLoader (alter enable mainTid (new_FileInfo <$> files)) {[mainTid]})
  end.

(** ** A window moves on *)

Lemma shorter_getHeader typeIdx bs h bs' : getHeader typeIdx bs = Some (h, bs') -> (length bs' <= length bs)%nat.
Proof.
  unfold getHeader. destruct (negb (typeIdx =? 13)); [done|]. pose proof (shorter_getLong64b bs). destruct (getLong64b bs) as [v b1]. pose proof (shorter_getShort b1). destruct (getShort b1) as [p b2].
  pose proof (shorter_getLong64b b2). destruct (getLong64b b2) as [tm b3]. pose proof (shorter_getInt b3). destruct (getInt b3) as [len b4]. intros [= _ <-]. cbn [snd] in *. lia.
Qed.

Lemma window_loop_some fuel tid eLimit : forall bnext bs seq, (length bs < fuel)%nat -> is_Some (window_loop fuel tid eLimit bnext bs seq).
Proof.
  induction fuel as [|fuel IH]; intros bnext bs seq Hlen; [lia|]. cbn [window_loop]. case_match; [|done].
  pose proof (shorter_getNode tid bnext bs) as Hs. destruct (getNode tid bnext bs) as [g bs']. cbn in Hs. destruct bs' as [|b bs']; cbn [read]; [destruct fuel; cbn; eauto|]. apply IH. cbn in Hs. lia.
Qed.

(** A turn of the loop takes a byte, unless it reaches the end. *)
Lemma window_loop_rest fuel tid eLimit : forall bnext bs seq seq' rest, window_loop fuel tid eLimit bnext bs seq = Some (seq', rest) ->
  zlen rest <= zlen bs /\ (seq' = seq \/ rest = [] \/ zlen rest < zlen bs).
Proof.
  induction fuel as [|fuel IH]; intros bnext bs seq seq' rest; cbn [window_loop]; (case_match; [|intros [= <- <-]; split; [lia|by left]]); [done|].
  pose proof (shorter_getNode tid bnext bs) as Hs. destruct (getNode tid bnext bs) as [g bs']. cbn in Hs. destruct bs' as [|b bs']; cbn [read].
  - intros E. apply IH in E as [Hle _]. unfold zlen in *. cbn [length] in *. split; [lia|]. right. left. destruct rest; [done|]. cbn [length] in Hle. lia.
  - intros E. apply IH in E as [Hle _]. unfold zlen in *. cbn [length] in *. split; [lia|]. right. right. lia.
Qed.

Implicit Types (fi : FileInfo) (files : gmap Z FileInfo) (w : window) (tids alive : gset Z).

Definition file_ok fi : Prop := 0 <= fi.(fileOffset) <= fsize fi.

(** The file a later window finds. *)
Definition advanced fi fi' : Prop := fi'.(fi_bytes) = fi.(fi_bytes) /\ fi.(fileOffset) <= fi'.(fileOffset) <= fsize fi /\ (fi.(enabled) = true -> fi'.(enabled) = true).

(** It is further on, or will be dropped. *)
Definition moved fi fi' : Prop := fi.(fileOffset) < fi'.(fileOffset) \/ fsize fi - 5 <= fi'.(fileOffset).

Lemma advanced_refl fi : file_ok fi -> advanced fi fi.
Proof. unfold file_ok, advanced. auto with lia. Qed.

Lemma advanced_trans fi1 fi2 fi3 : advanced fi1 fi2 -> advanced fi2 fi3 -> advanced fi1 fi3.
Proof. intros (B1 & O1 & E1) (B2 & O2 & E2). unfold advanced, fsize in *. rewrite B1 in *. split; [done|]. split; [lia|auto]. Qed.

Lemma advanced_moved fi1 fi2 fi3 : moved fi1 fi2 -> advanced fi2 fi3 -> moved fi1 fi3.
Proof. intros H (B & O & _). unfold moved in *. lia. Qed.

Lemma moved_advanced fi1 fi2 fi3 : advanced fi1 fi2 -> moved fi2 fi3 -> moved fi1 fi3.
Proof. intros (B & O & _) H. unfold moved, fsize in *. rewrite B in *. lia. Qed.

Lemma advanced_enable fi : file_ok fi -> advanced fi (enable fi).
Proof. unfold file_ok, advanced. destruct fi. cbn. auto with lia. Qed.

Lemma advanced_ok fi fi' : file_ok fi -> advanced fi fi' -> file_ok fi'.
Proof. intros H (B & O & _). unfold file_ok, fsize in *. rewrite B. lia. Qed.

Lemma window_from_moves tid eLimit fi start h bs seq fi' : file_ok fi -> zlen start = fsize fi - fi.(fileOffset) -> zlen bs <= zlen start ->
  window_from tid eLimit fi start h bs = Some (seq, fi') -> seq.(seq_events) <> [] -> advanced fi fi' /\ moved fi fi'.
Proof.
  intros Hok Hst Hbs E Hne. unfold window_from in E. assert (Hnil : forall h s, s = mkTLEventSeq h [] [] 0 0 None -> seq_events s = []) by (by intros ? ? ->). destruct bs as [|b bs]; cbn [read] in E.
  - cbn in E. injection E as <- _. by destruct Hne.
  - destruct (window_loop _ _ _ _ _ _) as [[s rest]|] eqn:El; [|done]. injection E as <- <-. apply window_loop_rest in El as [Hle H]. unfold advanced, moved, reader_finish, file_ok in *. cbn [fi_bytes fileOffset enabled].
    unfold zlen in Hbs. cbn [length] in Hbs. pose proof (zlen_nonneg rest). destruct H as [->|[->|Hlt]]; [by destruct Hne| |].
    + change (zlen (@nil Z)) with 0. unfold zlen in *. split; [split; [done|split; [lia|done]]|right; lia].
    + unfold zlen in *. split; [split; [done|split; [lia|done]]|left; lia].
Qed.

Lemma window_load_moves tid eLimit fi seq fi' : file_ok fi -> window_load tid eLimit fi = Some (seq, fi') -> seq.(seq_events) <> [] -> advanced fi fi' /\ moved fi fi'.
Proof.
  intros Hok E Hne. unfold window_load, reader_init in E. pose proof Hok as Ho. unfold file_ok in Ho. rewrite (proj2 (Z.ltb_ge _ 0)) in E by lia.
  set (start := zdrop (fileOffset fi) (fi_bytes fi)) in *. assert (Hst : zlen start = fsize fi - fileOffset fi) by (unfold start, zdrop, fsize, zlen in *; rewrite length_drop; lia).
  destruct (fileOffset fi =? 0); [|by eapply window_from_moves in E]. pose proof (read_shorter start) as Hr. destruct (read start) as [bnext bs]. cbn in Hr. destruct (bnext =? -1); [eapply window_from_moves in E; [done..|unfold zlen; lia|done]|].
  destruct (getHeader bnext bs) as [[h bs']|] eqn:Eh; [|done]. eapply window_from_moves in E; [done..| |done]. apply shorter_getHeader in Eh. unfold zlen. lia.
Qed.

(** ** Every round ends, and so do the rounds *)

Definition files_ok files : Prop := map_Forall (fun _ => file_ok) files.

(** What loading the threads [ts] does to the files: [new] are the threads it
    finds. *)
Definition loaded (ts : list Z) (new : gset Z) files files' : Prop := forall t fi', files' !! t = Some fi' ->
  exists fi, files !! t = Some fi /\ advanced fi fi' /\ (t ∈ ts -> fi.(enabled) = true -> moved fi fi') /\ (fi'.(enabled) = true -> fi.(enabled) = true \/ t ∈ new).

Lemma loaded_ok ts new files files' : files_ok files -> loaded ts new files files' -> files_ok files'.
Proof. intros Hok H t fi' Hf. destruct (H t fi' Hf) as (fi & Hfi & Ha & _). by apply (advanced_ok fi); [apply (Hok t)|]. Qed.

Lemma loaded_refl new files : files_ok files -> loaded [] new files files.
Proof. intros Hok t fi Hf. exists fi. split; [done|]. split; [by apply advanced_refl, (Hok t)|]. split; [by intros ?%not_elem_of_nil|auto]. Qed.

Lemma loaded_app ts ts' new new' files1 files2 files3 : loaded ts new files1 files2 -> loaded ts' new' files2 files3 -> new ⊆ new' -> loaded (ts ++ ts') new' files1 files3.
Proof.
  intros H1 H2 Hnew t fi3 H3. destruct (H2 t fi3 H3) as (fi2 & Hf2 & A2 & M2 & E2). destruct (H1 t fi2 Hf2) as (fi1 & Hf1 & A1 & M1 & E1). exists fi1. split; [done|]. split; [by apply (advanced_trans _ fi2)|]. split.
  - intros [Hin|Hin]%elem_of_app Hen; [by apply (advanced_moved _ fi2); [apply M1|]|]. apply (moved_advanced _ fi2); [done|]. apply M2; [done|]. by apply A1.
  - intros Hen. destruct (E2 Hen) as [He|Hin]; [|by right]. destruct (E1 He) as [|Hin]; [by left|right; set_solver].
Qed.

Lemma loaded_weaken ts ts' new new' files files' : loaded ts new files files' -> (forall t, t ∈ ts' -> t ∈ ts) -> new ⊆ new' -> loaded ts' new' files files'.
Proof. intros H Hts Hnew t fi' Hf. destruct (H t fi' Hf) as (fi & ? & ? & Hm & He). exists fi. split; [done|]. split; [done|]. split; [auto|]. intros Hen. destruct (He Hen); [by left|right; set_solver]. Qed.

Lemma enable_all_lookup ts files t : enable_all ts files !! t = if decide (t ∈ ts) then enable <$> files !! t else files !! t.
Proof.
  revert files. induction ts as [|x ts IH]; intros files; cbn [enable_all foldl]; [done|]. fold (enable_all ts (alter enable x files)). rewrite IH. destruct (decide (t = x)) as [->|Hne].
  - rewrite lookup_alter_eq. rewrite (decide_True (P := x ∈ x :: ts)) by left. destruct (decide (x ∈ ts)); [|done]. destruct (files !! x) as [[]|]; done.
  - rewrite lookup_alter_ne by done. apply decide_ext. rewrite elem_of_cons. naive_solver.
Qed.

Lemma loaded_enable ts new files : files_ok files -> loaded [] (new ∪ list_to_set ts) files (enable_all ts files).
Proof.
  intros Hok t fi' Hf. rewrite enable_all_lookup in Hf. destruct (decide (t ∈ ts)) as [Hin|Hin].
  - destruct (files !! t) as [fi|] eqn:E; [|done]. injection Hf as <-. exists fi. split; [done|]. split; [by apply advanced_enable, (Hok t)|]. split; [by intros ?%not_elem_of_nil|]. intros _. right. apply elem_of_union. right. by apply elem_of_list_to_set.
  - exists fi'. split; [done|]. split; [by apply advanced_refl, (Hok t)|]. split; [by intros ?%not_elem_of_nil|auto].
Qed.

Lemma loaded_delete t new files : files_ok files -> loaded [t] new files (delete t files).
Proof. intros Hok u fi [Hne Hf]%lookup_delete_Some. exists fi. split; [done|]. split; [by apply advanced_refl, (Hok u)|]. split; [by intros ->%list_elem_of_singleton|auto]. Qed.

Lemma loaded_insert t new files fi fi' : files_ok files -> files !! t = Some fi -> fi.(enabled) = true -> advanced fi fi' -> moved fi fi' -> loaded [t] new files (<[t := fi']> files).
Proof.
  intros Hok Hf He Ha Hm u fu Hu. apply lookup_insert_Some in Hu as [[<- <-]|[Hne Hu]]; [exists fi; auto|]. exists fu. split; [done|]. split; [by apply advanced_refl, (Hok u)|]. split; [by intros ->%list_elem_of_singleton|auto].
Qed.

Lemma add_thread_loaded limit t files w new files' w' new' : files_ok files -> add_thread limit t (files, w, new) = (files', w', new') ->
  loaded [t] new' files files' /\ new ⊆ new' /\ (new' = new \/ is_Some (files !! t)).
Proof.
  intros Hok E. cbn [add_thread] in E. destruct (files !! t) as [fi|] eqn:Ef; [|injection E as <- <- <-; split; [|auto]; intros u fu Hu; exists fu; split; [done|]; split; [by apply advanced_refl, (Hok u)|]; split; [intros ->%list_elem_of_singleton; congruence|auto]].
  destruct (enabled fi) eqn:Een; cbn [negb] in E; [|injection E as <- <- <-; split; [|auto]; intros u fu Hu; exists fu; split; [done|]; split; [by apply advanced_refl, (Hok u)|]; split; [intros ->%list_elem_of_singleton; congruence|auto]].
  destruct (window_load t limit fi) as [[seq fi']|] eqn:El; [|injection E as <- <- <-; split; [by apply loaded_delete|auto]].
  set (fw := if 0 <? zlen (seq_events seq) then _ else _) in E. assert (Hl : forall new, loaded [t] new files fw.1).
  { intros new0. unfold fw. destruct (Z.ltb_spec 0 (zlen (seq_events seq))) as [Hpos|_]; cbn [fst].
    - destruct (window_load_moves t limit fi seq fi' (Hok t fi Ef) El) as [Ha Hm]; [intros En; rewrite En in Hpos; by vm_compute in Hpos|]. by apply (loaded_insert t new0 files fi).
    - rewrite delete_insert_eq. by apply loaded_delete. }
  destruct fw as [files1 w1]. cbn [fst] in Hl. destruct (zlen (seq_newTids seq) <? 1); injection E as <- <- <-; [split; [done|]; split; [done|]; by right|]. split; [|split; [set_solver|by right]].
  apply (loaded_app [t] [] new (new ∪ list_to_set (seq_newTids seq)) files files1); [done| |set_solver]. apply loaded_enable. by apply (loaded_ok [t] new files).
Qed.

Lemma add_thread_new limit t files w new files' w' new' : add_thread limit t (files, w, new) = (files', w', new') -> new ⊆ new'.
Proof. intros E. cbn [add_thread] in E. repeat (case_match; simplify_eq; try done); set_solver +. Qed.

Lemma fold_new limit ts : forall files w new files' w' new', foldl (fun st t => add_thread limit t st) (files, w, new) ts = (files', w', new') -> new ⊆ new'.
Proof.
  induction ts as [|t ts IH]; intros files w new files' w' new' E; cbn [foldl] in E; [by injection E as _ _ <-|]. destruct (add_thread limit t (files, w, new)) as [[f2 w2] n2] eqn:E2. apply IH in E. apply add_thread_new in E2. set_solver +E E2.
Qed.

Lemma fold_loaded limit ts : forall files w new files' w' new', files_ok files -> foldl (fun st t => add_thread limit t st) (files, w, new) ts = (files', w', new') ->
  loaded ts new' files files' /\ new ⊆ new' /\ (new' = new \/ exists t, t ∈ ts /\ is_Some (files !! t)).
Proof.
  induction ts as [|t ts IH]; intros files w new files' w' new' Hok E; cbn [foldl] in E; [injection E as <- <- <-; split; [by apply loaded_refl|auto]|].
  destruct (add_thread limit t (files, w, new)) as [[files1 w1] new1] eqn:E1. apply add_thread_loaded in E1 as (L1 & S1 & N1); [|done]. apply IH in E as (L2 & S2 & N2); [|by apply (loaded_ok [t] new1 files)].
  split; [by apply (loaded_app [t] ts new1 new' files files1)|]. split; [set_solver|]. destruct N2 as [->|(u & Hu & fu & Hfu)]; [destruct N1 as [->|]; [by left|right; exists t; split; [left|done]]|].
  right. exists u. split; [by right|]. destruct (L1 u fu Hfu) as (fi & -> & _). done.
Qed.

Lemma subset_new (A B : gset Z) : B ⊆ A ∪ B ∖ A.
Proof. intros x Hx. destruct (decide (x ∈ A)); set_solver. Qed.

Lemma remove_new (A B : gset Z) : (A ∪ B ∖ A) ∖ (B ∖ A) = A.
Proof. apply set_eq. intros x. destruct (decide (x ∈ A)); set_solver. Qed.

Lemma put_back (A B : gset Z) : B ⊆ A -> A ∖ B ∪ B = A.
Proof. intros H. apply set_eq. intros x. destruct (decide (x ∈ B)); set_solver. Qed.

Lemma union_new (A B : gset Z) : A ∪ B ∖ A = A ∪ B.
Proof. apply set_eq. intros x. destruct (decide (x ∈ A)); set_solver. Qed.

Section Rounds.
Context (listing : gset Z -> list Z) (windowSize : Z).
Hypothesis Hlisting : forall s, listing s ≡ₚ elements s.

Lemma in_listing_set (s : gset Z) t : t ∈ listing s <-> t ∈ s.
Proof. rewrite Hlisting. apply elem_of_elements. Qed.

Lemma addTLSeq_loaded files w tids files' w' new : files_ok files -> addTLSeq listing windowSize files w tids = (files', w', new) ->
  loaded (listing tids) new files files' /\ (new = ∅ \/ exists t, t ∈ tids /\ is_Some (files !! t)).
Proof.
  intros Hok E. apply fold_loaded in E as (L & _ & N); [|done]. split; [done|]. destruct N as [|(t & Ht & Hs)]; [by left|right]. exists t. by rewrite <- in_listing_set.
Qed.

(** The files of threads not yet loaded in this round. *)
Definition pending (done : gset Z) files : nat := size (filter (fun tf => tf.1 ∉ done) files).

Lemma pending_lt done alive files files' : done ⊆ alive -> (forall t, is_Some (files' !! t) -> is_Some (files !! t)) -> (exists t, t ∈ alive ∖ done /\ is_Some (files !! t)) -> (pending alive files' < pending done files)%nat.
Proof.
  intros Hsub Hdom (t & Ht & Hft). unfold pending. rewrite <- !size_dom. apply subset_size. split.
  - intros u Hu. apply elem_of_dom in Hu as [fu Hu]. apply map_lookup_filter_Some in Hu as [Hu Hn]. cbn in Hn. destruct (Hdom u) as [fi Hfi]; [by exists fu|]. apply elem_of_dom. exists fi. apply map_lookup_filter_Some. split; [done|]. cbn. intros Hd. by apply Hn, Hsub.
  - intros Hsubset. destruct Hft as [fi Hfi]. assert (Hin : t ∈ dom (filter (fun tf => tf.1 ∉ done) files)) by (apply elem_of_dom; exists fi; apply map_lookup_filter_Some; split; [done|cbn; by apply elem_of_difference in Ht as [_ ?]]).
    apply Hsubset, elem_of_dom in Hin as [fu Hu]. apply map_lookup_filter_Some in Hu as [_ Hn]. cbn in Hn. by apply elem_of_difference in Ht as [? _].
Qed.

Lemma load_new_ends fuel : forall files w alive new, files_ok files -> new ⊆ alive -> (pending (alive ∖ new) files < fuel)%nat ->
  exists files' w' alive', load_new listing windowSize fuel files w alive new = Some (files', w', alive') /\ alive ⊆ alive' /\ loaded [] alive' files files'.
Proof.
  induction fuel as [|fuel IH]; intros files w alive new Hok Hsub Hp; [lia|]. cbn [load_new]. destruct (decide (new = ∅)) as [->|Hne]; [exists files, w, alive; split; [done|]; split; [done|]; by apply loaded_refl|].
  destruct (addTLSeq listing windowSize files w new) as [[files1 w1] next] eqn:E. apply addTLSeq_loaded in E as (L & N); [|done]. assert (Hok1 : files_ok files1) by (by eapply loaded_ok).
  destruct (decide (next ∖ alive = ∅)) as [En|Hnn].
  - exists files1, w1, (alive ∪ next ∖ alive). split; [rewrite En; destruct fuel; cbn [load_new]; by rewrite decide_True|]. split; [set_solver|]. apply (loaded_weaken (listing new) [] next); [done|by intros ? ?%not_elem_of_nil|apply subset_new].
  - destruct N as [->|(t & Ht & Hf)]; [set_solver +Hnn|]. destruct (IH files1 w1 (alive ∪ next ∖ alive) (next ∖ alive) Hok1) as (files' & w' & alive' & E' & S' & L'); [set_solver +| |].
    + rewrite remove_new. pose proof (pending_lt (alive ∖ new) alive files files1) as Hlt. enough (pending alive files1 < pending (alive ∖ new) files)%nat by lia.
      apply Hlt; [set_solver +| |exists t; split; [set_solver +Ht Hsub|done]]. intros u [fu Hu]. destruct (L u fu Hu) as (fi & -> & _). done.
    + exists files', w', alive'. split; [done|]. split; [set_solver +S'|]. apply (loaded_app [] [] alive' alive' files files1); [|done|done]. apply (loaded_weaken (listing new) [] next); [done|by intros ? ?%not_elem_of_nil|]. etransitivity; [apply subset_new|exact S'].
Qed.

(** Enabled files are those of live threads. *)
Definition loader_ok (l : loader) : Prop := files_ok l.(fileInfoMap) /\ forall t fi, l.(fileInfoMap) !! t = Some fi -> fi.(enabled) = true -> t ∈ l.(aliveTids).

Lemma populate_ends l : loader_ok l -> exists w l', populateIndexer listing windowSize l = Some (w, l') /\ loader_ok l' /\ l.(aliveTids) ⊆ l'.(aliveTids) /\
  forall t fi', l'.(fileInfoMap) !! t = Some fi' -> exists fi, l.(fileInfoMap) !! t = Some fi /\ advanced fi fi' /\ (fi.(enabled) = true -> fi.(fileOffset) < fi'.(fileOffset)).
Proof.
  intros [Hok Hal]. unfold populateIndexer. destruct (addTLSeq _ _ _ _ _) as [[files1 w1] new] eqn:E. apply addTLSeq_loaded in E as (L & N); [|done]. assert (Hok1 : files_ok files1) by (by eapply loaded_ok).
  destruct (load_new_ends (S (size (fileInfoMap l))) files1 w1 (aliveTids l ∪ new ∖ aliveTids l) (new ∖ aliveTids l) Hok1) as (files2 & w2 & alive2 & -> & S2 & L2); [set_solver +| |].
  { apply Nat.lt_succ_r. unfold pending. transitivity (size files1); [apply map_size_filter|]. rewrite <- !size_dom. apply subseteq_size. intros t [fi Hf]%elem_of_dom. destruct (L t fi Hf) as (f0 & Hf0 & _). apply elem_of_dom. by exists f0. }
  assert (Hnew : new ⊆ alive2) by (etransitivity; [apply subset_new|exact S2]). eexists _, _. split; [reflexivity|]. pose proof (loaded_app _ _ _ alive2 _ _ _ (loaded_weaken _ (listing (aliveTids l)) _ alive2 _ _ L (fun _ H => H) Hnew) L2 (reflexivity _)) as La. rewrite app_nil_r in La.
  split; [split|split; [set_solver +S2|]]; cbn [fileInfoMap aliveTids].
  - intros t fi Hf. apply map_lookup_filter_Some in Hf as [Hf _]. by apply (loaded_ok _ _ _ _ Hok La t).
  - intros t fi Hf Hen. apply map_lookup_filter_Some in Hf as [Hf _]. destruct (La t fi Hf) as (f0 & Hf0 & _ & _ & He). destruct (He Hen); [|done]. apply S2. apply elem_of_union. left. by apply (Hal t f0).
  - intros t fi Hf. apply map_lookup_filter_Some in Hf as [Hf Hlt]. destruct (La t fi Hf) as (f0 & Hf0 & Ha & Hm & _). exists f0. split; [done|]. split; [done|]. intros Hen. destruct Hm as [|Hge]; [apply in_listing_set; by apply (Hal t f0)|done|done|].
    destruct Ha as (B & _). cbn [snd] in Hlt. unfold fsize in *. rewrite B in Hlt. lia.
Qed.

Definition weight fi : Z := Z.max 0 (fsize fi - fi.(fileOffset)) + 1.

Lemma sessions_end fuel : forall l, loader_ok l -> map_sum weight l.(fileInfoMap) < Z.of_nat fuel -> exists ws l', sessions listing windowSize fuel l = Some (ws, l') /\ hasNext l' = false /\ l.(aliveTids) ⊆ l'.(aliveTids).
Proof.
  assert (Hw : forall fi, 0 <= weight fi) by (intros; unfold weight; lia). induction fuel as [|fuel IH]; intros l Hok Hf; [pose proof (map_sum_nonneg weight Hw (fileInfoMap l)); lia|].
  cbn [sessions]. destruct (hasNext l) eqn:Hn; [|by exists [], l]. apply bool_decide_eq_true in Hn as (t & fi & Hfi & Hen). destruct (populate_ends l Hok) as (w & l1 & -> & Hok1 & Hal & Hl).
  destruct (IH l1 Hok1) as (ws & l' & -> & Hn' & Hal'); [|exists (w :: ws), l'; split; [done|]; split; [done|set_solver +Hal Hal']]. enough (map_sum weight (fileInfoMap l1) < map_sum weight (fileInfoMap l)) by lia.
  assert (Hle : forall f f', advanced f f' -> weight f' <= weight f) by (intros f f' (B & O & _); unfold weight, fsize in *; rewrite B; lia). apply (map_sum_lt weight Hw _ _ t fi); [|done|unfold weight; lia|].
  - intros u fu Hu. destruct (Hl u fu Hu) as (f & ? & ? & _). exists f. auto.
  - intros f' Hf'. destruct (Hl t f' Hf') as (f & Ef & (B & O & _) & Hlt). assert (f = fi) as -> by congruence. specialize (Hlt Hen). unfold weight, fsize in *. rewrite B in *. lia.
Qed.
End Rounds.

(** ** Windows of a trace *)

Definition body (items : list item) : list Z := concat (item_bytes <$> items).

Lemma zlen_body_cons it items : zlen (body (it :: items)) = zlen (item_bytes it) + zlen (body items).
Proof. unfold body. rewrite fmap_cons. cbn [concat]. apply zlen_app. Qed.

Lemma body_app items items' : body (items ++ items') = body items ++ body items'.
Proof. unfold body. rewrite fmap_app. apply concat_app. Qed.

(** The loop stops after the first [n] entries: at the end, or with a full
    window. *)
Definition stops t eLimit (items : list item) (n : nat) (seq : TLEventSeq) : Prop :=
  (n <= length items)%nat /\ (n = length items \/ eLimit <= (load_items t (take n items) seq).(seq_eCount)) /\ (load_items t (take n items) seq).(seq_eCount) <= Z.max eLimit seq.(seq_eCount).

Lemma window_loop_items t eLimit items : forall fuel seq, Forall item_wf items -> (length items <= fuel)%nat ->
  exists n, stops t eLimit items n seq /\
    (let '(bnext, bs) := read (body items) in window_loop fuel t eLimit bnext bs seq) = Some (load_items t (take n items) seq, drop 1 (body (drop n items))).
Proof.
  induction items as [|it items IH]; intros fuel seq Hwf Hfuel; [exists 0%nat; split; [split; [done|]; split; [by left|cbn; lia]|]; by destruct fuel|]. apply Forall_cons in Hwf as [Hit Hwf]. cbn [length] in Hfuel. destruct fuel as [|fuel]; [lia|].
  pose proof (decode1_read t it (body items) Hit) as Hd. destruct (item_bytes_head it) as (b & r & E & Hb). unfold body at 1. rewrite fmap_cons. cbn [concat]. fold (body items). rewrite E in *. unfold decode1 in Hd. cbn [app read] in *. cbn [window_loop].
  rewrite (proj2 (Z.eqb_neq b (-1))) by done. cbn [negb andb]. destruct (Z.ltb_spec (seq_eCount seq) eLimit) as [Hlt|Hge].
  - rewrite Hd, load_got_read. destruct (IH fuel (load_got t (item_got t it) seq) Hwf) as (n & (Hn & Hend & Hmax) & El); [lia|]. exists (S n). unfold stops. cbn [length take drop load_items foldl]. fold (load_items t (take n items) (load_got t (item_got t it) seq)). pose proof (load_got_eCount t it seq). assert (0 <= counted t it <= 1) by (unfold counted; destruct (kept_node t it); split; discriminate).
    split; [split; [lia|]; split; [destruct Hend; [left; lia|by right]|lia]|]. by destruct (read (body items)).
  - exists 0%nat. split; [split; [lia|]; split; [right; cbn; lia|cbn; lia]|]. cbn [take load_items foldl]. rewrite drop_0. change (body (it :: items)) with (item_bytes it ++ body items). by rewrite E.
Qed.

Lemma zlen_header (h : UFOHeader) : zlen (encode h) = 23.
Proof. unfold zlen. rewrite (length_encode h). reflexivity. Qed.

Lemma file_of_size tr : zlen (file_of tr) = 23 + zlen (body tr.(tr_items)).
Proof. unfold file_of. fold (body (tr_items tr)). by rewrite zlen_app, zlen_header. Qed.

(** A file of which the first [k] entries have been loaded, and more are left or
    none has been looked at. *)
Definition at_entry (tr : trace) (k : nat) fi : Prop :=
  fi.(fi_bytes) = file_of tr /\ (k <= length tr.(tr_items))%nat /\ (k = 0%nat /\ fi.(fileOffset) = 0 \/ fi.(fileOffset) = 23 + zlen (body (take k tr.(tr_items)))).

(** All entries have been loaded. *)
Definition at_end (tr : trace) (k : nat) fi : Prop := fi.(fi_bytes) = file_of tr /\ k = length tr.(tr_items) /\ fi.(fileOffset) = fsize fi - 1.

Definition empty_seq (h : option TLHeaderNode) : TLEventSeq := mkTLEventSeq h [] [] 0 0 None.

Lemma zlen_drop1 (l : list Z) : zlen (drop 1 l) = Z.max 0 (zlen l - 1).
Proof. unfold zlen. rewrite length_drop. lia. Qed.

Lemma body_split items k : zlen (body items) = zlen (body (take k items)) + zlen (body (drop k items)).
Proof. rewrite <- (take_drop k items) at 1. by rewrite body_app, zlen_app. Qed.

Lemma body_nonempty items : items <> [] -> 1 <= zlen (body items).
Proof. destruct items as [|it items]; [done|]. intros _. rewrite zlen_body_cons. destruct (item_bytes_head it) as (b & r & -> & _). pose proof (zlen_nonneg r). pose proof (zlen_nonneg (body items)). unfold zlen in *. cbn [length]. lia. Qed.

Lemma window_from_entries t eLimit tr k fi start h : Forall item_wf tr.(tr_items) -> (k <= length tr.(tr_items))%nat -> fi.(fi_bytes) = file_of tr -> zlen start = fsize fi - fi.(fileOffset) ->
  exists n fi', stops t eLimit (drop k tr.(tr_items)) n (empty_seq h) /\ window_from t eLimit fi start h (body (drop k tr.(tr_items))) = Some (load_items t (take n (drop k tr.(tr_items))) (empty_seq h), fi') /\
    fi'.(enabled) = fi.(enabled) /\
    (at_entry tr (k + n) fi' /\ (k + n < length tr.(tr_items))%nat \/ at_end tr (k + n) fi').
Proof.
  intros Hwf Hk Hb Hst. set (items := tr_items tr) in *. destruct (window_loop_items t eLimit (drop k items) (S (length (read (body (drop k items))).2)) (empty_seq h)) as (n & Hstop & El).
  { by apply Forall_drop. } { pose proof (concat_items_length (drop k items)) as Hl. fold (body (drop k items)) in Hl. destruct (body (drop k items)); cbn in *; lia. }
  pose proof Hstop as (Hn & _). rewrite length_drop in Hn. unfold window_from. destruct (read (body (drop k items))) as [bnext bs]. cbn [snd] in El. fold (empty_seq h). rewrite El. exists n. eexists. split; [done|]. split; [reflexivity|]. split; [done|].
  rewrite drop_drop. rewrite zlen_drop1. assert (Hs : fsize fi = 23 + zlen (body items)) by (unfold fsize; rewrite Hb; apply file_of_size). pose proof (body_split items (k + n)) as Hsp. destruct (decide (k + n = length items)%nat) as [Eq|Hlt].
  - right. split; [done|]. split; [done|]. rewrite drop_ge by lia. unfold reader_finish, fsize. cbn [fileOffset fi_bytes]. unfold fsize in *. change (zlen (body [])) with 0. lia.
  - left. split; [|lia]. unfold at_entry. fold items. split; [done|]. split; [lia|]. right. unfold reader_finish. cbn [fileOffset]. pose proof (body_nonempty (drop (k + n) items)) as Hne. assert (1 <= zlen (body (drop (k + n) items))); [apply Hne; intros En; apply (f_equal length) in En; rewrite length_drop in En; cbn in En; lia|]. lia.
Qed.

Lemma read_file tr : read (zdrop 0 (file_of tr)) = (13, drop 1 (file_of tr)).
Proof. change (zdrop 0 (file_of tr)) with (file_of tr). unfold file_of. by erewrite (encode_tag (tr_header tr)) by (reflexivity || (cbn; unfold byte_ok; lia)). Qed.

Lemma getHeader_file tr : getHeader 13 (drop 1 (file_of tr)) = Some (header_node tr.(tr_header), body tr.(tr_items)).
Proof.
  unfold file_of. erewrite (encode_tag (tr_header tr)) by (reflexivity || (cbn; unfold byte_ok; lia)). cbn [app skipn]. rewrite drop_0. unfold getHeader. cbn [negb Z.eqb Pos.eqb]. rewrite !pack_cons, pack_nil, app_nil_r, <- !app_assoc. by rewrite getLong64b_le, getShort_le, getLong64b_le, getInt_le.
Qed.

Lemma window_load_entries t eLimit tr k fi : Forall item_wf tr.(tr_items) -> at_entry tr k fi ->
  exists n h fi', stops t eLimit (drop k tr.(tr_items)) n (empty_seq h) /\ window_load t eLimit fi = Some (load_items t (take n (drop k tr.(tr_items))) (empty_seq h), fi') /\
    fi'.(enabled) = fi.(enabled) /\
    (at_entry tr (k + n) fi' /\ (k + n < length tr.(tr_items))%nat \/ at_end tr (k + n) fi').
Proof.
  intros Hwf (Hb & Hk & Hpos). unfold window_load, reader_init. pose proof (zlen_nonneg (body (take k (tr_items tr)))). rewrite (proj2 (Z.ltb_ge _ 0)) by (destruct Hpos as [[_ ->]|]; lia).
  set (start := zdrop (fileOffset fi) (fi_bytes fi)). pose proof (body_split (tr_items tr) k) as Hsp. pose proof (zlen_nonneg (body (drop k (tr_items tr)))). assert (Hst : zlen start = fsize fi - fileOffset fi).
  { unfold start, zdrop, fsize, zlen. rewrite length_drop. pose proof (file_of_size tr) as Hs. unfold zlen in *. rewrite Hb. destruct Hpos as [[_ ->]|]; lia. }
  destruct Hpos as [[-> E0]|E].
  - rewrite E0. cbn [Z.eqb]. assert (Er : read start = (13, drop 1 (file_of tr))) by (unfold start; rewrite E0, Hb; apply read_file). rewrite Er. cbn [Z.eqb Pos.eqb]. rewrite getHeader_file. rewrite E0 in Hst.
    destruct (window_from_entries t eLimit tr 0 fi start (Some (header_node (tr_header tr))) Hwf Hk Hb) as (n & fi' & Hn & El & R); [lia|]. exists n, (Some (header_node (tr_header tr))), fi'. rewrite drop_0 in *. rewrite El. done.
  - rewrite (proj2 (Z.eqb_neq _ 0)) by lia. assert (Eb : start = body (drop k (tr_items tr))).
    { unfold start, zdrop. rewrite Hb, E. unfold file_of. fold (body (tr_items tr)). rewrite <- (take_drop k (tr_items tr)) at 2. rewrite body_app, app_assoc. rewrite drop_app_length'; [done|]. rewrite length_app. pose proof (zlen_header (tr_header tr)). unfold zlen in *. lia. }
    destruct (window_from_entries t eLimit tr k fi start None Hwf Hk Hb Hst) as (n & fi' & Hn & El & R). rewrite <- Eb in El. exists n, None, fi'. rewrite El. done.
Qed.

(** ** All windows together *)

Lemma load_items_eCount t items : forall seq, (load_items t items seq).(seq_eCount) - zlen (load_items t items seq).(seq_events) = seq.(seq_eCount) - zlen seq.(seq_events).
Proof.
  induction items as [|it items IH]; intros seq; [done|]. cbn [load_items foldl]. fold (load_items t items (load_got t (item_got t it) seq)). rewrite IH. destruct (item_got t it) as [nd| |p]; cbn [load_got]; [|done|].
  - destruct (isISync nd); cbn [seq_eCount seq_events]; [done|]. rewrite zlen_app. change (zlen [_]) with 1. lia.
  - cbn [seq_eCount seq_events]. destruct (seq_lastMemAcc seq); [|done]. unfold zlen. by rewrite length_alter.
Qed.

Definition windows_of t (ws : list window) : list gnode := concat ((fun w : window => default [] (w !! t)) <$> ws).

Lemma windows_of_snoc t ws w : windows_of t (ws ++ [w]) = windows_of t ws ++ default [] (w !! t).
Proof. unfold windows_of. rewrite fmap_app, concat_app. cbn. by rewrite app_nil_r. Qed.

Lemma at_entry_enable tr k fi : at_entry tr k (enable fi) <-> at_entry tr k fi.
Proof. by destruct fi. Qed.

Lemma at_end_enable tr k fi : at_end tr k (enable fi) <-> at_end tr k fi.
Proof. by destruct fi. Qed.

Section Cover.
Context (trs : gmap Z trace) (listing : gset Z -> list Z) (windowSize : Z).
Hypothesis Hlisting : forall s, listing s ≡ₚ elements s.
Hypothesis Hwf : forall t tr, trs !! t = Some tr -> Forall item_wf tr.(tr_items).
Hypothesis Hsize : 1 <= windowSize.

Implicit Types (seen : gset Z).

(** A thread in the middle of a round: [seen] are the threads loaded in it, and
    of this thread the first [k] entries are loaded. *)
Definition entries_state seen alive files t (tr : trace) (k : nat) : Prop :=
  (forall u, u ∈ omap started_tid (take k tr.(tr_items)) -> u ∈ alive) /\
  (t ∉ alive -> k = 0%nat /\ files !! t = Some (new_FileInfo (file_of tr))) /\
  (t ∈ alive ->
    match files !! t with
    | Some fi => fi.(enabled) = true /\ (at_entry tr k fi \/ t ∈ seen /\ at_end tr k fi)
    | None => zlen (body (drop k tr.(tr_items))) <= 5
    end).

Definition thread_state (ws : list window) w seen alive files t : Prop :=
  (t ∉ seen -> w !! t = None) /\ Forall (fun w : window => zlen (default [] (w !! t)) <= windowSize) (ws ++ [w]) /\
  match trs !! t with
  | None => files !! t = None /\ windows_of t (ws ++ [w]) = []
  | Some tr => exists k, set_ptr 0 <$> (windows_of t (ws ++ [w])).*2 = omap (kept_node t) (take k tr.(tr_items)) /\ entries_state seen alive files t tr k
  end.

Lemma add_thread_eq t files w new fi seq fi' : files !! t = Some fi -> fi.(enabled) = true -> window_load t windowSize fi = Some (seq, fi') ->
  add_thread windowSize t (files, w, new) =
    (enable_all seq.(seq_newTids) (if 0 <? zlen seq.(seq_events) then <[t := fi']> files else delete t files),
     (if 0 <? zlen seq.(seq_events) then <[t := seq.(seq_events)]> w else w), new ∪ list_to_set seq.(seq_newTids)).
Proof.
  intros Ef Een El. cbn [add_thread]. rewrite Ef, Een, El. cbn [negb]. destruct (seq_newTids seq) as [|x l].
  - replace (new ∪ list_to_set []) with new by set_solver +. destruct (0 <? zlen (seq_events seq)); [done|]. cbn. by rewrite delete_insert_eq.
  - assert ((zlen (x :: l) <? 1) = false) as -> by (apply Z.ltb_ge; unfold zlen; cbn [length]; lia). destruct (0 <? zlen (seq_events seq)); [done|]. by rewrite delete_insert_eq.
Qed.

(** The other threads when a thread is loaded: some are enabled. *)
Lemma entries_state_other t u nt seen alive files files1 tr k : u <> t -> files1 !! u = files !! u -> entries_state seen alive files u tr k ->
  entries_state (seen ∪ {[t]}) (alive ∪ list_to_set nt) (enable_all nt files1) u tr k.
Proof.
  intros Hne Hf (Hs & Hn & Ha). split; [intros x Hx; apply elem_of_union_l; auto|]. rewrite enable_all_lookup, Hf. split.
  - intros [Hu Hnt]%not_elem_of_union. rewrite decide_False by (by intros ?; apply Hnt, elem_of_list_to_set). auto.
  - intros Hu. destruct (decide (u ∈ alive)) as [Hal|Hal].
    + specialize (Ha Hal). assert (Hx : match (if decide (u ∈ nt) then enable <$> files !! u else files !! u) with Some fi => enabled fi = true /\ (at_entry tr k fi \/ u ∈ seen /\ at_end tr k fi) | None => zlen (body (drop k (tr_items tr))) <= 5 end).
      { destruct (decide (u ∈ nt)); [|done]. destruct (files !! u) as [fi|]; cbn; [|done]. destruct Ha. by rewrite at_entry_enable, at_end_enable. }
      destruct (if decide _ then _ else _) as [fi|]; [|done]. destruct Hx as [? [?|[? ?]]]; (split; [done|]); [by left|right; split; [set_solver|done]].
    + apply elem_of_union in Hu as [|Hu]; [done|]. destruct (Hn Hal) as [-> ->]. rewrite decide_True by (by apply elem_of_list_to_set in Hu). cbn. split; [done|]. left. split; [done|]. split; [lia|]. left. done.
Qed.

(** The thread itself: a window of its entries. *)
Lemma entries_state_self t seen alive files tr k fi : files !! t = Some fi -> fi.(enabled) = true -> at_entry tr k fi -> Forall item_wf tr.(tr_items) -> t ∈ alive ->
  (forall u, u ∈ omap started_tid (take k tr.(tr_items)) -> u ∈ alive) ->
  exists n seq fi', window_load t windowSize fi = Some (seq, fi') /\ unlinked seq = omap (kept_node t) (take n (drop k tr.(tr_items))) /\ zlen seq.(seq_events) <= windowSize /\
    entries_state (seen ∪ {[t]}) (alive ∪ list_to_set seq.(seq_newTids)) (enable_all seq.(seq_newTids) (if 0 <? zlen seq.(seq_events) then <[t := fi']> files else delete t files)) t tr (k + n).
Proof.
  intros Ef Een Hat Hw Hal Hs. destruct (window_load_entries t windowSize tr k fi Hw Hat) as (n & h & fi' & (Hn & Hend & Hmax) & El & Een' & Hpos). set (seq := load_items t _ _) in *. exists n, seq, fi'.
  pose proof (load_items_eCount t (take n (drop k (tr_items tr))) (empty_seq h)) as Hc. fold seq in Hc. cbn [empty_seq seq_eCount seq_events] in Hc. change (zlen (@nil gnode)) with 0 in Hc.
  split; [done|]. split; [unfold seq; by rewrite load_items_unlinked|]. split; [cbn in Hmax; lia|]. assert (Hnt : seq_newTids seq = omap started_tid (take n (drop k (tr_items tr)))) by (unfold seq; by rewrite load_items_newTids).
  assert (Htake : take (k + n) (tr_items tr) = take k (tr_items tr) ++ take n (drop k (tr_items tr))) by (by rewrite take_take_drop). split; [|split].
  - rewrite Htake, omap_app, <- Hnt. intros u [Hu|Hu]%elem_of_app; [apply elem_of_union_l; auto|apply elem_of_union_r; by apply elem_of_list_to_set].
  - intros []%not_elem_of_union. done.
  - intros _. rewrite enable_all_lookup. destruct (Z.ltb_spec 0 (zlen (seq_events seq))) as [Hpos'|Hz].
    + rewrite lookup_insert_eq. assert (Hx : enabled fi' = true /\ (at_entry tr (k + n) fi' \/ t ∈ seen ∪ {[t]} /\ at_end tr (k + n) fi')) by (split; [congruence|]; destruct Hpos as [[? _]|?]; [by left|right; split; [set_solver +|done]]).
      destruct (decide _); cbn [fmap option_fmap option_map]; [|done]. destruct Hx. by rewrite at_entry_enable, at_end_enable.
    + rewrite lookup_delete_eq. assert (zlen (body (drop (k + n) (tr_items tr))) <= 5) by (destruct Hend as [E|]; [|lia]; rewrite length_drop in E; rewrite drop_ge by lia; by vm_compute). by destruct (decide _).
Qed.

Lemma add_thread_state ws t files w new files' w' new' seen alive : (forall u, thread_state ws w seen alive files u) -> t ∈ alive -> t ∉ seen -> new ⊆ alive ->
  add_thread windowSize t (files, w, new) = (files', w', new') -> forall u, thread_state ws w' (seen ∪ {[t]}) (alive ∪ new') files' u.
Proof.
  intros Hall Hal Hseen Hnew E u. destruct (Hall t) as (Hw & Hsz & Ht). specialize (Hw Hseen). destruct (files !! t) as [fi|] eqn:Ef.
  - destruct (trs !! t) as [tr|] eqn:Et; [|destruct Ht; congruence]. destruct Ht as (k & Hk & Hs & _ & Ha). pose proof (Ha Hal) as Ha'. rewrite Ef in Ha'. destruct Ha' as (Een & [Hat|[? _]]); [|done].
    destruct (entries_state_self t seen alive files tr k fi Ef Een Hat (Hwf t tr Et) Hal Hs) as (n & seq & fi' & El & Hun & Hlen & Hself). rewrite (add_thread_eq t files w new fi seq fi' Ef Een El) in E. injection E as <- <- <-.
    replace (alive ∪ (new ∪ list_to_set (seq_newTids seq))) with (alive ∪ list_to_set (seq_newTids seq)) by set_solver +Hnew. destruct (decide (u = t)) as [->|Hne].
    + unfold thread_state. rewrite Et. assert (Hev : default [] ((if 0 <? zlen (seq_events seq) then <[t:=seq_events seq]> w else w) !! t) = seq_events seq).
      { destruct (Z.ltb_spec 0 (zlen (seq_events seq))); [by rewrite lookup_insert_eq|]. rewrite Hw. cbn. destruct (seq_events seq) as [|? l]; [done|]. unfold zlen in *. cbn [length] in *. lia. }
      split; [set_solver +|]. split; [apply Forall_app in Hsz as [Hsz _]; apply Forall_app; split; [done|]; apply Forall_singleton; by rewrite Hev|]. exists (k + n)%nat. split; [|exact Hself].
      rewrite windows_of_snoc, Hw, app_nil_r in Hk. rewrite windows_of_snoc, Hev, !fmap_app, Hk. fold (unlinked seq). rewrite Hun, <- omap_app. by rewrite take_take_drop.
    + assert (Ew : (if 0 <? zlen (seq_events seq) then <[t:=seq_events seq]> w else w) !! u = w !! u) by (destruct (0 <? _); [by rewrite lookup_insert_ne by congruence|done]). assert (Efu : (if 0 <? zlen (seq_events seq) then <[t:=fi']> files else delete t files) !! u = files !! u) by (destruct (0 <? _); [by rewrite lookup_insert_ne by congruence|by rewrite lookup_delete_ne by congruence]).
      destruct (Hall u) as (Hwu & Hszu & Hu). unfold thread_state. rewrite windows_of_snoc, Ew, <- windows_of_snoc. split; [set_solver|]. split; [apply Forall_app in Hszu as [? Hone]; apply Forall_app; split; [done|]; apply Forall_singleton; cbn beta; rewrite Ew; rewrite Forall_singleton in Hone; exact Hone|].
      destruct (trs !! u) as [tru|]; [|destruct Hu as [Hu ?]; split; [|done]; rewrite enable_all_lookup, Efu, Hu; by destruct (decide _)]. destruct Hu as (ku & Hku & Hst). exists ku. split; [done|]. by apply (entries_state_other t u _ seen alive files).
  - cbn [add_thread] in E. rewrite Ef in E. injection E as <- <- <-. replace (alive ∪ new) with alive by set_solver +Hnew. destruct (Hall u) as (Hwu & Hszu & Hu). split; [set_solver +Hwu|]. split; [done|]. destruct (trs !! u) as [tru|]; [|done]. destruct Hu as (ku & Hku & Hs & Hn & Ha). exists ku. split; [done|].
    split; [done|]. split; [done|]. intros Hua. specialize (Ha Hua). destruct (files !! u); [|done]. destruct Ha as [? [?|[? ?]]]; (split; [done|]); [by left|right; split; [set_solver|done]].
Qed.

Lemma fold_state ws ts : forall files w new files' w' new' seen alive, (forall u, thread_state ws w seen alive files u) -> NoDup ts -> (forall t, t ∈ ts -> t ∈ alive /\ t ∉ seen) -> new ⊆ alive ->
  foldl (fun st t => add_thread windowSize t st) (files, w, new) ts = (files', w', new') -> forall u, thread_state ws w' (seen ∪ list_to_set ts) (alive ∪ new') files' u.
Proof.
  induction ts as [|t ts IH]; intros files w new files' w' new' seen alive Hall Hnd Hts Hnew E.
  - injection E as <- <- <-. replace (seen ∪ list_to_set []) with seen by set_solver +. replace (alive ∪ new) with alive by set_solver +Hnew. done.
  - cbn [foldl] in E. apply NoDup_cons in Hnd as [Hnin Hnd]. destruct (add_thread windowSize t (files, w, new)) as [[files1 w1] new1] eqn:E1. destruct (Hts t ltac:(left)) as [Hal Hs]. pose proof (add_thread_state ws t _ _ _ _ _ _ seen alive Hall Hal Hs Hnew E1) as H1.
    pose proof (fold_new windowSize ts _ _ _ _ _ _ E) as S12.
    pose proof (IH files1 w1 new1 files' w' new' _ _ H1 Hnd) as H2. assert (Hts' : forall x, x ∈ ts -> x ∈ alive ∪ new1 /\ x ∉ seen ∪ {[t]}).
    { intros x Hx. destruct (Hts x ltac:(by right)) as [Hxa Hxs]. split; [by apply elem_of_union_l|]. apply not_elem_of_union. split; [done|]. intros ->%elem_of_singleton. done. }
    specialize (H2 Hts' (union_subseteq_r _ _) E). intros u. specialize (H2 u). replace (seen ∪ list_to_set (t :: ts)) with (seen ∪ {[t]} ∪ list_to_set ts) by set_solver +. by replace (alive ∪ new1 ∪ new') with (alive ∪ new') in H2 by set_solver +S12.
Qed.

Lemma addTLSeq_state ws files w tids files' w' new seen alive : (forall u, thread_state ws w seen alive files u) -> tids ⊆ alive -> tids ## seen ->
  addTLSeq listing windowSize files w tids = (files', w', new) -> forall u, thread_state ws w' (seen ∪ tids) (alive ∪ new) files' u.
Proof.
  intros Hall Hsub Hdis E u. replace (seen ∪ tids) with (seen ∪ list_to_set (listing tids)). 2:{ f_equal. apply set_eq. intros x. rewrite elem_of_list_to_set, (in_listing_set listing Hlisting). done. }
  eapply fold_state; [exact Hall| | |apply empty_subseteq|exact E].
  - rewrite Hlisting. apply NoDup_elements.
  - intros t Ht. apply (in_listing_set listing Hlisting) in Ht. set_solver.
Qed.

Lemma load_new_state ws fuel : forall files w alive new files' w' alive', (forall u, thread_state ws w (alive ∖ new) alive files u) -> new ⊆ alive ->
  load_new listing windowSize fuel files w alive new = Some (files', w', alive') -> forall u, thread_state ws w' alive' alive' files' u.
Proof.
  induction fuel as [|fuel IH]; intros files w alive new files' w' alive' Hall Hsub E; cbn [load_new] in E; (destruct (decide (new = ∅)) as [->|Hne]; [injection E as <- <- <-; by replace (alive ∖ ∅) with alive in Hall by set_solver +|]); [done|].
  destruct (addTLSeq listing windowSize files w new) as [[files1 w1] next] eqn:E1. pose proof (addTLSeq_state ws _ _ _ _ _ _ _ _ Hall Hsub ltac:(set_solver +) E1) as H1. refine (IH _ _ _ _ _ _ _ _ _ E); [|set_solver +].
  rewrite remove_new, union_new. by rewrite put_back in H1 by done.
Qed.

(** The end of a round: what is left of the dropped files. *)
Lemma filter_state ws w alive files u : thread_state ws w alive alive files u -> thread_state (ws ++ [w]) ∅ ∅ alive (filter (fun tf => tf.2.(fileOffset) < fsize tf.2 - 5) files) u.
Proof.
  intros (_ & Hsz & Hu). unfold thread_state. rewrite windows_of_snoc, lookup_empty, app_nil_r. split; [done|]. split; [apply Forall_app; split; [done|]; apply Forall_singleton; rewrite lookup_empty; cbn; change (zlen (@nil gnode)) with 0; lia|]. destruct (trs !! u) as [tr|] eqn:Et.
  - destruct Hu as (k & Hk & Hs & Hn & Ha). exists k. split; [done|]. split; [done|]. split.
    + intros Hna. destruct (Hn Hna) as [-> Hf]. split; [done|]. apply map_lookup_filter_Some. split; [done|]. unfold fsize, new_FileInfo. cbn [snd fileOffset fi_bytes]. rewrite file_of_size. pose proof (zlen_nonneg (body (tr_items tr))). lia.
    + intros Hal. specialize (Ha Hal). destruct (files !! u) as [fi|] eqn:Ef; [|rewrite map_lookup_filter, Ef; done]. destruct Ha as [Hen Hpos]. rewrite map_lookup_filter, Ef. cbn. unfold guard. destruct (decide (fileOffset fi < fsize fi - 5)) as [Hlt|Hge]; cbn.
      * split; [done|]. destruct Hpos as [|[_ (_ & _ & Ho)]]; [by left|lia].
      * destruct Hpos as [(Hb & Hle & Ho)|[_ (Hb & -> & _)]]; [|rewrite drop_ge by lia; by vm_compute]. unfold fsize in Hge. rewrite Hb, file_of_size, (body_split _ k) in Hge. pose proof (zlen_nonneg (body (take k (tr_items tr)))). destruct Ho as [[-> Ho]|Ho]; rewrite Ho in Hge; [|lia]. change (zlen (body (take 0 (tr_items tr)))) with 0 in *. pose proof (zlen_nonneg (body (drop 0 (tr_items tr)))). lia.
  - destruct Hu as [Hf ?]. split; [|done]. rewrite map_lookup_filter, Hf. done.
Qed.

Lemma populate_state ws l w l' : (forall u, thread_state ws ∅ ∅ l.(aliveTids) l.(fileInfoMap) u) -> populateIndexer listing windowSize l = Some (w, l') ->
  forall u, thread_state (ws ++ [w]) ∅ ∅ l'.(aliveTids) l'.(fileInfoMap) u.
Proof.
  intros Hall E u. unfold populateIndexer in E. destruct (addTLSeq _ _ _ _ _) as [[files1 w1] new] eqn:E1. pose proof (addTLSeq_state ws _ _ _ _ _ _ _ _ Hall (reflexivity _) ltac:(set_solver +) E1) as H1.
  destruct (load_new _ _ _ _ _ _ _) as [[[files2 w2] alive2]|] eqn:E2; [|done]. injection E as <- <-. cbn [aliveTids fileInfoMap]. apply filter_state. refine (load_new_state ws _ _ _ _ _ _ _ _ _ _ E2 u); [|set_solver +]. rewrite remove_new. replace (∅ ∪ aliveTids l) with (aliveTids l) in H1 by set_solver +.
  by rewrite union_new.
Qed.

Lemma sessions_state fuel : forall ws l ws' l', (forall u, thread_state ws ∅ ∅ l.(aliveTids) l.(fileInfoMap) u) -> sessions listing windowSize fuel l = Some (ws', l') ->
  forall u, thread_state (ws ++ ws') ∅ ∅ l'.(aliveTids) l'.(fileInfoMap) u.
Proof.
  induction fuel as [|fuel IH]; intros ws l ws' l' Hall E; cbn [sessions] in E; (destruct (hasNext l); [|injection E as <- <-; by rewrite app_nil_r]); [done|].
  destruct (populateIndexer listing windowSize l) as [[w l1]|] eqn:Ep; [|done]. destruct (sessions listing windowSize fuel l1) as [[ws1 l2]|] eqn:Es; [|done]. injection E as <- <-. pose proof (populate_state ws l w l1 Hall Ep) as H1.
  intros u. replace (ws ++ w :: ws1) with ((ws ++ [w]) ++ ws1) by (by rewrite <- app_assoc). by apply (IH _ l1).
Qed.
End Cover.

Definition is_exit (it : item) : bool := match it with ItExit _ => true | _ => false end.

Lemma small_exits items : zlen (body items) <= 5 -> Forall (fun it => is_exit it = true) items.
Proof.
  induction items as [|it items IH]; [constructor|]. rewrite zlen_body_cons. pose proof (zlen_nonneg (item_bytes it)). pose proof (zlen_nonneg (body items)). intros Hle. constructor; [|apply IH; lia].
  destruct it; cbn [is_exit item_bytes] in *; try done; unfold zlen in *; rewrite ?length_app in *; match goal with _ : context [encode ?e] |- _ => pose proof (length_encode e) as Hl end;
    match type of Hl with _ = ?s => let v := eval vm_compute in s in change s with v in Hl end; lia.
Qed.

Lemma exits_start_none items : Forall (fun it => is_exit it = true) items -> omap started_tid items = [].
Proof. induction 1 as [|it items Hit _ IH]; [done|]. by destruct it. Qed.

(** The rounds of [sessions] that are enough for the files of [l]. *)
Definition enough (l : loader) : nat := S (Z.to_nat (map_sum weight l.(fileInfoMap))).

Lemma loader_init_state trs l windowSize : 1 <= windowSize -> loader_init (file_of <$> trs) = Some l -> loader_ok l /\ forall u, thread_state trs windowSize [] ∅ ∅ l.(aliveTids) l.(fileInfoMap) u.
Proof.
  intros Hsize E. unfold loader_init in E. destruct (merge_sort Z.le (map_to_list (file_of <$> trs)).*1) as [|main rest]; [done|]. injection E as <-. cbn [fileInfoMap aliveTids].
  assert (Hlk : forall t, alter enable main (new_FileInfo <$> (file_of <$> trs)) !! t = match trs !! t with Some tr => Some (if decide (t = main) then enable (new_FileInfo (file_of tr)) else new_FileInfo (file_of tr)) | None => None end).
  { intros t. destruct (decide (t = main)) as [->|Hne]; [rewrite lookup_alter_eq|rewrite lookup_alter_ne by congruence]; rewrite !lookup_fmap; by destruct (trs !! _). }
  split; [split|].
  - intros t fi Hf. rewrite Hlk in Hf. unfold file_ok. destruct (trs !! t) as [tr|]; [|done]. injection Hf as <-. pose proof (zlen_nonneg (file_of tr)). destruct (decide (t = main)); unfold fsize, enable, new_FileInfo; cbn [fileOffset fi_bytes]; lia.
  - intros t fi Hf Hen. rewrite Hlk in Hf. destruct (trs !! t) as [tr|]; [|done]. injection Hf as <-. destruct (decide (t = main)) as [->|]; [cbn [aliveTids]; by apply elem_of_singleton|done].
  - intros u. split; [done|]. split; [apply Forall_singleton; rewrite lookup_empty; cbn; change (zlen (@nil gnode)) with 0; lia|]. rewrite windows_of_snoc, lookup_empty. destruct (trs !! u) as [tr|] eqn:Et; [|split; [by rewrite Hlk, Et|done]].
    exists 0%nat. split; [done|]. split; [by intros ? ?%not_elem_of_nil|]. rewrite Hlk, Et, elem_of_singleton. split; [intros Hne; by rewrite decide_False|]. intros ->. rewrite decide_True by done. split; [done|]. left. split; [done|]. split; [lia|by left].
Qed.

(** C9: The windows of a run are its traces.  Loading ends, whatever the order in which hash sets list threads; every
    window has at most [windowSize] events of a thread; and for every thread that was found, the windows one after
    another have the events of its file, in order and none twice, up to a tail of function exits that the rule for
    the end of a file may cut off.  A thread is found if it is the first one or started by an entry of one that is. *)
Theorem windows_cover trs listing windowSize l : (forall s, listing s ≡ₚ elements s) -> (forall t tr, trs !! t = Some tr -> Forall item_wf tr.(tr_items)) -> 1 <= windowSize ->
  loader_init (file_of <$> trs) = Some l -> exists ws l', sessions listing windowSize (enough l) l = Some (ws, l') /\ l.(aliveTids) ⊆ l'.(aliveTids) /\
  forall t tr, trs !! t = Some tr -> Forall (fun w : window => zlen (default [] (w !! t)) <= windowSize) ws /\ (t ∉ l'.(aliveTids) -> windows_of t ws = []) /\
    (t ∈ l'.(aliveTids) -> (forall u, u ∈ omap started_tid tr.(tr_items) -> u ∈ l'.(aliveTids)) /\
      exists k, set_ptr 0 <$> (windows_of t ws).*2 = omap (kept_node t) (take k tr.(tr_items)) /\ Forall (fun it => is_exit it = true) (drop k tr.(tr_items))).
Proof.
  intros Hlisting Hwf Hsize El. destruct (loader_init_state trs l windowSize Hsize El) as [Hok Hst]. destruct (sessions_end listing windowSize Hlisting (enough l) l Hok) as (ws & l' & E & Hend & Hal).
  { unfold enough. pose proof (map_sum_nonneg weight ltac:(intros; unfold weight; lia) (fileInfoMap l)). lia. }
  exists ws, l'. split; [done|]. split; [done|]. intros t tr Ht. destruct (sessions_state trs listing windowSize Hlisting Hwf Hsize (enough l) [] l ws l' Hst E t) as (_ & Hsz & Hx). rewrite Ht in Hx. rewrite app_nil_l, windows_of_snoc, lookup_empty, app_nil_r in *. apply Forall_app in Hsz as [Hsz _].
  destruct Hx as (k & Hk & Hs & Hn & Ha). split; [done|]. split; [intros Hna; destruct (Hn Hna) as [-> _]; destruct (windows_of t ws); [done|discriminate]|]. intros Hin. specialize (Ha Hin). destruct (fileInfoMap l' !! t) as [fi|] eqn:Ef.
  { destruct Ha as [Hen _]. apply bool_decide_eq_false in Hend. destruct Hend. by exists t, fi. }
  apply small_exits in Ha. split; [|by exists k]. intros u Hu. rewrite <- (take_drop k (tr_items tr)), omap_app, (exits_start_none _ Ha), app_nil_r in Hu. auto.
Qed.

(** ** The numbers of the two passes *)

(** Entries that [LoadingTask2] does not count: [getNode] returns null for
    them. *)
Definition has_number (it : item) : bool := match it with ItPkt _ | ItPtrDeRef _ => false | _ => true end.

(** The nodes of the second pass, numbered by their place as those of
    [sync_nodes] are. *)
Fixpoint kept_nodes (t k : Z) (items : list item) : list gnode :=
  match items with
  | [] => []
  | it :: items =>
      match kept_node t it with
      | Some nd => (longs_add t (k + 1), nd) :: kept_nodes t (k + 1) items
      | None => kept_nodes t (k + 1) items
      end
  end.

Lemma load_items_numbered t items : forall seq, Forall (fun it => has_number it = true) items -> 0 <= seq.(seq_numOfEvents) -> seq.(seq_numOfEvents) + zlen items < 2 ^ 31 ->
  (load_items t items seq).(seq_events) = seq.(seq_events) ++ kept_nodes t seq.(seq_numOfEvents) items.
Proof.
  induction items as [|it items IH]; intros seq Hc Hk Hlen; [by rewrite app_nil_r|]. apply Forall_cons in Hc as [Hit Hc]. unfold zlen in Hlen. cbn [length] in Hlen. cbn [load_items foldl]. fold (load_items t items (load_got t (item_got t it) seq)).
  assert (Hn : exists nd, item_got t it = GNode nd) by (destruct it; try done; by eexists). destruct Hn as [nd Hnd]. cbn [kept_nodes]. unfold kept_node. rewrite Hnd. cbn [load_got]. unfold s32. rewrite swrap_small by lia.
  destruct (isISync nd); rewrite IH; cbn [seq_events seq_numOfEvents]; try done; try (unfold zlen; lia). by rewrite <- app_assoc.
Qed.

Lemma length_omap_le {A B} (f : A -> option B) l : (length (omap f l) <= length l)%nat.
Proof. induction l as [|x l IH]; [done|]. cbn. destruct (f x); cbn; lia. Qed.

(** The first load of a file that a window holds. *)
Lemma first_load t eLimit tr fi : Forall item_wf tr.(tr_items) -> Forall (fun it => has_number it = true) tr.(tr_items) -> zlen tr.(tr_items) < 2 ^ 31 -> zlen tr.(tr_items) <= eLimit ->
  fi.(fi_bytes) = file_of tr -> fi.(fileOffset) = 0 ->
  exists seq fi', window_load t eLimit fi = Some (seq, fi') /\ seq.(seq_events) = kept_nodes t 0 tr.(tr_items) /\ at_end tr (length tr.(tr_items)) fi'.
Proof.
  intros Hwf Hc Hlen Hlim Hb H0. destruct (window_load_entries t eLimit tr 0 fi Hwf) as (n & h & fi' & (Hn & Hend & _) & E & _ & Hpos); [split; [done|]; split; [lia|by left]|]. rewrite drop_0 in *. rewrite Nat.add_0_l in Hpos.
  pose proof (load_items_eCount t (take n (tr_items tr)) (empty_seq h)) as He. cbn [empty_seq seq_eCount seq_events] in He. change (zlen (@nil gnode)) with 0 in He. pose proof (length_omap_le (kept_node t) (take n (tr_items tr))) as Hom.
  pose proof (f_equal length (load_items_unlinked t (take n (tr_items tr)) (empty_seq h))) as Hu. unfold unlinked in Hu. cbn [empty_seq seq_events] in Hu. rewrite length_app, !length_fmap in Hu. cbn in Hu. rewrite length_take in Hom.
  assert (n = length (tr_items tr)) as -> by (destruct Hend as [|Hge]; [done|]; unfold zlen in *; lia). eexists _, fi'. split; [exact E|]. rewrite firstn_all. split; [rewrite load_items_numbered; [done|done|cbn; lia|cbn; lia]|]. destruct Hpos as [[_ ?]|]; [lia|done].
Qed.

(** C25: The two passes number alike, as long as one window holds the file.  For a file without packets and pointer
    dereferences, the nodes of its first window carry the thread and their place in the file, as the nodes of the first
    pass do ([sync_nodes]), so that [canReach] compares places. *)
Theorem passes_agree t eLimit tr : Forall item_wf tr.(tr_items) -> Forall (fun it => has_number it = true) tr.(tr_items) -> zlen tr.(tr_items) < 2 ^ 31 -> zlen tr.(tr_items) <= eLimit ->
  exists seq fi, window_load t eLimit (new_FileInfo (file_of tr)) = Some (seq, fi) /\ seq.(seq_events) = kept_nodes t 0 tr.(tr_items) /\ at_end tr (length tr.(tr_items)) fi.
Proof. intros Hwf Hc Hlen Hlim. by apply first_load. Qed.

(** *** A run that one window holds *)

Section First.
Context (trs : gmap Z trace) (listing : gset Z -> list Z) (windowSize : Z).
Hypothesis Hlisting : forall s, listing s ≡ₚ elements s.
Hypothesis Hwf : forall t tr, trs !! t = Some tr -> Forall item_wf tr.(tr_items) /\ Forall (fun it => has_number it = true) tr.(tr_items) /\ zlen tr.(tr_items) < 2 ^ 31 /\ zlen tr.(tr_items) <= windowSize.

(** A thread in the first round: loaded in it ([seen]) or not looked at. *)
Definition first_state w (seen : gset Z) files t : Prop :=
  (t ∉ seen -> w !! t = None /\ forall fi, files !! t = Some fi -> exists tr, trs !! t = Some tr /\ fi.(fi_bytes) = file_of tr /\ fi.(fileOffset) = 0) /\
  forall ns, w !! t = Some ns -> exists tr, trs !! t = Some tr /\ ns = kept_nodes t 0 tr.(tr_items).

Lemma first_state_weaken w seen seen' files t : first_state w seen files t -> seen ⊆ seen' -> first_state w seen' files t.
Proof. intros [Hn Hw] Hsub. split; [|done]. intros Ht. apply Hn. set_solver. Qed.

Lemma first_state_other t u nt w w1 seen files files1 : u <> t -> w1 !! u = w !! u -> files1 !! u = files !! u -> first_state w seen files u ->
  first_state w1 (seen ∪ {[t]}) (enable_all nt files1) u.
Proof.
  intros Hne Ew Ef [Hn Hw]. split; [|intros ns; rewrite Ew; apply Hw]. intros Hu. destruct Hn as [Hw0 Hf]; [set_solver|]. split; [congruence|]. intros fi. rewrite enable_all_lookup, Ef.
  destruct (decide (u ∈ nt)); [|apply Hf]. intros (fi0 & E0 & ->)%fmap_Some. destruct (Hf fi0 E0) as (tr & ? & ? & ?). by exists tr.
Qed.

Lemma add_thread_first t files w new files' w' new' seen : (forall u, first_state w seen files u) -> t ∉ seen -> add_thread windowSize t (files, w, new) = (files', w', new') ->
  forall u, first_state w' (seen ∪ {[t]}) files' u.
Proof.
  intros Hall Hseen E u. assert (Hid : files' = files -> w' = w -> first_state w' (seen ∪ {[t]}) files' u) by (intros -> ->; apply (first_state_weaken w seen); [apply Hall|set_solver +]).
  destruct (files !! t) as [fi|] eqn:Ef; [|cbn [add_thread] in E; rewrite Ef in E; injection E as <- <- _; by apply Hid]. destruct (enabled fi) eqn:Een; [|cbn [add_thread] in E; rewrite Ef, Een in E; injection E as <- <- _; by apply Hid].
  destruct (Hall t) as [Hn _]. destruct (Hn Hseen) as [Hwt Hf]. destruct (Hf fi Ef) as (tr & Et & Hb & H0). destruct (Hwf t tr Et) as (W1 & W2 & W3 & W4). destruct (first_load t windowSize tr fi W1 W2 W3 W4 Hb H0) as (seq & fi' & El & Hev & _).
  rewrite (add_thread_eq windowSize t files w new fi seq fi' Ef Een El) in E. injection E as <- <- _. destruct (decide (u = t)) as [->|Hne].
  - split; [set_solver +|]. intros ns Hns. exists tr. split; [done|]. destruct (0 <? zlen (seq_events seq)); [rewrite lookup_insert_eq in Hns|rewrite Hwt in Hns]; congruence.
  - apply (first_state_other t u _ w _ seen files); [done| | |apply Hall]; (destruct (0 <? _); [by rewrite lookup_insert_ne by congruence|]); [done|by rewrite lookup_delete_ne by congruence].
Qed.

Lemma fold_first ts : forall files w new files' w' new' seen, (forall u, first_state w seen files u) -> NoDup ts -> (forall t, t ∈ ts -> t ∉ seen) ->
  foldl (fun st t => add_thread windowSize t st) (files, w, new) ts = (files', w', new') -> forall u, first_state w' (seen ∪ list_to_set ts) files' u.
Proof.
  induction ts as [|t ts IH]; intros files w new files' w' new' seen Hall Hnd Hts E u; cbn [foldl] in E; [injection E as <- <- _; apply (first_state_weaken w seen); [apply Hall|set_solver +]|]. apply NoDup_cons in Hnd as [Hnin Hnd].
  destruct (add_thread windowSize t (files, w, new)) as [[files1 w1] new1] eqn:E1. pose proof (add_thread_first t _ _ _ _ _ _ seen Hall (Hts t ltac:(left)) E1) as H1. apply (first_state_weaken _ ((seen ∪ {[t]}) ∪ list_to_set ts)); [|set_solver +].
  apply (IH files1 w1 new1 files' w' new' _ H1 Hnd); [|exact E]. intros x Hx. specialize (Hts x ltac:(by right)). apply not_elem_of_union. split; [done|]. intros ->%elem_of_singleton. done.
Qed.

Lemma addTLSeq_first files w tids files' w' new seen : (forall u, first_state w seen files u) -> tids ## seen -> addTLSeq listing windowSize files w tids = (files', w', new) -> forall u, first_state w' (seen ∪ tids) files' u.
Proof.
  intros Hall Hdis E u. apply (first_state_weaken _ (seen ∪ list_to_set (listing tids))); [|intros x; rewrite !elem_of_union, elem_of_list_to_set, (in_listing_set listing Hlisting); done].
  eapply fold_first; [exact Hall|rewrite Hlisting; apply NoDup_elements| |exact E]. intros t Ht%(in_listing_set listing Hlisting). set_solver.
Qed.

Lemma load_new_first fuel : forall files w alive new files' w' alive', (forall u, first_state w (alive ∖ new) files u) -> new ⊆ alive -> load_new listing windowSize fuel files w alive new = Some (files', w', alive') ->
  forall u, first_state w' alive' files' u.
Proof.
  induction fuel as [|fuel IH]; intros files w alive new files' w' alive' Hall Hsub E; cbn [load_new] in E; (destruct (decide (new = ∅)) as [->|Hne]; [injection E as <- <- <-; by replace (alive ∖ ∅) with alive in Hall by set_solver +|]); [done|].
  destruct (addTLSeq listing windowSize files w new) as [[files1 w1] next] eqn:E1. assert (Hdis : new ## alive ∖ new) by set_solver +. pose proof (addTLSeq_first _ _ _ _ _ _ _ Hall Hdis E1) as H1. refine (IH _ _ _ _ _ _ _ _ _ E); [|set_solver +].
  rewrite remove_new. by rewrite put_back in H1 by done.
Qed.

(** The first window has whole files, their nodes numbered by their places. *)
Lemma first_window l w l' : loader_init (file_of <$> trs) = Some l -> populateIndexer listing windowSize l = Some (w, l') ->
  forall t ns, w !! t = Some ns -> exists tr, trs !! t = Some tr /\ ns = kept_nodes t 0 tr.(tr_items).
Proof.
  intros El E. unfold loader_init in El. destruct (merge_sort Z.le (map_to_list (file_of <$> trs)).*1) as [|main rest]; [done|]. injection El as <-. unfold populateIndexer in E. cbn [fileInfoMap aliveTids] in E.
  destruct (addTLSeq _ _ _ _ _) as [[files1 w1] new] eqn:E1. destruct (load_new _ _ _ _ _ _ _) as [[[files2 w2] alive2]|] eqn:E2; [|done]. injection E as <- _.
  assert (H0 : forall u, first_state ∅ ∅ (alter enable main (new_FileInfo <$> (file_of <$> trs))) u).
  { intros u. split; [|intros ns; by rewrite lookup_empty]. intros _. split; [done|]. intros fi Hf. apply lookup_alter_Some in Hf as [(-> & fi0 & Hf & ->)|[_ Hf]]; rewrite !lookup_fmap in Hf; destruct (trs !! _) as [tr|] eqn:Et; try done; injection Hf as <-; by exists tr. }
  intros t. pose proof (addTLSeq_first _ _ _ _ _ _ _ H0 (disjoint_empty_r _) E1) as H1. refine (proj2 (load_new_first _ _ _ _ _ _ _ _ _ _ E2 t)); [|set_solver +].
  intros u. rewrite remove_new. apply (first_state_weaken _ (∅ ∪ {[main]})); [apply H1|set_solver +].
Qed.
End First.

(** ** Two small runs

    Thread 0 starts thread 1, and both access memory afterwards. *)
Module Small.

Definition header t : UFOHeader := new_UFOHeader t 0 0.
Definition begin p : item := ItBegin (new_ThreadBeginEvent p 0 0).
Definition start kid : item := ItCreate (new_CreateThreadEvent 10 kid 0 0).
Definition access addr : item := ItMem (new_MemAccEvent (mem_tag true 0) addr 5) [1].
Definition deref : item := ItPtrDeRef (new_PtrDeRefEvent 64).

(** The second access of thread 0 comes in a window of its own. *)
Definition plain : gmap Z trace :=
  {[0 := MkTrace (header 0) [begin 0; start 1; access 64; access 72];
    1 := MkTrace (header 1) [begin 0; access 80]]}.

(** Thread 0 dereferences twice before it starts thread 1. *)
Definition derefs : gmap Z trace :=
  {[0 := MkTrace (header 0) [deref; deref; start 1; access 72];
    1 := MkTrace (header 1) [begin 0; access 80]]}.

Lemma plain_wf t tr : plain !! t = Some tr -> Forall item_wf tr.(tr_items).
Proof.
  assert (Hacc : forall a, item_wf (access a)) by (intros a; split; [repeat constructor; unfold byte_ok; lia|exists true, 0; done]).
  intros Ht. unfold plain in Ht. repeat (apply lookup_insert_Some in Ht as [[<- <-]|[_ Ht]] || apply lookup_singleton_Some in Ht as [<- <-]); repeat (apply Forall_cons_2; [exact I || apply Hacc|]); apply Forall_nil_2.
Qed.

Definition plain_loader : loader := default (MkLoader ∅ ∅) (loader_init (file_of <$> plain)).

Lemma windows_cover_witness : exists ws l', sessions elements 1 (enough plain_loader) plain_loader = Some (ws, l') /\ plain_loader.(aliveTids) ⊆ l'.(aliveTids).
Proof.
  destruct (windows_cover plain elements 1 plain_loader) as (ws & l' & E & Hal & _); [reflexivity|exact plain_wf|lia|vm_compute; reflexivity|]. exists ws, l'. split; [exact E|exact Hal].
Defined.

Lemma passes_agree_witness : exists seq fi, window_load 1 10 (new_FileInfo (file_of (MkTrace (header 1) [begin 0; access 80]))) = Some (seq, fi) /\
  seq.(seq_events) = [(longs_add 1 2, WriteNode 1 5 80 1 1 0)].
Proof.
  destruct (passes_agree 1 10 (MkTrace (header 1) [begin 0; access 80])) as (seq & fi & E & Hev & _); [apply (plain_wf 1); reflexivity|repeat constructor|vm_compute; reflexivity|vm_compute; discriminate|]. exists seq, fi. split; [exact E|]. rewrite Hev. reflexivity.
Defined.

Definition engine_of (trs : gmap Z trace) : res engine := preprocessWaitNotify id [0; 1] (file_of <$> trs) engine_init.
Definition windows_with (size : Z) (trs : gmap Z trace) : option (list window) :=
  l ← loader_init (file_of <$> trs); fst <$> sessions elements size (enough l) l.

(** The last access of thread 0, which follows the start of thread 1, and the
    access of thread 1, as some window has them with the number [num]. *)
Definition late num : gnode := (longs_add 0 num, WriteNode 0 5 72 1 1 0).
Definition kid : gnode := (longs_add 1 2, WriteNode 1 5 80 1 1 0).

(** The numbers of the two passes can disagree, and [canReach] then answers wrongly.  The second pass counts anew
    in every window, and it does not count dereferences.  In both runs below thread 0 starts thread 1 and then writes
    to 72, an access that nothing orders before those of thread 1; in the one with windows of one event it gets the
    number 1 in its window, in the one with dereferences the number 2, where the start has 2 and 3; so [canReach] says
    that the access comes before the access of thread 1. *)
Theorem numbers_disagree :
  (exists e w1 w2, engine_of plain = Ok e /\ windows_with 1 plain = Some [w1; w2] /\ windows_of 0 [w1; w2] = [(longs_add 0 3, WriteNode 0 5 64 1 1 0); late 1] /\ windows_of 1 [w1; w2] = [kid] /\
     gid <$> e.(orderedSyncNodeList) = [longs_add 0 2] /\ canReach e (late 1) kid = Ok true /\ canReach e (late 4) kid = Ok false) /\
  (exists e w, engine_of derefs = Ok e /\ windows_with 10 derefs = Some [w] /\ windows_of 0 [w] = [late 2] /\ windows_of 1 [w] = [kid] /\
     gid <$> e.(orderedSyncNodeList) = [longs_add 0 3] /\ canReach e (late 2) kid = Ok true /\ canReach e (late 4) kid = Ok false).
Proof.
  split.
  - eexists _, _, _. split; [vm_compute; reflexivity|]. split; [vm_compute; reflexivity|]. vm_compute. done.
  - eexists _, _. split; [vm_compute; reflexivity|]. split; [vm_compute; reflexivity|]. vm_compute. done.
Qed.
End Small.
