(* ===== verification/Allocator.v ===== *)
(** * Allocations and frees in the predictor

    [Allocator.java] and [AllocaPair.java] of
    [src/ufo-predict/src/main/java/aser/ufo/trace]: the allocations of a window
    are paired with the frees that end them, first in the order of a thread,
    then, for frees whose allocation another thread made, with the help of the
    happens-before engine; [checkAcc] finds the frees that an access may follow.

    An [AllocaPair] is an object that the queue of a thread and the tree over its
    addresses share, so pairs live in one list and queue and tree hold places in
    it.  The length of a free is changed when it is paired; the pair is the only
    place where it is read later, so the changed node is kept there.  Nodes have
    numbers of their own, so that frees that are equal are one object and no two
    pairs are equal; a hash set is a list without repetitions.  Iteration
    orders of hash sets are the parameters [list_frees] and [list_pairs], and
    [reach] is [NewReachEngine.canReach]. *)
From stdpp Require Import base numbers list gmap sorting.
From Stdlib Require Import ZArith Lia.
From S2P Require Import Prelude Events Reader Reach.

Local Open Scope Z_scope.

#[global] Instance node_eq_dec : EqDecision node.
Proof. solve_decision. Defined.

(** ** Nodes *)

(** the field [addr] *)
Definition addr (n : gnode) : Z :=
  match n.2 with
  | AllocNode _ _ a _ | DeallocNode _ _ a _ | RangeReadNode _ _ a _ _ | RangeWriteNode _ _ a _ _
  | ReadNode _ _ a _ _ _ | WriteNode _ _ a _ _ _ => a
  | _ => 0
  end.

(** the field [length] of allocations and frees *)
Definition len (n : gnode) : Z := match n.2 with AllocNode _ _ _ s | DeallocNode _ _ _ s => s | _ => 0 end.

Definition pc (n : gnode) : Z :=
  match n.2 with
  | AllocNode _ p _ _ | DeallocNode _ p _ _ | RangeReadNode _ p _ _ _ | RangeWriteNode _ p _ _ _
  | ReadNode _ p _ _ _ _ | WriteNode _ p _ _ _ _ => p
  | _ => 0
  end.

(** [deallocNode.length = l] *)
Definition set_len (l : Z) (n : gnode) : gnode := match n with (g, DeallocNode t p a _) => (g, DeallocNode t p a l) | _ => n end.

(** [DeallocNode.equals], which leaves out the length *)
Definition same_free (d d' : gnode) : bool := (gid d =? gid d') && (addr d =? addr d') && (pc d =? pc d').

(** [HashSet.add] *)
Definition add_free (d : gnode) (l : list gnode) : list gnode := if existsb (same_free d) l then l else l ++ [d].

(** [AllocNode.FAKE] *)
Definition FAKE : gnode := (0, AllocNode (-1) (-1) (-1) (-1)).

(** ** Pairs *)

Record AllocaPair : Type := MkPair {
  allocNode : gnode;
  deallocNode : option gnode;
  possibleDealloc : list gnode;
}.

Record TLAllocQ : Type := MkQ {
  allocQ : list nat;
  tree : gmap Z (list nat);
}.

Record Allocator : Type := MkAllocator {
  pairs : list AllocaPair;
  tid2AllocQ : gmap Z TLAllocQ;
  unmatched : list gnode;
  machtedAcc : gmap Z (list nat);
  count_alloc : Z;
  count_dealloc : Z;
}.

Definition new_Allocator : Allocator := MkAllocator [] ∅ [] ∅ 0 0.

Implicit Types (al : Allocator) (p : AllocaPair) (q : TLAllocQ) (n d a : gnode) (i j : nat).

Definition set_pairs al ps : Allocator := MkAllocator ps al.(tid2AllocQ) al.(unmatched) al.(machtedAcc) al.(count_alloc) al.(count_dealloc).
Definition set_unmatched al ds : Allocator := MkAllocator al.(pairs) al.(tid2AllocQ) ds al.(machtedAcc) al.(count_alloc) al.(count_dealloc).

(** [TLAllocQ.add] *)
Definition q_add q (adr : Z) i : TLAllocQ := MkQ (q.(allocQ) ++ [i]) (<[adr := default [] (q.(tree) !! adr) ++ [i]]> q.(tree)).

(** A new pair at the end of the queue of thread [t]. *)
Definition add_pair al (t : Z) p : Allocator :=
  let q := default (MkQ [] ∅) (al.(tid2AllocQ) !! t) in
  MkAllocator (al.(pairs) ++ [p]) (<[t := q_add q (addr p.(allocNode)) (length al.(pairs))]> al.(tid2AllocQ)) al.(unmatched) al.(machtedAcc) al.(count_alloc) al.(count_dealloc).

Definition push al n : Allocator :=
  add_pair (MkAllocator al.(pairs) al.(tid2AllocQ) al.(unmatched) al.(machtedAcc) (al.(count_alloc) + 1) al.(count_dealloc)) (tid n) (MkPair n None []).

Definition addNewAllocaPairWithFakeAlloc al (t : Z) d : Allocator := add_pair al t (MkPair FAKE (Some d) []).

(** [g.deallocNode = d], with the length of the allocation *)
Definition pair_with d p : AllocaPair := MkPair p.(allocNode) (Some (set_len (len p.(allocNode)) d)) p.(possibleDealloc).

Definition match_pair al i d : Allocator := set_pairs al (alter (pair_with d) i al.(pairs)).

(** The loop of [insert] from the end of the queue. *)
Fixpoint last_at (ps : list AllocaPair) (adr : Z) (rev_ids : list nat) : option (nat * AllocaPair) :=
  match rev_ids with
  | [] => None
  | i :: rev_ids =>
      match ps !! i with
      | Some p => if addr p.(allocNode) =? adr then Some (i, p) else last_at ps adr rev_ids
      | None => last_at ps adr rev_ids
      end
  end.

Definition insert al d : Allocator :=
  let al := MkAllocator al.(pairs) al.(tid2AllocQ) al.(unmatched) al.(machtedAcc) al.(count_alloc) (al.(count_dealloc) + 1) in
  match al.(tid2AllocQ) !! tid d with
  | Some q =>
      match last_at al.(pairs) (addr d) (rev q.(allocQ)) with
      | Some (i, p) =>
          match p.(deallocNode) with
          | None => match_pair al i d
          | Some _ => set_unmatched al (add_free d al.(unmatched))
          end
      | None => set_unmatched al (add_free d al.(unmatched))
      end
  | None => set_unmatched al (add_free d al.(unmatched))
  end.

(** *** Frees of other threads *)

Definition open_at (ps : list AllocaPair) (adr : Z) i : bool :=
  match ps !! i with Some p => (addr p.(allocNode) =? adr) && match p.(deallocNode) with None => true | Some _ => false end | None => false end.

Definition findMatchPairs al (adr t : Z) : list nat :=
  concat ((fun tq : Z * TLAllocQ =>
    if tq.1 =? t then [] else filter (fun i => open_at al.(pairs) adr i = true) (default [] (tq.2.(tree) !! adr))) <$> map_to_list al.(tid2AllocQ)).

Section Match.
Context (reach : gnode -> gnode -> res bool) (list_frees : list gnode -> list gnode) (list_pairs : list nat -> list nat).

(** [reachEngine.canReach(a, b) && reachEngine.canReach(c, d)] *)
Definition reach_and a b (c : gnode) d : res bool :=
  x ← reach a b;
  if (x : bool) then reach c d else Ok false.

Definition tryMatchPairs al i j d : res (option Allocator) :=
  p1 ← res_of_option ENull (al.(pairs) !! i);
  p2 ← res_of_option ENull (al.(pairs) !! j);
  b1 ← reach_and p1.(allocNode) p2.(allocNode) d p2.(allocNode);
  if (b1 : bool) then Ok (Some (match_pair al i d)) else
  b2 ← reach_and p2.(allocNode) p1.(allocNode) d p1.(allocNode);
  if (b2 : bool) then Ok (Some (match_pair al j d)) else Ok None.

(** The two nested loops, until the first success. *)
Fixpoint try_pairs al d (ijs : list (nat * nat)) : res (option Allocator) :=
  match ijs with
  | [] => Ok None
  | (i, j) :: ijs =>
      p1 ← res_of_option ENull (al.(pairs) !! i);
      p2 ← res_of_option ENull (al.(pairs) !! j);
      if gid p1.(allocNode) =? gid p2.(allocNode) then try_pairs al d ijs else
      r ← tryMatchPairs al i j d;
      match r with Some al => Ok (Some al) | None => try_pairs al d ijs end
  end.

Definition all_pairs (ids : list nat) : list (nat * nat) := concat ((fun i => pair i <$> ids) <$> ids).

(** [g.possibleDealloc.add(deNode)] *)
Definition add_possible d p : AllocaPair := MkPair p.(allocNode) p.(deallocNode) (add_free d p.(possibleDealloc)).

(** The body of the loop over the unmatched frees; with the frees matched. *)
Definition match_free d (st : list gnode * Allocator) : res (list gnode * Allocator) :=
  let '(matched, al) := st in
  match findMatchPairs al (addr d) (tid d) with
  | [i] => Ok (matched ++ [d], match_pair al i d)
  | [] => Ok (matched, addNewAllocaPairWithFakeAlloc al (tid d) d)
  | ids =>
      r ← try_pairs al d (all_pairs (list_pairs ids));
      match r with
      | Some al => Ok (matched ++ [d], al)
      | None => Ok (matched, set_pairs al (foldl (fun ps i => alter (add_possible d) i ps) al.(pairs) ids))
      end
  end.

Definition matchInterThrDealloc al : res Allocator :=
  if 0 <? zlen al.(unmatched) then
    st ← foldM match_free (list_frees al.(unmatched)) ([], al);
    Ok (set_unmatched st.2 (filter (fun d => existsb (same_free d) st.1 = true) st.2.(unmatched)))
  else Ok al.

(** *** Accesses *)

(** [q.tree.tailMap(accAddr)], over a tree in descending order *)
Definition tail_ids q (adr : Z) : list nat := concat ((fun kv : Z * list nat => if kv.1 <=? adr then kv.2 else []) <$> map_to_list q.(tree)).

(** The test of one pair. *)
Definition frees al n i : res bool :=
  match al.(pairs) !! i with
  | Some (MkPair _ (Some dn) _) =>
      if (addr dn <=? addr n) && (addr n <? addr dn + len dn) && negb (tid dn =? tid n) then b ← reach n dn; Ok (negb b) else Ok false
  | _ => Ok false
  end.

Fixpoint filter_frees al n (ids : list nat) : res (list nat) :=
  match ids with
  | [] => Ok []
  | i :: ids => b ← frees al n i; l ← filter_frees al n ids; Ok (if (b : bool) then i :: l else l)
  end.

Definition checkAcc al n : res (bool * Allocator) :=
  matchedGrp ← filter_frees al n (concat ((fun tq : Z * TLAllocQ => tail_ids tq.2 (addr n)) <$> map_to_list al.(tid2AllocQ)));
  if 0 <? zlen matchedGrp then
    Ok (true, MkAllocator al.(pairs) al.(tid2AllocQ) al.(unmatched) (<[gid n := matchedGrp]> al.(machtedAcc)) al.(count_alloc) al.(count_dealloc))
  else Ok (false, al).
End Match.

(** The first pass of the indexer over one node, as far as the allocator is
    concerned ([Indexer.pass1st]). *)
Definition feed al n : Allocator :=
  match n.2 with
  | AllocNode _ _ _ _ => push al n
  | DeallocNode _ _ _ _ => insert al n
  | _ => al
  end.

(** ** The pairs fit together *)

Definition is_free n : bool := match n.2 with DeallocNode _ _ _ _ => true | _ => false end.

Lemma len_set_len l d : is_free d = true -> len (set_len l d) = l.
Proof. destruct d as [g []]; done. Qed.

Lemma addr_set_len l d : addr (set_len l d) = addr d.
Proof. by destruct d as [g []]. Qed.

Lemma same_set_len l d d' : same_free d' (set_len l d) = same_free d' d.
Proof. by destruct d as [g []]. Qed.

Lemma tid_set_len l d : tid (set_len l d) = tid d.
Proof. by destruct d as [g []]. Qed.

(** What a pair says of its free. *)
Definition pair_ok p : Prop := forall d, p.(deallocNode) = Some d -> is_free d = true /\ (p.(allocNode) = FAKE \/ addr d = addr p.(allocNode) /\ len d = len p.(allocNode)).

Record alloc_ok al : Prop := {
  ok_queue : forall t q i, al.(tid2AllocQ) !! t = Some q -> i ∈ q.(allocQ) -> is_Some (al.(pairs) !! i);
  ok_tree : forall t q x i, al.(tid2AllocQ) !! t = Some q -> (i ∈ default [] (q.(tree) !! x) <-> i ∈ q.(allocQ) /\ exists p, al.(pairs) !! i = Some p /\ addr p.(allocNode) = x);
  ok_owner : forall i p, al.(pairs) !! i = Some p -> exists t q, al.(tid2AllocQ) !! t = Some q /\ i ∈ q.(allocQ);
  ok_pairs : Forall pair_ok al.(pairs);
  ok_unmatched : Forall (fun d => is_free d = true) al.(unmatched);
}.

Lemma new_Allocator_ok : alloc_ok new_Allocator.
Proof. split; cbn; try done; try (intros; by rewrite lookup_empty in *); constructor. Qed.

Lemma add_pair_ok al t p : alloc_ok al -> pair_ok p -> alloc_ok (add_pair al t p).
Proof.
  intros [Hq Ht Ho Hp Hu] Hpair. set (m := length (pairs al)). assert (Hold : forall i p0, pairs al !! i = Some p0 -> (pairs al ++ [p]) !! i = Some p0) by (intros i p0 Hi; by apply lookup_app_l_Some).
  assert (Hnew : (pairs al ++ [p]) !! m = Some p) by (rewrite lookup_app_r by done; by rewrite Nat.sub_diag).
  assert (Hinv : forall i p0, (pairs al ++ [p]) !! i = Some p0 -> pairs al !! i = Some p0 \/ i = m /\ p0 = p) by (intros i p0 [Hi|[Hi Hi2]]%lookup_app_Some; [by left|]; apply list_lookup_singleton_Some in Hi2 as [Hi2 <-]; right; split; [unfold m; lia|done]).
  assert (Hlt : forall i q0 u, tid2AllocQ al !! u = Some q0 -> i ∈ q0.(allocQ) -> i <> m) by (intros i q0 u Hq0 Hi ->; destruct (Hq u q0 m Hq0 Hi) as [? H]; apply lookup_lt_Some in H; unfold m in H; lia).
  split; cbn [add_pair tid2AllocQ pairs unmatched]; fold m.
  - intros u q i Hu' Hi. apply lookup_insert_Some in Hu' as [[<- <-]|[Hne Hu']].
    + cbn [q_add allocQ] in Hi. apply elem_of_app in Hi as [Hi| ->%list_elem_of_singleton]; [|by exists p]. destruct (tid2AllocQ al !! t) as [q0|] eqn:E; cbn in Hi; [|by apply not_elem_of_nil in Hi]. destruct (Hq t q0 i E Hi) as [p0 H0]. eauto.
    + destruct (Hq u q i Hu' Hi) as [p0 H0]. eauto.
  - intros u q x i Hu'. assert (Hgen : forall q0 v, tid2AllocQ al !! v = Some q0 -> (i ∈ default [] (tree q0 !! x) <-> i ∈ allocQ q0 /\ exists p0, (pairs al ++ [p]) !! i = Some p0 /\ addr (allocNode p0) = x)).
    { intros q0 v Hv. rewrite (Ht v q0 x i Hv). split; intros [Hi (p0 & H0 & Ha)]; (split; [done|]); exists p0; [auto|]. destruct (Hinv i p0 H0) as [|[-> _]]; [done|]. by destruct (Hlt m q0 v Hv Hi). }
    apply lookup_insert_Some in Hu' as [[<- <-]|[Hne Hu']]; [|by apply (Hgen q u)]. cbn [q_add tree allocQ]. set (q0 := default (MkQ [] ∅) (tid2AllocQ al !! t)).
    assert (Hg0 : i ∈ default [] (tree q0 !! x) <-> i ∈ allocQ q0 /\ exists p0, (pairs al ++ [p]) !! i = Some p0 /\ addr (allocNode p0) = x).
    { unfold q0. destruct (tid2AllocQ al !! t) as [q1|] eqn:E; cbn [default]; [by apply (Hgen q1 t)|]. cbn. rewrite lookup_empty. cbn. split; [by intros ?%not_elem_of_nil|by intros [?%not_elem_of_nil _]]. }
    rewrite elem_of_app, list_elem_of_singleton. destruct (decide (x = addr (allocNode p))) as [->|Hx].
    + rewrite lookup_insert_eq. cbn [default from_option id]. rewrite elem_of_app, list_elem_of_singleton, Hg0. split; [intros [?| ->]; [naive_solver|split; [by right|eauto]]|]. intros [[?| ->] ?]; auto.
    + rewrite lookup_insert_ne, Hg0 by done. split; [naive_solver|]. intros [[?| ->] (p0 & H0 & Ha)]; [eauto|]. rewrite Hnew in H0. injection H0 as <-. congruence.
  - intros i p0 Hi. destruct (Hinv i p0 Hi) as [H0|[-> ->]].
    + destruct (Ho i p0 H0) as (u & q & Hq0 & Hi0). destruct (decide (u = t)) as [->|Hne]; [exists t; eexists; rewrite lookup_insert_eq; split; [reflexivity|]; rewrite Hq0; cbn; apply elem_of_app; by left|exists u, q; by rewrite lookup_insert_ne].
    + exists t. eexists. rewrite lookup_insert_eq. split; [reflexivity|]. cbn. apply elem_of_app. right. by apply list_elem_of_singleton.
  - apply Forall_app. split; [done|]. by apply Forall_singleton.
  - done.
Qed.

(** Pairs may change as long as their allocations stay. *)
Lemma set_pairs_ok al ps : alloc_ok al -> allocNode <$> ps = allocNode <$> al.(pairs) -> Forall pair_ok ps -> alloc_ok (set_pairs al ps).
Proof.
  intros [Hq Ht Ho Hp Hu] Hps Hok. assert (Hlk : forall i, allocNode <$> ps !! i = allocNode <$> al.(pairs) !! i) by (intros i; by rewrite <- !list_lookup_fmap, Hps).
  split; cbn [set_pairs tid2AllocQ pairs unmatched]; [| | |done|done].
  - intros t q i Hq0 Hi. destruct (Hq t q i Hq0 Hi) as [p0 H0]. specialize (Hlk i). rewrite H0 in Hlk. destruct (ps !! i); [done|discriminate].
  - intros t q x i Hq0. rewrite (Ht t q x i Hq0). specialize (Hlk i). split; intros [Hi (p0 & H0 & <-)]; (split; [done|]); rewrite H0 in Hlk; [destruct (ps !! i)|destruct (pairs al !! i)]; try discriminate; injection Hlk as E; eexists; (split; [done|]); congruence.
  - intros i p0 H0. specialize (Hlk i). rewrite H0 in Hlk. destruct (pairs al !! i) as [p1|] eqn:E; [|discriminate]. by apply (Ho i p1).
Qed.

Lemma alter_alloc f i (ps : list AllocaPair) : (forall p, allocNode (f p) = allocNode p) -> allocNode <$> alter f i ps = allocNode <$> ps.
Proof. intros Hf. apply list_eq. intros j. rewrite !list_lookup_fmap. destruct (decide (i = j)) as [->|Hne]; [rewrite list_lookup_alter_eq|by rewrite list_lookup_alter_ne]. destruct (ps !! j); cbn; [by rewrite Hf|done]. Qed.

Lemma match_pair_ok al i d : alloc_ok al -> is_free d = true -> (forall p, al.(pairs) !! i = Some p -> addr p.(allocNode) = addr d) -> alloc_ok (match_pair al i d).
Proof.
  intros Hok Hd Hi. apply set_pairs_ok; [done|by apply alter_alloc|]. apply Forall_lookup_2. intros j p Hj. pose proof (ok_pairs al Hok) as Hp. rewrite Forall_lookup in Hp. destruct (decide (i = j)) as [->|Hne].
  - rewrite list_lookup_alter_eq in Hj. destruct (pairs al !! j) as [p0|] eqn:E; [|done]. injection Hj as <-. intros d' [= <-]. cbn [pair_with allocNode]. split; [by destruct d as [g []]|]. right. rewrite addr_set_len, len_set_len by done. split; [|done]. symmetry. by apply Hi.
  - rewrite list_lookup_alter_ne in Hj by done. by apply (Hp j).
Qed.

(** ** Every free is accounted for *)

Lemma same_free_refl d : same_free d d = true.
Proof. unfold same_free. by rewrite !Z.eqb_refl. Qed.

(** A pair has the free, or names it as a possible one. *)
Definition accounted al d : Prop := exists i p, al.(pairs) !! i = Some p /\
  ((exists d', p.(deallocNode) = Some d' /\ same_free d d' = true) \/ existsb (same_free d) p.(possibleDealloc) = true).

Definition waits al d : Prop := existsb (same_free d) al.(unmatched) = true.

(** No free is forgotten. *)
Definition keeps al al' : Prop := forall d, accounted al d -> accounted al' d.

Definition keeps_pair p p' : Prop := (p.(deallocNode) = None \/ p'.(deallocNode) = p.(deallocNode)) /\ forall d, existsb (same_free d) p.(possibleDealloc) = true -> existsb (same_free d) p'.(possibleDealloc) = true.

Lemma keeps_pairs al al' : (forall i p, al.(pairs) !! i = Some p -> exists p', al'.(pairs) !! i = Some p' /\ keeps_pair p p') -> keeps al al'.
Proof.
  intros H d (i & p & Hi & Hd). destruct (H i p Hi) as (p' & Hi' & Hde & Hpo). exists i, p'. split; [done|]. destruct Hd as [(d' & E & Hs)|Hex]; [left|right; auto]. exists d'. split; [|done]. destruct Hde; congruence.
Qed.

Lemma keeps_refl al : keeps al al.
Proof. by intros d. Qed.

Lemma keeps_trans al1 al2 al3 : keeps al1 al2 -> keeps al2 al3 -> keeps al1 al3.
Proof. unfold keeps. auto. Qed.

Lemma keeps_add_pair al t p : keeps al (add_pair al t p).
Proof. apply keeps_pairs. intros i p0 Hi. exists p0. split; [by apply lookup_app_l_Some|]. split; auto. Qed.

Lemma lookup_alter_pair f i j (ps : list AllocaPair) p : ps !! j = Some p -> alter f i ps !! j = Some (if decide (i = j) then f p else p).
Proof. intros Hj. destruct (decide (i = j)) as [->|Hne]; [rewrite list_lookup_alter_eq|rewrite list_lookup_alter_ne by done]; by rewrite Hj. Qed.

Lemma match_pair_keeps al i d : (forall p, al.(pairs) !! i = Some p -> p.(deallocNode) = None) -> keeps al (match_pair al i d).
Proof.
  intros Hi. apply keeps_pairs. intros j p Hj. eexists. split; [by apply lookup_alter_pair|]. case_decide as E; [subst j; split; [left; by apply Hi|done]|split; auto].
Qed.

Lemma match_pair_accounts al i d p : al.(pairs) !! i = Some p -> accounted (match_pair al i d) d.
Proof. intros Hi. exists i. eexists. split; [by apply lookup_alter_pair|]. rewrite decide_True by done. left. eexists. split; [reflexivity|]. by rewrite same_set_len, same_free_refl. Qed.

Lemma add_free_has d l : existsb (same_free d) (add_free d l) = true.
Proof. unfold add_free. destruct (existsb (same_free d) l) eqn:E; [done|]. by rewrite existsb_app, E; cbn; rewrite same_free_refl. Qed.

Lemma add_free_keeps d d' l : existsb (same_free d) l = true -> existsb (same_free d) (add_free d' l) = true.
Proof. intros H. unfold add_free. destruct (existsb (same_free d') l); [done|]. by rewrite existsb_app, H. Qed.

Lemma add_free_all d l : is_free d = true -> Forall (fun d => is_free d = true) l -> Forall (fun d => is_free d = true) (add_free d l).
Proof. intros Hd Hl. unfold add_free. destruct (existsb _ _); [done|]. apply Forall_app. split; [done|]. by apply Forall_singleton. Qed.

Lemma last_at_Some ps x ids i p : last_at ps x ids = Some (i, p) -> i ∈ ids /\ ps !! i = Some p /\ addr p.(allocNode) = x.
Proof.
  induction ids as [|j ids IH]; cbn [last_at]; [done|]. assert (Hr : last_at ps x ids = Some (i, p) -> i ∈ j :: ids /\ ps !! i = Some p /\ addr p.(allocNode) = x) by (intros H; destruct (IH H); split; [by right|done]).
  destruct (ps !! j) as [pj|] eqn:Ej; [|exact Hr]. destruct (Z.eqb_spec (addr (allocNode pj)) x) as [Ea|]; [|exact Hr]. intros [= <- <-]. split; [left|done].
Qed.

(** The first pass: the allocations become open pairs, every free gets a pair
    or waits. *)
Lemma feed_ok al n : alloc_ok al -> alloc_ok (feed al n) /\ keeps al (feed al n) /\ (forall d, waits al d -> waits (feed al n) d) /\ (is_free n = true -> accounted (feed al n) n \/ waits (feed al n) n).
Proof.
  intros Hok. assert (Hcount : forall x y, alloc_ok (MkAllocator al.(pairs) al.(tid2AllocQ) al.(unmatched) al.(machtedAcc) x y)) by (intros; by destruct Hok). destruct n as [g nd]. destruct nd; cbn [feed snd]; try (split; [done|split; [apply keeps_refl|split; [auto|done]]]).
  - split; [apply add_pair_ok; [apply Hcount|by intros d0]|]. split; [apply (keeps_trans _ (MkAllocator al.(pairs) al.(tid2AllocQ) al.(unmatched) al.(machtedAcc) (al.(count_alloc) + 1) al.(count_dealloc)) _); [exact (keeps_refl al)|apply keeps_add_pair]|]. split; [auto|done].
  - match goal with |- context [(g, ?x)] => set (d := (g, x)) end. unfold insert. set (al1 := MkAllocator _ _ _ _ _ _). assert (Hok1 : alloc_ok al1) by apply Hcount. change (pairs al1) with (pairs al). change (tid2AllocQ al1) with (tid2AllocQ al).
    assert (Hwait : alloc_ok (set_unmatched al1 (add_free d (unmatched al1))) /\ keeps al (set_unmatched al1 (add_free d (unmatched al1))) /\ (forall d0, waits al d0 -> waits (set_unmatched al1 (add_free d (unmatched al1))) d0) /\ (is_free d = true -> accounted (set_unmatched al1 (add_free d (unmatched al1))) d \/ waits (set_unmatched al1 (add_free d (unmatched al1))) d)).
    { split; [destruct Hok1 as [? ? ? ? Hu]; split; try done; by apply add_free_all|]. split; [exact (keeps_refl al)|]. split; [intros d0 H0; by apply add_free_keeps|]. intros _. right. apply add_free_has. }
    destruct (tid2AllocQ al !! Reach.tid d) as [q|] eqn:Eq; [|done]. destruct (last_at (pairs al) (Allocator.addr d) (rev (allocQ q))) as [[i p]|] eqn:El; [|done]. apply last_at_Some in El as (_ & Hi & Ha). destruct (deallocNode p) as [d'|] eqn:Ed; [done|].
    split; [apply match_pair_ok; [done|done|]; intros p0 H0; change (pairs al1) with (pairs al) in H0; congruence|]. split; [apply (match_pair_keeps al1); intros p0 H0; change (pairs al1) with (pairs al) in H0; congruence|]. split; [auto|]. intros _. left. by apply (match_pair_accounts al1 i d p).
Qed.

Lemma feed_all_ok ns : forall al, alloc_ok al -> alloc_ok (foldl feed al ns) /\ keeps al (foldl feed al ns) /\ (forall d, waits al d -> waits (foldl feed al ns) d) /\
  forall d, d ∈ ns -> is_free d = true -> accounted (foldl feed al ns) d \/ waits (foldl feed al ns) d.
Proof.
  induction ns as [|n ns IH]; intros al Hok; [split; [done|]; split; [apply keeps_refl|]; split; [auto|]; by intros ? ?%not_elem_of_nil|]. cbn [foldl]. destruct (feed_ok al n Hok) as (Hok1 & K1 & W1 & F1). destruct (IH _ Hok1) as (Hok2 & K2 & W2 & F2).
  split; [done|]. split; [by apply (keeps_trans _ (feed al n))|]. split; [auto|]. intros d [->|Hd]%elem_of_cons Hf; [|by apply F2]. destruct (F1 Hf); [left; by apply K2|right; by apply W2].
Qed.

Lemma open_at_Some ps x i : open_at ps x i = true -> exists p, ps !! i = Some p /\ addr p.(allocNode) = x /\ p.(deallocNode) = None.
Proof.
  unfold open_at. destruct (ps !! i) as [p|]; [|done]. intros [Ha Hd]%andb_true_iff. exists p. split; [done|]. split; [by apply Z.eqb_eq|]. by destruct (deallocNode p).
Qed.

Lemma findMatchPairs_open al x t i : i ∈ findMatchPairs al x t -> open_at al.(pairs) x i = true.
Proof.
  intros Hi. unfold findMatchPairs in Hi. apply list_elem_of_In, in_concat in Hi as (l & Hl & Hi). apply list_elem_of_In, list_elem_of_fmap in Hl as ([u q] & -> & _). apply list_elem_of_In in Hi. cbn [fst snd] in Hi. destruct (u =? t); [by apply not_elem_of_nil in Hi|]. by apply list_elem_of_filter in Hi as [? _].
Qed.

Section MatchOk.
Context (reach : gnode -> gnode -> res bool) (list_frees : list gnode -> list gnode) (list_pairs : list nat -> list nat).
Hypothesis Hreach : forall a b, exists x, reach a b = Ok x.
Hypothesis Hfrees : forall l, list_frees l ≡ₚ l.
Hypothesis Hpairs : forall l, list_pairs l ≡ₚ l.

Lemma reach_and_ok a b c d : exists x, reach_and reach a b c d = Ok x.
Proof. unfold reach_and. destruct (Hreach a b) as [x ->]. rewrite bind_ok. destruct x; [apply Hreach|by exists false]. Qed.

(** The loops end with one of the open pairs matched, or none. *)
Definition one_matched al d (ids : list nat) (r : option Allocator) : Prop := match r with Some al' => exists i, i ∈ ids /\ al' = match_pair al i d | None => True end.

Lemma tryMatchPairs_ok al i j d ids : i ∈ ids -> j ∈ ids -> is_Some (al.(pairs) !! i) -> is_Some (al.(pairs) !! j) -> exists r, tryMatchPairs reach al i j d = Ok r /\ one_matched al d ids r.
Proof.
  intros Hi Hj [p1 H1] [p2 H2]. unfold tryMatchPairs. rewrite H1, H2. cbn [res_of_option]. rewrite !bind_ok. destruct (reach_and_ok (allocNode p1) (allocNode p2) d (allocNode p2)) as [b1 ->]. rewrite bind_ok. destruct b1; [eexists; split; [reflexivity|]; by exists i|].
  destruct (reach_and_ok (allocNode p2) (allocNode p1) d (allocNode p1)) as [b2 ->]. rewrite bind_ok. destruct b2; eexists; (split; [reflexivity|]); [by exists j|done].
Qed.

Lemma try_pairs_ok al d ids ijs : (forall i, i ∈ ids -> is_Some (al.(pairs) !! i)) -> (forall i j, (i, j) ∈ ijs -> i ∈ ids /\ j ∈ ids) -> exists r, try_pairs reach al d ijs = Ok r /\ one_matched al d ids r.
Proof.
  intros Hids. induction ijs as [|[i j] ijs IH]; intros Hijs; [by exists None|]. cbn [try_pairs]. destruct (Hijs i j ltac:(left)) as [Hi Hj]. destruct (Hids i Hi) as [p1 H1], (Hids j Hj) as [p2 H2]. rewrite H1, H2. cbn [res_of_option]. rewrite !bind_ok.
  assert (IH' : exists r, try_pairs reach al d ijs = Ok r /\ one_matched al d ids r) by (apply IH; intros i' j' Hin; apply Hijs; by right). destruct (gid (allocNode p1) =? gid (allocNode p2)); [done|].
  destruct (tryMatchPairs_ok al i j d ids Hi Hj) as (r & -> & Hr); [by exists p1|by exists p2|]. rewrite bind_ok. destruct r as [al'|]; [by exists (Some al')|done].
Qed.

Lemma all_pairs_elem ids i j : (i, j) ∈ all_pairs ids -> i ∈ ids /\ j ∈ ids.
Proof.
  unfold all_pairs. intros Hij. apply list_elem_of_In, in_concat in Hij as (l & Hl & Hij). apply list_elem_of_In, list_elem_of_fmap in Hl as (i' & -> & Hi). apply list_elem_of_In, list_elem_of_fmap in Hij as (j' & [= -> ->] & Hj). done.
Qed.

Lemma add_possible_all al d ids : let al' := set_pairs al (foldl (fun ps i => alter (add_possible d) i ps) al.(pairs) ids) in
  alloc_ok al -> alloc_ok al' /\ keeps al al' /\ forall i, i ∈ ids -> is_Some (al.(pairs) !! i) -> accounted al' d.
Proof.
  cbn zeta. intros Hok. cut (forall ps, allocNode <$> ps = allocNode <$> al.(pairs) -> Forall pair_ok ps -> let ps' := foldl (fun ps i => alter (add_possible d) i ps) ps ids in
    allocNode <$> ps' = allocNode <$> al.(pairs) /\ Forall pair_ok ps' /\ (forall i p, ps !! i = Some p -> exists p', ps' !! i = Some p' /\ keeps_pair p p' /\ (i ∈ ids \/ existsb (same_free d) p.(possibleDealloc) = true -> existsb (same_free d) p'.(possibleDealloc) = true))).
  { intros H. destruct (H al.(pairs) eq_refl (ok_pairs al Hok)) as (H1 & H2 & H3). split; [by apply set_pairs_ok|]. split; [apply keeps_pairs; intros i p Hi; destruct (H3 i p Hi) as (p' & ? & ? & _); eauto|]. intros i Hi [p Hp]. destruct (H3 i p Hp) as (p' & Hp' & _ & Hd). exists i, p'. split; [done|]. right. auto. }
  induction ids as [|j ids IH]; intros ps Ha Hp; cbn zeta; cbn [foldl]; [split; [done|]; split; [done|]; intros i p Hi; exists p; split; [done|]; split; [split; auto|]; intros [?%not_elem_of_nil|?]; done|].
  destruct (IH (alter (add_possible d) j ps)) as (H1 & H2 & H3); [by rewrite alter_alloc| |].
  { apply Forall_lookup_2. intros i p Hi. rewrite Forall_lookup in Hp. destruct (decide (j = i)) as [->|Hne]; [rewrite list_lookup_alter_eq in Hi; destruct (ps !! i) as [p0|] eqn:E; [|done]; injection Hi as <-; exact (Hp i p0 E)|rewrite list_lookup_alter_ne in Hi by done; by apply (Hp i)]. }
  split; [done|]. split; [done|]. intros i p Hi. destruct (H3 i _ (lookup_alter_pair (add_possible d) j i ps p Hi)) as (p' & Hp' & [Hk1 Hk2] & Hd). exists p'. split; [done|]. destruct (decide (j = i)) as [->|Hne].
  - split; [split; [done|]; intros d0 H0; apply Hk2; by apply add_free_keeps|]. intros _. apply Hd. right. apply add_free_has.
  - split; [done|]. intros [[->|Hin]%elem_of_cons|Hex]; [done|apply Hd; by left|apply Hd; by right].
Qed.

Lemma match_free_ok d matched al : alloc_ok al -> is_free d = true -> exists st, match_free reach list_pairs d (matched, al) = Ok st /\ alloc_ok st.2 /\ keeps al st.2 /\ accounted st.2 d.
Proof.
  intros Hok Hd. pose proof (findMatchPairs_open al (addr d) (tid d)) as Hopen. assert (Hone : forall i, i ∈ findMatchPairs al (addr d) (tid d) -> alloc_ok (match_pair al i d) /\ keeps al (match_pair al i d) /\ accounted (match_pair al i d) d).
  { intros i Hi. destruct (open_at_Some _ _ _ (Hopen i Hi)) as (p & Hp & Ha & Hn). split; [apply match_pair_ok; [done..|congruence]|]. split; [apply match_pair_keeps; congruence|by apply (match_pair_accounts al i d p)]. }
  unfold match_free. destruct (findMatchPairs al (addr d) (tid d)) as [|i [|j ids]] eqn:E.
  - eexists. split; [reflexivity|]. split; [apply add_pair_ok; [done|]; intros d' [= <-]; split; [done|by left]|]. split; [apply keeps_add_pair|]. exists (length (pairs al)). eexists. split; [apply list_lookup_middle; reflexivity|]. left. exists d. split; [done|]. apply same_free_refl.
  - eexists. split; [reflexivity|]. apply Hone. left.
  - set (is_ := i :: j :: ids) in *. destruct (try_pairs_ok al d is_ (all_pairs (list_pairs is_))) as (r & -> & Hr).
    { intros k Hk. destruct (open_at_Some _ _ _ (Hopen k Hk)) as (p & ? & _). eauto. } { intros k l [Hk Hl]%all_pairs_elem. rewrite Hpairs in Hk, Hl. done. }
    rewrite bind_ok. destruct r as [al'|]; [destruct Hr as (k & Hk & ->); eexists; split; [reflexivity|]; by apply Hone|]. eexists. split; [reflexivity|]. destruct (add_possible_all al d is_ Hok) as (H1 & H2 & H3). split; [done|]. split; [done|]. apply (H3 i); [left|].
    destruct (open_at_Some _ _ _ (Hopen i ltac:(left))) as (p & ? & _). eauto.
Qed.

Lemma tryMatchPairs_unmatched al i j d al' : tryMatchPairs reach al i j d = Ok (Some al') -> al'.(unmatched) = al.(unmatched) /\ al'.(machtedAcc) = al.(machtedAcc).
Proof.
  unfold tryMatchPairs. destruct (pairs al !! i) as [p1|], (pairs al !! j) as [p2|]; cbn [res_of_option]; rewrite ?bind_ok, ?bind_err; try done.
  destruct (reach_and_ok (allocNode p1) (allocNode p2) d (allocNode p2)) as [[] ->]; rewrite bind_ok; [by intros [= <-]|]. destruct (reach_and_ok (allocNode p2) (allocNode p1) d (allocNode p1)) as [[] ->]; rewrite bind_ok; by intros [= <-].
Qed.

Lemma match_free_unmatched d st st' : match_free reach list_pairs d st = Ok st' -> st'.2.(unmatched) = st.2.(unmatched) /\ st'.2.(machtedAcc) = st.2.(machtedAcc).
Proof.
  destruct st as [matched al]. unfold match_free. destruct (findMatchPairs _ _ _) as [|i [|j ids]]; [by intros [= <-]..|]. destruct (try_pairs _ _ _ _) as [r|] eqn:E; [|done]. rewrite bind_ok. destruct r as [al'|]; intros [= <-]; [|done]. cbn.
  revert E. generalize (all_pairs (list_pairs (i :: j :: ids))) as ijs. induction ijs as [|[k l] ijs IH]; cbn [try_pairs]; [done|]. destruct (pairs al !! k) as [p1|], (pairs al !! l) as [p2|]; cbn [res_of_option]; rewrite ?bind_ok, ?bind_err; try done. destruct (_ =? _); [done|].
  destruct (tryMatchPairs reach al k l d) as [[al2|]|] eqn:Et; rewrite ?bind_ok, ?bind_err; [|done..]. intros [= ->]. by apply tryMatchPairs_unmatched in Et.
Qed.

Lemma matchInter_ok al : alloc_ok al -> exists al', matchInterThrDealloc reach list_frees list_pairs al = Ok al' /\ alloc_ok al' /\ keeps al al' /\ al'.(machtedAcc) = al.(machtedAcc) /\ forall d, d ∈ al.(unmatched) -> accounted al' d.
Proof.
  intros Hok. unfold matchInterThrDealloc. destruct (Z.ltb_spec 0 (zlen (unmatched al))) as [_|Hz]; [|exists al; split; [done|]; split; [done|]; split; [apply keeps_refl|]; split; [done|]; destruct (unmatched al); [by intros ? ?%not_elem_of_nil|unfold zlen in Hz; cbn [length] in Hz; lia]].
  destruct (foldM_inv (fun ds st => alloc_ok st.2 /\ keeps al st.2 /\ (st.2.(unmatched) = al.(unmatched) /\ st.2.(machtedAcc) = al.(machtedAcc)) /\ forall d, d ∈ ds -> accounted st.2 d) (match_free reach list_pairs) (list_frees (unmatched al)) ([], al)) as (st & -> & Hok' & K & [U G] & A).
  - split; [done|]. split; [apply keeps_refl|]. split; [done|]. by intros ? ?%not_elem_of_nil.
  - intros ds d rest [matched al1] Hsplit (Hok1 & K1 & [U1 G1] & A1). cbn [snd] in *. assert (Hd : is_free d = true).
    { pose proof (ok_unmatched al Hok) as Hu. rewrite Forall_forall in Hu. apply Hu. rewrite <- (Hfrees (unmatched al)), Hsplit. apply elem_of_app. right. left. }
    destruct (match_free_ok d matched al1 Hok1 Hd) as (st & E & Hok2 & K2 & A2). exists st. split; [done|]. split; [done|]. split; [by apply (keeps_trans _ al1)|]. split; [apply match_free_unmatched in E as [? ?]; cbn in *; split; congruence|]. intros d0 [H0| ->%list_elem_of_singleton]%elem_of_app; [apply K2; auto|done].
  - rewrite bind_ok. eexists. split; [reflexivity|]. split; [destruct Hok' as [? ? ? ? Hu]; split; try done; cbn; apply Forall_forall; intros d [_ Hd]%list_elem_of_filter; rewrite Forall_forall in Hu; by apply Hu|]. split; [exact K|]. split; [exact G|]. intros d Hd. apply A. by rewrite Hfrees.
Qed.
End MatchOk.

Lemma same_free_trans d1 d2 d3 : same_free d1 d2 = true -> same_free d2 d3 = true -> same_free d1 d3 = true.
Proof. unfold same_free. rewrite !andb_true_iff, !Z.eqb_eq. intros [[-> ->] ->] [[-> ->] ->]. done. Qed.

Lemma accounted_same al d d' : same_free d d' = true -> accounted al d' -> accounted al d.
Proof.
  intros Hs (i & p & Hp & H). exists i, p. split; [done|]. destruct H as [(d0 & E & H0)|H]; [left; exists d0; split; [done|]; by apply (same_free_trans _ d')|right]. apply existsb_exists in H as (d0 & Hin & H0). apply existsb_exists. exists d0. split; [done|]. by apply (same_free_trans _ d').
Qed.

(** What the reachability engine promises to the allocator and the indexer: it
    answers every question, and the answer decides [before]. *)
Class Engine (reach : gnode -> gnode -> res bool) (before : gnode -> gnode -> Prop) : Prop :=
  engine_answers : forall a b, exists x, reach a b = Ok x /\ (x = true <-> before a b).

Section Frees.
Context (reach : gnode -> gnode -> res bool) (before : gnode -> gnode -> Prop) `{!Engine reach before}.

Lemma engine_total a b : exists x, reach a b = Ok x.
Proof. destruct (engine_answers a b) as (x & E & _). by exists x. Qed.

Lemma engine_false a b : reach a b = Ok false <-> ~ before a b.
Proof. destruct (engine_answers a b) as (x & -> & Hx). split; [intros [= ->] Hb; by apply Hx in Hb|]. destruct x; [|done]. intros Hn. exfalso. by apply Hn, Hx. Qed.

Lemma no_groups ns : forall al, (foldl feed al ns).(machtedAcc) = al.(machtedAcc).
Proof.
  induction ns as [|n ns IH]; intros al; [done|]. cbn [foldl]. rewrite IH. clear IH. unfold feed, insert. destruct n.2; try done. cbn [tid2AllocQ pairs]. destruct (tid2AllocQ al !! _) as [q|]; [|done]. destruct (last_at _ _ _) as [[i p]|]; [|done]. by destruct (deallocNode p).
Qed.

Lemma all_accounted (list_frees : list gnode -> list gnode) (list_pairs : list nat -> list nat) ns : (forall l, list_frees l ≡ₚ l) -> (forall l, list_pairs l ≡ₚ l) -> exists al,
  matchInterThrDealloc reach list_frees list_pairs (foldl feed new_Allocator ns) = Ok al /\ alloc_ok al /\ al.(machtedAcc) = ∅ /\ forall d, d ∈ ns -> is_free d = true -> accounted al d.
Proof.
  intros Hf Hp. destruct (feed_all_ok ns _ new_Allocator_ok) as (Hok & _ & _ & Hns). destruct (matchInter_ok reach list_frees list_pairs engine_total Hf Hp _ Hok) as (al & E & Hok' & K & G & A). exists al. split; [done|]. split; [done|]. split; [by rewrite G, no_groups|].
  intros d Hd Hfr. destruct (Hns d Hd Hfr) as [H|H]; [by apply K|]. apply existsb_exists in H as (d' & Hin & Hs). apply list_elem_of_In in Hin. apply (accounted_same al d d' Hs). by apply A.
Qed.

(** A free recorded by a pair that covers the address of [n], by another thread, and that [n] is not known to precede. *)
Definition candidate al n i : Prop := exists p d, al.(pairs) !! i = Some p /\ p.(deallocNode) = Some d /\ addr d <= addr n < addr d + len d /\ tid d <> tid n /\ ~ before n d.

Lemma frees_ok al n i : exists b, frees reach al n i = Ok b /\ (b = true <-> candidate al n i).
Proof.
  unfold frees, candidate. destruct (pairs al !! i) as [[a [d|] ds]|]; [|exists false; split; [done|]; split; [done|]; intros (p & d & [= <-] & E & _); done|exists false; split; [done|]; split; [done|]; by intros (p & d & E & _)].
  destruct (_ && _) eqn:E.
  - rewrite !andb_true_iff, negb_true_iff, Z.leb_le, Z.ltb_lt, Z.eqb_neq in E. destruct (engine_answers n d) as (x & -> & Hx). rewrite bind_ok. exists (negb x). split; [done|]. rewrite negb_true_iff. split; [intros ->; exists (MkPair a (Some d) ds), d; cbn; split; [done|]; split; [done|]; split; [lia|]; split; [tauto|]; intros Hb; by apply Hx in Hb|].
    intros (p & d' & [= <-] & [= <-] & _ & _ & Hn). destruct x; [|done]. exfalso. by apply Hn, Hx.
  - exists false. split; [done|]. split; [done|]. intros (p & d' & [= <-] & [= <-] & Ha & Ht & _). rewrite !andb_false_iff, negb_false_iff, Z.leb_gt, Z.ltb_ge, Z.eqb_eq in E. destruct E as [[?|?]|?]; [lia..|done].
Qed.

Lemma filter_frees_ok al n ids : exists l, filter_frees reach al n ids = Ok l /\ forall i, i ∈ l <-> i ∈ ids /\ candidate al n i.
Proof.
  induction ids as [|i ids (l & IH & Hl)]; [exists []; split; [done|]; set_solver|]. cbn [filter_frees]. destruct (frees_ok al n i) as (b & -> & Hb). rewrite bind_ok, IH, bind_ok. exists (if b then i :: l else l). split; [done|]. intros j.
  destruct b; rewrite ?elem_of_cons, Hl; [split; [intros [->|?]; [split; [by left|by apply Hb]|naive_solver]|naive_solver]|]. split; [naive_solver|]. intros [[->|?] Hc]; [by apply Hb in Hc|done].
Qed.

(** The trees lead to every pair whose free covers the address. *)
Lemma tails_reach al n i : alloc_ok al -> -1 <= addr n -> candidate al n i -> i ∈ concat ((fun tq : Z * TLAllocQ => tail_ids tq.2 (addr n)) <$> map_to_list al.(tid2AllocQ)).
Proof.
  intros Hok Hn (p & d & Hp & Hd & Ha & _). destruct (ok_owner al Hok i p Hp) as (t & q & Hq & Hi). set (x := addr (allocNode p)). assert (Hin : i ∈ default [] (tree q !! x)) by (apply (ok_tree al Hok t q x i Hq); eauto).
  destruct (tree q !! x) as [ids|] eqn:Ex; cbn in Hin; [|by apply not_elem_of_nil in Hin]. assert (Hx : x <= addr n). { pose proof (ok_pairs al Hok) as Hall. rewrite Forall_lookup in Hall. destruct (Hall i p Hp d Hd) as [_ [E|[E _]]]; unfold x; [rewrite E; cbn; lia|lia]. }
  apply list_elem_of_In, in_concat. exists (tail_ids q (addr n)). split; [apply list_elem_of_In, list_elem_of_fmap; exists (t, q); split; [done|]; by apply elem_of_map_to_list|]. unfold tail_ids. apply in_concat. exists ids. split; [|by apply list_elem_of_In].
  apply list_elem_of_In, list_elem_of_fmap. exists (x, ids). cbn [fst snd]. rewrite (proj2 (Z.leb_le _ _) Hx). split; [done|]. by apply elem_of_map_to_list.
Qed.

Definition set_group al (g : Z) (grp : list nat) : Allocator := MkAllocator al.(pairs) al.(tid2AllocQ) al.(unmatched) (<[g := grp]> al.(machtedAcc)) al.(count_alloc) al.(count_dealloc).

Lemma checkAcc_ok al n : alloc_ok al -> -1 <= addr n ->
  (exists grp, checkAcc reach al n = Ok (true, set_group al (gid n) grp) /\ grp <> [] /\ forall i, i ∈ grp <-> candidate al n i) \/
  checkAcc reach al n = Ok (false, al) /\ forall i, ~ candidate al n i.
Proof.
  intros Hok Hn. unfold checkAcc. destruct (filter_frees_ok al n (concat ((fun tq : Z * TLAllocQ => tail_ids tq.2 (addr n)) <$> map_to_list al.(tid2AllocQ)))) as (grp & -> & Hg). rewrite bind_ok.
  assert (Hg' : forall i, i ∈ grp <-> candidate al n i) by (intros i; rewrite Hg; split; [tauto|]; intros Hc; split; [by apply tails_reach|done]). destruct grp as [|j grp]; [right; split; [done|]; intros i Hc%Hg'; by apply not_elem_of_nil in Hc|left].
  exists (j :: grp). split; [|done]. by rewrite (proj2 (Z.ltb_lt 0 (zlen (j :: grp)))) by (unfold zlen; cbn [length]; lia).
Qed.

Lemma set_group_ok al g grp : alloc_ok al -> alloc_ok (set_group al g grp).
Proof. by intros []. Qed.
End Frees.

(** C29: Once the frees of all threads have been matched, none is lost: whatever the order of the hash sets and whatever
    order the engine decides, [matchInterThrDealloc] returns, the queues, the trees and the pairs fit together, a free
    has the address and the length of its allocation, and every free of the trace is the free of some pair (of a made-up
    allocation if it has none) or is named as a possible free of one. *)
Theorem frees_accounted reach before list_frees list_pairs ns : Engine reach before -> (forall l, list_frees l ≡ₚ l) -> (forall l, list_pairs l ≡ₚ l) -> exists al,
  matchInterThrDealloc reach list_frees list_pairs (foldl feed new_Allocator ns) = Ok al /\ alloc_ok al /\ forall d, d ∈ ns -> is_free d = true -> accounted al d.
Proof. intros He Hf Hp. destruct (all_accounted reach before list_frees list_pairs ns Hf Hp) as (al & ? & ? & _ & ?). by exists al. Qed.

(** ** Two allocations of an address, freed by other threads *)
Module Handover.
Definition reach a b : res bool := Ok (gid a <=? gid b).
Definition before a b : Prop := gid a <= gid b.

#[export] Instance ordered : Engine reach before.
Proof. intros a b. eexists. split; [reflexivity|]. apply Z.leb_le. Qed.

Definition alloc1 : gnode := (1, AllocNode 1 7 256 16).
Definition free1 : gnode := (2, DeallocNode 2 8 256 0).
Definition alloc2 : gnode := (3, AllocNode 1 9 256 32).
Definition free2 : gnode := (4, DeallocNode 3 8 256 0).
Definition stray : gnode := (5, DeallocNode 2 8 512 8).

Definition run : res Allocator := matchInterThrDealloc reach id id (foldl feed new_Allocator [alloc1; alloc2; free1; stray; free2]).

Lemma frees_accounted_witness : exists al, run = Ok al /\ accounted al free1 /\ accounted al free2 /\ accounted al stray.
Proof. destruct (frees_accounted reach before id id [alloc1; alloc2; free1; stray; free2] ordered (fun l => reflexivity l) (fun l => reflexivity l)) as (al & E & _ & H). exists al. split; [exact E|]. split; [|split]; apply H; try reflexivity; set_solver +. Defined.

(** The first free goes to the first allocation, the second to the other; the stray one gets a pair of its own. *)
Example matched_lengths : exists al, run = Ok al /\ (fun p => (p.(allocNode), len <$> p.(deallocNode))) <$> al.(pairs) = [(alloc1, Some 16); (alloc2, Some 32); (FAKE, Some 8)].
Proof. eexists. split; vm_compute; reflexivity. Qed.
End Handover.
