(* ===== verification/Smt.v ===== *)
(** * Reading constraint scripts

    The language in which the predictor writes to the solver, as far as it uses
    it: SMT-LIB scripts of S-expressions with [declare-const], [assert], [<],
    [and] and [or] over integer constants.  [read_script] reads a text, [eval]
    gives a formula its meaning, [models] says that an assignment satisfies all
    assertions of a text.  Formulas as data ([form]) with their S-expressions
    carry the proofs about texts; [lexes] composes along with the texts. *)
From Stdlib Require Import ZArith Lia Ascii String DecimalString DecimalZ List.
From stdpp Require Import base strings list.
From S2P Require Import Prelude.

Local Open Scope Z_scope.

(** ** Text *)

Definition newline : ascii := ascii_of_nat 10.
Definition nl : string := String newline EmptyString.
Definition blank (c : ascii) : bool := (c =? " ")%char || (c =? newline)%char || (c =? ascii_of_nat 9)%char || (c =? ascii_of_nat 13)%char.

(** [StringBuilder.append] of the pieces *)
Fixpoint cat (l : list string) : string := match l with [] => EmptyString | s :: l => s +:+ cat l end.

(** [Long.toString] and [Long.parseLong] *)
Definition decimal (z : Z) : string := NilZero.string_of_int (Z.to_int z).
Definition parseLong (s : string) : option Z := Z.of_int <$> NilZero.int_of_string s.

(** ** Tokens *)

Inductive token : Type := LPar | RPar | Word (w : string).

#[global] Instance token_eq_dec : EqDecision token.
Proof. solve_decision. Defined.

Definition flush (acc : string) : list token := match acc with EmptyString => [] | _ => [Word acc] end.

Definition delimiter (c : ascii) : option (list token) :=
  if (c =? "(")%char then Some [LPar] else if (c =? ")")%char then Some [RPar] else if blank c then Some [] else None.

(** Tokens so far and the word that is being read. *)
Fixpoint lx (s : string) (st : list token * string) : list token * string :=
  match s with
  | EmptyString => st
  | String c s =>
      match delimiter c with
      | Some ts => lx s (st.1 ++ flush st.2 ++ ts, EmptyString)
      | None => lx s (st.1, st.2 +:+ String c EmptyString)
      end
  end.

Definition lex (s : string) : list token := let '(ts, acc) := lx s ([], EmptyString) in ts ++ flush acc.

(** ** S-expressions *)

Inductive sexp : Type := Atom (w : string) | Node (es : list sexp).

Fixpoint read_at (ts : list token) (stack : list (list sexp)) (cur : list sexp) : option (list sexp) :=
  match ts with
  | [] => match stack with [] => Some cur | _ => None end
  | Word w :: ts => read_at ts stack (cur ++ [Atom w])
  | LPar :: ts => read_at ts (cur :: stack) []
  | RPar :: ts => match stack with [] => None | up :: stack => read_at ts stack (up ++ [Node cur]) end
  end.

Definition read_script (s : string) : option (list sexp) := read_at (lex s) [] [].

(** ** Meaning *)

Definition all_of (l : list (option bool)) : option bool := foldr (fun x y => x ≫= fun b => y ≫= fun c => Some (b && c)) (Some true) l.
Definition any_of (l : list (option bool)) : option bool := foldr (fun x y => x ≫= fun b => y ≫= fun c => Some (b || c)) (Some false) l.

(** [None] for what is no formula of this kind *)
Fixpoint eval (m : string -> Z) (e : sexp) : option bool :=
  match e with
  | Node [Atom op; Atom a; Atom b] => if String.eqb op "<" then Some (m a <? m b) else None
  | Node (Atom op :: es) => if String.eqb op "and" then all_of (List.map (eval m) es) else if String.eqb op "or" then any_of (List.map (eval m) es) else None
  | _ => None
  end.

Definition assertion (e : sexp) : option sexp := match e with Node [Atom op; f] => if String.eqb op "assert" then Some f else None | _ => None end.
Definition declaration (e : sexp) : option string := match e with Node [Atom op; Atom x; Atom ty] => if String.eqb op "declare-const" then Some x else None | _ => None end.

Definition assertions (s : string) : option (list sexp) := match read_script s with Some es => Some (omap (M := list) assertion es) | None => None end.
Definition declared (s : string) : list string := match read_script s with Some es => omap (M := list) declaration es | None => [] end.

(** Assignment [m] satisfies the script. *)
Definition models (m : string -> Z) (s : string) : Prop := exists fs, assertions s = Some fs /\ Forall (fun f => eval m f = Some true) fs.

(** The constants of a formula, and whether the script declares those of its
    assertions. *)
Fixpoint constants (e : sexp) : list string :=
  match e with
  | Node [Atom op; Atom a; Atom b] => [a; b]
  | Node (Atom op :: es) => concat (List.map constants es)
  | _ => []
  end.

Definition scoped (s : string) : bool :=
  match assertions s with
  | Some fs => forallb (fun x => existsb (String.eqb x) (declared s)) (concat (List.map constants fs))
  | None => false
  end.

(** ** Reading what was written *)

Fixpoint toks (e : sexp) : list token := match e with Atom w => [Word w] | Node es => LPar :: concat (List.map toks es) ++ [RPar] end.

Section SexpInd.
Context (P : sexp -> Prop) (HA : forall w, P (Atom w)) (HN : forall es, Forall P es -> P (Node es)).

Fixpoint sexp_ind' (e : sexp) : P e :=
  match e with
  | Atom w => HA w
  | Node es => HN es ((fix go es : Forall P es := match es with [] => Forall_nil_2 P | e :: es => Forall_cons_2 P e es (sexp_ind' e) (go es) end) es)
  end.
End SexpInd.

Lemma read_toks e : forall ts stack cur, read_at (toks e ++ ts) stack cur = read_at ts stack (cur ++ [e]).
Proof.
  induction e as [w|es IH] using sexp_ind'; intros ts stack cur; [done|]. cbn [toks app read_at]. rewrite <- app_assoc. assert (Hes : forall l rest c st, Forall (fun e => forall ts stack cur, read_at (toks e ++ ts) stack cur = read_at ts stack (cur ++ [e])) l -> read_at (concat (List.map toks l) ++ rest) st c = read_at rest st (c ++ l)).
  { induction l as [|e l IHl]; intros rest c st Hl; cbn [List.map concat app]; [by rewrite app_nil_r|]. apply Forall_cons in Hl as [He Hl]. rewrite <- app_assoc, He, IHl by done. by rewrite <- app_assoc. }
  rewrite Hes by done. done.
Qed.

Lemma read_all es : read_at (concat (List.map toks es)) [] [] = Some es.
Proof.
  cut (forall c, read_at (concat (List.map toks es)) [] c = Some (c ++ es)); [by intros ->|]. induction es as [|e es IH]; intros c; cbn [List.map concat]; [by rewrite app_nil_r|]. rewrite read_toks, IH. by rewrite <- app_assoc.
Qed.

(** *** Lexing goes along with concatenation *)

Lemma lx_app s1 : forall s2 st, lx (s1 +:+ s2) st = lx s2 (lx s1 st).
Proof. induction s1 as [|c s1 IH]; intros s2 st; [done|]. cbn [lx]. change (String c s1 +:+ s2) with (String c (s1 +:+ s2)). cbn [lx]. by destruct (delimiter c). Qed.

Definition lexes (s : string) (ts : list token) : Prop := forall pre, lx s (pre, EmptyString) = (pre ++ ts, EmptyString).

Fixpoint is_word (s : string) : bool := match s with EmptyString => true | String c s => match delimiter c with None => is_word s | Some _ => false end end.
Definition starts_delimited (s : string) : bool := match s with EmptyString => false | String c _ => match delimiter c with Some _ => true | None => false end end.

Lemma lexes_lex s ts : lexes s ts -> lex s = ts.
Proof. intros H. unfold lex. rewrite H. cbn. apply app_nil_r. Qed.

Lemma lexes_nil : lexes EmptyString [].
Proof. intros pre. cbn. by rewrite app_nil_r. Qed.

Lemma lexes_app s1 s2 ts1 ts2 : lexes s1 ts1 -> lexes s2 ts2 -> lexes (s1 +:+ s2) (ts1 ++ ts2).
Proof. intros H1 H2 pre. by rewrite lx_app, H1, H2, app_assoc. Qed.

Lemma lx_pre s : forall pre acc, lx s (pre, acc) = (pre ++ (lx s ([], acc)).1, (lx s ([], acc)).2).
Proof.
  induction s as [|c s IH]; intros pre acc; cbn [lx fst snd]; [by rewrite app_nil_r|]. destruct (delimiter c); [|apply IH]. rewrite IH, (IH ([] ++ _)). cbn [fst snd app]. by rewrite <- !app_assoc.
Qed.

(** A fixed piece that ends in a delimiter. *)
Lemma lexes_const s : (lx s ([], EmptyString)).2 = EmptyString -> lexes s (lx s ([], EmptyString)).1.
Proof. intros H pre. by rewrite lx_pre, H. Qed.

Lemma append_assoc (s1 s2 s3 : string) : s1 +:+ s2 +:+ s3 = (s1 +:+ s2) +:+ s3.
Proof. induction s1 as [|c s1 IH]; [done|]. change (String c s1 +:+ s2 +:+ s3) with (String c (s1 +:+ s2 +:+ s3)). by rewrite IH. Qed.

Lemma append_empty (s : string) : s +:+ EmptyString = s.
Proof. induction s as [|c s IH]; [done|]. change (String c s +:+ EmptyString) with (String c (s +:+ EmptyString)). by rewrite IH. Qed.

Lemma lx_word w : is_word w = true -> forall pre acc, lx w (pre, acc) = (pre, acc +:+ w).
Proof.
  induction w as [|c w IH]; intros Hw pre acc; cbn [lx is_word] in *; [by rewrite append_empty|]. destruct (delimiter c); [done|]. rewrite IH by done. cbn [fst snd]. by rewrite <- append_assoc.
Qed.

(** A word in front of a delimiter. *)
Lemma lexes_word w s ts : is_word w = true -> w <> EmptyString -> starts_delimited s = true -> lexes s ts -> lexes (w +:+ s) (Word w :: ts).
Proof.
  intros Hw Hne Hd H pre. rewrite lx_app, lx_word by done. destruct s as [|c s]; [done|]. cbn in Hd. specialize (H (pre ++ [Word w])). cbn [lx fst snd] in *. destruct (delimiter c); [|done].
  assert (Hf : flush (EmptyString +:+ w) = [Word w]) by (by destruct w). rewrite Hf. cbn [flush app] in H. rewrite <- !app_assoc in H. exact H.
Qed.

(** ** Formulas *)

Inductive form : Type := Lt (a b : string) | And (fs : list form) | Or (fs : list form).

Fixpoint sexp_of (f : form) : sexp :=
  match f with
  | Lt a b => Node [Atom "<"; Atom a; Atom b]
  | And fs => Node (Atom "and" :: List.map sexp_of fs)
  | Or fs => Node (Atom "or" :: List.map sexp_of fs)
  end.

Fixpoint sat (m : string -> Z) (f : form) : Prop :=
  match f with
  | Lt a b => m a < m b
  | And fs => foldr and True (List.map (sat m) fs)
  | Or fs => foldr or False (List.map (sat m) fs)
  end.

Section FormInd.
Context (P : form -> Prop) (HL : forall a b, P (Lt a b)) (HA : forall fs, Forall P fs -> P (And fs)) (HO : forall fs, Forall P fs -> P (Or fs)).

Fixpoint form_ind' (f : form) : P f :=
  let go := fix go fs : Forall P fs := match fs with [] => Forall_nil_2 P | f :: fs => Forall_cons_2 P f fs (form_ind' f) (go fs) end in
  match f with
  | Lt a b => HL a b
  | And fs => HA fs (go fs)
  | Or fs => HO fs (go fs)
  end.
End FormInd.

Lemma eval_and m fs : eval m (sexp_of (And fs)) = all_of (List.map (eval m) (List.map sexp_of fs)).
Proof. destruct fs as [|[] [|[] [|[] fs]]]; reflexivity. Qed.

Lemma eval_or m fs : eval m (sexp_of (Or fs)) = any_of (List.map (eval m) (List.map sexp_of fs)).
Proof. destruct fs as [|[] [|[] [|[] fs]]]; reflexivity. Qed.

(** A formula written and read means what it says. *)
Lemma eval_sat m f : exists b, eval m (sexp_of f) = Some b /\ (b = true <-> sat m f).
Proof.
  induction f as [a b|fs IH|fs IH] using form_ind'.
  - eexists. split; [reflexivity|]. apply Z.ltb_lt.
  - rewrite eval_and. cbn [sat]. induction IH as [|f fs (b & Hb & Hs) _ (c & Hc & Hr)]; [by exists true|]. cbn [List.map]. unfold all_of in *. cbn [foldr]. rewrite Hb, Hc. exists (b && c). split; [done|]. by rewrite andb_true_iff, Hs, Hr.
  - rewrite eval_or. cbn [sat]. induction IH as [|f fs (b & Hb & Hs) _ (c & Hc & Hr)]; [by exists false|]. cbn [List.map]. unfold any_of in *. cbn [foldr]. rewrite Hb, Hc. exists (b || c). split; [done|]. by rewrite orb_true_iff, Hs, Hr.
Qed.

Lemma eval_true m f : eval m (sexp_of f) = Some true <-> sat m f.
Proof. destruct (eval_sat m f) as (b & -> & <-). split; [by intros [= ->]|by intros ->]. Qed.

(** ** Numbers *)

Lemma parse_decimal z : parseLong (decimal z) = Some z.
Proof.
  unfold parseLong, decimal. rewrite <- (DecimalZ.of_to z) at 2. generalize (Z.to_int z) as d. intros [d|d]; (destruct d; [done|rewrite NilZero.isi by done; done..]).
Qed.

Lemma decimal_word z : is_word (decimal z) = true.
Proof.
  assert (Hu : forall d, is_word (NilEmpty.string_of_uint d) = true) by (induction d; cbn; done). assert (Hz : forall d, is_word (NilZero.string_of_uint d) = true) by (intros []; try apply (Hu (Decimal.D0 _)); try done; apply Hu).
  unfold decimal. destruct (Z.to_int z); cbn [NilZero.string_of_int is_word]; [apply Hz|]. apply Hz.
Qed.

(** ** Scripts as lists of commands *)

Definition script_is (s : string) (es : list sexp) : Prop := lexes s (concat (List.map toks es)).

Lemma script_nil : script_is EmptyString [].
Proof. apply lexes_nil. Qed.

Lemma script_app s1 s2 es1 es2 : script_is s1 es1 -> script_is s2 es2 -> script_is (s1 +:+ s2) (es1 ++ es2).
Proof. unfold script_is. rewrite List.map_app, concat_app. apply lexes_app. Qed.

Lemma script_one s e ts : lexes s ts -> ts = toks e -> script_is s [e].
Proof. intros H ->. unfold script_is. cbn. by rewrite app_nil_r. Qed.

Lemma script_read s es : script_is s es -> read_script s = Some es.
Proof. intros H. unfold read_script. rewrite (lexes_lex _ _ H). apply read_all. Qed.

Definition asserted (f : form) : sexp := Node [Atom "assert"; sexp_of f].

Lemma script_models m s es (fs : list form) : script_is s es -> omap assertion es = sexp_of <$> fs -> models m s <-> Forall (sat m) fs.
Proof.
  intros Hs Hfs. unfold models, assertions. rewrite (script_read s es Hs), Hfs. split.
  - intros (l & [= <-] & H). apply Forall_fmap in H. eapply Forall_impl; [exact H|]. intros f. apply eval_true.
  - intros H. eexists. split; [reflexivity|]. apply Forall_fmap. eapply Forall_impl; [exact H|]. intros f. apply eval_true.
Qed.
