(* ===== verification/Index.v ===== *)
(** * The index of a window

    [Indexer.java] of [src/ufo-predict/src/main/java/aser/ufo/trace]: what the
    predictor derives from the nodes of one window before it asks the solver.
    [pass1st] collects call sequences, allocations, frees and pairs of lock and
    unlock; [findSharedAcc] finds the addresses that matter; the third pass keeps
    the nodes of those addresses.  [buildCallStack] and [getTSDependentSeqRead]
    are queries on the result.

    The nodes of a window are a list of threads with their nodes, in the order in
    which the hash map [_rawTid2seq] lists them.  Counters of [metaInfo] and the
    states [PRE_LOAD] to [PRE_NORM] are left out. *)
From stdpp Require Import base numbers list gmap sorting.
From Stdlib Require Import ZArith Lia.
From S2P Require Import Prelude Events Reader Reach Allocator.

Local Open Scope Z_scope.

Implicit Types (n d a : gnode) (t x : Z) (al : Allocator).

Definition is_read n : bool := match n.2 with ReadNode _ _ _ _ _ _ => true | _ => false end.
Definition is_write n : bool := match n.2 with WriteNode _ _ _ _ _ _ => true | _ => false end.
Definition is_range_read n : bool := match n.2 with RangeReadNode _ _ _ _ _ => true | _ => false end.
Definition is_range_write n : bool := match n.2 with RangeWriteNode _ _ _ _ _ => true | _ => false end.

(** [node instanceof MemAccNode] *)
Definition is_access n : bool := is_read n || is_write n || is_range_read n || is_range_write n.

(** [node instanceof FuncEntryNode || node instanceof FuncExitNode] *)
Definition is_call n : bool := match n.2 with FuncEntryNode _ _ | FuncExitNode _ => true | _ => false end.

(** [((WriteNode) node).value] *)
Definition value n : Z := match n.2 with ReadNode _ _ _ _ v _ | WriteNode _ _ _ _ v _ => v | _ => 0 end.

(** [ISyncNode.getAddr]; [None] for nodes of other kinds *)
Definition sync_addr n : option Z :=
  match n.2 with
  | LockNode _ l _ | UnlockNode _ l _ => Some l
  | WaitNode _ _ c _ _ | NotifyNode _ _ c _ | NotifyAllNode _ _ c _ => Some c
  | TBeginNode _ p _ | TEndNode _ p _ => Some p
  | TStartNode _ _ k _ _ | TJoinNode _ _ k _ _ => Some k
  | _ => None
  end.

(** Get the list of a key, made if there is none, and add to its end. *)
Definition append_at {A} (k : Z) (y : A) (m : gmap Z (list A)) : gmap Z (list A) := <[k := default [] (m !! k) ++ [y]]> m.

(** ** Locks *)

Record LockPair : Type := MkLockPair { nLock : option gnode; nUnlock : option gnode }.

(** The stacks have their top first. *)
Record locks : Type := MkLocks {
  syncNodesMap : gmap Z (list gnode);
  tid2SyncStack : gmap Z (list gnode);
  tid2LockPairs : gmap Z (gmap Z (list LockPair));
}.

Definition no_locks : locks := MkLocks ∅ ∅ ∅.

Definition add_lock_pair t l (lp : LockPair) (m : gmap Z (gmap Z (list LockPair))) : gmap Z (gmap Z (list LockPair)) :=
  <[t := append_at l lp (default ∅ (m !! t))]> m.

(** The two maps get their entries before the stack is looked at. *)
Definition ensure_list t l (m : gmap Z (gmap Z (list LockPair))) : gmap Z (gmap Z (list LockPair)) :=
  let m' := default ∅ (m !! t) in <[t := <[l := default [] (m' !! l)]> m']> m.

Definition handleSync2 t n (s : locks) : locks :=
  match sync_addr n with
  | None => s
  | Some x =>
      let nodes := append_at x n s.(syncNodesMap) in
      let stack := default [] (s.(tid2SyncStack) !! t) in
      match n.2 with
      | LockNode _ _ _ => MkLocks nodes (<[t := n :: stack]> s.(tid2SyncStack)) s.(tid2LockPairs)
      | UnlockNode _ l _ =>
          let prs := ensure_list t l s.(tid2LockPairs) in
          match stack with
          | [] => MkLocks nodes (<[t := []]> s.(tid2SyncStack)) (add_lock_pair t l (MkLockPair None (Some n)) prs)
          | [top] => MkLocks nodes (<[t := []]> s.(tid2SyncStack)) (add_lock_pair t l (MkLockPair (Some top) (Some n)) prs)
          | _ :: rest => MkLocks nodes (<[t := rest]> s.(tid2SyncStack)) prs
          end
      | _ => MkLocks nodes s.(tid2SyncStack) s.(tid2LockPairs)
      end
  end.

(** [checkSyncStack]: locks that are held at the end of the window *)
Definition close_stack t (stack : list gnode) (m : gmap Z (gmap Z (list LockPair))) : gmap Z (gmap Z (list LockPair)) :=
  foldl (fun m n => add_lock_pair t (default 0 (sync_addr n)) (MkLockPair (Some n) None) m) m stack.

Definition checkSyncStack (s : locks) : gmap Z (gmap Z (list LockPair)) :=
  foldl (fun m (tq : Z * list gnode) => close_stack tq.1 tq.2 m) s.(tid2LockPairs) (map_to_list s.(tid2SyncStack)).

(** [addrLpLs.addAll(e.getValue())] for every thread and lock *)
Definition add_thread_pairs (m : gmap Z (list LockPair)) (prs : gmap Z (list LockPair)) : gmap Z (list LockPair) :=
  foldl (fun m (lp : Z * list LockPair) => <[lp.1 := default [] (m !! lp.1) ++ lp.2]> m) m (map_to_list prs).

Definition finishSync (s : locks) : gmap Z (list LockPair) :=
  foldl (fun m (tp : Z * gmap Z (list LockPair)) => add_thread_pairs m tp.2) ∅ (map_to_list (checkSyncStack s)).

(** ** The first pass *)

Record first : Type := MkFirst {
  tid2CallSeq : gmap Z (list gnode);
  allocator : Allocator;
  sync : locks;
}.

Definition first_step t (f : first) n : first :=
  match n.2 with
  | AllocNode _ _ _ _ => MkFirst f.(tid2CallSeq) (push f.(allocator) n) f.(sync)
  | DeallocNode _ _ _ _ => MkFirst f.(tid2CallSeq) (insert f.(allocator) n) f.(sync)
  | FuncExitNode _ | FuncEntryNode _ _ => MkFirst (append_at t n f.(tid2CallSeq)) f.(allocator) f.(sync)
  | _ => match sync_addr n with Some _ => MkFirst f.(tid2CallSeq) f.(allocator) (handleSync2 t n f.(sync)) | None => f end
  end.

Definition pass1st (raw : list (Z * list gnode)) : first :=
  foldl (fun f (tn : Z * list gnode) => foldl (first_step tn.1) f tn.2) (MkFirst ∅ new_Allocator no_locks) raw.

(** ** The shared addresses *)

Record accesses : Type := MkAccesses {
  acc_alloc : Allocator;
  sharedAddrSet : gset Z;
  addr2TidReads : gmap Z (gset Z);
  addr2TidWrites : gmap Z (gset Z);
}.

Definition add_tid x t (m : gmap Z (gset Z)) : gmap Z (gset Z) := <[x := {[t]} ∪ default ∅ (m !! x)]> m.

Section Shared.
Context (reach : gnode -> gnode -> res bool).

Definition access_step t n (s : accesses) : res accesses :=
  if is_access n then
    r ← checkAcc reach s.(acc_alloc) n;
    let '(b, al) := (r : bool * Allocator) in
    let addrs := if b then {[addr n]} ∪ s.(sharedAddrSet) else s.(sharedAddrSet) in
    Ok (if is_read n || is_range_read n then MkAccesses al addrs (add_tid (addr n) t s.(addr2TidReads)) s.(addr2TidWrites)
        else MkAccesses al addrs s.(addr2TidReads) (add_tid (addr n) t s.(addr2TidWrites)))
  else Ok s.

(** The test of the last loop. *)
Definition two_threads (reads writes : gmap Z (gset Z)) x : bool :=
  match writes !! x with
  | None => false
  | Some wtids =>
      match elements wtids with
      | [] => false
      | [wtid] => match reads !! x with Some rtids => (0 <? size (rtids ∖ {[wtid]}))%nat | None => false end
      | _ => true
      end
  end.

Definition findSharedAcc al (raw : list (Z * list gnode)) : res (gset Z * Allocator) :=
  s ← foldM (fun (tn : Z * list gnode) s => foldM (access_step tn.1) tn.2 s) raw (MkAccesses al ∅ ∅ ∅);
  let addrs := dom s.(addr2TidReads) ∪ dom s.(addr2TidWrites) in
  Ok (foldl (fun set x => if two_threads s.(addr2TidReads) s.(addr2TidWrites) x then {[x]} ∪ set else set) s.(sharedAddrSet) (elements addrs), s.(acc_alloc)).
End Shared.

(** ** The third pass *)

Record SharedAccIndexes : Type := MkShared {
  allNodeSeq : list gnode;
  tid2seqReads : gmap Z (list gnode);
  initWrites : gmap Z Z;
  addr2SeqWrite : gmap Z (list gnode);
  tid2sqeNodes : gmap Z (list gnode);
}.

(** [addReadNode] files a read under its own thread. *)
Definition handleTSMemAcc n (s : SharedAccIndexes) : SharedAccIndexes :=
  if is_read n then MkShared s.(allNodeSeq) (append_at (tid n) n s.(tid2seqReads)) s.(initWrites) s.(addr2SeqWrite) s.(tid2sqeNodes)
  else if is_write n then
    MkShared s.(allNodeSeq) s.(tid2seqReads) (match s.(initWrites) !! addr n with Some _ => s.(initWrites) | None => <[addr n := value n]> s.(initWrites) end)
      (append_at (addr n) n s.(addr2SeqWrite)) s.(tid2sqeNodes)
  else s.

Definition keep_node t n (s : SharedAccIndexes) : SharedAccIndexes :=
  MkShared (s.(allNodeSeq) ++ [n]) s.(tid2seqReads) s.(initWrites) s.(addr2SeqWrite) (append_at t n s.(tid2sqeNodes)).

Definition third_step (sharedAddrs : gset Z) t (s : SharedAccIndexes) n : SharedAccIndexes :=
  let s := MkShared s.(allNodeSeq) s.(tid2seqReads) s.(initWrites) s.(addr2SeqWrite) (<[t := default [] (s.(tid2sqeNodes) !! t)]> s.(tid2sqeNodes)) in
  if is_access n then (if decide (addr n ∈ sharedAddrs) then handleTSMemAcc n (keep_node t n s) else s)
  else if is_call n then s else keep_node t n s.

Definition pass3rd (sharedAddrs : gset Z) (raw : list (Z * list gnode)) : SharedAccIndexes :=
  foldl (fun s (tn : Z * list gnode) => foldl (third_step sharedAddrs tn.1) s tn.2) (MkShared [] ∅ ∅ ∅ ∅) raw.

(** ** All of it

    Nothing is ever put into [tidFirstNode] and [tidLastNode]. *)

Record Indexer : Type := MkIndexer {
  ix_calls : gmap Z (list gnode);
  ix_allocator : Allocator;
  syncNodes : gmap Z (list gnode);
  addr2LockPairLs : gmap Z (list LockPair);
  sharedAddrs : gset Z;
  shared : SharedAccIndexes;
  tidFirstNode : gmap Z gnode;
  tidLastNode : gmap Z gnode;
}.

Definition postProcess (reach : gnode -> gnode -> res bool) list_frees list_pairs (raw : list (Z * list gnode)) : res Indexer :=
  let f := pass1st raw in
  let lps := finishSync f.(sync) in
  al ← matchInterThrDealloc reach list_frees list_pairs f.(allocator);
  r ← findSharedAcc reach al raw;
  let '(addrs, al) := (r : gset Z * Allocator) in
  Ok (MkIndexer f.(tid2CallSeq) al f.(sync).(syncNodesMap) lps addrs (pass3rd addrs raw) ∅ ∅).

(** ** Queries *)

(** [buildCallStack]: the loop, with the last call first; [break] at the first
    node with a greater number *)
Fixpoint call_stack (g : Z) (calls : list gnode) (stack : list Z) : list Z :=
  match calls with
  | [] => stack
  | n :: calls =>
      if g <? gid n then stack
      else
        match n.2 with
        | FuncEntryNode _ p => call_stack g calls (p :: stack)
        | _ => call_stack g calls (tail stack)
        end
  end.

Definition buildCallStack (ix : Indexer) n : option (list Z) :=
  match ix.(ix_calls) !! tid n with
  | None | Some [] => None
  | Some calls => Some (rev (call_stack (gid n) calls []))
  end.

(** The binary search of [getTSDependentSeqRead]; the fuel is the number of
    reads.  The state is [min], [max] and [id]. *)
Fixpoint find_read (fuel : nat) (reads : list gnode) (g : Z) (mn mx id : Z) : res (Z * Z) :=
  match fuel with
  | O => Err EHang
  | S fuel =>
      tmp ← aget reads id;
      if gid tmp <? g then
        if mx <? id + 1 then Ok (id, mx) else
        nxt ← aget reads (id + 1);
        if g <? gid nxt then Ok (id + 1, mx) else find_read fuel reads g (id + 1) mx ((id + 1 + mx) / 2)
      else if g <? gid tmp then
        if id - 1 <? mn then Ok (id, mx) else
        prv ← aget reads (id - 1);
        if gid prv <? g then Ok (id - 1, mx) else find_read fuel reads g mn (id - 1) ((mn + (id - 1)) / 2)
      else Ok (id, mx)
  end.

Definition getTSDependentSeqRead (s : SharedAccIndexes) (allReadNodes : list gnode) n : res (list gnode) :=
  match s.(tid2seqReads) !! tid n with
  | None | Some [] => Ok allReadNodes
  | Some reads =>
      let mx := zlen reads - 1 in
      r ← find_read (length reads) reads (gid n) 0 mx (mx / 2);
      let '(id, mx) := (r : Z * Z) in
      last ← aget reads id;
      let id := if (gid last <? gid n) && (id <? mx) then id + 1 else id in
      Ok (allReadNodes ++ ztake id reads)
  end.

(** ** Threads one after the other *)

(** The nodes of a window with their threads, in the order of the passes. *)
Definition events (raw : list (Z * list gnode)) : list (Z * gnode) := concat ((fun tn : Z * list gnode => pair tn.1 <$> tn.2) <$> raw).

Lemma foldM_fmap {A B S} (f : A -> S -> res S) (g : B -> A) l : forall s, foldM f (g <$> l) s = foldM (fun y => f (g y)) l s.
Proof. induction l as [|y l IH]; intros s; [done|]. rewrite fmap_cons. cbn [foldM]. destruct (f (g y) s); [rewrite !bind_ok; apply IH|done]. Qed.

Lemma foldM_events {S} (f : Z -> gnode -> S -> res S) raw : forall s,
  foldM (fun (tn : Z * list gnode) s => foldM (f tn.1) tn.2 s) raw s = foldM (fun tn : Z * gnode => f tn.1 tn.2) (events raw) s.
Proof.
  induction raw as [|[t ns] raw IH]; intros s; [done|]. unfold events. rewrite fmap_cons. cbn [concat foldM fst snd]. rewrite foldM_app, foldM_fmap. cbn [fst snd]. destruct (foldM (f t) ns s); [rewrite !bind_ok; apply IH|done].
Qed.

Lemma foldl_events {S} (f : Z -> S -> gnode -> S) raw : forall s,
  foldl (fun s (tn : Z * list gnode) => foldl (f tn.1) s tn.2) s raw = foldl (fun s (tn : Z * gnode) => f tn.1 s tn.2) s (events raw).
Proof.
  induction raw as [|[t ns] raw IH]; intros s; [done|]. unfold events. rewrite fmap_cons. cbn [concat foldl fst snd]. rewrite foldl_app, foldl_fmap. cbn [fst snd]. apply IH.
Qed.

Lemma elem_of_events raw t n : (t, n) ∈ events raw <-> exists ns, (t, ns) ∈ raw /\ n ∈ ns.
Proof.
  unfold events. rewrite list_elem_of_In, in_concat. split.
  - intros (l & Hl & Hn). apply list_elem_of_In, list_elem_of_fmap in Hl as ([u ns] & -> & Hu). apply list_elem_of_In, list_elem_of_fmap in Hn as (n' & [= -> ->] & Hn). eauto.
  - intros (ns & Ht & Hn). exists (pair t <$> ns). rewrite <- !list_elem_of_In. split; apply list_elem_of_fmap; [by exists (t, ns)|by exists n].
Qed.

(** A window has the nodes of a thread under its number. *)
Record window_ok (raw : list (Z * list gnode)) : Prop := {
  win_threads : NoDup raw.*1;
  win_tids : forall t n, (t, n) ∈ events raw -> tid n = t;
  win_addrs : forall t n, (t, n) ∈ events raw -> 0 <= addr n;
  win_nodup : NoDup ((fun tn : Z * gnode => gid tn.2) <$> events raw);
}.

Lemma win_gids raw : window_ok raw -> forall t n t' n', (t, n) ∈ events raw -> (t', n') ∈ events raw -> gid n = gid n' -> n = n'.
Proof.
  intros Hwin t n t' n' (i & Hi)%list_elem_of_lookup_1 (j & Hj)%list_elem_of_lookup_1 E. assert (i = j) as -> by (apply (NoDup_lookup _ i j (gid n) (win_nodup raw Hwin)); rewrite list_lookup_fmap, ?Hi, ?Hj; cbn; congruence). congruence.
Qed.

(** ** The shared addresses are those *)

Definition is_reading n : bool := is_read n || is_range_read n.
Definition is_writing n : bool := is_write n || is_range_write n.

Lemma access_kind n : is_access n = is_reading n || is_writing n.
Proof. unfold is_access, is_reading, is_writing. by destruct (is_read n), (is_write n), (is_range_read n), (is_range_write n). Qed.

Lemma writing_not_reading n : is_access n = true -> is_writing n = negb (is_reading n).
Proof. unfold is_access, is_reading, is_writing, is_read, is_write, is_range_read, is_range_write. by destruct n.2. Qed.

(** The threads filed under an address. *)
Definition tids_of (p : gnode -> bool) (done : list (Z * gnode)) (m : gmap Z (gset Z)) : Prop :=
  forall x t, t ∈ default ∅ (m !! x) <-> exists n, (t, n) ∈ done /\ is_access n = true /\ p n = true /\ addr n = x.

Lemma tids_of_snoc p done m t n : is_access n = true -> tids_of p done m -> tids_of p (done ++ [(t, n)]) (if p n then add_tid (addr n) t m else m).
Proof.
  intros Ha H x u. setoid_rewrite elem_of_app. setoid_rewrite list_elem_of_singleton. specialize (H x u). destruct (p n) eqn:Hp.
  - unfold add_tid. destruct (decide (addr n = x)) as [<-|Hne]; [rewrite lookup_insert_eq; cbn [default from_option id]; rewrite elem_of_union, elem_of_singleton, H|rewrite lookup_insert_ne, H by done].
    + split; [intros [->|(n' & ? & ?)]; [by exists n; auto|exists n'; auto]|]. intros (n' & [?|[= -> ->]] & ?); eauto.
    + split; [intros (n' & ? & ?); exists n'; auto|]. intros (n' & [?|[= -> ->]] & ? & ? & ?); [eauto|done].
  - rewrite H. split; [intros (n' & ? & ?); exists n'; auto|]. intros (n' & [?|[= -> ->]] & ? & ? & ?); [eauto|congruence].
Qed.

Lemma two_threads_ok done reads writes x : tids_of is_reading done reads -> tids_of is_writing done writes ->
  two_threads reads writes x = true <-> exists t1 n1 t2 n2, (t1, n1) ∈ done /\ (t2, n2) ∈ done /\ is_access n1 = true /\ is_access n2 = true /\ is_writing n1 = true /\ addr n1 = x /\ addr n2 = x /\ t1 <> t2.
Proof.
  intros Hr Hw. specialize (Hr x). specialize (Hw x). unfold two_threads. destruct (writes !! x) as [ws|]; cbn [default from_option id] in Hw; [|split; [done|]; intros (t1 & n1 & t2 & n2 & H1 & _ & A1 & _ & W1 & X1 & _); destruct (not_elem_of_empty (C := gset Z) t1); apply Hw; eauto 6].
  destruct (elements ws) as [|w [|w' l]] eqn:E.
  - split; [done|]. intros (t1 & n1 & t2 & n2 & H1 & _ & A1 & _ & W1 & X1 & _). assert (Hin : t1 ∈ elements ws) by (apply elem_of_elements, Hw; eauto 6). rewrite E in Hin. by apply not_elem_of_nil in Hin.
  - assert (Hws : forall u, u ∈ ws <-> u = w) by (intros u; rewrite <- elem_of_elements, E; apply list_elem_of_singleton). destruct (proj1 (Hw w) (proj2 (Hws w) eq_refl)) as (n1 & H1 & A1 & W1 & X1). split.
    + destruct (reads !! x) as [rs|]; [|done]. cbn [default from_option id] in Hr. intros Hlt%Nat.ltb_lt. destruct (set_choose_or_empty (rs ∖ {[w]})) as [[u Hu]|He]; [|rewrite (leibniz_equiv _ _ He), size_empty in Hlt; lia].
      apply elem_of_difference in Hu as [Hu Hne]. rewrite elem_of_singleton in Hne. apply Hr in Hu as (n2 & H2 & A2 & _ & X2). exists w, n1, u, n2. naive_solver.
    + intros (t1 & m1 & t2 & n2 & G1 & H2 & B1 & A2 & V1 & Y1 & X2 & Hne). assert (t1 = w) as -> by (apply Hws, Hw; eauto 6). assert (Hr2 : is_reading n2 = true) by (destruct (is_reading n2) eqn:E2; [done|]; destruct Hne; symmetry; apply Hws, Hw; exists n2; rewrite writing_not_reading, E2 by done; done).
      assert (Hin : t2 ∈ default ∅ (reads !! x)) by (apply Hr; eauto 6). destruct (reads !! x) as [rs|]; cbn in Hin; [|by apply not_elem_of_empty in Hin]. apply Nat.ltb_lt. apply Nat.neq_0_lt_0. intros Hz%size_empty_inv. apply (not_elem_of_empty (C := gset Z) t2), Hz, elem_of_difference. rewrite elem_of_singleton. auto.
  - split; [|done]. intros _. assert (Hin : forall u, u ∈ w :: w' :: l -> exists n, (u, n) ∈ done /\ is_access n = true /\ is_writing n = true /\ addr n = x) by (intros u Hu; apply Hw, elem_of_elements; by rewrite E).
    pose proof (NoDup_elements ws) as Hnd. rewrite E in Hnd. apply NoDup_cons in Hnd as [Hnd _]. destruct (Hin w ltac:(left)) as (n1 & ? & ? & ? & ?), (Hin w' ltac:(right; left)) as (n2 & ? & ? & ? & ?). exists w, n1, w', n2. assert (w <> w') by (intros ->; apply Hnd; left). done.
Qed.

Section SharedOk.
Context (reach : gnode -> gnode -> res bool) (before : gnode -> gnode -> Prop) `{!Engine reach before}.

(** An access that may come after a free. *)
Definition suspect al n : Prop := exists i, candidate before al n i.

(** The accesses of a list that have candidates. *)
Definition matched_for al (done : list (Z * gnode)) (m : gmap Z (list nat)) : Prop :=
  forall g i, i ∈ default [] (m !! g) <-> exists t n, (t, n) ∈ done /\ is_access n = true /\ gid n = g /\ candidate before al n i.

Record accesses_ok al (done : list (Z * gnode)) (s : accesses) : Prop := {
  ac_alloc : alloc_ok s.(acc_alloc);
  ac_pairs : s.(acc_alloc).(pairs) = al.(pairs);
  ac_set : forall x, x ∈ s.(sharedAddrSet) <-> exists t n, (t, n) ∈ done /\ is_access n = true /\ suspect al n /\ addr n = x;
  ac_reads : tids_of is_reading done s.(addr2TidReads);
  ac_writes : tids_of is_writing done s.(addr2TidWrites);
  ac_matched : matched_for al done s.(acc_alloc).(machtedAcc);
}.

Lemma candidate_pairs al al' n i : al'.(pairs) = al.(pairs) -> candidate before al' n i <-> candidate before al n i.
Proof. unfold candidate. by intros ->. Qed.

Lemma suspects_snoc al done set t n b : is_access n = true -> (b = true <-> suspect al n) ->
  (forall x, x ∈ set <-> exists t n, (t, n) ∈ done /\ is_access n = true /\ suspect al n /\ addr n = x) ->
  forall x, x ∈ (if b then {[addr n]} ∪ set else set : gset Z) <-> exists u m, (u, m) ∈ done ++ [(t, n)] /\ is_access m = true /\ suspect al m /\ addr m = x.
Proof.
  intros Ha Hb H x. setoid_rewrite elem_of_app. setoid_rewrite list_elem_of_singleton. destruct b; rewrite ?elem_of_union, ?elem_of_singleton, H; split.
  - intros [->|(u & m & ? & ?)]; [exists t, n; split; [by right|]; split; [done|]; split; [by apply Hb|done]|exists u, m; auto].
  - intros (u & m & [?|[= -> ->]] & ? & ? & ?); [right; eauto 6|by left].
  - intros (u & m & ? & ?). exists u, m. auto.
  - intros (u & m & [?|[= -> ->]] & ? & Hs & ?); [eauto 6|by apply Hb in Hs].
Qed.

Lemma check_step al done s t n : is_access n = true -> -1 <= addr n -> (forall u m, (u, m) ∈ done ++ [(t, n)] -> gid m = gid n -> m = n) ->
  alloc_ok s.(acc_alloc) -> s.(acc_alloc).(pairs) = al.(pairs) -> matched_for al done s.(acc_alloc).(machtedAcc) ->
  exists b al', checkAcc reach s.(acc_alloc) n = Ok (b, al') /\ (b = true <-> suspect al n) /\ alloc_ok al' /\ al'.(pairs) = al.(pairs) /\ matched_for al (done ++ [(t, n)]) al'.(machtedAcc).
Proof.
  intros Ha Hn Hsame Hok Hpairs Hm. pose proof (fun i => candidate_pairs al (acc_alloc s) n i Hpairs) as Hcp. destruct (checkAcc_ok reach before (acc_alloc s) n Hok Hn) as [(grp & E & Hne & Hg)|[E Hno]].
  - exists true, (set_group (acc_alloc s) (gid n) grp). split; [done|]. split; [split; [intros _|done]; destruct grp as [|i grp]; [done|]; exists i; apply Hcp, Hg; left|]. split; [by apply set_group_ok|]. split; [done|].
    intros g i. cbn [set_group machtedAcc]. destruct (decide (gid n = g)) as [<-|Hgn]; [rewrite lookup_insert_eq|rewrite lookup_insert_ne by done]; cbn [default from_option id].
    + rewrite Hg, Hcp. split; [intros Hc; exists t, n; split; [set_solver +|done]|]. intros (u & m & Hum & _ & Hgm & Hc). by rewrite <- (Hsame u m Hum Hgm).
    + rewrite (Hm g i). split; [intros (u & m & Hum & ?); exists u, m; split; [apply elem_of_app; by left|done]|]. intros (u & m & [?|[= -> ->]%list_elem_of_singleton]%elem_of_app & ? & ? & ?); [by exists u, m|done].
  - exists false, (acc_alloc s). split; [done|]. split; [split; [done|]; intros (i & Hc); destruct (Hno i); by apply Hcp|]. split; [done|]. split; [done|].
    intros g i. rewrite (Hm g i). split; [intros (u & m & Hum & ?); exists u, m; split; [apply elem_of_app; by left|done]|]. intros (u & m & [?|[= -> ->]%list_elem_of_singleton]%elem_of_app & ? & ? & Hc); [by exists u, m|]. destruct (Hno i). by apply Hcp.
Qed.

Lemma access_step_ok al all done t n rest s : window_ok all -> events all = done ++ (t, n) :: rest -> accesses_ok al done s ->
  exists s', access_step reach t n s = Ok s' /\ accesses_ok al (done ++ [(t, n)]) s'.
Proof.
  intros Hwin Eall [Hok Hpairs Hset Hr Hw Hm]. assert (Hin : (t, n) ∈ events all) by (rewrite Eall; apply elem_of_app; right; left). unfold access_step. destruct (is_access n) eqn:Ha.
  2: { exists s. split; [done|]. assert (Hex : forall u m, is_access m = true -> (u, m) ∈ done ++ [(t, n)] <-> (u, m) ∈ done) by (intros u m Hm'; rewrite elem_of_app, list_elem_of_singleton; split; [intros [?|[= -> ->]]; [done|congruence]|by left]).
       split; [done..| | | |]; [intros x; rewrite Hset|intros x u; rewrite (Hr x u)|intros x u; rewrite (Hw x u)|intros g i; rewrite (Hm g i)]; split.
       all: try (intros (u & m & Hum & Hacc & H); exists u, m; apply (Hex u m Hacc) in Hum; done). all: intros (m & Hum & Hacc & H); exists m; by apply (Hex u m Hacc) in Hum. }
  assert (Hn : -1 <= addr n) by (pose proof (win_addrs all Hwin t n Hin); lia). assert (Hsame : forall u m, (u, m) ∈ done ++ [(t, n)] -> gid m = gid n -> m = n) by (intros u m Hum Hg; apply (win_gids all Hwin u m t n); [rewrite Eall; set_solver +Hum|done..]).
  destruct (check_step al done s t n Ha Hn Hsame Hok Hpairs Hm) as (b & al' & -> & Hb & Hok' & Hp' & Hm'). rewrite bind_ok. pose proof (tids_of_snoc is_reading done _ t n Ha Hr) as Hr'. pose proof (tids_of_snoc is_writing done _ t n Ha Hw) as Hw'. pose proof (suspects_snoc al done _ t n b Ha Hb Hset) as Hs'.
  eexists. split; [reflexivity|]. rewrite writing_not_reading in Hw' by done. fold (is_reading n). destruct (is_reading n); by split.
Qed.

Lemma shared_loop_ok (p : Z -> bool) l : forall set : gset Z, forall x, x ∈ foldl (fun set x => if p x then {[x]} ∪ set else set) set l <-> x ∈ set \/ x ∈ l /\ p x = true.
Proof.
  induction l as [|y l IH]; intros set x; cbn [foldl]; [rewrite elem_of_nil; naive_solver|]. rewrite IH, elem_of_cons. destruct (p y) eqn:E; [rewrite elem_of_union, elem_of_singleton; split; [intros [[->|?]|[??]]|intros [?|[[->|?] ?]]]; auto|]. split; [intros [?|[??]]|intros [?|[[->|?] ?]]]; auto. congruence.
Qed.

(** Two threads use the address, one of them writes. *)
Definition conflicting raw x : Prop := exists n1 n2, (exists t, (t, n1) ∈ events raw) /\ (exists t, (t, n2) ∈ events raw) /\
  is_access n1 = true /\ is_access n2 = true /\ is_writing n1 = true /\ addr n1 = x /\ addr n2 = x /\ tid n1 <> tid n2.

Lemma findSharedAcc_ok al raw : window_ok raw -> alloc_ok al -> al.(machtedAcc) = ∅ -> exists addrs al', findSharedAcc reach al raw = Ok (addrs, al') /\ alloc_ok al' /\ al'.(pairs) = al.(pairs) /\
  (forall x, x ∈ addrs <-> (exists t n, (t, n) ∈ events raw /\ is_access n = true /\ suspect al n /\ addr n = x) \/ conflicting raw x) /\
  forall t n i, (t, n) ∈ events raw -> is_access n = true -> (i ∈ default [] (al'.(machtedAcc) !! gid n) <-> candidate before al n i).
Proof.
  intros Hwin Hok Hm0. unfold findSharedAcc. rewrite (foldM_events (access_step reach)). destruct (foldM_inv (accesses_ok al) (fun tn : Z * gnode => access_step reach tn.1 tn.2) (events raw) (MkAccesses al ∅ ∅ ∅)) as (s & -> & [Hok' Hp Hset Hr Hw Hm]).
  - assert (Hno : forall P : Z -> gnode -> Prop, ~ exists u m, (u, m) ∈ ([] : list (Z * gnode)) /\ P u m) by (intros P (u & m & ?%not_elem_of_nil & _); done).
    split; cbn; [done|done| | | |]; [intros x|intros x t|intros x t|intros g i]; rewrite ?Hm0, ?lookup_empty; cbn; (split; [try (by intros ?%not_elem_of_empty); by intros ?%not_elem_of_nil|]); [intros H; by apply Hno in H|intros (n & ?%not_elem_of_nil & _); done..|intros H; by apply Hno in H].
  - intros done [t n] rest s El Hs. by apply (access_step_ok al raw done t n rest s).
  - rewrite bind_ok. do 2 eexists. split; [reflexivity|]. split; [done|]. split; [done|]. split.
    + intros x. rewrite shared_loop_ok, Hset, elem_of_elements, elem_of_union, !elem_of_dom, (two_threads_ok (events raw)) by done. apply or_iff_compat_l. unfold conflicting. split.
      * intros [_ (t1 & n1 & t2 & n2 & H1 & H2 & A1 & A2 & W1 & X1 & X2 & Hne)]. exists n1, n2. rewrite (win_tids raw Hwin t1 n1 H1), (win_tids raw Hwin t2 n2 H2). eauto 12.
      * intros (n1 & n2 & [t1 H1] & [t2 H2] & A1 & A2 & W1 & X1 & X2 & Hne). rewrite (win_tids raw Hwin t1 n1 H1), (win_tids raw Hwin t2 n2 H2) in Hne. split; [right|by exists t1, n1, t2, n2].
        assert (Hin : t1 ∈ default ∅ (addr2TidWrites s !! x)) by (apply Hw; eauto 6). destruct (addr2TidWrites s !! x); [done|by apply not_elem_of_empty in Hin].
    + intros t n i Hn Ha. rewrite (Hm (gid n) i). split; [|by exists t, n]. intros (u & m & Hum & _ & Hg & Hc). by rewrite <- (win_gids raw Hwin u m t n Hum Hn Hg).
Qed.
End SharedOk.

(** ** The first pass, thread by thread *)

Lemma first_allocator t n f : (first_step t f n).(allocator) = feed f.(allocator) n.
Proof. unfold first_step, feed. by destruct n.2; try destruct (sync_addr n). Qed.

Lemma first_calls t n f : (first_step t f n).(tid2CallSeq) = if is_call n then append_at t n f.(tid2CallSeq) else f.(tid2CallSeq).
Proof. unfold first_step, is_call. by destruct n.2; try destruct (sync_addr n). Qed.

Lemma foldl_proj {A S T} (f : S -> A -> S) (g : T -> A -> T) (p : S -> T) l : (forall s y, p (f s y) = g (p s) y) -> forall s, p (foldl f s l) = foldl g (p s) l.
Proof. intros H. induction l as [|y l IH]; intros s; cbn [foldl]; [done|]. by rewrite IH, H. Qed.

Lemma pass1st_allocator raw : (pass1st raw).(allocator) = foldl feed new_Allocator (events raw).*2.
Proof. unfold pass1st. rewrite (foldl_events first_step), (foldl_proj _ (fun al (tn : Z * gnode) => feed al tn.2) allocator), foldl_fmap; [done|]. intros s [t n]. apply first_allocator. Qed.

(** What [append_at] files under a key. *)
Definition filed {A} (key : A -> option Z) (l : list A) (x : Z) : list A := filter (fun y => key y = Some x) l.

Definition file_at {A} (key : A -> option Z) (m : gmap Z (list A)) (y : A) : gmap Z (list A) := match key y with Some x => append_at x y m | None => m end.

Lemma file_at_ok {A} (key : A -> option Z) l : forall m x, default [] (foldl (file_at key) m l !! x) = default [] (m !! x) ++ filed key l x.
Proof.
  induction l as [|y l IH]; intros m x; cbn [foldl]; [by rewrite app_nil_r|]. rewrite IH. unfold filed, file_at at 1. rewrite filter_cons. destruct (key y) as [k|]; [|by rewrite decide_False]. unfold append_at. destruct (decide (k = x)) as [->|Hne].
  - rewrite lookup_insert_eq, decide_True by done. cbn. by rewrite <- app_assoc.
  - by rewrite lookup_insert_ne, decide_False by congruence.
Qed.

Lemma file_at_Some {A} (key : A -> option Z) l m x ys : foldl (file_at key) m l !! x = Some ys -> ys = default [] (m !! x) ++ filed key l x.
Proof. intros E. rewrite <- file_at_ok, E. done. Qed.

Definition nodes (raw : list (Z * list gnode)) : list gnode := (events raw).*2.

Lemma nodes_cons t ns raw : nodes ((t, ns) :: raw) = ns ++ nodes raw.
Proof. unfold nodes, events. rewrite fmap_cons. cbn [concat fst snd]. rewrite fmap_app, <- list_fmap_compose. f_equal. apply list_fmap_id. Qed.

Definition by_thread (p : gnode -> bool) n : option Z := if p n then Some (tid n) else None.

Lemma filed_own p u ms t : (forall m, m ∈ ms -> tid m = u) -> filed (by_thread p) ms t = if decide (u = t) then filter (fun n => p n = true) ms else [].
Proof.
  induction ms as [|m ms IH]; intros Hms; [by destruct (decide (u = t))|]. unfold filed, by_thread in *. rewrite !filter_cons, IH by (intros; apply Hms; by right). rewrite (Hms m) by left. destruct (p m); [|by rewrite decide_False; [destruct (decide (u = t))|]].
  destruct (decide (u = t)) as [->|Hne]; [by rewrite decide_True|by rewrite decide_False by congruence].
Qed.

(** A pass that files nodes under their thread. *)
Lemma filed_thread p raw t ns : window_ok raw -> (t, ns) ∈ raw -> filed (by_thread p) (nodes raw) t = filter (fun n => p n = true) ns.
Proof.
  intros Hwin Hin. assert (Htid : forall u ms m, (u, ms) ∈ raw -> m ∈ ms -> tid m = u) by (intros; apply (win_tids raw Hwin), elem_of_events; eauto). pose proof (win_threads raw Hwin) as Hnd. clear Hwin.
  assert (Hnone : forall l, (forall u ms m, (u, ms) ∈ l -> m ∈ ms -> tid m = u) -> t ∉ l.*1 -> filed (by_thread p) (nodes l) t = []).
  { induction l as [|[u ms] l IH]; intros Hl Hu; [done|]. rewrite fmap_cons in Hu. apply not_elem_of_cons in Hu as [Hne Hu]. rewrite nodes_cons. unfold filed. rewrite filter_app. fold (filed (by_thread p) ms t) (filed (by_thread p) (nodes l) t). rewrite (filed_own p u) by (intros m; apply Hl; left). rewrite decide_False by (intros <-; done). apply IH; [|done]. intros u' ms' m' H'. apply Hl. by right. }
  induction raw as [|[u ms] raw IH]; [by apply not_elem_of_nil in Hin|]. rewrite fmap_cons in Hnd. apply NoDup_cons in Hnd as [Hu Hnd]. cbn [fst] in Hu. rewrite nodes_cons. unfold filed. rewrite filter_app. fold (filed (by_thread p) ms t) (filed (by_thread p) (nodes raw) t).
  rewrite (filed_own p u) by (intros m; apply Htid; left). assert (Htl : forall u' ms' m', (u', ms') ∈ raw -> m' ∈ ms' -> tid m' = u') by (intros u' ms' m' H'; apply Htid; by right). apply elem_of_cons in Hin as [[= <- <-]|Hin].
  - rewrite decide_True, Hnone by done. apply app_nil_r.
  - rewrite decide_False, (IH Hin Htl Hnd); [done|]. intros ->. apply Hu, list_elem_of_fmap. by exists (t, ns).
Qed.

Lemma calls_ok raw : window_ok raw -> (pass1st raw).(tid2CallSeq) = foldl (file_at (by_thread is_call)) ∅ (nodes raw).
Proof.
  intros Hwin. unfold pass1st, nodes. rewrite (foldl_events first_step), foldl_fmap. pose proof (win_tids raw Hwin) as Htid. change (∅ : gmap Z (list gnode)) with (tid2CallSeq (MkFirst ∅ new_Allocator no_locks)) at 2. generalize (MkFirst ∅ new_Allocator no_locks) as f.
  induction (events raw) as [|[t n] l IH]; intros f; [done|]. cbn [foldl fst snd]. rewrite IH by (intros; apply Htid; by right). f_equal. rewrite first_calls. unfold file_at, by_thread. destruct (is_call n); [|done]. by rewrite (Htid t n) by left.
Qed.

(** ** The third pass, thread by thread *)

(** Shared accesses, and whatever is no access and no call. *)
Definition kept (addrs : gset Z) n : bool := if is_access n then bool_decide (addr n ∈ addrs) else negb (is_call n).

Record indexed (addrs : gset Z) (ns : list gnode) (s : SharedAccIndexes) : Prop := {
  in_all : s.(allNodeSeq) = filter (fun n => kept addrs n = true) ns;
  in_reads : forall t, default [] (s.(tid2seqReads) !! t) = filed (by_thread (fun n => is_read n && kept addrs n)) ns t;
  in_writes : forall x, default [] (s.(addr2SeqWrite) !! x) = filed (fun n => if is_write n && kept addrs n then Some (addr n) else None) ns x;
  in_init : forall x, s.(initWrites) !! x = value <$> head (default [] (s.(addr2SeqWrite) !! x));
  in_seq : forall t, default [] (s.(tid2sqeNodes) !! t) = filed (by_thread (kept addrs)) ns t;
}.

Lemma filed_snoc {A} (key : A -> option Z) l y x : filed key (l ++ [y]) x = filed key l x ++ (if decide (key y = Some x) then [y] else []).
Proof. unfold filed. rewrite filter_app, filter_cons, filter_nil. by destruct (decide (key y = Some x)). Qed.

Lemma append_filed {A} (key : A -> option Z) l (m : gmap Z (list A)) k y : key y = Some k -> (forall x, default [] (m !! x) = filed key l x) -> forall x, default [] (append_at k y m !! x) = filed key (l ++ [y]) x.
Proof. intros Hk H x. rewrite filed_snoc, <- H, Hk. unfold append_at. destruct (decide (k = x)) as [->|Hne]; [by rewrite lookup_insert_eq, decide_True|by rewrite lookup_insert_ne, decide_False, app_nil_r by congruence]. Qed.

Lemma skip_filed {A} (key : A -> option Z) l y x : key y = None -> filed key (l ++ [y]) x = filed key l x.
Proof. intros Hk. rewrite filed_snoc, Hk. by rewrite decide_False, app_nil_r. Qed.

Lemma append_present {A} (m : gmap Z (list A)) k x : default [] (<[k := default [] (m !! k)]> m !! x) = default [] (m !! x).
Proof. destruct (decide (k = x)) as [->|Hne]; [by rewrite lookup_insert_eq|by rewrite lookup_insert_ne]. Qed.

Lemma keep_ok addrs ns t n s : tid n = t -> kept addrs n = true -> is_read n = false -> is_write n = false -> indexed addrs ns s -> indexed addrs (ns ++ [n]) (keep_node t n s).
Proof.
  intros Ht Hk Hr Hw [Hall Hrd Hwr Hin Hseq]. split; cbn [keep_node allNodeSeq tid2seqReads addr2SeqWrite initWrites tid2sqeNodes]; [by rewrite filter_app, filter_cons, decide_True, filter_nil, Hall|intros u; rewrite skip_filed; [done|by unfold by_thread; rewrite Hr]|intros x; rewrite skip_filed; [done|by rewrite Hw]|done|].
  apply append_filed; [by unfold by_thread; rewrite Hk, Ht|done].
Qed.

Lemma third_ok addrs ns t n s : tid n = t -> indexed addrs ns s -> indexed addrs (ns ++ [n]) (third_step addrs t s n).
Proof.
  intros Ht [Hall Hrd Hwr Hin Hseq]. unfold third_step. set (s0 := MkShared _ _ _ _ _). assert (Hs0 : indexed addrs ns s0) by (split; try done; intros u; cbn [s0 tid2sqeNodes]; by rewrite append_present).
  assert (Hskip : kept addrs n = false -> indexed addrs (ns ++ [n]) s0).
  { intros Hk. destruct Hs0 as [H1 H2 H3 H4 H5]. split; [rewrite filter_app, filter_cons, decide_False, filter_nil, app_nil_r; [done|by rewrite Hk]|intros u; rewrite skip_filed; [done|by unfold by_thread; rewrite Hk, andb_false_r]|intros x; rewrite skip_filed; [done|by rewrite Hk, andb_false_r]|done|intros u; rewrite skip_filed; [done|by unfold by_thread; rewrite Hk]]. }
  destruct (is_access n) eqn:Ha; [|destruct (is_call n) eqn:Hc; [apply Hskip; unfold kept; by rewrite Ha, Hc|]].
  2: { unfold is_access in Ha. rewrite !orb_false_iff in Ha. apply keep_ok; [done| |tauto..|done]. unfold kept, is_access. destruct Ha as [[[-> ->] ->] ->]. by rewrite Hc. }
  destruct (decide (addr n ∈ addrs)) as [Hx|Hx]; [|apply Hskip; unfold kept; rewrite Ha; by apply bool_decide_eq_false]. assert (Hk : kept addrs n = true) by (unfold kept; rewrite Ha; by apply bool_decide_eq_true).
  unfold handleTSMemAcc. destruct (is_read n) eqn:Hr; [|destruct (is_write n) eqn:Hw; [|by apply keep_ok]]; (assert (Hkeep : allNodeSeq (keep_node t n s0) = filter (fun n => kept addrs n = true) (ns ++ [n])) by (cbn; by rewrite filter_app, filter_cons, decide_True, filter_nil, Hall));
    (assert (Hsq : forall u, default [] (tid2sqeNodes (keep_node t n s0) !! u) = filed (by_thread (kept addrs)) (ns ++ [n]) u) by (destruct Hs0; apply append_filed; [by unfold by_thread; rewrite Hk, Ht|done])).
  - assert (Hw : is_write n = false) by (unfold is_read, is_write in *; by destruct n.2). split; [done| | |done|done].
    + apply append_filed; [by unfold by_thread; rewrite Hr, Hk|done].
    + intros x. rewrite skip_filed; [done|by rewrite Hw].
  - split; [done| | | |done].
    + intros u. rewrite skip_filed; [done|by unfold by_thread; rewrite Hr].
    + apply append_filed; [by rewrite Hw, Hk|done].
    + intros x. cbn [addr2SeqWrite initWrites s0 keep_node]. unfold append_at. rewrite (Hin (addr n)). destruct (decide (addr n = x)) as [<-|Hne].
      * rewrite lookup_insert_eq. cbn [default from_option id]. destruct (default [] (addr2SeqWrite s !! addr n)) as [|w l] eqn:E; cbn [head fmap option_fmap option_map app]; [by rewrite lookup_insert_eq|by rewrite Hin, E].
      * rewrite lookup_insert_ne by done. destruct (head _) as [w|]; cbn [fmap option_fmap option_map]; [by rewrite Hin|]. by rewrite lookup_insert_ne, Hin.
Qed.

Lemma pass3rd_ok addrs raw : window_ok raw -> indexed addrs (nodes raw) (pass3rd addrs raw).
Proof.
  intros Hwin. unfold pass3rd, nodes. rewrite (foldl_events (third_step addrs)). cut (forall l ns s, (forall t n, (t, n) ∈ l -> tid n = t) -> indexed addrs ns s -> indexed addrs (ns ++ l.*2) (foldl (fun s (tn : Z * gnode) => third_step addrs tn.1 s tn.2) s l)).
  - intros H. apply (H (events raw) []); [apply Hwin|]. by split; intros; rewrite ?lookup_empty.
  - induction l as [|[t n] l IH]; intros ns s Hl Hs; cbn [foldl]; [by rewrite app_nil_r|]. rewrite fmap_cons. cbn [fst snd]. replace (ns ++ n :: l.*2) with ((ns ++ [n]) ++ l.*2) by (by rewrite <- app_assoc). apply IH; [intros; apply Hl; by right|]. apply third_ok; [apply Hl; left|done].
Qed.

(** ** Call stacks *)

(** Calls and returns that leave the stack as it was. *)
Inductive balanced : list gnode -> Prop :=
| balanced_nil : balanced []
| balanced_call g t p b g' t' b' : balanced b -> balanced b' -> balanced ((g, FuncEntryNode t p) :: b ++ (g', FuncExitNode t') :: b').

(** The calls that have not returned, the latest last.  A return from a call
    before the window has nothing to match. *)
Inductive open_calls : list gnode -> list Z -> Prop :=
| open_none b : balanced b -> open_calls b []
| open_return l g t b : open_calls l [] -> balanced b -> open_calls (l ++ (g, FuncExitNode t) :: b) []
| open_call l s g t p b : open_calls l s -> balanced b -> open_calls (l ++ (g, FuncEntryNode t p) :: b) (s ++ [p]).

(** [call_stack] without the limit *)
Definition stack_step (stack : list Z) n : list Z := match n.2 with FuncEntryNode _ p => p :: stack | _ => tail stack end.

Lemma call_stack_prefix g calls : StronglySorted (fun n m => gid n < gid m) calls -> forall stack, call_stack g calls stack = foldl stack_step stack (filter (fun n => gid n <= g) calls).
Proof.
  induction 1 as [|n calls Hs IH Hall]; intros stack; [done|]. cbn [call_stack]. rewrite filter_cons. destruct (Z.ltb_spec g (gid n)) as [Hlt|Hle].
  - rewrite decide_False by lia. replace (filter (fun n => gid n <= g) calls) with (@nil gnode); [done|]. symmetry. clear IH Hs. induction Hall as [|m calls Hm _ IH]; [done|]. by rewrite filter_cons, decide_False by lia.
  - rewrite decide_True by done. cbn [foldl]. unfold stack_step at 2. destruct n.2; apply IH.
Qed.

Lemma balanced_stack b : balanced b -> forall stack, foldl stack_step stack b = stack.
Proof. induction 1 as [|g t p b g' t' b' _ IH _ IH']; intros stack; [done|]. cbn [foldl]. rewrite foldl_app, IH. cbn [foldl]. apply IH'. Qed.

Lemma open_calls_stack l s : open_calls l s -> foldl stack_step [] l = rev s.
Proof.
  induction 1 as [b Hb|l g t b _ IH Hb|l s g t p b _ IH Hb]; [by rewrite balanced_stack|rewrite foldl_app; cbn [foldl]; by rewrite balanced_stack, IH|].
  rewrite foldl_app. cbn [foldl]. rewrite balanced_stack, IH by done. cbn [stack_step snd]. by rewrite rev_app_distr.
Qed.

(** *** Every sequence of calls and returns has such a stack *)

Lemma balanced_app b b' : balanced b -> balanced b' -> balanced (b ++ b').
Proof. induction 1 as [|g t p b1 g' t' b2 H1 _ _ IH2]; intros H; [done|]. rewrite <- app_comm_cons, <- app_assoc, <- app_comm_cons. constructor; auto. Qed.

Lemma open_calls_exists l : Forall (fun n => is_call n = true) l -> exists s, open_calls l s.
Proof.
  induction l as [|n l IH] using rev_ind; intros Hall; [exists []; do 2 constructor|]. apply Forall_app in Hall as [Hl Hn]. destruct (IH Hl) as (s & Hs). apply Forall_cons in Hn as [Hn _]. destruct n as [g nd]. destruct nd as [| | | | | | | | | | | | |u p|u| | |]; try discriminate Hn.
  - exists (s ++ [p]). constructor; [done|constructor].
  - inversion Hs as [b Hb|l0 g0 t0 b H0 Hb|l0 s0 g0 t0 p0 b H0 Hb]; subst.
    + exists []. constructor; [done|constructor].
    + exists []. apply (open_return _ g u []); [done|constructor].
    + exists s0. rewrite <- app_assoc. cbn [app]. assert (Hb' : balanced ((g0, FuncEntryNode t0 p0) :: b ++ (g, FuncExitNode u) :: [])) by (constructor; [done|constructor]). revert Hb'. generalize ((g0, FuncEntryNode t0 p0) :: b ++ [(g, FuncExitNode u)]) as b1. intros b1 Hb1. inversion H0; subst; [constructor; by apply balanced_app|rewrite <- app_assoc; constructor; [done|by apply balanced_app]..].
Qed.

(** ** Reads before a node *)

Definition reads_before (reads : list gnode) (g : Z) : list gnode := filter (fun r => gid r < g) reads.

Lemma sorted_prefix g reads : StronglySorted (fun n m => gid n < gid m) reads -> forall i r, reads !! i = Some r -> gid r < g <-> (i < length (reads_before reads g))%nat.
Proof.
  induction 1 as [|n reads Hs IH Hall]; intros i r Hr; [done|]. unfold reads_before. rewrite filter_cons. destruct (decide (gid n < g)) as [Hlt|Hge].
  - destruct i as [|i]; cbn [length]; [injection Hr as <-; lia|]. rewrite (IH i r Hr). unfold reads_before. lia.
  - assert (Hgr : g <= gid r) by (destruct i as [|i]; [injection Hr as <-; lia|]; rewrite Forall_forall in Hall; specialize (Hall r (list_elem_of_lookup_2 reads i r Hr)); cbn in Hall; lia).
    replace (filter (fun r => gid r < g) reads) with (@nil gnode); [cbn; lia|]. clear IH Hs Hr. induction Hall as [|m reads Hm _ IH]; [done|]. rewrite filter_cons, decide_False by lia. done.
Qed.

Lemma before_is_prefix g reads : StronglySorted (fun n m => gid n < gid m) reads -> reads_before reads g = take (length (reads_before reads g)) reads.
Proof.
  induction 1 as [|n reads Hs IH Hall]; [done|]. unfold reads_before in *. rewrite filter_cons. destruct (decide (gid n < g)) as [Hlt|Hge]; [cbn [length take]; by rewrite <- IH|].
  replace (filter (fun r => gid r < g) reads) with (@nil gnode); [done|]. clear IH Hs. induction Hall as [|m reads Hm _ IH]; [done|]. rewrite filter_cons, decide_False by lia. done.
Qed.

Lemma aget_at {A} (l : list A) i : 0 <= i < zlen l -> exists y, aget l i = Ok y /\ l !! Z.to_nat i = Some y.
Proof. intros Hi. unfold aget. rewrite (proj2 (Z.ltb_ge i 0)) by lia. destruct (lookup_lt_is_Some_2 l (Z.to_nat i)) as [y Hy]; [unfold zlen in Hi; lia|]. exists y. by rewrite Hy. Qed.

Lemma midpoint x y : x <= y -> x <= (x + y) / 2 <= y.
Proof. intros H. split; [apply Z.div_le_lower_bound|apply Z.div_le_upper_bound]; lia. Qed.

Lemma sorted_lookup_lt reads i j r r' : StronglySorted (fun n m => gid n < gid m) reads -> reads !! i = Some r -> reads !! j = Some r' -> (i < j)%nat -> gid r < gid r'.
Proof.
  intros Hs. revert i j. induction Hs as [|n reads _ IH Hall]; intros i j Hi Hj Hij; [done|]. destruct j as [|j]; [lia|]. destruct i as [|i]; [|apply (IH i j); [done..|lia]]. injection Hi as <-. rewrite Forall_lookup in Hall. by apply (Hall j).
Qed.

(** Where the search ends: after the reads before the node, but before the last
    read if all are. *)
Definition found (reads : list gnode) (g id mx : Z) : Prop := 0 <= id < zlen reads /\
  exists r, aget reads id = Ok r /\ (if (gid r <? g) && (id <? mx) then id + 1 else id) = Z.min (zlen (reads_before reads g)) (zlen reads - 1).

Lemma find_read_ok g reads : StronglySorted (fun n m => gid n < gid m) reads -> forall fuel mn mx id, let c := zlen (reads_before reads g) in
  0 <= mn <= id /\ id <= mx < zlen reads -> mn <= c -> mx = zlen reads - 1 \/ c <= mx -> mx - mn < Z.of_nat fuel ->
  exists id' mx', find_read fuel reads g mn mx id = Ok (id', mx') /\ found reads g id' mx'.
Proof.
  intros Hs. pose proof (sorted_prefix g reads Hs) as Hpre. assert (Hat : forall i, 0 <= i < zlen reads -> exists r, aget reads i = Ok r /\ (gid r < g <-> i < zlen (reads_before reads g))).
  { intros i Hi. destruct (aget_at reads i Hi) as (r & E & Hr). exists r. split; [done|]. rewrite (Hpre _ r Hr). unfold zlen. lia. }
  assert (Hc : zlen (reads_before reads g) <= zlen reads) by (unfold zlen, reads_before; pose proof (length_filter (fun r => gid r < g) reads); lia).
  induction fuel as [|fuel IH]; intros mn mx id c Hid Hmn Hmx Hf; [lia|]. cbn [find_read]. destruct (Hat id) as (tmp & Et & Ht); [lia|]. rewrite Et, bind_ok. fold c in Ht, Hc.
  assert (Hend : forall id' r, 0 <= id' < zlen reads -> aget reads id' = Ok r -> (if (gid r <? g) && (id' <? mx) then id' + 1 else id') = Z.min c (zlen reads - 1) -> exists id'' mx', Ok (id', mx) = Ok (id'', mx') /\ found reads g id'' mx') by (intros id' r H1 H2 H3; exists id', mx; split; [done|]; split; [done|]; by exists r).
  destruct (Z.ltb_spec (gid tmp) g) as [Hlt|Hge].
  - apply Ht in Hlt as Hidc. destruct (Z.ltb_spec mx (id + 1)) as [Hm|Hm].
    + apply (Hend id tmp); [lia|done|]. rewrite (proj2 (Z.ltb_ge id mx)), andb_false_r by lia. lia.
    + destruct (Hat (id + 1)) as (nxt & En & Hn); [lia|]. rewrite En, bind_ok. fold c in Hn. destruct (Z.ltb_spec g (gid nxt)) as [Hg|Hg].
      * apply (Hend (id + 1) nxt); [lia|done|]. rewrite (proj2 (Z.ltb_ge (gid nxt) g)) by lia. cbn. lia.
      * pose proof (midpoint (id + 1) mx Hm). apply IH; [lia|lia|done|lia].
  - assert (Hidc : c <= id) by lia. destruct (Z.ltb_spec g (gid tmp)) as [Hg|Hg].
    + destruct (Z.ltb_spec (id - 1) mn) as [Hm|Hm]; [apply (Hend id tmp); [lia|done|]; rewrite (proj2 (Z.ltb_ge (gid tmp) g)) by lia; cbn; lia|].
      destruct (Hat (id - 1)) as (prv & Ep & Hp); [lia|]. rewrite Ep, bind_ok. fold c in Hp. destruct (Z.ltb_spec (gid prv) g) as [Hl|Hl].
      * apply (Hend (id - 1) prv); [lia|done|]. rewrite (proj2 (Z.ltb_lt _ _) Hl), (proj2 (Z.ltb_lt (id - 1) mx)) by lia. cbn. lia.
      * pose proof (midpoint mn (id - 1) Hm). apply IH; [lia|done|right; lia|lia].
    + apply (Hend id tmp); [lia|done|]. rewrite (proj2 (Z.ltb_ge (gid tmp) g)) by lia. cbn. assert (id <= c); [|lia]. destruct (decide (id = 0)) as [->|Hne]; [unfold c, zlen; lia|]. destruct (Hat (id - 1)) as (prv & Ep & Hp); [lia|]. fold c in Hp.
      enough (gid prv < gid tmp) by lia. apply aget_inv in Ep as [_ Ep], Et as [_ Et]. apply (sorted_lookup_lt reads _ _ prv tmp Hs Ep Et). lia.
Qed.

(** ** The index of a window is right *)

Section Post.
Context (reach : gnode -> gnode -> res bool) (before : gnode -> gnode -> Prop) `{!Engine reach before}.
Context (list_frees : list gnode -> list gnode) (list_pairs : list nat -> list nat).
Hypothesis Hfrees : forall l, list_frees l ≡ₚ l.
Hypothesis Hpairs : forall l, list_pairs l ≡ₚ l.

Lemma postProcess_ok raw : window_ok raw -> exists ix, postProcess reach list_frees list_pairs raw = Ok ix /\
  (forall d, d ∈ nodes raw -> is_free d = true -> accounted ix.(ix_allocator) d) /\
  (forall x, x ∈ ix.(sharedAddrs) <-> (exists t n, (t, n) ∈ events raw /\ is_access n = true /\ suspect before ix.(ix_allocator) n /\ addr n = x) \/ conflicting raw x) /\
  (forall t n i, (t, n) ∈ events raw -> is_access n = true -> (i ∈ default [] (ix.(ix_allocator).(machtedAcc) !! gid n) <-> candidate before ix.(ix_allocator) n i)) /\
  alloc_ok ix.(ix_allocator).
Proof.
  intros Hwin. destruct (all_accounted reach before list_frees list_pairs (nodes raw) Hfrees Hpairs) as (al & E & Hok & Hg & Hacc). destruct (findSharedAcc_ok reach before al raw Hwin Hok Hg) as (addrs & al' & E' & Hok' & Hp & Hset & Hm).
  pose proof (fun n i => candidate_pairs before al al' n i Hp) as Hc. eexists. unfold postProcess. rewrite pass1st_allocator. fold (nodes raw). rewrite E, bind_ok, E', bind_ok. split; [reflexivity|]. cbn [ix_allocator sharedAddrs]. split; [|split; [|split; [|done]]].
  - intros d Hd Hf. destruct (Hacc d Hd Hf) as (i & p & H). exists i, p. by rewrite Hp.
  - intros x. rewrite Hset. unfold suspect. by setoid_rewrite Hc.
  - intros t n i Hn Ha. rewrite Hc. by apply (Hm t).
Qed.
End Post.

Lemma postProcess_parts reach list_frees list_pairs raw ix : postProcess reach list_frees list_pairs raw = Ok ix ->
  ix.(ix_calls) = (pass1st raw).(tid2CallSeq) /\ ix.(addr2LockPairLs) = finishSync (pass1st raw).(sync) /\ ix.(shared) = pass3rd ix.(sharedAddrs) raw.
Proof.
  unfold postProcess. destruct (matchInterThrDealloc _ _ _ _) as [al|]; [|done]. rewrite bind_ok. destruct (findSharedAcc _ _ _) as [[addrs al']|]; [|done]. rewrite bind_ok. by intros [= <-].
Qed.

(** C16: The predictor looks at the right addresses.  Whatever the order in which hash sets are listed, the index of a
    window is built, and every free of the window is matched in some pair or noted as possible by one.  The pairs kept
    for an access are exactly those whose matched free covers it, was made by another thread and is not known to come
    after the access; frees that are only noted as possible make no candidates.  An address is shared exactly if some
    access to it has such a pair, or if two threads use it and one writes it. *)
Theorem shared_exact reach before list_frees list_pairs raw : Engine reach before -> (forall l, list_frees l ≡ₚ l) -> (forall l, list_pairs l ≡ₚ l) -> window_ok raw -> exists ix,
  postProcess reach list_frees list_pairs raw = Ok ix /\
  (forall d, d ∈ nodes raw -> is_free d = true -> accounted ix.(ix_allocator) d) /\
  (forall x, x ∈ ix.(sharedAddrs) <-> (exists t n, (t, n) ∈ events raw /\ is_access n = true /\ suspect before ix.(ix_allocator) n /\ addr n = x) \/ conflicting raw x) /\
  (forall t n i, (t, n) ∈ events raw -> is_access n = true -> (i ∈ default [] (ix.(ix_allocator).(machtedAcc) !! gid n) <-> candidate before ix.(ix_allocator) n i)).
Proof. intros He Hf Hp Hwin. destruct (postProcess_ok reach before list_frees list_pairs Hf Hp raw Hwin) as (ix & E & Ha & Hs & Hm & _). by exists ix. Qed.

Definition in_order (ns : list gnode) : Prop := StronglySorted (fun n m => gid n < gid m) ns.

Lemma in_order_filter (P : gnode -> Prop) `{!forall n, Decision (P n)} ns : in_order ns -> in_order (filter P ns).
Proof.
  unfold in_order. induction 1 as [|n ns _ IH Hall]; [constructor|]. rewrite filter_cons. destruct (decide (P n)); [|done]. constructor; [done|]. apply Forall_forall. intros m [_ Hm]%list_elem_of_filter. rewrite Forall_forall in Hall. by apply Hall.
Qed.

(** C27: The index has the nodes the solver needs, in order.  For every thread of a window it has the nodes that are no
    calls and, of the accesses, those to shared addresses, and of these the reads; for every address it has the writes
    of all threads, and their first value as the initial one; all in the order of the threads. *)
Theorem window_indexed reach list_frees list_pairs raw ix : window_ok raw -> postProcess reach list_frees list_pairs raw = Ok ix ->
  let s := ix.(shared) in let keep n := kept ix.(sharedAddrs) n in
  s.(allNodeSeq) = filter (fun n => keep n = true) (nodes raw) /\
  (forall t ns, (t, ns) ∈ raw -> default [] (s.(tid2sqeNodes) !! t) = filter (fun n => keep n = true) ns /\ default [] (s.(tid2seqReads) !! t) = filter (fun n => is_read n && keep n = true) ns) /\
  forall x, default [] (s.(addr2SeqWrite) !! x) = filter (fun n => is_write n && keep n && (addr n =? x) = true) (nodes raw) /\ s.(initWrites) !! x = value <$> head (default [] (s.(addr2SeqWrite) !! x)).
Proof.
  intros Hwin E. apply postProcess_parts in E as (_ & _ & ->). cbn zeta. destruct (pass3rd_ok ix.(sharedAddrs) raw Hwin) as [Hall Hrd Hwr Hin Hseq]. split; [done|]. split.
  - intros t ns Ht. rewrite Hseq, Hrd. split; by apply filed_thread.
  - intros x. split; [|done]. rewrite Hwr. unfold filed. apply list_filter_iff. intros n. destruct (is_write n && kept ix.(sharedAddrs) n); cbn; [rewrite Z.eqb_eq; naive_solver|done].
Qed.

Lemma index_calls reach list_frees list_pairs raw ix t ns : window_ok raw -> postProcess reach list_frees list_pairs raw = Ok ix -> (t, ns) ∈ raw -> default [] (ix.(ix_calls) !! t) = filter (fun n => is_call n = true) ns.
Proof. intros Hwin (-> & _)%postProcess_parts Ht. rewrite calls_ok, file_at_ok, lookup_empty by done. by apply filed_thread. Qed.

(** C31: A call stack shows the calls that are open.  For a node of a thread with calls, [buildCallStack] gives the
    functions entered and not left up to that node, the latest last, however the calls nest; a return from a call made
    before the window is passed over.  There is exactly one such stack for any calls and returns. *)
Theorem call_stacks reach list_frees list_pairs raw ix t ns n : window_ok raw -> postProcess reach list_frees list_pairs raw = Ok ix ->
  (t, ns) ∈ raw -> in_order ns -> tid n = t -> (exists m, m ∈ ns /\ is_call m = true) ->
  exists s, buildCallStack ix n = Some s /\ open_calls (filter (fun m => gid m <= gid n) (filter (fun m => is_call m = true) ns)) s /\
  forall s', open_calls (filter (fun m => gid m <= gid n) (filter (fun m => is_call m = true) ns)) s' -> s' = s.
Proof.
  intros Hwin E Ht Ho Hn (m & Hm & Hc). pose proof (index_calls _ _ _ raw ix t ns Hwin E Ht) as Hcalls. set (calls := filter (fun m => is_call m = true) ns) in *. assert (Hin : m ∈ calls) by (by apply list_elem_of_filter).
  destruct (open_calls_exists (filter (fun m => gid m <= gid n) calls)) as (s & Hs). { apply Forall_forall. intros m' [_ [? _]%list_elem_of_filter]%list_elem_of_filter. done. }
  exists s. unfold buildCallStack. rewrite Hn. destruct (ix_calls ix !! t) as [cs|]; cbn [default from_option id] in Hcalls; [subst cs|rewrite <- Hcalls in Hin; by apply not_elem_of_nil in Hin].
  pose proof (call_stack_prefix (gid n) calls (in_order_filter _ ns Ho) []) as Hst. rewrite (open_calls_stack _ s Hs) in Hst. split; [|split; [done|]]. { destruct calls; [by apply not_elem_of_nil in Hin|]. by rewrite Hst, rev_involutive. }
  intros s' Hs'. apply open_calls_stack in Hs, Hs'. rewrite <- (rev_involutive s'), <- Hs', Hs. apply rev_involutive.
Qed.

Lemma prefix_taken g reads : in_order reads -> ztake (Z.min (zlen (reads_before reads g)) (zlen reads - 1)) reads = if decide (Exists (fun r => g <= gid r) reads) then reads_before reads g else take (length reads - 1) reads.
Proof.
  intros Hs. assert (Hc : (length (reads_before reads g) <= length reads)%nat) by apply length_filter. unfold ztake, zlen. destruct (decide _) as [Hex|Hno].
  - apply Exists_exists in Hex as (r & (i & Hr)%list_elem_of_lookup_1 & Hg). pose proof (sorted_prefix g reads Hs i r Hr). apply lookup_lt_Some in Hr. rewrite (before_is_prefix g reads Hs) at 2. f_equal. lia.
  - assert (Hall : reads_before reads g = reads). { clear Hs Hc. induction reads as [|r reads IH]; [done|]. unfold reads_before. rewrite filter_cons, decide_True by (destruct (decide (gid r < g)); [done|]; destruct Hno; left; lia). f_equal. apply IH. intros H. apply Hno. by right. }
    rewrite Hall. f_equal. lia.
Qed.

(** The reads of a thread that [getTSDependentSeqRead] adds for a node. *)
Definition dependent (addrs : gset Z) (ns : list gnode) n : list gnode :=
  let reads := filter (fun m => is_read m && kept addrs m = true) ns in
  if decide (Exists (fun r => gid n <= gid r) reads) then filter (fun r => gid r < gid n) reads else take (length reads - 1) reads.

Lemma dependent_ok reach list_frees list_pairs raw ix t ns n acc : window_ok raw -> postProcess reach list_frees list_pairs raw = Ok ix -> (t, ns) ∈ raw -> in_order ns -> tid n = t ->
  getTSDependentSeqRead ix.(shared) acc n = Ok (acc ++ dependent ix.(sharedAddrs) ns n).
Proof.
  intros Hwin E Ht Ho Hn. unfold dependent. set (reads := filter _ ns). apply postProcess_parts in E as (_ & _ & Esh). pose proof (in_reads _ _ _ (pass3rd_ok ix.(sharedAddrs) raw Hwin) t) as Hr. rewrite <- Esh, (filed_thread _ raw t ns Hwin Ht) in Hr. fold reads in Hr.
  unfold getTSDependentSeqRead. rewrite Hn. assert (Hs : in_order reads) by (by apply in_order_filter). destruct (tid2seqReads (shared ix) !! t) as [rs|]; cbn [default from_option id] in Hr; [subst rs|rewrite <- Hr; case_decide; by rewrite app_nil_r].
  clearbody reads. destruct reads as [|r0 rs] eqn:Er; [case_decide; by rewrite app_nil_r|]. rewrite <- Er in *. assert (Hlen : 0 < zlen reads) by (rewrite Er; unfold zlen; cbn [length]; lia).
  destruct (find_read_ok (gid n) reads Hs (length reads) 0 (zlen reads - 1) ((zlen reads - 1) / 2)) as (id & mx & -> & _ & r & Hget & Hid).
  { pose proof (midpoint 0 (zlen reads - 1)). rewrite Z.add_0_l in *. lia. } { unfold zlen. lia. } { by left. } { unfold zlen. lia. }
  rewrite bind_ok. cbn zeta. rewrite Hget, bind_ok, Hid, (prefix_taken (gid n) reads Hs). done.
Qed.

(** C30: The reads a node depends on.  The search of [getTSDependentSeqRead] ends and stays inside the list, and adds the
    shared reads of the thread that come before the node; but if none of them comes after it, the last one is left out. *)
Theorem dependent_reads reach list_frees list_pairs raw ix t ns n acc : window_ok raw -> postProcess reach list_frees list_pairs raw = Ok ix -> (t, ns) ∈ raw -> in_order ns -> tid n = t ->
  let reads := filter (fun m => is_read m && kept ix.(sharedAddrs) m = true) ns in
  getTSDependentSeqRead ix.(shared) acc n = Ok (acc ++ if decide (Exists (fun r => gid n <= gid r) reads) then filter (fun r => gid r < gid n) reads else take (length reads - 1) reads).
Proof. intros Hwin E Ht Ho Hn reads. by apply (dependent_ok reach list_frees list_pairs raw ix t). Qed.

(** ** Lock pairs *)

Definition stack_of (s : locks) t : list gnode := default [] (s.(tid2SyncStack) !! t).
Definition pairs_in (m : gmap Z (gmap Z (list LockPair))) t l : list LockPair := default [] (default ∅ (m !! t) !! l).

Lemma pairs_in_add m t l lp u k : pairs_in (add_lock_pair t l lp m) u k = pairs_in m u k ++ (if decide (u = t /\ k = l) then [lp] else []).
Proof.
  unfold pairs_in, add_lock_pair, append_at. destruct (decide (t = u)) as [->|Hne]; [rewrite lookup_insert_eq|rewrite lookup_insert_ne, decide_False, app_nil_r by naive_solver; done]. cbn [default from_option id].
  destruct (decide (l = k)) as [->|Hne]; [by rewrite lookup_insert_eq, decide_True|by rewrite lookup_insert_ne, decide_False, app_nil_r by naive_solver].
Qed.

Lemma pairs_in_ensure m t l u k : pairs_in (ensure_list t l m) u k = pairs_in m u k.
Proof.
  unfold pairs_in, ensure_list. destruct (decide (t = u)) as [->|Hne]; [rewrite lookup_insert_eq|by rewrite lookup_insert_ne]. cbn [default from_option id]. destruct (decide (l = k)) as [->|Hne]; [by rewrite lookup_insert_eq|by rewrite lookup_insert_ne].
Qed.

Definition pairs_of (s : locks) t l : list LockPair := pairs_in s.(tid2LockPairs) t l.

(** What [handleSync2] does for a thread. *)
Definition stack_step_of n (stack : list gnode) : list gnode := match n.2 with LockNode _ _ _ => n :: stack | UnlockNode _ _ _ => tail stack | _ => stack end.

Definition pair_made n (stack : list gnode) l : list LockPair :=
  match n.2 with
  | UnlockNode _ k _ => if decide (l = k) then match stack with [] => [MkLockPair None (Some n)] | [top] => [MkLockPair (Some top) (Some n)] | _ => [] end else []
  | _ => []
  end.

Lemma handle_stack t n s u : stack_of (handleSync2 t n s) u = if decide (u = t) then stack_step_of n (stack_of s t) else stack_of s u.
Proof.
  unfold handleSync2, stack_of, stack_step_of, sync_addr. destruct n as [g nd]; destruct nd; cbn [snd tid2SyncStack]; try (by destruct (decide (u = t)) as [->|]).
  - destruct (decide (u = t)) as [->|Hne]; [by rewrite lookup_insert_eq|by rewrite lookup_insert_ne].
  - destruct (default [] (tid2SyncStack s !! t)) as [|top [|top' rest]] eqn:Es; cbn [tid2SyncStack]; (destruct (decide (u = t)) as [->|Hne]; [by rewrite lookup_insert_eq|by rewrite lookup_insert_ne]).
Qed.

Lemma handle_pairs t n s u l : pairs_of (handleSync2 t n s) u l = pairs_of s u l ++ (if decide (u = t) then pair_made n (stack_of s t) l else []).
Proof.
  unfold handleSync2, pairs_of, pair_made, sync_addr. fold (stack_of s t). destruct n as [g nd]; destruct nd as [| | | | |v k| | | | | | | | | | | |]; cbn [snd tid2LockPairs]; try (destruct (decide (u = t)); by rewrite app_nil_r).
  destruct (stack_of s t) as [|top [|top' rest]]; cbn [tid2LockPairs]; rewrite ?pairs_in_add, pairs_in_ensure; destruct (decide (u = t)), (decide (l = k)); rewrite ?decide_True, ?decide_False, ?app_nil_r by naive_solver; done.
Qed.

Definition lock_stack (stack : list gnode) (ns : list gnode) : list gnode := foldl (fun st n => stack_step_of n st) stack ns.

Fixpoint pairs_made (stack : list gnode) (ns : list gnode) l : list LockPair :=
  match ns with
  | [] => []
  | n :: ns => pair_made n stack l ++ pairs_made (stack_step_of n stack) ns l
  end.

Lemma pairs_made_app ns1 : forall stack ns2 l, pairs_made stack (ns1 ++ ns2) l = pairs_made stack ns1 l ++ pairs_made (lock_stack stack ns1) ns2 l.
Proof. induction ns1 as [|n ns1 IH]; intros stack ns2 l; [done|]. cbn [pairs_made app lock_stack foldl]. by rewrite IH, app_assoc. Qed.

Definition own (ns : list gnode) t : list gnode := filed (by_thread (fun _ => true)) ns t.

Lemma run_nodes ns : forall s u l, let s' := foldl (fun s n => handleSync2 (tid n) n s) s ns in
  stack_of s' u = lock_stack (stack_of s u) (own ns u) /\ pairs_of s' u l = pairs_of s u l ++ pairs_made (stack_of s u) (own ns u) l.
Proof.
  induction ns as [|n ns IH]; intros s u l; cbn zeta; cbn [foldl]; [by rewrite app_nil_r|]. destruct (IH (handleSync2 (tid n) n s) u l) as [-> ->]. rewrite handle_stack, handle_pairs. unfold own, filed. rewrite filter_cons. unfold by_thread at 1. destruct (decide (u = tid n)) as [->|Hne].
  - rewrite decide_True by done. cbn [lock_stack foldl pairs_made]. by rewrite <- app_assoc.
  - rewrite decide_False by (intros [= E]; congruence). by rewrite app_nil_r.
Qed.

Lemma first_sync t n f : (first_step t f n).(sync) = handleSync2 t n f.(sync).
Proof. unfold first_step, handleSync2, sync_addr. by destruct n as [g []]. Qed.

Lemma pass1st_sync raw : window_ok raw -> (pass1st raw).(sync) = foldl (fun s n => handleSync2 (tid n) n s) no_locks (nodes raw).
Proof.
  intros Hwin. unfold pass1st, nodes. rewrite (foldl_events first_step), foldl_fmap. pose proof (win_tids raw Hwin) as Htid. change no_locks with (sync (MkFirst ∅ new_Allocator no_locks)) at 2. generalize (MkFirst ∅ new_Allocator no_locks) as f.
  induction (events raw) as [|[t n] l IH]; intros f; [done|]. cbn [foldl fst snd]. rewrite IH by (intros; apply Htid; by right). f_equal. rewrite first_sync. by rewrite (Htid t n) by left.
Qed.

(** The sections that lie in no other one of a properly nested thread. *)
Inductive nested : list gnode -> list (gnode * gnode) -> Prop :=
| nested_nil : nested [] []
| nested_section g t l p w inner g' t' p' w' outer : nested w inner -> nested w' outer ->
    nested ((g, LockNode t l p) :: w ++ (g', UnlockNode t' l p') :: w') (((g, LockNode t l p), (g', UnlockNode t' l p')) :: outer).

Definition is_locking n : bool := match n.2 with LockNode _ _ _ | UnlockNode _ _ _ => true | _ => false end.

Definition section_pairs (secs : list (gnode * gnode)) l : list LockPair := (fun au : gnode * gnode => MkLockPair (Some au.1) (Some au.2)) <$> filter (fun au => sync_addr au.2 = Some l) secs.

Lemma locking_only ns : forall stack l, lock_stack stack ns = lock_stack stack (filter (fun n => is_locking n = true) ns) /\ pairs_made stack ns l = pairs_made stack (filter (fun n => is_locking n = true) ns) l.
Proof.
  induction ns as [|n ns IH]; intros stack l; [done|]. rewrite filter_cons. destruct (decide (is_locking n = true)) as [Hl|Hl]; cbn [lock_stack foldl pairs_made]; fold (lock_stack (stack_step_of n stack) ns); [destruct (IH (stack_step_of n stack) l) as [-> ->]; done|].
  assert (Hn : stack_step_of n stack = stack /\ pair_made n stack l = []) by (unfold is_locking, stack_step_of, pair_made in *; by destruct n.2). destruct Hn as [-> ->]. apply IH.
Qed.

Lemma lock_stack_app ns1 ns2 stack : lock_stack stack (ns1 ++ ns2) = lock_stack (lock_stack stack ns1) ns2.
Proof. apply foldl_app. Qed.

Lemma lock_stack_cons n ns stack : lock_stack stack (n :: ns) = lock_stack (stack_step_of n stack) ns.
Proof. done. Qed.

Lemma nested_run w secs : nested w secs -> (forall stack l, stack <> [] -> lock_stack stack w = stack /\ pairs_made stack w l = []) /\ lock_stack [] w = [] /\ forall l, pairs_made [] w l = section_pairs secs l.
Proof.
  induction 1 as [|g t l p w inner g' t' p' w' outer _ [IH1 _] _ (IH2 & IH3 & IH4)]; [done|]. set (a := (g, LockNode t l p)). set (u := (g', UnlockNode t' l p')).
  assert (Hall : forall stack k, lock_stack stack (a :: w ++ u :: w') = lock_stack stack w' /\ pairs_made stack (a :: w ++ u :: w') k = pair_made u (a :: stack) k ++ pairs_made stack w' k).
  { intros stack k. rewrite lock_stack_cons, lock_stack_app, lock_stack_cons. cbn [pairs_made]. rewrite pairs_made_app. change (stack_step_of a stack) with (a :: stack). destruct (IH1 (a :: stack) k) as [-> ->]; done. }
  split; [|split].
  - intros stack k Hne. destruct (Hall stack k) as [-> ->]. destruct (IH2 stack k Hne) as [-> ->]. split; [done|]. cbn. destruct (decide (k = l)); [|done]. by destruct stack.
  - by rewrite (proj1 (Hall [] l)).
  - intros k. rewrite (proj2 (Hall [] k)), IH4. unfold section_pairs. rewrite filter_cons. cbn [snd sync_addr pair_made u a]. destruct (decide (k = l)) as [->|Hne]; [by rewrite decide_True|by rewrite decide_False by congruence].
Qed.

Lemma check_closed s : (forall t, stack_of s t = []) -> checkSyncStack s = s.(tid2LockPairs).
Proof.
  intros H. unfold checkSyncStack. assert (Hl : forall t st, (t, st) ∈ map_to_list s.(tid2SyncStack) -> st = []) by (intros t st Hin%elem_of_map_to_list; specialize (H t); unfold stack_of in H; by rewrite Hin in H). generalize (tid2LockPairs s) as m.
  induction (map_to_list (tid2SyncStack s)) as [|[t st] l IH]; intros m; [done|]. cbn [foldl fst snd]. rewrite (Hl t st) by left. apply IH. intros u st' Hin. apply (Hl u). by right.
Qed.

Lemma elem_add_all kvs l lp : forall m : gmap Z (list LockPair), lp ∈ default [] (foldl (fun m (kv : Z * list LockPair) => <[kv.1 := default [] (m !! kv.1) ++ kv.2]> m) m kvs !! l) <-> lp ∈ default [] (m !! l) \/ exists ls, (l, ls) ∈ kvs /\ lp ∈ ls.
Proof.
  induction kvs as [|[k ls] kvs IH]; intros m; cbn [foldl fst snd]; [split; [by left|]; intros [?|(ls & ?%not_elem_of_nil & _)]; done|]. rewrite IH. setoid_rewrite elem_of_cons. destruct (decide (k = l)) as [->|Hne].
  - rewrite lookup_insert_eq. cbn [default from_option id]. rewrite elem_of_app. split; [intros [[?|?]|(ls' & ? & ?)]; eauto|]. intros [?|(ls' & [[= ->]|?] & ?)]; eauto.
  - rewrite lookup_insert_ne by done. split; [intros [?|(ls' & ? & ?)]; eauto|]. intros [?|(ls' & [[= ? ->]|?] & ?)]; [eauto|done|eauto].
Qed.

Lemma elem_finish s l lp : (forall t, stack_of s t = []) -> lp ∈ default [] (finishSync s !! l) <-> exists t, lp ∈ pairs_of s t l.
Proof.
  intros H. unfold finishSync. rewrite check_closed by done. set (step := fun m (tp : Z * gmap Z (list LockPair)) => add_thread_pairs m tp.2). assert (Hgen : forall tps m, lp ∈ default [] (foldl step m tps !! l) <-> lp ∈ default [] (m !! l) \/ exists t prs, (t, prs) ∈ tps /\ lp ∈ default [] (prs !! l)).
  { induction tps as [|[t prs] tps IH]; intros m; cbn [foldl]; [split; [by left|]; intros [?|(t & prs & ?%not_elem_of_nil & _)]; done|]. rewrite IH. unfold step at 1, add_thread_pairs. cbn [snd]. rewrite elem_add_all. setoid_rewrite elem_of_cons. setoid_rewrite elem_of_map_to_list. split.
    - intros [[?|(ls & Hls & ?)]|(t' & prs' & ? & ?)]; [by left|right; exists t, prs; rewrite Hls; auto|right; eauto].
    - intros [?|(t' & prs' & [[= -> ->]|?] & Hin)]; [by left; left| |right; eauto]. left. right. destruct (prs !! l) as [ls|]; [by exists ls|by apply not_elem_of_nil in Hin]. }
  rewrite Hgen, lookup_empty. cbn [default]. setoid_rewrite elem_of_map_to_list. unfold pairs_of, pairs_in. split.
  - intros [?%not_elem_of_nil|(t & prs & Ht & Hin)]; [done|]. exists t. by rewrite Ht.
  - intros (t & Hin). right. destruct (tid2LockPairs s !! t) as [prs|] eqn:Ht; cbn [default from_option id] in Hin; [by exists t, prs|]. rewrite lookup_empty in Hin. by apply not_elem_of_nil in Hin.
Qed.

Lemma own_nodes raw t ns : window_ok raw -> (t, ns) ∈ raw -> own (nodes raw) t = ns.
Proof. intros Hwin Ht. unfold own. rewrite (filed_thread _ raw t ns Hwin Ht). clear. induction ns as [|n ns IH]; [done|]. by rewrite filter_cons, decide_True, IH. Qed.

Lemma own_cases raw t : window_ok raw -> own (nodes raw) t = [] \/ exists ns, (t, ns) ∈ raw /\ own (nodes raw) t = ns.
Proof.
  intros Hwin. destruct (own (nodes raw) t) as [|n l] eqn:E; [by left|right]. assert (Hn : n ∈ own (nodes raw) t) by (rewrite E; left). apply list_elem_of_filter in Hn as [[= <-] Hn]. apply list_elem_of_fmap in Hn as ([u m] & -> & Hn). cbn [snd] in *. rewrite (win_tids raw Hwin u m Hn) in *. apply elem_of_events in Hn as (ns & Ht & _). exists ns. split; [done|]. rewrite <- E. by apply own_nodes.
Qed.

Lemma elem_section_pairs secs l lp : lp ∈ section_pairs secs l <-> exists a u, (a, u) ∈ secs /\ sync_addr u = Some l /\ lp = MkLockPair (Some a) (Some u).
Proof.
  unfold section_pairs. rewrite list_elem_of_fmap. split; [intros ([a u] & -> & [? ?]%list_elem_of_filter); by exists a, u|]. intros (a & u & ? & ? & ->). exists (a, u). split; [done|]. by apply list_elem_of_filter.
Qed.

(** C32: Of nested locks only the outer ones count.  If the locks of every thread of a window are properly nested, the
    lock pairs of the index are exactly the sections that lie in no other section of their thread: a lock taken while
    another is held has no pair, so nothing will keep its sections apart. *)
Theorem lock_pairs_outermost reach list_frees list_pairs raw ix secs : window_ok raw -> postProcess reach list_frees list_pairs raw = Ok ix ->
  (forall t ns, (t, ns) ∈ raw -> nested (filter (fun n => is_locking n = true) ns) (secs t)) ->
  forall l lp, lp ∈ default [] (ix.(addr2LockPairLs) !! l) <-> exists t ns a u, (t, ns) ∈ raw /\ (a, u) ∈ secs t /\ sync_addr u = Some l /\ lp = MkLockPair (Some a) (Some u).
Proof.
  intros Hwin (_ & -> & _)%postProcess_parts Hn l lp. rewrite pass1st_sync by done. set (s := foldl _ _ _).
  assert (Hrun : forall t k, stack_of s t = lock_stack [] (own (nodes raw) t) /\ pairs_of s t k = pairs_made [] (own (nodes raw) t) k) by (intros t k; exact (run_nodes (nodes raw) no_locks t k)).
  assert (Hin : forall t ns k, (t, ns) ∈ raw -> stack_of s t = [] /\ pairs_of s t k = section_pairs (secs t) k).
  { intros t ns k Ht. destruct (Hrun t k) as [-> ->]. rewrite (own_nodes raw t ns Hwin Ht). destruct (locking_only ns [] k) as [-> ->], (nested_run _ _ (Hn t ns Ht)) as (_ & Hs & Hp). by rewrite Hs, Hp. }
  rewrite elem_finish. 2: { intros t. destruct (own_cases raw t Hwin) as [E|(ns & Ht & _)]; [by rewrite (proj1 (Hrun t l)), E|by apply (Hin t ns l)]. }
  split.
  - intros (t & Hlp). destruct (own_cases raw t Hwin) as [E|(ns & Ht & _)]; [rewrite (proj2 (Hrun t l)), E in Hlp; by apply not_elem_of_nil in Hlp|]. rewrite (proj2 (Hin t ns l Ht)) in Hlp. apply elem_section_pairs in Hlp as (a & u & ? & ? & ?). by exists t, ns, a, u.
  - intros (t & ns & a & u & Ht & H). exists t. rewrite (proj2 (Hin t ns l Ht)). apply elem_section_pairs. by exists a, u.
Qed.

(** ** A window with a use after a free *)

Lemma window_ok_intro raw : NoDup raw.*1 -> Forall (fun tn : Z * gnode => tid tn.2 = tn.1 /\ 0 <= addr tn.2) (events raw) -> NoDup ((fun tn : Z * gnode => gid tn.2) <$> events raw) -> window_ok raw.
Proof.
  intros Hk Hall Hg. rewrite Forall_forall in Hall. split; [done|intros t n H; by apply (Hall (t, n))..|done].
Qed.

Module Window.
Import Handover.

Definition call : gnode := (0, FuncEntryNode 1 100).
Definition alloc : gnode := (1, AllocNode 1 7 256 16).
Definition write0 : gnode := (2, WriteNode 1 8 256 8 0 0).
Definition lock10 : gnode := (3, LockNode 1 10 0).
Definition lock11 : gnode := (4, LockNode 1 11 0).
Definition write5 : gnode := (5, WriteNode 1 8 256 8 5 0).
Definition unlock11 : gnode := (6, UnlockNode 1 11 0).
Definition unlock10 : gnode := (7, UnlockNode 1 10 0).
Definition use : gnode := (12, ReadNode 1 9 256 8 5 0).
Definition return1 : gnode := (13, FuncExitNode 1).
Definition read8 : gnode := (8, ReadNode 2 8 256 8 5 0).
Definition read9 : gnode := (9, ReadNode 2 8 256 8 5 0).
Definition free : gnode := (10, DeallocNode 2 8 256 16).

Definition raw : list (Z * list gnode) := [(1, [call; alloc; write0; lock10; lock11; write5; unlock11; unlock10; use; return1]); (2, [read8; read9; free])].

Lemma raw_ok : window_ok raw.
Proof. apply window_ok_intro; apply (bool_decide_unpack _); vm_compute; exact I. Qed.

Definition index : res Indexer := postProcess reach id id raw.

Lemma thread1_order : in_order [call; alloc; write0; lock10; lock11; write5; unlock11; unlock10; use; return1].
Proof. repeat constructor. Qed.

Lemma thread2_order : in_order [read8; read9; free].
Proof. repeat constructor. Qed.

Lemma shared_exact_witness : exists ix, index = Ok ix /\ suspect before ix.(ix_allocator) use /\ 256 ∈ ix.(sharedAddrs).
Proof.
  destruct (shared_exact reach before id id raw ordered (fun l => reflexivity l) (fun l => reflexivity l) raw_ok) as (ix & E & _ & Hs & Hm). exists ix. split; [exact E|].
  assert (Hc : suspect before (ix_allocator ix) use). { exists 0%nat. apply (Hm 1 use 0%nat); [apply elem_of_events; eexists; split; [left|]; set_solver +|reflexivity|]. vm_compute in E. injection E as <-. vm_compute. left. }
  split; [exact Hc|]. apply Hs. left. exists 1, use. split; [apply elem_of_events; eexists; split; [left|]; set_solver +|]. split; [reflexivity|]. split; [exact Hc|reflexivity].
Defined.

Lemma window_indexed_witness : exists ix, index = Ok ix /\ ix.(shared).(initWrites) !! 256 = Some 0 /\ default [] (ix.(shared).(tid2seqReads) !! 2) = [read8; read9].
Proof.
  destruct index as [ix|] eqn:E; [|vm_compute in E; discriminate]. exists ix. split; [reflexivity|]. destruct (window_indexed reach id id raw ix raw_ok E) as (_ & Ht & Hx). split; [rewrite (proj2 (Hx 256)), (proj1 (Hx 256))|rewrite (proj2 (Ht 2 [read8; read9; free] ltac:(right; left)))].
  all: vm_compute in E; injection E as <-; vm_compute; reflexivity.
Defined.

Lemma call_stacks_witness : exists ix s, index = Ok ix /\ buildCallStack ix use = Some s /\ open_calls [call] s.
Proof.
  destruct index as [ix|] eqn:E; [|vm_compute in E; discriminate]. destruct (call_stacks reach id id raw ix 1 _ use raw_ok E ltac:(left) thread1_order eq_refl) as (s & Hs & Ho & _); [exists call; split; [left|reflexivity]|]. exists ix, s. split; [reflexivity|]. split; [exact Hs|exact Ho].
Defined.

Lemma dependent_reads_witness : exists ix, index = Ok ix /\ getTSDependentSeqRead ix.(shared) [] free = Ok [read8] /\ getTSDependentSeqRead ix.(shared) [] read9 = Ok [read8].
Proof.
  destruct index as [ix|] eqn:E; [|vm_compute in E; discriminate]. exists ix. split; [reflexivity|].
  rewrite (dependent_reads reach id id raw ix 2 [read8; read9; free] free [] raw_ok E ltac:(right; left) thread2_order eq_refl), (dependent_reads reach id id raw ix 2 [read8; read9; free] read9 [] raw_ok E ltac:(right; left) thread2_order eq_refl).
  vm_compute in E. injection E as <-. split; vm_compute; reflexivity.
Defined.

Definition secs t : list (gnode * gnode) := if t =? 1 then [(lock10, unlock10)] else [].

Lemma lock_pairs_outermost_witness : exists ix, index = Ok ix /\ (forall lp, lp ∉ default [] (ix.(addr2LockPairLs) !! 11)) /\ MkLockPair (Some lock10) (Some unlock10) ∈ default [] (ix.(addr2LockPairLs) !! 10).
Proof.
  destruct index as [ix|] eqn:E; [|vm_compute in E; discriminate]. exists ix. split; [reflexivity|].
  assert (Hn : forall t ns, (t, ns) ∈ raw -> nested (filter (fun n => is_locking n = true) ns) (secs t)).
  { intros t ns Hin. unfold raw in Hin. rewrite !elem_of_cons, elem_of_nil in Hin. destruct Hin as [Hin|[Hin|[]]]; apply pair_equal_spec in Hin as [-> ->]; [|exact nested_nil]. exact (nested_section 3 1 10 0 [lock11; unlock11] _ 7 1 0 [] [] (nested_section 4 1 11 0 [] _ 6 1 0 [] [] nested_nil nested_nil) nested_nil). }
  pose proof (lock_pairs_outermost reach id id raw ix secs raw_ok E Hn) as H. split.
  - intros lp (t & ns & a & u & _ & Hau & Hu & _)%H. unfold secs in Hau. destruct (t =? 1); [|by apply not_elem_of_nil in Hau]. apply list_elem_of_singleton in Hau as [= -> ->]. discriminate.
  - apply H. exists 1. eexists _, lock10, unlock10. split; [left|]. split; [left|]. split; reflexivity.
Defined.
End Window.
