(* ===== verification/Solver.v ===== *)
(** * The queries to the solver

    [SimpleSolver.java], [Z3Run.java], [Z3FastRun.java] and [Z3ModelReader.java]
    of [src/ufo-predict], and the part of [Session2.java] that decides which
    candidates are reported: the text of the constraints for one candidate, the
    model that is read back, the schedule made of it.

    The process [z3] is a parameter, from the text of its input to the text of
    its output, and so is [parse], the S-expression reader of the package
    [org.w3c.tools.sexpr]; [list_model] lists the entries of the hash map of a
    model.  [reach] is [NewReachEngine.canReach].  [GetModel] and [Truthful] are
    what the theorems ask of the solver. *)
From Stdlib Require Import ZArith Lia Ascii String List SpecFloat.
From stdpp Require Import base numbers strings list gmap sorting.
From S2P Require Import Prelude Events Reader Reach Allocator Smt Index.

Local Open Scope Z_scope.

Implicit Types (n w r de acc : gnode) (lp : LockPair) (m : string -> Z).

Definition CONS_SETLOGIC : string := "(set-logic QF_IDL)" +:+ nl.
Definition CONS_CHECK_GETMODEL : string := cat ["(check-sat)"; nl; "(get-model)"; nl; "(exit)"].
Definition CONS_CHECK : string := "(check-sat)(exit)".

Definition makeVariable (GID : Z) : string := "x" +:+ decimal GID.

(** [makeVariable(node.gid)] *)
Definition var n : string := makeVariable (gid n).

(** A [StringBuilder] filled by a loop. *)
Definition catM {A} (f : A -> res string) (l : list A) : res string := foldM (fun x sb => s ← f x; Ok (sb +:+ s)) l EmptyString.

(** ** Constraints of a window *)

Definition declareVariables (trace : list gnode) : string := cat ((fun n => cat ["(declare-const "; var n; " Int)"; nl]) <$> trace).

Fixpoint order_rest (lastVar : string) (ns : list gnode) : string :=
  match ns with
  | [] => EmptyString
  | n :: ns => cat ["(assert(< "; lastVar; " "; var n; "))"; nl] +:+ order_rest (var n) ns
  end.

Definition order_thread (ns : list gnode) : string :=
  if zlen ns <? 3 then EmptyString else match ns with [] => EmptyString | lastN :: rest => order_rest (var lastN) rest end.

Definition buildIntraThrConstr (seqs : gmap Z (list gnode)) : string := cat (order_thread <$> (map_to_list seqs).*2).

Definition start_constr (firstNodes : gmap Z gnode) n : string :=
  match n.2 with
  | TStartNode _ _ kid _ _ => match firstNodes !! kid with Some fnode => cat ["(assert (< "; var n; " "; var fnode; " ))"; nl] | None => EmptyString end
  | _ => EmptyString
  end.

Definition join_constr (lastNodes : gmap Z gnode) n : string :=
  match n.2 with
  | TJoinNode _ _ kid _ _ => match lastNodes !! kid with Some lnode => cat ["(assert (< "; var lnode; " "; var n; " ))"; nl] | None => EmptyString end
  | _ => EmptyString
  end.

Section Constraints.
Context (reach : gnode -> gnode -> res bool).

Definition section_before (u : gnode) (lk : gnode) : string := cat [" (< "; var u; " "; var lk; " "; ")"].

(** The body of the two loops over the pairs of a lock. *)
Definition lock_constr lp lp' : res string :=
  match lp.(nLock), lp'.(nLock) with
  | Some p1LK, Some p2LK =>
      if tid p2LK =? tid p1LK then Ok EmptyString else
      b ← reach p1LK p2LK;
      if (b : bool) then Ok EmptyString else
      b ← reach p2LK p1LK;
      if (b : bool) then Ok EmptyString else
      Ok match lp.(nUnlock), lp'.(nUnlock) with
         | None, None => EmptyString
         | Some u, None => cat ["(assert "; section_before u p2LK; ")"; nl]
         | None, Some u => cat ["(assert "; section_before u p1LK; ")"; nl]
         | Some u, Some u' => cat ["(assert (or"; section_before u p2LK; section_before u' p1LK; "))"; nl]
         end
  | _, _ => Ok EmptyString
  end.

(** All pairs of different places. *)
Definition places {A} (l : list A) : list (A * A) :=
  concat (imap (fun i x => concat (imap (fun j y => if decide (j = i) then [] else [(x, y)]) l)) l).

Definition lock_constrs (lpLs : list LockPair) : res string := catM (fun pq : LockPair * LockPair => lock_constr pq.1 pq.2) (places lpLs).

Definition buildSyncConstr (firstNodes lastNodes : gmap Z gnode) (thrStartNodeList joinNodeList : list gnode) (addr2LpLs : gmap Z (list LockPair)) : res string :=
  locks ← catM lock_constrs (map_to_list addr2LpLs).*2;
  Ok (cat (start_constr firstNodes <$> thrStartNodeList) +:+ cat (join_constr lastNodes <$> joinNodeList) +:+ locks).

(** ** Constraints of the reads *)

Definition same_acc n w : bool := (gid n =? gid w) && (addr n =? addr w) && (pc n =? pc w).

(** [writenodes_value_match] and [preNode] *)
Definition match_write r w (st : list gnode * option gnode) : res (list gnode * option gnode) :=
  let '(ws, preNode) := st in
  if value w =? value r then
    b ← reach r w;
    Ok (if (b : bool) then (ws, preNode)
        else if negb (tid w =? tid r) then (ws ++ [w], preNode)
        else match preNode with
             | None => (ws, Some w)
             | Some pre => (ws, if (gid pre <? gid w) && (gid w <? gid r) then Some w else preNode)
             end)
  else Ok (ws, preNode).

(** The loop over the other writes: [cons_c], [cons_c_end], [last_cons_d]. *)
Definition cons_c_step (ws : list gnode) r w1 w2 (st : string * string * option string) : res (string * string * option string) :=
  let '(cons_c, cons_c_end, last_cons_d) := st in
  if existsb (same_acc w2) ws then Ok st else
  b ← reach w2 w1;
  if (b : bool) then Ok st else
  b ← reach r w2;
  if (b : bool) then Ok st else
  let d := cat ["(or (< "; var r; " "; var w2; ")"; " (< "; var w2; " "; var w1; " ))"; nl] in
  Ok match last_cons_d with
     | Some last => (cons_c +:+ "(and " +:+ last, cons_c_end +:+ " )", Some d)
     | None => (cons_c, cons_c_end, Some d)
     end.

Definition cons_b_of (ws writenodes : list gnode) r w1 : res string :=
  st ← foldM (cons_c_step ws r w1) writenodes (EmptyString, EmptyString, None);
  let '(cons_c, cons_c_end, last_cons_d) := (st : string * string * option string) in
  let cons_c := (match last_cons_d with Some last => cons_c +:+ last | None => cons_c end) +:+ cons_c_end in
  let cons_b_ := cat ["(< "; var w1; " "; var r; ")"; nl] in
  Ok (match cons_c with EmptyString => cons_b_ | _ => cat ["(and "; cons_b_; " "; cons_c; " )"; nl] end).

(** The loop over the matching writes: [cons_a], [cons_a_end], [cons_b],
    [cons_b_end]. *)
Fixpoint cons_ab (ws writenodes : list gnode) r (todo : list gnode) (st : string * string * string * string) : res (string * string * string * string) :=
  match todo with
  | [] => Ok st
  | w1 :: todo =>
      let '(cons_a, cons_a_end, cons_b, cons_b_end) := st in
      cons_b_ ← cons_b_of ws writenodes r w1;
      cons_ab ws writenodes r todo
        match todo with
        | _ :: _ => (cat [cons_a; "(and (< "; var r; " "; var w1; " )"; nl], cons_a_end +:+ " )", cat [cons_b; "(or "; cons_b_], cons_b_end +:+ " )")
        | [] => (cat [cons_a; "(< "; var r; " "; var w1; " )"; nl], cons_a_end, cons_b +:+ cons_b_, cons_b_end)
        end
  end.

(** May the read see the first value?  [-1] stands for no write. *)
Definition match_init (initValue : Z) (ws : list gnode) r : bool :=
  if initValue =? -1 then negb (existsb (fun w => gid w <? gid r) ws) else value r =? initValue.

Definition first_reads (initValue : Z) (writenodes : list gnode) r : res string :=
  if negb (initValue =? -1) && (value r =? initValue) then
    catM (fun w3 =>
      if tid w3 =? tid r then Ok EmptyString else
      b ← reach r w3;
      Ok (if (b : bool) then EmptyString else cat ["(assert "; nl; "(< "; var r; " "; var w3; " )"; " )"; nl])) writenodes
  else Ok EmptyString.

Definition read_constr (s : SharedAccIndexes) r : res string :=
  if tid r =? -1 then Ok EmptyString else
  match s.(addr2SeqWrite) !! addr r with
  | None | Some [] => Ok EmptyString
  | Some writenodes =>
      st ← foldM (match_write r) writenodes ([], None);
      let '(ws, preNode) := (st : list gnode * option gnode) in
      let initValue := default (-1) (s.(initWrites) !! addr r) in
      match ws with
      | [] => first_reads initValue writenodes r
      | _ =>
          let ws := match preNode with Some pre => ws ++ [pre] | None => ws end in
          st ← cons_ab ws writenodes r ws (EmptyString, EmptyString, EmptyString, EmptyString);
          let '(cons_a, cons_a_end, cons_b, cons_b_end) := (st : string * string * string * string) in
          let cons_b := cons_b +:+ cons_b_end in
          Ok (if match_init initValue ws r then
                match cons_a with EmptyString => EmptyString | _ => cat ["(assert (or "; cons_a +:+ cons_a_end +:+ nl; " "; cons_b; " ))"; nl; nl] end
              else cat ["(assert "; cons_b; ")"; nl; nl])
      end
  end.

Definition buildCausalConstrOpt (s : SharedAccIndexes) (allReadNodes : list gnode) : res string := catM (read_constr s) allReadNodes.
End Constraints.

(** ** Queries *)

(** The strings that [prepareConstraints] leaves in the solver. *)
Record constraints : Type := MkConstraints { constrDeclare : string; constrMHB : string; constrSync : string }.

(** [NewReachEngine.thrStartNodeList] and [joinNodeList]: nothing is ever added
    to them. *)
Definition thrStartNodeList : list gnode := [].
Definition joinNodeList : list gnode := [].

Section Queries.
Context (reach : gnode -> gnode -> res bool).

Definition prepareConstraints (ix : Indexer) : res constraints :=
  sync ← buildSyncConstr reach ix.(tidFirstNode) ix.(tidLastNode) thrStartNodeList joinNodeList ix.(addr2LockPairLs);
  Ok (MkConstraints (declareVariables ix.(shared).(allNodeSeq)) (buildIntraThrConstr ix.(shared).(tid2sqeNodes)) sync).

(** The text of [searchUafSchedule]. *)
Definition search_query (ix : Indexer) (c : constraints) de acc : res string :=
  reads ← getTSDependentSeqRead ix.(shared) [] acc;
  reads ← getTSDependentSeqRead ix.(shared) reads de;
  constrCasual ← buildCausalConstrOpt reach ix.(shared) reads;
  Ok (cat [CONS_SETLOGIC; c.(constrDeclare); c.(constrMHB); c.(constrSync); constrCasual; "(assert (< "; var de; " "; var acc; " ))"; CONS_CHECK_GETMODEL]).

(** The text of [mustUaF].  The causal constraints are those of the last query,
    [null] if there was none since [reset]. *)
Definition must_pair acc (p : AllocaPair) : res string :=
  d ← res_of_option ENull p.(deallocNode);
  Ok (cat ["(and (< "; var p.(allocNode); " "; var acc; ") (< "; var acc; " "; var d; "))"]).

Definition must_query (c : constraints) (constrCasual : option string) acc (pairs : list AllocaPair) : res string :=
  ps ← catM (must_pair acc) pairs;
  Ok (cat [CONS_SETLOGIC; c.(constrDeclare); c.(constrMHB); c.(constrSync); default "null" constrCasual; "(assert (or "; ps; "))"; CONS_CHECK]).
End Queries.

(** ** The model that comes back *)

(** What the S-expression reader makes: symbols, integers, vectors. *)
Inductive obj : Type := Sym (s : string) | Num (z : Z) | Vec (l : list obj).

(** Values of a model: [Number] with its [intValue], an array, a name, [null]. *)
Inductive zvalue : Type := VNum (z : Z) | VArray | VName (s : string) | VNull.

Definition named (o : obj) (s : string) : bool := match o with Sym x => String.eqb x s | _ => false end.

(** The [intValue] of a [Double] stops at the ends of the type. *)
Definition double_int (z : Z) : Z := Z.max (- 2 ^ 31) (Z.min (2 ^ 31 - 1) z).

(** [doubleValue] of an integer *)
Definition double_of (z : Z) : spec_float := binary_normalize 53 1024 z 0 false.

(** Division to the nearest integer, to the even one from the middle. *)
Definition round_even (n d : Z) : Z :=
  let q := n / d in
  let r := n mod d in
  if 2 * r <? d then q else if d <? 2 * r then q + 1 else if Z.even q then q else q + 1.

(** The tenths of [m * 2 ^ e] that the format [#.#] keeps *)
Definition tenths (m : positive) (e : Z) : Z := if 0 <=? e then 10 * Z.pos m * 2 ^ e else round_even (10 * Z.pos m) (2 ^ (- e)).

(** [fromRational] with the [intValue] of the result.  [None]: what the format
    makes of an infinite quotient, or of none, is not read by [Double.valueOf]. *)
Definition fromRational (sign : bool) (numerator denominator : Z) : option Z :=
  match SFdiv 53 1024 (double_of numerator) (double_of denominator) with
  | S754_zero _ => Some 0
  | S754_finite s m e =>
      let d := if s then - tenths m e else tenths m e in
      let d := if sign then d else - d in
      Some (double_int (d ÷ 10))
  | S754_infinity _ | S754_nan => None
  end.

(** [None] is an exception, [Some None] is [null]. *)
Definition number (t : string) (v : obj) : option (option Z) :=
  match v with
  | Num z => Some (Some (s32 z))
  | Vec (op :: rest) =>
      if named op "-" then
        match rest with
        | Num z :: _ =>
            if String.eqb t "Int" then Some (Some (s32 (0 - s32 z))) else if String.eqb t "Real" then Some (Some (double_int (0 - z))) else Some None
        | Vec (op' :: Num a :: Num b :: _) :: _ => if named op' "/" then Some <$> fromRational false a b else Some None
        | Vec (op' :: _) :: _ => if named op' "/" then None else Some None
        | _ => None
        end
      else if named op "/" then match rest with Num a :: Num b :: _ => Some <$> fromRational true a b | _ => None end
      else Some None
  | Vec [] => None
  | Sym _ => None
  end.

(** [ite]: [None] if an exception is thrown *)
Fixpoint ite (t : string) (e : obj) : option unit :=
  match e with
  | Vec (op :: rest) =>
      if named op "ite" then
        match rest with
        | Vec (eq :: c) :: th :: el :: _ =>
            _ ← (if named eq "=" then match c with _ :: i :: _ => number "Int" i | _ => None end else Some None);
            _ ← number t th;
            d ← number t el;
            match d with Some _ => Some tt | None => ite t el end
        | _ => None
        end
      else Some tt
  | _ => None
  end.

Definition primValue (t : string) (v : obj) : option zvalue :=
  if String.eqb t "Int" || String.eqb t "Real" then
    n ← number t v;
    match n with
    | Some z => Some (VNum z)
    | None =>
        match v with
        | Vec (Sym op :: _) => if String.eqb op "ite" then _ ← ite t v; Some VArray else Some VNull
        | _ => None
        end
    end
  else Some VNull.

Definition value_of (type v : obj) : option zvalue :=
  match type with
  | Sym t => primValue t v
  | Vec (Sym t :: _) =>
      if String.eqb t "Array" then
        match v with
        | Vec (u :: a :: x :: _) => if named u "_" && named a "as-array" then match x with Sym s => Some (VName s) | _ => None end else None
        | _ => None
        end
      else None
  | Vec _ => None
  | Num _ => Some VNull
  end.

Definition define_fun (o : obj) : option (string * zvalue) :=
  match o with
  | Vec (kw :: Sym varName :: _ :: type :: v :: _) => if named kw "define-fun" then x ← value_of type v; Some (varName, x) else None
  | _ => None
  end.

Fixpoint define_funs (os : list obj) (model : gmap string zvalue) : option (gmap string zvalue) :=
  match os with
  | [] => Some model
  | o :: os => kv ← define_fun o; define_funs os (<[kv.1 := kv.2]> model)
  end.

Definition process (root : list obj) : option (gmap string zvalue) :=
  match root with
  | kw :: os => if named kw "model" then define_funs os ∅ else None
  | [] => None
  end.

(** [readResult]: the first line, of which ten characters are kept; [None] is
    [null], at the end of the file. *)
Fixpoint readResult (len : nat) (out : string) : option (string * string) :=
  match out with
  | EmptyString => None
  | String c out =>
      if (c =? newline)%char || (c =? ascii_of_nat 13)%char || (c =? ascii_of_nat 0)%char then Some (EmptyString, out)
      else
        rest ← readResult (Nat.pred len) out;
        Some (match len with O => rest.1 | S _ => String c rest.1 end, rest.2)
  end.

(** [Z3ModelReader.read]; every exception is caught, as is the error for a first
    line that starts with [(error] *)
Definition read (parse : string -> option obj) (out : string) : option (gmap string zvalue) :=
  match readResult 10 out with
  | Some (result, rest) =>
      if String.eqb result "sat" then match parse rest with Some (Vec root) => process root | _ => None end else None
  | None => None
  end.

(** ** The schedule *)

Definition varName2GID (name : string) : option Z := match name with EmptyString => None | String _ s => parseLong s end.

(** [orderls] and [ls] are filled side by side. *)
Fixpoint place (order g : Z) (l : list (Z * Z)) : list (Z * Z) :=
  match l with
  | [] => [(order, g)]
  | (o, g') :: l => if order <=? o then (order, g) :: (o, g') :: l else (o, g') :: place order g l
  end.

Definition schedule_step (e : string * zvalue) (l : list (Z * Z)) : res (list (Z * Z)) :=
  g ← res_of_option EDie (varName2GID e.1);
  match e.2 with
  | VNum z => Ok (place z g l)
  | VNull => Err ENull
  | _ => Err EDie
  end.

Section Run.
Context (reach : gnode -> gnode -> res bool) (z3 : string -> string) (parse : string -> option obj).
Context (list_model : gmap string zvalue -> list (string * zvalue)) (config_schedule : bool).

Definition computeSchedule2 (model : gmap string zvalue) : res (list Z) :=
  l ← foldM schedule_step (list_model model) [];
  Ok l.*2.

Definition buildSchedule (msg : string) : res (option (list Z)) :=
  match read parse (z3 (msg +:+ nl)) with
  | Some model => if config_schedule then ls ← computeSchedule2 model; Ok (Some ls) else Ok (Some [])
  | None => Ok None
  end.

Definition searchUafSchedule (ix : Indexer) (c : constraints) de acc : res (option (list Z)) :=
  msg ← search_query reach ix c de acc;
  buildSchedule msg.

(** [feasible] of [Z3FastRun]: the first line that starts with [unsat] or [sat] *)
Fixpoint first_answer (start : bool) (out : string) : bool :=
  match out with
  | EmptyString => false
  | String c rest =>
      if start && String.prefix "unsat" out then false
      else if start && String.prefix "sat" out then true
      else first_answer ((c =? newline)%char || (c =? ascii_of_nat 13)%char) rest
  end.

Definition feasible (msg : string) : bool := first_answer true (z3 (msg +:+ nl)).

Definition mustUaF (c : constraints) (constrCasual : option string) acc (pairs : list AllocaPair) : res bool :=
  msg ← must_query c constrCasual acc pairs;
  Ok (feasible msg).

Inductive RawUaf : Type := Uaf acc de (schedule : list Z) | UaFCpx acc (pairs : list AllocaPair).

(** The task of [solveUafConstr] for one candidate. *)
Definition solve_candidate (ix : Indexer) (c : constraints) (constrCasual : option string) acc (pairs : list AllocaPair) : res (option RawUaf) :=
  match pairs with
  | [p] =>
      d ← res_of_option ENull p.(deallocNode);
      bugSchedule ← searchUafSchedule ix c d acc;
      Ok (match bugSchedule with Some ls => Some (Uaf acc d ls) | None => None end)
  | _ =>
      b ← mustUaF c constrCasual acc pairs;
      Ok (if (b : bool) then Some (UaFCpx acc pairs) else None)
  end.
End Run.

(** ** Texts and their meaning *)

Lemma var_word n : is_word (var n) = true.
Proof. unfold var, makeVariable. cbn. apply decimal_word. Qed.

Lemma lexes_lit c s ts : (lx c ([], EmptyString)).2 = EmptyString -> lexes s ts -> lexes (c +:+ s) ((lx c ([], EmptyString)).1 ++ ts).
Proof. intros Hc. apply lexes_app. by apply lexes_const. Qed.

Lemma lexes_var n s ts : starts_delimited s = true -> lexes s ts -> lexes (var n +:+ s) (Word (var n) :: ts).
Proof. apply lexes_word; [apply var_word|done]. Qed.

(** A piece that ends in a word. *)
Lemma lexes_open c s ts : starts_delimited s = true -> lexes s ts -> lexes (c +:+ s) ((lx c ([], EmptyString)).1 ++ flush (lx c ([], EmptyString)).2 ++ ts).
Proof.
  intros Hd H pre. rewrite lx_app, (lx_pre c pre). destruct s as [|b s]; [done|]. cbn in Hd. specialize (H (pre ++ (lx c ([], EmptyString)).1 ++ flush (lx c ([], EmptyString)).2)). cbn [lx fst snd] in *. destruct (delimiter b); [|done].
  cbn [flush app] in H. rewrite <- !app_assoc in *. exact H.
Qed.

(** Read off the tokens of a text put together from pieces. *)
Ltac lex_text := cbn [cat]; unfold nl;
  repeat first [apply lexes_nil | eapply lexes_var; [reflexivity|] | eapply lexes_lit; [reflexivity|] | eapply lexes_app; [eassumption|] | eapply lexes_open; [reflexivity|]].

(** The text is a list of assertions that mean [P]. *)
Definition says (s : string) (P : (string -> Z) -> Prop) : Prop := exists fs, script_is s (asserted <$> fs) /\ forall m, Forall (sat m) fs <-> P m.

Lemma says_nil (P : (string -> Z) -> Prop) : (forall m, P m) -> says EmptyString P.
Proof. intros H. exists []. split; [apply script_nil|]. intros m. by rewrite Forall_nil. Qed.

Lemma says_app s1 s2 (P1 P2 : (string -> Z) -> Prop) : says s1 P1 -> says s2 P2 -> says (s1 +:+ s2) (fun m => P1 m /\ P2 m).
Proof. intros (fs1 & H1 & M1) (fs2 & H2 & M2). exists (fs1 ++ fs2). split; [rewrite fmap_app; by apply script_app|]. intros m. by rewrite Forall_app, M1, M2. Qed.

Lemma says_one s f ts (P : (string -> Z) -> Prop) : lexes s ts -> ts = toks (asserted f) -> (forall m, sat m f <-> P m) -> says s P.
Proof. intros Hs Ht Hm. exists [f]. split; [by eapply script_one|]. intros m. by rewrite Forall_singleton, Hm. Qed.

Lemma says_iff s (P Q : (string -> Z) -> Prop) : (forall m, P m <-> Q m) -> says s P -> says s Q.
Proof. intros H (fs & Hs & Hm). exists fs. split; [done|]. intros m. by rewrite Hm. Qed.

Lemma says_cat {A} (f : A -> string) (P : A -> (string -> Z) -> Prop) l : (forall x, x ∈ l -> says (f x) (P x)) -> says (cat (f <$> l)) (fun m => forall x, x ∈ l -> P x m).
Proof.
  induction l as [|x l IH]; intros H; [apply says_nil; by intros m x ?%not_elem_of_nil|]. rewrite fmap_cons. cbn [cat]. eapply says_iff; [|apply says_app; [apply H; left|apply IH; intros y Hy; apply H; by right]]. intros m. cbn. split; [intros [? ?] y [->|?]%elem_of_cons; auto|]. intros Hall. split; [apply Hall; left|]. intros y Hy. apply Hall. by right.
Qed.

Lemma catM_says {A} (f : A -> res string) (P : A -> (string -> Z) -> Prop) l : (forall x, x ∈ l -> exists s, f x = Ok s /\ says s (P x)) -> exists s, catM f l = Ok s /\ says s (fun m => forall x, x ∈ l -> P x m).
Proof.
  intros H. unfold catM. destruct (foldM_inv (fun done sb => says sb (fun m => forall x, x ∈ done -> P x m)) (fun x sb => s ← f x; Ok (sb +:+ s)) l EmptyString) as (s & E & Hs); [apply says_nil; by intros m x ?%not_elem_of_nil| |by exists s].
  intros done x rest sb El Hsb. destruct (H x) as (s & Es & Hs); [rewrite El; apply elem_of_app; right; left|]. exists (sb +:+ s). rewrite Es. split; [done|]. eapply says_iff; [|exact (says_app _ _ _ _ Hsb Hs)]. intros m. cbn. split; [intros [? ?] y [?| ->%list_elem_of_singleton]%elem_of_app; auto|].
  intros Hall. split; [intros y Hy; apply Hall, elem_of_app; by left|apply Hall, elem_of_app; right; by apply list_elem_of_singleton].
Qed.

(** ** Order in a thread and between sections *)

(** The place of a node in the order that [m] describes. *)
Definition pos m n : Z := m (var n).

Fixpoint increasing m n (ns : list gnode) : Prop :=
  match ns with
  | [] => True
  | n' :: ns => pos m n < pos m n' /\ increasing m n' ns
  end.

Lemma order_rest_says ns : forall n, says (order_rest (var n) ns) (fun m => increasing m n ns).
Proof.
  induction ns as [|n' ns IH]; intros n; [by apply says_nil|]. cbn [order_rest increasing]. apply says_app; [|apply IH]. eapply (says_one _ (Lt (var n) (var n'))); [lex_text|reflexivity|done].
Qed.

(** What is said of the nodes of a thread: nothing if there are fewer than three. *)
Definition thread_ordered m (ns : list gnode) : Prop := 3 <= zlen ns -> StronglySorted (fun n n' => pos m n < pos m n') ns.

Lemma increasing_sorted m ns : forall n, increasing m n ns <-> StronglySorted (fun n n' => pos m n < pos m n') (n :: ns).
Proof.
  induction ns as [|n' ns IH]; intros n; cbn [increasing]; [split; [repeat constructor|done]|]. rewrite IH. split.
  - intros [H Hs]. constructor; [done|]. constructor; [done|]. apply StronglySorted_inv in Hs as [_ Hs]. eapply Forall_impl; [exact Hs|]. intros x Hx. cbn in *. lia.
  - intros [Hs Hall]%StronglySorted_inv. apply Forall_cons in Hall as [? _]. done.
Qed.

Lemma order_thread_says ns : says (order_thread ns) (fun m => thread_ordered m ns).
Proof.
  unfold order_thread, thread_ordered. destruct (Z.ltb_spec (zlen ns) 3) as [Hlt|Hge]; [apply says_nil; intros m; lia|]. destruct ns as [|n ns]; [by apply says_nil; intros m; constructor|]. eapply says_iff; [|apply order_rest_says]. intros m. cbn. rewrite increasing_sorted. split; auto.
Qed.

Lemma intra_says seqs : says (buildIntraThrConstr seqs) (fun m => forall t ns, seqs !! t = Some ns -> thread_ordered m ns).
Proof.
  eapply says_iff; [|apply (says_cat order_thread (fun ns m => thread_ordered m ns)); intros ns _; apply order_thread_says]. intros m. cbn. split.
  - intros H t ns Ht. apply H, list_elem_of_fmap. exists (t, ns). split; [done|]. by apply elem_of_map_to_list.
  - intros H ns ([t ns'] & -> & Hin%elem_of_map_to_list)%list_elem_of_fmap. by apply (H t).
Qed.

(** Sections that are not ordered anyway do not overlap; one that has no end in
    the window is after the other. *)
Definition apart_sections (before : gnode -> gnode -> bool) lp lp' m : Prop :=
  match lp.(nLock), lp'.(nLock) with
  | Some l1, Some l2 => tid l1 <> tid l2 -> before l1 l2 = false -> before l2 l1 = false ->
      match lp.(nUnlock), lp'.(nUnlock) with
      | None, None => True
      | Some u, None => pos m u < pos m l2
      | None, Some u => pos m u < pos m l1
      | Some u, Some u' => pos m u < pos m l2 \/ pos m u' < pos m l1
      end
  | _, _ => True
  end.

Section Meaning.
Context (reach : gnode -> gnode -> res bool) (before : gnode -> gnode -> bool) (Hreach : forall a b, reach a b = Ok (before a b)).

Lemma section_lexes u l : lexes (section_before u l) (toks (sexp_of (Lt (var u) (var l)))).
Proof. unfold section_before. assert (H : exists ts, lexes (cat [" (< "; var u; " "; var l; " "; ")"]) ts /\ ts = toks (sexp_of (Lt (var u) (var l)))) by (eexists; split; [lex_text|reflexivity]). by destruct H as (ts & H & ->). Qed.

Lemma lock_constr_says lp lp' : exists s, lock_constr reach lp lp' = Ok s /\ says s (apart_sections before lp lp').
Proof.
  unfold lock_constr, apart_sections. destruct (nLock lp) as [l1|], (nLock lp') as [l2|]; try (eexists; split; [reflexivity|]; by apply says_nil). destruct (Z.eqb_spec (tid l2) (tid l1)) as [E|Hne]; [eexists; split; [reflexivity|]; apply says_nil; congruence|].
  rewrite !Hreach, !bind_ok. destruct (before l1 l2); [eexists; split; [reflexivity|]; by apply says_nil|]. destruct (before l2 l1); [eexists; split; [reflexivity|]; by apply says_nil|]. eexists. split; [reflexivity|].
  destruct (nUnlock lp) as [u|], (nUnlock lp') as [u'|].
  - pose proof (section_lexes u l2). pose proof (section_lexes u' l1). eapply (says_one _ (Or [Lt (var u) (var l2); Lt (var u') (var l1)])); [lex_text|reflexivity|]. intros m. cbn. unfold pos. split; [intros [?|[?|[]]] _ _ _; auto|]. intros Hor. destruct Hor as [?|?]; auto.
  - pose proof (section_lexes u l2). eapply (says_one _ (Lt (var u) (var l2))); [lex_text|reflexivity|]. intros m. cbn. unfold pos. split; auto.
  - pose proof (section_lexes u' l1). eapply (says_one _ (Lt (var u') (var l1))); [lex_text|reflexivity|]. intros m. cbn. unfold pos. split; auto.
  - by apply says_nil.
Qed.

Lemma elem_of_places {A} (l : list A) x y : (x, y) ∈ places l <-> exists i j, i <> j /\ l !! i = Some x /\ l !! j = Some y.
Proof.
  unfold places. rewrite list_elem_of_In, in_concat. split.
  - intros (l1 & H1 & H2). apply list_elem_of_In, elem_of_lookup_imap in H1 as (i & x' & -> & Hi). apply in_concat in H2 as (l2 & H2 & H3). apply list_elem_of_In, elem_of_lookup_imap in H2 as (j & y' & -> & Hj). destruct (decide (j = i)) as [->|Hne]; [done|]. destruct H3 as [[= -> ->]|[]]. exists i, j. auto.
  - intros (i & j & Hij & Hi & Hj). eexists. split; [apply list_elem_of_In, elem_of_lookup_imap; exists i, x; split; [reflexivity|done]|]. apply in_concat. eexists. split; [apply list_elem_of_In, elem_of_lookup_imap; exists j, y; split; [reflexivity|done]|]. rewrite decide_False by congruence. by left.
Qed.

(** What is said of the lock pairs. *)
Definition locks_apart (lps : gmap Z (list LockPair)) m : Prop := forall l lpLs i j lp lp', lps !! l = Some lpLs -> i <> j -> lpLs !! i = Some lp -> lpLs !! j = Some lp' -> apart_sections before lp lp' m.

Lemma locks_says lps : exists s, catM (lock_constrs reach) (map_to_list lps).*2 = Ok s /\ says s (locks_apart lps).
Proof.
  destruct (catM_says (lock_constrs reach) (fun lpLs m => forall i j lp lp', i <> j -> lpLs !! i = Some lp -> lpLs !! j = Some lp' -> apart_sections before lp lp' m) (map_to_list lps).*2) as (s & E & Hs).
  - intros lpLs _. unfold lock_constrs. destruct (catM_says (fun pq : LockPair * LockPair => lock_constr reach pq.1 pq.2) (fun pq => apart_sections before pq.1 pq.2) (places lpLs)) as (s & E & Hs); [intros [lp lp'] _; apply lock_constr_says|]. exists s. split; [done|]. eapply says_iff; [|exact Hs]. intros m. cbn. split.
    + intros H i j lp lp' Hij Hi Hj. apply (H (lp, lp')), elem_of_places. eauto 6.
    + intros H [lp lp'] (i & j & ? & ? & ?)%elem_of_places. by apply (H i j).
  - exists s. split; [done|]. eapply says_iff; [|exact Hs]. intros m. cbn. unfold locks_apart. split.
    + intros H l lpLs i j lp lp' Hl. apply H, list_elem_of_fmap. exists (l, lpLs). split; [done|]. by apply elem_of_map_to_list.
    + intros H lpLs ([l lpLs'] & -> & Hin%elem_of_map_to_list)%list_elem_of_fmap i j lp lp'. by apply (H l).
Qed.

(** ** What reads may see *)

(** Writes of the value read, by other threads, and the latest by the own one. *)
Definition other_match r w : bool := (value w =? value r) && negb (before r w) && negb (tid w =? tid r).

Definition latest r (pre : option gnode) w : option gnode :=
  if (value w =? value r) && negb (before r w) && (tid w =? tid r) then
    match pre with
    | None => Some w
    | Some p => if (gid p <? gid w) && (gid w <? gid r) then Some w else pre
    end
  else pre.

Definition others r (writes : list gnode) : list gnode := filter (fun w => other_match r w = true) writes.
Definition matching r (writes : list gnode) : list gnode := match foldl (latest r) None writes with Some p => others r writes ++ [p] | None => others r writes end.

Lemma match_write_step r w ws pre : match_write reach r w (ws, pre) = Ok (if other_match r w then ws ++ [w] else ws, latest r pre w).
Proof.
  unfold match_write, other_match, latest. destruct (value w =? value r); cbn [andb]; [|done]. rewrite Hreach, bind_ok. destruct (before r w); cbn [negb andb]; [done|]. destruct (tid w =? tid r); cbn [negb]; [|done]. by destruct pre.
Qed.

Lemma match_write_ok r writes : foldM (match_write reach r) writes ([], None) = Ok (others r writes, foldl (latest r) None writes).
Proof.
  cut (forall ws pre, foldM (match_write reach r) writes (ws, pre) = Ok (ws ++ others r writes, foldl (latest r) pre writes)); [intros H; apply H|]. induction writes as [|w writes IH]; intros ws pre; cbn [foldM foldl]; [by rewrite app_nil_r|].
  rewrite match_write_step, bind_ok, IH. unfold others. rewrite filter_cons. destruct (other_match r w); [|done]. rewrite decide_True by done. by rewrite <- app_assoc.
Qed.

(** The writes that could come between. *)
Definition conflicts (ws writes : list gnode) r w1 : list gnode := filter (fun w2 => negb (existsb (same_acc w2) ws) && negb (before w2 w1) && negb (before r w2) = true) writes.

(** [r] sees [w1]: no conflicting write is between them. *)
Definition reads_from (ws writes : list gnode) r m w1 : Prop := pos m w1 < pos m r /\ forall w2, w2 ∈ conflicts ws writes r w1 -> pos m r < pos m w2 \/ pos m w2 < pos m w1.

(** The condition on a read. *)
Definition read_ok (s : SharedAccIndexes) r m : Prop :=
  let writes := default [] (s.(addr2SeqWrite) !! addr r) in
  let init := default (-1) (s.(initWrites) !! addr r) in
  tid r <> -1 ->
  match others r writes with
  | [] => init <> -1 -> value r = init -> forall w, w ∈ writes -> tid w <> tid r -> before r w = false -> pos m r < pos m w
  | _ => (exists w, w ∈ matching r writes /\ reads_from (matching r writes) writes r m w) \/ match_init init (matching r writes) r = true /\ forall w, w ∈ matching r writes -> pos m r < pos m w
  end.

(** *** Nested connectives *)

Fixpoint nest (mk : list form -> form) (fs : list form) : form :=
  match fs with
  | [] => mk []
  | [f] => f
  | f :: fs => mk [f; nest mk fs]
  end.

Definition open_and (fs : list form) : list token := concat (List.map (fun f => LPar :: Word "and" :: toks (sexp_of f)) fs).

Lemma nest_toks fs f : toks (sexp_of (nest And (fs ++ [f]))) = open_and fs ++ toks (sexp_of f) ++ replicate (length fs) RPar.
Proof.
  induction fs as [|g fs IH]; [cbn; by rewrite app_nil_r|]. cbn [app]. assert (E : nest And (g :: fs ++ [f]) = And [g; nest And (fs ++ [f])]) by (by destruct fs). rewrite E. cbn [sexp_of List.map toks concat]. rewrite IH, app_nil_r. unfold open_and. cbn [List.map concat length replicate app]. rewrite <- !app_assoc. do 3 f_equal.
  do 2 f_equal. by rewrite <- replicate_S_end.
Qed.

Lemma nest_and_sat m fs : sat m (nest And fs) <-> Forall (sat m) fs.
Proof. induction fs as [|f [|g fs] IH]; [cbn; by rewrite Forall_nil|cbn [nest]; by rewrite Forall_singleton|]. change (sat m (nest And (f :: g :: fs))) with (sat m f /\ sat m (nest And (g :: fs)) /\ True). rewrite IH, (Forall_cons _ f). tauto. Qed.

(** *** The text of one matching write *)

Definition either_side r w1 w2 : form := Or [Lt (var r) (var w2); Lt (var w2) (var w1)].

(** The three strings after the other writes [done]. *)
Definition cons_c_is (ws : list gnode) r w1 (done : list gnode) (st : string * string * option string) : Prop :=
  let ds := either_side r w1 <$> conflicts ws done r w1 in
  match st.2 with
  | None => ds = [] /\ st.1 = (EmptyString, EmptyString)
  | Some last => exists ds' d, ds = ds' ++ [d] /\ lexes st.1.1 (open_and ds') /\ lexes st.1.2 (replicate (length ds') RPar) /\ lexes last (toks (sexp_of d))
  end.

Lemma cons_c_step_ok ws r w1 done w2 st : cons_c_is ws r w1 done st -> exists st', cons_c_step reach ws r w1 w2 st = Ok st' /\ cons_c_is ws r w1 (done ++ [w2]) st'.
Proof.
  intros H. destruct st as [[c e] last]. unfold cons_c_step, cons_c_is in *. unfold conflicts in *. rewrite filter_app, filter_cons, filter_nil. destruct (existsb (same_acc w2) ws) eqn:Ex; [exists (c, e, last); rewrite decide_False, app_nil_r by done; done|].
  rewrite !Hreach, !bind_ok. destruct (before w2 w1) eqn:E1; [exists (c, e, last); rewrite decide_False, app_nil_r by done; done|]. destruct (before r w2) eqn:E2; [exists (c, e, last); rewrite decide_False, app_nil_r by done; done|]. rewrite decide_True by done.
  eexists. split; [reflexivity|]. set (d := cat _). assert (Hd : exists ts, lexes d ts /\ ts = toks (sexp_of (either_side r w1 w2))) by (eexists; split; [unfold d; lex_text|reflexivity]). destruct Hd as (ts & Hd & ->). rewrite fmap_app. cbn [fmap list_fmap]. destruct last as [last|]; cbn [snd fst] in *.
  - destruct H as (ds' & d0 & -> & Hc & He & Hl). exists (ds' ++ [d0]), (either_side r w1 w2). split; [done|]. split; [|split; [|done]].
    + unfold open_and. rewrite List.map_app, concat_app. apply lexes_app; [done|]. cbn [List.map concat]. rewrite app_nil_r. apply (lexes_lit "(and " _ _ eq_refl Hl).
    + rewrite length_app. cbn [length]. rewrite Nat.add_1_r, replicate_S_end. apply lexes_app; [done|]. apply (lexes_const " )" eq_refl).
  - destruct H as [-> [= -> ->]]. exists [], (either_side r w1 w2). split; [done|]. split; [apply lexes_nil|]. split; [apply lexes_nil|done].
Qed.

Lemma lexes_nonempty s t ts : lexes s (t :: ts) -> s <> EmptyString.
Proof. intros H ->. specialize (H []). discriminate H. Qed.

Lemma toks_nonempty f : exists t ts, toks (sexp_of f) = t :: ts.
Proof. destruct f; cbn; eauto. Qed.

Lemma cons_b_ok ws writes r w1 : exists s f, cons_b_of reach ws writes r w1 = Ok s /\ lexes s (toks (sexp_of f)) /\ forall m, sat m f <-> reads_from ws writes r m w1.
Proof.
  unfold cons_b_of. destruct (foldM_inv (cons_c_is ws r w1) (cons_c_step reach ws r w1) writes (EmptyString, EmptyString, None)) as ([[c e] last] & -> & H); [done|intros done w2 rest st _; apply cons_c_step_ok|]. rewrite bind_ok.
  set (lt := cat _). assert (Hlt : exists ts, lexes lt ts /\ ts = toks (sexp_of (Lt (var w1) (var r)))) by (eexists; split; [unfold lt; lex_text|reflexivity]). destruct Hlt as (ts & Hlt & ->). unfold cons_c_is in H. cbn [snd fst] in H. set (cs := conflicts ws writes r w1) in *.
  assert (Hcs : forall m, Forall (sat m) (either_side r w1 <$> cs) <-> forall w2, w2 ∈ cs -> pos m r < pos m w2 \/ pos m w2 < pos m w1).
  { intros m. rewrite Forall_fmap, Forall_forall. unfold either_side, pos. cbn. split; intros H' w2 Hw2; specialize (H' w2 Hw2); cbn in *; tauto. }
  destruct last as [last|].
  - destruct H as (ds' & d & Eds & Hc & He & Hl). assert (Hall : lexes ((c +:+ last) +:+ e) (toks (sexp_of (nest And (ds' ++ [d]))))) by (rewrite nest_toks, app_assoc; apply lexes_app; [by apply lexes_app|done]).
    destruct (toks_nonempty (nest And (ds' ++ [d]))) as (t & ts & Et). rewrite Et in Hall. pose proof (lexes_nonempty _ _ _ Hall) as Hne. rewrite <- Et in Hall. exists (cat ["(and "; lt; " "; (c +:+ last) +:+ e; " )"; nl]), (And [Lt (var w1) (var r); nest And (ds' ++ [d])]). split; [by destruct ((c +:+ last) +:+ e)|]. split.
    + assert (Hx : exists ts, lexes (cat ["(and "; lt; " "; (c +:+ last) +:+ e; " )"; nl]) ts /\ ts = toks (sexp_of (And [Lt (var w1) (var r); nest And (ds' ++ [d])]))); [|by destruct Hx as (? & ? & ->)]. clearbody lt. generalize dependent ((c +:+ last) +:+ e). intros cc Hcc _. eexists. split; [lex_text|]. cbn [sexp_of List.map toks concat lx app fst snd]. rewrite app_nil_r. cbn. by rewrite <- ?app_assoc.
    + intros m. change (sat m (And [Lt (var w1) (var r); nest And (ds' ++ [d])])) with (pos m w1 < pos m r /\ sat m (nest And (ds' ++ [d])) /\ True). rewrite nest_and_sat, <- Eds, Hcs. unfold reads_from. tauto.
  - destruct H as [Eds [= -> ->]]. eexists lt, (Lt (var w1) (var r)). split; [reflexivity|]. split; [done|]. intros m. unfold reads_from. fold cs. rewrite <- (Hcs m), Eds, Forall_nil. change (sat m (Lt (var w1) (var r))) with (pos m w1 < pos m r). tauto.
Qed.

(** *** The text of a read *)

Lemma cons_ab_ok ws writes r todo : forall w1 a ae b be ta tb k, lexes a ta -> lexes b tb -> lexes ae (replicate k RPar) -> lexes be (replicate k RPar) ->
  exists a' ae' b' be' fa fb, cons_ab reach ws writes r (w1 :: todo) (a, ae, b, be) = Ok (a', ae', b', be') /\ a' <> EmptyString /\
    lexes (a' +:+ ae') (ta ++ toks (sexp_of fa) ++ replicate k RPar) /\ lexes (b' +:+ be') (tb ++ toks (sexp_of fb) ++ replicate k RPar) /\
    forall m, (sat m fa <-> forall w, w ∈ w1 :: todo -> pos m r < pos m w) /\ (sat m fb <-> exists w, w ∈ w1 :: todo /\ reads_from ws writes r m w).
Proof.
  induction todo as [|w2 todo IH]; intros w1 a ae b be ta tb k Ha Hb Hae Hbe; destruct (cons_b_ok ws writes r w1) as (s & f & E & Hs & Hf).
  - cbn [cons_ab]. rewrite E, bind_ok. do 4 eexists. exists (Lt (var r) (var w1)), f. split; [reflexivity|]. assert (Ht : exists ts, lexes (cat ["(< "; var r; " "; var w1; " )"; nl]) ts /\ ts = toks (sexp_of (Lt (var r) (var w1)))) by (eexists; split; [lex_text|reflexivity]). destruct Ht as (ts & Ht & ->).
    assert (Ha' : lexes (cat [a; "(< "; var r; " "; var w1; " )"; nl]) (ta ++ toks (sexp_of (Lt (var r) (var w1))))) by (by apply lexes_app). split; [|split; [|split]].
    + intros E0. rewrite E0 in Ha'. specialize (Ha' []). cbn in Ha'. injection Ha' as Ha'. by destruct ta.
    + rewrite app_assoc. by apply lexes_app.
    + rewrite app_assoc. apply lexes_app; [by apply lexes_app|done].
    + intros m. split; [cbn; unfold pos; split; [by intros ? w ->%list_elem_of_singleton|intros H; apply H; left]|]. rewrite Hf. split; [intros H; exists w1; split; [left|done]|]. by intros (w & ->%list_elem_of_singleton & ?).
  - change (cons_ab reach ws writes r (w1 :: w2 :: todo) (a, ae, b, be)) with (cons_b_ ← cons_b_of reach ws writes r w1; cons_ab reach ws writes r (w2 :: todo) (cat [a; "(and (< "; var r; " "; var w1; " )"; nl], ae +:+ " )", cat [b; "(or "; cons_b_], be +:+ " )")). rewrite E, bind_ok.
    assert (Ht : exists ts, lexes (cat ["(and (< "; var r; " "; var w1; " )"; nl]) ts /\ ts = LPar :: Word "and" :: toks (sexp_of (Lt (var r) (var w1)))) by (eexists; split; [lex_text|reflexivity]). destruct Ht as (ts & Ht & ->).
    assert (Hb' : lexes (cat [b; "(or "; s]) (tb ++ LPar :: Word "or" :: toks (sexp_of f))) by (cbn [cat]; rewrite append_empty; apply lexes_app; [done|]; exact (lexes_lit "(or " s _ eq_refl Hs)).
    assert (Hend : forall e, lexes e (replicate k RPar) -> lexes (e +:+ " )") (replicate (S k) RPar)) by (intros e He; rewrite replicate_S_end; apply lexes_app; [done|]; exact (lexes_const " )" eq_refl)).
    assert (Ha' : lexes (cat [a; "(and (< "; var r; " "; var w1; " )"; nl]) (ta ++ LPar :: Word "and" :: toks (sexp_of (Lt (var r) (var w1))))) by (by apply lexes_app).
    destruct (IH w2 _ _ _ _ (ta ++ LPar :: Word "and" :: toks (sexp_of (Lt (var r) (var w1)))) _ (S k) Ha' Hb' (Hend ae Hae) (Hend be Hbe)) as (a' & ae' & b' & be' & fa & fb & -> & Hne & La & Lb & Hm).
    exists a', ae', b', be', (And [Lt (var r) (var w1); fa]), (Or [f; fb]). split; [done|]. split; [done|]. split; [|split].
    + cbn [sexp_of List.map toks concat app]. cbn [replicate toks sexp_of List.map concat app] in La. rewrite <- ?app_assoc in La. rewrite app_nil_r, <- ?app_assoc. cbn [app] in *. rewrite <- ?app_assoc. exact La.
    + cbn [sexp_of List.map toks concat app]. cbn [replicate] in Lb. rewrite <- ?app_assoc in Lb. rewrite app_nil_r, <- ?app_assoc. cbn [app] in *. rewrite <- ?app_assoc in *. exact Lb.
    + intros m. destruct (Hm m) as [H1 H2]. change (sat m (And [Lt (var r) (var w1); fa])) with (pos m r < pos m w1 /\ sat m fa /\ True). change (sat m (Or [f; fb])) with (sat m f \/ sat m fb \/ False). rewrite H1, H2, Hf. split.
      * split; [intros (? & H & _) w [->|?]%elem_of_cons; auto|]. intros H. split; [apply H; left|]. split; [|done]. intros w Hw. apply H. by right.
      * split; [intros [?|[(w & ? & ?)|[]]]; [exists w1; split; [left|done]|exists w; split; [by right|done]]|]. intros (w & [->|?]%elem_of_cons & ?); [by left|right; left; eauto].
Qed.

Lemma first_reads_says init writes r : exists s, first_reads reach init writes r = Ok s /\ says s (fun m => init <> -1 -> value r = init -> forall w, w ∈ writes -> tid w <> tid r -> before r w = false -> pos m r < pos m w).
Proof.
  unfold first_reads. destruct (negb (init =? -1) && (value r =? init)) eqn:E; [|exists EmptyString; split; [done|]; apply says_nil; intros m Hi Hv; apply andb_false_iff in E as [E|E]; [apply negb_false_iff, Z.eqb_eq in E|apply Z.eqb_neq in E]; congruence].
  apply andb_true_iff in E as [Hi%negb_true_iff%Z.eqb_neq Hv%Z.eqb_eq].
  destruct (catM_says (fun w3 => if tid w3 =? tid r then Ok EmptyString else b ← reach r w3; Ok (if (b : bool) then EmptyString else cat ["(assert "; nl; "(< "; var r; " "; var w3; " )"; " )"; nl])) (fun w m => tid w <> tid r -> before r w = false -> pos m r < pos m w) writes) as (s & Es & Hs).
  - intros w _. destruct (Z.eqb_spec (tid w) (tid r)) as [Et|Hne]; [eexists; split; [reflexivity|]; by apply says_nil|]. rewrite Hreach, bind_ok. destruct (before r w); [eexists; split; [reflexivity|]; by apply says_nil|]. eexists. split; [reflexivity|]. eapply (says_one _ (Lt (var r) (var w))); [lex_text|reflexivity|]. intros m. cbn. unfold pos. split; auto.
  - exists s. split; [done|]. eapply says_iff; [|exact Hs]. intros m. cbn. split; auto.
Qed.

Lemma toks_asserted f : toks (asserted f) = [LPar; Word "assert"] ++ toks (sexp_of f) ++ [RPar].
Proof. cbn. by rewrite app_nil_r. Qed.

Lemma toks_or f g : toks (sexp_of (Or [f; g])) = [LPar; Word "or"] ++ toks (sexp_of f) ++ toks (sexp_of g) ++ [RPar].
Proof. cbn. by rewrite app_nil_r, <- app_assoc. Qed.

Lemma read_constr_says sh r : exists s, read_constr reach sh r = Ok s /\ says s (read_ok sh r).
Proof.
  unfold read_constr, read_ok. destruct (Z.eqb_spec (tid r) (-1)) as [E|Hne]; [eexists; split; [reflexivity|]; by apply says_nil|]. set (init := default (-1) _).
  destruct (addr2SeqWrite sh !! addr r) as [[|w0 ws0]|]; cbn [default from_option id]; try (eexists; split; [reflexivity|]; apply says_nil; by intros m _ _ _ w ?%not_elem_of_nil). set (writes := w0 :: ws0). rewrite match_write_ok, bind_ok. unfold matching. set (pre := foldl (latest r) None writes).
  destruct (others r writes) as [|o os] eqn:Eo; [destruct (first_reads_says init writes r) as (s & -> & Hs); exists s; split; [done|]; eapply says_iff; [|exact Hs]; intros m; cbn; split; auto|]. set (ws := match pre with Some p => (o :: os) ++ [p] | None => o :: os end).
  assert (Hws : exists w1 todo, ws = w1 :: todo) by (unfold ws; destruct pre; cbn [app]; eauto). destruct Hws as (w1 & todo & Ews).
  destruct (cons_ab_ok ws writes r todo w1 EmptyString EmptyString EmptyString EmptyString [] [] 0 lexes_nil lexes_nil lexes_nil lexes_nil) as (a & ae & b & be & fa & fb & Ec & Hna & La & Lb & Hm). rewrite <- Ews in *. rewrite Ec, bind_ok. cbn [replicate app] in La, Lb. rewrite app_nil_r in La, Lb.
  assert (Hb : forall m, Forall (sat m) [fb] <-> exists w, w ∈ ws /\ reads_from ws writes r m w) by (intros m; rewrite Forall_singleton; apply Hm). eexists. split; [reflexivity|]. destruct (match_init init ws r).
  - destruct a as [|ch a0]; [done|]. set (a := String ch a0) in *. clearbody a. replace (a +:+ ae +:+ nl) with ((a +:+ ae) +:+ nl) by (by rewrite <- append_assoc). generalize dependent (b +:+ be). intros bb Lb. assert (La' : lexes ((a +:+ ae) +:+ nl) (toks (sexp_of fa))) by (rewrite <- (app_nil_r (toks _)); apply lexes_app; [done|]; exact (lexes_const nl eq_refl)). generalize dependent ((a +:+ ae) +:+ nl). intros aa La'.
    eapply (says_one _ (Or [fa; fb])); [lex_text| |].
    + rewrite toks_asserted, toks_or, <- !app_assoc. reflexivity.
    + intros m. change (sat m (Or [fa; fb])) with (sat m fa \/ sat m fb \/ False). destruct (Hm m) as [-> ->]. split; [intros [?|[?|[]]] _; auto|]. intros H. destruct H as [?|[_ ?]]; auto.
  - generalize dependent (b +:+ be). intros bb Lb. eapply (says_one _ fb); [lex_text| |].
    + rewrite toks_asserted. reflexivity.
    + intros m. rewrite (proj2 (Hm m)). split; [auto|]. intros H. destruct H as [?|[? _]]; done.
Qed.

(** ** Whole queries *)

Definition declare n : sexp := Node [Atom "declare-const"; Atom (var n); Atom "Int"].

Lemma declare_script ns : script_is (declareVariables ns) (declare <$> ns).
Proof. induction ns as [|n ns IH]; [apply script_nil|]. unfold declareVariables. rewrite !fmap_cons. cbn [cat]. apply (script_app _ _ [declare n]); [|exact IH]. eapply script_one; [lex_text|reflexivity]. Qed.

(** What every query says of a window. *)
Definition window_says (ix : Indexer) m : Prop := (forall t ns, ix.(shared).(tid2sqeNodes) !! t = Some ns -> thread_ordered m ns) /\ locks_apart ix.(addr2LockPairLs) m.

Lemma prepare_ok ix : exists c, prepareConstraints reach ix = Ok c /\ c.(constrDeclare) = declareVariables ix.(shared).(allNodeSeq) /\ says (c.(constrMHB) +:+ c.(constrSync)) (window_says ix).
Proof.
  unfold prepareConstraints, buildSyncConstr. destruct (locks_says ix.(addr2LockPairLs)) as (s & -> & Hs). rewrite !bind_ok. eexists. split; [reflexivity|]. cbn [constrDeclare constrMHB constrSync]. split; [done|]. apply says_app; [apply intra_says|exact Hs].
Qed.

(** A script with declarations and assertions. *)
Definition framed (text : string) (vars : list string) (P : (string -> Z) -> Prop) : Prop := declared text = vars /\ forall m, models m text <-> P m.

Lemma omap_asserted (fs : list form) : omap assertion (asserted <$> fs) = sexp_of <$> fs.
Proof. induction fs as [|f fs IH]; [done|]. rewrite !fmap_cons. cbn. by rewrite IH. Qed.

Lemma omap_declared (ns : list gnode) : omap assertion (declare <$> ns) = [] /\ omap declaration (declare <$> ns) = var <$> ns.
Proof. induction ns as [|n ns [IH1 IH2]]; [done|]. rewrite !fmap_cons. cbn. by rewrite IH1, IH2. Qed.

Lemma omap_no_declaration (fs : list form) : omap declaration (asserted <$> fs) = [].
Proof. induction fs as [|f fs IH]; [done|]. rewrite fmap_cons. cbn. rewrite IH. by destruct f. Qed.

Lemma frame_query ns body (P : (string -> Z) -> Prop) tail (tes : list sexp) : says body P -> script_is tail tes -> omap assertion tes = [] -> omap declaration tes = [] ->
  framed (CONS_SETLOGIC +:+ declareVariables ns +:+ body +:+ tail) (var <$> ns) P.
Proof.
  intros (fs & Hb & Hm) Ht A D. assert (Hs : script_is (CONS_SETLOGIC +:+ declareVariables ns +:+ body +:+ tail) ([Node [Atom "set-logic"; Atom "QF_IDL"]] ++ (declare <$> ns) ++ (asserted <$> fs) ++ tes)).
  { apply script_app; [exact (script_one CONS_SETLOGIC (Node [Atom "set-logic"; Atom "QF_IDL"]) _ (lexes_const CONS_SETLOGIC eq_refl) eq_refl)|]. apply script_app; [apply declare_script|]. by apply script_app. }
  destruct (omap_declared ns) as [O1 O2]. split.
  - unfold declared. rewrite (script_read _ _ Hs), !omap_app, O2, omap_no_declaration, D. cbn. by rewrite app_nil_r.
  - intros m. rewrite (script_models m _ _ fs Hs); [apply Hm|]. rewrite !omap_app, O1, omap_asserted, A. cbn. by rewrite app_nil_r.
Qed.

Lemma check_script tail : tail = CONS_CHECK_GETMODEL \/ tail = CONS_CHECK -> exists tes : list sexp, script_is (tail +:+ nl) tes /\ omap assertion tes = [] /\ omap declaration tes = [].
Proof.
  intros [->| ->].
  - exists [Node [Atom "check-sat"]; Node [Atom "get-model"]; Node [Atom "exit"]]. split; [exact (lexes_const (CONS_CHECK_GETMODEL +:+ nl) eq_refl)|done].
  - exists [Node [Atom "check-sat"]; Node [Atom "exit"]]. split; [exact (lexes_const (CONS_CHECK +:+ nl) eq_refl)|done].
Qed.

Lemma search_ok ix c de acc l1 reads : prepareConstraints reach ix = Ok c -> getTSDependentSeqRead ix.(shared) [] acc = Ok l1 -> getTSDependentSeqRead ix.(shared) l1 de = Ok reads ->
  exists text, search_query reach ix c de acc = Ok text /\
    framed (text +:+ nl) (var <$> ix.(shared).(allNodeSeq)) (fun m => window_says ix m /\ (forall r, r ∈ reads -> read_ok ix.(shared) r m) /\ pos m de < pos m acc).
Proof.
  intros Ec E1 E2. destruct (prepare_ok ix) as (c' & Ec' & Hd & Hs). assert (c' = c) as -> by congruence. unfold search_query. rewrite E1, bind_ok, E2, bind_ok. unfold buildCausalConstrOpt.
  destruct (catM_says (read_constr reach ix.(shared)) (fun r => read_ok ix.(shared) r) reads) as (casual & -> & Hcas); [intros r _; apply read_constr_says|]. rewrite bind_ok. eexists. split; [reflexivity|].
  assert (Hlt : says (cat ["(assert (< "; var de; " "; var acc; " ))"]) (fun m => pos m de < pos m acc)) by (eapply (says_one _ (Lt (var de) (var acc))); [lex_text|reflexivity|done]).
  destruct (check_script CONS_CHECK_GETMODEL) as (tes & Ht & A & D); [by left|]. pose proof (frame_query ix.(shared).(allNodeSeq) _ _ _ tes (says_app _ _ _ _ Hs (says_app _ _ _ _ Hcas Hlt)) Ht A D) as Hf. rewrite <- Hd in Hf.
  cbn [cat] in *. rewrite <- ?append_assoc, ?append_empty in *. exact Hf.
Qed.

(** *** The query of [mustUaF] *)

Definition inside acc (p : AllocaPair) m : Prop := exists d, p.(deallocNode) = Some d /\ pos m p.(allocNode) < pos m acc < pos m d.

Lemma must_pairs_ok acc ps : Forall (fun p => is_Some p.(deallocNode)) ps -> exists s fs, catM (must_pair acc) ps = Ok s /\ lexes s (concat (List.map toks (sexp_of <$> fs))) /\ forall m, Exists (sat m) fs <-> Exists (fun p => inside acc p m) ps.
Proof.
  intros Hall. set (f := fun p => And [Lt (var p.(allocNode)) (var acc); Lt (var acc) (from_option var EmptyString p.(deallocNode))]). unfold catM. destruct (foldM_inv (fun done sb => lexes sb (concat (List.map toks (sexp_of <$> (f <$> done))))) (fun x sb => s ← must_pair acc x; Ok (sb +:+ s)) ps EmptyString) as (s & E & Hs); [apply lexes_nil| |].
  - intros done p rest sb El Hsb. rewrite Forall_forall in Hall. destruct (Hall p) as [d Hd]; [rewrite El; apply elem_of_app; right; left|]. unfold must_pair. rewrite Hd. cbn [res_of_option]. rewrite !bind_ok. eexists. split; [reflexivity|]. rewrite !fmap_app, concat_app. apply lexes_app; [done|]. unfold f. cbn [from_option].
    assert (Hx : exists ts, lexes (cat ["(and (< "; var p.(allocNode); " "; var acc; ") (< "; var acc; " "; var d; "))"]) ts /\ ts = concat (List.map toks (sexp_of <$> ((fun p => And [Lt (var p.(allocNode)) (var acc); Lt (var acc) (var d)]) <$> [p])))) by (eexists; split; [lex_text|reflexivity]). destruct Hx as (ts & Hx & Et). rewrite Et in Hx. cbn in Hx |- *. rewrite Hd. exact Hx.
  - exists s, (f <$> ps). split; [done|]. split; [done|]. intros m. rewrite Exists_fmap, !Exists_exists. rewrite Forall_forall in Hall. split; intros (p & Hp & H); exists p; (split; [done|]); destruct (Hall p Hp) as [d Hd]; unfold inside, f, compose, pos in *; rewrite Hd in *; cbn in *; [exists d; tauto|]. destruct H as (d' & [= <-] & H). tauto.
Qed.

Lemma must_ok ix c casual (P : (string -> Z) -> Prop) acc ps : prepareConstraints reach ix = Ok c -> says casual P -> Forall (fun p => is_Some p.(deallocNode)) ps ->
  exists text, must_query c (Some casual) acc ps = Ok text /\ framed (text +:+ nl) (var <$> ix.(shared).(allNodeSeq)) (fun m => window_says ix m /\ P m /\ exists p, p ∈ ps /\ inside acc p m).
Proof.
  intros Ec Hcas Hps. destruct (prepare_ok ix) as (c' & Ec' & Hd & Hs). assert (c' = c) as -> by congruence. unfold must_query. destruct (must_pairs_ok acc ps Hps) as (s & fs & -> & Hl & Hm). rewrite bind_ok. eexists. split; [reflexivity|].
  assert (Hor : says (cat ["(assert (or "; s; "))"]) (fun m => exists p, p ∈ ps /\ inside acc p m)).
  { eapply (says_one _ (Or fs)); [cbn [cat]; eapply lexes_lit; [reflexivity|]; eapply lexes_app; [exact Hl|]; lex_text|rewrite toks_asserted; cbn [sexp_of toks List.map concat app]; rewrite <- !app_assoc; reflexivity|].
    intros m. rewrite <- Exists_exists, <- Hm. cbn [sat]. clear. induction fs as [|f fs IH]; [cbn; by rewrite Exists_nil|]. cbn [List.map foldr]. by rewrite Exists_cons, IH. }
  destruct (check_script CONS_CHECK) as (tes & Ht & A & D); [by right|]. pose proof (frame_query ix.(shared).(allNodeSeq) _ _ _ tes (says_app _ _ _ _ Hs (says_app _ _ _ _ Hcas Hor)) Ht A D) as Hf. rewrite <- Hd in Hf.
  cbn [cat default from_option id] in *. rewrite <- ?append_assoc, ?append_empty in *. exact Hf.
Qed.
End Meaning.

(** ** Schedules *)

Lemma place_perm o g l : place o g l ≡ₚ (o, g) :: l.
Proof. induction l as [|[o' g'] l IH]; [done|]. cbn [place]. destruct (o <=? o'); [done|]. rewrite IH. apply Permutation_swap. Qed.

Lemma place_sorted o g l : StronglySorted (fun x y : Z * Z => x.1 <= y.1) l -> StronglySorted (fun x y : Z * Z => x.1 <= y.1) (place o g l).
Proof.
  induction 1 as [|[o' g'] l Hs IH Hall]; cbn [place]; [repeat constructor|]. destruct (Z.leb_spec o o') as [Hle|Hgt].
  - constructor; [by constructor|]. constructor; [done|]. eapply Forall_impl; [exact Hall|]. cbn. intros x Hx. lia.
  - constructor; [done|]. rewrite place_perm. constructor; [cbn; lia|done].
Qed.

Lemma varName_var n : varName2GID (var n) = Some (gid n).
Proof. unfold var, makeVariable. change ("x" +:+ decimal (gid n)) with (String "x" (decimal (gid n))). cbn. apply parse_decimal. Qed.

Lemma var_inj n n' : var n = var n' -> gid n = gid n'.
Proof. intros E. assert (H : Some (gid n) = Some (gid n')) by (by rewrite <- !varName_var, E). congruence. Qed.

Lemma schedule_step_var n z l : schedule_step (var n, VNum z) l = Ok (place z (gid n) l).
Proof. unfold schedule_step. cbn [fst snd]. rewrite varName_var. cbn [res_of_option]. by rewrite bind_ok. Qed.

(** The list is sorted, and has every number that the model gives. *)
Lemma schedule_fold es : forall l l', foldM schedule_step es l = Ok l' -> StronglySorted (fun x y : Z * Z => x.1 <= y.1) l ->
  StronglySorted (fun x y : Z * Z => x.1 <= y.1) l' /\ (forall p, p ∈ l -> p ∈ l') /\ forall n z, (var n, VNum z) ∈ es -> (z, gid n) ∈ l'.
Proof.
  induction es as [|[x v] es IH]; intros l l' E Hs; cbn [foldM] in E; [injection E as <-; split; [done|]; split; [done|]; by intros n z ?%not_elem_of_nil|].
  destruct (schedule_step (x, v) l) as [l1|] eqn:E1; [|done]. rewrite bind_ok in E. unfold schedule_step in E1. cbn [fst snd] in E1. destruct (varName2GID x) as [g|] eqn:Ex; cbn [res_of_option] in E1; rewrite ?bind_ok in E1; [|done]. destruct v as [z| | |]; try done. injection E1 as <-.
  destruct (IH _ _ E (place_sorted z g l Hs)) as (Hs' & Hl & He). assert (Hp : forall p, p ∈ (z, g) :: l -> p ∈ l') by (intros p Hp; apply Hl; by rewrite place_perm).
  split; [done|]. split; [intros p ?; apply Hp; by right|]. intros n z' [[= <- <-]|?]%elem_of_cons; [|by apply He]. rewrite varName_var in Ex. injection Ex as <-. apply Hp. left.
Qed.

(** [g] comes before [g']. *)
Definition precedes (ls : list Z) (g g' : Z) : Prop := exists l1 l2 l3, ls = l1 ++ g :: l2 ++ g' :: l3.

Lemma sorted_precedes (l : list (Z * Z)) p q : StronglySorted (fun x y : Z * Z => x.1 <= y.1) l -> p ∈ l -> q ∈ l -> p.1 < q.1 -> precedes l.*2 p.2 q.2.
Proof.
  intros Hs (l1 & l2 & ->)%list_elem_of_split Hq Hlt. apply elem_of_app in Hq as [Hq|Hq].
  - exfalso. pose proof (StronglySorted_app_1_elem_of _ _ _ q p Hs Hq ltac:(left)) as H. cbn in H. lia.
  - apply elem_of_cons in Hq as [->|(l3 & l4 & ->)%list_elem_of_split]; [lia|]. exists l1.*2, l3.*2, l4.*2. by rewrite !fmap_app, !fmap_cons, !fmap_app, fmap_cons.
Qed.

(** *** What the solver promises *)

(** The value that a term of sort [Int] stands for. *)
Definition term_value (t : obj) : option Z :=
  match t with
  | Num z => Some z
  | Vec [op; Num z] => if named op "-" then Some (- z) else None
  | _ => None
  end.

(** The answer has a definition of [x]. *)
Definition defined_in (defs : list obj) (x : string) : Prop := exists rest, Vec (Sym "define-fun" :: Sym x :: rest) ∈ defs.

(** After [sat], what [get-model] prints is read as a list in which the
    definitions of declared constants, if there are any, are those of one
    assignment that satisfies the script, as values of sort [Int].  Nothing is
    said of the constants that are left out, of other entries, and of the size
    of the values. *)
Class GetModel (z3 : string -> string) (parse : string -> option obj) : Prop := get_model :
  forall script rest defs, readResult 10 (z3 script) = Some ("sat"%string, rest) -> parse rest = Some (Vec defs) ->
    exists m, models m script /\ forall x tl, x ∈ declared script -> Vec (Sym "define-fun" :: Sym x :: tl) ∈ defs ->
      exists t, tl = [Vec []; Sym "Int"; t] /\ term_value t = Some (m x).

Lemma number_value t z : term_value t = Some z -> - 2 ^ 31 <= z < 2 ^ 31 -> number "Int" t = Some (Some z).
Proof.
  intros E Hz. destruct t as [|z'|[|op [|[| z'|] [|]]]]; try done; cbn [term_value number] in *.
  - injection E as ->. unfold s32. by rewrite swrap_small by lia.
  - destruct (named op "-"); [|done]. injection E as <-. cbn [String.eqb Ascii.eqb Bool.eqb]. unfold s32. destruct (decide (z' = 2 ^ 31)) as [->|Hne]; [reflexivity|].
    rewrite (swrap_small 32 z'), swrap_small by lia. by rewrite Z.sub_0_l.
Qed.

Lemma define_fun_shape o x v : define_fun o = Some (x, v) -> exists tl, o = Vec (Sym "define-fun" :: Sym x :: tl).
Proof.
  intros E. destruct o as [| |[|kw [|[y| |] [|args [|type [|w tl]]]]]]; try done. unfold define_fun in E. destruct (named kw "define-fun") eqn:Ek; [|done]. destruct (value_of type w); [|done]. injection E as -> _.
  destruct kw as [s| |]; try done. apply String.eqb_eq in Ek as ->. eauto.
Qed.

Lemma define_funs_value x v os : forall model model', define_funs os model = Some model' ->
  (forall tl, Vec (Sym "define-fun" :: Sym x :: tl) ∈ os -> define_fun (Vec (Sym "define-fun" :: Sym x :: tl)) = Some (x, v)) ->
  defined_in os x \/ model !! x = Some v -> model' !! x = Some v.
Proof.
  induction os as [|o os IH]; intros model model' E Hv Hx; cbn [define_funs] in E; [injection E as <-; by destruct Hx as [(tl & ?%not_elem_of_nil)|?]|].
  destruct (define_fun o) as [[y w]|] eqn:Eo; [|done]. cbn in E. apply (IH _ _ E); [intros tl Hin; apply Hv; by right|]. destruct (define_fun_shape o y w Eo) as (tl & ->). destruct (decide (y = x)) as [->|Hne].
  - right. rewrite lookup_insert_eq. rewrite (Hv tl) in Eo by left. congruence.
  - rewrite lookup_insert_ne by done. destruct Hx as [(tl' & [Ho|?]%elem_of_cons)|?]; [congruence|left; by exists tl'|by right].
Qed.

(** The answer defines the node, with the value [z], which fits an [int]. *)
Definition listed (defs : list obj) n (z : Z) : Prop :=
  exists t, Vec [Sym "define-fun"; Sym (var n); Vec []; Sym "Int"; t] ∈ defs /\ term_value t = Some z /\ - 2 ^ 31 <= z < 2 ^ 31.

Section Sound.
Context (z3 : string -> string) (parse : string -> option obj) `{!GetModel z3 parse}.
Context (list_model : gmap string zvalue -> list (string * zvalue)) (Hlist : forall model, list_model model ≡ₚ map_to_list model).

Lemma buildSchedule_ok sched text ns P ls : framed (text +:+ nl) (var <$> ns) P -> buildSchedule z3 parse list_model sched text = Ok (Some ls) ->
  exists m rest defs, readResult 10 (z3 (text +:+ nl)) = Some ("sat"%string, rest) /\ parse rest = Some (Vec defs) /\ P m /\
    (forall a z, a ∈ ns -> listed defs a z -> pos m a = z) /\
    if sched then forall a b y z, a ∈ ns -> b ∈ ns -> listed defs a y -> listed defs b z -> y < z -> precedes ls (gid a) (gid b) else ls = [].
Proof.
  intros [Hd Hm] E. unfold buildSchedule, read in E. destruct (readResult 10 _) as [[res rest]|] eqn:Er; [|done]. destruct (String.eqb_spec res "sat") as [->|]; [|done]. destruct (parse rest) as [[| |defs]|] eqn:Ep; try done.
  destruct (get_model _ _ _ Er Ep) as (m & Hmod & Hdef). exists m, rest, defs. split; [done|]. split; [done|]. split; [by apply Hm|]. destruct (process defs) as [model|] eqn:Epr; [|done].
  assert (Hval : forall a z, a ∈ ns -> listed defs a z -> pos m a = z).
  { intros a z Ha (t & Hin & Ht & _). destruct (Hdef (var a) _ ltac:(rewrite Hd; apply list_elem_of_fmap; by exists a) Hin) as (t' & [= <-] & Ht'). unfold pos. congruence. }
  split; [done|]. destruct sched; [|by injection E].
  assert (Hin : forall a z, a ∈ ns -> listed defs a z -> model !! var a = Some (VNum z)).
  { intros a z Ha Hl. pose proof (Hval a z Ha Hl) as Hz. destruct Hl as (t & Htl & _ & Hr). destruct defs as [|kw os]; [by apply not_elem_of_nil in Htl|]. cbn [process] in Epr. destruct (named kw "model") eqn:Ek; [|done].
    apply (define_funs_value (var a) _ os ∅ model Epr); [|left; eexists; apply elem_of_cons in Htl as [<-|Htl]; [discriminate Ek|exact Htl]]. intros tl' Htl'.
    destruct (Hdef (var a) tl') as (t' & -> & Ht'); [rewrite Hd; apply list_elem_of_fmap; by exists a|by right|]. fold (pos m a) in Ht'. rewrite Hz in Ht'. cbn. unfold primValue. by rewrite (number_value t' _ Ht' Hr). }
  unfold computeSchedule2 in E. destruct (foldM schedule_step (list_model model) []) as [l|] eqn:Ef; [|done]. rewrite bind_ok in E. cbn in E. injection E as <-.
  destruct (schedule_fold _ _ _ Ef ltac:(constructor)) as (Hs & _ & He). assert (Hl : forall a z, a ∈ ns -> listed defs a z -> (z, gid a) ∈ l) by (intros a z Ha La; apply He; rewrite Hlist; apply elem_of_map_to_list; by apply Hin).
  intros a b y z Ha Hb La Lb Hlt. by apply (sorted_precedes l (y, gid a) (z, gid b)); auto.
Qed.
End Sound.

(** ** Theorems *)

(** A candidate of a window: the access, the free, and the nodes of their threads. *)
Record candidate_in reach (before : gnode -> gnode -> bool) list_frees list_pairs raw (ix : Indexer) de acc (ns ns' : list gnode) : Prop := {
  cand_reach : forall a b, reach a b = Ok (before a b);
  cand_window : window_ok raw;
  cand_index : postProcess reach list_frees list_pairs raw = Ok ix;
  cand_acc : (tid acc, ns) ∈ raw /\ in_order ns;
  cand_free : (tid de, ns') ∈ raw /\ in_order ns';
}.

(** The reads that the candidate depends on. *)
Definition depends (ix : Indexer) de acc (ns ns' : list gnode) : list gnode := dependent ix.(sharedAddrs) ns acc ++ dependent ix.(sharedAddrs) ns' de.

(** What the query for a candidate says. *)
Definition query_says before (ix : Indexer) de acc (ns ns' : list gnode) m : Prop :=
  window_says before ix m /\ (forall r, r ∈ depends ix de acc ns ns' -> read_ok before ix.(shared) r m) /\ pos m de < pos m acc.

Lemma candidate_query reach before list_frees list_pairs raw ix de acc ns ns' : candidate_in reach before list_frees list_pairs raw ix de acc ns ns' -> exists c text,
  prepareConstraints reach ix = Ok c /\ search_query reach ix c de acc = Ok text /\ framed (text +:+ nl) (var <$> ix.(shared).(allNodeSeq)) (query_says before ix de acc ns ns').
Proof.
  intros [Hr Hwin Hix [Ha Hao] [Hd Hdo]]. destruct (prepare_ok reach before Hr ix) as (c & Ec & _). pose proof (dependent_ok _ _ _ raw ix _ ns acc [] Hwin Hix Ha Hao eq_refl) as E1. pose proof (dependent_ok _ _ _ raw ix _ ns' de (dependent ix.(sharedAddrs) ns acc) Hwin Hix Hd Hdo eq_refl) as E2.
  destruct (search_ok reach before Hr ix c de acc _ _ Ec E1 E2) as (text & Et & Hf). by exists c, text.
Qed.

(** C6: The text sent to the solver says what the rules of the predictor say.  For a candidate of a window the
    constraints are built, and the query is a well-formed script that declares one constant for each kept node.  An
    assignment satisfies it exactly if
    - the kept nodes of every thread that has at least three are in the order of the thread,
    - of every two recorded pairs of a lock, of different threads, whose locks the engine does not order, one ends
      before the other begins (a pair without an end is the later one; two such pairs are not constrained),
    - every read that [getTSDependentSeqRead] returns for the access and the free meets the rule for reads, [read_ok]:
      if other threads wrote its value, it sees such a write or its own thread's latest one, with no conflicting write
      in between, or it may have seen the first value and comes before all of them; if no other thread did and it read
      the first value, it comes before the writes of other threads; otherwise nothing is asked, so that a value only
      the own thread wrote is not protected,
    - the free comes before the access. *)
Theorem query_means reach before list_frees list_pairs raw ix de acc ns ns' : candidate_in reach before list_frees list_pairs raw ix de acc ns ns' -> exists c text,
  prepareConstraints reach ix = Ok c /\ search_query reach ix c de acc = Ok text /\ declared (text +:+ nl) = var <$> ix.(shared).(allNodeSeq) /\
  forall m, models m (text +:+ nl) <-> window_says before ix m /\ (forall r, r ∈ depends ix de acc ns ns' -> read_ok before ix.(shared) r m) /\ pos m de < pos m acc.
Proof. intros H. destruct (candidate_query _ _ _ _ _ _ _ _ _ _ H) as (c & text & Ec & Et & Hd & Hm). by exists c, text. Qed.


(** *** Reads see what they saw *)

Lemma latest_match before r l : forall pre p, (forall q, pre = Some q -> value q = value r) -> foldl (latest before r) pre l = Some p -> value p = value r /\ (p ∈ l \/ pre = Some p).
Proof.
  induction l as [|w l IH]; intros pre p Hpre E; cbn [foldl] in E; [split; [by apply Hpre|by right]|]. assert (Hv : forall q, latest before r pre w = Some q -> value q = value r /\ (q = w \/ pre = Some q)).
  { intros q. unfold latest. destruct ((value w =? value r) && negb (before r w) && (tid w =? tid r)) eqn:Ec; [|intros ->; split; [by apply Hpre|by right]]. apply andb_true_iff in Ec as [[Ev%Z.eqb_eq _]%andb_true_iff _]. destruct pre as [q0|]; [|intros [= <-]; auto]. destruct (_ && _); intros [= <-]; auto. }
  destruct (IH _ p (fun q H => proj1 (Hv q H)) E) as [Hp Hin]. split; [done|]. destruct Hin as [?|[_ [->|?]]%Hv]; [left; by right|left; left|by right].
Qed.

Lemma matching_elem before r writes w : w ∈ matching before r writes -> w ∈ writes /\ value w = value r.
Proof.
  assert (Ho : w ∈ others before r writes -> w ∈ writes /\ value w = value r). { intros [Hm Hw]%list_elem_of_filter. split; [done|]. unfold other_match in Hm. rewrite !andb_true_iff, Z.eqb_eq in Hm. tauto. }
  unfold matching. destruct (foldl (latest before r) None writes) as [p|] eqn:E; [|done]. intros [?| ->%list_elem_of_singleton]%elem_of_app; [auto|]. destruct (latest_match before r writes None p ltac:(done) E) as [Hv [Hin|?]]; done.
Qed.

Lemma writes_of reach list_frees list_pairs raw ix x w : window_ok raw -> postProcess reach list_frees list_pairs raw = Ok ix -> w ∈ default [] (ix.(shared).(addr2SeqWrite) !! x) -> w ∈ nodes raw /\ is_write w = true /\ addr w = x.
Proof.
  intros Hwin (_ & _ & ->)%postProcess_parts Hw. rewrite (in_writes _ _ _ (pass3rd_ok _ raw Hwin)) in Hw. apply list_elem_of_filter in Hw as [Hk Hw]. destruct (is_write w && _) eqn:E; [|done]. apply andb_true_iff in E as [? _]. split; [done|]. split; [done|congruence].
Qed.

Lemma nodes_gids raw a b : window_ok raw -> a ∈ nodes raw -> b ∈ nodes raw -> gid a = gid b -> a = b.
Proof. intros Hwin ([t a'] & -> & Ha)%list_elem_of_fmap ([t' b'] & -> & Hb)%list_elem_of_fmap. by apply (win_gids raw Hwin t _ t'). Qed.

Lemma says_models s P m : says s P -> models m s <-> P m.
Proof. intros (fs & Hs & Hm). rewrite (script_models m s _ fs Hs); [apply Hm|apply omap_asserted]. Qed.

Lemma first_value_excluded before r writes init w0 : w0 ∈ writes -> value w0 = value r -> tid w0 <> tid r -> before r w0 = false -> (if init =? -1 then gid w0 < gid r else value r <> init) ->
  others before r writes <> [] /\ match_init init (matching before r writes) r = false.
Proof.
  intros Hw Hv Ht Hb Hi. assert (Ho : w0 ∈ others before r writes) by (apply list_elem_of_filter; split; [|done]; unfold other_match; by rewrite Hv, Z.eqb_refl, Hb, (proj2 (Z.eqb_neq _ _) Ht)).
  split; [intros E; rewrite E in Ho; by apply not_elem_of_nil in Ho|]. unfold match_init. destruct (init =? -1); [|by apply Z.eqb_neq]. apply negb_false_iff, existsb_exists. exists w0. split; [|by apply Z.ltb_lt].
  apply list_elem_of_In. unfold matching. destruct (foldl _ _ _); [apply elem_of_app; by left|done].
Qed.

(** C26: The constraint written for a read keeps a value that another thread has written.  Take a read of a window for
    which another thread wrote the value that was read, in a write the engine does not know to come later, and which
    cannot have seen the first value: either the value before the window is known and another one, or it is not known
    and that write has a smaller number than the read.  Then in every order that satisfies the text [read_constr] writes
    for the read and agrees with what the engine knows, the read comes after a write of its value, and all writes to the
    address between the two write that value as well. *)
Theorem reads_consistent reach list_frees list_pairs raw ix before text m r w0 : (forall a b, reach a b = Ok (before a b)) -> window_ok raw -> postProcess reach list_frees list_pairs raw = Ok ix ->
  r ∈ nodes raw -> is_read r = true -> tid r <> -1 -> (forall a b, a ∈ nodes raw -> b ∈ nodes raw -> a <> b -> before a b = true -> pos m a < pos m b) ->
  let writes := default [] (ix.(shared).(addr2SeqWrite) !! addr r) in let init := default (-1) (ix.(shared).(initWrites) !! addr r) in
  w0 ∈ writes -> value w0 = value r -> tid w0 <> tid r -> before r w0 = false -> (if init =? -1 then gid w0 < gid r else value r <> init) ->
  read_constr reach ix.(shared) r = Ok text -> models m text ->
  exists w, w ∈ writes /\ value w = value r /\ pos m w < pos m r /\ forall w2, w2 ∈ writes -> pos m w <= pos m w2 < pos m r -> value w2 = value r.
Proof.
  intros Hreach Hwin Hix Hr Hread Htid Hord writes init Hw0 Hv0 Ht0 Hb0 Hi Et Hmod. destruct (first_value_excluded before r writes init w0 Hw0 Hv0 Ht0 Hb0 Hi) as [Ho Hinit].
  destruct (read_constr_says reach before Hreach ix.(shared) r) as (text' & Et' & Hs). assert (text' = text) as -> by congruence. pose proof (proj1 (says_models _ _ m Hs) Hmod) as Hok.
  pose proof (fun w => writes_of _ _ _ raw ix (addr r) w Hwin Hix) as Hw. fold writes in Hw. unfold read_ok in Hok. fold writes init in Hok. specialize (Hok Htid). destruct (others before r writes) as [|o os]; [done|]. destruct Hok as [(w & Hm & Hlt & Hc)|[? _]]; [|congruence].
  destruct (matching_elem before r writes w Hm) as [Hin Hv]. exists w. split; [done|]. split; [done|]. split; [done|]. intros w2 Hin2 Hpos. destruct (existsb (same_acc w2) (matching before r writes)) eqn:Ex.
  - apply existsb_exists in Ex as (w' & Hw'%list_elem_of_In & Hs'). apply matching_elem in Hw' as [Hin' Hv']. unfold same_acc in Hs'. rewrite !andb_true_iff, !Z.eqb_eq in Hs'. destruct (Hw w2 Hin2) as (N2 & _), (Hw w' Hin') as (N' & _). by rewrite (nodes_gids raw w2 w' Hwin N2 N') by tauto.
  - exfalso. destruct (Hw w2 Hin2) as (N2 & W2 & _), (Hw w Hin) as (N1 & _). assert (Hne : w2 <> w) by (intros ->; assert (Ht : existsb (same_acc w) (matching before r writes) = true) by (apply existsb_exists; exists w; split; [by apply list_elem_of_In|]; unfold same_acc; by rewrite !Z.eqb_refl); congruence).
    assert (Hrw : r <> w2) by (intros ->; unfold is_read, is_write in *; by destruct w2.2). destruct (before w2 w) eqn:E1; [specialize (Hord w2 w N2 N1 Hne E1); lia|]. destruct (before r w2) eqn:E2; [specialize (Hord r w2 Hr N2 Hrw E2); lia|].
    assert (Hcf : w2 ∈ conflicts before (matching before r writes) writes r w) by (apply list_elem_of_filter; rewrite Ex, E1, E2; done). specialize (Hc w2 Hcf). lia.
Qed.

(** *** Accesses with several candidates *)

(** The decision in an answer: the first line that starts with [unsat] or
    [sat].  There is none if [z3] says [unknown] or has been stopped. *)
Fixpoint decision (start : bool) (out : string) : option bool :=
  match out with
  | EmptyString => None
  | String c rest =>
      if start && String.prefix "unsat" out then Some false
      else if start && String.prefix "sat" out then Some true
      else decision ((c =? newline)%char || (c =? ascii_of_nat 13)%char) rest
  end.

Lemma answer_decision out : forall start, first_answer start out = default false (decision start out).
Proof. induction out as [|c out IH]; intros start; cbn [first_answer decision]; [done|]. destruct (start && _); [done|]. destruct (start && _); [done|apply IH]. Qed.

(** What [z3] decides about a script that declares its constants is true. *)
Class Truthful (z3 : string -> string) : Prop := decided :
  forall script b, scoped script = true -> decision true (z3 script) = Some b -> (b = true <-> exists m, models m script).


(** ** Examples *)

Module Query.
Import Handover Window.

Definition before (a b : gnode) : bool := gid a <=? gid b.

Lemma reach_before a b : reach a b = Ok (before a b).
Proof. reflexivity. Qed.

Definition thread1 : list gnode := [call; alloc; write0; lock10; lock11; write5; unlock11; unlock10; use; return1].
Definition thread2 : list gnode := [read8; read9; free].

Lemma window_candidate ix : index = Ok ix -> candidate_in reach before id id raw ix free use thread1 thread2.
Proof. intros E. split; [exact reach_before|exact raw_ok|exact E|split; [left|exact thread1_order]|split; [right; left|exact thread2_order]]. Qed.

(** The nodes in the order of their numbers. *)
Definition by_number (x : string) : Z := default 0 (varName2GID x).

Lemma query_means_witness : exists ix c text, index = Ok ix /\ prepareConstraints reach ix = Ok c /\ search_query reach ix c free use = Ok text /\ models by_number (text +:+ nl).
Proof.
  destruct index as [ix|] eqn:E; [|vm_compute in E; discriminate]. destruct (query_means reach before id id raw ix free use thread1 thread2 (window_candidate ix E)) as (c & text & Ec & Et & _ & Hm). exists ix, c, text. split; [reflexivity|]. split; [exact Ec|]. split; [exact Et|]. clear Hm.
  vm_compute in E. injection E as <-. vm_compute in Ec. injection Ec as <-. vm_compute in Et. injection Et as <-. eexists. split; [vm_compute; reflexivity|]. repeat constructor.
Defined.

Lemma number_order a b : before a b = true -> a <> b -> gid a <> gid b -> pos by_number a < pos by_number b.
Proof. unfold before, pos, by_number. rewrite !varName_var. cbn. intros H%Z.leb_le _ Hne. lia. Qed.

Lemma reads_consistent_witness : exists ix w, index = Ok ix /\ w ∈ default [] (ix.(shared).(addr2SeqWrite) !! 256) /\ value w = 5 /\ pos by_number w < pos by_number read8.
Proof.
  destruct index as [ix|] eqn:E; [|vm_compute in E; discriminate]. destruct (read_constr reach ix.(shared) read8) as [text|] eqn:Et; [|vm_compute in E; injection E as <-; vm_compute in Et; discriminate].
  destruct (reads_consistent reach id id raw ix before text by_number read8 write5 reach_before raw_ok E) as (w & Hw & Hv & Hlt & _).
  - vm_compute. set_solver +.
  - reflexivity.
  - discriminate.
  - intros a b Ha Hb Hne Hbe. apply number_order; [exact Hbe|exact Hne|]. intros Hg. apply Hne. exact (nodes_gids raw a b raw_ok Ha Hb Hg).
  - vm_compute in E. injection E as <-. vm_compute. set_solver +.
  - reflexivity.
  - discriminate.
  - reflexivity.
  - vm_compute in E. injection E as <-. vm_compute. (reflexivity || discriminate).
  - exact Et.
  - vm_compute in E. injection E as <-. vm_compute in Et. injection Et as <-. eexists. split; [vm_compute; reflexivity|]. repeat constructor.
  - exists ix, w. split; [reflexivity|]. split; [exact Hw|]. split; [exact Hv|exact Hlt].
Defined.

(** The script of the candidate, and a solver that knows just that. *)
Definition script : string :=
  match (ix ← index; c ← prepareConstraints reach ix; search_query reach ix c free use) with Ok text => text +:+ nl | Err _ => EmptyString end.

Definition z3 (s : string) : string := if String.eqb s script then "sat" +:+ nl else "unsat" +:+ nl.

Definition definition_of m (x : string) : obj := Vec [Sym "define-fun"; Sym x; Vec []; Sym "Int"; if m x <? 0 then Vec [Sym "-"; Num (- m x)] else Num (m x)].
Definition answer : list obj := Sym "model" :: (definition_of by_number <$> declared script).
Definition parse (rest : string) : option obj := Some (Vec answer).

Lemma script_sat : models by_number script.
Proof. eexists. split; [vm_compute; reflexivity|]. repeat constructor. Qed.

#[export] Instance answers : GetModel z3 parse.
Proof.
  intros s rest defs E Hp. unfold z3 in E. destruct (String.eqb_spec s script) as [->|Hne]; [|vm_compute in E; discriminate]. exists by_number. split; [exact script_sat|]. unfold parse in Hp. injection Hp as <-.
  intros x tl Hx [Hd|(y & Hd & _)%list_elem_of_fmap]%elem_of_cons; [discriminate|]. injection Hd as <- ->. eexists. split; [reflexivity|]. unfold definition_of. destruct (by_number x <? 0); cbn; [by rewrite Z.opp_involutive|done].
Qed.

Definition pair : AllocaPair := MkPair alloc (Some free) [].

Lemma answer_lists : listed answer free 10 /\ listed answer use 12.
Proof.
  split; [exists (Num 10)|exists (Num 12)]; (split; [|split; [reflexivity|lia]]); right; apply list_elem_of_fmap; [exists (var free)|exists (var use)]; (split; [reflexivity|]); apply list_elem_of_In; vm_compute; tauto.
Qed.


(** An order with the use before the free. *)
Definition harmless (x : string) : Z := if String.eqb x (var free) then 20 else by_number x.

(** A solver that answers just the query with the pair twice. *)
Definition must_script : string :=
  match (ix ← index; c ← prepareConstraints reach ix; must_query c (Some EmptyString) use [pair; pair]) with Ok text => text +:+ nl | Err _ => EmptyString end.

Definition z3_fast (s : string) : string := if String.eqb s must_script then "sat" else "timeout".

Lemma must_sat : models harmless must_script.
Proof. eexists. split; [vm_compute; reflexivity|]. repeat constructor. Qed.

#[export] Instance truthful : Truthful z3_fast.
Proof.
  intros s b _ E. unfold z3_fast in E. destruct (String.eqb_spec s must_script) as [->|Hne]; [|discriminate E]. injection E as <-. split; [intros _; exists harmless; exact must_sat|reflexivity].
Qed.

End Query.

(** A thread that is started in the window. *)
Module Start.
Import Handover Query.

Definition alloc : gnode := (1, AllocNode 1 7 256 16).
Definition start : gnode := (2, TStartNode 0 1 2 0 0).
Definition free : gnode := (10, DeallocNode 1 8 256 16).
Definition begin : gnode := (4, TBeginNode 2 1 0).
Definition read5 : gnode := (5, ReadNode 2 9 256 8 5 0).
Definition use : gnode := (12, ReadNode 2 9 256 8 5 0).

Definition raw : list (Z * list gnode) := [(1, [alloc; start; free]); (2, [begin; read5; use])].

(** The new thread begins first. *)
Definition too_early (x : string) : Z := if String.eqb x (var begin) then -5 else by_number x.

(** Nothing puts the first node of a thread after its start: the query for the use and the free has a solution in which
    the thread runs before it is created. *)
Example start_unordered : exists ix c text, postProcess reach id id raw = Ok ix /\ prepareConstraints reach ix = Ok c /\ search_query reach ix c free use = Ok text /\ models too_early (text +:+ nl) /\ pos too_early begin < pos too_early start.
Proof.
  destruct (postProcess reach id id raw) as [ix|] eqn:E; [|vm_compute in E; discriminate]. vm_compute in E. injection E as <-. do 3 eexists. split; [reflexivity|]. split; [vm_compute; reflexivity|]. split; [vm_compute; reflexivity|]. split; [|reflexivity]. eexists. split; [vm_compute; reflexivity|]. repeat constructor.
Qed.
End Start.

(** A value that only the own thread has written. *)
Module OwnWrite.
Import Query.

Definition write0 : gnode := (1, WriteNode 1 8 256 8 0 0).
Definition write5 : gnode := (2, WriteNode 1 8 256 8 5 0).
Definition read5 : gnode := (3, ReadNode 1 9 256 8 5 0).
Definition write7 : gnode := (4, WriteNode 2 8 256 8 7 0).

Definition index : SharedAccIndexes := pass3rd {[256]} [(1, [write0; write5; read5]); (2, [write7])].

(** The other write in between. *)
Definition between (x : string) : Z := if String.eqb x (var read5) then 5 else by_number x.

(** A read of a value that no other thread has written is not protected: the order in which another value is written
    in between is accepted. *)
Example own_value_unprotected : read_ok before index read5 between /\ pos between write5 < pos between write7 < pos between read5 /\ value write7 <> value read5.
Proof. split; [intros _; vm_compute; discriminate|]. split; [split; reflexivity|discriminate]. Qed.
End OwnWrite.
