(* ===== verification/Predict.v ===== *)
(** * From the first pass to the candidates

    The components of the predictor put together: the clocks of the first pass
    ([NewLoadingTask], [NewReachEngine]) answer the questions that [Allocator] and
    [Indexer] ask while a window of the second pass ([EventLoader]) is indexed.
    What an access is not a candidate for is ordered with it in the execution. *)
From stdpp Require Import base numbers list gmap sorting.
From Stdlib Require Import ZArith Lia.
From S2P Require Import Prelude Events Reader Reach SyncLoader Windows Allocator Index.

Local Open Scope Z_scope.

Implicit Types (n d : gnode) (e : engine).

(** The engine of the first pass keeps its promise to the indexer. *)
Lemma first_pass_engine trs ts toShortArray e : input_ok trs ts toShortArray -> preprocessWaitNotify toShortArray ts (file_of <$> trs) engine_init = Ok e -> Engine (canReach e) (reached (edges_of e)).
Proof.
  intros Hin E n1 n2. destruct (first_pass_built trs ts toShortArray Hin) as (st & e1 & E1 & Ep & _ & Hw & _ & Ee). assert (e1 = e) as -> by congruence. rewrite Ee. by apply (canReach_decides st.2 (toShortArray st.1)).
Qed.

Lemma first_pass_hb trs ts toShortArray e n1 n2 : input_ok trs ts toShortArray -> preprocessWaitNotify toShortArray ts (file_of <$> trs) engine_init = Ok e -> in_program_order (edges_of e) -> canReach e n1 n2 = Ok true -> hb (edges_of e) n1 n2.
Proof.
  intros Hin E Hord Hc. destruct (first_pass_built trs ts toShortArray Hin) as (st & e1 & E1 & Ep & _ & Hw & _ & Ee). assert (e1 = e) as -> by congruence. rewrite Ee in *. by apply (canReach_hb st.2 (toShortArray st.1) e).
Qed.

(** ** The first window *)

Lemma kept_node_facts t g it nd : kept_node t it = Some nd -> node_tid nd = t /\ 0 <= addr (g, nd).
Proof.
  intros E. unfold kept_node in E. assert (Hu : forall z, 0 <= u48 z) by (intros z; apply Z.mod_pos_bound; lia). destruct it; cbn [item_got] in E; try discriminate; repeat case_match; simplify_eq; (split; [done|]); first [apply Hu | done].
Qed.

Lemma kept_nodes_numbered t items : forall k, 0 <= k -> k + zlen items < 2 ^ 31 -> Forall (fun n => numbered t n /\ 0 <= addr n) (kept_nodes t k items).
Proof.
  induction items as [|it items IH]; intros k Hk Hlen; [constructor|]. unfold zlen in Hlen. cbn [length] in Hlen. cbn [kept_nodes]. assert (IH' : Forall (fun n => numbered t n /\ 0 <= addr n) (kept_nodes t (k + 1) items)) by (apply IH; unfold zlen; lia).
  destruct (kept_node t it) as [nd|] eqn:E; [|done]. constructor; [|done]. destruct (kept_node_facts t (longs_add t (k + 1)) it nd E) as [Ht Ha]. split; [|done]. split; [done|]. exists (k + 1). split; [done|lia].
Qed.

Lemma kept_nodes_nodup t items : - 2 ^ 15 <= t < 2 ^ 15 -> forall k, 0 <= k -> k + zlen items < 2 ^ 31 -> NoDup (gid <$> kept_nodes t k items) /\ Forall (fun n => longs_add t k < gid n) (kept_nodes t k items).
Proof.
  intros Ht. induction items as [|it items IH]; intros k Hk Hlen; [split; constructor|]. unfold zlen in Hlen. cbn [length] in Hlen. cbn [kept_nodes]. destruct (IH (k + 1)) as [Hnd Hlt]; [lia|unfold zlen; lia|].
  assert (Hk1 : longs_add t k < longs_add t (k + 1)) by (rewrite !longs_add_eq by lia; lia). assert (Hlt' : Forall (fun n => longs_add t k < gid n) (kept_nodes t (k + 1) items)) by (eapply Forall_impl; [exact Hlt|]; cbn; intros; lia).
  destruct (kept_node t it) as [nd|]; [|done]. rewrite fmap_cons. split; [|by constructor]. constructor; [|done]. intros (n & E & Hn)%list_elem_of_fmap. rewrite Forall_forall in Hlt. specialize (Hlt n Hn). unfold gid in *. cbn [fst] in E. lia.
Qed.

(** Nodes numbered thread by thread. *)
Lemma numbered_window raw : NoDup raw.*1 ->
  (forall t ns, (t, ns) ∈ raw -> - 2 ^ 15 <= t < 2 ^ 15 /\ NoDup (gid <$> ns) /\ Forall (fun n => numbered t n /\ 0 <= addr n) ns) -> window_ok raw.
Proof.
  intros Hnd Hall. assert (Hev : forall t n, (t, n) ∈ events raw -> - 2 ^ 15 <= t < 2 ^ 15 /\ numbered t n /\ 0 <= addr n) by (intros t n (ns & Hns & Hn)%elem_of_events; destruct (Hall t ns Hns) as (? & _ & H); rewrite Forall_forall in H; auto).
  split; [done|intros t n H; apply (Hev t n H)|intros t n H; apply (Hev t n H)|]. clear Hev. induction raw as [|[t ns] raw IH]; [constructor|]. apply NoDup_cons in Hnd as [Hnin Hnd]. change (events ((t, ns) :: raw)) with ((pair t <$> ns) ++ events raw). rewrite fmap_app. destruct (Hall t ns ltac:(left)) as (Ht & Hns & Hf).
  apply NoDup_app. split; [by rewrite <- list_fmap_compose|]. split; [|apply IH; [done|]; intros u us Hu; apply Hall; by right].
  rewrite <- list_fmap_compose. intros g (n & -> & Hn)%list_elem_of_fmap ([u n'] & E & (us & Hus & Hn')%elem_of_events)%list_elem_of_fmap. destruct (Hall u us ltac:(by right)) as (Hu & _ & Hf'). rewrite Forall_forall in Hf, Hf'. apply Hnin, list_elem_of_fmap. exists (u, us). split; [|done].
  apply (numbered_tid t u n n'); [by apply Hf|by apply Hf'|done..].
Qed.

(** The files of a run that one window holds, in which every entry is counted. *)
Definition one_window (trs : gmap Z trace) (windowSize : Z) : Prop := forall t tr, trs !! t = Some tr -> Forall (fun it => has_number it = true) tr.(tr_items) /\ zlen tr.(tr_items) <= windowSize.

Lemma first_window_ok trs listing windowSize l w l' raw : traces_ok trs -> one_window trs windowSize -> (forall s, listing s ≡ₚ elements s) -> loader_init (file_of <$> trs) = Some l -> populateIndexer listing windowSize l = Some (w, l') ->
  raw ≡ₚ map_to_list w -> window_ok raw.
Proof.
  intros Hok Hone Hlist El Ep Hraw. apply numbered_window; [rewrite Hraw; apply NoDup_fst_map_to_list|]. intros t ns Hin. rewrite Hraw in Hin. apply elem_of_map_to_list in Hin.
  destruct (first_window trs listing windowSize Hlist) with (l := l) (w := w) (l' := l') (t := t) (ns := ns) as (tr & Et & ->); [|done..|].
  - intros u tr Hu. destruct (Hok u tr Hu) as (_ & ? & ? & _), (Hone u tr Hu). done.
  - destruct (Hok t tr Et) as (Ht & _ & Hlen & _). split; [done|]. split; [by apply kept_nodes_nodup|by apply kept_nodes_numbered].
Qed.

(** C5: No use after free is dismissed without reason.  Take the files of a run, well-formed and without packets and
    pointer dereferences, each of which one window holds, and in whose edges the ends in every thread come in the
    order of the thread.  After the first pass over the files, the window that the second pass loads from them, with
    its threads in any order, is indexed with the clocks of the first pass without failing; and an access of the window
    to memory whose allocation is matched with a free of another thread is kept as a candidate of that pair, unless it
    happens before the free in the execution that was recorded.  Frees that are only noted as possible for an
    allocation are not covered. *)
Theorem dismissed_ordered trs ts toShortArray e listing windowSize l w l' list_frees list_pairs raw : input_ok trs ts toShortArray -> preprocessWaitNotify toShortArray ts (file_of <$> trs) engine_init = Ok e -> in_program_order (edges_of e) ->
  one_window trs windowSize -> (forall s, listing s ≡ₚ elements s) -> loader_init (file_of <$> trs) = Some l -> populateIndexer listing windowSize l = Some (w, l') -> raw ≡ₚ map_to_list w ->
  (forall l, list_frees l ≡ₚ l) -> (forall l, list_pairs l ≡ₚ l) -> exists ix, postProcess (canReach e) list_frees list_pairs raw = Ok ix /\
  forall t n i p d, (t, n) ∈ events raw -> is_access n = true -> ix.(ix_allocator).(pairs) !! i = Some p -> p.(deallocNode) = Some d -> addr d <= addr n < addr d + len d -> tid d <> tid n ->
    i ∈ default [] (ix.(ix_allocator).(machtedAcc) !! gid n) \/ hb (edges_of e) n d.
Proof.
  intros Hin E Hord Hone Hlist El Epop Hraw Hf Hp. pose proof (first_window_ok trs listing windowSize l w l' raw (in_traces _ _ _ Hin) Hone Hlist El Epop Hraw) as Hwin.
  pose proof (first_pass_engine trs ts toShortArray e Hin E) as He. destruct (postProcess_ok (canReach e) (reached (edges_of e)) list_frees list_pairs Hf Hp raw Hwin) as (ix & Ei & _ & _ & Hm & _). exists ix. split; [done|].
  intros t n i p d Hn Ha Hi Hd Hcov Ht. destruct (engine_answers n d) as (b & Eb & Hb). destruct b; [right; by apply (first_pass_hb trs ts toShortArray)|left]. apply (Hm t n i Hn Ha). exists p, d. repeat split; try done; try lia. intros Hr. by apply Hb in Hr.
Qed.

(** ** A chain of threads, with a free

    Thread 0 allocates and reads, and starts thread 1; this frees and starts
    thread 2, which reads. *)
Module Freed.

Definition read_at (addr : Z) : item := ItMem (new_MemAccEvent (mem_tag false 3) addr 9) [5; 0; 0; 0; 0; 0; 0; 0].
Definition start idx kid : item := ItCreate (new_CreateThreadEvent idx kid 0 0).

Definition files : gmap Z trace :=
  {[0 := MkTrace (Chain.header 0) [Chain.begin 0; ItAlloc (new_AllocEvent 256 7 16); read_at 264; start 10 1];
    1 := MkTrace (Chain.header 1) [Chain.begin 0; ItDealloc (new_DeallocEvent 256 8 16); start 11 2];
    2 := MkTrace (Chain.header 2) [Chain.begin 1; read_at 264]]}.

Definition run : res engine := preprocessWaitNotify id [0; 1; 2] (file_of <$> files) engine_init.

Ltac each_file Ht := unfold files in Ht; repeat (apply lookup_insert_Some in Ht as [[<- <-]|[_ Ht]] || apply lookup_singleton_Some in Ht as [<- <-]).

Lemma files_input : input_ok files [0; 1; 2] id.
Proof.
  assert (Hr : forall a, item_wf (read_at a)) by (intros a; split; [repeat constructor; unfold byte_ok; lia|exists false, 3; done]).
  split; [|repeat constructor; set_solver|done|by vm_compute|done]. intros t tr Ht. each_file Ht; (split; [lia|]); (split; [repeat (apply Forall_cons_2; [exact I || apply Hr|]); apply Forall_nil_2|]); (split; [by vm_compute|]); vm_compute; repeat constructor; discriminate.
Qed.

Lemma files_one_window : one_window files 10.
Proof. intros t tr Ht. each_file Ht; (split; [repeat constructor|by vm_compute]). Qed.

Definition start0 : gnode := (longs_add 0 4, TStartNode 10 0 1 0 0).
Definition start1 : gnode := (longs_add 1 3, TStartNode 11 1 2 0 0).
Definition begin1 : gnode := (longs_add 1 1, TBeginNode 1 0 0).
Definition begin2 : gnode := (longs_add 2 1, TBeginNode 2 1 0).

Lemma files_order e : run = Ok e -> in_program_order (edges_of e).
Proof.
  intros E0. assert (edges_of e = [(start1, begin2); (start0, begin1)]) as -> by (vm_compute in E0; injection E0 as <-; vm_compute; reflexivity).
  intros P d1 M d2 R' t g1 g2 E H1 H2. assert (d2 = (start1, begin2) /\ d1 = (start0, begin1)) as [-> ->].
  { destruct P as [|p [|p' P]]; cbn in E; [|apply (f_equal length) in E; rewrite ?length_app in E; cbn in E; rewrite ?length_app in E; cbn in E; lia..].
    injection E as <- E. split; [done|]. destruct M as [|m M]; cbn in E; [by injection E as <- _|]. injection E as _ E. by destruct M. }
  vm_compute in H1, H2. lia.
Qed.

Definition alloc : gnode := (longs_add 0 2, AllocNode 0 7 256 16).
Definition free : gnode := (longs_add 1 2, DeallocNode 1 8 256 16).
Definition read0 : gnode := (longs_add 0 3, ReadNode 0 9 264 8 5 0).
Definition read2 : gnode := (longs_add 2 2, ReadNode 2 9 264 8 5 0).

Definition first_loader : loader := default (MkLoader ∅ ∅) (loader_init (file_of <$> files)).
Definition loaded_window : window * loader := default (∅, first_loader) (populateIndexer elements 10 first_loader).
Definition raw : list (Z * list gnode) := map_to_list loaded_window.1.

(** The read of thread 0 is before the free in the execution, that of thread 2 is a candidate. *)
Lemma dismissed_ordered_witness : exists e ix, run = Ok e /\ postProcess (canReach e) id id raw = Ok ix /\ hb (edges_of e) read0 free /\ 0%nat ∈ default [] (ix.(ix_allocator).(machtedAcc) !! gid read2).
Proof.
  destruct run as [e|] eqn:E; [|vm_compute in E; discriminate].
  destruct (dismissed_ordered files [0; 1; 2] id e elements 10 first_loader loaded_window.1 loaded_window.2 id id raw files_input E (files_order e E) files_one_window (fun s => reflexivity _)) as (ix & Ei & H); [vm_compute; reflexivity|vm_compute; reflexivity|reflexivity|reflexivity|reflexivity|].
  exists e, ix. split; [reflexivity|]. split; [exact Ei|].
  assert (Hp : ix.(ix_allocator).(pairs) !! 0%nat = Some (MkPair alloc (Some free) []) /\ default [] (ix.(ix_allocator).(machtedAcc) !! gid read0) = [] /\ default [] (ix.(ix_allocator).(machtedAcc) !! gid read2) = [0%nat]) by (vm_compute in E; injection E as <-; vm_compute in Ei; injection Ei as <-; vm_compute; auto).
  destruct Hp as (Hp & H0 & H2). split; [|rewrite H2; left]. assert (Hcov : addr free <= addr read0 < addr free + len free) by (cbn; lia). assert (Hev : (0, read0) ∈ events raw) by (apply (bool_decide_unpack _); vm_compute; exact I).
  destruct (H 0 read0 0%nat (MkPair alloc (Some free) []) free Hev eq_refl Hp eq_refl Hcov) as [Hin|Hb]; [discriminate|exfalso; rewrite H0 in Hin; inversion Hin|exact Hb].
Defined.
End Freed.
